(* ===== verification/_CoqProject ===== *)
-Q . S2P
Prelude.v
Checked.v
Scalar.v
Math64.v
Math32.v
ScalarFacts.v
Planner.v
Capacity.v
Schedule.v
BucketSort.v
WeightedOrder.v
WeightedOrderFacts.v
WeightedAssign.v
WeightedAssignFacts.v
FoldModel.v
StrictFloat.v
FoldSpec.v
FoldGraph.v
FoldTree.v
FoldBuild.v
FoldReduce.v
FoldDenote.v
FoldOrdered.v
Workspace.v
WorkspaceFacts.v
WeightedSchedule.v
WeightedScheduleFacts.v
Artifact.v
ArtifactFacts.v
HostReplay.v
HostReplayFacts.v
Rle.v
RleFacts.v
Observations.v
Ordered.v
MemoryModel.v
MemoryArena.v
PlanMemory.v
MemoryArenaFacts.v
OrdinaryFacts.v
LargeFacts.v
PackFacts.v
ValidateFacts.v
CollectFacts.v
FinalizeFacts.v
ReadyQueue.v
ReadyQueueFacts.v
TaskTable.v
TaskIndexFacts.v
SchedulerFacts.v
SchedulerSteps.v
Channel.v
ChannelWaiters.v
ChannelFacts.v
ChannelRuns.v
ChannelQueue.v
Primitives.v
StableSort.v
PrimSort.v
PrimRadix.v
PrimScan.v
PrimReduce.v
PrimReduceFacts.v
PrimCompact.v
PrimGather.v
PrimScatter.v
PrimScatterFacts.v
IrModel.v
IrCodec.v
IrValidate.v
CpuLanes.v
CpuPlan.v
CpuExec.v
CpuPrepare.v
CpuPlanFacts.v
CpuExecFacts.v
CpuMapFacts.v
CpuAffine.v
CpuRun.v
