(* ===== verification/Prelude.v ===== *)
(** * runD: verification development of the deterministic kernel and the node runtime

    runD runs one declared computation on CPU, Metal and Vulkan with the same bits. The
    development models the code that decides what the bits are and when they are used:
    the number laws, the schedules and reductions of the kernel, the memory plan of a
    compute graph, the replay artifacts, and the task scheduler with its channels.

    ** Parts

    Each group of files models one part of [src/]; a component of the source is a file,
    or a Module where a file holds several, and its operations keep their names.

    - Shared: Prelude (this file: machine integers, guarded list access, loops, tactics),
      Checked ([kernel/core/checked.hpp], and [std::vector] with its capacity), Ordered
      ([std::set], [std::map], heaps).
    - Number laws: Scalar, Math64, Math32 ([math64/fixed/scalar.hpp],
      [math32/fixed/scalar.hpp]), StrictFloat ([kernel/src/reduction/strict]). Facts in
      ScalarFacts and in StrictFloat itself.
    - Reductions: FoldModel, FoldSpec, FoldGraph, FoldReduce ([kernel/src/reduction]);
      FoldTree and FoldBuild about the construction of the tree, FoldDenote and
      FoldOrdered about its evaluation.
    - Schedules: Planner, Capacity, Schedule ([kernel/src/schedule/planner]); Workspace,
      WeightedOrder, WeightedAssign, WeightedSchedule ([kernel/src/schedule/workspace]);
      BucketSort, WeightedOrderFacts, WeightedAssignFacts, WorkspaceFacts and
      WeightedScheduleFacts.
    - Replay: Artifact (the byte format, [node/src/runtime/replay/artifact]), HostReplay
      (host events), Rle (payloads), Observations (scheduler observations), with
      ArtifactFacts, HostReplayFacts and RleFacts.
    - Memory of a compute graph: MemoryModel, MemoryArena, PlanMemory
      ([node/src/compute/resource/memory*]); PlanMemory ends with the abstract system the
      packing refines; MemoryArenaFacts, OrdinaryFacts, LargeFacts, PackFacts,
      ValidateFacts, CollectFacts and FinalizeFacts.
    - Task scheduler: ReadyQueue, TaskTable
      ([node/src/runtime/task/scheduler]: the queue of ready tasks, the records, their
      index, ids, spawning and retiring) with ReadyQueueFacts, TaskIndexFacts and
      SchedulerFacts; SchedulerSteps is the transition system.
    - Channels: Channel ([node/include/rund/task/channel], [scheduler/channel]) with ChannelWaiters and ChannelFacts (the representation),
      ChannelRuns (a channel with the scheduler) and ChannelQueue (its runs).
    - Compute primitives ([kernel/program/compute/{sort,scan,reduce,...}] and what the CPU
      backend of [node/src/accel/cpu] runs for them): Primitives and StableSort (shared),
      PrimSort, PrimScan, PrimReduce, PrimCompact (compact and partition), PrimGather
      (gather and histogram), PrimScatter; PrimSort and PrimScan end with their facts, and
      PrimRadix, PrimReduceFacts and PrimScatterFacts hold the others.
    - Compute maps on the CPU ([kernel/program/compute/{ir,lowering/*}],
      [node/src/accel/cpu/simd]): IrModel (the nodes of a map), IrCodec (its bytes),
      IrValidate (what the lowering admits), CpuLanes (the arithmetic of a lane), CpuPlan (bindings, instruction plan, value slots, affine form), CpuExec (loads,
      stores, executors, the run, and the tile-by-tile meaning of a map), CpuPrepare (the
      checks of an invocation and the run of its bytes); about them CpuPlanFacts,
      CpuExecFacts, CpuMapFacts, CpuAffine and CpuRun.

    They interact as in the source. A schedule partitions the packets that a fold graph
    reduces, in buffers the workspace reserved; the memory plan places what the nodes of a
    graph write. The observations and host events a run leaves are read back from
    artifacts. A channel operation parks and wakes tasks through the scheduler, whose
    queue and table it changes. A primitive is planned by the kernel and run by a backend
    under the plan; a gather reads back what a scatter wrote. The CPU backend compiles the
    nodes of a map into instructions over shared slots and runs them by vectors of tiles.

    ** How code becomes a definition

    An integer of w bits is a [Z], with [wrap32], [wrap64] or [wrap128] at every operation
    that can wrap. An array access is [zget] or [zset], which give no result out of range.
    A function that can be undefined behaviour, abort or loop returns an option; the
    theorems prove that it is never [None], so fuel and range are no assumptions. A
    reported failure is a value: the inner option, a sum, or the code of the source.
    Loops are [for_loop] over a range, [while_loop] with fuel, or recursion; a loop body
    gives [Next] or [Return].

    Fuel, and why it is enough: the levels of a reduction tree of at most 2^31 partitions
    (64); sifting a heap of less than 2^32 entries (33); a binary search of 64-bit limits
    (65); normalising a 128-bit significand (128); eight bytes of a radix key; ten rounds
    of a 64-bit variable-length integer; the rounds of the payload codec (a run or literal
    is at most 130 bytes); the passes of a reduction plan (65); the slots of a scatter's
    hash table; and for walks of lists, active sets, parents, waiters and the
    ready queue, one more than the length. Each is proved enough where it is used.

    ** What the theorems show

    - Number laws: the fixed-point operations have their exact value, truncated or
      saturated as said; the strict addition is the correctly rounded sum; so results do
      not depend on the hardware.
    - Reductions: a fold graph is built as the fixed tree and evaluates to the value it
      denotes; an ordered fold is the tree fold, whatever the order for the laws where the
      order does not matter.
    - Schedules: the partitions tile the packets, the weighted order is unique, the
      assignment is the greedy one, compiling and planning by capacity fail with the
      reason of the first guard, and a reserved workspace compiles without growing.
    - Replay: what is written is read back, what is read is what would be written, and a
      payload's checks agree with its content.
    - Memory: the planner accepts exactly the well-formed graphs, returns, and two
      resources alive together share no byte but for the in-place writes it intends.
    - Scheduler: the queue is a bounded list; from the initial storage, by any operations
      the rest of the runtime may make, nothing aborts, ids are issued once, the index
      finds the live tasks and the queue holds distinct ready ones, which are popped.
    - Channels: a channel with its scheduler answers as an abstract channel, waking never
      fails, and the k-th receive accepted gets the k-th value accepted, in every world
      reached without a deadlock wake of tasks that wait at the channel.
    - Compute primitives: a plan is accepted with the sizes its run needs, and a reduction
      plan has exactly the passes and partials of its tree; under it, the
      CPU backend computes the exact function of its inputs and, where the kernel has a
      simpler reference (insertion sort, quadratic scatter), refines it; what does not fit
      the lanes or the buffers is refused with the stated reason. Scan and reduce are
      stated for the count of the descriptor, because the CPU backend ignores a logical
      count; a signed sum for inputs without an overflow that a later element undoes.
    - Compute maps: every valid map gets an instruction plan; its slots never hold two
      values that are both live, and the run by vectors, with the stable instructions once
      or by the affine loop, gives what the map means tile by tile, failures included. The
      bytes of a program parse back to it exactly when it is valid; a run of any bytes is
      rejected with the outputs untouched, or accepted, and then computes the map when the
      outputs have the widths written and the inputs hold what [ReadAt] may read.

    Where the code does not do what it means to, an example evaluates it:
    [BuildBalancedPartitions_target_wraps], [BuildCapacityWeightedPartitions_order_dependent],
    [BuildCapacityWeightedPartitions_work_saturates], [ScalarMulFixedScaled_narrowing],
    [deadlock_wake_loses_value], [signed_sum_rejects_exact_sum], [gather_out_of_range],
    [mask_out_of_range] and [flag_not_canonical]; [timer_then_ready_unsavable] is a theorem.

    ** Not modelled

    Memory exhaustion and exceptions, statistics and telemetry, locks (the parts modelled
    run under one lock or on one sequencer, so that an operation is a step), and the bodies
    of tasks. Of the scheduler: timers, the reactor, joins, scopes and cancellation, worker
    lanes, direct jobs and coroutine frames. Of the kernel: the compute DSL, the
    lowering to Metal and Vulkan, the fusion of maps, the metadata and the admission of stored
    artifacts, the remaining primitives (segmented, scatter-reduce,
    factor, matrix, solve, spectrum, stencil, transform, window) and the descriptor hashes,
    the vector forms of the number
    laws, the dispatch of compiled programs. Of the node: records and stores of a recording
    beyond the codecs above, host and net, the Metal and Vulkan backends and the buffers of
    the CPU backend, the compute flow,
    pipelines, residency and virtual graphs. Tools, tests, documentation and the site are
    not part of the program. The vendored hash of payloads is a parameter with the law its
    documentation gives. *)

From stdpp Require Import base numbers list option strings.
From Stdlib Require Import ZArith Lia.

(** ** Machine integers

    A C++ [u32], [u64] or [u128] is a [Z]; every operation that can wrap in the
    source is written with [wrap32], [wrap64] or [wrap128]. *)
Declare Scope rund_scope.
Delimit Scope rund_scope with rund.
Open Scope Z_scope.

Abbreviation U32_MAX := 4294967295 (only parsing).
Abbreviation U64_MAX := 18446744073709551615 (only parsing).
Abbreviation U128_MAX := 340282366920938463463374607431768211455 (only parsing).

Definition wrap32 (z : Z) : Z := z mod 4294967296.
Definition wrap64 (z : Z) : Z := z mod 18446744073709551616.
Definition wrap128 (z : Z) : Z := z mod 340282366920938463463374607431768211456.

(** [static_cast] of an integer to a signed type of [w] bits (two's complement). *)
Definition to_signed (w z : Z) : Z := (z + 2 ^ (w - 1)) mod 2 ^ w - 2 ^ (w - 1).

Definition is_u32 (z : Z) : Prop := 0 <= z <= U32_MAX.
Definition is_u64 (z : Z) : Prop := 0 <= z <= U64_MAX.
Definition is_u128 (z : Z) : Prop := 0 <= z <= U128_MAX.

#[export] Instance is_u32_dec z : Decision (is_u32 z).
Proof. unfold is_u32; apply _. Defined.
#[export] Instance is_u64_dec z : Decision (is_u64 z).
Proof. unfold is_u64; apply _. Defined.
#[export] Instance is_u128_dec z : Decision (is_u128 z).
Proof. unfold is_u128; apply _. Defined.

Lemma wrap32_small z : is_u32 z -> wrap32 z = z.
Proof. unfold is_u32, wrap32. intros. apply Z.mod_small. lia. Qed.
Lemma wrap64_small z : is_u64 z -> wrap64 z = z.
Proof. unfold is_u64, wrap64. intros. apply Z.mod_small. lia. Qed.
Lemma wrap128_small z : is_u128 z -> wrap128 z = z.
Proof. unfold is_u128, wrap128. intros. apply Z.mod_small. lia. Qed.
Lemma wrap32_range z : is_u32 (wrap32 z).
Proof. unfold is_u32, wrap32. pose proof (Z.mod_pos_bound z 4294967296). lia. Qed.
Lemma wrap64_range z : is_u64 (wrap64 z).
Proof. unfold is_u64, wrap64. pose proof (Z.mod_pos_bound z 18446744073709551616). lia. Qed.

Create HintDb rund.
#[export] Hint Resolve wrap32_range wrap64_range : rund.

(** ** Boolean tests

    Conditions of the source are boolean terms; [Ltac bool_cases] turns every
    comparison that a [match] or [if] of the goal inspects into a hypothesis of
    linear arithmetic. *)
Ltac to_prop :=
  repeat match goal with
  | H : _ && _ = true |- _ => apply andb_prop in H; destruct H
  | H : _ || _ = false |- _ => apply orb_false_elim in H; destruct H
  | H : negb _ = true |- _ => apply negb_true_iff in H
  | H : negb _ = false |- _ => apply negb_false_iff in H
  | H : (_ <? _) = true |- _ => apply Z.ltb_lt in H
  | H : (_ <? _) = false |- _ => apply Z.ltb_ge in H
  | H : (_ <=? _) = true |- _ => apply Z.leb_le in H
  | H : (_ <=? _) = false |- _ => apply Z.leb_gt in H
  | H : (_ >? _) = true |- _ => rewrite Z.gtb_ltb in H
  | H : (_ >? _) = false |- _ => rewrite Z.gtb_ltb in H
  | H : (_ >=? _) = true |- _ => rewrite Z.geb_leb in H
  | H : (_ >=? _) = false |- _ => rewrite Z.geb_leb in H
  | H : (_ =? _) = true |- _ => apply Z.eqb_eq in H
  | H : (_ =? _) = false |- _ => apply Z.eqb_neq in H
  end.

Ltac if_cases :=
  repeat match goal with
  | |- context [if ?b then _ else _] => let E := fresh "E" in destruct b eqn:E
  end; to_prop.

(** ** Vectors

    A [std::vector] or [std::span] is a list; [zget] and [zset] are the checked
    forms of [v[i]] and [v[i] = x]: reading or writing out of range is undefined
    behaviour in the source and [None] here. *)
Definition zlen {A} (l : list A) : Z := Z.of_nat (length l).

Definition zget {A} (l : list A) (i : Z) : option A :=
  if 0 <=? i then l !! Z.to_nat i else None.

Definition zset {A} (l : list A) (i : Z) (x : A) : option (list A) :=
  if (0 <=? i) && (i <? zlen l) then Some (<[Z.to_nat i := x]> l) else None.

(** The element at an index the code compares with the size first. *)
Definition within {A} (l : list A) (index : Z) : option A := if zlen l <=? index then None else zget l index.

Lemma zlen_nonneg {A} (l : list A) : 0 <= zlen l.
Proof. unfold zlen; lia. Qed.
Lemma zlen_nil {A} : zlen (@nil A) = 0.
Proof. reflexivity. Qed.
Lemma zlen_cons {A} (x : A) l : zlen (x :: l) = zlen l + 1.
Proof. unfold zlen; cbn [length]; lia. Qed.
Lemma zlen_app {A} (l k : list A) : zlen (l ++ k) = zlen l + zlen k.
Proof. unfold zlen; rewrite length_app; lia. Qed.
Lemma zlen_insert {A} (l : list A) i x : zlen (<[i := x]> l) = zlen l.
Proof. unfold zlen; by rewrite length_insert. Qed.
Lemma zlen_map {A B} (f : A -> B) l : zlen (map f l) = zlen l.
Proof. unfold zlen; by rewrite length_map. Qed.
Lemma zlen_0 {A} (l : list A) : zlen l = 0 -> l = [].
Proof. destruct l; [done | rewrite zlen_cons; pose proof (zlen_nonneg l); lia]. Qed.

Lemma zlen_1 {A} (l : list A) : zlen l = 1 -> exists x, l = [x].
Proof.
  destruct l as [|x [|y l]]; [done | by exists x |].
  rewrite !zlen_cons. pose proof (zlen_nonneg l). lia.
Qed.

#[export] Hint Resolve zlen_nonneg : rund.
Create Rewrite HintDb zlen.
#[export] Hint Rewrite @zlen_nil @zlen_cons @zlen_app @zlen_insert @zlen_map : zlen.

Lemma zget_Some {A} (l : list A) i x :
  zget l i = Some x <-> 0 <= i /\ l !! Z.to_nat i = Some x.
Proof. unfold zget. destruct (Z.leb_spec 0 i); naive_solver lia. Qed.

Lemma zget_is_Some {A} (l : list A) i :
  0 <= i < zlen l -> exists x, zget l i = Some x.
Proof.
  intros [H0 H1]. unfold zget, zlen in *.
  destruct (Z.leb_spec 0 i); [| lia]. apply lookup_lt_is_Some. lia.
Qed.

Lemma zget_range {A} (l : list A) i x : zget l i = Some x -> 0 <= i < zlen l.
Proof.
  intros [H0 H1]%zget_Some. apply lookup_lt_Some in H1. unfold zlen. lia.
Qed.

Lemma zget_nil {A} i (x : A) : zget [] i = Some x -> False.
Proof. intros H%zget_range. change (zlen []) with 0 in H. lia. Qed.

Lemma within_zget {A} (l : list A) i : within l i = zget l i.
Proof.
  unfold within. destruct (Z.leb_spec (zlen l) i); [|done]. destruct (zget l i) eqn:E; [|done]. apply zget_range in E. lia.
Qed.

Lemma zget_nat {A} (l : list A) (i : nat) : zget l (Z.of_nat i) = l !! i.
Proof. unfold zget. destruct (Z.leb_spec 0 (Z.of_nat i)); [|lia]. by rewrite Nat2Z.id. Qed.

Lemma zget_app_l {A} (l k : list A) i : i < zlen l -> zget (l ++ k) i = zget l i.
Proof.
  intros H. unfold zget, zlen in *. destruct (Z.leb_spec 0 i); [|done].
  rewrite lookup_app_l; [done | lia].
Qed.
Lemma zget_app_mid {A} (l k : list A) x i : i = zlen l -> zget (l ++ x :: k) i = Some x.
Proof. intros ->. unfold zlen. rewrite zget_nat. by apply list_lookup_middle. Qed.

Lemma zset_Some {A} (l : list A) i x :
  0 <= i < zlen l -> zset l i x = Some (<[Z.to_nat i := x]> l).
Proof.
  intros [H0 H1]. unfold zset.
  destruct (Z.leb_spec 0 i), (Z.ltb_spec i (zlen l)); try lia. done.
Qed.

Lemma zset_inv {A} (l l' : list A) i x :
  zset l i x = Some l' -> 0 <= i < zlen l /\ l' = <[Z.to_nat i := x]> l.
Proof. unfold zset. case_match eqn:E; [|done]. to_prop. naive_solver. Qed.

Lemma zget_insert_eq {A} (l : list A) i x :
  0 <= i < zlen l -> zget (<[Z.to_nat i := x]> l) i = Some x.
Proof.
  intros [H0 H1]. unfold zget, zlen in *. destruct (Z.leb_spec 0 i); [|lia].
  apply list_lookup_insert_eq. lia.
Qed.

Lemma zget_insert_ne {A} (l : list A) i j x :
  0 <= i -> i <> j -> zget (<[Z.to_nat i := x]> l) j = zget l j.
Proof.
  intros H0 H1. unfold zget. destruct (Z.leb_spec 0 j); [|done].
  apply list_lookup_insert_ne. lia.
Qed.

Lemma zset_app_mid {A} (l k : list A) x y i :
  i = zlen l -> zset (l ++ x :: k) i y = Some (l ++ y :: k).
Proof.
  intros ->. rewrite zset_Some.
  - f_equal. unfold zlen. rewrite Nat2Z.id. rewrite insert_app_r_alt, Nat.sub_diag by lia. done.
  - rewrite zlen_app, zlen_cons. pose proof (zlen_nonneg l). pose proof (zlen_nonneg k). lia.
Qed.

Lemma zget_app_r {A} (l k : list A) i : 0 <= i -> zget (l ++ k) (zlen l + i) = zget k i.
Proof.
  intros H. unfold zget, zlen. destruct (Z.leb_spec 0 i); [|lia].
  destruct (Z.leb_spec 0 (Z.of_nat (length l) + i)); [|lia].
  rewrite lookup_app_r by lia. f_equal. lia.
Qed.

Lemma zget_app_ge {A} (l k : list A) i : zlen l <= i -> zget (l ++ k) i = zget k (i - zlen l).
Proof.
  intros. rewrite <- (zget_app_r l k) by lia. f_equal. lia.
Qed.

Lemma zlen_replicate {A} n (x : A) : zlen (replicate n x) = Z.of_nat n.
Proof. unfold zlen. by rewrite length_replicate. Qed.
#[export] Hint Rewrite @zlen_replicate : zlen.

(** Sums of lists. *)
Lemma foldr_add_snoc xs x : foldr Z.add 0 (xs ++ [x]) = foldr Z.add 0 xs + x.
Proof. induction xs as [|y xs IH]; cbn; [lia|]. rewrite IH. lia. Qed.
Lemma foldr_add_nonneg xs : Forall (fun x => 0 <= x) xs -> 0 <= foldr Z.add 0 xs.
Proof. induction 1; cbn; lia. Qed.

(** ** Loops

    [while fuel cond body a] runs a C++ [while] loop; [None] means that the fuel
    ran out, so a theorem [while ... = Some r] is a termination proof. *)
Fixpoint while {A} (fuel : nat) (cond : A -> bool) (body : A -> A) (a : A) : option A :=
  if cond a then
    match fuel with O => None | S n => while n cond body (body a) end
  else Some a.

(** Total correctness of [while]: an invariant and a measure below the fuel. *)
Lemma while_total {A} (Inv : A -> Prop) (measure : A -> Z) cond body fuel a :
  Inv a ->
  (forall x, Inv x -> cond x = true -> Inv (body x) /\ 0 <= measure (body x) < measure x) ->
  measure a <= Z.of_nat fuel -> 0 <= measure a ->
  exists r, while fuel cond body a = Some r /\ Inv r /\ cond r = false.
Proof.
  intros HI Hstep. revert a HI.
  induction fuel as [|fuel IH]; intros a HI Hm H0; cbn; destruct (cond a) eqn:E; eauto.
  - destruct (Hstep a HI E) as [_ ?]. lia.
  - destruct (Hstep a HI E) as [HI' ?]. apply IH; [done | lia | lia].
Qed.

Lemma while_done {A} fuel cond body (a : A) :
  cond a = false -> while fuel cond body a = Some a.
Proof. destruct fuel; cbn; by intros ->. Qed.
Lemma while_next {A} fuel cond body (a : A) :
  cond a = true -> while (S fuel) cond body a = while fuel cond body (body a).
Proof. cbn. by intros ->. Qed.

(** Partial rule: an invariant of the body holds of the result. *)
Lemma while_inv {A} (Inv : A -> Prop) fuel cond body (a r : A) :
  (forall x, Inv x -> Inv (body x)) -> Inv a -> while fuel cond body a = Some r -> Inv r.
Proof.
  intros Hstep. revert a. induction fuel as [|fuel IH]; intros a Ha; cbn; destruct (cond a);
    intros E; try done; [by injection E as <- | | by injection E as <-].
  by eapply IH; [apply Hstep|].
Qed.

#[global] Arguments while : simpl never.

(** One step of a computation that may fail. *)
Lemma bind_Some_eq {A B} (m : option A) (x : A) (k : A -> option B) :
  m = Some x -> (m ≫= k) = k x.
Proof. by intros ->. Qed.
Ltac bind_step E := rewrite (bind_Some_eq _ _ _ E); cbv beta iota.

(** A [for] loop over a list of indices whose body may fail ([None] is undefined
    behaviour). *)
Fixpoint for_each {A S} (body : S -> A -> option S) (s : S) (l : list A) : option S :=
  match l with
  | [] => Some s
  | x :: l => s' ← body s x; for_each body s' l
  end.

Lemma for_each_ext {A S} (f g : S -> A -> option S) s l :
  (forall s x, x ∈ l -> f s x = g s x) -> for_each f s l = for_each g s l.
Proof.
  revert s. induction l as [|x l IH]; intros s H; [done|]. cbn. rewrite H by apply list_elem_of_here.
  destruct (g s x); cbn; [apply IH; intros; apply H; by apply list_elem_of_further | done].
Qed.

Lemma for_each_app {A S} (body : S -> A -> option S) s l k :
  for_each body s (l ++ k) = (s' ← for_each body s l; for_each body s' k).
Proof.
  revert s; induction l as [|x l IH]; intros s; [done|]; cbn.
  destruct (body s x); cbn; [apply IH | done].
Qed.

(** The invariant rule of [for_each]: the invariant speaks of the elements
    already visited. *)
Lemma for_each_inv {A S} (Inv : list A -> S -> Prop) (body : S -> A -> option S) l s :
  Inv [] s ->
  (forall done_ x rest st, l = done_ ++ x :: rest -> Inv done_ st ->
     exists st', body st x = Some st' /\ Inv (done_ ++ [x]) st') ->
  exists st, for_each body s l = Some st /\ Inv l st.
Proof.
  intros H0 Hstep.
  assert (forall done_ rest st, l = done_ ++ rest -> Inv done_ st ->
    exists st', for_each body st rest = Some st' /\ Inv l st') as G.
  { intros done_ rest. revert done_.
    induction rest as [|x rest IH]; intros done_ st El HI; cbn.
    - exists st. rewrite app_nil_r in El. by subst.
    - destruct (Hstep done_ x rest st El HI) as (st' & -> & HI'). cbn.
      apply (IH (done_ ++ [x])); [by rewrite <- app_assoc | done]. }
  by apply (G [] l).
Qed.

(** Loops that may also leave the enclosing function: an iteration yields the
    next state or the value of a [return] statement; [None] is undefined behaviour
    or, for [while_loop], exhausted fuel. *)
Inductive flow (S R : Type) :=
| Next (s : S)
| Return (r : R).
#[global] Arguments Next {S R} s.
#[global] Arguments Return {S R} r.

Fixpoint for_loop {A S R} (body : S -> A -> option (flow S R)) (s : S) (l : list A)
    : option (flow S R) :=
  match l with
  | [] => Some (Next s)
  | x :: l =>
      r ← body s x;
      match r with
      | Next s' => for_loop body s' l
      | Return v => Some (Return v)
      end
  end.

Fixpoint while_loop {S R} (fuel : nat) (cond : S -> bool)
    (body : S -> option (flow S R)) (s : S) : option (flow S R) :=
  if cond s then
    match fuel with
    | O => None
    | Datatypes.S n =>
        r ← body s;
        match r with
        | Next s' => while_loop n cond body s'
        | Return v => Some (Return v)
        end
    end
  else Some (Next s).

(** The statements after a loop. *)
Definition after {S R} (r : option (flow S R)) (k : S -> option R) : option R :=
  f ← r; match f with Next s => k s | Return v => Some v end.

Lemma for_loop_app {A S R} (body : S -> A -> option (flow S R)) s l k :
  for_loop body s (l ++ k) =
  (r ← for_loop body s l;
   match r with Next s' => for_loop body s' k | Return v => Some (Return v) end).
Proof.
  revert s; induction l as [|x l IH]; intros s; [done|]; cbn.
  destruct (body s x) as [[]|]; cbn; [apply IH | done | done].
Qed.

(** Total rule: every iteration continues. *)
Lemma for_loop_total {A S R} (Inv : list A -> S -> Prop) (body : S -> A -> option (flow S R)) l s :
  Inv [] s ->
  (forall d x rest st, l = d ++ x :: rest -> Inv d st ->
     exists st', body st x = Some (Next st') /\ Inv (d ++ [x]) st') ->
  exists st, for_loop body s l = Some (Next st) /\ Inv l st.
Proof.
  intros H0 Hstep.
  assert (forall rest d st, l = d ++ rest -> Inv d st ->
    exists st', for_loop body st rest = Some (Next st') /\ Inv l st') as G.
  { induction rest as [|x rest IH]; intros d st El HI; cbn.
    - exists st. rewrite app_nil_r in El. by subst.
    - destruct (Hstep d x rest st El HI) as (st' & -> & HI'). cbn.
      apply (IH (d ++ [x])); [by rewrite <- app_assoc | done]. }
  by apply (G l []).
Qed.

(** Partial rule: what a loop that ran to its end has established. *)
Lemma for_loop_Next {A S R} (Inv : list A -> S -> Prop) (body : S -> A -> option (flow S R)) l s s' :
  for_loop body s l = Some (Next s') ->
  Inv [] s ->
  (forall d x rest st st', l = d ++ x :: rest -> Inv d st -> body st x = Some (Next st') ->
     Inv (d ++ [x]) st') ->
  Inv l s'.
Proof.
  intros Hrun H0 Hstep.
  assert (forall rest d st, l = d ++ rest -> for_loop body st rest = Some (Next s') ->
    Inv d st -> Inv l s') as G.
  { induction rest as [|x rest IH]; intros d st El Hr HI; cbn in Hr.
    - injection Hr as ->. rewrite app_nil_r in El. by subst.
    - destruct (body st x) as [[st1|v]|] eqn:E; cbn in Hr; [|done|done].
      eapply (IH (d ++ [x])); [by rewrite <- app_assoc | exact Hr | by eapply Hstep]. }
  exact (G l [] s eq_refl Hrun H0).
Qed.

(** A safe loop either runs to its end or returns, and never fails. *)
Lemma for_loop_safe {A S R} (Inv : list A -> S -> Prop) (body : S -> A -> option (flow S R)) l s :
  Inv [] s ->
  (forall d x rest st, l = d ++ x :: rest -> Inv d st ->
     (exists v, body st x = Some (Return v)) \/
     (exists st', body st x = Some (Next st') /\ Inv (d ++ [x]) st')) ->
  (exists v, for_loop body s l = Some (Return v)) \/
  (exists st, for_loop body s l = Some (Next st) /\ Inv l st).
Proof.
  intros H0 Hstep.
  assert (forall rest d st, l = d ++ rest -> Inv d st ->
    (exists v, for_loop body st rest = Some (Return v)) \/
    exists st', for_loop body st rest = Some (Next st') /\ Inv l st') as G.
  { induction rest as [|x rest IH]; intros d st El HI; cbn.
    - right. exists st. rewrite app_nil_r in El. by subst.
    - destruct (Hstep d x rest st El HI) as [[v ->] | (st' & -> & HI')]; cbn; [by left; exists v|].
      apply (IH (d ++ [x])); [by rewrite <- app_assoc | done]. }
  by apply (G l []).
Qed.

(** [for (i = lo; i < hi; ++i)]: the indices of a counted loop. *)
Definition range (lo hi : Z) : list Z := seqZ lo (hi - lo).

Lemma range_nil lo hi : hi <= lo -> range lo hi = [].
Proof. intros. unfold range. apply seqZ_nil. lia. Qed.
Lemma range_cons lo hi : lo < hi -> range lo hi = lo :: range (lo + 1) hi.
Proof. intros. unfold range. rewrite seqZ_cons by lia. do 2 f_equal; lia. Qed.
Lemma range_snoc lo hi : lo <= hi -> range lo (hi + 1) = range lo hi ++ [hi].
Proof.
  intros. unfold range. replace (hi + 1 - lo) with ((hi - lo) + 1) by lia.
  rewrite seqZ_app by lia. f_equal. replace (lo + (hi - lo)) with hi by lia. done.
Qed.
Lemma range_app lo mid hi : lo <= mid <= hi -> range lo hi = range lo mid ++ range mid hi.
Proof.
  intros. unfold range. replace (hi - lo) with ((mid - lo) + (hi - mid)) by lia.
  rewrite seqZ_app by lia. do 2 f_equal; lia.
Qed.
Lemma elem_of_range lo hi i : i ∈ range lo hi <-> lo <= i < hi.
Proof. unfold range. rewrite elem_of_seqZ. lia. Qed.
Lemma length_range lo hi : length (range lo hi) = Z.to_nat (hi - lo).
Proof. unfold range. by rewrite length_seqZ. Qed.
Lemma zlen_range lo hi : lo <= hi -> zlen (range lo hi) = hi - lo.
Proof. intros. unfold zlen. rewrite length_range. lia. Qed.
Lemma range_NoDup lo hi : NoDup (range lo hi).
Proof. apply NoDup_seqZ. Qed.
Lemma zget_range_ix lo hi i : 0 <= i < hi - lo -> zget (range lo hi) i = Some (lo + i).
Proof.
  intros. unfold range. apply zget_Some. split; [lia|].
  apply lookup_seqZ. lia.
Qed.

(** Counted loops: the invariant speaks of the next index. *)
Lemma for_range_inv {S} (Inv : Z -> S -> Prop) (body : S -> Z -> option S) lo hi s :
  lo <= hi -> Inv lo s ->
  (forall i st, lo <= i < hi -> Inv i st ->
     exists st', body st i = Some st' /\ Inv (i + 1) st') ->
  exists st, for_each body s (range lo hi) = Some st /\ Inv hi st.
Proof.
  intros Hle H0 Hstep.
  edestruct (for_each_inv (fun d st => Inv (lo + zlen d) st) body (range lo hi) s)
    as (st & E & HI).
  - rewrite zlen_nil. by replace (lo + 0) with lo by lia.
  - intros d x rest st E HI.
    assert (zget (range lo hi) (zlen d) = Some x) as Hx by (rewrite E; by apply zget_app_mid).
    assert (lo + zlen d < hi).
    { apply zget_range in Hx. rewrite zlen_range in Hx by lia. lia. }
    rewrite zget_range_ix in Hx by (pose proof (zlen_nonneg d); lia).
    injection Hx as <-.
    destruct (Hstep (lo + zlen d) st) as (st' & E' & HI');
      [pose proof (zlen_nonneg d); lia | done |].
    exists st'. split; [done|]. rewrite zlen_app, zlen_cons, zlen_nil.
    by replace (lo + (zlen d + (0 + 1))) with (lo + zlen d + 1) by lia.
  - exists st. split; [done|]. rewrite zlen_range in HI by lia.
    by replace (lo + (hi - lo)) with hi in HI by lia.
Qed.

(** Counted loops that may return early: either every iteration continues and the
    invariant holds at the end, or some iteration returns a value in [Q]. *)
Lemma for_range_safe {S R} (Inv : Z -> S -> Prop) (Q : R -> Prop)
    (body : S -> Z -> option (flow S R)) lo hi s :
  lo <= hi -> Inv lo s ->
  (forall i st, lo <= i < hi -> Inv i st ->
     (exists v, body st i = Some (Return v) /\ Q v) \/
     (exists st', body st i = Some (Next st') /\ Inv (i + 1) st')) ->
  (exists v, for_loop body s (range lo hi) = Some (Return v) /\ Q v) \/
  (exists st, for_loop body s (range lo hi) = Some (Next st) /\ Inv hi st).
Proof.
  intros Hle H0 Hstep. remember (Z.to_nat (hi - lo)) as n eqn:En.
  revert lo s Hle H0 Hstep En. induction n as [|n IH]; intros lo s Hle H0 Hstep En.
  - rewrite range_nil by lia. right. exists s. replace hi with lo by lia. done.
  - rewrite range_cons by lia. cbn [for_loop].
    destruct (Hstep lo s ltac:(lia) H0) as [(v & -> & Hv) | (st' & -> & HI)];
      cbn [mbind option_bind]; [left; by exists v|].
    apply IH; [lia | done | | lia]. intros i st Hi. apply Hstep. lia.
Qed.

Lemma for_range_total {S R} (Inv : Z -> S -> Prop) (body : S -> Z -> option (flow S R)) lo hi s :
  lo <= hi -> Inv lo s ->
  (forall i st, lo <= i < hi -> Inv i st ->
     exists st', body st i = Some (Next st') /\ Inv (i + 1) st') ->
  exists st, for_loop body s (range lo hi) = Some (Next st) /\ Inv hi st.
Proof.
  intros Hle H0 Hstep.
  destruct (for_range_safe Inv (fun _ : R => False) body lo hi s Hle H0) as [(v & _ & [])|]; eauto.
Qed.

Lemma take_S_Z {A} (l : list A) i x :
  0 <= i -> zget l i = Some x -> take (Z.to_nat (i + 1)) l = take (Z.to_nat i) l ++ [x].
Proof.
  intros Hi [_ Hx]%zget_Some. replace (Z.to_nat (i + 1)) with (S (Z.to_nat i)) by lia.
  by apply take_S_r.
Qed.

Lemma zget_nth_range {A} (l : list A) i n : zlen l = n -> 0 <= i < n -> exists x, zget l i = Some x.
Proof. intros <-. apply zget_is_Some. Qed.

(** Total rule of [while_loop] with a measure below the fuel. *)
Lemma while_loop_safe {S R} (Inv : S -> Prop) (Q : R -> Prop) (measure : S -> Z)
    (cond : S -> bool) (body : S -> option (flow S R)) fuel s :
  Inv s ->
  (forall st, Inv st -> cond st = true ->
     (exists v, body st = Some (Return v) /\ Q v) \/
     (exists st', body st = Some (Next st') /\ Inv st' /\ 0 <= measure st' < measure st)) ->
  0 <= measure s < Z.of_nat fuel ->
  (exists v, while_loop fuel cond body s = Some (Return v) /\ Q v) \/
  (exists st, while_loop fuel cond body s = Some (Next st) /\ Inv st /\ cond st = false).
Proof.
  intros HI Hstep. revert s HI. induction fuel as [|n IH]; intros s HI Hm; [lia|].
  cbn [while_loop]. destruct (cond s) eqn:E; [|right; by exists s].
  destruct (Hstep s HI E) as [(v & -> & Hv) | (st & -> & HI' & Hlt)]; cbn [mbind option_bind].
  - left. by exists v.
  - apply IH; [done | lia].
Qed.

Lemma while_loop_total {S R} (Inv : S -> Prop) (measure : S -> Z)
    (cond : S -> bool) (body : S -> option (flow S R)) fuel s :
  Inv s ->
  (forall st, Inv st -> cond st = true ->
     exists st', body st = Some (Next st') /\ Inv st' /\ 0 <= measure st' < measure st) ->
  0 <= measure s < Z.of_nat fuel ->
  exists st, while_loop fuel cond body s = Some (Next st) /\ Inv st /\ cond st = false.
Proof.
  intros HI Hstep Hm.
  destruct (while_loop_safe Inv (fun _ : R => False) measure cond body fuel s HI) as [(v & _ & [])|];
    eauto.
Qed.

(** ** Bits

    Masks and shifts as arithmetic. *)
Lemma land_mask x n : 0 <= n -> Z.land x (2 ^ n - 1) = x mod 2 ^ n.
Proof.
  intros Hn. replace (2 ^ n - 1) with (Z.ones n) by (rewrite Z.ones_equiv; lia).
  by apply Z.land_ones.
Qed.

Lemma lor_disjoint hi lo n :
  0 <= n -> 0 <= lo < 2 ^ n -> Z.lor (hi * 2 ^ n) lo = hi * 2 ^ n + lo.
Proof.
  intros Hn Hlo. rewrite <- Z.shiftl_mul_pow2 by done.
  assert (Z.land (Z.shiftl hi n) lo = 0) as Hd.
  { apply Z.bits_inj'. intros i Hi. rewrite Z.land_spec, Z.shiftl_spec, Z.bits_0 by done.
    destruct (Z.ltb_spec i n); [by rewrite Z.testbit_neg_r by lia|].
    rewrite <- (Z.mod_small lo (2 ^ n)) by done. rewrite Z.mod_pow2_bits_high by lia.
    apply andb_false_r. }
  rewrite <- Z.lxor_lor by done. symmetry. by apply Z.add_nocarry_lxor.
Qed.

Lemma land_field x m n :
  0 <= m -> 0 <= n -> Z.shiftr (Z.land x ((2 ^ m - 1) * 2 ^ n)) n = (x / 2 ^ n) mod 2 ^ m.
Proof.
  intros Hm Hn. rewrite <- Z.shiftl_mul_pow2 by done.
  rewrite Z.shiftr_land, Z.shiftr_shiftl_l, Z.sub_diag by lia. cbn [Z.shiftl Z.shiftr Z.opp].
  rewrite <- land_mask, <- Z.shiftr_div_pow2 by done. done.
Qed.

Lemma land_pow2 x n :
  0 <= n -> (Z.land x (2 ^ n) =? 0) = negb (Z.odd (x / 2 ^ n)).
Proof.
  intros Hn. assert (Z.testbit x n = Z.odd (x / 2 ^ n)) as Ht.
  { rewrite <- Z.bit0_odd, <- Z.shiftr_div_pow2, Z.shiftr_spec by lia. f_equal. }
  destruct (Z.eqb_spec (Z.land x (2 ^ n)) 0) as [H0|H0].
  - apply (f_equal (fun z => Z.testbit z n)) in H0.
    rewrite Z.land_spec, Z.pow2_bits_true, Z.bits_0, andb_true_r, Ht in H0 by done. by rewrite H0.
  - destruct (Z.odd (x / 2 ^ n)) eqn:E; [done|]. destruct H0.
    apply Z.bits_inj'. intros i Hi. rewrite Z.land_spec, Z.bits_0, Z.pow2_bits_eqb by done.
    destruct (Z.eqb_spec n i) as [<-|]; [by rewrite Ht | apply andb_false_r].
Qed.

Lemma pow2_pos n : 0 <= n -> 0 < 2 ^ n.
Proof. intros. by apply Z.pow_pos_nonneg. Qed.
Lemma pow2_succ n : 0 <= n -> 2 ^ (n + 1) = 2 * 2 ^ n.
Proof. intros. rewrite Z.pow_add_r by lia. lia. Qed.
#[export] Hint Resolve pow2_pos : rund.
