(* ===== verification/Checked.v ===== *)
(** * Checked: the overflow-checked arithmetic of [kernel/core/checked.hpp]

    Every plan of the kernel computes sizes with these helpers; an output
    parameter becomes an [option] result ([None] is the [false] return). *)
From stdpp Require Import base numbers list option.
From Stdlib Require Import ZArith Lia.
From S2P Require Import Prelude.

Module Checked.

(** [checked::add(left, right)] *)
Definition add_fits (left right : Z) : bool := left <=? U64_MAX - right.

(** [checked::add(left, right, value)] *)
Definition add (left right : Z) : option Z :=
  if negb (add_fits left right) then None else Some (wrap64 (left + right)).

(** [checked::sub(value, base, difference)] *)
Definition sub (value base : Z) : option Z :=
  if value <? base then None else Some (wrap64 (value - base)).

(** [checked::mul(left, right)] *)
Definition mul_fits (left right : Z) : bool :=
  (right =? 0) || (left <=? U64_MAX / right).

(** [checked::mul(left, right, value)] *)
Definition mul (left right : Z) : option Z :=
  if negb (mul_fits left right) then None else Some (wrap64 (left * right)).

(** [checked::mul(first, second, third, value)] *)
Definition mul3 (first second third : Z) : option Z :=
  match mul first second with
  | None => None
  | Some pair_ => if negb (mul_fits pair_ third) then None else Some (wrap64 (pair_ * third))
  end.

(** [checked::ceil(value, divisor)] *)
Definition ceil (value divisor : Z) : Z :=
  if divisor =? 0 then 0
  else wrap64 (value / divisor + (if negb (value mod divisor =? 0) then 1 else 0)).

(** [checked::align_up(value, alignment, result)] *)
Definition align_up (value alignment : Z) : option Z :=
  if (alignment =? 0) || negb (Z.land alignment (wrap64 (alignment - 1)) =? 0) then None
  else match add value (wrap64 (alignment - 1)) with
       | None => None
       | Some padded => Some (Z.land padded (U64_MAX - wrap64 (alignment - 1)))
       end.

(** ** Facts *)
Section Facts.
Context {left right : Z} (Hl : is_u64 left) (Hr : is_u64 right).

Lemma add_fits_spec : add_fits left right = (left + right <=? U64_MAX).
Proof using Hl Hr.
  unfold add_fits. destruct (Z.leb_spec left (U64_MAX - right)),
    (Z.leb_spec (left + right) U64_MAX); lia.
Qed.

Lemma add_spec v : add left right = Some v <-> v = left + right /\ is_u64 v.
Proof using Hl Hr.
  unfold add, is_u64 in *. rewrite add_fits_spec. case_match; to_prop.
  - split; [done | lia].
  - rewrite wrap64_small by (unfold is_u64; lia). naive_solver lia.
Qed.

Lemma sub_spec v : sub left right = Some v <-> v = left - right /\ 0 <= v.
Proof using Hl Hr.
  unfold sub, is_u64 in *. case_match; to_prop.
  - split; [done | lia].
  - rewrite wrap64_small by (unfold is_u64; lia). naive_solver lia.
Qed.

Lemma mul_fits_spec : mul_fits left right = (left * right <=? U64_MAX).
Proof using Hl Hr.
  unfold mul_fits, is_u64 in *. destruct (Z.eqb_spec right 0) as [->|Hz].
  - cbn. destruct (Z.leb_spec (left * 0) U64_MAX); lia.
  - cbn. assert (left * right <= U64_MAX <-> left <= U64_MAX / right) as E.
    { split; intros; [apply Z.div_le_lower_bound; lia|].
      pose proof (Z.mul_div_le U64_MAX right ltac:(lia)). nia. }
    destruct (Z.leb_spec left (U64_MAX / right)),
      (Z.leb_spec (left * right) U64_MAX); lia.
Qed.

Lemma mul_spec v : mul left right = Some v <-> v = left * right /\ is_u64 v.
Proof using Hl Hr.
  unfold mul, is_u64 in *. rewrite mul_fits_spec. case_match; to_prop.
  - split; [done | lia].
  - rewrite wrap64_small by (unfold is_u64; nia). naive_solver nia.
Qed.
End Facts.

Lemma mul_None left right :
  is_u64 left -> is_u64 right -> mul left right = None <-> U64_MAX < left * right.
Proof.
  intros Hl Hr. unfold mul. rewrite mul_fits_spec by done.
  case_match; to_prop; naive_solver lia.
Qed.

Lemma add_None left right :
  is_u64 left -> is_u64 right -> add left right = None <-> U64_MAX < left + right.
Proof.
  intros Hl Hr. unfold add. rewrite add_fits_spec by done.
  case_match; to_prop; naive_solver lia.
Qed.

(** [ceil] is the rounded-up quotient. *)
Lemma ceil_spec value divisor :
  is_u64 value -> 0 < divisor ->
  ceil value divisor = (value + divisor - 1) / divisor.
Proof.
  intros Hv Hd. unfold ceil, is_u64 in *.
  destruct (Z.eqb_spec divisor 0); [lia|].
  pose proof (Z.div_mod value divisor ltac:(lia)) as E.
  pose proof (Z.mod_pos_bound value divisor ltac:(lia)) as B.
  assert (0 <= value / divisor) by (apply Z.div_pos; lia).
  assert (value / divisor <= value) by (apply Z.div_le_upper_bound; nia).
  destruct (Z.eqb_spec (value mod divisor) 0) as [M|M]; cbn.
  - rewrite wrap64_small by (unfold is_u64; lia).
    apply Z.div_unique with (divisor - 1); lia.
  - rewrite wrap64_small.
    + apply Z.div_unique with (value mod divisor - 1); lia.
    + unfold is_u64. split; [lia|].
      destruct (Z.eq_dec divisor 1) as [->|]; [rewrite Z.mod_1_r in M; lia|].
      assert (value / divisor < value); [|lia].
      apply Z.div_lt; [|lia]. destruct (Z.eq_dec value 0) as [->|]; [|lia].
      rewrite Z.mod_0_l in M; lia.
Qed.

(** A value whose [x & (x - 1)] vanishes is a power of two. *)
Lemma land_pred_pow2 x :
  0 < x -> Z.land x (x - 1) = 0 -> exists k, 0 <= k /\ x = 2 ^ k.
Proof.
  intros Hx H0. exists (Z.log2 x). split; [apply Z.log2_nonneg|].
  pose proof (Z.log2_spec x Hx) as [L U].
  destruct (Z.eq_dec x (2 ^ Z.log2 x)) as [|Hne]; [done|exfalso].
  assert (Z.testbit (Z.land x (x - 1)) (Z.log2 x) = true) as T.
  { rewrite Z.land_spec, Z.bit_log2 by done. cbn.
    rewrite <- (Z.log2_unique (x - 1) (Z.log2 x)) at 1;
      [apply Z.bit_log2; pose proof (Z.log2_nonneg x); nia | apply Z.log2_nonneg | lia]. }
  by rewrite H0, Z.bits_0 in T.
Qed.

Lemma pow2_land_pred k : 0 <= k -> Z.land (2 ^ k) (2 ^ k - 1) = 0.
Proof.
  intros Hk. replace (2 ^ k - 1) with (Z.ones k) by (rewrite Z.ones_equiv; lia).
  rewrite Z.land_ones by done. apply Z.mod_same. lia.
Qed.

(** Clearing the low [k] bits of a 64-bit word. *)
Lemma land_clear_low p k :
  is_u64 p -> 0 <= k <= 64 -> Z.land p (2 ^ 64 - 2 ^ k) = p / 2 ^ k * 2 ^ k.
Proof.
  intros Hp Hk. unfold is_u64 in Hp.
  replace (2 ^ 64 - 2 ^ k) with (Z.shiftl (Z.ones (64 - k)) k).
  2: { rewrite Z.shiftl_mul_pow2, Z.ones_equiv by lia.
       replace (2 ^ 64) with (2 ^ (64 - k) * 2 ^ k) by (rewrite <- Z.pow_add_r by lia; f_equal; lia).
       nia. }
  rewrite <- Z.shiftr_div_pow2, <- Z.shiftl_mul_pow2 by lia.
  apply Z.bits_inj'. intros i Hi.
  rewrite Z.land_spec, !Z.shiftl_spec by done.
  destruct (Z.ltb_spec i k) as [|].
  - rewrite !(Z.testbit_neg_r _ (i - k)) by lia. apply andb_false_r.
  - rewrite Z.shiftr_spec by lia. replace (i - k + k) with i by lia.
    destruct (Z.ltb_spec i 64).
    + rewrite Z.ones_spec_low by lia. apply andb_true_r.
    + rewrite <- (Z.mod_small p (2 ^ 64)) by lia.
      rewrite Z.mod_pow2_bits_high by lia. done.
Qed.

(** [align_up] succeeds exactly when the alignment is a power of two and the
    padded value fits in 64 bits, and then returns the least multiple of the
    alignment that is at least the value. *)
Theorem align_up_spec value alignment r :
  is_u64 value -> is_u64 alignment ->
  align_up value alignment = Some r <->
  (exists k, 0 <= k /\ alignment = 2 ^ k) /\ value + (alignment - 1) <= U64_MAX /\
  (alignment | r) /\ value <= r < value + alignment.
Proof.
  intros Hv Ha. unfold align_up.
  destruct (Z.eqb_spec alignment 0) as [->|Hnz]; cbn [orb].
  { split; [done|]. intros ([k [? E]] & _). pose proof (Z.pow_pos_nonneg 2 k). lia. }
  assert (0 < alignment) by (unfold is_u64 in Ha; lia).
  rewrite wrap64_small by (unfold is_u64 in *; lia).
  destruct (Z.eqb_spec (Z.land alignment (alignment - 1)) 0) as [Hp|Hp]; cbn [negb].
  2: { split; [done|]. intros ([k [? ->]] & _). by destruct Hp; apply pow2_land_pred. }
  destruct (land_pred_pow2 alignment ltac:(lia) Hp) as (k & Hk & ->).
  assert (k < 64) as Hk64.
  { destruct (Z.lt_ge_cases k 64) as [|Hge]; [done|].
    pose proof (Z.pow_le_mono_r 2 64 k ltac:(lia) Hge). unfold is_u64 in Ha. lia. }
  assert (is_u64 (2 ^ k - 1)) as Hu by (unfold is_u64 in *; lia).
  destruct (add value (2 ^ k - 1)) as [padded|] eqn:Eadd.
  - apply (add_spec Hv Hu) in Eadd as [-> Hpad].
    replace (U64_MAX - (2 ^ k - 1)) with (2 ^ 64 - 2 ^ k) by lia.
    rewrite land_clear_low by (done || lia).
    set (d := (value + (2 ^ k - 1)) / 2 ^ k).
    assert (d * 2 ^ k <= value + (2 ^ k - 1) < (d + 1) * 2 ^ k) as Hd.
    { subst d. pose proof (Z.div_mod (value + (2 ^ k - 1)) (2 ^ k) ltac:(lia)).
      pose proof (Z.mod_pos_bound (value + (2 ^ k - 1)) (2 ^ k) ltac:(lia)). nia. }
    split.
    + intros [= <-]. repeat split; [by exists k | unfold is_u64 in Hpad; lia | by exists d | nia | nia].
    + intros (_ & _ & [q ->] & ?). f_equal. assert (q = d) by nia. by subst.
  - apply (add_None _ _ Hv Hu) in Eadd. split; [done | lia].
Qed.

Lemma align_up_spec_witness :
  is_u64 1000 /\ is_u64 256 /\ align_up 1000 256 = Some 1024.
Proof.
  split; [unfold is_u64; lia|]. split; [unfold is_u64; lia|].
  apply align_up_spec; [unfold is_u64; lia | unfold is_u64; lia |].
  split; [by exists 8|]. split; [lia|]. split; [by exists 4 | lia].
Defined.

End Checked.

(** ** [std::vector] with its capacity

    The kernel's [AllocationPolicy::NoGrowth] paths compare sizes with
    [capacity()], so a vector that such a path inspects is a list with its
    capacity. The capacity after a reallocation is the least one that the C++
    standard admits; exhaustion of memory is not modelled. *)
(** [AllocationPolicy] of [kernel/schedule/planner/policy.hpp]. *)
Inductive AllocationPolicy := AllowGrowth | NoGrowth.
#[export] Instance AllocationPolicy_eq_dec : EqDecision AllocationPolicy.
Proof. solve_decision. Defined.

Record vec (A : Type) := Vec { items : list A; capacity : Z }.
#[global] Arguments Vec {A} items capacity.
#[global] Arguments items {A} v.
#[global] Arguments capacity {A} v.

Definition vsize {A} (v : vec A) : Z := zlen (items v).
Definition vempty {A} : vec A := Vec [] 0.
Definition vreserve {A} (v : vec A) (n : Z) : vec A := Vec (items v) (Z.max (capacity v) n).
Definition vclear {A} (v : vec A) : vec A := Vec [] (capacity v).
Definition vpush {A} (v : vec A) (x : A) : vec A :=
  Vec (items v ++ [x]) (Z.max (capacity v) (vsize v + 1)).
(** [resize(n)]: elements beyond [n] are dropped, missing ones are [d]. *)
Definition vresize {A} (v : vec A) (n : Z) (d : A) : vec A :=
  Vec (take (Z.to_nat n) (items v) ++ replicate (Z.to_nat n - length (items v)) d)
    (Z.max (capacity v) n).
Definition vset {A} (v : vec A) (i : Z) (x : A) : option (vec A) :=
  l ← zset (items v) i x; Some (Vec l (capacity v)).

Definition vec_ok {A} (v : vec A) : Prop := vsize v <= capacity v.

Lemma vsize_resize {A} (v : vec A) n d : 0 <= n -> vsize (vresize v n d) = n.
Proof.
  intros. unfold vsize, vresize, zlen. cbn.
  rewrite length_app, length_take, length_replicate. lia.
Qed.

Lemma vresize_clear {A} (v : vec A) n d :
  items (vresize (vclear v) n d) = replicate (Z.to_nat n) d.
Proof. cbn. rewrite take_nil, Nat.sub_0_r. done. Qed.
