(* ===== verification/Scalar.v ===== *)
(** * Scalar: the fixed-point and saturating scalar laws of math32 and math64

    [math64/fixed/scalar.hpp] and [math32/fixed/scalar.hpp] are the same laws at
    lane widths 64 and 32 with intermediates of twice the width.  Module [Lane]
    states each law once, for a lane of [w] bits; [Math64.v] and [Math32.v] are
    the two headers.  A lane value is a [Z] in [-2^(w-1), 2^(w-1)). *)
From stdpp Require Import base numbers list option.
From Stdlib Require Import ZArith Lia.
From S2P Require Import Prelude.

(** The unsigned 64-bit saturating helpers are identical in both headers. *)
Module Sat.

Definition ScalarSatAdd (lhs rhs : Z) : Z :=
  if lhs >? U64_MAX - rhs then U64_MAX else wrap64 (lhs + rhs).

Definition ScalarSatSub (value amount : Z) : Z :=
  wrap64 (value - (if amount >? value then value else amount)).

Definition ScalarSatMul (lhs rhs : Z) : Z :=
  if negb (lhs =? 0) && (rhs >? U64_MAX / lhs) then U64_MAX else wrap64 (lhs * rhs).

Definition ScalarSatU32 (value : Z) : Z :=
  if value >? U32_MAX then U32_MAX else wrap32 value.

Definition ScalarSatMilliRatio (numerator denominator : Z) : Z :=
  if denominator =? 0 then 0 else
  let scaled := if numerator >? U64_MAX / 1000 then U64_MAX else wrap64 (numerator * 1000) in
  let ratio := scaled / denominator in
  if ratio >? U32_MAX then U32_MAX else wrap32 ratio.

(** The saturating operations are the exact operations clamped to 64 bits. *)
Lemma ScalarSatAdd_spec l r :
  is_u64 l -> is_u64 r -> ScalarSatAdd l r = Z.min U64_MAX (l + r).
Proof.
  unfold is_u64, ScalarSatAdd. intros. case_match; to_prop; [lia|].
  rewrite wrap64_small by (unfold is_u64; lia). lia.
Qed.

Lemma ScalarSatSub_spec l r :
  is_u64 l -> is_u64 r -> ScalarSatSub l r = Z.max 0 (l - r).
Proof.
  unfold is_u64, ScalarSatSub. intros.
  case_match; to_prop; rewrite wrap64_small by (unfold is_u64; lia); lia.
Qed.

Lemma ScalarSatMul_spec l r :
  is_u64 l -> is_u64 r -> ScalarSatMul l r = Z.min U64_MAX (l * r).
Proof.
  unfold is_u64, ScalarSatMul. intros Hl Hr.
  destruct (Z.eqb_spec l 0) as [->|Hz]; cbn [negb andb].
  { rewrite wrap64_small by (unfold is_u64; lia). lia. }
  destruct (r >? U64_MAX / l) eqn:E; to_prop.
  - assert (U64_MAX < l * r); [|lia].
    pose proof (Z.mul_succ_div_gt U64_MAX l ltac:(lia)). nia.
  - pose proof (Z.mul_div_le U64_MAX l ltac:(lia)).
    rewrite wrap64_small by (unfold is_u64; nia). nia.
Qed.

Lemma ScalarSatAdd_range l r : is_u64 l -> is_u64 r -> is_u64 (ScalarSatAdd l r).
Proof. intros. rewrite ScalarSatAdd_spec by done. unfold is_u64 in *. lia. Qed.
Lemma ScalarSatSub_range l r : is_u64 l -> is_u64 r -> is_u64 (ScalarSatSub l r).
Proof. intros. rewrite ScalarSatSub_spec by done. unfold is_u64 in *. lia. Qed.
Lemma ScalarSatMul_range l r : is_u64 l -> is_u64 r -> is_u64 (ScalarSatMul l r).
Proof. intros. rewrite ScalarSatMul_spec by done. unfold is_u64 in *. nia. Qed.
#[export] Hint Resolve ScalarSatAdd_range ScalarSatSub_range ScalarSatMul_range : rund.

(** The milli ratio is [1000 * numerator / denominator] clamped to 32 bits. *)
Lemma ScalarSatMilliRatio_spec n d :
  is_u64 n -> 0 < d <= U32_MAX -> n <= U64_MAX / 1000 ->
  ScalarSatMilliRatio n d = Z.min U32_MAX (1000 * n / d).
Proof.
  intros Hn Hd Hs. unfold is_u64, ScalarSatMilliRatio in *.
  destruct (Z.eqb_spec d 0); [lia|].
  destruct (n >? U64_MAX / 1000) eqn:E; to_prop; [lia|].
  pose proof (Z.mul_div_le U64_MAX 1000 ltac:(lia)).
  rewrite wrap64_small by (unfold is_u64; lia). rewrite (Z.mul_comm n 1000).
  assert (0 <= 1000 * n / d) by (apply Z.div_pos; lia).
  destruct (1000 * n / d >? U32_MAX) eqn:E'; to_prop; [lia|].
  rewrite wrap32_small by (unfold is_u32; lia). lia.
Qed.

End Sat.

Module Lane.
Section Width.
(** [w] is the lane width; the intermediates have [2 * w] bits. *)
Variable w : Z.

Definition FixedMin : Z := - 2 ^ (w - 1).
Definition FixedMax : Z := 2 ^ (w - 1) - 1.
Definition FixedScale : Z := 2 ^ (w - 1).

(** [std::bit_cast] between the signed and the unsigned lane. *)
Definition bits_of (value : Z) : Z := value mod 2 ^ w.
Definition of_bits (bits : Z) : Z := to_signed w bits.

Definition ScalarClamp (value : Z) : Z :=
  if value >? FixedMax then FixedMax
  else if value <? FixedMin then FixedMin
  else value.

Definition ScalarAbsMagnitude (value : Z) : Z :=
  let bits := bits_of value in
  if Z.land bits (2 ^ (w - 1)) =? 0 then bits else (2 ^ w - 1 - bits + 1) mod 2 ^ w.

Definition ScalarAbs (value : Z) : Z :=
  if value =? FixedMin then FixedMax else of_bits (ScalarAbsMagnitude value).

Definition ScalarSign (value : Z) : Z :=
  if value >? 0 then 1 else if value <? 0 then -1 else 0.

Definition ScalarClampSignedMagnitude (negative : bool) (magnitude : Z) : Z :=
  if negative then
    let limit := 2 ^ (w - 1) in
    if magnitude >=? limit then FixedMin else - magnitude
  else if magnitude >? FixedMax then FixedMax
  else magnitude.

Definition ScalarAddWrap (lhs rhs : Z) : Z := of_bits ((bits_of lhs + bits_of rhs) mod 2 ^ w).
Definition ScalarAddWrapUnsigned (lhs rhs : Z) : Z := (lhs + rhs) mod 2 ^ w.
Definition ScalarSubWrap (lhs rhs : Z) : Z := of_bits ((bits_of lhs - bits_of rhs) mod 2 ^ w).
Definition ScalarMulLow (lhs rhs : Z) : Z := of_bits ((bits_of lhs * bits_of rhs) mod 2 ^ w).
Definition ScalarMulHigh (lhs rhs : Z) : Z :=
  of_bits (Z.shiftr (bits_of lhs * bits_of rhs) w mod 2 ^ w).
Definition ScalarWidenMul (lhs rhs : Z) : Z := lhs * rhs.
Definition ScalarAddSat (lhs rhs : Z) : Z := ScalarClamp (lhs + rhs).
Definition ScalarSubSat (lhs rhs : Z) : Z := ScalarClamp (lhs - rhs).
Definition ScalarMin (lhs rhs : Z) : Z := if lhs <? rhs then lhs else rhs.
Definition ScalarMax (lhs rhs : Z) : Z := if lhs >? rhs then lhs else rhs.
Definition ScalarClampBounds (value lower upper : Z) : Z :=
  ScalarMin (ScalarMax value lower) upper.

Definition ScalarNegPositiveFixed (value : Z) : Z :=
  let negated := to_signed w (- value) in
  if value =? FixedMax then FixedMin else negated.

Definition ScalarMulFixed (lhs rhs : Z) : Z :=
  ScalarClamp (Z.quot (lhs * rhs) FixedScale).
Definition ScalarMulAddFixed (lhs rhs addend : Z) : Z :=
  ScalarClamp (Z.quot (lhs * rhs) FixedScale + addend).
Definition ScalarDivFixed (lhs rhs : Z) : Z :=
  if rhs =? 0 then
    if lhs >? 0 then FixedMax else if lhs <? 0 then FixedMin else 0
  else ScalarClamp (Z.quot (lhs * FixedScale) rhs).
Definition ScalarRecip (value : Z) : Z :=
  if value =? 0 then FixedMax
  else ScalarClamp (Z.quot (FixedScale * FixedScale) value).
End Width.

(** The bit-by-bit integer square root; the state is [(value, result, bit)]. *)
Definition sqrt_step (s : Z * Z * Z) : Z * Z * Z :=
  let '(value, result, bit) := s in
  if value >=? wrap128 (result + bit)
  then (wrap128 (value - wrap128 (result + bit)),
        wrap128 (Z.shiftr result 1 + bit), Z.shiftr bit 2)
  else (value, Z.shiftr result 1, Z.shiftr bit 2).

Definition ScalarIntegerSqrt128 (value : Z) : option Z :=
  bit ← while 64 (fun bit => bit >? value) (fun bit => Z.shiftr bit 2) (Z.shiftl 1 126);
  s ← while 64 (fun s => negb (snd s =? 0)) sqrt_step (value, 0, bit);
  Some (snd (fst s)).

Definition ScalarSqrt (w value : Z) : option Z :=
  if value <=? 0 then Some 0
  else root ← ScalarIntegerSqrt128 (value * FixedScale w); Some (ScalarClamp w root).

Definition ScalarRsqrt (w value : Z) : option Z :=
  if value <=? 0 then Some (FixedMax w)
  else root ← ScalarSqrt w value;
       Some (if root =? 0 then FixedMax w else ScalarRecip w root).

Definition is_lane (w z : Z) : Prop := FixedMin w <= z <= FixedMax w.

End Lane.
