(* ===== verification/Math64.v ===== *)
(** * Math64: the lane law of [math64/fixed/scalar.hpp], lanes of 64 bits

    Each function is the one of [Lane] at width 64; the ones that are not shared
    by both headers are written out. *)
From stdpp Require Import base numbers list option.
From Stdlib Require Import ZArith Lia.
From S2P Require Import Prelude Scalar.

Definition ScalarClamp := Lane.ScalarClamp 64.
Definition ScalarAbs := Lane.ScalarAbs 64.
Definition ScalarClampSignedMagnitude := Lane.ScalarClampSignedMagnitude 64.
Definition ScalarAddWrap := Lane.ScalarAddWrap 64.
Definition ScalarSubWrap := Lane.ScalarSubWrap 64.
Definition ScalarMulLow := Lane.ScalarMulLow 64.
Definition ScalarMulHigh := Lane.ScalarMulHigh 64.
Definition ScalarAddSatUnsigned := Sat.ScalarSatAdd.
Definition ScalarMulFixed := Lane.ScalarMulFixed 64.
(** The product of an [i64] and a [u64] fits the [i128] intermediate. *)
Definition ScalarMulFixedScaled (value scaled_coefficient : Z) : Z :=
  ScalarClamp (Z.quot (value * scaled_coefficient) (Lane.FixedScale 64)).
Definition ScalarMulUnsignedFixed (lhs rhs : Z) : Z :=
  wrap128 (lhs * rhs) / Lane.FixedScale 64.
Definition ScalarMulAddFixed := Lane.ScalarMulAddFixed 64.
Definition ScalarDivFixed := Lane.ScalarDivFixed 64.
Definition ScalarRecip := Lane.ScalarRecip 64.
Definition ScalarSqrt := Lane.ScalarSqrt 64.
Definition ScalarRsqrt := Lane.ScalarRsqrt 64.
