(* ===== verification/Math32.v ===== *)
(** * Math32: the lane law of [math32/fixed/scalar.hpp], lanes of 32 bits

    Each function is the one of [Lane] at width 32; the ones that are not shared
    by both headers are written out. *)
From stdpp Require Import base numbers list option.
From Stdlib Require Import ZArith Lia.
From S2P Require Import Prelude Scalar.

Definition ScalarClamp := Lane.ScalarClamp 32.
Definition ScalarAbsMagnitude := Lane.ScalarAbsMagnitude 32.
Definition ScalarAbs := Lane.ScalarAbs 32.
Definition ScalarSign := Lane.ScalarSign.
Definition ScalarClampSignedMagnitude := Lane.ScalarClampSignedMagnitude 32.
Definition ScalarAddWrap := Lane.ScalarAddWrap 32.
Definition ScalarAddWrapUnsigned := Lane.ScalarAddWrapUnsigned 32.
Definition ScalarSubWrap := Lane.ScalarSubWrap 32.
Definition ScalarMulLow := Lane.ScalarMulLow 32.
Definition ScalarMulHigh := Lane.ScalarMulHigh 32.
Definition ScalarWidenMul := Lane.ScalarWidenMul.
Definition ScalarAddSat := Lane.ScalarAddSat 32.
Definition ScalarSubSat := Lane.ScalarSubSat 32.
Definition ScalarMin := Lane.ScalarMin.
Definition ScalarMax := Lane.ScalarMax.
Definition ScalarClampBounds := Lane.ScalarClampBounds.
Definition ScalarNegPositiveFixed := Lane.ScalarNegPositiveFixed 32.
Definition ScalarAddSatUnsigned (lhs rhs : Z) : Z :=
  let sum := wrap32 (lhs + rhs) in if sum <? lhs then U32_MAX else sum.
Definition ScalarSelect (condition : bool) (when_true when_false : Z) : Z :=
  if condition then when_true else when_false.
Definition ScalarMulFixed := Lane.ScalarMulFixed 32.
(** The [i128] quotient is cast to [i64] before it is clamped. *)
Definition ScalarMulFixedScaled (value scaled_coefficient : Z) : Z :=
  ScalarClamp (to_signed 64 (Z.quot (value * scaled_coefficient) (Lane.FixedScale 32))).
Definition ScalarMulUnsignedFixed (lhs rhs : Z) : Z :=
  Z.shiftr (wrap32 lhs * wrap32 rhs) 31.
Definition ScalarMulAddFixed := Lane.ScalarMulAddFixed 32.
Definition ScalarDivFixed := Lane.ScalarDivFixed 32.
Definition ScalarRecip := Lane.ScalarRecip 32.
Definition ScalarSqrt := Lane.ScalarSqrt 32.
Definition ScalarRsqrt := Lane.ScalarRsqrt 32.
