(* ===== verification/ScalarFacts.v ===== *)
(** * ScalarFacts: what the fixed-point lane laws compute

    [SqrtFacts]: the digit-by-digit integer square root terminates and is the
    floor of the root.  [LaneFacts]: error bounds and ranges of the lane laws. *)
From stdpp Require Import base numbers list option.
From Stdlib Require Import ZArith Lia.
From S2P Require Import Prelude Scalar Math32 Math64.

(** ** The integer square root *)
Module SqrtFacts.
Import Lane.

Definition bit_measure (bit : Z) : Z := if bit =? 0 then 0 else Z.log2 bit / 2 + 1.

Lemma pow4 k : 0 <= k -> 4 ^ k = 2 ^ k * 2 ^ k.
Proof. intros. replace 4 with (2 * 2) by lia. by rewrite Z.pow_mul_l. Qed.

Lemma bit_measure_pow4 k : 0 <= k -> bit_measure (4 ^ k) = k + 1.
Proof.
  intros. unfold bit_measure. pose proof (Z.pow_pos_nonneg 4 k ltac:(lia) ltac:(lia)).
  destruct (Z.eqb_spec (4 ^ k) 0); [lia|].
  replace (4 ^ k) with (2 ^ (k * 2)) by (rewrite Z.mul_comm, Z.pow_mul_r by lia; done).
  rewrite Z.log2_pow2, Z.div_mul by lia. lia.
Qed.

Lemma shiftr_pow4 k : 0 < k -> Z.shiftr (4 ^ k) 2 = 4 ^ (k - 1).
Proof.
  intros. rewrite Z.shiftr_div_pow2 by lia.
  replace k with (1 + (k - 1)) at 1 by lia. rewrite Z.pow_add_r by lia.
  change (2 ^ 2) with (4 ^ 1). rewrite Z.mul_comm, Z.div_mul; [done | lia].
Qed.

(** One more bit position, or the end of the loop. *)
Lemma shift_bit k :
  0 <= k -> (k = 0 /\ Z.shiftr (4 ^ k) 2 = 0) \/ (0 < k /\ Z.shiftr (4 ^ k) 2 = 4 ^ (k - 1)).
Proof.
  intros. destruct (Z.eq_dec k 0) as [->|]; [by left|right].
  split; [lia | apply shiftr_pow4; lia].
Qed.

Lemma bit_measure_shift k :
  0 <= k -> 0 <= bit_measure (Z.shiftr (4 ^ k) 2) < bit_measure (4 ^ k).
Proof.
  intros Hk. rewrite bit_measure_pow4 by lia.
  destruct (shift_bit k Hk) as [[-> ->]|[? ->]]; [cbn; lia|].
  rewrite bit_measure_pow4 by lia. lia.
Qed.

Definition start_inv (v bit : Z) : Prop :=
  (bit = 0 /\ v = 0) \/ exists k, 0 <= k <= 63 /\ bit = 4 ^ k /\ v < 4 ^ (k + 1).

Lemma find_start v :
  is_u128 v -> exists bit,
  while 64 (fun bit => bit >? v) (fun bit => Z.shiftr bit 2) (Z.shiftl 1 126) = Some bit /\
  start_inv v bit.
Proof.
  intros Hv. change (Z.shiftl 1 126) with (4 ^ 63).
  edestruct (while_total (start_inv v) bit_measure) as (bit & E & HI & _);
    [| | | | by exists bit].
  - right. exists 63. split; [lia|]. split; [done|]. unfold is_u128 in Hv.
    change (4 ^ (63 + 1)) with (U128_MAX + 1). lia.
  - intros bit HI Hc. to_prop. destruct HI as [[-> ->]|(k & Hk & -> & Hlt)]; [lia|].
    split; [|apply bit_measure_shift; lia].
    destruct (shift_bit k ltac:(lia)) as [[-> ->]|[? ->]].
    + left. split; [done|]. unfold is_u128 in Hv. change (4 ^ 0) with 1 in Hc. lia.
    + right. exists (k - 1). split; [lia|]. split; [done|].
      replace (k - 1 + 1) with k by lia. lia.
  - rewrite bit_measure_pow4; lia.
  - rewrite bit_measure_pow4; lia.
Qed.

(** [result = 2 * q * 2^k] and [value = N - q^2], where [q] is the root found so
    far, a multiple of [2^(k+1)]. *)
Definition root_inv (N : Z) (s : Z * Z * Z) : Prop :=
  let '(value, result, bit) := s in
  exists q, 0 <= q /\ q * q <= N /\
    ((bit = 0 /\ result = q /\ N < (q + 1) * (q + 1)) \/
     exists k m, 0 <= k <= 63 /\ bit = 4 ^ k /\ q = m * 2 ^ (k + 1) /\
       result = 2 * q * 2 ^ k /\ value = N - q * q /\
       N < (q + 2 ^ (k + 1)) * (q + 2 ^ (k + 1))).

(** The candidate [q + 2^k] has no wrap: its terms stay within 128 bits. *)
Lemma root_sum_range N q k m :
  is_u128 N -> 0 <= q -> q * q <= N -> 0 <= k <= 63 -> q = m * 2 ^ (k + 1) ->
  is_u128 (2 * q * 2 ^ k + 4 ^ k).
Proof.
  intros HN Hq Hqq Hk Hm. unfold is_u128 in *. rewrite pow4 by lia.
  assert (q < 2 ^ 64) by nia.
  assert (0 < 2 ^ k) by lia. assert (2 ^ (k + 1) = 2 * 2 ^ k) as E2 by (rewrite Z.pow_add_r; lia).
  assert (0 <= m) by nia.
  assert (q + 2 ^ (k + 1) <= 2 ^ 64) as Hle.
  { replace (2 ^ 64) with (2 ^ (63 - k) * 2 ^ (k + 1)) in *
      by (rewrite <- Z.pow_add_r by lia; f_equal; lia).
    assert (0 < 2 ^ (63 - k)) by lia.
    subst q. assert (m < 2 ^ (63 - k)) by nia. nia. }
  split; [nia|].
  assert ((q + 2 ^ k) * (q + 2 ^ k) <= (2 ^ 64 - 2 ^ k) * (2 ^ 64 - 2 ^ k)) by nia.
  assert (2 * q * 2 ^ k + 2 ^ k * 2 ^ k <= (q + 2 ^ k) * (q + 2 ^ k)) by nia.
  nia.
Qed.

Lemma root_step N s :
  is_u128 N -> root_inv N s -> negb (snd s =? 0) = true ->
  root_inv N (sqrt_step s) /\ 0 <= bit_measure (snd (sqrt_step s)) < bit_measure (snd s).
Proof.
  intros HN HI Hc. destruct s as [[value result] bit]. cbn [snd] in *. to_prop.
  destruct HI as (q & Hq & Hqq & [(-> & _)|(k & m & Hk & -> & Hm & -> & -> & Hup)]); [done|].
  pose proof (root_sum_range N q k m HN Hq Hqq Hk Hm) as Hsum.
  assert (0 < 2 ^ k) as Hp by lia. pose proof (pow4 k ltac:(lia)) as E4.
  assert (2 ^ (k + 1) = 2 * 2 ^ k) as E2 by (rewrite Z.pow_add_r; lia).
  assert (Z.shiftr (2 * q * 2 ^ k) 1 = q * 2 ^ k) as Esh.
  { rewrite Z.shiftr_div_pow2 by lia. change (2 ^ 1) with 2.
    replace (2 * q * 2 ^ k) with (q * 2 ^ k * 2) by lia. apply Z.div_mul. lia. }
  cbn [sqrt_step]. rewrite (wrap128_small _ Hsum), Esh.
  assert (forall q' m', 0 <= q' -> q' * q' <= N -> q' = m' * 2 ^ k ->
    N < (q' + 2 ^ k) * (q' + 2 ^ k) ->
    root_inv N (N - q' * q', q' * 2 ^ k, Z.shiftr (4 ^ k) 2)) as Hnext.
  { intros q' m' Hq' Hqq' Hm' Hup'. exists q'. split; [done|]. split; [done|].
    destruct (shift_bit k ltac:(lia)) as [[-> ->]|[? ->]].
    - left. change (2 ^ 0) with 1 in *. split; [done|]. split; lia.
    - right. exists (k - 1), m'. replace (k - 1 + 1) with k by lia.
      assert (2 ^ k = 2 * 2 ^ (k - 1)) by (rewrite <- Z.pow_succ_r by lia; f_equal; lia).
      repeat (split; [first [done | lia | nia]|]). done. }
  destruct (_ >=? _) eqn:E; cbn [snd]; (split; [|apply bit_measure_shift; lia]); to_prop.
  - assert (is_u128 (N - q * q - (2 * q * 2 ^ k + 4 ^ k))) as Hv
      by (unfold is_u128 in *; nia).
    rewrite (wrap128_small _ Hv), wrap128_small by (unfold is_u128 in *; nia).
    replace (N - q * q - (2 * q * 2 ^ k + 4 ^ k)) with (N - (q + 2 ^ k) * (q + 2 ^ k)) by nia.
    replace (q * 2 ^ k + 4 ^ k) with ((q + 2 ^ k) * 2 ^ k) by nia.
    apply (Hnext _ (2 * m + 1)); nia.
  - apply (Hnext _ (2 * m)); nia.
Qed.

(** [ScalarIntegerSqrt128] terminates on every 128-bit value, never wraps its
    intermediates, and returns the integer square root. *)
Theorem ScalarIntegerSqrt128_spec value :
  is_u128 value -> ScalarIntegerSqrt128 value = Some (Z.sqrt value).
Proof.
  intros Hv. unfold ScalarIntegerSqrt128.
  destruct (find_start value Hv) as (bit & -> & Hs). cbn.
  edestruct (while_total (root_inv value) (fun s => bit_measure (snd s))
               (fun s => negb (snd s =? 0)) sqrt_step 64 (value, 0, bit))
    as (s & E & HI & Hend).
  - exists 0. unfold is_u128 in Hv. split; [lia|]. split; [lia|].
    destruct Hs as [[-> ->]|(k & Hk & -> & Hlt)]; [by left|right].
    exists k, 0. repeat (split; [first [done | lia]|]).
    replace (4 ^ (k + 1)) with (2 ^ (k + 1) * 2 ^ (k + 1)) in Hlt
      by (rewrite <- pow4 by lia; done). nia.
  - intros s HI Hc. by apply root_step.
  - cbn. destruct Hs as [[-> ->]|(k & Hk & -> & _)]; [done|rewrite bit_measure_pow4; lia].
  - cbn. destruct Hs as [[-> ->]|(k & Hk & -> & _)]; [done|rewrite bit_measure_pow4; lia].
  - rewrite E. cbn. to_prop. destruct s as [[v r] b]. cbn [fst snd] in *.
    destruct HI as (q & Hq & Hqq & [(_ & -> & Hup)|(k & m & Hk & -> & _)]).
    + f_equal. symmetry. apply Z.sqrt_unique. lia.
    + pose proof (Z.pow_pos_nonneg 4 k). lia.
Qed.

End SqrtFacts.

(** ** Lane laws *)
Module LaneFacts.
Import Lane.
Section Width.
Context {w : Z} (Hw : 1 < w).

Lemma scale_pos : 0 < 2 ^ (w - 1).
Proof using Hw. apply Z.pow_pos_nonneg; lia. Qed.

Lemma pow2_w : 2 ^ w = 2 * 2 ^ (w - 1).
Proof using Hw. rewrite <- Z.pow_succ_r by lia. f_equal. lia. Qed.

Lemma ScalarClamp_range v : is_lane w (ScalarClamp w v).
Proof using Hw.
  pose proof scale_pos. unfold is_lane, ScalarClamp, FixedMin, FixedMax. if_cases; lia.
Qed.

Lemma ScalarClamp_id v : is_lane w v -> ScalarClamp w v = v.
Proof using Hw. unfold is_lane, ScalarClamp. intros. if_cases; lia. Qed.

Lemma to_signed_range v : is_lane w (to_signed w v).
Proof using Hw.
  pose proof scale_pos. pose proof pow2_w. unfold is_lane, to_signed, FixedMin, FixedMax.
  pose proof (Z.mod_pos_bound (v + 2 ^ (w - 1)) (2 ^ w) ltac:(lia)). lia.
Qed.

Lemma to_signed_id v : is_lane w v -> to_signed w v = v.
Proof using Hw.
  pose proof scale_pos. pose proof pow2_w. unfold is_lane, to_signed, FixedMin, FixedMax.
  intros. rewrite Z.mod_small by lia. lia.
Qed.

Lemma to_signed_mod v : to_signed w (v mod 2 ^ w) = to_signed w v.
Proof using Hw. unfold to_signed. by rewrite Zplus_mod_idemp_l. Qed.

(** The wrapping operations agree with the exact ones modulo [2^w]. *)
Lemma ScalarAddWrap_spec l r : ScalarAddWrap w l r = to_signed w (l + r).
Proof using Hw.
  unfold ScalarAddWrap, of_bits, bits_of. rewrite <- Zplus_mod. apply to_signed_mod.
Qed.
Lemma ScalarSubWrap_spec l r : ScalarSubWrap w l r = to_signed w (l - r).
Proof using Hw.
  unfold ScalarSubWrap, of_bits, bits_of. rewrite <- Zminus_mod. apply to_signed_mod.
Qed.
Lemma ScalarMulLow_spec l r : ScalarMulLow w l r = to_signed w (l * r).
Proof using Hw.
  unfold ScalarMulLow, of_bits, bits_of. rewrite <- Zmult_mod. apply to_signed_mod.
Qed.

Lemma bits_of_lane v :
  is_lane w v -> bits_of w v = if v <? 0 then v + 2 ^ w else v.
Proof using Hw.
  pose proof scale_pos. pose proof pow2_w. unfold is_lane, FixedMin, FixedMax, bits_of.
  intros. case_match; to_prop.
  - rewrite <- (Z.mod_add v 1) by lia. rewrite Z.mul_1_l. apply Z.mod_small. lia.
  - apply Z.mod_small. lia.
Qed.

(** The sign test of [ScalarAbsMagnitude]. *)
Lemma land_sign b : 0 <= b < 2 ^ w -> (Z.land b (2 ^ (w - 1)) =? 0) = (b <? 2 ^ (w - 1)).
Proof using Hw.
  pose proof scale_pos. pose proof pow2_w. intros Hb.
  assert (Z.testbit b (w - 1) = negb (b <? 2 ^ (w - 1))) as Ht.
  { destruct (Z.ltb_spec b (2 ^ (w - 1))); cbn.
    - rewrite <- (Z.mod_small b (2 ^ (w - 1))) by lia. apply Z.mod_pow2_bits_high. lia.
    - rewrite Z.testbit_true by lia. replace (b / 2 ^ (w - 1)) with 1; [done|].
      apply Z.div_unique with (b - 2 ^ (w - 1)); lia. }
  destruct (Z.ltb_spec b (2 ^ (w - 1))); cbn in Ht.
  - apply Z.eqb_eq. apply Z.bits_inj'. intros i Hi. rewrite Z.land_spec, Z.bits_0.
    rewrite Z.pow2_bits_eqb by lia. destruct (Z.eqb_spec (w - 1) i) as [<-|]; [|apply andb_false_r].
    by rewrite Ht.
  - apply Z.eqb_neq. intros Hz. apply (f_equal (fun z => Z.testbit z (w - 1))) in Hz.
    rewrite Z.land_spec, Z.bits_0, Z.pow2_bits_true, Ht in Hz by lia. done.
Qed.

Lemma ScalarAbsMagnitude_spec v : is_lane w v -> ScalarAbsMagnitude w v = Z.abs v.
Proof using Hw.
  intros Hv. pose proof scale_pos. pose proof pow2_w. unfold ScalarAbsMagnitude.
  rewrite land_sign by (apply Z.mod_pos_bound; lia).
  rewrite bits_of_lane by done. unfold is_lane, FixedMin, FixedMax in Hv.
  destruct (Z.ltb_spec v 0); case_match; to_prop; try lia.
  rewrite Z.mod_small by lia. lia.
Qed.

(** [ScalarAbs] is the absolute value, saturated at the one lane value that has none. *)
Lemma ScalarAbs_spec v :
  is_lane w v -> ScalarAbs w v = Z.min (FixedMax w) (Z.abs v).
Proof using Hw.
  intros Hv. pose proof scale_pos. unfold ScalarAbs, of_bits.
  rewrite ScalarAbsMagnitude_spec by done. unfold is_lane, FixedMin, FixedMax in *.
  case_match; to_prop; [lia|].
  rewrite to_signed_id by (unfold is_lane, FixedMin, FixedMax; lia). lia.
Qed.

(** Truncating division: toward zero, with an error below the divisor. *)
Lemma quot_trunc p s :
  0 < s ->
  (0 <= p -> 0 <= Z.quot p s * s <= p) /\ (p <= 0 -> p <= Z.quot p s * s <= 0) /\
  Z.abs (p - Z.quot p s * s) < s.
Proof.
  intros Hs. destruct (Z.le_ge_cases 0 p) as [Hp|Hp].
  - rewrite Z.quot_div_nonneg by lia. pose proof (Z.div_mod p s ltac:(lia)).
    pose proof (Z.mod_pos_bound p s Hs). assert (0 <= p / s) by (apply Z.div_pos; lia). nia.
  - replace p with (- (- p)) by lia. rewrite Z.quot_opp_l, Z.quot_div_nonneg by lia.
    pose proof (Z.div_mod (- p) s ltac:(lia)). pose proof (Z.mod_pos_bound (- p) s Hs).
    assert (0 <= - p / s) by (apply Z.div_pos; lia). nia.
Qed.

(** The fixed-point product of two lanes is a lane; it is the exact product
    truncated toward zero to the lane's scale, and saturates only for the
    product of the two minima. *)
Theorem ScalarMulFixed_spec l r :
  is_lane w l -> is_lane w r ->
  is_lane w (ScalarMulFixed w l r) /\
  (l = FixedMin w /\ r = FixedMin w -> ScalarMulFixed w l r = FixedMax w) /\
  (~ (l = FixedMin w /\ r = FixedMin w) ->
   Z.abs (ScalarMulFixed w l r * FixedScale w) <= Z.abs (l * r) /\
   Z.abs (l * r - ScalarMulFixed w l r * FixedScale w) < FixedScale w).
Proof using Hw.
  intros Hl Hr. pose proof scale_pos as Hp.
  split; [apply ScalarClamp_range|].
  destruct (quot_trunc (l * r) (FixedScale w)) as (Qpos & Qneg & Qerr);
    [unfold FixedScale; lia|].
  unfold is_lane, FixedMin, FixedMax, FixedScale in *. set (s := 2 ^ (w - 1)) in *. split.
  - intros [-> ->]. unfold ScalarMulFixed, ScalarClamp, FixedMin, FixedMax, FixedScale. fold s.
    replace (- s * - s) with (s * s) by lia. rewrite Z.quot_mul by lia.
    destruct (s >? s - 1) eqn:G; to_prop; lia.
  - intros Hn. assert (- (s * s) <= l * r < s * s) as Hlt by nia.
    assert (ScalarMulFixed w l r = Z.quot (l * r) s) as ->.
    { apply ScalarClamp_id. unfold is_lane, FixedMin, FixedMax, FixedScale. fold s.
      set (q := Z.quot (l * r) s) in *. nia. }
    set (q := Z.quot (l * r) s) in *. lia.
Qed.
End Width.

Lemma ScalarMulFixed_spec_witness :
  is_lane 32 1073741824 /\ is_lane 32 (-1073741823) /\
  Math32.ScalarMulFixed 1073741824 (-1073741823) = -536870911 /\
  Z.abs (1073741824 * -1073741823 - Math32.ScalarMulFixed 1073741824 (-1073741823) * FixedScale 32)
    < FixedScale 32.
Proof.
  assert (is_lane 32 1073741824) by (split; vm_compute; congruence).
  assert (is_lane 32 (-1073741823)) by (split; vm_compute; congruence).
  split; [done|]. split; [done|]. split; [vm_compute; reflexivity|].
  apply (ScalarMulFixed_spec (w := 32) ltac:(lia)); [done | done | vm_compute; intros [? _]; congruence].
Defined.

(** C39: At both lane widths [ScalarSqrt] returns, without saturating, the largest
    lane whose square is at most the scaled radicand. *)
Theorem ScalarSqrt_spec w v :
  w = 32 \/ w = 64 -> is_lane w v ->
  exists root, ScalarSqrt w v = Some root /\ is_lane w root /\ 0 <= root /\
    root * root <= Z.max 0 v * FixedScale w < (root + 1) * (root + 1).
Proof.
  intros Hw Hv. assert (1 < w) as H1 by lia. pose proof (scale_pos H1) as Hp.
  unfold ScalarSqrt. destruct (v <=? 0) eqn:E; to_prop.
  - exists 0. unfold is_lane, FixedMin, FixedMax, FixedScale in *. split; [done|]. nia.
  - unfold is_lane, FixedMin, FixedMax, FixedScale in *.
    set (s := 2 ^ (w - 1)) in *.
    assert (s <= 2 ^ 63) by (destruct Hw as [-> | ->]; subst s; vm_compute; congruence).
    rewrite SqrtFacts.ScalarIntegerSqrt128_spec by (unfold is_u128; nia). cbn.
    pose proof (Z.sqrt_spec (v * s) ltac:(nia)) as Hsq. set (t := Z.sqrt (v * s)) in *.
    assert (0 <= t) by apply Z.sqrt_nonneg.
    unfold Z.succ in Hsq. assert (v * s <= (s - 1) * s) by nia.
    assert (t < s) by (destruct (Z.lt_ge_cases t s); [done | nia]).
    exists t. rewrite ScalarClamp_id; [| done | unfold is_lane, FixedMin, FixedMax; fold s; lia].
    split; [done|]. split; [lia|]. split; [done|]. rewrite Z.max_r by lia. lia.
Qed.

Lemma ScalarSqrt_spec_witness :
  is_lane 32 1073741824 /\
  exists root, ScalarSqrt 32 1073741824 = Some root /\ is_lane 32 root /\ 0 <= root /\
    root * root <= Z.max 0 1073741824 * FixedScale 32 < (root + 1) * (root + 1).
Proof.
  assert (is_lane 32 1073741824) by (split; vm_compute; congruence).
  split; [done|]. apply (ScalarSqrt_spec 32); [by left | done].
Defined.

(** [math32]'s [ScalarMulFixedScaled] narrows its 128-bit quotient to [i64]
    before clamping it: a large coefficient turns a positive saturating product
    into [FixedMin], where the 64-bit law (clamp first) returns [FixedMax]. *)
Example ScalarMulFixedScaled_narrowing :
  exists value scaled, is_lane 32 value /\ is_u64 scaled /\ 0 < value /\ 0 < scaled /\
    Math32.ScalarMulFixedScaled value scaled = FixedMin 32 /\
    ScalarClamp 32 (Z.quot (value * scaled) (FixedScale 32)) = FixedMax 32.
Proof.
  exists 2147483647, 9223372045444710400.
  split; [split; vm_compute; congruence|].
  split; [unfold is_u64; lia|]. repeat split; try lia; vm_compute; reflexivity.
Qed.

End LaneFacts.
