(* ===== verification/Planner.v ===== *)
(** * Planner: partitioning packets among workers

    [kernel/schedule/planner/*.hpp] and [schedule/planner/**] without the
    capacity-weighted policy (file Capacity): the projection of a request, uniform
    and balanced contiguous partitions. *)
From stdpp Require Import base numbers list option strings.
From Stdlib Require Import ZArith Lia.
From S2P Require Import Prelude Checked Scalar.
Import Sat.

(** ** Data *)
Record Partition := {
  worker_index : Z;
  p_begin : Z;
  p_end : Z;
  packet_indices : option (list Z);
  packet_index_count : Z;
}.

Definition mkPartition (w b e : Z) : Partition := {|
  worker_index := w; p_begin := b; p_end := e; packet_indices := None; packet_index_count := 0 |}.
Definition DefaultPartition : Partition := mkPartition 0 0 0.

Definition Partition_size (p : Partition) : Z :=
  if p_end p >? p_begin p then p_end p - p_begin p else 0.
Definition Partition_packet_count (p : Partition) : Z :=
  match packet_indices p with Some _ => packet_index_count p | None => Partition_size p end.
Definition Partition_packet_at (p : Partition) (offset : Z) : option Z :=
  match packet_indices p with
  | Some l => zget l offset
  | None => Some (wrap32 (p_begin p + offset))
  end.

Inductive PartitionIntent := StaticWidth.
Inductive PlacementPolicy := Uniform | ContiguousBalanced | WeightedStable | CapacityWeightedStatic.
#[export] Instance PartitionIntent_eq_dec : EqDecision PartitionIntent.
Proof. solve_decision. Defined.
#[export] Instance PlacementPolicy_eq_dec : EqDecision PlacementPolicy.
Proof. solve_decision. Defined.

Record PacketPlacementHint := {
  locality_bucket_id : Z;
  cache_line_group : Z;
  preferred_contiguous_span : Z;
  hint_work_units : Z;
}.

Record PartitionRequest := {
  packet_count : Z;
  execution_width : Z;
  intent : PartitionIntent;
  preferred_alignment_packets : Z;
  packet_work_units : list Z;
  worker_capacity_milli : list Z;
  trust_worker_capacity : bool;
}.

Record ScheduleCompileRequest := {
  c_packet_count : Z;
  c_execution_width : Z;
  c_intent : PartitionIntent;
  c_placement : PlacementPolicy;
  c_allocation : AllocationPolicy;
  c_preferred_alignment_packets : Z;
  c_locality_bucket_packets : Z;
  c_alignment_group_packets : Z;
  c_packet_work_units : list Z;
  c_worker_capacity_milli : list Z;
  c_packet_hints : list PacketPlacementHint;
  c_trust_worker_capacity : bool;
}.

Record PartitionProjection := {
  proj_ok : bool;
  proj_reason : string;
  proj_packet_count : Z;
  proj_execution_width : Z;
  proj_intent : PartitionIntent;
  proj_placement : PlacementPolicy;
  proj_partition_count : Z;
  proj_alignment_packets : Z;
  proj_worker_slot_count : Z;
  proj_fold_slot_count : Z;
  proj_useful_width : Z;
}.

Record PartitionBuild := {
  pb_ok : bool;
  pb_reason : string;
  pb_partition_count : Z;
  pb_alignment_packets : Z;
  pb_packets_per_partition_max : Z;
  pb_worker_slot_count : Z;
  pb_fold_slot_count : Z;
  pb_useful_width : Z;
  pb_placement : PlacementPolicy;
  pb_no_allocation : bool;
}.

(** ** Arithmetic ([planner/math.cpp], [planner/partition.cpp], [work/units.hpp]) *)
Definition ClampKernelWidth (execution_width : Z) : Z := Z.max 1 execution_width.

Definition ValidPacketWorkUnits (work_units : list Z) (request : PartitionRequest) : bool :=
  negb (packet_count request =? 0) && negb (execution_width request =? 0) &&
  (zlen work_units =? packet_count request).

Definition NormalizeWorkUnits (work_units : Z) : Z := if work_units =? 0 then 1 else work_units.

Definition ResolveAlignmentGroupCount (packet_count alignment_packets : Z) : Z :=
  if (alignment_packets <=? 1) || negb (packet_count mod alignment_packets =? 0)
  then packet_count
  else packet_count / alignment_packets.

Definition ResolvePartitionUnits (request : PartitionRequest) (alignment_packets : Z) : Z :=
  if alignment_packets <=? 1 then packet_count request
  else ResolveAlignmentGroupCount (packet_count request) alignment_packets.

Definition ResolvePartitionCount (request : PartitionRequest) (partition_units : Z) : Z :=
  let width := ClampKernelWidth (execution_width request) in
  Z.max 1 (Z.min partition_units width).

(** ** Projection ([planner/projection/*.cpp]) *)
Definition ToPartitionRequest (request : ScheduleCompileRequest) : PartitionRequest := {|
  packet_count := c_packet_count request;
  execution_width := c_execution_width request;
  intent := c_intent request;
  preferred_alignment_packets :=
    Z.max 1 (Z.max (Z.max (c_preferred_alignment_packets request)
                          (c_locality_bucket_packets request))
                   (c_alignment_group_packets request));
  packet_work_units := c_packet_work_units request;
  worker_capacity_milli := c_worker_capacity_milli request;
  trust_worker_capacity := c_trust_worker_capacity request |}.

Definition ToScheduleCompileRequest (request : PartitionRequest) : ScheduleCompileRequest := {|
  c_packet_count := packet_count request;
  c_execution_width := execution_width request;
  c_intent := intent request;
  c_placement := Uniform;
  c_allocation := AllowGrowth;
  c_preferred_alignment_packets := preferred_alignment_packets request;
  c_locality_bucket_packets := 1;
  c_alignment_group_packets := preferred_alignment_packets request;
  c_packet_work_units := packet_work_units request;
  c_worker_capacity_milli := worker_capacity_milli request;
  c_packet_hints := [];
  c_trust_worker_capacity := trust_worker_capacity request |}.

Definition CanUseAlignedPartitions (request : PartitionRequest) : bool :=
  let width := ClampKernelWidth (execution_width request) in
  let group_count := ResolveAlignmentGroupCount (packet_count request)
                       (preferred_alignment_packets request) in
  (preferred_alignment_packets request >? 1) &&
  (packet_count request mod preferred_alignment_packets request =? 0) &&
  (group_count >? 1) && (group_count >=? width).

Definition ProjectionFailure (request : PartitionRequest) (reason : string)
    (alignment_packets : Z) : PartitionProjection := {|
  proj_ok := false; proj_reason := reason;
  proj_packet_count := packet_count request;
  proj_execution_width := execution_width request;
  proj_intent := intent request; proj_placement := Uniform; proj_partition_count := 0;
  proj_alignment_packets := alignment_packets; proj_worker_slot_count := 0;
  proj_fold_slot_count := 0; proj_useful_width := 0 |}.

Definition ProjectPartitions (request : PartitionRequest) : PartitionProjection :=
  if packet_count request =? 0 then ProjectionFailure request "invalid_packet_count" 1
  else if execution_width request =? 0 then
    ProjectionFailure request "invalid_execution_width" 1
  else
    let alignment_packets :=
      if CanUseAlignedPartitions request then preferred_alignment_packets request else 1 in
    let partition_units := ResolvePartitionUnits request alignment_packets in
    if partition_units =? 0 then
      ProjectionFailure request "invalid_partition_units" alignment_packets
    else
      let partition_count := ResolvePartitionCount request partition_units in
      let width := ClampKernelWidth (execution_width request) in
      let useful_width := Z.min width partition_count in {|
        proj_ok := true; proj_reason := "pass";
        proj_packet_count := packet_count request; proj_execution_width := width;
        proj_intent := intent request; proj_placement := Uniform;
        proj_partition_count := partition_count;
        proj_alignment_packets := alignment_packets;
        proj_worker_slot_count := useful_width; proj_fold_slot_count := partition_count;
        proj_useful_width := useful_width |}.

Definition ProjectSchedule (request : ScheduleCompileRequest) : PartitionProjection :=
  let projection := ProjectPartitions (ToPartitionRequest request) in {|
    proj_ok := proj_ok projection; proj_reason := proj_reason projection;
    proj_packet_count := proj_packet_count projection;
    proj_execution_width := proj_execution_width projection;
    proj_intent := proj_intent projection; proj_placement := c_placement request;
    proj_partition_count := proj_partition_count projection;
    proj_alignment_packets := proj_alignment_packets projection;
    proj_worker_slot_count := proj_worker_slot_count projection;
    proj_fold_slot_count := proj_fold_slot_count projection;
    proj_useful_width := proj_useful_width projection |}.

(** ** Failures ([planner/failure.cpp]) *)
Definition FailPartitionBuild (reason : string) : PartitionBuild := {|
  pb_ok := false; pb_reason := reason; pb_partition_count := 0; pb_alignment_packets := 1;
  pb_packets_per_partition_max := 0; pb_worker_slot_count := 0; pb_fold_slot_count := 0;
  pb_useful_width := 0; pb_placement := Uniform; pb_no_allocation := false |}.

Definition FailProjectedPartitionBuild (projection : PartitionProjection) (reason : string)
    : PartitionBuild := {|
  pb_ok := false; pb_reason := reason;
  pb_partition_count := proj_partition_count projection;
  pb_alignment_packets := proj_alignment_packets projection;
  pb_packets_per_partition_max := 0;
  pb_worker_slot_count := proj_worker_slot_count projection;
  pb_fold_slot_count := proj_fold_slot_count projection;
  pb_useful_width := proj_useful_width projection;
  pb_placement := proj_placement projection; pb_no_allocation := false |}.

(** ** Uniform partitions ([planner/uniform/*.cpp]) *)
Definition BuildUnitPartitionsInto (out_partitions : list Partition)
    (partition_units partition_count alignment_packets : Z) : option (list Partition) :=
  if (partition_units =? 0) || (partition_count =? 0) then Some out_partitions
  else
    let base := partition_units / partition_count in
    let remainder := partition_units mod partition_count in
    r ← for_each
      (fun '(out, unit_begin) slot =>
         let unit_width := wrap32 (base + (if slot <? remainder then 1 else 0)) in
         let unit_end := wrap32 (unit_begin + unit_width) in
         out ← zset out slot
           (mkPartition slot (wrap32 (unit_begin * alignment_packets))
              (wrap32 (unit_end * alignment_packets)));
         Some (out, unit_end))
      (out_partitions, 0) (range 0 partition_count);
    Some (fst r).

Definition BuildUnitPartitions (out_partitions : vec Partition)
    (partition_units partition_count alignment_packets : Z) (allocation : AllocationPolicy)
    : option (vec Partition) :=
  let out := vclear out_partitions in
  if (partition_units =? 0) || (partition_count =? 0) then Some out
  else
    let out := if bool_decide (allocation = AllowGrowth) && (capacity out <? partition_count)
               then vreserve out partition_count else out in
    let out := vresize out partition_count DefaultPartition in
    l ← BuildUnitPartitionsInto (items out) partition_units partition_count alignment_packets;
    Some (Vec l (capacity out)).

(** [None] here is undefined behaviour; [(false, m)] a rejected coverage. *)
Definition ValidatePartitionCoverage (partitions : list Partition)
    (partition_count packet_count max_packets : Z) : option (bool * Z) :=
  if partition_count =? 0 then Some (false, max_packets)
  else
    first ← zget partitions 0;
    last ← zget partitions (partition_count - 1);
    if negb (p_begin first =? 0) || negb (p_end last =? packet_count) then
      Some (false, max_packets)
    else
      after (for_loop
        (fun '(max_packets, expected_begin) index =>
           partition ← zget partitions index;
           if negb (p_begin partition =? expected_begin) ||
              (p_begin partition >=? p_end partition) || (p_end partition >? packet_count)
           then Some (Return (false, max_packets))
           else Some (Next (Z.max max_packets (wrap32 (p_end partition - p_begin partition)),
                            p_end partition)))
        (0, 0) (range 0 partition_count))
      (fun '(max_packets, _) => Some (true, max_packets)).

Definition BuildPartitions (out_partitions : vec Partition) (request : PartitionRequest)
    : option (PartitionBuild * vec Partition) :=
  let out := vclear out_partitions in
  let projection := ProjectPartitions request in
  if negb (proj_ok projection) then
    Some (FailProjectedPartitionBuild projection (proj_reason projection), out)
  else
    let partition_units := ResolvePartitionUnits request (proj_alignment_packets projection) in
    out ← BuildUnitPartitions out partition_units (proj_partition_count projection)
            (proj_alignment_packets projection) AllowGrowth;
    '(covered, max_packets) ←
      ValidatePartitionCoverage (items out) (wrap32 (vsize out)) (packet_count request) 0;
    if negb covered then Some (FailPartitionBuild "partition_coverage_mismatch", vclear out)
    else Some ({|
      pb_ok := true; pb_reason := "pass"; pb_partition_count := wrap32 (vsize out);
      pb_alignment_packets := proj_alignment_packets projection;
      pb_packets_per_partition_max := max_packets;
      pb_worker_slot_count := proj_worker_slot_count projection;
      pb_fold_slot_count := proj_fold_slot_count projection;
      pb_useful_width := proj_useful_width projection;
      pb_placement := proj_placement projection; pb_no_allocation := false |}, out).

(** ** Balanced partitions ([planner/balanced.cpp]) *)
Definition TotalNormalizedWork (work_units : list Z) : Z :=
  foldl (fun remaining w => ScalarSatAdd remaining (NormalizeWorkUnits w)) 0 work_units.

(** The inner loop: the end of the partition that starts at [begin_] and its work. *)
Definition take_balanced (work_units : list Z) (begin_ max_end target_work : Z)
    : option (Z * Z) :=
  r ← while_loop (S (Z.to_nat (max_end - begin_)))
    (fun '(end_, _) => end_ <? max_end)
    (fun '(end_, partition_work) =>
       w ← zget work_units end_;
       let partition_work := ScalarSatAdd partition_work (NormalizeWorkUnits w) in
       let end_ := wrap32 (end_ + 1) in
       if partition_work >=? target_work then Some (Return (end_, partition_work))
       else Some (Next (end_, partition_work)))
    (begin_, 0);
  Some match r with Next st => st | Return st => st end.

Definition BuildBalancedPartitions (out_partitions : vec Partition) (work_units : list Z)
    (request : PartitionRequest) : option (PartitionBuild * vec Partition) :=
  let out := vclear out_partitions in
  if negb (ValidPacketWorkUnits work_units request) then
    Some (FailPartitionBuild "invalid_packet_work_units", out)
  else
    let partition_count := ResolvePartitionCount request (packet_count request) in
    if partition_count =? 0 then Some (FailPartitionBuild "invalid_partition_count", out)
    else
      let out := if capacity out <? partition_count then vreserve out partition_count else out in
      let out := vclear out in
      let mismatch out :=
        (FailPartitionBuild "partition_coverage_mismatch", vclear out) in
      after (for_loop
        (fun '(out, begin_, max_packets, remaining_work) partition_index =>
           let is_last_partition := wrap32 (partition_index + 1) =? partition_count in
           let remaining_partitions := partition_count - partition_index in
           '(end_, remaining_work) ←
             (if is_last_partition then Some (packet_count request, remaining_work)
              else
                let max_end := wrap32 (packet_count request - (remaining_partitions - 1)) in
                let target_work :=
                  wrap64 (remaining_work + remaining_partitions - 1) / remaining_partitions in
                '(end_, partition_work) ← take_balanced work_units begin_ max_end target_work;
                Some (end_, ScalarSatSub remaining_work partition_work));
           if (begin_ >=? end_) || (end_ >? packet_count request) then
             Some (Return (mismatch out))
           else Some (Next (vpush out (mkPartition partition_index begin_ end_), end_,
                            Z.max max_packets (wrap32 (end_ - begin_)), remaining_work)))
        (out, 0, 0, TotalNormalizedWork work_units) (range 0 partition_count))
      (fun '(out, begin_, max_packets, _) =>
         if negb (begin_ =? packet_count request) then Some (mismatch out)
         else
           let count := wrap32 (vsize out) in
           Some ({|
             pb_ok := true; pb_reason := "pass"; pb_partition_count := count;
             pb_alignment_packets := 1; pb_packets_per_partition_max := max_packets;
             pb_worker_slot_count :=
               Z.min (ClampKernelWidth (execution_width request)) count;
             pb_fold_slot_count := count;
             pb_useful_width := Z.min (ClampKernelWidth (execution_width request)) count;
             pb_placement := ContiguousBalanced; pb_no_allocation := false |}, out)).

(** ** Coverage *)
Module Coverage.

(** [ps] tile the packets from [b] to [e] with non-empty partitions. *)
Fixpoint contiguous (b : Z) (ps : list Partition) (e : Z) : Prop :=
  match ps with
  | [] => b = e
  | p :: ps => p_begin p = b /\ b < p_end p /\ contiguous (p_end p) ps e
  end.

Definition packets_of (p : Partition) : list Z := range (p_begin p) (p_end p).
Definition max_size (ps : list Partition) : Z :=
  foldl (fun m p => Z.max m (p_end p - p_begin p)) 0 ps.
Definition workers_in_order (ps : list Partition) : Prop :=
  forall i p, zget ps i = Some p -> worker_index p = i.

(** What every planner promises: worker [i] runs the [i]-th partition, and the
    partitions run every packet exactly once, in order. *)
Record covers (n : Z) (ps : list Partition) : Prop := {
  cov_contiguous : contiguous 0 ps n;
  cov_workers : workers_in_order ps;
}.

Lemma contiguous_app b ps qs e :
  contiguous b (ps ++ qs) e <-> exists m, contiguous b ps m /\ contiguous m qs e.
Proof.
  revert b; induction ps as [|p ps IH]; intros b; cbn.
  - split; [eauto | by intros (m & -> & H)].
  - split.
    + intros (H1 & H2 & (m & H3 & H4)%IH). eauto 6.
    + intros (m & (H1 & H2 & H3) & H4). rewrite IH. eauto 6.
Qed.

Lemma contiguous_fun b ps e e' : contiguous b ps e -> contiguous b ps e' -> e = e'.
Proof.
  revert b; induction ps as [|p ps IH]; intros b; cbn; [congruence|].
  intros (_ & _ & H) (_ & _ & H'). by eapply IH.
Qed.

Lemma rev_case {A} (l : list A) : l = [] \/ exists x k, l = k ++ [x].
Proof. destruct l as [|x l] using rev_ind; [by left | right; eauto]. Qed.

Lemma contiguous_snoc b ps p e :
  contiguous b (ps ++ [p]) e <->
  contiguous b ps (p_begin p) /\ p_begin p < p_end p /\ p_end p = e.
Proof.
  rewrite contiguous_app. cbn. split.
  - intros (m & H & <- & Hlt & He). done.
  - intros (H & Hlt & He). eauto 6.
Qed.

Lemma contiguous_le b ps e : contiguous b ps e -> b <= e.
Proof.
  revert b; induction ps as [|p ps IH]; intros b; cbn; [lia|].
  intros (_ & H & H'%IH). lia.
Qed.

Lemma contiguous_packets b ps e : contiguous b ps e -> ps ≫= packets_of = range b e.
Proof.
  revert b; induction ps as [|p ps IH]; intros b; cbn.
  - intros ->. by rewrite range_nil.
  - intros (<- & H & H'). unfold mbind, list_bind in *. cbn. rewrite (IH _ H').
    unfold packets_of. symmetry. apply range_app. apply contiguous_le in H'. lia.
Qed.

Lemma contiguous_bounds b ps e p : contiguous b ps e -> p ∈ ps -> b <= p_begin p < p_end p /\ p_end p <= e.
Proof.
  revert b; induction ps as [|q ps IH]; intros b; cbn; [intros _ H; by apply not_elem_of_nil in H|].
  intros (<- & Hlt & H) [->|Hp]%elem_of_cons.
  - apply contiguous_le in H. lia.
  - specialize (IH _ H Hp). lia.
Qed.

Lemma max_size_snoc ps p : max_size (ps ++ [p]) = Z.max (max_size ps) (p_end p - p_begin p).
Proof. unfold max_size. by rewrite foldl_app. Qed.

Lemma workers_snoc ps p :
  workers_in_order ps -> worker_index p = zlen ps -> workers_in_order (ps ++ [p]).
Proof.
  intros Hw Hp i q Hq. destruct (Z.lt_ge_cases i (zlen ps)).
  - rewrite zget_app_l in Hq by done. by apply Hw.
  - pose proof (zget_range _ _ _ Hq) as Hr. rewrite zlen_app in Hr. change (zlen [p]) with 1 in Hr.
    assert (i = zlen ps) as -> by lia. rewrite zget_app_mid in Hq by done. by injection Hq as <-.
Qed.

Definition partition_u32 (p : Partition) : Prop := is_u32 (p_begin p) /\ is_u32 (p_end p).

(** The coverage check decides tiling and reports the largest partition. *)
Lemma ValidatePartitionCoverage_eq ps n m0 :
  ps <> [] -> Forall partition_u32 ps -> is_u32 n ->
  exists b m, ValidatePartitionCoverage ps (zlen ps) n m0 = Some (b, m) /\
    (b = true <-> contiguous 0 ps n) /\ (b = true -> m = max_size ps).
Proof.
  intros Hne Hu Hn. unfold ValidatePartitionCoverage.
  assert (1 <= zlen ps) as Hlen by (destruct ps; [done|]; rewrite zlen_cons; pose proof (zlen_nonneg ps); lia).
  destruct (Z.eqb_spec (zlen ps) 0); [lia|].
  destruct (zget_is_Some ps 0 ltac:(lia)) as [first Hf]. rewrite Hf. cbn [mbind option_bind].
  destruct (zget_is_Some ps (zlen ps - 1) ltac:(lia)) as [last_ Hl]. rewrite Hl. cbn [mbind option_bind].
  destruct (Z.eqb_spec (p_begin first) 0) as [Hb0|Hb0]; cbn [negb orb].
  2: { exists false, m0. split; [done|]. split; [|done]. split; [done|]. intros Hc.
       destruct ps as [|q ps]; [done|]. injection Hf as ->. by destruct Hc. }
  destruct (Z.eqb_spec (p_end last_) n) as [He|He]; cbn [negb].
  2: { exists false, m0. split; [done|]. split; [|done]. split; [done|]. intros Hc.
       destruct (rev_case ps) as [->|(q & ps' & ->)]; [done|].
       apply contiguous_snoc in Hc as (_ & _ & Hc). rewrite zget_app_mid in Hl
         by (rewrite zlen_app; change (zlen [q]) with 1; lia). injection Hl as ->. done. }
  edestruct (for_range_safe
    (fun i (st : Z * Z) => let '(m, eb) := st in
       contiguous 0 (take (Z.to_nat i) ps) eb /\ m = max_size (take (Z.to_nat i) ps))
    (fun r : bool * Z => fst r = false /\ ~ contiguous 0 ps n))
    as [([b m] & E & Hb & Hnc) | ([m eb] & E & Hc & Hm)].
  4: { erewrite E. exists b, m. cbn in Hb. subst b. split; [done|]. split; [|done]. by split. }
  4: { erewrite E. rewrite take_ge in Hc, Hm by (unfold zlen; lia). exists true, m.
       split; [done|]. split; [|done]. split; [|done]. intros _.
       destruct (rev_case ps) as [->|(q & ps' & ->)]; [done|].
       apply contiguous_snoc in Hc as (Hc & Hlt & <-). apply contiguous_snoc.
       rewrite zget_app_mid in Hl by (rewrite zlen_app; change (zlen [q]) with 1; lia).
       injection Hl as ->. done. }
  - lia.
  - done.
  - intros i [m eb] Hi [Hc Hm]. destruct (zget_is_Some ps i Hi) as [p Hp]. rewrite Hp.
    cbn [mbind option_bind].
    assert (partition_u32 p) as [Hpb Hpe]
      by (apply zget_Some in Hp as [_ Hp]; by eapply Forall_lookup_1).
    pose proof (take_S_Z ps i p ltac:(lia) Hp) as Ht.
    assert (ps = (take (Z.to_nat i) ps ++ [p]) ++ drop (Z.to_nat (i + 1)) ps) as Eps
      by (rewrite <- Ht; by rewrite take_drop).
    assert (contiguous 0 ps n -> p_begin p = eb /\ p_begin p < p_end p /\ p_end p <= n) as Hneed.
    { intros Hcn. rewrite Eps in Hcn. apply contiguous_app in Hcn as (e & Hcn & Hrest).
      apply contiguous_snoc in Hcn as (Hcn & Hlt & <-). apply contiguous_le in Hrest.
      split; [|done]. eapply contiguous_fun; eassumption. }
    rewrite Z.geb_leb, Z.gtb_ltb.
    destruct (Z.eqb_spec (p_begin p) eb); cbn [negb orb];
      [|left; eexists; split; [reflexivity|]; split; [done | tauto]].
    destruct (Z.leb_spec (p_end p) (p_begin p)); cbn [orb];
      [left; eexists; split; [reflexivity|]; split; [done | intros ?%Hneed; lia]|].
    destruct (Z.ltb_spec n (p_end p));
      [left; eexists; split; [reflexivity|]; split; [done | intros ?%Hneed; lia]|].
    right. eexists. split; [reflexivity|]. rewrite Ht, contiguous_snoc, max_size_snoc.
    rewrite wrap32_small by (unfold is_u32 in *; lia). subst. done.
Qed.
End Coverage.

(** ** Uniform partitions cover and are balanced *)
Module UniformFacts.
Import Coverage.

Record request_ok (request : PartitionRequest) : Prop := {
  rq_packets : 1 <= packet_count request <= U32_MAX;
  rq_width : 1 <= execution_width request <= U32_MAX;
  rq_alignment : is_u32 (preferred_alignment_packets request);
}.

Lemma ProjectPartitions_valid request :
  request_ok request ->
  exists a units,
    proj_alignment_packets (ProjectPartitions request) = a /\
    proj_ok (ProjectPartitions request) = true /\
    ResolvePartitionUnits request a = units /\
    1 <= a /\ a * units = packet_count request /\
    proj_partition_count (ProjectPartitions request) = Z.min units (execution_width request) /\
    1 <= Z.min units (execution_width request).
Proof.
  intros [Hp Hw Ha]. unfold ProjectPartitions.
  destruct (Z.eqb_spec (packet_count request) 0); [lia|].
  destruct (Z.eqb_spec (execution_width request) 0); [lia|]. cbv zeta.
  set (a := if CanUseAlignedPartitions request then _ else _).
  assert (1 <= a /\ a * ResolvePartitionUnits request a = packet_count request /\
          1 <= ResolvePartitionUnits request a) as (H1 & H2 & H3).
  { subst a. destruct (CanUseAlignedPartitions request) eqn:E.
    - unfold CanUseAlignedPartitions in E. cbv zeta in E. to_prop.
      unfold ResolvePartitionUnits, ResolveAlignmentGroupCount in *.
      destruct (Z.leb_spec (preferred_alignment_packets request) 1); [lia|]. cbn [orb] in *.
      match goal with H : packet_count request mod _ = 0 |- _ => rewrite H in *; rename H into Hm end.
      cbn [Z.eqb negb] in *. split; [lia|].
      pose proof (Z.div_mod (packet_count request) (preferred_alignment_packets request) ltac:(lia)). lia.
    - cbn. split; lia. }
  destruct (Z.eqb_spec (ResolvePartitionUnits request a) 0); [lia|]. cbn.
  exists a, (ResolvePartitionUnits request a). unfold ResolvePartitionCount, ClampKernelWidth. cbv zeta.
  repeat split; try done; lia.
Qed.

(** The units before slot [i]. *)
Definition unit_bound (units pc i : Z) : Z := i * (units / pc) + Z.min i (units mod pc).
Definition unit_partition (units pc a i : Z) : Partition :=
  mkPartition i (a * unit_bound units pc i) (a * unit_bound units pc (i + 1)).

Lemma unit_bound_mono units pc i j :
  1 <= pc -> 0 <= units -> 0 <= i <= j -> unit_bound units pc i <= unit_bound units pc j.
Proof.
  intros Hp Hu Hi. unfold unit_bound. pose proof (Z.div_pos units pc Hu ltac:(lia)). nia.
Qed.
Lemma unit_bound_0 units pc : 1 <= pc -> unit_bound units pc 0 = 0.
Proof. intros. unfold unit_bound. pose proof (Z.mod_pos_bound units pc ltac:(lia)). lia. Qed.
Lemma unit_bound_last units pc : 1 <= pc -> unit_bound units pc pc = units.
Proof.
  intros. unfold unit_bound. pose proof (Z.mod_pos_bound units pc ltac:(lia)).
  pose proof (Z.div_mod units pc ltac:(lia)). lia.
Qed.
Lemma unit_bound_next units pc i :
  unit_bound units pc (i + 1) =
  unit_bound units pc i + (units / pc + (if i <? units mod pc then 1 else 0)).
Proof. unfold unit_bound. destruct (Z.ltb_spec i (units mod pc)); lia. Qed.

Lemma BuildUnitPartitionsInto_eq out units pc a :
  zlen out = pc -> 1 <= pc <= units -> 1 <= a -> a * units <= U32_MAX ->
  BuildUnitPartitionsInto out units pc a = Some (map (unit_partition units pc a) (range 0 pc)).
Proof.
  intros Hl Hpc Ha Hu. unfold BuildUnitPartitionsInto.
  destruct (Z.eqb_spec units 0); [lia|]. destruct (Z.eqb_spec pc 0); [lia|]. cbn [orb]. cbv zeta.
  edestruct (for_range_inv (fun i (st : list Partition * Z) =>
      st = (map (unit_partition units pc a) (range 0 i) ++ drop (Z.to_nat i) out, unit_bound units pc i)))
    as (st & E & ->).
  4: { erewrite E. cbn. rewrite drop_ge by (unfold zlen in *; lia). by rewrite app_nil_r. }
  - lia.
  - rewrite range_nil, unit_bound_0 by lia. done.
  - intros i st Hi ->. destruct (zget_nth_range out i pc Hl Hi) as [x Hx].
    apply zget_Some in Hx as [_ Hx]. rewrite (drop_S out x _ Hx).
    rewrite zset_app_mid by (rewrite zlen_map, zlen_range by lia; lia).
    cbn [mbind option_bind]. eexists. split; [reflexivity|].
    pose proof (unit_bound_mono units pc 0 i ltac:(lia) ltac:(lia) ltac:(lia)) as Hb0.
    pose proof (unit_bound_mono units pc i (i + 1) ltac:(lia) ltac:(lia) ltac:(lia)).
    pose proof (unit_bound_mono units pc (i + 1) pc ltac:(lia) ltac:(lia) ltac:(lia)) as Hbl.
    rewrite unit_bound_0 in Hb0 by lia. rewrite unit_bound_last in Hbl by lia.
    pose proof (unit_bound_next units pc i) as Hn.
    set (w := if i <? _ then 1 else 0) in *. assert (0 <= w <= 1) by (subst w; case_match; lia).
    pose proof (Z.div_pos units pc ltac:(lia) ltac:(lia)).
    rewrite (wrap32_small (units / pc + w)) by (unfold is_u32; nia).
    rewrite <- Hn. assert (units <= a * units) by nia.
    assert (unit_bound units pc (i + 1) * a <= a * units) by nia.
    assert (0 <= unit_bound units pc i * a <= a * units) by nia.
    rewrite (wrap32_small (unit_bound units pc (i + 1))) by (unfold is_u32; lia).
    rewrite !wrap32_small by (unfold is_u32; nia).
    f_equal. rewrite range_snoc, map_app by lia. rewrite <- app_assoc. cbn.
    unfold unit_partition at 3.
    rewrite (Z.mul_comm a (unit_bound units pc i)), (Z.mul_comm a (unit_bound units pc (i + 1))).
    replace (S (Z.to_nat i)) with (Z.to_nat (i + 1)) by lia. reflexivity.
Qed.

Lemma unit_partitions_cover units pc a :
  1 <= pc <= units -> 1 <= a ->
  covers (a * units) (map (unit_partition units pc a) (range 0 pc)).
Proof.
  intros Hpc Ha.
  assert (forall i, 0 <= i -> i <= pc ->
    contiguous 0 (map (unit_partition units pc a) (range 0 i)) (a * unit_bound units pc i) /\
    workers_in_order (map (unit_partition units pc a) (range 0 i))) as G.
  { intros i Hi. pattern i. apply natlike_ind; [|intros x Hx IH|done].
    - intros _. rewrite unit_bound_0 by lia. split; [symmetry; apply Z.mul_0_r | intros j p Hj].
      apply zget_range in Hj. rewrite zlen_map, zlen_range in Hj; lia.
    - unfold Z.succ. intros Hx'. destruct IH as [IH1 IH2]; [lia|].
      rewrite range_snoc, map_app by lia. cbn [map]. split.
      + apply contiguous_snoc. cbn. split; [done|]. split; [|done].
        rewrite unit_bound_next. assert (1 <= units / pc) by (apply Z.div_le_lower_bound; lia).
        case_match; nia.
      + apply workers_snoc; [done|]. cbn. rewrite zlen_map, zlen_range; lia. }
  destruct (G pc ltac:(lia) ltac:(lia)) as [G1 G2]. rewrite unit_bound_last in G1 by lia. by split.
Qed.

Lemma BuildUnitPartitions_eq out units pc a :
  1 <= pc <= units -> 1 <= a -> a * units <= U32_MAX ->
  BuildUnitPartitions out units pc a AllowGrowth =
  Some (Vec (map (unit_partition units pc a) (range 0 pc)) (Z.max (capacity out) pc)).
Proof.
  intros Hpc Ha Hu. unfold BuildUnitPartitions. cbv zeta.
  destruct (Z.eqb_spec units 0); [lia|]. destruct (Z.eqb_spec pc 0); [lia|]. cbn [orb].
  rewrite bool_decide_true by done. cbn [andb].
  rewrite BuildUnitPartitionsInto_eq; try done.
  - cbn. do 2 f_equal. destruct (Z.ltb_spec (capacity out) pc); cbn; lia.
  - apply (vsize_resize (if capacity (vclear out) <? pc then _ else _) pc DefaultPartition). lia.
Qed.

Lemma partitions_u32 n ps : covers n ps -> is_u32 n -> Forall partition_u32 ps.
Proof.
  intros [Hc _] Hn. apply Forall_forall. intros p Hp.
  pose proof (contiguous_bounds _ _ _ _ Hc Hp). unfold partition_u32, is_u32 in *. lia.
Qed.

(** The uniform planner on a valid request, with what the schedule compiler needs. *)
Lemma BuildPartitions_valid out request :
  request_ok request ->
  exists build out' a units,
    BuildPartitions out request = Some (build, out') /\ pb_ok build = true /\
    covers (packet_count request) (items out') /\
    a * units = packet_count request /\
    pb_alignment_packets build = a /\ pb_partition_count build = vsize out' /\
    vsize out' = Z.min units (execution_width request) /\
    pb_packets_per_partition_max build = max_size (items out') /\
    capacity out' = Z.max (capacity out) (vsize out') /\
    vsize out' = proj_partition_count (ProjectPartitions request) /\
    pb_useful_width build = proj_useful_width (ProjectPartitions request) /\
    (forall p, p ∈ items out' ->
       p_end p - p_begin p = a * (units / vsize out') \/
       p_end p - p_begin p = a * (units / vsize out' + 1)).
Proof.
  intros Hrq. destruct (ProjectPartitions_valid request Hrq)
    as (a & units & Ea & Eok & Eu & Ha & Hau & Epc & Hpc).
  destruct Hrq as [Hp Hw _]. set (pc := Z.min units (execution_width request)) in *.
  assert (1 <= pc <= units) as Hpcu by lia. assert (pc <= U32_MAX) by lia.
  unfold BuildPartitions. cbv zeta. rewrite Eok, Ea, Eu, Epc. cbn [negb].
  rewrite BuildUnitPartitions_eq by lia. cbn [mbind option_bind items capacity].
  set (ps := map _ _). assert (zlen ps = pc) as Hl by (subst ps; rewrite zlen_map, zlen_range; lia).
  assert (covers (packet_count request) ps) as Hcov by (rewrite <- Hau; by apply unit_partitions_cover).
  unfold vsize. cbn [items]. rewrite (wrap32_small (zlen ps)) by (unfold is_u32; lia).
  destruct (ValidatePartitionCoverage_eq ps (packet_count request) 0) as (b & m & -> & Hb & Hm).
  { intros E. rewrite E in Hl. change (0 = pc) in Hl. lia. }
  { eapply partitions_u32; [done | unfold is_u32; lia]. }
  { unfold is_u32; lia. }
  assert (b = true) as Ebt by (apply Hb, Hcov). rewrite Ebt. cbn [mbind option_bind negb].
  eexists _, _, a, units. split; [reflexivity|]. cbn. rewrite Hl.
  repeat (split; [done || auto|]). intros p Hpin. subst ps.
  apply list_elem_of_fmap in Hpin as (i & -> & Hi%elem_of_range). cbn.
  rewrite unit_bound_next. destruct (i <? units mod pc); [right | left]; lia.
Qed.


End UniformFacts.

(** ** Balanced partitions cover, whatever the work *)
Module BalancedFacts.
Import Coverage.

Lemma NormalizeWorkUnits_u64 w : is_u64 w -> is_u64 (NormalizeWorkUnits w).
Proof. unfold NormalizeWorkUnits, is_u64. case_match; lia. Qed.
Lemma NormalizeWorkUnits_pos w : is_u64 w -> 1 <= NormalizeWorkUnits w.
Proof. unfold NormalizeWorkUnits, is_u64. destruct (Z.eqb_spec w 0); lia. Qed.

Lemma TotalNormalizedWork_u64 ws : Forall is_u64 ws -> is_u64 (TotalNormalizedWork ws).
Proof.
  intros Hw. unfold TotalNormalizedWork.
  assert (forall a, is_u64 a ->
    is_u64 (foldl (fun r w => ScalarSatAdd r (NormalizeWorkUnits w)) a ws)) as G.
  { induction Hw as [|w ws Hw _ IH]; intros a Ha; cbn; [done|].
    apply IH, ScalarSatAdd_range; [done | by apply NormalizeWorkUnits_u64]. }
  apply G. unfold is_u64; lia.
Qed.

Lemma take_balanced_spec ws b max_end target :
  Forall is_u64 ws -> 0 <= b < max_end -> max_end <= zlen ws -> max_end <= U32_MAX ->
  exists e work, take_balanced ws b max_end target = Some (e, work) /\
    b < e <= max_end /\ is_u64 work.
Proof.
  intros Hw Hb Hm Hu. unfold take_balanced.
  edestruct (while_loop_safe
    (fun st : Z * Z => b <= fst st <= max_end /\ is_u64 (snd st))
    (fun st : Z * Z => b < fst st <= max_end /\ is_u64 (snd st))
    (fun st => max_end - fst st))
    as [([e work] & E & Hq) | ([e work] & E & Hi & Hc)].
  4: { erewrite E. exists e, work. done. }
  4: { erewrite E. exists e, work. cbn in Hi, Hc. to_prop. split; [done|]. split; [lia | apply Hi]. }
  - cbn [fst snd]. split; [lia | unfold is_u64; lia].
  - intros [e work] [He Hwk] Hc. cbn in He, Hwk, Hc. to_prop.
    destruct (zget_is_Some ws e ltac:(lia)) as [w Ew]. rewrite Ew. cbn [mbind option_bind]. cbv zeta.
    rewrite wrap32_small by (unfold is_u32; lia).
    assert (is_u64 (ScalarSatAdd work (NormalizeWorkUnits w))).
    { apply ScalarSatAdd_range; [done|]. apply NormalizeWorkUnits_u64.
      apply zget_Some in Ew as [_ Ew]. by eapply Forall_lookup_1. }
    destruct (_ >=? target); [left | right]; (eexists; split; [reflexivity|]); cbn [fst snd].
    + split; [lia | done].
    + split; [split; [lia | done] | lia].
  - cbn [fst]. lia.
Qed.

(** The state between two partitions: [i] partitions are placed, and every worker
    that is left still gets at least one packet. *)
Definition balanced_inv (n pc cap : Z) (i : Z) (st : vec Partition * Z * Z * Z) : Prop :=
  let '(out, b, m, work) := st in
  contiguous 0 (items out) b /\ workers_in_order (items out) /\ vsize out = i /\
  m = max_size (items out) /\ capacity out = cap /\ (i < pc -> b <= n - (pc - i)) /\ (i = pc -> b = n) /\ is_u64 work.

Lemma BuildBalancedPartitions_valid out ws request :
  1 <= packet_count request <= U32_MAX -> 1 <= execution_width request <= U32_MAX ->
  zlen ws = packet_count request -> Forall is_u64 ws ->
  exists build out', BuildBalancedPartitions out ws request = Some (build, out') /\
    pb_ok build = true /\ covers (packet_count request) (items out') /\
    vsize out' = Z.min (packet_count request) (execution_width request) /\
    pb_partition_count build = vsize out' /\
    pb_packets_per_partition_max build = max_size (items out') /\
    pb_useful_width build <= execution_width request /\
    capacity out' = Z.max (capacity out) (vsize out').
Proof.
  intros Hp Hw Hl HF. unfold BuildBalancedPartitions, ValidPacketWorkUnits. cbv zeta.
  destruct (Z.eqb_spec (packet_count request) 0) as [|_]; [lia|].
  destruct (Z.eqb_spec (execution_width request) 0) as [|_]; [lia|].
  destruct (Z.eqb_spec (zlen ws) (packet_count request)) as [_|]; [|done]. cbn [negb andb].
  assert (ResolvePartitionCount request (packet_count request) =
    Z.min (packet_count request) (execution_width request)) as ->
    by (unfold ResolvePartitionCount, ClampKernelWidth; lia).
  set (n := packet_count request) in *. set (pc := Z.min n (execution_width request)).
  destruct (Z.eqb_spec pc 0); [lia|]. cbn [vclear capacity].
  set (out0 := vclear _). assert (capacity out0 = Z.max (capacity out) pc) as Hcap.
  { subst out0. cbn. destruct (Z.ltb_spec (capacity out) pc); cbn; lia. }
  edestruct (for_range_total (R := PartitionBuild * vec Partition)
    (balanced_inv n pc (Z.max (capacity out) pc))) as ([[[o b] m] rw] & E & Hinv).
  4: { erewrite E. cbn [after mbind option_bind].
       destruct Hinv as (Hc & Hwk & Hsz & -> & Hcp & _ & Hend & _). rewrite (Hend eq_refl) in *.
       rewrite Z.eqb_refl. cbn [negb]. eexists _, _. split; [reflexivity|].
       split; [done|]. split; [by split|]. split; [done|]. cbn. rewrite Hsz.
       rewrite wrap32_small by (unfold is_u32; lia). unfold ClampKernelWidth.
       split; [done|]. split; [done|]. split; [lia | done]. }
  - lia.
  - unfold balanced_inv. subst out0. cbn [vclear items]. split; [done|].
    split; [intros j q Hj; apply zget_range in Hj; change (zlen (@nil Partition)) with 0 in Hj; lia|].
    do 3 (split; [done|]). split; [lia|]. split; [lia|]. by apply TotalNormalizedWork_u64.
  - intros i [[[o b] m] rw] Hi (Hc & Hwk & Hsz & -> & Hcp & Hb & _ & Hrw). specialize (Hb ltac:(lia)).
    pose proof (contiguous_le _ _ _ Hc) as Hb0.
    rewrite (wrap32_small (i + 1)) by (unfold is_u32; lia).
    assert (exists e rw', (if i + 1 =? pc then Some (n, rw)
      else '(end_, partition_work) ← take_balanced ws b (wrap32 (n - (pc - i - 1)))
             (wrap64 (rw + (pc - i) - 1) / (pc - i));
           Some (end_, ScalarSatSub rw partition_work)) = Some (e, rw') /\
      b < e <= n /\ is_u64 rw' /\ (i + 1 < pc -> e <= n - (pc - (i + 1))) /\ (i + 1 = pc -> e = n))
      as (e & rw' & -> & He & Hrw' & Hnext & Hlast).
    { destruct (Z.eqb_spec (i + 1) pc) as [Epc|Epc].
      - exists n, rw. split; [done|]. split; [lia|]. split; [done|]. split; lia.
      - rewrite wrap32_small by (unfold is_u32; lia).
        destruct (take_balanced_spec ws b (n - (pc - i - 1))
          (wrap64 (rw + (pc - i) - 1) / (pc - i)) HF) as (e & wk & -> & He & Hwk'); [lia..|].
        exists e, (ScalarSatSub rw wk). split; [done|]. split; [lia|].
        split; [by apply ScalarSatSub_range|]. split; lia. }
    cbn [mbind option_bind]. rewrite Z.geb_leb, Z.gtb_ltb.
    destruct (Z.leb_spec e b); [lia|]. destruct (Z.ltb_spec n e); [lia|]. cbn [orb].
    eexists. split; [reflexivity|]. unfold balanced_inv. cbn [vpush items capacity].
    assert (vsize (vpush o (mkPartition i b e)) = i + 1) as Hsz'
      by (unfold vsize, vpush in *; cbn [items]; rewrite zlen_app, Hsz; done).
    split; [apply contiguous_snoc; cbn; split; [done|]; lia|].
    split; [apply workers_snoc; [done | symmetry; exact Hsz]|].
    split; [exact Hsz'|].
    split; [rewrite max_size_snoc; cbn; rewrite wrap32_small by (unfold is_u32; lia); done|].
    split; [lia|]. done.
Qed.

(** The balanced planner accepts every request that has work units for its
    packets, for all 64-bit work units: its partitions run every packet exactly
    once and in order, every worker gets at least one packet, and the inner search
    loops terminate. *)
Theorem BuildBalancedPartitions_covers out ws request :
  1 <= packet_count request <= U32_MAX -> 1 <= execution_width request <= U32_MAX ->
  zlen ws = packet_count request -> Forall is_u64 ws ->
  exists build out', BuildBalancedPartitions out ws request = Some (build, out') /\
    pb_ok build = true /\
    items out' ≫= packets_of = range 0 (packet_count request) /\
    workers_in_order (items out') /\
    vsize out' = Z.min (packet_count request) (execution_width request).
Proof.
  intros Hp Hw Hl HF.
  destruct (BuildBalancedPartitions_valid out ws request Hp Hw Hl HF)
    as (build & out' & E & Hok & [Hc Hwk] & Hn & _).
  exists build, out'. repeat (split; [done || by apply contiguous_packets|]). done.
Qed.

Definition balanced_request (n w : Z) : PartitionRequest := {|
  packet_count := n; execution_width := w; intent := StaticWidth;
  preferred_alignment_packets := 1; packet_work_units := []; worker_capacity_milli := [];
  trust_worker_capacity := false |}.

Lemma BuildBalancedPartitions_covers_witness :
  exists build out', BuildBalancedPartitions vempty [9; 0; 3; 3; 1; 7] (balanced_request 6 3) =
      Some (build, out') /\ vsize out' = 3.
Proof.
  destruct (BuildBalancedPartitions_covers vempty [9; 0; 3; 3; 1; 7] (balanced_request 6 3))
    as (b & o & E & _ & _ & _ & Hn); try (cbn; lia); try reflexivity.
  - repeat constructor; vm_compute; congruence.
  - exists b, o. split; [exact E|]. rewrite Hn. reflexivity.
Defined.

(** Once the total work saturates at 2^64 - 1 the rounded-up target
    [(remaining_work + remaining_partitions - 1) / remaining_partitions] wraps to 0,
    so the first worker gets a single packet of work 1 while the other one gets all
    the rest, although the split at packet 5 is perfectly feasible. *)
Example BuildBalancedPartitions_target_wraps :
  exists build out',
    BuildBalancedPartitions vempty [1; 1; 1; 1; 1; U64_MAX] (balanced_request 6 2) =
      Some (build, out') /\
    map (fun p => (p_begin p, p_end p)) (items out') = [(0, 1); (1, 6)] /\
    wrap64 (TotalNormalizedWork [1; 1; 1; 1; 1; U64_MAX] + 2 - 1) / 2 = 0.
Proof. eexists _, _. split; [vm_compute; reflexivity|]. split; vm_compute; reflexivity. Qed.
End BalancedFacts.
