(* ===== verification/Capacity.v ===== *)
(** * Capacity: partitions weighted by worker capacity

    [schedule/planner/capacity.cpp], [schedule/planner/capacity/*.cpp]: the binary
    searches for the smallest load limit, over alignment units and over packet
    work, and the partitions they give. *)
From stdpp Require Import base numbers list option strings.
From Stdlib Require Import ZArith Lia.
From S2P Require Import Prelude Checked Scalar Planner.
Import Sat.

Definition kRatioScale : Z := 1000000.

Definition CapacityForSlot (request : PartitionRequest) (slot : Z) : option Z :=
  zget (worker_capacity_milli request) (slot mod Z.max 1 (execution_width request)).

(** ** The binary search

    Both [MinimaxLimit] functions run this loop over their own [Feasible]. *)
Definition search_fuel : nat := 65.

Definition search_limit (feasible : Z -> option bool) (high : Z) : option Z :=
  r ← while_loop (R := Empty_set) search_fuel
    (fun '(low, high) => low <? high)
    (fun '(low, high) =>
       let mid := low + (high - low) / 2 in
       f ← feasible mid;
       Some (Next (if f : bool then (low, mid) else (mid + 1, high))))
    (0, high);
  match r with Next (low, _) => Some low | Return v => Empty_set_rect (fun _ => option Z) v end.

(** ** Units ([capacity/minimax.cpp]) *)
Module Units.

Definition UnitsAtLimit (limit capacity total_units : Z) : Z :=
  let whole := limit / kRatioScale in
  let rem := limit mod kRatioScale in
  let base := wrap64 (whole * capacity) in
  if base >=? total_units then total_units
  else
    let extra := wrap64 (rem * capacity) / kRatioScale in
    wrap32 (Z.min total_units (wrap64 (base + extra))).

Definition UnitFeasible (request : PartitionRequest) (partition_count partition_units limit : Z)
    : option bool :=
  after (for_loop
    (fun total slot =>
       capacity ← CapacityForSlot request slot;
       let units := UnitsAtLimit limit capacity partition_units in
       if units =? 0 then Some (Return false)
       else
         let total := wrap64 (total + units) in
         if total >=? partition_units then Some (Return true) else Some (Next total))
    0 (range 0 partition_count))
  (fun _ => Some false).

Definition UnitMinimaxLimit (request : PartitionRequest) (partition_count partition_units : Z)
    : option Z :=
  search_limit (UnitFeasible request partition_count partition_units)
    (wrap64 (partition_units * kRatioScale)).

Definition RatioGreater (lhs_units lhs_capacity rhs_units rhs_capacity : Z) : bool :=
  wrap64 (lhs_units * rhs_capacity) >? wrap64 (rhs_units * lhs_capacity).

(** The slot to trim: the one with the largest load per capacity among those with
    more than one unit; the number of slots when there is none. *)
Definition TrimSlot (widths : list Partition) (request : PartitionRequest) : option Z :=
  r ← for_each
    (fun '(best, found) slot =>
       width ← zget widths slot;
       if p_end width <=? 1 then Some (best, found)
       else if negb found then Some (slot, true)
       else
         best_width ← zget widths best;
         capacity ← CapacityForSlot request slot;
         best_capacity ← CapacityForSlot request best;
         if RatioGreater (p_end width) capacity (p_end best_width) best_capacity
         then Some (slot, true) else Some (best, found))
    (0, false) (range 0 (wrap32 (zlen widths)));
  Some (if snd r : bool then fst r else wrap32 (zlen widths)).

Definition BuildMinimaxUnitWidths (out_widths : vec Partition) (request : PartitionRequest)
    (partition_count partition_units : Z) : option (bool * vec Partition) :=
  limit ← UnitMinimaxLimit request partition_count partition_units;
  after (for_loop
    (fun '(out, total) slot =>
       capacity ← CapacityForSlot request slot;
       let width := UnitsAtLimit limit capacity partition_units in
       if width =? 0 then Some (Return (false, out))
       else Some (Next (vpush out (mkPartition slot 0 width), wrap64 (total + width))))
    (vclear out_widths, 0) (range 0 partition_count))
  (fun '(out, total) =>
     after (while_loop (S (Z.to_nat (total - partition_units)))
       (fun '(_, total) => total >? partition_units)
       (fun '(out, total) =>
          slot ← TrimSlot (items out) request;
          if slot >=? vsize out then Some (Return (false, out))
          else
            width ← zget (items out) slot;
            out ← vset out slot (mkPartition (worker_index width) (p_begin width)
                                   (wrap32 (p_end width - 1)));
            Some (Next (out, wrap64 (total - 1))))
       (out, total))
     (fun '(out, total) => Some (total =? partition_units, out))).
End Units.

(** ** Work ([capacity/work.cpp]) *)
Module Work.

Definition WorkAtLimit (limit capacity : Z) : Z :=
  let whole := limit / kRatioScale in
  let rem := limit mod kRatioScale in
  let base := ScalarSatMul whole capacity in
  let extra := ScalarSatMul rem capacity / kRatioScale in
  ScalarSatAdd base extra.

Definition PacketWork (request : PartitionRequest) (packet : Z) : option Z :=
  w ← zget (packet_work_units request) packet; Some (NormalizeWorkUnits w).

Definition TotalWork (request : PartitionRequest) : option Z :=
  for_each (fun total packet => w ← PacketWork request packet; Some (ScalarSatAdd total w))
    0 (range 0 (packet_count request)).

(** The packet after the slot's partition and whether the slot took any. *)
Definition ConsumeSlot (request : PartitionRequest) (slot partition_count limit packet : Z)
    : option (bool * Z) :=
  let remaining_slots := wrap32 (wrap32 (partition_count - slot) - 1) in
  let max_end := wrap32 (packet_count request - remaining_slots) in
  capacity ← CapacityForSlot request slot;
  let allowed := WorkAtLimit limit capacity in
  let begin_ := packet in
  after
    (r ← while_loop (S (Z.to_nat (max_end - begin_)))
      (fun '(packet, _) => packet <? max_end)
      (fun '(packet, work) =>
         next ← PacketWork request packet;
         let candidate := ScalarSatAdd work next in
         if negb (packet =? begin_) && (candidate >? allowed) then Some (Return (None, packet))
         else if candidate >? allowed then Some (Return (Some false, packet))
         else Some (Next (wrap32 (packet + 1), candidate)))
      (packet, 0);
     Some match r with
          | Next (packet, _) => Next packet
          | Return (None, packet) => Next packet            (* break *)
          | Return (Some b, packet) => Return (b, packet)    (* return *)
          end)
  (fun packet => Some (negb (packet =? begin_), packet)).

Definition WorkFeasible (request : PartitionRequest) (partition_count limit : Z) : option bool :=
  after (for_loop
    (fun packet slot =>
       '(ok, packet) ← ConsumeSlot request slot partition_count limit packet;
       if negb ok then Some (Return false) else Some (Next packet))
    0 (range 0 partition_count))
  (fun packet => Some (packet =? packet_count request)).

Definition WorkMinimaxLimit (request : PartitionRequest) (partition_count : Z) : option Z :=
  total ← TotalWork request;
  search_limit (WorkFeasible request partition_count) (ScalarSatMul total kRatioScale).

(** Success, the partitions, and the largest partition. *)
Definition BuildMinimaxWorkPartitions (out_partitions : vec Partition)
    (request : PartitionRequest) (partition_count : Z) : option (bool * vec Partition * Z) :=
  limit ← WorkMinimaxLimit request partition_count;
  after (for_loop
    (fun '(out, max_packets, begin_) slot =>
       '(ok, end_) ← ConsumeSlot request slot partition_count limit begin_;
       if negb ok then Some (Return (false, vclear out, max_packets))
       else Some (Next (vpush out (mkPartition slot begin_ end_),
                        Z.max max_packets (wrap32 (end_ - begin_)), end_)))
    (vclear out_partitions, 0, 0) (range 0 partition_count))
  (fun '(out, max_packets, begin_) => Some (begin_ =? packet_count request, out, max_packets)).
End Work.

(** ** [BuildCapacityWeightedPartitions] ([planner/capacity.cpp]) *)
Definition ValidCapacities (request : PartitionRequest) : option bool :=
  if negb (bool_decide (intent request = StaticWidth)) ||
     (zlen (worker_capacity_milli request) <? execution_width request) then Some false
  else after (for_loop
    (fun (_ : unit) index =>
       capacity ← zget (worker_capacity_milli request) index;
       if capacity =? 0 then Some (Return false) else Some (Next tt))
    tt (range 0 (execution_width request)))
  (fun _ => Some true).

Definition HasPacketWorkUnits (request : PartitionRequest) : bool :=
  zlen (packet_work_units request) =? packet_count request.

(** Turning the unit widths into partitions. *)
Definition place_units (out : list Partition) (partition_count alignment : Z)
    : option (list Partition * Z) :=
  r ← for_each
    (fun '(out, max_packets, unit_begin) slot =>
       p ← zget out slot;
       let unit_end := wrap32 (unit_begin + p_end p) in
       let begin_ := wrap32 (unit_begin * alignment) in
       let end_ := wrap32 (unit_end * alignment) in
       out ← zset out slot (mkPartition slot begin_ end_);
       Some (out, Z.max max_packets (wrap32 (end_ - begin_)), unit_end))
    (out, 0, 0) (range 0 partition_count);
  Some (fst r).

Definition BuildCapacityWeightedPartitions (out_partitions : vec Partition)
    (request : PartitionRequest) : option (PartitionBuild * vec Partition) :=
  let out := vclear out_partitions in
  let projection := ProjectPartitions request in
  if negb (proj_ok projection) then
    Some (FailProjectedPartitionBuild projection (proj_reason projection), out)
  else
    let partition_count := proj_partition_count projection in
    valid ← ValidCapacities request;
    if negb valid then
      Some (FailProjectedPartitionBuild projection "invalid_worker_capacity", out)
    else if negb (trust_worker_capacity request) then
      Some (FailProjectedPartitionBuild projection "untrusted_worker_capacity", out)
    else if negb (zlen (packet_work_units request) =? 0) &&
            negb (ValidPacketWorkUnits (packet_work_units request) request) then
      Some (FailProjectedPartitionBuild projection "invalid_packet_work_units", out)
    else
      let alignment := proj_alignment_packets projection in
      let partition_units := ResolvePartitionUnits request alignment in
      let out := if capacity out <? partition_count then vreserve out partition_count else out in
      let built out alignment max_packets := {|
        pb_ok := true; pb_reason := "pass"; pb_partition_count := wrap32 (vsize out);
        pb_alignment_packets := alignment; pb_packets_per_partition_max := max_packets;
        pb_worker_slot_count := proj_worker_slot_count projection;
        pb_fold_slot_count := proj_fold_slot_count projection;
        pb_useful_width := proj_useful_width projection;
        pb_placement := CapacityWeightedStatic; pb_no_allocation := false |} in
      if HasPacketWorkUnits request then
        '(ok, out, max_packets) ← Work.BuildMinimaxWorkPartitions out request partition_count;
        if negb ok then
          Some (FailProjectedPartitionBuild projection "capacity_minimax_failed", vclear out)
        else Some (built out 1 max_packets, out)
      else
        '(ok, out) ← Units.BuildMinimaxUnitWidths out request partition_count partition_units;
        if negb ok then
          Some (FailProjectedPartitionBuild projection "capacity_minimax_failed", vclear out)
        else
          '(l, max_packets) ← place_units (items out) partition_count alignment;
          let out := Vec l (capacity out) in
          Some (built out alignment max_packets, out).

(** ** The search terminates and keeps a feasible limit *)
Module SearchFacts.

Definition gap (st : Z * Z) : Z := if fst st <? snd st then Z.log2 (snd st - fst st) + 1 else 0.

Lemma gap_halves d d' : 1 <= d -> 0 <= d' <= d / 2 ->
  0 <= (if 0 <? d' then Z.log2 d' + 1 else 0) < Z.log2 d + 1.
Proof.
  intros Hd Hd'. pose proof (Z.log2_nonneg d). pose proof (Z.log2_nonneg d').
  destruct (Z.ltb_spec 0 d'); [|lia]. split; [lia|].
  assert (Z.log2 (2 * d') <= Z.log2 d) as Hl
    by (apply Z.log2_le_mono; Z.div_mod_to_equations; lia).
  rewrite Z.log2_double in Hl by lia. lia.
Qed.

Lemma search_limit_spec feasible high :
  is_u64 high -> (forall m, 0 <= m <= high -> is_Some (feasible m)) ->
  exists low, search_limit feasible high = Some low /\ 0 <= low <= high /\
    (feasible high = Some true -> feasible low = Some true) /\
    (0 < low -> feasible (low - 1) = Some false).
Proof.
  intros Hh Htot. unfold search_limit. unfold is_u64 in Hh.
  edestruct (while_loop_total (R := Empty_set)
    (fun st : Z * Z => 0 <= fst st <= snd st /\ snd st <= high /\
       (feasible high = Some true -> feasible (snd st) = Some true) /\
       (0 < fst st -> feasible (fst st - 1) = Some false)) gap)
    as ([low h] & E & (Hlo & Hhi & Hf & Hmin) & Hc).
  4: { erewrite E. cbn [mbind option_bind]. cbn [fst snd] in *. to_prop. exists low.
       assert (h = low) as -> by lia. split; [done|]. split; [lia | done]. }
  - cbn [fst snd]. split; [lia|]. split; [lia|]. split; [done | lia].
  - intros [low h] (Hlo & Hhi & Hf & Hmin) Hc. cbn [fst snd] in *. to_prop.
    assert (0 <= (h - low) / 2 < h - low) by (Z.div_mod_to_equations; lia). cbv zeta.
    destruct (Htot (low + (h - low) / 2)) as [b Hb]; [lia|]. rewrite Hb. cbn [mbind option_bind].
    eexists. split; [reflexivity|]. unfold gap. cbn [fst snd].
    destruct (Z.ltb_spec low h); [|lia].
    destruct b; cbn [fst snd].
    + split; [split; [lia|]; split; [lia|]; by split|].
      destruct (gap_halves (h - low) ((h - low) / 2)) as [G1 G2]; [lia | lia|].
      replace (low + (h - low) / 2 - low) with ((h - low) / 2) by lia.
      destruct (Z.ltb_spec low (low + (h - low) / 2)), (Z.ltb_spec 0 ((h - low) / 2)); try lia.
    + split; [split; [lia|]; split; [lia|]; split; [done|]; intros _; by rewrite Z.add_simpl_r|].
      destruct (gap_halves (h - low) (h - (low + (h - low) / 2 + 1))) as [G1 G2];
        [lia | Z.div_mod_to_equations; lia|].
      destruct (Z.ltb_spec (low + (h - low) / 2 + 1) h),
        (Z.ltb_spec 0 (h - (low + (h - low) / 2 + 1))); try lia.
  - unfold gap, search_fuel. cbn [fst snd]. destruct (Z.ltb_spec 0 high); [|lia].
    assert (Z.log2 (high - 0) < 64); [|pose proof (Z.log2_nonneg (high - 0)); lia].
    apply Z.log2_lt_pow2; lia.
Qed.
End SearchFacts.

(** ** Partitions by packet work *)
Module WorkFacts.
Import Coverage BalancedFacts Work.

Section request.
Context (request : PartitionRequest) (pc : Z).
Abbreviation n := (packet_count request).
Abbreviation ws := (packet_work_units request).
Context (Hn : n <= U32_MAX) (Hpc : 1 <= pc <= n) (Hws : zlen ws = n) (Hwsu : Forall is_u64 ws).
Context (Hwidth : 1 <= execution_width request).
Context (Hcaps : forall i, 0 <= i < execution_width request ->
  exists c, zget (worker_capacity_milli request) i = Some c /\ 1 <= c <= U32_MAX).

Lemma CapacityForSlot_total slot :
  exists c, CapacityForSlot request slot = Some c /\ 1 <= c <= U32_MAX.
Proof using Hwidth Hcaps.
  unfold CapacityForSlot. rewrite Z.max_r by lia. apply Hcaps, Z.mod_pos_bound. lia.
Qed.

(** The exact work of the packets from [b] to [e], before saturation. *)
Definition work_between (b e : Z) : Z :=
  foldr Z.add 0 (map NormalizeWorkUnits (take (Z.to_nat (e - b)) (drop (Z.to_nat b) ws))).
Definition sat (z : Z) : Z := Z.min U64_MAX z.

Lemma work_between_nil b : work_between b b = 0.
Proof using. unfold work_between. by rewrite Z.sub_diag, take_0. Qed.

Lemma work_between_snoc b e w :
  0 <= b <= e -> zget ws e = Some w ->
  work_between b (e + 1) = work_between b e + NormalizeWorkUnits w.
Proof using.
  intros Hbe Hw. apply zget_Some in Hw as [_ Hw]. unfold work_between.
  replace (Z.to_nat (e + 1 - b)) with (S (Z.to_nat (e - b))) by lia.
  rewrite (take_S_r _ _ w).
  - rewrite map_app, foldr_app. cbn. generalize (map NormalizeWorkUnits (take (Z.to_nat (e - b)) (drop (Z.to_nat b) ws))).
    intros l. induction l as [|x l IH]; cbn; lia.
  - rewrite lookup_drop. rewrite <- Hw. f_equal. lia.
Qed.

Lemma work_between_nonneg b e : 0 <= work_between b e.
Proof using Hwsu.
  unfold work_between.
  assert (Forall is_u64 (take (Z.to_nat (e - b)) (drop (Z.to_nat b) ws))) as HF
    by (by apply Forall_take, Forall_drop).
  induction HF as [|w l Hw _ IH]; cbn; [lia|]. pose proof (NormalizeWorkUnits_pos w Hw). lia.
Qed.

Lemma PacketWork_total p :
  0 <= p < n -> exists w, zget ws p = Some w /\ PacketWork request p = Some (NormalizeWorkUnits w) /\
    is_u64 (NormalizeWorkUnits w).
Proof using Hws Hwsu.
  intros Hp. destruct (zget_nth_range ws p n Hws Hp) as [w Hw]. exists w. split; [done|].
  unfold PacketWork. rewrite Hw. split; [done|]. apply NormalizeWorkUnits_u64.
  apply zget_Some in Hw as [_ Hw]. by eapply Forall_lookup_1.
Qed.

Lemma sat_add z w : 0 <= z -> is_u64 w -> ScalarSatAdd (sat z) w = sat (z + w).
Proof using.
  intros Hz Hw. unfold sat. rewrite ScalarSatAdd_spec by (unfold is_u64 in *; lia).
  unfold is_u64 in Hw. lia.
Qed.

Lemma TotalWork_eq : TotalWork request = Some (sat (work_between 0 n)).
Proof using Hpc Hws Hwsu.
  unfold TotalWork. edestruct (for_range_inv (fun p t => t = sat (work_between 0 p)))
    as (t & E & ->).
  4: { exact E. }
  - lia.
  - rewrite work_between_nil. done.
  - intros p t Hp ->. destruct (PacketWork_total p Hp) as (w & Hw & -> & Hu).
    cbn [mbind option_bind]. eexists. split; [reflexivity|].
    rewrite sat_add by (done || apply work_between_nonneg).
    by rewrite (work_between_snoc 0 p w) by (done || lia).
Qed.

Lemma WorkAtLimit_u64 limit c : is_u64 limit -> 1 <= c <= U32_MAX -> is_u64 (WorkAtLimit limit c).
Proof using.
  unfold is_u64, WorkAtLimit, kRatioScale. intros Hl Hc. cbv zeta.
  pose proof (Z.mod_pos_bound limit 1000000 ltac:(lia)).
  assert (0 <= limit / 1000000 <= limit) by (Z.div_mod_to_equations; lia).
  assert (is_u64 (ScalarSatMul (limit mod 1000000) c)) as Hm
    by (apply ScalarSatMul_range; unfold is_u64; lia).
  apply ScalarSatAdd_range.
  - apply ScalarSatMul_range; unfold is_u64; lia.
  - unfold is_u64 in *. Z.div_mod_to_equations. lia.
Qed.

Lemma foldr_work_ge l z :
  Forall is_u64 l -> z <= foldr Z.add z (map NormalizeWorkUnits l).
Proof using.
  induction 1 as [|w l Hw _ IH]; cbn; [lia|]. pose proof (NormalizeWorkUnits_pos w Hw). lia.
Qed.
Lemma foldr_work_mono l y z :
  y <= z -> foldr Z.add y (map NormalizeWorkUnits l) <= foldr Z.add z (map NormalizeWorkUnits l).
Proof using. intros Hyz. induction l as [|w l IH]; cbn; lia. Qed.

Lemma work_between_mono b e :
  0 <= b <= e -> e <= n -> sat (work_between b e) <= sat (work_between 0 n).
Proof using Hws Hwsu.
  intros Hbe Hen. assert (work_between b e <= work_between 0 n); [|unfold sat; lia].
  unfold work_between.
  assert (take (Z.to_nat (n - 0)) (drop (Z.to_nat 0) ws) = ws) as ->
    by (cbn [Z.to_nat]; rewrite drop_0; apply take_ge; unfold zlen in *; lia).
  transitivity (foldr Z.add 0 (map NormalizeWorkUnits (drop (Z.to_nat b) ws))).
  - rewrite <- (take_drop (Z.to_nat (e - b)) (drop (Z.to_nat b) ws)) at 2.
    rewrite map_app, foldr_app. apply foldr_work_mono, foldr_work_ge. by do 2 apply Forall_drop.
  - rewrite <- (take_drop (Z.to_nat b) ws) at 2. rewrite map_app, foldr_app.
    apply foldr_work_ge. by apply Forall_take.
Qed.

Lemma ConsumeSlot_spec slot limit b c :
  0 <= slot < pc -> 0 <= b <= n - (pc - slot) -> is_u64 limit ->
  CapacityForSlot request slot = Some c -> 1 <= c <= U32_MAX ->
  exists ok e, ConsumeSlot request slot pc limit b = Some (ok, e) /\
    (ok = true -> b < e <= n - (pc - (slot + 1)) /\ sat (work_between b e) <= WorkAtLimit limit c) /\
    (sat (work_between 0 n) <= WorkAtLimit limit c -> ok = true /\ e = n - (pc - (slot + 1))).
Proof using Hn Hpc Hws Hwsu Hwidth.
  intros Hs Hb Hlim Hc Hcr. pose proof (WorkAtLimit_u64 limit c Hlim Hcr) as Hau.
  unfold ConsumeSlot. cbv zeta. rewrite (wrap32_small (pc - slot)) by (unfold is_u32; lia).
  rewrite (wrap32_small (pc - slot - 1)) by (unfold is_u32; lia).
  rewrite (wrap32_small (n - (pc - slot - 1))) by (unfold is_u32; lia). rewrite Hc. cbn [mbind option_bind].
  replace (n - (pc - slot - 1)) with (n - (pc - (slot + 1))) by lia.
  set (max_end := n - (pc - (slot + 1))) in *. set (allowed := WorkAtLimit limit c) in *.
  edestruct (while_loop_safe (R := option bool * Z)
    (fun st : Z * Z => b <= fst st <= max_end /\ snd st = sat (work_between b (fst st)) /\
       (b < fst st -> snd st <= allowed))
    (fun r : option bool * Z => ~ sat (work_between 0 n) <= allowed /\
       (fst r = Some false \/
        fst r = None /\ b < snd r <= max_end /\ sat (work_between b (snd r)) <= allowed))
    (fun st => max_end - fst st)) as [([r e] & E & Hbig & Hq) | ([e work] & E & Hi & Hend)].
  4: { erewrite E. cbn [mbind option_bind]. cbn [fst snd] in Hq. destruct Hq as [->|(-> & He & Hwk)].
       - cbn [after mbind option_bind]. eexists _, _. split; [reflexivity|]. split; [done | tauto].
       - cbn [after mbind option_bind]. destruct (Z.eqb_spec e b); [lia|]. cbn [negb].
         eexists _, _. split; [reflexivity|]. split; [done | tauto]. }
  4: { erewrite E. cbn [mbind option_bind after]. cbn [fst snd] in *. to_prop.
       assert (e = max_end) as -> by lia. destruct Hi as (_ & -> & Hal).
       destruct (Z.eqb_spec max_end b); [lia|]. cbn [negb].
       eexists _, _. split; [reflexivity|]. split; [|done]. intros _. split; [lia | apply Hal; lia]. }
  - cbn [fst snd]. rewrite work_between_nil. split; [lia|]. split; [done | lia].
  - intros [p work] (Hp & Hwk & Hal) Hcd. cbn [fst snd] in *. to_prop.
    destruct (PacketWork_total p ltac:(lia)) as (w & Hw & -> & Hu). cbn [mbind option_bind].
    assert (ScalarSatAdd work (NormalizeWorkUnits w) = sat (work_between b (p + 1))) as ->.
    { rewrite Hwk, sat_add by (done || apply work_between_nonneg).
      by rewrite (work_between_snoc b p w) by (done || lia). }
    rewrite Z.gtb_ltb. destruct (Z.ltb_spec allowed (sat (work_between b (p + 1)))) as [Hover|Hfits].
    + rewrite andb_true_r. left.
      assert (~ sat (work_between 0 n) <= allowed)
        by (pose proof (work_between_mono b (p + 1) ltac:(lia) ltac:(lia)); lia).
      destruct (Z.eqb_spec p b); cbn [negb]; eexists; (split; [reflexivity|]); (split; [done|]); cbn [fst snd].
      * by left.
      * right. split; [done|]. split; [lia|]. rewrite <- Hwk. apply Hal. lia.
    + rewrite andb_false_r. right. rewrite wrap32_small by (unfold is_u32; lia).
      eexists. split; [reflexivity|]. cbn [fst snd]. split; [split; [lia|]; split; [done | lia] | lia].
  - cbn [fst]. lia.
Qed.

Definition feasible_body (limit : Z) (packet slot : Z) : option (flow Z bool) :=
  '(ok, packet) ← ConsumeSlot request slot pc limit packet;
  if negb ok then Some (Return false) else Some (Next packet).

Definition build_body (limit : Z) : vec Partition * Z * Z -> Z ->
    option (flow (vec Partition * Z * Z) (bool * vec Partition * Z)) :=
  fun '(out, max_packets, begin_) slot =>
  '(ok, end_) ← ConsumeSlot request slot pc limit begin_;
  if negb ok then Some (Return (false, vclear out, max_packets))
  else Some (Next (vpush out (mkPartition slot begin_ end_),
                   Z.max max_packets (wrap32 (end_ - begin_)), end_)).

Lemma WorkFeasible_total limit : is_u64 limit -> is_Some (WorkFeasible request pc limit).
Proof using Hn Hpc Hws Hwsu Hwidth Hcaps.
  intros Hl. unfold WorkFeasible. fold (feasible_body limit).
  destruct (for_range_safe (fun i p => 0 <= p <= n - (pc - i)) (fun _ => True)
    (feasible_body limit) 0 pc 0) as [(v & -> & _) | (p & -> & _)].
  - lia.
  - lia.
  - intros i p Hi Hp. destruct (CapacityForSlot_total i) as (c & Hc & Hcr).
    destruct (ConsumeSlot_spec i limit p c Hi Hp Hl Hc Hcr) as (ok & e & E & Hok & _).
    unfold feasible_body. rewrite E. cbn [mbind option_bind]. destruct ok; cbn [negb].
    + right. exists e. split; [done|]. destruct (Hok eq_refl). lia.
    + left. by exists false.
  - by eexists.
  - by eexists.
Qed.

Lemma WorkFeasible_high limit :
  is_u64 limit ->
  (forall c, 1 <= c <= U32_MAX -> sat (work_between 0 n) <= WorkAtLimit limit c) ->
  WorkFeasible request pc limit = Some true.
Proof using Hn Hpc Hws Hwsu Hwidth Hcaps.
  intros Hl Hbig. unfold WorkFeasible. fold (feasible_body limit).
  destruct (for_range_total (R := bool) (fun i p => p = if i =? 0 then 0 else n - (pc - i))
    (feasible_body limit) 0 pc 0) as (p & -> & ->).
  - lia.
  - done.
  - intros i p Hi ->. destruct (CapacityForSlot_total i) as (c & Hc & Hcr).
    destruct (ConsumeSlot_spec i limit (if i =? 0 then 0 else n - (pc - i)) c Hi) as (ok & e & E & _ & Hok);
      [destruct (Z.eqb_spec i 0); lia | done..|].
    destruct (Hok (Hbig c Hcr)) as [-> ->]. unfold feasible_body. rewrite E. cbn.
    eexists. split; [reflexivity|]. destruct (Z.eqb_spec (i + 1) 0); lia.
  - cbn [after mbind option_bind]. destruct (Z.eqb_spec pc 0); [lia|]. f_equal. apply Z.eqb_eq. lia.
Qed.

(** The construction repeats the steps of the feasibility test. *)
Lemma build_follows limit l out m p :
  match for_loop (feasible_body limit) p l, for_loop (build_body limit) (out, m, p) l with
  | Some (Next p'), Some (Next st) => snd st = p'
  | Some (Return f), Some (Return r) => f = false
  | None, None => True
  | _, _ => False
  end.
Proof using.
  revert out m p. induction l as [|slot l IH]; intros out m p; cbn [for_loop]; [done|].
  change (feasible_body limit p slot) with
    ('(ok, packet) ← ConsumeSlot request slot pc limit p;
     if negb ok then Some (Return false) else Some (Next packet) : option (flow Z bool)).
  change (build_body limit (out, m, p) slot) with
    ('(ok, end_) ← ConsumeSlot request slot pc limit p;
     if negb ok then Some (Return (false, vclear out, m))
     else Some (Next (vpush out (mkPartition slot p end_), Z.max m (wrap32 (end_ - p)), end_))
     : option (flow (vec Partition * Z * Z) (bool * vec Partition * Z))).
  destruct (ConsumeSlot request slot pc limit p) as [[[] e]|]; cbn [mbind option_bind negb]; [|done|done].
  apply IH.
Qed.

(** The load of every partition respects the limit at its worker's capacity. *)
Definition loads_within (limit : Z) (ps : list Partition) : Prop :=
  forall i p, zget ps i = Some p -> exists c, CapacityForSlot request i = Some c /\
    sat (work_between (p_begin p) (p_end p)) <= WorkAtLimit limit c.

Definition build_inv (limit cap i : Z) (st : vec Partition * Z * Z) : Prop :=
  let '(out, m, b) := st in
  contiguous 0 (items out) b /\ workers_in_order (items out) /\ vsize out = i /\
  m = max_size (items out) /\ 0 <= b <= n - (pc - i) /\ loads_within limit (items out) /\
  capacity out = cap.

Lemma build_loop limit out :
  is_u64 limit -> pc <= capacity out ->
  (exists v, for_loop (build_body limit) (vclear out, 0, 0) (range 0 pc) = Some (Return v) /\
     fst (fst v) = false /\ capacity (snd (fst v)) = capacity out) \/
  (exists st, for_loop (build_body limit) (vclear out, 0, 0) (range 0 pc) = Some (Next st) /\
     build_inv limit (capacity out) pc st).
Proof using Hn Hpc Hws Hwsu Hwidth Hcaps.
  intros Hl Hcap. apply for_range_safe; [lia | |].
  - unfold build_inv. cbn. split; [done|].
    assert (forall i (p : Partition), zget [] i = Some p -> False) as Hno
      by (intros i p Hp; apply zget_range in Hp; change (zlen (@nil Partition)) with 0 in Hp; lia).
    split; [intros i p Hp; by apply Hno in Hp|]. do 2 (split; [done|]). split; [lia|].
    split; [intros i p Hp; by apply Hno in Hp | done].
  - intros i [[o m] b] Hi (Hc & Hw & Hsz & -> & Hb & Hld & Hcp).
    destruct (CapacityForSlot_total i) as (c & Ec & Hcr).
    destruct (ConsumeSlot_spec i limit b c Hi Hb Hl Ec Hcr) as (ok & e & E & Hok & _).
    unfold build_body. rewrite E. cbn [mbind option_bind]. destruct ok; cbn [negb].
    + right. destruct (Hok eq_refl) as [He Hload]. eexists. split; [reflexivity|].
      assert (vsize (vpush o (mkPartition i b e)) = i + 1) as Hsz'
        by (unfold vsize, vpush in *; cbn [items]; rewrite zlen_app, Hsz; done).
      unfold build_inv. cbn [vpush items capacity].
      split; [apply contiguous_snoc; cbn; split; [done|]; lia|].
      split; [apply workers_snoc; [done | symmetry; exact Hsz]|]. split; [exact Hsz'|].
      split; [rewrite max_size_snoc; cbn; rewrite wrap32_small by (unfold is_u32; lia); done|].
      split; [lia|]. split; [|lia].
      intros j p Hj. destruct (Z.lt_ge_cases j (zlen (items o))).
      * rewrite zget_app_l in Hj by done. by apply Hld.
      * pose proof (zget_range _ _ _ Hj) as Hr. rewrite zlen_app in Hr.
        change (zlen [mkPartition i b e]) with 1 in Hr. assert (j = zlen (items o)) as -> by lia.
        rewrite zget_app_mid in Hj by done. injection Hj as <-. unfold vsize in Hsz. rewrite Hsz.
        exists c. done.
    + left. eexists. split; [reflexivity|]. done.
Qed.

Lemma BuildMinimaxWorkPartitions_valid out :
  pc <= capacity out ->
  exists limit ok out' m, WorkMinimaxLimit request pc = Some limit /\
    BuildMinimaxWorkPartitions out request pc = Some (ok, out', m) /\
    capacity out' = capacity out /\
    (ok = true -> covers n (items out') /\ vsize out' = pc /\ m = max_size (items out') /\
       loads_within limit (items out')) /\
    (work_between 0 n * kRatioScale <= U64_MAX -> ok = true) /\
    WorkFeasible request pc limit = Some ok /\
    (0 < limit -> WorkFeasible request pc (limit - 1) = Some false).
Proof using Hn Hpc Hws Hwsu Hwidth Hcaps.
  intros Hcap. pose proof (work_between_nonneg 0 n) as Hw0.
  set (high := ScalarSatMul (sat (work_between 0 n)) kRatioScale).
  assert (is_u64 high) as Hhigh
    by (apply ScalarSatMul_range; unfold is_u64, sat, kRatioScale; lia).
  destruct (SearchFacts.search_limit_spec (WorkFeasible request pc) high Hhigh) as (limit & El & Hl & Hf & Hmin).
  { intros x Hx. apply WorkFeasible_total. unfold is_u64 in *. lia. }
  assert (is_u64 limit) as Hlu by (unfold is_u64 in *; lia).
  assert (WorkMinimaxLimit request pc = Some limit) as Em
    by (unfold WorkMinimaxLimit; rewrite TotalWork_eq; exact El).
  unfold BuildMinimaxWorkPartitions. rewrite Em. cbn [mbind option_bind].
  fold (build_body limit).
  pose proof (build_follows limit (range 0 pc) (vclear out) 0 0) as Hfollow.
  assert (work_between 0 n * kRatioScale <= U64_MAX -> WorkFeasible request pc limit = Some true) as Hgood.
  { intros Hs. apply Hf. apply WorkFeasible_high; [done|]. intros c Hc. unfold sat, kRatioScale in *.
    assert (high = work_between 0 n * 1000000) as ->.
    { subst high. unfold sat, kRatioScale. rewrite ScalarSatMul_spec by (unfold is_u64; lia). lia. }
    unfold WorkAtLimit, kRatioScale. cbv zeta. rewrite Z.mod_mul, Z.div_mul by lia.
    assert (ScalarSatMul 0 c = 0) as -> by (rewrite ScalarSatMul_spec by (unfold is_u64; lia); lia).
    rewrite ScalarSatMul_spec by (unfold is_u64; lia).
    rewrite Z.div_0_l by lia. assert (work_between 0 n <= work_between 0 n * c) by nia.
    rewrite ScalarSatAdd_spec by (unfold is_u64; lia). lia. }
  assert (WorkFeasible request pc limit =
    after (for_loop (feasible_body limit) 0 (range 0 pc)) (fun packet => Some (packet =? n))) as Efeas by done.
  destruct (build_loop limit out Hlu Hcap) as [([[ok o] m] & E & Hok & Hcp) | ([[o m] b] & E & Hinv)];
    rewrite E in *; cbn [after mbind option_bind].
  - cbn [fst snd] in *. subst ok. eexists _, _, _, _. split; [reflexivity|]. split; [reflexivity|].
    split; [done|]. split; [done|].
    destruct (for_loop (feasible_body limit) 0 (range 0 pc)) as [[p|f]|]; try done.
    subst f. cbn in Efeas. split; [intros Hs; rewrite Hgood in Efeas by done; congruence | by split].
  - destruct Hinv as (Hc & Hwk & Hsz & Hm & Hb & Hld & Hcp).
    eexists _, _, _, _. split; [reflexivity|]. split; [reflexivity|]. split; [done|]. split.
    + intros Hbn. apply Z.eqb_eq in Hbn as ->. split; [by split|]. done.
    + destruct (for_loop (feasible_body limit) 0 (range 0 pc)) as [[p|f]|]; try done.
      cbn in Efeas, Hfollow. subst p. split; [intros Hs; rewrite Hgood in Efeas by done; congruence | by split].
Qed.
End request.
End WorkFacts.

(** ** Partitions by alignment units *)
Module UnitFacts.
Import Coverage Units.

Section request.
Context (request : PartitionRequest) (pc units : Z).
Context (Hpc : 1 <= pc <= units) (Hunits : units <= U32_MAX).
Context (Hwidth : 1 <= execution_width request).
Context (Hcaps : forall i, 0 <= i < execution_width request ->
  exists c, zget (worker_capacity_milli request) i = Some c /\ 1 <= c <= U32_MAX).

Definition cap_at (slot : Z) : Z := default 0 (CapacityForSlot request slot).

Lemma cap_at_spec slot :
  CapacityForSlot request slot = Some (cap_at slot) /\ 1 <= cap_at slot <= U32_MAX.
Proof using Hwidth Hcaps.
  unfold cap_at, CapacityForSlot. rewrite Z.max_r by lia.
  destruct (Hcaps (slot mod execution_width request)) as (c & -> & Hc);
    [apply Z.mod_pos_bound; lia | done].
Qed.

Lemma UnitsAtLimit_spec limit c :
  0 <= limit <= units * kRatioScale -> 1 <= c <= U32_MAX ->
  UnitsAtLimit limit c units = Z.min units (limit / kRatioScale * c + limit mod kRatioScale * c / kRatioScale).
Proof using Hpc Hunits.
  unfold UnitsAtLimit, kRatioScale. intros Hl Hc. cbv zeta.
  pose proof (Z.mod_pos_bound limit 1000000 ltac:(lia)) as Hr.
  assert (0 <= limit / 1000000 <= units) as Hq by (Z.div_mod_to_equations; lia).
  assert (0 <= limit / 1000000 * c <= U32_MAX * U32_MAX) by nia.
  assert (0 <= limit mod 1000000 * c <= 1000000 * U32_MAX) by nia.
  assert (0 <= limit mod 1000000 * c / 1000000 <= U32_MAX)
    by (Z.div_mod_to_equations; lia).
  rewrite (wrap64_small (limit / 1000000 * c)) by (unfold is_u64; lia).
  rewrite (wrap64_small (limit mod 1000000 * c)) by (unfold is_u64; lia).
  rewrite Z.geb_leb. destruct (Z.leb_spec units (limit / 1000000 * c)); [lia|].
  rewrite wrap64_small by (unfold is_u64; lia). rewrite wrap32_small by (unfold is_u32; lia). done.
Qed.

Lemma UnitsAtLimit_range limit c :
  0 <= limit <= units * kRatioScale -> 1 <= c <= U32_MAX -> 0 <= UnitsAtLimit limit c units <= units.
Proof using Hpc Hunits.
  intros Hl Hc. rewrite UnitsAtLimit_spec by done. unfold kRatioScale.
  pose proof (Z.mod_pos_bound limit 1000000 ltac:(lia)).
  assert (0 <= limit / 1000000 * c) by (apply Z.mul_nonneg_nonneg; [apply Z.div_pos|]; lia).
  assert (0 <= limit mod 1000000 * c / 1000000) by (apply Z.div_pos; nia). lia.
Qed.

(** The units of the slots before [i] at a limit. *)
Definition width_at (limit slot : Z) : Z := UnitsAtLimit limit (cap_at slot) units.
Definition sum_widths (limit i : Z) : Z := foldr Z.add 0 (map (width_at limit) (range 0 i)).

Lemma sum_widths_snoc limit i : 0 <= i -> sum_widths limit (i + 1) = sum_widths limit i + width_at limit i.
Proof using. intros. unfold sum_widths. rewrite range_snoc, map_app by lia. apply foldr_add_snoc. Qed.

Lemma width_range limit slot :
  0 <= limit <= units * kRatioScale -> 0 <= width_at limit slot <= units.
Proof using Hpc Hunits Hwidth Hcaps. intros Hl. apply UnitsAtLimit_range; [done | apply cap_at_spec]. Qed.

Lemma sum_widths_range limit i :
  0 <= limit <= units * kRatioScale -> 0 <= i -> 0 <= sum_widths limit i <= i * units.
Proof using Hpc Hunits Hwidth Hcaps.
  intros Hl Hi. pattern i. apply natlike_ind; [done | | done].
  intros x Hx IH. unfold Z.succ. rewrite sum_widths_snoc by done.
  pose proof (width_range limit x Hl). lia.
Qed.

Lemma sum_widths_mono limit i j :
  0 <= limit <= units * kRatioScale -> 0 <= i <= j -> sum_widths limit i <= sum_widths limit j.
Proof using Hpc Hunits Hwidth Hcaps.
  intros Hl Hij. replace j with (i + (j - i)) by lia.
  assert (forall d, 0 <= d -> sum_widths limit i <= sum_widths limit (i + d)) as G; [|apply G; lia].
  intros d Hd. pattern d. apply natlike_ind; [by rewrite Z.add_0_r | | done].
  intros x Hx IH. unfold Z.succ. rewrite Z.add_assoc, sum_widths_snoc by lia.
  pose proof (width_range limit (i + x) Hl). lia.
Qed.

Lemma UnitFeasible_spec limit :
  0 <= limit <= units * kRatioScale ->
  exists b, UnitFeasible request pc units limit = Some b /\
    (b = true -> units <= sum_widths limit pc).
Proof using Hpc Hunits Hwidth Hcaps.
  intros Hl. unfold UnitFeasible.
  edestruct (for_range_safe
    (fun i t => t = sum_widths limit i /\ t < units)
    (fun b : bool => b = true -> units <= sum_widths limit pc))
    as [(b & E & Hb) | (t & E & Ht & Hlt)].
  4: { erewrite E. by exists b. }
  4: { erewrite E. by exists false. }
  - lia.
  - split; [done | lia].
  - intros i t Hi [-> Hlt]. destruct (cap_at_spec i) as [-> Hc]. cbn [mbind option_bind]. cbv zeta.
    fold (width_at limit i). pose proof (width_range limit i Hl) as Hw.
    destruct (Z.eqb_spec (width_at limit i) 0); [left; exists false; done|].
    pose proof (sum_widths_range limit i Hl ltac:(lia)).
    rewrite wrap64_small by (unfold is_u64; lia). rewrite <- sum_widths_snoc by lia.
    rewrite Z.geb_leb. destruct (Z.leb_spec units (sum_widths limit (i + 1))).
    + left. exists true. split; [done|]. intros _.
      pose proof (sum_widths_mono limit (i + 1) pc Hl ltac:(lia)). lia.
    + right. eexists. done.
Qed.

Lemma UnitFeasible_high : UnitFeasible request pc units (units * kRatioScale) = Some true.
Proof using Hpc Hunits Hwidth Hcaps.
  unfold UnitFeasible. rewrite range_cons by lia. cbn [for_loop].
  destruct (cap_at_spec 0) as [-> Hc]. cbn [mbind option_bind]. cbv zeta.
  rewrite UnitsAtLimit_spec by (unfold kRatioScale in *; lia).
  unfold kRatioScale. rewrite Z.div_mul, Z.mod_mul by lia.
  rewrite Z.min_l by (change (0 * cap_at 0 / 1000000) with 0; nia).
  destruct (Z.eqb_spec units 0); [lia|]. rewrite wrap64_small by (unfold is_u64; lia).
  rewrite Z.geb_leb. destruct (Z.leb_spec units (0 + units)); [done | lia].
Qed.

Lemma UnitMinimaxLimit_spec :
  exists limit, UnitMinimaxLimit request pc units = Some limit /\
    0 <= limit <= units * kRatioScale /\ units <= sum_widths limit pc /\
    UnitFeasible request pc units limit = Some true /\
    (0 < limit -> UnitFeasible request pc units (limit - 1) = Some false).
Proof using Hpc Hunits Hwidth Hcaps.
  unfold UnitMinimaxLimit. rewrite wrap64_small by (unfold is_u64, kRatioScale; lia).
  destruct (SearchFacts.search_limit_spec (UnitFeasible request pc units) (units * kRatioScale))
    as (limit & -> & Hl & Hf & Hmin).
  - unfold is_u64, kRatioScale. lia.
  - intros m Hm. destruct (UnitFeasible_spec m Hm) as (b & -> & _). by eexists.
  - specialize (Hf UnitFeasible_high). exists limit. split; [done|]. split; [done|]. split; [|done].
    destruct (UnitFeasible_spec limit Hl) as (b & E & Hb). apply Hb. rewrite Hf in E. by injection E.
Qed.

(** *** Trimming *)
Definition total_units (ps : list Partition) : Z := foldr Z.add 0 (map p_end ps).
Definition widths_ok (ps : list Partition) : Prop := Forall (fun p => 1 <= p_end p <= units) ps.

Lemma total_units_min ps : widths_ok ps -> Forall (fun p => p_end p <= 1) ps -> total_units ps = zlen ps.
Proof using.
  unfold total_units. induction 1 as [|p ps Hp _ IH]; intros H1; [done|].
  apply Forall_cons in H1 as [Hp1 H1]. cbn. rewrite zlen_cons, IH by done. lia.
Qed.

Lemma total_units_insert ps i p q :
  ps !! i = Some p -> total_units (<[i := q]> ps) = total_units ps - p_end p + p_end q.
Proof using.
  unfold total_units. revert i; induction ps as [|r ps IH]; intros [|i] Hi; try done.
  - injection Hi as ->. cbn. lia.
  - change (<[S i:=q]> (r :: ps)) with (r :: <[i:=q]> ps). cbn [map foldr]. rewrite (IH i Hi). lia.
Qed.

Lemma TrimSlot_spec ps :
  1 <= zlen ps <= U32_MAX ->
  exists slot, TrimSlot ps request = Some slot /\
    (Forall (fun p => p_end p <= 1) ps \/
     exists p, zget ps slot = Some p /\ 1 < p_end p).
Proof using Hwidth Hcaps.
  intros Hlen. unfold TrimSlot. rewrite wrap32_small by (unfold is_u32; lia).
  edestruct (for_range_inv (fun i (st : Z * bool) =>
    if snd st : bool then exists p, zget ps (fst st) = Some p /\ 1 < p_end p
    else Forall (fun p => p_end p <= 1) (take (Z.to_nat i) ps))) as ([best found] & E & Hinv).
  4: { erewrite E. cbn [mbind option_bind fst snd] in *. eexists. split; [done|].
       destruct found; [by right|]. left. rewrite take_ge in Hinv by (unfold zlen; lia). done. }
  - lia.
  - constructor.
  - intros i [best found] Hi Hinv. cbn [fst snd] in Hinv.
    destruct (zget_is_Some ps i Hi) as [p Hp]. rewrite Hp. cbn [mbind option_bind].
    rewrite (take_S_Z ps i p) by (done || lia).
    destruct (Z.leb_spec (p_end p) 1).
    + eexists. split; [reflexivity|]. cbn [fst snd]. destruct found; [done|].
      apply Forall_app. split; [done | by constructor].
    + destruct found; cbn [negb]; [|eexists; split; [reflexivity|]; by exists p].
      destruct Hinv as (q & Hq & Hq1). rewrite Hq. cbn [mbind option_bind].
      destruct (cap_at_spec i) as [-> _]. destruct (cap_at_spec best) as [-> _].
      cbn [mbind option_bind]. destruct (RatioGreater _ _ _ _); eexists; (split; [reflexivity|]);
        cbn [fst snd]; eauto.
Qed.

Definition trim_inv (cap : Z) (st : vec Partition * Z) : Prop :=
  vsize (fst st) = pc /\ widths_ok (items (fst st)) /\ total_units (items (fst st)) = snd st /\
  units <= snd st /\ capacity (fst st) = cap.

Lemma BuildMinimaxUnitWidths_valid out :
  pc <= capacity out ->
  exists limit ok out', UnitMinimaxLimit request pc units = Some limit /\
    BuildMinimaxUnitWidths out request pc units = Some (ok, out') /\
    capacity out' = capacity out /\
    (ok = true -> vsize out' = pc /\ widths_ok (items out') /\ total_units (items out') = units) /\
    (ok = true <-> forall slot, 0 <= slot < pc -> width_at limit slot <> 0) /\
    UnitFeasible request pc units limit = Some true /\
    (0 < limit -> UnitFeasible request pc units (limit - 1) = Some false).
Proof using Hpc Hunits Hwidth Hcaps.
  intros Hcap. destruct UnitMinimaxLimit_spec as (limit & El & Hl & Hsum & Hfeas & Hmin).
  unfold BuildMinimaxUnitWidths. rewrite El. cbn [mbind option_bind].
  edestruct (for_range_safe
    (fun i (st : vec Partition * Z) => vsize (fst st) = i /\ widths_ok (items (fst st)) /\
       total_units (items (fst st)) = snd st /\ snd st = sum_widths limit i /\
       capacity (fst st) = capacity out /\
       forall slot, 0 <= slot < i -> width_at limit slot <> 0)
    (fun r : bool * vec Partition => fst r = false /\ capacity (snd r) = capacity out /\
       exists slot, 0 <= slot < pc /\ width_at limit slot = 0))
    as [([b o] & E & Hb & Hcp & (slot & Hs & Hz)) | ([o t] & E & Hsz & Hok & Htot & Ht & Hcp & Hnz)].
  4: { erewrite E. cbn in Hb, Hcp. subst b. exists limit, false, o.
       do 4 (split; [done|]). split; [|done]. split; [done|]. intros Hall. exfalso. exact (Hall slot Hs Hz). }
  4: { erewrite E. cbn [after mbind option_bind fst snd] in *. rewrite <- Ht in Hsum.
       pose proof (sum_widths_range limit pc Hl ltac:(lia)) as Hsr. rewrite <- Ht in Hsr.
       edestruct (while_loop_total (R := bool * vec Partition) (trim_inv (capacity out))
         (fun st => snd st - units)) as ([o' t'] & E' & (Hsz' & Hok' & Htot' & Hle & Hcp') & Hend).
       4: { erewrite E'. cbn [after mbind option_bind fst snd] in *. to_prop.
            assert (t' = units) as -> by lia. rewrite Z.eqb_refl.
            exists limit, true, o'. split; [done|]. split; [done|]. split; [done|].
            split; [by rewrite Htot'|]. done. }
       - done.
       - intros [o' t'] (Hsz' & Hok' & Htot' & Hle & Hcp') Hgt. cbn [fst snd] in *. to_prop.
         destruct (TrimSlot_spec (items o')) as (slot & -> & Hsl); [unfold vsize in Hsz'; lia|].
         cbn [mbind option_bind]. destruct Hsl as [H1|(p & Hp & Hp1)].
         { rewrite (total_units_min _ Hok' H1) in Htot'. unfold vsize in Hsz'. lia. }
         pose proof (zget_range _ _ _ Hp) as Hr. unfold vsize. rewrite Z.geb_leb.
         destruct (Z.leb_spec (zlen (items o')) slot); [lia|]. rewrite Hp. cbn [mbind option_bind].
         unfold vset. rewrite zset_Some by lia. cbn [mbind option_bind].
         eexists. split; [reflexivity|].
         assert (1 <= p_end p <= units) as Hpu.
         { apply zget_Some in Hp as [_ Hp]. exact (Forall_lookup_1 _ _ _ _ Hok' Hp). }
         unfold trim_inv. cbn [fst snd items capacity].
         rewrite (wrap32_small (p_end p - 1)) by (unfold is_u32; lia).
         assert (t' <= pc * units) as Hbound.
         { rewrite <- Htot', <- Hsz'. unfold vsize, total_units, widths_ok in *. clear -Hok'.
           induction Hok' as [|q ps Hq _ IH]; [done|]. cbn [map foldr]. rewrite zlen_cons. lia. }
         rewrite (wrap64_small (t' - 1)) by (unfold is_u64; nia).
         split; [|lia]. unfold vsize. cbn [items]. rewrite zlen_insert. split; [done|]. split.
         + apply Forall_insert; [done|]. cbn. lia.
         + apply zget_Some in Hp as [_ Hp]. rewrite (total_units_insert _ _ p) by done. cbn. lia.
       - cbn [snd]. lia. }
  - lia.
  - cbn. split; [done|]. split; [constructor|]. do 3 (split; [done|]). lia.
  - intros i [o t] Hi (Hsz & Hok & Htot & Ht & Hcp & Hnz). cbn [fst snd] in *.
    destruct (cap_at_spec i) as [-> Hc]. cbn [mbind option_bind]. cbv zeta. fold (width_at limit i).
    pose proof (width_range limit i Hl) as Hw.
    destruct (Z.eqb_spec (width_at limit i) 0) as [Hz|Hz].
    + left. eexists. split; [reflexivity|]. cbn. eauto.
    + right. eexists. split; [reflexivity|]. cbn [fst snd vpush items capacity].
      pose proof (sum_widths_range limit i Hl ltac:(lia)).
      assert ((i + 1) * units <= U32_MAX * U32_MAX) by nia.
      rewrite wrap64_small by (unfold is_u64; lia). rewrite sum_widths_snoc by lia.
      unfold vsize, total_units in *. cbn [vpush items]. rewrite zlen_app, map_app. cbn [map]. rewrite foldr_add_snoc.
      cbn [map p_end mkPartition]. split; [rewrite Hsz; done|].
      split; [apply Forall_app; split; [done | repeat constructor; cbn; lia]|].
      split; [lia|]. split; [lia|]. split; [lia|]. intros slot Hs.
      destruct (Z.eq_dec slot i) as [->|]; [done | apply Hnz; lia].
Qed.
End request.
End UnitFacts.

(** ** The capacity-weighted planner *)
Module CapacityFacts.
Import Coverage UniformFacts.

Lemma total_units_app ps qs :
  UnitFacts.total_units (ps ++ qs) = UnitFacts.total_units ps + UnitFacts.total_units qs.
Proof. unfold UnitFacts.total_units. rewrite map_app, foldr_app. induction ps; cbn; lia. Qed.
Lemma total_units_nonneg ps : Forall (fun p => 1 <= p_end p) ps -> 0 <= UnitFacts.total_units ps.
Proof. unfold UnitFacts.total_units. induction 1; cbn; lia. Qed.

Lemma place_units_spec ps pc a units :
  zlen ps = pc -> Forall (fun p => 1 <= p_end p) ps -> UnitFacts.total_units ps = units ->
  1 <= a -> a * units <= U32_MAX ->
  exists ps' m, place_units ps pc a = Some (ps', m) /\ covers (a * units) ps' /\
    zlen ps' = pc /\ m = max_size ps'.
Proof.
  intros Hl HF Htot Ha Hu. unfold place_units.
  edestruct (for_range_inv (fun i (st : list Partition * Z * Z) => let '(out, m, ub) := st in
    exists d, out = d ++ drop (Z.to_nat i) ps /\ zlen d = i /\ contiguous 0 d (ub * a) /\
      workers_in_order d /\ m = max_size d /\ ub = UnitFacts.total_units (take (Z.to_nat i) ps)))
    as ([[out m] ub] & E & d & Ho & Hd & Hc & Hw & Hm & Hub).
  4: { erewrite E. cbn [mbind option_bind fst]. exists out, m.
       rewrite drop_ge in Ho by (unfold zlen in *; lia). rewrite app_nil_r in Ho. subst out.
       rewrite take_ge in Hub by (unfold zlen in *; lia).
       split; [done|]. split; [|done]. split; [|done]. by rewrite <- Htot, <- Hub, Z.mul_comm. }
  - rewrite <- Hl. apply zlen_nonneg.
  - exists []. split; [done|]. split; [done|]. split; [done|]. split; [|done].
    intros j p Hp. apply zget_range in Hp. change (zlen (@nil Partition)) with 0 in Hp. lia.
  - intros i [[out m] ub] Hi (d & -> & Hd & Hc & Hw & -> & ->).
    destruct (zget_nth_range ps i pc Hl Hi) as [p Hp].
    pose proof (take_S_Z ps i p ltac:(lia) Hp) as Ht.
    assert (UnitFacts.total_units (take (Z.to_nat (i + 1)) ps) =
      UnitFacts.total_units (take (Z.to_nat i) ps) + p_end p) as Hsum
      by (rewrite Ht, total_units_app; unfold UnitFacts.total_units; cbn; lia).
    assert (UnitFacts.total_units (take (Z.to_nat (i + 1)) ps) <= units) as Hle.
    { pose proof (total_units_app (take (Z.to_nat (i + 1)) ps) (drop (Z.to_nat (i + 1)) ps)) as Happ.
      rewrite take_drop in Happ.
      pose proof (total_units_nonneg (drop (Z.to_nat (i + 1)) ps) ltac:(by apply Forall_drop)). lia. }
    pose proof (total_units_nonneg (take (Z.to_nat i) ps) ltac:(by apply Forall_take)) as H0.
    assert (1 <= p_end p) as Hp1
      by (apply zget_Some in Hp as [_ Hx]; exact (Forall_lookup_1 _ _ _ _ HF Hx)).
    set (ub := UnitFacts.total_units (take (Z.to_nat i) ps)) in *.
    apply zget_Some in Hp as [_ Hp]. rewrite (drop_S ps p _ Hp), zget_app_mid by done.
    cbn [mbind option_bind].
    assert (units <= a * units) by nia.
    assert ((ub + p_end p) * a <= a * units) by nia. assert (ub * a < (ub + p_end p) * a) by nia.
    assert (0 <= ub * a) by nia.
    rewrite (wrap32_small (ub + p_end p)) by (unfold is_u32; lia).
    rewrite !wrap32_small by (rewrite ?wrap32_small; unfold is_u32; lia).
    rewrite zset_app_mid by done. cbn [mbind option_bind]. eexists. split; [reflexivity|].
    exists (d ++ [mkPartition i (ub * a) ((ub + p_end p) * a)]).
    split; [rewrite <- app_assoc; cbn; do 3 f_equal; lia|].
    split; [rewrite zlen_app, Hd; done|].
    split; [apply contiguous_snoc; cbn; done|].
    split; [apply workers_snoc; done|]. split; [by rewrite max_size_snoc | by rewrite Hsum].
Qed.

(** A request whose fields have their types. *)
Record request_typed (request : PartitionRequest) : Prop := {
  rt_packets : is_u32 (packet_count request);
  rt_width : is_u32 (execution_width request);
  rt_alignment : is_u32 (preferred_alignment_packets request);
  rt_work : Forall is_u64 (packet_work_units request);
  rt_caps : Forall is_u32 (worker_capacity_milli request);
}.

Lemma ValidCapacities_spec request :
  request_typed request ->
  exists b, ValidCapacities request = Some b /\
    (b = true <-> forall i, 0 <= i < execution_width request ->
       exists c, zget (worker_capacity_milli request) i = Some c /\ 1 <= c <= U32_MAX).
Proof.
  intros [_ Hw _ _ Hcaps]. unfold is_u32 in Hw. unfold ValidCapacities.
  rewrite bool_decide_true by (by destruct (intent request)). cbn [negb orb].
  destruct (Z.ltb_spec (zlen (worker_capacity_milli request)) (execution_width request)) as [Hlt|Hge].
  { exists false. split; [done|]. split; [done|]. intros Hall. exfalso.
    destruct (Hall (zlen (worker_capacity_milli request))) as (c & Hc & _);
      [pose proof (zlen_nonneg (worker_capacity_milli request)); lia|].
    apply zget_range in Hc. lia. }
  edestruct (for_range_safe
    (fun i (_ : unit) => forall j, 0 <= j < i ->
       exists c, zget (worker_capacity_milli request) j = Some c /\ 1 <= c <= U32_MAX)
    (fun b : bool => b = false /\ exists j, 0 <= j < execution_width request /\
       zget (worker_capacity_milli request) j = Some 0))
    as [(b & E & -> & j & Hj & H0) | ([] & E & Hall)].
  4: { erewrite E. exists false. split; [done|]. split; [done|]. intros Hall.
       destruct (Hall j Hj) as (c & Hc & Hcr). rewrite H0 in Hc. injection Hc as <-. lia. }
  4: { erewrite E. exists true. done. }
  - lia.
  - intros j Hj. lia.
  - intros i [] Hi Hall. destruct (zget_is_Some (worker_capacity_milli request) i ltac:(lia)) as [c Hc].
    rewrite Hc. cbn [mbind option_bind].
    destruct (Z.eqb_spec c 0) as [->|].
    + left. exists false. split; [done|]. split; [done|]. by exists i.
    + right. exists tt. split; [done|]. intros j Hj. destruct (Z.eq_dec j i) as [->|]; [|apply Hall; lia].
      exists c. split; [done|]. pose proof (proj1 (zget_Some _ _ _) Hc) as [_ Hx].
      pose proof (Forall_lookup_1 _ _ _ _ Hcaps Hx) as Hu. unfold is_u32 in Hu. cbv beta in Hu. lia.
Qed.

(** What the planners promise to the schedule compiler. *)
Definition build_result (request : PartitionRequest) (out : vec Partition)
    (build : PartitionBuild) (out' : vec Partition) : Prop :=
  (pb_ok build = true -> covers (packet_count request) (items out') /\
     pb_partition_count build = vsize out' /\
     vsize out' = proj_partition_count (ProjectPartitions request) /\
     pb_packets_per_partition_max build = max_size (items out') /\
     pb_useful_width build <= execution_width request) /\
  (pb_ok build = false -> items out' = []) /\
  (proj_partition_count (ProjectPartitions request) <= capacity out ->
   capacity out' = capacity out).

Lemma build_result_fail request out build out' :
  pb_ok build = false -> items out' = [] ->
  (proj_partition_count (ProjectPartitions request) <= capacity out -> capacity out' = capacity out) ->
  build_result request out build out'.
Proof. intros H1 H2 H3. unfold build_result. rewrite H1. done. Qed.

Lemma ProjectPartitions_useful request :
  proj_ok (ProjectPartitions request) = true -> 1 <= execution_width request ->
  proj_useful_width (ProjectPartitions request) <= execution_width request.
Proof.
  intros Hok Hw. unfold ProjectPartitions in *. cbv zeta in *.
  destruct (packet_count request =? 0); [done|]. destruct (execution_width request =? 0); [done|].
  destruct (_ =? 0); [done|]. cbn. unfold ClampKernelWidth. lia.
Qed.

(** The first guard of the planner that fails. *)
Definition capacities_positive (request : PartitionRequest) : bool :=
  (execution_width request <=? zlen (worker_capacity_milli request)) &&
  forallb (fun c => negb (c =? 0)) (take (Z.to_nat (execution_width request)) (worker_capacity_milli request)).

Definition guard_failure (request : PartitionRequest) : option string :=
  if packet_count request =? 0 then Some "invalid_packet_count"
  else if execution_width request =? 0 then Some "invalid_execution_width"
  else if negb (capacities_positive request) then Some "invalid_worker_capacity"
  else if negb (trust_worker_capacity request) then Some "untrusted_worker_capacity"
  else if negb (zlen (packet_work_units request) =? 0) && negb (zlen (packet_work_units request) =? packet_count request)
  then Some "invalid_packet_work_units"
  else None.

Lemma ValidCapacities_positive request :
  request_typed request -> ValidCapacities request = Some (capacities_positive request).
Proof.
  intros Hrt. destruct (ValidCapacities_spec request Hrt) as (b & -> & Hb). f_equal. destruct Hrt as [_ Hw _ _ Hcaps].
  unfold is_u32 in Hw. apply eq_true_iff_eq. rewrite Hb. clear Hb b.
  unfold capacities_positive. rewrite andb_true_iff, Z.leb_le, forallb_forall. set (caps := worker_capacity_milli request) in *.
  split.
  - intros Hall. split.
    + apply Z.nlt_ge. intros Hlt. destruct (Hall (zlen caps)) as (c & Hc & _); [pose proof (zlen_nonneg caps); lia|].
      apply zget_range in Hc. lia.
    + intros c Hc%list_elem_of_In. apply list_elem_of_lookup in Hc as [i Hi]. apply lookup_take_Some in Hi as [Hi Hlt].
      destruct (Hall (Z.of_nat i)) as (c' & Hc' & Hr); [lia|]. apply zget_Some in Hc' as [_ Hc']. rewrite Nat2Z.id, Hi in Hc'.
      injection Hc' as <-. destruct (Z.eqb_spec c 0); [lia | done].
  - intros [Hlen Hall] i Hi. destruct (zget_is_Some caps i) as [c Hc]; [lia|]. exists c. split; [done|].
    apply zget_Some in Hc as [_ Hc]. pose proof (Forall_lookup_1 _ _ _ _ Hcaps Hc) as Hu. unfold is_u32 in Hu. cbv beta in Hu.
    assert (c <> 0); [|lia]. intros E0. specialize (Hall c). rewrite E0 in *. discriminate Hall.
    apply list_elem_of_In, list_elem_of_lookup. exists (Z.to_nat i). rewrite lookup_take_lt by lia. done.
Qed.

(** What decides a request past the guards: the limit that the binary search finds, which
    is [0] or just above a limit that its test rejects. *)
Definition limit_found (feasible : Z -> option bool) (found : option Z) (limit : Z) (ok : bool) : Prop :=
  found = Some limit /\ feasible limit = Some ok /\ (0 < limit -> feasible (limit - 1) = Some false).

Definition minimax_outcome (request : PartitionRequest) (limit : Z) (ok : bool) (ps : list Partition) : Prop :=
  let pc := proj_partition_count (ProjectPartitions request) in
  if HasPacketWorkUnits request then
    limit_found (Work.WorkFeasible request pc) (Work.WorkMinimaxLimit request pc) limit ok /\
    (WorkFacts.work_between request 0 (packet_count request) * kRatioScale <= U64_MAX -> ok = true) /\
    (ok = true -> WorkFacts.loads_within request limit ps)
  else
    let units := ResolvePartitionUnits request (proj_alignment_packets (ProjectPartitions request)) in
    limit_found (Units.UnitFeasible request pc units) (Units.UnitMinimaxLimit request pc units) limit true /\
    (ok = true <-> forall slot, 0 <= slot < pc -> UnitFacts.width_at request units limit slot <> 0).

Definition planned (request : PartitionRequest) (build : PartitionBuild) (ps : list Partition) : Prop :=
  match guard_failure request with
  | Some reason => pb_ok build = false /\ pb_reason build = reason
  | None => (exists limit, minimax_outcome request limit (pb_ok build) ps) /\
      (pb_ok build = false -> pb_reason build = "capacity_minimax_failed")
  end.

Lemma BuildCapacityWeightedPartitions_run out request :
  request_typed request ->
  exists build out', BuildCapacityWeightedPartitions out request = Some (build, out') /\
    build_result request out build out' /\ planned request build (items out').
Proof.
  intros Hrt. pose proof Hrt as [Hp Hw Ha Hwk Hcaps]. unfold BuildCapacityWeightedPartitions, planned, guard_failure. cbv zeta.
  assert (forall reason, exists build out',
    Some (FailProjectedPartitionBuild (ProjectPartitions request) reason, vclear out) = Some (build, out') /\
    build_result request out build out' /\ pb_ok build = false /\ pb_reason build = reason) as Hfail.
  { intros reason. eexists _, _. split; [reflexivity|]. split; [by apply build_result_fail | done]. }
  destruct (Z.eqb_spec (packet_count request) 0) as [E0|H0].
  { assert (proj_ok (ProjectPartitions request) = false /\ proj_reason (ProjectPartitions request) = "invalid_packet_count") as [-> ->]
      by (unfold ProjectPartitions; by rewrite (proj2 (Z.eqb_eq _ _) E0)). apply Hfail. }
  destruct (Z.eqb_spec (execution_width request) 0) as [E1|H1].
  { assert (proj_ok (ProjectPartitions request) = false /\ proj_reason (ProjectPartitions request) = "invalid_execution_width") as [-> ->]
      by (unfold ProjectPartitions; by rewrite (proj2 (Z.eqb_neq _ _) H0), (proj2 (Z.eqb_eq _ _) E1)). apply Hfail. }
  assert (request_ok request) as Hrq by (unfold is_u32 in *; split; [lia | lia | done]).
  destruct (ProjectPartitions_valid request Hrq) as (a & units & Ea & Hok & Eu & Ha1 & Hau & Epc & Hpc). rewrite Hok. cbn [negb].
  pose proof (ProjectPartitions_useful request Hok (proj1 (rq_width _ Hrq))) as Huse.
  destruct (ValidCapacities_spec request Hrt) as (vb & Evb & Hvb). rewrite ValidCapacities_positive in * by done. injection Evb as <-. cbn [mbind option_bind].
  destruct (capacities_positive request); cbn [negb]; [|apply Hfail].
  destruct (trust_worker_capacity request); cbn [negb]; [|apply Hfail].
  unfold ValidPacketWorkUnits. rewrite (proj2 (Z.eqb_neq _ _) H0), (proj2 (Z.eqb_neq _ _) H1). cbn [negb andb].
  destruct (negb (zlen (packet_work_units request) =? 0) && negb (zlen (packet_work_units request) =? packet_count request)); [apply Hfail|].
  unfold minimax_outcome. rewrite Ea, Eu. set (pc := proj_partition_count (ProjectPartitions request)) in *.
  destruct Hrq as [Hp' Hw' _]. assert (1 <= pc <= units) by lia. assert (units <= packet_count request) by nia.
  set (out0 := if capacity (vclear out) <? pc then _ else _).
  assert (capacity out0 = Z.max (capacity out) pc) as Hcap
    by (subst out0; cbn; destruct (Z.ltb_spec (capacity out) pc); cbn; lia).
  pose proof (proj1 Hvb eq_refl) as Hcapr. unfold HasPacketWorkUnits.
  destruct (Z.eqb_spec (zlen (packet_work_units request)) (packet_count request)) as [Hws|Hws].
  - destruct (WorkFacts.BuildMinimaxWorkPartitions_valid request pc ltac:(lia) ltac:(lia) Hws Hwk
      ltac:(lia) Hcapr out0 ltac:(lia)) as (limit & ok & out' & m & El & -> & Hcp & Hcov & Hsat & Hfeas & Hmin).
    cbn [mbind option_bind]. destruct ok; cbn [negb].
    + destruct (Hcov eq_refl) as (Hc & Hsz & -> & Hld). eexists _, _. split; [reflexivity|]. split; [|split; [|done]].
      * split; [|split; [done | lia]]. intros _. cbn. rewrite Hsz. rewrite wrap32_small by (unfold is_u32; lia). done.
      * exists limit. by repeat split.
    + eexists _, _. split; [reflexivity|]. split; [|split; [|done]].
      * apply build_result_fail; [done | done |]. cbn. lia.
      * exists limit. by repeat split.
  - destruct (UnitFacts.BuildMinimaxUnitWidths_valid request pc units ltac:(lia) ltac:(lia)
      ltac:(lia) Hcapr out0 ltac:(lia)) as (limit & ok & out' & El & -> & Hcp & Hgood & Hiff & Hfeas & Hmin).
    cbn [mbind option_bind]. destruct ok; cbn [negb].
    + destruct (Hgood eq_refl) as (Hsz & Hwd & Htot).
      destruct (place_units_spec (items out') pc a units) as (ps' & m & -> & Hc & Hl' & ->); try done.
      { eapply Forall_impl; [exact Hwd|]. cbn. lia. }
      { lia. }
      cbn [mbind option_bind]. eexists _, _. split; [reflexivity|]. split; [|split; [|done]].
      * split; [|split; [done | cbn; lia]]. intros _. rewrite <- Hau. unfold vsize. cbn. rewrite Hl'.
        rewrite wrap32_small by (unfold is_u32; lia). done.
      * exists limit. by split.
    + eexists _, _. split; [reflexivity|]. split; [|split; [|done]].
      * apply build_result_fail; [done | done |]. cbn. lia.
      * exists limit. by split.
Qed.

Lemma BuildCapacityWeightedPartitions_total out request :
  request_typed request ->
  exists build out', BuildCapacityWeightedPartitions out request = Some (build, out') /\
    build_result request out build out'.
Proof.
  intros Hrt. destruct (BuildCapacityWeightedPartitions_run out request Hrt) as (build & out' & E & H & _). eauto.
Qed.

(** C32: On every request the capacity-weighted planner returns: the binary searches and
    the trimming loop terminate without an access out of range. It fails with the reason of
    the first guard that fails. Past the guards the search finds a limit that is [0] or one
    above a rejected limit. Over packet work the planner succeeds exactly when the greedy
    filling at that limit is feasible, which it is when the scaled total work fits 64 bits,
    and every partition's work is within the limit at its worker's capacity; over units it
    succeeds exactly when the limit gives every slot a unit. Success means partitions that
    run every packet exactly once and in order, one per projected worker; failure means
    capacity_minimax_failed. A failure leaves no partition. *)
Theorem BuildCapacityWeightedPartitions_spec out request :
  request_typed request ->
  exists build out', BuildCapacityWeightedPartitions out request = Some (build, out') /\
    match guard_failure request with
    | Some reason => pb_ok build = false /\ pb_reason build = reason
    | None => (exists limit, minimax_outcome request limit (pb_ok build) (items out')) /\
        (pb_ok build = false -> pb_reason build = "capacity_minimax_failed")
    end /\
    if pb_ok build then
      items out' ≫= packets_of = range 0 (packet_count request) /\ workers_in_order (items out') /\
      vsize out' = proj_partition_count (ProjectPartitions request) /\ pb_partition_count build = vsize out'
    else items out' = [].
Proof.
  intros Hrt. destruct (BuildCapacityWeightedPartitions_run out request Hrt) as (build & out' & E & (Hgood & Hbad & _) & Hplan).
  exists build, out'. split; [done|]. split; [exact Hplan|]. destruct (pb_ok build); [|by apply Hbad].
  destruct (Hgood eq_refl) as ([Hc Hw] & Hn & Hsz & _). split; [by apply contiguous_packets | done].
Qed.

Definition capacity_request (n w : Z) (ws caps : list Z) : PartitionRequest := {|
  packet_count := n; execution_width := w; intent := StaticWidth;
  preferred_alignment_packets := 1; packet_work_units := ws; worker_capacity_milli := caps;
  trust_worker_capacity := true |}.

Lemma BuildCapacityWeightedPartitions_spec_witness :
  let request := capacity_request 10 3 [] [1000; 2000; 500] in
  exists build out', BuildCapacityWeightedPartitions vempty request = Some (build, out') /\
    match guard_failure request with
    | Some reason => pb_ok build = false /\ pb_reason build = reason
    | None => (exists limit, minimax_outcome request limit (pb_ok build) (items out')) /\
        (pb_ok build = false -> pb_reason build = "capacity_minimax_failed")
    end /\
    if pb_ok build then
      items out' ≫= packets_of = range 0 10 /\ workers_in_order (items out') /\
      vsize out' = proj_partition_count (ProjectPartitions request) /\ pb_partition_count build = vsize out'
    else items out' = [].
Proof.
  intros request. apply (BuildCapacityWeightedPartitions_spec vempty request).
  split; cbn; unfold is_u32; try lia; repeat constructor; lia.
Defined.

(** The minimax planner over packet work: every partition's work is within the
    limit that the search found, scaled by its worker's capacity, and the planner
    succeeds whenever the scaled total work does not saturate. *)
Theorem BuildMinimaxWorkPartitions_loads request out :
  request_typed request ->
  1 <= execution_width request -> 1 <= packet_count request ->
  zlen (packet_work_units request) = packet_count request ->
  ValidCapacities request = Some true ->
  let pc := Z.min (packet_count request) (execution_width request) in
  pc <= capacity out ->
  exists limit ok out' m, Work.WorkMinimaxLimit request pc = Some limit /\
    Work.BuildMinimaxWorkPartitions out request pc = Some (ok, out', m) /\
    (ok = true -> WorkFacts.loads_within request limit (items out') /\
       items out' ≫= packets_of = range 0 (packet_count request)) /\
    (WorkFacts.work_between request 0 (packet_count request) * kRatioScale <= U64_MAX -> ok = true).
Proof.
  intros Hrt Hw Hp Hws Hval pc Hcap. destruct (ValidCapacities_spec request Hrt) as (b & E & Hb).
  rewrite Hval in E. injection E as <-. pose proof (proj1 Hb eq_refl) as Hcaps.
  destruct Hrt as [[_ Hp'] [_ Hw'] _ Hwk _].
  destruct (WorkFacts.BuildMinimaxWorkPartitions_valid request pc ltac:(lia) ltac:(lia) Hws Hwk Hw Hcaps
    out Hcap) as (limit & ok & out' & m & El & E & _ & Hcov & Hsucc & _).
  exists limit, ok, out', m. split; [done|]. split; [done|]. split; [|done]. intros Hok.
  destruct (Hcov Hok) as ([Hc _] & _ & _ & Hld). split; [done | by apply contiguous_packets].
Qed.

Lemma BuildMinimaxWorkPartitions_loads_witness :
  let request := capacity_request 6 3 [5; 1; 1; 1; 9; 2] [1000; 2000; 500] in
  exists limit ok out' m,
    Work.WorkMinimaxLimit request 3 = Some limit /\
    Work.BuildMinimaxWorkPartitions (Vec [] 3) request 3 = Some (ok, out', m) /\ ok = true.
Proof.
  cbv zeta. destruct (BuildMinimaxWorkPartitions_loads
    (capacity_request 6 3 [5; 1; 1; 1; 9; 2] [1000; 2000; 500]) (Vec [] 3))
    as (limit & ok & o & m & El & E & _ & Hs).
  - split; cbn; unfold is_u32, is_u64; try lia; repeat constructor; lia.
  - cbn; lia.
  - cbn; lia.
  - reflexivity.
  - reflexivity.
  - cbn; lia.
  - exists limit, ok, o, m. split; [exact El|]. split; [exact E|]. apply Hs.
    vm_compute. congruence.
Defined.

(** The unit planner rejects a request that it accepts with the workers in the
    other order: its feasibility test stops as soon as the fast worker alone could
    take all units, so the limit it finds gives the slow worker no unit at all. *)
Example BuildCapacityWeightedPartitions_order_dependent :
  (exists build out',
     BuildCapacityWeightedPartitions vempty (capacity_request 10 2 [] [1000; 1]) =
       Some (build, out') /\
     pb_ok build = false /\ pb_reason build = "capacity_minimax_failed"%string) /\
  (exists build out',
     BuildCapacityWeightedPartitions vempty (capacity_request 10 2 [] [1; 1000]) =
       Some (build, out') /\
     pb_ok build = true /\ map (fun p => (p_begin p, p_end p)) (items out') = [(0, 1); (1, 10)]).
Proof. split; eexists _, _; (split; [vm_compute; reflexivity | split; reflexivity]). Qed.

(** When the scaled total work saturates, the search cannot reach a feasible
    limit and the planner rejects two packets for two equal workers. *)
Example BuildCapacityWeightedPartitions_work_saturates :
  exists build out',
    BuildCapacityWeightedPartitions vempty
      (capacity_request 2 2 [2 ^ 60; 2 ^ 60] [1000; 1000]) = Some (build, out') /\
    pb_ok build = false /\ pb_reason build = "capacity_minimax_failed"%string.
Proof. eexists _, _. split; [vm_compute; reflexivity | split; reflexivity]. Qed.
End CapacityFacts.
