(* ===== verification/Schedule.v ===== *)
(** * Schedule: compiling a request into a schedule

    [schedule/planner/compile.cpp] and [schedule/planner/view.cpp]: the dispatch on
    the placement policy and the allocation contract of [NoGrowth]. *)
From stdpp Require Import base numbers list option strings.
From Stdlib Require Import ZArith Lia.
From S2P Require Import Prelude Checked Scalar Planner Capacity.

Record Schedule := {
  s_packet_count : Z;
  s_execution_width : Z;
  s_intent : PartitionIntent;
  s_placement : PlacementPolicy;
  s_alignment_packets : Z;
  s_packets_per_partition_max : Z;
  s_worker_slot_count : Z;
  s_fold_slot_count : Z;
  s_useful_width : Z;
  s_no_allocation : bool;
  s_partitions : vec Partition;
}.

Record ScheduleView := {
  sv_packet_count : Z;
  sv_execution_width : Z;
  sv_intent : PartitionIntent;
  sv_placement : PlacementPolicy;
  sv_alignment_packets : Z;
  sv_packets_per_partition_max : Z;
  sv_worker_slot_count : Z;
  sv_fold_slot_count : Z;
  sv_useful_width : Z;
  sv_no_allocation : bool;
  sv_partitions : option (list Partition);
  sv_partition_count : Z;
  sv_ordered_packet_indices : option (list Z);
  sv_ordered_packet_count : Z;
}.

Definition ViewSchedule (schedule : Schedule) : ScheduleView := {|
  sv_packet_count := s_packet_count schedule;
  sv_execution_width := s_execution_width schedule;
  sv_intent := s_intent schedule;
  sv_placement := s_placement schedule;
  sv_alignment_packets := s_alignment_packets schedule;
  sv_packets_per_partition_max := s_packets_per_partition_max schedule;
  sv_worker_slot_count := s_worker_slot_count schedule;
  sv_fold_slot_count := s_fold_slot_count schedule;
  sv_useful_width := s_useful_width schedule;
  sv_no_allocation := s_no_allocation schedule;
  sv_partitions := Some (items (s_partitions schedule));
  sv_partition_count := wrap32 (vsize (s_partitions schedule));
  sv_ordered_packet_indices := None;
  sv_ordered_packet_count := 0 |}.

Definition HasCapacity (out_partitions : vec Partition) (partition_count : Z)
    (allocation : AllocationPolicy) : bool :=
  bool_decide (allocation = AllowGrowth) || (capacity out_partitions >=? partition_count).

(** The schedule that [CompileSchedule] leaves: the request's fields, the counts of
    a successful build or their reset values, and the partitions. *)
Definition compiled (request : ScheduleCompileRequest) (build : option PartitionBuild)
    (partitions : vec Partition) : Schedule := {|
  s_packet_count := c_packet_count request;
  s_execution_width := c_execution_width request;
  s_intent := c_intent request;
  s_placement := c_placement request;
  s_alignment_packets := match build with Some b => pb_alignment_packets b | None => 1 end;
  s_packets_per_partition_max :=
    match build with Some b => pb_packets_per_partition_max b | None => 0 end;
  s_worker_slot_count := match build with Some b => pb_worker_slot_count b | None => 0 end;
  s_fold_slot_count := match build with Some b => pb_fold_slot_count b | None => 0 end;
  s_useful_width := match build with Some b => pb_useful_width b | None => 0 end;
  s_no_allocation := bool_decide (c_allocation request = NoGrowth);
  s_partitions := partitions |}.

Definition set_no_allocation (b : PartitionBuild) (v : bool) : PartitionBuild := {|
  pb_ok := pb_ok b; pb_reason := pb_reason b; pb_partition_count := pb_partition_count b;
  pb_alignment_packets := pb_alignment_packets b;
  pb_packets_per_partition_max := pb_packets_per_partition_max b;
  pb_worker_slot_count := pb_worker_slot_count b; pb_fold_slot_count := pb_fold_slot_count b;
  pb_useful_width := pb_useful_width b; pb_placement := pb_placement b;
  pb_no_allocation := v |}.

Definition CompileSchedule (out_schedule : Schedule) (request : ScheduleCompileRequest)
    : option (PartitionBuild * Schedule) :=
  let partitions := s_partitions out_schedule in
  let projection := ProjectSchedule request in
  let fail reason :=
    Some (FailProjectedPartitionBuild projection reason,
          compiled request None (vclear partitions)) in
  if negb (proj_ok projection) then fail (proj_reason projection)
  else if negb (HasCapacity partitions (proj_partition_count projection) (c_allocation request))
  then fail "schedule_partition_capacity_exceeded"%string
  else
    let partition_request := ToPartitionRequest request in
    let finish (r : PartitionBuild * vec Partition) :=
      let '(build, partitions) := r in
      Some (set_no_allocation build (bool_decide (c_allocation request = NoGrowth)),
            if pb_ok build then compiled request (Some build) partitions
            else compiled request None (vclear partitions)) in
    match c_placement request with
    | Uniform => r ← BuildPartitions partitions partition_request; finish r
    | ContiguousBalanced =>
        r ← BuildBalancedPartitions partitions (c_packet_work_units request) partition_request;
        finish r
    | CapacityWeightedStatic =>
        r ← BuildCapacityWeightedPartitions partitions partition_request; finish r
    | WeightedStable => fail "weighted_schedule_requires_workspace"%string
    end.

Definition BuildSchedule (out_schedule : Schedule) (request : PartitionRequest)
    : option (PartitionBuild * Schedule) :=
  CompileSchedule out_schedule (ToScheduleCompileRequest request).

(** ** The planners behind one contract *)
Module ScheduleFacts.
Import Coverage UniformFacts CapacityFacts.

(** Aligned or not, the projected count is the number of workers that can be used. *)
Lemma projected_count request :
  request_ok request ->
  proj_partition_count (ProjectPartitions request) =
  Z.min (packet_count request) (execution_width request).
Proof.
  intros Hrq. destruct (ProjectPartitions_valid request Hrq) as (a & units & Ea & Hok & Eu & Ha & Hau & -> & _).
  destruct Hrq as [Hp Hw _]. unfold ProjectPartitions in Ea, Hok. cbv zeta in *.
  destruct (Z.eqb_spec (packet_count request) 0); [lia|].
  destruct (Z.eqb_spec (execution_width request) 0); [lia|].
  destruct (_ =? 0); [done|]. cbn in Ea. subst a.
  destruct (CanUseAlignedPartitions request) eqn:E; [|cbn in Eu; lia].
  unfold CanUseAlignedPartitions in E. cbv zeta in E. to_prop.
  unfold ResolvePartitionUnits, ClampKernelWidth in *.
  destruct (Z.leb_spec (preferred_alignment_packets request) 1); [lia|].
  rewrite Eu in *. nia.
Qed.

Lemma projection_decides request :
  request_typed request ->
  (proj_ok (ProjectPartitions request) = true <->
   1 <= packet_count request /\ 1 <= execution_width request).
Proof.
  intros [[Hp _] [Hw _] Ha _ _]. split.
  - unfold ProjectPartitions. destruct (Z.eqb_spec (packet_count request) 0); [done|].
    destruct (Z.eqb_spec (execution_width request) 0); [done|]. lia.
  - intros [H1 H2]. unfold ProjectPartitions. cbv zeta.
    destruct (Z.eqb_spec (packet_count request) 0); [lia|].
    destruct (Z.eqb_spec (execution_width request) 0); [lia|].
    destruct (Z.eqb_spec (ResolvePartitionUnits request
      (if CanUseAlignedPartitions request then preferred_alignment_packets request else 1)) 0) as [E|];
      [|done].
    destruct (CanUseAlignedPartitions request) eqn:Ec; [|cbn in E; lia].
    unfold CanUseAlignedPartitions in Ec. cbv zeta in Ec. to_prop. unfold ResolvePartitionUnits in E.
    destruct (Z.leb_spec (preferred_alignment_packets request) 1); lia.
Qed.

Lemma BuildPartitions_total out request :
  request_typed request -> proj_ok (ProjectPartitions request) = true ->
  exists build out', BuildPartitions out request = Some (build, out') /\
    build_result request out build out' /\ pb_ok build = true.
Proof.
  intros Hrt Hok. pose proof (proj1 (projection_decides _ Hrt) Hok) as [H1 H2].
  destruct Hrt as [[_ Hp] [_ Hw] Ha _ _].
  assert (request_ok request) as Hrq by (by split).
  destruct (BuildPartitions_valid out request Hrq)
    as (build & out' & a & units & E & Hbok & Hcov & Hau & _ & Hpb & Hsz & Hmax & Hcap & Hproj & Huse & _).
  exists build, out'. split; [done|]. split; [|done]. split; [|split; [congruence|]].
  - intros _. repeat (split; [done|]).
    rewrite Huse. by apply ProjectPartitions_useful.
  - intros Hle. lia.
Qed.

Lemma BuildBalancedPartitions_total out request :
  request_typed request -> proj_ok (ProjectPartitions request) = true ->
  exists build out',
    BuildBalancedPartitions out (packet_work_units request) request = Some (build, out') /\
    build_result request out build out'.
Proof.
  intros Hrt Hok. pose proof (proj1 (projection_decides _ Hrt) Hok) as [H1 H2].
  destruct Hrt as [[_ Hp] [_ Hw] Ha Hwk _].
  assert (request_ok request) as Hrq by (by split).
  destruct (Z.eq_dec (zlen (packet_work_units request)) (packet_count request)) as [Hws|Hws].
  - destruct (BalancedFacts.BuildBalancedPartitions_valid out (packet_work_units request) request
      ltac:(lia) ltac:(lia) Hws Hwk) as (build & out' & E & Hbok & Hcov & Hsz & Hpb & Hm & Hu & Hcap).
    exists build, out'. split; [done|]. pose proof (projected_count _ Hrq) as Hproj.
    split; [intros _; split; [done|]; split; [done|]; split; [congruence|]; done|].
    split; [congruence|]. intros Hle. lia.
  - unfold BuildBalancedPartitions, ValidPacketWorkUnits. cbv zeta.
    destruct (Z.eqb_spec (zlen (packet_work_units request)) (packet_count request)); [done|].
    rewrite andb_false_r. cbn [negb]. eexists _, _. split; [reflexivity|]. by apply build_result_fail.
Qed.

(** A compile request whose fields have their types. *)
Record compile_typed (request : ScheduleCompileRequest) : Prop := {
  ct_packets : is_u32 (c_packet_count request);
  ct_width : is_u32 (c_execution_width request);
  ct_alignment : is_u32 (c_preferred_alignment_packets request);
  ct_locality : is_u32 (c_locality_bucket_packets request);
  ct_group : is_u32 (c_alignment_group_packets request);
  ct_work : Forall is_u64 (c_packet_work_units request);
  ct_caps : Forall is_u32 (c_worker_capacity_milli request);
}.

Lemma ToPartitionRequest_typed request :
  compile_typed request -> request_typed (ToPartitionRequest request).
Proof. intros [Hp Hw Ha Hl Hg Hk Hc]. split; try done. unfold is_u32 in *. cbn. lia. Qed.

(** [CompileSchedule] from the contract of the planner that it dispatches to. *)
Lemma finish_spec request schedule build out' :
  build_result (ToPartitionRequest request) (s_partitions schedule) build out' ->
  (c_allocation request = NoGrowth ->
   proj_partition_count (ProjectPartitions (ToPartitionRequest request)) <=
     capacity (s_partitions schedule)) ->
  let schedule' := if pb_ok build then compiled request (Some build) out'
                   else compiled request None (vclear out') in
  (pb_ok build = true -> covers (c_packet_count request) (items (s_partitions schedule')) /\
     s_packets_per_partition_max schedule' = max_size (items (s_partitions schedule')) /\
     s_useful_width schedule' <= c_execution_width request) /\
  (pb_ok build = false -> items (s_partitions schedule') = [] /\ s_useful_width schedule' = 0) /\
  (c_allocation request = NoGrowth ->
   capacity (s_partitions schedule') = capacity (s_partitions schedule)).
Proof.
  intros (Hgood & Hbad & Hcap) Hfit. cbv zeta. destruct (pb_ok build) eqn:Hok; cbn.
  - destruct (Hgood eq_refl) as (Hc & Hn & Hsz & Hm & Hu). split; [done|]. split; [done|].
    intros Hng. apply Hcap. auto.
  - split; [done|]. split; [done|]. intros Hng. apply Hcap. auto.
Qed.

(** Compiling a schedule returns for every request and every policy. A schedule
    that is reported compiled runs every packet exactly once and in order, with its
    largest partition and a useful width within the request; a failed one has no
    partition. Under [NoGrowth] the partition vector is never reallocated. *)
Theorem CompileSchedule_spec schedule request :
  compile_typed request ->
  exists build schedule',
    CompileSchedule schedule request = Some (build, schedule') /\
    (pb_ok build = true ->
     items (s_partitions schedule') ≫= packets_of = range 0 (c_packet_count request) /\
     workers_in_order (items (s_partitions schedule')) /\
     s_packets_per_partition_max schedule' = max_size (items (s_partitions schedule')) /\
     s_useful_width schedule' <= c_execution_width request) /\
    (pb_ok build = false ->
     items (s_partitions schedule') = [] /\ s_useful_width schedule' = 0) /\
    (c_allocation request = NoGrowth ->
     capacity (s_partitions schedule') = capacity (s_partitions schedule)).
Proof.
  intros Hct. pose proof (ToPartitionRequest_typed _ Hct) as Hrt. unfold CompileSchedule. cbv zeta.
  change (proj_ok (ProjectSchedule request)) with (proj_ok (ProjectPartitions (ToPartitionRequest request))).
  change (proj_partition_count (ProjectSchedule request)) with
    (proj_partition_count (ProjectPartitions (ToPartitionRequest request))).
  destruct (proj_ok (ProjectPartitions (ToPartitionRequest request))) eqn:Hok; cbn [negb];
    [|eexists _, _; split; [reflexivity|]; done].
  destruct (HasCapacity _ _ _) eqn:Hcap; cbn [negb]; [|eexists _, _; split; [reflexivity|]; done].
  assert (c_allocation request = NoGrowth ->
    proj_partition_count (ProjectPartitions (ToPartitionRequest request)) <=
      capacity (s_partitions schedule)) as Hfit.
  { intros Hng. unfold HasCapacity in Hcap. rewrite Hng, bool_decide_false in Hcap by done.
    cbn [orb] in Hcap. to_prop. done. }
  assert (forall build out', build_result (ToPartitionRequest request) (s_partitions schedule) build out' ->
    exists build' schedule',
      Some (set_no_allocation build (bool_decide (c_allocation request = NoGrowth)),
            if pb_ok build then compiled request (Some build) out'
            else compiled request None (vclear out')) = Some (build', schedule') /\
      (pb_ok build' = true ->
       items (s_partitions schedule') ≫= packets_of = range 0 (c_packet_count request) /\
       workers_in_order (items (s_partitions schedule')) /\
       s_packets_per_partition_max schedule' = max_size (items (s_partitions schedule')) /\
       s_useful_width schedule' <= c_execution_width request) /\
      (pb_ok build' = false ->
       items (s_partitions schedule') = [] /\ s_useful_width schedule' = 0) /\
      (c_allocation request = NoGrowth ->
       capacity (s_partitions schedule') = capacity (s_partitions schedule))) as Finish.
  { intros build out' Hres. destruct (finish_spec _ _ _ _ Hres Hfit) as (H1 & H2 & H3).
    eexists _, _. split; [reflexivity|]. cbn [set_no_allocation pb_ok].
    split; [|done]. intros Hb. destruct (H1 Hb) as ([Hc Hw] & Hm & Hu).
    split; [by apply contiguous_packets | done]. }
  destruct (c_placement request).
  - destruct (BuildPartitions_total (s_partitions schedule) _ Hrt Hok) as (build & out' & -> & Hres & _).
    cbn [mbind option_bind]. by apply Finish.
  - destruct (BuildBalancedPartitions_total (s_partitions schedule) _ Hrt Hok) as (build & out' & E & Hres).
    change (packet_work_units (ToPartitionRequest request)) with (c_packet_work_units request) in E.
    rewrite E. cbn [mbind option_bind]. by apply Finish.
  - eexists _, _. split; [reflexivity|]. done.
  - destruct (BuildCapacityWeightedPartitions_total (s_partitions schedule) _ Hrt)
      as (build & out' & -> & Hres). cbn [mbind option_bind]. by apply Finish.
Qed.

Definition example_request (placement : PlacementPolicy) (allocation : AllocationPolicy)
    : ScheduleCompileRequest := {|
  c_packet_count := 6; c_execution_width := 3; c_intent := StaticWidth; c_placement := placement;
  c_allocation := allocation; c_preferred_alignment_packets := 2; c_locality_bucket_packets := 1;
  c_alignment_group_packets := 1; c_packet_work_units := [5; 1; 1; 1; 9; 2];
  c_worker_capacity_milli := [1000; 2000; 500]; c_packet_hints := [];
  c_trust_worker_capacity := true |}.

Lemma CompileSchedule_spec_witness :
  exists build schedule',
    CompileSchedule (compiled (example_request Uniform AllowGrowth) None (Vec [] 3))
      (example_request ContiguousBalanced NoGrowth) = Some (build, schedule') /\
    pb_ok build = true /\ capacity (s_partitions schedule') = 3.
Proof.
  destruct (CompileSchedule_spec (compiled (example_request Uniform AllowGrowth) None (Vec [] 3))
    (example_request ContiguousBalanced NoGrowth)) as (b & s & E & _ & _ & Hcap).
  { split; cbn; unfold is_u32, is_u64; try lia; repeat constructor; lia. }
  exists b, s. split; [exact E|]. split; [vm_compute in E; injection E as <- _; reflexivity|].
  apply Hcap. reflexivity.
Defined.
End ScheduleFacts.
