(* ===== verification/BucketSort.v ===== *)
(** * BucketSort: the stable bucket sort as a list function

    [bucket_sort f nb l] lists the elements of [l] by increasing bucket [f], in
    the order of [l] inside a bucket. It permutes [l] and refines the order of [l]
    by the bucket; the scatter loops of the program compute it. *)
From stdpp Require Import base numbers list option sorting.
From Stdlib Require Import ZArith Lia Sorted.
From S2P Require Import Prelude.

Section bucket.
Context {A : Type} (f : A -> Z).

Definition bucket_list (l : list A) (b : Z) : list A := filter (fun p => f p = b) l.

Definition bucket_sort (nb : Z) (l : list A) : list A :=
  concat (map (bucket_list l) (range 0 nb)).

(** Elements of [l] in the buckets before [b]. *)
Definition bucket_start (l : list A) (b : Z) : Z := zlen (bucket_sort b l).

Lemma concat_range_snoc {B} (g : Z -> list B) nb :
  0 <= nb -> concat (map g (range 0 (nb + 1))) = concat (map g (range 0 nb)) ++ g nb.
Proof. intros. rewrite range_snoc, map_app, concat_app by lia. cbn. by rewrite app_nil_r. Qed.

Lemma bucket_sort_snoc nb l : 0 <= nb -> bucket_sort (nb + 1) l = bucket_sort nb l ++ bucket_list l nb.
Proof. apply concat_range_snoc. Qed.

Lemma bucket_sort_0 l : bucket_sort 0 l = [].
Proof. done. Qed.

Lemma bucket_start_snoc l b : 0 <= b -> bucket_start l (b + 1) = bucket_start l b + zlen (bucket_list l b).
Proof. intros. unfold bucket_start. by rewrite bucket_sort_snoc, zlen_app. Qed.

Lemma filter_lt_snoc (k : Z) (l : list A) :
  filter (fun p => f p < k) l ++ bucket_list l k ≡ₚ filter (fun p => f p < k + 1) l.
Proof.
  unfold bucket_list. induction l as [|x l IH]; [done|]. cbn.
  destruct (decide (f x < k + 1)), (decide (f x < k)), (decide (f x = k)); try lia; cbn.
  - by rewrite IH.
  - rewrite <- IH. symmetry. apply Permutation_middle.
  - done.
Qed.

Lemma bucket_sort_filter nb l :
  0 <= nb -> Forall (fun p => 0 <= f p) l ->
  bucket_sort nb l ≡ₚ filter (fun p => f p < nb) l.
Proof.
  intros H Hl. revert nb H. apply natlike_ind.
  - cbn. induction Hl as [|x l Hx Hl IH]; [done|]. cbn. by destruct (decide (f x < 0)); [lia|].
  - intros nb Hnb IH. unfold Z.succ. rewrite bucket_sort_snoc by done. rewrite IH. apply filter_lt_snoc.
Qed.

Lemma bucket_sort_Permutation nb l :
  0 <= nb -> Forall (fun p => 0 <= f p < nb) l -> bucket_sort nb l ≡ₚ l.
Proof.
  intros H Hl. rewrite bucket_sort_filter; [| done | by eapply Forall_impl; [exact Hl | cbn; lia]].
  clear H. induction Hl as [|x l Hx Hl IH]; [done|]. cbn. destruct (decide (f x < nb)); [by rewrite IH | lia].
Qed.

(** Sorting by [f] the elements an order [R] has sorted. *)
Definition refined (R : relation A) : relation A :=
  fun a b => f a < f b \/ (f a = f b /\ R a b).

Lemma filter_StronglySorted (P : A -> Prop) `{!forall x, Decision (P x)} R l :
  StronglySorted R l -> StronglySorted R (filter P l).
Proof.
  induction 1 as [|x l Hl IH Hx]; [constructor|]. cbn. case_decide; [|done].
  constructor; [done|]. apply Forall_forall. intros y [_ Hy]%list_elem_of_filter.
  rewrite Forall_forall in Hx. by apply Hx.
Qed.

Lemma elem_of_bucket_list l b p : p ∈ bucket_list l b <-> f p = b /\ p ∈ l.
Proof. unfold bucket_list. by rewrite list_elem_of_filter. Qed.

Lemma elem_of_bucket_sort nb l p : 0 <= nb -> p ∈ bucket_sort nb l <-> 0 <= f p < nb /\ p ∈ l.
Proof.
  revert nb. apply (natlike_ind (fun nb => p ∈ bucket_sort nb l <-> 0 <= f p < nb /\ p ∈ l)).
  - rewrite bucket_sort_0, elem_of_nil. lia.
  - intros nb H IH. unfold Z.succ.
    rewrite bucket_sort_snoc, elem_of_app, IH, elem_of_bucket_list by done.
    split; [intros [? | ?] | intros [? ?]]; [split; [lia | tauto] .. |].
    destruct (decide (f p = nb)); [by right | left; split; [lia | done]].
Qed.

Lemma StronglySorted_impl (R R' : relation A) l :
  (forall a b, a ∈ l -> b ∈ l -> R a b -> R' a b) -> StronglySorted R l -> StronglySorted R' l.
Proof.
  intros HR H. revert HR. induction H as [|x l Hl IH Hx]; intros HR; constructor.
  - apply IH. intros a b Ha Hb. apply HR; by right.
  - apply Forall_forall. intros y Hy. apply HR; [left | by right |].
    rewrite Forall_forall in Hx. by apply Hx.
Qed.

Lemma bucket_sort_sorted R nb l :
  0 <= nb -> StronglySorted R l -> StronglySorted (refined R) (bucket_sort nb l).
Proof.
  intros H HR. revert nb H. apply natlike_ind; [constructor|].
  intros nb Hnb IH. unfold Z.succ. rewrite bucket_sort_snoc by done.
  apply StronglySorted_app_2; [| done |].
  - intros a b Ha Hb. apply elem_of_bucket_sort in Ha as [? _]; [|done].
    apply elem_of_bucket_list in Hb as [? _]. left. lia.
  - eapply StronglySorted_impl; [| by apply filter_StronglySorted].
    intros a b Ha Hb Hab. apply elem_of_bucket_list in Ha as [Ha _], Hb as [Hb _].
    right. split; [congruence | done].
Qed.

(** Counting: one more element of the source. *)
Lemma bucket_list_snoc l p b :
  bucket_list (l ++ [p]) b = bucket_list l b ++ (if decide (f p = b) then [p] else []).
Proof. unfold bucket_list. rewrite filter_app. f_equal. Qed.

Lemma bucket_start_mono l b b' : 0 <= b <= b' -> bucket_start l b <= bucket_start l b'.
Proof.
  intros [H0 H]. replace b' with (b + (b' - b)) by lia.
  assert (0 <= b' - b) as Hd by lia. revert Hd. generalize (b' - b) as d. apply natlike_ind.
  - by rewrite Z.add_0_r.
  - intros d Hd IH. unfold Z.succ. rewrite Z.add_assoc, bucket_start_snoc by lia.
    pose proof (zlen_nonneg (bucket_list l (b + d))). lia.
Qed.

Lemma bucket_start_le nb l b :
  0 <= b <= nb -> Forall (fun p => 0 <= f p < nb) l -> 0 <= bucket_start l b <= zlen l.
Proof.
  intros H Hl. split; [apply zlen_nonneg|].
  transitivity (bucket_start l nb); [by apply bucket_start_mono|].
  unfold bucket_start, zlen. rewrite (bucket_sort_Permutation nb l) by (done || lia). lia.
Qed.

Lemma bucket_list_take_le l b i : zlen (bucket_list (take i l) b) <= zlen (bucket_list l b).
Proof.
  rewrite <- (take_drop i l) at 2. unfold bucket_list. rewrite filter_app, zlen_app.
  pose proof (zlen_nonneg (filter (fun p => f p = b) (drop i l))). lia.
Qed.

End bucket.

Lemma bucket_list_ext {A} (f g : A -> Z) l b :
  (forall p, p ∈ l -> f p = g p) -> bucket_list f l b = bucket_list g l b.
Proof.
  unfold bucket_list. induction l as [|x l IH]; intros H; [done|]. rewrite !filter_cons.
  rewrite (H x) by left. rewrite IH by (intros; apply H; by right). done.
Qed.

#[global] Arguments bucket_sort : simpl never.
#[global] Arguments bucket_list : simpl never.

(** A list can be cut into segments of given lengths. *)
Lemma concat_segments {A} (c : Z -> Z) (l : list A) nb :
  0 <= nb -> (forall b, 0 <= b < nb -> 0 <= c b) ->
  zlen l = foldr Z.add 0 (map c (range 0 nb)) ->
  exists rest : Z -> list A,
    l = concat (map rest (range 0 nb)) /\ forall b, 0 <= b < nb -> zlen (rest b) = c b.
Proof.
  intros H. revert nb H l. apply (natlike_ind (fun nb => forall l,
    (forall b, 0 <= b < nb -> 0 <= c b) -> zlen l = foldr Z.add 0 (map c (range 0 nb)) ->
    exists rest : Z -> list A,
      l = concat (map rest (range 0 nb)) /\ forall b, 0 <= b < nb -> zlen (rest b) = c b)).
  - intros l _ Hl. apply zlen_0 in Hl. subst. exists (fun _ => []). split; [done | lia].
  - intros nb Hnb IH l Hc Hl. unfold Z.succ in *.
    assert (foldr Z.add 0 (map c (range 0 (nb + 1))) = foldr Z.add 0 (map c (range 0 nb)) + c nb) as E.
    { rewrite range_snoc, map_app by lia. apply foldr_add_snoc. }
    assert (0 <= foldr Z.add 0 (map c (range 0 nb))) as Hs.
    { apply foldr_add_nonneg, Forall_forall. intros y (b & <- & Hb)%list_elem_of_In%in_map_iff.
      apply list_elem_of_In, elem_of_range in Hb. apply Hc. lia. }
    set (s := foldr Z.add 0 (map c (range 0 nb))) in *. pose proof (Hc nb ltac:(lia)) as Hcn.
    destruct (IH (take (Z.to_nat s) l)) as (rest & Er & Hr).
    + intros b Hb. apply Hc. lia.
    + unfold zlen in *. rewrite length_take. lia.
    + exists (fun b => if decide (b = nb) then drop (Z.to_nat s) l else rest b). split.
      * rewrite concat_range_snoc, decide_True by done.
        rewrite <- (take_drop (Z.to_nat s) l) at 1. f_equal. rewrite Er. f_equal.
        apply map_ext_in. intros b Hb. apply list_elem_of_In, elem_of_range in Hb.
        rewrite decide_False by lia. done.
      * intros b Hb. destruct (decide (b = nb)) as [->|]; [|apply Hr; lia].
        unfold zlen in *. rewrite length_drop. lia.
Qed.

(** ** The loops of a counting pass

    The counts of the buckets, their starts, and the scatter of the source to the places
    the starts give, as invariants of loops over the source and the buckets. *)
Section loops.
Context {A : Type} (f : A -> Z) (nb : Z) (S : list A) (Hnb : 0 <= nb) (Hf : Forall (fun p => 0 <= f p < nb) S).

Lemma take_all_S : take (Z.to_nat (zlen S)) S = S.
Proof using. unfold zlen. rewrite Nat2Z.id. apply firstn_all. Qed.

Lemma source_at i : 0 <= i < zlen S -> exists p, zget S i = Some p /\ p ∈ S /\ 0 <= f p < nb.
Proof using Hf.
  intros Hi. destruct (zget_is_Some S i Hi) as [p Hp]. exists p.
  assert (p ∈ S) as Hin by (apply zget_Some in Hp as [_ ?]; by eapply list_elem_of_lookup_2).
  split; [done|]. split; [done|]. by apply (proj1 (Forall_forall _ _) Hf).
Qed.

Lemma bucket_count_le b : 0 <= zlen (bucket_list f S b) <= zlen S.
Proof using.
  split; [apply zlen_nonneg|]. unfold bucket_list, zlen in *. pose proof (length_filter (fun p => f p = b) S). lia.
Qed.

(** A place is left in the bucket of an element not yet seen. *)
Lemma bucket_room i p : 0 <= i -> zget S i = Some p ->
  zlen (bucket_list f (take (Z.to_nat i) S) (f p)) + 1 <= zlen (bucket_list f S (f p)).
Proof using.
  intros Hi Hp. pose proof (bucket_list_take_le f S (f p) (Z.to_nat (i + 1))) as Hle.
  rewrite (take_S_Z S i p Hi Hp), bucket_list_snoc, decide_True, zlen_app in Hle by done. exact Hle.
Qed.

Definition count_inv (len i : Z) (counts : list Z) : Prop :=
  zlen counts = len /\ forall b, 0 <= b < nb -> zget counts b = Some (zlen (bucket_list f (take (Z.to_nat i) S) b)).

Lemma count_start counts : (forall b, 0 <= b < nb -> zget counts b = Some 0) -> count_inv (zlen counts) 0 counts.
Proof using. intros H. split; [done|]. intros b Hb. by rewrite H. Qed.

Lemma count_step len i counts p : nb <= len -> 0 <= i < zlen S -> zget S i = Some p -> 0 <= f p < nb -> count_inv len i counts ->
  exists c, zget counts (f p) = Some c /\ 0 <= c < zlen S /\ count_inv len (i + 1) (<[Z.to_nat (f p) := c + 1]> counts).
Proof using.
  intros Hl Hi Hp Hb [Hc H]. eexists. split; [by apply H|]. pose proof (bucket_room i p ltac:(lia) Hp) as Hr. pose proof (bucket_count_le (f p)).
  pose proof (zlen_nonneg (bucket_list f (take (Z.to_nat i) S) (f p))). split; [lia|]. split; [by rewrite zlen_insert|].
  intros b Hbb. rewrite (take_S_Z S i p), bucket_list_snoc, zlen_app by (done || lia). case_decide as E.
  - subst b. by rewrite zget_insert_eq by lia.
  - rewrite zget_insert_ne by lia. rewrite H by done. f_equal. change (zlen (@nil A)) with 0. lia.
Qed.

Lemma count_end len counts : count_inv len (zlen S) counts -> forall b, 0 <= b < nb -> zget counts b = Some (zlen (bucket_list f S b)).
Proof using. intros [_ H] b Hb. rewrite H by done. by rewrite take_all_S. Qed.

Definition start_inv (len i : Z) (st : list Z * Z) : Prop :=
  zlen st.1 = len /\ st.2 = bucket_start f S i /\ forall b, 0 <= b < i -> zget st.1 b = Some (bucket_start f S b).

Lemma start_step len i offsets prefix : nb <= len -> 0 <= i < nb -> start_inv len i (offsets, prefix) ->
  zset offsets i prefix = Some (<[Z.to_nat i := prefix]> offsets) /\
  0 <= prefix + zlen (bucket_list f S i) <= zlen S /\
  start_inv len (i + 1) (<[Z.to_nat i := prefix]> offsets, prefix + zlen (bucket_list f S i)).
Proof using Hf.
  intros Hl Hi (H1 & H2 & H3). cbn [fst snd] in *. rewrite zset_Some by lia. split; [done|]. rewrite H2, <- bucket_start_snoc by lia.
  split; [apply (bucket_start_le f nb); [lia | exact Hf]|]. split; [cbn [fst]; by rewrite zlen_insert|]. split; [done|].
  intros b Hb. cbn [fst]. destruct (decide (b = i)) as [->|]; [by rewrite zget_insert_eq by (cbn [fst]; lia)|].
  cbn [fst]. rewrite zget_insert_ne by lia. apply H3. lia.
Qed.

(** The segments of the target: what a bucket holds already, and what is left of it. *)
Definition segments (i : Z) (rest : Z -> list A) (b : Z) : list A :=
  bucket_list f (take (Z.to_nat i) S) b ++ rest b.

Lemma zlen_segments i rest k :
  0 <= k -> (forall b, 0 <= b < k -> zlen (segments i rest b) = zlen (bucket_list f S b)) ->
  zlen (concat (map (segments i rest) (range 0 k))) = bucket_start f S k.
Proof using.
  revert k. apply (natlike_ind (fun k =>
    (forall b, 0 <= b < k -> zlen (segments i rest b) = zlen (bucket_list f S b)) ->
    zlen (concat (map (segments i rest) (range 0 k))) = bucket_start f S k)); [done|].
  intros k Hk IH Hb. unfold Z.succ in *. rewrite concat_range_snoc, zlen_app, IH by (lia || (intros; apply Hb; lia)).
  rewrite bucket_start_snoc, Hb by lia. done.
Qed.

Definition scatter_inv (len i : Z) (offsets : list Z) (target : list A) : Prop :=
  zlen offsets = len /\
  (forall b, 0 <= b < nb ->
     zget offsets b = Some (bucket_start f S b + zlen (bucket_list f (take (Z.to_nat i) S) b))) /\
  exists rest, target = concat (map (segments i rest) (range 0 nb)) /\
    forall b, 0 <= b < nb -> zlen (segments i rest b) = zlen (bucket_list f S b).

Lemma scatter_start offsets target : zlen target = zlen S ->
  (forall b, 0 <= b < nb -> zget offsets b = Some (bucket_start f S b)) -> scatter_inv (zlen offsets) 0 offsets target.
Proof using Hnb Hf.
  intros Hlt Ho. destruct (concat_segments (fun b => zlen (bucket_list f S b)) target nb) as (rest & Et & Hr).
  - done.
  - intros. apply zlen_nonneg.
  - rewrite Hlt. unfold zlen at 1. rewrite <- (Permutation_length (bucket_sort_Permutation f nb S Hnb Hf)).
    unfold bucket_sort. fold (zlen (concat (map (bucket_list f S) (range 0 nb)))).
    generalize (range 0 nb) as bs. intros bs. induction bs as [|b bs IH]; [done|]. cbn. by rewrite zlen_app, IH.
  - split; [done|]. split; [intros b Hb; rewrite Ho by done; f_equal; change (zlen (bucket_list f (take (Z.to_nat 0) S) b)) with 0; lia|].
    exists rest. split; [done|]. intros b Hb. by apply Hr.
Qed.

Lemma scatter_step len i p offsets target :
  0 <= i < zlen S -> zget S i = Some p -> 0 <= f p < nb -> nb <= len -> scatter_inv len i offsets target ->
  exists offset, zget offsets (f p) = Some offset /\ 0 <= offset < zlen target /\ zlen target = zlen S /\
    scatter_inv len (i + 1) (<[Z.to_nat (f p) := offset + 1]> offsets) (<[Z.to_nat offset := p]> target).
Proof using Hnb Hf.
  intros Hi Hp Hb Hlen (Hlo & Ho & rest & Et & Hseg).
  pose proof (take_S_Z S i p ltac:(lia) Hp) as Ht. pose proof (bucket_room i p ltac:(lia) Hp) as Hroom.
  set (b := f p) in *. set (filt := bucket_list f (take (Z.to_nat i) S) b) in *.
  pose proof (Hseg b Hb) as Hsb. unfold segments in Hsb. fold filt in Hsb. rewrite zlen_app in Hsb.
  destruct (rest b) as [|x r] eqn:Er; [change (zlen (@nil A)) with 0 in Hsb; lia|].
  rewrite zlen_cons in Hsb.
  set (L := concat (map (segments i rest) (range 0 b))).
  set (B := concat (map (segments i rest) (range (b + 1) nb))).
  assert (target = (L ++ filt) ++ x :: r ++ B) as Et'.
  { rewrite Et, (range_app 0 b nb), (range_cons b nb) by lia.
    rewrite map_app, concat_app. cbn [map concat]. fold L B. unfold segments at 1. fold filt.
    rewrite Er. by rewrite <- !app_assoc. }
  assert (zlen L = bucket_start f S b) as HL.
  { apply zlen_segments; [lia|]. intros b' Hb'. apply Hseg. lia. }
  assert (zlen target = zlen S) as Hzt.
  { rewrite Et, zlen_segments by (done || lia). unfold bucket_start, zlen. by rewrite (bucket_sort_Permutation f nb S) by (done || lia). }
  exists (bucket_start f S b + zlen filt). split; [by apply Ho|].
  assert (zlen (L ++ filt) = bucket_start f S b + zlen filt) as HLf by (rewrite zlen_app; lia).
  assert (zset target (bucket_start f S b + zlen filt) p = Some ((L ++ filt) ++ p :: r ++ B)) as Es by (rewrite Et'; by apply zset_app_mid).
  pose proof (zlen_nonneg (L ++ filt)). pose proof (zlen_nonneg (r ++ B)).
  assert (0 <= bucket_start f S b + zlen filt < zlen target) as Hr by (rewrite Et', zlen_app, zlen_cons; lia).
  split; [done|]. split; [done|]. rewrite zset_Some in Es by done. injection Es as ->.
  split; [by rewrite zlen_insert|]. split.
  - intros b' Hb'. rewrite Ht, bucket_list_snoc, zlen_app. case_decide as E.
    + fold b in E. subst b'. rewrite zget_insert_eq by lia. f_equal. change (zlen [p]) with 1. fold filt. lia.
    + fold b in E. rewrite zget_insert_ne by lia. rewrite Ho by done. f_equal.
      change (zlen (@nil A)) with 0. lia.
  - exists (fun b' => if decide (b' = b) then r else rest b').
    assert (forall b', b' <> b ->
      segments (i + 1) (fun b' => if decide (b' = b) then r else rest b') b' = segments i rest b') as Hne.
    { intros b' Hb'. unfold segments. rewrite Ht, bucket_list_snoc.
      case_decide as E; [fold b in E; congruence|]. rewrite decide_False by done. by rewrite app_nil_r. }
    assert (segments (i + 1) (fun b' => if decide (b' = b) then r else rest b') b = filt ++ p :: r) as He.
    { unfold segments. rewrite Ht, bucket_list_snoc. rewrite !decide_True by done.
      fold filt. by rewrite <- app_assoc. }
    split.
    + rewrite (range_app 0 b nb), (range_cons b nb) by lia.
      rewrite map_app, concat_app. cbn [map concat]. rewrite He.
      rewrite (map_ext_in _ (segments i rest) (range 0 b)).
      2: { intros b' Hb'. apply Hne. apply list_elem_of_In, elem_of_range in Hb'. lia. }
      rewrite (map_ext_in _ (segments i rest) (range (b + 1) nb)).
      2: { intros b' Hb'. apply Hne. apply list_elem_of_In, elem_of_range in Hb'. lia. }
      fold L B. by rewrite <- !app_assoc.
    + intros b' Hb'. destruct (decide (b' = b)) as [->|Hb''].
      * rewrite He, zlen_app, zlen_cons. lia.
      * rewrite Hne by done. by apply Hseg.
Qed.

Lemma scatter_end len offsets target : scatter_inv len (zlen S) offsets target -> zlen offsets = len /\ target = bucket_sort f nb S.
Proof using.
  intros (Hl & _ & rest & -> & Hseg). split; [done|]. unfold bucket_sort. f_equal.
  apply map_ext_in. intros b Hb. apply list_elem_of_In, elem_of_range in Hb.
  pose proof (Hseg b Hb) as Hz. unfold segments in *. rewrite take_all_S, zlen_app in *.
  rewrite (zlen_0 (rest b)) by lia. by rewrite app_nil_r.
Qed.
End loops.
