(* ===== verification/WeightedOrder.v ===== *)
(** * WeightedOrder: the stable packet order of the weighted scheduler

    [schedule/workspace/weighted/order.cpp]: counting and radix passes over the
    workspace's index arrays, and [BuildWeightedPacketOrder], which applies one
    stable pass per sort key from the least to the most significant key. The order
    is the unique one that sorts the packets by locality bucket, decreasing work,
    cache group, decreasing contiguous span and packet index ([WeightedOrderFacts]). *)
From stdpp Require Import base numbers list option sorting.
From Stdlib Require Import ZArith Lia Sorted.
From S2P Require Import Prelude Checked Scalar Planner.

(** The three index arrays of the workspace that the passes use. *)
Record OrderBuffers := {
  ordered_packet_indices : list Z;
  packet_partition_indices : list Z;
  ordered_packet_scratch : list Z;
}.

Record U64KeyRange := { min_key : Z; max_key : Z }.

(** [std::copy(src.begin(), src.begin() + n, dst.begin())]. *)
Definition copy_prefix (src dst : list Z) (n : Z) : option (list Z) :=
  if (n <=? zlen src) && (n <=? zlen dst)
  then Some (take (Z.to_nat n) src ++ drop (Z.to_nat n) dst) else None.

(** [std::fill(v.begin(), v.begin() + n, 0)]. *)
Definition fill_prefix (v : list Z) (n : Z) : option (list Z) :=
  if n <=? zlen v then Some (replicate (Z.to_nat n) 0 ++ drop (Z.to_nat n) v) else None.

(** ** The passes

    [key_at] is the key the pass sorts by; it reads the request's arrays. *)
Section passes.
Context (key_at : Z -> option Z).

(** Key of the packet stored at [index] of [source]. *)
Definition key_of (source : list Z) (index : Z) : option Z :=
  packet ← zget source index; key_at packet.

(** [for index: counts[bucket(key)] += 1]. *)
Definition count_keys (bucket : Z -> Z) (source counts : list Z) (packet_count : Z)
    : option (list Z) :=
  for_each (fun counts index =>
    key ← key_of source index;
    count ← zget counts (bucket key);
    zset counts (bucket key) (wrap32 (count + 1))) counts (range 0 packet_count).

(** [for index: target[offsets[bucket(key)]++] = packet]. *)
Definition scatter_keys (bucket : Z -> Z) (source offsets target : list Z) (packet_count : Z)
    : option (list Z * list Z) :=
  for_each (fun '(offsets, target) index =>
    packet ← zget source index;
    key ← key_at packet;
    offset ← zget offsets (bucket key);
    target ← zset target offset packet;
    offsets ← zset offsets (bucket key) (wrap32 (offset + 1));
    Some (offsets, target)) (offsets, target) (range 0 packet_count).

(** Exclusive prefix sums of [counts], written to [offsets]; the counting passes
    call it with one array for both. *)
Definition prefix_counts (counts offsets : list Z) (bucket_count : Z) : option (list Z) :=
  r ← for_each (fun '(offsets, prefix) bucket =>
        count ← zget counts bucket;
        offsets ← zset offsets bucket prefix;
        Some (offsets, wrap32 (prefix + count))) (offsets, 0) (range 0 bucket_count);
  Some r.1.

(** Least and greatest key of the first [packet_count] packets. *)
Definition MeasureU64KeyRange (buffers : OrderBuffers) (packet_count : Z) : option U64KeyRange :=
  first ← key_of (ordered_packet_indices buffers) 0;
  for_each (fun r index =>
    key ← key_of (ordered_packet_indices buffers) index;
    Some {| min_key := Z.min (min_key r) key; max_key := Z.max (max_key r) key |})
    {| min_key := first; max_key := first |} (range 1 packet_count).

(** The counting sort both counting passes run once the bucket count is known. *)
Definition counting_pass (bucket : Z -> Z) (bucket_count : Z) (buffers : OrderBuffers)
    (packet_count : Z) : option OrderBuffers :=
  counts ← fill_prefix (packet_partition_indices buffers) bucket_count;
  counts ← count_keys bucket (ordered_packet_indices buffers) counts packet_count;
  offsets ← prefix_counts counts counts bucket_count;
  r ← scatter_keys bucket (ordered_packet_indices buffers) offsets
        (ordered_packet_scratch buffers) packet_count;
  let '(offsets, scratch) := r in
  ordered ← copy_prefix scratch (ordered_packet_indices buffers) packet_count;
  Some {| ordered_packet_indices := ordered; packet_partition_indices := offsets;
          ordered_packet_scratch := scratch |}.

Definition StableCountingOrderByU32 (buffers : OrderBuffers) (packet_count : Z)
    : option (bool * OrderBuffers) :=
  if packet_count =? 0 then Some (true, buffers)
  else
    r ← MeasureU64KeyRange buffers packet_count;
    let width := max_key r - min_key r + 1 in
    if width >? zlen (packet_partition_indices buffers) then Some (false, buffers)
    else
      buffers ← counting_pass (fun key => wrap32 (key - min_key r)) (wrap32 width) buffers
        packet_count;
      Some (true, buffers).

Definition StableCountingOrderByMeasuredU64 (buffers : OrderBuffers) (packet_count : Z)
    (key_range : U64KeyRange) : option (bool * OrderBuffers) :=
  let key_width := wrap64 (max_key key_range - min_key key_range) in
  if key_width >=? zlen (packet_partition_indices buffers) then Some (false, buffers)
  else
    buffers ← counting_pass (fun key => wrap32 (wrap64 (key - min_key key_range)))
      (wrap32 (wrap64 (key_width + 1))) buffers packet_count;
    Some (true, buffers).

Definition byte_of (shift key : Z) : Z := Z.land (Z.shiftr key shift) 255.

(** One byte of a radix sort: the counts of the byte's values, their offsets and
    the scatter from [source] to [target]. *)
Definition radix_pass (byte : Z) (source target offsets : list Z) (packet_count : Z)
    : option (list Z * list Z) :=
  let bucket := byte_of (byte * 8) in
  counts ← count_keys bucket source (replicate 256 0) packet_count;
  offsets ← prefix_counts counts offsets 256;
  scatter_keys bucket source offsets target packet_count.

(** Even bytes move the order to the scratch array, odd bytes move it back. *)
Definition radix_bytes (buffers : OrderBuffers) (packet_count last_byte : Z)
    : option OrderBuffers :=
  r ← for_each (fun '(buffers, offsets) byte =>
    if Z.even byte then
      r ← radix_pass byte (ordered_packet_indices buffers) (ordered_packet_scratch buffers)
            offsets packet_count;
      let '(offsets, target) := r in
      Some ({| ordered_packet_indices := ordered_packet_indices buffers;
               packet_partition_indices := packet_partition_indices buffers;
               ordered_packet_scratch := target |}, offsets)
    else
      r ← radix_pass byte (ordered_packet_scratch buffers) (ordered_packet_indices buffers)
            offsets packet_count;
      let '(offsets, target) := r in
      Some ({| ordered_packet_indices := target;
               packet_partition_indices := packet_partition_indices buffers;
               ordered_packet_scratch := ordered_packet_scratch buffers |}, offsets))
    (buffers, replicate 256 0) (range 0 (last_byte + 1));
  Some r.1.

Definition StableRadixOrderByU32 (buffers : OrderBuffers) (packet_count : Z)
    : option OrderBuffers := radix_bytes buffers packet_count 3.

(** [u64] has eight bytes, so eight iterations are enough. *)
Definition HighestDifferingByte (r : U64KeyRange) : option Z :=
  s ← while 8 (fun s => fst s >? 255) (fun '(difference, highest_byte) =>
        (Z.shiftr difference 8, wrap32 (highest_byte + 1)))
      (Z.lxor (min_key r) (max_key r), 0);
  Some (snd s).

Definition StableRadixOrderByU64 (buffers : OrderBuffers) (packet_count : Z) (r : U64KeyRange)
    : option OrderBuffers :=
  last_byte ← HighestDifferingByte r;
  buffers ← radix_bytes buffers packet_count last_byte;
  if Z.even last_byte then
    ordered ← copy_prefix (ordered_packet_scratch buffers) (ordered_packet_indices buffers)
      packet_count;
    Some {| ordered_packet_indices := ordered;
            packet_partition_indices := packet_partition_indices buffers;
            ordered_packet_scratch := ordered_packet_scratch buffers |}
  else Some buffers.

Definition StableOrderByU64 (buffers : OrderBuffers) (packet_count : Z) : option OrderBuffers :=
  if packet_count =? 0 then Some buffers
  else
    r ← MeasureU64KeyRange buffers packet_count;
    counted ← StableCountingOrderByMeasuredU64 buffers packet_count r;
    let '(done_, buffers) := (counted : bool * OrderBuffers) in
    if done_ then Some buffers else StableRadixOrderByU64 buffers packet_count r.

(** A counting pass, or a radix sort when the keys are too spread out. *)
Definition order_by_u32 (buffers : OrderBuffers) (packet_count : Z) : option OrderBuffers :=
  counted ← StableCountingOrderByU32 buffers packet_count;
  let '(done_, buffers) := (counted : bool * OrderBuffers) in
  if done_ then Some buffers else StableRadixOrderByU32 buffers packet_count.
End passes.

(** ** [BuildWeightedPacketOrder] *)
Definition HasPacketHints (request : ScheduleCompileRequest) : bool :=
  negb (zlen (c_packet_hints request) =? 0).

Definition span_key (request : ScheduleCompileRequest) (packet : Z) : option Z :=
  hint ← zget (c_packet_hints request) packet;
  Some (wrap32 (U32_MAX - preferred_contiguous_span hint)).
Definition cache_key (request : ScheduleCompileRequest) (packet : Z) : option Z :=
  hint ← zget (c_packet_hints request) packet; Some (cache_line_group hint).
Definition work_key (resolved_work_units : list Z) (packet : Z) : option Z :=
  work ← zget resolved_work_units packet; Some (wrap64 (U64_MAX - work)).
Definition locality_key (request : ScheduleCompileRequest) (packet : Z) : option Z :=
  hint ← zget (c_packet_hints request) packet; Some (locality_bucket_id hint).

Definition BuildWeightedPacketOrder (buffers : OrderBuffers) (request : ScheduleCompileRequest)
    (resolved_work_units : list Z) : option OrderBuffers :=
  let packet_count := c_packet_count request in
  let buffers := {|
    ordered_packet_indices :=
      map wrap32 (range 0 (zlen (ordered_packet_indices buffers)));
    packet_partition_indices := packet_partition_indices buffers;
    ordered_packet_scratch := ordered_packet_scratch buffers |} in
  if packet_count =? 0 then Some buffers
  else
    let has_hints := HasPacketHints request in
    buffers ← (if has_hints then
                 buffers ← order_by_u32 (span_key request) buffers packet_count;
                 order_by_u32 (cache_key request) buffers packet_count
               else Some buffers);
    buffers ← StableOrderByU64 (work_key resolved_work_units) buffers packet_count;
    if has_hints then order_by_u32 (locality_key request) buffers packet_count
    else Some buffers.
