(* ===== verification/WeightedOrderFacts.v ===== *)
(** * WeightedOrderFacts: every pass is a stable sort, and their composition the packet order

    [pass_loops]: the counting loops compute [bucket_sort]. [order_pass]: a pass
    turns a list ordered by [R] into the same elements ordered by the key, then by
    [R]. [BuildWeightedPacketOrder_sorts] composes the passes. *)
From stdpp Require Import base numbers list option sorting.
From Stdlib Require Import ZArith Lia Sorted.
From S2P Require Import Prelude Checked Scalar Planner BucketSort WeightedOrder.

Section pass_loops.
Context (key_at : Z -> option Z) (bucket : Z -> Z) (f : Z -> Z) (nb : Z) (S : list Z).
Context (Hnb : 0 <= nb) (Hlen : zlen S <= U32_MAX).
Context (Hkey : forall p, p ∈ S -> exists k, key_at p = Some k /\ bucket k = f p /\ 0 <= f p < nb).

Lemma bounds_S : Forall (fun p => 0 <= f p < nb) S.
Proof using Hkey. apply Forall_forall. intros p Hp. by destruct (Hkey p Hp) as (_ & _ & _ & ?). Qed.

Lemma source_get i : 0 <= i < zlen S ->
  exists p k, zget S i = Some p /\ key_at p = Some k /\ bucket k = f p /\ 0 <= f p < nb.
Proof using Hkey.
  intros Hi. destruct (source_at f nb S bounds_S i Hi) as (p & Hp & Hin & _).
  destruct (Hkey p Hin) as (k & ? & ? & ?). by exists p, k.
Qed.

Lemma count_keys_spec counts :
  nb <= zlen counts -> (forall b, 0 <= b < nb -> zget counts b = Some 0) ->
  exists counts', count_keys key_at bucket S counts (zlen S) = Some counts' /\
    zlen counts' = zlen counts /\
    forall b, 0 <= b < nb -> zget counts' b = Some (zlen (bucket_list f S b)).
Proof using All.
  intros Hc H0. unfold count_keys.
  edestruct (for_range_inv (count_inv f nb S (zlen counts))) as (cs & E & Hcs).
  4: { exists cs. split; [exact E|]. split; [apply Hcs | by apply (count_end _ _ _ _ _ Hcs)]. }
  - apply zlen_nonneg.
  - by apply count_start.
  - intros i cs Hi Hcs. destruct (source_get i Hi) as (p & k & Hp & Hk & Hb & Hf).
    destruct (count_step f nb S _ i cs p Hc Hi Hp Hf Hcs) as (c & Ec & Hr & Hcs'). pose proof (zget_range _ _ _ Ec).
    unfold key_of. rewrite Hp. cbn. rewrite Hk. cbn. rewrite Hb, Ec. cbn. rewrite zset_Some by done.
    rewrite wrap32_small by (unfold is_u32; lia). by eexists.
Qed.

Lemma prefix_counts_spec counts offsets :
  nb <= zlen offsets ->
  (forall b, 0 <= b < nb -> zget counts b = Some (zlen (bucket_list f S b))) ->
  exists offsets', prefix_counts counts offsets nb = Some offsets' /\
    zlen offsets' = zlen offsets /\
    forall b, 0 <= b < nb -> zget offsets' b = Some (bucket_start f S b).
Proof using All.
  intros Ho Hc. unfold prefix_counts.
  edestruct (for_range_inv (start_inv f S (zlen offsets))) as ([os pre] & E & Hl & _ & Hos).
  4: { rewrite E. exists os. by split. }
  - done.
  - split; [done|]. split; [done|]. lia.
  - intros i [os pre] Hi Hinv. destruct (start_step f nb S bounds_S _ i os pre Ho Hi Hinv) as (Es & Hr & Hinv').
    rewrite Hc by done. cbn. rewrite Es. cbn. rewrite wrap32_small by (unfold is_u32; lia). by eexists.
Qed.

Lemma scatter_keys_spec offsets target :
  nb <= zlen offsets -> zlen target = zlen S ->
  (forall b, 0 <= b < nb -> zget offsets b = Some (bucket_start f S b)) ->
  exists offsets', scatter_keys key_at bucket S offsets target (zlen S) =
      Some (offsets', bucket_sort f nb S) /\
    zlen offsets' = zlen offsets.
Proof using All.
  intros Hno Hlt Ho. unfold scatter_keys.
  edestruct (for_range_inv (fun i st => scatter_inv f nb S (zlen offsets) i st.1 st.2)) as ([os t] & E & Hinv).
  4: { rewrite E. destruct (scatter_end _ _ _ _ _ _ Hinv) as [Hl Et]. cbn [fst snd] in *. subst t. by exists os. }
  - apply zlen_nonneg.
  - by apply scatter_start; [done | apply bounds_S | |].
  - intros i [os t] Hi Hinv. destruct (source_get i Hi) as (p & k & Hp & Hk & Hb & Hf).
    destruct (scatter_step f nb S Hnb bounds_S _ i p os t Hi Hp Hf Hno Hinv) as (o & Eo & Hr & Hz & Hinv').
    pose proof (zget_range _ _ _ Eo). rewrite Hp. cbn. rewrite Hk. cbn. rewrite Hb, Eo. cbn. rewrite zset_Some by done. cbn.
    rewrite wrap32_small by (unfold is_u32; lia). rewrite zset_Some by done. cbn. by eexists.
Qed.

End pass_loops.

(** ** One pass over the buffers *)
Record sized (n : Z) (b : OrderBuffers) : Prop := {
  sized_order : zlen (ordered_packet_indices b) = n;
  sized_buckets : zlen (packet_partition_indices b) = n;
  sized_scratch : zlen (ordered_packet_scratch b) = n;
}.

Lemma refined_ext (f g : Z -> Z) (R : relation Z) l :
  (forall a b, a ∈ l -> b ∈ l -> (f a < f b -> g a < g b) /\ (f a = f b -> g a = g b)) ->
  StronglySorted (refined f R) l -> StronglySorted (refined g R) l.
Proof.
  intros H. apply StronglySorted_impl. intros a b Ha Hb.
  destruct (H a b Ha Hb) as [Hlt Heq]. intros [? | [? ?]]; [left | right]; auto.
Qed.

Lemma copy_prefix_all src dst n : zlen src = n -> zlen dst = n -> copy_prefix src dst n = Some src.
Proof.
  intros H1 H2. unfold copy_prefix. rewrite (proj2 (Z.leb_le n (zlen src))), (proj2 (Z.leb_le n (zlen dst))) by lia.
  cbn. rewrite take_ge, drop_ge, app_nil_r by (unfold zlen in *; lia). done.
Qed.

Lemma zlen_Permutation (l k : list Z) : l ≡ₚ k -> zlen l = zlen k.
Proof. intros H. unfold zlen. by rewrite H. Qed.

Section order_pass.
Context (key_at : Z -> option Z) (key : Z -> Z) (kmax : Z) (R : relation Z) (n : Z).
Context (Hn : 0 < n <= U32_MAX).

(** The packets in [b] are ordered by [R] and have keys up to [kmax]. *)
Record keyed (b : OrderBuffers) : Prop := {
  keyed_sized : sized n b;
  keyed_key : forall p, p ∈ ordered_packet_indices b -> key_at p = Some (key p) /\ 0 <= key p <= kmax;
  keyed_order : StronglySorted R (ordered_packet_indices b);
}.

(** What a stable pass establishes. *)
Definition passed (b b' : OrderBuffers) : Prop :=
  sized n b' /\ ordered_packet_indices b' ≡ₚ ordered_packet_indices b /\
  StronglySorted (refined key R) (ordered_packet_indices b').

Lemma counting_pass_spec bucket nb f b :
  keyed b -> 0 <= nb <= n ->
  (forall p, p ∈ ordered_packet_indices b -> bucket (key p) = f p /\ 0 <= f p < nb) ->
  exists b', counting_pass key_at bucket nb b n = Some b' /\ sized n b' /\
    ordered_packet_indices b' = bucket_sort f nb (ordered_packet_indices b).
Proof using Hn.
  intros [[Ho Hp Hs] Hk HR] Hnb Hf. set (S := ordered_packet_indices b) in *. unfold counting_pass.
  assert (forall p, p ∈ S -> exists k, key_at p = Some k /\ bucket k = f p /\ 0 <= f p < nb) as Hkey.
  { intros p Hin. exists (key p). split; [by apply Hk | by apply Hf]. }
  assert (zlen S <= U32_MAX) as Hu by lia.
  assert (fill_prefix (packet_partition_indices b) nb =
    Some (replicate (Z.to_nat nb) 0 ++ drop (Z.to_nat nb) (packet_partition_indices b))) as Ef.
  { unfold fill_prefix. by rewrite (proj2 (Z.leb_le nb _)) by lia. }
  rewrite Ef. cbn. set (counts0 := replicate _ _ ++ _).
  assert (zlen counts0 = n) as Hc0.
  { unfold counts0, zlen in *. rewrite length_app, length_replicate, length_drop. lia. }
  destruct (count_keys_spec key_at bucket f nb S ltac:(lia) Hu Hkey counts0) as (counts & Ec & Hlc & Hc).
  { lia. }
  { intros k Hb. unfold counts0. rewrite zget_app_l by (rewrite zlen_replicate; lia).
    apply zget_Some. split; [lia|]. apply lookup_replicate. split; [done | lia]. }
  rewrite Ho in Ec. fold S. rewrite Ec. cbn.
  destruct (prefix_counts_spec key_at bucket f nb S ltac:(lia) Hu Hkey counts counts) as (offs & Eo & Hlo & Hoff);
    [lia | done |].
  rewrite Eo. cbn.
  destruct (scatter_keys_spec key_at bucket f nb S ltac:(lia) Hu Hkey offs (ordered_packet_scratch b))
    as (offs' & Es & Hlo'); [lia | lia | done |].
  rewrite Ho in Es. rewrite Es. cbn.
  assert (zlen (bucket_sort f nb S) = n) as Hlb.
  { rewrite <- Ho. apply zlen_Permutation, bucket_sort_Permutation; [lia|].
    apply Forall_forall. intros p Hin. by apply Hf. }
  rewrite copy_prefix_all by done. cbn. eexists. split; [done|]. cbn. split; [|done].
  constructor; cbn; lia.
Qed.

Lemma MeasureU64KeyRange_spec b :
  keyed b ->
  exists r, MeasureU64KeyRange key_at b n = Some r /\ 0 <= min_key r <= max_key r /\ max_key r <= kmax /\
    forall p, p ∈ ordered_packet_indices b -> min_key r <= key p <= max_key r.
Proof using Hn.
  intros [[Ho _ _] Hk _]. set (S := ordered_packet_indices b) in *. unfold MeasureU64KeyRange. fold S.
  assert (forall i, 0 <= i < n -> exists p, zget S i = Some p /\ key_of key_at S i = Some (key p) /\
    0 <= key p <= kmax /\ take (Z.to_nat (i + 1)) S = take (Z.to_nat i) S ++ [p]) as Hget.
  { intros i Hi. destruct (zget_is_Some S i) as [p Hp]; [lia|]. exists p. split; [done|].
    destruct (Hk p) as [Ek ?]. { apply zget_Some in Hp as [_ ?]. by eapply list_elem_of_lookup_2. }
    split; [unfold key_of; by rewrite Hp|]. split; [done|]. apply take_S_Z; [lia | done]. }
  destruct (Hget 0 ltac:(lia)) as (p0 & _ & E0 & Hr0 & Ht0). rewrite E0. cbn.
  edestruct (for_range_inv (fun i r => 0 <= min_key r <= max_key r /\ max_key r <= kmax /\
    forall p, p ∈ take (Z.to_nat i) S -> min_key r <= key p <= max_key r)) as (r & E & H1 & H2 & H3).
  4: { exists r. split; [exact E|]. do 2 (split; [done|]). intros p Hp. apply H3.
       rewrite take_ge; [done | unfold zlen in Ho; lia]. }
  - lia.
  - cbn. split; [lia|]. split; [lia|]. change (Z.to_nat 1) with (Z.to_nat (0 + 1)). rewrite Ht0. cbn.
    intros p Hp. apply list_elem_of_singleton in Hp. subst. lia.
  - intros i r Hi (H1 & H2 & H3). destruct (Hget i ltac:(lia)) as (p & _ & -> & Hr & Ht). cbn.
    eexists. split; [done|]. cbn. split; [lia|]. split; [lia|]. intros q. rewrite Ht, elem_of_app.
    intros [Hq | Hq]; [apply H3 in Hq; lia|]. apply list_elem_of_singleton in Hq. subst. lia.
Qed.

Lemma counted b bucket nb (m : Z) :
  keyed b -> 0 <= nb <= n ->
  (forall p, p ∈ ordered_packet_indices b -> bucket (key p) = key p - m /\ 0 <= key p - m < nb) ->
  exists b', counting_pass key_at bucket nb b n = Some b' /\ passed b b'.
Proof using Hn.
  intros Hb Hnb Hf.
  destruct (counting_pass_spec bucket nb (fun p => key p - m) b Hb Hnb Hf) as (b' & E & Hs & Eo).
  exists b'. split; [done|]. split; [done|]. rewrite Eo. split.
  - apply bucket_sort_Permutation; [lia|]. apply Forall_forall. intros p Hp. by apply Hf.
  - apply (refined_ext (fun p => key p - m)); [lia|]. apply bucket_sort_sorted; [lia|]. apply Hb.
Qed.

(** *** Radix passes *)
Definition low_bytes (i p : Z) : Z := key p mod 256 ^ i.

Lemma byte_of_spec i k : 0 <= i -> byte_of (i * 8) k = (k / 256 ^ i) mod 256.
Proof using.
  intros. unfold byte_of. change 255 with (Z.ones 8). rewrite Z.land_ones by lia.
  rewrite Z.shiftr_div_pow2 by lia. replace (2 ^ (i * 8)) with (256 ^ i); [done|].
  rewrite Z.mul_comm, Z.pow_mul_r by lia. done.
Qed.

Lemma low_bytes_next i p : 0 <= i ->
  low_bytes (i + 1) p = low_bytes i p + 256 ^ i * byte_of (i * 8) (key p).
Proof using.
  intros. unfold low_bytes. rewrite byte_of_spec, Z.pow_add_r, Z.pow_1_r by lia.
  apply Z.rem_mul_r; [pose proof (Z.pow_pos_nonneg 256 i); lia | lia].
Qed.

Lemma radix_pass_spec i src target offsets :
  0 <= i -> zlen src = n -> zlen target = n -> zlen offsets = 256 ->
  (forall p, p ∈ src -> key_at p = Some (key p)) ->
  StronglySorted (refined (low_bytes i) R) src ->
  exists offsets' target', radix_pass key_at i src target offsets n = Some (offsets', target') /\
    zlen offsets' = 256 /\ target' ≡ₚ src /\
    StronglySorted (refined (low_bytes (i + 1)) R) target'.
Proof using Hn.
  intros Hi Hs Ht Ho Hk HR. unfold radix_pass.
  set (f := fun p => byte_of (i * 8) (key p)).
  assert (forall p, 0 <= f p < 256) as Hf.
  { intros p. unfold f. rewrite byte_of_spec by done. apply Z.mod_pos_bound. lia. }
  assert (forall p, p ∈ src -> exists k, key_at p = Some k /\ byte_of (i * 8) k = f p /\ 0 <= f p < 256) as Hkey.
  { intros p Hp. exists (key p). split; [by apply Hk | by split]. }
  assert (zlen src <= U32_MAX) as Hu by lia.
  assert (0 <= 256) as H256 by lia.
  destruct (count_keys_spec key_at (byte_of (i * 8)) f 256 src H256 Hu Hkey (replicate 256 0))
    as (counts & Ec & Hlc & Hc).
  { rewrite zlen_replicate. lia. }
  { intros k Hb. apply zget_Some. split; [lia|]. apply lookup_replicate. split; [done | lia]. }
  rewrite Hs in Ec. rewrite Ec. cbn.
  destruct (prefix_counts_spec key_at (byte_of (i * 8)) f 256 src H256 Hu Hkey counts offsets) as (offs & Eo & Hlo & Hoff);
    [lia | done |].
  rewrite Eo. cbn.
  destruct (scatter_keys_spec key_at (byte_of (i * 8)) f 256 src H256 Hu Hkey offs target) as (offs' & Es & Hlo');
    [lia | lia | done |].
  rewrite Hs in Es. rewrite Es. eexists _, _. split; [done|]. split; [lia|]. split.
  - apply bucket_sort_Permutation; [done|]. apply Forall_forall. by intros.
  - eapply StronglySorted_impl; [| by apply bucket_sort_sorted].
    intros a b _ _ Hab. unfold refined in *. rewrite !low_bytes_next by done. fold (f a) (f b).
    pose proof (Z.mod_pos_bound (key a) (256 ^ i) ltac:(pose proof (Z.pow_pos_nonneg 256 i); lia)) as Ha.
    pose proof (Z.mod_pos_bound (key b) (256 ^ i) ltac:(pose proof (Z.pow_pos_nonneg 256 i); lia)) as Hb.
    fold (low_bytes i a) in Ha. fold (low_bytes i b) in Hb. set (M := 256 ^ i) in *.
    destruct Hab as [Hlt | (-> & [Hlt | [-> ?]])]; [left; nia | left; lia | by right].
Qed.

(** The array that holds the order after [i] radix passes. *)
Definition radix_order (i : Z) (b : OrderBuffers) : list Z :=
  if Z.even i then ordered_packet_indices b else ordered_packet_scratch b.

Lemma radix_bytes_spec b last_byte :
  keyed b -> 0 <= last_byte ->
  exists b', radix_bytes key_at b n last_byte = Some b' /\ sized n b' /\
    radix_order (last_byte + 1) b' ≡ₚ ordered_packet_indices b /\
    StronglySorted (refined (low_bytes (last_byte + 1)) R) (radix_order (last_byte + 1) b').
Proof using Hn.
  intros [Hsz Hk HR] Hl. set (S := ordered_packet_indices b) in *. unfold radix_bytes.
  edestruct (for_range_inv (fun i (st : OrderBuffers * list Z) => sized n st.1 /\ zlen st.2 = 256 /\
    radix_order i st.1 ≡ₚ S /\ StronglySorted (refined (low_bytes i) R) (radix_order i st.1)))
    as ([b' os] & E & H1 & _ & H2 & H3).
  4: { rewrite E. exists b'. by split. }
  - lia.
  - cbn. split; [done|]. split; [done|]. split; [done|]. eapply StronglySorted_impl; [|exact HR].
    intros a c _ _ Hac. right. unfold low_bytes. by rewrite !Z.mod_1_r.
  - intros i [b1 os] Hi (Hs1 & Hos & Hp & Hsort). cbn in Hs1, Hos, Hp, Hsort.
    assert (forall p, p ∈ radix_order i b1 -> key_at p = Some (key p)) as Hk1.
    { intros p Hin. apply Hk. fold S. by rewrite <- Hp. }
    pose proof Hs1 as [Ho1 Hp1 Hsc1].
    assert (Z.even (i + 1) = negb (Z.even i)) as Hev by (rewrite Z.even_add; by destruct (Z.even i)).
    unfold radix_order in Hp, Hsort, Hk1. destruct (Z.even i) eqn:Ei.
    + destruct (radix_pass_spec i (ordered_packet_indices b1) (ordered_packet_scratch b1) os)
        as (os' & t & Er & Hos' & Hpt & Hst); [lia | done .. |].
      rewrite Er. cbn. eexists. split; [done|]. cbn. unfold radix_order. rewrite Hev. cbn.
      apply zlen_Permutation in Hpt as Hlt.
      split; [constructor; cbn; lia|]. split; [done|]. split; [by rewrite Hpt | done].
    + destruct (radix_pass_spec i (ordered_packet_scratch b1) (ordered_packet_indices b1) os)
        as (os' & t & Er & Hos' & Hpt & Hst); [lia | done .. |].
      rewrite Er. cbn. eexists. split; [done|]. cbn. unfold radix_order. rewrite Hev. cbn.
      apply zlen_Permutation in Hpt as Hlt.
      split; [constructor; cbn; lia|]. split; [done|]. split; [by rewrite Hpt | done].
Qed.

End order_pass.

(** ** The passes by 32-bit and 64-bit keys *)
Lemma order_by_u32_spec key_at key R n b :
  0 < n <= U32_MAX -> keyed key_at key U32_MAX R n b ->
  exists b', order_by_u32 key_at b n = Some b' /\ passed key R n b b'.
Proof.
  intros Hn Hb. unfold order_by_u32, StableCountingOrderByU32.
  rewrite (proj2 (Z.eqb_neq n 0)) by lia.
  destruct (MeasureU64KeyRange_spec key_at key U32_MAX R n Hn b Hb) as (r & -> & Hr & Hmax & Hin). cbn.
  pose proof Hb as [[Ho Hp Hs] Hk HR].
  destruct (_ >? _) eqn:E; to_prop; cbn.
  - destruct (radix_bytes_spec key_at key U32_MAX R n Hn b 3 Hb ltac:(lia)) as (b' & E' & Hsz & Hperm & Hsort).
    unfold StableRadixOrderByU32. exists b'. split; [exact E'|]. split; [done|]. cbn in Hperm, Hsort.
    split; [done|]. eapply refined_ext; [|exact Hsort]. intros x y Hx Hy.
    unfold low_bytes. change (256 ^ (3 + 1)) with 4294967296.
    assert (0 <= key x <= U32_MAX) by (apply Hk; by rewrite <- Hperm).
    assert (0 <= key y <= U32_MAX) by (apply Hk; by rewrite <- Hperm).
    rewrite !Z.mod_small by lia. done.
  - destruct (counted key_at key U32_MAX R n Hn b (fun key => wrap32 (key - min_key r))
      (wrap32 (max_key r - min_key r + 1)) (min_key r) Hb) as (b' & -> & Hpass).
    + rewrite wrap32_small by (unfold is_u32; lia). lia.
    + intros p Hpin. specialize (Hin p Hpin).
      rewrite !wrap32_small by (unfold is_u32; lia). lia.
    + by exists b'.
Qed.

Lemma HighestDifferingByte_spec r :
  0 <= min_key r <= max_key r -> max_key r <= U64_MAX ->
  exists h, HighestDifferingByte r = Some h /\ 0 <= h <= 7 /\
    min_key r / 256 ^ (h + 1) = max_key r / 256 ^ (h + 1).
Proof.
  intros Hr Hm. unfold HighestDifferingByte. set (D := Z.lxor (min_key r) (max_key r)).
  assert (0 <= D < 2 ^ 64) as HD.
  { assert (0 <= D) by (apply Z.lxor_nonneg; lia). split; [done|].
    destruct (Z.eq_dec D 0) as [->|]; [lia|]. apply Z.log2_lt_pow2; [lia|].
    eapply Z.le_lt_trans; [apply Z.log2_lxor; lia|].
    destruct (Z.eq_dec (max_key r) 0).
    - replace (min_key r) with 0 by lia. by rewrite e.
    - apply Z.max_lub_lt.
      + destruct (Z.eq_dec (min_key r) 0) as [->|]; [done|]. apply Z.log2_lt_pow2; lia.
      + apply Z.log2_lt_pow2; lia. }
  assert (forall h, 0 <= h -> Z.shiftr D (8 * h) = D / 256 ^ h) as Hsh.
  { intros h Hh. rewrite Z.shiftr_div_pow2, Z.pow_mul_r by lia. done. }
  edestruct (while_total (fun s => 0 <= s.2 <= 7 /\ s.1 = D / 256 ^ s.2) (fun s => 8 - s.2)
    (fun s : Z * Z => s.1 >? 255) (fun '(difference, highest_byte) =>
        (Z.shiftr difference 8, wrap32 (highest_byte + 1))) 8 (D, 0)) as ([d h] & -> & [Hh Hd] & Hc).
  - cbn. split; [lia|]. by rewrite Z.div_1_r.
  - intros [d h] [Hh Hd] Hc. cbn in *. to_prop. apply Z.ltb_lt in Hc.
    assert (h <> 7).
    { intros ->. subst d. change (256 ^ 7) with (2 ^ 56) in Hc.
      assert (D / 2 ^ 56 < 256) by (apply Z.div_lt_upper_bound; lia). lia. }
    rewrite wrap32_small by (unfold is_u32; lia). split; [|lia]. split; [lia|].
    subst d. change 8 with (8 * 1). rewrite Z.shiftr_div_pow2 by lia.
    rewrite Z.pow_add_r, Z.div_div by lia. done.
  - cbn. lia.
  - cbn. lia.
  - cbn in *. exists h. split; [done|]. split; [done|]. to_prop.
    assert (D / 256 ^ (h + 1) = 0) as H0.
    { rewrite Z.pow_add_r, <- Z.div_div by lia. rewrite <- Hd. apply Z.div_small. split; [|lia].
      rewrite Hd. apply Z.div_pos; [lia|]. apply Z.pow_pos_nonneg; lia. }
    rewrite <- Hsh in H0 by lia. unfold D in H0. rewrite Z.shiftr_lxor in H0. apply Z.lxor_eq in H0.
    rewrite !Z.shiftr_div_pow2, !Z.pow_mul_r in H0 by lia. exact H0.
Qed.

Lemma same_high_bytes M lo hi a : 0 < M -> lo / M = hi / M -> lo <= a <= hi -> a / M = lo / M.
Proof.
  intros HM E Ha. pose proof (Z.div_le_mono lo a M HM ltac:(lia)).
  pose proof (Z.div_le_mono a hi M HM ltac:(lia)). lia.
Qed.

Lemma StableOrderByU64_spec key_at key R n b :
  0 < n <= U32_MAX -> keyed key_at key U64_MAX R n b ->
  exists b', StableOrderByU64 key_at b n = Some b' /\ passed key R n b b'.
Proof.
  intros Hn Hb. unfold StableOrderByU64, StableCountingOrderByMeasuredU64.
  rewrite (proj2 (Z.eqb_neq n 0)) by lia.
  destruct (MeasureU64KeyRange_spec key_at key U64_MAX R n Hn b Hb) as (r & -> & Hr & Hmax & Hin). cbn.
  pose proof Hb as [[Ho Hp Hs] Hk HR].
  rewrite (wrap64_small (max_key r - min_key r)) by (unfold is_u64; lia).
  destruct (_ >=? _) eqn:E; to_prop; cbn.
  - unfold StableRadixOrderByU64.
    destruct (HighestDifferingByte_spec r) as (h & -> & Hh & Hhigh); [lia | done |]. cbn.
    destruct (radix_bytes_spec key_at key U64_MAX R n Hn b h Hb ltac:(lia)) as (b' & -> & Hsz & Hperm & Hsort).
    cbn.
    assert (StronglySorted (refined key R) (radix_order (h + 1) b')) as Hsort'.
    { eapply refined_ext; [|exact Hsort]. intros x y Hx Hy. unfold low_bytes.
      assert (0 < 256 ^ (h + 1)) as HM by (apply Z.pow_pos_nonneg; lia). set (M := 256 ^ (h + 1)) in *.
      pose proof (same_high_bytes M _ _ (key x) HM Hhigh ltac:(apply Hin; by rewrite <- Hperm)).
      pose proof (same_high_bytes M _ _ (key y) HM Hhigh ltac:(apply Hin; by rewrite <- Hperm)).
      pose proof (Z.div_mod (key x) M ltac:(lia)). pose proof (Z.div_mod (key y) M ltac:(lia)).
      split; intros; nia. }
    unfold radix_order in Hperm, Hsort'. rewrite Z.even_add in Hperm, Hsort'. pose proof Hsz as [Ho' Hp' Hs'].
    destruct (Z.even h); cbn in *.
    + rewrite copy_prefix_all by done. cbn. eexists. split; [done|]. split; [by constructor|]. done.
    + exists b'. by split.
  - rewrite wrap64_small by (unfold is_u64; lia).
    destruct (counted key_at key U64_MAX R n Hn b (fun key => wrap32 (wrap64 (key - min_key r)))
      (wrap32 (max_key r - min_key r + 1)) (min_key r) Hb) as (b' & -> & Hpass).
    + rewrite wrap32_small by (unfold is_u32; lia). lia.
    + intros p Hpin. specialize (Hin p Hpin).
      rewrite wrap64_small by (unfold is_u64; lia). rewrite !wrap32_small by (unfold is_u32; lia). lia.
    + by exists b'.
Qed.

(** ** The packet order *)
Section packet_order.
Context (request : ScheduleCompileRequest) (work : list Z).

Definition hint_of (packet : Z) : PacketPlacementHint :=
  default {| locality_bucket_id := 0; cache_line_group := 0; preferred_contiguous_span := 0;
             hint_work_units := 0 |} (zget (c_packet_hints request) packet).
Definition work_of (packet : Z) : Z := default 0 (zget work packet).

(** Heavier packets first, ties by index; with hints, packets are grouped by
    locality bucket first, and ties in work are broken by cache group and by
    decreasing contiguous span. *)
Definition packet_before (a b : Z) : Prop :=
  if HasPacketHints request then
    refined (fun p => locality_bucket_id (hint_of p))
      (refined (fun p => U64_MAX - work_of p)
        (refined (fun p => cache_line_group (hint_of p))
          (refined (fun p => U32_MAX - preferred_contiguous_span (hint_of p)) Z.lt))) a b
  else refined (fun p => U64_MAX - work_of p) Z.lt a b.

Definition hint_typed (h : PacketPlacementHint) : Prop :=
  is_u32 (locality_bucket_id h) /\ is_u32 (cache_line_group h) /\
  is_u32 (preferred_contiguous_span h).

(** What [PrepareWeightedNoGrowthBuffers] and the request checks establish. *)
Record order_request (n : Z) (b : OrderBuffers) : Prop := {
  or_count : c_packet_count request = n;
  or_range : 0 <= n <= U32_MAX;
  or_sized : sized n b;
  or_work : zlen work = n /\ Forall is_u64 work;
  or_hints : HasPacketHints request = true ->
    zlen (c_packet_hints request) = n /\ Forall hint_typed (c_packet_hints request);
}.

Context (n : Z) (b : OrderBuffers) (Hreq : order_request n b) (Hpos : 0 < n).

Definition iota_buffers : OrderBuffers := {|
  ordered_packet_indices := range 0 n;
  packet_partition_indices := packet_partition_indices b;
  ordered_packet_scratch := ordered_packet_scratch b |}.

Lemma range_sorted lo hi : StronglySorted Z.lt (range lo hi).
Proof using.
  destruct (Z.le_gt_cases lo hi) as [H|]; [|rewrite range_nil by lia; constructor].
  replace hi with (lo + (hi - lo)) by lia. assert (0 <= hi - lo) as Hd by lia. revert Hd.
  generalize (hi - lo) as d. apply natlike_ind.
  - rewrite range_nil by lia. constructor.
  - intros d Hd IH. unfold Z.succ. rewrite Z.add_assoc, range_snoc by lia.
    apply StronglySorted_app_2; [| done | repeat constructor].
    intros x y Hx%elem_of_range Hy%list_elem_of_singleton. lia.
Qed.

Lemma iota_eq : map wrap32 (range 0 n) = range 0 n.
Proof using Hreq Hpos.
  rewrite <- (map_id (range 0 n)) at 2. apply map_ext_in. intros i Hi%list_elem_of_In%elem_of_range.
  destruct Hreq as [_ ? _ _ _]. apply wrap32_small. unfold is_u32. lia.
Qed.

Lemma iota_sized : sized n iota_buffers.
Proof using Hreq Hpos.
  destruct Hreq as [_ Hr [_ Hp Hs] _ _]. constructor; cbn; [rewrite zlen_range by lia; lia | done | done].
Qed.

Lemma work_key_spec p : 0 <= p < n ->
  work_key work p = Some (U64_MAX - work_of p) /\ 0 <= U64_MAX - work_of p <= U64_MAX.
Proof using Hreq Hpos.
  intros Hp. destruct Hreq as [_ _ _ [Hl Hw] _]. unfold work_key, work_of.
  destruct (zget_is_Some work p) as [w Ew]; [lia|]. rewrite Ew. cbn.
  apply zget_Some in Ew as [_ Ew]. eapply Forall_lookup_1 in Hw; [|exact Ew]. unfold is_u64 in Hw.
  rewrite wrap64_small by (unfold is_u64; lia). split; [done | lia].
Qed.

Lemma hint_keys_spec p : HasPacketHints request = true -> 0 <= p < n ->
  (span_key request p = Some (U32_MAX - preferred_contiguous_span (hint_of p)) /\
   0 <= U32_MAX - preferred_contiguous_span (hint_of p) <= U32_MAX) /\
  (cache_key request p = Some (cache_line_group (hint_of p)) /\ is_u32 (cache_line_group (hint_of p))) /\
  (locality_key request p = Some (locality_bucket_id (hint_of p)) /\
   is_u32 (locality_bucket_id (hint_of p))).
Proof using Hreq Hpos.
  intros Hh Hp. destruct Hreq as [_ _ _ _ Hints]. destruct (Hints Hh) as [Hl Ht].
  unfold span_key, cache_key, locality_key, hint_of.
  destruct (zget_is_Some (c_packet_hints request) p) as [h Eh]; [lia|]. rewrite Eh. cbn.
  apply zget_Some in Eh as [_ Eh]. eapply Forall_lookup_1 in Ht as (H1 & H2 & H3); [|exact Eh].
  unfold is_u32 in *. rewrite wrap32_small by (unfold is_u32; lia). repeat split; lia.
Qed.

(** One pass of the composition: the order so far is [R], the elements the packets. *)
Lemma keyed_pass key_at key kmax R b1 :
  sized n b1 -> ordered_packet_indices b1 ≡ₚ range 0 n ->
  StronglySorted R (ordered_packet_indices b1) ->
  (forall p, 0 <= p < n -> key_at p = Some (key p) /\ 0 <= key p <= kmax) ->
  keyed key_at key kmax R n b1.
Proof using.
  intros Hs Hp HR Hk. constructor; [done | | done]. intros p Hin. apply Hk.
  rewrite Hp in Hin. by apply elem_of_range.
Qed.

Lemma BuildWeightedPacketOrder_sorts :
  exists b', BuildWeightedPacketOrder b request work = Some b' /\ sized n b' /\
    ordered_packet_indices b' ≡ₚ range 0 n /\
    StronglySorted packet_before (ordered_packet_indices b').
Proof using All.
  pose proof Hreq as [Hcount Hrange [Hlo _ _] _ _]. unfold BuildWeightedPacketOrder.
  rewrite Hcount, Hlo, iota_eq. fold iota_buffers. rewrite (proj2 (Z.eqb_neq n 0)) by lia.
  assert (0 < n <= U32_MAX) as Hn by lia. unfold packet_before.
  destruct (HasPacketHints request) eqn:Eh.
  - destruct (order_by_u32_spec (span_key request) _ Z.lt n iota_buffers Hn
      (keyed_pass _ _ _ _ _ iota_sized (reflexivity _) (range_sorted 0 n)
        (fun p Hp => proj1 (hint_keys_spec p Eh Hp)))) as (b1 & -> & S1 & P1 & O1). cbn.
    destruct (order_by_u32_spec (cache_key request) _ _ n b1 Hn
      (keyed_pass _ _ _ _ _ S1 P1 O1
        (fun p Hp => proj1 (proj2 (hint_keys_spec p Eh Hp))))) as (b2 & -> & S2 & P2 & O2). cbn.
    rewrite P1 in P2.
    destruct (StableOrderByU64_spec (work_key work) _ _ n b2 Hn
      (keyed_pass _ _ _ _ _ S2 P2 O2 work_key_spec)) as (b3 & -> & S3 & P3 & O3). cbn.
    rewrite P2 in P3.
    destruct (order_by_u32_spec (locality_key request) _ _ n b3 Hn
      (keyed_pass _ _ _ _ _ S3 P3 O3
        (fun p Hp => proj2 (proj2 (hint_keys_spec p Eh Hp))))) as (b4 & -> & S4 & P4 & O4).
    rewrite P3 in P4. by exists b4.
  - cbn. destruct (StableOrderByU64_spec (work_key work) _ Z.lt n iota_buffers Hn
      (keyed_pass _ _ _ _ _ iota_sized (reflexivity _) (range_sorted 0 n) work_key_spec))
      as (b3 & -> & S3 & P3 & O3). cbn. by exists b3.
Qed.

End packet_order.

(** C13: The packet order is a function of the request alone: whatever the buffers
    held before, the passes return, and their result is the one permutation of the
    packets that is sorted by the packet order. *)
Theorem BuildWeightedPacketOrder_unique request work n b :
  order_request request work n b -> 0 < n ->
  exists b', BuildWeightedPacketOrder b request work = Some b' /\ sized n b' /\
    forall l, l ≡ₚ range 0 n -> StronglySorted (packet_before request work) l <->
      l = ordered_packet_indices b'.
Proof.
  intros Hr Hn. destruct (BuildWeightedPacketOrder_sorts request work n b Hr Hn) as (b' & E & Hs & Hp & Hsort).
  exists b'. split; [done|]. split; [done|]. intros l Hl. split; [|by intros ->].
  intros Hls. eapply (StronglySorted_unique_strong (packet_before request work)); [| done | done | by rewrite Hp].
  unfold packet_before, refined. intros x y _ _. destruct (HasPacketHints request); lia.
Qed.

(** Five packets, two locality buckets; the keys are spread out, so the locality pass
    and the work pass are radix sorts. *)
Definition example_hint (locality work : Z) : PacketPlacementHint := {|
  locality_bucket_id := locality; cache_line_group := 0; preferred_contiguous_span := 1;
  hint_work_units := work |}.
Definition example_order_request : ScheduleCompileRequest := {|
  c_packet_count := 5; c_execution_width := 2; c_intent := StaticWidth;
  c_placement := WeightedStable; c_allocation := NoGrowth; c_preferred_alignment_packets := 1;
  c_locality_bucket_packets := 1; c_alignment_group_packets := 1; c_packet_work_units := [];
  c_worker_capacity_milli := [];
  c_packet_hints := [example_hint 70000 1; example_hint 0 5; example_hint 70000 900000;
                     example_hint 0 5; example_hint 0 6];
  c_trust_worker_capacity := false |}.
Definition example_buffers : OrderBuffers := {|
  ordered_packet_indices := [9; 9; 9; 9; 9]; packet_partition_indices := [7; 7; 7; 7; 7];
  ordered_packet_scratch := [3; 3; 3; 3; 3] |}.

Lemma BuildWeightedPacketOrder_unique_witness :
  order_request example_order_request [1; 5; 900000; 5; 6] 5 example_buffers /\
  exists b', BuildWeightedPacketOrder example_buffers example_order_request [1; 5; 900000; 5; 6] =
      Some b' /\ sized 5 b' /\
    forall l, l ≡ₚ range 0 5 ->
      StronglySorted (packet_before example_order_request [1; 5; 900000; 5; 6]) l <->
      l = ordered_packet_indices b'.
Proof.
  assert (order_request example_order_request [1; 5; 900000; 5; 6] 5 example_buffers) as H.
  { constructor; [done | lia | by constructor | |].
    - split; [done|]. rewrite !list.Forall_cons. unfold is_u64. split_and!; try lia. constructor.
    - intros _. split; [done|]. cbn. rewrite !list.Forall_cons. unfold hint_typed, is_u32. cbn.
      split_and!; try lia. constructor. }
  split; [exact H|].
  apply (BuildWeightedPacketOrder_unique example_order_request [1; 5; 900000; 5; 6] 5 example_buffers); [exact H | lia].
Defined.

Example example_order :
  (b ← BuildWeightedPacketOrder example_buffers example_order_request [1; 5; 900000; 5; 6];
   Some (ordered_packet_indices b)) = Some [4; 1; 3; 2; 0].
Proof. vm_compute. reflexivity. Qed.
