(* ===== verification/WeightedAssign.v ===== *)
(** * WeightedAssign: packets to the least loaded partition

    [schedule/workspace/weighted/assign.cpp], [assign/heap.cpp] and
    [assign/eight.cpp]: each packet, in the weighted order, goes to the partition
    with the least load (the lowest index on ties). The heap and the eight-way scan
    compute the same assignment, the greedy one of module [Greedy]. *)
From stdpp Require Import base numbers list option.
From Stdlib Require Import ZArith Lia.
From S2P Require Import Prelude Checked Scalar.
Import Sat.

(** The workspace arrays that the assignment writes. [write_offsets] is the heap's
    storage. *)
Record AssignState := {
  packet_partitions : list Z;
  partition_loads : list Z;
  partition_counts : list Z;
  partition_write_offsets : list Z;
}.

(** ** The heap ([assign/heap.cpp]) *)
Definition PartitionLoadHeapLess (loads : list Z) (lhs_partition rhs_partition : Z) : option bool :=
  lhs_load ← zget loads lhs_partition;
  rhs_load ← zget loads rhs_partition;
  Some (if negb (lhs_load =? rhs_load) then lhs_load <? rhs_load
        else lhs_partition <? rhs_partition).

(** [std::swap(v[i], v[j])]. *)
Definition zswap (v : list Z) (i j : Z) : option (list Z) :=
  x ← zget v i; y ← zget v j; v ← zset v i y; zset v j x.

(** The root doubles at every level, so a 32-bit index sinks at most 32 times. *)
Definition sift_fuel : nat := 33.

Definition SiftDownPartitionLoadHeap (partition_heap loads : list Z) (heap_size root : Z)
    : option (list Z) :=
  r ← while_loop (R := list Z) sift_fuel (fun _ => true) (fun '(heap, root) =>
    let left := wrap32 (wrap32 (root * 2) + 1) in
    if left >=? heap_size then Some (Return heap)
    else
      let right := wrap32 (left + 1) in
      l ← zget heap left;
      least_child ←
        (if right <? heap_size then
           r ← zget heap right;
           less ← PartitionLoadHeapLess loads r l;
           Some (if (less : bool) then right else left)
         else Some left);
      c ← zget heap least_child;
      p ← zget heap root;
      less ← PartitionLoadHeapLess loads c p;
      if negb less then Some (Return heap)
      else heap ← zswap heap root least_child; Some (Next (heap, least_child)))
    (partition_heap, root);
  match r with Return heap => Some heap | Next _ => None end.

Definition InitializePartitionLoadHeap (partition_heap loads : list Z) : option (list Z) :=
  let heap_size := wrap32 (zlen partition_heap) in
  heap ← for_each (fun heap partition => zset heap partition partition)
           partition_heap (range 0 heap_size);
  for_each (fun heap parent => SiftDownPartitionLoadHeap heap loads heap_size (parent - 1))
    heap (rev (range 1 (heap_size / 2 + 1))).

(** A packet joins [partition]. *)
Definition place_packet (resolved_work_units : list Z) (st : AssignState) (packet_index partition : Z)
    : option AssignState :=
  indices ← zset (packet_partitions st) packet_index partition;
  count ← zget (partition_counts st) partition;
  counts ← zset (partition_counts st) partition (wrap32 (count + 1));
  load ← zget (partition_loads st) partition;
  work ← zget resolved_work_units packet_index;
  loads ← zset (partition_loads st) partition (ScalarSatAdd load work);
  Some {| packet_partitions := indices; partition_loads := loads;
          partition_counts := counts;
          partition_write_offsets := partition_write_offsets st |}.

Definition with_heap (st : AssignState) (heap : list Z) : AssignState := {|
  packet_partitions := packet_partitions st; partition_loads := partition_loads st;
  partition_counts := partition_counts st; partition_write_offsets := heap |}.

Definition AssignWeightedPacketPartitionsHeap (st : AssignState) (ordered_packets : list Z)
    (resolved_work_units : list Z) : option AssignState :=
  heap ← InitializePartitionLoadHeap (partition_write_offsets st) (partition_loads st);
  let heap_size := wrap32 (zlen heap) in
  for_each (fun st packet_index =>
    partition ← zget (partition_write_offsets st) 0;
    st ← place_packet resolved_work_units st packet_index partition;
    heap ← SiftDownPartitionLoadHeap (partition_write_offsets st) (partition_loads st) heap_size 0;
    Some (with_heap st heap)) (with_heap st heap) ordered_packets.

(** ** Eight partitions ([assign/eight.cpp])

    [load0 .. load7] and [count0 .. count7] are the elements of two lists of
    eight; the scan keeps the first strictly smaller load. *)
Definition scan_step (loads : list Z) (s : Z * Z) (k : Z) : option (Z * Z) :=
  let '(min_load, partition) := s in
  load ← zget loads k;
  Some (if load <? min_load then (load, k) else (min_load, partition)).

Definition AssignEightPartitions (st : AssignState) (ordered_packets : list Z)
    (resolved_work_units : list Z) : option AssignState :=
  r ← for_each (fun '(indices, loads, counts) packet_index =>
    load0 ← zget loads 0;
    scan ← for_each (scan_step loads) (load0, 0) (range 1 8);
    let partition := scan.2 in
    indices ← zset indices packet_index partition;
    packet_work ← zget resolved_work_units packet_index;
    count ← zget counts partition;
    counts ← zset counts partition (wrap32 (count + 1));
    load ← zget loads partition;
    loads ← zset loads partition (ScalarSatAdd load packet_work);
    Some (indices, loads, counts))
    (packet_partitions st, replicate 8 0, replicate 8 0) ordered_packets;
  let '(indices, loads, counts) := r in
  out ← for_each (fun '(partition_loads, partition_counts) k =>
    load ← zget loads k;
    partition_loads ← zset partition_loads k load;
    count ← zget counts k;
    partition_counts ← zset partition_counts k count;
    Some (partition_loads, partition_counts))
    (partition_loads st, partition_counts st) (range 0 8);
  Some {| packet_partitions := indices; partition_loads := out.1;
          partition_counts := out.2;
          partition_write_offsets := partition_write_offsets st |}.

(** ** [AssignWeightedPacketPartitions], after the packet order is built *)
Definition AssignOrderedPackets (st : AssignState) (ordered_packets resolved_work_units : list Z)
    : option AssignState :=
  let st := {|
    packet_partitions := packet_partitions st;
    partition_loads := replicate (length (partition_loads st)) 0;
    partition_counts := replicate (length (partition_counts st)) 0;
    partition_write_offsets := partition_write_offsets st |} in
  let partition_count := wrap32 (zlen (partition_loads st)) in
  if partition_count =? 0 then Some st
  else if partition_count =? 8 then AssignEightPartitions st ordered_packets resolved_work_units
  else AssignWeightedPacketPartitionsHeap st ordered_packets resolved_work_units.

(** ** The greedy assignment *)
Module Greedy.

(** [p] is loaded less than [q]; ties go to the lower index. *)
Definition lighter (loads : list Z) (p q : Z) : Prop :=
  exists lp lq, zget loads p = Some lp /\ zget loads q = Some lq /\ (lp < lq \/ (lp = lq /\ p < q)).

(** The least loaded partition: a left-to-right scan. *)
Definition lightest (loads : list Z) : Z :=
  (foldl (fun '(best, p) k =>
     let load := default 0 (zget loads k) in if load <? best then (load, k) else (best, p))
   (default 0 (zget loads 0), 0) (range 1 (zlen loads))).2.

Record assignment := {
  g_partition_of : list Z;
  g_loads : list Z;
  g_counts : list Z;
}.

Definition assign (work : list Z) (g : assignment) (packet : Z) : assignment :=
  let p := lightest (g_loads g) in {|
    g_partition_of := <[Z.to_nat packet := p]> (g_partition_of g);
    g_loads := <[Z.to_nat p := ScalarSatAdd (default 0 (zget (g_loads g) p)) (default 0 (zget work packet))]> (g_loads g);
    g_counts := <[Z.to_nat p := default 0 (zget (g_counts g) p) + 1]> (g_counts g) |}.

Definition greedy (work : list Z) (g : assignment) (packets : list Z) : assignment :=
  foldl (assign work) g packets.
End Greedy.
