(* ===== verification/WeightedAssignFacts.v ===== *)
(** * WeightedAssignFacts: the heap and the scan are the greedy assignment

    [LightestFacts]: the scan finds the least loaded partition. [HeapFacts]: sifting
    keeps a binary heap whose root is that partition. [AssignFacts]: both
    assignments are [Greedy.greedy], which fills every partition and balances the
    loads. *)
From stdpp Require Import base numbers list option.
From Stdlib Require Import ZArith Lia.
From S2P Require Import Prelude Checked Scalar Planner BucketSort WeightedAssign.
Import Sat Greedy.

(** [zget] with a default, for arithmetic statements. *)
Definition at_ (l : list Z) (i : Z) : Z := default 0 (zget l i).

Lemma zget_at l i : 0 <= i < zlen l -> zget l i = Some (at_ l i).
Proof. intros H. unfold at_. by destruct (zget_is_Some l i H) as [x ->]. Qed.
Lemma at_insert_eq l i x : 0 <= i < zlen l -> at_ (<[Z.to_nat i := x]> l) i = x.
Proof. intros H. unfold at_. by rewrite zget_insert_eq. Qed.
Lemma at_insert_ne l i j x : 0 <= i -> i <> j -> at_ (<[Z.to_nat i := x]> l) j = at_ l j.
Proof. intros. unfold at_. by rewrite zget_insert_ne. Qed.
Lemma at_Forall (P : Z -> Prop) l i : Forall P l -> 0 <= i < zlen l -> P (at_ l i).
Proof.
  intros Hl Hi. pose proof (zget_at l i Hi) as E. apply zget_Some in E as [_ E].
  by eapply Forall_lookup_1 in Hl.
Qed.

(** Order of the partitions by load, then index. *)
Definition before (loads : list Z) (p q : Z) : Prop :=
  at_ loads p < at_ loads q \/ (at_ loads p = at_ loads q /\ p < q).

Module LightestFacts.
Definition scan_inv (loads : list Z) (i : Z) (s : Z * Z) : Prop :=
  s.1 = at_ loads s.2 /\ 0 <= s.2 < i /\ forall q, 0 <= q < i -> q <> s.2 -> before loads s.2 q.

Lemma scan_next loads i s :
  0 <= i -> scan_inv loads i s ->
  scan_inv loads (i + 1) (let load := at_ loads i in if load <? s.1 then (load, i) else s).
Proof.
  intros Hi (E & Hr & Hb). cbv zeta. destruct (Z.ltb_spec (at_ loads i) s.1) as [Hlt | Hge].
  - split; [done|]. cbn. split; [lia|]. intros q Hq Hne.
    destruct (decide (q = s.2)) as [->|]; [left; lia|].
    destruct (Hb q ltac:(lia) ltac:(done)) as [?|[? ?]]; left; lia.
  - split; [done|]. split; [lia|]. intros q Hq Hne.
    destruct (decide (q = i)) as [->|]; [|apply Hb; [lia | done]].
    unfold before. lia.
Qed.

Lemma scan_first loads : scan_inv loads 1 (at_ loads 0, 0).
Proof. split; [done|]. cbn. split; [lia|]. lia. Qed.

Lemma lightest_spec loads :
  0 < zlen loads ->
  0 <= lightest loads < zlen loads /\
  forall q, 0 <= q < zlen loads -> q <> lightest loads -> before loads (lightest loads) q.
Proof.
  intros Hl. unfold lightest. set (step := fun '(best, p) k => _).
  assert (forall i, 1 <= i <= zlen loads ->
    scan_inv loads i (foldl step (at_ loads 0, 0) (range 1 i))) as H.
  { intros i Hi. replace i with (1 + (i - 1)) by lia. assert (0 <= i - 1) as Hd by lia. revert Hd.
    generalize (i - 1) as d. apply natlike_ind; [apply scan_first|].
    intros d Hd IH. unfold Z.succ. rewrite Z.add_assoc, range_snoc, foldl_app by lia.
    cbn [foldl]. destruct (foldl step _ _) as [best p] eqn:E.
    exact (scan_next loads (1 + d) (best, p) ltac:(lia) IH). }
  destruct (H (zlen loads) ltac:(lia)) as (_ & Hr & Hb). by split.
Qed.

Lemma lightest_unique loads p :
  0 <= p < zlen loads ->
  (forall q, 0 <= q < zlen loads -> q <> p -> before loads p q) -> lightest loads = p.
Proof.
  intros Hp Hb. destruct (lightest_spec loads ltac:(lia)) as [Hr Hq].
  destruct (decide (lightest loads = p)); [done|].
  pose proof (Hb (lightest loads) Hr ltac:(done)). pose proof (Hq p Hp ltac:(done)).
  unfold before in *. lia.
Qed.

(** The scan of [AssignEightPartitions]. *)
Lemma eight_scan loads :
  zlen loads = 8 ->
  exists s, for_each (scan_step loads) (at_ loads 0, 0) (range 1 8) = Some s /\ s.2 = lightest loads.
Proof.
  intros Hl.
  edestruct (for_range_inv (scan_inv loads) (scan_step loads) 1 8 (at_ loads 0, 0))
    as (s & E & _ & Hr & Hb).
  - lia.
  - apply scan_first.
  - intros i s Hi Hinv. exists (let load := at_ loads i in if load <? s.1 then (load, i) else s).
    split; [|apply scan_next; [lia | done]].
    unfold scan_step. destruct s as [m p]. rewrite zget_at by lia. cbn. by destruct (_ <? m).
  - exists s. split; [exact E|]. symmetry. apply lightest_unique; [lia|]. rewrite Hl. exact Hb.
Qed.
End LightestFacts.

Module HeapFacts.
Section heap.
Context (m : Z) (Hm : 0 < m <= 2147483648).

(** A heap is an enumeration of the partitions. *)
Record enumerates (heap : list Z) : Prop := {
  en_len : zlen heap = m;
  en_range : forall i, 0 <= i < m -> 0 <= at_ heap i < m;
  en_inj : forall i j, 0 <= i < m -> 0 <= j < m -> at_ heap i = at_ heap j -> i = j;
  en_onto : forall x, 0 <= x < m -> exists i, 0 <= i < m /\ at_ heap i = x;
}.

Definition child (c p : Z) : Prop := c = 2 * p + 1 \/ c = 2 * p + 2.

(** No child from [k] on is lighter than its parent. *)
Definition heap_from (loads : list Z) (k : Z) (heap : list Z) : Prop :=
  forall p c, k <= p -> child c p -> c < m -> ~ before loads (at_ heap c) (at_ heap p).

Lemma zswap_spec heap i j :
  0 <= i < m -> 0 <= j < m -> i <> j -> enumerates heap ->
  exists heap', zswap heap i j = Some heap' /\ enumerates heap' /\
    at_ heap' i = at_ heap j /\ at_ heap' j = at_ heap i /\
    forall k, k <> i -> k <> j -> at_ heap' k = at_ heap k.
Proof using Hm.
  intros Hi Hj Hij [Hl Hr Hinj Honto]. unfold zswap. rewrite !zget_at by lia. cbn.
  rewrite zset_Some by lia. cbn. rewrite zset_Some by (rewrite zlen_insert; lia).
  eexists. split; [done|]. set (h := <[Z.to_nat j := _]> _).
  assert (at_ h i = at_ heap j) as Ei.
  { unfold h. rewrite at_insert_ne, at_insert_eq by lia. done. }
  assert (at_ h j = at_ heap i) as Ej.
  { unfold h. rewrite at_insert_eq; [done | rewrite zlen_insert; lia]. }
  assert (forall k, k <> i -> k <> j -> at_ h k = at_ heap k) as Ek.
  { intros k Hki Hkj. unfold h. rewrite !at_insert_ne by lia. done. }
  split; [|done]. constructor.
  - unfold h. by rewrite !zlen_insert.
  - intros k Hk. destruct (decide (k = i)) as [->|]; [rewrite Ei; by apply Hr|].
    destruct (decide (k = j)) as [->|]; [rewrite Ej; by apply Hr|]. rewrite Ek by done. by apply Hr.
  - assert (forall k, 0 <= k < m -> exists k', 0 <= k' < m /\ at_ h k = at_ heap k' /\
      (k = i /\ k' = j \/ k = j /\ k' = i \/ k <> i /\ k <> j /\ k' = k)) as Hk.
    { intros k Hk. destruct (decide (k = i)) as [->|]; [exists j; auto with lia|].
      destruct (decide (k = j)) as [->|]; [exists i; auto with lia|]. exists k. auto 6 with lia. }
    intros a b Ha Hb. destruct (Hk a Ha) as (a' & ? & -> & ?), (Hk b Hb) as (b' & ? & -> & ?).
    intros E%Hinj; lia.
  - intros x Hx. destruct (Honto x Hx) as (k & Hk & Ex).
    destruct (decide (k = i)) as [->|]; [exists j; by rewrite Ej|].
    destruct (decide (k = j)) as [->|]; [exists i; by rewrite Ei|].
    exists k. by rewrite Ek.
Qed.

Lemma HeapLess_spec loads p q :
  zlen loads = m -> 0 <= p < m -> 0 <= q < m ->
  exists b, PartitionLoadHeapLess loads p q = Some b /\ (b = true <-> before loads p q).
Proof using Hm.
  intros Hl Hp Hq. unfold PartitionLoadHeapLess. rewrite !zget_at by lia. cbn.
  eexists. split; [done|]. unfold before.
  destruct (Z.eqb_spec (at_ loads p) (at_ loads q)); cbn; rewrite Z.ltb_lt; lia.
Qed.

(** The heap is ordered from [k] on except between [root] and its children. *)
Definition sift_inv (loads : list Z) (k : Z) (st : list Z * Z) : Prop :=
  let '(heap, root) := st in
  enumerates heap /\ k <= root < m /\
  (forall p c, k <= p -> p <> root -> child c p -> c < m -> ~ before loads (at_ heap c) (at_ heap p)) /\
  (forall p c, k <= p -> child root p -> child c root -> c < m ->
     ~ before loads (at_ heap c) (at_ heap p)).

(** Swapping the root with a child that is lighter than it and its sibling. *)
Lemma sift_swap loads k heap root least heap' :
  0 <= k -> sift_inv loads k (heap, root) -> child least root -> least < m ->
  (forall c, child c root -> c < m -> c <> least -> ~ before loads (at_ heap c) (at_ heap least)) ->
  before loads (at_ heap least) (at_ heap root) ->
  enumerates heap' -> at_ heap' root = at_ heap least -> at_ heap' least = at_ heap root ->
  (forall i, i <> root -> i <> least -> at_ heap' i = at_ heap i) ->
  sift_inv loads k (heap', least).
Proof using Hm.
  intros Hk (Hen & Hr & Hord & Hgrand) Hch Hlm Hleast Hless Hen' Er El Eo.
  assert (root < least) as Hlt by (unfold child in Hch; lia).
  split; [done|]. split; [lia|]. split.
  - intros p c Hp Hne Hc Hcm. assert (p < c) by (unfold child in Hc; lia).
    destruct (decide (p = root)) as [->|Hpr].
    + rewrite Er. destruct (decide (c = least)) as [->|Hcl].
      * rewrite El. unfold before in *. lia.
      * rewrite Eo by lia. by apply Hleast.
    + rewrite (Eo p) by lia. destruct (decide (c = root)) as [->|Hcr].
      * rewrite Er. by apply (Hgrand p least).
      * destruct (decide (c = least)) as [->|Hcl]; [unfold child in *; lia|].
        rewrite (Eo c) by lia. by apply Hord.
  - intros p c Hp Hlp Hcl Hcm. assert (p = root) as -> by (unfold child in *; lia).
    assert (least < c) by (unfold child in *; lia).
    rewrite Er, Eo by lia. apply Hord; [lia | lia | done | done].
Qed.

Lemma SiftDown_spec loads k heap root :
  zlen loads = m -> 0 <= k -> sift_inv loads k (heap, root) ->
  exists heap', SiftDownPartitionLoadHeap heap loads m root = Some heap' /\
    enumerates heap' /\ heap_from loads k heap'.
Proof using Hm.
  intros Hl Hk Hinv. unfold SiftDownPartitionLoadHeap.
  match goal with |- context [while_loop sift_fuel _ ?b _] => set (body := b) end.
  destruct (while_loop_safe (R := list Z) (fun st => sift_inv loads k st)
    (fun h => enumerates h /\ heap_from loads k h) (fun st => 32 - Z.log2 (st.2 + 1))
    (fun _ => true) body sift_fuel (heap, root) Hinv) as [(h & E & Hh) | (st & _ & _ & ?)].
  - intros [h r] Hi _. pose proof Hi as (Hen & Hr & Hord & Hgrand). unfold body. cbv beta iota.
    pose proof (en_len h Hen) as Hlen.
    rewrite (wrap32_small (r * 2)), (wrap32_small (r * 2 + 1)) by (unfold is_u32; lia).
    destruct (r * 2 + 1 >=? m) eqn:Eleft; to_prop.
    + left. exists h. split; [done|]. split; [done|]. intros p c Hp Hc Hcm.
      destruct (decide (p = r)) as [->|]; [unfold child in Hc; lia | by apply Hord].
    + rewrite (wrap32_small (r * 2 + 1 + 1)) by (unfold is_u32; lia).
      set (left := r * 2 + 1) in *. rewrite (zget_at h left) by lia. cbn [mbind option_bind].
      assert (exists least,
        (if left + 1 <? m then r0 ← zget h (left + 1);
           less ← PartitionLoadHeapLess loads r0 (at_ h left);
           Some (if (less : bool) then left + 1 else left) else Some left) = Some least /\
        child least r /\ least < m /\
        forall c, child c r -> c < m -> c <> least -> ~ before loads (at_ h c) (at_ h least))
        as (least & -> & Hch & Hlm & Hleast).
      { destruct (left + 1 <? m) eqn:Eright; to_prop.
        - rewrite zget_at by lia. cbn [mbind option_bind].
          destruct (HeapLess_spec loads (at_ h (left + 1)) (at_ h left) Hl) as (b & -> & Hb);
            [apply (en_range h Hen); lia .. |]. cbn. exists (if b then left + 1 else left).
          split; [done|]. destruct b.
          + split; [unfold child; lia|]. split; [lia|]. intros c Hc _ Hne.
            assert (c = left) as -> by (unfold child in Hc; lia).
            assert (before loads (at_ h (left + 1)) (at_ h left)) by (by apply Hb). unfold before in *. lia.
          + split; [unfold child; lia|]. split; [lia|]. intros c Hc _ Hne.
            assert (c = left + 1) as -> by (unfold child in Hc; lia).
            intros Hbf. apply Hb in Hbf. done.
        - exists left. split; [done|]. split; [unfold child; lia|]. split; [lia|].
          intros c Hc Hcm Hne. unfold child in Hc. lia. }
      cbn [mbind option_bind].
      assert (r < least) as Hrl by (unfold child in Hch; lia).
      rewrite (zget_at h least), (zget_at h r) by lia. cbn [mbind option_bind].
      destruct (HeapLess_spec loads (at_ h least) (at_ h r) Hl) as (b & -> & Hb);
        [apply (en_range h Hen); lia .. |]. cbn [mbind option_bind]. destruct b; cbn [negb].
      * right. destruct (zswap_spec h r least ltac:(lia) ltac:(lia) ltac:(lia) Hen)
          as (h' & -> & Hen' & Er & El & Eo). cbn [mbind option_bind].
        exists (h', least). split; [done|]. split.
        { eapply sift_swap; try done. by apply Hb. }
        cbn. split.
        { assert (Z.log2 (least + 1) <= Z.log2 2147483648) by (apply Z.log2_le_mono; lia).
          change (Z.log2 2147483648) with 31 in *. lia. }
        assert (Z.log2 (2 * (r + 1)) <= Z.log2 (least + 1)) by (apply Z.log2_le_mono; unfold child in Hch; lia).
        pose proof (Z.log2_double (r + 1) ltac:(lia)). lia.
      * left. exists h. split; [done|]. split; [done|]. intros p c Hp Hc Hcm.
        destruct (decide (p = r)) as [->|]; [|by apply Hord].
        assert (~ before loads (at_ h least) (at_ h r)) by (intros ?%Hb; done).
        destruct (decide (c = least)) as [->|Hne]; [done|]. pose proof (Hleast c Hc Hcm Hne).
        unfold before in *. lia.
  - cbn [snd]. change (Z.of_nat sift_fuel) with 33. pose proof (Z.log2_nonneg (root + 1)). destruct Hinv as (_ & Hr & _).
    assert (Z.log2 (root + 1) <= Z.log2 2147483648) by (apply Z.log2_le_mono; lia).
    change (Z.log2 2147483648) with 31 in *. lia.
  - rewrite E. cbn. by exists h.
  - done.
Qed.

(** The root is the least loaded partition. *)
Lemma heap_root loads heap :
  zlen loads = m -> enumerates heap -> heap_from loads 0 heap -> at_ heap 0 = lightest loads.
Proof using Hm.
  intros Hl Hen Hh.
  assert (forall i, 0 <= i -> (0 <= i -> i < m -> ~ before loads (at_ heap i) (at_ heap 0))) as Hroot.
  { apply (Z_lt_induction (fun i => 0 <= i -> i < m -> ~ before loads (at_ heap i) (at_ heap 0))).
    intros i IH Hi Him.
    destruct (decide (i = 0)) as [->|]; [unfold before; lia|].
    set (p := (i - 1) / 2).
      assert (0 <= p < i /\ child i p) as [Hp Hc].
      { unfold p, child. pose proof (Z.div_mod (i - 1) 2 ltac:(lia)).
        pose proof (Z.mod_pos_bound (i - 1) 2 ltac:(lia)). lia. }
      pose proof (Hh p i ltac:(lia) Hc Him). pose proof (IH p Hp ltac:(lia) ltac:(lia)).
      unfold before in *. lia. }
  symmetry. apply LightestFacts.lightest_unique.
  - rewrite Hl. apply (en_range heap Hen). lia.
  - intros q Hq Hne. rewrite Hl in Hq. destruct (en_onto heap Hen q Hq) as (i & Hi & <-).
    pose proof (Hroot i ltac:(lia) ltac:(lia) ltac:(lia)). unfold before in *.
    assert (at_ heap i <> at_ heap 0) by done. lia.
Qed.

Lemma Initialize_spec loads heap :
  zlen loads = m -> zlen heap = m ->
  exists heap', InitializePartitionLoadHeap heap loads = Some heap' /\
    enumerates heap' /\ heap_from loads 0 heap'.
Proof using Hm.
  intros Hl Hh. unfold InitializePartitionLoadHeap. rewrite Hh, wrap32_small by (unfold is_u32; lia).
  edestruct (for_range_inv (fun i h => zlen h = m /\ forall j, 0 <= j < i -> at_ h j = j)
    (fun heap partition => zset heap partition partition) 0 m heap) as (h0 & -> & Hl0 & Hid).
  - lia.
  - split; [done | lia].
  - intros i h Hi [Hlh Hj]. rewrite zset_Some by lia. eexists. split; [done|].
    split; [by rewrite zlen_insert|]. intros j Hjj. destruct (decide (j = i)) as [->|].
    + apply at_insert_eq. lia.
    + rewrite at_insert_ne by lia. apply Hj. lia.
  - cbn.
    assert (enumerates h0) as Hen0.
    { constructor; [done | | |].
      - intros i Hi. by rewrite Hid.
      - intros i j Hi Hj. by rewrite !Hid.
      - intros x Hx. exists x. by rewrite Hid. }
    set (half := m / 2).
    assert (2 * half <= m < 2 * half + 2) as Hhalf.
    { unfold half. pose proof (Z.div_mod m 2 ltac:(lia)). pose proof (Z.mod_pos_bound m 2 ltac:(lia)). lia. }
    assert (forall i h, 0 <= i <= half -> enumerates h -> heap_from loads i h ->
      exists h', for_each (fun heap parent => SiftDownPartitionLoadHeap heap loads m (parent - 1)) h
        (rev (range 1 (i + 1))) = Some h' /\ enumerates h' /\ heap_from loads 0 h') as G.
    { intros i h Hi. revert h. destruct Hi as [Hi0 Hi]. revert Hi. pattern i. revert i Hi0.
      apply natlike_ind.
      - intros _ h Hen Hf. by exists h.
      - intros i Hi0 IH Hi h Hen Hf. unfold Z.succ in *.
        rewrite (range_snoc 1 (i + 1)) by lia. rewrite rev_app_distr. cbn [rev app for_each].
        replace (i + 1 - 1) with i by lia.
        destruct (SiftDown_spec loads i h i Hl Hi0) as (h' & -> & Hen' & Hf').
        + split; [done|]. split; [lia|]. split.
          * intros p c Hp Hne. apply Hf. lia.
          * intros p c Hp Hc. unfold child in Hc. lia.
        + cbn. apply IH; [lia | done | done]. }
    apply G; [lia | done |]. intros p c Hp Hc Hcm. unfold child in Hc. lia.
Qed.

(** Loading the root's partition leaves the heap ordered except at the root. *)
Lemma heap_loaded loads heap load :
  zlen loads = m -> enumerates heap -> heap_from loads 0 heap ->
  sift_inv (<[Z.to_nat (at_ heap 0) := load]> loads) 0 (heap, 0).
Proof using Hm.
  intros Hl Hen Hf. pose proof (en_range heap Hen 0 ltac:(lia)) as H0.
  split; [done|]. split; [lia|]. split.
  - intros p c Hp Hne Hc Hcm. assert (p < c) by (unfold child in Hc; lia).
    pose proof (Hf p c Hp Hc Hcm) as Hb. unfold before in *.
    assert (at_ heap p <> at_ heap 0) by (intros ?%(en_inj heap Hen); lia).
    assert (at_ heap c <> at_ heap 0) by (intros ?%(en_inj heap Hen); lia).
    rewrite !at_insert_ne by lia. done.
  - intros p c Hp Hc. unfold child in Hc. lia.
Qed.
End heap.
End HeapFacts.

Module AssignFacts.
Import LightestFacts HeapFacts.
Section assign.
Context (work packets : list Z) (n m : Z).
Context (Hm : 0 < m <= 2147483648) (Hn : zlen packets <= U32_MAX).
Context (Hwork : zlen work = n) (Hpos : Forall (fun w => 1 <= w <= U64_MAX) work).
Context (Hpk : Forall (fun p => 0 <= p < n) packets).

Definition start (indices : list Z) : assignment := {|
  g_partition_of := indices;
  g_loads := replicate (Z.to_nat m) 0;
  g_counts := replicate (Z.to_nat m) 0 |}.

Record shaped (d : list Z) (g : assignment) : Prop := {
  sh_of : zlen (g_partition_of g) = n;
  sh_loads : zlen (g_loads g) = m;
  sh_counts : zlen (g_counts g) = m;
  sh_load : forall p, 0 <= p < m -> is_u64 (at_ (g_loads g) p);
  sh_count : forall p, 0 <= p < m -> 0 <= at_ (g_counts g) p <= zlen d;
}.

Lemma at_replicate k i : at_ (replicate k 0) i = 0.
Proof using.
  unfold at_, zget. destruct (0 <=? i); [|done]. destruct (replicate k 0 !! Z.to_nat i) eqn:E; [|done].
  apply lookup_replicate in E as [-> _]. done.
Qed.

Lemma shaped_start indices : zlen indices = n -> shaped [] (start indices).
Proof using Hm.
  intros H. pose proof (zlen_nonneg (@nil Z)). constructor; cbn; rewrite ?zlen_replicate; try lia; intros; rewrite at_replicate; unfold is_u64; lia.
Qed.

Lemma work_at p : 0 <= p < n -> 1 <= at_ work p <= U64_MAX.
Proof using Hwork Hpos. intros Hp. apply (at_Forall _ work p Hpos). lia. Qed.

Lemma greedy_snoc g d x : greedy work g (d ++ [x]) = assign work (greedy work g d) x.
Proof using. unfold greedy. by rewrite foldl_app. Qed.

Lemma assign_loads g packet p :
  zlen (g_loads g) = m -> 0 <= p < m ->
  at_ (g_loads (assign work g packet)) p =
    if decide (p = lightest (g_loads g)) then ScalarSatAdd (at_ (g_loads g) p) (at_ work packet)
    else at_ (g_loads g) p.
Proof using Hm.
  intros Hl Hp. cbn. destruct (lightest_spec (g_loads g) ltac:(lia)) as [Hr _].
  case_decide as E; [rewrite E, at_insert_eq by lia; done | by rewrite at_insert_ne by lia].
Qed.
Lemma assign_counts g packet p :
  zlen (g_loads g) = m -> zlen (g_counts g) = m -> 0 <= p < m ->
  at_ (g_counts (assign work g packet)) p =
    if decide (p = lightest (g_loads g)) then at_ (g_counts g) p + 1 else at_ (g_counts g) p.
Proof using Hm.
  intros Hl Hc Hp. cbn. destruct (lightest_spec (g_loads g) ltac:(lia)) as [Hr _].
  case_decide as E; [rewrite E, at_insert_eq by lia; done | by rewrite at_insert_ne by lia].
Qed.

Lemma shaped_assign d g x : 0 <= x < n -> shaped d g -> shaped (d ++ [x]) (assign work g x).
Proof using Hm Hwork Hpos.
  intros Hx [H1 H2 H3 H4 H5]. pose proof (work_at x Hx).
  constructor; [cbn; by rewrite zlen_insert .. | |].
  - intros p Hp. rewrite assign_loads by done. pose proof (H4 p Hp).
    case_decide; [|done]. apply ScalarSatAdd_range; [done | unfold is_u64; lia].
  - intros p Hp. rewrite assign_counts, zlen_app by done. change (zlen [x]) with 1. pose proof (H5 p Hp).
    case_decide; lia.
Qed.

(** A state of the program holds the greedy assignment of the packets seen so far. *)
Definition holds (g : assignment) (st : AssignState) : Prop :=
  packet_partitions st = g_partition_of g /\ partition_loads st = g_loads g /\
  partition_counts st = g_counts g.

Lemma place_packet_spec d g st x :
  shaped d g -> holds g st -> 0 <= x < n -> zlen d < zlen packets ->
  place_packet work st x (lightest (g_loads g)) =
    Some {| packet_partitions := g_partition_of (assign work g x);
            partition_loads := g_loads (assign work g x);
            partition_counts := g_counts (assign work g x);
            partition_write_offsets := partition_write_offsets st |}.
Proof using Hm Hn Hwork.
  intros [H1 H2 H3 H4 H5] (E1 & E2 & E3) Hx Hd. unfold place_packet. rewrite E1, E2, E3.
  destruct (lightest_spec (g_loads g) ltac:(lia)) as [Hr _]. pose proof (H5 (lightest (g_loads g)) ltac:(lia)).
  rewrite zset_Some by lia. cbn [mbind option_bind].
  rewrite (zget_at (g_counts g)), (zget_at work), (zget_at (g_loads g)) by lia. cbn [mbind option_bind].
  do 2 (rewrite zset_Some by lia; cbn [mbind option_bind]).
  rewrite wrap32_small by (unfold is_u32; lia). done.
Qed.

Lemma packet_bounds d x rest : packets = d ++ x :: rest -> 0 <= x < n /\ zlen d < zlen packets.
Proof using Hpk.
  intros E. rewrite E in Hpk. apply Forall_app in Hpk as [_ Hx]. apply Forall_inv in Hx.
  rewrite E. split; [done|].
  rewrite zlen_app, zlen_cons. pose proof (zlen_nonneg rest). lia.
Qed.

(** The heap computes the greedy assignment. *)
Lemma AssignHeap_greedy indices heap :
  zlen indices = n -> zlen heap = m ->
  exists st', AssignWeightedPacketPartitionsHeap
      {| packet_partitions := indices; partition_loads := replicate (Z.to_nat m) 0;
         partition_counts := replicate (Z.to_nat m) 0; partition_write_offsets := heap |}
      packets work = Some st' /\
    holds (greedy work (start indices) packets) st' /\ zlen (partition_write_offsets st') = m.
Proof using All.
  intros Hi Hh. unfold AssignWeightedPacketPartitionsHeap. cbn [partition_write_offsets partition_loads].
  destruct (Initialize_spec m Hm (replicate (Z.to_nat m) 0) heap) as (h0 & -> & Hen0 & Hf0);
    [rewrite zlen_replicate; lia | done |].
  cbn [mbind option_bind]. rewrite (en_len m h0 Hen0), (wrap32_small m) by (unfold is_u32; lia).
  match goal with |- context [for_each ?b _ _] => set (body := b) end.
  destruct (for_each_inv (fun d st => let g := greedy work (start indices) d in
      shaped d g /\ holds g st /\ enumerates m (partition_write_offsets st) /\
      heap_from m (partition_loads st) 0 (partition_write_offsets st)) body packets
    (with_heap {| packet_partitions := indices; partition_loads := replicate (Z.to_nat m) 0;
         partition_counts := replicate (Z.to_nat m) 0; partition_write_offsets := heap |} h0))
    as (st & E & Hsh & Hst & Hen & _).
  - cbv zeta. split; [by apply shaped_start|]. by split.
  - intros d x rest st Ed (Hsh & Hst & Hen & Hf). cbv zeta. rewrite greedy_snoc.
    set (g := greedy work (start indices) d) in *.
    destruct (packet_bounds d x rest Ed) as [Hx Hd]. pose proof Hst as (E1 & E2 & E3).
    pose proof (sh_loads d g Hsh) as Hll.
    assert (at_ (partition_write_offsets st) 0 = lightest (g_loads g)) as Eroot.
    { rewrite <- E2. apply (heap_root m Hm); [by rewrite E2 | done | done]. }
    unfold body. rewrite (zget_at (partition_write_offsets st) 0) by (rewrite (en_len m _ Hen); lia).
    cbn [mbind option_bind]. rewrite Eroot, (place_packet_spec d) by done. cbn [mbind option_bind].
    cbn [partition_write_offsets partition_loads].
    destruct (SiftDown_spec m Hm (g_loads (assign work g x)) 0 (partition_write_offsets st) 0)
      as (h' & -> & Hen' & Hf').
    { cbn. by rewrite zlen_insert. }
    { done. }
    { cbn [assign g_loads]. rewrite <- Eroot, <- E2. apply heap_loaded; [done | by rewrite E2 | done | done]. }
    cbn [mbind option_bind]. eexists. split; [done|]. split; [by apply shaped_assign|]. by split.
  - exists st. split; [exact E|]. split; [done|]. apply Hen.
Qed.

(** So does the scan over eight partitions. *)
Lemma AssignEight_greedy indices heap :
  m = 8 -> zlen indices = n ->
  exists st', AssignEightPartitions
      {| packet_partitions := indices; partition_loads := replicate (Z.to_nat m) 0;
         partition_counts := replicate (Z.to_nat m) 0; partition_write_offsets := heap |}
      packets work = Some st' /\
    holds (greedy work (start indices) packets) st' /\ partition_write_offsets st' = heap.
Proof using All.
  intros Hm8 Hi. unfold AssignEightPartitions. cbn [packet_partitions partition_loads partition_counts].
  match goal with |- context [for_each ?b (indices, _, _) _] => set (body := b) end.
  destruct (for_each_inv (fun d (st : list Z * list Z * list Z) => let g := greedy work (start indices) d in
      shaped d g /\ st = (g_partition_of g, g_loads g, g_counts g)) body packets
    (indices, replicate 8 0, replicate 8 0)) as (st & -> & Hsh & ->).
  - cbv zeta. split; [by apply shaped_start|]. unfold greedy, start. cbn. by rewrite Hm8.
  - intros d x rest st Ed (Hsh & ->). cbv zeta. rewrite greedy_snoc.
    set (g := greedy work (start indices) d) in *.
    destruct (packet_bounds d x rest Ed) as [Hx Hd].
    pose proof (shaped_assign d g x Hx Hsh) as Hsh'. pose proof Hsh as [H1 H2 H3 H4 H5].
    unfold body. rewrite (zget_at (g_loads g) 0) by lia. cbn [mbind option_bind].
    destruct (eight_scan (g_loads g) ltac:(lia)) as (s & -> & Es). cbn [mbind option_bind]. rewrite Es.
    destruct (lightest_spec (g_loads g) ltac:(lia)) as [Hr _]. pose proof (H5 (lightest (g_loads g)) ltac:(lia)).
    rewrite zset_Some by lia. cbn [mbind option_bind].
    rewrite (zget_at (g_counts g)), (zget_at work), (zget_at (g_loads g)) by lia. cbn [mbind option_bind].
    do 2 (rewrite zset_Some by lia; cbn [mbind option_bind]).
    rewrite wrap32_small by (unfold is_u32; lia). eexists. split; [done|]. by split.
  - cbn [mbind option_bind]. pose proof Hsh as [H1 H2 H3 H4 H5].
    set (g := greedy work (start indices) packets) in *.
    match goal with |- context [for_each ?b (replicate _ _, _) _] => set (copy := b) end.
    destruct (for_range_inv (fun i (st : list Z * list Z) =>
        st = (take (Z.to_nat i) (g_loads g) ++ drop (Z.to_nat i) (replicate (Z.to_nat m) 0),
              take (Z.to_nat i) (g_counts g) ++ drop (Z.to_nat i) (replicate (Z.to_nat m) 0)))
        copy 0 8 (replicate (Z.to_nat m) 0, replicate (Z.to_nat m) 0)) as (out & -> & ->).
    + lia.
    + done.
    + intros i st Hi' ->. unfold copy.
      assert (forall l, zlen l = m ->
        zset (take (Z.to_nat i) l ++ drop (Z.to_nat i) (replicate (Z.to_nat m) 0)) i (at_ l i) =
        Some (take (Z.to_nat (i + 1)) l ++ drop (Z.to_nat (i + 1)) (replicate (Z.to_nat m) 0))) as Hset.
      { intros l Hl. rewrite !drop_replicate.
        replace (Z.to_nat m - Z.to_nat i)%nat with (S (Z.to_nat m - Z.to_nat (i + 1))) by lia.
        cbn [replicate]. rewrite zset_app_mid by (unfold zlen in *; rewrite length_take; lia).
        rewrite (take_S_Z l i (at_ l i)) by (try apply zget_at; lia). by rewrite <- app_assoc. }
      rewrite (zget_at (g_loads g)) by lia. cbn [mbind option_bind]. rewrite Hset by done. cbn [mbind option_bind].
      rewrite (zget_at (g_counts g)) by lia. cbn [mbind option_bind]. rewrite Hset by done. cbn [mbind option_bind].
      by eexists.
    + cbn [mbind option_bind fst snd]. eexists. split; [done|].
      rewrite !take_ge, !drop_ge, !app_nil_r by (rewrite ?length_replicate; unfold zlen in *; lia).
      by split.
Qed.

(** [AssignWeightedPacketPartitions] after the order is the greedy assignment. *)
Lemma AssignOrderedPackets_eq st :
  zlen (packet_partitions st) = n -> zlen (partition_loads st) = m ->
  zlen (partition_counts st) = m -> zlen (partition_write_offsets st) = m ->
  exists st', AssignOrderedPackets st packets work = Some st' /\
    holds (greedy work (start (packet_partitions st)) packets) st' /\
    zlen (partition_write_offsets st') = m.
Proof using All.
  intros H1 H2 H3 H4. unfold AssignOrderedPackets.
  replace (length (partition_loads st)) with (Z.to_nat m) by (unfold zlen in *; lia).
  replace (length (partition_counts st)) with (Z.to_nat m) by (unfold zlen in *; lia).
  cbn [partition_loads]. rewrite zlen_replicate, wrap32_small by (unfold is_u32; lia).
  replace (Z.of_nat (Z.to_nat m)) with m by lia. rewrite (proj2 (Z.eqb_neq m 0)) by lia.
  destruct (Z.eqb_spec m 8) as [E|].
  - destruct (AssignEight_greedy (packet_partitions st) (partition_write_offsets st) E H1)
      as (st' & -> & Hst & Hh). exists st'. split; [done|]. split; [done|]. by rewrite Hh.
  - by apply AssignHeap_greedy.
Qed.

(** ** What the greedy assignment guarantees *)
Lemma greedy_inv (P : list Z -> assignment -> Prop) indices :
  zlen indices = n -> P [] (start indices) ->
  (forall d x rest, packets = d ++ x :: rest -> 0 <= x < n ->
     let g := greedy work (start indices) d in
     shaped d g -> P d g -> P (d ++ [x]) (assign work g x)) ->
  shaped packets (greedy work (start indices) packets) /\ P packets (greedy work (start indices) packets).
Proof using All.
  intros Hi H0 Hstep.
  destruct (for_each_inv (fun d (_ : unit) => let g := greedy work (start indices) d in shaped d g /\ P d g)
    (fun _ _ => Some tt) packets tt) as ([] & _ & H).
  - split; [by apply shaped_start | done].
  - intros d x rest [] E [Hsh HP]. exists tt. split; [done|]. cbv zeta. rewrite greedy_snoc.
    destruct (packet_bounds d x rest E) as [Hx _]. split; [by apply shaped_assign | by eapply Hstep].
  - exact H.
Qed.

(** The partitions are filled in order before any gets a second packet. *)
Lemma greedy_fills indices :
  zlen indices = n -> m <= zlen packets ->
  forall p, 0 <= p < m -> 1 <= at_ (g_counts (greedy work (start indices) packets)) p.
Proof using All.
  intros Hi Hle.
  destruct (greedy_inv (fun d g => forall p, 0 <= p < m ->
      (p < zlen d -> 1 <= at_ (g_loads g) p /\ 1 <= at_ (g_counts g) p) /\
      (zlen d <= p -> at_ (g_loads g) p = 0 /\ at_ (g_counts g) p = 0)) indices Hi) as [_ H].
  - intros p Hp. cbn. rewrite !at_replicate. change (zlen (@nil Z)) with 0. lia.
  - intros d x rest _ Hx g Hsh HP p Hp. pose proof Hsh as [H1 H2 H3 H4 H5]. pose proof (work_at x Hx).
    rewrite assign_loads, assign_counts, zlen_app by done. change (zlen [x]) with 1.
    destruct (lightest_spec (g_loads g) ltac:(lia)) as [Hr Hb]. set (b := lightest (g_loads g)) in *.
    assert (zlen d < m -> b = zlen d) as Hbd.
    { intros Hd. destruct (decide (b = zlen d)) as [|Hne]; [done|].
      pose proof (Hb (zlen d) ltac:(pose proof (zlen_nonneg d); lia) ltac:(lia)) as Hbf.
      pose proof (HP (zlen d) ltac:(pose proof (zlen_nonneg d); lia)) as [_ [Hz _]]; [lia|].
      pose proof (HP b ltac:(lia)) as [Hb1 Hb2]. unfold before in Hbf. lia. }
    pose proof (HP p Hp) as [HP1 HP2]. pose proof (H4 p Hp). unfold is_u64 in *.
    rewrite ScalarSatAdd_spec by (unfold is_u64; lia).
    case_decide as E; lia.
  - intros p Hp. apply H; lia.
Qed.

(** Greedy balance: no load exceeds another by more than one packet's work. *)
Lemma greedy_balanced indices most :
  zlen indices = n -> Forall (fun w => w <= most) work ->
  forall p q, 0 <= p < m -> 0 <= q < m ->
    at_ (g_loads (greedy work (start indices) packets)) p <=
    at_ (g_loads (greedy work (start indices) packets)) q + Z.max 0 most.
Proof using All.
  intros Hi Hmost.
  destruct (greedy_inv (fun _ g => forall p q, 0 <= p < m -> 0 <= q < m ->
      at_ (g_loads g) p <= at_ (g_loads g) q + Z.max 0 most) indices Hi) as [_ H].
  - intros p q _ _. cbn. rewrite !at_replicate. lia.
  - intros d x rest _ Hx g Hsh HP p q Hp Hq. pose proof Hsh as [H1 H2 H3 H4 H5]. pose proof (work_at x Hx).
    assert (at_ work x <= most) as Hw by (apply (at_Forall (fun w => w <= most)); [done | lia]).
    rewrite !assign_loads by done.
    destruct (lightest_spec (g_loads g) ltac:(lia)) as [Hr Hb]. set (b := lightest (g_loads g)) in *.
    pose proof (HP p q Hp Hq). pose proof (H4 p Hp). pose proof (H4 q Hq). unfold is_u64 in *.
    rewrite !ScalarSatAdd_spec by (unfold is_u64; lia).
    case_decide as Ep; case_decide as Eq; try lia.
    pose proof (Hb q ltac:(lia) ltac:(done)) as Hbf. unfold before in Hbf. subst p. lia.
  - done.
Qed.

(** Each packet is in one partition, and the counts are the partitions' sizes. *)
Lemma greedy_counts indices :
  zlen indices = n -> NoDup packets ->
  let g := greedy work (start indices) packets in
  Forall (fun x => 0 <= at_ (g_partition_of g) x < m) packets /\
  forall p, 0 <= p < m ->
    at_ (g_counts g) p = zlen (bucket_list (at_ (g_partition_of g)) packets p).
Proof using All.
  intros Hi Hnd g.
  destruct (greedy_inv (fun d g => Forall (fun x => 0 <= at_ (g_partition_of g) x < m) d /\
      forall p, 0 <= p < m -> at_ (g_counts g) p = zlen (bucket_list (at_ (g_partition_of g)) d p))
      indices Hi) as [_ H].
  - split; [constructor|]. intros p Hp. cbn. by rewrite at_replicate.
  - intros d x rest Ed Hx g1 Hsh [HF HP]. pose proof Hsh as [H1 H2 H3 H4 H5].
    destruct (lightest_spec (g_loads g1) ltac:(lia)) as [Hr _].
    assert (forall y, y ∈ d -> at_ (g_partition_of (assign work g1 x)) y = at_ (g_partition_of g1) y) as Hold.
    { intros y Hy. cbn. apply at_insert_ne; [lia|]. intros <-. rewrite Ed in Hnd.
      apply list.NoDup_app in Hnd as (_ & Hnd & _). apply (Hnd x Hy). by left. }
    assert (at_ (g_partition_of (assign work g1 x)) x = lightest (g_loads g1)) as Hnew.
    { cbn. apply at_insert_eq. lia. }
    split.
    + apply Forall_app. split; [|constructor; [rewrite Hnew; lia | constructor]].
      rewrite list.Forall_forall in HF |- *. intros y Hy. rewrite Hold by done. by apply HF.
    + intros p Hp. rewrite assign_counts, bucket_list_snoc, zlen_app, Hnew by done.
      assert (bucket_list (at_ (g_partition_of (assign work g1 x))) d p =
              bucket_list (at_ (g_partition_of g1)) d p) as ->.
      { by apply bucket_list_ext. }
      rewrite <- HP by done. repeat case_decide; try congruence.
      * change (zlen [x]) with 1. lia.
      * change (zlen (@nil Z)) with 0. lia.
  - exact H.
Qed.

(** The load of a partition is the saturated work of its packets. *)
Lemma greedy_loads indices :
  zlen indices = n -> NoDup packets ->
  let g := greedy work (start indices) packets in
  forall p, 0 <= p < m ->
    at_ (g_loads g) p =
    Z.min U64_MAX (foldr Z.add 0 (map (at_ work) (bucket_list (at_ (g_partition_of g)) packets p))).
Proof using All.
  intros Hi Hnd g.
  destruct (greedy_inv (fun d g => forall p, 0 <= p < m ->
      at_ (g_loads g) p =
      Z.min U64_MAX (foldr Z.add 0 (map (at_ work) (bucket_list (at_ (g_partition_of g)) d p))))
      indices Hi) as [_ H].
  - intros p Hp. cbn. by rewrite at_replicate.
  - intros d x rest Ed Hx g1 Hsh HP p Hp. pose proof Hsh as [H1 H2 H3 H4 H5]. pose proof (work_at x Hx).
    rewrite assign_loads, bucket_list_snoc, map_app by done.
    assert (bucket_list (at_ (g_partition_of (assign work g1 x))) d p =
            bucket_list (at_ (g_partition_of g1)) d p) as ->.
    { apply bucket_list_ext. intros y Hy. cbn. apply at_insert_ne; [lia|]. intros <-. rewrite Ed in Hnd.
      apply list.NoDup_app in Hnd as (_ & Hnd & _). apply (Hnd x Hy). by left. }
    assert (at_ (g_partition_of (assign work g1 x)) x = lightest (g_loads g1)) as ->.
    { cbn. apply at_insert_eq. lia. }
    pose proof (HP p Hp) as E. pose proof (H4 p Hp) as Hu. unfold is_u64 in Hu.
    repeat case_decide; try congruence; cbn [map]; rewrite ?app_nil_r, ?foldr_add_snoc; [|done].
    rewrite ScalarSatAdd_spec by (unfold is_u64; lia). lia.
  - exact H.
Qed.

End assign.
End AssignFacts.

(** C14: Whether the heap or the eight-way scan runs, the assignment returns and is
    the greedy one; every partition gets a packet when there are enough, and no load
    exceeds another by more than one packet's work. *)
Theorem AssignOrderedPackets_greedy work packets n m st :
  0 < m <= 2147483648 -> zlen packets <= U32_MAX -> m <= zlen packets ->
  zlen work = n -> Forall (fun w => 1 <= w <= U64_MAX) work ->
  Forall (fun p => 0 <= p < n) packets ->
  zlen (packet_partitions st) = n -> zlen (partition_loads st) = m ->
  zlen (partition_counts st) = m -> zlen (partition_write_offsets st) = m ->
  exists st', AssignOrderedPackets st packets work = Some st' /\
    AssignFacts.holds (greedy work (AssignFacts.start m (packet_partitions st)) packets) st' /\
    (forall p, 0 <= p < m -> 1 <= at_ (partition_counts st') p) /\
    (forall most p q, Forall (fun w => w <= most) work -> 0 <= p < m -> 0 <= q < m ->
       at_ (partition_loads st') p <= at_ (partition_loads st') q + Z.max 0 most).
Proof.
  intros Hm Hn Hmn Hw Hpos Hpk H1 H2 H3 H4.
  destruct (AssignFacts.AssignOrderedPackets_eq work packets n m Hm Hn Hw Hpos Hpk st H1 H2 H3 H4)
    as (st' & E & Hh & _).
  exists st'. split; [done|]. split; [done|]. destruct Hh as (_ & El & Ec). rewrite El, Ec. split.
  - by apply (AssignFacts.greedy_fills work packets n m Hm Hn Hw Hpos Hpk).
  - intros most p q Hmost. by apply (AssignFacts.greedy_balanced work packets n m Hm Hn Hw Hpos Hpk).
Qed.

Definition example_assign_state : AssignState := {|
  packet_partitions := [0; 0; 0; 0; 0]; partition_loads := [5; 5];
  partition_counts := [1; 1]; partition_write_offsets := [0; 0] |}.

Lemma AssignOrderedPackets_greedy_witness :
  exists st', AssignOrderedPackets example_assign_state [4; 1; 3; 2; 0] [1; 5; 9; 5; 6] = Some st' /\
    AssignFacts.holds
      (greedy [1; 5; 9; 5; 6] (AssignFacts.start 2 (packet_partitions example_assign_state))
         [4; 1; 3; 2; 0]) st' /\
    (forall p, 0 <= p < 2 -> 1 <= at_ (partition_counts st') p) /\
    (forall most p q, Forall (fun w => w <= most) [1; 5; 9; 5; 6] -> 0 <= p < 2 -> 0 <= q < 2 ->
       at_ (partition_loads st') p <= at_ (partition_loads st') q + Z.max 0 most).
Proof.
  apply (AssignOrderedPackets_greedy [1; 5; 9; 5; 6] [4; 1; 3; 2; 0] 5 2 example_assign_state);
    try done; try (rewrite !list.Forall_cons; split_and!; try lia; constructor).
Defined.
