(* ===== verification/FoldModel.v ===== *)
(** * FoldModel: the vocabulary of the fold layer

    The enumerations of [kernel/reduction/fold/operation.hpp] and
    [kernel/reduction/fold/strict.hpp], with decidable equality, and the strict
    floating-point policies of [reduction/strict/policy.cpp]. *)
From stdpp Require Import base numbers list option strings.
From Stdlib Require Import ZArith Lia.
From S2P Require Import Prelude.

Inductive FoldOperation :=
| Xor | Max | Min | SaturatingAdd | FixedBinaryTreeHash | StrictFloat32Add | StrictFloat64Add.

Inductive FoldValueDomain :=
| DomBitwiseInteger | DomUnsignedInteger | DomHashDigest | DomFloat32Strict | DomFloat64Strict
| DomUnsupported.

Inductive FoldPaddingLaw := PadNone | PadIdentity | PadFixedHashOdd | PadUnsignedMax.

Inductive FoldOverflowLaw :=
| OvfNone | OvfBitwiseInteger | OvfUnsignedCompare | OvfSaturatingUnsignedAdd | OvfFixedHashMix
| OvfStrictIeee754Add.

(** The modes with a single admitted value keep their constructor, so that a
    policy has every field of the source's [struct]. *)
Inductive StrictFloatRoundingMode := NearestTiesToEven.
Inductive StrictFloatNanPolicy := CanonicalQuiet.
Inductive StrictFloatSignedZeroPolicy := CanonicalPositive | PreserveOnlyWhenBothNegative.
Inductive StrictFloatInfinityPolicy := PreserveInfinity.
Inductive StrictFloatSubnormalPolicy := PreserveSubnormal.
Inductive StrictFloatFmaPolicy := ForbiddenFma.

#[export] Instance FoldOperation_eq_dec : EqDecision FoldOperation.
Proof. solve_decision. Defined.
#[export] Instance FoldValueDomain_eq_dec : EqDecision FoldValueDomain.
Proof. solve_decision. Defined.
#[export] Instance FoldPaddingLaw_eq_dec : EqDecision FoldPaddingLaw.
Proof. solve_decision. Defined.
#[export] Instance FoldOverflowLaw_eq_dec : EqDecision FoldOverflowLaw.
Proof. solve_decision. Defined.
#[export] Instance StrictFloatRoundingMode_eq_dec : EqDecision StrictFloatRoundingMode.
Proof. solve_decision. Defined.
#[export] Instance StrictFloatNanPolicy_eq_dec : EqDecision StrictFloatNanPolicy.
Proof. solve_decision. Defined.
#[export] Instance StrictFloatSignedZeroPolicy_eq_dec : EqDecision StrictFloatSignedZeroPolicy.
Proof. solve_decision. Defined.
#[export] Instance StrictFloatInfinityPolicy_eq_dec : EqDecision StrictFloatInfinityPolicy.
Proof. solve_decision. Defined.
#[export] Instance StrictFloatSubnormalPolicy_eq_dec : EqDecision StrictFloatSubnormalPolicy.
Proof. solve_decision. Defined.
#[export] Instance StrictFloatFmaPolicy_eq_dec : EqDecision StrictFloatFmaPolicy.
Proof. solve_decision. Defined.

Record StrictFloatReductionPolicy := {
  policy_valid : bool;
  policy_value_domain : FoldValueDomain;
  rounding_mode : StrictFloatRoundingMode;
  nan_policy : StrictFloatNanPolicy;
  signed_zero_policy : StrictFloatSignedZeroPolicy;
  infinity_policy : StrictFloatInfinityPolicy;
  subnormal_policy : StrictFloatSubnormalPolicy;
  fma_policy : StrictFloatFmaPolicy;
}.

(** [StrictFloatReductionPolicy{}]: the default member initialisers. *)
Definition DefaultStrictFloatPolicy : StrictFloatReductionPolicy := {|
  policy_valid := false;
  policy_value_domain := DomUnsupported;
  rounding_mode := NearestTiesToEven;
  nan_policy := CanonicalQuiet;
  signed_zero_policy := CanonicalPositive;
  infinity_policy := PreserveInfinity;
  subnormal_policy := PreserveSubnormal;
  fma_policy := ForbiddenFma |}.

Definition StrictFloat32ReductionPolicy : StrictFloatReductionPolicy := {|
  policy_valid := true;
  policy_value_domain := DomFloat32Strict;
  rounding_mode := NearestTiesToEven;
  nan_policy := CanonicalQuiet;
  signed_zero_policy := CanonicalPositive;
  infinity_policy := PreserveInfinity;
  subnormal_policy := PreserveSubnormal;
  fma_policy := ForbiddenFma |}.

Definition StrictFloat64ReductionPolicy : StrictFloatReductionPolicy := {|
  policy_valid := true;
  policy_value_domain := DomFloat64Strict;
  rounding_mode := NearestTiesToEven;
  nan_policy := CanonicalQuiet;
  signed_zero_policy := CanonicalPositive;
  infinity_policy := PreserveInfinity;
  subnormal_policy := PreserveSubnormal;
  fma_policy := ForbiddenFma |}.
