(* ===== verification/StrictFloat.v ===== *)
(** * StrictFloat: the software IEEE-754 addition of [kernel/src/reduction/strict]

    [AddBits] adds two encoded floats with integer operations only.  The
    specification side is exact integer arithmetic: every finite float is an
    integer number of units [2^(1 - bias - fraction_bits)], so the exact sum is
    an integer and the correctly rounded result is [round_bits] of it. *)
From stdpp Require Import base numbers list option.
From Stdlib Require Import ZArith Lia.
From S2P Require Import Prelude FoldModel.

Module StrictFloat.

Record Format := {
  exponent_bits : Z;
  fraction_bits : Z;
  sign_mask : Z;
  exponent_mask : Z;
  fraction_mask : Z;
  exponent_max : Z;
  exponent_bias : Z;
  canonical_nan : Z;
}.

Record Decoded := {
  sign : bool;
  zero : bool;
  inf : bool;
  nan : bool;
  exponent : Z;
  mantissa : Z;
}.

Definition Float32Format : Format := {|
  exponent_bits := 8;
  fraction_bits := 23;
  sign_mask := 0x80000000;
  exponent_mask := 0x7F800000;
  fraction_mask := 0x007FFFFF;
  exponent_max := 0xFF;
  exponent_bias := 127;
  canonical_nan := 0x7FC00000 |}.

Definition Float64Format : Format := {|
  exponent_bits := 11;
  fraction_bits := 52;
  sign_mask := 0x8000000000000000;
  exponent_mask := 0x7FF0000000000000;
  fraction_mask := 0x000FFFFFFFFFFFFF;
  exponent_max := 0x7FF;
  exponent_bias := 1023;
  canonical_nan := 0x7FF8000000000000 |}.

(** [Compose], [Infinity], [Zero] of [strict/format.cpp]. *)
Definition Compose (sgn : bool) (raw_exponent fraction : Z) (f : Format) : Z :=
  let sign_bits := if sgn then sign_mask f else 0 in
  Z.lor (Z.lor sign_bits (wrap64 (Z.shiftl raw_exponent (fraction_bits f))))
        (Z.land fraction (fraction_mask f)).

Definition Infinity (sgn : bool) (f : Format) : Z := Compose sgn (exponent_max f) 0 f.
Definition Zero (sgn : bool) (f : Format) : Z := Compose sgn 0 0 f.

(** [Decode] of [strict/decode.cpp]. *)
Definition Decode (bits : Z) (f : Format) : Decoded :=
  let raw_exponent := Z.shiftr (Z.land bits (exponent_mask f)) (fraction_bits f) in
  let fraction := Z.land bits (fraction_mask f) in
  let sgn := negb (Z.land bits (sign_mask f) =? 0) in
  if raw_exponent =? exponent_max f then
    {| sign := sgn; zero := false; inf := fraction =? 0; nan := negb (fraction =? 0);
       exponent := 0; mantissa := 0 |}
  else if raw_exponent =? 0 then
    {| sign := sgn; zero := fraction =? 0; inf := false; nan := false;
       exponent := 1 - exponent_bias f; mantissa := fraction |}
  else
    {| sign := sgn; zero := false; inf := false; nan := false;
       exponent := raw_exponent - exponent_bias f;
       mantissa := Z.lor (Z.shiftl 1 (fraction_bits f)) fraction |}.

(** [ShiftRightJam128] of [strict/round.cpp]. *)
Definition ShiftRightJam128 (value shift : Z) : Z :=
  if shift =? 0 then value
  else if shift >=? 127 then (if value =? 0 then 0 else 1)
  else
    let mask := Z.shiftl 1 shift - 1 in
    let sticky := negb (Z.land value mask =? 0) in
    Z.lor (Z.shiftr value shift) (if sticky then 1 else 0).

Definition kAddGuardBits : Z := 3.

Record FiniteSum := {
  sum_zero : bool;
  sum_sign : bool;
  sum_exponent : Z;
  sum_mantissa : Z;
}.

(** [ResolveSpecialAddResult] of [strict/add/special.cpp]; [None] is [false]. *)
Definition MaskedFiniteBits (bits : Z) (f : Format) : Z :=
  Z.land bits (Z.lor (Z.lor (sign_mask f) (exponent_mask f)) (fraction_mask f)).

Definition ResolveSpecialAddResult (left right : Decoded) (left_bits right_bits : Z)
    (f : Format) (policy : StrictFloatReductionPolicy) : option Z :=
  if nan left || nan right then Some (canonical_nan f)
  else if inf left || inf right then
    if inf left && inf right && negb (eqb (sign left) (sign right))
    then Some (canonical_nan f)
    else Some (Infinity (if inf left then sign left else sign right) f)
  else if zero left && zero right then
    let negative_zero :=
      bool_decide (signed_zero_policy policy = PreserveOnlyWhenBothNegative) &&
      sign left && sign right in
    Some (Zero negative_zero f)
  else if zero left then Some (MaskedFiniteBits right_bits f)
  else if zero right then Some (MaskedFiniteBits left_bits f)
  else None.

(** [AddFiniteMantissas] of [strict/add/mantissa.cpp]. *)
Definition AddFiniteMantissas (left right : Decoded) : FiniteSum :=
  let common_exponent := Z.max (exponent left) (exponent right) in
  let left_mantissa := wrap128 (Z.shiftl (mantissa left) kAddGuardBits) in
  let right_mantissa := wrap128 (Z.shiftl (mantissa right) kAddGuardBits) in
  let left_mantissa :=
    ShiftRightJam128 left_mantissa (wrap32 (common_exponent - exponent left)) in
  let right_mantissa :=
    ShiftRightJam128 right_mantissa (wrap32 (common_exponent - exponent right)) in
  let signed_left := if sign left then - left_mantissa else left_mantissa in
  let signed_right := if sign right then - right_mantissa else right_mantissa in
  let signed_sum := signed_left + signed_right in
  if signed_sum =? 0 then
    {| sum_zero := true; sum_sign := false; sum_exponent := 0; sum_mantissa := 0 |}
  else
    let result_sign := signed_sum <? 0 in
    {| sum_zero := false; sum_sign := result_sign; sum_exponent := common_exponent;
       sum_mantissa := if result_sign then - signed_sum else signed_sum |}.

(** [ComposeRoundedNormal] of [strict/add/compose.cpp]. *)
Definition ComposeRoundedNormal (result_sign : bool) (common_exponent mant : Z)
    (f : Format) : Z :=
  let round_bits := Z.land mant (Z.shiftl 1 kAddGuardBits - 1) in
  let rounded := Z.shiftr mant kAddGuardBits in
  let half := Z.shiftl 1 (kAddGuardBits - 1) in
  let rounded :=
    if (round_bits >? half) || ((round_bits =? half) && negb (Z.land rounded 1 =? 0))
    then rounded + 1 else rounded in
  let overflowed := rounded >=? Z.shiftl 1 (fraction_bits f + 1) in
  let common_exponent := if overflowed then common_exponent + 1 else common_exponent in
  let rounded := if overflowed then Z.shiftr rounded 1 else rounded in
  let raw_exponent := common_exponent + exponent_bias f in
  if raw_exponent >=? exponent_max f then Infinity result_sign f
  else
    let hidden := Z.shiftl 1 (fraction_bits f) in
    if (raw_exponent <=? 0) || (rounded <? hidden)
    then Compose result_sign 0 (wrap64 rounded) f
    else Compose result_sign (wrap32 raw_exponent) (wrap64 (rounded - hidden)) f.

(** The normalisation loops of [ComposeRoundedFiniteSum]; the state is
    [(mantissa, exponent)].  128 steps cover the width of the mantissa. *)
Definition normalize_fuel : nat := 128.

Definition normalize_right (normalized_max : Z) (s : Z * Z) : option (Z * Z) :=
  while normalize_fuel (fun s => fst s >=? normalized_max)
    (fun s => (ShiftRightJam128 (fst s) 1, snd s + 1)) s.

Definition normalize_left (normalized_min min_exponent : Z) (s : Z * Z) : option (Z * Z) :=
  while normalize_fuel (fun s => (fst s <? normalized_min) && (snd s >? min_exponent))
    (fun s => (wrap128 (Z.shiftl (fst s) 1), snd s - 1)) s.

Definition ComposeRoundedFiniteSum (sum : FiniteSum) (f : Format) : option Z :=
  if sum_zero sum then Some (Zero false f)
  else
    let normalized_min := Z.shiftl (Z.shiftl 1 (fraction_bits f)) kAddGuardBits in
    let normalized_max := Z.shiftl normalized_min 1 in
    let min_exponent := 1 - exponent_bias f in
    s ← normalize_right normalized_max (sum_mantissa sum, sum_exponent sum);
    s ← normalize_left normalized_min min_exponent s;
    let '(mant, e) := s in
    let '(mant, e) :=
      if e <? min_exponent
      then (ShiftRightJam128 mant (wrap32 (min_exponent - e)), min_exponent)
      else (mant, e) in
    Some (ComposeRoundedNormal (sum_sign sum) e mant f).

(** [AddBits], [AddFloat32Bits], [AddFloat64Bits] of [strict/add.cpp]. *)
Definition AddBits (left_bits right_bits : Z) (f : Format)
    (policy : StrictFloatReductionPolicy) : option Z :=
  let left := Decode left_bits f in
  let right := Decode right_bits f in
  match ResolveSpecialAddResult left right left_bits right_bits f policy with
  | Some special_result => Some special_result
  | None => ComposeRoundedFiniteSum (AddFiniteMantissas left right) f
  end.

Definition AddFloat32Bits (left_bits right_bits : Z)
    (policy : StrictFloatReductionPolicy) : option Z :=
  AddBits (Z.land left_bits 0xFFFFFFFF) (Z.land right_bits 0xFFFFFFFF) Float32Format policy.

Definition AddFloat64Bits (left_bits right_bits : Z)
    (policy : StrictFloatReductionPolicy) : option Z :=
  AddBits left_bits right_bits Float64Format policy.

End StrictFloat.

(** ** Specification: exact values and correct rounding *)
Module StrictFloatSpec.
Import StrictFloat.

(** Round [n / 2^k] to the nearest integer, ties to even. *)
Definition rne (n k : Z) : Z :=
  let q := n / 2 ^ k in
  let r := n mod 2 ^ k in
  if (2 ^ k <? 2 * r) || ((2 * r =? 2 ^ k) && Z.odd q) then q + 1 else q.

(** The exponent of the last place of a float with [fb] fraction bits near [n]. *)
Definition scale_of (fb n : Z) : Z := Z.max 0 (Z.log2 n - fb).

(** The encoding (without sign) of [n] units, correctly rounded. *)
Definition round_bits (fb n : Z) : Z := scale_of fb n * 2 ^ fb + rne n (scale_of fb n).

(** The number of units that an encoding without sign stands for. *)
Definition magnitude (fb b : Z) : Z :=
  if b / 2 ^ fb =? 0 then b mod 2 ^ fb
  else (2 ^ fb + b mod 2 ^ fb) * 2 ^ (b / 2 ^ fb - 1).

Definition inf_bits (f : Format) : Z := exponent_max f * 2 ^ fraction_bits f.
Definition is_negative (f : Format) (bits : Z) : bool := sign_mask f <=? bits.
Definition value (f : Format) (bits : Z) : Z :=
  let m := magnitude (fraction_bits f) (bits mod sign_mask f) in
  if is_negative f bits then - m else m.

(** An encoding of the format that is neither an infinity nor a NaN. *)
Definition finite (f : Format) (bits : Z) : Prop :=
  0 <= bits < 2 * sign_mask f /\ bits mod sign_mask f < inf_bits f.

(** The correctly rounded encoding of a non-zero exact sum of [s] units. *)
Definition encode_sum (f : Format) (s : Z) : Z :=
  (if s <? 0 then sign_mask f else 0) +
  Z.min (inf_bits f) (round_bits (fraction_bits f) (Z.abs s)).

Record format_ok (f : Format) : Prop := {
  ok_eb : 2 <= exponent_bits f <= 11;
  ok_fb : 1 <= fraction_bits f <= 52;
  ok_sign : sign_mask f = 2 ^ (exponent_bits f + fraction_bits f);
  ok_exp : exponent_mask f = (2 ^ exponent_bits f - 1) * 2 ^ fraction_bits f;
  ok_frac : fraction_mask f = 2 ^ fraction_bits f - 1;
  ok_max : exponent_max f = 2 ^ exponent_bits f - 1;
  ok_bias : exponent_bias f = 2 ^ (exponent_bits f - 1) - 1;
}.

Lemma Float32Format_ok : format_ok Float32Format.
Proof. split; vm_compute; try done; split; congruence. Qed.
Lemma Float64Format_ok : format_ok Float64Format.
Proof. split; vm_compute; try done; split; congruence. Qed.

End StrictFloatSpec.

(** ** Rounding to odd *)
Module Jam.
Import StrictFloat StrictFloatSpec.

(** The integer [v / 2^s] rounded to odd: the last bit records inexactness. *)
Definition jam (v s : Z) : Z :=
  if v mod 2 ^ s =? 0 then v / 2 ^ s else 2 * (v / 2 ^ s / 2) + 1.

Lemma jam_0 v : jam v 0 = v.
Proof. unfold jam. change (2 ^ 0) with 1. by rewrite Z.mod_1_r, Z.div_1_r. Qed.

Lemma jam_mul v s : 0 <= s -> jam (v * 2 ^ s) s = v.
Proof.
  intros. pose proof (pow2_pos s). unfold jam. rewrite Z.mod_mul, Z.div_mul by lia. done.
Qed.

(** Quotient and remainder of a sum with a multiple of [2^s]. *)
Lemma jam_add v a s : 0 <= s -> Z.even a = true -> jam (a * 2 ^ s + v) s = a + jam v s.
Proof.
  intros Hs Ha. pose proof (pow2_pos s Hs). unfold jam.
  rewrite Z.add_comm, Z.mod_add, Z.div_add by lia.
  apply Z.even_spec in Ha as [h ->]. case_match; [lia|].
  rewrite (Z.mul_comm 2 h), Z.div_add by lia. lia.
Qed.

Lemma jam_opp v s : 0 <= s -> jam (- v) s = - jam v s.
Proof.
  intros Hs. pose proof (pow2_pos s Hs). unfold jam.
  destruct (Z.eqb_spec (v mod 2 ^ s) 0) as [E|E].
  - rewrite Z.mod_opp_l_z, Z.div_opp_l_z by lia. done.
  - rewrite Z.mod_opp_l_nz, Z.div_opp_l_nz by lia.
    pose proof (Z.mod_pos_bound v (2 ^ s) ltac:(lia)).
    destruct (Z.eqb_spec (2 ^ s - v mod 2 ^ s) 0); [lia|].
    set (q := v / 2 ^ s). Z.div_mod_to_equations. lia.
Qed.

Lemma jam_scale v d y : 0 <= d -> 0 <= y -> jam (v * 2 ^ y) (d + y) = jam v d.
Proof.
  intros Hd Hy. pose proof (pow2_pos d Hd). pose proof (pow2_pos y Hy).
  unfold jam. rewrite Z.pow_add_r by lia.
  rewrite Z.mul_mod_distr_r, Z.div_mul_cancel_r by lia.
  assert ((v mod 2 ^ d * 2 ^ y =? 0) = (v mod 2 ^ d =? 0)) as ->; [|done].
  (destruct (Z.eqb_spec (v mod 2 ^ d) 0) as [E|E]; [rewrite E; done|];
    destruct (Z.eqb_spec (v mod 2 ^ d * 2 ^ y) 0) as [E'|E']; [apply Z.mul_eq_0 in E' as [?|?]; lia | done]).
Qed.

(** The bounds between which the jammed value lies. *)
Lemma jam_bounds v s lo :
  0 <= s -> Z.even lo = true -> lo * 2 ^ s <= v <-> lo <= jam v s.
Proof.
  intros Hs Hlo. pose proof (pow2_pos s Hs). unfold jam.
  pose proof (Z.div_mod v (2 ^ s) ltac:(lia)). pose proof (Z.mod_pos_bound v (2 ^ s) ltac:(lia)).
  apply Z.even_spec in Hlo as [h ->].
  pose proof (Z.div_mod (v / 2 ^ s) 2 ltac:(lia)).
  pose proof (Z.mod_pos_bound (v / 2 ^ s) 2 ltac:(lia)).
  case_match; to_prop; split; nia.
Qed.

Lemma jam_pos v s : 0 <= s -> 0 < v -> 0 < jam v s.
Proof.
  intros Hs Hv. pose proof (pow2_pos s Hs). unfold jam.
  pose proof (Z.div_mod v (2 ^ s) ltac:(lia)). assert (0 <= v / 2 ^ s) by (apply Z.div_pos; lia).
  case_match; to_prop; [nia|]. assert (0 <= v / 2 ^ s / 2) by (apply Z.div_pos; lia). lia.
Qed.

Lemma jam_jam v c : 0 <= c -> jam (jam v c) 1 = jam v (c + 1).
Proof.
  intros Hc. pose proof (pow2_pos c Hc). unfold jam at 1 3.
  rewrite pow2_succ by done. change (2 ^ 1) with 2.
  rewrite (Z.mul_comm 2 (2 ^ c)), Z.rem_mul_r, <- Z.div_div by lia.
  unfold jam. pose proof (Z.mod_pos_bound v (2 ^ c) ltac:(lia)).
  pose proof (Z.mod_pos_bound (v / 2 ^ c) 2 ltac:(lia)).
  destruct (Z.eqb_spec (v mod 2 ^ c) 0) as [E|E].
  - rewrite E, Z.add_0_l.
    assert ((2 ^ c * ((v / 2 ^ c) mod 2) =? 0) = ((v / 2 ^ c) mod 2 =? 0)) as ->; [|done].
    destruct (Z.eqb_spec ((v / 2 ^ c) mod 2) 0), (Z.eqb_spec (2 ^ c * ((v / 2 ^ c) mod 2)) 0); nia.
  - destruct (Z.eqb_spec (v mod 2 ^ c + 2 ^ c * ((v / 2 ^ c) mod 2)) 0); [nia|].
    replace (2 * (v / 2 ^ c / 2) + 1) with (1 + (v / 2 ^ c / 2) * 2) by lia.
    rewrite Z.mod_add, Z.div_add by lia. done.
Qed.

(** Setting the last bit. *)
Lemma lor_odd q : Z.lor q 1 = 2 * (q / 2) + 1.
Proof.
  apply Z.bits_inj'. intros i Hi. rewrite Z.lor_spec.
  destruct (Z.eq_dec i 0) as [->|].
  - rewrite !Z.bit0_odd, Z.odd_add, Z.odd_mul. apply orb_true_r.
  - replace (Z.testbit 1 i) with false by (symmetry; apply (Z.bits_above_log2 1 i); cbn; lia).
    replace i with (Z.succ (i - 1)) by lia.
    rewrite orb_false_r, Z.testbit_odd_succ by lia.
    rewrite <- Z.div2_div, Z.div2_spec, Z.shiftr_spec by lia. f_equal; lia.
Qed.

(** The shift of the source is [jam]. *)
Lemma ShiftRightJam128_jam v s :
  0 <= v < 2 ^ 127 -> 0 <= s -> ShiftRightJam128 v s = jam v s.
Proof.
  intros Hv Hs. unfold ShiftRightJam128.
  destruct (Z.eqb_spec s 0) as [->|]; [by rewrite jam_0|].
  pose proof (pow2_pos s Hs).
  destruct (s >=? 127) eqn:E; to_prop.
  - assert (2 ^ 127 <= 2 ^ s) by (apply Z.pow_le_mono_r; lia).
    unfold jam. rewrite Z.mod_small, Z.div_small by lia. destruct (v =? 0); done.
  - rewrite Z.shiftl_1_l, land_mask, Z.shiftr_div_pow2 by lia. unfold jam.
    destruct (Z.eqb_spec (v mod 2 ^ s) 0); cbn [negb]; [apply Z.lor_0_r|].
    apply lor_odd.
Qed.
End Jam.

(** ** Correctness of the addition *)
Module StrictFloatFacts.
Import StrictFloat StrictFloatSpec Jam.

(** Rounding after a rounding to odd that kept at least two more bits is the
    rounding of the exact value. *)
Lemma rne_jam v c p : 0 <= c -> c + 2 <= p -> rne (jam v c) (p - c) = rne v p.
Proof.
  intros Hc Hp. unfold rne.
  set (k := p - c). assert (2 <= k) by (subst k; lia).
  replace p with (c + k) by (subst k; lia). rewrite Z.pow_add_r by lia.
  pose proof (pow2_pos c Hc). pose proof (pow2_pos (k - 2) ltac:(lia)) as Hh.
  assert (2 ^ k = 4 * 2 ^ (k - 2)) as Ek.
  { replace k with (2 + (k - 2)) at 1 by lia. by rewrite Z.pow_add_r by lia. }
  set (h := 2 ^ (k - 2)) in *. set (C := 2 ^ c) in *. rewrite Ek.
  pose proof (Z.div_mod v C ltac:(lia)) as Ev. pose proof (Z.mod_pos_bound v C ltac:(lia)) as Bv.
  set (a := v / C) in *. set (r := v mod C) in *.
  pose proof (Z.div_mod a (4 * h) ltac:(lia)) as Ea.
  pose proof (Z.mod_pos_bound a (4 * h) ltac:(lia)) as Ba.
  set (q := a / (4 * h)) in *. set (t := a mod (4 * h)) in *.
  assert (v / (C * (4 * h)) = q) as ->.
  { symmetry. apply Z.div_unique with (C * t + r); nia. }
  assert (v mod (C * (4 * h)) = C * t + r) as ->.
  { symmetry. apply Z.mod_unique with q; nia. }
  unfold jam. fold C a r. destruct (Z.eqb_spec r 0) as [Er|Er].
  - fold q t. rewrite Er.
    assert ((4 * h <? 2 * t) = (C * (4 * h) <? 2 * (C * t + 0))) as ->.
    { destruct (Z.ltb_spec (4 * h) (2 * t)), (Z.ltb_spec (C * (4 * h)) (2 * (C * t + 0))); nia. }
    assert ((2 * t =? 4 * h) = (2 * (C * t + 0) =? C * (4 * h))) as ->; [|done].
    destruct (Z.eqb_spec (2 * t) (4 * h)), (Z.eqb_spec (2 * (C * t + 0)) (C * (4 * h))); nia.
  - pose proof (Z.div_mod t 2 ltac:(lia)) as Et. pose proof (Z.mod_pos_bound t 2 ltac:(lia)).
    set (u := t / 2) in *.
    assert (a / 2 = 2 * h * q + u) as ->.
    { symmetry. apply Z.div_unique with (t mod 2); lia. }
    assert ((2 * (2 * h * q + u) + 1) / (4 * h) = q) as ->.
    { symmetry. apply Z.div_unique with (2 * u + 1); lia. }
    assert ((2 * (2 * h * q + u) + 1) mod (4 * h) = 2 * u + 1) as ->.
    { symmetry. apply Z.mod_unique with q; lia. }
    assert ((4 * h <? 2 * (2 * u + 1)) = (C * (4 * h) <? 2 * (C * t + r))) as ->.
    { destruct (Z.ltb_spec (4 * h) (2 * (2 * u + 1))),
        (Z.ltb_spec (C * (4 * h)) (2 * (C * t + r))); nia. }
    assert ((2 * (2 * u + 1) =? 4 * h) = false) as -> by (apply Z.eqb_neq; lia).
    assert ((2 * (C * t + r) =? C * (4 * h)) = false) as ->; [|done].
    apply Z.eqb_neq. intros E0. assert (t < 2 * h \/ 2 * h <= t) as [?|?] by lia; nia.
Qed.

Lemma rne_scale v k y : 0 <= k -> 0 <= y -> rne (v * 2 ^ y) (k + y) = rne v k.
Proof.
  intros Hk Hy. pose proof (pow2_pos k Hk). pose proof (pow2_pos y Hy). unfold rne.
  rewrite Z.pow_add_r, Z.mul_mod_distr_r, Z.div_mul_cancel_r by lia.
  set (r := v mod 2 ^ k).
  assert ((2 ^ k * 2 ^ y <? 2 * (r * 2 ^ y)) = (2 ^ k <? 2 * r)) as ->.
  { destruct (Z.ltb_spec (2 ^ k * 2 ^ y) (2 * (r * 2 ^ y))), (Z.ltb_spec (2 ^ k) (2 * r)); nia. }
  assert ((2 * (r * 2 ^ y) =? 2 ^ k * 2 ^ y) = (2 * r =? 2 ^ k)) as ->; [|done].
  destruct (Z.eqb_spec (2 * (r * 2 ^ y)) (2 ^ k * 2 ^ y)), (Z.eqb_spec (2 * r) (2 ^ k)); nia.
Qed.

Lemma rne_0 v : rne v 0 = v.
Proof. unfold rne. change (2 ^ 0) with 1. rewrite Z.mod_1_r, Z.div_1_r. done. Qed.

Lemma rne_exact q k : 0 <= k -> rne (q * 2 ^ k) k = q.
Proof.
  intros Hk. pose proof (rne_scale q 0 k ltac:(lia) Hk) as E. rewrite Z.add_0_l in E.
  by rewrite E, rne_0.
Qed.

(** [rne] is one of the two neighbouring quotients. *)
Lemma rne_bounds v k lo hi :
  0 <= k -> lo * 2 ^ k <= v -> v < hi * 2 ^ k -> lo <= rne v k <= hi.
Proof.
  intros Hk Hlo Hhi. pose proof (pow2_pos k Hk). unfold rne.
  pose proof (Z.div_mod v (2 ^ k) ltac:(lia)). pose proof (Z.mod_pos_bound v (2 ^ k) ltac:(lia)).
  case_match; nia.
Qed.

Lemma scale_of_spec fb n x :
  0 <= fb -> 0 <= x -> 0 < n -> n < 2 ^ (fb + x + 1) -> (x = 0 \/ 2 ^ (fb + x) <= n) ->
  scale_of fb n = x.
Proof.
  intros Hfb Hx Hn Hup Hlo. unfold scale_of.
  assert (Z.log2 n < fb + x + 1) by (apply Z.log2_lt_pow2; done).
  destruct Hlo as [->|Hlo]; [lia|]. apply Z.log2_le_pow2 in Hlo; lia.
Qed.

Section Format.
Context {f : Format} (F : format_ok f).
Notation fb := (fraction_bits f).
Notation eb := (exponent_bits f).
Notation emin := (1 - exponent_bias f).

Ltac fmt := destruct F as [Heb Hfb Esign Eexp Efrac Emax Ebias].

Lemma fmt_powers :
  0 < 2 ^ fb <= 2 ^ 52 /\ 4 <= 2 ^ eb <= 2 ^ 11 /\ 2 ^ (eb + fb) = 2 ^ eb * 2 ^ fb.
Proof using F.
  fmt. split; [split; [apply pow2_pos; lia | apply Z.pow_le_mono_r; lia]|].
  split; [|apply Z.pow_add_r; lia].
  split; [change 4 with (2 ^ 2); apply Z.pow_le_mono_r; lia | apply Z.pow_le_mono_r; lia].
Qed.

(** The fields that [Decode] extracts. *)
Lemma decode_fields bits :
  0 <= bits < 2 * sign_mask f ->
  let m := bits mod sign_mask f in
  Z.shiftr (Z.land bits (exponent_mask f)) fb = m / 2 ^ fb /\
  Z.land bits (fraction_mask f) = m mod 2 ^ fb /\
  negb (Z.land bits (sign_mask f) =? 0) = is_negative f bits /\
  0 <= m / 2 ^ fb < 2 ^ eb.
Proof using F.
  intros Hb m. destruct fmt_powers as (Pf & Pe & Pef). fmt.
  unfold is_negative. subst m. rewrite Esign, Eexp, Efrac in *. rewrite Pef in *.
  assert ((bits mod (2 ^ eb * 2 ^ fb)) / 2 ^ fb = (bits / 2 ^ fb) mod 2 ^ eb) as ->.
  { rewrite (Z.mul_comm (2 ^ eb)), Z.rem_mul_r by lia.
    rewrite (Z.mul_comm (2 ^ fb) (_ mod _)), Z.div_add by lia.
    rewrite (Z.div_small (bits mod 2 ^ fb)) by (apply Z.mod_pos_bound; lia). lia. }
  split; [by apply land_field; lia|]. split.
  { rewrite land_mask by lia. rewrite (Z.mul_comm (2 ^ eb)), Z.rem_mul_r by lia.
    rewrite (Z.mul_comm (2 ^ fb)), Z.mod_add by lia. symmetry. apply Z.mod_mod. lia. }
  split; [|apply Z.mod_pos_bound; lia].
  rewrite <- Pef, land_pow2, negb_involutive by lia. rewrite Pef.
  destruct (Z.leb_spec (2 ^ eb * 2 ^ fb) bits).
  - replace (bits / (2 ^ eb * 2 ^ fb)) with 1; [done|].
    apply Z.div_unique with (bits - 2 ^ eb * 2 ^ fb); lia.
  - by rewrite Z.div_small by lia.
Qed.

(** A decoded finite float: an integer significand at exponent [x]. *)
Record decoded_as (d : Decoded) (v x : Z) : Prop := {
  da_x : 0 <= x < exponent_max f;
  da_exponent : exponent d = x + emin;
  da_value : v = (if sign d then - mantissa d else mantissa d) * 2 ^ x;
  da_mantissa : 0 <= mantissa d < 2 ^ (fb + 1);
  da_normal : 0 < x -> 2 ^ fb <= mantissa d;
}.

Lemma Decode_finite bits :
  finite f bits ->
  inf (Decode bits f) = false /\ nan (Decode bits f) = false /\
  sign (Decode bits f) = is_negative f bits /\
  zero (Decode bits f) = (bits mod sign_mask f =? 0) /\
  exists x, decoded_as (Decode bits f) (value f bits) x.
Proof using F.
  intros [Hb Hfin]. destruct (decode_fields bits Hb) as (Ee & Ef & Es & HE).
  destruct fmt_powers as (Pf & Pe & Pef).
  unfold inf_bits in Hfin. set (m := bits mod sign_mask f) in *.
  assert (0 <= m) by (apply Z.mod_pos_bound; fmt; rewrite Esign; apply pow2_pos; lia).
  pose proof (Z.div_mod m (2 ^ fb) ltac:(lia)) as Em.
  pose proof (Z.mod_pos_bound m (2 ^ fb) ltac:(lia)) as Bm.
  assert (m / 2 ^ fb < exponent_max f) as Hmax by nia.
  assert (2 ^ (fb + 1) = 2 * 2 ^ fb) as E1 by (apply pow2_succ; fmt; lia).
  unfold Decode, value, magnitude. rewrite Ee, Ef, Es. fold m.
  destruct (Z.eqb_spec (m / 2 ^ fb) (exponent_max f)); [lia|].
  assert (3 <= exponent_max f) by (fmt; rewrite Emax; lia).
  destruct (Z.eqb_spec (m / 2 ^ fb) 0) as [Z0|Z0]; cbn.
  - repeat (split; [first [done | f_equal; lia]|]).
    exists 0. split; cbn; [lia | lia | case_match; lia | lia | lia].
  - split; [done|]. split; [done|]. split; [done|]. split; [symmetry; apply Z.eqb_neq; nia|].
    assert (Z.lor (Z.shiftl 1 fb) (m mod 2 ^ fb) = 2 ^ fb + m mod 2 ^ fb) as El.
    { rewrite Z.shiftl_mul_pow2 by (fmt; lia). rewrite lor_disjoint by (fmt; lia). lia. }
    exists (m / 2 ^ fb - 1). split; cbn; rewrite ?El; [lia | lia | case_match; lia | lia | lia].
Qed.

Lemma value_0 bits :
  0 <= bits < 2 * sign_mask f -> value f bits = 0 <-> bits mod sign_mask f = 0.
Proof using F.
  intros Hb. destruct (decode_fields bits Hb) as (_ & _ & _ & HE).
  destruct fmt_powers as (Pf & Pe & Pef). unfold value, magnitude.
  set (m := bits mod sign_mask f) in *.
  pose proof (Z.div_mod m (2 ^ fb) ltac:(lia)). pose proof (Z.mod_pos_bound m (2 ^ fb) ltac:(lia)).
  destruct (Z.eqb_spec (m / 2 ^ fb) 0) as [Z0|Z0].
  - case_match; nia.
  - pose proof (pow2_pos (m / 2 ^ fb - 1) ltac:(lia)). case_match; nia.
Qed.

(** *** Aligned addition *)

(** One aligned operand: eight times its value, rounded to odd at the common
    exponent. *)
Lemma aligned_operand d v x x' :
  decoded_as d v x -> x <= x' ->
  (if sign d then - ShiftRightJam128 (wrap128 (Z.shiftl (mantissa d) kAddGuardBits))
                      (wrap32 (x' + emin - exponent d))
   else ShiftRightJam128 (wrap128 (Z.shiftl (mantissa d) kAddGuardBits))
          (wrap32 (x' + emin - exponent d))) = jam (8 * v) x' \/ U32_MAX < x'.
Proof using F.
  intros [Hx He Hv Hm _] Hle. destruct fmt_powers as (Pf & Pe & Pef).
  assert (2 ^ (fb + 1) = 2 * 2 ^ fb) as E1 by (apply pow2_succ; fmt; lia).
  destruct (Z.le_gt_cases x' U32_MAX) as [Hx'|]; [left | by right].
  unfold kAddGuardBits. rewrite Z.shiftl_mul_pow2 by lia. change (2 ^ 3) with 8.
  rewrite wrap128_small by (unfold is_u128; lia).
  rewrite wrap32_small by (unfold is_u32; lia).
  rewrite ShiftRightJam128_jam by lia.
  replace (x' + emin - exponent d) with (x' - x) by lia.
  rewrite <- jam_opp by lia.
  rewrite Hv. replace x' with (x' - x + x) at 3 by lia. rewrite Z.mul_assoc, jam_scale by lia.
  destruct (sign d); f_equal; lia.
Qed.

Lemma AddFiniteMantissas_exact dL vL xL dR vR xR :
  decoded_as dL vL xL -> decoded_as dR vR xR ->
  AddFiniteMantissas dL dR =
  if vL + vR =? 0 then
    {| sum_zero := true; sum_sign := false; sum_exponent := 0; sum_mantissa := 0 |}
  else {| sum_zero := false; sum_sign := vL + vR <? 0;
          sum_exponent := Z.max xL xR + emin;
          sum_mantissa := jam (8 * Z.abs (vL + vR)) (Z.max xL xR) |}.
Proof using F.
  intros HL HR. destruct fmt_powers as (Pf & Pe & Pef).
  pose proof (da_x _ _ _ HL) as BL. pose proof (da_x _ _ _ HR) as BR.
  assert (exponent_max f <= 2 ^ 11) as Hmax by (fmt; rewrite Emax; lia).
  set (x := Z.max xL xR).
  destruct (aligned_operand dL vL xL x HL ltac:(lia)) as [EL|?]; [|lia].
  destruct (aligned_operand dR vR xR x HR ltac:(lia)) as [ER|?]; [|lia].
  unfold AddFiniteMantissas.
  replace (Z.max (exponent dL) (exponent dR)) with (x + emin)
    by (rewrite (da_exponent _ _ _ HL), (da_exponent _ _ _ HR); lia).
  cbv zeta. rewrite EL, ER.
  assert (jam (8 * vL) x + jam (8 * vR) x = jam (8 * (vL + vR)) x) as ->.
  { assert (forall d v v' , decoded_as d v x ->
      jam (8 * v) x + jam (8 * v') x = jam (8 * (v + v')) x) as G.
    { intros d v v' [Hx _ -> _ _].
      set (M := if sign d then _ else _).
      replace (8 * (M * 2 ^ x + v')) with ((8 * M) * 2 ^ x + 8 * v') by lia.
      rewrite jam_add; [|lia|by rewrite Z.even_mul].
      replace (8 * (M * 2 ^ x)) with ((8 * M) * 2 ^ x) by lia. rewrite jam_mul by lia. done. }
    destruct (Z.max_spec xL xR) as [[_ E]|[_ E]]; fold x in E; clearbody x; subst x.
    - rewrite Z.add_comm, (Z.add_comm vL). by apply (G dR).
    - by apply (G dL). }
  set (v := vL + vR).
  destruct (Z.lt_trichotomy v 0) as [Hv|[Hv|Hv]].
  - assert (0 < jam (8 * - v) x) by (apply jam_pos; lia).
    replace (8 * v) with (- (8 * - v)) by lia. rewrite jam_opp by lia.
    rewrite (Z.abs_neq v) by lia.
    destruct (Z.eqb_spec (- jam (8 * - v) x) 0), (Z.eqb_spec v 0); try lia.
    destruct (Z.ltb_spec (- jam (8 * - v) x) 0), (Z.ltb_spec v 0); try lia.
    f_equal. lia.
  - rewrite Hv. change (8 * 0) with (0 * 2 ^ x). rewrite jam_mul by lia. done.
  - assert (0 < jam (8 * v) x) by (apply jam_pos; lia). rewrite (Z.abs_eq v) by lia.
    destruct (Z.eqb_spec (jam (8 * v) x) 0), (Z.eqb_spec v 0); try lia.
    destruct (Z.ltb_spec (jam (8 * v) x) 0), (Z.ltb_spec v 0); try lia. done.
Qed.

(** An inexact alignment means distant exponents, hence little cancellation. *)
Lemma sum_bounds dL vL xL dR vR xR :
  decoded_as dL vL xL -> decoded_as dR vR xR ->
  let x := Z.max xL xR in let N := 8 * Z.abs (vL + vR) in
  N < 2 ^ (fb + 5) * 2 ^ x /\ (N mod 2 ^ x = 0 \/ 2 ^ (fb + 2) * 2 ^ x <= N).
Proof using F.
  assert (forall d v x d' v' x', decoded_as d v x -> decoded_as d' v' x' -> x' <= x ->
    8 * Z.abs (v + v') < 2 ^ (fb + 5) * 2 ^ x /\
    ((8 * Z.abs (v + v')) mod 2 ^ x = 0 \/ 2 ^ (fb + 2) * 2 ^ x <= 8 * Z.abs (v + v'))) as G.
  { intros d v x d' v' x' [Hx _ Hv Hm Hn] [Hx' _ Hv' Hm' _] Hle.
    destruct fmt_powers as (Pf & _).
    assert (0 <= fb) by (fmt; lia).
    rewrite !Z.pow_add_r in * by lia. change (2 ^ 1) with 2 in *.
    change (2 ^ 5) with 32. change (2 ^ 2) with 4.
    set (M := if sign d then _ else _) in *. set (M' := if sign d' then _ else _) in *.
    assert (Z.abs M = mantissa d) as HM by (subst M; case_match; lia).
    assert (Z.abs M' = mantissa d') as HM' by (subst M'; case_match; lia).
    pose proof (pow2_pos x ltac:(lia)). pose proof (pow2_pos x' ltac:(lia)).
    destruct (Z.le_gt_cases x (x' + 3)) as [Hnear|Hfar].
    - assert (2 ^ x' <= 2 ^ x) by (apply Z.pow_le_mono_r; lia).
      split; [nia|left].
      assert (2 ^ x * 2 ^ (x' + 3 - x) = 8 * 2 ^ x') as Es
        by (rewrite <- Z.pow_add_r by lia; replace (x + (x' + 3 - x)) with (x' + 3) by lia;
            rewrite Z.pow_add_r by lia; lia).
      assert (8 * (v + v') = (8 * M + M' * 2 ^ (x' + 3 - x)) * 2 ^ x) as E by nia.
      apply Z.mod_divide; [lia|]. replace (8 * Z.abs (v + v')) with (Z.abs (8 * (v + v'))) by lia.
      apply Z.divide_abs_r. exists (8 * M + M' * 2 ^ (x' + 3 - x)). done.
    - assert (2 ^ x = 16 * 2 ^ (x - 4)) as E4.
      { replace x with (4 + (x - 4)) at 1 by lia. by rewrite Z.pow_add_r by lia. }
      assert (2 ^ x' <= 2 ^ (x - 4)) by (apply Z.pow_le_mono_r; lia).
      pose proof (pow2_pos (x - 4) ltac:(lia)). specialize (Hn ltac:(lia)).
      assert (Z.abs v = mantissa d * 2 ^ x) as Av by (rewrite Hv, Z.abs_mul; nia).
      assert (Z.abs v' <= 2 ^ fb * 2 * 2 ^ (x - 4)) as Av'
        by (rewrite Hv', Z.abs_mul; rewrite HM', (Z.abs_eq (2 ^ x')) by lia; nia).
      split; [nia|right]. nia. }
  intros HL HR x N. subst x N. destruct (Z.max_spec xL xR) as [[? ->]|[? ->]].
  - rewrite (Z.add_comm vL). eapply G; eauto; lia.
  - eapply G; eauto; lia.
Qed.

(** *** Normalisation and rounding *)

Lemma normalize_right_spec N x :
  0 < N -> 0 <= x -> N < 2 ^ (fb + 5) * 2 ^ x ->
  (N mod 2 ^ x = 0 \/ 2 ^ (fb + 2) * 2 ^ x <= N) ->
  exists x', x <= x' <= x + 1 /\
    normalize_right (2 ^ (fb + 4)) (jam N x, x + emin) = Some (jam N x', x' + emin) /\
    jam N x' < 2 ^ (fb + 4) /\ (N mod 2 ^ x' = 0 \/ 2 ^ (fb + 2) <= jam N x').
Proof using F.
  intros HN Hx Hup Hin. destruct fmt_powers as (Pf & _). assert (1 <= fb) by (fmt; lia).
  assert (forall k, 0 <= k -> Z.even (2 ^ (fb + k)) = true) as Hev.
  { intros k Hk. rewrite Z.even_pow by lia. done. }
  pose proof (jam_bounds N x (2 ^ (fb + 5)) Hx (Hev 5 ltac:(lia))) as B5.
  pose proof (jam_bounds N x (2 ^ (fb + 4)) Hx (Hev 4 ltac:(lia))) as B4.
  pose proof (jam_bounds N x (2 ^ (fb + 2)) Hx (Hev 2 ltac:(lia))) as B2.
  pose proof (jam_pos N x Hx HN).
  assert (2 ^ (fb + 5) <= 2 ^ 57) by (apply Z.pow_le_mono_r; fmt; lia).
  unfold normalize_right, normalize_fuel.
  destruct (Z.lt_ge_cases (jam N x) (2 ^ (fb + 4))) as [Hlt|Hge].
  - exists x. split; [lia|]. rewrite while_done by (cbn [fst]; rewrite Z.geb_leb; apply Z.leb_gt; lia).
    split; [done|]. split; [done|]. destruct Hin; [by left | right; lia].
  - exists (x + 1). split; [lia|].
    rewrite while_next by (cbn [fst]; rewrite Z.geb_leb; apply Z.leb_le; lia). cbn [fst snd].
    rewrite ShiftRightJam128_jam, jam_jam by lia.
    pose proof (jam_bounds N (x + 1) (2 ^ (fb + 4)) ltac:(lia) (Hev 4 ltac:(lia))) as B4'.
    pose proof (jam_bounds N (x + 1) (2 ^ (fb + 2)) ltac:(lia) (Hev 2 ltac:(lia))) as B2'.
    rewrite pow2_succ in B4', B2' by lia.
    assert (2 ^ (fb + 5) = 32 * 2 ^ fb) as E5 by (rewrite Z.pow_add_r by lia; lia).
    assert (2 ^ (fb + 4) = 16 * 2 ^ fb) as E4 by (rewrite Z.pow_add_r by lia; lia).
    assert (2 ^ (fb + 2) = 4 * 2 ^ fb) as E2 by (rewrite Z.pow_add_r by lia; lia).
    pose proof (pow2_pos x Hx). apply B4 in Hge as Hge'.
    assert (jam N (x + 1) < 2 ^ (fb + 4)) as Hlt.
    { destruct (Z.lt_ge_cases (jam N (x + 1)) (2 ^ (fb + 4))) as [|Hc]; [done|].
      apply B4' in Hc. nia. }
    rewrite while_done by (cbn [fst]; rewrite Z.geb_leb; apply Z.leb_gt; lia).
    split; [do 2 f_equal; lia|]. split; [done|]. right. apply B2'. nia.
Qed.

(** The left-normalisation state [(g, e)], with [xx = e - emin]: exact, rounded to
    odd at its own exponent, or rounded to odd one place higher. *)
Definition norm_inv (N : Z) (s : Z * Z) : Prop :=
  let g := fst s in let xx := snd s - emin in
  0 <= xx <= 2 ^ 12 /\ 0 < g < 2 ^ (fb + 4) /\
  (g * 2 ^ xx = N \/ (g = jam N xx /\ 2 ^ (fb + 2) <= g) \/
   (g = 2 * jam N (xx + 1) /\ 2 ^ (fb + 3) <= g)).

Lemma normalize_left_spec N s :
  norm_inv N s -> exists s', normalize_left (2 ^ (fb + 3)) emin s = Some s' /\ norm_inv N s' /\
    (2 ^ (fb + 3) <= fst s' \/ snd s' = emin).
Proof using F.
  intros HI. assert (1 <= fb <= 52) by (fmt; lia).
  assert (forall s, norm_inv N s -> 0 <= Z.log2 (fst s) < fb + 4) as Hlog.
  { intros [g e] (_ & Hg & _). cbn [fst] in *. split; [apply Z.log2_nonneg|].
    apply Z.log2_lt_pow2; lia. }
  edestruct (while_total (norm_inv N) (fun s => fb + 4 - Z.log2 (fst s))
    (fun s => (fst s <? 2 ^ (fb + 3)) && (snd s >? emin))
    (fun s => (wrap128 (Z.shiftl (fst s) 1), snd s - 1)) normalize_fuel s HI)
    as (s' & E & HI' & Hend).
  - intros [g e] HI' Hc. pose proof (Hlog _ HI') as Hl. destruct HI' as (Hxx & Hg & Hcase).
    cbn [fst snd] in *. to_prop.
    assert (2 ^ (fb + 4) = 2 * 2 ^ (fb + 3)) as E4
      by (replace (fb + 4) with (fb + 3 + 1) by lia; apply pow2_succ; lia).
    assert (2 ^ (fb + 3) = 2 * 2 ^ (fb + 2)) as E3
      by (replace (fb + 3) with (fb + 2 + 1) by lia; apply pow2_succ; lia).
    assert (2 ^ (fb + 4) <= 2 ^ 56) by (apply Z.pow_le_mono_r; lia).
    rewrite Z.shiftl_mul_pow2, wrap128_small by (unfold is_u128; lia). change (2 ^ 1) with 2.
    split; [|rewrite (Z.mul_comm g), Z.log2_double by lia; lia].
    unfold norm_inv; cbn [fst snd].
    set (xx := e - emin) in *. replace (e - 1 - emin) with (xx - 1) by lia.
    split; [lia|]. split; [lia|]. replace (xx - 1 + 1) with xx by lia.
    assert (2 ^ xx = 2 * 2 ^ (xx - 1)) as Ex
      by (rewrite <- pow2_succ by lia; f_equal; lia).
    destruct Hcase as [Hcase|[[-> Hcase]|[_ Hcase]]]; [left; lia | right; right; lia | lia].
  - change (Z.of_nat normalize_fuel) with 128. pose proof (Hlog _ HI). lia.
  - pose proof (Hlog _ HI). lia.
  - exists s'. split; [exact E|]. split; [done|].
    destruct HI' as (Hxx & _). apply andb_false_iff in Hend as [?|?]; to_prop; [by left|right; lia].
Qed.

(** The normalised state rounds to the correctly rounded significand. *)
Lemma norm_rounds n s :
  0 < n -> norm_inv (8 * n) s -> (2 ^ (fb + 3) <= fst s \/ snd s = emin) ->
  let xx := snd s - emin in
  rne (fst s) 3 = rne n xx /\ scale_of fb n = xx.
Proof using F.
  intros Hn (Hxx & Hg & Hcase) Hend xx. destruct s as [g e]. cbn [fst snd] in *. fold xx in Hxx, Hcase.
  assert (1 <= fb) by (fmt; lia).
  assert (8 * n = n * 2 ^ 3) as E8 by lia.
  pose proof (pow2_pos xx ltac:(lia)) as Px. pose proof (pow2_pos fb ltac:(lia)) as Pf.
  pose proof (pow2_succ xx ltac:(lia)) as Ex.
  assert (2 ^ (fb + 4) = 16 * 2 ^ fb) as E4 by (rewrite Z.pow_add_r by lia; lia).
  assert (2 ^ (fb + 3) = 8 * 2 ^ fb) as E3 by (rewrite Z.pow_add_r by lia; lia).
  assert (2 ^ (fb + xx + 1) = 2 * (2 ^ fb * 2 ^ xx)) as Eup by (rewrite pow2_succ, Z.pow_add_r by lia; lia).
  assert (2 ^ (fb + xx) = 2 ^ fb * 2 ^ xx) as Elo by (apply Z.pow_add_r; lia).
  assert (forall c lo, 0 <= c -> Z.even lo = true -> lo * 2 ^ c <= 8 * n <-> lo <= jam (8 * n) c)
    as B by (intros; by apply jam_bounds).
  assert (forall a, Z.even (a * 2) = true) as Hev by (intros; rewrite Z.even_mul; apply orb_true_r).
  pose proof (B xx (8 * 2 ^ fb * 2) ltac:(lia) (Hev _)) as B1.
  pose proof (B xx (4 * 2 ^ fb * 2) ltac:(lia) (Hev _)) as B2.
  pose proof (B (xx + 1) (4 * 2 ^ fb * 2) ltac:(lia) (Hev _)) as B3.
  pose proof (B (xx + 1) (2 * 2 ^ fb * 2) ltac:(lia) (Hev _)) as B4.
  rewrite Ex in B3, B4. split.
  - rewrite E8 in Hcase. rewrite <- (rne_scale n xx 3) by lia.
    destruct Hcase as [Hc|[[-> _]|[-> _]]].
    + rewrite <- Hc, (Z.add_comm xx). symmetry. apply rne_scale; lia.
    + replace 3 with (xx + 3 - xx) at 2 by lia. apply rne_jam; lia.
    + rewrite (Z.mul_comm 2). change (jam (n * 2 ^ 3) (xx + 1) * 2) with
        (jam (n * 2 ^ 3) (xx + 1) * 2 ^ 1). change 3 with (2 + 1) at 2. rewrite rne_scale by lia.
      replace 2 with (xx + 3 - (xx + 1)) at 2 by lia. apply rne_jam; lia.
  - apply scale_of_spec; try lia; rewrite ?Eup, ?Elo;
      destruct Hcase as [Hc|[[-> _]|[-> _]]]; try (destruct Hend as [Hend|Hend]; [right|left; lia]); nia.
Qed.

(** *** Encoding *)

Lemma Compose_sum sgn raw fr :
  0 <= raw < 2 ^ eb -> 0 <= fr < 2 ^ fb ->
  Compose sgn raw fr f = (if sgn then sign_mask f else 0) + raw * 2 ^ fb + fr.
Proof using F.
  intros Hr Hf. destruct fmt_powers as (Pf & Pe & Pef). fmt.
  unfold Compose. rewrite Efrac, land_mask, (Z.mod_small fr) by lia.
  rewrite Z.shiftl_mul_pow2 by lia. rewrite wrap64_small by (unfold is_u64; nia).
  destruct sgn.
  - rewrite Esign, <- (Z.mul_1_l (2 ^ (eb + fb))). rewrite lor_disjoint by nia.
    rewrite Pef. replace (1 * (2 ^ eb * 2 ^ fb) + raw * 2 ^ fb) with ((2 ^ eb + raw) * 2 ^ fb) by lia.
    rewrite lor_disjoint by lia. lia.
  - rewrite Z.lor_0_l, lor_disjoint by lia. lia.
Qed.

Lemma Infinity_sum sgn : Infinity sgn f = (if sgn then sign_mask f else 0) + inf_bits f.
Proof using F.
  destruct fmt_powers as (Pf & Pe & Pef). unfold Infinity, inf_bits.
  rewrite Compose_sum; fmt; rewrite ?Emax; lia.
Qed.

Lemma Zero_sum sgn : Zero sgn f = if sgn then sign_mask f else 0.
Proof using F.
  destruct fmt_powers as (Pf & Pe & Pef). unfold Zero. rewrite Compose_sum by lia. lia.
Qed.

(** The rounding code of [ComposeRoundedNormal] is [rne] at three bits. *)
Lemma guard_rounding g :
  0 <= g ->
  (if (Z.land g (Z.shiftl 1 kAddGuardBits - 1) >? Z.shiftl 1 (kAddGuardBits - 1)) ||
      ((Z.land g (Z.shiftl 1 kAddGuardBits - 1) =? Z.shiftl 1 (kAddGuardBits - 1)) &&
       negb (Z.land (Z.shiftr g kAddGuardBits) 1 =? 0))
   then Z.shiftr g kAddGuardBits + 1 else Z.shiftr g kAddGuardBits) = rne g 3.
Proof using.
  intros Hg. unfold kAddGuardBits, rne. rewrite Z.shiftr_div_pow2 by lia.
  change (Z.shiftl 1 3 - 1) with (2 ^ 3 - 1). change (Z.shiftl 1 (3 - 1)) with 4.
  rewrite land_mask by lia. replace (negb (Z.land (g / 2 ^ 3) 1 =? 0)) with (Z.odd (g / 2 ^ 3)).
  2: { change 1 with (2 ^ 0) at 1. rewrite land_pow2, negb_involutive by lia.
       change (2 ^ 0) with 1. by rewrite Z.div_1_r. }
  change (2 ^ 3) with 8.
  set (r := g mod 8). set (q := g / 8).
  assert ((8 <? 2 * r) = (r >? 4)) as ->.
  { rewrite Z.gtb_ltb. destruct (Z.ltb_spec 8 (2 * r)), (Z.ltb_spec 4 r); lia. }
  assert ((2 * r =? 8) = (r =? 4)) as ->; [|done].
  destruct (Z.eqb_spec (2 * r) 8), (Z.eqb_spec r 4); lia.
Qed.

Lemma ComposeRoundedNormal_spec sgn g xx :
  0 < g < 2 ^ (fb + 4) -> 0 <= xx <= 2 ^ 12 -> (2 ^ (fb + 3) <= g \/ xx = 0) ->
  ComposeRoundedNormal sgn (xx + emin) g f =
  (if sgn then sign_mask f else 0) + Z.min (inf_bits f) (xx * 2 ^ fb + rne g 3).
Proof using F.
  intros Hg Hxx Hn. destruct fmt_powers as (Pf & Pe & Pef). assert (1 <= fb) by (fmt; lia).
  assert (2 ^ (fb + 4) = 2 * 2 ^ fb * 2 ^ 3) as E4 by (rewrite Z.pow_add_r by lia; lia).
  assert (2 ^ (fb + 3) = 2 ^ fb * 2 ^ 3) as E3 by (rewrite Z.pow_add_r by lia; lia).
  pose proof (pow2_succ fb ltac:(lia)) as E1.
  pose proof (rne_bounds g 3 0 (2 * 2 ^ fb) ltac:(lia) ltac:(lia) ltac:(lia)) as Bq.
  assert (0 < xx -> 2 ^ fb <= rne g 3) as Blo.
  { intros. apply (rne_bounds g 3 (2 ^ fb) (2 * 2 ^ fb)); lia. }
  assert (3 <= exponent_max f) as Hmax by (fmt; rewrite Emax; lia).
  assert (exponent_max f < 2 ^ eb) as Hmax' by (fmt; rewrite Emax; lia).
  unfold ComposeRoundedNormal. cbv zeta. rewrite guard_rounding by lia.
  set (q := rne g 3) in *. rewrite !Z.shiftl_1_l, E1.
  assert (forall e r, 0 <= e -> e * 2 ^ fb + r = xx * 2 ^ fb + q -> 0 <= r < 2 * 2 ^ fb ->
    (0 < e -> 2 ^ fb <= r) -> e <= 2 ^ 12 + 1 ->
    (r < 2 ^ fb \/ 2 ^ fb <= r) ->
    (if e + emin + exponent_bias f >=? exponent_max f then Infinity sgn f
     else if (e + emin + exponent_bias f <=? 0) || (r <? 2 ^ fb) then Compose sgn 0 (wrap64 r) f
     else Compose sgn (wrap32 (e + emin + exponent_bias f)) (wrap64 (r - 2 ^ fb)) f) =
    (if sgn then sign_mask f else 0) + Z.min (inf_bits f) (xx * 2 ^ fb + q)) as G.
  { intros e r He Er Hr Hr' He' _. replace (e + emin + exponent_bias f) with (e + 1) by lia.
    unfold inf_bits. destruct (e + 1 >=? exponent_max f) eqn:Einf; to_prop.
    - rewrite Infinity_sum. unfold inf_bits. f_equal. nia.
    - destruct (Z.leb_spec (e + 1) 0); [lia|]. cbn [orb].
      destruct (Z.ltb_spec r (2 ^ fb)).
      + rewrite wrap64_small by (unfold is_u64; lia). rewrite Compose_sum by lia. nia.
      + rewrite wrap64_small by (unfold is_u64; lia). rewrite wrap32_small by (unfold is_u32; lia).
        rewrite Compose_sum by lia. nia. }
  destruct (q >=? 2 * 2 ^ fb) eqn:Eo; to_prop.
  - replace (xx + emin + 1) with (xx + 1 + emin) by lia.
    assert (q = 2 * 2 ^ fb) as Eq by lia.
    assert (Z.shiftr q 1 = 2 ^ fb) as -> by (rewrite Eq, Z.shiftr_div_pow2 by lia;
      change (2 ^ 1) with 2; rewrite Z.mul_comm; apply Z.div_mul; lia).
    apply G; lia.
  - apply G; lia.
Qed.

(** *** The theorem on finite operands *)

(** The rounded sum of a non-zero exact value that was aligned at [x]. *)
Lemma ComposeRoundedFiniteSum_exact v x :
  v <> 0 -> 0 <= x <= 2 ^ 11 ->
  8 * Z.abs v < 2 ^ (fb + 5) * 2 ^ x ->
  ((8 * Z.abs v) mod 2 ^ x = 0 \/ 2 ^ (fb + 2) * 2 ^ x <= 8 * Z.abs v) ->
  ComposeRoundedFiniteSum
    {| sum_zero := false; sum_sign := v <? 0; sum_exponent := x + emin;
       sum_mantissa := jam (8 * Z.abs v) x |} f = Some (encode_sum f v).
Proof using F.
  intros Hv Hx Hup Hin. set (n := Z.abs v) in *.
  assert (1 <= fb) as Hfb1 by (fmt; lia).
  unfold ComposeRoundedFiniteSum; cbn [sum_zero sum_mantissa sum_exponent sum_sign].
  assert (Z.shiftl (Z.shiftl 1 fb) kAddGuardBits = 2 ^ (fb + 3)) as ->.
  { unfold kAddGuardBits. rewrite !Z.shiftl_mul_pow2, Z.pow_add_r by lia. lia. }
  assert (Z.shiftl (2 ^ (fb + 3)) 1 = 2 ^ (fb + 4)) as ->.
  { rewrite Z.shiftl_mul_pow2, !Z.pow_add_r by lia. lia. }
  destruct (normalize_right_spec (8 * n) x) as (x1 & Hx1 & E1 & Hlt & Hin1);
    [lia | lia | done | done |].
  bind_step E1.
  destruct (normalize_left_spec (8 * n) (jam (8 * n) x1, x1 + emin)) as ([g e] & E2 & HI & Hend).
  { unfold norm_inv; cbn [fst snd]. replace (x1 + emin - emin) with x1 by lia.
    split; [lia|]. split; [split; [apply jam_pos; lia | done]|].
    destruct Hin1 as [E|?]; [left|right; by left].
    unfold jam. rewrite E. cbn [Z.eqb]. pose proof (pow2_pos x1 ltac:(lia)).
    pose proof (Z.div_mod (8 * n) (2 ^ x1) ltac:(lia)). lia. }
  bind_step E2.
  destruct (norm_rounds n (g, e)) as [Er Es]; [lia | done | done |]. cbn [fst snd] in *.
  destruct HI as (Hxx & Hg & _). cbn [fst snd] in *.
  destruct (Z.ltb_spec e emin); [lia|]. f_equal.
  replace e with (e - emin + emin) at 1 by lia.
  rewrite ComposeRoundedNormal_spec; [|lia|lia|destruct Hend; [by left|right; lia]].
  unfold encode_sum, round_bits. fold n. rewrite Es, Er. done.
Qed.

Lemma AddBits_nonzero a b policy :
  finite f a -> finite f b -> value f a <> 0 -> value f b <> 0 ->
  AddBits a b f policy =
  Some (if value f a + value f b =? 0 then 0 else encode_sum f (value f a + value f b)).
Proof using F.
  intros Ha Hb Hza Hzb.
  destruct (Decode_finite a Ha) as (Ia & Na & _ & Za & xa & Da).
  destruct (Decode_finite b Hb) as (Ib & Nb & _ & Zb & xb & Db).
  rewrite value_0 in Hza by apply Ha. rewrite value_0 in Hzb by apply Hb.
  apply Z.eqb_neq in Hza, Hzb. rewrite Hza in Za. rewrite Hzb in Zb.
  unfold AddBits, ResolveSpecialAddResult. rewrite Ia, Na, Ib, Nb, Za, Zb. cbn [orb andb].
  rewrite (AddFiniteMantissas_exact _ _ _ _ _ _ Da Db).
  destruct (Z.eqb_spec (value f a + value f b) 0) as [|Hv].
  { unfold ComposeRoundedFiniteSum; cbn [sum_zero]. by rewrite Zero_sum. }
  destruct (sum_bounds _ _ _ _ _ _ Da Db) as (Hup & Hin).
  pose proof (da_x _ _ _ Da) as Xa. pose proof (da_x _ _ _ Db) as Xb.
  assert (exponent_max f <= 2 ^ 11) as Hmax
    by (destruct fmt_powers as (_ & ? & _); fmt; rewrite Emax; lia).
  apply ComposeRoundedFiniteSum_exact; [done | lia | done | done].
Qed.

(** *** Zero operands and the round trip *)

Lemma sign_mask_pos : 0 < sign_mask f.
Proof using F. fmt. rewrite Esign. apply pow2_pos. lia. Qed.

Lemma encoding_split b :
  0 <= b < 2 * sign_mask f ->
  b = (if is_negative f b then sign_mask f else 0) + b mod sign_mask f.
Proof using F.
  intros Hb. pose proof sign_mask_pos. unfold is_negative.
  destruct (Z.leb_spec (sign_mask f) b).
  - assert (b mod sign_mask f = b - sign_mask f) as ->; [|lia].
    symmetry. apply Z.mod_unique with 1; lia.
  - rewrite Z.mod_small by lia. lia.
Qed.

Lemma MaskedFiniteBits_id b : 0 <= b < 2 * sign_mask f -> MaskedFiniteBits b f = b.
Proof using F.
  intros Hb. destruct fmt_powers as (Pf & Pe & Pef). fmt. unfold MaskedFiniteBits.
  rewrite Esign in *. rewrite Eexp, Efrac. rewrite <- (Z.mul_1_l (2 ^ (eb + fb))).
  rewrite lor_disjoint by nia. rewrite Z.mul_1_l, Pef.
  replace (2 ^ eb * 2 ^ fb + (2 ^ eb - 1) * 2 ^ fb) with ((2 * 2 ^ eb - 1) * 2 ^ fb) by lia.
  rewrite lor_disjoint by lia.
  replace ((2 * 2 ^ eb - 1) * 2 ^ fb + (2 ^ fb - 1)) with (2 ^ (eb + fb + 1) - 1)
    by (rewrite pow2_succ, Pef by lia; lia).
  rewrite land_mask by lia. apply Z.mod_small. rewrite pow2_succ by lia. lia.
Qed.

Lemma magnitude_encode k q :
  0 <= k -> 0 <= q <= 2 * 2 ^ fb -> (k = 0 \/ 2 ^ fb <= q) ->
  magnitude fb (k * 2 ^ fb + q) = q * 2 ^ k.
Proof using F.
  intros Hk Hq Hn. destruct fmt_powers as (Pf & _). unfold magnitude.
  assert (forall E r, E * 2 ^ fb + r = k * 2 ^ fb + q -> 0 <= r < 2 ^ fb ->
    (k * 2 ^ fb + q) / 2 ^ fb = E /\ (k * 2 ^ fb + q) mod 2 ^ fb = r) as G.
  { intros E r Eq Hr. split; symmetry; [apply Z.div_unique with r | apply Z.mod_unique with E]; lia. }
  destruct (Z.lt_ge_cases q (2 ^ fb)) as [Hlt|Hge].
  - destruct Hn as [->|]; [|lia]. destruct (G 0 q) as [-> ->]; [lia | lia |].
    cbn [Z.eqb]. change (2 ^ 0) with 1. lia.
  - destruct (Z.eq_dec q (2 * 2 ^ fb)) as [->|].
    + destruct (G (k + 2) 0) as [-> ->]; [lia | lia |].
      destruct (Z.eqb_spec (k + 2) 0); [lia|].
      replace (k + 2 - 1) with (k + 1) by lia. rewrite pow2_succ by lia. lia.
    + destruct (G (k + 1) (q - 2 ^ fb)) as [-> ->]; [lia | lia |].
      destruct (Z.eqb_spec (k + 1) 0); [lia|]. replace (k + 1 - 1) with k by lia. lia.
Qed.

(** Every encoding below infinity is [k * 2^fb + q] with a normalised significand. *)
Lemma encoding_cases c :
  0 <= c -> exists k q, 0 <= k /\ 0 <= q < 2 * 2 ^ fb /\ (k = 0 \/ 2 ^ fb <= q) /\
    c = k * 2 ^ fb + q /\ magnitude fb c = q * 2 ^ k.
Proof using F.
  intros Hc. destruct fmt_powers as (Pf & _).
  pose proof (Z.div_mod c (2 ^ fb) ltac:(lia)). pose proof (Z.mod_pos_bound c (2 ^ fb) ltac:(lia)).
  assert (0 <= c / 2 ^ fb) by (apply Z.div_pos; lia).
  destruct (Z.eq_dec (c / 2 ^ fb) 0) as [E0|E0].
  - exists 0, c. repeat (split; [lia|]). rewrite <- magnitude_encode; [f_equal; lia | lia | lia | by left].
  - exists (c / 2 ^ fb - 1), (2 ^ fb + c mod 2 ^ fb). repeat (split; [lia|]).
    rewrite <- magnitude_encode; [f_equal; lia | lia | lia | right; lia].
Qed.

Lemma round_bits_magnitude c : 0 < c -> round_bits fb (magnitude fb c) = c /\ 0 < magnitude fb c.
Proof using F.
  intros Hc. destruct fmt_powers as (Pf & _). assert (1 <= fb) by (fmt; lia).
  destruct (encoding_cases c ltac:(lia)) as (k & q & Hk & Hq & Hn & Ec & ->).
  pose proof (pow2_pos k Hk). assert (0 < q) by (destruct Hn; nia).
  assert (scale_of fb (q * 2 ^ k) = k) as Es.
  { apply scale_of_spec; try lia.
    - rewrite Z.pow_add_r, Z.pow_add_r by lia. change (2 ^ 1) with 2. nia.
    - rewrite Z.pow_add_r by lia. destruct Hn as [->|]; [by left | right; nia]. }
  unfold round_bits. rewrite Es, rne_exact by lia. split; [lia | nia].
Qed.

(** Decoding to units and rounding back is the identity on finite encodings. *)
Lemma encode_value b : finite f b -> value f b <> 0 -> encode_sum f (value f b) = b.
Proof using F.
  intros Hb Hv. destruct Hb as [Hr Hinf]. pose proof Hv as Hm. rewrite (value_0 b Hr) in Hm.
  pose proof (Z.mod_pos_bound b (sign_mask f) sign_mask_pos).
  destruct (round_bits_magnitude (b mod sign_mask f)) as [Erb Hpos]; [lia|].
  rewrite (encoding_split b Hr) at 2. unfold encode_sum, value in *.
  destruct (is_negative f b).
  - destruct (Z.ltb_spec (- magnitude fb (b mod sign_mask f)) 0); [|lia].
    rewrite Z.abs_opp, Z.abs_eq by lia. rewrite Erb. lia.
  - destruct (Z.ltb_spec (magnitude fb (b mod sign_mask f)) 0); [lia|].
    rewrite Z.abs_eq by lia. rewrite Erb. lia.
Qed.

(** The sign of an exact zero sum. *)
Definition zero_sum_bits (a b : Z) (policy : StrictFloatReductionPolicy) : Z :=
  if bool_decide (signed_zero_policy policy = PreserveOnlyWhenBothNegative) &&
     is_negative f a && is_negative f b && (value f a =? 0) && (value f b =? 0)
  then sign_mask f else 0.

(** The result on finite operands, as an equation. *)
Lemma AddBits_finite a b policy :
  finite f a -> finite f b ->
  AddBits a b f policy =
  Some (if value f a + value f b =? 0 then zero_sum_bits a b policy
        else encode_sum f (value f a + value f b)).
Proof using F.
  intros Ha Hb. unfold zero_sum_bits.
  destruct (Z.eqb_spec (value f a) 0) as [Za|Za]; destruct (Z.eqb_spec (value f b) 0) as [Zb|Zb].
  2,3,4: rewrite !andb_false_r || rewrite andb_false_r.
  4: { rewrite andb_false_l || idtac. by rewrite AddBits_nonzero by done. }
  all: pose proof Za as Ma; pose proof Zb as Mb;
    rewrite value_0 in Ma by apply Ha; rewrite value_0 in Mb by apply Hb;
    destruct (Decode_finite a Ha) as (Ia & Na & Sa & Za' & _);
    destruct (Decode_finite b Hb) as (Ib & Nb & Sb & Zb' & _);
    unfold AddBits, ResolveSpecialAddResult; rewrite Ia, Na, Ib, Nb, Za', Zb', Sa, Sb; cbn [orb andb].
  - rewrite Ma, Mb. cbn [Z.eqb andb]. rewrite Za, Zb, Zero_sum. rewrite !andb_true_r. done.
  - rewrite Ma. apply Z.eqb_neq in Mb as ->. cbn [Z.eqb andb].
    rewrite MaskedFiniteBits_id by apply Hb. rewrite Za, Z.add_0_l.
    destruct (Z.eqb_spec (value f b) 0); [done|]. by rewrite encode_value.
  - rewrite Mb. apply Z.eqb_neq in Ma as ->. cbn [Z.eqb andb].
    rewrite MaskedFiniteBits_id by apply Ha. rewrite Zb, Z.add_0_r.
    destruct (Z.eqb_spec (value f a) 0); [done|]. by rewrite encode_value.
Qed.

(** *** Nearest value *)

Lemma rne_nearest v k j :
  0 <= k ->
  Z.abs (rne v k * 2 ^ k - v) < Z.abs (j * 2 ^ k - v) \/ j = rne v k \/
  (Z.abs (rne v k * 2 ^ k - v) = Z.abs (j * 2 ^ k - v) /\ Z.even (rne v k) = true).
Proof using.
  intros Hk. pose proof (pow2_pos k Hk) as P. unfold rne.
  pose proof (Z.div_mod v (2 ^ k) ltac:(lia)) as Ev.
  pose proof (Z.mod_pos_bound v (2 ^ k) ltac:(lia)) as Bv.
  set (q := v / 2 ^ k) in *. set (r := v mod 2 ^ k) in *. set (p := 2 ^ k) in *.
  destruct (Z.ltb_spec p (2 * r)); cbn [orb].
  - destruct (Z.lt_trichotomy j (q + 1)) as [?|[?|?]]; [left; nia | tauto | left; nia].
  - destruct (Z.eqb_spec (2 * r) p) as [Et|Et]; cbn [andb].
    + destruct (Z.odd q) eqn:Eo.
      * assert (Z.even (q + 1) = true) by (rewrite Z.even_add, <- Z.negb_odd, Eo; done).
        destruct (Z.eq_dec j (q + 1)); [tauto|]. destruct (Z.eq_dec j q) as [->|]; [right; right; split; [nia | done]|].
        destruct (Z.lt_ge_cases j q); left; nia.
      * assert (Z.even q = true) by (rewrite <- Z.negb_odd, Eo; done).
        destruct (Z.eq_dec j q); [tauto|]. destruct (Z.eq_dec j (q + 1)) as [->|]; [right; right; split; [nia | done]|].
        destruct (Z.lt_ge_cases j q); left; nia.
    + destruct (Z.lt_trichotomy j q) as [?|[?|?]]; [left; nia | tauto | left; nia].
Qed.

(** The rounded magnitude against any other representable magnitude. *)
Lemma round_bits_nearest n c :
  0 < n -> 0 <= c ->
  Z.abs (magnitude fb (round_bits fb n) - n) < Z.abs (magnitude fb c - n) \/
  magnitude fb c = magnitude fb (round_bits fb n) \/
  (Z.abs (magnitude fb (round_bits fb n) - n) = Z.abs (magnitude fb c - n) /\
   Z.even (round_bits fb n) = true).
Proof using F.
  intros Hn Hc. destruct fmt_powers as (Pf & _). assert (1 <= fb) by (fmt; lia).
  set (k := scale_of fb n). assert (0 <= k) as Hk by (unfold k, scale_of; lia).
  pose proof (Z.log2_spec n Hn) as [Llo Lup].
  assert (n < 2 * 2 ^ fb * 2 ^ k) as Hup.
  { assert (2 ^ Z.succ (Z.log2 n) <= 2 ^ (1 + fb + k))
      by (apply Z.pow_le_mono_r; unfold k, scale_of; lia).
    rewrite !Z.pow_add_r in * by lia. lia. }
  assert (k = 0 \/ 2 ^ fb * 2 ^ k <= n) as Hlo.
  { destruct (Z.eq_dec k 0) as [|Hnz]; [by left|right]. rewrite <- Z.pow_add_r by lia.
    replace (fb + k) with (Z.log2 n) by (unfold k, scale_of in *; lia). done. }
  pose proof (pow2_pos k Hk) as Pk.
  assert (0 <= rne n k <= 2 * 2 ^ fb) as Bq by (apply rne_bounds; lia).
  assert (k = 0 \/ 2 ^ fb <= rne n k) as Bq'.
  { destruct Hlo as [|Hlo]; [by left|right]. apply (rne_bounds n k (2 ^ fb) (2 * 2 ^ fb)); lia. }
  assert (magnitude fb (round_bits fb n) = rne n k * 2 ^ k) as Em
    by (unfold round_bits; fold k; apply magnitude_encode; lia).
  assert (Z.even (round_bits fb n) = Z.even (rne n k)) as Ee.
  { unfold round_bits. fold k. rewrite Z.even_add, Z.even_mul, (Z.even_pow 2 fb) by lia.
    cbn. rewrite orb_true_r. by destruct (Z.even (rne n k)). }
  rewrite Em, Ee.
  destruct (encoding_cases c Hc) as (kc & qc & Hkc & Hqc & _ & _ & ->).
  destruct (Z.le_gt_cases k kc) as [Hge|Hlt].
  - assert (qc * 2 ^ kc = qc * 2 ^ (kc - k) * 2 ^ k) as ->
      by (rewrite <- Z.mul_assoc, <- Z.pow_add_r by lia; do 2 f_equal; lia).
    destruct (rne_nearest n k (qc * 2 ^ (kc - k)) Hk) as [?|[->|?]]; tauto.
  - left. destruct Hlo as [|Hlo]; [lia|].
    assert (qc * 2 ^ kc < 2 ^ fb * 2 ^ k) as Hmc.
    { assert (2 * 2 ^ kc <= 2 ^ k) by (rewrite <- pow2_succ by lia; apply Z.pow_le_mono_r; lia).
      pose proof (pow2_pos kc Hkc). nia. }
    destruct (rne_nearest n k (2 ^ fb) Hk) as [?|[E|[? _]]]; nia.
Qed.

(** No finite float is closer to a non-zero sum than its correctly rounded
    encoding, and an equally close but different one loses to an even result. *)
Definition nearest (r v : Z) : Prop :=
  forall c, finite f c ->
  Z.abs (value f r - v) < Z.abs (value f c - v) \/ value f c = value f r \/
  (Z.abs (value f r - v) = Z.abs (value f c - v) /\ Z.even r = true).

Lemma encode_sum_nearest s : s <> 0 -> finite f (encode_sum f s) -> nearest (encode_sum f s) s.
Proof using F.
  intros Hv Hr c Hc.
  pose proof sign_mask_pos as Ps. destruct fmt_powers as (Pf & Pe & Pef).
  assert (0 < inf_bits f < sign_mask f) as Hinf
    by (unfold inf_bits; fmt; rewrite Esign, Emax, Pef; nia).
  set (n := Z.abs s). assert (0 < n) as Hn by (subst n; lia).
  set (R := round_bits fb n). assert (0 <= R) as HR.
  { subst R. unfold round_bits, scale_of. assert (0 <= rne n (Z.max 0 (Z.log2 n - fb))); [|nia].
    apply rne_bounds with (n + 1); [lia | lia|]. pose proof (pow2_pos (Z.max 0 (Z.log2 n - fb)) ltac:(lia)). nia. }
  assert (R < inf_bits f /\ encode_sum f s mod sign_mask f = R /\
          is_negative f (encode_sum f s) = (s <? 0)) as (HRinf & Emod & Eneg).
  { destruct Hr as [_ Hr]. unfold encode_sum in *. fold n R in Hr |- *. unfold is_negative.
    assert (0 <= Z.min (inf_bits f) R < sign_mask f) as B by lia.
    assert (((if s <? 0 then sign_mask f else 0) + Z.min (inf_bits f) R) mod sign_mask f
            = Z.min (inf_bits f) R) as Em.
    { destruct (s <? 0); symmetry; [apply Z.mod_unique with 1 | apply Z.mod_unique with 0]; lia. }
    rewrite Em in Hr. split; [lia|]. split; [rewrite Em; lia|].
    destruct (s <? 0); [apply Z.leb_le | apply Z.leb_gt]; lia. }
  assert (value f (encode_sum f s) = (if s <? 0 then -1 else 1) * magnitude fb R) as EvR.
  { unfold value. rewrite Emod, Eneg. destruct (s <? 0); lia. }
  assert (Z.even (encode_sum f s) = Z.even R) as Eeven.
  { unfold encode_sum. fold n R. rewrite Z.min_r by lia. rewrite Z.even_add.
    destruct (s <? 0); [|by destruct (Z.even R)].
    fmt. rewrite Esign, Z.even_pow by lia. by destruct (Z.even R). }
  rewrite EvR, Eeven.
  set (mc := c mod sign_mask f). assert (0 <= mc) by (apply Z.mod_pos_bound; lia).
  assert (forall m, 0 <= magnitude fb m \/ m < 0) as Hmag.
  { intros m. destruct (Z.lt_ge_cases m 0) as [|Hm]; [by right|left].
    destruct (encoding_cases m Hm) as (k & q & Hk & Hq & _ & _ & ->). pose proof (pow2_pos k Hk). nia. }
  destruct (Hmag mc) as [Hmc|]; [|lia]. destruct (Hmag R) as [HmR|]; [|lia].
  pose proof (round_bits_nearest n mc Hn ltac:(lia)) as N1. fold R in N1.
  pose proof (round_bits_nearest n 0 Hn ltac:(lia)) as N0. fold R in N0.
  change (magnitude fb 0) with (if 0 / 2 ^ fb =? 0 then 0 mod 2 ^ fb else (2 ^ fb + 0 mod 2 ^ fb) * 2 ^ (0 / 2 ^ fb - 1)) in N0.
  rewrite Z.div_0_l, Z.mod_0_l in N0 by lia. cbn [Z.eqb] in N0.
  unfold value. fold mc. subst n.
  destruct (Z.ltb_spec s 0), (is_negative f c), (Z.eq_dec (magnitude fb mc) 0);
    destruct N1 as [N1|[N1|[N1 He]]], N0 as [N0|[N0|[N0 He0]]];
    first [left; lia | right; left; lia | right; right; split; [lia | done]].
Qed.

(** C15: On finite operands [AddBits] terminates within its normalisation fuel and
    returns the correctly rounded encoding of the exact sum: the nearest finite
    float (ties to even), an infinity beyond the largest one, and for a zero sum
    the zero whose sign the policy selects. *)
Theorem AddBits_correctly_rounded a b policy :
  finite f a -> finite f b ->
  let s := value f a + value f b in
  exists r, AddBits a b f policy = Some r /\
    (s = 0 -> r = zero_sum_bits a b policy) /\
    (s <> 0 -> r = encode_sum f s /\ (finite f r -> nearest r s)).
Proof using F.
  intros Ha Hb s. rewrite AddBits_finite by done. eexists; split; [done|]. fold s.
  destruct (Z.eqb_spec s 0) as [|Hs]; (split; [done|]); [done|].
  intros _. split; [done|]. intros Hr. by apply encode_sum_nearest.
Qed.

(** Decoded operands enter the alignment symmetrically. *)
Lemma AddFiniteMantissas_comm l r : AddFiniteMantissas l r = AddFiniteMantissas r l.
Proof using.
  unfold AddFiniteMantissas. rewrite (Z.max_comm (exponent r)). cbv zeta.
  set (x := Z.max _ _). set (a := if sign l then _ else _). set (b := if sign r then _ else _).
  by rewrite (Z.add_comm b a).
Qed.

Lemma is_special bits :
  0 <= bits < 2 * sign_mask f -> inf (Decode bits f) = true \/ nan (Decode bits f) = true \/ finite f bits.
Proof using F.
  intros Hb. destruct (decode_fields bits Hb) as (Ee & Ef & _ & HE).
  destruct fmt_powers as (Pf & Pe & Pef). unfold Decode, finite. rewrite Ee, Ef.
  set (m := bits mod sign_mask f) in *.
  pose proof (Z.div_mod m (2 ^ fb) ltac:(lia)). pose proof (Z.mod_pos_bound m (2 ^ fb) ltac:(lia)).
  destruct (Z.eqb_spec (m / 2 ^ fb) (exponent_max f)) as [E|E]; cbn.
  - destruct (m mod 2 ^ fb =? 0); cbn; tauto.
  - right; right. split; [done|]. unfold inf_bits. fmt. rewrite Emax in *. nia.
Qed.

(** The addition is total and commutative on all encodings of the format,
    infinities and NaNs included. *)
Theorem AddBits_total_comm a b policy :
  0 <= a < 2 * sign_mask f -> 0 <= b < 2 * sign_mask f ->
  AddBits a b f policy = AddBits b a f policy /\ is_Some (AddBits a b f policy).
Proof using F.
  intros Ha Hb. split.
  - unfold AddBits. rewrite (AddFiniteMantissas_comm (Decode b f)).
    unfold ResolveSpecialAddResult.
    destruct (nan (Decode a f)) eqn:Na, (nan (Decode b f)) eqn:Nb; cbn [orb]; try done.
    destruct (inf (Decode a f)) eqn:Ia, (inf (Decode b f)) eqn:Ib; cbn [orb andb negb]; try done.
    + by destruct (sign (Decode a f)), (sign (Decode b f)).
    + destruct (zero (Decode a f)), (zero (Decode b f)); cbn [andb]; try done.
      do 2 f_equal. rewrite <- !andb_assoc. f_equal. apply andb_comm.
  - destruct (is_special a Ha) as [Ia|[Na|Fa]]; destruct (is_special b Hb) as [Ib|[Nb|Fb]];
      try (rewrite AddBits_finite by done; by eexists);
      unfold AddBits, ResolveSpecialAddResult;
      repeat match goal with H : _ = true |- _ => rewrite H; clear H end;
      rewrite ?orb_true_r; cbn [orb]; repeat case_match; try done; by eexists.
Qed.

(** The addition is total on encodings of the format and stays in the format. *)
Lemma encode_sum_range s : 0 <= encode_sum f s < 2 * sign_mask f.
Proof using F.
  destruct fmt_powers as (Pf & Pe & Pef). pose proof sign_mask_pos.
  assert (0 <= inf_bits f < sign_mask f) as Hi by (unfold inf_bits; fmt; rewrite Emax, Esign; nia).
  assert (0 <= round_bits fb (Z.abs s)).
  { unfold round_bits, rne, scale_of. assert (0 <= Z.max 0 (Z.log2 (Z.abs s) - fb)) as Hk by lia.
    pose proof (pow2_pos _ Hk). pose proof (Z.div_pos (Z.abs s) _ ltac:(lia) H0). case_match; nia. }
  unfold encode_sum. destruct (s <? 0); lia.
Qed.

Lemma Infinity_range sgn : 0 <= Infinity sgn f < 2 * sign_mask f.
Proof using F.
  destruct fmt_powers as (Pf & Pe & Pef). pose proof sign_mask_pos.
  assert (0 <= inf_bits f < sign_mask f) as Hi by (unfold inf_bits; fmt; rewrite Emax, Esign; nia).
  rewrite Infinity_sum. destruct sgn; lia.
Qed.

Lemma AddBits_total a b policy :
  0 <= canonical_nan f < 2 * sign_mask f ->
  0 <= a < 2 * sign_mask f -> 0 <= b < 2 * sign_mask f ->
  exists r, AddBits a b f policy = Some r /\ 0 <= r < 2 * sign_mask f.
Proof using F.
  intros Hn Ha Hb. pose proof sign_mask_pos.
  assert (forall r, AddBits a b f policy = Some r -> 0 <= r < 2 * sign_mask f ->
    exists r, AddBits a b f policy = Some r /\ 0 <= r < 2 * sign_mask f) as K by eauto.
  pose proof (Infinity_range true). pose proof (Infinity_range false).
  destruct (is_special a Ha) as [Ia|[Na|Fa]]; destruct (is_special b Hb) as [Ib|[Nb|Fb]];
    try (eapply K; [by apply AddBits_finite | case_match; [unfold zero_sum_bits; case_match; lia|
      apply encode_sum_range]]);
    unfold AddBits, ResolveSpecialAddResult;
    repeat match goal with H : _ = true |- _ => rewrite H; clear H end;
    rewrite ?orb_true_r; cbn [orb]; repeat case_match; simplify_eq; try done;
    eexists; (split; [reflexivity|]); (done || apply Infinity_range).
Qed.

(** The non-finite cases: a NaN operand or opposite infinities give the
    canonical quiet NaN, any other infinite operand its own infinity. *)
Theorem AddBits_special a b policy :
  let da := Decode a f in let db := Decode b f in
  (nan da || nan db = true -> AddBits a b f policy = Some (canonical_nan f)) /\
  (nan da || nan db = false -> inf da = true ->
   AddBits a b f policy =
   Some (if inf db && negb (eqb (sign da) (sign db)) then canonical_nan f
         else Infinity (sign da) f)).
Proof using.
  cbv zeta. unfold AddBits, ResolveSpecialAddResult. split.
  - by intros ->.
  - intros -> ->. cbn [orb andb]. by destruct (inf (Decode b f) && _).
Qed.
End Format.

Lemma AddFloat32Bits_total a b policy :
  exists r, AddFloat32Bits a b policy = Some r /\ is_u32 r.
Proof.
  unfold AddFloat32Bits, is_u32. change 0xFFFFFFFF with (2 ^ 32 - 1). rewrite !land_mask by lia.
  destruct (AddBits_total Float32Format_ok (a mod 2 ^ 32) (b mod 2 ^ 32) policy) as (r & E & Hr);
    cbn in *; try (apply Z.mod_pos_bound); [lia.. |]. exists r. split; [done | lia].
Qed.

Lemma AddFloat64Bits_total a b policy :
  is_u64 a -> is_u64 b -> exists r, AddFloat64Bits a b policy = Some r /\ is_u64 r.
Proof.
  unfold AddFloat64Bits, is_u64. intros Ha Hb.
  destruct (AddBits_total Float64Format_ok a b policy) as (r & E & Hr); cbn in *; [lia.. |].
  exists r. split; [done | lia].
Qed.

Lemma AddBits_correctly_rounded_witness :
  finite Float32Format 0x3f800000 /\ finite Float32Format 0x33800001 /\
  exists r, AddBits 0x3f800000 0x33800001 Float32Format StrictFloat32ReductionPolicy = Some r /\
    r = encode_sum Float32Format
          (value Float32Format 0x3f800000 + value Float32Format 0x33800001) /\
    r = 0x3f800001.
Proof.
  assert (finite Float32Format 0x3f800000) as Ha by (repeat split; vm_compute; congruence).
  assert (finite Float32Format 0x33800001) as Hb by (repeat split; vm_compute; congruence).
  split; [done|]. split; [done|].
  destruct (AddBits_correctly_rounded Float32Format_ok _ _ StrictFloat32ReductionPolicy Ha Hb)
    as (r & E & _ & Hr).
  destruct Hr as [-> _]; [vm_compute; congruence|].
  eexists. split; [exact E|]. split; [done | vm_compute; reflexivity].
Defined.

Lemma AddBits_total_comm_witness :
  AddBits 0x7f800000 0xff800001 Float32Format StrictFloat32ReductionPolicy =
  AddBits 0xff800001 0x7f800000 Float32Format StrictFloat32ReductionPolicy.
Proof.
  apply (AddBits_total_comm Float32Format_ok); split; vm_compute; congruence.
Defined.

Lemma AddBits_special_witness :
  AddBits 0x7f800000 0x3f800000 Float32Format StrictFloat32ReductionPolicy = Some 0x7f800000.
Proof.
  rewrite (proj2 (AddBits_special (f := Float32Format) 0x7f800000 0x3f800000
    StrictFloat32ReductionPolicy)); vm_compute; reflexivity.
Defined.

(** Strict addition is not associative: this is why the fold graph fixes the
    shape of the reduction tree instead of leaving it to the workers. *)
Theorem AddFloat32Bits_not_associative :
  exists a b c ab bc l r,
    let add := fun x y => AddFloat32Bits x y StrictFloat32ReductionPolicy in
    add a b = Some ab /\ add ab c = Some l /\ add b c = Some bc /\ add a bc = Some r /\ l <> r.
Proof.
  exists 0x4b800000, 0x3f800000, 0x3f800000, 0x4b800000, 0x40000000, 0x4b800000, 0x4b800001.
  cbv zeta. repeat (split; [vm_compute; reflexivity|]). vm_compute. congruence.
Qed.
End StrictFloatFacts.
