(* ===== verification/FoldSpec.v ===== *)
(** * FoldSpec: the law table of the fold operations

    [reduction/primitives.hpp] and [reduction/fold/spec/*.cpp]: the identity,
    padding and overflow law of each [FoldOperation], the admission of strict
    floating-point policies, and the combiner [CombineFoldValues]. *)
From stdpp Require Import base numbers list option strings.
From Stdlib Require Import ZArith Lia.
From S2P Require Import Prelude FoldModel StrictFloat.

(** ** [reduction/primitives.hpp] *)
Definition kFixedBinaryTreeOddPadding : Z := 0xA11CE5.

Definition MixHash (seed value : Z) : Z :=
  Z.lxor seed
    (wrap64 (value + 0x9E3779B97F4A7C15 + wrap64 (Z.shiftl seed 6) + Z.shiftr seed 2)).

Definition CombineHashes (left right : Z) : Z :=
  let seed := 0xC6A4A7935BD1E995 in
  let seed := MixHash seed left in
  MixHash seed right.

Definition SaturatingAddU64 (left right : Z) : Z :=
  let max_value := U64_MAX in
  if left >? max_value - right then max_value else wrap64 (left + right).

(** ** [fold/spec/identity.cpp], [fold/spec/laws.cpp] *)
Definition PaddingLaw (operation : FoldOperation) : FoldPaddingLaw :=
  match operation with
  | Xor | Max | SaturatingAdd | StrictFloat32Add | StrictFloat64Add => PadIdentity
  | Min => PadUnsignedMax
  | FixedBinaryTreeHash => PadFixedHashOdd
  end.

Definition OverflowLaw (operation : FoldOperation) : FoldOverflowLaw :=
  match operation with
  | Xor => OvfBitwiseInteger
  | Max | Min => OvfUnsignedCompare
  | SaturatingAdd => OvfSaturatingUnsignedAdd
  | FixedBinaryTreeHash => OvfFixedHashMix
  | StrictFloat32Add | StrictFloat64Add => OvfStrictIeee754Add
  end.

Definition FoldIdentityValue (operation : FoldOperation) : Z :=
  match operation with
  | Xor | Max | SaturatingAdd | StrictFloat32Add | StrictFloat64Add => 0
  | Min => U64_MAX
  | FixedBinaryTreeHash => 0
  end.

Definition FoldPaddingValue (operation : FoldOperation) : Z :=
  match PaddingLaw operation with
  | PadIdentity => FoldIdentityValue operation
  | PadUnsignedMax => U64_MAX
  | PadFixedHashOdd => kFixedBinaryTreeOddPadding
  | PadNone => 0
  end.

(** ** [fold/spec/describe.cpp] *)
Record FoldPrimitiveSpec := {
  prim_operation : FoldOperation;
  prim_value_domain : FoldValueDomain;
  supported : bool;
  fixed_topology : bool;
  admits_floating_point : bool;
  requires_strict_floating_point : bool;
  identity_value : Z;
  prim_padding_value : Z;
  prim_padding_law : FoldPaddingLaw;
  prim_overflow_law : FoldOverflowLaw;
  prim_strict_float_reduction : StrictFloatReductionPolicy;
}.

Definition IntegerSpec (operation : FoldOperation) (value_domain : FoldValueDomain)
    : FoldPrimitiveSpec := {|
  prim_operation := operation;
  prim_value_domain := value_domain;
  supported := true;
  fixed_topology := true;
  admits_floating_point := false;
  requires_strict_floating_point := false;
  identity_value := FoldIdentityValue operation;
  prim_padding_value := FoldPaddingValue operation;
  prim_padding_law := PaddingLaw operation;
  prim_overflow_law := OverflowLaw operation;
  prim_strict_float_reduction := DefaultStrictFloatPolicy |}.

Definition StrictFloatSpec (operation : FoldOperation) (value_domain : FoldValueDomain)
    (policy : StrictFloatReductionPolicy) : FoldPrimitiveSpec :=
  let spec := IntegerSpec operation value_domain in {|
  prim_operation := prim_operation spec;
  prim_value_domain := prim_value_domain spec;
  supported := supported spec;
  fixed_topology := fixed_topology spec;
  admits_floating_point := true;
  requires_strict_floating_point := true;
  identity_value := identity_value spec;
  prim_padding_value := prim_padding_value spec;
  prim_padding_law := prim_padding_law spec;
  prim_overflow_law := prim_overflow_law spec;
  prim_strict_float_reduction := policy |}.

(** The enumeration has no value outside the seven operations, so the fall-through
    description of an unsupported operation is unreachable here. *)
Definition DescribeFoldOperation (operation : FoldOperation) : FoldPrimitiveSpec :=
  match operation with
  | Xor => IntegerSpec operation DomBitwiseInteger
  | Max | Min | SaturatingAdd => IntegerSpec operation DomUnsignedInteger
  | FixedBinaryTreeHash => IntegerSpec operation DomHashDigest
  | StrictFloat32Add => StrictFloatSpec operation DomFloat32Strict StrictFloat32ReductionPolicy
  | StrictFloat64Add => StrictFloatSpec operation DomFloat64Strict StrictFloat64ReductionPolicy
  end.

(** ** [fold/spec/policy.cpp] *)
Definition IsFloatOperation (operation : FoldOperation) : bool :=
  bool_decide (operation = StrictFloat32Add) || bool_decide (operation = StrictFloat64Add).

Definition IsSupportedFoldOperation (operation : FoldOperation) : bool :=
  let spec := DescribeFoldOperation operation in
  supported spec && negb (bool_decide (prim_value_domain spec = DomUnsupported)).

Definition FoldOperationAllowsFloatingPoint (operation : FoldOperation) : bool :=
  admits_floating_point (DescribeFoldOperation operation).

Definition StrictFloatReductionValid (operation : FoldOperation)
    (policy : StrictFloatReductionPolicy) : bool :=
  if negb (IsFloatOperation operation) then negb (policy_valid policy)
  else
    let primitive := DescribeFoldOperation operation in
    policy_valid policy &&
    bool_decide (policy_value_domain policy = prim_value_domain primitive) &&
    bool_decide (rounding_mode policy = NearestTiesToEven) &&
    bool_decide (nan_policy policy = CanonicalQuiet) &&
    (bool_decide (signed_zero_policy policy = CanonicalPositive) ||
     bool_decide (signed_zero_policy policy = PreserveOnlyWhenBothNegative)) &&
    bool_decide (infinity_policy policy = PreserveInfinity) &&
    bool_decide (subnormal_policy policy = PreserveSubnormal) &&
    bool_decide (fma_policy policy = ForbiddenFma).

(** ** [fold/spec/combine.cpp]

    The strict additions run loops, so they are partial in the model; they are
    total on 64-bit operands ([CombineFoldValues_total]). *)
Definition CombineFoldValues (operation : FoldOperation) (left right : Z)
    (policy : StrictFloatReductionPolicy) : option Z :=
  match operation with
  | Xor => Some (Z.lxor left right)
  | Max => Some (Z.max left right)
  | Min => Some (Z.min left right)
  | SaturatingAdd => Some (SaturatingAddU64 left right)
  | FixedBinaryTreeHash => Some (CombineHashes left right)
  | StrictFloat32Add => StrictFloat.AddFloat32Bits left right policy
  | StrictFloat64Add => StrictFloat.AddFloat64Bits left right policy
  end.

(** ** Facts *)
Module FoldSpecFacts.

Lemma IsSupportedFoldOperation_true operation : IsSupportedFoldOperation operation = true.
Proof. by destruct operation. Qed.

Lemma supported_true operation : supported (DescribeFoldOperation operation) = true.
Proof. by destruct operation. Qed.

Lemma FoldPaddingValue_u64 operation : is_u64 (FoldPaddingValue operation).
Proof. destruct operation; split; vm_compute; congruence. Qed.
Lemma FoldIdentityValue_u64 operation : is_u64 (FoldIdentityValue operation).
Proof. destruct operation; split; vm_compute; congruence. Qed.
Lemma prim_padding_value_eq operation :
  prim_padding_value (DescribeFoldOperation operation) = FoldPaddingValue operation.
Proof. by destruct operation. Qed.
Lemma prim_padding_law_eq operation :
  prim_padding_law (DescribeFoldOperation operation) = PaddingLaw operation.
Proof. by destruct operation. Qed.
Lemma requires_admits operation :
  requires_strict_floating_point (DescribeFoldOperation operation) =
  admits_floating_point (DescribeFoldOperation operation).
Proof. by destruct operation. Qed.

Lemma lxor_u64 a b : is_u64 a -> is_u64 b -> is_u64 (Z.lxor a b).
Proof.
  unfold is_u64. intros Ha Hb. assert (0 <= Z.lxor a b) by (apply Z.lxor_nonneg; lia).
  split; [done|]. destruct (Z.eq_dec (Z.lxor a b) 0) as [->|]; [done|].
  apply Z.lt_succ_r. change (Z.succ U64_MAX) with (2 ^ 64). apply Z.log2_lt_pow2; [lia|].
  pose proof (Z.log2_lxor a b ltac:(lia) ltac:(lia)).
  assert (forall x, 0 <= x <= U64_MAX -> Z.log2 x < 64) as G.
  { intros x Hx. destruct (Z.eq_dec x 0) as [->|]; [done|]. apply Z.log2_lt_pow2; lia. }
  pose proof (G a Ha). pose proof (G b Hb). lia.
Qed.

Lemma MixHash_u64 seed value : is_u64 seed -> is_u64 (MixHash seed value).
Proof. intros. apply lxor_u64; [done | apply wrap64_range]. Qed.

Lemma SaturatingAddU64_min a b :
  is_u64 a -> is_u64 b -> SaturatingAddU64 a b = Z.min U64_MAX (a + b).
Proof.
  unfold is_u64, SaturatingAddU64. intros Ha Hb. cbv zeta.
  if_cases; [lia|]. rewrite wrap64_small by (unfold is_u64; lia). lia.
Qed.

Lemma CombineFoldValues_total operation a b policy :
  is_u64 a -> is_u64 b ->
  exists r, CombineFoldValues operation a b policy = Some r /\ is_u64 r.
Proof.
  intros Ha Hb. destruct operation; cbn [CombineFoldValues].
  1-5: eexists; split; [reflexivity|].
  - by apply lxor_u64.
  - unfold is_u64 in *; lia.
  - unfold is_u64 in *; lia.
  - rewrite SaturatingAddU64_min by done. unfold is_u64 in *; lia.
  - by do 2 apply MixHash_u64.
  - destruct (StrictFloatFacts.AddFloat32Bits_total a b policy) as (r & -> & Hr).
    exists r. unfold is_u32, is_u64 in *. split; [done | lia].
  - by apply StrictFloatFacts.AddFloat64Bits_total.
Qed.

(** The operations whose order of evaluation cannot be observed. *)
Definition order_free (operation : FoldOperation) : bool :=
  match operation with Xor | Max | Min | SaturatingAdd => true | _ => false end.

(** The mathematical operation behind an order-free combiner. *)
Definition monoid_op (operation : FoldOperation) (a b : Z) : Z :=
  match operation with
  | Xor => Z.lxor a b
  | Max => Z.max a b
  | Min => Z.min a b
  | _ => Z.min U64_MAX (a + b)
  end.

Lemma combine_monoid operation a b policy :
  order_free operation = true -> is_u64 a -> is_u64 b ->
  CombineFoldValues operation a b policy = Some (monoid_op operation a b).
Proof.
  destruct operation; cbn; try done. intros. by rewrite SaturatingAddU64_min.
Qed.

Lemma monoid_u64 operation a b :
  order_free operation = true -> is_u64 a -> is_u64 b -> is_u64 (monoid_op operation a b).
Proof. destruct operation; cbn; try done; [intros; by apply lxor_u64 |..]; unfold is_u64; lia. Qed.

Lemma monoid_assoc operation a b c :
  order_free operation = true -> is_u64 a -> is_u64 b -> is_u64 c ->
  monoid_op operation a (monoid_op operation b c) = monoid_op operation (monoid_op operation a b) c.
Proof.
  destruct operation; cbn; try done; unfold is_u64; intros.
  - by rewrite Z.lxor_assoc.
  - lia.
  - lia.
  - lia.
Qed.

Lemma monoid_comm operation a b :
  order_free operation = true -> monoid_op operation a b = monoid_op operation b a.
Proof. destruct operation; cbn; try done; intros; [apply Z.lxor_comm | lia..]. Qed.

Lemma monoid_padding operation a :
  order_free operation = true -> is_u64 a ->
  monoid_op operation a (FoldPaddingValue operation) = a.
Proof.
  destruct operation; cbn; try done; unfold is_u64; intros.
  - apply Z.lxor_0_r.
  - lia.
  - lia.
  - lia.
Qed.
End FoldSpecFacts.
