(* ===== verification/FoldGraph.v ===== *)
(** * FoldGraph: construction of the fixed reduction tree

    [kernel/reduction/fold/graph/*.hpp] and [reduction/graph/**]: the fold graph,
    its counts, [BuildFoldGraph] with its population loops, and the validator of
    freshly built graphs. [None] is undefined behaviour (an access out of range) or
    exhausted fuel; both are proved impossible for [BuildFoldGraph]. *)
From stdpp Require Import base numbers list option strings.
From Stdlib Require Import ZArith Lia.
From S2P Require Import Prelude Checked FoldModel FoldSpec.

(** ** Data *)
Record FoldGraphEdge := {
  edge_level : Z;
  left_slot : Z;
  right_slot : Z;
  output_slot : Z;
  edge_operation : FoldOperation;
  padding_law : FoldPaddingLaw;
  padding_value : Z;
  right_is_padding : bool;
}.

Inductive FoldGraphNodeKind := WorkerLocalPartial | GlobalOrderedSlot | Reduction.
#[export] Instance FoldGraphNodeKind_eq_dec : EqDecision FoldGraphNodeKind.
Proof. solve_decision. Defined.

Record FoldGraphNode := {
  kind : FoldGraphNodeKind;
  topological_index : Z;
  node_slot : Z;
  node_left_slot : Z;
  node_right_slot : Z;
  node_operation : FoldOperation;
  node_value_domain : FoldValueDomain;
  node_padding_law : FoldPaddingLaw;
  node_overflow_law : FoldOverflowLaw;
  node_right_is_padding : bool;
}.

Record FoldGraph := {
  operation : FoldOperation;
  value_domain : FoldValueDomain;
  strict_float_reduction : StrictFloatReductionPolicy;
  partition_count : Z;
  worker_local_slot_count : Z;
  global_ordered_slot_count : Z;
  scratch_slot_count : Z;
  final_slot : Z;
  fixed_binary_tree : bool;
  fixed_topological_order : bool;
  dag_validated : bool;
  slot_bounds_validated : bool;
  padding_law_validated : bool;
  primitive_standardized : bool;
  floating_point_allowed : bool;
  strict_floating_point : bool;
  partition_fold_slots : vec Z;
  nodes : vec FoldGraphNode;
  reduction_edges : vec FoldGraphEdge;
}.

Record FoldGraphValidationResult := {
  val_ok : bool;
  val_reason : string;
  val_scratch_slot_count : Z;
  val_final_slot : Z;
  val_dag_validated : bool;
  val_slot_bounds_validated : bool;
  val_padding_law_validated : bool;
}.

Record FoldGraphBuild := {
  build_ok : bool;
  build_reason : string;
  build_partition_count : Z;
  build_worker_local_slot_count : Z;
  build_global_ordered_slot_count : Z;
  build_scratch_slot_count : Z;
  build_node_count : Z;
  build_reduction_edge_count : Z;
  build_final_slot : Z;
  build_operation : FoldOperation;
  build_value_domain : FoldValueDomain;
  build_dag_validated : bool;
  build_slot_bounds_validated : bool;
  build_padding_law_validated : bool;
  build_strict_floating_point : bool;
  build_no_allocation : bool;
}.

(** [FoldGraphEdge{}]: what [resize] fills new edges with. *)
Definition DefaultFoldGraphEdge : FoldGraphEdge := {|
  edge_level := 0; left_slot := 0; right_slot := 0; output_slot := 0;
  edge_operation := FixedBinaryTreeHash; padding_law := PadNone; padding_value := 0;
  right_is_padding := false |}.

(** ** Field updates *)
Definition set_slots (g : FoldGraph) (v : vec Z) : FoldGraph := {|
  operation := operation g; value_domain := value_domain g;
  strict_float_reduction := strict_float_reduction g; partition_count := partition_count g;
  worker_local_slot_count := worker_local_slot_count g;
  global_ordered_slot_count := global_ordered_slot_count g;
  scratch_slot_count := scratch_slot_count g; final_slot := final_slot g;
  fixed_binary_tree := fixed_binary_tree g; fixed_topological_order := fixed_topological_order g;
  dag_validated := dag_validated g; slot_bounds_validated := slot_bounds_validated g;
  padding_law_validated := padding_law_validated g;
  primitive_standardized := primitive_standardized g;
  floating_point_allowed := floating_point_allowed g;
  strict_floating_point := strict_floating_point g;
  partition_fold_slots := v; nodes := nodes g; reduction_edges := reduction_edges g |}.

Definition set_nodes (g : FoldGraph) (v : vec FoldGraphNode) : FoldGraph := {|
  operation := operation g; value_domain := value_domain g;
  strict_float_reduction := strict_float_reduction g; partition_count := partition_count g;
  worker_local_slot_count := worker_local_slot_count g;
  global_ordered_slot_count := global_ordered_slot_count g;
  scratch_slot_count := scratch_slot_count g; final_slot := final_slot g;
  fixed_binary_tree := fixed_binary_tree g; fixed_topological_order := fixed_topological_order g;
  dag_validated := dag_validated g; slot_bounds_validated := slot_bounds_validated g;
  padding_law_validated := padding_law_validated g;
  primitive_standardized := primitive_standardized g;
  floating_point_allowed := floating_point_allowed g;
  strict_floating_point := strict_floating_point g;
  partition_fold_slots := partition_fold_slots g; nodes := v;
  reduction_edges := reduction_edges g |}.

Definition set_edges (g : FoldGraph) (v : vec FoldGraphEdge) : FoldGraph := {|
  operation := operation g; value_domain := value_domain g;
  strict_float_reduction := strict_float_reduction g; partition_count := partition_count g;
  worker_local_slot_count := worker_local_slot_count g;
  global_ordered_slot_count := global_ordered_slot_count g;
  scratch_slot_count := scratch_slot_count g; final_slot := final_slot g;
  fixed_binary_tree := fixed_binary_tree g; fixed_topological_order := fixed_topological_order g;
  dag_validated := dag_validated g; slot_bounds_validated := slot_bounds_validated g;
  padding_law_validated := padding_law_validated g;
  primitive_standardized := primitive_standardized g;
  floating_point_allowed := floating_point_allowed g;
  strict_floating_point := strict_floating_point g;
  partition_fold_slots := partition_fold_slots g; nodes := nodes g; reduction_edges := v |}.

(** The outcome of validation, as [BuildFoldGraph] stores it in the graph. *)
Definition set_validation (g : FoldGraph) (scratch final : Z) (dag bounds padding : bool)
    : FoldGraph := {|
  operation := operation g; value_domain := value_domain g;
  strict_float_reduction := strict_float_reduction g; partition_count := partition_count g;
  worker_local_slot_count := worker_local_slot_count g;
  global_ordered_slot_count := global_ordered_slot_count g;
  scratch_slot_count := scratch; final_slot := final;
  fixed_binary_tree := fixed_binary_tree g; fixed_topological_order := fixed_topological_order g;
  dag_validated := dag; slot_bounds_validated := bounds; padding_law_validated := padding;
  primitive_standardized := primitive_standardized g;
  floating_point_allowed := floating_point_allowed g;
  strict_floating_point := strict_floating_point g;
  partition_fold_slots := partition_fold_slots g; nodes := nodes g;
  reduction_edges := reduction_edges g |}.

Definition set_final_slot (g : FoldGraph) (s : Z) : FoldGraph :=
  set_validation g (scratch_slot_count g) s (dag_validated g) (slot_bounds_validated g)
    (padding_law_validated g).

(** ** Counts ([reduction/fold/graph.cpp]) *)
Definition tree_fuel : nat := 64.

Definition FixedBinaryTreeEdgeCount (slot_count : Z) : option Z :=
  r ← while tree_fuel
        (fun '(active_count, _) => active_count >? 1)
        (fun '(active_count, edges) =>
           (wrap32 (active_count + 1) / 2, wrap32 (edges + wrap32 (active_count + 1) / 2)))
        (slot_count, 0);
  Some (snd r).

Definition FoldGraphFixedBinaryTreeEdgeCount (partition_count : Z) : option Z :=
  FixedBinaryTreeEdgeCount partition_count.

Definition FoldGraphFixedBinaryTreeNodeCount (partition_count : Z) : option Z :=
  if (partition_count =? 0) || (partition_count >? U32_MAX / 2) then Some 0
  else
    let worker_and_ordered_nodes := wrap32 (partition_count * 2) in
    edge_count ← FixedBinaryTreeEdgeCount partition_count;
    if edge_count >? U32_MAX - worker_and_ordered_nodes then Some 0
    else Some (wrap32 (worker_and_ordered_nodes + edge_count)).

Definition FoldGraphFixedBinaryTreeScratchSlotCount (partition_count : Z) : option Z :=
  if partition_count =? 0 then Some 0
  else
    edges ← FixedBinaryTreeEdgeCount partition_count;
    Some (wrap32 (partition_count + edges)).

(** ** State ([reduction/graph/state.cpp]) *)
Definition EmptyFoldGraph : FoldGraph := {|
  operation := FixedBinaryTreeHash; value_domain := DomHashDigest;
  strict_float_reduction := DefaultStrictFloatPolicy; partition_count := 0;
  worker_local_slot_count := 0; global_ordered_slot_count := 0; scratch_slot_count := 0;
  final_slot := 0; fixed_binary_tree := true; fixed_topological_order := true;
  dag_validated := false; slot_bounds_validated := false; padding_law_validated := false;
  primitive_standardized := true; floating_point_allowed := false; strict_floating_point := false;
  partition_fold_slots := vempty; nodes := vempty; reduction_edges := vempty |}.

Definition ResetFoldGraph (graph : FoldGraph) : FoldGraph := {|
  operation := FixedBinaryTreeHash; value_domain := DomHashDigest;
  strict_float_reduction := DefaultStrictFloatPolicy; partition_count := 0;
  worker_local_slot_count := 0; global_ordered_slot_count := 0; scratch_slot_count := 0;
  final_slot := 0; fixed_binary_tree := true; fixed_topological_order := true;
  dag_validated := false; slot_bounds_validated := false; padding_law_validated := false;
  primitive_standardized := true; floating_point_allowed := false; strict_floating_point := false;
  partition_fold_slots := vclear (partition_fold_slots graph); nodes := vclear (nodes graph);
  reduction_edges := vclear (reduction_edges graph) |}.

Definition ReserveFoldGraph (graph : FoldGraph) (partition_capacity : Z) : option FoldGraph :=
  node_count ← FoldGraphFixedBinaryTreeNodeCount partition_capacity;
  edge_count ← FoldGraphFixedBinaryTreeEdgeCount partition_capacity;
  let graph := set_slots graph (vreserve (partition_fold_slots graph) partition_capacity) in
  let graph := set_nodes graph (vreserve (nodes graph) node_count) in
  Some (set_edges graph (vreserve (reduction_edges graph) edge_count)).

(** ** Population ([reduction/graph/build/**]) *)
Record BuildPlan := {
  plan_partition_count : Z;
  required_edges : Z;
  required_nodes : Z;
  required_scratch_slots : Z;
  plan_operation : FoldOperation;
  primitive : FoldPrimitiveSpec;
  plan_strict_float_reduction : StrictFloatReductionPolicy;
  allocation : AllocationPolicy;
}.

Definition partition_node (plan : BuildPlan) (k : FoldGraphNodeKind) (index partition : Z)
    : FoldGraphNode := {|
  kind := k;
  topological_index := index;
  node_slot := partition;
  node_left_slot := partition;
  node_right_slot := partition;
  node_operation := plan_operation plan;
  node_value_domain := prim_value_domain (primitive plan);
  node_padding_law := PadNone;
  node_overflow_law := prim_overflow_law (primitive plan);
  node_right_is_padding := false |}.

Definition AppendPartitionSlots (graph : FoldGraph) (plan : BuildPlan) : option FoldGraph :=
  for_each
    (fun graph partition =>
       slots ← vset (partition_fold_slots graph) partition partition;
       let graph := set_slots graph slots in
       let graph := set_nodes graph (vpush (nodes graph)
         (partition_node plan WorkerLocalPartial (wrap32 (vsize (nodes graph))) partition)) in
       Some (set_nodes graph (vpush (nodes graph)
         (partition_node plan GlobalOrderedSlot (wrap32 (vsize (nodes graph))) partition))))
    graph (range 0 (plan_partition_count plan)).

(** The loop over the levels and pairs of the tree, which [AppendReductionTree] and
    [ValidateFixedGraphReductionEdges] share: the counters and the slots of a pair
    are computed as in the source, [body] is the rest of the loop body. The inner
    loop visits [pair = 0, 2, 4, ... < active_count]; the counter does not wrap,
    because the callers have bounded [partition_count] by [U32_MAX / 2]. *)
Record TreeStep := {
  step_edge_index : Z;
  step_level : Z;
  has_right : bool;
  step_left : Z;
  step_right : Z;
  step_output : Z;
}.

Definition tree_pairs (active_count : Z) : list Z :=
  map (fun k => 2 * k) (range 0 ((active_count + 1) / 2)).

Definition tree_step (edge_index level current_slot_base active_count next_output_base pair : Z)
    : TreeStep :=
  let has_right := pair + 1 <? active_count in {|
  step_edge_index := edge_index;
  step_level := level;
  has_right := has_right;
  step_left := wrap32 (current_slot_base + pair);
  step_right := if has_right then wrap32 (current_slot_base + pair + 1)
                else wrap32 (current_slot_base + pair);
  step_output := wrap32 (next_output_base + pair / 2) |}.

Definition for_tree {S R} (body : S -> TreeStep -> option (flow S R)) (partition_count : Z) (s : S)
    : option (flow (S * Z) R) :=
  r ← while_loop tree_fuel
    (fun '(_, _, _, _, active_count, _) => active_count >? 1)
    (fun '(s, edge_index, level, current_slot_base, active_count, next_output_base) =>
       let output_count := wrap32 (active_count + 1) / 2 in
       r ← for_loop
         (fun '(s, edge_index) pair =>
            r ← body s (tree_step edge_index level current_slot_base active_count
                          next_output_base pair);
            Some match r with
                 | Next s => Next (s, wrap32 (edge_index + 1))
                 | Return v => Return v
                 end)
         (s, edge_index) (tree_pairs active_count);
       Some match r with
            | Next (s, edge_index) =>
                Next (s, edge_index, wrap32 (level + 1), next_output_base, output_count,
                      wrap32 (next_output_base + output_count))
            | Return v => Return v
            end)
    (s, 0, 0, 0, partition_count, partition_count);
  Some match r with
       | Next (s, edge_index, _, _, _, _) => Next (s, edge_index)
       | Return v => Return v
       end.

Definition step_edge (operation : FoldOperation) (primitive : FoldPrimitiveSpec) (st : TreeStep)
    : FoldGraphEdge := {|
  edge_level := step_level st;
  left_slot := step_left st;
  right_slot := step_right st;
  output_slot := step_output st;
  edge_operation := operation;
  padding_law := if has_right st then PadNone else prim_padding_law primitive;
  padding_value := if has_right st then 0 else prim_padding_value primitive;
  right_is_padding := negb (has_right st) |}.

Definition edge_node (plan : BuildPlan) (index : Z) (edge : FoldGraphEdge) : FoldGraphNode := {|
  kind := Reduction;
  topological_index := index;
  node_slot := output_slot edge;
  node_left_slot := left_slot edge;
  node_right_slot := right_slot edge;
  node_operation := plan_operation plan;
  node_value_domain := prim_value_domain (primitive plan);
  node_padding_law := padding_law edge;
  node_overflow_law := prim_overflow_law (primitive plan);
  node_right_is_padding := right_is_padding edge |}.

Definition AppendReductionTree (graph : FoldGraph) (plan : BuildPlan) : option FoldGraph :=
  r ← for_tree (R := Empty_set)
    (fun graph st =>
       let edge := step_edge (plan_operation plan) (primitive plan) st in
       edges ← vset (reduction_edges graph) (step_edge_index st) edge;
       let graph := set_edges graph edges in
       let graph := set_nodes graph
         (vpush (nodes graph) (edge_node plan (wrap32 (vsize (nodes graph))) edge)) in
       Some (Next (set_final_slot graph (output_slot edge))))
    (plan_partition_count plan) graph;
  match r with Next (graph, _) => Some graph | Return v => Empty_set_rect (fun _ => option FoldGraph) v end.

Definition PopulateFixedBinaryTreeGraph (graph : FoldGraph) (plan : BuildPlan)
    : option FoldGraph :=
  let graph := {|
    operation := plan_operation plan;
    value_domain := prim_value_domain (primitive plan);
    strict_float_reduction := plan_strict_float_reduction plan;
    partition_count := plan_partition_count plan;
    worker_local_slot_count := plan_partition_count plan;
    global_ordered_slot_count := plan_partition_count plan;
    scratch_slot_count := required_scratch_slots plan;
    final_slot := wrap32 (plan_partition_count plan - 1);
    fixed_binary_tree := true;
    fixed_topological_order := true;
    dag_validated := false;
    slot_bounds_validated := false;
    padding_law_validated := false;
    primitive_standardized := supported (primitive plan);
    floating_point_allowed := false;
    strict_floating_point := requires_strict_floating_point (primitive plan);
    partition_fold_slots := vresize (partition_fold_slots graph) (plan_partition_count plan) 0;
    nodes := vreserve (vclear (nodes graph)) (required_nodes plan);
    reduction_edges := reduction_edges graph |} in
  graph ← AppendPartitionSlots graph plan;
  let graph := set_edges graph
    (vresize (vclear (reduction_edges graph)) (required_edges plan) DefaultFoldGraphEdge) in
  AppendReductionTree graph plan.

(** ** Validation of a freshly built graph ([reduction/graph/validate/**]) *)
Definition FailBuiltGraphValidation (reason : string) (scratch_slot_count : Z)
    : FoldGraphValidationResult := {|
  val_ok := false; val_reason := reason; val_scratch_slot_count := scratch_slot_count;
  val_final_slot := 0; val_dag_validated := false; val_slot_bounds_validated := false;
  val_padding_law_validated := false |}.

Definition PassBuiltGraphValidation (scratch_slot_count : Z) : FoldGraphValidationResult := {|
  val_ok := true; val_reason := "pass"; val_scratch_slot_count := scratch_slot_count;
  val_final_slot := 0; val_dag_validated := false; val_slot_bounds_validated := false;
  val_padding_law_validated := false |}.

Definition ValidateFixedGraphShape (graph : FoldGraph) (primitive : FoldPrimitiveSpec)
    (pc required_nodes required_edges required_scratch_slots : Z)
    : FoldGraphValidationResult :=
  if negb (primitive_standardized graph) || negb (supported primitive) then
    FailBuiltGraphValidation "unsupported_fold_operation" required_scratch_slots
  else if negb (partition_count graph =? pc) ||
          negb (vsize (partition_fold_slots graph) =? pc) ||
          negb (vsize (nodes graph) =? required_nodes) ||
          negb (vsize (reduction_edges graph) =? required_edges) ||
          negb (scratch_slot_count graph =? required_scratch_slots) then
    FailBuiltGraphValidation "fold_graph_partition_mismatch" required_scratch_slots
  else PassBuiltGraphValidation required_scratch_slots.

Definition ValidateFixedGraphPartitionNodes (graph : FoldGraph) (op : FoldOperation)
    (primitive : FoldPrimitiveSpec) (pc required_scratch_slots : Z)
    : option FoldGraphValidationResult :=
  after (for_loop
    (fun (_ : unit) partition =>
       slot ← zget (items (partition_fold_slots graph)) partition;
       if negb (slot =? partition) then
         Some (Return (FailBuiltGraphValidation "fold_graph_slot_out_of_range"
                         required_scratch_slots))
       else
         worker_node ← zget (items (nodes graph)) (wrap32 (partition * 2));
         ordered_node ← zget (items (nodes graph)) (wrap32 (partition * 2 + 1));
         if negb (bool_decide (kind worker_node = WorkerLocalPartial)) ||
            negb (bool_decide (kind ordered_node = GlobalOrderedSlot)) ||
            negb (topological_index worker_node =? wrap32 (partition * 2)) ||
            negb (topological_index ordered_node =? wrap32 (partition * 2 + 1)) ||
            negb (node_slot worker_node =? partition) ||
            negb (node_slot ordered_node =? partition) ||
            negb (bool_decide (node_operation worker_node = op)) ||
            negb (bool_decide (node_operation ordered_node = op)) ||
            negb (bool_decide (node_value_domain worker_node = prim_value_domain primitive)) ||
            negb (bool_decide (node_value_domain ordered_node = prim_value_domain primitive)) ||
            negb (bool_decide (node_overflow_law worker_node = prim_overflow_law primitive)) ||
            negb (bool_decide (node_overflow_law ordered_node = prim_overflow_law primitive))
         then Some (Return (FailBuiltGraphValidation "fold_graph_node_mismatch"
                              required_scratch_slots))
         else Some (Next tt))
    tt (range 0 pc))
  (fun _ => Some (PassBuiltGraphValidation required_scratch_slots)).

Definition ValidateFixedGraphReductionEdges (graph : FoldGraph) (op : FoldOperation)
    (primitive : FoldPrimitiveSpec) (pc required_edges required_scratch_slots : Z)
    : option FoldGraphValidationResult :=
  let fail reason := Some (Return (FailBuiltGraphValidation reason required_scratch_slots)) in
  after (for_tree
    (fun (_ : Z) st =>
       if step_edge_index st >=? required_edges then fail "fold_graph_edge_missing"%string
       else if (step_left st >=? required_scratch_slots) ||
               (step_right st >=? required_scratch_slots) ||
               (step_output st >=? required_scratch_slots) then
         fail "fold_graph_edge_out_of_range"%string
       else
         edge ← zget (items (reduction_edges graph)) (step_edge_index st);
         if negb (edge_level edge =? step_level st) ||
            negb (left_slot edge =? step_left st) ||
            negb (right_slot edge =? step_right st) ||
            negb (output_slot edge =? step_output st) ||
            negb (bool_decide (edge_operation edge = op)) ||
            eqb (right_is_padding edge) (has_right st) then
           fail "fold_graph_edge_out_of_range"%string
         else if has_right st && negb (bool_decide (padding_law edge = PadNone)) then
           fail "fold_graph_padding_law_mismatch"%string
         else if negb (has_right st) &&
                 (negb (bool_decide (padding_law edge = prim_padding_law primitive)) ||
                  negb (padding_value edge =? prim_padding_value primitive)) then
           fail "fold_graph_padding_law_mismatch"%string
         else
           reduction_node ← zget (items (nodes graph)) (wrap32 (pc * 2 + step_edge_index st));
           if negb (bool_decide (kind reduction_node = Reduction)) ||
              negb (topological_index reduction_node =? wrap32 (pc * 2 + step_edge_index st)) ||
              negb (node_slot reduction_node =? output_slot edge) ||
              negb (node_left_slot reduction_node =? left_slot edge) ||
              negb (node_right_slot reduction_node =? right_slot edge) ||
              negb (bool_decide (node_operation reduction_node = op)) ||
              negb (bool_decide (node_value_domain reduction_node = prim_value_domain primitive)) ||
              negb (bool_decide (node_padding_law reduction_node = padding_law edge)) ||
              negb (bool_decide (node_overflow_law reduction_node = prim_overflow_law primitive)) ||
              negb (eqb (node_right_is_padding reduction_node) (right_is_padding edge)) then
             fail "fold_graph_node_mismatch"%string
           else Some (Next (step_output st)))
    pc (wrap32 (pc - 1)))
  (fun '(final, edge_index) =>
     if negb (edge_index =? required_edges) || negb (final_slot graph =? final) then
       Some (FailBuiltGraphValidation "fold_graph_final_slot_mismatch" required_scratch_slots)
     else Some {|
       val_ok := true; val_reason := "pass"; val_scratch_slot_count := required_scratch_slots;
       val_final_slot := final; val_dag_validated := true; val_slot_bounds_validated := true;
       val_padding_law_validated := true |}).

Definition ValidateBuiltFixedBinaryTreeGraph (graph : FoldGraph) (op : FoldOperation)
    (primitive : FoldPrimitiveSpec)
    (pc required_nodes required_edges required_scratch_slots : Z)
    : option FoldGraphValidationResult :=
  let shape := ValidateFixedGraphShape graph primitive pc required_nodes required_edges
                 required_scratch_slots in
  if negb (val_ok shape) then Some shape
  else
    nodes ← ValidateFixedGraphPartitionNodes graph op primitive pc required_scratch_slots;
    if negb (val_ok nodes) then Some nodes
    else ValidateFixedGraphReductionEdges graph op primitive pc required_edges
           required_scratch_slots.

(** ** Results ([reduction/graph/build/result.cpp]) *)
Definition NoAllocation (plan : BuildPlan) : bool := bool_decide (allocation plan = NoGrowth).

Definition PrimitiveFailure (plan : BuildPlan) (reason : string) : FoldGraphBuild := {|
  build_ok := false; build_reason := reason; build_partition_count := 0;
  build_worker_local_slot_count := 0; build_global_ordered_slot_count := 0;
  build_scratch_slot_count := 0; build_node_count := 0; build_reduction_edge_count := 0;
  build_final_slot := 0; build_operation := plan_operation plan;
  build_value_domain := prim_value_domain (primitive plan);
  build_dag_validated := false; build_slot_bounds_validated := false;
  build_padding_law_validated := false;
  build_strict_floating_point := requires_strict_floating_point (primitive plan);
  build_no_allocation := NoAllocation plan |}.

Definition CapacityFailure (plan : BuildPlan) (reason : string) : FoldGraphBuild := {|
  build_ok := false; build_reason := reason;
  build_partition_count := plan_partition_count plan;
  build_worker_local_slot_count := plan_partition_count plan;
  build_global_ordered_slot_count := plan_partition_count plan;
  build_scratch_slot_count := required_scratch_slots plan;
  build_node_count := required_nodes plan;
  build_reduction_edge_count := required_edges plan;
  build_final_slot := 0; build_operation := plan_operation plan;
  build_value_domain := prim_value_domain (primitive plan);
  build_dag_validated := false; build_slot_bounds_validated := false;
  build_padding_law_validated := false;
  build_strict_floating_point := requires_strict_floating_point (primitive plan);
  build_no_allocation := NoAllocation plan |}.

Definition ValidationFailure (graph : FoldGraph) (plan : BuildPlan)
    (validation : FoldGraphValidationResult) : FoldGraphBuild := {|
  build_ok := false; build_reason := val_reason validation;
  build_partition_count := plan_partition_count plan;
  build_worker_local_slot_count := plan_partition_count plan;
  build_global_ordered_slot_count := plan_partition_count plan;
  build_scratch_slot_count := required_scratch_slots plan;
  build_node_count := wrap32 (vsize (nodes graph));
  build_reduction_edge_count := wrap32 (vsize (reduction_edges graph));
  build_final_slot := final_slot graph; build_operation := plan_operation plan;
  build_value_domain := prim_value_domain (primitive plan);
  build_dag_validated := false; build_slot_bounds_validated := false;
  build_padding_law_validated := false;
  build_strict_floating_point := requires_strict_floating_point (primitive plan);
  build_no_allocation := NoAllocation plan |}.

Definition Success (graph : FoldGraph) (plan : BuildPlan)
    (validation : FoldGraphValidationResult) : FoldGraphBuild := {|
  build_ok := true; build_reason := "pass";
  build_partition_count := plan_partition_count plan;
  build_worker_local_slot_count := plan_partition_count plan;
  build_global_ordered_slot_count := plan_partition_count plan;
  build_scratch_slot_count := val_scratch_slot_count validation;
  build_node_count := wrap32 (vsize (nodes graph));
  build_reduction_edge_count := wrap32 (vsize (reduction_edges graph));
  build_final_slot := val_final_slot validation; build_operation := plan_operation plan;
  build_value_domain := prim_value_domain (primitive plan);
  build_dag_validated := val_dag_validated validation;
  build_slot_bounds_validated := val_slot_bounds_validated validation;
  build_padding_law_validated := val_padding_law_validated validation;
  build_strict_floating_point := requires_strict_floating_point (primitive plan);
  build_no_allocation := NoAllocation plan |}.

(** ** [BuildFoldGraph] ([reduction/graph/build.cpp]): the report and the graph *)
Definition BuildFoldGraph (graph : FoldGraph) (pc : Z) (op : FoldOperation)
    (policy : StrictFloatReductionPolicy) (alloc : AllocationPolicy)
    : option (FoldGraphBuild * FoldGraph) :=
  let prim := DescribeFoldOperation op in
  edges ← FoldGraphFixedBinaryTreeEdgeCount pc;
  node_count ← FoldGraphFixedBinaryTreeNodeCount pc;
  scratch ← FoldGraphFixedBinaryTreeScratchSlotCount pc;
  let plan := {|
    plan_partition_count := pc; required_edges := edges; required_nodes := node_count;
    required_scratch_slots := scratch; plan_operation := op; primitive := prim;
    plan_strict_float_reduction := policy; allocation := alloc |} in
  if negb (IsSupportedFoldOperation op) then
    Some (PrimitiveFailure plan "unsupported_fold_operation", graph)
  else if admits_floating_point prim && negb (policy_valid policy) then
    Some (PrimitiveFailure plan "floating_point_fold_forbidden", graph)
  else if admits_floating_point prim && negb (StrictFloatReductionValid op policy) then
    Some (PrimitiveFailure plan "floating_point_law_mismatch", graph)
  else if pc =? 0 then Some (PrimitiveFailure plan "invalid_partition_count", graph)
  else if (required_nodes plan =? 0) || (required_scratch_slots plan =? 0) then
    Some (CapacityFailure plan "fold_graph_capacity_exceeded", graph)
  else if bool_decide (alloc = NoGrowth) &&
          ((capacity (partition_fold_slots graph) <? pc) ||
           (capacity (nodes graph) <? required_nodes plan) ||
           (capacity (reduction_edges graph) <? required_edges plan)) then
    Some (CapacityFailure plan "fold_graph_capacity_exceeded", graph)
  else
    let graph :=
      if bool_decide (alloc = AllowGrowth) then
        set_edges
          (set_nodes
             (set_slots graph (vreserve (partition_fold_slots graph) pc))
             (vreserve (nodes graph) (required_nodes plan)))
          (vreserve (reduction_edges graph) (required_edges plan))
      else graph in
    graph ← PopulateFixedBinaryTreeGraph graph plan;
    validation ← ValidateBuiltFixedBinaryTreeGraph graph op prim pc (required_nodes plan)
                   (required_edges plan) (required_scratch_slots plan);
    if negb (val_ok validation) then
      let graph := set_validation graph (scratch_slot_count graph) (final_slot graph)
                     false false false in
      Some (ValidationFailure graph plan validation, graph)
    else
      let graph := set_validation graph (val_scratch_slot_count validation)
                     (val_final_slot validation) (val_dag_validated validation)
                     (val_slot_bounds_validated validation)
                     (val_padding_law_validated validation) in
      Some (Success graph plan validation, graph).

(** The overload without a policy. *)
Definition BuildFoldGraphDefault (graph : FoldGraph) (pc : Z) (op : FoldOperation)
    (alloc : AllocationPolicy) : option (FoldGraphBuild * FoldGraph) :=
  BuildFoldGraph graph pc op DefaultStrictFloatPolicy alloc.
