(* ===== verification/FoldTree.v ===== *)
(** * FoldTree: the shape of the reduction tree

    The counters of the nested loops of [FoldGraph.for_tree] are closed forms: the
    loop visits the list [tree_steps], whose length is the edge count that
    [FixedBinaryTreeEdgeCount] computes. *)
From stdpp Require Import base numbers list option strings.
From Stdlib Require Import ZArith Lia.
From S2P Require Import Prelude Checked FoldModel FoldSpec FoldGraph.

(** The number of pairs in all levels above [n] slots. *)
Fixpoint tree_size (fuel : nat) (n : Z) : Z :=
  match fuel with
  | O => 0
  | S k => if n >? 1 then (n + 1) / 2 + tree_size k ((n + 1) / 2) else 0
  end.

Definition level_steps (edge level base active out : Z) : list TreeStep :=
  map (fun k => tree_step (edge + k) level base active out (2 * k)) (range 0 ((active + 1) / 2)).

Fixpoint tree_steps (fuel : nat) (edge level base active out : Z) : list TreeStep :=
  match fuel with
  | O => []
  | S k =>
      if active >? 1 then
        let m := (active + 1) / 2 in
        level_steps edge level base active out ++ tree_steps k (edge + m) (level + 1) out m (out + m)
      else []
  end.

Lemma half_up n : 1 < n -> 1 <= (n + 1) / 2 < n.
Proof. intros. Z.div_mod_to_equations. lia. Qed.

Lemma tree_size_nonneg fuel n : 0 <= tree_size fuel n.
Proof.
  revert n; induction fuel as [|k IH]; intros n; cbn; [done|].
  destruct (n >? 1) eqn:E; to_prop; [|done]. specialize (IH ((n + 1) / 2)).
  pose proof (half_up n). lia.
Qed.

(** [2^fuel] slots need no more fuel. *)
Lemma tree_size_bound fuel n :
  1 <= n <= 2 ^ Z.of_nat fuel -> tree_size fuel n <= n - 1 + Z.of_nat fuel.
Proof.
  revert n; induction fuel as [|k IH]; intros n Hn; cbn [tree_size]; [lia|].
  destruct (n >? 1) eqn:E; to_prop; [|lia].
  pose proof (half_up n ltac:(lia)). rewrite Nat2Z.inj_succ, Z.pow_succ_r in Hn by lia.
  assert ((n + 1) / 2 <= 2 ^ Z.of_nat k) by (Z.div_mod_to_equations; lia).
  specialize (IH ((n + 1) / 2) ltac:(lia)).
  assert (2 * ((n + 1) / 2) <= n + 1) by (Z.div_mod_to_equations; lia). lia.
Qed.

Lemma tree_size_fuel k1 k2 n :
  1 <= n <= 2 ^ Z.of_nat k1 -> (k1 <= k2)%nat -> tree_size k2 n = tree_size k1 n.
Proof.
  revert k2 n; induction k1 as [|k IH]; intros k2 n Hn Hk.
  - cbn in Hn. assert (n = 1) as -> by lia. by destruct k2.
  - destruct k2 as [|k2]; [lia|]. cbn [tree_size]. destruct (n >? 1) eqn:E; to_prop; [|done].
    pose proof (half_up n ltac:(lia)). rewrite Nat2Z.inj_succ, Z.pow_succ_r in Hn by lia.
    rewrite (IH k2); [done | | lia]. split; [lia|]. Z.div_mod_to_equations. lia.
Qed.

Definition edge_count (n : Z) : Z := tree_size tree_fuel n.
#[global] Arguments edge_count : simpl never.

Lemma edge_count_bound n : 1 <= n <= 2 ^ 31 -> 0 <= edge_count n <= n + 30.
Proof.
  intros Hn. split; [apply tree_size_nonneg|]. unfold edge_count.
  rewrite (tree_size_fuel 31) by (unfold tree_fuel; lia).
  pose proof (tree_size_bound 31 n ltac:(lia)). lia.
Qed.

Lemma edge_count_small n : n <= 1 -> edge_count n = 0.
Proof. intros. unfold edge_count, tree_fuel. cbn [tree_size]. destruct (n >? 1) eqn:E; to_prop; [lia | done]. Qed.

Lemma FixedBinaryTreeEdgeCount_eq n :
  0 <= n <= 2 ^ 31 -> FixedBinaryTreeEdgeCount n = Some (edge_count n).
Proof.
  intros Hn. destruct (Z.eq_dec n 0) as [->|]; [reflexivity|].
  unfold FixedBinaryTreeEdgeCount, edge_count.
  assert (forall fuel a e, 1 <= a <= 2 ^ Z.of_nat fuel -> a <= 2 ^ 31 ->
    0 <= e -> e + tree_size fuel a <= U32_MAX ->
    while fuel (fun '(active_count, _) => active_count >? 1)
      (fun '(active_count, edges) =>
         (wrap32 (active_count + 1) / 2, wrap32 (edges + wrap32 (active_count + 1) / 2))) (a, e)
    = Some (1, e + tree_size fuel a)) as G.
  { induction fuel as [|k IH]; intros a e Ha Ha31 He Hb.
    - cbn in Ha. assert (a = 1) as -> by lia. rewrite while_done by done. cbn [tree_size].
      by rewrite Z.add_0_r.
    - cbn [tree_size] in *. destruct (a >? 1) eqn:E.
      + rewrite while_next by done. to_prop. pose proof (half_up a ltac:(lia)).
        pose proof (tree_size_nonneg k ((a + 1) / 2)).
        rewrite (wrap32_small (a + 1)) by (unfold is_u32; lia).
        rewrite wrap32_small by (unfold is_u32; lia).
        rewrite Nat2Z.inj_succ, Z.pow_succ_r in Ha by lia.
        rewrite IH; [do 2 f_equal; lia | | lia | lia | lia].
        split; [lia|]. Z.div_mod_to_equations. lia.
      + rewrite while_done by done. to_prop. do 2 f_equal; lia. }
  pose proof (edge_count_bound n ltac:(lia)). unfold edge_count in *.
  rewrite G; [done | unfold tree_fuel; lia | lia | lia | lia].
Qed.

(** ** The loop of the tree visits [tree_steps] *)
Section loop.
Context {S R : Type} (body : S -> TreeStep -> option (flow S R)).

Lemma level_loop edge level base active out m a s :
  0 <= a <= m -> 0 <= edge -> edge + m <= U32_MAX ->
  for_loop
    (fun '(s, edge_index) pair =>
       r ← body s (tree_step edge_index level base active out pair);
       Some match r with
            | Next s => Next (s, wrap32 (edge_index + 1))
            | Return v => Return v
            end)
    (s, edge + a) (map (fun k => 2 * k) (range a m)) =
  (r ← for_loop body s
         (map (fun k => tree_step (edge + k) level base active out (2 * k)) (range a m));
   Some match r with Next s => Next (s, edge + m) | Return v => Return v end).
Proof using.
  intros Ha He Hm. remember (Z.to_nat (m - a)) as n eqn:En. revert a s Ha En.
  induction n as [|n IH]; intros a s Ha En.
  - rewrite range_nil by lia. cbn. do 3 f_equal. lia.
  - rewrite range_cons by lia. cbn [map for_loop].
    destruct (body s _) as [[s'|v]|]; cbn [mbind option_bind]; [|done|done].
    rewrite wrap32_small by (unfold is_u32; lia).
    replace (edge + a + 1) with (edge + (a + 1)) by lia. apply IH; lia.
Qed.

Lemma tree_loop fuel s edge level base active out :
  1 <= active <= 2 ^ Z.of_nat fuel -> active <= 2 ^ 31 ->
  0 <= edge -> edge + tree_size fuel active <= U32_MAX ->
  0 <= level -> level + Z.of_nat fuel <= U32_MAX ->
  0 <= out -> out + tree_size fuel active <= U32_MAX ->
  (r ← while_loop fuel
    (fun '(_, _, _, _, active_count, _) => active_count >? 1)
    (fun '(s, edge_index, level, current_slot_base, active_count, next_output_base) =>
       let output_count := wrap32 (active_count + 1) / 2 in
       r ← for_loop
         (fun '(s, edge_index) pair =>
            r ← body s (tree_step edge_index level current_slot_base active_count
                          next_output_base pair);
            Some match r with
                 | Next s => Next (s, wrap32 (edge_index + 1))
                 | Return v => Return v
                 end)
         (s, edge_index) (tree_pairs active_count);
       Some match r with
            | Next (s, edge_index) =>
                Next (s, edge_index, wrap32 (level + 1), next_output_base, output_count,
                      wrap32 (next_output_base + output_count))
            | Return v => Return v
            end)
    (s, edge, level, base, active, out);
  Some match r with
       | Next (s, edge_index, _, _, _, _) => Next (s, edge_index)
       | Return v => Return v
       end) =
  (r ← for_loop body s (tree_steps fuel edge level base active out);
   Some match r with
        | Next s => Next (s, edge + tree_size fuel active)
        | Return v => Return v
        end).
Proof using.
  revert s edge level base active out.
  induction fuel as [|k IH]; intros s edge level base active out Ha Ha31 He Heb Hl Hlb Ho Hob.
  - cbn in Ha. assert (active = 1) as -> by lia. cbn. do 3 f_equal. lia.
  - cbn [while_loop tree_steps tree_size] in *. destruct (active >? 1) eqn:E.
    2: { cbn. do 3 f_equal. lia. }
    to_prop. pose proof (half_up active ltac:(lia)).
    pose proof (tree_size_nonneg k ((active + 1) / 2)).
    rewrite (wrap32_small (active + 1)) by (unfold is_u32; lia). cbv zeta.
    change (tree_pairs active) with (map (fun k => 2 * k) (range 0 ((active + 1) / 2))).
    pose proof (level_loop edge level base active out ((active + 1) / 2) 0 s) as L.
    rewrite Z.add_0_r in L. rewrite L by lia. clear L.
    rewrite for_loop_app. unfold level_steps.
    destruct (for_loop body s (map _ _)) as [[s'|v]|]; cbn [mbind option_bind]; [|done|done].
    rewrite (wrap32_small (level + 1)) by (unfold is_u32; lia).
    rewrite (wrap32_small (out + _)) by (unfold is_u32; lia).
    rewrite Nat2Z.inj_succ, Z.pow_succ_r in Ha by lia.
    rewrite IH; try lia; [|split; [lia|]; Z.div_mod_to_equations; lia].
    by rewrite Z.add_assoc.
Qed.

(** The steps visited for [pc] partitions. *)
Definition steps_of (pc : Z) : list TreeStep := tree_steps tree_fuel 0 0 0 pc pc.

Lemma for_tree_steps pc s :
  1 <= pc <= 2 ^ 31 -> pc + edge_count pc <= U32_MAX ->
  for_tree body pc s =
  (r ← for_loop body s (steps_of pc);
   Some match r with Next s => Next (s, edge_count pc) | Return v => Return v end).
Proof using.
  intros Hpc Hb. unfold for_tree, edge_count, steps_of in *.
  pose proof (tree_size_nonneg tree_fuel pc).
  rewrite tree_loop; [by rewrite Z.add_0_l | unfold tree_fuel in *; lia..].
Qed.
End loop.
#[global] Arguments steps_of : simpl never.

(** ** The steps, by position *)
Lemma length_level_steps edge level base active out :
  1 <= active -> length (level_steps edge level base active out) = Z.to_nat ((active + 1) / 2).
Proof. intros. unfold level_steps. rewrite length_map, length_range. f_equal. lia. Qed.

Lemma zlen_tree_steps fuel edge level base active out :
  1 <= active -> zlen (tree_steps fuel edge level base active out) = tree_size fuel active.
Proof.
  revert edge level base active out. induction fuel as [|k IH]; intros; [done|].
  cbn [tree_steps tree_size]. destruct (active >? 1) eqn:E; to_prop; [|done].
  pose proof (half_up active ltac:(lia)). cbv zeta.
  rewrite zlen_app, IH by lia. unfold zlen. rewrite length_level_steps by lia. lia.
Qed.

(** What every step satisfies: its position, inputs below its output, output in
    the next unused slot. *)
Record step_ok (pos0 out0 : Z) (pos : Z) (st : TreeStep) : Prop := {
  st_index : step_edge_index st = pos0 + pos;
  st_output : step_output st = out0 + pos;
  st_left : 0 <= step_left st < step_output st;
  st_right : 0 <= step_right st < step_output st;
  st_pad : has_right st = false -> step_right st = step_left st;
}.

Lemma level_steps_lookup edge level base active out i st :
  level_steps edge level base active out !! i = Some st ->
  Z.of_nat i < (active + 1) / 2 /\
  st = tree_step (edge + Z.of_nat i) level base active out (2 * Z.of_nat i).
Proof.
  unfold level_steps. rewrite list_lookup_fmap_Some. intros (k & -> & Hk).
  unfold range in Hk. apply lookup_seqZ in Hk as [-> ?]. split; [lia|]. f_equal; lia.
Qed.

Lemma tree_step_ok edge level base active out k :
  0 <= base -> base + active <= out -> 0 <= k < (active + 1) / 2 ->
  out + (active + 1) / 2 <= U32_MAX ->
  step_ok edge out k (tree_step (edge + k) level base active out (2 * k)).
Proof.
  intros Hb Ho Hk Hu.
  assert (2 * k < active) by (Z.div_mod_to_equations; lia).
  assert (2 * k / 2 = k) as E by (rewrite Z.mul_comm; by apply Z.div_mul).
  split; cbn; rewrite ?E, ?(wrap32_small (out + _)), ?(wrap32_small (base + 2 * k))
    by (unfold is_u32; lia); try lia.
  - destruct (Z.ltb_spec (2 * k + 1) active); [rewrite wrap32_small by (unfold is_u32; lia) |]; lia.
  - by intros ->.
Qed.

Lemma tree_steps_ok fuel edge level base active out i st :
  1 <= active -> 0 <= base -> base + active <= out -> out + tree_size fuel active <= U32_MAX ->
  tree_steps fuel edge level base active out !! i = Some st ->
  step_ok edge out (Z.of_nat i) st.
Proof.
  revert edge level base active out i.
  induction fuel as [|k IH]; intros edge level base active out i Ha Hb Ho Hu; [done|].
  cbn [tree_steps tree_size] in *. destruct (active >? 1) eqn:E; to_prop; [|done]. cbv zeta.
  pose proof (half_up active ltac:(lia)). pose proof (tree_size_nonneg k ((active + 1) / 2)).
  intros [Hi|[Hge Hi]]%lookup_app_Some.
  - apply level_steps_lookup in Hi as [? ->]. apply tree_step_ok; lia.
  - rewrite length_level_steps in Hi, Hge by lia. apply IH in Hi; [|lia..].
    destruct Hi as [Hx Hy Hl Hr Hp]. split; [lia | lia | done | done | done].
Qed.

Lemma steps_of_ok pc i st :
  1 <= pc -> pc + edge_count pc <= U32_MAX ->
  steps_of pc !! i = Some st -> step_ok 0 pc (Z.of_nat i) st.
Proof. intros. eapply tree_steps_ok; [.. | eassumption]; unfold edge_count in *; lia. Qed.

(** Levels never decrease along the list. *)
Lemma tree_steps_level_ge fuel edge level base active out st :
  st ∈ tree_steps fuel edge level base active out -> level <= step_level st.
Proof.
  revert edge level base active out. induction fuel as [|k IH]; intros edge level base active out; cbn.
  - intros H. by apply not_elem_of_nil in H.
  - destruct (active >? 1); [|intros H; by apply not_elem_of_nil in H].
    intros [H|H]%elem_of_app.
    + unfold level_steps in H. apply list_elem_of_fmap in H as (j & -> & _). done.
    + apply IH in H. lia.
Qed.

Lemma tree_steps_level_mono fuel edge level base active out i a b :
  tree_steps fuel edge level base active out !! i = Some a ->
  tree_steps fuel edge level base active out !! S i = Some b ->
  step_level a <= step_level b.
Proof.
  revert edge level base active out i.
  induction fuel as [|k IH]; intros edge level base active out i; cbn; [done|].
  destruct (active >? 1); [|done].
  intros [Ha|[Hla Ha]]%lookup_app_Some [Hb|[Hlb Hb]]%lookup_app_Some.
  - apply level_steps_lookup in Ha as [_ ->], Hb as [_ ->]. done.
  - apply level_steps_lookup in Ha as [_ ->]. apply list_elem_of_lookup_2, tree_steps_level_ge in Hb.
    cbn. lia.
  - apply lookup_lt_Some in Hb. lia.
  - eapply IH; [exact Ha|]. rewrite <- Hb. f_equal. lia.
Qed.

Lemma zlen_steps_of pc : 1 <= pc -> zlen (steps_of pc) = edge_count pc.
Proof. intros. by apply zlen_tree_steps. Qed.

(** The count terminates for every 32-bit argument, wrap-around included. *)
Lemma FixedBinaryTreeEdgeCount_total n : is_u32 n -> is_Some (FixedBinaryTreeEdgeCount n).
Proof.
  intros Hn. unfold FixedBinaryTreeEdgeCount.
  assert (forall fuel a e, 0 <= a <= 2 ^ Z.of_nat fuel -> a <= U32_MAX ->
    is_Some (while fuel (fun '(active_count, _) => active_count >? 1)
      (fun '(active_count, edges) =>
         (wrap32 (active_count + 1) / 2, wrap32 (edges + wrap32 (active_count + 1) / 2))) (a, e)))
    as G.
  { induction fuel as [|k IH]; intros a e Ha Hu.
    - cbn in Ha. rewrite while_done; [by eexists|]. rewrite Z.gtb_ltb. apply Z.ltb_ge. lia.
    - destruct (a >? 1) eqn:E; [|rewrite while_done by done; by eexists].
      rewrite while_next by done. to_prop. rewrite Nat2Z.inj_succ, Z.pow_succ_r in Ha by lia.
      apply IH; unfold wrap32; Z.div_mod_to_equations; lia. }
  destruct (G tree_fuel n 0) as [r ->]; [unfold is_u32, tree_fuel in *; lia.. | by eexists].
Qed.
