(* ===== verification/FoldBuild.v ===== *)
(** * FoldBuild: what [BuildFoldGraph] produces

    The population loops in closed form ([tree_graph]), the validator accepting
    it, and the behaviour of [BuildFoldGraph] on every branch. *)
From stdpp Require Import base numbers list option strings.
From Stdlib Require Import ZArith Lia.
From S2P Require Import Prelude Checked FoldModel FoldSpec FoldGraph FoldTree.

(** ** Field updates: normal form

    Updates commute and absorb, so a chain of them is brought to the order
    slots, edges, nodes, final slot; the proofs never unfold a graph. *)
Lemma slots_slots g a b : set_slots (set_slots g a) b = set_slots g b.
Proof. reflexivity. Qed.
Lemma nodes_nodes g a b : set_nodes (set_nodes g a) b = set_nodes g b.
Proof. reflexivity. Qed.
Lemma edges_edges g a b : set_edges (set_edges g a) b = set_edges g b.
Proof. reflexivity. Qed.
Lemma final_final g a b : set_final_slot (set_final_slot g a) b = set_final_slot g b.
Proof. reflexivity. Qed.
Lemma slots_nodes g a b : set_slots (set_nodes g a) b = set_nodes (set_slots g b) a.
Proof. reflexivity. Qed.
Lemma edges_nodes g a b : set_edges (set_nodes g a) b = set_nodes (set_edges g b) a.
Proof. reflexivity. Qed.
Lemma edges_final g a b : set_edges (set_final_slot g a) b = set_final_slot (set_edges g b) a.
Proof. reflexivity. Qed.
Lemma nodes_final g a b : set_nodes (set_final_slot g a) b = set_final_slot (set_nodes g b) a.
Proof. reflexivity. Qed.
Lemma get_slots g v : partition_fold_slots (set_slots g v) = v.
Proof. reflexivity. Qed.
Lemma get_nodes g v : nodes (set_nodes g v) = v.
Proof. reflexivity. Qed.
Lemma get_edges g v : reduction_edges (set_edges g v) = v.
Proof. reflexivity. Qed.
Lemma get_slots_nodes g v : partition_fold_slots (set_nodes g v) = partition_fold_slots g.
Proof. reflexivity. Qed.
Lemma get_nodes_slots g v : nodes (set_slots g v) = nodes g.
Proof. reflexivity. Qed.
Lemma get_nodes_edges g v : nodes (set_edges g v) = nodes g.
Proof. reflexivity. Qed.
Lemma get_edges_nodes g v : reduction_edges (set_nodes g v) = reduction_edges g.
Proof. reflexivity. Qed.
Lemma get_edges_final g v : reduction_edges (set_final_slot g v) = reduction_edges g.
Proof. reflexivity. Qed.
Lemma get_nodes_final g v : nodes (set_final_slot g v) = nodes g.
Proof. reflexivity. Qed.

Create Rewrite HintDb graph_fields.
#[export] Hint Rewrite slots_slots nodes_nodes edges_edges final_final slots_nodes edges_nodes
  edges_final nodes_final get_slots get_nodes get_edges get_slots_nodes get_nodes_slots
  get_nodes_edges get_edges_nodes get_edges_final get_nodes_final : graph_fields.

(** ** The populated graph *)
Section plan.
Context (plan : BuildPlan).
Abbreviation pc := (plan_partition_count plan).

Definition part_nodes (n : Z) : list FoldGraphNode :=
  p ← range 0 n;
  [partition_node plan WorkerLocalPartial (2 * p) p;
   partition_node plan GlobalOrderedSlot (2 * p + 1) p].

Definition tree_edge (st : TreeStep) : FoldGraphEdge :=
  step_edge (plan_operation plan) (primitive plan) st.
Definition tree_node (st : TreeStep) : FoldGraphNode :=
  edge_node plan (2 * pc + step_edge_index st) (tree_edge st).

Definition tree_graph (c1 c2 c3 : Z) : FoldGraph := {|
  operation := plan_operation plan;
  value_domain := prim_value_domain (primitive plan);
  strict_float_reduction := plan_strict_float_reduction plan;
  partition_count := pc;
  worker_local_slot_count := pc;
  global_ordered_slot_count := pc;
  scratch_slot_count := required_scratch_slots plan;
  final_slot := pc + edge_count pc - 1;
  fixed_binary_tree := true;
  fixed_topological_order := true;
  dag_validated := false;
  slot_bounds_validated := false;
  padding_law_validated := false;
  primitive_standardized := supported (primitive plan);
  floating_point_allowed := false;
  strict_floating_point := requires_strict_floating_point (primitive plan);
  partition_fold_slots := Vec (range 0 pc) c1;
  nodes := Vec (part_nodes pc ++ map tree_node (steps_of pc)) c2;
  reduction_edges := Vec (map tree_edge (steps_of pc)) c3 |}.

Lemma part_nodes_snoc n :
  0 <= n ->
  part_nodes (n + 1) =
  part_nodes n ++ [partition_node plan WorkerLocalPartial (2 * n) n;
                   partition_node plan GlobalOrderedSlot (2 * n + 1) n].
Proof using. intros. unfold part_nodes. by rewrite range_snoc, bind_app by lia. Qed.

Lemma zlen_part_nodes n : 0 <= n -> zlen (part_nodes n) = 2 * n.
Proof using.
  intros Hn. pattern n. apply natlike_ind; [done | | done].
  intros x Hx IH. unfold Z.succ. rewrite part_nodes_snoc, zlen_app, IH by done.
  rewrite !zlen_cons, zlen_nil. lia.
Qed.

Lemma AppendPartitionSlots_eq g l c1 c2 :
  partition_fold_slots g = Vec l c1 -> zlen l = pc -> nodes g = Vec [] c2 ->
  0 <= pc -> 2 * pc <= U32_MAX -> 2 * pc <= c2 ->
  AppendPartitionSlots g plan =
  Some (set_nodes (set_slots g (Vec (range 0 pc) c1)) (Vec (part_nodes pc) c2)).
Proof using.
  intros Eg El Egn Hpc Hu Hc.
  destruct (for_range_inv
    (fun p st => st = set_nodes (set_slots g (Vec (range 0 p ++ drop (Z.to_nat p) l) c1))
                        (Vec (part_nodes p) c2))
    (fun graph partition =>
       slots ← vset (partition_fold_slots graph) partition partition;
       let graph := set_slots graph slots in
       let graph := set_nodes graph (vpush (nodes graph)
         (partition_node plan WorkerLocalPartial (wrap32 (vsize (nodes graph))) partition)) in
       Some (set_nodes graph (vpush (nodes graph)
         (partition_node plan GlobalOrderedSlot (wrap32 (vsize (nodes graph))) partition))))
    0 pc g) as (st & E & ->); [done | | | ].
  - rewrite range_nil by lia. cbn [app Z.to_nat]. rewrite drop_0.
    destruct g. cbn in *. by subst.
  - intros p st Hp ->. eexists. split; [|reflexivity].
    assert (exists x, l !! Z.to_nat p = Some x) as [x Hx]
      by (apply lookup_lt_is_Some; unfold zlen in El; lia).
    rewrite (drop_S l x _ Hx). autorewrite with graph_fields.
    unfold vset. cbn [items capacity].
    rewrite zset_app_mid by (rewrite zlen_range by lia; lia).
    cbn [mbind option_bind]. cbv zeta. f_equal. autorewrite with graph_fields.
    unfold vpush, vsize. cbn [items capacity].
    autorewrite with zlen. rewrite !zlen_part_nodes by lia.
    rewrite !wrap32_small by (unfold is_u32; lia). f_equal; [do 2 f_equal | f_equal].
    + rewrite range_snoc by lia. rewrite <- app_assoc. cbn. do 3 f_equal. lia.
    + rewrite part_nodes_snoc by lia. rewrite <- app_assoc. cbn. do 3 f_equal; f_equal; lia.
    + lia.
  - etransitivity; [exact E|]. do 3 f_equal.
    rewrite drop_ge by (unfold zlen in El; lia). by rewrite app_nil_r.
Qed.

Lemma steps_last_output :
  1 <= pc -> pc + edge_count pc <= U32_MAX ->
  default (pc - 1) (step_output <$> last (steps_of pc)) = pc + edge_count pc - 1.
Proof using.
  intros Hpc Hb. pose proof (zlen_steps_of pc Hpc) as Hl. rewrite last_lookup.
  destruct (steps_of pc !! pred (length (steps_of pc))) as [st|] eqn:E.
  - pose proof E as Hlt%lookup_lt_Some. apply steps_of_ok in E; [|lia..]. cbn.
    rewrite (st_output _ _ _ _ E). unfold zlen in Hl. lia.
  - apply lookup_ge_None in E. cbn. unfold zlen in Hl. lia.
Qed.

Lemma AppendReductionTree_eq g c2 c3 :
  nodes g = Vec (part_nodes pc) c2 ->
  reduction_edges g = Vec (replicate (Z.to_nat (edge_count pc)) DefaultFoldGraphEdge) c3 ->
  final_slot g = pc - 1 ->
  1 <= pc <= 2 ^ 31 -> 2 * pc + edge_count pc <= U32_MAX -> 2 * pc + edge_count pc <= c2 ->
  AppendReductionTree g plan =
  Some (set_final_slot
    (set_nodes (set_edges g (Vec (map tree_edge (steps_of pc)) c3))
       (Vec (part_nodes pc ++ map tree_node (steps_of pc)) c2))
    (pc + edge_count pc - 1)).
Proof using.
  intros Egn Ege Egf Hpc Hu Hc. unfold AppendReductionTree. rewrite for_tree_steps by lia.
  pose proof (zlen_steps_of pc ltac:(lia)) as Hl.
  destruct (for_loop_total (R := Empty_set)
    (fun d st => st = set_final_slot
       (set_nodes (set_edges g (Vec (map tree_edge d ++
          replicate (Z.to_nat (edge_count pc) - length d) DefaultFoldGraphEdge) c3))
         (Vec (part_nodes pc ++ map tree_node d) c2))
       (default (pc - 1) (step_output <$> last d)))
    (fun graph st =>
       let edge := step_edge (plan_operation plan) (primitive plan) st in
       edges ← vset (reduction_edges graph) (step_edge_index st) edge;
       let graph := set_edges graph edges in
       let graph := set_nodes graph
         (vpush (nodes graph) (edge_node plan (wrap32 (vsize (nodes graph))) edge)) in
       Some (Next (set_final_slot graph (output_slot edge))))
    (steps_of pc) g) as (st & E & ->).
  - cbn. rewrite Nat.sub_0_r, app_nil_r. destruct g. cbn in *. by subst.
  - intros d st rest gr Ed ->. eexists. split; [|reflexivity].
    assert (steps_of pc !! length d = Some st) as Hst
      by (rewrite Ed; by apply list_lookup_middle).
    apply steps_of_ok in Hst; [|lia..]. destruct Hst as [Hx _ _ _ _]. rewrite Z.add_0_l in Hx.
    assert (zlen (steps_of pc) = zlen d + 1 + zlen rest) as Hd
      by (rewrite Ed, zlen_app, zlen_cons; lia).
    unfold zlen in Hd, Hl.
    cbv zeta. autorewrite with graph_fields. unfold vset. cbn [items capacity]. rewrite Hx.
    replace (Z.to_nat (edge_count pc) - length d)%nat with
      (S (Z.to_nat (edge_count pc) - S (length d)))%nat by lia. cbn [replicate].
    rewrite zset_app_mid by (rewrite zlen_map; done). cbn [mbind option_bind].
    do 2 f_equal. autorewrite with graph_fields. unfold vpush, vsize. cbn [items capacity].
    autorewrite with zlen. rewrite zlen_part_nodes by lia.
    rewrite wrap32_small by (unfold is_u32, zlen; lia).
    rewrite last_snoc, !map_app, <- !app_assoc, length_app. cbn [app map length].
    rewrite Nat.add_1_r.
    replace (c2 `max` (2 * pc + zlen d + 1)) with c2 by (unfold zlen; lia).
    replace (tree_node st) with (edge_node plan (2 * pc + zlen d) (tree_edge st))
      by (unfold tree_node, zlen; by rewrite Hx).
    reflexivity.
  - etransitivity; [refine (f_equal (fun r => _ ← (_ ← r; _); _) E)|]. unfold zlen in Hl.
    replace (Z.to_nat (edge_count pc) - length (steps_of pc))%nat with 0%nat by lia.
    rewrite app_nil_r, steps_last_output by lia. reflexivity.
Qed.
(** *** Population and validation *)
Context (Hpc : 1 <= pc <= 2 ^ 31) (Hcount : 2 * pc + edge_count pc <= U32_MAX).
Context (Hedges : required_edges plan = edge_count pc)
  (Hnodes : required_nodes plan = 2 * pc + edge_count pc)
  (Hscratch : required_scratch_slots plan = pc + edge_count pc).

Lemma PopulateFixedBinaryTreeGraph_eq g :
  PopulateFixedBinaryTreeGraph g plan =
  Some (tree_graph (Z.max (capacity (partition_fold_slots g)) pc)
         (Z.max (capacity (nodes g)) (required_nodes plan))
         (Z.max (capacity (reduction_edges g)) (required_edges plan))).
Proof using Hpc Hcount Hedges Hnodes Hscratch.
  pose proof (edge_count_bound pc ltac:(lia)).
  unfold PopulateFixedBinaryTreeGraph. cbv zeta.
  erewrite bind_Some_eq; [|eapply AppendPartitionSlots_eq; [reflexivity | | reflexivity | lia.. ]].
  2: { pose proof (vsize_resize (partition_fold_slots g) pc 0 ltac:(lia)) as E.
       unfold vsize in E. exact E. }
  autorewrite with graph_fields.
  rewrite (AppendReductionTree_eq _ (Z.max (capacity (nodes g)) (required_nodes plan))
             (Z.max (capacity (reduction_edges g)) (required_edges plan)));
    [reflexivity | reflexivity | | | lia..].
  - rewrite get_edges_nodes, get_edges. unfold vresize. cbn [vclear items capacity].
    rewrite take_nil, Hedges, Nat.sub_0_r. reflexivity.
  - cbn. apply wrap32_small. unfold is_u32; lia.
Qed.

Lemma part_nodes_lookup n p :
  0 <= p < n ->
  zget (part_nodes n) (2 * p) = Some (partition_node plan WorkerLocalPartial (2 * p) p) /\
  zget (part_nodes n) (2 * p + 1) = Some (partition_node plan GlobalOrderedSlot (2 * p + 1) p).
Proof using.
  intros Hp. assert (0 <= n) as Hn by lia. revert p Hp. pattern n. apply natlike_ind; [lia | | done].
  intros x Hx IH p Hp. unfold Z.succ. rewrite part_nodes_snoc by done.
  destruct (Z.eq_dec p x) as [->|].
  - rewrite !zget_app_ge, !zlen_part_nodes by (rewrite ?zlen_part_nodes by lia; lia).
    replace (2 * x - 2 * x) with 0 by lia. replace (2 * x + 1 - 2 * x) with 1 by lia. done.
  - rewrite !zget_app_l by (rewrite zlen_part_nodes by lia; lia). apply IH; lia.
Qed.

Lemma ValidateFixedGraphPartitionNodes_pass c1 c2 c3 scratch :
  ValidateFixedGraphPartitionNodes (tree_graph c1 c2 c3) (plan_operation plan) (primitive plan) pc
    scratch = Some (PassBuiltGraphValidation scratch).
Proof using Hpc Hcount.
  pose proof (edge_count_bound pc ltac:(lia)).
  unfold ValidateFixedGraphPartitionNodes.
  edestruct (for_loop_total (R := FoldGraphValidationResult) (fun (_ : list Z) (_ : unit) => True))
    as (st & E & _); [exact I | | by rewrite E].
  intros d p rest [] Ed _. exists tt. split; [|done].
  assert (0 <= p < pc) as Hp by (apply elem_of_range; rewrite Ed; apply elem_of_app; right; left).
  cbn [tree_graph partition_fold_slots nodes items].
  rewrite zget_range_ix by lia. cbn [mbind option_bind]. rewrite Z.add_0_l, Z.eqb_refl. cbn [negb].
  rewrite (Z.mul_comm p 2), !wrap32_small by (unfold is_u32; lia).
  destruct (part_nodes_lookup pc p Hp) as [E1 E2].
  rewrite !zget_app_l by (rewrite zlen_part_nodes by lia; lia). rewrite E1, E2.
  cbn [mbind option_bind partition_node kind topological_index node_slot node_operation
    node_value_domain node_overflow_law].
  rewrite !Z.eqb_refl, !bool_decide_true by done. reflexivity.
Qed.

Lemma tree_edge_lookup i st :
  steps_of pc !! i = Some st ->
  zget (map tree_edge (steps_of pc)) (step_edge_index st) = Some (tree_edge st) /\
  zget (part_nodes pc ++ map tree_node (steps_of pc)) (2 * pc + step_edge_index st) =
  Some (tree_node st) /\ 0 <= step_edge_index st < edge_count pc.
Proof using Hpc Hcount.
  intros Hi. pose proof Hi as Hl%lookup_lt_Some. pose proof (zlen_steps_of pc ltac:(lia)) as Hz.
  pose proof (steps_of_ok pc i st ltac:(lia) ltac:(lia) Hi) as [Hx _ _ _ _].
  rewrite Z.add_0_l in Hx. unfold zlen in Hz. rewrite Hx. split; [|split; [|lia]].
  - rewrite zget_nat, list_lookup_fmap, Hi. done.
  - rewrite zget_app_ge, zlen_part_nodes by (rewrite ?zlen_part_nodes by lia; lia).
    replace (2 * pc + Z.of_nat i - 2 * pc) with (Z.of_nat i) by lia.
    rewrite zget_nat, list_lookup_fmap, Hi. done.
Qed.

Lemma ValidateFixedGraphReductionEdges_pass c1 c2 c3 :
  ValidateFixedGraphReductionEdges (tree_graph c1 c2 c3) (plan_operation plan) (primitive plan) pc
    (required_edges plan) (required_scratch_slots plan) =
  Some {| val_ok := true; val_reason := "pass";
          val_scratch_slot_count := required_scratch_slots plan;
          val_final_slot := pc + edge_count pc - 1; val_dag_validated := true;
          val_slot_bounds_validated := true; val_padding_law_validated := true |}.
Proof using Hpc Hcount Hedges Hscratch.
  pose proof (edge_count_bound pc ltac:(lia)).
  unfold ValidateFixedGraphReductionEdges. cbv zeta. rewrite for_tree_steps by lia.
  edestruct (for_loop_total (R := FoldGraphValidationResult)
    (fun d f => f = default (pc - 1) (step_output <$> last d))) as (st & E & ->).
  3: { rewrite E. cbn [after mbind option_bind]. rewrite steps_last_output by lia.
       cbn [tree_graph final_slot]. rewrite Hedges, !Z.eqb_refl. reflexivity. }
  { cbn. apply wrap32_small. unfold is_u32; lia. }
  intros d st rest f Ed ->. eexists. split; [|by rewrite last_snoc].
  assert (steps_of pc !! length d = Some st) as Hst by (rewrite Ed; by apply list_lookup_middle).
  destruct (tree_edge_lookup _ _ Hst) as (E1 & E2 & Hi).
  pose proof (steps_of_ok pc _ st ltac:(lia) ltac:(lia) Hst) as [Hx Ho Hle Hr Hp].
  rewrite Hedges, Hscratch, !Z.geb_leb.
  destruct (Z.leb_spec (edge_count pc) (step_edge_index st)); [lia|].
  destruct (Z.leb_spec (pc + edge_count pc) (step_left st)); [lia|].
  destruct (Z.leb_spec (pc + edge_count pc) (step_right st)); [lia|].
  destruct (Z.leb_spec (pc + edge_count pc) (step_output st)); [lia|].
  cbn [orb tree_graph reduction_edges nodes items].
  rewrite (Z.mul_comm pc 2), wrap32_small by (unfold is_u32; lia).
  rewrite E1. cbn [mbind option_bind]. rewrite E2. cbn [mbind option_bind].
  unfold tree_node, tree_edge. cbn [edge_node step_edge edge_level left_slot right_slot output_slot
    edge_operation padding_law padding_value right_is_padding kind topological_index node_slot
    node_left_slot node_right_slot node_operation node_value_domain node_padding_law
    node_overflow_law node_right_is_padding].
  rewrite !Z.eqb_refl, !eqb_reflx.
  destruct (has_right st); cbn [negb eqb andb orb]; rewrite ?Z.eqb_refl, !bool_decide_true by done;
    reflexivity.
Qed.

Lemma ValidateBuilt_pass c1 c2 c3 :
  supported (primitive plan) = true ->
  ValidateBuiltFixedBinaryTreeGraph (tree_graph c1 c2 c3) (plan_operation plan) (primitive plan) pc
    (required_nodes plan) (required_edges plan) (required_scratch_slots plan) =
  Some {| val_ok := true; val_reason := "pass";
          val_scratch_slot_count := required_scratch_slots plan;
          val_final_slot := pc + edge_count pc - 1; val_dag_validated := true;
          val_slot_bounds_validated := true; val_padding_law_validated := true |}.
Proof using Hpc Hcount Hedges Hnodes Hscratch.
  intros Hs. pose proof (edge_count_bound pc ltac:(lia)).
  unfold ValidateBuiltFixedBinaryTreeGraph, ValidateFixedGraphShape. cbv zeta.
  cbn [tree_graph primitive_standardized partition_count partition_fold_slots nodes reduction_edges
    scratch_slot_count]. rewrite Hs. unfold vsize. cbn [items negb orb].
  autorewrite with zlen. rewrite zlen_range, zlen_part_nodes, zlen_steps_of by lia.
  rewrite Z.sub_0_r, <- Hnodes, <- Hedges, !Z.eqb_refl. cbn [negb orb PassBuiltGraphValidation val_ok].
  erewrite bind_Some_eq by apply ValidateFixedGraphPartitionNodes_pass.
  cbn [PassBuiltGraphValidation val_ok negb].
  rewrite (ValidateFixedGraphReductionEdges_pass c1 c2 c3), Hedges. reflexivity.
Qed.
End plan.

(** ** [BuildFoldGraph] on every branch *)
Section build.
Context (graph : FoldGraph) (pc : Z) (op : FoldOperation)
  (policy : StrictFloatReductionPolicy) (alloc : AllocationPolicy).

Definition build_plan : BuildPlan := {|
  plan_partition_count := pc; required_edges := edge_count pc;
  required_nodes := 2 * pc + edge_count pc; required_scratch_slots := pc + edge_count pc;
  plan_operation := op; primitive := DescribeFoldOperation op;
  plan_strict_float_reduction := policy; allocation := alloc |}.

(** The law of the operation is admitted under the policy. *)
Definition admitted : bool :=
  negb (admits_floating_point (DescribeFoldOperation op)) || StrictFloatReductionValid op policy.

(** The graph fits: counts in 32 bits and, without growth, the reserved capacity. *)
Definition fits : bool :=
  (0 <? pc) && (2 * pc + edge_count pc <=? U32_MAX) &&
  (bool_decide (alloc = AllowGrowth) ||
   (pc <=? capacity (partition_fold_slots graph)) &&
   (2 * pc + edge_count pc <=? capacity (nodes graph)) &&
   (edge_count pc <=? capacity (reduction_edges graph))).

Definition built_graph : FoldGraph :=
  set_validation
    (tree_graph build_plan (Z.max (capacity (partition_fold_slots graph)) pc)
       (Z.max (capacity (nodes graph)) (2 * pc + edge_count pc))
       (Z.max (capacity (reduction_edges graph)) (edge_count pc)))
    (pc + edge_count pc) (pc + edge_count pc - 1) true true true.

Lemma BuildFoldGraph_fits :
  is_u32 pc -> admitted = true -> fits = true ->
  exists report, BuildFoldGraph graph pc op policy alloc = Some (report, built_graph) /\
    build_ok report = true /\ build_reason report = "pass"%string.
Proof using.
  intros Hu Hadm Hfit. unfold fits in Hfit. to_prop.
  pose proof (edge_count_bound pc) as Hec.
  assert (pc <= 2 ^ 31) as H31
    by (pose proof (tree_size_nonneg tree_fuel pc); unfold edge_count in *; lia).
  specialize (Hec ltac:(lia)).
  unfold BuildFoldGraph. cbv zeta. unfold FoldGraphFixedBinaryTreeEdgeCount,
    FoldGraphFixedBinaryTreeNodeCount, FoldGraphFixedBinaryTreeScratchSlotCount.
  rewrite FixedBinaryTreeEdgeCount_eq by lia. cbn [mbind option_bind].
  destruct (Z.eqb_spec pc 0); [lia|]. rewrite Z.gtb_ltb.
  destruct (Z.ltb_spec (U32_MAX / 2) pc) as [Hh|_];
    [exfalso; revert Hh; change (U32_MAX / 2) with 2147483647; lia |]. cbn [orb].
  rewrite (wrap32_small (pc * 2)) by (unfold is_u32; lia). rewrite Z.gtb_ltb.
  destruct (Z.ltb_spec (U32_MAX - pc * 2) (edge_count pc)); [lia|]. cbn [mbind option_bind].
  rewrite !wrap32_small by (unfold is_u32; lia). rewrite (Z.mul_comm pc 2).
  fold build_plan. cbn [build_plan required_nodes required_scratch_slots required_edges].
  rewrite FoldSpecFacts.IsSupportedFoldOperation_true. cbn [negb].
  assert (admits_floating_point (DescribeFoldOperation op) && negb (policy_valid policy) = false) as ->.
  { unfold admitted in Hadm. destruct (admits_floating_point _) eqn:Ea; [|done]. cbn in Hadm |- *.
    unfold StrictFloatReductionValid in Hadm. destruct (policy_valid policy); [done|].
    by destruct op. }
  assert (admits_floating_point (DescribeFoldOperation op) &&
          negb (StrictFloatReductionValid op policy) = false) as ->
    by (unfold admitted in Hadm; destruct (admits_floating_point _), (StrictFloatReductionValid _ _); done).
  destruct (Z.eqb_spec (2 * pc + edge_count pc) 0); [lia|].
  destruct (Z.eqb_spec (pc + edge_count pc) 0); [lia|]. cbn [orb].
  match goal with |- context [if ?b then Some (CapacityFailure _ _, _) else _] =>
    assert (b = false) as -> end.
  { destruct alloc; [done|]. rewrite bool_decide_true by done. rewrite bool_decide_false in * by done.
    cbn in *. to_prop. repeat (apply orb_false_intro); apply Z.ltb_ge; lia. }
  erewrite bind_Some_eq by (apply PopulateFixedBinaryTreeGraph_eq; cbn; lia).
  erewrite bind_Some_eq
    by (apply (ValidateBuilt_pass build_plan); cbn; try lia; apply FoldSpecFacts.supported_true).
  cbn [val_ok negb]. eexists. split.
  - apply (f_equal Some), (f_equal2 pair); [reflexivity|]. unfold built_graph. f_equal.
    f_equal; clear; destruct alloc; try case_bool_decide; try done; cbn; lia.
  - done.
Qed.

Lemma FoldGraphFixedBinaryTreeNodeCount_eq :
  is_u32 pc ->
  FoldGraphFixedBinaryTreeNodeCount pc =
  Some (if (0 <? pc) && (2 * pc + edge_count pc <=? U32_MAX) then 2 * pc + edge_count pc else 0).
Proof using.
  intros Hu. unfold is_u32 in Hu. pose proof (tree_size_nonneg tree_fuel pc) as Hn.
  fold (edge_count pc) in Hn. unfold FoldGraphFixedBinaryTreeNodeCount. rewrite Z.gtb_ltb.
  change (U32_MAX / 2) with 2147483647.
  destruct (Z.eqb_spec pc 0) as [->|]; [done|]. cbn [orb].
  destruct (Z.ltb_spec 0 pc); [|lia]. cbn [andb].
  destruct (Z.ltb_spec 2147483647 pc); destruct (Z.leb_spec (2 * pc + edge_count pc) U32_MAX);
    try lia; try done; rewrite FixedBinaryTreeEdgeCount_eq by lia; cbn [mbind option_bind];
    rewrite (wrap32_small (pc * 2)) by (unfold is_u32; lia); rewrite Z.gtb_ltb;
    destruct (Z.ltb_spec (U32_MAX - pc * 2) (edge_count pc)); try lia; try done.
  rewrite wrap32_small by (unfold is_u32; lia). f_equal. lia.
Qed.

Lemma BuildFoldGraph_rejects :
  is_u32 pc -> admitted && fits = false ->
  exists report, BuildFoldGraph graph pc op policy alloc = Some (report, graph) /\
    build_ok report = false.
Proof using.
  intros Hu Hrej. unfold BuildFoldGraph. cbv zeta.
  rewrite FoldGraphFixedBinaryTreeNodeCount_eq by done.
  unfold FoldGraphFixedBinaryTreeEdgeCount, FoldGraphFixedBinaryTreeScratchSlotCount.
  destruct (FixedBinaryTreeEdgeCount_total pc Hu) as [e Ee]. rewrite Ee.
  cbn [mbind option_bind]. rewrite FoldSpecFacts.IsSupportedFoldOperation_true. cbn [negb].
  assert (exists scratch, (if pc =? 0 then Some 0 else Some (wrap32 (pc + e))) = Some scratch)
    as [scratch ->] by (destruct (pc =? 0); eauto). cbn [mbind option_bind].
  unfold admitted in Hrej.
  destruct (admits_floating_point (DescribeFoldOperation op)); cbn [negb orb andb] in *.
  1: destruct (policy_valid policy) eqn:Ev; cbn [negb]; [|by eexists].
  1: destruct (StrictFloatReductionValid op policy); cbn [negb andb] in *; [|by eexists].
  all: destruct (Z.eqb_spec pc 0); [by eexists|]; cbn [required_nodes required_edges required_scratch_slots].
  all: unfold is_u32 in Hu; unfold fits in Hrej; destruct (Z.ltb_spec 0 pc); [cbn [andb] in *|lia].
  all: destruct (Z.leb_spec (2 * pc + edge_count pc) U32_MAX); cbn [andb] in *; [|by eexists].
  all: destruct (_ || (scratch =? 0)); [by eexists|].
  all: rewrite FixedBinaryTreeEdgeCount_eq in Ee
    by (pose proof (tree_size_nonneg tree_fuel pc); unfold edge_count in *; lia); injection Ee as <-.
  all: destruct alloc; [by rewrite bool_decide_true in Hrej|];
    rewrite bool_decide_false in Hrej by done; rewrite bool_decide_true by done; cbn [andb orb] in *;
    match goal with |- context [if ?b then _ else _] => assert (b = true) as -> end;
    [| by eexists].
  all: apply not_false_is_true; intros Hno; to_prop; apply not_true_iff_false in Hrej; apply Hrej;
    rewrite !andb_true_iff, !Z.leb_le; lia.
Qed.

(** C3: [BuildFoldGraph] returns for every 32-bit partition count. It succeeds
    exactly when the policy admits the operation, the counts fit in 32 bits and,
    under [NoGrowth], the reserved capacities suffice; then the graph is the
    complete fixed binary tree, otherwise it is left untouched. [NoGrowth] never
    changes a capacity: nothing is allocated. *)
Theorem BuildFoldGraph_spec :
  is_u32 pc ->
  exists report graph',
    BuildFoldGraph graph pc op policy alloc = Some (report, graph') /\
    build_ok report = admitted && fits /\
    graph' = (if build_ok report then built_graph else graph) /\
    (alloc = NoGrowth ->
     capacity (partition_fold_slots graph') = capacity (partition_fold_slots graph) /\
     capacity (nodes graph') = capacity (nodes graph) /\
     capacity (reduction_edges graph') = capacity (reduction_edges graph)).
Proof using.
  intros Hu. destruct (admitted && fits) eqn:Hok.
  - apply andb_prop in Hok as [Ha Hf].
    destruct (BuildFoldGraph_fits Hu Ha Hf) as (rep & -> & Hr & _).
    exists rep, built_graph. rewrite Hr. repeat (split; [done|]). intros Ea. unfold fits in Hf. rewrite Ea in Hf.
    rewrite bool_decide_false in Hf by done. cbn [orb] in Hf. to_prop. cbn. lia.
  - destruct (BuildFoldGraph_rejects Hu Hok) as (rep & -> & Hr).
    exists rep, graph. rewrite Hr. repeat (split; [done|]). done.
Qed.
End build.

Lemma BuildFoldGraph_spec_witness :
  exists report graph',
    BuildFoldGraph EmptyFoldGraph 5 Min DefaultStrictFloatPolicy AllowGrowth =
      Some (report, graph') /\ build_ok report = true.
Proof.
  destruct (BuildFoldGraph_spec EmptyFoldGraph 5 Min DefaultStrictFloatPolicy AllowGrowth)
    as (rep & g & E & Hok & _); [split; lia|].
  exists rep, g. split; [exact E|]. rewrite Hok. vm_compute. reflexivity.
Defined.
