(* ===== verification/FoldReduce.v ===== *)
(** * FoldReduce: validation and evaluation of a fold graph

    [reduction/graph/view.cpp], [reduction/fold/graph.cpp],
    [reduction/fold/graph/**], [reduction/fold/scratch.cpp],
    [reduction/fold/reduce.cpp], [reduction/fold/ordered.cpp] and
    [reduction/slots.cpp]. A pointer of a view is [option (list A)] ([None] is
    [nullptr]); a read outside the list is undefined behaviour. The measured cost
    is an argument: the elapsed nanoseconds of the steady clock. *)
From stdpp Require Import base numbers list option strings.
From Stdlib Require Import ZArith Lia.
From S2P Require Import Prelude Checked FoldModel FoldSpec FoldGraph.

(** ** Data *)
Record FoldGraphProgram := {
  prog_operation : FoldOperation;
  prog_value_domain : FoldValueDomain;
  prog_strict_float_reduction : StrictFloatReductionPolicy;
  prog_partition_count : Z;
  prog_worker_local_slot_count : Z;
  prog_global_ordered_slot_count : Z;
  prog_scratch_slot_count : Z;
  prog_final_slot : Z;
  prog_nodes : option (list FoldGraphNode);
  prog_node_count : Z;
  prog_edges : option (list FoldGraphEdge);
  prog_edge_count : Z;
  prog_fixed_topological_order : bool;
  prog_dag_validated : bool;
  prog_slot_bounds_validated : bool;
  prog_padding_law_validated : bool;
  prog_primitive_standardized : bool;
  prog_strict_floating_point : bool;
  prog_no_allocation : bool;
}.

Record FoldGraphView := {
  v_operation : FoldOperation;
  v_value_domain : FoldValueDomain;
  v_strict_float_reduction : StrictFloatReductionPolicy;
  v_partition_count : Z;
  v_worker_local_slot_count : Z;
  v_global_ordered_slot_count : Z;
  v_scratch_slot_count : Z;
  v_final_slot : Z;
  v_fixed_binary_tree : bool;
  v_fixed_topological_order : bool;
  v_dag_validated : bool;
  v_slot_bounds_validated : bool;
  v_padding_law_validated : bool;
  v_primitive_standardized : bool;
  v_floating_point_allowed : bool;
  v_strict_floating_point : bool;
  v_partition_fold_slots : option (list Z);
  v_partition_fold_slot_count : Z;
  v_nodes : option (list FoldGraphNode);
  v_node_count : Z;
  v_reduction_edges : option (list FoldGraphEdge);
  v_reduction_edge_count : Z;
  v_program : FoldGraphProgram;
}.

Record FoldResult := {
  res_ok : bool;
  res_reason : string;
  res_value : Z;
  res_slot_count : Z;
  res_operation : FoldOperation;
  res_fold_cost_ns : Z;
  res_fold_cost_measured : bool;
}.

(** [p[i]] through a pointer of a view. *)
Definition ptr_get {A} (p : option (list A)) (i : Z) : option A := l ← p; zget l i.

(** ** [ViewFoldGraph] *)
Definition ViewFoldGraph (graph : FoldGraph) : FoldGraphView := {|
  v_operation := operation graph;
  v_value_domain := value_domain graph;
  v_strict_float_reduction := strict_float_reduction graph;
  v_partition_count := partition_count graph;
  v_worker_local_slot_count := worker_local_slot_count graph;
  v_global_ordered_slot_count := global_ordered_slot_count graph;
  v_scratch_slot_count := scratch_slot_count graph;
  v_final_slot := final_slot graph;
  v_fixed_binary_tree := fixed_binary_tree graph;
  v_fixed_topological_order := fixed_topological_order graph;
  v_dag_validated := dag_validated graph;
  v_slot_bounds_validated := slot_bounds_validated graph;
  v_padding_law_validated := padding_law_validated graph;
  v_primitive_standardized := primitive_standardized graph;
  v_floating_point_allowed := floating_point_allowed graph;
  v_strict_floating_point := strict_floating_point graph;
  v_partition_fold_slots := Some (items (partition_fold_slots graph));
  v_partition_fold_slot_count := wrap32 (vsize (partition_fold_slots graph));
  v_nodes := Some (items (nodes graph));
  v_node_count := wrap32 (vsize (nodes graph));
  v_reduction_edges := Some (items (reduction_edges graph));
  v_reduction_edge_count := wrap32 (vsize (reduction_edges graph));
  v_program := {|
    prog_operation := operation graph;
    prog_value_domain := value_domain graph;
    prog_strict_float_reduction := strict_float_reduction graph;
    prog_partition_count := partition_count graph;
    prog_worker_local_slot_count := worker_local_slot_count graph;
    prog_global_ordered_slot_count := global_ordered_slot_count graph;
    prog_scratch_slot_count := scratch_slot_count graph;
    prog_final_slot := final_slot graph;
    prog_nodes := Some (items (nodes graph));
    prog_node_count := wrap32 (vsize (nodes graph));
    prog_edges := Some (items (reduction_edges graph));
    prog_edge_count := wrap32 (vsize (reduction_edges graph));
    prog_fixed_topological_order := fixed_topological_order graph;
    prog_dag_validated := dag_validated graph;
    prog_slot_bounds_validated := slot_bounds_validated graph;
    prog_padding_law_validated := padding_law_validated graph;
    prog_primitive_standardized := primitive_standardized graph;
    prog_strict_floating_point := strict_floating_point graph;
    prog_no_allocation := false |} |}.

(** ** [FoldGraphScratchSlotCount] *)
Definition is_null {A} (p : option A) : bool := match p with None => true | Some _ => false end.

Definition FoldGraphScratchSlotCount (graph : FoldGraphView) : option Z :=
  let required := v_scratch_slot_count graph in
  let required := if required =? 0 then v_partition_count graph else required in
  if negb (v_partition_fold_slot_count graph =? 0) && is_null (v_partition_fold_slots graph)
  then Some 0
  else if negb (v_node_count graph =? 0) && is_null (v_nodes graph) then Some 0
  else if negb (v_reduction_edge_count graph =? 0) && is_null (v_reduction_edges graph)
  then Some 0
  else
    required ← for_each
      (fun required slot_index =>
         slot ← ptr_get (v_partition_fold_slots graph) slot_index;
         Some (Z.max required (wrap32 (slot + 1))))
      required (range 0 (v_partition_fold_slot_count graph));
    for_each
      (fun required edge_index =>
         edge ← ptr_get (v_reduction_edges graph) edge_index;
         let required := Z.max required (wrap32 (left_slot edge + 1)) in
         let required := Z.max required (wrap32 (right_slot edge + 1)) in
         Some (Z.max required (wrap32 (output_slot edge + 1))))
      required (range 0 (v_reduction_edge_count graph)).

(** ** Validation ([reduction/fold/graph/validation/*.cpp]) *)
Definition kFoldGraphValidationMarkerTagMask : Z := 0xC000000000000000.
Definition kFoldGraphValidationMarkerPayloadMask : Z := 0x3FFFFFFFFFFFFFFF.
Definition kFoldGraphValidationPartitionMarker : Z := 0x4000000000000000.
Definition kFoldGraphValidationEdgeMarker : Z := 0x8000000000000000.

Definition FailFoldGraphValidation (reason : string) (scratch_slot_count : Z)
    : FoldGraphValidationResult := {|
  val_ok := false; val_reason := reason; val_scratch_slot_count := scratch_slot_count;
  val_final_slot := 0; val_dag_validated := false; val_slot_bounds_validated := false;
  val_padding_law_validated := false |}.

Definition PassFoldGraphValidation : FoldGraphValidationResult := {|
  val_ok := true; val_reason := "pass"; val_scratch_slot_count := 0;
  val_final_slot := 0; val_dag_validated := false; val_slot_bounds_validated := false;
  val_padding_law_validated := false |}.

Definition ValidateFoldGraphShape (graph : FoldGraphView) : FoldGraphValidationResult :=
  if negb (v_primitive_standardized graph) || negb (IsSupportedFoldOperation (v_operation graph))
  then FailFoldGraphValidation "unsupported_fold_operation" 0
  else
    let law :=
      if FoldOperationAllowsFloatingPoint (v_operation graph) then
        if negb (v_strict_floating_point graph) then
          Some (FailFoldGraphValidation "floating_point_fold_forbidden" 0)
        else if negb (policy_valid (v_strict_float_reduction graph)) then
          Some (FailFoldGraphValidation "floating_point_law_required" 0)
        else if negb (StrictFloatReductionValid (v_operation graph)
                        (v_strict_float_reduction graph)) then
          Some (FailFoldGraphValidation "floating_point_law_mismatch" 0)
        else None
      else if v_floating_point_allowed graph || v_strict_floating_point graph then
        Some (FailFoldGraphValidation "floating_point_fold_forbidden" 0)
      else None in
    match law with
    | Some failure => failure
    | None =>
        if negb (v_fixed_topological_order graph) then
          FailFoldGraphValidation "fold_graph_topological_order_required" 0
        else if (v_partition_count graph =? 0) || is_null (v_partition_fold_slots graph) ||
                negb (v_partition_fold_slot_count graph =? v_partition_count graph) then
          FailFoldGraphValidation "fold_graph_partition_mismatch" 0
        else if negb (v_reduction_edge_count graph =? 0) && is_null (v_reduction_edges graph) then
          FailFoldGraphValidation "fold_graph_edge_missing" 0
        else if negb (v_node_count graph =? 0) && is_null (v_nodes graph) then
          FailFoldGraphValidation "fold_graph_node_missing" 0
        else PassFoldGraphValidation
    end.

(** The validators that write the markers return them with their verdict. *)
Definition ValidateFoldGraphSlots (graph : FoldGraphView) (defined_markers : list Z)
    (required_slots : Z) : option (FoldGraphValidationResult * list Z) :=
  if required_slots =? 0 then
    Some (FailFoldGraphValidation "fold_graph_scratch_capacity_exceeded" 0, defined_markers)
  else if zlen defined_markers <? required_slots then
    Some (FailFoldGraphValidation "fold_graph_scratch_capacity_exceeded" required_slots,
          defined_markers)
  else
    let markers := replicate (Z.to_nat required_slots) 0 ++
                   drop (Z.to_nat required_slots) defined_markers in
    after (for_loop
      (fun markers partition =>
         slot ← ptr_get (v_partition_fold_slots graph) partition;
         let fail :=
           Some (Return (FailFoldGraphValidation "fold_graph_slot_out_of_range" required_slots,
                         markers)) in
         if slot >=? required_slots then fail
         else
           marker ← zget markers slot;
           if negb (marker =? 0) then fail
           else
             markers ← zset markers slot kFoldGraphValidationPartitionMarker;
             Some (Next markers))
      markers (range 0 (v_partition_count graph)))
    (fun markers => Some (PassFoldGraphValidation, markers)).

Definition ValidateFoldGraphEdges (graph : FoldGraphView) (defined_markers : list Z)
    (primitive : FoldPrimitiveSpec) (required_slots : Z)
    : option (FoldGraphValidationResult * list Z * Z) :=
  let fail reason '(markers, _, final) :=
    Some (Return (FailFoldGraphValidation reason required_slots, markers, final)) in
  final_slot ← ptr_get (v_partition_fold_slots graph) (wrap32 (v_partition_count graph - 1));
  after (for_loop
    (fun '(markers, last_level, final) edge_index =>
       let st := (markers, last_level, final) in
       edge ← ptr_get (v_reduction_edges graph) edge_index;
       if negb (bool_decide (edge_operation edge = v_operation graph)) then
         fail "fold_graph_primitive_mismatch"%string st
       else if negb (edge_index =? 0) && (edge_level edge <? last_level) then
         fail "fold_graph_topological_order_required"%string st
       else if (left_slot edge >=? required_slots) || (right_slot edge >=? required_slots) ||
               (output_slot edge >=? required_slots) then
         fail "fold_graph_edge_out_of_range"%string st
       else
         left_marker ← zget markers (left_slot edge);
         if left_marker =? 0 then fail "fold_graph_edge_input_unavailable"%string st
         else
           right_marker ← (if right_is_padding edge then Some 1
                           else zget markers (right_slot edge));
           if right_marker =? 0 then fail "fold_graph_edge_input_unavailable"%string st
           else
             output_marker ← zget markers (output_slot edge);
             if negb (output_marker =? 0) then
               fail "fold_graph_edge_output_redefined"%string st
             else if right_is_padding edge &&
                     (negb (bool_decide (padding_law edge = prim_padding_law primitive)) ||
                      negb (padding_value edge =? prim_padding_value primitive)) then
               fail "fold_graph_padding_law_mismatch"%string st
             else if negb (right_is_padding edge) &&
                     negb (bool_decide (padding_law edge = PadNone)) then
               fail "fold_graph_padding_law_mismatch"%string st
             else
               markers ← zset markers (output_slot edge)
                           (Z.lor kFoldGraphValidationEdgeMarker edge_index);
               Some (Next (markers, edge_level edge, output_slot edge)))
    (defined_markers, 0, final_slot) (range 0 (v_reduction_edge_count graph)))
  (fun '(markers, _, final) => Some (PassFoldGraphValidation, markers, final)).

Definition ReductionNodeMatchesEdge (node : FoldGraphNode) (edge : FoldGraphEdge) : bool :=
  (node_slot node =? output_slot edge) && (node_left_slot node =? left_slot edge) &&
  (node_right_slot node =? right_slot edge) &&
  bool_decide (node_operation node = edge_operation edge) &&
  bool_decide (node_padding_law node = padding_law edge) &&
  eqb (node_right_is_padding node) (right_is_padding edge).

Definition IsPartitionMarker (marker : Z) : bool := marker =? kFoldGraphValidationPartitionMarker.
Definition IsEdgeMarker (marker : Z) : bool :=
  Z.land marker kFoldGraphValidationMarkerTagMask =? kFoldGraphValidationEdgeMarker.

Definition PartitionNodeValid (marker : Z) (node : FoldGraphNode) : bool :=
  IsPartitionMarker marker && (node_left_slot node =? node_slot node) &&
  (node_right_slot node =? node_slot node) && bool_decide (node_padding_law node = PadNone) &&
  negb (node_right_is_padding node).

Definition ValidateFoldGraphNodes (graph : FoldGraphView) (defined_markers : list Z)
    (primitive : FoldPrimitiveSpec) (required_slots : Z) : option FoldGraphValidationResult :=
  let fail reason := Some (Return (FailFoldGraphValidation reason required_slots)) in
  if zlen defined_markers <? required_slots then
    Some (FailFoldGraphValidation "fold_graph_scratch_capacity_exceeded" required_slots)
  else after (for_loop
    (fun (_ : unit) node_index =>
       node ← ptr_get (v_nodes graph) node_index;
       if negb (topological_index node =? node_index) || (node_slot node >=? required_slots) ||
          negb (bool_decide (node_operation node = v_operation graph)) ||
          negb (bool_decide (node_value_domain node = prim_value_domain primitive)) ||
          negb (bool_decide (node_overflow_law node = prim_overflow_law primitive)) then
         fail "fold_graph_node_mismatch"%string
       else if node_right_is_padding node &&
               (negb (bool_decide (node_padding_law node = prim_padding_law primitive)) ||
                (node_right_slot node >=? required_slots)) then
         fail "fold_graph_padding_law_mismatch"%string
       else
         marker ← zget defined_markers (node_slot node);
         match kind node with
         | WorkerLocalPartial | GlobalOrderedSlot =>
             if negb (PartitionNodeValid marker node) then fail "fold_graph_node_mismatch"%string
             else Some (Next tt)
         | Reduction =>
             if negb (IsEdgeMarker marker) then fail "fold_graph_node_mismatch"%string
             else
               let edge_index := Z.land marker kFoldGraphValidationMarkerPayloadMask in
               if edge_index >=? v_reduction_edge_count graph then
                 fail "fold_graph_node_mismatch"%string
               else
                 edge ← ptr_get (v_reduction_edges graph) edge_index;
                 if negb (ReductionNodeMatchesEdge node edge) then
                   fail "fold_graph_node_mismatch"%string
                 else Some (Next tt)
         end)
    tt (range 0 (v_node_count graph)))
  (fun _ => Some PassFoldGraphValidation).

Definition ValidateFoldGraphWithMarkers (graph : FoldGraphView) (defined_markers : list Z)
    : option (FoldGraphValidationResult * list Z) :=
  let validation := ValidateFoldGraphShape graph in
  if negb (val_ok validation) then Some (validation, defined_markers)
  else
    required_slots ← FoldGraphScratchSlotCount graph;
    '(validation, markers) ← ValidateFoldGraphSlots graph defined_markers required_slots;
    if negb (val_ok validation) then Some (validation, markers)
    else
      let primitive := DescribeFoldOperation (v_operation graph) in
      '(validation, markers, final_slot) ←
        ValidateFoldGraphEdges graph markers primitive required_slots;
      if negb (val_ok validation) then Some (validation, markers)
      else if negb (v_final_slot graph =? final_slot) then
        Some (FailFoldGraphValidation "fold_graph_final_slot_mismatch" required_slots, markers)
      else
        validation ← ValidateFoldGraphNodes graph markers primitive required_slots;
        if negb (val_ok validation) then Some (validation, markers)
        else Some ({|
          val_ok := true; val_reason := "pass"; val_scratch_slot_count := required_slots;
          val_final_slot := final_slot; val_dag_validated := true;
          val_slot_bounds_validated := true; val_padding_law_validated := true |}, markers).

Definition ValidateFoldGraph (graph : FoldGraphView) : option FoldGraphValidationResult :=
  required_slots ← FoldGraphScratchSlotCount graph;
  r ← ValidateFoldGraphWithMarkers graph
        (if required_slots =? 0 then [] else replicate (Z.to_nat required_slots) 0);
  Some (fst r).

(** ** Scratch and evaluation ([fold/scratch.cpp], [fold/reduce.cpp]) *)
Definition EnsureFoldGraphScratch (scratch : vec Z) (graph : FoldGraphView)
    (alloc : AllocationPolicy) : option (bool * vec Z) :=
  required ← FoldGraphScratchSlotCount graph;
  if bool_decide (alloc = NoGrowth) && (capacity scratch <? required) then Some (false, scratch)
  else
    let scratch := if bool_decide (alloc = AllowGrowth) then vreserve scratch required
                   else scratch in
    let scratch := vresize scratch required 0 in
    Some (true, Vec (replicate (length (items scratch)) 0) (capacity scratch)).

Definition FailFoldResult (graph : FoldGraphView) (reason : string) (elapsed : Z) : FoldResult := {|
  res_ok := false; res_reason := reason; res_value := 0;
  res_slot_count := v_partition_count graph; res_operation := v_operation graph;
  res_fold_cost_ns := wrap64 elapsed; res_fold_cost_measured := true |}.

(** [FoldGraphReduce] over a span: the result and the scratch it leaves. *)
Definition FoldGraphReduceSpan (graph : FoldGraphView) (partition_values scratch_slots : list Z)
    (elapsed : Z) : option (FoldResult * list Z) :=
  if negb (zlen partition_values =? v_partition_count graph) then
    Some (FailFoldResult graph "fold_graph_partition_mismatch" elapsed, scratch_slots)
  else
    '(validation, scratch_slots) ← ValidateFoldGraphWithMarkers graph scratch_slots;
    if negb (val_ok validation) then
      Some (FailFoldResult graph (val_reason validation) elapsed, scratch_slots)
    else
      let required_slots := val_scratch_slot_count validation in
      if zlen scratch_slots <? required_slots then
        Some (FailFoldResult graph "fold_graph_scratch_capacity_exceeded" elapsed, scratch_slots)
      else
        let scratch :=
          replicate (length scratch_slots) (FoldIdentityValue (v_operation graph)) in
        after (for_loop
          (fun scratch partition =>
             slot ← ptr_get (v_partition_fold_slots graph) partition;
             if slot >=? required_slots then
               Some (Return (FailFoldResult graph "fold_graph_slot_out_of_range" elapsed, scratch))
             else
               value ← zget partition_values partition;
               scratch ← zset scratch slot value;
               Some (Next scratch))
          scratch (range 0 (v_partition_count graph)))
        (fun scratch =>
           after (for_loop
             (fun '(scratch, final) edge_index =>
                edge ← ptr_get (v_reduction_edges graph) edge_index;
                right ← (if right_is_padding edge then Some (padding_value edge)
                         else zget scratch (right_slot edge));
                left ← zget scratch (left_slot edge);
                combined ← CombineFoldValues (v_operation graph) left right
                             (v_strict_float_reduction graph);
                scratch ← zset scratch (output_slot edge) combined;
                Some (Next (scratch, output_slot edge)))
             (scratch, val_final_slot validation) (range 0 (v_reduction_edge_count graph)))
           (fun '(scratch, final) =>
              value ← zget scratch final;
              Some ({|
                res_ok := true; res_reason := "pass"; res_value := value;
                res_slot_count := v_partition_count graph;
                res_operation := v_operation graph;
                res_fold_cost_ns := wrap64 elapsed; res_fold_cost_measured := true |},
                scratch))).

(** [FoldGraphReduce] over [FoldSlots]. *)
Definition FoldGraphReduce (graph : FoldGraphView) (partition_values : list Z) (scratch : vec Z)
    (alloc : AllocationPolicy) (elapsed : Z) : option (FoldResult * vec Z) :=
  '(ready, scratch) ← EnsureFoldGraphScratch scratch graph alloc;
  if negb ready then
    Some ({|
      res_ok := false; res_reason := "fold_graph_scratch_capacity_exceeded"; res_value := 0;
      res_slot_count := v_partition_count graph; res_operation := v_operation graph;
      res_fold_cost_ns := 0; res_fold_cost_measured := false |}, scratch)
  else
    '(result, values) ← FoldGraphReduceSpan graph partition_values (items scratch) elapsed;
    Some (result, Vec values (capacity scratch)).

(** ** [FoldStrictOrderedSlots], [FoldOrderedSlots] ([fold/ordered.cpp]) *)
Definition OrderedResult (ok : bool) (reason : string) (value slots : Z) (op : FoldOperation)
    (elapsed : Z) : FoldResult := {|
  res_ok := ok; res_reason := reason; res_value := value; res_slot_count := slots;
  res_operation := op; res_fold_cost_ns := wrap64 elapsed; res_fold_cost_measured := true |}.

Definition FoldStrictOrderedSlots (values : list Z) (op : FoldOperation)
    (policy : StrictFloatReductionPolicy) (elapsed inner_elapsed : Z) : option FoldResult :=
  let slots := wrap32 (zlen values) in
  if negb (IsSupportedFoldOperation op) then
    Some (OrderedResult false "unsupported_fold_operation" 0 slots op elapsed)
  else if FoldOperationAllowsFloatingPoint op && negb (StrictFloatReductionValid op policy) then
    Some (OrderedResult false
      (if policy_valid policy then "floating_point_law_mismatch"
       else "floating_point_fold_forbidden")%string 0 slots op elapsed)
  else if zlen values =? 0 then Some (OrderedResult true "pass" 0 0 op elapsed)
  else
    '(build, graph) ← BuildFoldGraph EmptyFoldGraph slots op policy AllowGrowth;
    if negb (build_ok build) then
      Some (OrderedResult false (build_reason build) 0 slots op elapsed)
    else
      '(result, _) ← FoldGraphReduce (ViewFoldGraph graph) values vempty AllowGrowth
                       inner_elapsed;
      Some (OrderedResult (res_ok result) (res_reason result) (res_value result) slots op elapsed).

Definition FoldOrderedSlots (values : list Z) (op : FoldOperation) (elapsed inner_elapsed : Z)
    : option FoldResult :=
  FoldStrictOrderedSlots values op DefaultStrictFloatPolicy elapsed inner_elapsed.

(** ** [reduction/slots.cpp] *)
Definition ResetFoldSlots (slots : vec Z) : vec Z := vclear slots.
Definition ReserveFoldSlots (slots : vec Z) (slot_capacity : Z) : vec Z :=
  vreserve slots slot_capacity.
Definition EnsureFoldSlots (slots : vec Z) (slot_count : Z) : vec Z :=
  let slots := if vsize slots =? slot_count then slots else vresize slots slot_count 0 in
  Vec (replicate (length (items slots)) 0) (capacity slots).
Definition StoreFoldSlot (slots : vec Z) (slot value : Z) : option (bool * vec Z) :=
  if slot >=? vsize slots then Some (false, slots)
  else slots ← vset slots slot value; Some (true, slots).

Definition FoldValue (r : option FoldResult) : option Z := r ← r; Some (res_value r).
Definition FoldSlotsXor (values : list Z) (e i : Z) := FoldValue (FoldOrderedSlots values Xor e i).
Definition FoldSlotsMax (values : list Z) (e i : Z) := FoldValue (FoldOrderedSlots values Max e i).
Definition FoldSlotsMin (values : list Z) (e i : Z) := FoldValue (FoldOrderedSlots values Min e i).
Definition FoldSlotsSaturatingAdd (values : list Z) (e i : Z) :=
  FoldValue (FoldOrderedSlots values SaturatingAdd e i).
Definition FoldHashFixedBinaryTree (ordered_values : list Z) (e i : Z) :=
  FoldValue (FoldOrderedSlots ordered_values FixedBinaryTreeHash e i).

(** [FixedBinaryTreeHashBuilder]: the values pushed so far. *)
Definition BuilderPush (values_ : list Z) (value : Z) : list Z := values_ ++ [value].
Definition BuilderFinalize (values_ : list Z) (e i : Z) : option Z :=
  FoldHashFixedBinaryTree values_ e i.
Definition BuilderReset (values_ : list Z) : list Z := [].
