(* ===== verification/FoldDenote.v ===== *)
(** * FoldDenote: what a validated fold graph computes

    A fold graph denotes a function of its partition values that mentions no
    scratch memory: slots are the keys of a finite map. [FoldGraphReduceSpan] is
    safe on every well-formed view and implements that function. *)
From stdpp Require Import base numbers list option strings gmap.
From Stdlib Require Import ZArith Lia.
From S2P Require Import Prelude Checked FoldModel FoldSpec FoldGraph FoldReduce.

(** ** Denotation *)
Definition slot_env (env : gmap Z Z) (slots values : list Z) : gmap Z Z :=
  foldl (fun env '(s, v) => <[s := v]> env) env (zip slots values).

Definition eval_edge (op : FoldOperation) (policy : StrictFloatReductionPolicy)
    (env : gmap Z Z) (edge : FoldGraphEdge) : option (gmap Z Z) :=
  left ← env !! left_slot edge;
  right ← (if right_is_padding edge then Some (padding_value edge) else env !! right_slot edge);
  combined ← CombineFoldValues op left right policy;
  Some (<[output_slot edge := combined]> env).

Definition denote (op : FoldOperation) (policy : StrictFloatReductionPolicy)
    (slots : list Z) (edges : list FoldGraphEdge) (final : Z) (values : list Z) : option Z :=
  env ← for_each (eval_edge op policy) (slot_env ∅ slots values) edges;
  env !! final.

(** ** Well-formed views

    The pointers and counts of a view describe arrays of machine integers. *)
Definition ptr_list {A} (p : option (list A)) : list A := default [] p.

Record view_ok (v : FoldGraphView) : Prop := {
  ok_slots : zlen (ptr_list (v_partition_fold_slots v)) = v_partition_fold_slot_count v;
  ok_nodes : zlen (ptr_list (v_nodes v)) = v_node_count v;
  ok_edges : zlen (ptr_list (v_reduction_edges v)) = v_reduction_edge_count v;
  ok_count : is_u32 (v_partition_count v);
  ok_scratch : is_u32 (v_scratch_slot_count v);
  ok_slot_values : Forall is_u32 (ptr_list (v_partition_fold_slots v));
  ok_edge_values : Forall (fun e => is_u32 (left_slot e) /\ is_u32 (right_slot e) /\
    is_u32 (output_slot e) /\ is_u64 (padding_value e)) (ptr_list (v_reduction_edges v));
  ok_node_values : Forall (fun n => is_u32 (node_slot n)) (ptr_list (v_nodes v));
}.

Lemma ptr_get_list {A} (p : option (list A)) i : ptr_get p i = zget (ptr_list p) i.
Proof. destruct p; cbn; [done|]. by destruct (0 <=? i) eqn:E; unfold zget; rewrite E. Qed.

Lemma zget_Forall {A} (P : A -> Prop) l i x : Forall P l -> zget l i = Some x -> P x.
Proof. intros HF [_ Hx]%zget_Some. by eapply Forall_lookup_1. Qed.

Section view.
Context (v : FoldGraphView) (OK : view_ok v).
Abbreviation slots := (ptr_list (v_partition_fold_slots v)).
Abbreviation edges := (ptr_list (v_reduction_edges v)).
Abbreviation graph_nodes := (ptr_list (v_nodes v)).

Lemma FoldGraphScratchSlotCount_total :
  exists required, FoldGraphScratchSlotCount v = Some required /\ is_u32 required.
Proof using OK.
  destruct OK as [Hs _ He Hc Hsc _ _ _]. unfold FoldGraphScratchSlotCount. cbv zeta.
  assert (is_u32 0) by (unfold is_u32; lia).
  destruct (_ && is_null (v_partition_fold_slots v)); [by exists 0|].
  destruct (_ && is_null (v_nodes v)); [by exists 0|].
  destruct (_ && is_null (v_reduction_edges v)); [by exists 0|].
  set (r0 := if _ =? 0 then _ else _).
  assert (is_u32 r0) as Hr0 by (subst r0; by destruct (_ =? 0)).
  assert (forall a b, is_u32 a -> is_u32 (Z.max a (wrap32 b))) as Hmax
    by (intros a b Ha; pose proof (wrap32_range b); unfold is_u32 in *; lia).
  edestruct (for_range_inv (fun _ r => is_u32 r)
    (fun required slot_index =>
       slot ← ptr_get (v_partition_fold_slots v) slot_index;
       Some (Z.max required (wrap32 (slot + 1)))) 0 (v_partition_fold_slot_count v) r0)
    as (r1 & -> & Hr1); [rewrite <- Hs; apply zlen_nonneg | done | |].
  { intros i st Hi Hst. rewrite ptr_get_list.
    destruct (zget_nth_range slots i _ Hs Hi) as [x ->]. cbn. eauto. }
  cbn [mbind option_bind].
  apply (for_range_inv (fun _ r => is_u32 r)); [rewrite <- He; apply zlen_nonneg | done | ].
  intros i st Hi Hst. rewrite ptr_get_list.
  destruct (zget_nth_range edges i _ He Hi) as [x ->]. cbn. eexists. split; [done|]. by do 3 apply Hmax.
Qed.

(** Every marked slot below [required] is in [D]. *)
Definition marks (required : Z) (D : list Z) (m : list Z) : Prop :=
  forall s x, 0 <= s < required -> zget m s = Some x -> x <> 0 -> s ∈ D.

Lemma marks_insert required D m s x :
  0 <= s < zlen m -> marks required D m -> marks required (D ++ [s]) (<[Z.to_nat s := x]> m).
Proof using.
  intros Hs HM t y Ht Hy Hne. apply elem_of_app. destruct (Z.eq_dec s t) as [->|Hst].
  - right. by left.
  - rewrite zget_insert_ne in Hy by lia. left. by eapply HM.
Qed.

Lemma ValidateFoldGraphSlots_sound markers required :
  v_partition_fold_slot_count v = v_partition_count v -> 0 <= required ->
  exists res m, ValidateFoldGraphSlots v markers required = Some (res, m) /\
    zlen m = zlen markers /\
    (val_ok res = true ->
     0 < required <= zlen markers /\ marks required slots m /\
     Forall (fun s => 0 <= s < required) slots).
Proof using OK.
  intros Hpc Hreq. destruct OK as [Hs _ _ Hc _ Hsv _ _]. unfold ValidateFoldGraphSlots.
  destruct (Z.eqb_spec required 0); [by eexists _, _|].
  destruct (Z.ltb_spec (zlen markers) required); [by eexists _, _|]. cbv zeta.
  set (m0 := replicate _ _ ++ _).
  assert (zlen m0 = zlen markers) as Hm0.
  { subst m0. unfold zlen in *. rewrite length_app, length_replicate, length_drop. lia. }
  edestruct (for_range_safe
    (fun p m => zlen m = zlen markers /\ marks required (take (Z.to_nat p) slots) m /\
       Forall (fun s => 0 <= s < required) (take (Z.to_nat p) slots))
    (fun r : FoldGraphValidationResult * list Z => val_ok (fst r) = false /\
       zlen (snd r) = zlen markers))
    as [([res m] & E & Hf & Hl) | (m & E & Hl & HM & HF)].
  4: { erewrite E. exists res, m. cbn in *. rewrite Hf. done. }
  4: { erewrite E. eexists _, m. split; [reflexivity|]. split; [done|]. intros _.
       rewrite take_ge in HM, HF by (unfold zlen in *; lia). split; [lia | done]. }
  - unfold is_u32 in Hc. lia.
  - split; [done|]. cbn. split; [|constructor]. intros s x Hs' Hx Hne. subst m0.
    rewrite zget_app_l in Hx by (autorewrite with zlen; lia).
    apply zget_Some in Hx as [_ Hx]. apply lookup_replicate in Hx as [-> _]. done.
  - intros p m Hp (Hl & HM & HF). rewrite ptr_get_list.
    destruct (zget_nth_range slots p _ Hs ltac:(lia)) as [s Hx]. rewrite Hx.
    cbn [mbind option_bind]. rewrite Z.geb_leb.
    assert (0 <= s) by (pose proof (zget_Forall _ _ _ _ Hsv Hx) as [? _]; done).
    destruct (Z.leb_spec required s); [left; eexists; split; [reflexivity | done]|].
    destruct (zget_is_Some m s ltac:(lia)) as [x Ex]. rewrite Ex. cbn [mbind option_bind].
    destruct (negb (x =? 0)); [left; eexists; split; [reflexivity | done]|].
    right. rewrite zset_Some by lia. eexists. split; [reflexivity|].
    rewrite (take_S_Z slots p s) by (done || lia). split; [by rewrite zlen_insert|].
    split; [apply marks_insert; [lia | done] | apply Forall_app; split; [done | by repeat constructor]].
Qed.

(** What edge validation establishes for the edge at position [i]: its operands are
    partition slots or outputs of earlier edges. *)
Definition outputs (i : Z) : list Z := slots ++ map output_slot (take (Z.to_nat i) edges).

Definition edges_ok (required : Z) : Prop :=
  forall i e, zget edges i = Some e ->
    0 <= left_slot e < required /\ left_slot e ∈ outputs i /\
    0 <= output_slot e < required /\
    (right_is_padding e = false -> 0 <= right_slot e < required /\ right_slot e ∈ outputs i).

Lemma outputs_snoc i e : 0 <= i -> zget edges i = Some e -> outputs (i + 1) = outputs i ++ [output_slot e].
Proof using.
  intros Hi He. unfold outputs. rewrite (take_S_Z _ _ e) by done. by rewrite map_app, app_assoc.
Qed.

Lemma ValidateFoldGraphEdges_sound markers primitive required :
  v_partition_fold_slot_count v = v_partition_count v -> 0 < v_partition_count v ->
  required <= zlen markers -> marks required slots markers ->
  Forall (fun s => 0 <= s < required) slots ->
  exists res m f, ValidateFoldGraphEdges v markers primitive required = Some (res, m, f) /\
    zlen m = zlen markers /\
    (val_ok res = true ->
     edges_ok required /\ 0 <= f < required /\ f ∈ outputs (v_reduction_edge_count v) /\
     (forall e, zget edges (v_reduction_edge_count v - 1) = Some e -> f = output_slot e)).
Proof using OK.
  intros Hpc Hpos Hreq HM HF. destruct OK as [Hs _ He Hc _ _ Hev _]. unfold is_u32 in Hc.
  unfold ValidateFoldGraphEdges. cbv zeta. rewrite ptr_get_list, wrap32_small by (unfold is_u32; lia).
  destruct (zget_nth_range slots (v_partition_count v - 1) _ Hs ltac:(lia)) as [f0 Hf0].
  rewrite Hf0. cbn [mbind option_bind].
  edestruct (for_range_safe
    (fun i (st : list Z * Z * Z) => let '(m, _, f) := st in
       zlen m = zlen markers /\ marks required (outputs i) m /\
       0 <= f < required /\ f ∈ outputs i /\
       (forall e, zget edges (i - 1) = Some e -> f = output_slot e) /\
       (forall j e, j < i -> zget edges j = Some e ->
          0 <= left_slot e < required /\ left_slot e ∈ outputs j /\
          0 <= output_slot e < required /\
          (right_is_padding e = false -> 0 <= right_slot e < required /\ right_slot e ∈ outputs j)))
    (fun r : FoldGraphValidationResult * list Z * Z => val_ok (fst (fst r)) = false /\
       zlen (snd (fst r)) = zlen markers))
    as [([[res m] f] & E & Hf & Hl) | ([[m lv] f] & E & Hl & _ & Hf & Hfo & Hfl & HE)].
  4: { erewrite E. exists res, m, f. cbn in *. rewrite Hf. done. }
  4: { erewrite E. eexists _, m, f. split; [reflexivity|]. split; [done|]. intros _.
       split; [|done]. intros i e Hi. pose proof (zget_range _ _ _ Hi). apply HE; [lia | done]. }
  - rewrite <- He. apply zlen_nonneg.
  - split; [done|]. unfold outputs. cbn [Z.to_nat take map]. rewrite app_nil_r. split; [done|].
    split; [exact (zget_Forall _ _ _ _ HF Hf0)|]. split.
    + apply zget_Some in Hf0 as [_ Hf0]. by eapply list_elem_of_lookup_2.
    + split; [intros e Hje; apply zget_range in Hje; lia|].
      intros j e Hj Hje. apply zget_range in Hje. lia.
  - intros i [[m lv] f] Hi (Hl & HMi & Hf & Hfo & Hfl & HE). rewrite ptr_get_list.
    destruct (zget_nth_range edges i _ He Hi) as [e Hie]. rewrite Hie. cbn [mbind option_bind].
    pose proof (zget_Forall _ _ _ _ Hev Hie) as ([Hl0 _] & [Hr0 _] & [Ho0 _] & _).
    assert (forall reason,
      (exists r : FoldGraphValidationResult * list Z * Z,
         (Some (Return (FailFoldGraphValidation reason required, m, f)) :
            option (flow (list Z * Z * Z) _)) = Some (Return r) /\
         val_ok (fst (fst r)) = false /\ zlen (snd (fst r)) = zlen markers)) as Fail
      by (intros; eexists; split; [reflexivity | done]).
    rewrite !Z.geb_leb.
    destruct (negb (bool_decide _)); [left; apply Fail|].
    destruct (negb (i =? 0) && _); [left; apply Fail|].
    destruct (Z.leb_spec required (left_slot e)); [left; apply Fail|].
    destruct (Z.leb_spec required (right_slot e)); [left; apply Fail|].
    destruct (Z.leb_spec required (output_slot e)); [left; apply Fail|]. cbn [orb].
    destruct (zget_is_Some m (left_slot e) ltac:(lia)) as [x Hx]. rewrite Hx. cbn [mbind option_bind].
    destruct (Z.eqb_spec x 0); [left; apply Fail|].
    assert (left_slot e ∈ outputs i) as Hlo by (eapply HMi; [|exact Hx | done]; lia).
    destruct (zget_is_Some m (right_slot e) ltac:(lia)) as [y Hy]. rewrite Hy.
    assert (exists z, (if right_is_padding e then Some 1 else Some y) = Some z /\
      (right_is_padding e = false -> z = y)) as (z & -> & Hz)
      by (destruct (right_is_padding e); eexists; (split; [reflexivity|]); done). cbn [mbind option_bind].
    destruct (Z.eqb_spec z 0); [left; apply Fail|].
    destruct (zget_is_Some m (output_slot e) ltac:(lia)) as [w Hw]. rewrite Hw. cbn [mbind option_bind].
    destruct (negb (w =? 0)); [left; apply Fail|].
    destruct (right_is_padding e && _); [left; apply Fail|].
    destruct (negb (right_is_padding e) && _); [left; apply Fail|].
    right. rewrite zset_Some by lia. eexists. split; [reflexivity|].
    rewrite (outputs_snoc i e) by (done || lia).
    split; [by rewrite zlen_insert|]. split; [apply marks_insert; [lia | done]|].
    split; [lia|]. split; [apply elem_of_app; right; by left|].
    replace (i + 1 - 1) with i by lia. split; [intros e' He'; rewrite Hie in He'; by injection He' as <-|].
    intros j e' Hj Hje. destruct (Z.eq_dec j i) as [->|]; [|apply HE; [lia | done]].
    rewrite Hie in Hje. injection Hje as <-. split; [lia|]. split; [done|]. split; [lia|].
    intros Hp. split; [lia|]. eapply HMi; [|exact Hy|]; [lia|]. by rewrite <- Hz.
Qed.

Lemma ValidateFoldGraphNodes_total markers primitive required :
  required <= zlen markers ->
  exists res, ValidateFoldGraphNodes v markers primitive required = Some res.
Proof using OK.
  intros Hreq. destruct OK as [_ Hn He _ _ _ _ Hnv]. unfold ValidateFoldGraphNodes. cbv zeta.
  destruct (Z.ltb_spec (zlen markers) required); [by eexists|].
  edestruct (for_range_safe (fun _ (_ : unit) => True) (fun _ : FoldGraphValidationResult => True))
    as [(res & E & _) | (st & E & _)].
  4: { erewrite E. by eexists. }
  4: { erewrite E. by eexists. }
  - rewrite <- Hn. apply zlen_nonneg.
  - done.
  - intros i [] Hi _. rewrite ptr_get_list. destruct (zget_nth_range graph_nodes i _ Hn Hi) as [n Hin].
    rewrite Hin. cbn [mbind option_bind].
    pose proof (zget_Forall _ _ _ _ Hnv Hin) as [Hns _]. rewrite !Z.geb_leb.
    assert (forall reason,
      (exists r, (Some (Return (FailFoldGraphValidation reason required)) :
            option (flow unit _)) = Some (Return r) /\ True)) as Fail
      by (intros; eexists; split; [reflexivity | done]).
    destruct (negb (topological_index n =? i)); [left; apply Fail|].
    destruct (Z.leb_spec required (node_slot n)); [left; apply Fail|]. cbn [orb].
    destruct (_ || negb (bool_decide (node_overflow_law n = _))); [left; apply Fail|].
    destruct (node_right_is_padding n && _); [left; apply Fail|].
    destruct (zget_is_Some markers (node_slot n) ltac:(lia)) as [x Hx]. rewrite Hx.
    cbn [mbind option_bind]. destruct (kind n).
    1,2: destruct (negb _); [left; apply Fail | right; by eexists].
    destruct (negb (IsEdgeMarker x)); [left; apply Fail|]. rewrite Z.geb_leb.
    destruct (Z.leb_spec (v_reduction_edge_count v)
      (Z.land x kFoldGraphValidationMarkerPayloadMask)); [left; apply Fail|].
    rewrite ptr_get_list. destruct (zget_nth_range edges
      (Z.land x kFoldGraphValidationMarkerPayloadMask) _ He) as [e Hxe].
    { split; [|done]. apply Z.land_nonneg. right. unfold kFoldGraphValidationMarkerPayloadMask. lia. }
    rewrite Hxe. cbn [mbind option_bind].
    destruct (negb (ReductionNodeMatchesEdge n e)); [left; apply Fail | right; by eexists].
Qed.

(** Validation is safe on every well-formed view, and a positive verdict makes every
    operand of every edge available. *)
Lemma ValidateFoldGraphWithMarkers_sound markers :
  exists res m, ValidateFoldGraphWithMarkers v markers = Some (res, m) /\
    zlen m = zlen markers /\
    (val_ok res = true ->
     let required := val_scratch_slot_count res in
     0 < required <= zlen markers /\
     zlen slots = v_partition_count v /\
     Forall (fun s => 0 <= s < required) slots /\ edges_ok required /\
     val_final_slot res = v_final_slot v /\ 0 <= v_final_slot v < required /\
     v_final_slot v ∈ outputs (v_reduction_edge_count v) /\
     (forall e, zget edges (v_reduction_edge_count v - 1) = Some e ->
        v_final_slot v = output_slot e)).
Proof using OK.
  unfold ValidateFoldGraphWithMarkers. cbv zeta.
  destruct (val_ok (ValidateFoldGraphShape v)) eqn:Hshape; cbn [negb];
    [|eexists _, _; split; [reflexivity|]; by rewrite Hshape].
  assert (v_partition_fold_slot_count v = v_partition_count v /\ 0 < v_partition_count v) as [Hpc Hpos].
  { unfold ValidateFoldGraphShape in Hshape. cbv zeta in Hshape.
    destruct (negb (v_primitive_standardized v) || _); [done|].
    match type of Hshape with context [match ?x with Some _ => _ | None => _ end] => destruct x as [?|] eqn:El end.
    { exfalso. revert Hshape El. clear. repeat case_match; intros ? [= <-]; done. }
    destruct (negb (v_fixed_topological_order v)); [done|].
    destruct (Z.eqb_spec (v_partition_count v) 0); [done|].
    destruct (is_null (v_partition_fold_slots v)); [done|]. cbn [orb] in Hshape.
    destruct (Z.eqb_spec (v_partition_fold_slot_count v) (v_partition_count v)); [|done].
    destruct OK as [_ _ _ Hc _ _ _ _]. unfold is_u32 in Hc. split; [done | lia]. }
  destruct FoldGraphScratchSlotCount_total as (required & -> & Hreq). cbn [mbind option_bind].
  destruct (ValidateFoldGraphSlots_sound markers required Hpc ltac:(apply Hreq))
    as (r1 & m1 & -> & Hl1 & H1). cbn [mbind option_bind].
  destruct (val_ok r1) eqn:Hr1; cbn [negb];
    [|eexists _, _; split; [reflexivity|]; split; [done | by rewrite Hr1]].
  destruct (H1 eq_refl) as (Hrange & HM & HF).
  destruct (ValidateFoldGraphEdges_sound m1 (DescribeFoldOperation (v_operation v)) required Hpc Hpos
    ltac:(lia) HM HF) as (r2 & m2 & f & -> & Hl2 & H2). cbn [mbind option_bind].
  destruct (val_ok r2) eqn:Hr2; cbn [negb];
    [|eexists _, _; split; [reflexivity|]; split; [lia | by rewrite Hr2]].
  destruct (H2 eq_refl) as (HE & Hf & Hfo & Hfl).
  destruct (Z.eqb_spec (v_final_slot v) f) as [Hvf|]; cbn [negb];
    [|eexists _, _; split; [reflexivity|]; split; [lia | done]].
  destruct (ValidateFoldGraphNodes_total m2 (DescribeFoldOperation (v_operation v)) required
    ltac:(lia)) as [r3 ->]. cbn [mbind option_bind].
  destruct (val_ok r3) eqn:Hr3; cbn [negb];
    [|eexists _, _; split; [reflexivity|]; split; [lia | by rewrite Hr3]].
  eexists _, _. split; [reflexivity|]. split; [lia|]. intros _. cbn.
  destruct OK as [Hs _ _ _ _ _ _ _]. rewrite Hs, Hvf, Hpc. split; [lia|]. done.
Qed.

(** ** Evaluation *)

(** The scratch memory holds at least the values of [env]. *)
Definition agrees (env : gmap Z Z) (scratch : list Z) : Prop :=
  forall s x, env !! s = Some x -> zget scratch s = Some x /\ is_u64 x.

Lemma agrees_insert env scratch s x :
  0 <= s < zlen scratch -> is_u64 x -> agrees env scratch ->
  agrees (<[s := x]> env) (<[Z.to_nat s := x]> scratch).
Proof using.
  intros Hs Hx HA t y Ht. destruct (Z.eq_dec s t) as [->|].
  - rewrite lookup_insert_eq in Ht. injection Ht as <-. by rewrite zget_insert_eq.
  - rewrite lookup_insert_ne in Ht by done. rewrite zget_insert_ne by (done || lia). by apply HA.
Qed.

Lemma slot_env_snoc env ss xs s x :
  length ss = length xs ->
  slot_env env (ss ++ [s]) (xs ++ [x]) = <[s := x]> (slot_env env ss xs).
Proof using. intros. unfold slot_env. rewrite zip_with_app by done. by rewrite foldl_app. Qed.

Definition PassFoldResult (value elapsed : Z) : FoldResult := {|
  res_ok := true; res_reason := "pass"; res_value := value;
  res_slot_count := v_partition_count v; res_operation := v_operation v;
  res_fold_cost_ns := wrap64 elapsed; res_fold_cost_measured := true |}.

Lemma FoldGraphReduceSpan_run values scratch elapsed res m :
  Forall is_u64 values -> zlen values = v_partition_count v ->
  ValidateFoldGraphWithMarkers v scratch = Some (res, m) -> val_ok res = true ->
  exists value scratch',
    FoldGraphReduceSpan v values scratch elapsed = Some (PassFoldResult value elapsed, scratch') /\
    zlen scratch' = zlen scratch /\
    denote (v_operation v) (v_strict_float_reduction v) slots edges (v_final_slot v) values =
      Some value /\ is_u64 value.
Proof using OK.
  intros Hv Hlen Hval Hok.
  destruct (ValidateFoldGraphWithMarkers_sound scratch) as (res' & m' & E & Hl & Hsound).
  rewrite Hval in E. injection E as <- <-. specialize (Hsound Hok). cbv zeta in Hsound.
  destruct Hsound as (Hreq & Hsl & HF & HE & Hfin & Hfr & Hfo & Hfl).
  destruct OK as [Hs _ He Hc _ Hsv Hev _]. unfold is_u32 in Hc.
  unfold FoldGraphReduceSpan. rewrite Hlen, Z.eqb_refl, Hval. cbn [negb mbind option_bind].
  rewrite Hok. cbn [negb]. cbv zeta. set (required := val_scratch_slot_count res) in *.
  destruct (Z.ltb_spec (zlen m) required); [lia|].
  edestruct (for_range_total (R := FoldResult * list Z)
    (fun p st => zlen st = zlen m /\
       agrees (slot_env ∅ (take (Z.to_nat p) slots) (take (Z.to_nat p) values)) st /\
       (forall s, s ∈ take (Z.to_nat p) slots ->
          is_Some (slot_env ∅ (take (Z.to_nat p) slots) (take (Z.to_nat p) values) !! s))))
    as (sc & Esc & Hscl & HA & HD).
  4: { erewrite Esc. cbn [after mbind option_bind].
    rewrite !take_ge in HA, HD by (unfold zlen in *; lia).
    edestruct (for_range_total (R := FoldResult * list Z)
      (fun i (st : list Z * Z) => let '(st, f) := st in exists env,
         for_each (eval_edge (v_operation v) (v_strict_float_reduction v))
           (slot_env ∅ slots values) (take (Z.to_nat i) edges) = Some env /\
         zlen st = zlen m /\ agrees env st /\
         (forall s, s ∈ outputs i -> is_Some (env !! s)) /\
         (i = 0 -> f = v_final_slot v) /\
         (forall e, zget edges (i - 1) = Some e -> f = output_slot e)))
      as ([sc' f] & Esc' & env & Henv & Hscl' & HA' & HD' & Hf0 & Hf1).
    4: { erewrite Esc'. cbn [after mbind option_bind].
      rewrite take_ge in Henv by (unfold zlen in *; lia).
      assert (f = v_final_slot v) as ->.
      { destruct (Z.eq_dec (v_reduction_edge_count v) 0) as [E0|E0]; [by apply Hf0|].
        destruct (zget_nth_range edges (v_reduction_edge_count v - 1) _ He) as [e Hle];
          [pose proof (zlen_nonneg edges); lia|]. by rewrite (Hf1 _ Hle), (Hfl _ Hle). }
      destruct (HD' (v_final_slot v) Hfo) as [x Hx].
      destruct (HA' _ _ Hx) as [Hgx Hux]. rewrite Hgx. cbn [mbind option_bind].
      exists x, sc'. split; [done|]. split; [lia|]. split; [|done].
      unfold denote. rewrite Henv. done. }
    - rewrite <- He. apply zlen_nonneg.
    - rewrite Hfin. eexists. split; [reflexivity|]. split; [done|]. split; [done|].
      unfold outputs. cbn [Z.to_nat take map]. rewrite app_nil_r. split; [done|]. split; [done|].
      intros e Hle. apply zget_range in Hle. lia.
    - intros i [st f] Hi (env & Henv & Hstl & HAi & HDi & _ & _). rewrite ptr_get_list.
      destruct (zget_nth_range edges i _ He Hi) as [e Hie]. rewrite Hie. cbn [mbind option_bind].
      destruct (HE i e Hie) as (Hlr & Hlo & Hor & Hri).
      destruct (HDi _ Hlo) as [lv Hlv]. destruct (HAi _ _ Hlv) as [Hglv Hulv].
      pose proof (zget_Forall _ _ _ _ Hev Hie) as (_ & _ & _ & Hpad).
      assert (exists rv, (if right_is_padding e then Some (padding_value e)
                          else zget st (right_slot e)) = Some rv /\ is_u64 rv /\
        (if right_is_padding e then Some (padding_value e) else env !! right_slot e) = Some rv)
        as (rv & -> & Hurv & Hrv).
      { destruct (right_is_padding e); [by exists (padding_value e)|].
        destruct (HDi (right_slot e)) as [rv Hrv]; [by apply Hri|].
        destruct (HAi _ _ Hrv). by exists rv. }
      cbn [mbind option_bind]. rewrite Hglv. cbn [mbind option_bind].
      destruct (FoldSpecFacts.CombineFoldValues_total (v_operation v) lv rv
        (v_strict_float_reduction v) Hulv Hurv) as (c & Hcv & Hcu).
      rewrite Hcv. cbn [mbind option_bind]. rewrite zset_Some by lia. cbn [mbind option_bind].
      eexists. split; [reflexivity|]. exists (<[output_slot e := c]> env).
      rewrite (take_S_Z edges i e) by (done || lia). rewrite for_each_app, Henv.
      cbn [mbind option_bind for_each]. unfold eval_edge at 1. rewrite Hlv. cbn [mbind option_bind].
      rewrite Hrv. cbn [mbind option_bind]. rewrite Hcv. cbn [mbind option_bind].
      split; [done|]. split; [by rewrite zlen_insert|].
      split; [apply agrees_insert; [lia | done | done]|].
      rewrite (outputs_snoc i e) by (done || lia). split; [|split; [lia|]].
      + intros s [Hin|Hin%list_elem_of_singleton]%elem_of_app.
        * destruct (decide (output_slot e = s)) as [->|]; [rewrite lookup_insert_eq; by eexists|].
          rewrite lookup_insert_ne by done. by apply HDi.
        * subst s. rewrite lookup_insert_eq. by eexists.
      + replace (i + 1 - 1) with i by lia. intros e' He'. rewrite Hie in He'. by injection He' as <-. }
  - lia.
  - split; [by autorewrite with zlen|]. change (Z.to_nat 0) with 0%nat. rewrite !take_0. unfold slot_env. cbn [zip_with foldl].
    split; [intros s x Hx; by rewrite lookup_empty in Hx|].
    intros s Hin. by apply not_elem_of_nil in Hin.
  - intros p st Hp (Hstl & HA & HD). rewrite ptr_get_list.
    destruct (zget_nth_range slots p _ Hsl Hp) as [s Hps]. rewrite Hps. cbn [mbind option_bind].
    pose proof (zget_Forall _ _ _ _ HF Hps) as Hsr. cbv beta in Hsr.
    rewrite Z.geb_leb. destruct (Z.leb_spec required s); [lia|].
    destruct (zget_nth_range values p _ Hlen Hp) as [x Hpx]. rewrite Hpx. cbn [mbind option_bind].
    rewrite zset_Some by lia. eexists. split; [reflexivity|]. split; [by rewrite zlen_insert|].
    rewrite (take_S_Z slots p s), (take_S_Z values p x) by (done || lia).
    rewrite slot_env_snoc by (rewrite !length_take; unfold zlen in *; lia).
    split; [apply agrees_insert; [lia | by eapply (zget_Forall is_u64) | done]|].
    intros t [Hin|Hin%list_elem_of_singleton]%elem_of_app.
    + destruct (decide (s = t)) as [->|]; [rewrite lookup_insert_eq; by eexists|].
      rewrite lookup_insert_ne by done. by apply HD.
    + subst t. rewrite lookup_insert_eq. by eexists.
Qed.

(** C1: On every well-formed view, valid or not, [FoldGraphReduce] never reads or
    writes out of range and terminates. It fails exactly when the number of values is not
    the number of partitions, with that reason, or when the validation of the graph over
    the scratch memory fails, with the reason of the validation; otherwise it passes with
    the denotation of the graph, so the value depends neither on the contents nor on the
    size of the scratch memory. *)
Theorem FoldGraphReduceSpan_denotes values scratch elapsed :
  Forall is_u64 values ->
  exists r scratch',
    FoldGraphReduceSpan v values scratch elapsed = Some (r, scratch') /\
    zlen scratch' = zlen scratch /\
    if zlen values =? v_partition_count v then
      exists validation marks, ValidateFoldGraphWithMarkers v scratch = Some (validation, marks) /\
        if val_ok validation then
          exists value, denote (v_operation v) (v_strict_float_reduction v) slots edges (v_final_slot v) values = Some value /\
            r = PassFoldResult value elapsed
        else r = FailFoldResult v (val_reason validation) elapsed
    else r = FailFoldResult v "fold_graph_partition_mismatch" elapsed.
Proof using OK.
  intros Hv. destruct (Z.eqb_spec (zlen values) (v_partition_count v)) as [Hlen|Hlen].
  2: { unfold FoldGraphReduceSpan. rewrite (proj2 (Z.eqb_neq _ _)) by done. cbn. by eexists _, _. }
  destruct (ValidateFoldGraphWithMarkers_sound scratch) as (res & m & E & Hl & _).
  destruct (val_ok res) eqn:Hok.
  - destruct (FoldGraphReduceSpan_run values scratch elapsed res m Hv Hlen E Hok)
      as (x & sc & Er & Hsl & Hd & _). exists (PassFoldResult x elapsed), sc. split; [done|]. split; [done|].
    exists res, m. rewrite Hok. split; [done|]. by exists x.
  - unfold FoldGraphReduceSpan. rewrite Hlen, Z.eqb_refl, E. cbn [negb mbind option_bind].
    rewrite Hok. cbn [negb]. eexists _, _. split; [reflexivity|]. split; [done|]. exists res, m. by rewrite Hok.
Qed.
End view.

(** A graph whose first edge pads: slots 0, 1 and a tree of two edges. *)
Definition example_view : FoldGraphView :=
  let e l r o pad := {|
    edge_level := 0; left_slot := l; right_slot := r; output_slot := o;
    edge_operation := Max; padding_law := if pad : bool then PadIdentity else PadNone;
    padding_value := 0; right_is_padding := pad |} in
  ViewFoldGraph {|
    operation := Max; value_domain := DomUnsignedInteger;
    strict_float_reduction := DefaultStrictFloatPolicy; partition_count := 2;
    worker_local_slot_count := 2; global_ordered_slot_count := 2; scratch_slot_count := 4;
    final_slot := 3; fixed_binary_tree := false; fixed_topological_order := true;
    dag_validated := true; slot_bounds_validated := true; padding_law_validated := true;
    primitive_standardized := true; floating_point_allowed := false;
    strict_floating_point := false;
    partition_fold_slots := Vec [1; 0] 2; nodes := Vec [] 0;
    reduction_edges := Vec [e 1 1 2 true; e 2 0 3 false] 2 |}.

Lemma FoldGraphReduceSpan_denotes_witness :
  exists scratch',
    FoldGraphReduceSpan example_view [41; 17] [9; 9; 9; 9; 9] 5 = Some (PassFoldResult example_view 41 5, scratch').
Proof.
  assert (view_ok example_view) as OK
    by (split; repeat constructor; try reflexivity; vm_compute; congruence).
  destruct (FoldGraphReduceSpan_denotes example_view OK [41; 17] [9; 9; 9; 9; 9] 5)
    as (r & sc & E & _ & H); [repeat constructor; vm_compute; congruence|].
  exists sc. rewrite E. change (zlen [41; 17] =? v_partition_count example_view) with true in H. cbv iota in H.
  destruct H as (res & m & Ev & H). vm_compute in Ev. injection Ev as <- _. destruct H as (value & Hd & ->).
  vm_compute in Hd. injection Hd as <-. reflexivity.
Defined.
