(* ===== verification/FoldOrdered.v ===== *)
(** * FoldOrdered: the ordered fold is the reference tree fold

    The view of a built graph is well-formed and validates, and evaluating it
    combines adjacent pairs level by level ([tree_fold]). For the order-free
    operations the result is the plain fold of the values. *)
From stdpp Require Import base numbers list option strings gmap.
From Stdlib Require Import ZArith Lia.
From S2P Require Import Prelude Checked FoldModel FoldSpec FoldGraph FoldTree FoldBuild FoldReduce.
From S2P Require Import FoldDenote.

(** ** The view of a built graph validates *)
Section built.
Context (graph : FoldGraph) (pc : Z) (op : FoldOperation)
  (policy : StrictFloatReductionPolicy) (alloc : AllocationPolicy).
Context (Hpc : 1 <= pc) (Hcount : 2 * pc + edge_count pc <= U32_MAX)
  (Hadm : admitted op policy = true).
Abbreviation plan := (build_plan pc op policy alloc).
Abbreviation bg := (built_graph graph pc op policy alloc).
Abbreviation required := (pc + edge_count pc).
Abbreviation edges := (map (tree_edge plan) (steps_of pc)).

Lemma edge_count_nonneg : 0 <= edge_count pc.
Proof using. apply tree_size_nonneg. Qed.

Lemma view_counts :
  v_partition_fold_slot_count (ViewFoldGraph bg) = pc /\
  v_node_count (ViewFoldGraph bg) = 2 * pc + edge_count pc /\
  v_reduction_edge_count (ViewFoldGraph bg) = edge_count pc.
Proof using Hpc Hcount.
  pose proof edge_count_nonneg. cbn. unfold vsize. cbn.
  autorewrite with zlen. rewrite zlen_range, zlen_part_nodes, zlen_steps_of by lia.
  rewrite !wrap32_small by (unfold is_u32; lia). split; [lia|]. split; [lia | done].
Qed.

Lemma edges_lookup i e :
  zget edges i = Some e ->
  exists st, steps_of pc !! Z.to_nat i = Some st /\ e = tree_edge plan st /\ step_ok 0 pc i st /\
    0 <= i < edge_count pc.
Proof using Hpc Hcount.
  intros Hi. pose proof edge_count_nonneg. pose proof (zget_range _ _ _ Hi) as Hr. rewrite zlen_map in Hr.
  rewrite zlen_steps_of in Hr by lia.
  apply zget_Some in Hi as [_ Hi]. apply list_lookup_fmap_Some in Hi as (st & -> & Hst).
  exists st. split; [done|]. split; [done|]. split; [|done].
  apply steps_of_ok in Hst; [|lia..]. by rewrite Z2Nat.id in Hst by lia.
Qed.

Lemma view_lookup_edge i :
  0 <= i < edge_count pc ->
  exists st, ptr_get (v_reduction_edges (ViewFoldGraph bg)) i = Some (tree_edge plan st) /\
    step_ok 0 pc i st /\ steps_of pc !! Z.to_nat i = Some st.
Proof using Hpc Hcount.
  intros Hi. change (ptr_get _ i) with (zget edges i).
  destruct (zget_is_Some edges i) as [e He].
  { autorewrite with zlen. by rewrite zlen_steps_of. }
  destruct (edges_lookup _ _ He) as (st & Hst & -> & Hok & _). by exists st.
Qed.

Lemma padding_u64 : is_u64 (prim_padding_value (DescribeFoldOperation op)).
Proof using. rewrite FoldSpecFacts.prim_padding_value_eq. apply FoldSpecFacts.FoldPaddingValue_u64. Qed.

Lemma built_view_ok : view_ok (ViewFoldGraph bg).
Proof using Hpc Hcount.
  pose proof edge_count_nonneg. destruct view_counts as (C1 & C2 & C3).
  split; rewrite ?C1, ?C2, ?C3; cbn [ViewFoldGraph ptr_list default from_option id
    v_partition_fold_slots v_nodes v_reduction_edges].
  - cbn. rewrite zlen_range; lia.
  - cbn. autorewrite with zlen. rewrite zlen_part_nodes, zlen_steps_of by lia. cbn. lia.
  - cbn. autorewrite with zlen. by rewrite zlen_steps_of.
  - cbn. unfold is_u32; lia.
  - cbn. unfold is_u32; lia.
  - cbn. apply Forall_forall. intros s Hs%elem_of_range. unfold is_u32; lia.
  - cbn. apply Forall_lookup. intros i e Hi.
    assert (zget edges (Z.of_nat i) = Some e) as Hz by (by rewrite zget_nat).
    apply edges_lookup in Hz as (st & _ & -> & [_ Ho Hl Hr _] & ?). cbn. pose proof padding_u64.
    unfold is_u32. repeat (split; [lia|]). destruct (has_right st); [unfold is_u64; lia | done].
  - cbn. apply Forall_app. split.
    + apply Forall_forall. intros n Hn. unfold part_nodes in Hn.
      apply list_elem_of_bind in Hn as (p & Hn & Hp%elem_of_range).
      apply elem_of_cons in Hn as [->|Hn%list_elem_of_singleton]; [|subst n]; cbn; unfold is_u32; lia.
    + apply Forall_lookup. intros i n Hi. apply list_lookup_fmap_Some in Hi as (st & -> & Hst).
      pose proof Hst as Hlt%lookup_lt_Some.
      apply steps_of_ok in Hst as [_ Ho Hl _ _]; [|lia..].
      pose proof (zlen_steps_of pc ltac:(lia)) as Hz. unfold zlen in Hz.
      cbn. unfold is_u32. lia.
Qed.

Lemma built_shape : ValidateFoldGraphShape (ViewFoldGraph bg) = PassFoldGraphValidation.
Proof using Hpc Hcount Hadm.
  destruct view_counts as (C1 & C2 & C3). unfold ValidateFoldGraphShape. cbv zeta.
  rewrite C1, C2, C3. cbn [ViewFoldGraph v_primitive_standardized v_operation
    v_strict_floating_point v_strict_float_reduction v_floating_point_allowed
    v_fixed_topological_order v_partition_count v_partition_fold_slots v_reduction_edges v_nodes
    built_graph set_validation tree_graph primitive_standardized operation strict_floating_point
    strict_float_reduction floating_point_allowed fixed_topological_order partition_count
    build_plan primitive plan_operation plan_strict_float_reduction plan_partition_count is_null].
  rewrite FoldSpecFacts.supported_true, FoldSpecFacts.IsSupportedFoldOperation_true,
    FoldSpecFacts.requires_admits. cbn [negb orb].
  unfold FoldOperationAllowsFloatingPoint. unfold admitted in Hadm.
  rewrite !andb_false_r, Z.eqb_refl. destruct (Z.eqb_spec pc 0); [lia|]. cbn [negb orb].
  destruct (admits_floating_point (DescribeFoldOperation op)) eqn:Ea; [|done].
  cbn [negb orb] in *. rewrite Hadm. unfold StrictFloatReductionValid in Hadm.
  destruct (policy_valid policy); [done|]. by destruct op.
Qed.

Lemma built_scratch_count : FoldGraphScratchSlotCount (ViewFoldGraph bg) = Some required.
Proof using Hpc Hcount.
  pose proof edge_count_nonneg. destruct view_counts as (C1 & C2 & C3).
  unfold FoldGraphScratchSlotCount. cbv zeta. rewrite C1, C2, C3.
  cbn [ViewFoldGraph v_scratch_slot_count built_graph set_validation scratch_slot_count
    v_partition_fold_slots v_nodes v_reduction_edges is_null].
  rewrite !andb_false_r. destruct (Z.eqb_spec required 0); [lia|].
  edestruct (for_range_inv (fun _ r => r = required)) as (r & E & ->).
  4: { erewrite E. cbn [mbind option_bind].
       edestruct (for_range_inv (fun _ r => r = required)) as (r & E' & ->).
       4: { exact E'. }
       - lia.
       - done.
       - intros i st Hi ->. destruct (view_lookup_edge i Hi) as (s & Hs & [_ Ho Hl Hr _] & _).
         change (Some (items _)) with (v_reduction_edges (ViewFoldGraph bg)). rewrite Hs.
         cbn [mbind option_bind]. eexists. split; [reflexivity|]. cbn.
         rewrite !wrap32_small by (unfold is_u32; lia). lia. }
  - lia.
  - done.
  - intros i st Hi ->. cbn [ptr_get mbind option_bind]. cbn. rewrite zget_range_ix by lia. cbn.
    eexists. split; [reflexivity|]. rewrite wrap32_small by (unfold is_u32; lia). lia.
Qed.

(** The markers after slot validation and after [i] edges. *)
Definition marked (n : Z) (m : list Z) : Prop :=
  forall s, 0 <= s < required ->
    zget m s = Some (if s <? pc then (if s <? n then kFoldGraphValidationPartitionMarker else 0)
                     else if s <? n then Z.lor kFoldGraphValidationEdgeMarker (s - pc) else 0).

Lemma built_slots markers :
  required <= zlen markers ->
  exists m, ValidateFoldGraphSlots (ViewFoldGraph bg) markers required =
    Some (PassFoldGraphValidation, m) /\ zlen m = zlen markers /\ marked pc m.
Proof using Hpc Hcount.
  intros Hm. pose proof edge_count_nonneg. unfold ValidateFoldGraphSlots.
  destruct (Z.eqb_spec required 0); [lia|].
  destruct (Z.ltb_spec (zlen markers) required); [lia|]. cbv zeta.
  edestruct (for_range_total (R := FoldGraphValidationResult * list Z)
    (fun p m => zlen m = zlen markers /\ marked p m)) as (m & E & Hl & HM).
  4: { erewrite E. exists m. done. }
  - cbn. lia.
  - split.
    + unfold zlen in *. rewrite length_app, length_replicate, length_drop. lia.
    + intros s Hs. rewrite zget_app_l by (autorewrite with zlen; lia).
      replace (if s <? pc then _ else _) with 0
        by (destruct (Z.ltb_spec s pc), (Z.ltb_spec s 0); lia).
      apply zget_Some. split; [lia|]. apply lookup_replicate. lia.
  - intros p m Hp (Hl & HM). cbn in Hp. cbn [ptr_get mbind option_bind]. cbn.
    rewrite zget_range_ix by lia. cbn [mbind option_bind]. rewrite Z.add_0_l, Z.geb_leb.
    destruct (Z.leb_spec required p); [lia|]. rewrite HM by lia.
    destruct (Z.ltb_spec p pc); [|lia]. rewrite Z.ltb_irrefl. cbn [mbind option_bind negb Z.eqb].
    rewrite zset_Some by lia. eexists. split; [reflexivity|]. split; [by rewrite zlen_insert|].
    intros s Hs. destruct (Z.eq_dec s p) as [->|].
    + rewrite zget_insert_eq by lia. destruct (Z.ltb_spec p pc), (Z.ltb_spec p (p + 1)); try lia. done.
    + rewrite zget_insert_ne, HM by lia.
      destruct (Z.ltb_spec s pc), (Z.ltb_spec s p), (Z.ltb_spec s (p + 1)); try lia; done.
Qed.

Lemma edge_marker_nonzero i : 0 <= i -> Z.lor kFoldGraphValidationEdgeMarker i <> 0.
Proof using. intros Hi E%Z.lor_eq_0_iff. unfold kFoldGraphValidationEdgeMarker in E. lia. Qed.

Lemma marked_nonzero n m s : 0 <= s < required -> s < n -> marked n m ->
  exists x, zget m s = Some x /\ x <> 0.
Proof using.
  intros Hs Hn HM. rewrite HM by done. eexists. split; [reflexivity|].
  destruct (Z.ltb_spec s n); [|lia]. destruct (Z.ltb_spec s pc); [done|].
  apply edge_marker_nonzero. lia.
Qed.

Lemma built_edges markers :
  required <= zlen markers -> marked pc markers ->
  exists m, ValidateFoldGraphEdges (ViewFoldGraph bg) markers (DescribeFoldOperation op) required =
    Some (PassFoldGraphValidation, m, required - 1) /\
    zlen m = zlen markers /\ marked required m.
Proof using Hpc Hcount.
  intros Hm HM0. pose proof edge_count_nonneg. destruct view_counts as (C1 & C2 & C3).
  unfold ValidateFoldGraphEdges. cbv zeta. cbn [ViewFoldGraph v_partition_fold_slots v_partition_count].
  cbn [ptr_get mbind option_bind]. cbn [built_graph set_validation tree_graph partition_fold_slots items
    partition_count build_plan plan_partition_count].
  rewrite wrap32_small by (unfold is_u32; lia). rewrite zget_range_ix by lia. cbn [mbind option_bind].
  edestruct (for_range_total (R := FoldGraphValidationResult * list Z * Z)
    (fun i (st : list Z * Z * Z) => let '(m, lv, f) := st in
       zlen m = zlen markers /\ marked (pc + i) m /\ f = pc + i - 1 /\
       (forall st', 0 < i -> steps_of pc !! Z.to_nat (i - 1) = Some st' -> lv = step_level st')))
    as ([[m lv] f] & E & Hl & HM & -> & _).
  4: { erewrite E. exists m. change (v_reduction_edge_count _) with
         (v_reduction_edge_count (ViewFoldGraph bg)). rewrite C3. cbn [after mbind option_bind].
       rewrite C3 in HM. done. }
  - rewrite C3. lia.
  - split; [done|]. rewrite Z.add_0_r. split; [done|]. split; [lia|]. intros; lia.
  - rewrite C3. intros i [[m lv] f] Hi (Hl & HM & -> & Hlv).
    destruct (view_lookup_edge i Hi) as (st & Hst & Hok & Hsti). destruct Hok as [_ Ho Hle Hri Hpad].
    rewrite Hst. cbn [mbind option_bind tree_edge step_edge edge_operation].
    rewrite bool_decide_true by done. cbn [negb].
    cbn [tree_edge step_edge left_slot right_slot output_slot edge_level right_is_padding
      padding_law padding_value].
    assert (negb (i =? 0) && (step_level st <? lv) = false) as ->.
    { destruct (Z.eqb_spec i 0); [done|]. cbn [negb andb]. apply Z.ltb_ge.
      destruct (lookup_lt_is_Some_2 (steps_of pc) (Z.to_nat (i - 1))) as [st' Hst'];
        [apply lookup_lt_Some in Hsti; lia|].
      rewrite (Hlv st') by (done || lia). eapply tree_steps_level_mono; [exact Hst'|].
      replace (S (Z.to_nat (i - 1))) with (Z.to_nat i) by lia. exact Hsti. }
    rewrite !Z.geb_leb. destruct (Z.leb_spec required (step_left st)); [lia|].
    destruct (Z.leb_spec required (step_right st)); [lia|].
    destruct (Z.leb_spec required (step_output st)); [lia|]. cbn [orb].
    destruct (marked_nonzero (pc + i) m (step_left st)) as (x & -> & Hx); [lia | lia | done|].
    cbn [mbind option_bind]. apply Z.eqb_neq in Hx as ->.
    destruct (marked_nonzero (pc + i) m (step_right st)) as (y & Ey & Hy); [lia | lia | done|].
    assert (exists z, (if negb (has_right st) then Some 1 else zget m (step_right st)) = Some z /\ z <> 0)
      as (z & -> & Hz) by (destruct (has_right st); cbn; eauto).
    cbn [mbind option_bind]. apply Z.eqb_neq in Hz as ->.
    rewrite (HM (step_output st)) by lia. rewrite Ho.
    destruct (Z.ltb_spec (pc + i) pc); [lia|]. rewrite Z.ltb_irrefl.
    cbn [mbind option_bind Z.eqb negb].
    cbn [primitive build_plan].
    match goal with |- context [if negb (has_right st) && ?b then _ else _] =>
      assert (negb (has_right st) && b = false) as -> end.
    { destruct (has_right st); [done|]. rewrite bool_decide_true by done. by rewrite Z.eqb_refl. }
    match goal with |- context [if negb (negb (has_right st)) && ?b then _ else _] =>
      assert (negb (negb (has_right st)) && b = false) as -> end.
    { by destruct (has_right st); [rewrite bool_decide_true by done|]. }
    rewrite zset_Some by lia. cbn [mbind option_bind].
    eexists. split; [reflexivity|]. split; [by rewrite zlen_insert|]. split; [|split; [lia|]].
    + intros s Hs. destruct (Z.eq_dec s (pc + i)) as [->|].
      * rewrite zget_insert_eq by lia. destruct (Z.ltb_spec (pc + i) pc); [lia|].
        destruct (Z.ltb_spec (pc + i) (pc + (i + 1))); [|lia]. do 2 f_equal. lia.
      * rewrite zget_insert_ne, HM by lia.
        destruct (Z.ltb_spec s pc), (Z.ltb_spec s (pc + i)), (Z.ltb_spec s (pc + (i + 1))); try lia; done.
    + intros st' _. replace (i + 1 - 1) with i by lia. rewrite Hsti. by intros [= <-].
Qed.

Lemma edge_marker_fields i :
  0 <= i < 2 ^ 62 ->
  IsEdgeMarker (Z.lor kFoldGraphValidationEdgeMarker i) = true /\
  Z.land (Z.lor kFoldGraphValidationEdgeMarker i) kFoldGraphValidationMarkerPayloadMask = i.
Proof using.
  intros Hi. unfold IsEdgeMarker. rewrite !Z.land_lor_distr_l. split.
  - assert (Z.land i kFoldGraphValidationMarkerTagMask = 0) as ->; [|done].
    apply Z.bits_inj'. intros n Hn. rewrite Z.land_spec, Z.bits_0.
    change kFoldGraphValidationMarkerTagMask with (Z.shiftl 3 62).
    destruct (Z.ltb_spec n 62).
    + rewrite Z.shiftl_spec_low by lia. apply andb_false_r.
    + rewrite <- (Z.mod_small i (2 ^ 62)) by done. by rewrite Z.mod_pow2_bits_high by lia.
  - change kFoldGraphValidationMarkerPayloadMask with (2 ^ 62 - 1). rewrite !land_mask by lia.
    rewrite (Z.mod_small i) by done. done.
Qed.

Lemma built_nodes markers :
  required <= zlen markers -> marked required markers ->
  ValidateFoldGraphNodes (ViewFoldGraph bg) markers (DescribeFoldOperation op) required =
    Some PassFoldGraphValidation.
Proof using Hpc Hcount.
  intros Hm HM. pose proof edge_count_nonneg. destruct view_counts as (C1 & C2 & C3).
  unfold ValidateFoldGraphNodes. cbv zeta. destruct (Z.ltb_spec (zlen markers) required); [lia|].
  rewrite C2, C3.
  edestruct (for_range_total (R := FoldGraphValidationResult) (fun _ (_ : unit) => True))
    as ([] & E & _).
  4: { by erewrite E. }
  1,2: done || lia.
  intros i [] Hi _. exists tt. split; [|done].
  cbn [ViewFoldGraph v_nodes ptr_get mbind option_bind v_operation].
  cbn [built_graph set_validation tree_graph nodes items plan_partition_count operation
    build_plan plan_operation].
  destruct (Z.ltb_spec i (2 * pc)).
  - assert (exists k j, 0 <= j < pc /\ (k = WorkerLocalPartial \/ k = GlobalOrderedSlot) /\
      zget (part_nodes plan pc ++ map (tree_node plan) (steps_of pc)) i =
      Some (partition_node plan k i j)) as (k & j & Hj & Hk & Ei).
    { rewrite zget_app_l by (rewrite zlen_part_nodes by lia; lia).
      destruct (part_nodes_lookup plan pc (i / 2)) as [E1 E2]; [Z.div_mod_to_equations; lia|].
      pose proof (Z.div_mod i 2 ltac:(lia)). pose proof (Z.mod_pos_bound i 2 ltac:(lia)).
      destruct (Z.eq_dec (i mod 2) 0).
      - exists WorkerLocalPartial, (i / 2). split; [Z.div_mod_to_equations; lia|]. split; [by left|].
        replace (2 * (i / 2)) with i in E1 by lia. done.
      - exists GlobalOrderedSlot, (i / 2). split; [Z.div_mod_to_equations; lia|]. split; [by right|].
        replace (2 * (i / 2) + 1) with i in E2 by lia. done. }
    rewrite Ei. cbn [mbind option_bind partition_node topological_index node_slot node_operation
      node_value_domain node_overflow_law node_right_is_padding node_padding_law node_right_slot
      node_left_slot kind plan_operation primitive build_plan].
    rewrite Z.eqb_refl, Z.geb_leb, !bool_decide_true by done.
    destruct (Z.leb_spec required j); [lia|]. cbn [negb orb andb]. rewrite HM by lia.
    destruct (Z.ltb_spec j pc); [|lia]. destruct (Z.ltb_spec j required); [|lia].
    cbn [mbind option_bind]. unfold PartitionNodeValid. cbn. rewrite Z.eqb_refl.
    destruct Hk as [-> | ->]; rewrite bool_decide_true by done; reflexivity.
  - assert (0 <= i - 2 * pc < edge_count pc) as Hi' by lia.
    destruct (view_lookup_edge _ Hi') as (st & Hst & Hok & Hsti).
    rewrite zget_app_ge by (rewrite zlen_part_nodes by lia; lia). rewrite zlen_part_nodes by lia.
    assert (zget (map (tree_node plan) (steps_of pc)) (i - 2 * pc) = Some (tree_node plan st)) as ->
      by (apply zget_Some; split; [lia | by rewrite list_lookup_fmap, Hsti]).
    destruct Hok as [Hx Ho Hle Hri Hpad].
    unfold tree_node, tree_edge. cbn [mbind option_bind edge_node
      topological_index node_slot node_operation
      node_value_domain node_overflow_law node_right_is_padding node_padding_law node_right_slot
      node_left_slot kind plan_operation primitive build_plan plan_partition_count].
    rewrite Hx. replace (2 * pc + (0 + (i - 2 * pc))) with i by lia.
    cbn [step_edge left_slot right_slot output_slot padding_law right_is_padding].
    rewrite Z.eqb_refl, !Z.geb_leb, !bool_decide_true by done.
    destruct (Z.leb_spec required (step_output st)); [lia|]. cbn [negb orb].
    match goal with |- context [if negb (has_right st) && ?b then _ else _] =>
      assert (negb (has_right st) && b = false) as -> end.
    { destruct (has_right st); [done|]. rewrite bool_decide_true by done.
      destruct (Z.leb_spec required (step_right st)); [lia | done]. }
    rewrite HM by lia. rewrite Ho. destruct (Z.ltb_spec (pc + (i - 2 * pc)) pc); [lia|].
    destruct (Z.ltb_spec (pc + (i - 2 * pc)) required); [|lia]. cbn [mbind option_bind].
    replace (pc + (i - 2 * pc) - pc) with (i - 2 * pc) by lia.
    destruct (edge_marker_fields (i - 2 * pc)) as [-> ->]; [lia|]. cbn [negb].
    rewrite Z.geb_leb. destruct (Z.leb_spec (edge_count pc) (i - 2 * pc)); [lia|].
    rewrite Hst. cbn [mbind option_bind]. unfold ReductionNodeMatchesEdge, tree_edge. cbn.
    rewrite !Z.eqb_refl, !bool_decide_true, eqb_reflx by done. done.
Qed.

Lemma built_validates markers :
  required <= zlen markers ->
  exists res m, ValidateFoldGraphWithMarkers (ViewFoldGraph bg) markers = Some (res, m) /\
    val_ok res = true /\ val_scratch_slot_count res = required.
Proof using Hpc Hcount Hadm.
  intros Hm. unfold ValidateFoldGraphWithMarkers. cbv zeta. rewrite built_shape. cbn [val_ok
    PassFoldGraphValidation negb]. rewrite built_scratch_count. cbn [mbind option_bind].
  destruct (built_slots markers Hm) as (m1 & -> & Hl1 & HM1). cbn [mbind option_bind val_ok
    PassFoldGraphValidation negb].
  change (v_operation (ViewFoldGraph bg)) with op.
  destruct (built_edges m1 ltac:(lia) HM1) as (m2 & -> & Hl2 & HM2). cbn [mbind option_bind val_ok
    PassFoldGraphValidation negb].
  change (v_final_slot (ViewFoldGraph bg)) with (pc + edge_count pc - 1). rewrite Z.eqb_refl.
  cbn [negb]. rewrite built_nodes by (done || lia). cbn [mbind option_bind val_ok
    PassFoldGraphValidation negb]. eexists _, _. split; [reflexivity | done].
Qed.
End built.

(** ** The reference: adjacent pairs, level by level *)
Section reference.
Context (op : FoldOperation) (policy : StrictFloatReductionPolicy).

Fixpoint fold_level (l : list Z) : option (list Z) :=
  match l with
  | [] => Some []
  | [a] => c ← CombineFoldValues op a (FoldPaddingValue op) policy; Some [c]
  | a :: b :: l =>
      c ← CombineFoldValues op a b policy;
      r ← fold_level l;
      Some (c :: r)
  end.

Fixpoint tree_fold (fuel : nat) (l : list Z) : option Z :=
  match l with
  | [] => None
  | [x] => Some x
  | _ => match fuel with
         | O => None
         | S n => l' ← fold_level l; tree_fold n l'
         end
  end.

Lemma pairs_ind (P : list Z -> Prop) :
  P [] -> (forall a, P [a]) -> (forall a b l, P l -> P (a :: b :: l)) -> forall l, P l.
Proof using.
  intros H0 H1 H2 l. assert (P l /\ forall a, P (a :: l)) as [H _]; [|done].
  induction l as [|b l [IH1 IH2]]; split; eauto.
Qed.

Lemma fold_level_total l :
  Forall is_u64 l ->
  exists l', fold_level l = Some l' /\ Forall is_u64 l' /\ zlen l' = (zlen l + 1) / 2.
Proof using.
  induction l as [|a|a b l IH] using pairs_ind; cbn [fold_level].
  - by exists [].
  - intros [Ha _]%Forall_cons.
    destruct (FoldSpecFacts.CombineFoldValues_total op a (FoldPaddingValue op) policy Ha
      (FoldSpecFacts.FoldPaddingValue_u64 op)) as (c & -> & Hc).
    exists [c]. split; [done|]. split; [by constructor | done].
  - intros [Ha [Hb Hl]%Forall_cons]%Forall_cons.
    destruct (FoldSpecFacts.CombineFoldValues_total op a b policy Ha Hb) as (c & -> & Hc).
    destruct (IH Hl) as (l' & -> & Hl' & Hz). exists (c :: l'). split; [done|].
    split; [by constructor|]. rewrite !zlen_cons, Hz.
    replace (zlen l + 1 + 1 + 1) with ((zlen l + 1) + 1 * 2) by lia. rewrite Z.div_add by lia. lia.
Qed.

Lemma fold_level_lookup l l' k c :
  fold_level l = Some l' -> zget l' k = Some c ->
  exists a b, zget l (2 * k) = Some a /\
    (if 2 * k + 1 <? zlen l then zget l (2 * k + 1) else Some (FoldPaddingValue op)) = Some b /\
    CombineFoldValues op a b policy = Some c.
Proof using.
  revert l' k. induction l as [|a|a b l IH] using pairs_ind; intros l' k; cbn [fold_level].
  - intros [= <-] Hk. apply zget_range in Hk. change (zlen (@nil Z)) with 0 in Hk. lia.
  - destruct (CombineFoldValues op a _ policy) as [x|] eqn:Ex; cbn; intros [= <-] Hk.
    pose proof (zget_range _ _ _ Hk) as Hr. change (zlen [x]) with 1 in Hr. assert (k = 0) as -> by lia.
    injection Hk as <-. exists a, (FoldPaddingValue op). done.
  - destruct (CombineFoldValues op a b policy) as [x|] eqn:Ex; [|done]. cbn [mbind option_bind].
    destruct (fold_level l) as [r|] eqn:Er; [|done]. cbn. intros [= <-] Hk.
    pose proof (zget_range _ _ _ Hk) as Hr. pose proof (zlen_nonneg l) as Hn.
    change (a :: b :: l) with ([a; b] ++ l). change (x :: r) with ([x] ++ r) in Hk.
    rewrite zlen_app. change (zlen [a; b]) with 2.
    destruct (Z.eq_dec k 0) as [->|].
    + injection Hk as <-. exists a, b. split; [done|]. replace (2 * 0 + 1) with 1 by lia.
      destruct (Z.ltb_spec 1 (2 + zlen l)); [done | lia].
    + rewrite zget_app_ge in Hk by (change (zlen [x]) with 1; lia).
      change (zlen [x]) with 1 in Hk.
      destruct (IH r (k - 1) eq_refl Hk) as (a' & b' & Ha & Hb & Hc). exists a', b'.
      rewrite !zget_app_ge by (change (zlen [a; b]) with 2; lia). change (zlen [a; b]) with 2.
      replace (2 * k - 2) with (2 * (k - 1)) by lia.
      replace (2 * k + 1 - 2) with (2 * (k - 1) + 1) by lia. split; [done|]. split; [|done].
      rewrite <- Hb. destruct (Z.ltb_spec (2 * k + 1) (2 + zlen l));
        destruct (Z.ltb_spec (2 * (k - 1) + 1) (zlen l)); (done || lia).
Qed.

(** ** Evaluating the tree *)
Abbreviation edge_of := (step_edge op (DescribeFoldOperation op)).

Definition holds (env : gmap Z Z) (base : Z) (vals : list Z) : Prop :=
  forall k x, zget vals k = Some x -> env !! (base + k) = Some x.

Lemma for_each_map {A B S} (g : A -> B) (body : S -> B -> option S) s l :
  for_each body s (map g l) = for_each (fun s x => body s (g x)) s l.
Proof using.
  revert s; induction l as [|x l IH]; intros s; cbn; [done|]. by destruct (body s (g x)); cbn.
Qed.

Lemma level_eval edge level base out env vals vals' :
  0 <= base -> base + zlen vals <= out -> out + (zlen vals + 1) / 2 <= U32_MAX ->
  fold_level vals = Some vals' -> zlen vals' = (zlen vals + 1) / 2 -> holds env base vals ->
  exists env',
    for_each (eval_edge op policy) env
      (map edge_of (level_steps edge level base (zlen vals) out)) = Some env' /\
    holds env' out vals'.
Proof using.
  intros Hb Hout Hu Hfl Hl Hh. pose proof (zlen_nonneg vals).
  assert (0 <= (zlen vals + 1) / 2) by (Z.div_mod_to_equations; lia).
  unfold level_steps. rewrite !for_each_map.
  edestruct (for_range_inv (fun k (e : gmap Z Z) =>
      (forall s, s < out -> e !! s = env !! s) /\
      (forall j x, j < k -> zget vals' j = Some x -> e !! (out + j) = Some x)))
    as (env' & E & _ & Henv').
  4: { erewrite E. exists env'. split; [done|]. intros j x Hx. apply Henv'; [|done].
       apply zget_range in Hx. lia. }
  - lia.
  - split; [done|]. intros j x Hj Hx. apply zget_range in Hx. lia.
  - intros k e Hk [Hlow Hdone].
    destruct (zget_nth_range vals' k _ Hl Hk) as [c Hc].
    destruct (fold_level_lookup _ _ _ _ Hfl Hc) as (a & b & Ha & Hbv & Hcomb).
    destruct (tree_step_ok edge level base (zlen vals) out k) as [_ Ho Hle Hri Hpad]; [lia..|].
    cbn [tree_step has_right step_left step_right step_output] in *.
    pose proof (zget_range _ _ _ Ha) as Hra.
    rewrite (wrap32_small (base + 2 * k)) in * by (unfold is_u32; lia).
    unfold eval_edge. cbn [step_edge left_slot right_slot output_slot right_is_padding padding_value
      tree_step has_right step_left step_right step_output].
    rewrite Ho, (wrap32_small (base + 2 * k)) by (unfold is_u32; lia).
    rewrite (Hlow (base + 2 * k)) by lia. rewrite (Hh _ _ Ha). cbn [mbind option_bind].
    assert ((if negb (2 * k + 1 <? zlen vals)
             then Some (if 2 * k + 1 <? zlen vals then 0
                        else prim_padding_value (DescribeFoldOperation op))
             else e !! (if 2 * k + 1 <? zlen vals then wrap32 (base + 2 * k + 1) else base + 2 * k))
            = Some b) as ->.
    { destruct (Z.ltb_spec (2 * k + 1) (zlen vals)); cbn [negb].
      - rewrite wrap32_small by (unfold is_u32; lia). rewrite Hlow by lia.
        rewrite <- Z.add_assoc. by apply Hh.
      - rewrite FoldSpecFacts.prim_padding_value_eq. done. }
    cbn [mbind option_bind]. rewrite Hcomb. cbn [mbind option_bind].
    eexists. split; [reflexivity|]. split.
    + intros s Hs. rewrite lookup_insert_ne by lia. by apply Hlow.
    + intros j x Hj Hx. destruct (Z.eq_dec j k) as [->|].
      * rewrite lookup_insert_eq. rewrite Hc in Hx. done.
      * rewrite lookup_insert_ne by lia. apply Hdone; [lia | done].
Qed.

Lemma tree_eval fuel edge level base out env vals :
  0 <= base -> 1 <= zlen vals <= 2 ^ Z.of_nat fuel -> base + zlen vals <= out ->
  out + tree_size fuel (zlen vals) <= U32_MAX ->
  Forall is_u64 vals -> holds env base vals ->
  exists env' r,
    for_each (eval_edge op policy) env
      (map edge_of (tree_steps fuel edge level base (zlen vals) out)) = Some env' /\
    tree_fold fuel vals = Some r /\ is_u64 r /\
    env' !! (if zlen vals >? 1 then out + tree_size fuel (zlen vals) - 1 else base) = Some r.
Proof using.
  revert edge level base out env vals.
  induction fuel as [|n IH]; intros edge level base out env vals Hb Hlen Hout Hu Hv Hh.
  all: destruct (zlen vals >? 1) eqn:E1; to_prop.
  1: { cbn in Hlen. lia. }
  1,3: destruct (zlen_1 vals ltac:(lia)) as [x ->]; exists env, x;
    rewrite Forall_singleton in Hv; rewrite <- (Z.add_0_r base);
    (split; [done|]); (split; [done|]); (split; [done|]); by apply Hh.
  cbn [tree_steps tree_size] in *. apply Z.ltb_lt in E1. rewrite Z.gtb_ltb, E1 in *. to_prop.
  cbv zeta. set (m := (zlen vals + 1) / 2) in *.
  assert (1 <= m < zlen vals) as Hm by (apply half_up; lia).
  pose proof (tree_size_nonneg n m).
  destruct (fold_level_total vals Hv) as (vals' & Hfl & Hv' & Hl').
  fold m in Hl'.
  destruct (level_eval edge level base out env vals vals') as (env1 & Ee & Hh1); try done; try lia.
  rewrite map_app, for_each_app, Ee. cbn [mbind option_bind].
  rewrite Nat2Z.inj_succ, Z.pow_succ_r in Hlen by lia.
  destruct (IH (edge + m) (level + 1) out (out + m) env1 vals') as (env' & r & Er & Ef & Hr & Hlk);
    rewrite ?Hl'; try lia; try done.
  { split; [lia|]. subst m. Z.div_mod_to_equations. lia. }
  rewrite Hl' in Er, Hlk. exists env', r. split; [done|]. split; [|split; [done|]].
  - destruct vals as [|x [|y vals0]]; [rewrite zlen_nil in E1; lia | rewrite zlen_cons, zlen_nil in E1; lia|]. cbn [tree_fold].
    rewrite Hfl. done.
  - rewrite <- Hlk. f_equal. destruct (m >? 1) eqn:Em; to_prop; [lia|].
    assert (m = 1) as -> by lia. assert (tree_size n 1 = 0) as -> by (by destruct n). lia.
Qed.
End reference.

(** ** The ordered fold *)
Lemma edge_count_fits n : 1 <= n <= 1431655755 -> 2 * n + edge_count n <= U32_MAX.
Proof. intros. pose proof (edge_count_bound n). lia. Qed.

Lemma slot_env_range (env : gmap Z Z) n values :
  zlen values = n -> 0 <= n -> holds (slot_env env (range 0 n) values) 0 values.
Proof.
  intros Hl Hn. assert (forall m, 0 <= m -> m <= n ->
    holds (slot_env env (range 0 m) (take (Z.to_nat m) values)) 0 (take (Z.to_nat m) values)) as G.
  { intros m Hm. pattern m. apply natlike_ind; [|intros x Hx IH|done].
    - intros _ k x Hk. apply zget_range in Hk. change (zlen (take (Z.to_nat 0) values)) with 0 in Hk. lia.
    - intros Hx'. unfold Z.succ in *. rewrite range_snoc by lia.
      destruct (zget_nth_range values x n Hl ltac:(lia)) as [v Hv].
      rewrite (take_S_Z values x v) by (done || lia).
      assert (zlen (take (Z.to_nat x) values) = x) as Hz
        by (unfold zlen in *; rewrite length_take; lia).
      rewrite slot_env_snoc by (rewrite length_range; unfold zlen in Hz; lia).
      intros k y Hk. destruct (Z.eq_dec k x) as [->|].
      + rewrite zget_app_mid in Hk by done. injection Hk as <-. by rewrite lookup_insert_eq.
      + pose proof (zget_range _ _ _ Hk) as Hr. rewrite zlen_app, Hz in Hr. change (zlen [v]) with 1 in Hr.
        rewrite zget_app_l in Hk by lia. rewrite lookup_insert_ne by lia. by apply IH; [lia|]. }
  specialize (G n ltac:(lia) ltac:(lia)). rewrite take_ge in G by (unfold zlen in *; lia). done.
Qed.

Lemma FoldStrictOrderedSlots_eq values op policy elapsed inner :
  Forall is_u64 values -> 1 <= zlen values -> 2 * zlen values + edge_count (zlen values) <= U32_MAX -> admitted op policy = true ->
  exists r, tree_fold op policy tree_fuel values = Some r /\
    FoldStrictOrderedSlots values op policy elapsed inner =
    Some (OrderedResult true "pass" r (zlen values) op elapsed).
Proof.
  intros Hv Hlen Hcount Hadm. pose proof (edge_count_nonneg (zlen values)) as Hec.
  unfold FoldStrictOrderedSlots. cbv zeta.
  rewrite FoldSpecFacts.IsSupportedFoldOperation_true. cbn [negb].
  assert (FoldOperationAllowsFloatingPoint op && negb (StrictFloatReductionValid op policy) = false) as ->.
  { unfold admitted, FoldOperationAllowsFloatingPoint in *.
    by destruct (admits_floating_point _), (StrictFloatReductionValid _ _). }
  destruct (Z.eqb_spec (zlen values) 0); [lia|].
  rewrite wrap32_small by (unfold is_u32; lia).
  destruct (BuildFoldGraph_fits EmptyFoldGraph (zlen values) op policy AllowGrowth)
    as (report & -> & Hrep & _); [unfold is_u32; lia | done | |].
  { unfold fits. rewrite bool_decide_true by done.
    destruct (Z.ltb_spec 0 (zlen values)), (Z.leb_spec (2 * zlen values + edge_count (zlen values)) U32_MAX);
      try lia; done. }
  cbn [mbind option_bind]. rewrite Hrep. cbn [negb]. unfold FoldGraphReduce, EnsureFoldGraphScratch.
  rewrite built_scratch_count by lia. rewrite bool_decide_false by done. cbn [mbind option_bind andb negb].
  set (graph := built_graph _ _ _ _ _). set (scratch := replicate _ 0).
  assert (zlen values + edge_count (zlen values) <= zlen scratch) as Hsc.
  { subst scratch. autorewrite with zlen. rewrite bool_decide_true by done. cbn [vresize vreserve items].
    cbn [vempty items]. rewrite take_nil. cbn [app]. rewrite length_replicate. cbn [length]. lia. }
  cbn [items].
  destruct (built_validates EmptyFoldGraph (zlen values) op policy AllowGrowth ltac:(lia) Hcount Hadm
    scratch Hsc) as (res & m & Hval & Hok & _). fold graph in Hval.
  destruct (FoldGraphReduceSpan_run (ViewFoldGraph graph)
    (built_view_ok EmptyFoldGraph (zlen values) op policy AllowGrowth ltac:(lia) Hcount)
    values scratch inner res m Hv eq_refl Hval Hok) as (x & sc & -> & _ & Hden & _).
  cbn [mbind option_bind]. unfold denote in Hden.
  destruct (tree_eval op policy tree_fuel 0 0 0 (zlen values)
    (slot_env ∅ (range 0 (zlen values)) values) values) as (env & r & Ee & Er & _ & Hr);
    try lia; try done.
  { split; [lia|]. unfold tree_fuel. lia. }
  { unfold edge_count in *. lia. }
  { apply slot_env_range; lia. }
  exists r. split; [done|].
  assert (Some x = Some r) as [= ->]; [|done].
  rewrite <- Hden, <- Hr.
  transitivity (for_each (eval_edge op policy) (slot_env ∅ (range 0 (zlen values)) values)
    (map (step_edge op (DescribeFoldOperation op)) (tree_steps tree_fuel 0 0 0 (zlen values) (zlen values)))
    ≫= (fun env => env !! (zlen values + edge_count (zlen values) - 1))); [reflexivity|].
  rewrite Ee. cbn [mbind option_bind]. f_equal.
  destruct (zlen values >? 1) eqn:E1; [done|]. to_prop. rewrite edge_count_small by lia. lia.
Qed.

(** The outcome of the ordered fold of [values]: an operation that the policy does not admit
    is rejected with the reason of the policy, no values fold to zero, and the values of a
    graph that fits 32-bit counts fold to the value of their tree of adjacent pairs; the
    others are rejected. *)
Definition ordered_outcome (values : list Z) (op : FoldOperation) (policy : StrictFloatReductionPolicy) (elapsed : Z) (r : FoldResult) : Prop :=
  let n := zlen values in
  if negb (admitted op policy) then
    r = OrderedResult false (if policy_valid policy then "floating_point_law_mismatch" else "floating_point_fold_forbidden") 0 n op elapsed
  else if n =? 0 then r = OrderedResult true "pass" 0 0 op elapsed
  else if 2 * n + edge_count n <=? U32_MAX then
    exists value, tree_fold op policy tree_fuel values = Some value /\ r = OrderedResult true "pass" value n op elapsed
  else exists reason, r = OrderedResult false reason 0 n op elapsed.

(** C2: The ordered fold of 64-bit values, up to 2^32 - 1 of them, returns. It passes
    exactly when the policy admits the operation and the graph of the values fits 32-bit
    counts, and then has the value of the adjacent-pair tree over the values in their
    order: the result is fixed by the values alone, whatever the number of workers that
    produced them. *)
Theorem FoldStrictOrderedSlots_tree values op policy elapsed inner :
  Forall is_u64 values -> zlen values <= U32_MAX ->
  exists r, FoldStrictOrderedSlots values op policy elapsed inner = Some r /\ ordered_outcome values op policy elapsed r.
Proof.
  intros Hv Hlen. pose proof (zlen_nonneg values) as H0. unfold ordered_outcome. cbv zeta.
  assert (FoldOperationAllowsFloatingPoint op && negb (StrictFloatReductionValid op policy) = negb (admitted op policy)) as Hadm.
  { unfold admitted, FoldOperationAllowsFloatingPoint. by destruct (admits_floating_point _), (StrictFloatReductionValid _ _). }
  destruct (negb (admitted op policy)) eqn:Ea; [|destruct (Z.eqb_spec (zlen values) 0) as [E0|E0]; [|destruct (Z.leb_spec (2 * zlen values + edge_count (zlen values)) U32_MAX) as [Hf|Hf]]].
  - unfold FoldStrictOrderedSlots. cbv zeta. rewrite FoldSpecFacts.IsSupportedFoldOperation_true, Hadm, wrap32_small by (unfold is_u32; lia). by eexists.
  - unfold FoldStrictOrderedSlots. cbv zeta. rewrite FoldSpecFacts.IsSupportedFoldOperation_true, Hadm, E0. by eexists.
  - apply negb_false_iff in Ea. destruct (FoldStrictOrderedSlots_eq values op policy elapsed inner Hv ltac:(lia) Hf Ea) as (r & Et & ->). eexists. split; [done|]. by exists r.
  - unfold FoldStrictOrderedSlots. cbv zeta. rewrite FoldSpecFacts.IsSupportedFoldOperation_true, Hadm, (proj2 (Z.eqb_neq _ _) E0). cbn [negb].
    rewrite wrap32_small by (unfold is_u32; lia).
    destruct (BuildFoldGraph_rejects EmptyFoldGraph (zlen values) op policy AllowGrowth) as (report & -> & Hrep); [unfold is_u32; lia | |].
    { unfold fits. rewrite (proj2 (Z.leb_gt _ _)) by done. by rewrite andb_false_r, andb_false_l, andb_false_r. }
    cbn [mbind option_bind]. rewrite Hrep. cbn [negb]. eexists. split; [done|]. by eexists.
Qed.

Lemma FoldStrictOrderedSlots_tree_witness :
  exists r, FoldStrictOrderedSlots [0x4b800000; 0x3f800000; 0x3f800000] StrictFloat32Add
    StrictFloat32ReductionPolicy 7 3 = Some (OrderedResult true "pass" r 3 StrictFloat32Add 7) /\
    r = 0x4b800000.
Proof.
  destruct (FoldStrictOrderedSlots_tree [0x4b800000; 0x3f800000; 0x3f800000] StrictFloat32Add
    StrictFloat32ReductionPolicy 7 3) as (r & Er & Ho).
  - repeat constructor; vm_compute; congruence.
  - vm_compute. congruence.
  - destruct Ho as (v & Et & ->). exists v. split; [exact Er|]. vm_compute in Et. injection Et as Et. symmetry. exact Et.
Defined.

(** ** Order-free operations *)
Section order_free.
Context (op : FoldOperation) (policy : StrictFloatReductionPolicy).
Context (Hfree : FoldSpecFacts.order_free op = true).
Import FoldSpecFacts.

Definition plain_fold (l : list Z) : Z := foldr (monoid_op op) (FoldPaddingValue op) l.

Lemma plain_fold_u64 l : Forall is_u64 l -> is_u64 (plain_fold l).
Proof using Hfree.
  induction 1 as [|x l Hx Hl IH]; cbn; [apply FoldPaddingValue_u64 | by apply monoid_u64].
Qed.

Lemma fold_level_plain l l' :
  Forall is_u64 l -> fold_level op policy l = Some l' -> plain_fold l' = plain_fold l.
Proof using Hfree.
  revert l'. induction l as [|a|a b l IH] using pairs_ind; cbn [fold_level]; intros l' Hl.
  - by intros [= <-].
  - apply Forall_cons in Hl as [Ha _]. rewrite combine_monoid by (done || apply FoldPaddingValue_u64).
    intros [= <-]. cbn. by rewrite !monoid_padding by (done || apply monoid_u64; done || apply FoldPaddingValue_u64).
  - apply Forall_cons in Hl as [Ha Hl]. apply Forall_cons in Hl as [Hb Hl].
    rewrite combine_monoid by done. cbn [mbind option_bind].
    destruct (fold_level op policy l) as [r|] eqn:Er; [|done]. cbn. intros [= <-].
    change (monoid_op op (monoid_op op a b) (plain_fold r) =
            monoid_op op a (monoid_op op b (plain_fold l))).
    rewrite (IH r Hl eq_refl). symmetry. apply monoid_assoc; try done. by apply plain_fold_u64.
Qed.

Lemma tree_fold_plain fuel l r :
  Forall is_u64 l -> tree_fold op policy fuel l = Some r -> r = plain_fold l.
Proof using Hfree.
  revert l. induction fuel as [|n IH]; intros l Hl.
  - destruct l as [|x [|y l]]; cbn; try done. intros [= <-]. apply Forall_cons in Hl as [Hx _].
    by rewrite monoid_padding.
  - destruct l as [|x [|y l]]; [done | |].
    + cbn. intros [= <-]. apply Forall_cons in Hl as [Hx _]. by rewrite monoid_padding.
    + cbn [tree_fold]. destruct (fold_level_total op policy _ Hl) as (l' & El & Hl' & _).
      rewrite El. cbn [mbind option_bind]. intros E. rewrite (IH l' Hl' E). by apply fold_level_plain.
Qed.

Lemma plain_fold_perm l k : Forall is_u64 l -> l ≡ₚ k -> plain_fold l = plain_fold k.
Proof using Hfree.
  intros Hl Hp. revert Hl. induction Hp as [|x l k Hp IH|x y l|l k m H1 IH1 H2 IH2]; intros Hl.
  - done.
  - apply Forall_cons in Hl as [_ Hl].
    change (monoid_op op x (plain_fold l) = monoid_op op x (plain_fold k)). by rewrite IH.
  - apply Forall_cons in Hl as [Hy Hl]. apply Forall_cons in Hl as [Hx Hl].
    pose proof (plain_fold_u64 l Hl).
    change (monoid_op op y (monoid_op op x (plain_fold l)) =
            monoid_op op x (monoid_op op y (plain_fold l))).
    rewrite !monoid_assoc by done. f_equal. by apply monoid_comm.
  - rewrite IH1 by done. apply IH2. by rewrite <- H1.
Qed.
End order_free.

(** C40: For xor, maximum, minimum and saturating addition the ordered fold of 1 to
    1431655755 values of 64 bits has the value of the plain left fold, so it is the same
    for every order of the workers' partial results (a saturated sum included). *)
Theorem FoldOrderedSlots_order_free values values' op elapsed inner :
  FoldSpecFacts.order_free op = true ->
  Forall is_u64 values -> 1 <= zlen values <= 1431655755 -> values ≡ₚ values' ->
  FoldValue (FoldOrderedSlots values op elapsed inner) = Some (plain_fold op values) /\
  FoldValue (FoldOrderedSlots values' op elapsed inner) = Some (plain_fold op values).
Proof.
  intros Hfree Hv Hlen Hp.
  assert (admitted op DefaultStrictFloatPolicy = true) as Hadm by (by destruct op).
  assert (forall l, Forall is_u64 l -> zlen l = zlen values ->
    FoldValue (FoldOrderedSlots l op elapsed inner) = Some (plain_fold op l)) as G.
  { intros l Hl Hz. destruct (FoldStrictOrderedSlots_eq l op DefaultStrictFloatPolicy elapsed inner Hl)
      as (r & Hr & E); [lia | rewrite Hz; by apply edge_count_fits | done |]. unfold FoldOrderedSlots. rewrite E. cbn.
    by rewrite (tree_fold_plain op _ Hfree _ _ _ Hl Hr). }
  split; [by apply G|]. rewrite (plain_fold_perm op Hfree values values') by done.
  apply G; [by rewrite <- Hp|]. unfold zlen. by rewrite Hp.
Qed.

Lemma FoldOrderedSlots_order_free_witness :
  FoldValue (FoldOrderedSlots [0xFFFFFFFFFFFFFFFF; 1; 5] SaturatingAdd 0 0) =
  FoldValue (FoldOrderedSlots [1; 5; 0xFFFFFFFFFFFFFFFF] SaturatingAdd 0 0).
Proof.
  destruct (FoldOrderedSlots_order_free [0xFFFFFFFFFFFFFFFF; 1; 5] [1; 5; 0xFFFFFFFFFFFFFFFF]
    SaturatingAdd 0 0) as [E1 E2].
  - reflexivity.
  - repeat constructor; vm_compute; congruence.
  - split; vm_compute; congruence.
  - apply (Permutation_cons_append [1; 5] 0xFFFFFFFFFFFFFFFF).
  - transitivity (Some (plain_fold SaturatingAdd [0xFFFFFFFFFFFFFFFF; 1; 5])); [exact E1|].
    symmetry. exact E2.
Defined.
