(* ===== verification/Workspace.v ===== *)
(** * Workspace: the reusable buffers of the scheduler and their capacity contract

    [kernel/schedule/workspace/*.hpp], [schedule/workspace/state.cpp],
    [schedule/workspace/packet.cpp], [workspace/capacity/*.cpp] and
    [workspace/reservation/*.cpp]: reserving buffers cold, so that a [NoGrowth]
    schedule compiles without allocating. The workspace's [program] and
    [telemetry] members, which only report, are not part of the record. *)
From stdpp Require Import base numbers list option strings.
From Stdlib Require Import ZArith Lia.
From S2P Require Import Prelude Checked Scalar Planner Capacity Schedule FoldModel FoldGraph FoldReduce.
Import Sat.

(** [WorkspaceReservation], [WorkspaceCapacity] and [KernelProgramCapacitySet] have
    the same fields. *)
Record WorkspaceReservation := {
  schedule_partition_capacity : Z;
  packet_capacity : Z;
  packet_work_unit_capacity : Z;
  ordered_packet_capacity : Z;
  packet_partition_capacity : Z;
  ordered_packet_scratch_capacity : Z;
  partition_load_capacity : Z;
  partition_count_capacity : Z;
  partition_offset_capacity : Z;
  partition_write_offset_capacity : Z;
  fold_slot_capacity : Z;
  fold_graph_node_capacity : Z;
  fold_graph_edge_capacity : Z;
  worker_stats_capacity : Z;
}.
Abbreviation WorkspaceCapacity := WorkspaceReservation (only parsing).

Definition EmptyReservation : WorkspaceReservation := {|
  schedule_partition_capacity := 0; packet_capacity := 0; packet_work_unit_capacity := 0;
  ordered_packet_capacity := 0; packet_partition_capacity := 0;
  ordered_packet_scratch_capacity := 0; partition_load_capacity := 0;
  partition_count_capacity := 0; partition_offset_capacity := 0;
  partition_write_offset_capacity := 0; fold_slot_capacity := 0;
  fold_graph_node_capacity := 0; fold_graph_edge_capacity := 0; worker_stats_capacity := 0 |}.

Record Workspace := {
  schedule : Schedule;
  fold_slots : vec Z;
  fold_graph : FoldGraph;
  program_generation : Z;
  ws_packet_work_units : vec Z;
  ws_ordered_packet_indices : vec Z;
  ws_packet_partition_indices : vec Z;
  ws_ordered_packet_scratch : vec Z;
  ws_partition_loads : vec Z;
  ws_partition_counts : vec Z;
  ws_partition_offsets : vec Z;
  ws_partition_write_offsets : vec Z;
  worker_stats_partitions_per_worker : vec Z;
  worker_stats_start_offset_ns : vec Z;
  worker_stats_elapsed_ns : vec Z;
  worker_stats_tail_wait_ns : vec Z;
  last_failure_reason : string;
}.

(** ** [reservation/normalize.cpp], [reservation/satisfied.cpp], [reservation/margin.cpp] *)
Definition NormalizeReservation (r : WorkspaceReservation) : option WorkspaceReservation :=
  let graph_partition_capacity := schedule_partition_capacity r in
  node_count ← FoldGraphFixedBinaryTreeNodeCount graph_partition_capacity;
  edge_count ← FoldGraphFixedBinaryTreeEdgeCount graph_partition_capacity;
  Some {|
    schedule_partition_capacity := schedule_partition_capacity r;
    packet_capacity := packet_capacity r;
    packet_work_unit_capacity := Z.max (packet_work_unit_capacity r) (packet_capacity r);
    ordered_packet_capacity := Z.max (ordered_packet_capacity r) (packet_capacity r);
    packet_partition_capacity := Z.max (packet_partition_capacity r) (packet_capacity r);
    ordered_packet_scratch_capacity :=
      Z.max (ordered_packet_scratch_capacity r) (packet_capacity r);
    partition_load_capacity :=
      Z.max (partition_load_capacity r) (schedule_partition_capacity r);
    partition_count_capacity :=
      Z.max (partition_count_capacity r) (schedule_partition_capacity r);
    partition_offset_capacity :=
      Z.max (partition_offset_capacity r) (schedule_partition_capacity r);
    partition_write_offset_capacity :=
      Z.max (partition_write_offset_capacity r) (schedule_partition_capacity r);
    fold_slot_capacity := Z.max (fold_slot_capacity r) graph_partition_capacity;
    fold_graph_node_capacity := Z.max (fold_graph_node_capacity r) node_count;
    fold_graph_edge_capacity := Z.max (fold_graph_edge_capacity r) edge_count;
    worker_stats_capacity := worker_stats_capacity r |}.

(** The capacities that are compared: all but [packet_capacity]. *)
Definition compared (r : WorkspaceReservation) : list Z :=
  [schedule_partition_capacity r; packet_work_unit_capacity r; ordered_packet_capacity r;
   packet_partition_capacity r; ordered_packet_scratch_capacity r; partition_load_capacity r;
   partition_count_capacity r; partition_offset_capacity r; partition_write_offset_capacity r;
   fold_slot_capacity r; fold_graph_node_capacity r; fold_graph_edge_capacity r;
   worker_stats_capacity r].

Definition ReservationSatisfiedByCapacity (capacity : WorkspaceCapacity)
    (reservation : WorkspaceReservation) : option bool :=
  required ← NormalizeReservation reservation;
  Some (forallb (fun '(available, required) => available >=? required)
          (zip (compared capacity) (compared required))).

Definition CapacityMargin (available required : Z) : Z :=
  if available >=? required then available - required else 0.

Definition MinNonZeroMargin (current available required : Z) : Z :=
  if required =? 0 then current
  else
    let margin := CapacityMargin available required in
    if current =? U32_MAX then margin else Z.min current margin.

Definition MinimumCapacityMargin (required : WorkspaceReservation) (available : WorkspaceCapacity)
    : option Z :=
  normalized ← NormalizeReservation required;
  let margin := foldl (fun margin '(available, required) => MinNonZeroMargin margin available required)
    U32_MAX (zip (compared available) (compared normalized)) in
  Some (if margin =? U32_MAX then 0 else margin).

(** ** [capacity/runtime.cpp]

    The sizes of the three structs stored in vectors depend on the ABI. *)
Record Layout := {
  sizeof_Partition : Z;
  sizeof_FoldGraphNode : Z;
  sizeof_FoldGraphEdge : Z;
}.

Record WorkspaceRetentionPlan := {
  plan_reservation : WorkspaceReservation;
  plan_bytes : Z;
  plan_ok : bool;
  plan_reason : string;
}.

(** [AddStorageBytes<Value>(capacity, bytes)]; [None] is [false]. *)
Definition AddStorageBytes (size capacity bytes : Z) : option Z :=
  extent ← Checked.mul capacity size; Checked.add bytes extent.

(** A chain of [AddStorageBytes] joined by [&&]. *)
Definition add_all (storage : list (Z * Z)) : option Z :=
  for_each (fun bytes '(size, capacity) => AddStorageBytes size capacity bytes) 0 storage.

Definition reservation_storage (layout : Layout) (r : WorkspaceReservation) : list (Z * Z) :=
  [(sizeof_Partition layout, schedule_partition_capacity r);
   (8, packet_work_unit_capacity r); (4, ordered_packet_capacity r);
   (4, packet_partition_capacity r); (4, ordered_packet_scratch_capacity r);
   (8, partition_load_capacity r); (4, partition_count_capacity r);
   (4, partition_offset_capacity r); (4, partition_write_offset_capacity r);
   (8, fold_slot_capacity r); (4, fold_slot_capacity r);
   (sizeof_FoldGraphNode layout, fold_graph_node_capacity r);
   (sizeof_FoldGraphEdge layout, fold_graph_edge_capacity r);
   (4, worker_stats_capacity r); (8, worker_stats_capacity r);
   (8, worker_stats_capacity r); (8, worker_stats_capacity r)].

Definition PlanWorkspaceRetention (layout : Layout) (reservation : WorkspaceReservation)
    : option WorkspaceRetentionPlan :=
  reservation ← NormalizeReservation reservation;
  let valid := add_all (reservation_storage layout reservation) in
  Some {|
    plan_reservation := reservation;
    plan_bytes := default U64_MAX valid;
    plan_ok := if valid then true else false;
    plan_reason := if valid then "pass" else "workspace_retention_overflow" |}.

Definition WorkspaceRetainedBytes (layout : Layout) (workspace : Workspace) : Z :=
  default U64_MAX (add_all
    [(sizeof_Partition layout, capacity (s_partitions (schedule workspace)));
     (8, capacity (ws_packet_work_units workspace));
     (4, capacity (ws_ordered_packet_indices workspace));
     (4, capacity (ws_packet_partition_indices workspace));
     (4, capacity (ws_ordered_packet_scratch workspace));
     (8, capacity (ws_partition_loads workspace));
     (4, capacity (ws_partition_counts workspace));
     (4, capacity (ws_partition_offsets workspace));
     (4, capacity (ws_partition_write_offsets workspace));
     (8, capacity (fold_slots workspace));
     (4, capacity (partition_fold_slots (fold_graph workspace)));
     (sizeof_FoldGraphNode layout, capacity (nodes (fold_graph workspace)));
     (sizeof_FoldGraphEdge layout, capacity (reduction_edges (fold_graph workspace)));
     (4, capacity (worker_stats_partitions_per_worker workspace));
     (8, capacity (worker_stats_start_offset_ns workspace));
     (8, capacity (worker_stats_elapsed_ns workspace));
     (8, capacity (worker_stats_tail_wait_ns workspace))]).

Definition set_partitions (s : Schedule) (v : vec Partition) : Schedule := {|
  s_packet_count := s_packet_count s; s_execution_width := s_execution_width s;
  s_intent := s_intent s; s_placement := s_placement s;
  s_alignment_packets := s_alignment_packets s;
  s_packets_per_partition_max := s_packets_per_partition_max s;
  s_worker_slot_count := s_worker_slot_count s; s_fold_slot_count := s_fold_slot_count s;
  s_useful_width := s_useful_width s; s_no_allocation := s_no_allocation s;
  s_partitions := v |}.

(** [false] with the workspace unchanged when the plan overflows. *)
Definition ReserveWorkspace (layout : Layout) (workspace : Workspace)
    (reservation : WorkspaceReservation) : option (bool * Workspace) :=
  planned ← PlanWorkspaceRetention layout reservation;
  if negb (plan_ok planned) then Some (false, workspace)
  else
    let normalized := plan_reservation planned in
    let graph := fold_graph workspace in
    let graph := set_slots graph
      (vreserve (partition_fold_slots graph) (fold_slot_capacity normalized)) in
    let graph := set_nodes graph
      (vreserve (nodes graph) (fold_graph_node_capacity normalized)) in
    let graph := set_edges graph
      (vreserve (reduction_edges graph) (fold_graph_edge_capacity normalized)) in
    Some (true, {|
      schedule := set_partitions (schedule workspace)
        (vreserve (s_partitions (schedule workspace)) (schedule_partition_capacity normalized));
      fold_slots := vreserve (fold_slots workspace) (fold_slot_capacity normalized);
      fold_graph := graph;
      program_generation := program_generation workspace;
      ws_packet_work_units :=
        vreserve (ws_packet_work_units workspace) (packet_work_unit_capacity normalized);
      ws_ordered_packet_indices :=
        vreserve (ws_ordered_packet_indices workspace) (ordered_packet_capacity normalized);
      ws_packet_partition_indices :=
        vreserve (ws_packet_partition_indices workspace) (packet_partition_capacity normalized);
      ws_ordered_packet_scratch :=
        vreserve (ws_ordered_packet_scratch workspace) (ordered_packet_scratch_capacity normalized);
      ws_partition_loads :=
        vreserve (ws_partition_loads workspace) (partition_load_capacity normalized);
      ws_partition_counts :=
        vreserve (ws_partition_counts workspace) (partition_count_capacity normalized);
      ws_partition_offsets :=
        vreserve (ws_partition_offsets workspace) (partition_offset_capacity normalized);
      ws_partition_write_offsets :=
        vreserve (ws_partition_write_offsets workspace) (partition_write_offset_capacity normalized);
      worker_stats_partitions_per_worker :=
        vreserve (worker_stats_partitions_per_worker workspace) (worker_stats_capacity normalized);
      worker_stats_start_offset_ns :=
        vreserve (worker_stats_start_offset_ns workspace) (worker_stats_capacity normalized);
      worker_stats_elapsed_ns :=
        vreserve (worker_stats_elapsed_ns workspace) (worker_stats_capacity normalized);
      worker_stats_tail_wait_ns :=
        vreserve (worker_stats_tail_wait_ns workspace) (worker_stats_capacity normalized);
      last_failure_reason := last_failure_reason workspace |}).

(** [std::min] of a non-empty initializer list. *)
Definition min_of (x : Z) (xs : list Z) : Z := foldl Z.min x xs.

Definition GetWorkspaceCapacity (workspace : Workspace) : WorkspaceCapacity :=
  let work := capacity (ws_packet_work_units workspace) in
  let ordered := capacity (ws_ordered_packet_indices workspace) in
  let indices := capacity (ws_packet_partition_indices workspace) in
  let scratch := capacity (ws_ordered_packet_scratch workspace) in
  {|
    schedule_partition_capacity := ScalarSatU32 (capacity (s_partitions (schedule workspace)));
    packet_capacity := ScalarSatU32 (min_of work [ordered; indices; scratch]);
    packet_work_unit_capacity := ScalarSatU32 work;
    ordered_packet_capacity := ScalarSatU32 ordered;
    packet_partition_capacity := ScalarSatU32 indices;
    ordered_packet_scratch_capacity := ScalarSatU32 scratch;
    partition_load_capacity := ScalarSatU32 (capacity (ws_partition_loads workspace));
    partition_count_capacity := ScalarSatU32 (capacity (ws_partition_counts workspace));
    partition_offset_capacity := ScalarSatU32 (capacity (ws_partition_offsets workspace));
    partition_write_offset_capacity :=
      ScalarSatU32 (capacity (ws_partition_write_offsets workspace));
    fold_slot_capacity := ScalarSatU32 (Z.min (capacity (fold_slots workspace))
      (capacity (partition_fold_slots (fold_graph workspace))));
    fold_graph_node_capacity := ScalarSatU32 (capacity (nodes (fold_graph workspace)));
    fold_graph_edge_capacity := ScalarSatU32 (capacity (reduction_edges (fold_graph workspace)));
    worker_stats_capacity := ScalarSatU32 (min_of
      (capacity (worker_stats_partitions_per_worker workspace))
      [capacity (worker_stats_start_offset_ns workspace);
       capacity (worker_stats_elapsed_ns workspace);
       capacity (worker_stats_tail_wait_ns workspace)]) |}.

Definition WorkspaceSatisfiesReservation (workspace : Workspace)
    (reservation : WorkspaceReservation) : option bool :=
  ReservationSatisfiedByCapacity (GetWorkspaceCapacity workspace) reservation.

(** ** [capacity/reservation.cpp] *)
Definition ScheduleWorkspaceReservation (request : ScheduleCompileRequest)
    : option WorkspaceReservation :=
  let projection := ProjectSchedule request in
  if negb (proj_ok projection) then Some EmptyReservation
  else
    let partition_capacity := proj_partition_count projection in
    let weighted := bool_decide (c_placement request = WeightedStable) in
    let needs_packet_scratch :=
      weighted ||
      (bool_decide (c_placement request = ContiguousBalanced) &&
       (zlen (c_packet_work_units request) =? 0) &&
       (zlen (c_packet_hints request) =? c_packet_count request)) in
    let packet_capacity_ := if needs_packet_scratch then c_packet_count request else 0 in
    let packets := if weighted then c_packet_count request else 0 in
    let partitions := if weighted then partition_capacity else 0 in
    slots ← FoldGraphFixedBinaryTreeScratchSlotCount (proj_fold_slot_count projection);
    node_count ← FoldGraphFixedBinaryTreeNodeCount (proj_fold_slot_count projection);
    edge_count ← FoldGraphFixedBinaryTreeEdgeCount (proj_fold_slot_count projection);
    NormalizeReservation {|
      schedule_partition_capacity := partition_capacity;
      packet_capacity := packet_capacity_;
      packet_work_unit_capacity := packet_capacity_;
      ordered_packet_capacity := packets;
      packet_partition_capacity := packets;
      ordered_packet_scratch_capacity := packets;
      partition_load_capacity := partitions;
      partition_count_capacity := partitions;
      partition_offset_capacity := partitions;
      partition_write_offset_capacity := partitions;
      fold_slot_capacity := slots;
      fold_graph_node_capacity := node_count;
      fold_graph_edge_capacity := edge_count;
      worker_stats_capacity := 0 |}.

Definition WorkspaceSatisfiesSchedule (workspace : Workspace) (request : ScheduleCompileRequest)
    : option bool :=
  if negb (proj_ok (ProjectSchedule request)) then Some false
  else
    reservation ← ScheduleWorkspaceReservation request;
    WorkspaceSatisfiesReservation workspace reservation.

(** ** [state.cpp] *)
Definition ResetWorkspace (workspace : Workspace) : Workspace := {|
  schedule := {|
    s_packet_count := 0; s_execution_width := 1; s_intent := StaticWidth;
    s_placement := Uniform; s_alignment_packets := 1; s_packets_per_partition_max := 0;
    s_worker_slot_count := 0; s_fold_slot_count := 0; s_useful_width := 0;
    s_no_allocation := false; s_partitions := vclear (s_partitions (schedule workspace)) |};
  fold_slots := ResetFoldSlots (fold_slots workspace);
  fold_graph := ResetFoldGraph (fold_graph workspace);
  program_generation := program_generation workspace;
  ws_packet_work_units := vclear (ws_packet_work_units workspace);
  ws_ordered_packet_indices := vclear (ws_ordered_packet_indices workspace);
  ws_packet_partition_indices := vclear (ws_packet_partition_indices workspace);
  ws_ordered_packet_scratch := vclear (ws_ordered_packet_scratch workspace);
  ws_partition_loads := vclear (ws_partition_loads workspace);
  ws_partition_counts := vclear (ws_partition_counts workspace);
  ws_partition_offsets := vclear (ws_partition_offsets workspace);
  ws_partition_write_offsets := vclear (ws_partition_write_offsets workspace);
  worker_stats_partitions_per_worker := vclear (worker_stats_partitions_per_worker workspace);
  worker_stats_start_offset_ns := vclear (worker_stats_start_offset_ns workspace);
  worker_stats_elapsed_ns := vclear (worker_stats_elapsed_ns workspace);
  worker_stats_tail_wait_ns := vclear (worker_stats_tail_wait_ns workspace);
  last_failure_reason := "not_run" |}.

Definition set_work_units (workspace : Workspace) (v : vec Z) : Workspace := {|
  schedule := schedule workspace; fold_slots := fold_slots workspace;
  fold_graph := fold_graph workspace; program_generation := program_generation workspace;
  ws_packet_work_units := v;
  ws_ordered_packet_indices := ws_ordered_packet_indices workspace;
  ws_packet_partition_indices := ws_packet_partition_indices workspace;
  ws_ordered_packet_scratch := ws_ordered_packet_scratch workspace;
  ws_partition_loads := ws_partition_loads workspace;
  ws_partition_counts := ws_partition_counts workspace;
  ws_partition_offsets := ws_partition_offsets workspace;
  ws_partition_write_offsets := ws_partition_write_offsets workspace;
  worker_stats_partitions_per_worker := worker_stats_partitions_per_worker workspace;
  worker_stats_start_offset_ns := worker_stats_start_offset_ns workspace;
  worker_stats_elapsed_ns := worker_stats_elapsed_ns workspace;
  worker_stats_tail_wait_ns := worker_stats_tail_wait_ns workspace;
  last_failure_reason := last_failure_reason workspace |}.

Definition ClearPacketWorkUnits (workspace : Workspace) : Workspace :=
  set_work_units workspace (vclear (ws_packet_work_units workspace)).
Definition ReservePacketWorkUnits (workspace : Workspace) (packet_capacity : Z) : Workspace :=
  set_work_units workspace (vreserve (ws_packet_work_units workspace) packet_capacity).
Definition AppendPacketWorkUnit (workspace : Workspace) (work_units : Z) : Workspace :=
  set_work_units workspace (vpush (ws_packet_work_units workspace) work_units).

(** [ViewSchedule(workspace)]: the packet order is published when it is complete. *)
Definition ViewWorkspaceSchedule (workspace : Workspace) : ScheduleView :=
  let view := ViewSchedule (schedule workspace) in
  if vsize (ws_ordered_packet_indices workspace) =? sv_packet_count view then {|
    sv_packet_count := sv_packet_count view; sv_execution_width := sv_execution_width view;
    sv_intent := sv_intent view; sv_placement := sv_placement view;
    sv_alignment_packets := sv_alignment_packets view;
    sv_packets_per_partition_max := sv_packets_per_partition_max view;
    sv_worker_slot_count := sv_worker_slot_count view;
    sv_fold_slot_count := sv_fold_slot_count view; sv_useful_width := sv_useful_width view;
    sv_no_allocation := sv_no_allocation view; sv_partitions := sv_partitions view;
    sv_partition_count := sv_partition_count view;
    sv_ordered_packet_indices := Some (items (ws_ordered_packet_indices workspace));
    sv_ordered_packet_count := wrap32 (vsize (ws_ordered_packet_indices workspace)) |}
  else view.
