(* ===== verification/WorkspaceFacts.v ===== *)
(** * WorkspaceFacts: a reservation is honoured, stays honoured, and is paid once

    Byte accounting of a reservation, what [ReserveWorkspace] guarantees, and that
    resetting a reserved workspace keeps the reservation. *)
From stdpp Require Import base numbers list option strings.
From Stdlib Require Import ZArith Lia.
From S2P Require Import Prelude Checked Scalar Planner Capacity Schedule FoldModel.
From S2P Require Import FoldGraph FoldTree FoldReduce Workspace.
Import Sat.

(** ** Byte accounting *)
Definition storage_sum (storage : list (Z * Z)) : Z :=
  foldr Z.add 0 (map (fun '(size, capacity) => capacity * size) storage).

Definition storage_ok (e : Z * Z) : Prop := is_u64 e.1 /\ is_u64 e.2.

Lemma storage_sum_nonneg storage : Forall storage_ok storage -> 0 <= storage_sum storage.
Proof.
  intros H. apply foldr_add_nonneg, Forall_map. eapply Forall_impl; [exact H|].
  intros [s c] [Hs Hc]. cbn in *. unfold is_u64 in *. nia.
Qed.

Lemma AddStorageBytes_spec size capacity bytes :
  is_u64 size -> is_u64 capacity -> is_u64 bytes ->
  AddStorageBytes size capacity bytes =
  if bytes + capacity * size <=? U64_MAX then Some (bytes + capacity * size) else None.
Proof.
  intros Hs Hc Hb. unfold AddStorageBytes.
  destruct (Checked.mul capacity size) as [extent|] eqn:E.
  - apply (Checked.mul_spec Hc Hs) in E as [-> He]. cbn [mbind option_bind].
    destruct (Checked.add bytes (capacity * size)) as [v|] eqn:Ea.
    + apply (Checked.add_spec Hb He) in Ea as [-> Hv]. unfold is_u64 in Hv.
      by rewrite (proj2 (Z.leb_le _ _)) by lia.
    + apply Checked.add_None in Ea; [|done|done]. by rewrite (proj2 (Z.leb_gt _ _)) by lia.
  - apply Checked.mul_None in E; [|done|done]. unfold is_u64 in *.
    by rewrite (proj2 (Z.leb_gt _ _)) by lia.
Qed.

Lemma add_all_spec storage :
  Forall storage_ok storage ->
  add_all storage = if storage_sum storage <=? U64_MAX then Some (storage_sum storage) else None.
Proof.
  intros H. unfold add_all.
  assert (forall b, is_u64 b ->
    for_each (fun bytes '(size, capacity) => AddStorageBytes size capacity bytes) b storage =
    if b + storage_sum storage <=? U64_MAX then Some (b + storage_sum storage) else None) as G.
  { induction H as [|[s c] l [Hs Hc] Hl IH]; intros b Hb; cbn [for_each].
    - unfold storage_sum. cbn. rewrite Z.add_0_r. unfold is_u64 in Hb.
      by rewrite (proj2 (Z.leb_le _ _)) by lia.
    - cbn in Hs, Hc. rewrite AddStorageBytes_spec by done.
      pose proof (storage_sum_nonneg l Hl) as Hl0.
      assert (storage_sum ((s, c) :: l) = c * s + storage_sum l) as -> by done.
      unfold is_u64 in *. destruct (Z.leb_spec (b + c * s) U64_MAX); cbn [mbind option_bind].
      + rewrite IH by nia. by rewrite <- Z.add_assoc.
      + by rewrite (proj2 (Z.leb_gt _ _)) by lia. }
  rewrite G by (unfold is_u64; lia). done.
Qed.

(** ** Normalised reservations *)
Definition reservation_typed (r : WorkspaceReservation) : Prop :=
  is_u32 (packet_capacity r) /\ Forall is_u32 (compared r).

Lemma NodeCount_total pc : is_u32 pc ->
  exists k, FoldGraphFixedBinaryTreeNodeCount pc = Some k /\ is_u32 k.
Proof.
  intros Hp. unfold FoldGraphFixedBinaryTreeNodeCount.
  destruct (_ || _); [exists 0; split; [done | unfold is_u32; lia]|].
  destruct (FixedBinaryTreeEdgeCount_total pc Hp) as [e ->]. cbn.
  destruct (_ >? _); eexists; (split; [done|]); [unfold is_u32; lia | apply wrap32_range].
Qed.

Lemma EdgeCount_total pc : is_u32 pc ->
  exists k, FoldGraphFixedBinaryTreeEdgeCount pc = Some k /\ is_u32 k.
Proof.
  intros Hp. destruct (FixedBinaryTreeEdgeCount_total pc Hp) as [e E].
  exists e. split; [exact E|]. unfold FixedBinaryTreeEdgeCount in E.
  destruct (while tree_fuel _ _ _) as [[a k]|] eqn:Ew; [|done]. injection E as <-. cbn.
  eapply (while_inv (fun s => is_u32 s.2)) in Ew; [exact Ew | | done].
  intros [x y] _. apply wrap32_range.
Qed.

Lemma NormalizeReservation_spec r :
  reservation_typed r ->
  exists r', NormalizeReservation r = Some r' /\ reservation_typed r' /\
    Forall2 Z.le (compared r) (compared r') /\ packet_capacity r' = packet_capacity r /\
    NormalizeReservation r' = Some r'.
Proof.
  intros [Hp Hr]. unfold compared in Hr. rewrite !list.Forall_cons in Hr.
  destruct Hr as (H1 & H2 & H3 & H4 & H5 & H6 & H7 & H8 & H9 & H10 & H11 & H12 & H13 & _).
  destruct (NodeCount_total _ H1) as (nc & En & Hnc), (EdgeCount_total _ H1) as (ec & Ee & Hec).
  unfold NormalizeReservation. rewrite En, Ee. cbn [mbind option_bind]. eexists. split; [done|].
  unfold is_u32 in *. split; [|split; [|split]].
  - split; cbn; [done|]. unfold compared. cbn. rewrite !list.Forall_cons. unfold is_u32.
    split_and!; try lia. constructor.
  - unfold compared. cbn. rewrite !Forall2_cons. split_and!; try lia. constructor.
  - done.
  - cbn. rewrite En, Ee. cbn. do 2 f_equal; lia.
Qed.

(** ** Reservation *)
Lemma ScalarSatU32_ge c v : is_u32 c -> c <= v -> c <= ScalarSatU32 v.
Proof.
  unfold is_u32, ScalarSatU32. intros. if_cases; [lia|]. rewrite wrap32_small by (unfold is_u32; lia). done.
Qed.

Record layout_ok (layout : Layout) : Prop := {
  lo_partition : is_u64 (sizeof_Partition layout);
  lo_node : is_u64 (sizeof_FoldGraphNode layout);
  lo_edge : is_u64 (sizeof_FoldGraphEdge layout);
}.

Lemma reservation_storage_ok layout r :
  layout_ok layout -> reservation_typed r -> Forall storage_ok (reservation_storage layout r).
Proof.
  intros [L1 L2 L3] [_ Hr]. unfold compared in Hr. rewrite !list.Forall_cons in Hr.
  destruct Hr as (H1 & H2 & H3 & H4 & H5 & H6 & H7 & H8 & H9 & H10 & H11 & H12 & H13 & _).
  unfold reservation_storage, storage_ok, is_u32, is_u64 in *. rewrite !list.Forall_cons. cbn.
  split_and!; try lia. constructor.
Qed.

(** Every vector of a workspace, with its contents forgotten. *)
Definition all_capacities (w : Workspace) : list Z :=
  [capacity (s_partitions (schedule w)); capacity (ws_packet_work_units w);
   capacity (ws_ordered_packet_indices w); capacity (ws_packet_partition_indices w);
   capacity (ws_ordered_packet_scratch w); capacity (ws_partition_loads w);
   capacity (ws_partition_counts w); capacity (ws_partition_offsets w);
   capacity (ws_partition_write_offsets w); capacity (fold_slots w);
   capacity (partition_fold_slots (fold_graph w)); capacity (nodes (fold_graph w));
   capacity (reduction_edges (fold_graph w)); capacity (worker_stats_partitions_per_worker w);
   capacity (worker_stats_start_offset_ns w); capacity (worker_stats_elapsed_ns w);
   capacity (worker_stats_tail_wait_ns w)].

(** The capacities a normalised reservation asks for, in the same order. *)
Definition required_capacities (r : WorkspaceReservation) : list Z :=
  [schedule_partition_capacity r; packet_work_unit_capacity r; ordered_packet_capacity r;
   packet_partition_capacity r; ordered_packet_scratch_capacity r; partition_load_capacity r;
   partition_count_capacity r; partition_offset_capacity r; partition_write_offset_capacity r;
   fold_slot_capacity r; fold_slot_capacity r; fold_graph_node_capacity r;
   fold_graph_edge_capacity r; worker_stats_capacity r; worker_stats_capacity r;
   worker_stats_capacity r; worker_stats_capacity r].

(** A workspace that has the required capacities satisfies the reservation. *)
Lemma enough_satisfies w r r' :
  NormalizeReservation r = Some r' -> reservation_typed r' ->
  Forall2 Z.le (required_capacities r') (all_capacities w) ->
  WorkspaceSatisfiesReservation w r = Some true.
Proof.
  intros En [_ Hr] Hle. unfold WorkspaceSatisfiesReservation, ReservationSatisfiedByCapacity.
  rewrite En. cbn [mbind option_bind]. f_equal.
  unfold compared in Hr. rewrite !list.Forall_cons in Hr.
  destruct Hr as (H1 & H2 & H3 & H4 & H5 & H6 & H7 & H8 & H9 & H10 & H11 & H12 & H13 & _).
  unfold required_capacities, all_capacities in Hle. rewrite !Forall2_cons in Hle.
  destruct Hle as (L1 & L2 & L3 & L4 & L5 & L6 & L7 & L8 & L9 & L10 & L11 & L12 & L13 & L14 & L15 & L16 & L17 & _).
  unfold compared, GetWorkspaceCapacity, min_of. cbn. rewrite !Z.geb_leb.
  rewrite !(proj2 (Z.leb_le _ _)) by (apply ScalarSatU32_ge; [done | lia]). done.
Qed.

(** Reserving a workspace that already has the capacities leaves it as it is. *)
Lemma vreserve_id {A} (v : vec A) k : k <= capacity v -> vreserve v k = v.
Proof. intros. destruct v. unfold vreserve. cbn in *. by rewrite Z.max_l by done. Qed.

Lemma reserve_again layout w r r' :
  NormalizeReservation r = Some r' -> storage_sum (reservation_storage layout r') <= U64_MAX ->
  layout_ok layout -> reservation_typed r' ->
  Forall2 Z.le (required_capacities r') (all_capacities w) ->
  ReserveWorkspace layout w r = Some (true, w).
Proof.
  intros En Hsum Hl Ht Hle. unfold ReserveWorkspace, PlanWorkspaceRetention. rewrite En.
  cbn [mbind option_bind]. rewrite add_all_spec by (by apply reservation_storage_ok).
  rewrite (proj2 (Z.leb_le _ _)) by done. cbn [plan_ok negb plan_reservation].
  unfold required_capacities, all_capacities in Hle. rewrite !Forall2_cons in Hle.
  destruct Hle as (L1 & L2 & L3 & L4 & L5 & L6 & L7 & L8 & L9 & L10 & L11 & L12 & L13 & L14 & L15 & L16 & L17 & _).
  destruct w as [sched fs graph pg v1 v2 v3 v4 v5 v6 v7 v8 v9 v10 v11 v12 reason]. cbn in *.
  destruct graph, sched. cbn in *. unfold set_partitions, set_edges, set_nodes, set_slots. cbn.
  rewrite !vreserve_id by done. done.
Qed.

(** The contents of every vector. *)
Definition contents (w : Workspace) :=
  (items (s_partitions (schedule w)), items (fold_slots w), items (partition_fold_slots (fold_graph w)),
   items (nodes (fold_graph w)), items (reduction_edges (fold_graph w)),
   [items (ws_packet_work_units w); items (ws_ordered_packet_indices w);
    items (ws_packet_partition_indices w); items (ws_ordered_packet_scratch w);
    items (ws_partition_loads w); items (ws_partition_counts w); items (ws_partition_offsets w);
    items (ws_partition_write_offsets w); items (worker_stats_partitions_per_worker w);
    items (worker_stats_start_offset_ns w); items (worker_stats_elapsed_ns w);
    items (worker_stats_tail_wait_ns w)]).

Lemma ReserveWorkspace_cases layout w r :
  layout_ok layout -> reservation_typed r ->
  exists r', NormalizeReservation r = Some r' /\ reservation_typed r' /\
    let fits := storage_sum (reservation_storage layout r') <=? U64_MAX in
    exists w', ReserveWorkspace layout w r = Some (fits, w') /\
      (fits = false -> w' = w) /\
      (fits = true -> Forall2 Z.le (required_capacities r') (all_capacities w') /\
         Forall2 Z.le (all_capacities w) (all_capacities w') /\ contents w' = contents w).
Proof.
  intros Hl Hr. destruct (NormalizeReservation_spec r Hr) as (r' & En & Ht & _ & _ & _).
  exists r'. split; [done|]. split; [done|]. cbv zeta. unfold ReserveWorkspace, PlanWorkspaceRetention.
  rewrite En. cbn [mbind option_bind]. rewrite add_all_spec by (by apply reservation_storage_ok).
  destruct (_ <=? _); cbn [plan_ok negb plan_reservation].
  - eexists. split; [done|]. split; [done|]. intros _. split; [|split].
    + unfold required_capacities, all_capacities. cbn. rewrite !Forall2_cons.
      split_and!; try lia. constructor.
    + unfold all_capacities. cbn. rewrite !Forall2_cons. split_and!; try lia. constructor.
    + done.
  - exists w. by split.
Qed.

(** C33: Reserving returns for every reservation. It fails, leaving the workspace
    unchanged, exactly when the bytes of the normalised reservation overflow 64
    bits; otherwise the workspace satisfies the reservation, no vector shrinks and
    no contents change. *)
Theorem ReserveWorkspace_spec layout w r :
  layout_ok layout -> reservation_typed r ->
  exists r' ok w', NormalizeReservation r = Some r' /\ ReserveWorkspace layout w r = Some (ok, w') /\
    (ok = true <-> storage_sum (reservation_storage layout r') <= U64_MAX) /\
    (ok = true -> WorkspaceSatisfiesReservation w' r = Some true /\
       Forall2 Z.le (all_capacities w) (all_capacities w') /\ contents w' = contents w) /\
    (ok = false -> w' = w).
Proof.
  intros Hl Hr. destruct (ReserveWorkspace_cases layout w r Hl Hr) as (r' & En & Ht & w' & E & Hf & Hk).
  exists r', (storage_sum (reservation_storage layout r') <=? U64_MAX), w'.
  split; [done|]. split; [done|]. split; [apply Z.leb_le|]. split; [|done].
  intros Hfit. destruct (Hk Hfit) as (Hreq & Hgrow & Hc). split; [by eapply enough_satisfies | done].
Qed.

(** A reservation is paid once: after a successful reservation the workspace can
    be reset, and reserving it again for the same reservation changes nothing, so
    the warm path does not allocate. *)
Theorem ReserveWorkspace_warm layout w r w' :
  layout_ok layout -> reservation_typed r -> ReserveWorkspace layout w r = Some (true, w') ->
  ReserveWorkspace layout (ResetWorkspace w') r = Some (true, ResetWorkspace w') /\
  WorkspaceSatisfiesReservation (ResetWorkspace w') r = Some true /\
  all_capacities (ResetWorkspace w') = all_capacities w'.
Proof.
  intros Hl Hr E. destruct (ReserveWorkspace_cases layout w r Hl Hr) as (r' & En & Ht & w1 & E' & _ & Hk).
  rewrite E in E'. injection E' as Hfit <-. destruct (Hk (eq_sym Hfit)) as (Hreq & _ & _).
  symmetry in Hfit. apply Z.leb_le in Hfit.
  split; [by eapply reserve_again|]. split; [by eapply enough_satisfies | done].
Qed.

(** The retained bytes are the exact sum over all vectors of capacity times
    element size, or the largest 64-bit value when that sum does not fit. *)
Theorem WorkspaceRetainedBytes_exact layout w :
  layout_ok layout -> Forall is_u64 (all_capacities w) ->
  WorkspaceRetainedBytes layout w =
  Z.min U64_MAX (foldr Z.add 0 (zip_with Z.mul (all_capacities w)
    [sizeof_Partition layout; 8; 4; 4; 4; 8; 4; 4; 4; 8; 4; sizeof_FoldGraphNode layout;
     sizeof_FoldGraphEdge layout; 4; 8; 8; 8])).
Proof.
  intros [L1 L2 L3] Hc. unfold WorkspaceRetainedBytes, all_capacities in *. rewrite !list.Forall_cons in Hc.
  destruct Hc as (C1 & C2 & C3 & C4 & C5 & C6 & C7 & C8 & C9 & C10 & C11 & C12 & C13 & C14 & C15 & C16 & C17 & _).
  rewrite add_all_spec.
  - match goal with |- context [storage_sum ?l] => set (s := storage_sum l) end.
    change (default U64_MAX (if s <=? U64_MAX then Some s else None) = Z.min U64_MAX s).
    destruct (Z.leb_spec s U64_MAX); [rewrite Z.min_r by lia | rewrite Z.min_l by lia]; done.
  - rewrite !list.Forall_cons. unfold storage_ok, is_u64 in *. cbn. split_and!; try lia. constructor.
Qed.

(** ** Witnesses *)
Definition example_layout : Layout :=
  {| sizeof_Partition := 32; sizeof_FoldGraphNode := 64; sizeof_FoldGraphEdge := 32 |}.

Definition EmptySchedule : Schedule := {|
  s_packet_count := 0; s_execution_width := 1; s_intent := StaticWidth; s_placement := Uniform;
  s_alignment_packets := 1; s_packets_per_partition_max := 0; s_worker_slot_count := 0;
  s_fold_slot_count := 0; s_useful_width := 0; s_no_allocation := false; s_partitions := vempty |}.

Definition EmptyWorkspace : Workspace := {|
  schedule := EmptySchedule; fold_slots := vempty; fold_graph := EmptyFoldGraph;
  program_generation := 0; ws_packet_work_units := vempty; ws_ordered_packet_indices := vempty;
  ws_packet_partition_indices := vempty; ws_ordered_packet_scratch := vempty;
  ws_partition_loads := vempty; ws_partition_counts := vempty; ws_partition_offsets := vempty;
  ws_partition_write_offsets := vempty; worker_stats_partitions_per_worker := vempty;
  worker_stats_start_offset_ns := vempty; worker_stats_elapsed_ns := vempty;
  worker_stats_tail_wait_ns := vempty; last_failure_reason := "not_run" |}.

Definition example_reservation : WorkspaceReservation := {|
  schedule_partition_capacity := 3; packet_capacity := 5; packet_work_unit_capacity := 0;
  ordered_packet_capacity := 0; packet_partition_capacity := 0;
  ordered_packet_scratch_capacity := 0; partition_load_capacity := 0;
  partition_count_capacity := 0; partition_offset_capacity := 0;
  partition_write_offset_capacity := 0; fold_slot_capacity := 0;
  fold_graph_node_capacity := 0; fold_graph_edge_capacity := 0; worker_stats_capacity := 2 |}.

Lemma example_layout_ok : layout_ok example_layout.
Proof. constructor; cbn; unfold is_u64; lia. Qed.
Lemma example_reservation_typed : reservation_typed example_reservation.
Proof.
  split; cbn; [unfold is_u32; lia|]. unfold compared. cbn. rewrite !list.Forall_cons. unfold is_u32.
  split_and!; try lia. constructor.
Qed.

Lemma ReserveWorkspace_spec_witness :
  layout_ok example_layout /\ reservation_typed example_reservation /\
  exists r' ok w', NormalizeReservation example_reservation = Some r' /\
    ReserveWorkspace example_layout EmptyWorkspace example_reservation = Some (ok, w') /\
    (ok = true <-> storage_sum (reservation_storage example_layout r') <= U64_MAX) /\
    (ok = true -> WorkspaceSatisfiesReservation w' example_reservation = Some true /\
       Forall2 Z.le (all_capacities EmptyWorkspace) (all_capacities w') /\
       contents w' = contents EmptyWorkspace) /\
    (ok = false -> w' = EmptyWorkspace).
Proof.
  split; [exact example_layout_ok|]. split; [exact example_reservation_typed|].
  exact (ReserveWorkspace_spec example_layout EmptyWorkspace example_reservation
           example_layout_ok example_reservation_typed).
Defined.

Lemma ReserveWorkspace_warm_witness :
  exists w', ReserveWorkspace example_layout EmptyWorkspace example_reservation = Some (true, w') /\
    (ReserveWorkspace example_layout (ResetWorkspace w') example_reservation =
       Some (true, ResetWorkspace w') /\
     WorkspaceSatisfiesReservation (ResetWorkspace w') example_reservation = Some true /\
     all_capacities (ResetWorkspace w') = all_capacities w').
Proof.
  eexists. split; [vm_compute; reflexivity|].
  apply (ReserveWorkspace_warm example_layout EmptyWorkspace example_reservation);
    [exact example_layout_ok | exact example_reservation_typed | vm_compute; reflexivity].
Defined.

Lemma WorkspaceRetainedBytes_exact_witness :
  layout_ok example_layout /\ Forall is_u64 (all_capacities EmptyWorkspace) /\
  WorkspaceRetainedBytes example_layout EmptyWorkspace =
  Z.min U64_MAX (foldr Z.add 0 (zip_with Z.mul (all_capacities EmptyWorkspace)
    [sizeof_Partition example_layout; 8; 4; 4; 4; 8; 4; 4; 4; 8; 4;
     sizeof_FoldGraphNode example_layout; sizeof_FoldGraphEdge example_layout; 4; 8; 8; 8])).
Proof.
  assert (Forall is_u64 (all_capacities EmptyWorkspace)).
  { unfold all_capacities. cbn. rewrite !list.Forall_cons. unfold is_u64. split_and!; try lia. constructor. }
  split; [exact example_layout_ok|]. split; [done|].
  apply WorkspaceRetainedBytes_exact; [exact example_layout_ok | done].
Defined.
