(* ===== verification/WeightedSchedule.v ===== *)
(** * WeightedSchedule: compiling a weighted schedule in a workspace

    [schedule/workspace/weighted.cpp], [weighted/*.cpp], [workspace/packet.cpp],
    [workspace/compile.cpp] and [workspace/compile/*.cpp]: the source of the work
    units and its aliasing rules, the buffers, the packet order, the assignment, the
    grouping of the packets by partition and the published schedule. Telemetry
    ([RecordCompileOutcome]) only reads the outcome and is not modelled. *)
From stdpp Require Import base numbers list option strings.
From Stdlib Require Import ZArith Lia.
From S2P Require Import Prelude Checked Scalar Planner Capacity Schedule.
From S2P Require Import WeightedOrder WeightedAssign FoldModel FoldGraph FoldReduce Workspace.

(** ** Packets ([workspace/packet.cpp]) *)
Definition PacketHintsValid (request : ScheduleCompileRequest) : bool :=
  (zlen (c_packet_hints request) =? 0) ||
  (zlen (c_packet_hints request) =? c_packet_count request).

Definition HasWorkUnits (request : ScheduleCompileRequest) : bool :=
  (zlen (c_packet_work_units request) =? c_packet_count request) ||
  (zlen (c_packet_hints request) =? c_packet_count request).

Definition PacketWorkUnitsAt (request : ScheduleCompileRequest) (packet : Z) : option Z :=
  if zlen (c_packet_work_units request) =? c_packet_count request then
    work ← zget (c_packet_work_units request) packet; Some (NormalizeWorkUnits work)
  else if zlen (c_packet_hints request) =? c_packet_count request then
    hint ← zget (c_packet_hints request) packet;
    Some (NormalizeWorkUnits (hint_work_units hint))
  else Some 1.

(** ** The source of the work units ([weighted/source.cpp])

    The request's work units may be a span of the workspace's own storage, so the
    source compares addresses; they are arguments here ([0] is [nullptr]). *)
Record Addresses := {
  at_work_units : Z;
  at_packet_work_units : Z;
  at_partition_loads : Z;
  at_fold_slots : Z;
}.

Inductive WeightedWorkSourceKind := Invalid | Hints | ExternalWorkUnits | WorkspacePacketWorkUnits.
#[export] Instance WeightedWorkSourceKind_eq_dec : EqDecision WeightedWorkSourceKind.
Proof. solve_decision. Defined.

Record WeightedWorkSourcePlan := { source_kind : WeightedWorkSourceKind; source_reason : string }.

Definition InvalidSource : WeightedWorkSourcePlan :=
  {| source_kind := Invalid; source_reason := "invalid_packet_work_units" |}.

(** Spans of [u64], eight bytes an element. *)
Definition Overlaps (lhs_begin lhs_size rhs_begin rhs_size : Z) : bool :=
  if (lhs_begin =? 0) || (rhs_begin =? 0) || (lhs_size =? 0) || (rhs_size =? 0) then false
  else (lhs_begin <? rhs_begin + 8 * rhs_size) && (rhs_begin <? lhs_begin + 8 * lhs_size).

Definition ClassifyWeightedWorkSource (addr : Addresses) (workspace : Workspace)
    (request : ScheduleCompileRequest) : WeightedWorkSourcePlan :=
  let pass kind := {| source_kind := kind; source_reason := "pass" |} in
  let size := zlen (c_packet_work_units request) in
  let exact_work_units := size =? c_packet_count request in
  let exact_hints := zlen (c_packet_hints request) =? c_packet_count request in
  let overlaps data v := Overlaps (at_work_units addr) size data (capacity (v : vec Z)) in
  let rest :=
    if exact_work_units then pass ExternalWorkUnits
    else if exact_hints then pass Hints
    else InvalidSource in
  if c_packet_count request =? 0 then pass Hints
  else if negb (size =? 0) && (size >? c_packet_count request) then InvalidSource
  else if negb (size =? 0) then
    let aliases_packet_work_units :=
      overlaps (at_packet_work_units addr) (ws_packet_work_units workspace) in
    let aliases_partition_loads :=
      overlaps (at_partition_loads addr) (ws_partition_loads workspace) in
    let aliases_fold_slots := overlaps (at_fold_slots addr) (fold_slots workspace) in
    if aliases_partition_loads || aliases_fold_slots then InvalidSource
    else if aliases_packet_work_units then
      if exact_work_units && (at_work_units addr =? at_packet_work_units addr) &&
         (vsize (ws_packet_work_units workspace) =? c_packet_count request)
      then pass WorkspacePacketWorkUnits
      else InvalidSource
    else rest
  else rest.

Definition with_items {A} (v : vec A) (l : list A) : vec A := Vec l (capacity v).

(** Work units of every packet, normalised, stored in the workspace. *)
Definition MaterializeWeightedWorkUnits (workspace : Workspace)
    (request : ScheduleCompileRequest) (plan : WeightedWorkSourcePlan)
    : option (bool * Workspace) :=
  let units := ws_packet_work_units workspace in
  if negb (vsize units =? c_packet_count request) then Some (false, workspace)
  else
    let store (value : list Z -> Z -> option Z) :=
      l ← for_each (fun l packet => work ← value l packet; zset l packet work)
            (items units) (range 0 (c_packet_count request));
      Some (true, set_work_units workspace (with_items units l)) in
    match source_kind plan with
    | Hints =>
        store (fun _ packet =>
          if zlen (c_packet_hints request) =? 0 then Some 1
          else hint ← zget (c_packet_hints request) packet;
               Some (NormalizeWorkUnits (hint_work_units hint)))
    | ExternalWorkUnits =>
        store (fun _ packet =>
          work ← zget (c_packet_work_units request) packet; Some (NormalizeWorkUnits work))
    | WorkspacePacketWorkUnits =>
        store (fun l packet => work ← zget l packet; Some (NormalizeWorkUnits work))
    | Invalid => Some (false, workspace)
    end.

Definition ViewResolvedWeightedWorkUnits (workspace : Workspace) (packet_count : Z) : list Z :=
  if negb (vsize (ws_packet_work_units workspace) =? packet_count) then []
  else items (ws_packet_work_units workspace).

(** ** Buffers and results ([weighted/{capacity,buffers,state}.cpp]) *)
Definition HasWeightedNoGrowthCapacity (workspace : Workspace) (projection : PartitionProjection)
    : bool :=
  let packet_count := proj_packet_count projection in
  let partition_count := proj_partition_count projection in
  (capacity (s_partitions (schedule workspace)) >=? partition_count) &&
  (capacity (ws_packet_work_units workspace) >=? packet_count) &&
  (capacity (ws_ordered_packet_indices workspace) >=? packet_count) &&
  (capacity (ws_packet_partition_indices workspace) >=? packet_count) &&
  (capacity (ws_ordered_packet_scratch workspace) >=? packet_count) &&
  (capacity (ws_partition_loads workspace) >=? partition_count) &&
  (capacity (ws_partition_counts workspace) >=? partition_count) &&
  (capacity (ws_partition_offsets workspace) >=? partition_count) &&
  (capacity (ws_partition_write_offsets workspace) >=? partition_count).

(** Replaces the schedule, the index vectors and the failure reason. *)
Definition set_vectors (workspace : Workspace) (sched : Schedule)
    (work ordered indices scratch loads counts offsets write_offsets : vec Z) : Workspace := {|
  schedule := sched; fold_slots := fold_slots workspace; fold_graph := fold_graph workspace;
  program_generation := program_generation workspace;
  ws_packet_work_units := work; ws_ordered_packet_indices := ordered;
  ws_packet_partition_indices := indices; ws_ordered_packet_scratch := scratch;
  ws_partition_loads := loads; ws_partition_counts := counts;
  ws_partition_offsets := offsets; ws_partition_write_offsets := write_offsets;
  worker_stats_partitions_per_worker := worker_stats_partitions_per_worker workspace;
  worker_stats_start_offset_ns := worker_stats_start_offset_ns workspace;
  worker_stats_elapsed_ns := worker_stats_elapsed_ns workspace;
  worker_stats_tail_wait_ns := worker_stats_tail_wait_ns workspace;
  last_failure_reason := last_failure_reason workspace |}.

Definition set_reason (workspace : Workspace) (reason : string) : Workspace := {|
  schedule := schedule workspace; fold_slots := fold_slots workspace;
  fold_graph := fold_graph workspace; program_generation := program_generation workspace;
  ws_packet_work_units := ws_packet_work_units workspace;
  ws_ordered_packet_indices := ws_ordered_packet_indices workspace;
  ws_packet_partition_indices := ws_packet_partition_indices workspace;
  ws_ordered_packet_scratch := ws_ordered_packet_scratch workspace;
  ws_partition_loads := ws_partition_loads workspace;
  ws_partition_counts := ws_partition_counts workspace;
  ws_partition_offsets := ws_partition_offsets workspace;
  ws_partition_write_offsets := ws_partition_write_offsets workspace;
  worker_stats_partitions_per_worker := worker_stats_partitions_per_worker workspace;
  worker_stats_start_offset_ns := worker_stats_start_offset_ns workspace;
  worker_stats_elapsed_ns := worker_stats_elapsed_ns workspace;
  worker_stats_tail_wait_ns := worker_stats_tail_wait_ns workspace;
  last_failure_reason := reason |}.

Definition set_schedule (workspace : Workspace) (sched : Schedule) : Workspace :=
  set_vectors workspace sched (ws_packet_work_units workspace)
    (ws_ordered_packet_indices workspace) (ws_packet_partition_indices workspace)
    (ws_ordered_packet_scratch workspace) (ws_partition_loads workspace)
    (ws_partition_counts workspace) (ws_partition_offsets workspace)
    (ws_partition_write_offsets workspace).

Definition FailWeightedNoGrowthSchedule (workspace : Workspace) (projection : PartitionProjection)
    (reason : string) : PartitionBuild * Workspace :=
  ({| pb_ok := false; pb_reason := reason;
      pb_partition_count := proj_partition_count projection;
      pb_alignment_packets := proj_alignment_packets projection;
      pb_packets_per_partition_max := 0;
      pb_worker_slot_count := proj_worker_slot_count projection;
      pb_fold_slot_count := proj_fold_slot_count projection;
      pb_useful_width := proj_useful_width projection;
      pb_placement := proj_placement projection; pb_no_allocation := true |},
   set_reason workspace reason).

Definition PrepareWeightedNoGrowthBuffers (workspace : Workspace)
    (request : ScheduleCompileRequest) (projection : PartitionProjection) : Workspace :=
  let packet_count := c_packet_count request in
  let partition_count := proj_partition_count projection in
  set_vectors workspace
    (set_partitions (schedule workspace) (vclear (s_partitions (schedule workspace))))
    (vresize (ws_packet_work_units workspace) packet_count 0)
    (vresize (ws_ordered_packet_indices workspace) packet_count 0)
    (vresize (ws_packet_partition_indices workspace) packet_count 0)
    (vresize (ws_ordered_packet_scratch workspace) packet_count 0)
    (vresize (ws_partition_loads workspace) partition_count 0)
    (vresize (ws_partition_counts workspace) partition_count 0)
    (vresize (ws_partition_offsets workspace) partition_count 0)
    (vresize (ws_partition_write_offsets workspace) partition_count 0).

Definition StoreWeightedNoGrowthScheduleState (workspace : Workspace)
    (request : ScheduleCompileRequest) (projection : PartitionProjection) (max_packets : Z)
    : Workspace :=
  set_schedule workspace {|
    s_packet_count := c_packet_count request; s_execution_width := c_execution_width request;
    s_intent := c_intent request; s_placement := c_placement request;
    s_alignment_packets := 1; s_packets_per_partition_max := max_packets;
    s_worker_slot_count := proj_worker_slot_count projection;
    s_fold_slot_count := proj_fold_slot_count projection;
    s_useful_width := proj_useful_width projection; s_no_allocation := true;
    s_partitions := s_partitions (schedule workspace) |}.

Definition BuildWeightedNoGrowthSuccess (projection : PartitionProjection) (max_packets : Z)
    : PartitionBuild := {|
  pb_ok := true; pb_reason := "pass"; pb_partition_count := proj_partition_count projection;
  pb_alignment_packets := 1; pb_packets_per_partition_max := max_packets;
  pb_worker_slot_count := proj_worker_slot_count projection;
  pb_fold_slot_count := proj_fold_slot_count projection;
  pb_useful_width := proj_useful_width projection;
  pb_placement := proj_placement projection; pb_no_allocation := true |}.

(** ** Assignment ([weighted/assign.cpp]) *)
Definition order_buffers (workspace : Workspace) : OrderBuffers := {|
  ordered_packet_indices := items (ws_ordered_packet_indices workspace);
  packet_partition_indices := items (ws_packet_partition_indices workspace);
  ordered_packet_scratch := items (ws_ordered_packet_scratch workspace) |}.

Definition AssignWeightedPacketPartitions (workspace : Workspace)
    (request : ScheduleCompileRequest) (resolved_work_units : list Z) : option Workspace :=
  buffers ← BuildWeightedPacketOrder (order_buffers workspace) request resolved_work_units;
  st ← AssignOrderedPackets {|
    packet_partitions := packet_partition_indices buffers;
    partition_loads := items (ws_partition_loads workspace);
    partition_counts := items (ws_partition_counts workspace);
    partition_write_offsets := items (ws_partition_write_offsets workspace) |}
    (ordered_packet_indices buffers) resolved_work_units;
  Some (set_vectors workspace (schedule workspace) (ws_packet_work_units workspace)
    (with_items (ws_ordered_packet_indices workspace) (ordered_packet_indices buffers))
    (with_items (ws_packet_partition_indices workspace) (packet_partitions st))
    (with_items (ws_ordered_packet_scratch workspace) (ordered_packet_scratch buffers))
    (with_items (ws_partition_loads workspace) (partition_loads st))
    (with_items (ws_partition_counts workspace) (partition_counts st))
    (ws_partition_offsets workspace)
    (with_items (ws_partition_write_offsets workspace) (partition_write_offsets st))).

(** ** Grouping the packets by partition ([weighted/scatter.cpp]) *)
Definition partition_starts (counts offsets write_offsets : list Z) (partition_count : Z)
    : option (list Z * list Z * Z) :=
  for_each (fun '(offsets, write_offsets, offset) partition =>
    offsets ← zset offsets partition offset;
    write_offsets ← zset write_offsets partition offset;
    count ← zget counts partition;
    Some (offsets, write_offsets, wrap32 (offset + count)))
    (offsets, write_offsets, 0) (range 0 partition_count).

Definition scatter_packets (indices write_offsets scratch ordered : list Z)
    : option (list Z * list Z) :=
  for_each (fun '(write_offsets, scratch) packet_index =>
    partition ← zget indices packet_index;
    write_index ← zget write_offsets partition;
    write_offsets ← zset write_offsets partition (wrap32 (write_index + 1));
    scratch ← zset scratch write_index packet_index;
    Some (write_offsets, scratch)) (write_offsets, scratch) ordered.

Definition ScatterWeightedPacketOrder (workspace : Workspace) (request : ScheduleCompileRequest)
    (projection : PartitionProjection) : option (bool * Workspace) :=
  r ← partition_starts (items (ws_partition_counts workspace))
        (items (ws_partition_offsets workspace)) (items (ws_partition_write_offsets workspace))
        (proj_partition_count projection);
  let '(offsets, write_offsets, offset) := r in
  let update ordered scratch write_offsets :=
    set_vectors workspace (schedule workspace) (ws_packet_work_units workspace)
      (with_items (ws_ordered_packet_indices workspace) ordered)
      (ws_packet_partition_indices workspace)
      (with_items (ws_ordered_packet_scratch workspace) scratch)
      (ws_partition_loads workspace) (ws_partition_counts workspace)
      (with_items (ws_partition_offsets workspace) offsets)
      (with_items (ws_partition_write_offsets workspace) write_offsets) in
  let ordered := items (ws_ordered_packet_indices workspace) in
  let scratch := items (ws_ordered_packet_scratch workspace) in
  if negb (offset =? c_packet_count request)
  then Some (false, update ordered scratch write_offsets)
  else
    r ← scatter_packets (items (ws_packet_partition_indices workspace)) write_offsets scratch ordered;
    let '(write_offsets, scratch) := r in
    ordered ← copy_prefix scratch ordered (c_packet_count request);
    Some (true, update ordered scratch write_offsets).

(** ** The schedule's partitions ([weighted/partitions.cpp]) *)
Definition BuildWeightedSchedulePartitions (workspace : Workspace)
    (request : ScheduleCompileRequest) (projection : PartitionProjection)
    : option (bool * Workspace * Z) :=
  let partitions := s_partitions (schedule workspace) in
  let publish v := set_schedule workspace (set_partitions (schedule workspace) v) in
  after (for_loop (fun '(partitions, max_packets) partition =>
      begin_ ← zget (items (ws_partition_offsets workspace)) partition;
      count ← zget (items (ws_partition_counts workspace)) partition;
      let end_ := wrap32 (begin_ + count) in
      if (begin_ >=? end_) || (end_ >? c_packet_count request)
      then Some (Return (false, publish (vclear partitions), max_packets))
      else
        partitions ← vset partitions partition (mkPartition partition begin_ end_);
        Some (Next (partitions, Z.max max_packets (end_ - begin_))))
      (vresize partitions (proj_partition_count projection) DefaultPartition, 0)
      (range 0 (proj_partition_count projection)))
    (fun '(partitions, max_packets) => Some (true, publish partitions, max_packets)).

(** ** [CompileWeightedNoGrowthSchedule] ([weighted.cpp]) *)
Definition CompileWeightedNoGrowthSchedule (addr : Addresses) (workspace : Workspace)
    (request : ScheduleCompileRequest) (projection : PartitionProjection)
    : option (PartitionBuild * Workspace) :=
  let fail workspace reason := Some (FailWeightedNoGrowthSchedule workspace projection reason) in
  if negb (PacketHintsValid request) then fail workspace "invalid_packet_hints"%string
  else if negb (HasWorkUnits request) then fail workspace "invalid_packet_work_units"%string
  else
    let source_plan := ClassifyWeightedWorkSource addr workspace request in
    if bool_decide (source_kind source_plan = Invalid)
    then fail workspace (source_reason source_plan)
    else if negb (HasWeightedNoGrowthCapacity workspace projection)
    then fail workspace "weighted_workspace_capacity_exceeded"%string
    else
      let workspace := PrepareWeightedNoGrowthBuffers workspace request projection in
      r ← MaterializeWeightedWorkUnits workspace request source_plan;
      let '(materialized, workspace) := (r : bool * Workspace) in
      if negb materialized then fail workspace "invalid_packet_work_units"%string
      else
        let resolved_work_units :=
          ViewResolvedWeightedWorkUnits workspace (c_packet_count request) in
        if negb (zlen resolved_work_units =? c_packet_count request)
        then fail workspace "invalid_packet_work_units"%string
        else
          workspace ← AssignWeightedPacketPartitions workspace request resolved_work_units;
          r ← ScatterWeightedPacketOrder workspace request projection;
          let '(scattered, workspace) := (r : bool * Workspace) in
          if negb scattered then fail workspace "partition_coverage_mismatch"%string
          else
            r ← BuildWeightedSchedulePartitions workspace request projection;
            let '(built, workspace, max_packets) := (r : bool * Workspace * Z) in
            if negb built then fail workspace "partition_coverage_mismatch"%string
            else
              let workspace :=
                StoreWeightedNoGrowthScheduleState workspace request projection max_packets in
              Some (BuildWeightedNoGrowthSuccess projection max_packets,
                    set_reason workspace "pass").

(** ** [CompileWorkspaceSchedule] ([compile.cpp], [compile/*.cpp]) *)
Definition BuildProjectedFailure (workspace : Workspace) (request : ScheduleCompileRequest)
    (projection : PartitionProjection) (reason : string) : PartitionBuild * Workspace :=
  ({| pb_ok := false; pb_reason := reason;
      pb_partition_count := proj_partition_count projection;
      pb_alignment_packets := proj_alignment_packets projection;
      pb_packets_per_partition_max := 0;
      pb_worker_slot_count := proj_worker_slot_count projection;
      pb_fold_slot_count := proj_fold_slot_count projection;
      pb_useful_width := proj_useful_width projection;
      pb_placement := proj_placement projection;
      pb_no_allocation := bool_decide (c_allocation request = NoGrowth) |},
   set_reason workspace reason).

Definition ShouldMaterializePacketHints (request : ScheduleCompileRequest) : bool :=
  bool_decide (c_placement request = ContiguousBalanced) &&
  (zlen (c_packet_work_units request) =? 0) &&
  (zlen (c_packet_hints request) =? c_packet_count request).

Definition with_work_units (request : ScheduleCompileRequest) (work : list Z)
    : ScheduleCompileRequest := {|
  c_packet_count := c_packet_count request; c_execution_width := c_execution_width request;
  c_intent := c_intent request; c_placement := c_placement request;
  c_allocation := c_allocation request;
  c_preferred_alignment_packets := c_preferred_alignment_packets request;
  c_locality_bucket_packets := c_locality_bucket_packets request;
  c_alignment_group_packets := c_alignment_group_packets request;
  c_packet_work_units := work;
  c_worker_capacity_milli := c_worker_capacity_milli request;
  c_packet_hints := c_packet_hints request;
  c_trust_worker_capacity := c_trust_worker_capacity request |}.

Definition CompileStandardSchedule (workspace : Workspace) (request : ScheduleCompileRequest)
    (projection : PartitionProjection) : option (PartitionBuild * Workspace) :=
  let compile workspace request :=
    r ← CompileSchedule (schedule workspace) request;
    let '(build, sched) := (r : PartitionBuild * Schedule) in
    Some (build, set_schedule workspace sched) in
  if negb (ShouldMaterializePacketHints request) then compile workspace request
  else if bool_decide (c_allocation request = NoGrowth) &&
          (capacity (ws_packet_work_units workspace) <? c_packet_count request)
  then Some (BuildProjectedFailure workspace request projection
               "packet_work_unit_capacity_exceeded")
  else
    let units := vresize (ws_packet_work_units workspace) (c_packet_count request) 0 in
    l ← for_each (fun l packet => work ← PacketWorkUnitsAt request packet; zset l packet work)
          (items units) (range 0 (c_packet_count request));
    compile (set_work_units workspace (with_items units l)) (with_work_units request l).

(** [after_reserve] are the addresses once the workspace has been reserved. *)
Definition CompileWeightedSchedule (layout : Layout) (addr after_reserve : Addresses)
    (workspace : Workspace) (request : ScheduleCompileRequest) (projection : PartitionProjection)
    : option (PartitionBuild * Workspace) :=
  if bool_decide (c_allocation request = NoGrowth)
  then CompileWeightedNoGrowthSchedule addr workspace request projection
  else
    let source_plan := ClassifyWeightedWorkSource addr workspace request in
    if bool_decide (source_kind source_plan = Invalid)
    then Some (FailWeightedNoGrowthSchedule workspace projection (source_reason source_plan))
    else
      reservation ← ScheduleWorkspaceReservation request;
      r ← ReserveWorkspace layout workspace reservation;
      let '(reserved, workspace) := (r : bool * Workspace) in
      if negb reserved
      then Some (FailWeightedNoGrowthSchedule workspace projection "workspace_reserve_failed")
      else
        r ← CompileWeightedNoGrowthSchedule after_reserve workspace request projection;
        let '(build, workspace) := (r : PartitionBuild * Workspace) in
        let s := schedule workspace in
        Some (set_no_allocation build false, set_schedule workspace {|
          s_packet_count := s_packet_count s; s_execution_width := s_execution_width s;
          s_intent := s_intent s; s_placement := s_placement s;
          s_alignment_packets := s_alignment_packets s;
          s_packets_per_partition_max := s_packets_per_partition_max s;
          s_worker_slot_count := s_worker_slot_count s;
          s_fold_slot_count := s_fold_slot_count s; s_useful_width := s_useful_width s;
          s_no_allocation := false; s_partitions := s_partitions s |}).

Definition StoreWeightedScheduleState (workspace : Workspace) (request : ScheduleCompileRequest)
    (build : PartitionBuild) : Workspace :=
  set_schedule workspace {|
    s_packet_count := c_packet_count request; s_execution_width := c_execution_width request;
    s_intent := c_intent request; s_placement := c_placement request;
    s_alignment_packets := pb_alignment_packets build;
    s_packets_per_partition_max := pb_packets_per_partition_max build;
    s_worker_slot_count := pb_worker_slot_count build;
    s_fold_slot_count := pb_fold_slot_count build; s_useful_width := pb_useful_width build;
    s_no_allocation := bool_decide (c_allocation request = NoGrowth);
    s_partitions := s_partitions (schedule workspace) |}.

Definition clear_order (workspace : Workspace) : Workspace :=
  set_vectors workspace (schedule workspace) (ws_packet_work_units workspace)
    (vclear (ws_ordered_packet_indices workspace)) (ws_packet_partition_indices workspace)
    (ws_ordered_packet_scratch workspace) (ws_partition_loads workspace)
    (ws_partition_counts workspace) (ws_partition_offsets workspace)
    (ws_partition_write_offsets workspace).

Definition CompileWorkspaceSchedule (layout : Layout) (addr after_reserve : Addresses)
    (workspace : Workspace) (request : ScheduleCompileRequest)
    : option (PartitionBuild * Workspace) :=
  let projection := ProjectSchedule request in
  let no_growth := bool_decide (c_allocation request = NoGrowth) in
  let weighted := bool_decide (c_placement request = WeightedStable) in
  if negb (proj_ok projection) then
    Some (BuildProjectedFailure workspace request projection (proj_reason projection))
  else if negb (PacketHintsValid request) then
    Some (BuildProjectedFailure workspace request projection "invalid_packet_hints")
  else if no_growth &&
          (capacity (s_partitions (schedule workspace)) <? proj_partition_count projection) then
    Some (BuildProjectedFailure workspace request projection
            "schedule_partition_capacity_exceeded")
  else if no_growth && weighted && negb (HasWeightedNoGrowthCapacity workspace projection) then
    Some (FailWeightedNoGrowthSchedule workspace projection
            "weighted_workspace_capacity_exceeded")
  else
    let workspace := clear_order workspace in
    r ← (if weighted
         then CompileWeightedSchedule layout addr after_reserve workspace request projection
         else CompileStandardSchedule workspace request projection);
    let '(build, workspace) := (r : PartitionBuild * Workspace) in
    let workspace := if pb_ok build && weighted
                     then StoreWeightedScheduleState workspace request build else workspace in
    Some (set_no_allocation build no_growth, set_reason workspace (pb_reason build)).
