(* ===== verification/WeightedScheduleFacts.v ===== *)
(** * WeightedScheduleFacts: what a compiled weighted schedule is

    The compile succeeds whenever its guards pass; the published order lists the
    packets of partition 0, 1, ... in the weighted order, the partitions tile it,
    none is empty, and the loads are the greedy ones. *)
From stdpp Require Import base numbers list option strings sorting.
From Stdlib Require Import ZArith Lia Sorted.
From S2P Require Import Prelude Checked Scalar Planner Capacity Schedule BucketSort.
From S2P Require Import WeightedOrder WeightedOrderFacts WeightedAssign WeightedAssignFacts.
From S2P Require Import FoldModel FoldGraph FoldReduce Workspace WorkspaceFacts WeightedSchedule.
Import Coverage Greedy AssignFacts.

(** A loop that overwrites a list in place with values that only read the slot. *)
Lemma fill_loop (value : list Z -> Z -> option Z) (v : Z -> Z) l0 n :
  zlen l0 = n ->
  (forall l i, 0 <= i < n -> zget l i = zget l0 i -> value l i = Some (v i)) ->
  for_each (fun l packet => work ← value l packet; zset l packet work) l0 (range 0 n) =
  Some (map v (range 0 n)).
Proof.
  intros Hl Hv. pose proof (zlen_nonneg l0).
  match goal with |- for_each ?b _ _ = _ => set (body := b) end.
  destruct (for_range_inv (fun i l => l = map v (range 0 i) ++ drop (Z.to_nat i) l0) body 0 n l0)
    as (l & -> & ->).
  - lia.
  - done.
  - intros i l Hi ->. unfold body.
    assert (exists x, drop (Z.to_nat i) l0 = x :: drop (Z.to_nat (i + 1)) l0 /\ zget l0 i = Some x)
      as (x & Ed & Ex).
    { destruct (zget_is_Some l0 i) as [x Ex]; [lia|]. exists x. split; [|done].
      apply zget_Some in Ex as [_ Ex]. apply drop_S in Ex. rewrite Ex. do 2 f_equal. lia. }
    assert (zlen (map v (range 0 i)) = i) as Hz by (rewrite zlen_map, zlen_range; lia).
    rewrite Ed. rewrite Hv; [| done | rewrite zget_app_mid by done; congruence]. cbn [mbind option_bind].
    rewrite zset_app_mid by done. eexists. split; [done|].
    rewrite range_snoc, map_app, <- app_assoc by lia. done.
  - rewrite drop_ge, app_nil_r by (unfold zlen in *; lia). done.
Qed.

(** A loop over the elements of a list is a loop over its indices. *)
Lemma for_each_zget {A S} (body : S -> A -> option S) (l : list A) s :
  for_each body s l = for_each (fun st i => x ← zget l i; body st x) s (range 0 (zlen l)).
Proof.
  assert (forall d r s, l = d ++ r ->
    for_each body s r = for_each (fun st i => x ← zget l i; body st x) s (range (zlen d) (zlen l))) as G.
  { intros d r. revert d. induction r as [|x r IH]; intros d st E.
    - rewrite range_nil; [done|]. rewrite E, app_nil_r. lia.
    - rewrite range_cons by (rewrite E, zlen_app, zlen_cons; pose proof (zlen_nonneg r); lia).
      cbn [for_each]. rewrite E at 1. rewrite zget_app_mid by done. cbn [mbind option_bind].
      destruct (body st x); [|done]. cbn [mbind option_bind].
      specialize (IH (d ++ [x]) s0). rewrite zlen_app in IH. change (zlen [x]) with 1 in IH.
      apply IH. rewrite <- app_assoc. exact E. }
  by apply (G []).
Qed.

Section grouping.
Context (f : Z -> Z) (m : Z) (order : list Z).
Context (Hm : 0 <= m) (Hf : Forall (fun p => 0 <= f p < m) order) (Hlen : zlen order <= U32_MAX).

Lemma order_key indices :
  (forall p, p ∈ order -> zget indices p = Some (f p)) ->
  forall p, p ∈ order -> exists k, zget indices p = Some k /\ k = f p /\ 0 <= f p < m.
Proof using Hf.
  intros Hi p Hp. exists (f p). split; [by apply Hi|]. split; [done|].
  rewrite list.Forall_forall in Hf. by apply Hf.
Qed.

Lemma partition_starts_spec counts offsets write_offsets :
  zlen offsets = m -> zlen write_offsets = m ->
  (forall p, 0 <= p < m -> zget counts p = Some (zlen (bucket_list f order p))) ->
  exists offsets' write_offsets',
    partition_starts counts offsets write_offsets m = Some (offsets', write_offsets', zlen order) /\
    zlen offsets' = m /\ zlen write_offsets' = m /\
    forall p, 0 <= p < m -> zget offsets' p = Some (bucket_start f order p) /\
                            zget write_offsets' p = Some (bucket_start f order p).
Proof using All.
  intros Ho Hw Hc. unfold partition_starts.
  match goal with |- context [for_each ?b _ _] => set (body := b) end.
  destruct (for_range_inv (fun i (st : list Z * list Z * Z) => let '(os, ws, offset) := st in
      zlen os = m /\ zlen ws = m /\ offset = bucket_start f order i /\
      forall p, 0 <= p < i -> zget os p = Some (bucket_start f order p) /\
                              zget ws p = Some (bucket_start f order p))
    body 0 m (offsets, write_offsets, 0)) as ([[os ws] offset] & -> & Hlo & Hlw & -> & Hp).
  - done.
  - do 3 (split; [done|]). lia.
  - intros i [[os ws] offset] Hi (Hlo & Hlw & -> & Hp). unfold body.
    rewrite !zset_Some by lia. cbn [mbind option_bind]. rewrite Hc by done. cbn [mbind option_bind].
    eexists. split; [done|]. cbv beta iota. rewrite !zlen_insert. do 2 (split; [done|]). split.
    + rewrite bucket_start_snoc by lia. apply wrap32_small. rewrite <- bucket_start_snoc by lia.
      pose proof (bucket_start_le f m order (i + 1) ltac:(lia) Hf). unfold is_u32. lia.
    + intros p Hpi. destruct (decide (p = i)) as [->|].
      * by rewrite !zget_insert_eq by lia.
      * rewrite !zget_insert_ne by lia. apply Hp. lia.
  - exists os, ws. split; [|done]. do 2 f_equal. unfold bucket_start.
    apply zlen_Permutation. by apply bucket_sort_Permutation.
Qed.

Lemma scatter_packets_spec indices write_offsets scratch :
  (forall p, p ∈ order -> zget indices p = Some (f p)) ->
  zlen write_offsets = m -> zlen scratch = zlen order ->
  (forall p, 0 <= p < m -> zget write_offsets p = Some (bucket_start f order p)) ->
  exists write_offsets', scatter_packets indices write_offsets scratch order =
    Some (write_offsets', bucket_sort f m order) /\ zlen write_offsets' = m.
Proof using All.
  intros Hi Hw Hs Ho.
  destruct (scatter_keys_spec (zget indices) (fun k => k) f m order Hm Hlen (order_key indices Hi)
    write_offsets scratch) as (ws' & E & Hl); [lia | done | done |].
  exists ws'. split; [|lia]. rewrite <- E. unfold scatter_packets, scatter_keys.
  rewrite for_each_zget. apply for_each_ext. intros [os t] i _.
  destruct (zget order i) as [p|]; [|done]. cbn [mbind option_bind].
  destruct (zget indices p) as [k|]; [|done]. cbn [mbind option_bind].
  destruct (zget os k) as [o|]; [|done]. cbn [mbind option_bind].
  destruct (zset os k _) as [os'|], (zset t o p) as [t'|]; done.
Qed.

(** The segment of a partition in the grouped order. *)
Lemma bucket_segment p :
  0 <= p < m ->
  take (Z.to_nat (zlen (bucket_list f order p)))
    (drop (Z.to_nat (bucket_start f order p)) (bucket_sort f m order)) = bucket_list f order p.
Proof using Hm.
  intros Hp. unfold bucket_sort at 1.
  rewrite (range_app 0 p m), (range_cons p m), map_app, concat_app by lia. cbn [map concat].
  rewrite drop_app_length'; [|unfold bucket_start, bucket_sort, zlen; by rewrite Nat2Z.id].
  unfold zlen. rewrite Nat2Z.id. apply take_app_length.
Qed.
End grouping.

(** ** The partitions of a grouped order *)
Section partitions.
Context (f : Z -> Z) (m : Z) (order : list Z).
Context (Hm : 0 <= m) (Hf : Forall (fun p => 0 <= f p < m) order) (Hlen : zlen order <= U32_MAX).
Context (Hfull : forall p, 0 <= p < m -> 1 <= zlen (bucket_list f order p)).

Definition group_partition (p : Z) : Partition :=
  mkPartition p (bucket_start f order p) (bucket_start f order (p + 1)).
Definition group_partitions (k : Z) : list Partition := map group_partition (range 0 k).

Lemma group_partitions_snoc k :
  0 <= k -> group_partitions (k + 1) = group_partitions k ++ [group_partition k].
Proof using. intros. unfold group_partitions. by rewrite range_snoc, map_app by lia. Qed.

Lemma zlen_group_partitions k : 0 <= k -> zlen (group_partitions k) = k.
Proof using. intros. unfold group_partitions. rewrite zlen_map, zlen_range; lia. Qed.

Lemma group_partitions_cover : covers (zlen order) (group_partitions m).
Proof using Hm Hf Hfull.
  assert (forall k, 0 <= k -> k <= m ->
    contiguous 0 (group_partitions k) (bucket_start f order k) /\ workers_in_order (group_partitions k)) as G.
  { apply (natlike_ind (fun k => k <= m -> contiguous 0 (group_partitions k) (bucket_start f order k) /\
      workers_in_order (group_partitions k))).
    - intros _. split; [done|]. intros i p Hp. apply zget_range in Hp.
      change (zlen (group_partitions 0)) with 0 in Hp. lia.
    - intros k Hk IH Hkm. unfold Z.succ in *. destruct (IH ltac:(lia)) as [IHc IHw].
      rewrite group_partitions_snoc by done. split.
      + apply contiguous_snoc. cbn. split; [done|]. split; [|done].
        rewrite bucket_start_snoc by done. pose proof (Hfull k ltac:(lia)). lia.
      + apply workers_snoc; [done|]. cbn. by rewrite zlen_group_partitions. }
  destruct (G m Hm ltac:(lia)) as [Hc Hw]. split; [|done].
  replace (zlen order) with (bucket_start f order m); [done|].
  apply zlen_Permutation. by apply bucket_sort_Permutation.
Qed.

Lemma group_partition_size p :
  0 <= p -> p_end (group_partition p) - p_begin (group_partition p) = zlen (bucket_list f order p).
Proof using. intros. cbn. rewrite bucket_start_snoc by done. lia. Qed.

Lemma BuildPartitions_spec workspace request projection :
  proj_partition_count projection = m -> c_packet_count request = zlen order ->
  items (s_partitions (schedule workspace)) = [] ->
  (forall p, 0 <= p < m ->
    zget (items (ws_partition_offsets workspace)) p = Some (bucket_start f order p) /\
    zget (items (ws_partition_counts workspace)) p = Some (zlen (bucket_list f order p))) ->
  BuildWeightedSchedulePartitions workspace request projection =
  Some (true, set_schedule workspace (set_partitions (schedule workspace)
          (Vec (group_partitions m) (Z.max (capacity (s_partitions (schedule workspace))) m))),
        max_size (group_partitions m)).
Proof using All.
  intros Hpm Hpc Hnil Hcnt. unfold BuildWeightedSchedulePartitions. rewrite Hpm, Hpc.
  set (cap := Z.max (capacity (s_partitions (schedule workspace))) m).
  assert (vresize (s_partitions (schedule workspace)) m DefaultPartition =
    Vec (replicate (Z.to_nat m) DefaultPartition) cap) as ->.
  { unfold vresize. rewrite Hnil, take_nil. cbn. by rewrite Nat.sub_0_r. }
  match goal with |- context [for_loop ?b _ _] => set (body := b) end.
  destruct (for_range_total (fun i (st : vec Partition * Z) =>
      st = (Vec (group_partitions i ++ replicate (Z.to_nat (m - i)) DefaultPartition) cap,
            max_size (group_partitions i))) body 0 m
      (Vec (replicate (Z.to_nat m) DefaultPartition) cap, 0)) as (st & -> & ->).
  - done.
  - by rewrite Z.sub_0_r.
  - intros i st Hi ->. unfold body. destruct (Hcnt i Hi) as [-> ->]. cbn [mbind option_bind].
    pose proof (bucket_start_le f m order (i + 1) ltac:(lia) Hf) as Hle.
    pose proof (bucket_start_le f m order i ltac:(lia) Hf).
    pose proof (Hfull i Hi). rewrite bucket_start_snoc in Hle by lia.
    rewrite wrap32_small by (unfold is_u32; lia).
    rewrite <- bucket_start_snoc in * by lia.
    destruct (_ || _) eqn:E.
    { apply orb_prop in E as [E|E]; to_prop; [rewrite bucket_start_snoc in E by lia|apply Z.ltb_lt in E]; lia. }
    assert (vset (Vec (group_partitions i ++ replicate (Z.to_nat (m - i)) DefaultPartition) cap) i
      (mkPartition i (bucket_start f order i) (bucket_start f order (i + 1))) =
      Some (Vec (group_partitions (i + 1) ++ replicate (Z.to_nat (m - (i + 1))) DefaultPartition) cap)) as ->.
    { unfold vset. cbn [items capacity].
      replace (Z.to_nat (m - i)) with (S (Z.to_nat (m - (i + 1)))) by lia. cbn [replicate].
      rewrite zset_app_mid by (rewrite zlen_group_partitions; lia). cbn [mbind option_bind].
      rewrite group_partitions_snoc, <- app_assoc by lia. done. }
    cbn [mbind option_bind]. eexists. split; [done|]. rewrite group_partitions_snoc, max_size_snoc by lia.
    done.
  - cbn [after mbind option_bind]. by rewrite Z.sub_diag, app_nil_r.
Qed.
End partitions.

(** ** The pipeline *)
Definition hint_ok (h : PacketPlacementHint) : Prop := hint_typed h /\ is_u64 (hint_work_units h).

(** The work units that the source plan selects, normalised. *)
Definition resolved_units (workspace : Workspace) (request : ScheduleCompileRequest)
    (kind : WeightedWorkSourceKind) : list Z :=
  map NormalizeWorkUnits
    match kind with
    | Hints => map hint_work_units (c_packet_hints request)
    | ExternalWorkUnits => c_packet_work_units request
    | WorkspacePacketWorkUnits => items (ws_packet_work_units workspace)
    | Invalid => []
    end.

(** What a published weighted schedule is: [order] is the weighted packet order and
    [partition_of] the partition of each packet. *)
Record weighted_schedule (request : ScheduleCompileRequest) (m : Z) (work : list Z)
    (workspace : Workspace) (order : list Z) (partition_of : Z -> Z) : Prop := {
  wsc_packets : order ≡ₚ range 0 (c_packet_count request);
  wsc_sorted : StronglySorted (packet_before request work) order;
  wsc_covers : covers (c_packet_count request) (items (s_partitions (schedule workspace)));
  wsc_count : zlen (items (s_partitions (schedule workspace))) = m;
  wsc_max : s_packets_per_partition_max (schedule workspace) =
    max_size (items (s_partitions (schedule workspace)));
  wsc_segment : forall p q, zget (items (s_partitions (schedule workspace))) p = Some q ->
    take (Z.to_nat (p_end q - p_begin q))
      (drop (Z.to_nat (p_begin q)) (items (ws_ordered_packet_indices workspace))) =
    bucket_list partition_of order p;
  wsc_loads : forall p, 0 <= p < m ->
    at_ (items (ws_partition_loads workspace)) p =
    Z.min U64_MAX (foldr Z.add 0 (map (at_ work) (bucket_list partition_of order p)));
  wsc_balanced : forall most p q, Forall (fun w => w <= most) work -> 0 <= p < m -> 0 <= q < m ->
    at_ (items (ws_partition_loads workspace)) p <=
    at_ (items (ws_partition_loads workspace)) q + Z.max 0 most;
}.

(** The capacities of the vectors that a weighted compile resizes. *)
Definition capacities (workspace : Workspace) : list Z :=
  [capacity (s_partitions (schedule workspace)); capacity (ws_packet_work_units workspace);
   capacity (ws_ordered_packet_indices workspace); capacity (ws_packet_partition_indices workspace);
   capacity (ws_ordered_packet_scratch workspace); capacity (ws_partition_loads workspace);
   capacity (ws_partition_counts workspace); capacity (ws_partition_offsets workspace);
   capacity (ws_partition_write_offsets workspace)].

Section pipeline.
Context (request : ScheduleCompileRequest) (work : list Z) (n m : Z).
Context (Hn : 0 < n <= U32_MAX) (Hm : 0 < m <= 2147483648) (Hmn : m <= n).
Context (Hcount : c_packet_count request = n).
Context (Hwork : zlen work = n) (Hpos : Forall (fun w => 1 <= w <= U64_MAX) work).
Context (Hhints : HasPacketHints request = true ->
  zlen (c_packet_hints request) = n /\ Forall hint_typed (c_packet_hints request)).

(** The vectors after [PrepareWeightedNoGrowthBuffers]. *)
Record prepared (workspace : Workspace) : Prop := {
  pre_ordered : zlen (items (ws_ordered_packet_indices workspace)) = n;
  pre_indices : zlen (items (ws_packet_partition_indices workspace)) = n;
  pre_scratch : zlen (items (ws_ordered_packet_scratch workspace)) = n;
  pre_loads : zlen (items (ws_partition_loads workspace)) = m;
  pre_counts : zlen (items (ws_partition_counts workspace)) = m;
  pre_offsets : zlen (items (ws_partition_offsets workspace)) = m;
  pre_write : zlen (items (ws_partition_write_offsets workspace)) = m;
  pre_partitions : items (s_partitions (schedule workspace)) = [];
}.

Record assigned (workspace workspace' : Workspace) (order : list Z) (g : assignment) : Prop := {
  asg_order : items (ws_ordered_packet_indices workspace') = order;
  asg_of : items (ws_packet_partition_indices workspace') = g_partition_of g;
  asg_loads : items (ws_partition_loads workspace') = g_loads g;
  asg_counts : items (ws_partition_counts workspace') = g_counts g;
  asg_scratch : zlen (items (ws_ordered_packet_scratch workspace')) = n;
  asg_write : zlen (items (ws_partition_write_offsets workspace')) = m;
  asg_offsets : ws_partition_offsets workspace' = ws_partition_offsets workspace;
  asg_schedule : schedule workspace' = schedule workspace;
  asg_capacities : capacities workspace' = capacities workspace;
}.

Lemma order_bounds order : order ≡ₚ range 0 n ->
  Forall (fun p => 0 <= p < n) order /\ zlen order = n /\ NoDup order.
Proof using Hn.
  intros Hp. split; [|split].
  - apply list.Forall_forall. intros p Hin. rewrite Hp in Hin. by apply elem_of_range.
  - rewrite (zlen_Permutation _ _ Hp). rewrite zlen_range; lia.
  - rewrite Hp. apply range_NoDup.
Qed.

Lemma Assign_spec workspace :
  prepared workspace ->
  exists workspace' order indices,
    AssignWeightedPacketPartitions workspace request work = Some workspace' /\
    order ≡ₚ range 0 n /\ StronglySorted (packet_before request work) order /\ zlen indices = n /\
    assigned workspace workspace' order (greedy work (start m indices) order).
Proof using All.
  intros [H1 H2 H3 H4 H5 H6 H7 H8]. unfold AssignWeightedPacketPartitions.
  destruct (BuildWeightedPacketOrder_sorts request work n (order_buffers workspace))
    as (b & -> & [Hso Hsi Hss] & Hperm & Hsort).
  { constructor; [done | lia | by constructor | | done].
    split; [done|]. eapply Forall_impl; [exact Hpos|]. intros w Hw. cbn in Hw. unfold is_u64. lia. }
  { lia. }
  cbn [mbind option_bind].
  destruct (order_bounds _ Hperm) as (Hb & Hl & Hnd).
  match goal with |- context [AssignOrderedPackets ?s _ _] =>
    destruct (AssignOrderedPackets_eq work (WeightedOrder.ordered_packet_indices b) n m Hm ltac:(lia)
      Hwork Hpos Hb s Hsi H4 H5 H7) as (st & -> & (E1 & E2 & E3) & E4) end.
  cbn [mbind option_bind]. eexists _, (WeightedOrder.ordered_packet_indices b), _.
  split; [done|]. split; [done|]. split; [done|]. split; [exact Hsi|].
  constructor; cbn; try done.
Qed.

(** Grouping and publishing an assigned workspace. *)
Lemma publish_spec workspace0 workspace order indices projection :
  prepared workspace0 -> proj_partition_count projection = m ->
  order ≡ₚ range 0 n -> StronglySorted (packet_before request work) order -> zlen indices = n ->
  let g := greedy work (start m indices) order in
  assigned workspace0 workspace order g ->
  m <= capacity (s_partitions (schedule workspace)) ->
  exists workspace1 workspace2 max_packets,
    ScatterWeightedPacketOrder workspace request projection = Some (true, workspace1) /\
    BuildWeightedSchedulePartitions workspace1 request projection =
      Some (true, workspace2, max_packets) /\
    weighted_schedule request m work
      (set_reason (StoreWeightedNoGrowthScheduleState workspace2 request projection max_packets) "pass")
      order (at_ (g_partition_of g)) /\
    capacities workspace2 = capacities workspace.
Proof using All.
  intros Hpre Hproj Hperm Hsort Hind g [A1 A2 A3 A4 A5 A6 A7 A8 _] Hcap.
  destruct (order_bounds _ Hperm) as (Hb & Hl & Hnd).
  set (f := at_ (g_partition_of g)).
  assert (zlen order <= U32_MAX) as Hlu by lia.
  destruct (greedy_counts work order n m Hm Hlu Hwork Hpos Hb indices Hind Hnd) as [Hf Hcnt].
  fold g in Hf, Hcnt. fold f in Hf, Hcnt.
  pose proof (greedy_fills work order n m Hm Hlu Hwork Hpos Hb indices Hind ltac:(lia)) as Hfill. fold g in Hfill.
  pose proof (greedy_loads work order n m Hm Hlu Hwork Hpos Hb indices Hind Hnd) as Hloads. fold g f in Hloads.
  destruct (greedy_inv work order n m Hm Hlu Hwork Hpos Hb (fun _ _ => True) indices Hind I) as [Hsh _];
    [by intros |]. fold g in Hsh. destruct Hsh as [S1 S2 S3 _ _].
  assert (forall p, 0 <= p < m -> zget (g_counts g) p = Some (zlen (bucket_list f order p))) as Hzc.
  { intros p Hp. rewrite zget_at by lia. by rewrite Hcnt. }
  destruct (partition_starts_spec f m order ltac:(lia) Hf Hlu (g_counts g)
    (items (ws_partition_offsets workspace)) (items (ws_partition_write_offsets workspace)))
    as (os & wo & Estart & Hlo & Hlw & Hst).
  { rewrite A7. by apply pre_offsets. }
  { done. }
  { done. }
  destruct (scatter_packets_spec f m order ltac:(lia) Hf Hlu (g_partition_of g) wo
    (items (ws_ordered_packet_scratch workspace))) as (wo' & Escat & Hlw').
  { intros p Hp. rewrite list.Forall_forall in Hb. apply zget_at. rewrite S1. by apply Hb. }
  { done. }
  { lia. }
  { intros p Hp. by apply Hst. }
  assert (zlen (bucket_sort f m order) = n) as Hlb.
  { rewrite <- Hl. apply zlen_Permutation. apply bucket_sort_Permutation; [lia | done]. }
  unfold ScatterWeightedPacketOrder. rewrite A4, Hproj, Estart. cbn [mbind option_bind].
  rewrite Hcount, A1, A2. rewrite (proj2 (Z.eqb_eq (zlen order) n) Hl). cbn [negb].
  rewrite Escat. cbn [mbind option_bind]. rewrite copy_prefix_all by lia. cbn [mbind option_bind].
  match goal with |- context [Some (true, ?w)] => set (workspace1 := w) end.
  exists workspace1.
  rewrite (BuildPartitions_spec f m order ltac:(lia) Hf Hlu) with (workspace := workspace1).
  - eexists _, _. split; [done|]. split; [done|].
    split; [|unfold capacities; cbn; rewrite Z.max_l by lia; done]. constructor; cbn.
    + by rewrite Hcount.
    + done.
    + rewrite Hcount, <- Hl. apply group_partitions_cover; [lia | done |].
      intros p Hp. rewrite <- Hcnt by done. by apply Hfill.
    + apply zlen_group_partitions. lia.
    + done.
    + intros p q Hq. pose proof (zget_range _ _ _ Hq) as Hr. rewrite zlen_group_partitions in Hr by lia.
      unfold group_partitions in Hq. apply zget_Some in Hq as [_ Hq].
      apply list_lookup_fmap_Some in Hq as (p' & -> & Hp').
      apply lookup_seqZ in Hp' as [Hp' _]. assert (p' = p) as -> by lia.
      rewrite group_partition_size by lia. cbn. apply bucket_segment; lia.
    + rewrite A3. intros p Hp. by apply Hloads.
    + rewrite A3. intros most p q Hmost Hp Hq.
      by apply (greedy_balanced work order n m Hm Hlu Hwork Hpos Hb indices most Hind Hmost).
  - intros p Hp. rewrite <- Hcnt by done. by apply Hfill.
  - done.
  - lia.
  - cbn. rewrite A8. by apply pre_partitions.
  - intros p Hp. cbn. rewrite A4. split; [by apply Hst | by apply Hzc].
Qed.
End pipeline.

(** ** Compiling without growth *)
Section compile.
Context (addr : Addresses) (workspace : Workspace) (request : ScheduleCompileRequest).
Context (Htyped : ScheduleFacts.compile_typed request) (Hht : Forall hint_ok (c_packet_hints request)).
Context (Hown : Forall is_u64 (items (ws_packet_work_units workspace))).
Context (Hn : 1 <= c_packet_count request) (Hw : 1 <= c_execution_width request).

Notation n := (c_packet_count request).
Definition weighted_count : Z := Z.min n (c_execution_width request).
Notation m := weighted_count.
Context (Hm : m <= 2147483648).
Notation projection := (ProjectSchedule request).
Notation plan := (ClassifyWeightedWorkSource addr workspace request).

Definition weighted_accepts : bool :=
  PacketHintsValid request && HasWorkUnits request &&
  negb (bool_decide (source_kind plan = Invalid)) &&
  HasWeightedNoGrowthCapacity workspace projection.

Definition weighted_failure : string :=
  if negb (PacketHintsValid request) then "invalid_packet_hints"
  else if negb (HasWorkUnits request) then "invalid_packet_work_units"
  else if bool_decide (source_kind plan = Invalid) then "invalid_packet_work_units"
  else "weighted_workspace_capacity_exceeded".

Lemma request_ok_weighted : UniformFacts.request_ok (ToPartitionRequest request).
Proof using Htyped Hn Hw.
  destruct Htyped as [[_ ?] [_ ?] H1 H2 H3 _ _]. unfold is_u32 in *.
  constructor; cbn; unfold is_u32; lia.
Qed.

Lemma weighted_projection :
  proj_ok projection = true /\ proj_partition_count projection = m.
Proof using Htyped Hn Hw.
  destruct (UniformFacts.ProjectPartitions_valid _ request_ok_weighted) as (a & u & _ & Hok & _).
  split; [exact Hok|]. exact (ScheduleFacts.projected_count _ request_ok_weighted).
Qed.

Lemma source_sizes :
  match source_kind plan with
  | Hints => zlen (c_packet_hints request) = n
  | ExternalWorkUnits => zlen (c_packet_work_units request) = n
  | WorkspacePacketWorkUnits => vsize (ws_packet_work_units workspace) = n
  | Invalid => source_reason plan = "invalid_packet_work_units"%string
  end.
Proof using Hn.
  unfold ClassifyWeightedWorkSource. rewrite (proj2 (Z.eqb_neq n 0)) by lia.
  repeat match goal with |- context [if ?b then _ else _] => destruct b eqn:? end; to_prop; cbn; done.
Qed.

Lemma NormalizeWorkUnits_range w : is_u64 w -> 1 <= NormalizeWorkUnits w <= U64_MAX.
Proof using. unfold NormalizeWorkUnits, is_u64. destruct (Z.eqb_spec w 0); lia. Qed.

Definition resolved : list Z := resolved_units workspace request (source_kind plan).

Lemma resolved_range : Forall (fun w => 1 <= w <= U64_MAX) resolved.
Proof using Htyped Hht Hown.
  unfold resolved, resolved_units. apply Forall_map.
  destruct (source_kind plan); [constructor | | |].
  - apply Forall_map. eapply Forall_impl; [exact Hht|]. intros h [_ Hh]. by apply NormalizeWorkUnits_range.
  - eapply Forall_impl; [apply Htyped|]. intros w. by apply NormalizeWorkUnits_range.
  - eapply Forall_impl; [exact Hown|]. intros w. by apply NormalizeWorkUnits_range.
Qed.

Lemma zlen_resolved : source_kind plan <> Invalid -> zlen resolved = n.
Proof using Hn.
  intros Hk. pose proof source_sizes as Hs. unfold resolved, resolved_units.
  destruct (source_kind plan); rewrite !zlen_map; done.
Qed.

Notation prepared_ws := (PrepareWeightedNoGrowthBuffers workspace request projection).

Lemma vresize_same (v : vec Z) k d : vsize v = k -> items (vresize v k d) = items v.
Proof using.
  intros H. unfold vresize, vsize, zlen in *. cbn. rewrite take_ge by lia.
  replace (Z.to_nat k - length (items v))%nat with 0%nat by lia. cbn. by rewrite app_nil_r.
Qed.

Lemma map_range_zget (l : list Z) (g : Z -> Z) k :
  zlen l = k -> map (fun i => g (at_ l i)) (range 0 k) = map g l.
Proof using.
  intros Hl. pose proof (zlen_nonneg l). apply list_eq. intros i.
  destruct (decide (i < length l)%nat) as [Hi|Hi].
  - rewrite !list_lookup_fmap. unfold zlen in *.
    assert (range 0 k !! i = Some (Z.of_nat i)) as -> by (apply lookup_seqZ; lia). cbn.
    unfold at_. rewrite zget_nat. destruct (lookup_lt_is_Some_2 l i Hi) as [x ->]. done.
  - rewrite !lookup_ge_None_2; [done | rewrite length_map; lia |].
    rewrite length_map, length_range. unfold zlen in *. lia.
Qed.

Lemma Materialize_spec :
  source_kind plan <> Invalid ->
  MaterializeWeightedWorkUnits prepared_ws request plan =
  Some (true, set_work_units prepared_ws
    (with_items (ws_packet_work_units prepared_ws) resolved)).
Proof using Hn.
  intros Hk. pose proof source_sizes as Hs. unfold MaterializeWeightedWorkUnits, resolved, resolved_units.
  assert (vsize (ws_packet_work_units prepared_ws) = n) as Hv by (cbn; by rewrite vsize_resize by lia).
  rewrite Hv, Z.eqb_refl. cbn [negb].
  destruct (source_kind plan) eqn:Ek; [done | | |].
  - rewrite (fill_loop _ (fun i => NormalizeWorkUnits (at_ (map hint_work_units (c_packet_hints request)) i)) _ n Hv).
    + cbn [mbind option_bind]. rewrite map_range_zget by (by rewrite zlen_map). done.
    + intros l i Hi _. rewrite (proj2 (Z.eqb_neq _ 0)) by lia.
      destruct (zget_is_Some (c_packet_hints request) i) as [h Eh]; [lia|]. rewrite Eh. cbn.
      unfold at_. do 2 f_equal. apply zget_Some in Eh as [H0 Eh]. unfold zget.
      rewrite (proj2 (Z.leb_le 0 i)) by done. by rewrite list_lookup_fmap, Eh.
  - rewrite (fill_loop _ (fun i => NormalizeWorkUnits (at_ (c_packet_work_units request) i)) _ n Hv).
    + cbn [mbind option_bind]. by rewrite map_range_zget.
    + intros l i Hi _. by rewrite zget_at by lia.
  - rewrite (fill_loop _ (fun i => NormalizeWorkUnits (at_ (items (ws_packet_work_units workspace)) i)) _ n Hv).
    + cbn [mbind option_bind]. by rewrite map_range_zget.
    + intros l i Hi ->. cbn [ws_packet_work_units PrepareWeightedNoGrowthBuffers set_vectors].
      rewrite vresize_same by done. by rewrite zget_at by (unfold vsize in Hs; lia).
Qed.

Lemma prepared_ok work : prepared n m
  (set_work_units prepared_ws (with_items (ws_packet_work_units prepared_ws) work)).
Proof using Htyped Hn Hw.
  destruct weighted_projection as [_ Hp]. assert (0 <= m) by (unfold weighted_count; lia).
  assert (0 <= proj_partition_count projection) as Hp0 by lia.
  constructor;
    [exact (vsize_resize _ n 0 ltac:(lia)) | exact (vsize_resize _ n 0 ltac:(lia))
    | exact (vsize_resize _ n 0 ltac:(lia)) | | | | | done];
    (transitivity (proj_partition_count projection); [exact (vsize_resize _ _ 0 Hp0) | exact Hp]).
Qed.

Lemma projected_packets : proj_packet_count projection = n.
Proof using.
  cbn. unfold ProjectPartitions. cbv zeta.
  repeat match goal with |- context [if ?b then ProjectionFailure _ _ _ else _] => destruct b end; done.
Qed.

Lemma prepared_capacities work :
  HasWeightedNoGrowthCapacity workspace projection = true ->
  capacities (set_work_units prepared_ws (with_items (ws_packet_work_units prepared_ws) work)) =
  capacities workspace.
Proof using.
  unfold HasWeightedNoGrowthCapacity. rewrite projected_packets, !Z.geb_leb. intros H. to_prop.
  unfold capacities. cbn. rewrite !Z.max_l by done. done.
Qed.

Lemma hints_sized : PacketHintsValid request = true ->
  HasPacketHints request = true ->
  zlen (c_packet_hints request) = n /\ Forall hint_typed (c_packet_hints request).
Proof using Hht.
  unfold PacketHintsValid, HasPacketHints. intros H1 H2. to_prop. apply orb_prop in H1 as [H1|H1]; to_prop; [done|].
  split; [done|]. eapply Forall_impl; [exact Hht|]. by intros h [? _].
Qed.

Lemma weighted_compile :
  exists build workspace',
    CompileWeightedNoGrowthSchedule addr workspace request projection = Some (build, workspace') /\
    pb_ok build = weighted_accepts /\
    (weighted_accepts = true ->
       (exists order partition_of,
          weighted_schedule request m resolved workspace' order partition_of) /\
       capacities workspace' = capacities workspace /\
       pb_packets_per_partition_max build = s_packets_per_partition_max (schedule workspace')) /\
    (weighted_accepts = false ->
       pb_reason build = weighted_failure /\ workspace' = set_reason workspace weighted_failure).
Proof using All.
  unfold CompileWeightedNoGrowthSchedule, weighted_accepts, weighted_failure.
  destruct (PacketHintsValid request) eqn:E1; cbn [negb andb]; [|by eexists _, _].
  destruct (HasWorkUnits request) eqn:E2; cbn [negb andb]; [|by eexists _, _].
  pose proof source_sizes as Hss. case_bool_decide as E3; cbn [negb andb].
  { rewrite E3 in Hss. rewrite Hss. by eexists _, _. }
  destruct (HasWeightedNoGrowthCapacity workspace projection) eqn:E4; cbn [negb]; [|by eexists _, _].
  rewrite Materialize_spec by done. cbn [mbind option_bind].
  set (ws1 := set_work_units prepared_ws _).
  assert (ViewResolvedWeightedWorkUnits ws1 n = resolved) as Hview.
  { unfold ViewResolvedWeightedWorkUnits. cbn. unfold vsize. cbn. by rewrite zlen_resolved, Z.eqb_refl. }
  rewrite Hview, zlen_resolved, Z.eqb_refl by done. cbn [negb].
  destruct weighted_projection as [_ Hproj].
  assert (0 < n <= U32_MAX) as Hn' by (destruct Htyped as [[_ ?] _ _ _ _ _ _]; lia).
  assert (0 < m <= 2147483648) as Hm' by (unfold weighted_count in *; lia).
  assert (m <= n) as Hmn by (unfold weighted_count; lia).
  destruct (Assign_spec request resolved n m Hn' Hm' Hmn eq_refl (zlen_resolved E3) resolved_range
    (hints_sized E1) ws1 (prepared_ok resolved)) as (ws2 & order & indices & -> & Hperm & Hsort & Hind & Hasg).
  cbn [mbind option_bind].
  destruct (publish_spec request resolved n m Hn' Hm' Hmn eq_refl (zlen_resolved E3) resolved_range
    (hints_sized E1) ws1 ws2 order indices projection (prepared_ok resolved) Hproj Hperm Hsort Hind Hasg)
    as (ws3 & ws4 & mp & -> & H2 & Hsch & Hcaps).
  { rewrite (asg_schedule _ _ _ _ _ _ Hasg). cbn. unfold HasWeightedNoGrowthCapacity in E4. to_prop.
    rewrite ?Z.geb_leb in *. to_prop. lia. }
  cbn [mbind option_bind negb]. rewrite H2. cbn [mbind option_bind negb].
  eexists _, _. split; [done|]. split; [done|]. split; [|done]. intros _.
  split; [by eexists _, _|]. split; [|done]. transitivity (capacities ws4); [done|].
  rewrite Hcaps, (asg_capacities _ _ _ _ _ _ Hasg). by apply prepared_capacities.
Qed.
End compile.

(** The contract only mentions the partitions, the largest partition and the vectors. *)
Lemma weighted_schedule_stored request m work workspace order f build reason :
  weighted_schedule request m work workspace order f ->
  pb_packets_per_partition_max build = s_packets_per_partition_max (schedule workspace) ->
  weighted_schedule request m work
    (set_reason (StoreWeightedScheduleState workspace request build) reason) order f.
Proof.
  intros [H1 H2 H3 H4 H5 H6 H7 H8] Hb. constructor; cbn; try done. by rewrite Hb.
Qed.

(** The first check of a weighted compile without growth that fails. *)
Definition compile_failure (addr : Addresses) (workspace : Workspace) (request : ScheduleCompileRequest) : option string :=
  if negb (PacketHintsValid request) then Some "invalid_packet_hints"
  else if capacity (s_partitions (schedule workspace)) <? weighted_count request then Some "schedule_partition_capacity_exceeded"
  else if negb (HasWeightedNoGrowthCapacity workspace (ProjectSchedule request)) then Some "weighted_workspace_capacity_exceeded"
  else if negb (HasWorkUnits request) || bool_decide (source_kind (ClassifyWeightedWorkSource addr workspace request) = Invalid)
  then Some "invalid_packet_work_units"
  else None.

(** C12: Compiling a [WeightedStable] schedule with [NoGrowth] returns for every typed
    request of at least one packet and one worker and at most 2^31 partitions. It fails
    exactly when a check fails, with the reason of the first one: the hints, the capacity
    for the partitions, the capacity of the weighted buffers, the work units and their
    aliasing of live storage. On success the published order lists the packets partition by
    partition in the weighted order, the partitions tile it and none is empty, the loads are
    the greedy ones, and no vector was reallocated. *)
Theorem CompileWorkspaceSchedule_weighted layout addr after_ workspace request :
  ScheduleFacts.compile_typed request -> Forall hint_ok (c_packet_hints request) ->
  Forall is_u64 (items (ws_packet_work_units workspace)) ->
  1 <= c_packet_count request -> 1 <= c_execution_width request ->
  weighted_count request <= 2147483648 ->
  c_placement request = WeightedStable -> c_allocation request = NoGrowth ->
  exists build workspace',
    CompileWorkspaceSchedule layout addr after_ workspace request = Some (build, workspace') /\
    match compile_failure addr workspace request with
    | Some reason => pb_ok build = false /\ pb_reason build = reason /\ last_failure_reason workspace' = reason
    | None => pb_ok build = true /\
        (exists order partition_of, weighted_schedule request (weighted_count request)
           (resolved addr workspace request) workspace' order partition_of) /\
        capacities workspace' = capacities workspace /\
        s_no_allocation (schedule workspace') = true
    end.
Proof.
  intros Ht Hh Hown Hn Hw Hm Hpl Hal. unfold CompileWorkspaceSchedule.
  rewrite Hpl, Hal. cbv zeta. rewrite !bool_decide_true by done.
  destruct (weighted_projection request Ht Hn Hw) as [Hok Hcount]. rewrite Hok, Hcount. cbn [negb].
  unfold compile_failure.
  destruct (PacketHintsValid request) eqn:E1; cbn [negb andb]; [|by eexists _, _].
  destruct (capacity (s_partitions (schedule workspace)) <? weighted_count request) eqn:Ecap; cbn [andb]; [by eexists _, _|].
  destruct (HasWeightedNoGrowthCapacity workspace (ProjectSchedule request)) eqn:E4; cbn [negb andb]; [|by eexists _, _].
  unfold CompileWeightedSchedule. rewrite Hal, bool_decide_true by done.
  destruct (weighted_compile addr (clear_order workspace) request Ht Hh Hown Hn Hw Hm)
    as (build & ws' & -> & Hbok & Hgood & Hbad).
  change (weighted_accepts addr (clear_order workspace) request) with
    (weighted_accepts addr workspace request) in *.
  change (weighted_failure addr (clear_order workspace) request) with (weighted_failure addr workspace request) in *.
  unfold weighted_accepts, weighted_failure in *. rewrite E1, E4 in *. cbn [andb negb] in *. cbn [mbind option_bind]. rewrite andb_true_r in *.
  destruct (HasWorkUnits request && negb (bool_decide (source_kind (ClassifyWeightedWorkSource addr workspace request) = Invalid))) eqn:Eacc.
  - rewrite Hbok. cbn [andb]. destruct (Hgood eq_refl) as ((order & f & Hsch) & Hcaps & Hmax). apply andb_prop in Eacc as [-> ->%negb_true_iff]. cbn [negb orb].
    eexists _, _. split; [done|]. cbn [pb_ok set_no_allocation]. split; [done|].
    split; [|split; [exact Hcaps | cbn; by rewrite Hal]].
    exists order, f. by apply weighted_schedule_stored.
  - rewrite Hbok. destruct (Hbad eq_refl) as [Hreason ->].
    assert (negb (HasWorkUnits request) || bool_decide (source_kind (ClassifyWeightedWorkSource addr workspace request) = Invalid) = true) as ->.
    { by destruct (HasWorkUnits request), (bool_decide _). }
    eexists _, _. split; [done|]. cbn [pb_ok pb_reason set_no_allocation andb]. split; [done|].
    rewrite Hreason. by destruct (HasWorkUnits request), (bool_decide _).
Qed.


(** ** Reserved workspaces *)
Lemma ScheduleWorkspaceReservation_weighted request :
  ScheduleFacts.compile_typed request -> 1 <= c_packet_count request ->
  1 <= c_execution_width request -> c_placement request = WeightedStable ->
  exists r, ScheduleWorkspaceReservation request = Some r /\ reservation_typed r /\
    NormalizeReservation r = Some r /\
    schedule_partition_capacity r = weighted_count request /\
    Forall (fun c => c_packet_count request <= c)
      [packet_work_unit_capacity r; ordered_packet_capacity r; packet_partition_capacity r;
       ordered_packet_scratch_capacity r] /\
    Forall (fun c => weighted_count request <= c)
      [partition_load_capacity r; partition_count_capacity r; partition_offset_capacity r;
       partition_write_offset_capacity r].
Proof.
  intros Ht Hn Hw Hpl. destruct (weighted_projection request Ht Hn Hw) as [Hok Hcount].
  assert (is_u32 (weighted_count request)) as Hwc.
  { destruct Ht as [? ? _ _ _ _ _]. unfold weighted_count, is_u32 in *. lia. }
  assert (is_u32 (proj_fold_slot_count (ProjectSchedule request))) as Hslots.
  { replace (proj_fold_slot_count (ProjectSchedule request)) with
      (proj_partition_count (ProjectSchedule request)) by
      (cbn; unfold ProjectPartitions; cbv zeta; repeat case_match; done).
    by rewrite Hcount. }
  unfold ScheduleWorkspaceReservation. cbv zeta. rewrite Hok, Hpl. cbn [negb].
  rewrite bool_decide_true by done. cbn [orb].
  destruct (NodeCount_total _ Hslots) as (nc & -> & Hnc), (EdgeCount_total _ Hslots) as (ec & Ee & Hec).
  assert (exists sc, FoldGraphFixedBinaryTreeScratchSlotCount (proj_fold_slot_count (ProjectSchedule request)) = Some sc
    /\ is_u32 sc) as (sc & -> & Hsc).
  { unfold FoldGraphFixedBinaryTreeScratchSlotCount. unfold FoldGraphFixedBinaryTreeEdgeCount in Ee. rewrite Ee.
    destruct (_ =? 0); eexists; (split; [done|]); [unfold is_u32; lia | apply wrap32_range]. }
  cbn [mbind option_bind]. rewrite Ee. cbn [mbind option_bind]. rewrite Hcount.
  match goal with |- context [NormalizeReservation ?x] => set (r0 := x) end.
  destruct (NormalizeReservation_spec r0) as (r & En & Htr & Hle & _ & Enn).
  { destruct Ht as [Hp _ _ _ _ _ _]. split; cbn; [done|]. unfold compared. cbn.
    rewrite !list.Forall_cons. split_and!; try done. }
  exists r. split; [done|]. split; [done|]. split; [done|]. split.
  { destruct (NodeCount_total _ Hwc) as (n1 & E1 & _), (EdgeCount_total _ Hwc) as (n2 & E2 & _).
    unfold NormalizeReservation in En.
    change (schedule_partition_capacity r0) with (weighted_count request) in En.
    rewrite E1, E2 in En. cbn [mbind option_bind] in En. by injection En as <-. }
  unfold compared in Hle. cbn in Hle. rewrite !Forall2_cons in Hle.
  destruct Hle as (_ & L2 & L3 & L4 & L5 & L6 & L7 & L8 & L9 & _).
  by rewrite !list.Forall_cons, !Forall_nil.
Qed.

(** A workspace that was reserved for a weighted request has every capacity that
    its [NoGrowth] compile checks: only the request itself can make it fail. *)
Theorem reserved_workspace_accepts layout addr workspace request reservation workspace' :
  layout_ok layout -> ScheduleFacts.compile_typed request ->
  1 <= c_packet_count request -> 1 <= c_execution_width request ->
  c_placement request = WeightedStable ->
  ScheduleWorkspaceReservation request = Some reservation ->
  ReserveWorkspace layout workspace reservation = Some (true, workspace') ->
  weighted_accepts addr workspace' request =
    PacketHintsValid request && HasWorkUnits request &&
    negb (bool_decide (source_kind (ClassifyWeightedWorkSource addr workspace' request) = Invalid)).
Proof.
  intros Hl Ht Hn Hw Hpl Er Ew.
  destruct (ScheduleWorkspaceReservation_weighted request Ht Hn Hw Hpl) as (r & E & Htr & En & Hp & Hk & Hm).
  rewrite E in Er. injection Er as <-.
  destruct (ReserveWorkspace_cases layout workspace r Hl Htr) as (r' & En' & _ & w1 & E1 & _ & Hcap).
  rewrite En in En'. injection En' as <-. rewrite Ew in E1. injection E1 as Hfit <-.
  destruct (Hcap (eq_sym Hfit)) as (Hle & _ & _). unfold required_capacities, all_capacities in Hle.
  rewrite !Forall2_cons in Hle. rewrite !list.Forall_cons in Hk, Hm.
  destruct Hle as (L1 & L2 & L3 & L4 & L5 & L6 & L7 & L8 & L9 & _), Hk as (K1 & K2 & K3 & K4 & _),
    Hm as (M1 & M2 & M3 & M4 & _).
  unfold weighted_accepts. destruct (weighted_projection request Ht Hn Hw) as [_ Hcount].
  assert (HasWeightedNoGrowthCapacity workspace' (ProjectSchedule request) = true) as ->.
  { unfold HasWeightedNoGrowthCapacity. rewrite projected_packets, Hcount, !Z.geb_leb.
    rewrite !(proj2 (Z.leb_le _ _)) by lia. done. }
  by rewrite andb_true_r.
Qed.

(** ** Witnesses *)
Definition example_workspace : Workspace :=
  match (r ← ScheduleWorkspaceReservation example_order_request;
         ReserveWorkspace example_layout EmptyWorkspace r) with
  | Some (_, w) => w
  | None => EmptyWorkspace
  end.
Definition no_alias : Addresses :=
  {| at_work_units := 0; at_packet_work_units := 4096; at_partition_loads := 8192; at_fold_slots := 16384 |}.

Lemma example_typed : ScheduleFacts.compile_typed example_order_request.
Proof. constructor; cbn; try (unfold is_u32; lia); constructor. Qed.

Lemma CompileWorkspaceSchedule_weighted_witness :
  compile_failure no_alias example_workspace example_order_request = None /\
  exists build workspace',
    CompileWorkspaceSchedule example_layout no_alias no_alias example_workspace example_order_request =
      Some (build, workspace') /\
    match compile_failure no_alias example_workspace example_order_request with
    | Some reason => pb_ok build = false /\ pb_reason build = reason /\ last_failure_reason workspace' = reason
    | None => pb_ok build = true /\
        (exists order partition_of,
          weighted_schedule example_order_request (weighted_count example_order_request)
            (resolved no_alias example_workspace example_order_request) workspace' order partition_of) /\
        capacities workspace' = capacities example_workspace /\
        s_no_allocation (schedule workspace') = true
    end.
Proof.
  split; [vm_compute; reflexivity|].
  apply (CompileWorkspaceSchedule_weighted example_layout no_alias no_alias example_workspace example_order_request).
  - exact example_typed.
  - cbn. rewrite !list.Forall_cons. unfold hint_ok, hint_typed, is_u32, is_u64. cbn.
    split_and!; try lia. constructor.
  - replace (items (ws_packet_work_units example_workspace)) with (@nil Z) by (vm_compute; reflexivity).
    constructor.
  - cbn. lia.
  - cbn. lia.
  - vm_compute. congruence.
  - done.
  - done.
Defined.

Example example_schedule :
  (r ← CompileWorkspaceSchedule example_layout no_alias no_alias example_workspace example_order_request;
   Some (pb_ok r.1, map (fun p => (p_begin p, p_end p)) (items (s_partitions (schedule r.2))),
         items (ws_ordered_packet_indices r.2), items (ws_partition_loads r.2))) =
  Some (true, [(0, 2); (2, 5)], [4; 2; 1; 3; 0], [900006; 11]).
Proof. vm_compute. reflexivity. Qed.

Lemma reserved_workspace_accepts_witness :
  exists reservation workspace',
    ScheduleWorkspaceReservation example_order_request = Some reservation /\
    ReserveWorkspace example_layout EmptyWorkspace reservation = Some (true, workspace') /\
    weighted_accepts no_alias workspace' example_order_request =
      PacketHintsValid example_order_request && HasWorkUnits example_order_request &&
      negb (bool_decide (source_kind
        (ClassifyWeightedWorkSource no_alias workspace' example_order_request) = Invalid)).
Proof.
  eexists _, _. split; [vm_compute; reflexivity|]. split; [vm_compute; reflexivity|].
  eapply (reserved_workspace_accepts example_layout no_alias EmptyWorkspace example_order_request);
    [exact example_layout_ok | exact example_typed | cbn; lia | cbn; lia | done
    | vm_compute; reflexivity | vm_compute; reflexivity].
Defined.
