(* ===== verification/Artifact.v ===== *)
(** * Replay artifacts: the byte writer and reader

    [src/node/src/runtime/replay/artifact/format.hpp]: the header, the canonical
    variable-length integers, the zigzag signed integers and the 64-bit words every
    replay artifact is made of. The writer stages bytes in a 4096-byte buffer and
    hands them to a sink that may refuse them; the reader walks a span with a
    cursor.

    A byte is an integer below 256. The sink is a type class: its [write] is the
    callback of [Sink] and [received] names the bytes it has accepted. A reader
    operation is [Some (value, reader)] where the code returns [true] and [None]
    where it returns [false]; every caller gives up at the first failure, so the
    cursor of a failed read is not kept. *)

From stdpp Require Import base numbers list option.
From Stdlib Require Import ZArith Lia.
From S2P Require Import Prelude Checked.

Definition is_byte (b : Z) : Prop := 0 <= b < 256.
#[export] Instance is_byte_dec b : Decision (is_byte b).
Proof. unfold is_byte; apply _. Defined.

Definition is_i64 (z : Z) : Prop := - 9223372036854775808 <= z <= 9223372036854775807.
#[export] Instance is_i64_dec z : Decision (is_i64 z).
Proof. unfold is_i64; apply _. Defined.

(** ** Result codes

    [rund::replay::Code]: the family in the upper half, the value of
    [rund/replay/code.def] in the lower half. *)
Module Code.
Definition replay_code (domain value : Z) : Z := Z.lor (Z.shiftl domain 16) value.
Definition Ok : Z := 0.
Definition ArtifactNotSaved : Z := replay_code 1 102.
Definition ArtifactOutputInvalid : Z := replay_code 1 103.
Definition ArtifactWriteFailed : Z := replay_code 1 104.
Definition ArtifactCapacityExceeded : Z := replay_code 1 105.
Definition HostBadHeader : Z := replay_code 3 1.
Definition HostBadValue : Z := replay_code 3 3.
Definition HostHashInvalid : Z := replay_code 3 7.
Definition HostPayloadHashInvalid : Z := replay_code 3 12.
Definition CodecInvariantInvalid : Z := replay_code 6 46.
Definition CodecPayloadCapacityExceeded : Z := replay_code 6 56.
Definition CodecEntryCapacityExceeded : Z := replay_code 6 57.
End Code.

Inductive Kind := Record_ | Checkpoint | HostEvents | Accelerator | Kernel.
Definition kind_byte (k : Kind) : Z :=
  match k with Record_ => 1 | Checkpoint => 2 | HostEvents => 3 | Accelerator => 4 | Kernel => 5 end.

Definition kMagic : list Z := [114; 117; 110; 68; 26; 10].
Definition kSchema : Z := 1.
Definition kHeaderBytes : Z := zlen kMagic + 2.
Definition kWriteSpanBytes : Z := 4096.

(** The number of bytes of a canonical variable-length integer; nine rounds are
    enough for 64 bits. *)
Fixpoint VaruintBytes_loop (fuel : nat) (bytes value : Z) : Z :=
  match fuel with
  | O => bytes
  | S n => if 128 <=? value then VaruintBytes_loop n (bytes + 1) (Z.shiftr value 7) else bytes
  end.
Definition VaruintBytes (value : Z) : Z := VaruintBytes_loop 9 1 value.

(** ** The sink *)
Class Sink (S : Type) := {
  write : S -> list Z -> bool * S;
  received : S -> list Z;
  write_received s bs s' : write s bs = (true, s') -> received s' = received s ++ bs;
}.

(** A sink that never refuses. *)
Class Reliable (S : Type) `{!Sink S} :=
  write_accepts s bs : (write s bs).1 = true.

(** [artifact::append]: the sink that collects the bytes in a vector. *)
Definition append (state bytes : list Z) : bool * list Z := (true, state ++ bytes).
#[export] Instance vector_sink : Sink (list Z).
Proof. refine {| write := append; received := id |}. intros s bs s' [= <-]. done. Defined.
#[export] Instance vector_sink_reliable : Reliable (list Z).
Proof. done. Qed.

(** ** The writer

    [w_buffer] is the first [size_] bytes of the staging buffer. *)
Record Writer (S : Type) := mk_writer {
  w_sink : S;
  w_max_bytes : Z;
  w_code : Z;
  w_buffer : list Z;
  w_bytes : Z;
  w_writes : Z;
}.
#[global] Arguments mk_writer {S} _ _ _ _ _ _.
#[global] Arguments w_sink {S} _.
#[global] Arguments w_max_bytes {S} _.
#[global] Arguments w_code {S} _.
#[global] Arguments w_buffer {S} _.
#[global] Arguments w_bytes {S} _.
#[global] Arguments w_writes {S} _.

Record Result := mk_result { res_code : Z; res_bytes : Z; res_writes : Z }.
Definition result_ok (r : Result) : bool := res_code r =? Code.Ok.

Section Writer.
Context {S : Type} `{!Sink S}.

(** A writer operation returns the [bool] of the code and the writer it leaves. *)
Definition action := Writer S -> bool * Writer S.

(** [a && b] *)
Definition and_then (a b : action) : action :=
  fun w => let '(ok, w) := a w in if ok then b w else (false, w).

(** [!condition || a] *)
Definition when (condition : bool) (a : action) : action :=
  fun w => if condition then a w else (true, w).

Definition with_buffer (w : Writer S) (buffer : list Z) : Writer S :=
  mk_writer (w_sink w) (w_max_bytes w) (w_code w) buffer (w_bytes w) (w_writes w).

(** The constructor; [valid] is [sink.valid()]. *)
Definition make_writer (sink : S) (max_bytes : Z) (valid : bool) : Writer S :=
  mk_writer sink max_bytes (if valid then Code.Ok else Code.ArtifactOutputInvalid) [] 0 0.

Definition writer_ok (w : Writer S) : bool := w_code w =? Code.Ok.

Definition reject (code : Z) : action :=
  fun w =>
    if writer_ok w then
      (false, mk_writer (w_sink w) (w_max_bytes w)
                (if code =? Code.Ok then Code.ArtifactWriteFailed else code)
                (w_buffer w) (w_bytes w) (w_writes w))
    else (false, w).

Definition require (result : bool) (code : Z) : action :=
  fun w => if result then (true, w) else reject code w.

Definition emit (bytes : list Z) : action :=
  fun w =>
    if negb (writer_ok w) || (zlen bytes =? 0) then (writer_ok w, w) else
    match Checked.add (w_bytes w) (zlen bytes), Checked.add (w_writes w) 1 with
    | Some next_bytes, Some next_writes =>
        if w_max_bytes w <? next_bytes then reject Code.ArtifactCapacityExceeded w else
        let '(accepted, sink) := write (w_sink w) bytes in
        let w' := mk_writer sink (w_max_bytes w) (w_code w) (w_buffer w) (w_bytes w) (w_writes w) in
        if accepted then
          (true, mk_writer sink (w_max_bytes w) (w_code w) (w_buffer w) next_bytes next_writes)
        else reject Code.ArtifactWriteFailed w'
    | _, _ => reject Code.ArtifactCapacityExceeded w
    end.

Definition flush : action :=
  fun w =>
    if zlen (w_buffer w) =? 0 then (writer_ok w, w) else
    let '(ok, w) := emit (w_buffer w) w in
    if ok then (true, with_buffer w []) else (false, w).

Definition room (bytes : Z) : action :=
  fun w =>
    if negb (writer_ok w) then (false, w) else
    if kWriteSpanBytes <? bytes then reject Code.ArtifactCapacityExceeded w else
    if bytes <=? kWriteSpanBytes - zlen (w_buffer w) then (true, w) else flush w.

(** [buffer_[size_++] = byte] *)
Definition push (bytes : list Z) : action :=
  fun w => (true, with_buffer w (w_buffer w ++ bytes)).

Definition put_u8 (value : Z) : action := and_then (room 1) (push [value]).

(** The [do]-[while] loop of [varuint]; ten rounds exhaust a 64-bit value. *)
Fixpoint put_varuint_loop (fuel : nat) (value : Z) : action :=
  fun w =>
    match fuel with
    | O => (false, w)
    | Datatypes.S n =>
        let byte := Z.land value 127 in
        let value := Z.shiftr value 7 in
        let '(ok, w) := put_u8 (Z.lor byte (if value =? 0 then 0 else 128)) w in
        if negb ok then (false, w) else
        if value =? 0 then (true, w) else put_varuint_loop n value w
    end.
Definition put_varuint : Z -> action := put_varuint_loop 10.

Definition zigzag (value : Z) : Z :=
  let bits := wrap64 value in
  Z.lxor (wrap64 (Z.shiftl bits 1)) (wrap64 (0 - Z.shiftr bits 63)).
Definition put_sint (value : Z) : action := put_varuint (zigzag value).

Definition word_bytes (value : Z) : list Z :=
  map (fun shift => Z.land (Z.shiftr value shift) 255) [0; 8; 16; 24; 32; 40; 48; 56].
Definition put_fixed64 (value : Z) : action := and_then (room 8) (push (word_bytes value)).

(** Spans larger than the staging buffer reach the sink in pieces of at most
    [kWriteSpanBytes]; the fuel is the number of bytes. *)
Fixpoint raw_loop (fuel : nat) (bytes : list Z) : action :=
  fun w =>
    if negb (writer_ok w) || (zlen bytes =? 0) then (writer_ok w, w) else
    match fuel with
    | O => (false, w)
    | Datatypes.S n =>
        let count := Z.min (zlen bytes) kWriteSpanBytes in
        let '(ok, w) := emit (take (Z.to_nat count) bytes) w in
        if ok then raw_loop n (drop (Z.to_nat count) bytes) w else (false, w)
    end.
Definition raw (bytes : list Z) : action := and_then flush (raw_loop (length bytes) bytes).

Definition put_header (kind : Kind) : action :=
  and_then (raw kMagic) (and_then (put_u8 kSchema) (put_u8 (kind_byte kind))).

Definition finish (w : Writer S) : Result * Writer S :=
  let w := if writer_ok w then (flush w).2 else w in
  (mk_result (w_code w) (w_bytes w) (w_writes w), w).
End Writer.
#[global] Arguments action S : clear implicits.

(** ** The reader *)
Record Reader := mk_reader { r_bytes : list Z; r_cursor : Z }.

Definition remaining (r : Reader) : Z := zlen (r_bytes r) - r_cursor r.
Definition reader_done (r : Reader) : bool := r_cursor r =? zlen (r_bytes r).
Definition advance (r : Reader) (n : Z) : Reader := mk_reader (r_bytes r) (r_cursor r + n).

Definition get_u8 (r : Reader) : option (Z * Reader) :=
  if r_cursor r =? zlen (r_bytes r) then None else
  byte ← zget (r_bytes r) (r_cursor r);
  Some (byte, advance r 1).

Fixpoint get_varuint_loop (rounds : nat) (index value : Z) (r : Reader) : option (Z * Reader) :=
  match rounds with
  | O => None
  | S n =>
      '(byte, r) ← get_u8 r;
      if (index =? 9) && (1 <? byte) then None else
      let value := Z.lor value (Z.shiftl (Z.land byte 127) (index * 7)) in
      if Z.land byte 128 =? 0 then
        if VaruintBytes value =? index + 1 then Some (value, r) else None
      else get_varuint_loop n (index + 1) value r
  end.
Definition get_varuint : Reader -> option (Z * Reader) := get_varuint_loop 10 0 0.

Definition unzigzag (encoded : Z) : Z :=
  to_signed 64 (Z.lxor (Z.shiftr encoded 1) (wrap64 (0 - Z.land encoded 1))).
Definition get_sint (r : Reader) : option (Z * Reader) :=
  '(encoded, r) ← get_varuint r; Some (unzigzag encoded, r).

Definition word_step (st : Z * Reader) (shift : Z) : option (Z * Reader) :=
  let '(value, r) := st in
  byte ← zget (r_bytes r) (r_cursor r);
  Some (Z.lor value (Z.shiftl byte shift), advance r 1).
Definition get_fixed64 (r : Reader) : option (Z * Reader) :=
  if remaining r <? 8 then None else
  for_each word_step (0, r) [0; 8; 16; 24; 32; 40; 48; 56].

(** The bytes [take] hands out. *)
Definition get_take (count : Z) (r : Reader) : option (list Z * Reader) :=
  if remaining r <? count then None else
  Some (take (Z.to_nat count) (drop (Z.to_nat (r_cursor r)) (r_bytes r)), advance r count).

Definition get_header (expected : Kind) (r : Reader) : option Reader :=
  '(magic, r) ← get_take (zlen kMagic) r;
  if negb (bool_decide (magic = kMagic)) then None else
  '(schema, r) ← get_u8 r;
  if negb (schema =? kSchema) then None else
  '(kind, r) ← get_u8 r;
  if kind =? kind_byte expected then Some r else None.

(** ** Fields and sequences

    [(fields & Field) != 0 && !in.get(value)]: a field that is read only when its
    flag is set, and keeps its initial zero otherwise. *)
Definition get_if (present : bool) (get : Reader -> option (Z * Reader)) (r : Reader)
    : option (Z * Reader) :=
  if present then get r else Some (0, r).

(** The loops over a vector of decoded or encoded elements: [next] is the part of an
    element that the following one is relative to. *)
Fixpoint get_list {A St} (get : St -> Reader -> option (A * Reader)) (next : A -> St)
    (n : nat) (st : St) (r : Reader) : option (list A * Reader) :=
  match n with
  | O => Some ([], r)
  | Datatypes.S n =>
      '(a, r) ← get st r;
      '(l, r) ← get_list get next n (next a) r;
      Some (a :: l, r)
  end.

Fixpoint put_list {A St S} (put : St -> A -> action S) (next : A -> St) (st : St) (l : list A)
    : action S :=
  fun w =>
    match l with
    | [] => (true, w)
    | a :: l => let '(ok, w) := put st a w in if ok then put_list put next (next a) l w else (false, w)
    end.
