(* ===== verification/ArtifactFacts.v ===== *)
(** * ArtifactFacts: laws of the artifact writer and reader

    - [Wire]: the interface between a pair of writer and reader operations and
      their clients: what is written, and that reading it back gives the value and
      nothing else gives it ([WireLaws]).
    - the instances for bytes, variable-length integers, signed integers and words;
    - [Emits]: what a writer operation leaves in the sink and the staging buffer,
      and the run of a whole writer as its bytes. *)

From stdpp Require Import base numbers list option.
From Stdlib Require Import ZArith Lia.
From S2P Require Import Prelude Checked Artifact.

(** ** Positions of a reader *)
Definition rest_of (r : Reader) : list Z := drop (Z.to_nat (r_cursor r)) (r_bytes r).
Record reader_wf (r : Reader) : Prop := {
  wf_bytes : Forall is_byte (r_bytes r);
  wf_cursor : 0 <= r_cursor r <= zlen (r_bytes r);
}.
Record at_ (r : Reader) (bs : list Z) : Prop := {
  at_wf : reader_wf r;
  at_rest : rest_of r = bs;
}.

Lemma at_here r : reader_wf r -> at_ r (rest_of r).
Proof. by constructor. Qed.

Lemma at_len r bs : at_ r bs -> zlen bs = remaining r.
Proof.
  intros [[_ Hc] <-]. unfold rest_of, remaining, zlen in *. rewrite length_drop. lia.
Qed.

Lemma at_advance r bs rest : at_ r (bs ++ rest) -> at_ (advance r (zlen bs)) rest.
Proof.
  intros Ha. pose proof (at_len _ _ Ha) as Hl. destruct Ha as [[Hb Hc] Hr].
  rewrite zlen_app in Hl. unfold remaining in Hl. pose proof (zlen_nonneg bs). pose proof (zlen_nonneg rest).
  split; [split; [done | cbn; lia]|].
  unfold rest_of, advance in *; cbn. rewrite Z2Nat.inj_add by lia.
  rewrite <- drop_drop, Hr. unfold zlen. rewrite Nat2Z.id. apply drop_app_length.
Qed.

Lemma at_bytes r bs : at_ r bs -> Forall is_byte bs.
Proof. intros [[Hb _] <-]. by apply Forall_drop. Qed.

Lemma advance_advance r m n : advance (advance r m) n = advance r (m + n).
Proof. unfold advance; cbn. f_equal. lia. Qed.

Lemma advance_0 r : advance r 0 = r.
Proof. destruct r. unfold advance; cbn. f_equal. lia. Qed.

(** ** The interface of a wire format *)
Record Wire (A : Type) := mk_wire {
  wire_put : A -> list Z;
  wire_get : Reader -> option (A * Reader);
  wire_valid : A -> Prop;
}.
#[global] Arguments mk_wire {A} _ _ _.
#[global] Arguments wire_put {A} _ _.
#[global] Arguments wire_get {A} _ _.
#[global] Arguments wire_valid {A} _ _.

Class WireLaws {A} (w : Wire A) := {
  wire_bytes a : wire_valid w a -> Forall is_byte (wire_put w a);
  wire_get_put a r rest : wire_valid w a -> at_ r (wire_put w a ++ rest) ->
    wire_get w r = Some (a, advance r (zlen (wire_put w a)));
  wire_get_sound r a r' : reader_wf r -> wire_get w r = Some (a, r') ->
    wire_valid w a /\ at_ r (wire_put w a ++ rest_of r') /\ r' = advance r (zlen (wire_put w a));
}.

Lemma wire_sound_wf {A} (w : Wire A) `{!WireLaws w} r a r' :
  reader_wf r -> wire_get w r = Some (a, r') -> reader_wf r'.
Proof.
  intros Hr E. destruct (wire_get_sound r a r' Hr E) as (_ & Ha & ->).
  apply at_advance in Ha. apply Ha.
Qed.

(** One step of a reading sequence. *)
Lemma get_bind {A B} (m : option (A * Reader)) a r (k : A -> Reader -> option B) res :
  m = Some (a, r) -> k a r = res -> ('(a, r) ← m; k a r) = res.
Proof. by intros ->. Qed.
Lemma get_bind_inv {A B} (m : option (A * Reader)) (k : A -> Reader -> option B) res :
  ('(a, r) ← m; k a r) = Some res -> exists a r, m = Some (a, r) /\ k a r = Some res.
Proof. destruct m as [[a r]|]; [|done]. intros E. by exists a, r. Qed.

(** A written value determines the value: no two values share their bytes. *)
Lemma wire_put_inj {A} (w : Wire A) `{!WireLaws w} a b :
  wire_valid w a -> wire_valid w b -> wire_put w a = wire_put w b -> a = b.
Proof.
  intros Ha Hb E. set (r := mk_reader (wire_put w a) 0).
  assert (at_ r (wire_put w a ++ [])) as Hr.
  { rewrite app_nil_r. split; [split; [by apply wire_bytes | cbn; pose proof (zlen_nonneg (wire_put w a)); lia]|done]. }
  pose proof (wire_get_put a r [] Ha Hr) as E1. rewrite E in Hr.
  pose proof (wire_get_put b r [] Hb Hr) as E2. rewrite E1 in E2. by injection E2.
Qed.

(** ** Bytes *)
Lemma get_u8_at r b rest : at_ r (b :: rest) -> get_u8 r = Some (b, advance r 1).
Proof.
  intros Ha. pose proof (at_len _ _ Ha) as Hl. destruct Ha as [[_ Hc] Hr].
  rewrite zlen_cons in Hl. unfold remaining in Hl. pose proof (zlen_nonneg rest).
  unfold get_u8. destruct (Z.eqb_spec (r_cursor r) (zlen (r_bytes r))); [lia|].
  assert (zget (r_bytes r) (r_cursor r) = Some b) as ->; [|done].
  apply zget_Some. split; [lia|]. unfold rest_of in Hr.
  rewrite <- (Nat.add_0_r (Z.to_nat (r_cursor r))), <- lookup_drop, Hr. done.
Qed.

Lemma get_u8_inv r b r' : reader_wf r -> get_u8 r = Some (b, r') ->
  is_byte b /\ at_ r (b :: rest_of r') /\ r' = advance r 1.
Proof.
  intros [Hb Hc]. unfold get_u8. case_match eqn:E; [done|]. to_prop.
  destruct (zget_is_Some (r_bytes r) (r_cursor r) ltac:(lia)) as [x Hx]. rewrite Hx; cbn.
  intros [= <- <-]. apply zget_Some in Hx as [_ Hx].
  split; [by eapply (list.Forall_lookup_1 _ _ _ _ Hb)|]. split; [|done].
  split; [done|]. unfold rest_of; cbn. rewrite Z2Nat.inj_add by lia.
  rewrite Nat.add_1_r. by apply drop_S.
Qed.

Definition u8_wire : Wire Z := mk_wire (fun b => [b]) get_u8 is_byte.
#[export] Instance u8_laws : WireLaws u8_wire.
Proof.
  split; cbn.
  - intros. by constructor.
  - intros a r rest _ Ha. rewrite zlen_cons, zlen_nil. by eapply get_u8_at.
  - intros r a r' Hr E. rewrite zlen_cons, zlen_nil. by apply get_u8_inv.
Qed.

(** ** Variable-length integers

    [leb k v] is the base-128 expansion of [v] with continuation bits, [k] digits
    at most. *)
Fixpoint leb (k : nat) (v : Z) : list Z :=
  match k with
  | O => []
  | S n => if v / 128 =? 0 then [v mod 128] else (v mod 128 + 128) :: leb n (v / 128)
  end.

Lemma pow128_succ k : 0 <= k -> 128 ^ (k + 1) = 128 * 128 ^ k.
Proof. intros. rewrite Z.pow_add_r by lia. lia. Qed.

Lemma div128 v k : 0 <= k -> 0 <= v < 128 ^ (k + 1) -> 0 <= v / 128 < 128 ^ k.
Proof. intros Hk Hv. rewrite pow128_succ in Hv by done. split; [apply Z.div_pos; lia | apply Z.div_lt_upper_bound; lia]. Qed.

Lemma leb_bytes k v : 0 <= v -> Forall is_byte (leb k v).
Proof.
  revert v; induction k as [|k IH]; intros v Hv; cbn; [constructor|].
  pose proof (Z.mod_pos_bound v 128). case_match; constructor; unfold is_byte; try lia; [constructor|].
  apply IH. by apply Z.div_pos.
Qed.

(** The number of digits: [VaruintBytes] is the least [n] with [v < 128^n]. *)
Lemma VaruintBytes_loop_spec fuel bytes v :
  0 <= v < 128 ^ (Z.of_nat fuel + 1) ->
  exists n, VaruintBytes_loop fuel bytes v = bytes + n /\ 0 <= n <= Z.of_nat fuel /\
    v < 128 ^ (n + 1) /\ (n = 0 \/ 128 ^ n <= v).
Proof.
  revert bytes v; induction fuel as [|fuel IH]; intros bytes v Hv; cbn [VaruintBytes_loop].
  - exists 0. cbn in *. repeat split; lia.
  - destruct (Z.leb_spec 128 v).
    + rewrite Z.shiftr_div_pow2 by lia. change (2 ^ 7) with 128.
      destruct (IH (bytes + 1) (v / 128)) as (n & -> & Hn & Hlt & Hge).
      { apply div128; [lia|]. by replace (Z.of_nat fuel + 1 + 1) with (Z.of_nat (S fuel) + 1) by lia. }
      exists (n + 1). repeat split; [lia..| |].
      * rewrite (pow128_succ (n + 1)) by lia.
        pose proof (Z.div_mod v 128). pose proof (Z.mod_pos_bound v 128). lia.
      * right. rewrite pow128_succ by lia. destruct Hge as [->|Hge].
        -- change (128 ^ 0) with 1. lia.
        -- pose proof (Z.mul_div_le v 128). lia.
    + exists 0. repeat split; cbn; lia.
Qed.

Lemma VaruintBytes_spec v : is_u64 v ->
  exists n, VaruintBytes v = n /\ 1 <= n <= 10 /\ v < 128 ^ n /\ (n = 1 \/ 128 ^ (n - 1) <= v).
Proof.
  intros [H0 H1]. destruct (VaruintBytes_loop_spec 9 1 v) as (n & E & Hn & Hlt & Hge).
  { split; [done|]. change (128 ^ (Z.of_nat 9 + 1)) with 1180591620717411303424. lia. }
  exists (1 + n). split; [done|]. split; [lia|].
  replace (1 + n) with (n + 1) at 1 by lia. split; [done|].
  replace (1 + n - 1) with n by lia. destruct Hge; [left; lia | by right].
Qed.

Lemma VaruintBytes_unique v n : is_u64 v -> 1 <= n -> v < 128 ^ n -> (n = 1 \/ 128 ^ (n - 1) <= v) ->
  VaruintBytes v = n.
Proof.
  intros Hv Hn Hlt Hge. destruct (VaruintBytes_spec v Hv) as (m & -> & Hm & Hlt' & Hge').
  destruct (Z.lt_trichotomy m n) as [H|[H|H]]; [|done|]; exfalso.
  - assert (128 ^ m <= 128 ^ (n - 1)) by (apply Z.pow_le_mono_r; lia). lia.
  - assert (128 ^ n <= 128 ^ (m - 1)) by (apply Z.pow_le_mono_r; lia). lia.
Qed.

Lemma leb_length k v : 0 <= v < 128 ^ Z.of_nat k -> (0 < k)%nat ->
  1 <= zlen (leb k v) /\ v < 128 ^ zlen (leb k v) /\
  (zlen (leb k v) = 1 \/ 128 ^ (zlen (leb k v) - 1) <= v).
Proof.
  revert v; induction k as [|k IH]; intros v Hv Hk; [lia|]. cbn [leb].
  pose proof (Z.div_mod v 128). pose proof (Z.mod_pos_bound v 128).
  destruct (Z.eqb_spec (v / 128) 0) as [E|E].
  - rewrite zlen_cons, zlen_nil. change (128 ^ (0 + 1)) with 128. lia.
  - assert (0 <= v / 128) by (apply Z.div_pos; lia).
    destruct k as [|k']; [cbn in Hv; exfalso; lia|].
    destruct (IH (v / 128)) as (I1 & I2 & I3).
    { replace (Z.of_nat (S (S k'))) with (Z.of_nat (S k') + 1) in Hv by lia. apply div128; [lia|done]. }
    { lia. }
    rewrite zlen_cons. set (n := zlen (leb (S k') (v / 128))) in *.
    split; [lia|]. split; [rewrite pow128_succ by lia; lia|]. right.
    replace (n + 1 - 1) with (n - 1 + 1) by lia. rewrite pow128_succ by lia.
    destruct I3 as [->|I3]; [change (128 ^ (1 - 1)) with 1; lia | lia].
Qed.

(** One byte of the reading loop, as arithmetic. *)
Lemma pow128_pow2 k : 0 <= k -> 128 ^ k = 2 ^ (k * 7).
Proof. intros. change 128 with (2 ^ 7). rewrite <- Z.pow_mul_r by lia. f_equal. lia. Qed.

Lemma digit_join acc b index : 0 <= index -> 0 <= acc < 128 ^ index -> 0 <= b ->
  Z.lor acc (Z.shiftl (Z.land b 127) (index * 7)) = acc + (b mod 128) * 128 ^ index.
Proof.
  intros Hi Hacc Hb. change 127 with (2 ^ 7 - 1). rewrite land_mask by lia. change (2 ^ 7) with 128.
  rewrite Z.shiftl_mul_pow2, <- pow128_pow2 by lia.
  rewrite (pow128_pow2 index) in * by done. rewrite Z.lor_comm, lor_disjoint by lia. lia.
Qed.

Lemma digit_last b : is_byte b -> (Z.land b 128 =? 0) = (b <? 128).
Proof.
  intros Hb. unfold is_byte in Hb. change 128 with (2 ^ 7) at 1. rewrite land_pow2 by lia. change (2 ^ 7) with 128.
  destruct (Z.ltb_spec b 128).
  - by rewrite Z.div_small by lia.
  - replace (b / 128) with 1; [done|]. apply Z.div_unique with (b - 128); lia.
Qed.

Lemma pow128_9 index : 0 <= index <= 9 -> 128 ^ index <= 9223372036854775808.
Proof. intros. change 9223372036854775808 with (128 ^ 9). apply Z.pow_le_mono_r; lia. Qed.

Lemma digit_fits acc b index : 0 <= index <= 9 -> 0 <= acc < 128 ^ index -> 0 <= b < 128 ->
  (index = 9 -> b <= 1) -> is_u64 (acc + b * 128 ^ index).
Proof.
  intros Hi Ha Hb H9. unfold is_u64. destruct (Z.eq_dec index 9) as [->|].
  - specialize (H9 eq_refl). change (128 ^ 9) with 9223372036854775808 in *. nia.
  - assert (128 ^ (index + 1) <= 9223372036854775808) by (apply pow128_9; lia).
    rewrite pow128_succ in * by lia. nia.
Qed.

Lemma get_loop_put k : forall rounds index acc v r rest,
  (0 < k)%nat -> Z.of_nat rounds + index = 10 -> (0 < rounds)%nat -> 0 <= index ->
  0 <= acc < 128 ^ index -> 0 <= v < 128 ^ Z.of_nat k -> acc + v * 128 ^ index <= U64_MAX ->
  0 < v \/ index = 0 -> at_ r (leb k v ++ rest) ->
  get_varuint_loop rounds index acc r =
    Some (acc + v * 128 ^ index, advance r (zlen (leb k v))).
Proof.
  induction k as [|k IH]; [lia|]. intros rounds index acc v r rest _ Hr Hr0 Hi Hacc Hv Hu Hc Ha.
  destruct rounds as [|rounds]; [lia|]. cbn [get_varuint_loop].
  pose proof (Z.div_mod v 128). pose proof (Z.mod_pos_bound v 128). pose proof (pow2_pos (index * 7)).
  rewrite <- pow128_pow2 in * by lia.
  assert (index = 9 -> v <= 1) as H9.
  { intros ->. change (128 ^ 9) with 9223372036854775808 in *. nia. }
  cbn [leb] in Ha |- *. destruct (Z.eqb_spec (v / 128) 0) as [E|E].
  - cbn [app] in Ha. rewrite (get_u8_at _ _ _ Ha). cbn [mbind option_bind].
    replace ((index =? 9) && (1 <? v mod 128)) with false.
    2:{ symmetry. apply andb_false_iff. destruct (Z.eqb_spec index 9) as [->|]; [right|by left]. apply Z.ltb_ge. lia. }
    rewrite digit_join, digit_last by (unfold is_byte; lia). rewrite Zmod_mod.
    destruct (Z.ltb_spec (v mod 128) 128); [|lia]. replace (v mod 128) with v by lia.
    rewrite (VaruintBytes_unique _ (index + 1)), Z.eqb_refl, zlen_cons, zlen_nil; [done|unfold is_u64; nia|lia| |].
    + rewrite pow128_succ by lia. nia.
    + replace (index + 1 - 1) with index by lia. destruct Hc as [Hc| ->]; [right; nia | by left].
  - cbn [app] in Ha. rewrite (get_u8_at _ _ _ Ha). cbn [mbind option_bind].
    assert (0 < v / 128) by (pose proof (Z.div_pos v 128); lia).
    assert (index <> 9) by (intros ->; lia).
    replace ((index =? 9) && (1 <? v mod 128 + 128)) with false by (symmetry; apply andb_false_iff; left; by apply Z.eqb_neq).
    rewrite digit_join, digit_last by (unfold is_byte; lia).
    rewrite (Zplus_mod (v mod 128)), Z_mod_same_full, Z.add_0_r, !Zmod_mod.
    destruct (Z.ltb_spec (v mod 128 + 128) 128); [lia|].
    destruct k as [|k]; [cbn in Hv; lia|].
    assert (at_ (advance r 1) (leb (S k) (v / 128) ++ rest)) as Ha'.
    { change (_ :: leb (S k) (v / 128) ++ rest) with ([v mod 128 + 128] ++ (leb (S k) (v / 128) ++ rest)) in Ha.
      by apply at_advance in Ha. }
    rewrite (IH rounds (index + 1) _ (v / 128) (advance r 1) rest); [| lia..| | | | | done].
    + rewrite zlen_cons, advance_advance, pow128_succ by lia. f_equal. f_equal; [nia|f_equal; lia].
    + rewrite pow128_succ by lia. nia.
    + replace (Z.of_nat (S (S k))) with (Z.of_nat (S k) + 1) in Hv by lia. by apply div128; [lia|].
    + rewrite pow128_succ by lia. nia.
    + by left.
Qed.

Lemma get_loop_sound rounds : forall index acc r x r',
  Z.of_nat rounds + index = 10 -> 0 <= index -> 0 <= acc < 128 ^ index -> reader_wf r ->
  get_varuint_loop rounds index acc r = Some (x, r') ->
  exists v, x = acc + v * 128 ^ index /\ 0 <= v < 128 ^ Z.of_nat rounds /\ is_u64 x /\
    VaruintBytes x = index + zlen (leb rounds v) /\
    at_ r (leb rounds v ++ rest_of r') /\ r' = advance r (zlen (leb rounds v)).
Proof.
  induction rounds as [|rounds IH]; intros index acc r x r' Hr Hi Hacc Hwf; cbn [get_varuint_loop]; [done|].
  destruct (get_u8 r) as [[b r1]|] eqn:Eb; [|done]. cbn [mbind option_bind].
  destruct (get_u8_inv r b r1 Hwf Eb) as (Hb & Ha & ->). pose proof Hb as Hb'. unfold is_byte in Hb'.
  destruct ((index =? 9) && (1 <? b)) eqn:E9; [done|].
  assert (index = 9 -> b <= 1) as H9.
  { intros ->. rewrite Z.eqb_refl in E9. cbn in E9. by apply Z.ltb_ge in E9. }
  assert (0 < 128 ^ index) by (apply Z.pow_pos_nonneg; lia).
  rewrite digit_join, digit_last by (done || lia). destruct (Z.ltb_spec b 128).
  - rewrite (Z.mod_small b) by lia. case_match eqn:Ec; [|done]. apply Z.eqb_eq in Ec. intros [= <- <-].
    exists b. cbn [leb]. rewrite (Z.div_small b), (Z.mod_small b) by lia. cbn [Z.eqb].
    split; [done|]. split.
    { split; [lia|]. replace (Z.of_nat (S rounds)) with (Z.of_nat rounds + 1) by lia.
      rewrite pow128_succ by lia. assert (0 < 128 ^ Z.of_nat rounds) by (apply Z.pow_pos_nonneg; lia). lia. }
    split; [apply digit_fits; lia|]. done.
  - intros Eg. assert (b mod 128 = b - 128) as Em.
    { symmetry. apply (Z.mod_unique b 128 1); lia. }
    assert (index <> 9) by lia.
    assert (0 <= acc + b mod 128 * 128 ^ index < 128 ^ (index + 1)).
    { rewrite pow128_succ by lia. nia. }
    destruct (IH (index + 1) _ _ _ _ ltac:(lia) ltac:(lia) ltac:(eassumption)
      (at_wf _ _ (at_advance r [b] _ Ha)) Eg) as (v & -> & Hv & Hu & Hn & Ha' & ->).
    assert (0 < v) as Hv0.
    { destruct (Z.eq_dec v 0) as [->|]; [|lia]. exfalso.
      destruct (VaruintBytes_spec _ Hu) as (n & En & Hn1 & _ & Hge). rewrite En in Hn.
      assert (1 <= zlen (leb rounds 0)).
      { destruct rounds; [cbn in Eg; done|]. by vm_compute. }
      destruct Hge as [->|Hge]; [lia|].
      assert (128 ^ (index + 1) <= 128 ^ (n - 1)) by (apply Z.pow_le_mono_r; lia). lia. }
    exists (b - 128 + 128 * v). rewrite Em in *. rewrite pow128_succ in * by lia.
    cbn [leb].
    replace ((b - 128 + 128 * v) / 128) with v by (apply (Z.div_unique _ _ _ (b - 128)); lia).
    replace ((b - 128 + 128 * v) mod 128) with (b - 128) by (apply (Z.mod_unique _ _ v); lia).
    destruct (Z.eqb_spec v 0); [lia|]. replace (b - 128 + 128) with b by lia.
    change (zlen [b]) with 1 in *. rewrite zlen_cons, advance_advance. split; [lia|]. split.
    { replace (Z.of_nat (S rounds)) with (Z.of_nat rounds + 1) by lia. rewrite pow128_succ by lia. lia. }
    split; [done|]. split; [lia|]. split; [|f_equal; lia].
    destruct Ha as [Hw Hrest], Ha' as [_ Hrest']. split; [done|].
    rewrite Hrest, Hrest', advance_advance. cbn [app]. do 3 f_equal.
Qed.

Definition varuint_wire : Wire Z := mk_wire (leb 10) get_varuint is_u64.
#[export] Instance varuint_laws : WireLaws varuint_wire.
Proof.
  split; cbn [wire_put wire_get wire_valid varuint_wire].
  - intros v [Hv _]. by apply leb_bytes.
  - intros v r rest [H0 H1] Ha. unfold get_varuint.
    rewrite (get_loop_put 10 10 0 0 v r rest); [by rewrite Z.mul_1_r | | | | | | | | by right | done]; try lia.
  - intros r v r' Hr E. destruct (get_loop_sound 10 0 0 r v r' ltac:(lia) ltac:(lia) ltac:(lia) Hr E)
      as (x & -> & _ & Hu & _ & Ha & E'). rewrite Z.mul_1_r in *. done.
Qed.

(** ** Signed integers *)
Lemma lxor_ones x : is_u64 x -> Z.lxor x U64_MAX = U64_MAX - x.
Proof.
  intros [H0 H1]. change 18446744073709551615 with (Z.ones 64) in *.
  assert (forall i, 64 <= i -> Z.testbit x i = false) as Hhigh.
  { intros i Hi. rewrite <- (Z.mod_small x (2 ^ 64)) by (change (Z.ones 64) with (2 ^ 64 - 1) in H1; lia).
    by rewrite Z.mod_pow2_bits_high by lia. }
  symmetry. rewrite Z.sub_nocarry_ldiff; apply Z.bits_inj'; intros i Hi.
  - rewrite Z.ldiff_spec, Z.lxor_spec. destruct (Z.ltb_spec i 64).
    + rewrite Z.ones_spec_low by lia. by destruct (Z.testbit x i).
    + by rewrite Hhigh, Z.ones_spec_high by lia.
  - rewrite Z.ldiff_spec, Z.bits_0. destruct (Z.ltb_spec i 64).
    + rewrite Z.ones_spec_low by lia. apply andb_false_r.
    + by rewrite Hhigh by lia.
Qed.

Lemma zigzag_arith z : is_i64 z -> zigzag z = if z <? 0 then - 2 * z - 1 else 2 * z.
Proof.
  intros Hz. unfold is_i64, zigzag, wrap64 in *. rewrite Z.shiftl_mul_pow2, Z.shiftr_div_pow2 by lia.
  change (2 ^ 63) with 9223372036854775808. change (2 ^ 1) with 2. destruct (Z.ltb_spec z 0).
  - replace (z mod 18446744073709551616) with (z + 18446744073709551616) by (apply (Z.mod_unique _ _ (-1)); lia).
    replace ((z + 18446744073709551616) / 9223372036854775808) with 1
      by (apply (Z.div_unique _ _ _ (z + 9223372036854775808)); lia).
    replace ((z + 18446744073709551616) * 2 mod 18446744073709551616) with (2 * z + 18446744073709551616)
      by (apply (Z.mod_unique _ _ 1); lia).
    change ((0 - 1) mod 18446744073709551616) with 18446744073709551615.
    rewrite lxor_ones by (unfold is_u64; lia). lia.
  - rewrite (Z.mod_small z), (Z.div_small z) by lia. change ((0 - 0) mod 18446744073709551616) with 0.
    rewrite Z.lxor_0_r, Z.mod_small by lia. lia.
Qed.

Lemma unzigzag_arith e : is_u64 e -> unzigzag e = if e mod 2 =? 0 then e / 2 else - (e / 2) - 1.
Proof.
  intros [H0 H1]. unfold unzigzag, to_signed. change 1 with (2 ^ 1 - 1) at 2.
  rewrite land_mask, Z.shiftr_div_pow2 by lia. change (2 ^ 1) with 2. change (2 ^ 64) with 18446744073709551616.
  change (2 ^ (64 - 1)) with 9223372036854775808.
  pose proof (Z.div_mod e 2). pose proof (Z.mod_pos_bound e 2). destruct (Z.eqb_spec (e mod 2) 0) as [->|].
  - change (wrap64 (0 - 0)) with 0. rewrite Z.lxor_0_r, Z.mod_small by lia. lia.
  - replace (e mod 2) with 1 by lia. change (wrap64 (0 - 1)) with 18446744073709551615.
    rewrite lxor_ones by (unfold is_u64; lia).
    replace ((18446744073709551615 - e / 2 + 9223372036854775808) mod 18446744073709551616)
      with (9223372036854775807 - e / 2) by (apply (Z.mod_unique _ _ 1); lia). lia.
Qed.

Lemma unzigzag_zigzag z : is_i64 z -> unzigzag (zigzag z) = z /\ is_u64 (zigzag z).
Proof.
  intros Hz. rewrite zigzag_arith by done. unfold is_i64 in Hz.
  assert (is_u64 (if z <? 0 then -2 * z - 1 else 2 * z)) as Hu by (unfold is_u64; case_match; to_prop; lia).
  split; [|done]. rewrite unzigzag_arith by done. destruct (Z.ltb_spec z 0).
  - replace ((-2 * z - 1) mod 2) with 1 by (apply (Z.mod_unique _ _ (- z - 1)); lia).
    replace ((-2 * z - 1) / 2) with (- z - 1) by (apply (Z.div_unique _ _ _ 1); lia). cbn [Z.eqb]. lia.
  - rewrite Z.mul_comm, Z_mod_mult, Z_div_mult by lia. done.
Qed.

Lemma zigzag_unzigzag e : is_u64 e -> zigzag (unzigzag e) = e /\ is_i64 (unzigzag e).
Proof.
  intros He. rewrite unzigzag_arith by done. destruct He as [H0 H1].
  pose proof (Z.div_mod e 2). pose proof (Z.mod_pos_bound e 2).
  assert (is_i64 (if e mod 2 =? 0 then e / 2 else - (e / 2) - 1)) as Hi by (unfold is_i64; case_match; to_prop; lia).
  split; [|done]. rewrite zigzag_arith by done. case_match; case_match; to_prop; lia.
Qed.

Definition sint_wire : Wire Z := mk_wire (fun z => leb 10 (zigzag z)) get_sint is_i64.
#[export] Instance sint_laws : WireLaws sint_wire.
Proof.
  split; cbn [wire_put wire_get wire_valid sint_wire]; unfold get_sint.
  - intros z Hz. apply (wire_bytes (w := varuint_wire)). by apply unzigzag_zigzag.
  - intros z r rest Hz Ha. destruct (unzigzag_zigzag z Hz) as [E Hu].
    pose proof (wire_get_put (w := varuint_wire) _ _ _ Hu Ha) as Eg. cbn [wire_get varuint_wire] in Eg.
    rewrite Eg. cbn. by rewrite E.
  - intros r z r' Hr. destruct (get_varuint r) as [[e r1]|] eqn:E; [|done]. cbn. intros [= <- <-].
    destruct (wire_get_sound (w := varuint_wire) _ _ _ Hr E) as (Hu & Ha & ->).
    destruct (zigzag_unzigzag e Hu) as [Ez Hi]. by rewrite Ez.
Qed.

(** ** Words

    [le bs] is the little-endian value of [bs] and [le_split n v] its inverse. *)
Fixpoint le (bs : list Z) : Z := match bs with [] => 0 | b :: bs => b + 256 * le bs end.
Fixpoint le_split (n : nat) (v : Z) : list Z :=
  match n with O => [] | S n => v mod 256 :: le_split n (v / 256) end.

Lemma le_range bs : Forall is_byte bs -> 0 <= le bs < 256 ^ zlen bs.
Proof.
  induction 1 as [|b bs Hb _ IH]; cbn [le]; [done|]. unfold is_byte in Hb.
  rewrite zlen_cons, Z.pow_add_r by (pose proof (zlen_nonneg bs); lia). lia.
Qed.
Lemma le_split_le bs : Forall is_byte bs -> le_split (length bs) (le bs) = bs.
Proof.
  induction 1 as [|b bs Hb _ IH]; cbn [le le_split length]; [done|]. unfold is_byte in Hb.
  replace ((b + 256 * le bs) mod 256) with b by (apply (Z.mod_unique _ _ (le bs)); lia).
  replace ((b + 256 * le bs) / 256) with (le bs) by (apply (Z.div_unique _ _ _ b); lia). by rewrite IH.
Qed.
Lemma le_le_split n v : 0 <= v < 256 ^ Z.of_nat n -> le (le_split n v) = v.
Proof.
  revert v; induction n as [|n IH]; intros v Hv; cbn [le le_split]; [cbn in Hv; lia|].
  replace (Z.of_nat (S n)) with (Z.of_nat n + 1) in Hv by lia. rewrite Z.pow_add_r in Hv by lia.
  rewrite IH; [pose proof (Z.div_mod v 256); lia|].
  split; [apply Z.div_pos; lia | apply Z.div_lt_upper_bound; lia].
Qed.
Lemma le_split_bytes n v : Forall is_byte (le_split n v).
Proof. revert v; induction n; intros v; constructor; [apply Z.mod_pos_bound; lia | done]. Qed.
Lemma length_le_split n v : length (le_split n v) = n.
Proof. revert v; induction n; intros v; cbn; by f_equal. Qed.

Lemma word_bytes_le_split v : word_bytes v = le_split 8 v.
Proof.
  unfold word_bytes. cbn [map le_split]. rewrite !Z.div_div by lia.
  change 255 with (2 ^ 8 - 1). rewrite !land_mask, !Z.shiftr_div_pow2 by lia. cbn. by rewrite Z.div_1_r.
Qed.

Lemma zlen_word_bytes v : zlen (word_bytes v) = 8.
Proof. reflexivity. Qed.

Lemma word_loop bs : forall k acc r rest,
  0 <= k -> 0 <= acc < 256 ^ k -> at_ r (bs ++ rest) ->
  for_each word_step (acc, r) (map (Z.mul 8) (seqZ k (zlen bs))) =
    Some (acc + 256 ^ k * le bs, advance r (zlen bs)).
Proof.
  induction bs as [|b bs IH]; intros k acc r rest Hk Hacc Ha.
  - change (le []) with 0. rewrite zlen_nil, Z.mul_0_r, Z.add_0_r, advance_0. done.
  - rewrite zlen_cons, seqZ_cons by (pose proof (zlen_nonneg bs); lia).
    replace (Z.pred (zlen bs + 1)) with (zlen bs) by lia. cbn [map for_each word_step].
    pose proof (get_u8_at r b (bs ++ rest) Ha) as Eu. unfold get_u8 in Eu. case_match; [done|].
    destruct (zget (r_bytes r) (r_cursor r)) as [x|]; [|done]. cbn in Eu. injection Eu as ->.
    cbn [mbind option_bind]. assert (is_byte b) as Hb.
    { apply at_bytes in Ha. by apply list.Forall_cons in Ha as [? _]. }
    unfold is_byte in Hb. assert (256 ^ k = 2 ^ (8 * k)) as Ep by (by rewrite Z.pow_mul_r by lia).
    assert (0 < 256 ^ k) by (apply Z.pow_pos_nonneg; lia).
    rewrite Z.shiftl_mul_pow2, <- Ep, Z.lor_comm by lia. rewrite Ep in *.
    rewrite lor_disjoint by lia. rewrite <- Ep in *.
    assert (256 ^ (k + 1) = 256 * 256 ^ k) as Ek by (rewrite Z.pow_add_r by lia; lia).
    change (Z.succ k) with (k + 1).
    rewrite (IH (k + 1) _ (advance r 1) rest); [| lia | rewrite Ek; nia |].
    + rewrite advance_advance, Ek. cbn [le]. f_equal. f_equal; [nia | f_equal; lia].
    + change (b :: bs) with ([b] ++ bs) in Ha. rewrite <- app_assoc in Ha. by apply at_advance in Ha.
Qed.

Lemma get_fixed64_at r bs rest : zlen bs = 8 -> at_ r (bs ++ rest) ->
  get_fixed64 r = Some (le bs, advance r 8).
Proof.
  intros Hl Ha. pose proof (at_len _ _ Ha) as Hlen. rewrite zlen_app in Hlen. pose proof (zlen_nonneg rest).
  unfold get_fixed64. destruct (Z.ltb_spec (remaining r) 8); [lia|].
  pose proof (word_loop bs 0 0 r rest ltac:(lia) ltac:(lia) Ha) as E. rewrite Hl in E.
  change (map (Z.mul 8) (seqZ 0 8)) with [0; 8; 16; 24; 32; 40; 48; 56] in E.
  change (256 ^ 0) with 1 in E. rewrite Z.mul_1_l, Z.add_0_l in E. exact E.
Qed.

Definition fixed64_wire : Wire Z := mk_wire word_bytes get_fixed64 is_u64.
#[export] Instance fixed64_laws : WireLaws fixed64_wire.
Proof.
  split; cbn [wire_put wire_get wire_valid fixed64_wire].
  - intros v _. rewrite word_bytes_le_split. apply le_split_bytes.
  - intros v r rest [H0 H1]. rewrite word_bytes_le_split. intros Ha.
    assert (zlen (le_split 8 v) = 8) as Hl by (unfold zlen; by rewrite length_le_split).
    rewrite (get_fixed64_at r (le_split 8 v) rest Hl Ha), le_le_split, Hl; [done|].
    change (256 ^ Z.of_nat 8) with 18446744073709551616. lia.
  - intros r v r' Hr E. assert (8 <= remaining r) as H8.
    { unfold get_fixed64 in E. by destruct (Z.ltb_spec (remaining r) 8). }
    pose proof (at_here r Hr) as Ha. rewrite <- (take_drop 8 (rest_of r)) in Ha.
    assert (length (take 8 (rest_of r)) = 8%nat) as Hl.
    { pose proof (at_len _ _ (at_here r Hr)) as Hlen. unfold zlen in Hlen. rewrite length_take. lia. }
    rewrite (get_fixed64_at r _ _ ltac:(unfold zlen; by rewrite Hl) Ha) in E. injection E as <- <-.
    assert (Forall is_byte (take 8 (rest_of r))) as Hb by (by apply at_bytes, Forall_app in Ha as [? _]).
    pose proof (le_range _ Hb) as Hle. unfold zlen in Hle at 1. rewrite Hl in Hle.
    change (256 ^ Z.of_nat 8) with 18446744073709551616 in Hle.
    pose proof (le_split_le _ Hb) as Es. rewrite Hl in Es. rewrite word_bytes_le_split, Es.
    split; [unfold is_u64; lia|]. assert (zlen (take 8 (rest_of r)) = 8) as E8 by (unfold zlen; by rewrite Hl).
    pose proof (at_advance _ _ _ Ha) as Hadv. rewrite E8 in Hadv |- *. destruct Hadv as [_ ->]. done.
Qed.

(** ** Optional fields *)
Definition opt_wire (present : bool) (w : Wire Z) : Wire Z :=
  mk_wire (fun v => if present then wire_put w v else [])
    (get_if present (wire_get w)) (fun v => if present then wire_valid w v else v = 0).
#[export] Instance opt_laws present (w : Wire Z) `{!WireLaws w} : WireLaws (opt_wire present w).
Proof.
  destruct present; cbn.
  - split; cbn; [apply wire_bytes | apply wire_get_put | apply wire_get_sound].
  - split; cbn.
    + constructor.
    + intros a r rest -> _. by rewrite advance_0.
    + intros r a r' Hr [= <- <-]. split; [done|]. split; [by apply at_here | symmetry; apply advance_0].
Qed.

(** ** Sequences

    Elements that are encoded relative to their predecessor. *)
Section ListWire.
Context {A St : Type} (w : St -> Wire A) (next : A -> St) `{!forall st, WireLaws (w st)}.

Fixpoint chain (st : St) (l : list A) : Prop :=
  match l with [] => True | a :: l => wire_valid (w st) a /\ chain (next a) l end.
Fixpoint list_bytes (st : St) (l : list A) : list Z :=
  match l with [] => [] | a :: l => wire_put (w st) a ++ list_bytes (next a) l end.

Definition list_wire (n : nat) (st : St) : Wire (list A) :=
  mk_wire (list_bytes st) (get_list (fun st => wire_get (w st)) next n st)
    (fun l => length l = n /\ chain st l).

#[export] Instance list_laws n st : WireLaws (list_wire n st).
Proof using All.
  revert st; induction n as [|n IH]; intros st; split; cbn [wire_put wire_get wire_valid list_wire].
  - intros l [Hl _]. destruct l; [constructor | done].
  - intros l r rest [Hl _] _. destruct l; [|done]. cbn. by rewrite zlen_nil, advance_0.
  - intros r l r' Hr [= <- <-]. cbn. rewrite zlen_nil, advance_0. split; [done|]. split; [by apply at_here | done].
  - intros [|a l] [Hl Hc]; [done|]. destruct Hc as [Ha Hc]. cbn. apply Forall_app. split; [by apply wire_bytes|].
    apply (wire_bytes (w := list_wire n (next a))). split; [by injection Hl | done].
  - intros [|a l] r rest [Hl Hc] Hr; [done|]. destruct Hc as [Ha Hc]. cbn [list_bytes get_list] in *.
    rewrite <- app_assoc in Hr. rewrite (wire_get_put a r _ Ha Hr). cbn [mbind option_bind].
    apply at_advance in Hr. assert (wire_valid (list_wire n (next a)) l) as Hv by (split; [by injection Hl | done]).
    pose proof (wire_get_put (w := list_wire n (next a)) l _ _ Hv Hr) as E. cbn [wire_get list_wire] in E.
    rewrite E. cbn [mbind option_bind]. rewrite advance_advance, zlen_app. done.
  - intros r l r' Hr. cbn [get_list]. destruct (wire_get (w st) r) as [[a r1]|] eqn:E1; [|done].
    cbn [mbind option_bind]. destruct (wire_get_sound _ _ _ Hr E1) as (Ha & H1 & ->).
    pose proof (at_wf _ _ (at_advance _ _ _ H1)) as Hr1.
    destruct (get_list _ _ n _ _) as [[k r2]|] eqn:E2; [|done]. cbn [mbind option_bind]. intros [= <- <-].
    destruct (wire_get_sound (w := list_wire n (next a)) _ _ _ Hr1 E2) as ([Hl Hc] & H2 & ->).
    cbn [wire_put list_wire list_bytes chain length] in *. rewrite zlen_app, advance_advance in *.
    split; [naive_solver|]. split; [|done]. split; [done|].
    rewrite <- app_assoc, (at_rest _ _ H1). f_equal. exact (at_rest _ _ H2).
Qed.
End ListWire.

(** ** Headers *)
Definition header_bytes (kind : Kind) : list Z := kMagic ++ [kSchema; kind_byte kind].

Lemma get_take_at r bs rest n : zlen bs = n -> at_ r (bs ++ rest) ->
  get_take n r = Some (bs, advance r n).
Proof.
  intros <- Ha. pose proof (at_len _ _ Ha) as Hl. rewrite zlen_app in Hl. pose proof (zlen_nonneg rest).
  unfold get_take. destruct (Z.ltb_spec (remaining r) (zlen bs)); [lia|].
  destruct Ha as [_ Hr]. unfold rest_of in Hr. rewrite Hr. unfold zlen. rewrite Nat2Z.id.
  by rewrite take_app_length.
Qed.

Lemma get_take_inv r bs n r' : 0 <= n -> reader_wf r -> get_take n r = Some (bs, r') ->
  zlen bs = n /\ at_ r (bs ++ rest_of r') /\ r' = advance r n.
Proof.
  intros Hn Hr. unfold get_take. destruct (Z.ltb_spec (remaining r) n) as [|Hle]; [done|]. intros [= <- <-].
  pose proof (at_here r Hr) as Ha. pose proof (at_len _ _ Ha) as Hl.
  set (bs := take (Z.to_nat n) _). assert (zlen bs = n) as Hbs.
  { unfold bs, zlen in *. fold (rest_of r). rewrite length_take. lia. }
  split; [done|]. split; [|done].
  assert (at_ r (bs ++ drop (Z.to_nat n) (rest_of r))) as Ha'.
  { unfold bs. fold (rest_of r). by rewrite take_drop. }
  pose proof (at_advance _ _ _ Ha') as [_ Hrest]. rewrite Hbs in Hrest. by rewrite Hrest.
Qed.

Lemma get_header_at kind r rest : at_ r (header_bytes kind ++ rest) ->
  get_header kind r = Some (advance r kHeaderBytes).
Proof.
  unfold header_bytes. rewrite <- app_assoc. intros Ha. unfold get_header.
  rewrite (get_take_at r kMagic _ _ eq_refl Ha). cbn [mbind option_bind].
  rewrite bool_decide_true by done. cbn [negb]. apply at_advance in Ha.
  rewrite (get_u8_at _ _ _ Ha). cbn [mbind option_bind]. rewrite Z.eqb_refl. cbn [negb].
  apply (at_advance _ [kSchema]) in Ha. change (zlen [kSchema]) with 1 in Ha. rewrite (get_u8_at _ _ _ Ha). cbn [mbind option_bind].
  by rewrite Z.eqb_refl, !advance_advance.
Qed.

Lemma get_header_inv kind r r' : reader_wf r -> get_header kind r = Some r' ->
  at_ r (header_bytes kind ++ rest_of r') /\ r' = advance r kHeaderBytes.
Proof.
  intros Hr. unfold get_header.
  destruct (get_take _ r) as [[magic r1]|] eqn:E1; [|done]. cbn [mbind option_bind].
  destruct (get_take_inv _ _ _ _ (zlen_nonneg kMagic) Hr E1) as (_ & H1 & ->). case_match eqn:Em; [done|].
  apply negb_false_iff, bool_decide_eq_true in Em as ->.
  pose proof (at_wf _ _ (at_advance _ _ _ H1)) as W1.
  destruct (get_u8 _) as [[schema r2]|] eqn:E2; [|done]. cbn [mbind option_bind].
  destruct (get_u8_inv _ _ _ W1 E2) as (_ & H2 & ->). case_match eqn:Es; [done|].
  apply negb_false_iff, Z.eqb_eq in Es as ->. pose proof (at_wf _ _ (at_advance _ [_] _ H2)) as W2.
  change (zlen [kSchema]) with 1 in W2.
  destruct (get_u8 (advance _ 1)) as [[k r3]|] eqn:E3; [|done]. cbn [mbind option_bind].
  destruct (get_u8_inv _ _ _ W2 E3) as (_ & H3 & ->). case_match eqn:Ek; [|done].
  apply Z.eqb_eq in Ek as ->. intros [= <-]. rewrite !advance_advance in *. split; [|done].
  split; [done|]. unfold header_bytes. rewrite <- app_assoc. rewrite (at_rest _ _ H1). f_equal.
  rewrite (at_rest _ _ H2). cbn [app]. f_equal. exact (at_rest _ _ H3).
Qed.

(** A list read by a reader that agrees with its wire format in every state the list
    can reach is the list of the wire format. *)
Lemma get_list_wire {A St} (wire : St -> Wire A) `{!forall st, WireLaws (wire st)} (next : A -> St)
    (read : St -> Reader -> option (A * Reader)) (ok : St -> Prop) :
  (forall st, ok st -> wire_get (wire st) = read st) ->
  (forall st a, wire_valid (wire st) a -> ok (next a)) ->
  forall n st r, ok st -> reader_wf r -> get_list read next n st r = wire_get (list_wire wire next n st) r.
Proof.
  intros Hread Hnext n. cbn [wire_get list_wire].
  induction n as [|n IH]; intros st r Hst Hr; cbn [get_list]; [done|].
  rewrite (Hread st Hst). destruct (read st r) as [[a r1]|] eqn:E; [|done]. cbn [mbind option_bind].
  rewrite <- (Hread st Hst) in E. destruct (wire_get_sound _ _ _ Hr E) as (Ha & Hat & ->).
  rewrite IH; [done | by eapply Hnext | apply (at_wf _ _ (at_advance _ _ _ Hat))].
Qed.

(** ** Writers

    [Holds start pre w]: the writer is good and the bytes [pre] have been written
    since the sink held [start], the last of them perhaps still staged. *)
Section Writers.
Context {S : Type} `{!Sink S}.
Implicit Types (w : Writer S) (m : action S) (bs pre start : list Z).

Record Holds start pre w : Prop := {
  holds_ok : writer_ok w = true;
  holds_buffer : zlen (w_buffer w) <= kWriteSpanBytes;
  holds_bytes : received (w_sink w) ++ w_buffer w = start ++ pre;
  holds_count : w_bytes w = zlen pre - zlen (w_buffer w);
  holds_writes : 0 <= w_writes w <= w_bytes w;
  holds_max : w_bytes w <= w_max_bytes w <= U64_MAX;
}.

(** A run that starts in [w] with limit [max] fails only with a bad writer, and a
    sink that never refuses is left only for want of room. *)
Definition Failed max pre w : Prop :=
  writer_ok w = false /\ (Reliable S -> w_code w = Code.ArtifactCapacityExceeded /\ max < zlen pre).

Definition Emits m bs : Prop := forall start pre w, Holds start pre w ->
  if (m w).1 then Holds start (pre ++ bs) (m w).2 /\ w_max_bytes (m w).2 = w_max_bytes w
  else Failed (w_max_bytes w) (pre ++ bs) (m w).2.

(** The first error stays. *)
Definition Sticky m : Prop := forall w, writer_ok w = false -> m w = (false, w).

Lemma failed_more max pre bs w : Failed max pre w -> Failed max (pre ++ bs) w.
Proof.
  intros [H1 H2]. split; [done|]. intros Hr. destruct (H2 Hr). split; [done|].
  rewrite zlen_app. pose proof (zlen_nonneg bs). lia.
Qed.

Lemma emits_and_then a b x y : Emits a x -> Emits b y -> Emits (and_then a b) (x ++ y).
Proof.
  intros Ha Hb start pre w Hw. specialize (Ha start pre w Hw). unfold and_then.
  destruct (a w) as [[] w1]; cbn [fst snd] in *.
  - destruct Ha as [H1 <-]. specialize (Hb start (pre ++ x) w1 H1). by rewrite app_assoc.
  - rewrite app_assoc. by apply failed_more.
Qed.

Lemma emits_when c a x : Emits a x -> Emits (when c a) (if c then x else []).
Proof. intros Ha start pre w Hw. destruct c; [by apply Ha|]. cbn. by rewrite app_nil_r. Qed.

Lemma reject_bad code w : Code.Ok <> code -> writer_ok w = true ->
  (reject code w).1 = false /\ writer_ok (reject code w).2 = false /\ w_code (reject code w).2 = code.
Proof.
  intros Hc Hw. unfold reject. rewrite Hw. cbn.
  destruct (Z.eqb_spec code Code.Ok); [by subst|]. unfold writer_ok; cbn.
  split; [done|]. split; [by apply Z.eqb_neq|done].
Qed.

Lemma sticky_and_then a b : Sticky a -> Sticky (and_then a b).
Proof. intros Ha w Hw. unfold and_then. by rewrite Ha. Qed.

Lemma emit_cases bs w :
  writer_ok w = true -> 0 < zlen bs -> 0 <= w_writes w <= w_bytes w ->
  w_bytes w <= w_max_bytes w <= U64_MAX ->
  if (emit bs w).1 then
    exists sink, received sink = received (w_sink w) ++ bs /\ w_bytes w + zlen bs <= w_max_bytes w /\
      (emit bs w).2 = mk_writer sink (w_max_bytes w) (w_code w) (w_buffer w)
                        (w_bytes w + zlen bs) (w_writes w + 1)
  else writer_ok (emit bs w).2 = false /\
    (Reliable S -> w_code (emit bs w).2 = Code.ArtifactCapacityExceeded /\
       w_max_bytes w < w_bytes w + zlen bs).
Proof.
  intros Hok Hbs Hwr Hmax. unfold emit. rewrite Hok. cbn [negb orb].
  destruct (Z.eqb_spec (zlen bs) 0); [lia|]. unfold Checked.add, Checked.add_fits.
  destruct (Z.leb_spec (w_bytes w) (U64_MAX - zlen bs)); cbn [negb].
  - destruct (Z.leb_spec (w_writes w) (U64_MAX - 1)); cbn [negb]; [|lia].
    rewrite !wrap64_small by (unfold is_u64; lia).
    destruct (Z.ltb_spec (w_max_bytes w) (w_bytes w + zlen bs)).
    + destruct (reject_bad Code.ArtifactCapacityExceeded w ltac:(done) Hok) as (-> & Hb1 & Hb2). done.
    + destruct (write (w_sink w) bs) as [accepted sink] eqn:E. destruct accepted; cbn.
      * exists sink. split; [by apply write_received|]. split; [lia|done].
      * set (w' := mk_writer _ _ _ _ _ _). destruct (reject_bad Code.ArtifactWriteFailed w' ltac:(done) Hok) as (-> & Hb1 & Hb2).
        split; [done|]. intros Hr. pose proof (Hr (w_sink w) bs) as Hr'. by rewrite E in Hr'.
  - destruct (reject_bad Code.ArtifactCapacityExceeded w ltac:(done) Hok) as (-> & Hb1 & Hb2).
    split; [done|]. intros _. split; [done | lia].
Qed.

Lemma flush_cases start pre w : Holds start pre w ->
  if (flush w).1 then Holds start pre (flush w).2 /\ w_buffer (flush w).2 = [] /\
    w_max_bytes (flush w).2 = w_max_bytes w /\ zlen pre <= w_max_bytes w
  else Failed (w_max_bytes w) pre (flush w).2.
Proof.
  intros [Hok Hbuf Hb Hc Hwr Hmax]. unfold flush. destruct (Z.eqb_spec (zlen (w_buffer w)) 0) as [E|E].
  - cbn. rewrite Hok. split; [by constructor|]. split; [by apply zlen_0|]. split; [done|lia].
  - pose proof (zlen_nonneg (w_buffer w)).
    pose proof (emit_cases (w_buffer w) w Hok ltac:(lia) Hwr Hmax) as He.
    destruct (emit (w_buffer w) w) as [[] w1]; cbn [fst snd] in *.
    + destruct He as (sink & Hs & Hle & ->). cbn. split; [|split; [done|split; [done|lia]]].
      split; unfold with_buffer; cbn; [done | done | by rewrite app_nil_r, Hs | rewrite zlen_nil; lia | lia | lia].
    + destruct He as [H1 H2]. split; [done|]. intros Hr. destruct (H2 Hr). split; [done|lia].
Qed.

Lemma sticky_flush : Sticky flush.
Proof.
  intros w Hw. unfold flush, emit. rewrite Hw. cbn [negb orb]. by destruct (zlen _ =? 0).
Qed.
Lemma sticky_room n : Sticky (room n).
Proof. intros w Hw. unfold room. by rewrite Hw. Qed.

(** Room for a few bytes, then the bytes. *)
Lemma emits_push bs n : zlen bs = n -> n <= kWriteSpanBytes -> Emits (and_then (room n) (push bs)) bs.
Proof.
  intros Hn Hle start pre w Hw. unfold and_then, room. rewrite (holds_ok _ _ _ Hw). cbn [negb].
  destruct (Z.ltb_spec kWriteSpanBytes n); [lia|].
  assert (forall w, Holds start pre w -> zlen (w_buffer w) + n <= kWriteSpanBytes ->
    Holds start (pre ++ bs) (push bs w).2) as Hpush.
  { intros w' [? ? Hb ? ? ?] ?. split; cbn; [done | rewrite zlen_app; lia | | rewrite !zlen_app; lia | lia | lia].
    rewrite app_assoc, Hb. by rewrite <- app_assoc. }
  destruct (Z.leb_spec n (kWriteSpanBytes - zlen (w_buffer w))).
  - split; [apply Hpush; [done | lia] | done].
  - pose proof (flush_cases start pre w Hw) as Hf. destruct (flush w) as [[] w1]; cbn [fst snd] in *.
    + destruct Hf as (H1 & H2 & H3 & _). split; [apply Hpush; [done | rewrite H2, zlen_nil; lia] | done].
    + by apply failed_more.
Qed.

Lemma emits_u8 b : Emits (put_u8 b) [b].
Proof. by apply emits_push. Qed.
Lemma emits_fixed64 v : Emits (put_fixed64 v) (word_bytes v).
Proof. by apply emits_push. Qed.
Lemma put_digit v : 0 <= v ->
  Z.lor (Z.land v 127) (if v / 128 =? 0 then 0 else 128) =
  if v / 128 =? 0 then v mod 128 else v mod 128 + 128.
Proof.
  intros Hv. change 127 with (2 ^ 7 - 1). rewrite land_mask by lia. change (2 ^ 7) with 128.
  pose proof (Z.mod_pos_bound v 128). case_match; [by rewrite Z.lor_0_r|].
  change 128 with (1 * 2 ^ 7) at 2. rewrite Z.lor_comm, lor_disjoint by (change (2 ^ 7) with 128; lia). lia.
Qed.

Lemma emits_varuint_loop k v : (0 < k)%nat -> 0 <= v < 128 ^ Z.of_nat k ->
  Emits (put_varuint_loop k v) (leb k v).
Proof.
  revert v; induction k as [|k IH]; [lia|]. intros v _ Hv start pre w Hw. cbn [put_varuint_loop leb].
  rewrite Z.shiftr_div_pow2 by lia. change (2 ^ 7) with 128. rewrite put_digit by lia.
  destruct (Z.eqb_spec (v / 128) 0) as [E|E].
  - pose proof (emits_u8 (v mod 128) start pre w Hw) as Hu.
    by destruct (put_u8 (v mod 128) w) as [[] w1].
  - pose proof (emits_u8 (v mod 128 + 128) start pre w Hw) as Hu.
    destruct (put_u8 (v mod 128 + 128) w) as [[] w1]; cbn [fst snd negb] in *.
    + destruct Hu as [H1 H2]. destruct k as [|k]; [change (128 ^ Z.of_nat 1) with 128 in Hv; rewrite Z.div_small in E by lia; done|].
      replace (Z.of_nat (Datatypes.S (Datatypes.S k))) with (Z.of_nat (Datatypes.S k) + 1) in Hv by lia.
      pose proof (IH (v / 128) ltac:(lia) (div128 v (Z.of_nat (Datatypes.S k)) ltac:(lia) Hv) start _ w1 H1) as H3.
      rewrite <- app_assoc in H3. rewrite H2 in H3. exact H3.
    + apply (failed_more _ _ (leb k (v / 128))) in Hu. by rewrite <- app_assoc in Hu.
Qed.

Lemma emits_varuint v : is_u64 v -> Emits (put_varuint v) (leb 10 v).
Proof.
  intros [H0 H1]. apply emits_varuint_loop; [lia|].
  change (128 ^ Z.of_nat 10) with 1180591620717411303424. lia.
Qed.
Lemma emits_sint z : is_i64 z -> Emits (put_sint z) (leb 10 (zigzag z)).
Proof. intros Hz. exact (emits_varuint (zigzag z) (proj2 (unzigzag_zigzag z Hz))). Qed.

Lemma emits_raw_loop k bs : zlen bs <= Z.of_nat k -> forall start pre w,
  Holds start pre w -> w_buffer w = [] -> zlen pre <= w_max_bytes w ->
  if (raw_loop k bs w).1 then Holds start (pre ++ bs) (raw_loop k bs w).2 /\
    w_max_bytes (raw_loop k bs w).2 = w_max_bytes w
  else Failed (w_max_bytes w) (pre ++ bs) (raw_loop k bs w).2.
Proof.
  revert bs; induction k as [|k IH]; intros bs Hk start pre w Hw Hb Hp; cbn [raw_loop];
    rewrite (holds_ok _ _ _ Hw); cbn [negb orb]; pose proof (zlen_nonneg bs);
    (destruct (Z.eqb_spec (zlen bs) 0) as [E0|E0]; [apply zlen_0 in E0 as ->; by rewrite app_nil_r|]).
  - lia.
  - set (n := Z.to_nat (Z.min (zlen bs) kWriteSpanBytes)).
    assert (zlen (take n bs) = Z.min (zlen bs) kWriteSpanBytes) as Hn.
    { unfold n, kWriteSpanBytes, zlen in *. rewrite length_take. lia. }
    destruct Hw as [Hok Hbuf Hby Hc Hwr Hmax]. unfold kWriteSpanBytes in *.
    pose proof (emit_cases (take n bs) w Hok ltac:(lia) Hwr Hmax) as He.
    rewrite Hb, ?zlen_nil, ?app_nil_r in *.
    destruct (emit (take n bs) w) as [[] w1]; cbn [fst snd] in *.
    + destruct He as (sink & Hs & Hle & ->).
      set (w1 := mk_writer _ _ _ _ _ _). assert (Holds start (pre ++ take n bs) w1) as H1.
      { split; cbn; rewrite ?Hb, ?app_nil_r, ?zlen_nil, ?zlen_app; unfold kWriteSpanBytes; try lia; [done|].
        by rewrite Hs, Hby, app_assoc. }
      specialize (IH (drop n bs)).
      assert (zlen (drop n bs) <= Z.of_nat k) as Hd.
      { unfold zlen in *. rewrite length_drop. lia. }
      specialize (IH Hd start (pre ++ take n bs) w1 H1 eq_refl). rewrite <- app_assoc, take_drop in IH.
      apply IH. rewrite zlen_app. cbn. lia.
    + destruct He as [H1 H2]. split; [done|]. intros Hr. destruct (H2 Hr). split; [done|].
      rewrite zlen_app. lia.
Qed.

Lemma emits_raw bs : Emits (raw bs) bs.
Proof.
  intros start pre w Hw. unfold raw, and_then. pose proof (flush_cases start pre w Hw) as Hf.
  destruct (flush w) as [[] w1]; cbn [fst snd] in *; [|by apply failed_more].
  destruct Hf as (H1 & H2 & <- & H4). apply emits_raw_loop; [unfold zlen; lia | done..].
Qed.

Lemma emits_header kind : Emits (put_header kind) (header_bytes kind).
Proof. apply emits_and_then; [apply emits_raw|]. apply (emits_and_then _ _ [_] [_]); apply emits_u8. Qed.

Lemma emits_list {A St} (wire : St -> Wire A) (next : A -> St) put l : forall st,
  (forall st a, a ∈ l -> wire_valid (wire st) a -> Emits (put st a) (wire_put (wire st) a)) ->
  chain wire next st l -> Emits (put_list put next st l) (list_bytes wire next st l).
Proof.
  induction l as [|a l IH]; intros st Hput Hc start pre w Hw.
  - cbn. by rewrite app_nil_r.
  - destruct Hc as [Ha Hc]. assert (Emits (put_list put next (next a) l) (list_bytes wire next (next a) l)) as Hl.
    { apply IH; [|done]. intros st' b Hb. apply Hput. by right. }
    exact (emits_and_then _ _ _ _ (Hput st a ltac:(by left) Ha) Hl start pre w Hw).
Qed.

Lemma sticky_u8 b : Sticky (put_u8 b).
Proof. apply sticky_and_then, sticky_room. Qed.
Lemma sticky_fixed64 v : Sticky (put_fixed64 v).
Proof. apply sticky_and_then, sticky_room. Qed.
Lemma sticky_varuint v : Sticky (put_varuint v).
Proof. intros w Hw. cbn. by rewrite sticky_u8. Qed.
Lemma sticky_raw bs : Sticky (raw bs).
Proof. apply sticky_and_then, sticky_flush. Qed.
Lemma sticky_reject code : Sticky (reject code).
Proof. intros w Hw. unfold reject. by rewrite Hw. Qed.

Lemma make_writer_holds sink max : is_u64 max -> Holds (received sink) [] (make_writer sink max true).
Proof. intros [? ?]. split; cbn; rewrite ?zlen_nil; unfold kWriteSpanBytes; done || lia. Qed.

(** The whole run of a writer: when it ends well the sink has received exactly the
    bytes, within the limit; a sink that never refuses makes it end well whenever
    they fit. *)
Lemma writer_run m bs sink max : Emits m bs -> is_u64 max ->
  let '(result, w) := finish (m (make_writer sink max true)).2 in
  (result_ok result = true -> received (w_sink w) = received sink ++ bs /\
     res_bytes result = zlen bs /\ 0 <= res_writes result <= zlen bs /\ zlen bs <= max) /\
  (Reliable S -> res_code result = if zlen bs <=? max then Code.Ok else Code.ArtifactCapacityExceeded).
Proof.
  intros Hm Hmax. pose proof (Hm _ _ _ (make_writer_holds sink max Hmax)) as H. cbn [app] in H.
  change (w_max_bytes (make_writer sink max true)) with max in H.
  unfold finish. destruct (m _) as [[] w1]; cbn [fst snd] in *.
  - destruct H as [H1 H2]. rewrite (holds_ok _ _ _ H1).
    pose proof (flush_cases _ _ _ H1) as Hf. rewrite H2 in Hf. destruct (flush w1) as [[] w2]; cbn [fst snd] in *.
    + destruct Hf as ([Hok _ Hb Hc Hwr _] & Hbuf & _ & Hle). rewrite Hbuf, ?app_nil_r, ?zlen_nil in *.
      split; cbn; [intros _; split; [done|lia] | intros _].
      destruct (Z.leb_spec (zlen bs) max); [by apply Z.eqb_eq in Hok | lia].
    + destruct Hf as [Hbad Hrel]. split; [by unfold result_ok; cbn; unfold writer_ok in Hbad; rewrite Hbad|].
      intros Hr; cbn. destruct (Hrel Hr). by destruct (Z.leb_spec (zlen bs) max); [lia|].
  - destruct H as [Hbad Hrel]. rewrite Hbad. split; [by unfold result_ok; cbn; unfold writer_ok in Hbad; rewrite Hbad|].
    intros Hr; cbn. destruct (Hrel Hr). by destruct (Z.leb_spec (zlen bs) max); [lia|].
Qed.
End Writers.
