(* ===== verification/HostReplay.v ===== *)
(** * Host replay events: the recorded host effects and their artifact

    [src/node/src/runtime/replay/host/codec.cpp]: a host event is written relative to
    its predecessor, with a mask of the fields that are not zero;
    [src/node/src/host/event.cpp] and [src/node/src/host/hash/fields.hpp]: the hash
    that binds the events.

    Enumerations cast from integers of the artifact are kept as their integer value.
    A failed decode is its code: the events read before the failure are not part of
    the result of the public entry point. *)

From stdpp Require Import base numbers list option.
From Stdlib Require Import ZArith Lia.
From S2P Require Import Prelude Checked Artifact ArtifactFacts.

(** ** Events: [rund::host::Event] *)
Record Event := mk_event {
  e_sequence : Z;
  e_kind : Z;
  e_status : Z;
  e_task_id : Z;
  e_logical_time_ns : Z;
  e_stream_id : Z;
  e_draw_id : Z;
  e_host_handle_id : Z;
  e_offset : Z;
  e_requested_bytes : Z;
  e_completed_bytes : Z;
  e_native_errno : Z;
  e_name_hash : Z;
  e_path_hash : Z;
  e_payload_hash : Z;
}.
#[export] Instance Event_eq_dec : EqDecision Event.
Proof. solve_decision. Defined.

(** ** The hash of the events *)
Definition kStableHashOffset : Z := 1469598103934665603.
Definition kStableHashPrime : Z := 1099511628211.

(** [StableHashState::Mix] *)
Definition Mix (state value : Z) : Z := wrap64 (Z.lxor state value * kStableHashPrime).

Definition hash_event (e : Event) : Z :=
  fold_left Mix
    [e_sequence e; e_kind e; e_status e; e_task_id e; e_logical_time_ns e; e_stream_id e;
     e_draw_id e; e_host_handle_id e; e_offset e; e_requested_bytes e; e_completed_bytes e;
     wrap32 (e_native_errno e); e_name_hash e; e_path_hash e; e_payload_hash e]
    kStableHashOffset.

Definition hash_events (events : list Event) : Z :=
  fold_left (fun hash e => Mix hash (hash_event e)) events (Mix kStableHashOffset (zlen events)).

(** ** Known kinds and statuses

    [kEventNames] has one name per kind except [None]. *)
Definition kEventNames_size : Z := 24.
Definition event_index (kind : Z) : Z :=
  if (kind =? 0) || (kEventNames_size <? kind) then kEventNames_size else kind - 1.
Definition known_replay_kind (kind : Z) : bool := event_index kind <? kEventNames_size.

Definition KnownKind (value : Z) : bool := (value <=? 65535) && known_replay_kind value.
Definition KnownStatus (value : Z) : bool :=
  if 6 <? value then false else existsb (Z.eqb value) [0; 1; 2; 3; 4; 5; 6].

(** ** The field mask *)
Inductive EventField :=
| Task | LogicalTimeDelta | Stream | Draw | Handle | Offset | Requested | Completed
| NativeErrno | NameHash | PathHash | PayloadHash.
Definition field_bit (field : EventField) : Z :=
  Z.shiftl 1 match field with
  | Task => 0 | LogicalTimeDelta => 1 | Stream => 2 | Draw => 3 | Handle => 4 | Offset => 5
  | Requested => 6 | Completed => 7 | NativeErrno => 8 | NameHash => 9 | PathHash => 10
  | PayloadHash => 11
  end.
Definition all_fields : list EventField :=
  [Task; LogicalTimeDelta; Stream; Draw; Handle; Offset; Requested; Completed; NativeErrno;
   NameHash; PathHash; PayloadHash].
Definition kEventFieldMask : Z := fold_left Z.lor (map field_bit all_fields) 0.

Definition event_field (present : bool) (field : EventField) : Z :=
  if present then field_bit field else 0.

(** [fields & field] *)
Definition has (fields : Z) (field : EventField) : bool :=
  negb (Z.land fields (field_bit field) =? 0).

Definition field_value (e : Event) (logical_time_delta : Z) (field : EventField) : Z :=
  match field with
  | Task => e_task_id e
  | LogicalTimeDelta => logical_time_delta
  | Stream => e_stream_id e
  | Draw => e_draw_id e
  | Handle => e_host_handle_id e
  | Offset => e_offset e
  | Requested => e_requested_bytes e
  | Completed => e_completed_bytes e
  | NativeErrno => e_native_errno e
  | NameHash => e_name_hash e
  | PathHash => e_path_hash e
  | PayloadHash => e_payload_hash e
  end.

Definition Fields (e : Event) (logical_time_delta : Z) : Z :=
  fold_left Z.lor
    (map (fun field => event_field (negb (field_value e logical_time_delta field =? 0)) field) all_fields) 0.

Definition PresentValue (fields : Z) (field : EventField) (value : Z) : bool :=
  if Z.land fields (field_bit field) =? 0 then value =? 0 else negb (value =? 0).

(** ** Writing *)
Section WriteHost.
Context {S : Type} `{!Sink S}.

(** The body of the loop over the events; [st] is the sequence and the logical time
    of the previous event. *)
Definition write_event (st : Z * Z) (e : Event) : action S := fun w =>
  let '(previous_sequence, previous_logical_time) := st in
  match Checked.sub (e_sequence e) previous_sequence,
        Checked.sub (e_logical_time_ns e) previous_logical_time with
  | Some sequence_delta, Some logical_time_delta =>
      if negb (KnownKind (e_kind e)) || negb (KnownStatus (e_status e))
      then reject Code.CodecInvariantInvalid w else
      let fields := Fields e logical_time_delta in
      (and_then (put_varuint sequence_delta)
      (and_then (put_varuint (e_kind e))
      (and_then (put_varuint (e_status e))
      (and_then (put_varuint fields)
      (and_then (when (has fields Task) (put_varuint (e_task_id e)))
      (and_then (when (has fields LogicalTimeDelta) (put_varuint logical_time_delta))
      (and_then (when (has fields Stream) (put_varuint (e_stream_id e)))
      (and_then (when (has fields Draw) (put_varuint (e_draw_id e)))
      (and_then (when (has fields Handle) (put_varuint (e_host_handle_id e)))
      (and_then (when (has fields Offset) (put_varuint (e_offset e)))
      (and_then (when (has fields Requested) (put_varuint (e_requested_bytes e)))
      (and_then (when (has fields Completed) (put_varuint (e_completed_bytes e)))
      (and_then (when (has fields NativeErrno) (put_sint (e_native_errno e)))
      (and_then (when (has fields NameHash) (put_fixed64 (e_name_hash e)))
      (and_then (when (has fields PathHash) (put_fixed64 (e_path_hash e)))
                (when (has fields PayloadHash) (put_fixed64 (e_payload_hash e)))))))))))))))))) w
  | _, _ => reject Code.CodecInvariantInvalid w
  end.

Definition event_state (e : Event) : Z * Z := (e_sequence e, e_logical_time_ns e).

Definition WriteHostEvidence (events : list Event) (event_hash : Z) : action S := fun w =>
  if negb (writer_ok w) then (false, w) else
  and_then (put_varuint (zlen events))
    (and_then (put_fixed64 event_hash) (put_list write_event event_state (0, 0) events)) w.
End WriteHost.

(** ** Reading *)
Definition read_event (st : Z * Z) (r : Reader) : option (Event * Reader) :=
  let '(previous_sequence, previous_logical_time) := st in
  '(sequence_delta, r) ← get_varuint r;
  '(kind, r) ← get_varuint r;
  if negb (KnownKind kind) then None else
  '(status, r) ← get_varuint r;
  if negb (KnownStatus status) then None else
  '(fields, r) ← get_varuint r;
  if kEventFieldMask <? fields then None else
  sequence ← Checked.add previous_sequence sequence_delta;
  '(task_id, r) ← get_if (has fields Task) get_varuint r;
  '(logical_time_delta, r) ← get_if (has fields LogicalTimeDelta) get_varuint r;
  '(stream_id, r) ← get_if (has fields Stream) get_varuint r;
  '(draw_id, r) ← get_if (has fields Draw) get_varuint r;
  '(handle, r) ← get_if (has fields Handle) get_varuint r;
  '(offset, r) ← get_if (has fields Offset) get_varuint r;
  '(requested, r) ← get_if (has fields Requested) get_varuint r;
  '(completed, r) ← get_if (has fields Completed) get_varuint r;
  '(native_errno, r) ← get_if (has fields NativeErrno) get_sint r;
  if (native_errno <? - 2147483648) || (2147483647 <? native_errno) then None else
  '(name_hash, r) ← get_if (has fields NameHash) get_fixed64 r;
  '(path_hash, r) ← get_if (has fields PathHash) get_fixed64 r;
  '(payload_hash, r) ← get_if (has fields PayloadHash) get_fixed64 r;
  if negb (PresentValue fields Task task_id && PresentValue fields LogicalTimeDelta logical_time_delta &&
           PresentValue fields Stream stream_id && PresentValue fields Draw draw_id &&
           PresentValue fields Handle handle && PresentValue fields Offset offset &&
           PresentValue fields Requested requested && PresentValue fields Completed completed &&
           PresentValue fields NativeErrno (if native_errno =? 0 then 0 else 1) &&
           PresentValue fields NameHash name_hash && PresentValue fields PathHash path_hash &&
           PresentValue fields PayloadHash payload_hash) then None else
  logical_time_ns ← Checked.add previous_logical_time logical_time_delta;
  Some (mk_event sequence kind status task_id logical_time_ns stream_id draw_id handle offset
          requested completed native_errno name_hash path_hash payload_hash, r).

Definition ReadHostEvidence (r : Reader) (max_entries : Z) : (list Event * Z * Reader) + Z :=
  match get_varuint r with
  | None => inr Code.HostBadValue
  | Some (count, r) =>
      if (max_entries <? count) || (U64_MAX <? count) then inr Code.CodecEntryCapacityExceeded else
      match get_fixed64 r with
      | None => inr Code.HostBadValue
      | Some (expected_hash, r) =>
          match get_list read_event event_state (Z.to_nat count) (0, 0) r with
          | None => inr Code.HostBadValue
          | Some (events, r) =>
              if hash_events events =? expected_hash then inl (events, hash_events events, r)
              else inr Code.HostHashInvalid
          end
      end
  end.

(** ** The public entry points *)
Definition EncodeHostReplayEvents (events : list Event) : list Z :=
  let w := make_writer ([] : list Z) U64_MAX true in
  let '(ok, w) := and_then (put_header HostEvents) (WriteHostEvidence events (hash_events events)) w in
  if negb ok then [] else
  let '(result, w) := finish w in
  if result_ok result then w_sink w else [].

Definition DecodeHostReplayEvents (encoded : list Z) : (list Event * Z) + Z :=
  match get_header HostEvents (mk_reader encoded 0) with
  | None => inr Code.HostBadHeader
  | Some r =>
      match ReadHostEvidence r U64_MAX with
      | inr code => inr code
      | inl (events, event_hash, r) =>
          if reader_done r then inl (events, event_hash) else inr Code.HostBadValue
      end
  end.
