(* ===== verification/HostReplayFacts.v ===== *)
(** * HostReplayFacts: round trip and canonicity of the host event artifact

    The field mask and the values determine each other; one event is a wire format
    relative to its predecessor; the artifact is the header, the count, the hash and
    the events. *)

From stdpp Require Import base numbers list option.
From Stdlib Require Import ZArith Lia.
From S2P Require Import Prelude Checked Artifact ArtifactFacts HostReplay.

(** ** The field mask *)
Definition mask_of (flags : list bool) : Z :=
  fold_left Z.lor (zip_with event_field flags all_fields) 0.

Fixpoint all_flags (n : nat) : list (list bool) :=
  match n with
  | O => [[]]
  | S n => map (cons true) (all_flags n) ++ map (cons false) (all_flags n)
  end.
Lemma all_flags_spec flags : flags ∈ all_flags (length flags).
Proof.
  induction flags as [|[] flags IH]; cbn; [by left| |]; apply elem_of_app; [left|right];
    by apply list_elem_of_fmap_2.
Qed.

Lemma mask_flags flags : length flags = 12%nat ->
  0 <= mask_of flags <= kEventFieldMask /\ map (has (mask_of flags)) all_fields = flags.
Proof.
  intros Hl. pose proof (all_flags_spec flags) as Hin. rewrite Hl in Hin.
  assert (forallb (fun flags => (0 <=? mask_of flags) && (mask_of flags <=? kEventFieldMask) &&
    bool_decide (map (has (mask_of flags)) all_fields = flags)) (all_flags 12) = true) as H by (by vm_compute).
  rewrite forallb_forall in H. apply list_elem_of_In, H in Hin. to_prop.
  split; [lia | by eapply bool_decide_eq_true_1].
Qed.

Lemma flags_mask fields : 0 <= fields <= kEventFieldMask ->
  mask_of (map (has fields) all_fields) = fields.
Proof.
  intros Hf. assert (forallb (fun f => mask_of (map (has f) all_fields) =? f) (range 0 4096) = true) as H by (by vm_compute).
  rewrite forallb_forall in H. apply Z.eqb_eq, H, list_elem_of_In, elem_of_range.
  change kEventFieldMask with 4095 in Hf. lia.
Qed.

Lemma Fields_mask e delta :
  Fields e delta = mask_of (map (fun field => negb (field_value e delta field =? 0)) all_fields).
Proof. unfold Fields, mask_of. f_equal. Qed.

Lemma has_Fields e delta field :
  has (Fields e delta) field = negb (field_value e delta field =? 0).
Proof.
  rewrite Fields_mask. set (flags := map _ all_fields).
  destruct (mask_flags flags eq_refl) as [_ H]. unfold flags at 2 in H.
  assert (forall l (f g : EventField -> bool), map f l = map g l -> field ∈ l -> f field = g field) as Hmap.
  { intros l f g. induction l as [|x l IH]; cbn; [by intros _ ?%elem_of_nil|]. intros [= Hx Hl] [->|Hin]%elem_of_cons; auto. }
  apply (Hmap all_fields _ (fun field => negb (field_value e delta field =? 0))); [exact H|]. unfold all_fields. rewrite !elem_of_cons. destruct field; tauto.
Qed.

Lemma Fields_range e delta : 0 <= Fields e delta <= kEventFieldMask.
Proof. rewrite Fields_mask. by apply mask_flags. Qed.

Lemma PresentValue_has fields field v : PresentValue fields field v = Bool.eqb (has fields field) (negb (v =? 0)).
Proof. unfold PresentValue, has. by destruct (_ =? 0), (v =? 0). Qed.

(** A mask whose flags say which values are not zero is the mask of the writer. *)
Lemma Fields_unique fields e delta : 0 <= fields <= kEventFieldMask ->
  (forall field, has fields field = negb (field_value e delta field =? 0)) -> Fields e delta = fields.
Proof.
  intros Hf H. rewrite Fields_mask, <- (flags_mask fields Hf). f_equal. apply list_fmap_ext.
  intros i field _. by rewrite H.
Qed.

(** ** One event *)
Record event_typed (e : Event) : Prop := {
  et_sequence : is_u64 (e_sequence e);
  et_kind : is_u64 (e_kind e);
  et_status : is_u64 (e_status e);
  et_task_id : is_u64 (e_task_id e);
  et_time : is_u64 (e_logical_time_ns e);
  et_stream_id : is_u64 (e_stream_id e);
  et_draw_id : is_u64 (e_draw_id e);
  et_handle : is_u64 (e_host_handle_id e);
  et_offset : is_u64 (e_offset e);
  et_requested : is_u64 (e_requested_bytes e);
  et_completed : is_u64 (e_completed_bytes e);
  et_errno : -2147483648 <= e_native_errno e <= 2147483647;
  et_name : is_u64 (e_name_hash e);
  et_path : is_u64 (e_path_hash e);
  et_payload : is_u64 (e_payload_hash e);
}.

(** An event that can follow the previous one in an artifact. *)
Record event_follows (st : Z * Z) (e : Event) : Prop := {
  ef_typed : event_typed e;
  ef_kind : KnownKind (e_kind e) = true;
  ef_status : KnownStatus (e_status e) = true;
  ef_state : is_u64 st.1 /\ is_u64 st.2;
  ef_sequence : st.1 <= e_sequence e;
  ef_time : st.2 <= e_logical_time_ns e;
}.

Definition event_bytes (st : Z * Z) (e : Event) : list Z :=
  let delta := e_logical_time_ns e - st.2 in
  let fields := Fields e delta in
  let opt field w v := wire_put (opt_wire (has fields field) w) v in
  wire_put varuint_wire (e_sequence e - st.1) ++ wire_put varuint_wire (e_kind e) ++
  wire_put varuint_wire (e_status e) ++ wire_put varuint_wire fields ++
  opt Task varuint_wire (e_task_id e) ++ opt LogicalTimeDelta varuint_wire delta ++
  opt Stream varuint_wire (e_stream_id e) ++ opt Draw varuint_wire (e_draw_id e) ++
  opt Handle varuint_wire (e_host_handle_id e) ++ opt Offset varuint_wire (e_offset e) ++
  opt Requested varuint_wire (e_requested_bytes e) ++ opt Completed varuint_wire (e_completed_bytes e) ++
  opt NativeErrno sint_wire (e_native_errno e) ++ opt NameHash fixed64_wire (e_name_hash e) ++
  opt PathHash fixed64_wire (e_path_hash e) ++ opt PayloadHash fixed64_wire (e_payload_hash e).

(** A field under its flag is a valid optional value. *)
Lemma opt_valid (w : Wire Z) e delta field :
  (field_value e delta field <> 0 -> wire_valid w (field_value e delta field)) ->
  wire_valid (opt_wire (has (Fields e delta) field) w) (field_value e delta field).
Proof.
  intros H. rewrite has_Fields. cbn. destruct (Z.eqb_spec (field_value e delta field) 0); cbn; auto.
Qed.

Lemma Checked_sub_ok a b : is_u64 a -> 0 <= b <= a -> Checked.sub a b = Some (a - b).
Proof.
  intros [? ?] ?. unfold Checked.sub. destruct (Z.ltb_spec a b); [lia|].
  by rewrite wrap64_small by (unfold is_u64; lia).
Qed.
Lemma Checked_add_ok a b : 0 <= a -> 0 <= b -> is_u64 (a + b) -> Checked.add a b = Some (a + b).
Proof.
  intros ? ? [? ?]. unfold Checked.add, Checked.add_fits. destruct (Z.leb_spec a (U64_MAX - b)); [|lia].
  cbn. by rewrite wrap64_small by (unfold is_u64; lia).
Qed.
Lemma Checked_add_inv a b c : 0 <= a -> 0 <= b -> Checked.add a b = Some c -> c = a + b /\ is_u64 c.
Proof.
  intros ? ?. unfold Checked.add, Checked.add_fits. case_match eqn:E; [done|]. to_prop. intros [= <-]. rewrite wrap64_small by (unfold is_u64; lia). split; [done|]. unfold is_u64; lia.
Qed.

Lemma PresentValue_Fields e delta field :
  PresentValue (Fields e delta) field (field_value e delta field) = true.
Proof. rewrite PresentValue_has, has_Fields. apply Bool.eqb_reflx. Qed.

Lemma PresentValue_bool fields field v :
  PresentValue fields field (if v =? 0 then 0 else 1) = PresentValue fields field v.
Proof. unfold PresentValue. by destruct (v =? 0). Qed.

Lemma PresentValue_inv fields field v : PresentValue fields field v = true ->
  has fields field = negb (v =? 0).
Proof. rewrite PresentValue_has. apply Bool.eqb_prop. Qed.

(** The reading steps compare these as they stand. *)
#[local] Opaque leb word_bytes Fields get_varuint get_sint get_fixed64.

(** Reading the next written value. *)
Ltac wire_step Ha Hv :=
  match type of Ha with
  | at_ ?r (wire_put ?w ?a ++ ?rest) =>
      let E := fresh "E" in
      pose proof (wire_get_put (w := w) a r rest Hv Ha) as E;
      cbn [wire_get varuint_wire sint_wire fixed64_wire opt_wire] in E;
      refine (get_bind _ _ _ _ _ E _); clear E; cbv beta; apply at_advance in Ha
  end.

Lemma read_event_written st e r rest : event_follows st e -> at_ r (event_bytes st e ++ rest) ->
  read_event st r = Some (e, advance r (zlen (event_bytes st e))).
Proof.
  destruct st as [ps pt]. intros [T Hk Hs [Hps Hpt] Hseq Htime] Ha. cbn [fst snd] in *. destruct T.
  unfold event_bytes in *. cbn [fst snd] in *. set (delta := e_logical_time_ns e - pt) in *.
  rewrite <- !app_assoc in Ha. unfold read_event.
  assert (forall z, is_u64 z -> wire_valid varuint_wire z) as V by done.
  assert (forall field w, (field_value e delta field <> 0 -> wire_valid w (field_value e delta field)) ->
    wire_valid (opt_wire (has (Fields e delta) field) w) (field_value e delta field)) as O
    by (intros; by apply opt_valid).
  unfold is_u64 in *.
  wire_step Ha (V (e_sequence e - ps) ltac:(unfold is_u64; lia)).
  wire_step Ha (V (e_kind e) et_kind0). rewrite Hk. cbn [negb].
  wire_step Ha (V (e_status e) et_status0). rewrite Hs. cbn [negb].
  pose proof (Fields_range e delta) as Hf. change kEventFieldMask with 4095 in *.
  wire_step Ha (V (Fields e delta) ltac:(unfold is_u64; lia)).
  destruct (Z.ltb_spec 4095 (Fields e delta)); [lia|].
  rewrite Checked_add_ok by (unfold is_u64; lia). cbn [mbind option_bind].
  wire_step Ha (O Task varuint_wire (fun _ => et_task_id0)).
  wire_step Ha (O LogicalTimeDelta varuint_wire (fun _ => V delta ltac:(unfold delta, is_u64; lia))).
  wire_step Ha (O Stream varuint_wire (fun _ => et_stream_id0)).
  wire_step Ha (O Draw varuint_wire (fun _ => et_draw_id0)).
  wire_step Ha (O Handle varuint_wire (fun _ => et_handle0)).
  wire_step Ha (O Offset varuint_wire (fun _ => et_offset0)).
  wire_step Ha (O Requested varuint_wire (fun _ => et_requested0)).
  wire_step Ha (O Completed varuint_wire (fun _ => et_completed0)).
  wire_step Ha (O NativeErrno sint_wire (fun _ => ltac:(cbn; unfold is_i64; lia))).
  destruct (Z.ltb_spec (e_native_errno e) (-2147483648)); [lia|].
  destruct (Z.ltb_spec 2147483647 (e_native_errno e)); [lia|]. cbn [orb].
  wire_step Ha (O NameHash fixed64_wire (fun _ => et_name0)).
  wire_step Ha (O PathHash fixed64_wire (fun _ => et_path0)).
  wire_step Ha (O PayloadHash fixed64_wire (fun _ => et_payload0)).
  rewrite PresentValue_bool.
  rewrite !(PresentValue_Fields e delta Task : PresentValue _ _ (e_task_id e) = true),
    !(PresentValue_Fields e delta LogicalTimeDelta : PresentValue _ _ delta = true),
    !(PresentValue_Fields e delta Stream : PresentValue _ _ (e_stream_id e) = true),
    !(PresentValue_Fields e delta Draw : PresentValue _ _ (e_draw_id e) = true),
    !(PresentValue_Fields e delta Handle : PresentValue _ _ (e_host_handle_id e) = true),
    !(PresentValue_Fields e delta Offset : PresentValue _ _ (e_offset e) = true),
    !(PresentValue_Fields e delta Requested : PresentValue _ _ (e_requested_bytes e) = true),
    !(PresentValue_Fields e delta Completed : PresentValue _ _ (e_completed_bytes e) = true),
    !(PresentValue_Fields e delta NativeErrno : PresentValue _ _ (e_native_errno e) = true),
    !(PresentValue_Fields e delta NameHash : PresentValue _ _ (e_name_hash e) = true),
    !(PresentValue_Fields e delta PathHash : PresentValue _ _ (e_path_hash e) = true),
    !(PresentValue_Fields e delta PayloadHash : PresentValue _ _ (e_payload_hash e) = true).
  cbn [negb andb]. rewrite Checked_add_ok by (unfold delta, is_u64; lia). cbn [mbind option_bind].
  rewrite !advance_advance, !zlen_app. unfold delta. destruct e; cbn. do 3 f_equal; lia.
Qed.

(** The first read of [H] is a value of the wire format [w]. *)
Ltac wire_inv H w Hwf v Hv Ha :=
  let r1 := fresh "r" in let E := fresh "E" in let Hwf' := fresh "Hwf" in
  apply get_bind_inv in H as (v & r1 & E & H); cbv beta in H;
  destruct (wire_get_sound (w := w) _ _ _ Hwf E) as (Hv & Ha & ->); clear E;
  pose proof (at_wf _ _ (at_advance _ _ _ Ha)) as Hwf'; clear Hwf; rename Hwf' into Hwf.

Lemma KnownKind_range k : KnownKind k = true -> k <= 65535.
Proof. unfold KnownKind. intros H. to_prop. lia. Qed.

Lemma read_event_sound st r e r' : is_u64 st.1 -> is_u64 st.2 -> reader_wf r ->
  read_event st r = Some (e, r') ->
  event_follows st e /\ at_ r (event_bytes st e ++ rest_of r') /\ r' = advance r (zlen (event_bytes st e)).
Proof.
  destruct st as [ps pt]. cbn [fst snd]. intros Hps Hpt Hwf H. pose proof Hwf as Hr.
  unfold read_event in H.
  wire_inv H varuint_wire Hwf sd Vsd A1.
  wire_inv H varuint_wire Hwf kind Vk A2. destruct (KnownKind kind) eqn:Kk; [|done]. cbn [negb] in H.
  wire_inv H varuint_wire Hwf status Vs A3. destruct (KnownStatus status) eqn:Ks; [|done]. cbn [negb] in H.
  wire_inv H varuint_wire Hwf fields Vf A4. case_match eqn:Ef; [done|].
  destruct (Checked.add ps sd) as [seq|] eqn:Es; [|done]. cbn [mbind option_bind] in H.
  wire_inv H (opt_wire (has fields Task) varuint_wire) Hwf task V1 A5.
  wire_inv H (opt_wire (has fields LogicalTimeDelta) varuint_wire) Hwf delta V2 A6.
  wire_inv H (opt_wire (has fields Stream) varuint_wire) Hwf stream V3 A7.
  wire_inv H (opt_wire (has fields Draw) varuint_wire) Hwf draw V4 A8.
  wire_inv H (opt_wire (has fields Handle) varuint_wire) Hwf handle V5 A9.
  wire_inv H (opt_wire (has fields Offset) varuint_wire) Hwf offset V6 A10.
  wire_inv H (opt_wire (has fields Requested) varuint_wire) Hwf requested V7 A11.
  wire_inv H (opt_wire (has fields Completed) varuint_wire) Hwf completed V8 A12.
  wire_inv H (opt_wire (has fields NativeErrno) sint_wire) Hwf errno V9 A13.
  case_match eqn:Ee; [done|].
  wire_inv H (opt_wire (has fields NameHash) fixed64_wire) Hwf name V10 A14.
  wire_inv H (opt_wire (has fields PathHash) fixed64_wire) Hwf path V11 A15.
  wire_inv H (opt_wire (has fields PayloadHash) fixed64_wire) Hwf payload V12 A16.
  case_match eqn:Ep; [done|]. apply negb_false_iff in Ep.
  destruct (Checked.add pt delta) as [time|] eqn:Et; [|done]. cbn [mbind option_bind] in H.
  injection H as <- <-.
  assert (forall present w v, wire_valid (opt_wire present w) v -> (forall v, wire_valid w v -> is_u64 v) -> is_u64 v) as U.
  { intros [] w v; cbn; [auto | by intros -> _]. }
  assert (forall v, wire_valid varuint_wire v -> is_u64 v) as Uv by done.
  assert (forall v, wire_valid fixed64_wire v -> is_u64 v) as Uf by done.
  apply U in V1, V2, V3, V4, V5, V6, V7, V8, V10, V11, V12; try done.
  cbn in Vsd, Vk, Vs, Vf. unfold is_u64 in *.
  apply Checked_add_inv in Es as [-> ?], Et as [-> ?]; try lia.
  rewrite PresentValue_bool in Ep.
  repeat match type of Ep with _ && _ = true =>
    let Hp := fresh "Hp" in apply andb_prop in Ep as [Ep Hp]; apply PresentValue_inv in Hp end.
  apply PresentValue_inv in Ep. to_prop. unfold is_u64 in *.
  set (e := mk_event _ _ _ _ _ _ _ _ _ _ _ _ _ _ _).
  assert (Fields e delta = fields) as EF.
  { apply Fields_unique; [lia|]. intros []; done. }
  split.
  { assert (event_typed e) by (split; unfold is_u64; cbn; lia).
    split; cbn; unfold is_u64; auto; lia. }
  unfold event_bytes; cbn [fst snd]. change (e_logical_time_ns e) with (pt + delta).
  change (e_sequence e) with (ps + sd). replace (pt + delta - pt) with delta by lia.
  replace (ps + sd - ps) with sd by lia. rewrite EF. cbn [e_kind e_status e_task_id e_stream_id
    e_draw_id e_host_handle_id e_offset e_requested_bytes e_completed_bytes e_native_errno
    e_name_hash e_path_hash e_payload_hash e].
  split.
  - split; [done|]. rewrite <- !app_assoc, (at_rest _ _ A1), (at_rest _ _ A2), (at_rest _ _ A3),
      (at_rest _ _ A4), (at_rest _ _ A5), (at_rest _ _ A6), (at_rest _ _ A7), (at_rest _ _ A8),
      (at_rest _ _ A9), (at_rest _ _ A10), (at_rest _ _ A11), (at_rest _ _ A12), (at_rest _ _ A13),
      (at_rest _ _ A14), (at_rest _ _ A15), (at_rest _ _ A16). done.
  - by rewrite !advance_advance, !zlen_app, <- ?Z.add_assoc.
Qed.

(** ** The events as a wire format *)
Definition event_wire (st : Z * Z) : Wire Event :=
  mk_wire (event_bytes st) (if decide (is_u64 st.1 /\ is_u64 st.2) then read_event st else fun _ => None)
    (event_follows st).
#[export] Instance event_laws st : WireLaws (event_wire st).
Proof.
  split; cbn [wire_put wire_get wire_valid event_wire].
  - intros e [T _ _ [? ?] ? ?]. unfold event_bytes.
    assert (forall field w, WireLaws w -> (field_value e (e_logical_time_ns e - st.2) field <> 0 ->
      wire_valid w (field_value e (e_logical_time_ns e - st.2) field)) ->
      Forall is_byte (wire_put (opt_wire (has (Fields e (e_logical_time_ns e - st.2)) field) w)
        (field_value e (e_logical_time_ns e - st.2) field))) as O.
    { intros field w Hw Hv. by apply (wire_bytes (w := opt_wire _ w)), opt_valid. }
    assert (forall v, is_u64 v -> Forall is_byte (wire_put varuint_wire v)) as V
      by (intros; by apply (wire_bytes (w := varuint_wire))).
    destruct T. unfold is_u64 in *. pose proof (Fields_range e (e_logical_time_ns e - st.2)) as Hf.
    change kEventFieldMask with 4095 in Hf.
    repeat (apply Forall_app; split); try (apply V; unfold is_u64; lia).
    + apply (O Task varuint_wire); [apply _ | done].
    + apply (O LogicalTimeDelta varuint_wire); [apply _|]. intros _. cbn. unfold is_u64. lia.
    + apply (O Stream varuint_wire); [apply _ | done].
    + apply (O Draw varuint_wire); [apply _ | done].
    + apply (O Handle varuint_wire); [apply _ | done].
    + apply (O Offset varuint_wire); [apply _ | done].
    + apply (O Requested varuint_wire); [apply _ | done].
    + apply (O Completed varuint_wire); [apply _ | done].
    + apply (O NativeErrno sint_wire); [apply _|]. intros _. cbn. unfold is_i64. lia.
    + apply (O NameHash fixed64_wire); [apply _ | done].
    + apply (O PathHash fixed64_wire); [apply _ | done].
    + apply (O PayloadHash fixed64_wire); [apply _ | done].
  - intros e r rest He Ha. rewrite decide_True by exact (ef_state _ _ He). by eapply read_event_written.
  - intros r e r' Hr. case_decide as Hst; [|done]. destruct Hst. by apply read_event_sound.
Qed.

(** The events read by the loop are those of the wire format: the state stays a pair
    of 64-bit numbers. *)
Lemma read_events_wire n st r : is_u64 st.1 -> is_u64 st.2 -> reader_wf r ->
  get_list read_event event_state n st r = wire_get (list_wire event_wire event_state n st) r.
Proof.
  intros H1 H2. apply (get_list_wire event_wire event_state read_event (fun st => is_u64 st.1 /\ is_u64 st.2)); [| |done].
  - intros st' H. cbn [wire_get event_wire]. by rewrite decide_True.
  - by intros st' e [[] _ _ _ _ _].
Qed.

(** What [EncodeHostReplayEvents] accepts. *)
Definition encodable (events : list Event) : Prop :=
  zlen events <= U64_MAX /\ chain event_wire event_state (0, 0) events.

Definition evidence_bytes (events : list Event) (hash : Z) : list Z :=
  wire_put varuint_wire (zlen events) ++ wire_put fixed64_wire hash ++
  list_bytes event_wire event_state (0, 0) events.

(** ** Writing the evidence *)
Section WriteEvents.
Context {S : Type} `{!Sink S}.

Lemma emits_event st e : event_follows st e -> Emits (S := S) (write_event st e) (event_bytes st e).
Proof.
  destruct st as [ps pt]. intros [T Hk Hs [Hps Hpt] Hseq Htime]. cbn [fst snd] in *. destruct T.
  unfold event_bytes; cbn [fst snd]. set (delta := e_logical_time_ns e - pt).
  intros start pre w Hw. unfold write_event.
  rewrite !Checked_sub_ok by (unfold is_u64 in *; lia). rewrite Hk, Hs. cbn [negb orb].
  fold delta. revert start pre w Hw. pose proof (Fields_range e delta) as Hf. change kEventFieldMask with 4095 in Hf.
  assert (forall v, is_u64 v -> Emits (S := S) (put_varuint v) (wire_put varuint_wire v)) as V
    by (intros; by apply emits_varuint).
  assert (forall c v, is_u64 v -> Emits (S := S) (when c (put_varuint v)) (wire_put (opt_wire c varuint_wire) v)) as W
    by (intros; by apply emits_when, emits_varuint).
  assert (forall c v, Emits (S := S) (when c (put_fixed64 v)) (wire_put (opt_wire c fixed64_wire) v)) as X
    by (intros; apply emits_when, emits_fixed64).
  unfold is_u64 in *.
  do 4 (apply emits_and_then; [apply V; unfold is_u64; lia|]).
  do 8 (apply emits_and_then; [apply W; unfold is_u64; lia|]).
  apply emits_and_then; [apply emits_when, emits_sint; unfold is_i64; lia|].
  do 2 (apply emits_and_then; [apply X|]). apply X.
Qed.

Lemma emits_evidence events hash : encodable events ->
  Emits (S := S) (WriteHostEvidence events hash) (evidence_bytes events hash).
Proof.
  intros [Hn Hc] start pre w Hw. unfold WriteHostEvidence. rewrite (holds_ok _ _ _ Hw). cbn [negb].
  revert start pre w Hw. apply emits_and_then; [apply emits_varuint; unfold is_u64; pose proof (zlen_nonneg events); lia|].
  apply emits_and_then; [apply emits_fixed64|].
  apply (emits_list event_wire event_state write_event events); [|done].
  intros st e _ He. by apply emits_event.
Qed.
End WriteEvents.

(** Events the recorder may have left: known kinds and statuses, sequence numbers and
    logical times that never decrease. *)
Fixpoint recorded (st : Z * Z) (events : list Event) : bool :=
  match events with
  | [] => true
  | e :: events =>
      KnownKind (e_kind e) && KnownStatus (e_status e) && (st.1 <=? e_sequence e) &&
      (st.2 <=? e_logical_time_ns e) && recorded (event_state e) events
  end.

Lemma recorded_chain events : forall st, is_u64 st.1 -> is_u64 st.2 -> Forall event_typed events ->
  recorded st events = true <-> chain event_wire event_state st events.
Proof.
  induction events as [|e events IH]; intros st H1 H2 Ht; cbn [recorded chain wire_valid event_wire]; [done|].
  apply list.Forall_cons in Ht as [He Ht]. rewrite !andb_true_iff, !Z.leb_le, IH; [| apply He | apply He | done].
  split.
  - intros ((((? & ?) & ?) & ?) & ?). by split; [constructor|].
  - intros ([] & ?). done.
Qed.

Lemma write_event_rejects {S} `{!Sink S} st e (w : Writer S) :
  is_u64 st.1 -> is_u64 st.2 -> event_typed e -> ~ event_follows st e -> writer_ok w = true ->
  (write_event st e w).1 = false.
Proof.
  destruct st as [ps pt]. cbn [fst snd]. intros H1 H2 He Hn Hw. unfold write_event.
  assert (forall code, (reject code w).1 = false) as R by (intros; unfold reject; by rewrite Hw).
  destruct (Checked.sub (e_sequence e) ps) as [sd|] eqn:E1; [|apply R].
  destruct (Checked.sub (e_logical_time_ns e) pt) as [td|] eqn:E2; [|apply R].
  destruct (KnownKind (e_kind e)) eqn:E3; cbn [negb orb]; [|apply R].
  destruct (KnownStatus (e_status e)) eqn:E4; cbn [negb]; [|apply R].
  destruct Hn. unfold Checked.sub in E1, E2. repeat case_match; try done; to_prop. by split.
Qed.

Lemma write_events_rejects {S} `{!Sink S} events : forall st (start pre : list Z) (w : Writer S),
  is_u64 st.1 -> is_u64 st.2 -> Forall event_typed events -> recorded st events = false ->
  Holds start pre w -> (put_list write_event event_state st events w).1 = false.
Proof.
  induction events as [|e events IH]; intros st start pre w H1 H2 Ht Hr Hw; [done|].
  apply list.Forall_cons in Ht as [He Ht]. cbn [put_list].
  destruct (decide (KnownKind (e_kind e) = true /\ KnownStatus (e_status e) = true /\
    st.1 <= e_sequence e /\ st.2 <= e_logical_time_ns e)) as [(G1 & G2 & G3 & G4)|Hn].
  - assert (event_follows st e) as Hf by by split.
    pose proof (emits_event (S := S) st e Hf start pre w Hw) as Hem.
    destruct (write_event st e w) as [[] w1]; cbn [fst snd] in *; [|done].
    destruct Hem as [Hw1 _]. eapply (IH _ start _ w1); [apply He | apply He | done | | exact Hw1].
    cbn in Hr. rewrite G1, G2 in Hr. apply Z.leb_le in G3, G4. by rewrite G3, G4 in Hr.
  - assert ((write_event st e w).1 = false) as Hrej.
    { apply write_event_rejects; [done..| |apply (holds_ok _ _ _ Hw)]. intros []. by apply Hn. }
    by destruct (write_event st e w) as [[] w1].
Qed.

(** ** Sizes *)
Lemma leb_short k v : zlen (leb k v) <= Z.of_nat k.
Proof.
  revert v; induction k as [|k IH]; intros v; [done|]. cbn [leb]. case_match; rewrite zlen_cons; [rewrite zlen_nil|specialize (IH (v / 128))]; lia.
Qed.

Lemma event_bytes_short st e : zlen (event_bytes st e) <= 160.
Proof.
  unfold event_bytes. set (delta := e_logical_time_ns e - st.2). rewrite !zlen_app.
  assert (forall v, zlen (wire_put varuint_wire v) <= 10) as V by (intros; apply (leb_short 10)).
  assert (forall field v, zlen (wire_put (opt_wire (has (Fields e delta) field) varuint_wire) v) <= 10) as W.
  { intros field v. cbn. case_match; [apply (leb_short 10) | by rewrite zlen_nil]. }
  assert (forall field v, zlen (wire_put (opt_wire (has (Fields e delta) field) sint_wire) v) <= 10) as X.
  { intros field v. cbn. case_match; [apply (leb_short 10) | by rewrite zlen_nil]. }
  assert (forall field v, zlen (wire_put (opt_wire (has (Fields e delta) field) fixed64_wire) v) <= 10) as Y.
  { intros field v. cbn. case_match; [by rewrite zlen_word_bytes | by rewrite zlen_nil]. }
  repeat match goal with |- context [zlen (wire_put ?w ?v)] =>
    let n := fresh "n" in assert (zlen (wire_put w v) <= 10) by (first [apply V | apply W | apply X | apply Y]);
    set (n := zlen (wire_put w v)) in * end. lia.
Qed.

Lemma list_bytes_short events : forall st, zlen (list_bytes event_wire event_state st events) <= 160 * zlen events.
Proof.
  induction events as [|e events IH]; intros st; cbn [list_bytes]; [by rewrite zlen_nil|].
  rewrite zlen_app, zlen_cons. pose proof (event_bytes_short st e). specialize (IH (event_state e)).
  cbn [wire_put event_wire]. lia.
Qed.

Definition artifact_bytes (events : list Event) : list Z :=
  header_bytes HostEvents ++ evidence_bytes events (hash_events events).

Lemma hash_events_range events : is_u64 (hash_events events).
Proof.
  unfold hash_events. assert (is_u64 (Mix kStableHashOffset (zlen events))) as H by apply wrap64_range.
  revert H. generalize (Mix kStableHashOffset (zlen events)).
  induction events as [|e events IH]; intros s Hs; cbn [fold_left]; [done | apply IH, wrap64_range].
Qed.

Lemma artifact_short events : zlen events <= 72057594037927936 -> zlen (artifact_bytes events) <= U64_MAX.
Proof.
  intros Hn. unfold artifact_bytes, evidence_bytes. rewrite !zlen_app.
  pose proof (leb_short 10 (zlen events)) as H1. pose proof (list_bytes_short events (0, 0)) as H2.
  change (zlen (header_bytes HostEvents)) with 8. cbn [wire_put varuint_wire fixed64_wire].
  rewrite zlen_word_bytes. lia.
Qed.

(** ** The artifact *)
Lemma encode_events events : encodable events -> zlen (artifact_bytes events) <= U64_MAX ->
  EncodeHostReplayEvents events = artifact_bytes events.
Proof.
  intros He Hl. unfold EncodeHostReplayEvents.
  assert (Emits (S := list Z) (and_then (put_header HostEvents) (WriteHostEvidence events (hash_events events)))
    (artifact_bytes events)) as Hem by (apply emits_and_then; [apply emits_header | by apply emits_evidence]).
  assert (is_u64 U64_MAX) as Hmax by done.
  pose proof (writer_run _ _ ([] : list Z) U64_MAX Hem Hmax) as Hrun.
  pose proof (Hem _ _ _ (make_writer_holds ([] : list Z) U64_MAX Hmax)) as Hone.
  destruct (and_then _ _ _) as [[] w]; cbn [fst snd negb] in *.
  - destruct (finish w) as [result w']. destruct Hrun as [Hok Hcode].
    specialize (Hcode vector_sink_reliable). destruct (Z.leb_spec (zlen (artifact_bytes events)) U64_MAX); [|lia].
    assert (result_ok result = true) as R by (unfold result_ok; rewrite Hcode; done).
    rewrite R. destruct (Hok R) as [Hrec _]. exact Hrec.
  - destruct Hone as [_ Hrel]. destruct (Hrel vector_sink_reliable) as [_ Hrel']. change (U64_MAX < zlen (artifact_bytes events)) in Hrel'. lia.
Qed.

Lemma decode_events events bytes : Forall is_byte bytes -> encodable events -> bytes = artifact_bytes events ->
  DecodeHostReplayEvents bytes = inl (events, hash_events events).
Proof.
  intros Hb [Hn Hc] ->. set (r := mk_reader (artifact_bytes events) 0).
  assert (at_ r (artifact_bytes events ++ [])) as Ha.
  { rewrite app_nil_r. split; [split; [done|]|done]. split; [done | apply zlen_nonneg]. }
  unfold artifact_bytes, evidence_bytes in Ha. rewrite <- !app_assoc in Ha.
  unfold DecodeHostReplayEvents. fold r. rewrite (get_header_at _ _ _ Ha). apply at_advance in Ha.
  change (zlen (header_bytes HostEvents)) with kHeaderBytes in Ha. unfold ReadHostEvidence.
  assert (is_u64 (zlen events)) as Hu by (pose proof (zlen_nonneg events); done).
  rewrite (wire_get_put (w := varuint_wire) _ _ _ Hu Ha : get_varuint _ = _). apply at_advance in Ha.
  destruct Hu as [_ Hu]. apply Z.ltb_ge in Hu. rewrite Hu. cbn [orb].
  rewrite (wire_get_put (w := fixed64_wire) _ _ _ (hash_events_range events) Ha : get_fixed64 _ = _). apply at_advance in Ha.
  rewrite read_events_wire; [| done | done | apply Ha].
  assert (wire_valid (list_wire event_wire event_state (Z.to_nat (zlen events)) (0, 0)) events) as Hv.
  { split; [unfold zlen; lia | done]. }
  rewrite (wire_get_put (w := list_wire event_wire event_state (Z.to_nat (zlen events)) (0, 0)) events _ [] Hv Ha).
  rewrite Z.eqb_refl. apply at_advance in Ha. pose proof (at_len _ _ Ha) as Hl. unfold remaining in Hl.
  rewrite zlen_nil in Hl. unfold reader_done. cbn [wire_put list_wire] in *.
  match goal with |- context [?a =? ?b] => replace (a =? b) with true by (symmetry; apply Z.eqb_eq; lia) end. done.
Qed.

Lemma artifact_wf events : encodable events -> Forall is_byte (artifact_bytes events).
Proof.
  intros [Hn Hc]. unfold artifact_bytes, evidence_bytes. rewrite !Forall_app. split; [|split; [|split]].
  - apply (bool_decide_unpack _). by vm_compute.
  - apply (wire_bytes (w := varuint_wire)). pose proof (zlen_nonneg events). done.
  - apply (wire_bytes (w := fixed64_wire)), hash_events_range.
  - apply (wire_bytes (w := list_wire event_wire event_state (length events) (0, 0))). done.
Qed.

Lemma decode_inv bytes events hash : Forall is_byte bytes -> DecodeHostReplayEvents bytes = inl (events, hash) ->
  encodable events /\ hash = hash_events events /\ bytes = artifact_bytes events.
Proof.
  intros Hb. set (r := mk_reader bytes 0). assert (reader_wf r) as Hwf.
  { split; [done|]. split; [done | apply zlen_nonneg]. }
  unfold DecodeHostReplayEvents. fold r. destruct (get_header HostEvents r) as [r1|] eqn:E1; [|done].
  destruct (get_header_inv _ _ _ Hwf E1) as (A1 & ->). pose proof (at_wf _ _ (at_advance _ _ _ A1)) as W1.
  change (zlen (header_bytes HostEvents)) with kHeaderBytes in W1. unfold ReadHostEvidence.
  destruct (get_varuint _) as [[count r2]|] eqn:E2; [|done].
  destruct (wire_get_sound (w := varuint_wire) _ _ _ W1 E2) as (Hu & A2 & ->).
  pose proof (at_wf _ _ (at_advance _ _ _ A2)) as W2.
  destruct ((_ <? _) || _); [done|].
  destruct (get_fixed64 _) as [[expected r3]|] eqn:E3; [|done].
  destruct (wire_get_sound (w := fixed64_wire) _ _ _ W2 E3) as (Hx & A3 & ->).
  pose proof (at_wf _ _ (at_advance _ _ _ A3)) as W3. rewrite read_events_wire; [| done | done | exact W3].
  destruct (wire_get _ _) as [[l r4]|] eqn:E4; [|done].
  destruct (wire_get_sound _ _ _ W3 E4) as ([Hl Hc] & A4 & ->). destruct (Z.eqb_spec (hash_events l) expected) as [<-|]; [|done].
  destruct (reader_done _) eqn:Ed; [|done]. intros [= <- <-]. cbn in Hu. unfold is_u64 in Hu.
  assert (zlen l = count) as Hlen by (unfold zlen; lia). split; [split; [lia|done]|]. split; [done|].
  apply Z.eqb_eq in Ed. set (r4 := advance _ (zlen (wire_put (list_wire _ _ _ _) _))) in *.
  assert (rest_of r4 = []) as Hend.
  { unfold rest_of. apply drop_ge. apply (f_equal Z.to_nat) in Ed. unfold zlen in Ed. lia. }
  change (rest_of r = artifact_bytes l). rewrite (at_rest _ _ A1), (at_rest _ _ A2), (at_rest _ _ A3), (at_rest _ _ A4), Hend.
  rewrite app_nil_r. unfold artifact_bytes, evidence_bytes. by rewrite Hlen.
Qed.

(** C27: Encoding any recorded host events and decoding the artifact gives the events
    and their hash back; events with an unknown kind or status, or whose sequence
    numbers or logical times decrease, are refused and give no artifact. *)
Theorem host_events_roundtrip events :
  Forall event_typed events -> zlen events <= 72057594037927936 ->
  if recorded (0, 0) events
  then DecodeHostReplayEvents (EncodeHostReplayEvents events) = inl (events, hash_events events)
  else EncodeHostReplayEvents events = [].
Proof.
  intros Ht Hn. destruct (recorded (0, 0) events) eqn:Er.
  - apply recorded_chain in Er; [|done..]. assert (encodable events) as He by (split; [lia | done]).
    rewrite encode_events by (done || by apply artifact_short).
    apply decode_events; [by apply artifact_wf | done | done].
  - unfold EncodeHostReplayEvents, and_then. assert (is_u64 U64_MAX) as Hmax by done.
    pose proof (emits_header (S := list Z) HostEvents _ _ _ (make_writer_holds ([] : list Z) U64_MAX Hmax)) as H1.
    destruct (put_header _ _) as [[] w1]; cbn [fst snd] in H1; [|done]. destruct H1 as [H1 _].
    assert ((WriteHostEvidence events (hash_events events) w1).1 = false) as Hf; [|by destruct (WriteHostEvidence _ _ _) as [[] w2]].
    unfold WriteHostEvidence, and_then. rewrite (holds_ok _ _ _ H1). cbn [negb].
    assert (is_u64 (zlen events)) as Hu by (pose proof (zlen_nonneg events); unfold is_u64; lia).
    pose proof (emits_varuint _ Hu _ _ _ H1) as H2. destruct (put_varuint _ w1) as [[] w2]; cbn [fst snd] in *; [|done].
    destruct H2 as [H2 _]. pose proof (emits_fixed64 (hash_events events) _ _ _ H2) as H3.
    destruct (put_fixed64 _ w2) as [[] w3]; cbn [fst snd] in *; [|done]. destruct H3 as [H3 _].
    by eapply write_events_rejects.
Qed.

Lemma host_events_roundtrip_witness :
  let events := [mk_event 1 3 0 7 100 0 0 0 0 0 0 (-5) 0 0 99; mk_event 3 24 6 7 100 1 2 3 4 5 6 7 8 9 10] in
  Forall event_typed events /\ recorded (0, 0) events = true /\
  DecodeHostReplayEvents (EncodeHostReplayEvents events) = inl (events, 4115595233451250193).
Proof.
  intros events. assert (Forall event_typed events) as Ht by (repeat constructor; vm_compute; done).
  split; [exact Ht|]. split; [reflexivity|].
  exact (host_events_roundtrip events Ht ltac:(vm_compute; discriminate)).
Defined.

(** C30: The artifact of a list of events is unique: whatever bytes decode to some
    events are exactly the bytes that encoding those events gives, so no two
    artifacts hold the same events and nothing is read that would not be written. *)
Theorem host_events_canonical bytes events hash :
  Forall is_byte bytes -> zlen bytes <= U64_MAX ->
  DecodeHostReplayEvents bytes = inl (events, hash) ->
  hash = hash_events events /\ recorded (0, 0) events = true /\ EncodeHostReplayEvents events = bytes.
Proof.
  intros Hb Hl E. destruct (decode_inv bytes events hash Hb E) as (He & -> & ->). split; [done|].
  split; [|by apply encode_events]. apply recorded_chain; [done | done | | apply He].
  destruct He as [_ Hc]. clear Hb Hl E. revert Hc. generalize (0, 0).
  induction events as [|e events IH]; intros st Hc; constructor; destruct Hc as [[] Hc]; [done | by eapply IH].
Qed.

Lemma host_events_canonical_witness :
  let bytes := [114; 117; 110; 68; 26; 10; 1; 3; 1; 108; 223; 71; 203; 215; 168; 56; 234; 5; 1; 0; 1; 9] in
  let events := [mk_event 5 1 0 9 0 0 0 0 0 0 0 0 0 0 0] in
  Forall is_byte bytes /\ EncodeHostReplayEvents events = bytes.
Proof.
  intros bytes events. assert (Forall is_byte bytes) as Hb by (repeat constructor; vm_compute; done).
  split; [exact Hb|].
  exact (proj2 (proj2 (host_events_canonical bytes events (hash_events events) Hb ltac:(vm_compute; discriminate) ltac:(vm_compute; reflexivity)))).
Defined.

(** C38: For events that can be encoded, whatever the sink does, a host artifact that is reported saved has reached
    the sink as exactly its bytes, after whatever the sink held and within the
    limit; with a sink that never refuses the save succeeds exactly when the bytes
    fit the limit, and otherwise reports the capacity. *)
Theorem host_artifact_saved {S : Type} `{!Sink S} (sink : S) max events :
  encodable events -> is_u64 max ->
  let '(result, w) := finish (and_then (put_header HostEvents)
                        (WriteHostEvidence events (hash_events events)) (make_writer sink max true)).2 in
  (result_ok result = true ->
     received (w_sink w) = received sink ++ artifact_bytes events /\
     res_bytes result = zlen (artifact_bytes events) /\
     0 <= res_writes result <= res_bytes result /\ res_bytes result <= max) /\
  (Reliable S -> res_code result =
     if zlen (artifact_bytes events) <=? max then Code.Ok else Code.ArtifactCapacityExceeded).
Proof.
  intros He Hmax.
  pose proof (writer_run (and_then (put_header HostEvents) (WriteHostEvidence events (hash_events events)))
    (artifact_bytes events) sink max) as H.
  specialize (H (emits_and_then _ _ _ _ (emits_header _) (emits_evidence _ _ He)) Hmax).
  destruct (finish _) as [result w]. destruct H as [H1 H2]. split; [|done].
  intros Hok. destruct (H1 Hok) as (? & -> & ? & ?). done.
Qed.

Lemma host_artifact_saved_witness :
  let events := [mk_event 5 1 0 9 0 0 0 0 0 0 0 0 0 0 0] in
  let saved max := finish (and_then (put_header HostEvents)
      (WriteHostEvidence events (hash_events events)) (make_writer ([7] : list Z) max true)).2 in
  encodable events /\ res_code (saved 22).1 = Code.Ok /\ res_code (saved 21).1 = Code.ArtifactCapacityExceeded.
Proof.
  intros events saved. assert (encodable events) as He.
  { split; [vm_compute; discriminate|]. apply recorded_chain; [done | done | | reflexivity].
    repeat constructor; vm_compute; done. }
  split; [exact He|]. split.
  - pose proof (host_artifact_saved ([7] : list Z) 22 events He ltac:(vm_compute; split; discriminate)) as H.
    fold (saved 22) in H. destruct (saved 22) as [result w]. exact (proj2 H vector_sink_reliable).
  - pose proof (host_artifact_saved ([7] : list Z) 21 events He ltac:(vm_compute; split; discriminate)) as H.
    fold (saved 21) in H. destruct (saved 21) as [result w]. exact (proj2 H vector_sink_reliable).
Defined.
