(* ===== verification/Rle.v ===== *)
(** * Rle: the run-length codec of recorded payloads

    [src/node/src/runtime/replay/host/payload/codec.cpp] and [backend/blob.cpp]: the
    encoder, the walk that decodes, compares and verifies without a copy, and the
    blobs that keep the shorter of the raw and the encoded bytes.

    The payload hash is the vendored XXH3 hash: its streaming state is an interface
    ([StreamHash]) whose law is the documented equality of the streamed digest with
    the digest of all the bytes. A [bool] result with written outputs is an [option]
    of the outputs; the outer [option] of [WalkRle] is exhausted fuel. Hash pointers
    that may be null are [option]s. A result of type [option (option H)] is [None]
    where the code returns [false], and the record hash otherwise: after [false] the
    record hash may have taken some of the bytes and its owner drops it. *)

From stdpp Require Import base numbers list option.
From Stdlib Require Import ZArith Lia.
From S2P Require Import Prelude Artifact.

Definition kMaxRun : Z := 130.
Definition kMaxLiteral : Z := 128.

(** The length of the run of equal bytes at [offset], at most 130. *)
Definition RepeatRunLength (bytes : list Z) (offset : Z) : option Z :=
  while 130 (fun length => (offset + length <? zlen bytes) && (length <? kMaxRun) &&
               bool_decide (zget bytes (offset + length) = zget bytes offset))
    (fun length => length + 1) 1.

(** ** Encoding *)

(** The loop that collects literal bytes; a [Return] is its [break]. *)
Definition literal_step (bytes : list Z) (st : Z * Z) : option (flow (Z * Z) (Z * Z)) :=
  let '(index, literal_length) := st in
  repeat ← RepeatRunLength bytes index;
  if 3 <=? repeat then Some (Return (index, literal_length))
  else Some (Next (index + 1, literal_length + 1)).
Definition literal_cond (bytes : list Z) (st : Z * Z) : bool :=
  let '(index, literal_length) := st in (index <? zlen bytes) && (literal_length <? kMaxLiteral).
Definition collect_literal (bytes : list Z) (index : Z) : option (Z * Z) :=
  f ← while_loop 129 (literal_cond bytes) (literal_step bytes) (index, 0);
  match f with Next st | Return st => Some st end.

Definition encode_step (bytes : list Z) (st : Z * list Z) : option (flow (Z * list Z) (list Z)) :=
  let '(index, encoded) := st in
  repeat ← RepeatRunLength bytes index;
  if 3 <=? repeat then
    value ← zget bytes index;
    Some (Next (index + repeat, encoded ++ [Z.lor 128 (repeat - 3); value]))
  else
    '(stop, literal_length) ← collect_literal bytes index;
    Some (Next (stop, encoded ++ [literal_length - 1] ++
                        take (Z.to_nat literal_length) (drop (Z.to_nat index) bytes))).
Definition EncodeRle (bytes : list Z) : option (list Z) :=
  after (while_loop (S (length bytes)) (fun st => st.1 <? zlen bytes) (encode_step bytes) (0, []))
    (fun st => Some st.2).

(** ** The walk

    [repeat] and [literal] are the callbacks; [None] is their [false]. *)
Section Walk.
Context {X : Type} (encoded : list Z) (output_size : Z)
  (repeat : X -> Z -> Z -> Z -> option X) (literal : X -> Z -> list Z -> option X).

Definition walk_step (st : Z * Z * X) : option (flow (Z * Z * X) (option X)) :=
  let '(index, written, x) := st in
  tag ← zget encoded index;
  let index := index + 1 in
  if negb (Z.land tag 128 =? 0) then
    let length := Z.land tag 127 + 3 in
    if (zlen encoded <=? index) || (output_size - written <? length) then Some (Return None) else
    value ← zget encoded index;
    match repeat x written length value with
    | None => Some (Return None)
    | Some x => Some (Next (index + 1, written + length, x))
    end
  else
    let length := tag + 1 in
    if (zlen encoded - index <? length) || (output_size - written <? length) then Some (Return None) else
    match literal x written (take (Z.to_nat length) (drop (Z.to_nat index) encoded)) with
    | None => Some (Return None)
    | Some x => Some (Next (index + length, written + length, x))
    end.

Definition WalkRle (x : X) : option (option X) :=
  after (while_loop (S (length encoded)) (fun st => st.1.1 <? zlen encoded) walk_step (0, 0, x))
    (fun '(_, written, x) => Some (if written =? output_size then Some x else None)).
End Walk.

(** ** The hash of the payload *)
Class StreamHash (H : Type) := {
  hash_init : H;
  hash_update : H -> list Z -> H;
  hash_digest : H -> Z;
  hash_bytes : list Z -> Z;
  hash_streaming pieces : hash_digest (fold_left hash_update pieces hash_init) = hash_bytes (concat pieces);
}.

Inductive Codec := Raw | Rle.
#[export] Instance Codec_eq_dec : EqDecision Codec.
Proof. solve_decision. Defined.

(** [output.subspan(offset, length)] written in place. *)
Definition write_at (output : list Z) (offset : Z) (bytes : list Z) : list Z :=
  take (Z.to_nat offset) output ++ bytes ++ drop (Z.to_nat (offset + zlen bytes)) output.
Definition slice (bytes : list Z) (offset length : Z) : list Z :=
  take (Z.to_nat length) (drop (Z.to_nat offset) bytes).

Section Payload.
Context {H : Type} `{!StreamHash H}.

(** [if (hash != nullptr) hash->Append(bytes)] *)
Definition append_hash (hash : option H) (bytes : list Z) : option H :=
  (fun h => hash_update h bytes) <$> hash.

Definition DecodeRleInto (encoded output : list Z) (chunk_hash record_hash : option H)
    : option (option (list Z * option H * option H)) :=
  WalkRle encoded (zlen output)
    (fun '(output, chunk, record) offset length value =>
       let written := replicate (Z.to_nat length) value in
       Some (write_at output offset written, append_hash chunk written, append_hash record written))
    (fun '(output, chunk, record) offset literal =>
       Some (write_at output offset literal, append_hash chunk literal, append_hash record literal))
    (output, chunk_hash, record_hash).

Definition DecodeRle (encoded : list Z) (expected_uncompressed_bytes : Z) : option (option (list Z)) :=
  if U64_MAX <? expected_uncompressed_bytes then Some None else
  r ← DecodeRleInto encoded (replicate (Z.to_nat expected_uncompressed_bytes) 0) None None;
  Some (match r with Some (bytes, _, _) => Some bytes | None => None end).

Definition RleMatches (encoded expected : list Z) : option bool :=
  r ← WalkRle (X := unit) encoded (zlen expected)
    (fun _ offset length value =>
       if forallb (Z.eqb value) (slice expected offset length) then Some tt else None)
    (fun _ offset literal =>
       if bool_decide (literal = slice expected offset (zlen literal)) then Some tt else None) tt;
  Some (match r with Some _ => true | None => false end).

Definition RleMatchesAndHash (encoded expected : list Z) (expected_hash : Z) (record_hash : option H)
    : option (option (option H)) :=
  r ← WalkRle encoded (zlen expected)
    (fun '(hash, record) offset length value =>
       let matched := slice expected offset length in
       if forallb (Z.eqb value) matched
       then Some (hash_update hash matched, append_hash record matched) else None)
    (fun '(hash, record) offset literal =>
       if bool_decide (literal = slice expected offset (zlen literal))
       then Some (hash_update hash literal, append_hash record literal) else None)
    (hash_init, record_hash);
  Some (match r with
        | Some (hash, record) => if hash_digest hash =? expected_hash then Some record else None
        | None => None
        end).

(** [append] is the callback. *)
Definition WalkDecoded {X} (uncompressed_bytes : Z) (codec : Codec) (encoded : list Z)
    (append : X -> list Z -> X) (x : X) : option (option X) :=
  if U64_MAX <? uncompressed_bytes then Some None else
  match codec with
  | Raw => Some (if negb (zlen encoded =? uncompressed_bytes) then None else Some (append x encoded))
  | Rle =>
      WalkRle encoded uncompressed_bytes
        (fun x _ length value => Some (append x (replicate (Z.to_nat length) value)))
        (fun x _ literal => Some (append x literal)) x
  end.

Definition Verify (expected_hash uncompressed_bytes : Z) (codec : Codec) (encoded : list Z)
    (payload_hash : option H) : option (option (option H)) :=
  r ← WalkDecoded uncompressed_bytes codec encoded
        (fun '(chunk, payload) bytes => (hash_update chunk bytes, append_hash payload bytes))
        (hash_init, payload_hash);
  Some (match r with
        | Some (chunk, payload) => if hash_digest chunk =? expected_hash then Some payload else None
        | None => None
        end).

(** ** Blobs *)
Record Blob := mk_blob {
  b_payload_hash : Z;
  b_uncompressed_bytes : Z;
  b_encoded_bytes : Z;
  b_codec : Codec;
  b_encoded : list Z;
}.

Definition Encode (bytes : list Z) (payload_hash : Z) : option Blob :=
  rle ← EncodeRle bytes;
  let use_rle := zlen rle <? zlen bytes in
  let encoded := if use_rle then rle else bytes in
  Some (mk_blob payload_hash (zlen bytes) (zlen encoded) (if use_rle then Rle else Raw) encoded).

(** [DecodeInto]: the output and the record hash on success; [None] inside is
    [HostPayloadHashInvalid]. *)
Definition DecodeInto (payload_hash uncompressed_bytes : Z) (codec : Codec) (encoded output : list Z)
    (record_hash : option H) : option (option (list Z * option H)) :=
  if negb (uncompressed_bytes =? zlen output) then Some None else
  decoded ← match codec with
    | Raw =>
        Some (if zlen encoded =? zlen output
              then Some (write_at output 0 encoded, Some (hash_update hash_init encoded),
                         append_hash record_hash encoded)
              else None)
    | Rle => DecodeRleInto encoded output (Some hash_init) record_hash
    end;
  Some (match decoded with
        | Some (output, Some chunk, record) =>
            if hash_digest chunk =? payload_hash then Some (output, record) else None
        | _ => None
        end).

Definition Decode (payload_hash uncompressed_bytes : Z) (codec : Codec) (encoded : list Z)
    : option (Z * list Z) :=
  if U64_MAX <? uncompressed_bytes then Some (Code.HostPayloadHashInvalid, []) else
  r ← DecodeInto payload_hash uncompressed_bytes codec encoded
        (replicate (Z.to_nat uncompressed_bytes) 0) None;
  Some (match r with
        | Some (decoded, _) => (Code.Ok, decoded)
        | None => (Code.HostPayloadHashInvalid, [])
        end).

Definition Matches (blob : Blob) (bytes : list Z) (payload_hash : Z) : option bool :=
  if negb (b_uncompressed_bytes blob =? zlen bytes) || negb (b_payload_hash blob =? payload_hash)
  then Some false else
  match b_codec blob with
  | Raw => Some ((zlen (b_encoded blob) =? zlen bytes) && bool_decide (b_encoded blob = bytes))
  | Rle => RleMatches (b_encoded blob) bytes
  end.

Definition VerifiedMatches (blob : Blob) (bytes : list Z) (payload_hash : Z) (record_hash : option H)
    : option (option (option H)) :=
  if negb (b_uncompressed_bytes blob =? zlen bytes) || negb (b_payload_hash blob =? payload_hash)
  then Some None else
  match b_codec blob with
  | Rle => RleMatchesAndHash (b_encoded blob) bytes payload_hash record_hash
  | Raw =>
      let encoded := b_encoded blob in
      if negb (zlen encoded =? zlen bytes) then Some None else
      if negb (bool_decide (encoded = bytes)) then Some None else
      Some (if hash_digest (hash_update hash_init encoded) =? payload_hash
            then Some (append_hash record_hash encoded) else None)
  end.
End Payload.
