(* ===== verification/RleFacts.v ===== *)
(** * RleFacts: the payload codec is lossless and its checks are exact

    [pieces] cuts an encoding into the byte strings it stands for; every walk is a
    fold over the pieces. The encoder's output is cut into pieces that concatenate to
    the input. *)

From stdpp Require Import base numbers list option.
From Stdlib Require Import ZArith Lia.
From S2P Require Import Prelude Artifact Rle.

(** ** Pieces *)
Fixpoint pieces (fuel : nat) (encoded : list Z) (room : Z) : option (list (list Z)) :=
  match encoded with
  | [] => if room =? 0 then Some [] else None
  | tag :: rest =>
      match fuel with
      | O => None
      | S n =>
          if negb (Z.land tag 128 =? 0) then
            let length := Z.land tag 127 + 3 in
            match rest with
            | [] => None
            | value :: rest =>
                if room <? length then None
                else cons (replicate (Z.to_nat length) value) <$> pieces n rest (room - length)
            end
          else
            let length := tag + 1 in
            if (zlen rest <? length) || (room <? length) then None
            else cons (take (Z.to_nat length) rest) <$> pieces n (drop (Z.to_nat length) rest) (room - length)
      end
  end.

(** The walk as a fold of one handler over the pieces at their offsets. *)
Fixpoint fold_pieces {X} (handle : X -> Z -> list Z -> option X) (offset : Z) (x : X)
    (ps : list (list Z)) : option X :=
  match ps with
  | [] => Some x
  | p :: ps => x ← handle x offset p; fold_pieces handle (offset + zlen p) x ps
  end.

Lemma tag_length tag : 0 <= Z.land tag 127.
Proof. apply Z.land_nonneg. by right. Qed.

Lemma zget_drop {A} (l : list A) i : 0 <= i -> zget l i = head (drop (Z.to_nat i) l).
Proof.
  intros Hi. unfold zget. destruct (Z.leb_spec 0 i); [|lia]. rewrite head_lookup, lookup_drop.
  f_equal. lia.
Qed.

Lemma drop_tail {A} (l : list A) i x rest : 0 <= i -> drop (Z.to_nat i) l = x :: rest ->
  drop (Z.to_nat (i + 1)) l = rest /\ i < zlen l.
Proof.
  intros Hi E. split.
  - replace (Z.to_nat (i + 1)) with (Z.to_nat i + 1)%nat by lia. by rewrite <- drop_drop, E.
  - apply (f_equal length) in E. rewrite length_drop in E. cbn in E. unfold zlen. lia.
Qed.

Section Walks.
Context {X : Type} (repeat : X -> Z -> Z -> Z -> option X) (literal : X -> Z -> list Z -> option X)
  (handle : X -> Z -> list Z -> option X) (output_size : Z).
Hypothesis repeat_handle : forall x offset length value,
  0 <= length -> 0 <= offset -> offset + length <= output_size ->
  repeat x offset length value = handle x offset (replicate (Z.to_nat length) value).
Hypothesis literal_handle : forall x offset bytes, literal x offset bytes = handle x offset bytes.

Lemma walk_loop encoded : Forall is_byte encoded -> forall fuel k index written x,
  0 <= index <= zlen encoded -> 0 <= written -> (length (drop (Z.to_nat index) encoded) <= fuel)%nat ->
  (length (drop (Z.to_nat index) encoded) <= k)%nat ->
  after (while_loop fuel (fun st => st.1.1 <? zlen encoded)
          (walk_step encoded output_size repeat literal) (index, written, x))
    (fun '(_, written, x) => Some (if written =? output_size then Some x else None)) =
  Some (ps ← pieces k (drop (Z.to_nat index) encoded) (output_size - written);
        fold_pieces handle written x ps).
Proof using repeat_handle literal_handle.
  intros Hbytes fuel. induction fuel as [|fuel IH]; intros k index written x Hi Hw Hf Hk.
  - assert (drop (Z.to_nat index) encoded = []) as E by (by apply length_zero_iff_nil; lia).
    rewrite E. assert (index = zlen encoded) as -> by (apply (f_equal length) in E; rewrite length_drop in E; cbn in E; unfold zlen in *; lia).
    cbn [while_loop fst]. rewrite Z.ltb_irrefl. unfold after. cbn [mbind option_bind].
    destruct k; cbn [pieces]; (destruct (Z.eqb_spec written output_size), (Z.eqb_spec (output_size - written) 0); try lia; done).
  - cbn [while_loop fst]. destruct (drop (Z.to_nat index) encoded) as [|tag rest] eqn:E.
    { assert (index = zlen encoded) as -> by (apply (f_equal length) in E; rewrite length_drop in E; cbn in E; unfold zlen in *; lia).
      rewrite Z.ltb_irrefl. unfold after. cbn [mbind option_bind].
      destruct k; cbn [pieces]; (destruct (Z.eqb_spec written output_size), (Z.eqb_spec (output_size - written) 0); try lia; done). }
    destruct (drop_tail encoded index tag rest ltac:(lia) E) as [E1 Hlt].
    destruct (Z.ltb_spec index (zlen encoded)); [|lia].
    destruct k as [|k]; [cbn in Hk; lia|]. cbn [pieces walk_step].
    rewrite (zget_drop encoded index), E by lia. cbn [head mbind option_bind].
    assert (is_byte tag) as Htag.
    { eapply (list.Forall_forall is_byte); [exact Hbytes|]. rewrite <- (take_drop (Z.to_nat index) encoded), E.
      apply elem_of_app. right. by left. }
    unfold is_byte in Htag.
    assert (zlen rest = zlen encoded - (index + 1)) as Hrest.
    { rewrite <- E1. unfold zlen in *. rewrite length_drop. lia. }
    cbn [length] in *. pose proof (tag_length tag). destruct (negb (Z.land tag 128 =? 0)).
    + destruct rest as [|value rest].
      { rewrite zlen_nil in Hrest. destruct (Z.leb_spec (zlen encoded) (index + 1)); [|lia]. done. }
      rewrite zlen_cons in Hrest. pose proof (zlen_nonneg rest).
      destruct (Z.leb_spec (zlen encoded) (index + 1)); [lia|]. cbn [orb].
      destruct (Z.ltb_spec (output_size - written) (Z.land tag 127 + 3)); [done|].
      rewrite (zget_drop encoded (index + 1)), E1 by lia. cbn [head mbind option_bind].
      rewrite repeat_handle by lia. destruct (drop_tail encoded (index + 1) value rest ltac:(lia) E1) as [E2 _].
      destruct (handle x written _) as [x1|] eqn:Eh; cbn [mbind option_bind].
      * rewrite (IH k) by (try rewrite E2; cbn [length] in *; lia). rewrite E2.
        replace (output_size - (written + (Z.land tag 127 + 3))) with (output_size - written - (Z.land tag 127 + 3)) by lia.
        destruct (pieces k rest _) as [ps|]; [|done]. cbn. rewrite Eh. cbn. rewrite zlen_replicate.
        do 2 f_equal; lia.
      * destruct (pieces k rest _) as [ps|]; [|done]. cbn. by rewrite Eh.
    + rewrite Hrest. destruct (Z.ltb_spec (zlen encoded - (index + 1)) (tag + 1)); [done|]. cbn [orb].
      destruct (Z.ltb_spec (output_size - written) (tag + 1)); [done|].
      rewrite E1, literal_handle. 
      assert (drop (Z.to_nat (index + 1 + (tag + 1))) encoded = drop (Z.to_nat (tag + 1)) rest) as E2.
      { rewrite <- E1, drop_drop. f_equal. lia. }
      assert (zlen (take (Z.to_nat (tag + 1)) rest) = tag + 1) as Ht.
      { unfold zlen in *. rewrite length_take. lia. }
      destruct (handle x written _) as [x1|] eqn:Eh; cbn [mbind option_bind].
      * rewrite (IH k); [| lia | lia | rewrite E2, length_drop; lia | rewrite E2, length_drop; lia]. rewrite E2.
        replace (output_size - (written + (tag + 1))) with (output_size - written - (tag + 1)) by lia.
        destruct (pieces k _ _) as [ps|]; [|done]. cbn. rewrite Eh. cbn. by rewrite Ht.
      * destruct (pieces k _ _) as [ps|]; [|done]. cbn. by rewrite Eh.
Qed.

Lemma WalkRle_pieces encoded x : Forall is_byte encoded ->
  WalkRle encoded output_size repeat literal x =
  Some (ps ← pieces (length encoded) encoded output_size; fold_pieces handle 0 x ps).
Proof using repeat_handle literal_handle.
  intros Hb. unfold WalkRle. rewrite (walk_loop encoded Hb _ (length encoded)).
  - change (Z.to_nat 0) with 0%nat. by rewrite drop_0, Z.sub_0_r.
  - pose proof (zlen_nonneg encoded). lia.
  - done.
  - change (Z.to_nat 0) with 0%nat. rewrite drop_0. lia.
  - change (Z.to_nat 0) with 0%nat. by rewrite drop_0.
Qed.
End Walks.

(** The pieces fill the room exactly. *)
Lemma pieces_room k : forall encoded room ps, Forall is_byte encoded ->
  pieces k encoded room = Some ps -> zlen (concat ps) = room.
Proof.
  induction k as [|k IH]; intros [|tag rest] room ps Hb; cbn [pieces]; try done.
  1,2: destruct (Z.eqb_spec room 0) as [->|]; [|done]; by intros [= <-].
  apply list.Forall_cons in Hb as [Htag Hb]. unfold is_byte in Htag. pose proof (tag_length tag). case_match.
  - destruct rest as [|value rest]; [done|]. apply list.Forall_cons in Hb as [_ Hb]. case_match eqn:E; [done|]. to_prop.
    destruct (pieces k rest _) as [ps'|] eqn:Ep; [|done]. intros [= <-].
    cbn [concat]. rewrite zlen_app, zlen_replicate, (IH _ _ _ Hb Ep). lia.
  - case_match eqn:E; [done|]. to_prop. destruct (pieces k _ _) as [ps'|] eqn:Ep; [|done]. intros [= <-].
    cbn [concat]. rewrite zlen_app, (IH _ _ _ (Forall_drop _ _ _ Hb) Ep). unfold zlen in *. rewrite length_take. lia.
Qed.

(** ** What each walk computes *)
Definition expand (encoded : list Z) (size : Z) : option (list Z) :=
  (fun ps => concat ps) <$> pieces (length encoded) encoded size.

Lemma write_at_append done_ todo p offset : offset = zlen done_ -> zlen p <= zlen todo ->
  write_at (done_ ++ todo) offset p = (done_ ++ p) ++ drop (length p) todo.
Proof.
  intros -> Hp. unfold write_at. unfold zlen at 1. rewrite Nat2Z.id, take_app_length, <- app_assoc. do 2 f_equal.
  rewrite <- zlen_app. unfold zlen. rewrite Nat2Z.id, length_app, <- drop_drop, drop_app_length. done.
Qed.

Section Results.
Context {H : Type} `{!StreamHash H}.
Implicit Types (hash : option H).

Definition append_all hash (ps : list (list Z)) : option H := (fun h => fold_left hash_update ps h) <$> hash.

Lemma append_all_nil hash : append_all hash [] = hash.
Proof. by destruct hash. Qed.
Lemma append_all_cons hash p ps : append_all (append_hash hash p) ps = append_all hash (p :: ps).
Proof. by destruct hash. Qed.

Lemma decode_fold ps : forall done_ todo chunk record, zlen (concat ps) = zlen todo ->
  fold_pieces (fun '(output, chunk, record) offset bytes =>
      Some (write_at output offset bytes, append_hash chunk bytes, append_hash record bytes))
    (zlen done_) (done_ ++ todo, chunk, record) ps =
  Some (done_ ++ concat ps, append_all chunk ps, append_all record ps).
Proof.
  induction ps as [|p ps IH]; intros done_ todo chunk record Hl; cbn [fold_pieces concat] in *.
  - symmetry in Hl. rewrite zlen_nil in Hl. apply zlen_0 in Hl as ->. by rewrite !append_all_nil.
  - rewrite zlen_app in Hl. pose proof (zlen_nonneg (concat ps)).
    cbn [mbind option_bind]. rewrite write_at_append by lia. rewrite <- zlen_app, IH.
    + by rewrite !append_all_cons, <- app_assoc.
    + unfold zlen in *. rewrite length_drop. lia.
Qed.

Lemma DecodeRleInto_expand encoded output chunk record : Forall is_byte encoded ->
  DecodeRleInto encoded output chunk record =
  Some (ps ← pieces (length encoded) encoded (zlen output);
        Some (concat ps, append_all chunk ps, append_all record ps)).
Proof.
  intros Hb. unfold DecodeRleInto.
  rewrite (WalkRle_pieces _ _ (fun '(output, chunk, record) offset bytes =>
      Some (write_at output offset bytes, append_hash chunk bytes, append_hash record bytes)));
    [| by intros [[? ?] ?] | by intros [[? ?] ?] | done].
  f_equal. destruct (pieces _ _ _) as [ps|] eqn:Ep; [|done]. cbn [mbind option_bind].
  exact (decode_fold ps [] output chunk record (pieces_room _ _ _ _ Hb Ep)).
Qed.

Lemma DecodeRle_expand encoded n : Forall is_byte encoded -> is_u64 n ->
  DecodeRle (H := H) encoded n = Some (expand encoded n).
Proof.
  intros Hb [H0 H1]. unfold DecodeRle. destruct (Z.ltb_spec U64_MAX n); [lia|].
  rewrite DecodeRleInto_expand by done. rewrite zlen_replicate, Z2Nat.id by lia.
  unfold expand. by destruct (pieces _ _ _).
Qed.

(** Comparing piece by piece is comparing the concatenation. *)
Lemma slice_app (done_ todo p : list Z) : slice (done_ ++ todo) (zlen done_) (zlen p) = take (length p) todo.
Proof. unfold slice, zlen. by rewrite !Nat2Z.id, drop_app_length. Qed.

Lemma match_fold {X} (step : X -> list Z -> X) ps : forall done_ todo x, zlen (concat ps) = zlen todo ->
  fold_pieces (fun x offset bytes =>
      if bool_decide (bytes = slice (done_ ++ todo) offset (zlen bytes)) then Some (step x bytes) else None)
    (zlen done_) x ps =
  if bool_decide (concat ps = todo) then Some (fold_left step ps x) else None.
Proof.
  induction ps as [|p ps IH]; intros done_ todo x Hl; cbn [fold_pieces concat] in *.
  - symmetry in Hl. rewrite zlen_nil in Hl. by apply zlen_0 in Hl as ->.
  - rewrite zlen_app in Hl. rewrite slice_app. case_bool_decide as Hp.
    + assert (exists todo', todo = p ++ todo') as [todo' ->].
      { exists (drop (length p) todo). rewrite Hp at 1. by rewrite take_drop. }
      rewrite zlen_app in Hl. cbn [mbind option_bind fold_left]. rewrite <- zlen_app.
      rewrite (app_assoc done_ p todo'), IH by lia.
      do 2 case_bool_decide; try done; exfalso; simplify_list_eq; naive_solver.
    + cbn. rewrite bool_decide_false; [done|]. intros <-. by rewrite take_app_length in Hp.
Qed.
End Results.

(** ** The encoder *)
Inductive Encodes : list Z -> list Z -> Prop :=
| Encodes_nil : Encodes [] []
| Encodes_repeat length value encoded bytes :
    3 <= length <= kMaxRun -> Encodes encoded bytes ->
    Encodes (Z.lor 128 (length - 3) :: value :: encoded) (replicate (Z.to_nat length) value ++ bytes)
| Encodes_literal literal encoded bytes :
    1 <= zlen literal <= kMaxLiteral -> Encodes encoded bytes ->
    Encodes ((zlen literal - 1) :: literal ++ encoded) (literal ++ bytes).

Lemma Encodes_app e1 b1 e2 b2 : Encodes e1 b1 -> Encodes e2 b2 -> Encodes (e1 ++ e2) (b1 ++ b2).
Proof.
  intros H1 H2. induction H1; cbn [app]; [done| |]; rewrite <- ?app_assoc; by constructor.
Qed.

Lemma repeat_tag n : 0 <= n <= 127 ->
  Z.land (Z.lor 128 n) 127 = n /\ (Z.land (Z.lor 128 n) 128 =? 0) = false /\ 0 <= Z.lor 128 n < 256.
Proof.
  intros Hn. replace (Z.lor 128 n) with (128 + n).
  2:{ change 128 with (1 * 2 ^ 7). rewrite lor_disjoint by (change (2 ^ 7) with 128; lia). done. }
  split; [|split; [|lia]].
  - change 127 with (2 ^ 7 - 1). rewrite land_mask by lia. symmetry. apply (Z.mod_unique _ _ 1); [|change (2 ^ 7) with 128]; lia.
  - change 128 with (2 ^ 7) at 2. rewrite land_pow2 by lia. change (2 ^ 7) with 128.
    replace ((128 + n) / 128) with 1 by (apply (Z.div_unique _ _ _ n); lia). done.
Qed.

Lemma literal_tag n : 0 <= n < 128 -> (Z.land n 128 =? 0) = true.
Proof. intros Hn. change 128 with (2 ^ 7). rewrite land_pow2 by lia. by rewrite Z.div_small by (change (2 ^ 7) with 128; lia). Qed.

Lemma Encodes_pieces encoded bytes : Encodes encoded bytes -> forall k, (length encoded <= k)%nat ->
  exists ps, pieces k encoded (zlen bytes) = Some ps /\ concat ps = bytes.
Proof.
  induction 1 as [|n value encoded bytes Hn _ IH|literal encoded bytes Hl _ IH]; intros k Hk.
  - exists []. by destruct k.
  - destruct k as [|k]; [cbn in Hk; lia|]. cbn [pieces length] in *. unfold kMaxRun in Hn.
    destruct (repeat_tag (n - 3) ltac:(lia)) as (-> & -> & _). cbn [negb].
    replace (n - 3 + 3) with n by lia. rewrite zlen_app, zlen_replicate, Z2Nat.id by lia.
    pose proof (zlen_nonneg bytes). destruct (Z.ltb_spec (n + zlen bytes) n); [lia|].
    replace (n + zlen bytes - n) with (zlen bytes) by lia.
    destruct (IH k ltac:(lia)) as (ps & -> & <-). eexists. split; [reflexivity | done].
  - destruct k as [|k]; [cbn in Hk; lia|]. cbn [pieces length] in *. unfold kMaxLiteral in Hl.
    rewrite literal_tag by lia. cbn [negb]. replace (zlen literal - 1 + 1) with (zlen literal) by lia.
    rewrite !zlen_app. pose proof (zlen_nonneg bytes). pose proof (zlen_nonneg encoded).
    destruct (Z.ltb_spec (zlen literal + zlen encoded) (zlen literal)); [lia|].
    destruct (Z.ltb_spec (zlen literal + zlen bytes) (zlen literal)); [lia|]. cbn [orb].
    replace (zlen literal + zlen bytes - zlen literal) with (zlen bytes) by lia.
    replace (Z.to_nat (zlen literal)) with (length literal) by (unfold zlen; lia).
    rewrite drop_app_length, take_app_length. rewrite length_app in Hk.
    destruct (IH k ltac:(lia)) as (ps & -> & <-). eexists. split; [reflexivity | done].
Qed.

Lemma Encodes_bytes encoded bytes : Encodes encoded bytes -> Forall is_byte bytes -> Forall is_byte encoded.
Proof.
  induction 1 as [|n value encoded bytes Hn _ IH|literal encoded bytes Hl _ IH]; intros Hb; [done| |];
    apply Forall_app in Hb as [H1 H2].
  - unfold kMaxRun in Hn. constructor; [apply (repeat_tag (n - 3)); lia|]. constructor; [|auto].
    rewrite list.Forall_forall in H1. apply H1. apply elem_of_replicate. split; [done | lia].
  - unfold kMaxLiteral in Hl. constructor; [unfold is_byte; lia|]. apply Forall_app; auto.
Qed.

(** A run of equal bytes. *)
Lemma RepeatRunLength_spec bytes offset : 0 <= offset < zlen bytes ->
  exists r value, RepeatRunLength bytes offset = Some r /\ zget bytes offset = Some value /\
    1 <= r <= kMaxRun /\ offset + r <= zlen bytes /\
    slice bytes offset r = replicate (Z.to_nat r) value.
Proof.
  intros Ho. destruct (zget_is_Some bytes offset Ho) as [value Hv]. unfold RepeatRunLength, kMaxRun.
  set (cond := fun length => _ && _ && _).
  destruct (while_total (fun n => 1 <= n <= 130 /\ offset + n <= zlen bytes /\
      forall i, 0 <= i < n -> zget bytes (offset + i) = Some value) (fun n => 130 - n) cond
      (fun n => n + 1) 130 1) as (r & E & (Hr & Hle & Hall) & _); [| |lia|lia|].
  - split; [lia|]. split; [lia|]. intros i Hi. by replace (offset + i) with offset by lia.
  - intros n (Hn & Hle & Hall) Hc. unfold cond in Hc. to_prop. split; [|lia]. split; [lia|]. split; [lia|].
    intros i Hi. destruct (Z.eq_dec i n) as [->|]; [|apply Hall; lia].
    match goal with H : bool_decide _ = true |- _ => apply bool_decide_eq_true_1 in H; by rewrite H end.
  - exists r, value. split; [exact E|]. split; [done|]. split; [lia|]. split; [done|].
    unfold slice. apply list_eq. intros i. destruct (decide (i < Z.to_nat r)%nat) as [Hi|Hi].
    + rewrite lookup_take, decide_True, lookup_drop, lookup_replicate_2 by done.
      specialize (Hall (Z.of_nat i) ltac:(lia)). apply zget_Some in Hall as [_ Hall].
      replace (Z.to_nat offset + i)%nat with (Z.to_nat (offset + Z.of_nat i)) by lia. done.
    + rewrite lookup_take, decide_False by done. symmetry. apply lookup_replicate_None. lia.
Qed.

(** The literal loop stops at the end, at 128 bytes, or where a run of three starts. *)
Lemma collect_literal_spec bytes index r : 0 <= index < zlen bytes ->
  RepeatRunLength bytes index = Some r -> r < 3 ->
  exists n, collect_literal bytes index = Some (index + n, n) /\ 1 <= n <= kMaxLiteral /\
    index + n <= zlen bytes /\
    (n = kMaxLiteral \/ index + n = zlen bytes \/
     exists r', RepeatRunLength bytes (index + n) = Some r' /\ 3 <= r').
Proof.
  intros Hi Er Hr. unfold collect_literal, kMaxLiteral.
  destruct (while_loop_safe (fun '(j, n) => j = index + n /\ 0 <= n <= 128 /\ index + n <= zlen bytes)
    (fun '(j, n) => j = index + n /\ 1 <= n <= 128 /\ index + n <= zlen bytes /\
      exists r', RepeatRunLength bytes (index + n) = Some r' /\ 3 <= r')
    (fun '(j, n) => 128 - n) (literal_cond bytes) (literal_step bytes) 129 (index, 0))
    as [([j n] & E & -> & Hn & Hle & Hrun) | ([j n] & E & (-> & Hn & Hle) & Hc)]; [lia| |lia|..].
  - intros [j n] (-> & Hn & Hle) Hc. unfold literal_cond, kMaxLiteral in Hc. to_prop. cbn [literal_step].
    destruct (RepeatRunLength_spec bytes (index + n) ltac:(lia)) as (r' & v & E' & _ & Hr' & _).
    rewrite E'. cbn [mbind option_bind]. destruct (Z.leb_spec 3 r').
    + left. exists (index + n, n). split; [done|]. split; [done|].
      destruct (Z.eq_dec n 0) as [->|]; [rewrite Z.add_0_r in E'; rewrite Er in E'; injection E'; lia|].
      split; [lia|]. split; [done|]. by exists r'.
    + right. eexists. split; [done|]. cbn. lia.
  - rewrite E. cbn. exists n. split; [done|]. split; [lia|]. split; [done|]. by right; right.
  - rewrite E. cbn. exists n. split; [done|]. unfold literal_cond, kMaxLiteral in Hc.
    apply andb_false_iff in Hc. rewrite !Z.ltb_ge in Hc. split; [|lia].
    assert (n <> 0); [|lia]. intros ->. lia.
Qed.

Lemma take_slice (bytes : list Z) index n : 0 <= index -> 0 <= n ->
  take (Z.to_nat (index + n)) bytes = take (Z.to_nat index) bytes ++ slice bytes index n.
Proof.
  intros Hi Hn. unfold slice. rewrite Z2Nat.inj_add by lia. rewrite take_drop_commute.
  rewrite <- (take_drop (Z.to_nat index) (take _ bytes)) at 1. rewrite take_take, Nat.min_l by lia. done.
Qed.

Lemma EncodeRle_encodes bytes : exists encoded, EncodeRle bytes = Some encoded /\ Encodes encoded bytes /\
  zlen encoded <= zlen bytes + zlen bytes / 128 + 1.
Proof.
  unfold EncodeRle.
  destruct (while_loop_total (R := list Z) (fun '(index, encoded) => 0 <= index <= zlen bytes /\
      Encodes encoded (take (Z.to_nat index) bytes) /\
      (zlen encoded <= index + index / 128 \/
       zlen encoded <= index + index / 128 + 1 /\
         (index = zlen bytes \/ exists r, RepeatRunLength bytes index = Some r /\ 3 <= r)))
    (fun '(index, _) => zlen bytes - index) (fun st => st.1 <? zlen bytes) (encode_step bytes)
    (Datatypes.S (length bytes)) (0, [])) as ([index encoded] & E & (Hi & He & Hs) & Hc).
  - split; [pose proof (zlen_nonneg bytes); lia|]. split; [constructor|]. left. cbn. done.
  - intros [index encoded] (Hi & He & Hs) Hc. cbn [fst] in Hc. to_prop. cbn [encode_step].
    destruct (RepeatRunLength_spec bytes index ltac:(lia)) as (r & v & Er & Ev & Hr & Hle & Hsl).
    unfold kMaxRun in Hr. rewrite Er. cbn [mbind option_bind]. destruct (Z.leb_spec 3 r).
    + rewrite Ev. cbn [mbind option_bind]. eexists. split; [reflexivity|]. split; [|lia].
      split; [lia|]. split.
      * rewrite take_slice, Hsl by lia. apply Encodes_app; [done|].
        rewrite <- (app_nil_r (replicate _ _)). apply Encodes_repeat; [unfold kMaxRun; lia | constructor].
      * left. rewrite zlen_app, !zlen_cons, zlen_nil.
        assert (index / 128 <= (index + r) / 128) by (apply Z.div_le_mono; lia). lia.
    + destruct (collect_literal_spec bytes index r ltac:(lia) Er ltac:(lia)) as (n & En & Hn & Hnle & Hstop).
      rewrite En. cbn [mbind option_bind]. eexists. split; [reflexivity|]. unfold kMaxLiteral in *. split; [|lia].
      fold (slice bytes index n). assert (zlen (slice bytes index n) = n) as Hsn.
      { unfold slice, zlen in *. rewrite length_take, length_drop. lia. }
      split; [lia|]. split.
      * rewrite take_slice by lia. apply Encodes_app; [done|]. cbn [app].
        rewrite <- (app_nil_r (slice _ _ _)) at 1 2. rewrite <- Hsn at 1.
        apply Encodes_literal; [unfold kMaxLiteral; lia | constructor].
      * rewrite zlen_app. cbn [app]. rewrite zlen_cons, Hsn.
        destruct Hs as [Hs|[_ [Hs|(r' & Er' & ?)]]]; [| lia | rewrite Er in Er'; injection Er'; lia].
        assert (index / 128 <= (index + n) / 128) by (apply Z.div_le_mono; lia).
        destruct Hstop as [->|Hstop]; [left | right].
        -- replace (index + 128) with (index + 1 * 128) by lia. rewrite Z.div_add by lia. lia.
        -- split; [lia|]. exact Hstop.
  - unfold zlen. lia.
  - rewrite E. unfold after. cbn [mbind option_bind snd fst] in *. to_prop. exists encoded.
    assert (index = zlen bytes) as -> by lia. split; [done|]. split; [|lia].
    replace (take (Z.to_nat (zlen bytes)) bytes) with bytes in He; [done|].
    symmetry. apply take_ge. unfold zlen. lia.
Qed.

(** ** The checks *)
Section Checks.
Context {H : Type} `{!StreamHash H}.

(** The bytes an encoding stands for. *)
Definition content (codec : Codec) (encoded : list Z) (size : Z) : option (list Z) :=
  match codec with
  | Raw => if zlen encoded =? size then Some encoded else None
  | Rle => expand encoded size
  end.

Lemma hash_pieces ps : hash_digest (fold_left hash_update ps (hash_init (H := H))) = hash_bytes (concat ps).
Proof. apply hash_streaming. Qed.
Lemma hash_one p : hash_digest (hash_update (hash_init (H := H)) p) = hash_bytes p.
Proof. pose proof (hash_streaming [p]) as E. cbn in E. by rewrite app_nil_r in E. Qed.

Lemma repeat_matches value n expected offset : 0 <= n -> offset + n <= zlen expected -> 0 <= offset ->
  forallb (Z.eqb value) (slice expected offset n) =
  bool_decide (replicate (Z.to_nat n) value = slice expected offset (zlen (replicate (Z.to_nat n) value))).
Proof.
  intros Hn Hle Ho. rewrite zlen_replicate, Z2Nat.id by lia.
  assert (length (slice expected offset n) = Z.to_nat n) as Hl.
  { unfold slice, zlen in *. rewrite length_take, length_drop. lia. }
  destruct (forallb _ _) eqn:E; symmetry.
  - apply bool_decide_eq_true. apply replicate_as_Forall. split; [done|].
    rewrite list.Forall_forall. intros x Hx%list_elem_of_In. rewrite forallb_forall in E.
    by apply E, Z.eqb_eq in Hx.
  - apply bool_decide_eq_false. intros Heq. rewrite <- Heq in E.
    assert (forallb (Z.eqb value) (replicate (Z.to_nat n) value) = true); [|congruence].
    apply forallb_forall. intros x Hx%list_elem_of_In%elem_of_replicate. destruct Hx as [-> _]. apply Z.eqb_refl.
Qed.

Lemma RleMatches_expand encoded expected : Forall is_byte encoded ->
  RleMatches encoded expected = Some (bool_decide (expand encoded (zlen expected) = Some expected)).
Proof.
  intros Hb. unfold RleMatches.
  rewrite (WalkRle_pieces _ _ (fun _ offset bytes =>
      if bool_decide (bytes = slice expected offset (zlen bytes)) then Some tt else None));
    [| intros; by rewrite repeat_matches | done | done].
  cbn [mbind option_bind]. f_equal. unfold expand. destruct (pieces _ _ _) as [ps|] eqn:Ep; [|done].
  cbn [mbind option_bind fmap option_fmap option_map].
  pose proof (match_fold (fun (_ : unit) _ => tt) ps [] expected tt (pieces_room _ _ _ _ Hb Ep)) as Hm.
  change (zlen []) with 0 in Hm. cbn [app] in Hm. rewrite Hm.
  do 2 case_bool_decide; naive_solver.
Qed.

Lemma RleMatchesAndHash_expand encoded expected hash record : Forall is_byte encoded ->
  RleMatchesAndHash encoded expected hash record =
  Some (ps ← pieces (length encoded) encoded (zlen expected);
        if bool_decide (concat ps = expected) && (hash_bytes expected =? hash)
        then Some (append_all record ps) else None).
Proof.
  intros Hb. unfold RleMatchesAndHash.
  rewrite (WalkRle_pieces _ _ (fun '(hash, record) offset bytes =>
      if bool_decide (bytes = slice expected offset (zlen bytes))
      then Some (hash_update hash bytes, append_hash record bytes) else None)).
  - cbn [mbind option_bind]. destruct (pieces _ _ _) as [ps|] eqn:Ep; [|done]. cbn [mbind option_bind]. f_equal.
    pose proof (match_fold (fun '(hash, record) bytes => (hash_update hash bytes, append_hash record bytes))
      ps [] expected (hash_init, record) (pieces_room _ _ _ _ Hb Ep)) as Hm.
    change (zlen []) with 0 in Hm. cbn [app] in Hm.
    assert (forall ps h r, fold_left (fun '(hash, record) bytes => (hash_update hash bytes, append_hash record bytes))
      ps (h, r) = (fold_left hash_update ps h, append_all r ps)) as Hf.
    { clear. induction ps as [|p ps IH]; intros h r; cbn; [by rewrite append_all_nil | by rewrite IH, append_all_cons]. }
    rewrite Hf in Hm.
    assert (forall o1 o2, o1 = o2 -> (match o1 : option (H * option H) with
      | Some (h, r) => if hash_digest h =? hash then Some r else None | None => None end) =
      match o2 with Some (h, r) => if hash_digest h =? hash then Some r else None | None => None end) as Hcong
      by (by intros o1 o2 ->).
    erewrite Hcong; [|etransitivity; [|exact Hm]].
    + case_bool_decide as Hc; [|done]. cbn [andb]. by rewrite hash_pieces, Hc.
    + clear. generalize 0 (hash_init, record). induction ps as [|p ps IH]; intros o [h r]; cbn; [done|].
      case_bool_decide; cbn; [apply IH | done].
  - intros [h r] offset n value ? ? ?. rewrite repeat_matches by done. case_bool_decide as E; [|done].
    rewrite zlen_replicate, Z2Nat.id in E by lia. by rewrite E.
  - by intros [h r].
  - done.
Qed.

Lemma content_zlen codec encoded size d : Forall is_byte encoded ->
  content codec encoded size = Some d -> zlen d = size.
Proof.
  intros Hb. destruct codec; cbn.
  - destruct (Z.eqb_spec (zlen encoded) size); [|done]. by intros [= <-].
  - unfold expand. destruct (pieces _ _ _) as [ps|] eqn:Ep; [|done]. cbn. intros [= <-]. by eapply pieces_room.
Qed.

Lemma Verify_content hash size codec encoded payload : Forall is_byte encoded -> is_u64 size ->
  exists r, Verify hash size codec encoded payload = Some r /\
    (is_Some r <-> exists d, content codec encoded size = Some d /\ hash_bytes d = hash).
Proof.
  intros Hb [H0 H1]. unfold Verify, WalkDecoded. destruct (Z.ltb_spec U64_MAX size); [lia|].
  destruct codec; cbn [content].
  - destruct (Z.eqb_spec (zlen encoded) size); cbn [negb mbind option_bind].
    + rewrite hash_one. destruct (Z.eqb_spec (hash_bytes encoded) hash); eexists; (split; [reflexivity|]).
      * split; [by exists encoded | done].
      * split; [by intros [? ?] | intros (? & [= <-] & ?); done].
    + eexists. split; [reflexivity|]. split; [by intros [? ?] | by intros (? & ? & ?)].
  - rewrite (WalkRle_pieces _ _ (fun '(chunk, payload) _ bytes =>
        Some (hash_update chunk bytes, append_hash payload bytes)));
      [| by intros [? ?] | by intros [? ?] | done].
    cbn [mbind option_bind]. unfold expand. destruct (pieces _ _ _) as [ps|]; cbn [mbind option_bind fmap option_fmap option_map].
    + assert (forall ps h r o, fold_pieces (fun '(chunk, payload) _ bytes =>
          Some (hash_update chunk bytes, append_hash payload bytes)) o (h, r) ps =
        Some (fold_left hash_update ps h, append_all r ps)) as Hf.
      { clear. induction ps as [|p ps IH]; intros h r o; cbn; [by rewrite append_all_nil | by rewrite IH, append_all_cons]. }
      rewrite Hf, hash_pieces. destruct (Z.eqb_spec (hash_bytes (concat ps)) hash); eexists; (split; [reflexivity|]).
      * split; [by eexists | done].
      * split; [by intros [? ?] | intros (? & [= <-] & ?); done].
    + eexists. split; [reflexivity|]. split; [by intros [? ?] | by intros (? & ? & ?)].
Qed.

Lemma Decode_content hash size codec encoded : Forall is_byte encoded -> is_u64 size ->
  Decode (H := H) hash size codec encoded =
  Some (match content codec encoded size with
        | Some d => if hash_bytes d =? hash then (Code.Ok, d) else (Code.HostPayloadHashInvalid, [])
        | None => (Code.HostPayloadHashInvalid, [])
        end).
Proof.
  intros Hb [H0 H1]. unfold Decode, DecodeInto. destruct (Z.ltb_spec U64_MAX size); [lia|].
  rewrite zlen_replicate, Z2Nat.id, Z.eqb_refl by lia. cbn [negb]. destruct codec; cbn [content].
  - rewrite ?zlen_replicate, ?Z2Nat.id by lia.
    destruct (Z.eqb_spec (zlen encoded) size) as [<-|]; cbn [mbind option_bind]; [|done].
    rewrite hash_one. replace (write_at _ 0 encoded) with encoded; [by destruct (_ =? _)|].
    unfold write_at. cbn [Z.to_nat take app]. rewrite drop_ge by (rewrite length_replicate; lia).
    by rewrite app_nil_r.
  - rewrite DecodeRleInto_expand by done. rewrite ?zlen_replicate, ?Z2Nat.id by lia. unfold expand.
    destruct (pieces _ _ _) as [ps|]; cbn [mbind option_bind fmap option_fmap option_map append_all]; [|done].
    rewrite hash_pieces. by destruct (_ =? _).
Qed.

Lemma Matches_content blob bytes hash : Forall is_byte (b_encoded blob) ->
  Matches blob bytes hash = Some (bool_decide (b_uncompressed_bytes blob = zlen bytes /\
    b_payload_hash blob = hash /\ content (b_codec blob) (b_encoded blob) (zlen bytes) = Some bytes)).
Proof.
  intros Hb. unfold Matches. destruct (Z.eqb_spec (b_uncompressed_bytes blob) (zlen bytes)); cbn [negb orb].
  2:{ rewrite bool_decide_false; [done | naive_solver]. }
  destruct (Z.eqb_spec (b_payload_hash blob) hash); cbn [negb].
  2:{ rewrite bool_decide_false; [done | naive_solver]. }
  destruct (b_codec blob); cbn [content].
  - f_equal. destruct (Z.eqb_spec (zlen (b_encoded blob)) (zlen bytes)); cbn [andb].
    + do 2 case_bool_decide; naive_solver.
    + rewrite bool_decide_false; [done | naive_solver].
  - rewrite RleMatches_expand by done. f_equal. do 2 case_bool_decide; naive_solver.
Qed.

Lemma VerifiedMatches_content blob bytes hash record : Forall is_byte (b_encoded blob) ->
  exists r, VerifiedMatches blob bytes hash record = Some r /\
    (is_Some r <-> Matches blob bytes hash = Some true /\ hash_bytes bytes = hash).
Proof.
  intros Hb. rewrite Matches_content by done. unfold VerifiedMatches.
  destruct (Z.eqb_spec (b_uncompressed_bytes blob) (zlen bytes)); cbn [negb orb].
  2:{ eexists. split; [done|]. rewrite bool_decide_false by naive_solver. split; [by intros [? ?] | by intros [? ?]]. }
  destruct (Z.eqb_spec (b_payload_hash blob) hash); cbn [negb].
  2:{ eexists. split; [done|]. rewrite bool_decide_false by naive_solver. split; [by intros [? ?] | by intros [? ?]]. }
  destruct (b_codec blob); cbn [content].
  - destruct (Z.eqb_spec (zlen (b_encoded blob)) (zlen bytes)); cbn [negb].
    2:{ eexists. split; [done|]. rewrite bool_decide_false by naive_solver. split; [by intros [? ?] | by intros [? ?]]. }
    case_bool_decide as Heq; cbn [negb].
    2:{ eexists. split; [done|]. rewrite bool_decide_false by naive_solver. split; [by intros [? ?] | by intros [? ?]]. }
    rewrite hash_one, Heq, (bool_decide_true (_ /\ _ /\ _)) by done.
    destruct (Z.eqb_spec (hash_bytes bytes) hash); eexists; (split; [reflexivity|]);
      [naive_solver | split; [by intros [? ?] | naive_solver]].
  - rewrite RleMatchesAndHash_expand by done. unfold expand.
    destruct (pieces _ _ _) as [ps|]; cbn [mbind option_bind fmap option_fmap option_map];
      (eexists; split; [reflexivity|]).
    + case_bool_decide as Hc; cbn [andb].
      * rewrite bool_decide_true by (split_and!; [done | done | by rewrite Hc]).
        destruct (Z.eqb_spec (hash_bytes bytes) hash); [naive_solver | split; [by intros [? ?] | naive_solver]].
      * rewrite bool_decide_false by naive_solver. split; [by intros [? ?] | by intros [? ?]].
    + rewrite bool_decide_false by naive_solver. split; [by intros [? ?] | by intros [? ?]].
Qed.
End Checks.

(** A concrete hash for the witnesses: the sum of the bytes. *)
#[local] Instance sum_hash : StreamHash (list Z).
Proof.
  refine {| hash_init := []; hash_update := fun h p => h ++ p; hash_digest := fun h => foldr Z.add 0 h;
            hash_bytes := fun bs => foldr Z.add 0 bs |}.
  intros pieces. assert (forall h, fold_left (fun h p => h ++ p) pieces h = h ++ concat pieces) as ->; [|done].
  induction pieces as [|p ps IH]; intros h; cbn; [by rewrite app_nil_r | by rewrite IH, app_assoc].
Defined.

(** C28: Storing a payload is lossless: the blob is never larger than the payload, a
    run-length encoding exceeds it by less than one byte in 128 and one more, and
    decoding the blob with the payload's hash gives the payload back. *)
Theorem payload_roundtrip {H : Type} `{!StreamHash H} bytes :
  Forall is_byte bytes -> is_u64 (zlen bytes) ->
  exists rle blob, EncodeRle bytes = Some rle /\ Encode bytes (hash_bytes bytes) = Some blob /\
    zlen rle <= zlen bytes + zlen bytes / 128 + 1 /\
    DecodeRle (H := H) rle (zlen bytes) = Some (Some bytes) /\
    b_encoded_bytes blob = zlen (b_encoded blob) /\ b_encoded_bytes blob <= zlen bytes /\
    Decode (H := H) (b_payload_hash blob) (b_uncompressed_bytes blob) (b_codec blob) (b_encoded blob) =
      Some (Code.Ok, bytes) /\
    Matches blob bytes (b_payload_hash blob) = Some true.
Proof.
  intros Hb Hu. destruct (EncodeRle_encodes bytes) as (rle & E & He & Hl).
  assert (expand rle (zlen bytes) = Some bytes) as Hx.
  { unfold expand. destruct (Encodes_pieces rle bytes He _ (le_n _)) as (ps & -> & Hc). cbn. by rewrite Hc. }
  pose proof (Encodes_bytes rle bytes He Hb) as Hrb.
  exists rle. unfold Encode. rewrite E. cbn [mbind option_bind]. eexists. split; [done|]. split; [reflexivity|].
  split; [done|]. split; [by rewrite DecodeRle_expand, Hx|]. cbn. split; [done|].
  rewrite Matches_content by (by destruct (_ <? _)). rewrite Decode_content by (done || by destruct (_ <? _)). cbn.
  destruct (Z.ltb_spec (zlen rle) (zlen bytes)); cbn [content].
  - split; [lia|]. rewrite Hx, Z.eqb_refl, bool_decide_true by done. done.
  - split; [lia|]. rewrite Z.eqb_refl, Z.eqb_refl, bool_decide_true by done. done.
Qed.

Lemma payload_roundtrip_witness :
  let bytes := [1; 1; 1; 1; 2; 3; 3; 4; 4; 4; 5] in
  exists rle blob, EncodeRle bytes = Some rle /\ Encode bytes 29 = Some blob /\
    DecodeRle (H := list Z) rle 11 = Some (Some bytes).
Proof.
  intros bytes. assert (Forall is_byte bytes) as Hb by (repeat constructor; vm_compute; done).
  destruct (payload_roundtrip (H := list Z) bytes Hb ltac:(vm_compute; split; discriminate))
    as (rle & blob & H1 & H2 & _ & H3 & _).
  exists rle, blob. split; [exact H1 | split; [exact H2 | exact H3]].
Defined.

(** C29: Every check of a stored payload agrees with its content: [Decode] returns
    exactly the content when its hash is the recorded one and an error otherwise,
    [Verify] accepts exactly then, [Matches] is equality with the content, and
    [VerifiedMatches] is [Matches] with the right hash. *)
Theorem payload_checks_exact {H : Type} `{!StreamHash H} blob bytes hash (record : option H) :
  Forall is_byte (b_encoded blob) -> is_u64 (b_uncompressed_bytes blob) ->
  let stored := content (b_codec blob) (b_encoded blob) (b_uncompressed_bytes blob) in
  Decode (H := H) hash (b_uncompressed_bytes blob) (b_codec blob) (b_encoded blob) =
    Some (match stored with
          | Some d => if hash_bytes d =? hash then (Code.Ok, d) else (Code.HostPayloadHashInvalid, [])
          | None => (Code.HostPayloadHashInvalid, [])
          end) /\
  (exists r, Verify hash (b_uncompressed_bytes blob) (b_codec blob) (b_encoded blob) record = Some r /\
     (is_Some r <-> exists d, stored = Some d /\ hash_bytes d = hash)) /\
  Matches blob bytes hash = Some (bool_decide (stored = Some bytes /\ b_payload_hash blob = hash)) /\
  (exists r, VerifiedMatches blob bytes hash record = Some r /\
     (is_Some r <-> stored = Some bytes /\ b_payload_hash blob = hash /\ hash_bytes bytes = hash)).
Proof.
  intros Hb Hu stored. assert (stored = Some bytes <-> b_uncompressed_bytes blob = zlen bytes /\
    content (b_codec blob) (b_encoded blob) (zlen bytes) = Some bytes) as Hst.
  { split; [|intros [E1 E2]; unfold stored; by rewrite E1].
    intros Es. pose proof (content_zlen _ _ _ _ Hb Es) as El. unfold stored in Es. by rewrite <- El in Es |- *. }
  split; [by apply Decode_content|]. split; [by apply Verify_content|].
  rewrite Matches_content by done. split; [f_equal; apply bool_decide_ext; naive_solver|].
  destruct (VerifiedMatches_content blob bytes hash record Hb) as (r & E & Hr). exists r. split; [done|].
  rewrite Hr, Matches_content by done. rewrite (inj_iff Some), bool_decide_eq_true. naive_solver.
Qed.

Lemma payload_checks_exact_witness :
  let blob := mk_blob 29 11 10 Rle [129; 1; 2; 2; 3; 3; 128; 4; 0; 5] in
  Forall is_byte (b_encoded blob) /\ Matches blob [1; 1; 1; 1; 2; 3; 3; 4; 4; 4; 5] 29 = Some true.
Proof.
  intros blob. assert (Forall is_byte (b_encoded blob)) as Hb by (repeat constructor; vm_compute; done).
  split; [exact Hb|].
  destruct (payload_checks_exact blob [1; 1; 1; 1; 2; 3; 3; 4; 4; 4; 5] 29 (None : option (list Z)) Hb
    ltac:(vm_compute; split; discriminate)) as (_ & _ & E & _).
  rewrite E. vm_compute. reflexivity.
Defined.
