(* ===== verification/Observations.v ===== *)
(** * Observations: the scheduler observations of a recording and their codec

    [src/node/src/runtime/replay/codec/value.cpp] ([write_observations],
    [read_observations]) with the admission limits of [codec/local.hpp], and the two
    places of the scheduler that record observations: due timers
    ([task/scheduler/timer.cpp]) and the reactor ([task/scheduler/reactor/record.cpp]).

    Enumerations are kept as their integer values; [int] and [short] fields as the
    integers they hold. *)

From stdpp Require Import base numbers list option.
From Stdlib Require Import ZArith Lia.
From S2P Require Import Prelude Checked Artifact ArtifactFacts HostReplay HostReplayFacts.

(** [task::Observation] *)
Record Observation := mk_observation {
  o_sequence : Z;
  o_kind : Z;
  o_task_id : Z;
  o_wait_id : Z;
  o_fd : Z;
  o_interest : Z;
  o_revents : Z;
  o_deadline_ns : Z;
  o_reason_code : Z;
}.
#[export] Instance Observation_eq_dec : EqDecision Observation.
Proof. solve_decision. Defined.

(** [task::ObservationKind] *)
Definition TimerDue : Z := 1.
Definition IoReady : Z := 2.
Definition IoPollFailed : Z := 4.

(** The reason codes of [rund/reason.def] are 0 to 101. *)
Definition ValidReasonCode (code : Z) : bool := existsb (Z.eqb code) (range 0 102).

(** ** Admission *)
Record Limits := mk_limits { max_bytes : Z; max_entries : Z; max_payload_bytes : Z; max_state_bytes : Z }.
Record Admission := mk_admission { a_limits : Limits; a_entries : Z; a_code : Z }.
Definition new_admission (limits : Limits) : Admission := mk_admission limits 0 Code.Ok.

(** [Admission::entries] *)
Definition admit_entries (a : Admission) (count : Z) : bool * Admission :=
  match Checked.add (a_entries a) count with
  | Some next =>
      if max_entries (a_limits a) <? next
      then (false, mk_admission (a_limits a) (a_entries a) Code.CodecEntryCapacityExceeded)
      else (true, mk_admission (a_limits a) next (a_code a))
  | None => (false, mk_admission (a_limits a) (a_entries a) Code.CodecEntryCapacityExceeded)
  end.

(** [Admission::payload]; [None] is the [false] return. *)
Definition admit_payload (a : Admission) (total count : Z) : option Z * Admission :=
  match Checked.add total count with
  | Some next =>
      if max_payload_bytes (a_limits a) <? next
      then (None, mk_admission (a_limits a) (a_entries a) Code.CodecPayloadCapacityExceeded)
      else (Some next, a)
  | None => (None, mk_admission (a_limits a) (a_entries a) Code.CodecPayloadCapacityExceeded)
  end.

(** [Admission::failure] *)
Definition admission_failure (a : Admission) (malformed : Z) : Z :=
  if a_code a =? Code.Ok then malformed else a_code a.

(** ** Writing *)
Section WriteObservations.
Context {S : Type} `{!Sink S}.

(** [st] is the sequence and the deadline bits of the previous observation. *)
Definition write_observation (st : Z * Z) (o : Observation) : action S := fun w =>
  let '(previous_sequence, previous_deadline) := st in
  let deadline := wrap64 (o_deadline_ns o) in
  if (IoPollFailed <? o_kind o) || negb (ValidReasonCode (o_reason_code o))
  then reject Code.CodecInvariantInvalid w else
  match Checked.sub (o_sequence o) previous_sequence, Checked.sub deadline previous_deadline with
  | Some sequence_delta, Some deadline_delta =>
      (and_then (put_varuint sequence_delta)
      (and_then (put_varuint (o_kind o))
      (and_then (put_varuint (o_task_id o))
      (and_then (put_varuint (o_wait_id o))
      (and_then (put_sint (o_fd o))
      (and_then (put_varuint (o_interest o mod 65536))
      (and_then (put_varuint (o_revents o mod 65536))
      (and_then (put_varuint deadline_delta)
                (put_varuint (o_reason_code o)))))))))) w
  | _, _ => reject Code.CodecInvariantInvalid w
  end.

Definition observation_state (o : Observation) : Z * Z := (o_sequence o, wrap64 (o_deadline_ns o)).

Definition write_observations (observations : list Observation) : action S := fun w =>
  if negb (writer_ok w) then (false, w) else
  and_then (put_varuint (zlen observations))
    (put_list write_observation observation_state (0, 0) observations) w.
End WriteObservations.

(** ** Reading *)
Definition read_observation (st : Z * Z) (r : Reader) : option (Observation * Reader) :=
  let '(previous_sequence, previous_deadline) := st in
  '(sequence_delta, r) ← get_varuint r;
  '(kind, r) ← get_varuint r;
  if IoPollFailed <? kind then None else
  '(task_id, r) ← get_varuint r;
  '(wait_id, r) ← get_varuint r;
  '(fd, r) ← get_sint r;
  if (fd <? - 2147483648) || (2147483647 <? fd) then None else
  '(interest, r) ← get_varuint r;
  if 65535 <? interest then None else
  '(revents, r) ← get_varuint r;
  if 65535 <? revents then None else
  '(deadline_delta, r) ← get_varuint r;
  '(reason, r) ← get_varuint r;
  if (65535 <? reason) || negb (ValidReasonCode reason) then None else
  sequence ← Checked.add previous_sequence sequence_delta;
  deadline ← Checked.add previous_deadline deadline_delta;
  Some (mk_observation sequence kind task_id wait_id fd (to_signed 16 interest) (to_signed 16 revents)
          (to_signed 64 deadline) reason, r).

Definition read_observations (r : Reader) (admission : Admission)
    : option (list Observation * Reader) * Admission :=
  match get_varuint r with
  | None => (None, admission)
  | Some (count, r) =>
      let '(admitted, admission) := admit_entries admission count in
      if negb admitted then (None, admission) else
      (get_list read_observation observation_state (Z.to_nat count) (0, 0) r, admission)
  end.

(** ** Recording

    The observation of a due timer carries its deadline; the reactor records its
    observations without one, so they carry the default of
    [Scheduler::RecordObservation]. The identifiers are those of the replay plan. *)
Definition timer_observation (sequence task_id wait_id deadline_ns : Z) : Observation :=
  mk_observation sequence TimerDue task_id wait_id (-1) 0 0 deadline_ns 0.
Definition reactor_observation (sequence kind code task_id wait_id fd interest revents : Z) : Observation :=
  mk_observation sequence kind task_id wait_id fd interest revents 0 code.

(** ** The observations as a wire format *)
Record observation_typed (o : Observation) : Prop := {
  ot_sequence : is_u64 (o_sequence o);
  ot_kind : 0 <= o_kind o <= 65535;
  ot_task : is_u64 (o_task_id o);
  ot_wait : is_u64 (o_wait_id o);
  ot_fd : -2147483648 <= o_fd o <= 2147483647;
  ot_interest : -32768 <= o_interest o <= 32767;
  ot_revents : -32768 <= o_revents o <= 32767;
  ot_deadline : is_i64 (o_deadline_ns o);
  ot_reason : 0 <= o_reason_code o <= 65535;
}.

Record observation_follows (st : Z * Z) (o : Observation) : Prop := {
  of_typed : observation_typed o;
  of_kind : o_kind o <= IoPollFailed;
  of_reason : ValidReasonCode (o_reason_code o) = true;
  of_state : is_u64 st.1 /\ is_u64 st.2;
  of_sequence : st.1 <= o_sequence o;
  of_deadline : st.2 <= wrap64 (o_deadline_ns o);
}.

Definition observation_bytes (st : Z * Z) (o : Observation) : list Z :=
  wire_put varuint_wire (o_sequence o - st.1) ++ wire_put varuint_wire (o_kind o) ++
  wire_put varuint_wire (o_task_id o) ++ wire_put varuint_wire (o_wait_id o) ++
  wire_put sint_wire (o_fd o) ++ wire_put varuint_wire (o_interest o mod 65536) ++
  wire_put varuint_wire (o_revents o mod 65536) ++ wire_put varuint_wire (wrap64 (o_deadline_ns o) - st.2) ++
  wire_put varuint_wire (o_reason_code o).

Lemma to_signed16_mod z : -32768 <= z <= 32767 -> to_signed 16 (z mod 65536) = z.
Proof.
  intros Hz. unfold to_signed. change (2 ^ (16 - 1)) with 32768. change (2 ^ 16) with 65536.
  rewrite Z.add_mod_idemp_l by lia. rewrite Z.mod_small by lia. lia.
Qed.
Lemma mod_to_signed16 z : 0 <= z <= 65535 -> to_signed 16 z mod 65536 = z /\ -32768 <= to_signed 16 z <= 32767.
Proof.
  intros Hz. unfold to_signed. change (2 ^ (16 - 1)) with 32768. change (2 ^ 16) with 65536.
  pose proof (Z.mod_pos_bound (z + 32768) 65536). split; [|lia].
  rewrite Zminus_mod_idemp_l. replace (z + 32768 - 32768) with z by lia. rewrite Z.mod_small by lia. done.
Qed.
Lemma to_signed64_wrap z : is_i64 z -> to_signed 64 (wrap64 z) = z.
Proof.
  unfold is_i64. intros Hz. unfold to_signed, wrap64. change (2 ^ (64 - 1)) with 9223372036854775808.
  change (2 ^ 64) with 18446744073709551616.
  rewrite Z.add_mod_idemp_l by lia. rewrite Z.mod_small by lia. lia.
Qed.
Lemma wrap_to_signed64 z : is_u64 z -> wrap64 (to_signed 64 z) = z /\ is_i64 (to_signed 64 z).
Proof.
  unfold is_u64, is_i64. intros Hz. unfold to_signed, wrap64. change (2 ^ (64 - 1)) with 9223372036854775808.
  change (2 ^ 64) with 18446744073709551616.
  pose proof (Z.mod_pos_bound (z + 9223372036854775808) 18446744073709551616). split; [|lia].
  rewrite Zminus_mod_idemp_l. replace (z + 9223372036854775808 - 9223372036854775808) with z by lia.
  rewrite Z.mod_small by lia. done.
Qed.

#[local] Opaque leb word_bytes get_varuint get_sint get_fixed64 ValidReasonCode.

Lemma read_observation_written st o r rest : observation_follows st o ->
  at_ r (observation_bytes st o ++ rest) ->
  read_observation st r = Some (o, advance r (zlen (observation_bytes st o))).
Proof.
  destruct st as [ps pd]. intros [T Hk Hr [Hps Hpd] Hseq Hd] Ha. cbn [fst snd] in *. destruct T.
  unfold observation_bytes in *. cbn [fst snd] in *. rewrite <- !app_assoc in Ha. unfold read_observation.
  pose proof (wrap64_range (o_deadline_ns o)) as Hw. unfold IoPollFailed in *.
  pose proof (Z.mod_pos_bound (o_interest o) 65536) as Hi. pose proof (Z.mod_pos_bound (o_revents o) 65536) as Hv.
  assert (forall z, is_u64 z -> wire_valid varuint_wire z) as V by done. unfold is_u64 in *.
  wire_step Ha (V (o_sequence o - ps) ltac:(unfold is_u64; lia)).
  wire_step Ha (V (o_kind o) ltac:(unfold is_u64; lia)). destruct (Z.ltb_spec 4 (o_kind o)); [lia|].
  wire_step Ha (V (o_task_id o) ltac:(unfold is_u64; lia)).
  wire_step Ha (V (o_wait_id o) ltac:(unfold is_u64; lia)).
  wire_step Ha (ltac:(cbn; unfold is_i64; lia) : wire_valid sint_wire (o_fd o)).
  destruct (Z.ltb_spec (o_fd o) (-2147483648)); [lia|]. destruct (Z.ltb_spec 2147483647 (o_fd o)); [lia|]. cbn [orb].
  wire_step Ha (V (o_interest o mod 65536) ltac:(unfold is_u64; lia)). destruct (Z.ltb_spec 65535 (o_interest o mod 65536)); [lia|].
  wire_step Ha (V (o_revents o mod 65536) ltac:(unfold is_u64; lia)). destruct (Z.ltb_spec 65535 (o_revents o mod 65536)); [lia|].
  wire_step Ha (V (wrap64 (o_deadline_ns o) - pd) ltac:(unfold is_u64; lia)).
  wire_step Ha (V (o_reason_code o) ltac:(unfold is_u64; lia)). destruct (Z.ltb_spec 65535 (o_reason_code o)); [lia|].
  rewrite Hr. cbn [negb orb]. rewrite !Checked_add_ok by (unfold is_u64; lia). cbn [mbind option_bind].
  replace (pd + (wrap64 (o_deadline_ns o) - pd)) with (wrap64 (o_deadline_ns o)) by lia.
  rewrite !to_signed16_mod, to_signed64_wrap by done. rewrite !advance_advance, !zlen_app.
  destruct o; cbn. do 3 f_equal; lia.
Qed.

Lemma read_observation_sound st r o r' : is_u64 st.1 -> is_u64 st.2 -> reader_wf r ->
  read_observation st r = Some (o, r') ->
  observation_follows st o /\ at_ r (observation_bytes st o ++ rest_of r') /\
  r' = advance r (zlen (observation_bytes st o)).
Proof.
  destruct st as [ps pd]. cbn [fst snd]. intros Hps Hpd Hwf H. pose proof Hwf as Hr. unfold read_observation in H.
  wire_inv H varuint_wire Hwf sd V1 A1.
  wire_inv H varuint_wire Hwf kind V2 A2. destruct (Z.ltb_spec IoPollFailed kind) as [|Hk]; [done|].
  wire_inv H varuint_wire Hwf task V3 A3.
  wire_inv H varuint_wire Hwf wait V4 A4.
  wire_inv H sint_wire Hwf fd V5 A5. destruct ((fd <? _) || _) eqn:Efd; [done|].
  wire_inv H varuint_wire Hwf interest V6 A6. destruct (Z.ltb_spec 65535 interest) as [|Hi]; [done|].
  wire_inv H varuint_wire Hwf revents V7 A7. destruct (Z.ltb_spec 65535 revents) as [|Hv]; [done|].
  wire_inv H varuint_wire Hwf dd V8 A8.
  wire_inv H varuint_wire Hwf reason V9 A9. destruct ((65535 <? reason) || _) eqn:Er; [done|].
  destruct (Checked.add ps sd) as [seq|] eqn:Es; [|done]. cbn [mbind option_bind] in H.
  destruct (Checked.add pd dd) as [deadline|] eqn:Ed; [|done]. cbn [mbind option_bind] in H.
  injection H as <- <-. cbn in V1, V2, V3, V4, V6, V7, V8, V9. unfold is_u64 in *.
  apply Checked_add_inv in Es as [-> ?], Ed as [-> ?]; try lia. unfold is_u64 in *. to_prop.
  destruct (mod_to_signed16 interest ltac:(lia)) as [Ei ?], (mod_to_signed16 revents ltac:(lia)) as [Ev ?].
  destruct (wrap_to_signed64 (pd + dd) ltac:(unfold is_u64; lia)) as [Ew ?].
  set (o := mk_observation _ _ _ _ _ _ _ _ _). split.
  { assert (observation_typed o) as T.
    { split; subst o; cbn [o_sequence o_kind o_task_id o_wait_id o_fd o_interest o_revents o_deadline_ns
        o_reason_code]; unfold is_u64, IoPollFailed in *; done || lia. }
    split; [done | done | done | cbn; unfold is_u64; lia | cbn; lia |].
    cbn [o_deadline_ns snd o]. rewrite Ew. lia. }
  unfold observation_bytes; cbn [fst snd o_sequence o_kind o_task_id o_wait_id o_fd o_interest o_revents
    o_deadline_ns o_reason_code o]. rewrite Ei, Ev, Ew.
  replace (pd + dd - pd) with dd by lia. replace (ps + sd - ps) with sd by lia. split.
  - split; [done|]. rewrite <- !app_assoc, (at_rest _ _ A1), (at_rest _ _ A2), (at_rest _ _ A3),
      (at_rest _ _ A4), (at_rest _ _ A5), (at_rest _ _ A6), (at_rest _ _ A7), (at_rest _ _ A8),
      (at_rest _ _ A9). done.
  - by rewrite !advance_advance, !zlen_app, <- ?Z.add_assoc.
Qed.

Definition observation_wire (st : Z * Z) : Wire Observation :=
  mk_wire (observation_bytes st) (if decide (is_u64 st.1 /\ is_u64 st.2) then read_observation st else fun _ => None)
    (observation_follows st).
#[export] Instance observation_laws st : WireLaws (observation_wire st).
Proof.
  split; cbn [wire_put wire_get wire_valid observation_wire].
  - intros o [T ? _ [? ?] ? ?]. destruct T. pose proof (wrap64_range (o_deadline_ns o)).
    pose proof (Z.mod_pos_bound (o_interest o) 65536). pose proof (Z.mod_pos_bound (o_revents o) 65536).
    unfold observation_bytes, is_u64 in *.
    repeat (apply Forall_app; split);
      first [apply (wire_bytes (w := varuint_wire)); cbn; unfold is_u64; lia
            | apply (wire_bytes (w := sint_wire)); cbn; unfold is_i64; lia].
  - intros o r rest Ho Ha. rewrite decide_True by exact (of_state _ _ Ho). by eapply read_observation_written.
  - intros r o r' Hr. case_decide as Hst; [|done]. destruct Hst. by apply read_observation_sound.
Qed.

Lemma read_observations_wire n st r : is_u64 st.1 -> is_u64 st.2 -> reader_wf r ->
  get_list read_observation observation_state n st r =
  wire_get (list_wire observation_wire observation_state n st) r.
Proof.
  intros H1 H2. apply (get_list_wire observation_wire observation_state read_observation
    (fun st => is_u64 st.1 /\ is_u64 st.2)); [| |done].
  - intros st' H. cbn [wire_get observation_wire]. by rewrite decide_True.
  - intros st' o [[] _ _ _ _ _]. split; [done | apply wrap64_range].
Qed.

(** ** Writing observations *)
Definition observations_bytes (l : list Observation) : list Z :=
  wire_put varuint_wire (zlen l) ++ list_bytes observation_wire observation_state (0, 0) l.

(** Observations a recording can be saved with: known kinds and reasons, and neither
    the sequence numbers nor the deadlines, read as unsigned numbers, decrease. *)
Fixpoint observable (st : Z * Z) (l : list Observation) : bool :=
  match l with
  | [] => true
  | o :: l =>
      (o_kind o <=? IoPollFailed) && ValidReasonCode (o_reason_code o) && (st.1 <=? o_sequence o) &&
      (st.2 <=? wrap64 (o_deadline_ns o)) && observable (observation_state o) l
  end.

Lemma follows_observable st o l : is_u64 st.1 -> is_u64 st.2 -> observation_typed o ->
  observable st (o :: l) = true <-> observation_follows st o /\ observable (observation_state o) l = true.
Proof.
  intros H1 H2 Ho. cbn [observable]. rewrite !andb_true_iff, !Z.leb_le. split.
  - intros ((((? & ?) & ?) & ?) & ?). by split.
  - by intros [[] ?].
Qed.

Lemma observation_state_ok o : observation_typed o ->
  is_u64 (observation_state o).1 /\ is_u64 (observation_state o).2.
Proof. intros []. split; [done | apply wrap64_range]. Qed.

Lemma observable_chain l : forall st, is_u64 st.1 -> is_u64 st.2 -> Forall observation_typed l ->
  observable st l = true -> chain observation_wire observation_state st l.
Proof.
  induction l as [|o l IH]; intros st H1 H2 Ht H; [done|]. apply list.Forall_cons in Ht as [Ho Ht].
  apply follows_observable in H as [Hf H]; [|done..]. destruct (observation_state_ok o Ho).
  cbn [chain]. split; [exact Hf | by apply IH].
Qed.

Section WriteFacts.
Context {S : Type} `{!Sink S}.

Lemma emits_observation st o : observation_follows st o ->
  Emits (S := S) (write_observation st o) (observation_bytes st o).
Proof.
  destruct st as [ps pd]. intros [T Hk Hr [Hps Hpd] Hseq Hd] start pre w Hw. cbn [fst snd] in *. destruct T.
  pose proof (wrap64_range (o_deadline_ns o)) as Hwr.
  unfold write_observation. destruct (Z.ltb_spec IoPollFailed (o_kind o)); [lia|]. rewrite Hr. cbn [negb orb].
  rewrite !Checked_sub_ok by (unfold is_u64 in *; lia). revert start pre w Hw.
  pose proof (Z.mod_pos_bound (o_interest o) 65536). pose proof (Z.mod_pos_bound (o_revents o) 65536).
  unfold IoPollFailed, is_u64 in *. unfold observation_bytes. cbn [fst snd].
  do 4 (apply emits_and_then; [apply emits_varuint; unfold is_u64; lia|]).
  apply emits_and_then; [apply emits_sint; unfold is_i64; lia|].
  do 3 (apply emits_and_then; [apply emits_varuint; unfold is_u64; lia|]). apply emits_varuint; unfold is_u64; lia.
Qed.

Lemma emits_observations l : zlen l <= U64_MAX -> chain observation_wire observation_state (0, 0) l ->
  Emits (S := S) (write_observations l) (observations_bytes l).
Proof.
  intros Hn Hc start pre w Hw. unfold write_observations. rewrite (holds_ok _ _ _ Hw). cbn [negb].
  revert start pre w Hw. pose proof (zlen_nonneg l).
  apply emits_and_then; [apply emits_varuint; unfold is_u64; lia|].
  apply (emits_list observation_wire observation_state write_observation l); [|done].
  intros st o _ Ho. by apply emits_observation.
Qed.

Lemma write_observation_rejects st o (w : Writer S) : is_u64 st.1 -> is_u64 st.2 -> observation_typed o ->
  ~ observation_follows st o -> writer_ok w = true ->
  (write_observation st o w).1 = false /\ w_code (write_observation st o w).2 = Code.CodecInvariantInvalid.
Proof.
  destruct st as [ps pd]. cbn [fst snd]. intros H1 H2 Ho Hn Hw. unfold write_observation.
  pose proof (reject_bad Code.CodecInvariantInvalid w ltac:(done) Hw) as (R1 & _ & R2).
  destruct ((IoPollFailed <? o_kind o) || negb (ValidReasonCode (o_reason_code o))) eqn:E1; [done|].
  destruct (Checked.sub (o_sequence o) ps) as [sd|] eqn:E2; [|done].
  destruct (Checked.sub (wrap64 (o_deadline_ns o)) pd) as [dd|] eqn:E3; [|done].
  destruct Hn. unfold Checked.sub in E2, E3. repeat case_match; try done; to_prop. by split.
Qed.
End WriteFacts.

Lemma observation_bytes_short st o : zlen (observation_bytes st o) <= 90.
Proof.
  unfold observation_bytes. rewrite !zlen_app. cbn [wire_put varuint_wire sint_wire].
  repeat match goal with |- context [zlen (leb 10 ?v)] =>
    let n := fresh "n" in pose proof (leb_short 10 v); set (n := zlen (leb 10 v)) in * end. lia.
Qed.

Lemma observations_short l : forall st,
  zlen (list_bytes observation_wire observation_state st l) <= 90 * zlen l.
Proof.
  induction l as [|o l IH]; intros st; cbn [list_bytes]; [by rewrite zlen_nil|].
  rewrite zlen_app, zlen_cons. pose proof (observation_bytes_short st o). specialize (IH (observation_state o)).
  cbn [wire_put observation_wire]. lia.
Qed.

(** Refused observations: the writer is left with the invariant code unless the sink
    or the capacity stopped it before. *)
Lemma put_observations_refused l : forall st (start pre : list Z) (w : Writer (list Z)),
  is_u64 st.1 -> is_u64 st.2 -> Forall observation_typed l -> observable st l = false ->
  Holds start pre w -> zlen pre + 90 * zlen l <= w_max_bytes w ->
  (put_list write_observation observation_state st l w).1 = false /\
  w_code (put_list write_observation observation_state st l w).2 = Code.CodecInvariantInvalid.
Proof.
  induction l as [|o l IH]; intros st start pre w H1 H2 Ht Hr Hw Hm; [done|].
  apply list.Forall_cons in Ht as [Ho Ht]. cbn [put_list]. rewrite zlen_cons in Hm. pose proof (zlen_nonneg l).
  destruct (decide (o_kind o <= IoPollFailed /\ ValidReasonCode (o_reason_code o) = true /\
    st.1 <= o_sequence o /\ st.2 <= wrap64 (o_deadline_ns o))) as [(G1 & G2 & G3 & G4)|Hn].
  - assert (observation_follows st o) as Hf by by split. destruct (observation_state_ok o Ho).
    pose proof (emits_observation (S := list Z) st o Hf start pre w Hw) as Hem.
    pose proof (observation_bytes_short st o) as Hs.
    destruct (write_observation st o w) as [[] w1]; cbn [fst snd] in *.
    + destruct Hem as [Hw1 Hmax]. apply (IH _ start (pre ++ observation_bytes st o) w1); [done..| |exact Hw1|].
      * apply not_true_is_false. intros Htrue. apply not_true_iff_false in Hr. apply Hr.
        by apply follows_observable.
      * rewrite zlen_app. lia.
    + destruct Hem as [_ Hrel]. destruct (Hrel vector_sink_reliable) as [_ Hlt]. rewrite zlen_app in Hlt. lia.
  - assert (~ observation_follows st o) as Hnf by (intros []; by apply Hn).
    destruct (write_observation_rejects st o w H1 H2 Ho Hnf (holds_ok _ _ _ Hw)) as [R1 R2].
    destruct (write_observation st o w) as [b w1]. cbn [fst snd] in *. by subst b.
Qed.

Lemma write_observations_refused l (w : Writer (list Z)) start pre : Holds start pre w ->
  Forall observation_typed l -> observable (0, 0) l = false -> zlen l <= U64_MAX ->
  zlen pre + 10 + 90 * zlen l <= w_max_bytes w ->
  (write_observations l w).1 = false /\ w_code (write_observations l w).2 = Code.CodecInvariantInvalid.
Proof.
  intros Hw Ht Hr Hn Hm. unfold write_observations. rewrite (holds_ok _ _ _ Hw). cbn [negb].
  unfold and_then. pose proof (zlen_nonneg l).
  pose proof (emits_varuint (S := list Z) (zlen l) ltac:(unfold is_u64; lia) start pre w Hw) as Hem.
  pose proof (leb_short 10 (zlen l)). destruct (put_varuint (zlen l) w) as [[] w1]; cbn [fst snd] in *.
  - destruct Hem as [Hw1 Hmax]. eapply put_observations_refused; [done..|exact Hw1|]. rewrite zlen_app. lia.
  - destruct Hem as [_ Hrel]. destruct (Hrel vector_sink_reliable) as [_ Hlt]. rewrite zlen_app in Hlt. lia.
Qed.

Lemma observations_emitted l (w : Writer (list Z)) start pre : Holds start pre w ->
  Forall observation_typed l -> observable (0, 0) l = true -> zlen l <= U64_MAX ->
  zlen pre + 10 + 90 * zlen l <= w_max_bytes w ->
  (write_observations l w).1 = true /\ Holds start (pre ++ observations_bytes l) (write_observations l w).2.
Proof.
  intros Hw Ht Hr Hn Hm. assert (chain observation_wire observation_state (0, 0) l) as Hc by by apply observable_chain.
  pose proof (emits_observations (S := list Z) l Hn Hc start pre w Hw) as Hem.
  pose proof (leb_short 10 (zlen l)) as H1. pose proof (observations_short l (0, 0)) as H2.
  destruct (write_observations l w) as [[] w1]; cbn [fst snd] in *; [by destruct Hem|].
  destruct Hem as [_ Hrel]. destruct (Hrel vector_sink_reliable) as [_ Hlt].
  unfold observations_bytes in Hlt. cbn [wire_put varuint_wire] in Hlt. rewrite !zlen_app in Hlt. lia.
Qed.

Lemma read_observations_at l (a : Admission) r rest :
  Forall observation_typed l -> observable (0, 0) l = true -> zlen l <= U64_MAX ->
  at_ r (observations_bytes l ++ rest) ->
  read_observations r a =
    let '(admitted, a) := admit_entries a (zlen l) in
    (if admitted then Some (l, advance r (zlen (observations_bytes l))) else None, a).
Proof.
  intros Ht Hr Hn Ha. assert (chain observation_wire observation_state (0, 0) l) as Hc by by apply observable_chain.
  unfold observations_bytes in Ha. rewrite <- app_assoc in Ha. unfold read_observations.
  assert (is_u64 (zlen l)) as Hu by (pose proof (zlen_nonneg l); done).
  rewrite (wire_get_put (w := varuint_wire) _ _ _ Hu Ha : get_varuint _ = _). apply at_advance in Ha.
  destruct (admit_entries a (zlen l)) as [[] a']; cbn [negb]; [|done].
  rewrite read_observations_wire; [| done | done | apply Ha].
  assert (wire_valid (list_wire observation_wire observation_state (Z.to_nat (zlen l)) (0, 0)) l) as Hv.
  { split; [unfold zlen; lia | done]. }
  rewrite (wire_get_put (w := list_wire observation_wire observation_state (Z.to_nat (zlen l)) (0, 0)) l _ rest Hv Ha).
  rewrite advance_advance. unfold observations_bytes. by rewrite zlen_app.
Qed.

(** C31: Saving scheduler observations and reading them back gives the same
    observations, whatever precedes and follows them in the artifact, as long as the
    reader admits that many entries; a sequence with an unknown kind or reason, a
    decreasing sequence number or a decreasing deadline is refused. *)
Theorem observations_roundtrip l start pre rest (w : Writer (list Z)) limits entries :
  Forall observation_typed l -> Holds start pre w -> zlen pre + 10 + 90 * zlen l <= w_max_bytes w ->
  is_u64 entries ->
  let '(written, w') := write_observations l w in
  if observable (0, 0) l then
    written = true /\
    exists bytes, Holds start (pre ++ bytes) w' /\ forall r, at_ r (bytes ++ rest) ->
      read_observations r (mk_admission limits entries Code.Ok) =
        if entries + zlen l <=? Z.min (max_entries limits) U64_MAX
        then (Some (l, advance r (zlen bytes)), mk_admission limits (entries + zlen l) Code.Ok)
        else (None, mk_admission limits entries Code.CodecEntryCapacityExceeded)
  else written = false /\ w_code w' = Code.CodecInvariantInvalid.
Proof.
  intros Ht Hw Hm He. pose proof (zlen_nonneg l). pose proof (zlen_nonneg pre).
  assert (zlen l <= U64_MAX) as Hn by (pose proof (holds_max _ _ _ Hw); lia).
  destruct (observable (0, 0) l) eqn:Hr.
  - destruct (observations_emitted l w start pre Hw Ht Hr Hn Hm) as [H1 H2].
    destruct (write_observations l w) as [written w']. cbn [fst snd] in *. split; [done|].
    exists (observations_bytes l). split; [done|]. intros r Ha. rewrite (read_observations_at l _ r rest) by done.
    unfold admit_entries; cbn [a_entries a_limits a_code]. unfold is_u64 in He.
    destruct (Z.leb_spec (entries + zlen l) (Z.min (max_entries limits) U64_MAX)).
    + rewrite Checked_add_ok by (unfold is_u64; lia). destruct (Z.ltb_spec (max_entries limits) (entries + zlen l)); [lia|done].
    + destruct (Checked.add entries (zlen l)) as [next|] eqn:E; [|done].
      apply Checked_add_inv in E as [-> E]; [|lia..]. unfold is_u64 in E.
      destruct (Z.ltb_spec (max_entries limits) (entries + zlen l)); [done|lia].
  - destruct (write_observations_refused l w start pre Hw Ht Hr Hn Hm) as [H1 H2].
    by destruct (write_observations l w).
Qed.

Lemma observations_roundtrip_witness :
  let l := [mk_observation 1 TimerDue 5 9 (-1) 0 0 100 0; mk_observation 2 IoReady 5 9 7 1 (-32768) 200 3] in
  let w := (make_writer ([] : list Z) 1000 true) in
  observable (0, 0) l = true /\
  read_observations (mk_reader (received (w_sink (finish (write_observations l w).2).2)) 0)
    (new_admission (mk_limits 0 2 0 0)) =
  (Some (l, mk_reader [2; 1; 1; 5; 9; 1; 0; 0; 100; 0; 1; 2; 5; 9; 14; 1; 128; 128; 2; 100; 3] 21),
   mk_admission (mk_limits 0 2 0 0) 2 Code.Ok) /\
  (write_observations l w).1 = true.
Proof.
  intros l w. split; [reflexivity|]. split; [vm_compute; reflexivity|].
  assert (Forall observation_typed l) as Ht by (repeat constructor; vm_compute; done).
  pose proof (observations_roundtrip l [] [] [] w (mk_limits 0 2 0 0) 0 Ht
    (make_writer_holds ([] : list Z) 1000 ltac:(vm_compute; split; discriminate)) ltac:(vm_compute; discriminate)
    ltac:(vm_compute; split; discriminate)) as H.
  destruct (write_observations l w) as [written w']. exact (proj1 H).
Defined.

(** C34: A recording in which a timer with a positive deadline came due and the reactor
    later reported a descriptor cannot be saved: the reactor's observation carries no
    deadline, so deadlines decrease and the writer refuses the whole artifact. *)
Theorem timer_then_ready_unsavable before after sequence task_id wait_id deadline_ns
    sequence' kind code task_id' wait_id' fd interest revents start pre (w : Writer (list Z)) :
  let l := before ++ timer_observation sequence task_id wait_id deadline_ns ::
    reactor_observation sequence' kind code task_id' wait_id' fd interest revents :: after in
  Forall observation_typed l -> 0 < deadline_ns -> Holds start pre w ->
  zlen pre + 10 + 90 * zlen l <= w_max_bytes w ->
  (write_observations l w).1 = false /\ w_code (write_observations l w).2 = Code.CodecInvariantInvalid.
Proof.
  intros l Ht Hd Hw Hm. pose proof (zlen_nonneg l). pose proof (zlen_nonneg pre).
  pose proof (holds_max _ _ _ Hw). eapply write_observations_refused; [exact Hw | done | | lia | done].
  unfold l in *. clear Hm Hw l H H0 H1. apply Forall_app in Ht as [_ Ht]. apply list.Forall_cons in Ht as [[] _].
  cbn [timer_observation o_deadline_ns] in *. unfold is_i64 in *.
  assert (wrap64 deadline_ns = deadline_ns) as Hwr.
  { unfold wrap64. apply Z.mod_small. change (2 ^ 64) with 18446744073709551616. lia. }
  generalize (0, 0). induction before as [|b before IH]; intros st; cbn [app observable].
  - cbn [observation_state timer_observation reactor_observation o_deadline_ns fst snd]. rewrite Hwr.
    change (wrap64 0) with 0. destruct (Z.leb_spec deadline_ns 0); [lia|].
    by rewrite !andb_false_r.
  - rewrite IH. by rewrite andb_false_r.
Qed.

Lemma timer_then_ready_unsavable_witness :
  let l := [timer_observation 1 5 9 1000; reactor_observation 2 IoReady 0 6 10 7 1 1] in
  (write_observations l (make_writer ([] : list Z) 1000 true)).1 = false.
Proof.
  intros l. assert (Forall observation_typed l) as Ht by (repeat constructor; vm_compute; done).
  exact (proj1 (timer_then_ready_unsavable [] [] 1 5 9 1000 2 IoReady 0 6 10 7 1 1 [] []
    (make_writer ([] : list Z) 1000 true) Ht ltac:(done)
    (make_writer_holds ([] : list Z) 1000 ltac:(vm_compute; split; discriminate)) ltac:(vm_compute; discriminate))).
Defined.
