(* ===== verification/Ordered.v ===== *)
(** * Ordered: the ordered containers of the standard library

    [std::set] and [std::map] as lists in the order of their keys, and the binary heap
    of [std::push_heap] as the list of its elements in the order they are popped. The
    order is a boolean strict comparison. *)

From stdpp Require Import base numbers list option.
From Stdlib Require Import ZArith Lia.
From S2P Require Import Prelude.

Section Ordered.
Context {A : Type} (lt : A -> A -> bool).

(** [insert] at the place [lower_bound] finds. *)
Fixpoint ord_insert (x : A) (l : list A) : list A :=
  match l with
  | [] => [x]
  | y :: l' => if lt y x then y :: ord_insert x l' else x :: l
  end.

(** The first element that is not before [x]. *)
Definition lower_bound (x : A) (l : list A) : option A := List.find (fun y => negb (lt y x)) l.

(** [std::prev(lower_bound(x))]: the last element before [x]. *)
Definition before (x : A) (l : list A) : option A :=
  fold_left (fun found y => if lt y x then Some y else found) l None.

Definition equivalent (x y : A) : bool := negb (lt x y) && negb (lt y x).
Definition ord_find (x : A) (l : list A) : option A := List.find (equivalent x) l.
Definition ord_erase (x : A) (l : list A) : list A := List.filter (fun y => negb (equivalent x y)) l.

(** [emplace]: [None] when an equivalent element is there already. *)
Definition ord_emplace (x : A) (l : list A) : option (list A) :=
  match ord_find x l with Some _ => None | None => Some (ord_insert x l) end.

(** [std::set::insert], which ignores whether it inserted. *)
Definition ord_add (x : A) (l : list A) : list A :=
  match ord_emplace x l with Some l' => l' | None => l end.

(** [std::sort] with a comparison that tells every two elements apart. *)
Definition ord_sort (l : list A) : list A := foldr ord_insert [] l.

(** ** Facts *)
Lemma ord_insert_perm x l : ord_insert x l ≡ₚ x :: l.
Proof. induction l as [|y l IH]; cbn; [done|]. case_match; [|done]. rewrite IH. apply Permutation_swap. Qed.

Lemma elem_of_ord_insert x y l : y ∈ ord_insert x l <-> y = x \/ y ∈ l.
Proof. rewrite ord_insert_perm. apply elem_of_cons. Qed.

Lemma ord_sort_perm l : ord_sort l ≡ₚ l.
Proof. induction l as [|x l IH]; [done|]. cbn. by rewrite ord_insert_perm, IH. Qed.

Lemma lower_bound_elem x y l : lower_bound x l = Some y -> y ∈ l /\ lt y x = false.
Proof. intros [H1 H2]%List.find_some. rewrite list_elem_of_In. split; [done|]. by apply negb_true_iff. Qed.

Lemma before_elem x y l : before x l = Some y -> y ∈ l /\ lt y x = true.
Proof.
  unfold before. assert (forall found, (forall z, found = Some z -> z ∈ l /\ lt z x = true) -> forall k, (forall z, z ∈ k -> z ∈ l) ->
    fold_left (fun found y => if lt y x then Some y else found) k found = Some y -> y ∈ l /\ lt y x = true) as G.
  { intros found Hf k; revert found Hf. induction k as [|z k IH]; intros found Hf Hk; cbn [fold_left]; [apply Hf|].
    apply IH; [|intros; apply Hk; by right]. destruct (lt z x) eqn:E; [|exact Hf].
    intros ? [= <-]. split; [apply Hk; by left | done]. }
  apply (G None); done.
Qed.

Lemma ord_find_elem x y l : ord_find x l = Some y -> y ∈ l /\ equivalent x y = true.
Proof. intros [H1 H2]%List.find_some. by rewrite list_elem_of_In. Qed.

Lemma ord_find_None x l : ord_find x l = None -> forall y, y ∈ l -> equivalent x y = false.
Proof. intros H y Hy. eapply List.find_none; [exact H | by apply list_elem_of_In]. Qed.

Lemma elem_of_ord_erase x y l : y ∈ ord_erase x l <-> y ∈ l /\ equivalent x y = false.
Proof. rewrite !list_elem_of_In. unfold ord_erase. rewrite filter_In, negb_true_iff. done. Qed.

Lemma ord_erase_sublist x l : ord_erase x l `sublist_of` l.
Proof.
  induction l as [|y l IH]; cbn; [done|]. case_match; [by apply sublist_skip | by apply sublist_cons].
Qed.

(** Sorting: no element comes after one it is before. *)
Definition in_order (l : list A) : Prop := forall d x rest y, l = d ++ x :: rest -> y ∈ d -> lt x y = false.

Context (asym : forall x y, lt x y = true -> lt y x = false).
Context (negtrans : forall x y z, lt x y = false -> lt y z = false -> lt x z = false).

Lemma in_order_cons x l : in_order (x :: l) <-> (forall y, y ∈ l -> lt y x = false) /\ in_order l.
Proof using.
  unfold in_order. split.
  - intros H. split.
    + intros y Hy. apply list_elem_of_split in Hy as (r1 & r2 & ->). apply (H (x :: r1) y r2 x); [done | by left].
    + intros d y rest z -> Hz. apply (H (x :: d) y rest z); [done | by right].
  - intros [H1 H2] d y rest z E Hz. destruct d as [|a d]; [by apply elem_of_nil in Hz|].
    injection E as <- ->. apply elem_of_cons in Hz as [->|Hz].
    + apply H1, elem_of_app. right. by left.
    + by eapply H2.
Qed.

Lemma ord_insert_in_order x l : in_order l -> in_order (ord_insert x l).
Proof using asym negtrans.
  induction l as [|y l IH]; intros Hl; cbn [ord_insert].
  { apply in_order_cons. split; [intros y Hy; by apply elem_of_nil in Hy | done]. }
  apply in_order_cons in Hl as [Hy Hl]. destruct (lt y x) eqn:E.
  - apply in_order_cons. split; [|by apply IH]. intros z [->|Hz]%elem_of_ord_insert; [by apply asym | by apply Hy].
  - apply in_order_cons. split; [|by apply in_order_cons]. intros z [->|Hz]%elem_of_cons; [done|].
    apply negtrans with y; [by apply Hy | done].
Qed.

Lemma ord_sort_in_order l : in_order (ord_sort l).
Proof using asym negtrans.
  induction l as [|x l IH]; cbn; [|by apply ord_insert_in_order].
  intros d x rest y E. by destruct d.
Qed.
End Ordered.
