(* ===== verification/MemoryModel.v ===== *)
(** * MemoryModel: the data of the memory planner of a compute graph

    [include/rund/compute/graph/info.hpp] (resources, accesses, nodes, the memory
    plan), [src/compute/resource/memory.hpp] (what a node says about its writes) and
    [src/compute/resource/memory/model.hpp] (lifetimes and the other derived data).

    Of [graph::Info] the planner reads and writes [memory], [resources] and [nodes]
    only; the record has these three. A node's footprint and dependencies and a
    resource's [first_use] and [last_use] are not read by the planner and are left
    out. Enumerations of which only equality matters are kept as integers. *)

From stdpp Require Import base numbers list option.
From Stdlib Require Import ZArith Lia.
From S2P Require Import Prelude Checked Ordered.

(** ** The graph *)
Definition NoNode : Z := U32_MAX.
Definition Alignment : Z := 256.
Definition Chunk : Z := 1073741824.

Inductive Value := VI32 | VU32 | VI64 | VU64 | VFixed.
Inductive Visibility := VisInput | VisOutput | VisInternal.
#[export] Instance Value_eq_dec : EqDecision Value.
Proof. solve_decision. Defined.
#[export] Instance Visibility_eq_dec : EqDecision Visibility.
Proof. solve_decision. Defined.

(** [resource::AccessMode] and [graph::Operation::Map] *)
Definition ModeRead : Z := 0.
Definition ModeWrite : Z := 1.
Definition OperationMap : Z := 0.

Record Resource := mk_resource {
  g_id : Z;
  g_type : Value;
  g_integer_bits : Z;
  g_fraction_bits : Z;
  g_rounding : Z;
  g_overflow : Z;
  g_approximation : Z;
  g_visibility : Visibility;
  g_elements : Z;
  g_element_bytes : Z;
  g_bytes : Z;
  g_active : Z;
  g_parent : Z;
  g_source : Z;
  g_alias_group : Z;
  g_alias_offset_bytes : Z;
  g_reset_node : Z;
}.

Record Access := mk_access {
  a_resource : Z;
  a_mode : Z;
  a_offset_bytes : Z;
  a_size_bytes : Z;
  a_element_bytes : Z;
  a_element_count : Z;
  a_stride_bytes : Z;
}.

Record Node := mk_node { n_index : Z; n_operation : Z; n_accesses : list Access }.

Record MemoryPlan := mk_memory_plan {
  logical_bytes : Z;
  live_bytes : Z;
  physical_bytes : Z;
  allocation_count : Z;
  reset_bytes : Z;
  reset_count : Z;
}.

Record Info := mk_info { i_memory : MemoryPlan; i_resources : list Resource; i_nodes : list Node }.

(** ** What a node says about its writes *)
Record Domain := mk_domain { d_count : Z; d_predicate : Z; d_expected : Z }.
#[export] Instance Domain_eq_dec : EqDecision Domain.
Proof. solve_decision. Defined.
Definition EmptyDomain : Domain := mk_domain 0 0 0.
Definition domain_empty (d : Domain) : bool := (d_count d =? 0) && (d_predicate d =? 0).

Inductive WriteKind := WritePartial | WriteFull | WriteDomain.
Inductive Inplace := InplaceNone | InplacePointwise.
#[export] Instance WriteKind_eq_dec : EqDecision WriteKind.
Proof. solve_decision. Defined.
#[export] Instance Inplace_eq_dec : EqDecision Inplace.
Proof. solve_decision. Defined.

Record MemoryNode := mk_memory_node { m_domain : Domain; m_write : WriteKind; m_inplace : Inplace }.

(** ** Derived data *)
Record Lifetime := mk_lifetime {
  l_first : Z;
  l_last : Z;
  l_first_read : Z;
  l_first_write : Z;
  l_first_write_dense : bool;
  l_first_write_complete : bool;
  l_domain : Domain;
  l_first_write_domain : bool;
}.
Definition DefaultLifetime : Lifetime :=
  mk_lifetime NoNode NoNode NoNode NoNode false false EmptyDomain false.

Record Live := mk_live { live_start : Z; live_stop : Z }.

Record Work := mk_work {
  w_lifetimes : list Lifetime;
  w_counts : list Z;
  w_offsets : list Z;
  w_uses : list Z;
  w_live : list Live;
  w_arena : list Z;
}.

Record Layout := mk_layout { lay_bytes : Z; lay_count : Z; lay_owners : list Z; lay_offsets : list Z }.

(** [Status] with the two reasons the planner gives. *)
Inductive Reason := GraphInvalid | GraphCapacity.

(** The index [id - 1u] of a resource. *)
Definition slot (id : Z) : Z := wrap32 (id - 1).

(** ** Predicates on resources ([validation.cpp]) *)
Definition whole_value (value : Resource) (access : Access) : bool :=
  (a_offset_bytes access =? 0) && (a_size_bytes access =? g_bytes value) &&
  (a_element_bytes access =? g_element_bytes value) && (a_element_count access =? g_elements value) &&
  (a_stride_bytes access =? g_element_bytes value).

Definition count_value (value : Resource) : bool :=
  (g_elements value =? 1) && (bool_decide (g_type value = VU32) || bool_decide (g_type value = VU64)).

(** ** Field updates *)
Definition set_alias (group offset : Z) (r : Resource) : Resource :=
  mk_resource (g_id r) (g_type r) (g_integer_bits r) (g_fraction_bits r) (g_rounding r) (g_overflow r)
    (g_approximation r) (g_visibility r) (g_elements r) (g_element_bytes r) (g_bytes r) (g_active r)
    (g_parent r) (g_source r) group offset (g_reset_node r).
Definition set_source (source : Z) (r : Resource) : Resource :=
  mk_resource (g_id r) (g_type r) (g_integer_bits r) (g_fraction_bits r) (g_rounding r) (g_overflow r)
    (g_approximation r) (g_visibility r) (g_elements r) (g_element_bytes r) (g_bytes r) (g_active r)
    (g_parent r) source (g_alias_group r) (g_alias_offset_bytes r) (g_reset_node r).
Definition set_reset (node : Z) (r : Resource) : Resource :=
  mk_resource (g_id r) (g_type r) (g_integer_bits r) (g_fraction_bits r) (g_rounding r) (g_overflow r)
    (g_approximation r) (g_visibility r) (g_elements r) (g_element_bytes r) (g_bytes r) (g_active r)
    (g_parent r) (g_source r) (g_alias_group r) (g_alias_offset_bytes r) node.

(** [list[index] = f(list[index])] *)
Definition zmodify {A} (l : list A) (i : Z) (f : A -> A) : option (list A) :=
  x ← zget l i; zset l i (f x).
