(* ===== verification/MemoryArena.v ===== *)
(** * MemoryArena: packing resources into an arena

    [src/compute/resource/memory/arena/ordinary.cpp] (resources that share pages),
    [arena/large.cpp] (resources that get a buffer of their own) and [arena.cpp].

    A [bool] function whose output parameters are read only after it returned [true]
    gives an option: the inner [None] is the [false] return, the outer one undefined
    behaviour or exhausted fuel. *)

From stdpp Require Import base numbers list option.
From Stdlib Require Import ZArith Lia.
From S2P Require Import Prelude Checked Ordered MemoryModel.

(** ** The free segments of the ordinary arena *)
Record Segment := mk_segment { s_offset : Z; s_bytes : Z }.
Record Fit := mk_fit { f_usable : Z; f_aligned : Z; f_offset : Z }.
Record Free := mk_free { segments : list Segment; fits : list Fit; page_bytes : Z }.

(** [Take], with what a successful [take] stores. *)
Inductive Take := Missing | Ready (offset : Z) (free : Free) | Invalid.

(** The keys of the map of segments and the order of fits. *)
Definition segment_lt (a b : Segment) : bool := s_offset a <? s_offset b.
Definition fit_lt (a b : Fit) : bool :=
  (f_usable a <? f_usable b) ||
  ((f_usable a =? f_usable b) &&
   ((f_aligned a <? f_aligned b) || ((f_aligned a =? f_aligned b) && (f_offset a <? f_offset b)))).

Definition fit (value : Segment) : option Fit :=
  match Checked.align_up (s_offset value) Alignment with
  | Some start =>
      if (start <? s_offset value) || (s_bytes value <? wrap64 (start - s_offset value)) then None
      else Some (mk_fit (wrap64 (s_bytes value - wrap64 (start - s_offset value))) start (s_offset value))
  | None => None
  end.

Definition free_insert (free : Free) (value : Segment) : option Free :=
  if s_bytes value =? 0 then Some free else
  match ord_emplace segment_lt value (segments free) with
  | None => None
  | Some segs =>
      Some (mk_free segs
        (match fit value with Some entry => ord_add fit_lt entry (fits free) | None => fits free end)
        (page_bytes free))
  end.

Definition free_erase (free : Free) (position : Segment) : Free :=
  mk_free (ord_erase segment_lt position (segments free))
    (match fit position with Some entry => ord_erase fit_lt entry (fits free) | None => fits free end)
    (page_bytes free).

Definition release (free : Free) (value : Segment) : option Free :=
  if (s_bytes value =? 0) || negb (Checked.add_fits (s_offset value) (s_bytes value)) then
    if s_bytes value =? 0 then Some free else None
  else
    let '(value, free) :=
      match before segment_lt value (segments free) with
      | Some prior =>
          if (s_offset prior / page_bytes free =? s_offset value / page_bytes free) &&
             (wrap64 (s_offset prior + s_bytes prior) =? s_offset value)
          then (mk_segment (s_offset prior) (wrap64 (s_bytes value + s_bytes prior)), free_erase free prior)
          else (value, free)
      | None => (value, free)
      end in
    match lower_bound segment_lt value (segments free) with
    | Some next =>
        if (s_offset value / page_bytes free =? s_offset next / page_bytes free) &&
           (wrap64 (s_offset value + s_bytes value) =? s_offset next)
        then match Checked.add (s_bytes value) (s_bytes next) with
             | None => None
             | Some bytes => free_insert (free_erase free next) (mk_segment (s_offset value) bytes)
             end
        else free_insert free value
    | None => free_insert free value
    end.

Definition take_free (free : Free) (bytes : Z) : Take :=
  match lower_bound fit_lt (mk_fit bytes 0 0) (fits free) with
  | None => Missing
  | Some choice =>
      match ord_find segment_lt (mk_segment (f_offset choice) 0) (segments free) with
      | None => Invalid
      | Some slot =>
          let free := free_erase free slot in
          let offset := f_aligned choice in
          let prefix := wrap64 (offset - s_offset slot) in
          let suffix := wrap64 (wrap64 (s_bytes slot - prefix) - bytes) in
          match free_insert free (mk_segment (s_offset slot) prefix) with
          | None => Invalid
          | Some free =>
              match free_insert free (mk_segment (wrap64 (offset + bytes)) suffix) with
              | None => Invalid
              | Some free => Ready offset free
              end
          end
      end
  end.

(** ** Resources that share pages *)
Record Active := mk_active { act_last : Z; act_id : Z; act_offset : Z; act_bytes : Z }.

(** The heap pops the least pair of last use and id. *)
Definition active_lt (a b : Active) : bool :=
  (act_last a <? act_last b) || ((act_last a =? act_last b) && (act_id a <? act_id b)).

Record Ordinary := mk_ordinary {
  o_active : list Active;
  o_free : Free;
  o_consumed : list bool;
  o_offsets : list Z;
  o_top : Z;
}.

Definition expire_ordinary (consumed : list bool) (st : list Active * Free)
    : option (flow (list Active * Free) (option (list Z * Z))) :=
  let '(active, free) := st in
  match active with
  | [] => None
  | expired :: active =>
      skip ← zget consumed (slot (act_id expired));
      if (skip : bool) then Some (Next (active, free))
      else match release free (mk_segment (act_offset expired) (act_bytes expired)) with
           | None => Some (Return None)
           | Some free => Some (Next (active, free))
           end
  end.

(** A new place above everything placed so far, in the page of the top if it fits. *)
Definition grow_ordinary (top bytes page : Z) : option (Z * Z) :=
  let next_page :=
    let remainder := top mod page in
    if remainder =? 0 then Some top else Checked.add top (wrap64 (page - remainder)) in
  let offset :=
    match Checked.align_up top Alignment with
    | Some offset =>
        if (page <? bytes) || (wrap64 (page - offset mod page) <? bytes) then next_page else Some offset
    | None => next_page
    end in
  match offset with
  | None => None
  | Some offset =>
      match Checked.add offset bytes with None => None | Some top => Some (offset, top) end
  end.

Section Place.
Context (resources : list Resource) (lifetimes : list Lifetime).

Definition place_one (page : Z) (destructive : bool) (st : Ordinary) (id : Z)
    : option (flow Ordinary (option (list Z * Z))) :=
  value ← zget resources (slot id);
  lifetime ← zget lifetimes (slot id);
  r ← while_loop (S (length (o_active st)))
        (fun '(active, _) => match active with a :: _ => act_last a <? l_first lifetime | [] => false end)
        (expire_ordinary (o_consumed st)) (o_active st, o_free st);
  match r with
  | Return v => Some (Return v)
  | Next (active, free) =>
      let reuse := destructive && negb (g_source value =? 0) in
      source_offset ← (if reuse then zget (o_offsets st) (slot (g_source value)) else Some 0);
      consumed ← (if reuse then zset (o_consumed st) (slot (g_source value)) true else Some (o_consumed st));
      let placed :=
        if reuse then Some (source_offset, free, o_top st)
        else match take_free free (g_bytes value) with
             | Invalid => None
             | Ready offset free => Some (offset, free, o_top st)
             | Missing =>
                 match grow_ordinary (o_top st) (g_bytes value) page with
                 | None => None
                 | Some (offset, top) => Some (offset, free, top)
                 end
             end in
      match placed with
      | None => Some (Return None)
      | Some (offset, free, top) =>
          offsets ← zset (o_offsets st) (slot id) offset;
          Some (Next (mk_ordinary
            (ord_insert active_lt (mk_active (l_last lifetime) id offset (g_bytes value)) active)
            free consumed offsets top))
      end
  end.

(** The offsets and [Placement::bytes]. *)
Definition place_ordinary (ids : list Z) (page : Z) (destructive : bool) (offsets : list Z)
    : option (option (list Z * Z)) :=
  if (page <? Alignment) || negb (page mod Alignment =? 0) || negb (zlen offsets =? zlen resources)
  then Some None
  else
    after (for_loop (place_one page destructive)
      (mk_ordinary [] (mk_free [] [] page) (replicate (length resources) false)
         (replicate (length offsets) 0) 0) ids)
      (fun st => Some (Some (o_offsets st, o_top st))).

Record Arena := mk_arena { ar_bytes : Z; ar_count : Z; ar_owners : list Z }.

(** [counter::Accumulate] *)
Definition Accumulate (total value : Z) : Z :=
  if U64_MAX - total <? value then U64_MAX else total + value.

Definition measure_one (page chunk_count : Z) (offsets : list Z) (st : list Z * list Z) (id : Z)
    : option (flow (list Z * list Z) (option Arena)) :=
  let '(owners, extents) := st in
  value ← zget resources (slot id);
  offset ← zget offsets (slot id);
  let chunk := offset / page in
  let local := offset mod page in
  if (page <? g_bytes value) || (wrap64 (page - local) <? g_bytes value) || (chunk_count <=? chunk)
  then Some (Return None)
  else
    owner ← zget owners chunk;
    owners ← zset owners chunk (if owner =? 0 then id else Z.min owner id);
    extent ← zget extents chunk;
    extents ← zset extents chunk (Z.max extent (wrap64 (local + g_bytes value)));
    Some (Next (owners, extents)).

Definition measure_ordinary (placement_bytes : Z) (ids offsets : list Z) (page : Z) : option (option Arena) :=
  if (page <? Alignment) || negb (page mod Alignment =? 0) || negb (zlen offsets =? zlen resources) ||
     negb (Bool.eqb (bool_decide (ids = [])) (placement_bytes =? 0))
  then Some None
  else
    let chunk_count := if placement_bytes =? 0 then 0 else wrap64 ((placement_bytes - 1) / page + 1) in
    after (for_loop (measure_one page chunk_count offsets)
      (replicate (Z.to_nat chunk_count) 0, replicate (Z.to_nat chunk_count) 0) ids)
      (fun '(owners, extents) =>
         let used := List.filter (fun e => negb (e.1 =? 0)) (zip owners extents) in
         Some (Some (mk_arena (fold_left (fun total e => Accumulate total e.2) used 0) (zlen used) owners))).

(** ** Resources with a buffer of their own *)
Record LargeActive := mk_large_active { la_last : Z; la_id : Z; la_owner : Z; la_capacity : Z }.
Definition large_lt (a b : LargeActive) : bool :=
  (la_last a <? la_last b) || ((la_last a =? la_last b) && (la_id a <? la_id b)).

(** [std::pair] of a capacity and an owner *)
Definition pair_lt (a b : Z * Z) : bool := (a.1 <? b.1) || ((a.1 =? b.1) && (a.2 <? b.2)).

Record Large := mk_large {
  lg_active : list LargeActive;
  lg_free : list (Z * Z);
  lg_consumed : list bool;
  lg_capacities : list Z;
  lg_layout : Layout;
}.

Definition expire_large (consumed : list bool) (st : list LargeActive * list (Z * Z))
    : option (flow (list LargeActive * list (Z * Z)) (option Layout)) :=
  let '(active, free) := st in
  match active with
  | [] => None
  | expired :: active =>
      skip ← zget consumed (slot (la_id expired));
      if (skip : bool) then Some (Next (active, free))
      else match ord_emplace pair_lt (la_capacity expired, la_owner expired) free with
           | None => Some (Return None)
           | Some free => Some (Next (active, free))
           end
  end.

(** An owner for [bytes] that is free: the smallest that is large enough, the largest
    grown, or a new one; with the capacity, the free owners, the capacities and the
    bytes and count of the layout. *)
Definition choose_large (id bytes : Z) (free : list (Z * Z)) (capacities : list Z) (total count : Z)
    : option (option (Z * Z * list (Z * Z) * list Z * Z * Z)) :=
  match lower_bound pair_lt (bytes, 0) free with
  | Some reused => Some (Some (reused.2, reused.1, ord_erase pair_lt reused free, capacities, total, count))
  | None =>
      match fold_left (fun _ e => Some e) free None with
      | Some grown =>
          let '(previous, owner) := grown in
          if bytes <=? previous then Some None else
          match Checked.add total (wrap64 (bytes - previous)) with
          | None => Some None
          | Some total =>
              capacities ← zset capacities (slot owner) bytes;
              Some (Some (owner, bytes, ord_erase pair_lt grown free, capacities, total, count))
          end
      | None =>
          match Checked.add total bytes with
          | None => Some None
          | Some total =>
              if count =? U64_MAX then Some None else
              capacities ← zset capacities (slot id) bytes;
              Some (Some (id, bytes, free, capacities, total, count + 1))
          end
      end
  end.

(** The owner of the source, when the resource is written in place. *)
Definition reuse_large (value : Resource) (st : Large)
    : option (option (Z * Z * list bool)) :=
  if zlen resources <? g_source value then Some None else
  owner ← zget (lay_owners (lg_layout st)) (slot (g_source value));
  if owner =? 0 then Some None else
  capacity ← zget (lg_capacities st) (slot owner);
  if capacity <? g_bytes value then Some None else
  consumed ← zset (lg_consumed st) (slot (g_source value)) true;
  Some (Some (owner, capacity, consumed)).

Definition store_large (id last owner capacity : Z) (active : list LargeActive) (free : list (Z * Z))
    (consumed : list bool) (capacities : list Z) (layout : Layout)
    : option (flow Large (option Layout)) :=
  if (owner =? 0) || (capacity =? 0) then Some (Return None) else
  known ← zget capacities (slot owner);
  if negb (known =? capacity) then Some (Return None) else
  owners ← zset (lay_owners layout) (slot id) owner;
  offsets ← zset (lay_offsets layout) (slot id) 0;
  Some (Next (mk_large (ord_insert large_lt (mk_large_active last id owner capacity) active) free consumed
    capacities (mk_layout (lay_bytes layout) (lay_count layout) owners offsets))).

Definition place_large_one (destructive : bool) (st : Large) (id : Z)
    : option (flow Large (option Layout)) :=
  value ← zget resources (slot id);
  lifetime ← zget lifetimes (slot id);
  r ← while_loop (S (length (lg_active st)))
        (fun '(active, _) => match active with a :: _ => la_last a <? l_first lifetime | [] => false end)
        (expire_large (lg_consumed st)) (lg_active st, lg_free st);
  match r with
  | Return v => Some (Return v)
  | Next (active, free) =>
      let layout := lg_layout st in
      if destructive && negb (g_source value =? 0) then
        reused ← reuse_large value st;
        match reused with
        | None => Some (Return None)
        | Some (owner, capacity, consumed) =>
            store_large id (l_last lifetime) owner capacity active free consumed (lg_capacities st) layout
        end
      else
        chosen ← choose_large id (g_bytes value) free (lg_capacities st) (lay_bytes layout) (lay_count layout);
        match chosen with
        | None => Some (Return None)
        | Some (owner, capacity, free, capacities, total, count) =>
            store_large id (l_last lifetime) owner capacity active free (lg_consumed st) capacities
              (mk_layout total count (lay_owners layout) (lay_offsets layout))
        end
  end.

Definition place_large (ids : list Z) (destructive : bool) (result : Layout) : option (option Layout) :=
  after (for_loop (place_large_one destructive)
    (mk_large [] [] (replicate (length resources) false) (replicate (length resources) 0) result) ids)
    (fun st => Some (Some (lg_layout st))).

(** ** The arena *)
Definition bind_ok {A B} (r : option (option A)) (k : A -> option (option B)) : option (option B) :=
  r ← r; match r with None => Some None | Some a => k a end.

(** The loop that gives every ordinary resource the owner of its page and its offset
    in it. *)
Definition settle_one (chunk_bytes : Z) (arena_owners : list Z) (st : list Z * list Z) (id : Z)
    : option (flow (list Z * list Z) (option Layout)) :=
  let '(owners, offsets) := st in
  offset ← zget offsets (slot id);
  let chunk := offset / chunk_bytes in
  match zget arena_owners chunk with
  | None => Some (Return None)
  | Some owner =>
      if owner =? 0 then Some (Return None) else
      owners ← zset owners (slot id) owner;
      offsets ← zset offsets (slot id) (offset mod chunk_bytes);
      Some (Next (owners, offsets))
  end.

Definition pack_ordinary (ids : list Z) (chunk_bytes : Z) (destructive : bool)
    : option (option (list Z * Arena)) :=
  let offsets := replicate (length resources) 0 in
  if bool_decide (ids = []) then Some (Some (offsets, mk_arena 0 0 [])) else
  bind_ok (place_ordinary ids chunk_bytes destructive offsets) (fun '(offsets, bytes) =>
  bind_ok (measure_ordinary bytes ids offsets chunk_bytes) (fun arena => Some (Some (offsets, arena)))).

Definition pack (ids : list Z) (limit_bytes : Z) (destructive : bool) : option (option Layout) :=
  if (limit_bytes <? Alignment) || negb (limit_bytes mod Alignment =? 0) ||
     negb (zlen resources =? zlen lifetimes)
  then Some None
  else
    let chunk_bytes := Z.min Chunk limit_bytes in
    after (for_loop (fun '(ordinary, large) id =>
        if (id =? 0) || (zlen resources <? id) then Some (Return None) else
        value ← zget resources (slot id);
        if (g_bytes value =? 0) || (limit_bytes <? g_bytes value) then Some (Return None) else
        Some (Next (if g_bytes value <=? chunk_bytes then (ordinary ++ [id], large)
                    else (ordinary, large ++ [id])))) ([], []) ids)
      (fun '(ordinary, large) =>
         bind_ok (pack_ordinary ordinary chunk_bytes destructive) (fun '(offsets, arena) =>
         after (for_loop (settle_one chunk_bytes (ar_owners arena))
                  (replicate (length resources) 0, offsets) ordinary)
           (fun '(owners, offsets) =>
              place_large large destructive (mk_layout (ar_bytes arena) (ar_count arena) owners offsets)))).
End Place.
