(* ===== verification/PlanMemory.v ===== *)
(** * PlanMemory: the memory planner of a compute graph

    [src/compute/resource/memory.cpp] and [memory/{validation,lifetime,materialize,
    alias,finalize}.cpp]. Every phase gives [Next] of what it computed or [Return] of
    the reason of the failed status; what a failed phase has stored is dropped, as the
    only caller ([graph/describe/finish.cpp]) drops the graph. [None] is undefined
    behaviour or exhausted fuel. *)
From stdpp Require Import base numbers list option.
From Stdlib Require Import ZArith Lia.
From S2P Require Import Prelude Checked Ordered MemoryModel MemoryArena.

Abbreviation result A := (option (flow A Reason)).

(** The statements after a phase. *)
Definition andThen {A B} (r : result A) (k : A -> result B) : result B :=
  f ← r; match f with Next a => k a | Return reason => Some (Return reason) end.

(** ** Validation *)
Definition active_valid (resources : list Resource) (value : Resource) : option bool :=
  if g_active value =? 0 then Some true
  else if zlen resources <? g_active value then Some false
  else count ← zget resources (slot (g_active value)); Some (count_value count).

Definition parent_valid (resources : list Resource) (value : Resource) : option bool :=
  if g_parent value =? 0 then Some true
  else if negb (count_value value) || (zlen resources <? g_parent value) then Some false
  else parent ← zget resources (slot (g_parent value)); Some (count_value parent).

Definition bytes_valid (index : Z) (value : Resource) : bool :=
  (g_id value =? index + 1) && negb (g_element_bytes value =? 0) &&
  match Checked.mul (g_elements value) (g_element_bytes value) with
  | Some bytes => g_bytes value =? bytes
  | None => false
  end.

Definition validate_resource (resources : list Resource) (index : Z) : result (list Resource) :=
  value ← zget resources index;
  if negb (bytes_valid index value) then Some (Return GraphInvalid) else
  active_ok ← active_valid resources value;
  if negb active_ok then Some (Return GraphInvalid) else
  parent_ok ← parent_valid resources value;
  if negb parent_ok then Some (Return GraphInvalid) else
  resources ← zset resources index (set_reset NoNode (set_source 0 (set_alias (g_id value) 0 value)));
  Some (Next resources).

(** The walk along the parents that turns the marks [from] into [to_]; the cursor it
    stops at is zero or has another mark. *)
Definition walk_marks (resources : list Resource) (from to_ : Z) (marks : list Z) (cursor : Z)
    : option (list Z * Z) :=
  r ← while_loop (S (length resources)) (fun '(_, cursor) => negb (cursor =? 0))
        (fun '(marks, cursor) =>
           mark ← zget marks (slot cursor);
           if mark =? from then
             marks ← zset marks (slot cursor) to_;
             value ← zget resources (slot cursor);
             Some (Next (marks, g_parent value))
           else Some (Return (marks, cursor)))
        (marks, cursor);
  match r with Next st | Return st => Some st end.

Definition check_parents (resources : list Resource) (marks : list Z) (value : Resource)
    : result (list Z) :=
  '(marks, cursor) ← walk_marks resources 0 1 marks (g_id value);
  cyclic ← (if cursor =? 0 then Some false else mark ← zget marks (slot cursor); Some (mark =? 1));
  if (cyclic : bool) then Some (Return GraphInvalid) else
  '(marks, _) ← walk_marks resources 1 2 marks (g_id value);
  Some (Next marks).

Definition id_valid (resources : list Resource) (id : Z) : option bool :=
  if id =? 0 then Some true
  else if zlen resources <? id then Some false
  else count ← zget resources (slot id); Some (count_value count).

Definition valid_domain (resources : list Resource) (domain : Domain) : option bool :=
  count_ok ← id_valid resources (d_count domain);
  if negb count_ok then Some false else
  predicate_ok ← id_valid resources (d_predicate domain);
  if negb predicate_ok then Some false else
  Some (negb (d_predicate domain =? 0) || (d_expected domain =? 0)).

Definition validate (info : Info) (nodes : list MemoryNode) (page : Z) : result (Info * Work) :=
  if negb (zlen nodes =? zlen (i_nodes info)) || (page <? Alignment) || negb (page mod Alignment =? 0)
  then Some (Return GraphInvalid) else
  let count := length (i_resources info) in
  andThen (for_loop validate_resource (i_resources info) (range 0 (zlen (i_resources info)))) (fun resources =>
  andThen (for_loop (check_parents resources) (replicate count 0) resources) (fun _ =>
  andThen (for_loop (fun _ node =>
      valid ← valid_domain resources (m_domain node);
      Some (if (valid : bool) then Next tt else Return GraphInvalid)) tt nodes) (fun _ =>
  Some (Next (mk_info (mk_memory_plan 0 0 0 0 0 0) resources (i_nodes info),
    mk_work (replicate count DefaultLifetime) (replicate count 0) [] [] [] []))))).

(** ** Lifetimes ([lifetime.cpp]) *)

(** The first access of a node. *)
Definition touch (node_index : Z) (l : Lifetime) : Lifetime :=
  mk_lifetime (if l_first l =? NoNode then node_index else l_first l) node_index (l_first_read l)
    (l_first_write l) (l_first_write_dense l) (l_first_write_complete l) (l_domain l) (l_first_write_domain l).

Definition update_lifetime (value : Resource) (memory : MemoryNode) (node_index : Z) (access : Access)
    (l : Lifetime) : Lifetime :=
  let l := touch node_index l in
  let dense := whole_value value access in
  if a_mode access =? ModeRead then
    if l_first_read l =? NoNode
    then mk_lifetime (l_first l) (l_last l) node_index (l_first_write l) (l_first_write_dense l)
           (l_first_write_complete l) (l_domain l) (l_first_write_domain l)
    else l
  else if l_first_write l =? NoNode then
    let domain :=
      if domain_empty (m_domain memory) && negb (g_active value =? 0)
      then mk_domain (g_active value) 0 0 else m_domain memory in
    mk_lifetime (l_first l) (l_last l) (l_first_read l) node_index dense
      (dense && bool_decide (m_write memory = WriteFull)) domain
      (dense && negb (domain_empty domain) && bool_decide (m_write memory = WriteDomain))
  else if l_first_write l =? node_index then
    mk_lifetime (l_first l) (l_last l) (l_first_read l) (l_first_write l) (l_first_write_dense l && dense)
      (l_first_write_complete l && dense && bool_decide (m_write memory = WriteFull)) (l_domain l)
      (l_first_write_domain l && dense && bool_decide (m_write memory = WriteDomain) &&
       (bool_decide (l_domain l = m_domain memory) ||
        (domain_empty (m_domain memory) && (g_active value =? d_count (l_domain l)))))
  else l.

Definition collect_access (info : Info) (nodes : list MemoryNode) (node : Node)
    (st : list Lifetime * list Z) (access : Access) : result (list Lifetime * list Z) :=
  let '(lifetimes, counts) := st in
  if (a_resource access =? 0) || (zlen lifetimes <? a_resource access) ||
     (negb (a_mode access =? ModeRead) && negb (a_mode access =? ModeWrite))
  then Some (Return GraphInvalid) else
  let index := slot (a_resource access) in
  count ← zget counts index;
  if count =? U64_MAX then Some (Return GraphCapacity) else
  counts ← zset counts index (count + 1);
  value ← zget (i_resources info) index;
  memory ← zget nodes (n_index node);
  lifetimes ← zmodify lifetimes index (update_lifetime value memory (n_index node) access);
  Some (Next (lifetimes, counts)).

Definition collect_node (info : Info) (nodes : list MemoryNode) (st : list Lifetime * list Z)
    (node_index : Z) : result (list Lifetime * list Z) :=
  node ← zget (i_nodes info) node_index;
  if negb (n_index node =? node_index) then Some (Return GraphInvalid) else
  for_loop (collect_access info nodes node) st (n_accesses node).

(** [offsets[index + 1] = offsets[index] + counts[index]] *)
Definition sum_offsets (counts : list Z) : result (list Z) :=
  for_loop (fun offsets index =>
      base ← zget offsets index;
      count ← zget counts index;
      match Checked.add base count with
      | None => Some (Return GraphCapacity)
      | Some sum => offsets ← zset offsets (index + 1) sum; Some (Next offsets)
      end) (replicate (S (length counts)) 0) (range 0 (zlen counts)).

Definition list_use (node : Node) (st : list Z * list Z) (access : Access)
    : option (list Z * list Z) :=
  let '(uses, cursors) := st in
  cursor ← zget cursors (slot (a_resource access));
  uses ← zset uses cursor (n_index node);
  cursors ← zset cursors (slot (a_resource access)) (wrap64 (cursor + 1));
  Some (uses, cursors).

Definition collect (info : Info) (nodes : list MemoryNode) (work : Work) : result Work :=
  andThen (for_loop (collect_node info nodes) (w_lifetimes work, w_counts work)
    (range 0 (zlen (i_nodes info)))) (fun '(lifetimes, counts) =>
  andThen (sum_offsets counts) (fun offsets =>
  total ← zget offsets (zlen counts);
  '(uses, counts) ← for_each (fun st node => for_each (list_use node) st (n_accesses node))
      (replicate (Z.to_nat total) 0, take (length counts) offsets) (i_nodes info);
  Some (Next (mk_work lifetimes counts offsets uses (w_live work) (w_arena work))))).

(** ** Classification ([materialize.cpp]) *)
Fixpoint count_subset_loop (depth : nat) (resources : list Resource) (child parent : Z) : option bool :=
  match depth with
  | O => Some false
  | S depth =>
      if child =? 0 then Some false else
      count ← zget resources (slot child);
      if child =? parent then Some true else count_subset_loop depth resources (g_parent count) parent
  end.
Definition count_subset (resources : list Resource) (child parent : Z) : option bool :=
  if parent =? 0 then Some true else count_subset_loop (length resources) resources child parent.

Definition domain_subset (read write : Domain) (resources : list Resource) : option bool :=
  if domain_empty write then Some (domain_empty read)
  else if domain_empty read then Some false
  else if negb (d_predicate write =? 0) &&
    (negb (d_predicate read =? d_predicate write) || negb (d_expected read =? d_expected write))
  then Some false
  else count_subset resources (d_count read) (d_count write).

Record Classified := mk_classified {
  cl_memory : MemoryPlan;
  cl_resources : list Resource;
  cl_live : list Live;
  cl_arena : list Z;
}.

(** [info.memory.logical_bytes += bytes] *)
Definition add_logical (bytes : Z) (m : MemoryPlan) : option MemoryPlan :=
  total ← Checked.add (logical_bytes m) bytes;
  Some (mk_memory_plan total (live_bytes m) (physical_bytes m) (allocation_count m) (reset_bytes m) (reset_count m)).
(** [info.memory.reset_bytes += bytes; ++info.memory.reset_count] *)
Definition add_reset (bytes : Z) (m : MemoryPlan) : option MemoryPlan :=
  total ← Checked.add (reset_bytes m) bytes;
  count ← Checked.add (reset_count m) 1;
  Some (mk_memory_plan (logical_bytes m) (live_bytes m) (physical_bytes m) (allocation_count m) total count).

(** The resource is written from zero at its first write. *)
Definition reset_resource (index : Z) (value : Resource) (lifetime : Lifetime) (st : Classified)
    : result Classified :=
  match add_reset (g_bytes value) (cl_memory st) with
  | None => Some (Return GraphCapacity)
  | Some memory =>
      resources ← zset (cl_resources st) index (set_reset (l_first_write lifetime) value);
      Some (Next (mk_classified memory resources (cl_live st) (cl_arena st)))
  end.

Definition add_live (lifetime : Lifetime) (bytes : Z) (live : list Live) : result (list Live) :=
  at_first ← zget live (l_first lifetime);
  match Checked.add (live_start at_first) bytes with
  | None => Some (Return GraphCapacity)
  | Some start =>
      live ← zset live (l_first lifetime) (mk_live start (live_stop at_first));
      at_last ← zget live (l_last lifetime);
      match Checked.add (live_stop at_last) bytes with
      | None => Some (Return GraphCapacity)
      | Some stop =>
          live ← zset live (l_last lifetime) (mk_live (live_start at_last) stop);
          Some (Next live)
      end
  end.

Definition domain_reusable (nodes : list MemoryNode) (work : Work) (resources : list Resource)
    (index : Z) (lifetime : Lifetime) : option bool :=
  lo ← zget (w_offsets work) index;
  hi ← zget (w_offsets work) (index + 1);
  r ← for_loop (fun _ cursor =>
        node ← zget (w_uses work) cursor;
        memory ← zget nodes node;
        subset ← domain_subset (m_domain memory) (l_domain lifetime) resources;
        Some (if (subset : bool) then Next tt else Return false)) tt (range lo hi);
  Some (match r with Next _ => true | Return b => b end).

Definition classify_internal (info : Info) (nodes : list MemoryNode) (page : Z) (work : Work) (index : Z)
    (value : Resource) (lifetime : Lifetime) (st : Classified) : result Classified :=
  match add_logical (g_bytes value) (cl_memory st) with
  | None => Some (Return GraphCapacity)
  | Some memory =>
      let st := mk_classified memory (cl_resources st) (cl_live st) (cl_arena st) in
      if page <? g_bytes value then Some (Return GraphCapacity)
      else if l_first lifetime =? NoNode then Some (Next st)
      else if (zlen (i_nodes info) <=? l_first lifetime) || (zlen (i_nodes info) <=? l_last lifetime)
      then Some (Return GraphInvalid)
      else
        andThen (add_live lifetime (g_bytes value) (cl_live st)) (fun live =>
        let st := mk_classified memory (cl_resources st) live (cl_arena st) in
        if negb (l_first_write lifetime =? l_first lifetime) || negb (l_first_write_dense lifetime) ||
           (l_first_read lifetime =? l_first lifetime)
        then Some (Return GraphInvalid) else
        reusable ← (if l_first_write_complete lifetime then Some true
                    else if l_first_write_domain lifetime
                    then domain_reusable nodes work (cl_resources st) index lifetime
                    else Some false);
        andThen (if (reusable : bool) then Some (Next st) else reset_resource index value lifetime st) (fun st =>
        Some (Next (mk_classified (cl_memory st) (cl_resources st) (cl_live st) (cl_arena st ++ [g_id value])))))
  end.

Definition classify_one (info : Info) (nodes : list MemoryNode) (page : Z) (work : Work)
    (st : Classified) (index : Z) : result Classified :=
  value ← zget (cl_resources st) index;
  lifetime ← zget (w_lifetimes work) index;
  if negb (bool_decide (g_visibility value = VisInternal)) then
    if bool_decide (g_visibility value = VisOutput) && negb (l_first_write lifetime =? NoNode) &&
       negb (l_first_write_complete lifetime)
    then
      if negb (l_first_write lifetime =? l_first lifetime) || (l_first_read lifetime =? l_first lifetime)
      then Some (Return GraphInvalid)
      else reset_resource index value lifetime st
    else Some (Next st)
  else classify_internal info nodes page work index value lifetime st.

Definition classify (info : Info) (nodes : list MemoryNode) (page : Z) (work : Work) : result (Info * Work) :=
  andThen (for_loop (classify_one info nodes page work)
    (mk_classified (i_memory info) (i_resources info) (replicate (length (i_nodes info)) (mk_live 0 0)) [])
    (range 0 (zlen (i_resources info)))) (fun st =>
  Some (Next (mk_info (cl_memory st) (cl_resources st) (i_nodes info),
    mk_work (w_lifetimes work) (w_counts work) (w_offsets work) (w_uses work) (cl_live st) (cl_arena st)))).

(** ** Sources of in-place writes ([alias.cpp]) *)
Definition same_shape (a b : Resource) : bool :=
  bool_decide (g_type a = g_type b) && (g_integer_bits a =? g_integer_bits b) &&
  (g_fraction_bits a =? g_fraction_bits b) && (g_rounding a =? g_rounding b) &&
  (g_overflow a =? g_overflow b) && (g_approximation a =? g_approximation b) &&
  (g_elements a =? g_elements b) && (g_element_bytes a =? g_element_bytes b) && (g_bytes a =? g_bytes b).

Section Sources.
Context (lifetimes : list Lifetime).

Definition stored (resources : list Resource) (id : Z) : option bool :=
  value ← zget resources (slot id);
  if negb (bool_decide (g_visibility value = VisInternal)) then Some false else
  lifetime ← zget lifetimes (slot id);
  Some (negb (l_first lifetime =? NoNode)).

(** An access that writes all of a stored resource for the first time. *)
Definition births (resources : list Resource) (node : Node) (access : Access) : option bool :=
  if negb (a_mode access =? ModeWrite) then Some false else
  is_stored ← stored resources (a_resource access);
  if negb is_stored then Some false else
  lifetime ← zget lifetimes (slot (a_resource access));
  if negb (l_first lifetime =? n_index node) then Some false else
  value ← zget resources (slot (a_resource access));
  Some (whole_value value access).

(** The resource the node is the first to write, if it is the only one; a second one
    ends the loop with none. *)
Definition find_output (resources : list Resource) (node : Node) : option Z :=
  r ← for_loop (fun output access =>
        fresh ← births resources node access;
        Some (if negb fresh then Next output
              else if negb (output =? 0) then Return 0 else Next (a_resource access)))
        0 (n_accesses node);
  Some (match r with Next output => output | Return output => output end).

(** An access that reads all of a stored resource for the last time. *)
Definition dies (resources : list Resource) (node : Node) (target : Resource) (access : Access) : option bool :=
  if negb (a_mode access =? ModeRead) then Some false else
  is_stored ← stored resources (a_resource access);
  if negb is_stored then Some false else
  lifetime ← zget lifetimes (slot (a_resource access));
  if (n_index node <=? l_first lifetime) || negb (l_last lifetime =? n_index node) then Some false else
  candidate ← zget resources (slot (a_resource access));
  Some (whole_value candidate access && same_shape candidate target).

Definition find_source (resources : list Resource) (node : Node) (target : Resource) : option Z :=
  for_each (fun source access =>
      dying ← dies resources node target access;
      Some (if negb dying then source
            else if source =? 0 then a_resource access else Z.min source (a_resource access)))
    0 (n_accesses node).

Definition identify_node (nodes : list MemoryNode) (resources : list Resource) (node : Node)
    : option (list Resource) :=
  if negb (n_operation node =? OperationMap) then Some resources else
  memory ← zget nodes (n_index node);
  if negb (bool_decide (m_write memory = WriteFull)) || negb (bool_decide (m_inplace memory = InplacePointwise))
  then Some resources else
  output ← find_output resources node;
  if output =? 0 then Some resources else
  target ← zget resources (slot output);
  source ← find_source resources node target;
  if source =? 0 then Some resources else zset resources (slot output) (set_source source target).

Definition identify_sources (nodes : list MemoryNode) (resources : list Resource) (graph_nodes : list Node)
    : option (list Resource) := for_each (identify_node nodes) resources graph_nodes.
End Sources.

(** ** The layout ([finalize.cpp]) *)
Definition live_step (live : list Live) (st : Z * Z) (node : Z) : result (Z * Z) :=
  let '(live_bytes, most) := st in
  andThen (if node =? 0 then Some (Next live_bytes) else
    prior ← zget live (node - 1);
    Some (if live_bytes <? live_stop prior then Return GraphInvalid
          else Next (wrap64 (live_bytes - live_stop prior)))) (fun live_bytes =>
  now ← zget live node;
  match Checked.add live_bytes (live_start now) with
  | None => Some (Return GraphCapacity)
  | Some live_bytes => Some (Next (live_bytes, Z.max most live_bytes))
  end).

(** The order of the arena: by first use, then by id. *)
Definition arena_key (lifetimes : list Lifetime) (id : Z) : Z :=
  match zget lifetimes (slot id) with Some l => l_first l | None => 0 end.
Definition arena_lt (lifetimes : list Lifetime) (left right : Z) : bool :=
  (arena_key lifetimes left <? arena_key lifetimes right) ||
  ((arena_key lifetimes left =? arena_key lifetimes right) && (left <? right)).

Definition assign_one (layout : Layout) (destructive : bool) (resources : list Resource) (id : Z)
    : result (list Resource) :=
  owner ← zget (lay_owners layout) (slot id);
  if owner =? 0 then Some (Return GraphInvalid) else
  offset ← zget (lay_offsets layout) (slot id);
  resources ← zmodify resources (slot id) (fun value =>
    let value := set_alias owner offset value in if destructive then value else set_source 0 value);
  Some (Next resources).

Definition with_physical (m : MemoryPlan) (layout : Layout) : option MemoryPlan :=
  bytes ← Checked.add (physical_bytes m) (lay_bytes layout);
  count ← Checked.add (allocation_count m) (lay_count layout);
  Some (mk_memory_plan (logical_bytes m) (live_bytes m) bytes count (reset_bytes m) (reset_count m)).

Definition finalize (info : Info) (page : Z) (work : Work) : result Info :=
  andThen (for_loop (live_step (w_live work)) (0, live_bytes (i_memory info)) (range 0 (zlen (i_nodes info))))
    (fun '(_, most) =>
  let m := i_memory info in
  let memory := mk_memory_plan (logical_bytes m) most (physical_bytes m) (allocation_count m) (reset_bytes m)
    (reset_count m) in
  if bool_decide (w_arena work = []) then Some (Next (mk_info memory (i_resources info) (i_nodes info))) else
  let arena := ord_sort (arena_lt (w_lifetimes work)) (w_arena work) in
  destructive ← pack (i_resources info) (w_lifetimes work) arena page true;
  match destructive with
  | None => Some (Return GraphCapacity)
  | Some destructive =>
      ordinary ← pack (i_resources info) (w_lifetimes work) arena page false;
      match ordinary with
      | None => Some (Return GraphCapacity)
      | Some ordinary =>
          let destructive_layout :=
            (lay_bytes destructive <? lay_bytes ordinary) ||
            ((lay_bytes destructive =? lay_bytes ordinary) && (lay_count destructive <=? lay_count ordinary)) in
          let layout := if destructive_layout then destructive else ordinary in
          andThen (for_loop (assign_one layout destructive_layout) (i_resources info) arena) (fun resources =>
          match with_physical memory layout with
          | None => Some (Return GraphCapacity)
          | Some memory => Some (Next (mk_info memory resources (i_nodes info)))
          end)
      end
  end).

(** ** The planner ([memory.cpp]) *)
Definition plan_memory (info : Info) (nodes : list MemoryNode) (page : Z) : result Info :=
  andThen (validate info nodes page) (fun '(info, work) =>
  andThen (collect info nodes work) (fun work =>
  andThen (classify info nodes page work) (fun '(info, work) =>
  resources ← identify_sources (w_lifetimes work) nodes (i_resources info) (i_nodes info);
  finalize (mk_info (i_memory info) resources (i_nodes info)) page work))).

(** ** Placing lifetimes, as an abstract step system

    What the packing of an arena promises, without its data structures. Items with a
    lifetime are placed in the order of their first use. A step lets the time advance,
    gives up the place of an expired item, places an item apart from every place that
    is held, or writes an item over its source in place. By rule induction, items that
    are alive together never overlap, unless one is written over the other at the
    moment the other is last used. *)
Section Placement.
Context {P : Type} (apart : P -> P -> Prop).
Context (first last source : Z -> Z).

Record plan := mk_plan { now : Z; placed : list Z; held : list Z; place : Z -> P }.

Definition put (f : Z -> P) (id : Z) (p : P) : Z -> P := fun y => if y =? id then p else f y.
Definition hand_back (id : Z) (l : list Z) : list Z := List.filter (fun y => negb (y =? id)) l.

Inductive step : plan -> plan -> Prop :=
| step_advance t s : now s <= t -> step s (mk_plan t (placed s) (held s) (place s))
| step_expire id s : last id < now s ->
    step s (mk_plan (now s) (placed s) (hand_back id (held s)) (place s))
| step_fresh id p s : id ∉ placed s -> first id = now s -> now s <= last id ->
    (forall y, y ∈ held s -> apart p (place s y)) ->
    step s (mk_plan (now s) (id :: placed s) (id :: held s) (put (place s) id p))
| step_reuse id s : id ∉ placed s -> first id = now s -> now s <= last id ->
    source id ∈ held s -> last (source id) = now s -> first (source id) < now s ->
    step s (mk_plan (now s) (id :: placed s) (id :: hand_back (source id) (held s))
      (put (place s) id (place s (source id)))).

Inductive reachable : plan -> Prop :=
| reach_start t f : reachable (mk_plan t [] [] f)
| reach_step s s' : reachable s -> step s s' -> reachable s'.

(** [x] is written over [y]. *)
Definition over (s : plan) (x y : Z) : Prop :=
  source x = y /\ first x = last y /\ place s x = place s y.
Definition overlap (x y : Z) : Prop := first x <= last y /\ first y <= last x.

Definition safe (s : plan) : Prop := forall x y, x ∈ placed s -> y ∈ placed s -> x <> y -> overlap x y ->
  apart (place s x) (place s y) \/ over s x y \/ over s y x.

(** ** The invariant *)
Record inv (s : plan) : Prop := {
  inv_held : forall y, y ∈ held s -> y ∈ placed s;
  inv_time : forall y, y ∈ placed s -> first y <= now s /\ first y <= last y;
  inv_apart : forall x y, x ∈ held s -> y ∈ held s -> x <> y -> apart (place s x) (place s y);
  inv_gone : forall y, y ∈ placed s -> y ∉ held s -> last y < now s \/
    (first y < last y /\ last y = now s /\
     exists z, z ∈ held s /\ first z = last y /\ source z = y /\ place s z = place s y);
  inv_safe : safe s;
}.

Lemma elem_of_hand_back id y l : y ∈ hand_back id l <-> y ∈ l /\ y <> id.
Proof. rewrite !list_elem_of_In. unfold hand_back. rewrite filter_In, negb_true_iff, Z.eqb_neq. done. Qed.

Lemma put_eq f id p : put f id p id = p.
Proof. unfold put. by rewrite Z.eqb_refl. Qed.
Lemma put_ne f id p y : y <> id -> put f id p y = f y.
Proof. unfold put. by intros ->%Z.eqb_neq. Qed.

Context (apart_sym : forall p q, apart p q -> apart q p).

(** A new item is safe as soon as it is apart from, or over, every placed item it is
    alive with. *)
Lemma safe_put s id p h : safe s -> id ∉ placed s ->
  (forall y, y ∈ placed s -> overlap id y ->
     apart p (place s y) \/ (source id = y /\ first id = last y /\ p = place s y)) ->
  safe (mk_plan (now s) (id :: placed s) h (put (place s) id p)).
Proof.
  intros Hs Hid Hnew. unfold safe, over; cbn [placed place].
  assert (forall y, y ∈ placed s -> put (place s) id p y = place s y) as Hput.
  { intros y Hy. apply put_ne. by intros ->. }
  intros x y [->|Hx]%elem_of_cons [->|Hy]%elem_of_cons Hne Ho; [done| | |].
  - rewrite put_eq, Hput by done. destruct (Hnew y Hy Ho) as [|]; [by left | by right; left].
  - rewrite put_eq, Hput by done. destruct (Hnew x Hx) as [|]; [by destruct Ho | left; by apply apart_sym | by right; right].
  - rewrite !Hput by done. destruct (Hs x y Hx Hy Hne Ho) as [?|[?|?]]; eauto.
Qed.

Lemma inv_step s s' : inv s -> step s s' -> inv s'.
Proof.
  intros [Hh Ht Ha Hg Hs] Hstep. destruct Hstep as [t s Ht' | id s Hid | id p s Hid Hf Hl Hp | id s Hid Hf Hl Hsrc Hls Hfs].
  - split; cbn; [done | | done | | done].
    + intros y Hy. destruct (Ht y Hy). lia.
    + intros y Hy Hn. destruct (Hg y Hy Hn) as [|(? & ? & ?)]; [left; lia|].
      destruct (Z.eq_dec t (now s)) as [->|]; [by right | left; lia].
  - split; cbn; [| done | | | done].
    + intros y [Hy _]%elem_of_hand_back. by apply Hh.
    + intros x y [Hx _]%elem_of_hand_back [Hy _]%elem_of_hand_back. by apply Ha.
    + intros y Hy Hn. destruct (decide (y ∈ held s)) as [Hin|Hout].
      * left. rewrite elem_of_hand_back in Hn. destruct (decide (y = id)) as [->|]; [done | by destruct Hn].
      * destruct (Hg y Hy Hout) as [|(? & ? & z & Hz & Hfz & ? & ?)]; [by left|]. right. repeat split; [done..|].
        exists z. rewrite elem_of_hand_back. repeat split; [done | | done..].
        intros ->. destruct (Ht id (Hh _ Hz)). lia.
  - split; cbn.
    + intros y [->|Hy]%elem_of_cons; [by left | right; by apply Hh].
    + intros y [->|Hy]%elem_of_cons; [lia | by apply Ht].
    + assert (forall y, y ∈ held s -> put (place s) id p y = place s y) as Hput.
      { intros y Hy. apply put_ne. intros ->. by apply Hid, Hh. }
      intros x y [->|Hx]%elem_of_cons [->|Hy]%elem_of_cons Hne; [done| | |].
      * rewrite put_eq, Hput by done. by apply Hp.
      * rewrite put_eq, Hput by done. by apply apart_sym, Hp.
      * rewrite !Hput by done. by apply Ha.
    + intros y [->|Hy]%elem_of_cons Hn; [by destruct Hn; left|].
      destruct (Hg y Hy) as [|(? & ? & z & Hz & ? & ? & ?)]; [intros ?; apply Hn; by right | by left |].
      right. repeat split; [done..|]. exists z. rewrite !put_ne by (intros ->; by apply Hid; auto).
      repeat split; [by right | done..].
    + apply safe_put; [done | done |]. intros y Hy [Ho _]. left. destruct (decide (y ∈ held s)); [by apply Hp|].
      destruct (Hg y Hy ltac:(done)) as [|(? & ? & z & Hz & ? & ? & Hpl)]; [lia|]. rewrite <- Hpl. by apply Hp.
  - split; cbn.
    + intros y [->|[Hy _]%elem_of_hand_back]%elem_of_cons; [by left | right; by apply Hh].
    + intros y [->|Hy]%elem_of_cons; [lia | by apply Ht].
    + assert (forall y, y ∈ held s -> put (place s) id (place s (source id)) y = place s y) as Hput.
      { intros y Hy. apply put_ne. intros ->. by apply Hid, Hh. }
      intros x y [->|[Hx ?]%elem_of_hand_back]%elem_of_cons [->|[Hy ?]%elem_of_hand_back]%elem_of_cons Hne; [done| | |].
      * rewrite put_eq, Hput by done. by apply Ha.
      * rewrite put_eq, Hput by done. by apply Ha.
      * rewrite !Hput by done. by apply Ha.
    + intros y [->|Hy]%elem_of_cons Hn; [by destruct Hn; left|].
      rewrite !elem_of_cons, elem_of_hand_back in Hn.
      destruct (decide (y = source id)) as [->|Hne].
      * right. repeat split; [lia | done |]. exists id.
        rewrite put_eq, put_ne by (intros E; apply Hid; rewrite <- E; by apply Hh).
        repeat split; [by left | lia].
      * destruct (Hg y Hy) as [|(? & ? & z & Hz & ? & ? & ?)]; [naive_solver | by left |].
        right. repeat split; [done..|]. exists z. rewrite !put_ne by (intros ->; by apply Hid; auto).
        repeat split; [|done..]. right. apply elem_of_hand_back. split; [done|]. intros ->. lia.
    + apply safe_put; [done | done |]. intros y Hy [Ho _].
      destruct (decide (y = source id)) as [->|Hne]; [right; repeat split; lia || done|]. left.
      destruct (decide (y ∈ held s)); [by apply Ha|].
      destruct (Hg y Hy ltac:(done)) as [|(? & ? & z & Hz & ? & ? & Hpl)]; [lia|]. rewrite <- Hpl.
      apply Ha; [done..|]. intros <-. lia.
Qed.

Lemma reachable_inv s : reachable s -> inv s.
Proof.
  induction 1 as [t f | s s' _ IH Hstep]; [|by eapply inv_step].
  split; cbn; intros; try (unfold safe; cbn; intros); by exfalso; eapply not_elem_of_nil.
Qed.
End Placement.
#[global] Arguments now {P}.
#[global] Arguments placed {P}.
#[global] Arguments held {P}.
#[global] Arguments place {P}.
#[global] Arguments mk_plan {P}.
