(* ===== verification/MemoryArenaFacts.v ===== *)
(** * MemoryArenaFacts: the free segments of an arena

    The free segments cover the bytes below the top that nobody holds: releasing adds
    a range, taking removes one, and neither fails. *)

From stdpp Require Import base numbers list option.
From Stdlib Require Import ZArith Lia.
From S2P Require Import Prelude Checked Ordered MemoryModel MemoryArena.

(** ** Ranges of bytes *)
Definition in_range (p : Z * Z) (x : Z) : Prop := p.1 <= x < p.1 + p.2.

(** Ranges given by offset and size, in different places. *)
Definition apart (p q : Z * Z) : Prop := p.1 + p.2 <= q.1 \/ q.1 + q.2 <= p.1.

Lemma apart_sym p q : apart p q -> apart q p.
Proof. unfold apart. tauto. Qed.

Definition seg_range (s : Segment) : Z * Z := (s_offset s, s_bytes s).

Lemma align_256 v r : is_u64 v -> Checked.align_up v Alignment = Some r ->
  v <= r < v + 256 /\ r mod 256 = 0 /\ r <= U64_MAX.
Proof.
  intros Hv. unfold Checked.align_up, is_u64 in *. change Alignment with (2 ^ 8).
  change ((2 ^ 8 =? 0) || negb (Z.land (2 ^ 8) (wrap64 (2 ^ 8 - 1)) =? 0)) with false. cbv iota.
  change (wrap64 (2 ^ 8 - 1)) with 255. destruct (Checked.add v 255) as [padded|] eqn:E; [|done]. intros [= <-].
  unfold Checked.add, Checked.add_fits in E. destruct (Z.leb_spec v (U64_MAX - 255)); cbn in E; [|done].
  injection E as <-. rewrite wrap64_small by (unfold is_u64; lia).
  change (U64_MAX - 255) with (2 ^ 64 - 2 ^ 8). rewrite Checked.land_clear_low by (unfold is_u64; lia).
  change (2 ^ 8) with 256. pose proof (Z.div_mod (v + 255) 256 ltac:(lia)). pose proof (Z.mod_pos_bound (v + 255) 256 ltac:(lia)).
  repeat split; [lia.. | by apply Z.mod_mul | lia].
Qed.

(** A range that does not leave the page it starts in. *)
Definition in_page (page : Z) (p : Z * Z) : Prop := p.1 mod page + p.2 <= page.

Lemma in_page_move page o k : 0 < page -> 0 <= k -> o mod page + k < page ->
  (o + k) mod page = o mod page + k /\ (o + k) / page = o / page.
Proof.
  intros Hp Hk H. pose proof (Z.div_mod o page ltac:(lia)). pose proof (Z.mod_pos_bound o page Hp).
  split; symmetry; [apply Z.mod_unique with (o / page) | apply Z.div_unique with (o mod page + k)]; lia.
Qed.

Lemma in_page_part page o k b : 0 < page -> 0 <= k -> 0 < b -> in_page page (o, k + b) -> in_page page (o + k, b).
Proof.
  unfold in_page; cbn. intros Hp Hk Hb H. destruct (in_page_move page o k) as [-> _]; lia.
Qed.

Lemma in_page_join page o k b : 0 < page -> 0 <= k -> 0 < b -> in_page page (o, k) ->
  o / page = (o + k) / page -> in_page page (o + k, b) -> in_page page (o, k + b).
Proof.
  unfold in_page; cbn. intros Hp Hk Hb H1 He H2.
  pose proof (Z.div_mod o page ltac:(lia)). pose proof (Z.div_mod (o + k) page ltac:(lia)). nia.
Qed.

(** ** Well-formed free segments *)
Record free_wf (top : Z) (f : Free) : Prop := {
  fw_top : top <= U64_MAX;
  fw_positive : 0 < page_bytes f;
  fw_page : forall s, s ∈ segments f -> in_page (page_bytes f) (seg_range s);
  fw_seg : forall s, s ∈ segments f -> 0 <= s_offset s /\ 0 < s_bytes s /\ s_offset s + s_bytes s <= top;
  fw_apart : forall s t, s ∈ segments f -> t ∈ segments f -> s = t \/ apart (seg_range s) (seg_range t);
  fw_fits : forall e, e ∈ fits f -> exists s, s ∈ segments f /\ fit s = Some e;
}.

Definition covers (f : Free) (x : Z) : Prop := exists s, s ∈ segments f /\ in_range (seg_range s) x.

Lemma segment_equivalent a b : equivalent segment_lt a b = true <-> s_offset a = s_offset b.
Proof.
  unfold equivalent, segment_lt. rewrite andb_true_iff, !negb_true_iff, !Z.ltb_ge. lia.
Qed.
Lemma segment_inequivalent a b : equivalent segment_lt a b = false <-> s_offset a <> s_offset b.
Proof. rewrite <- not_true_iff_false, segment_equivalent. done. Qed.
Lemma fit_equivalent_refl e : equivalent fit_lt e e = true.
Proof. unfold equivalent, fit_lt. rewrite !Z.ltb_irrefl, !Z.eqb_refl. done. Qed.

Lemma same_offset top f s t : free_wf top f -> s ∈ segments f -> t ∈ segments f ->
  s_offset s = s_offset t -> s = t.
Proof.
  intros Hf Hs Ht E. destruct (fw_apart _ _ Hf s t Hs Ht) as [|Ha]; [done|].
  pose proof (fw_seg _ _ Hf s Hs). pose proof (fw_seg _ _ Hf t Ht). unfold apart, seg_range in Ha; cbn in Ha. lia.
Qed.

Lemma fit_inv s e : is_u64 (s_offset s) -> is_u64 (s_bytes s) -> fit s = Some e ->
  f_offset e = s_offset s /\ s_offset s <= f_aligned e /\ f_aligned e mod 256 = 0 /\
  f_usable e = s_bytes s - (f_aligned e - s_offset s) /\ 0 <= f_usable e.
Proof.
  intros Ho Hb. unfold fit. destruct (Checked.align_up _ _) as [start|] eqn:E; [|done].
  destruct (align_256 _ _ Ho E) as (? & ? & ?). unfold is_u64 in *. rewrite !(wrap64_small (start - _)) by (unfold is_u64; lia).
  destruct ((start <? s_offset s) || (s_bytes s <? start - s_offset s)) eqn:E1; [done|]. to_prop.
  intros [= <-]; cbn. rewrite wrap64_small by (unfold is_u64; lia). lia.
Qed.

Lemma elem_of_add_fit e x l : x ∈ ord_add fit_lt e l -> x = e \/ x ∈ l.
Proof.
  unfold ord_add, ord_emplace. destruct (ord_find _ _ _); [by right|]. apply elem_of_ord_insert.
Qed.

(** Inserting a range nobody covers. *)
Lemma free_insert_ok top f v : free_wf top f -> 0 <= s_offset v -> 0 <= s_bytes v ->
  s_offset v + s_bytes v <= top -> (s_bytes v = 0 \/ in_page (page_bytes f) (seg_range v)) ->
  (forall s, s ∈ segments f -> s_bytes v = 0 \/ apart (seg_range v) (seg_range s)) ->
  exists f', free_insert f v = Some f' /\ free_wf top f' /\ page_bytes f' = page_bytes f /\
    forall x, covers f' x <-> covers f x \/ in_range (seg_range v) x.
Proof.
  intros Hf Ho Hb Ht Hp Ha. unfold free_insert. destruct (Z.eqb_spec (s_bytes v) 0) as [E|E].
  { exists f. split; [done|]. split; [done|]. split; [done|]. intros x. split.
    - by left.
    - intros [?|Hx]; [done|]. unfold in_range, seg_range in Hx; cbn in Hx. lia. }
  assert (0 < s_bytes v) as Hpos by lia.
  assert (forall s, s ∈ segments f -> apart (seg_range v) (seg_range s)) as Ha' by (intros s Hs; by destruct (Ha s Hs)).
  unfold ord_emplace. destruct (ord_find segment_lt v (segments f)) as [s|] eqn:Es.
  { apply ord_find_elem in Es as [Hs Eq%segment_equivalent]. pose proof (fw_seg _ _ Hf s Hs).
    specialize (Ha' s Hs). unfold apart, seg_range in Ha'; cbn in Ha'. lia. }
  eexists. split; [done|]. split.
  - split; cbn [segments fits page_bytes].
    + apply Hf.
    + apply Hf.
    + intros s [->|Hs]%elem_of_ord_insert; [by destruct Hp | by apply Hf].
    + intros s [->|Hs]%elem_of_ord_insert; [lia | by apply Hf].
    + intros s t [->|Hs]%elem_of_ord_insert [->|Ht']%elem_of_ord_insert;
        [by left | right; by apply Ha' | right; by apply apart_sym, Ha' | by apply Hf].
    + intros e He. destruct (fit v) as [entry|] eqn:Ev.
      * apply elem_of_add_fit in He as [->|He]; [exists v; split; [apply elem_of_ord_insert; by left | done]|].
        destruct (fw_fits _ _ Hf e He) as (s & ? & ?). exists s. rewrite elem_of_ord_insert. auto.
      * destruct (fw_fits _ _ Hf e He) as (s & ? & ?). exists s. rewrite elem_of_ord_insert. auto.
  - split; [done|]. intros x. unfold covers; cbn [segments]. split.
    + intros (s & [->|Hs]%elem_of_ord_insert & Hx); [by right | left; eauto].
    + intros [(s & Hs & Hx)|Hx]; [exists s | exists v]; rewrite elem_of_ord_insert; auto.
Qed.

(** Erasing a segment. *)
Lemma free_erase_ok top f p : free_wf top f -> p ∈ segments f ->
  free_wf top (free_erase f p) /\ page_bytes (free_erase f p) = page_bytes f /\
  (forall s, s ∈ segments (free_erase f p) <-> s ∈ segments f /\ s <> p) /\
  forall x, covers f x <-> covers (free_erase f p) x \/ in_range (seg_range p) x.
Proof.
  intros Hf Hp. assert (forall s, s ∈ segments (free_erase f p) <-> s ∈ segments f /\ s <> p) as Hs.
  { intros s. unfold free_erase; cbn [segments]. rewrite elem_of_ord_erase, segment_inequivalent. split.
    - intros [? Hne]. split; [done|]. by intros ->.
    - intros [? Hne]. split; [done|]. intros E. by apply Hne, (same_offset top f). }
  split; [split|split; [done|split; [exact Hs|]]].
  - apply Hf.
  - apply Hf.
  - intros s [? _]%Hs. by apply (fw_page _ _ Hf).
  - intros s [? _]%Hs. by apply (fw_seg _ _ Hf).
  - intros s t [? _]%Hs [? _]%Hs. by apply Hf.
  - intros e He. unfold free_erase in He; cbn [fits] in He.
    assert (e ∈ fits f /\ fit p <> Some e) as [He' Hne].
    { destruct (fit p) as [entry|] eqn:E; [|done]. apply elem_of_ord_erase in He as [? Hne]. split; [done|].
      intros [= ->]. by rewrite fit_equivalent_refl in Hne. }
    destruct (fw_fits _ _ Hf e He') as (s & Hin & Efit). exists s. split; [|done]. apply Hs. split; [done|]. by intros ->.
  - intros x. unfold covers. split.
    + intros (s & Hin & Hx). destruct (decide (s_offset s = s_offset p)) as [E|E].
      * right. by rewrite <- (same_offset top f s p Hf Hin Hp E).
      * left. exists s. rewrite Hs. split; [|done]. split; [done|]. by intros ->.
    + intros [(s & [Hin _]%Hs & Hx)|Hx]; eauto.
Qed.

Lemma release_next_ok top f v : free_wf top f -> 0 <= s_offset v -> 0 < s_bytes v ->
  s_offset v + s_bytes v <= top -> in_page (page_bytes f) (seg_range v) ->
  (forall s, s ∈ segments f -> apart (seg_range v) (seg_range s)) ->
  exists f',
    match lower_bound segment_lt v (segments f) with
    | Some next =>
        if (s_offset v / page_bytes f =? s_offset next / page_bytes f) &&
           (wrap64 (s_offset v + s_bytes v) =? s_offset next)
        then match Checked.add (s_bytes v) (s_bytes next) with
             | None => None
             | Some bytes => free_insert (free_erase f next) (mk_segment (s_offset v) bytes)
             end
        else free_insert f v
    | None => free_insert f v
    end = Some f' /\ free_wf top f' /\ page_bytes f' = page_bytes f /\
    forall x, covers f' x <-> covers f x \/ in_range (seg_range v) x.
Proof.
  intros Hf Ho Hb Ht Hv Ha. pose proof (fw_positive _ _ Hf) as Hpos.
  assert (exists f', free_insert f v = Some f' /\ free_wf top f' /\ page_bytes f' = page_bytes f /\
    forall x, covers f' x <-> covers f x \/ in_range (seg_range v) x) as Hplain.
  { apply free_insert_ok; [done | lia | lia | lia | by right |]. intros s Hs. right. by apply Ha. }
  destruct (lower_bound _ _ _) as [next|] eqn:En; [|done]. case_match eqn:E; [|done].
  apply lower_bound_elem in En as [Hn _]. destruct (fw_seg _ _ Hf next Hn) as (? & ? & ?).
  pose proof (fw_top _ _ Hf). apply andb_prop in E as [Epage%Z.eqb_eq E%Z.eqb_eq].
  rewrite wrap64_small in E by (unfold is_u64; lia).
  unfold Checked.add, Checked.add_fits. destruct (Z.leb_spec (s_bytes v) (U64_MAX - s_bytes next)); [|lia]. cbn [negb].
  rewrite wrap64_small by (unfold is_u64; lia).
  destruct (free_erase_ok top f next Hf Hn) as (Hw & Hpg & Hs & Hc).
  destruct (free_insert_ok top (free_erase f next) (mk_segment (s_offset v) (s_bytes v + s_bytes next)) Hw)
    as (f' & E' & Hw' & Hpg' & Hc'); cbn [s_offset s_bytes]; [lia | lia | lia | right | |].
  { rewrite Hpg. unfold seg_range; cbn [s_offset s_bytes].
    apply in_page_join; [done | lia | lia | done | by rewrite E|]. rewrite E. by apply (fw_page _ _ Hf). }
  { intros s [Hin Hne]%Hs. right. specialize (Ha s Hin).
    destruct (fw_apart _ _ Hf s next Hin Hn) as [->|Hsn]; [done|].
    destruct (fw_seg _ _ Hf s Hin) as (? & ? & ?).
    unfold apart, seg_range in *; cbn in *. lia. }
  exists f'. split; [done|]. split; [done|]. split; [by rewrite Hpg'|]. intros x. rewrite Hc', Hc.
  unfold in_range, seg_range; cbn. split; [|intuition lia]. intros [?|?]; [tauto|].
  destruct (decide (x < s_offset v + s_bytes v)); [right; lia | left; right; lia].
Qed.

Lemma release_ok top f v : free_wf top f -> 0 <= s_offset v -> 0 < s_bytes v ->
  s_offset v + s_bytes v <= top -> in_page (page_bytes f) (seg_range v) ->
  (forall s, s ∈ segments f -> apart (seg_range v) (seg_range s)) ->
  exists f', release f v = Some f' /\ free_wf top f' /\ page_bytes f' = page_bytes f /\
    forall x, covers f' x <-> covers f x \/ in_range (seg_range v) x.
Proof.
  intros Hf Ho Hb Ht Hv Ha. pose proof (fw_top _ _ Hf). pose proof (fw_positive _ _ Hf) as Hpos. unfold release.
  unfold Checked.add_fits. destruct (Z.eqb_spec (s_bytes v) 0); [lia|].
  destruct (Z.leb_spec (s_offset v) (U64_MAX - s_bytes v)); [|lia]. cbn [negb orb].
  destruct (before segment_lt v (segments f)) as [prior|] eqn:Ep; [|by apply release_next_ok].
  destruct ((_ =? _) && _) eqn:E; [|by apply release_next_ok].
  apply before_elem in Ep as [Hp _]. destruct (fw_seg _ _ Hf prior Hp) as (? & ? & ?).
  apply andb_prop in E as [Epage%Z.eqb_eq E%Z.eqb_eq]. rewrite wrap64_small in E by (unfold is_u64; lia).
  rewrite wrap64_small by (unfold is_u64; lia).
  destruct (free_erase_ok top f prior Hf Hp) as (Hw & Hpg & Hs & Hc).
  destruct (release_next_ok top (free_erase f prior) (mk_segment (s_offset prior) (s_bytes v + s_bytes prior)) Hw)
    as (f' & E' & Hw' & Hpg' & Hc'); cbn [s_offset s_bytes]; [lia | lia | lia | | |].
  { rewrite Hpg. unfold seg_range; cbn [s_offset s_bytes]. rewrite Z.add_comm.
    apply in_page_join; [done | lia | lia | by apply (fw_page _ _ Hf) | by rewrite E | by rewrite E]. }
  { intros s [Hin Hne]%Hs. specialize (Ha s Hin).
    destruct (fw_apart _ _ Hf s prior Hin Hp) as [->|Hsn]; [done|].
    destruct (fw_seg _ _ Hf s Hin) as (? & ? & ?).
    unfold apart, seg_range in *; cbn in *. lia. }
  exists f'. split; [exact E'|]. split; [done|]. split; [by rewrite Hpg'|]. intros x. rewrite Hc', Hc.
  unfold in_range, seg_range; cbn. split; [|intuition lia]. intros [?|?]; [tauto|].
  destruct (decide (x < s_offset v)); [left; right; lia | right; lia].
Qed.

(** Taking a range never meets an inconsistent store. *)
Lemma take_free_ok top f bytes : free_wf top f -> 0 < bytes ->
  match take_free f bytes with
  | Missing => True
  | Invalid => False
  | Ready offset f' =>
      0 <= offset /\ offset + bytes <= top /\ offset mod 256 = 0 /\
      in_page (page_bytes f) (offset, bytes) /\ free_wf top f' /\
      page_bytes f' = page_bytes f /\
      (forall x, in_range (offset, bytes) x -> covers f x) /\
      forall x, covers f' x <-> covers f x /\ ~ in_range (offset, bytes) x
  end.
Proof.
  intros Hf Hb. pose proof (fw_top _ _ Hf) as Htop. pose proof (fw_positive _ _ Hf) as Hpos. unfold take_free.
  destruct (lower_bound _ _ _) as [e|] eqn:El; [|done].
  apply lower_bound_elem in El as [He Hle]. destruct (fw_fits _ _ Hf e He) as (s & Hs & Efit).
  destruct (fw_seg _ _ Hf s Hs) as (? & ? & ?).
  destruct (fit_inv s e ltac:(unfold is_u64; lia) ltac:(unfold is_u64; lia) Efit) as (Eo & ? & Hal & Eu & ?).
  assert (bytes <= f_usable e) as Hfit.
  { unfold fit_lt in Hle; cbn in Hle. apply orb_false_iff in Hle as [Hle _]. by apply Z.ltb_ge in Hle. }
  destruct (ord_find _ _ _) as [s'|] eqn:Ef.
  2:{ pose proof (ord_find_None _ _ _ Ef s Hs) as Hne. apply segment_inequivalent in Hne; cbn in Hne. lia. }
  apply ord_find_elem in Ef as [Hs' Eq]. apply segment_equivalent in Eq; cbn in Eq.
  assert (s' = s) as -> by (apply (same_offset top f); [done..|lia]).
  destruct (free_erase_ok top f s Hf Hs) as (Hw & Hpg & Hsg & Hc).
  rewrite !(wrap64_small (f_aligned e - s_offset s)) by (unfold is_u64; lia).
  rewrite (wrap64_small (s_bytes s - _)) by (unfold is_u64; lia).
  rewrite (wrap64_small (_ - bytes)) by (unfold is_u64; lia).
  rewrite (wrap64_small (f_aligned e + bytes)) by (unfold is_u64; lia).
  pose proof (fw_page _ _ Hf s Hs) as Hpage. unfold seg_range in Hpage.
  assert (in_page (page_bytes f) (f_aligned e, bytes)) as Htaken.
  { replace (f_aligned e) with (s_offset s + (f_aligned e - s_offset s)) by lia.
    apply in_page_part; [done | lia | lia |]. unfold in_page in *; cbn in *. lia. }
  assert (forall t, t ∈ segments (free_erase f s) -> apart (seg_range s) (seg_range t)) as Hother.
  { intros t [Ht Hne]%Hsg. destruct (fw_apart _ _ Hf s t Hs Ht) as [->|]; [done|done]. }
  destruct (free_insert_ok top (free_erase f s) (mk_segment (s_offset s) (f_aligned e - s_offset s)) Hw)
    as (f1 & -> & Hw1 & Hpg1 & Hc1); cbn [s_offset s_bytes]; [lia | lia | lia | | |].
  { right. rewrite Hpg. unfold in_page, seg_range in *; cbn in *. lia. }
  { intros t Ht. specialize (Hother t Ht). destruct (Hsg t) as [[Hin _] _]; [done|].
    destruct (fw_seg _ _ Hf t Hin) as (? & ? & ?). unfold apart, seg_range in *; cbn in *. lia. }
  destruct (free_insert_ok top f1 (mk_segment (f_aligned e + bytes) (s_bytes s - (f_aligned e - s_offset s) - bytes)) Hw1)
    as (f2 & -> & Hw2 & Hpg2 & Hc2); cbn [s_offset s_bytes]; [lia | lia | lia | | |].
  { destruct (decide (s_bytes s - (f_aligned e - s_offset s) - bytes = 0)) as [->|]; [by left|]. right.
    rewrite Hpg1, Hpg. unfold seg_range; cbn [s_offset s_bytes].
    replace (f_aligned e + bytes) with (s_offset s + (f_aligned e - s_offset s + bytes)) by lia.
    apply in_page_part; [done | lia | lia |]. unfold in_page in *; cbn in *. lia. }
  { intros t Ht. destruct (fw_seg _ _ Hw1 t Ht) as (? & ? & ?).
    destruct (decide (s_bytes s - (f_aligned e - s_offset s) - bytes = 0)) as [->|]; [by left|]. right.
    destruct (decide (s_offset t + s_bytes t <= f_aligned e + bytes)); [unfold apart, seg_range; cbn; lia|].
    destruct (decide (s_offset s + s_bytes s <= s_offset t)); [unfold apart, seg_range; cbn; lia|].
    exfalso. set (x := Z.max (s_offset t) (f_aligned e + bytes)).
    assert (covers f1 x) as Hx by (exists t; split; [done | unfold in_range, seg_range, x; cbn; lia]).
    apply Hc1 in Hx as [(u & Hu & Hx)|Hx]; [|unfold in_range, seg_range, x in Hx; cbn in Hx; lia].
    specialize (Hother u Hu). unfold apart, in_range, seg_range, x in *; cbn in *. lia. }
  split; [lia|]. split; [lia|]. split; [done|]. split; [done|]. split; [done|]. split; [by rewrite Hpg2, Hpg1|]. split.
  - intros x Hx. exists s. split; [done|]. unfold in_range, seg_range in *; cbn in *. lia.
  - intros x. rewrite Hc2, Hc1, Hc. unfold in_range, seg_range; cbn. split.
    + intros [[(u & Hu & Hx)|?]|?]; [|split; [right|]; lia..]. split; [left; by exists u|].
      specialize (Hother u Hu). unfold apart, in_range, seg_range in *; cbn in *. lia.
    + intros [[?|?] ?]; [tauto|]. destruct (decide (x < f_aligned e)); [left; right; lia | right; lia].
Qed.

(** ** The place above the top *)
Lemma grow_ordinary_ok top bytes page : 0 <= top <= U64_MAX -> 0 < bytes <= page -> page mod 256 = 0 ->
  page <= U64_MAX ->
  match grow_ordinary top bytes page with
  | Some (offset, top') =>
      top <= offset /\ top' = offset + bytes /\ top' <= U64_MAX /\ offset mod 256 = 0 /\
      in_page page (offset, bytes) /\ forall k, top <= page * k -> top' <= page * (k + 1)
  | None => forall k, top <= page * k -> U64_MAX < page * (k + 1)
  end.
Proof.
  intros Ht Hb Hm Hpage. unfold grow_ordinary.
  pose proof (Z.div_mod top page ltac:(lia)) as Hd. pose proof (Z.mod_pos_bound top page ltac:(lia)) as Hr.
  pose proof (Z.div_mod page 256 ltac:(lia)) as Hd256. rewrite Hm in Hd256.
  set (q := top / page) in *. set (r := top mod page) in *. set (p256 := page / 256) in *.
  set (next := if r =? 0 then Some top else Checked.add top (wrap64 (page - r))).
  assert (match next with
    | Some o => top <= o /\ o mod page = 0 /\ o mod 256 = 0 /\ forall k, top <= page * k -> o <= page * k
    | None => forall k, top <= page * k -> U64_MAX < page * k end) as Hnext.
  { unfold next. destruct (Z.eqb_spec r 0) as [E|E].
    - repeat split; [lia | done | | lia]. apply Z.mod_divide; [lia|]. exists (p256 * q). lia.
    - rewrite wrap64_small by (unfold is_u64; lia).
      assert (forall k, top <= page * k -> page * (q + 1) <= page * k) as Hk.
      { intros k Hk. apply Z.mul_le_mono_nonneg_l; [lia|]. assert (q < k); [|lia]. nia. }
      unfold Checked.add, Checked.add_fits. destruct (Z.leb_spec top (U64_MAX - (page - r))); cbn [negb].
      + rewrite wrap64_small by (unfold is_u64; lia). replace (top + (page - r)) with (page * (q + 1)) by lia.
        repeat split; [lia | rewrite Z.mul_comm; apply Z.mod_mul; lia | | done].
        apply Z.mod_divide; [lia|]. exists (p256 * (q + 1)). lia.
      + intros k ?. specialize (Hk k ltac:(done)). lia. }
  assert (match next with
    | Some o => match Checked.add o bytes with None => None | Some top => Some (o, top) end
    | None => None end = match next with
    | Some o => if o <=? U64_MAX - bytes then Some (o, o + bytes) else None | None => None end) as Enext.
  { destruct next as [o|]; [|done]. unfold Checked.add, Checked.add_fits.
    destruct (Z.leb_spec o (U64_MAX - bytes)); [|done]. cbn. rewrite wrap64_small by (unfold is_u64; lia). done. }
  destruct (Checked.align_up top Alignment) as [o|] eqn:Ea.
  2:{ rewrite Enext. destruct next as [o|]; [|intros k Hk; specialize (Hnext k Hk); nia].
      destruct Hnext as (? & Hmod & ? & Hk). destruct (Z.leb_spec o (U64_MAX - bytes)).
      - repeat split; [lia | lia | done | unfold in_page; cbn; lia |]. intros k Hk0. specialize (Hk k Hk0). lia.
      - intros k H'. specialize (Hk k H'). lia. }
  destruct (align_256 top o ltac:(unfold is_u64; lia) Ea) as (? & Hmod & ?).
  pose proof (Z.mod_pos_bound o page ltac:(lia)) as Ho. rewrite (wrap64_small (page - o mod page)) by (unfold is_u64; lia).
  destruct ((page <? bytes) || _) eqn:E.
  - rewrite Enext. destruct next as [o'|]; [|intros k Hk; specialize (Hnext k Hk); nia].
    destruct Hnext as (? & Hmod' & ? & Hk). destruct (Z.leb_spec o' (U64_MAX - bytes)).
    + repeat split; [lia | lia | done | unfold in_page; cbn; lia |]. intros k H'. specialize (Hk k H'). lia.
    + intros k H'. specialize (Hk k H'). lia.
  - to_prop. assert (forall k, top <= page * k -> o <= page * k) as Hk.
    { intros k Hk. pose proof (Z.div_mod o 256 ltac:(lia)) as Do. rewrite Hmod in Do.
      assert (page * k = 256 * (p256 * k)) as Ek by (rewrite Hd256; ring). lia. }
    unfold Checked.add, Checked.add_fits. destruct (Z.leb_spec o (U64_MAX - bytes)); cbn [negb].
    + rewrite wrap64_small by (unfold is_u64; lia).
      repeat split; [lia | lia | done | unfold in_page; cbn; lia |]. intros k H'. specialize (Hk k H'). lia.
    + intros k H'. specialize (Hk k H'). lia.
Qed.
