(* ===== verification/OrdinaryFacts.v ===== *)
(** * OrdinaryFacts: the ordinary arena refines the placement system

    Every iteration of [place_ordinary] is a run of [Placement.step], with the held
    places those of the active resources that were not written over. *)

From stdpp Require Import base numbers list option.
From Stdlib Require Import ZArith Lia.
From S2P Require Import Prelude Checked Ordered MemoryModel MemoryArena PlanMemory MemoryArenaFacts.

Section Input.
Context (resources : list Resource) (lifetimes : list Lifetime) (destructive : bool).

Definition bytes_of (id : Z) : Z := from_option g_bytes 0 (zget resources (slot id)).
Definition source_of (id : Z) : Z :=
  if destructive then from_option g_source 0 (zget resources (slot id)) else 0.
Definition first_of (id : Z) : Z := from_option l_first 0 (zget lifetimes (slot id)).
Definition last_of (id : Z) : Z := from_option l_last 0 (zget lifetimes (slot id)).

(** What the packing relies on: distinct resources in the order of their first use,
    whose sources are last used where the resource is first used. *)
Record arena_ids (ids : list Z) : Prop := {
  ai_nodup : NoDup ids;
  ai_range : forall id, id ∈ ids -> 1 <= id <= zlen resources;
  ai_size : zlen resources <= U32_MAX;
  ai_lifetimes : zlen lifetimes = zlen resources;
  ai_bytes : forall id, id ∈ ids -> 0 < bytes_of id <= U64_MAX;
  ai_life : forall id, id ∈ ids -> 0 <= first_of id <= last_of id;
  ai_sorted : forall d x rest y, ids = d ++ x :: rest -> y ∈ d -> first_of y <= first_of x;
  ai_source : forall id, id ∈ ids -> source_of id <> 0 ->
    source_of id ∈ ids /\ last_of (source_of id) = first_of id /\
    first_of (source_of id) < first_of id /\ bytes_of (source_of id) = bytes_of id;
  ai_unique : forall x y, x ∈ ids -> y ∈ ids -> source_of x <> 0 -> source_of x = source_of y -> x = y;
}.

Lemma slot_small id : 1 <= id <= U32_MAX -> slot id = id - 1.
Proof. intros H. unfold slot. apply wrap32_small. unfold is_u32. lia. Qed.

Context {ids : list Z} (Hids : arena_ids ids).

Lemma slot_ids id : id ∈ ids -> slot id = id - 1 /\ 0 <= slot id < zlen resources.
Proof using Hids.
  intros H. pose proof (ai_range _ Hids id H). pose proof (ai_size _ Hids).
  rewrite slot_small by lia. lia.
Qed.

Lemma slot_inj x y : x ∈ ids -> y ∈ ids -> slot x = slot y -> x = y.
Proof using Hids. intros [E1 _]%slot_ids [E2 _]%slot_ids. lia. Qed.

Lemma get_value id : id ∈ ids -> exists v, zget resources (slot id) = Some v /\
  bytes_of id = g_bytes v /\ source_of id = if destructive then g_source v else 0.
Proof using Hids.
  intros H. destruct (slot_ids id H) as [_ Hs]. destruct (zget_is_Some resources _ Hs) as [v E].
  exists v. unfold bytes_of, source_of. by rewrite E.
Qed.

Lemma get_lifetime id : id ∈ ids -> exists l, zget lifetimes (slot id) = Some l /\
  first_of id = l_first l /\ last_of id = l_last l.
Proof using Hids.
  intros H. destruct (slot_ids id H) as [_ Hs]. rewrite <- (ai_lifetimes _ Hids) in Hs.
  destruct (zget_is_Some lifetimes _ Hs) as [l E]. exists l. unfold first_of, last_of. by rewrite E.
Qed.

(** The source of the next resource is placed, and held. *)
Lemma source_before d x rest : ids = d ++ x :: rest -> source_of x <> 0 -> source_of x ∈ d.
Proof using Hids.
  intros E Hs. assert (x ∈ ids) as Hx by (rewrite E, elem_of_app; right; by left).
  destruct (ai_source _ Hids x Hx Hs) as (Hin & Hl & Hf & _). pose proof Hin as Hin'.
  rewrite E in Hin. apply elem_of_app in Hin as [|Hin]; [done|]. apply elem_of_cons in Hin as [Hin|Hin].
  - rewrite Hin in Hf. lia.
  - apply list_elem_of_split in Hin as (r1 & r2 & ->).
    pose proof (ai_sorted _ Hids (d ++ x :: r1) (source_of x) r2 x) as Hle.
    rewrite E, <- app_assoc in Hle. cbn in Hle. specialize (Hle eq_refl). rewrite elem_of_app, elem_of_cons in Hle.
    specialize (Hle (or_intror (or_introl eq_refl))). lia.
Qed.

Section Plan.
Context {P : Type} (Apart : P -> P -> Prop) (Sym : forall p q, Apart p q -> Apart q p).
Abbreviation Reachable := (reachable Apart first_of last_of source_of).

Lemma source_held (s : plan (P := P)) d x rest : Reachable s -> ids = d ++ x :: rest ->
  (forall y, y ∈ placed s <-> y ∈ d) -> now s = first_of x -> source_of x <> 0 -> source_of x ∈ held s.
Proof using Hids Sym.
  intros Hs E Hp Hn Hx. pose proof (source_before d x rest E Hx) as Hd. apply Hp in Hd.
  assert (x ∈ ids) as Hxin by (rewrite E, elem_of_app; right; by left).
  destruct (ai_source _ Hids x Hxin Hx) as (Hin & Hl & Hf & _).
  destruct (reachable_inv _ _ _ _ Sym s Hs) as [Hheld _ _ Hgone _].
  destruct (decide (source_of x ∈ held s)) as [|Hout]; [done|].
  destruct (Hgone _ Hd Hout) as [|(_ & _ & z & Hz & Hfz & Hsz & _)]; [lia|].
  assert (z ∈ d) as Hzd by (by apply Hp, Hheld).
  assert (z ∈ ids) as Hzin by (rewrite E, elem_of_app; by left).
  assert (x = z) as <- by (by apply (ai_unique _ Hids)).
  pose proof (ai_nodup _ Hids) as Hnd. rewrite E in Hnd. apply list.NoDup_app in Hnd as (_ & Hnd & _).
  exfalso. apply (Hnd x Hzd). by left.
Qed.
End Plan.

(** ** The simulation *)
Abbreviation Plan := (plan (P := Z * Z)).
Abbreviation Reach := (reachable apart first_of last_of source_of).

Record ord_rel (page : Z) (d : list Z) (st : Ordinary) (s : Plan) : Prop := {
  or_reach : Reach s;
  or_placed : forall y, y ∈ placed s <-> y ∈ d;
  or_place : forall y, y ∈ d -> exists o, zget (o_offsets st) (slot y) = Some o /\ place s y = (o, bytes_of y) /\
    0 <= o /\ o + bytes_of y <= o_top st /\ o mod 256 = 0 /\ in_page page (o, bytes_of y);
  or_active : forall a, a ∈ o_active st -> act_id a ∈ d /\ act_last a = last_of (act_id a) /\
    place s (act_id a) = (act_offset a, act_bytes a);
  or_nodup : NoDup (map act_id (o_active st));
  or_held : forall y, y ∈ held s <-> y ∈ map act_id (o_active st) /\ zget (o_consumed st) (slot y) = Some false;
  or_free : free_wf (o_top st) (o_free st);
  or_page : page_bytes (o_free st) = page;
  or_apart : forall y x, y ∈ held s -> in_range (place s y) x -> ~ covers (o_free st) x;
  or_lengths : zlen (o_offsets st) = zlen resources /\ zlen (o_consumed st) = zlen resources;
  or_top : 0 <= o_top st <= page * zlen d;
  or_fresh : forall y, y ∈ ids -> y ∉ d -> zget (o_consumed st) (slot y) = Some false;
}.

(** Ranges that share no byte are apart. *)
Lemma apart_points p q : 0 < p.2 -> 0 < q.2 -> (forall x, in_range p x -> ~ in_range q x) -> apart p q.
Proof using.
  unfold apart, in_range. intros Hp Hq H. destruct (decide (p.1 + p.2 <= q.1)); [by left|].
  destruct (decide (q.1 + q.2 <= p.1)); [by right|]. exfalso. apply (H (Z.max p.1 q.1)); lia.
Qed.

Lemma map_id_in (a : Active) l : a ∈ l -> act_id a ∈ map act_id l.
Proof using. intros H. apply list_elem_of_In, in_map, list_elem_of_In, H. Qed.

(** The expired resources give up their places. *)
Lemma expire_ordinary_ok page d st s x : ord_rel page d st s -> now s = first_of x ->
  (forall y, y ∈ d -> y ∈ ids) ->
  exists active free s',
    while_loop (S (length (o_active st)))
      (fun '(active, _) => match active with a :: _ => act_last a <? first_of x | [] => false end)
      (expire_ordinary (o_consumed st)) (o_active st, o_free st) = Some (Next (active, free)) /\
    now s' = first_of x /\
    ord_rel page d (mk_ordinary active free (o_consumed st) (o_offsets st) (o_top st)) s'.
Proof using Hids.
  intros Hrel Hnow Hd.
  destruct (while_loop_total (R := option (list Z * Z)) (fun '(active, free) => exists s', now s' = first_of x /\
      ord_rel page d (mk_ordinary active free (o_consumed st) (o_offsets st) (o_top st)) s')
    (fun '(active, _) => zlen active)
    (fun '(active, _) => match active with a :: _ => act_last a <? first_of x | [] => false end)
    (expire_ordinary (o_consumed st)) (S (length (o_active st))) (o_active st, o_free st))
    as ([active free] & E & (s' & Hn & Hr) & _).
  - exists s. split; [done|]. by destruct st.
  - intros [active free] (s1 & Hn & Hr) Hc. destruct active as [|a active]; [done|]. apply Z.ltb_lt in Hc.
    destruct Hr as [Hreach Hpl Hplace Hact Hnd Hheld Hfree Hpg Hap Hlen Htop Hfresh]. cbn [o_active o_free o_consumed o_offsets o_top] in *.
    destruct (Hact a ltac:(by left)) as (Had & Hlast & Hpa). pose proof (Hd _ Had) as Hain.
    destruct (slot_ids _ Hain) as [_ Hslot]. destruct Hlen as [Hlo Hlc]. rewrite <- Hlc in Hslot.
    destruct (zget_is_Some _ _ Hslot) as [skip Eskip]. cbn [expire_ordinary]. rewrite Eskip. cbn [mbind option_bind].
    cbn [map] in Hnd. apply list.NoDup_cons in Hnd as [Hnotin Hnd].
    assert (forall b, b ∈ active -> act_id b ∈ d /\ act_last b = last_of (act_id b) /\
      place s1 (act_id b) = (act_offset b, act_bytes b)) as Hact' by (intros b Hb; apply Hact; by right).
    destruct skip.
    + exists (active, free). split; [done|]. split; [|rewrite zlen_cons; pose proof (zlen_nonneg active); lia].
      exists s1. split; [done|]. split; try done.
      intros y. rewrite Hheld. cbn [map o_active]. rewrite elem_of_cons. split; [|tauto].
      intros [[->|?] Hc']; [congruence|done].
    + destruct (Hplace _ Had) as (o & Eo & Epl & Ho0 & Hot & Hom & Hop). rewrite Hpa in Epl. injection Epl as Eao Eab.
      pose proof (ai_bytes _ Hids _ Hain) as Hb.
      assert (act_id a ∈ held s1) as Hah by (apply Hheld; split; [by left | done]).
      destruct (release_ok (o_top st) free (mk_segment (act_offset a) (act_bytes a)) Hfree) as (f' & -> & Hw & Hpg' & Hcov);
        cbn [s_offset s_bytes].
      { lia. } { lia. } { lia. } { unfold seg_range; cbn. by rewrite Hpg, Eao, Eab. }
      { intros t Ht. apply apart_points; cbn; [lia | apply (fw_seg _ _ Hfree t Ht) |]. intros z Hz Hzt.
        apply (Hap (act_id a) z Hah); [by rewrite Hpa | by exists t]. }
      exists (active, f'). split; [done|]. split; [|rewrite zlen_cons; pose proof (zlen_nonneg active); lia].
      exists (mk_plan (now s1) (placed s1) (hand_back (act_id a) (held s1)) (place s1)). split; [done|].
      assert (forall y, y ∈ hand_back (act_id a) (held s1) <->
        y ∈ map act_id active /\ zget (o_consumed st) (slot y) = Some false) as Hheld'.
      { intros y. rewrite elem_of_hand_back, Hheld. cbn [map]. rewrite elem_of_cons. split; [tauto|].
        intros [Hy ?]. split; [tauto|]. by intros ->. }
      split; cbn [now placed held place o_active o_free o_consumed o_offsets o_top]; try done.
      * eapply reach_step; [exact Hreach|]. apply step_expire. lia.
      * by rewrite Hpg'.
      * intros y z Hy Hz. rewrite Hcov. pose proof Hy as [Hyh Hne]%elem_of_hand_back.
        intros [Hc'|Hc']; [by eapply Hap|].
        pose proof (inv_apart _ _ _ _ _ (reachable_inv _ _ _ _ apart_sym s1 Hreach) y (act_id a) Hyh Hah Hne) as Hya.
        rewrite Hpa in Hya. unfold in_range, seg_range, apart in *; cbn in *. lia.
  - cbn. unfold zlen. lia.
  - exists active, free, s'. done.
Qed.

(** The next resource with its place. *)
Lemma ord_rel_place page d x rest active free consumed offsets top s2 free' consumed' offset top' s3 :
  ids = d ++ x :: rest -> ord_rel page d (mk_ordinary active free consumed offsets top) s2 ->
  step apart first_of last_of source_of s2 s3 -> placed s3 = x :: placed s2 ->
  place s3 = put (place s2) x (offset, bytes_of x) ->
  (forall y, y ∈ held s3 <-> y = x \/ (y ∈ held s2 /\ zget consumed' (slot y) = Some false)) ->
  zlen consumed' = zlen resources ->
  (forall y, y ∈ d -> zget consumed' (slot y) = Some false -> zget consumed (slot y) = Some false) ->
  (forall y, y ∈ ids -> y ∉ d -> zget consumed' (slot y) = Some false) ->
  free_wf top' free' -> page_bytes free' = page ->
  (forall y z, y ∈ held s3 -> in_range (place s3 y) z -> ~ covers free' z) ->
  top <= top' <= page * (zlen d + 1) -> 0 <= offset -> offset + bytes_of x <= top' -> offset mod 256 = 0 ->
  in_page page (offset, bytes_of x) ->
  exists offsets', zset offsets (slot x) offset = Some offsets' /\
    ord_rel page (d ++ [x])
      (mk_ordinary (ord_insert active_lt (mk_active (last_of x) x offset (bytes_of x)) active) free' consumed' offsets' top') s3.
Proof using Hids.
  intros E [Hreach Hpl Hplace Hact Hnd Hheld Hfree Hpg Hap [Hlo Hlc] Htop Hfresh] Hstep Epl Eput Hh3 Hlc' Hc Hf' Hfw Hpg' Hap'
    Htop' Ho0 Hot Hom Hop. cbn [o_active o_free o_consumed o_offsets o_top] in *.
  assert (x ∈ ids) as Hx by (rewrite E, elem_of_app; right; by left).
  assert (forall y, y ∈ d -> y ∈ ids) as Hd by (intros y Hy; rewrite E, elem_of_app; by left).
  assert (x ∉ d) as Hxd.
  { intros Hxd. pose proof (ai_nodup _ Hids) as Hn. rewrite E in Hn. apply list.NoDup_app in Hn as (_ & Hn & _).
    apply (Hn x Hxd). by left. }
  assert (forall y, y ∈ d -> y <> x) as Hne by (by intros y Hy ->).
  destruct (slot_ids x Hx) as [_ Hs]. assert (0 <= slot x < zlen offsets) as Hs' by lia.
  exists (<[Z.to_nat (slot x) := offset]> offsets). split; [by apply zset_Some|].
  assert (forall y, y ∈ d -> zget (<[Z.to_nat (slot x) := offset]> offsets) (slot y) = zget offsets (slot y)) as Hget.
  { intros y Hy. apply zget_insert_ne; [lia|]. intros Es. by apply (Hne y Hy), slot_inj; [apply Hd| |]. }
  assert (map act_id (ord_insert active_lt (mk_active (last_of x) x offset (bytes_of x)) active) ≡ₚ x :: map act_id active) as Hperm.
  { by rewrite ord_insert_perm. }
  assert (forall y, y ∈ map act_id active -> y ∈ d) as Hactd.
  { intros y Hy. apply list_elem_of_In, in_map_iff in Hy as (a & <- & Ha). apply Hact, list_elem_of_In, Ha. }
  split; cbn [o_active o_free o_consumed o_offsets o_top].
  - by eapply reach_step.
  - intros y. rewrite Epl, elem_of_cons, Hpl, elem_of_app, list_elem_of_singleton. tauto.
  - intros y Hy. rewrite Eput. apply elem_of_app in Hy as [Hy|Hy].
    + destruct (Hplace y Hy) as (o & ? & ? & ? & ? & ? & ?). exists o. rewrite Hget, put_ne by auto.
      repeat split; [done..| lia | done | done].
    + apply list_elem_of_singleton in Hy as ->. exists offset. rewrite zget_insert_eq, put_eq by done. done.
  - intros a [->|Ha]%elem_of_ord_insert; cbn [act_id act_last act_offset act_bytes].
    + rewrite elem_of_app, list_elem_of_singleton, Eput, put_eq. split; [by right | done].
    + destruct (Hact a Ha) as (? & ? & ?). rewrite elem_of_app, Eput, put_ne by auto. split; [by left | done].
  - rewrite Hperm. apply list.NoDup_cons. split; [|done]. intros H. by apply Hxd, Hactd.
  - intros y. rewrite Hh3, Hperm, elem_of_cons, Hheld. split.
    + intros [->|[[Hy _] Hc']]; [split; [by left | by apply Hf'] | split; [by right | done]].
    + intros [[->|Hy] Hc']; [by left | right]. split; [|done]. split; [done | by apply Hc; [apply Hactd|]].
  - done.
  - done.
  - done.
  - rewrite zlen_insert. done.
  - rewrite zlen_app. change (zlen [x]) with 1. lia.
  - intros y Hy Hn. apply Hf'; [done|]. intros ?. apply Hn, elem_of_app. by left.
Qed.

(** An iteration of the loop. *)
Lemma place_one_ok page d x rest st s : ids = d ++ x :: rest -> ord_rel page d st s -> now s <= first_of x ->
  256 <= page <= U64_MAX -> page mod 256 = 0 -> bytes_of x <= page ->
  (place_one resources lifetimes page destructive st x = Some (Return None) /\ U64_MAX < page * (zlen d + 1)) \/
  exists st' s', place_one resources lifetimes page destructive st x = Some (Next st') /\
    ord_rel page (d ++ [x]) st' s' /\ now s' = first_of x.
Proof using Hids.
  intros E Hrel Hnow Hpage Hmod Hbx.
  assert (x ∈ ids) as Hx by (rewrite E, elem_of_app; right; by left).
  assert (forall y, y ∈ d -> y ∈ ids) as Hd by (intros y Hy; rewrite E, elem_of_app; by left).
  destruct (get_value x Hx) as (v & Ev & Eb & Es). destruct (get_lifetime x Hx) as (l & El & Ef & Ela).
  assert (ord_rel page d st (mk_plan (first_of x) (placed s) (held s) (place s))) as Hrel1.
  { destruct Hrel. split; try done. eapply reach_step; [done | by apply step_advance]. }
  destruct (expire_ordinary_ok page d st _ x Hrel1 eq_refl Hd) as (active & free & s2 & Ew & Hn2 & Hrel2).
  unfold place_one. rewrite Ev, El. cbn [mbind option_bind]. rewrite <- Ef, Ew. cbn [mbind option_bind].
  pose proof Hrel2 as [Hreach Hpl Hplace Hact Hnd Hheld Hfree Hpg Hap [Hlo Hlc] Htop Hfresh].
  cbn [o_active o_free o_consumed o_offsets o_top] in *.
  pose proof (ai_bytes _ Hids x Hx) as Hb. destruct (ai_life _ Hids x Hx) as [_ Hlife].
  assert (x ∉ placed s2) as Hxp.
  { rewrite Hpl. intros Hxd. pose proof (ai_nodup _ Hids) as Hn. rewrite E in Hn.
    apply list.NoDup_app in Hn as (_ & Hn & _). apply (Hn x Hxd). by left. }
  assert (x ∉ d) as Hxd by (by rewrite <- Hpl).
  assert (forall y, y ∈ held s2 -> y ∈ d) as Hheldd.
  { intros y Hy. apply Hpl. by apply (inv_held _ _ _ _ _ (reachable_inv _ _ _ _ apart_sym s2 Hreach)). }
  destruct (destructive && negb (g_source v =? 0)) eqn:Er.
  - apply andb_prop in Er as [Edes Esrc]. apply negb_true_iff, Z.eqb_neq in Esrc. rewrite Edes in Es.
    rewrite <- Es in *. assert (source_of x ∈ held s2) as Hsh.
    { eapply (source_held apart apart_sym); [done | exact E | done | done | exact Esrc]. }
    destruct (ai_source _ Hids x Hx Esrc) as (Hsin & Hsl & Hsf & Hsb).
    pose proof (Hheldd _ Hsh) as Hsd. destruct (Hplace _ Hsd) as (o & Eo & Epl & Ho0 & Hot & Hom & Hop).
    destruct (slot_ids _ Hsin) as [_ Hslot]. rewrite Eo. cbn [mbind option_bind].
    rewrite (zset_Some (o_consumed st) (slot (source_of x)) true) by lia. cbn [mbind option_bind].
    set (s3 := mk_plan (now s2) (x :: placed s2) (x :: hand_back (source_of x) (held s2)) (put (place s2) x (place s2 (source_of x)))).
    assert (forall y, y ∈ ids -> y <> source_of x ->
      zget (<[Z.to_nat (slot (source_of x)) := true]> (o_consumed st)) (slot y) = zget (o_consumed st) (slot y)) as Hcne.
    { intros y Hy Hne. apply zget_insert_ne; [lia|]. intros Es'. by apply Hne, slot_inj. }
    assert (zget (<[Z.to_nat (slot (source_of x)) := true]> (o_consumed st)) (slot (source_of x)) = Some true) as Hceq.
    { apply zget_insert_eq. lia. }
    right. destruct (ord_rel_place page d x rest active free (o_consumed st) (o_offsets st) (o_top st) s2 free
      (<[Z.to_nat (slot (source_of x)) := true]> (o_consumed st)) o (o_top st) s3) as (offsets' & Eo' & Hrel3).
    { done. } { done. } { apply step_reuse; [done | lia | lia | done | lia | lia]. } { done. }
    { unfold s3; cbn [place]. by rewrite Epl, Hsb. }
    { intros y. unfold s3; cbn [held]. rewrite elem_of_cons, elem_of_hand_back. split.
      - intros [->|[Hy Hne]]; [by left|]. right. split; [done|]. rewrite Hcne by auto. by apply Hheld.
      - intros [->|[Hy Hc]]; [by left|]. right. split; [done|]. intros ->. by rewrite Hceq in Hc. }
    { by rewrite zlen_insert. }
    { intros y Hy Hc. destruct (decide (y = source_of x)) as [->|]; [by rewrite Hceq in Hc|]. by rewrite <- Hcne by auto. }
    { intros y Hy Hyd. rewrite Hcne; [by apply Hfresh | done |]. by intros ->. }
    { done. } { done. }
    { intros y z Hy. unfold s3; cbn [place]. unfold s3 in Hy; cbn [held] in Hy.
      apply elem_of_cons in Hy as [->|[Hy _]%elem_of_hand_back]; [rewrite put_eq; by apply Hap|].
      rewrite put_ne by (by intros ->; auto). by apply Hap. }
    { pose proof (zlen_nonneg d). lia. } { done. } { lia. } { done. } { by rewrite <- Hsb. }
    exists (mk_ordinary (ord_insert active_lt (mk_active (last_of x) x o (bytes_of x)) active) free
      (<[Z.to_nat (slot (source_of x)) := true]> (o_consumed st)) offsets' (o_top st)), s3.
    rewrite Eo'. cbn [mbind option_bind]. rewrite <- Ela, <- Eb. split; [done|]. split; [done|]. exact Hn2.
  - cbn [mbind option_bind]. assert (forall free' offset top', step apart first_of last_of source_of s2
        (mk_plan (now s2) (x :: placed s2) (x :: held s2) (put (place s2) x (offset, bytes_of x))) ->
      free_wf top' free' -> page_bytes free' = page ->
      (forall y z, y ∈ held s2 -> in_range (place s2 y) z -> ~ covers free' z) ->
      (forall z, in_range (offset, bytes_of x) z -> ~ covers free' z) ->
      o_top st <= top' <= page * (zlen d + 1) -> 0 <= offset -> offset + bytes_of x <= top' -> offset mod 256 = 0 ->
      in_page page (offset, bytes_of x) ->
      exists st' s', (offsets ← zset (o_offsets st) (slot x) offset;
          Some (Next (R := option (list Z * Z)) (mk_ordinary
            (ord_insert active_lt (mk_active (l_last l) x offset (g_bytes v)) active) free' (o_consumed st) offsets top')))
        = Some (Next st') /\ ord_rel page (d ++ [x]) st' s' /\ now s' = first_of x) as Hfin.
    { intros free' offset top' Hstep Hfw Hpg' Hh Hn Htop' Ho0 Hot Hom Hop.
      destruct (ord_rel_place page d x rest active free (o_consumed st) (o_offsets st) (o_top st) s2 free' (o_consumed st)
        offset top' _ E Hrel2 Hstep) as (offsets' & Eo' & Hrel3); try done.
      { intros y. cbn [held]. rewrite elem_of_cons. split; [|tauto]. intros [->|Hy]; [by left|]. right. split; [done|]. by apply Hheld. }
      { intros y z. cbn [held place]. intros [->|Hy]%elem_of_cons; [rewrite put_eq; apply Hn|].
        rewrite put_ne by (by intros ->; auto). by apply Hh. }
      rewrite <- Ela, <- Eb, Eo'. cbn [mbind option_bind]. do 2 eexists. split; [done|]. split; [exact Hrel3|]. exact Hn2. }
    assert (forall offset, (forall y, y ∈ held s2 -> apart (offset, bytes_of x) (place s2 y)) ->
      step apart first_of last_of source_of s2
        (mk_plan (now s2) (x :: placed s2) (x :: held s2) (put (place s2) x (offset, bytes_of x)))) as Hstep.
    { intros offset Hoff. apply step_fresh; [done | lia | lia | done]. }
    assert (forall y, y ∈ held s2 -> 0 < (place s2 y).2 /\ 0 <= (place s2 y).1 /\
      (place s2 y).1 + (place s2 y).2 <= o_top st) as Hhp.
    { intros y Hy%Hheldd. destruct (Hplace y Hy) as (o & _ & -> & ? & ? & _). cbn [fst snd].
      pose proof (ai_bytes _ Hids y (Hd y Hy)). lia. }
    pose proof (take_free_ok (o_top st) free (bytes_of x) Hfree ltac:(lia)) as Htake. rewrite <- Eb.
    rewrite <- Eb in Hfin. destruct (take_free free (bytes_of x)) as [|offset free'|]; [| |done].
    + pose proof (fw_top _ _ Hfree) as Hmax.
      pose proof (grow_ordinary_ok (o_top st) (bytes_of x) page ltac:(lia) ltac:(lia) Hmod ltac:(lia)) as Hgrow.
      destruct (grow_ordinary _ _ _) as [[offset top']|].
      * right. destruct Hgrow as (? & -> & ? & ? & ? & Hk). apply Hfin; try done; try lia.
        -- apply Hstep. intros y Hy. destruct (Hhp y Hy) as (? & ? & ?). unfold apart; cbn. lia.
        -- destruct Hfree as [F1 F2 F3 F4 F5 F6]. split; try done. intros t Ht. destruct (F4 t Ht) as (? & ? & ?). lia.
        -- intros z Hz (t & Ht & Hzt). destruct (fw_seg _ _ Hfree t Ht) as (? & ? & ?).
           unfold in_range, seg_range in *; cbn in *. lia.
        -- specialize (Hk (zlen d) ltac:(lia)). lia.
      * left. split; [done|]. apply Hgrow. lia.
    + right. destruct Htake as (? & ? & ? & Hip & Hfw & Hpg' & Hsub & Hcov). rewrite Hpg in Hip.
      apply Hfin; try done; try lia.
      * apply Hstep. intros y Hy. destruct (Hhp y Hy) as (? & _). apply apart_points; [cbn; lia | done |].
        intros z Hz Hzy. exact (Hap y z Hy Hzy (Hsub z Hz)).
      * intros y z Hy Hz Hc. apply Hcov in Hc as [Hc _]. by eapply Hap.
      * intros z Hz Hc. by apply Hcov in Hc as [_ Hc].
Qed.

(** ** The whole loop *)
Record ordinary_placed (page : Z) (offsets : list Z) (top : Z) : Prop := {
  op_length : zlen offsets = zlen resources;
  op_top : 0 <= top <= U64_MAX /\ top <= page * zlen ids;
  op_place : forall y, y ∈ ids -> exists o, zget offsets (slot y) = Some o /\ 0 <= o /\ o + bytes_of y <= top /\
    o mod 256 = 0 /\ in_page page (o, bytes_of y);
  op_safe : forall x y ox oy, x ∈ ids -> y ∈ ids -> x <> y -> overlap first_of last_of x y ->
    zget offsets (slot x) = Some ox -> zget offsets (slot y) = Some oy ->
    apart (ox, bytes_of x) (oy, bytes_of y) \/
    (source_of x = y /\ first_of x = last_of y /\ ox = oy) \/ (source_of y = x /\ first_of y = last_of x /\ ox = oy);
}.

Lemma place_ordinary_ok page offsets : zlen offsets = zlen resources -> 256 <= page <= U64_MAX -> page mod 256 = 0 ->
  (forall y, y ∈ ids -> bytes_of y <= page) ->
  (place_ordinary resources lifetimes ids page destructive offsets = Some None /\ U64_MAX < page * zlen ids) \/
  exists offsets' top, place_ordinary resources lifetimes ids page destructive offsets = Some (Some (offsets', top)) /\
    ordinary_placed page offsets' top.
Proof using Hids.
  intros Hlen Hpage Hmod Hb. unfold place_ordinary. change Alignment with 256.
  destruct (Z.ltb_spec page 256); [lia|]. rewrite Hmod, Hlen, !Z.eqb_refl. cbn [negb orb].
  set (st0 := mk_ordinary [] (mk_free [] [] page) (replicate (length resources) false) (replicate (length offsets) 0) 0).
  assert (ord_rel page [] st0 (mk_plan 0 [] [] (fun _ => (0, 0)))) as Hinit.
  { split; cbn [st0 o_active o_free o_consumed o_offsets o_top now placed held place map].
    - apply reach_start.
    - done.
    - intros y Hy. by apply elem_of_nil in Hy.
    - intros a Ha. by apply elem_of_nil in Ha.
    - constructor.
    - intros y. split; [intros Hy; by apply elem_of_nil in Hy | intros [Hy _]; by apply elem_of_nil in Hy].
    - split; cbn; [lia | lia | | | |]; intros t; intros; by exfalso; eapply (not_elem_of_nil t).
    - done.
    - intros y x Hy. by apply elem_of_nil in Hy.
    - rewrite !zlen_replicate. unfold zlen in *. lia.
    - change (zlen []) with 0. lia.
    - intros y Hy _. apply zget_Some. destruct (slot_ids y Hy) as [_ Hs]. unfold zlen in Hs. split; [lia|].
      apply lookup_replicate. split; [done | lia]. }
  assert (forall rest d st s, ids = d ++ rest -> ord_rel page d st s ->
    (forall x r', rest = x :: r' -> now s <= first_of x) ->
    (for_loop (place_one resources lifetimes page destructive) st rest = Some (Return None) /\ U64_MAX < page * zlen ids) \/
    exists st' s', for_loop (place_one resources lifetimes page destructive) st rest = Some (Next st') /\
      ord_rel page ids st' s') as G.
  { induction rest as [|x rest IH]; intros d st s Eids Hrel Hn.
    { right. exists st, s. rewrite app_nil_r in Eids. by subst d. }
    cbn [for_loop]. assert (x ∈ ids) as Hx by (rewrite Eids, elem_of_app; right; by left).
    destruct (place_one_ok page d x rest st s Eids Hrel (Hn x rest eq_refl) Hpage Hmod (Hb x Hx))
      as [[-> Hlt] | (st' & s' & -> & Hrel' & Hn')]; cbn [mbind option_bind].
    - left. split; [done|]. rewrite Eids, zlen_app, zlen_cons. pose proof (zlen_nonneg rest). nia.
    - apply (IH (d ++ [x]) st' s'); [by rewrite <- app_assoc | exact Hrel' |].
      intros y r' ->. rewrite Hn'. eapply (ai_sorted _ Hids (d ++ [x]) y r' x); [by rewrite <- app_assoc|].
      apply elem_of_app. right. by left. }
  destruct (G ids [] st0 _ eq_refl Hinit) as [[E Hlt] | (st & s & E & Hrel)].
  { intros x r' Eids. cbn. apply (ai_life _ Hids). rewrite Eids. by left. }
  - left. unfold after. by rewrite E.
  - right. unfold after. rewrite E. cbn [mbind option_bind]. do 2 eexists. split; [done|].
    destruct Hrel as [Hreach Hpl Hplace _ _ _ Hfree _ _ [Hlo _] Htop _]. split; [done | | |].
    + pose proof (fw_top _ _ Hfree). lia.
    + intros y Hy. destruct (Hplace y Hy) as (o & ? & _ & ? & ? & ? & ?). eauto 10.
    + intros x y ox oy Hx Hy Hne Ho Ex Ey.
      destruct (Hplace x Hx) as (ox' & Ex' & Px & _). destruct (Hplace y Hy) as (oy' & Ey' & Py & _).
      rewrite Ex in Ex'. rewrite Ey in Ey'. injection Ex' as <-. injection Ey' as <-.
      destruct (inv_safe _ _ _ _ _ (reachable_inv _ _ _ _ apart_sym s Hreach) x y ltac:(by apply Hpl) ltac:(by apply Hpl) Hne Ho)
        as [Ha | [(? & ? & Ep) | (? & ? & Ep)]]; rewrite Px, Py in *; [by left | right; left | right; right];
        injection Ep; auto.
Qed.
End Input.
