(* ===== verification/LargeFacts.v ===== *)
(** * LargeFacts: the buffers of large resources refine the placement system

    The place of a large resource is the buffer it lives in, named by the resource the
    buffer was made for; places are apart when they are different buffers. *)

From stdpp Require Import base numbers list option.
From Stdlib Require Import ZArith Lia.
From S2P Require Import Prelude Checked Ordered MemoryModel MemoryArena PlanMemory MemoryArenaFacts OrdinaryFacts.

Definition other (a b : Z) : Prop := a <> b.
Lemma other_sym a b : other a b -> other b a.
Proof. unfold other. auto. Qed.

Lemma pair_equivalent a b : equivalent pair_lt a b = true <-> a = b.
Proof.
  destruct a as [a1 a2], b as [b1 b2]. unfold equivalent, pair_lt; cbn [fst snd].
  rewrite andb_true_iff, !negb_true_iff, !orb_false_iff, !andb_false_iff, !Z.ltb_ge, !Z.eqb_neq. split; [|intros [= -> ->]; lia].
  intros H. f_equal; lia.
Qed.
Lemma pair_inequivalent a b : equivalent pair_lt a b = false <-> a <> b.
Proof. rewrite <- not_true_iff_false, pair_equivalent. done. Qed.

Lemma last_found {A} (l : list A) : match fold_left (fun _ e => Some e) l None with
  | Some e => e ∈ l | None => l = [] end.
Proof.
  induction l as [|x l IH] using rev_ind; [done|]. rewrite fold_left_app. cbn. apply elem_of_app. right. by left.
Qed.

Section Large.
Context (resources : list Resource) (lifetimes : list Lifetime) (destructive : bool).
Abbreviation bytes_of := (bytes_of resources).
Abbreviation source_of := (source_of resources destructive).
Abbreviation first_of := (first_of lifetimes).
Abbreviation last_of := (last_of lifetimes).
Context {ids : list Z} (Hids : arena_ids resources lifetimes destructive ids).
Context (limit : Z) (Hlimit : 0 < limit <= U64_MAX) (Hbytes : forall y, y ∈ ids -> bytes_of y <= limit).
Context (layout0 : Layout).

Abbreviation Plan := (plan (P := Z)).
Abbreviation Reach := (reachable other first_of last_of source_of).

Record lrg_rel (d : list Z) (st : Large) (s : Plan) : Prop := {
  lr_reach : Reach s;
  lr_placed : forall y, y ∈ placed s <-> y ∈ d;
  lr_place : forall y, y ∈ d -> zget (lay_owners (lg_layout st)) (slot y) = Some (place s y) /\
    zget (lay_offsets (lg_layout st)) (slot y) = Some 0 /\ place s y ∈ d /\
    exists c, zget (lg_capacities st) (slot (place s y)) = Some c /\ bytes_of y <= c;
  lr_active : forall a, a ∈ lg_active st -> la_id a ∈ d /\ la_last a = last_of (la_id a) /\
    la_owner a = place s (la_id a) /\
    (la_id a ∈ held s -> zget (lg_capacities st) (slot (la_owner a)) = Some (la_capacity a));
  lr_nodup : NoDup (map la_id (lg_active st));
  lr_held : forall y, y ∈ held s <-> y ∈ map la_id (lg_active st) /\ zget (lg_consumed st) (slot y) = Some false;
  lr_free : forall e, e ∈ lg_free st -> e.2 ∈ d /\ zget (lg_capacities st) (slot e.2) = Some e.1 /\ 0 < e.1 /\
    forall y, y ∈ held s -> place s y <> e.2;
  lr_capacities : forall i c, zget (lg_capacities st) i = Some c -> 0 <= c <= limit;
  lr_lengths : zlen (lay_owners (lg_layout st)) = zlen resources /\ zlen (lay_offsets (lg_layout st)) = zlen resources /\
    zlen (lg_capacities st) = zlen resources /\ zlen (lg_consumed st) = zlen resources;
  lr_other : forall i, (forall y, y ∈ d -> slot y <> i) ->
    zget (lay_owners (lg_layout st)) i = zget (lay_owners layout0) i /\
    zget (lay_offsets (lg_layout st)) i = zget (lay_offsets layout0) i;
  lr_fresh : forall y, y ∈ ids -> y ∉ d -> zget (lg_consumed st) (slot y) = Some false;
  lr_bytes : 0 <= lay_bytes (lg_layout st) <= U64_MAX /\
    lay_bytes (lg_layout st) <= lay_bytes layout0 + limit * zlen d;
  lr_count : 0 <= lay_count (lg_layout st) <= U64_MAX /\ lay_count (lg_layout st) <= lay_count layout0 + zlen d;
}.

Lemma expire_large_ok d st s x : lrg_rel d st s -> now s = first_of x -> (forall y, y ∈ d -> y ∈ ids) ->
  exists active free s',
    while_loop (S (length (lg_active st)))
      (fun '(active, _) => match active with a :: _ => la_last a <? first_of x | [] => false end)
      (expire_large (lg_consumed st)) (lg_active st, lg_free st) = Some (Next (active, free)) /\
    now s' = first_of x /\
    lrg_rel d (mk_large active free (lg_consumed st) (lg_capacities st) (lg_layout st)) s'.
Proof using Hids Hlimit.
  intros Hrel Hnow Hd.
  destruct (while_loop_total (R := option Layout) (fun '(active, free) => exists s', now s' = first_of x /\
      lrg_rel d (mk_large active free (lg_consumed st) (lg_capacities st) (lg_layout st)) s')
    (fun '(active, _) => zlen active)
    (fun '(active, _) => match active with a :: _ => la_last a <? first_of x | [] => false end)
    (expire_large (lg_consumed st)) (S (length (lg_active st))) (lg_active st, lg_free st))
    as ([active free] & E & (s' & Hn & Hr) & _).
  - exists s. split; [done|]. by destruct st.
  - intros [active free] (s1 & Hn & Hr) Hc. destruct active as [|a active]; [done|]. apply Z.ltb_lt in Hc.
    destruct Hr as [Hreach Hpl Hplace Hact Hnd Hheld Hfree Hcaps Hlen Hoth Hfresh Hby Hco].
    cbn [lg_active lg_free lg_consumed lg_capacities lg_layout] in *.
    destruct (Hact a ltac:(by left)) as (Had & Hlast & Hown & Hcap). pose proof (Hd _ Had) as Hain.
    destruct (slot_ids resources lifetimes destructive Hids _ Hain) as [_ Hslot]. destruct Hlen as (Hl1 & Hl2 & Hl3 & Hl4). rewrite <- Hl4 in Hslot.
    destruct (zget_is_Some _ _ Hslot) as [skip Eskip]. cbn [expire_large]. rewrite Eskip. cbn [mbind option_bind].
    cbn [map] in Hnd. apply list.NoDup_cons in Hnd as [Hnotin Hnd].
    assert (forall b, b ∈ active -> la_id b ∈ d /\ la_last b = last_of (la_id b) /\ la_owner b = place s1 (la_id b) /\
      (la_id b ∈ held s1 -> zget (lg_capacities st) (slot (la_owner b)) = Some (la_capacity b))) as Hact'
      by (intros b Hb; apply Hact; by right).
    destruct skip.
    + exists (active, free). split; [done|]. split; [|rewrite zlen_cons; pose proof (zlen_nonneg active); lia].
      exists s1. split; [done|]. split; try done.
      intros y. rewrite Hheld. cbn [map lg_active]. rewrite elem_of_cons. split; [|tauto].
      intros [[->|?] Hc']; [congruence|done].
    + assert (la_id a ∈ held s1) as Hah by (apply Hheld; split; [by left | done]).
      specialize (Hcap Hah). unfold ord_emplace. destruct (ord_find _ _ _) as [e|] eqn:Ee.
      { apply ord_find_elem in Ee as [He <-%pair_equivalent]. destruct (Hfree _ He) as (_ & _ & _ & Hno).
        exfalso. apply (Hno (la_id a) Hah). by rewrite Hown. }
      eexists. split; [done|]. split; [|rewrite zlen_cons; pose proof (zlen_nonneg active); lia].
      exists (mk_plan (now s1) (placed s1) (hand_back (la_id a) (held s1)) (place s1)). split; [done|].
      split; cbn [now placed held place lg_active lg_free lg_consumed lg_capacities lg_layout]; try done.
      * eapply reach_step; [exact Hreach|]. apply step_expire. lia.
      * intros b Hb. destruct (Hact' b Hb) as (? & ? & ? & Hcb). split; [done|]. split; [done|]. split; [done|].
        intros [? _]%elem_of_hand_back. by apply Hcb.
      * intros y. rewrite elem_of_hand_back, Hheld. cbn [map]. rewrite elem_of_cons. split; [tauto|].
        intros [Hy ?]. split; [tauto|]. by intros ->.
      * intros e [->|He]%elem_of_ord_insert; cbn [fst snd].
        -- destruct (Hplace _ Had) as (_ & _ & Hin & c & Ec & Hbc). rewrite Hown in Hcap |- *. rewrite Hcap in Ec. injection Ec as <-.
           pose proof (ai_bytes _ _ _ _ Hids _ Hain). split; [done|]. split; [done|]. split; [lia|].
           intros y [Hy Hne]%elem_of_hand_back. 
           exact (inv_apart _ _ _ _ _ (reachable_inv _ _ _ _ other_sym s1 Hreach) y (la_id a) Hy Hah Hne).
        -- destruct (Hfree e He) as (? & ? & ? & Hno). split; [done|]. split; [done|]. split; [done|].
           intros y [Hy _]%elem_of_hand_back. by apply Hno.
  - cbn. unfold zlen. lia.
  - exists active, free, s'. done.
Qed.

(** The owner chosen for a new resource. *)
Record chosen (x : Z) (d : list Z) (free : list (Z * Z)) (capacities : list Z) (total count : Z)
    (owner capacity : Z) (free' : list (Z * Z)) (capacities' : list Z) (total' count' : Z) : Prop := {
  ch_owner : owner = x \/ (owner ∈ d /\ exists e, e ∈ free /\ e.2 = owner);
  ch_capacity : zget capacities' (slot owner) = Some capacity /\ bytes_of x <= capacity <= limit;
  ch_same : forall i, i <> slot owner -> zget capacities' i = zget capacities i;
  ch_grow : owner ∈ d -> exists c, zget capacities (slot owner) = Some c /\ c <= capacity;
  ch_free : forall e, e ∈ free' -> e ∈ free /\ e.2 <> owner;
  ch_length : zlen capacities' = zlen capacities;
  ch_total : total <= total' <= total + bytes_of x /\ total' <= U64_MAX;
  ch_count : count <= count' <= count + 1 /\ count' <= U64_MAX;
}.

Lemma choose_large_ok x d st s : x ∈ ids -> x ∉ d -> (forall y, y ∈ d -> y ∈ ids) -> lrg_rel d st s ->
  (choose_large x (bytes_of x) (lg_free st) (lg_capacities st) (lay_bytes (lg_layout st)) (lay_count (lg_layout st)) = Some None /\
   (U64_MAX < lay_bytes (lg_layout st) + limit \/ lay_count (lg_layout st) = U64_MAX)) \/
  exists owner capacity free' capacities' total' count',
    choose_large x (bytes_of x) (lg_free st) (lg_capacities st) (lay_bytes (lg_layout st)) (lay_count (lg_layout st)) =
      Some (Some (owner, capacity, free', capacities', total', count')) /\
    chosen x d (lg_free st) (lg_capacities st) (lay_bytes (lg_layout st)) (lay_count (lg_layout st))
      owner capacity free' capacities' total' count'.
Proof using Hids Hlimit Hbytes.
  intros Hx Hxd Hd Hrel. destruct Hrel as [_ _ _ _ _ _ Hfree Hcaps (_ & _ & Hlen & _) _ _ Hby Hco].
  pose proof (ai_bytes _ _ _ _ Hids x Hx) as Hb. pose proof (Hbytes x Hx) as Hbl.
  assert (forall e f, e ∈ lg_free st -> f ∈ lg_free st -> e.2 = f.2 -> e = f) as Huniq.
  { intros [e1 e2] [f1 f2] He Hf E. cbn in E. subst f2. destruct (Hfree _ He) as (_ & E1 & _), (Hfree _ Hf) as (_ & E2 & _).
    cbn in *. congruence. }
  assert (forall e, e ∈ lg_free st -> forall f, f ∈ ord_erase pair_lt e (lg_free st) -> f ∈ lg_free st /\ f.2 <> e.2) as Herase.
  { intros e He f [Hf Hne]%elem_of_ord_erase. split; [done|]. apply pair_inequivalent in Hne. intros E.
    by apply Hne, (Huniq e f). }
  assert (forall e, e ∈ lg_free st -> 0 <= slot e.2 < zlen resources) as Hslot.
  { intros e He. destruct (Hfree e He) as (He' & _). by apply (slot_ids resources lifetimes destructive Hids), Hd. }
  unfold choose_large. destruct (lower_bound _ _ _) as [e|] eqn:El.
  - apply lower_bound_elem in El as [He Hle]. destruct (Hfree e He) as (Hed & Hec & Hpos & _).
    assert (bytes_of x <= e.1) as Hge.
    { unfold pair_lt in Hle; cbn in Hle. apply orb_false_iff in Hle as [Hle _]. by apply Z.ltb_ge in Hle. }
    right. do 6 eexists. split; [done|]. split; try done; try lia.
    + right. split; [done|]. by exists e.
    + split; [done|]. destruct (Hcaps _ _ Hec). lia.
    + intros _. exists e.1. split; [done | lia].
    + by apply Herase.
  - pose proof (last_found (lg_free st)) as Hlast. destruct (fold_left _ _ _) as [e|].
    + destruct e as [previous owner] eqn:Ee. rewrite <- Ee in *. destruct (Hfree e Hlast) as (Hed & Hec & Hpos & _). rewrite Ee in *. cbn [fst snd] in *.
      assert (previous < bytes_of x) as Hprev.
      { pose proof (List.find_none _ _ El (previous, owner) ltac:(by apply list_elem_of_In)) as Hlt. cbn beta in Hlt.
        apply negb_false_iff in Hlt. unfold pair_lt in Hlt; cbn [fst snd] in Hlt. pose proof (ai_range _ _ _ _ Hids owner (Hd _ Hed)).
        apply orb_true_iff in Hlt as [Hlt%Z.ltb_lt|[_ Hlt%Z.ltb_lt]%andb_true_iff]; lia. }
      destruct (Z.leb_spec (bytes_of x) previous); [lia|]. rewrite wrap64_small by (unfold is_u64; lia).
      unfold Checked.add, Checked.add_fits.
      destruct (Z.leb_spec (lay_bytes (lg_layout st)) (U64_MAX - (bytes_of x - previous))); cbn [negb]; [|left; split; [done | lia]].
      rewrite wrap64_small by (unfold is_u64; lia).
      pose proof (Hslot _ Hlast) as Hs; cbn in Hs.
      rewrite zset_Some by lia. cbn [mbind option_bind]. right. do 6 eexists. split; [done|]. split; try done; try lia.
      * right. split; [done|]. by exists (previous, owner).
      * rewrite zget_insert_eq by lia. split; [done | lia].
      * intros i Hi. apply zget_insert_ne; [lia | done].
      * intros _. exists previous. split; [done | lia].
      * by apply Herase.
      * by rewrite zlen_insert.
    + unfold Checked.add, Checked.add_fits.
      destruct (Z.leb_spec (lay_bytes (lg_layout st)) (U64_MAX - bytes_of x)); cbn [negb]; [|left; split; [done | lia]].
      rewrite wrap64_small by (unfold is_u64; lia).
      destruct (Z.eqb_spec (lay_count (lg_layout st)) U64_MAX); [left; split; [done | by right]|].
      destruct (slot_ids resources lifetimes destructive Hids x Hx) as [_ Hs].
      rewrite zset_Some by lia. cbn [mbind option_bind]. right. do 6 eexists. split; [done|]. split; try done; try lia.
      * rewrite zget_insert_eq by lia. split; [done | lia].
      * intros i Hi. apply zget_insert_ne; [lia | done].
      * intros e He. rewrite Hlast in He. by apply elem_of_nil in He.
      * by rewrite zlen_insert.
Qed.

(** The next resource with its buffer. *)
Lemma lrg_rel_place d x rest active free consumed capacities layout s2 free' consumed' capacities' total' count'
    owner capacity s3 :
  ids = d ++ x :: rest -> lrg_rel d (mk_large active free consumed capacities layout) s2 ->
  step other first_of last_of source_of s2 s3 -> placed s3 = x :: placed s2 -> place s3 = put (place s2) x owner ->
  (forall y, y ∈ held s3 <-> y = x \/ (y ∈ held s2 /\ zget consumed' (slot y) = Some false)) ->
  zlen consumed' = zlen resources ->
  (forall y, y ∈ d -> zget consumed' (slot y) = Some false -> zget consumed (slot y) = Some false) ->
  (forall y, y ∈ ids -> y ∉ d -> zget consumed' (slot y) = Some false) ->
  owner ∈ d \/ owner = x -> zget capacities' (slot owner) = Some capacity -> bytes_of x <= capacity <= limit ->
  (forall i, i <> slot owner -> zget capacities' i = zget capacities i) -> zlen capacities' = zlen capacities ->
  (owner ∈ d -> exists c, zget capacities (slot owner) = Some c /\ c <= capacity) ->
  (forall y, y ∈ held s2 -> y ∈ held s3 -> place s2 y <> owner) ->
  (forall e, e ∈ free' -> e ∈ free /\ e.2 <> owner) ->
  0 <= lay_bytes layout <= total' -> total' <= lay_bytes layout + limit -> total' <= U64_MAX ->
  lay_count layout <= count' <= lay_count layout + 1 -> count' <= U64_MAX ->
  exists st', store_large x (last_of x) owner capacity active free' consumed' capacities'
      (mk_layout total' count' (lay_owners layout) (lay_offsets layout)) = Some (Next st') /\
    lrg_rel (d ++ [x]) st' s3.
Proof using Hids Hlimit.
  intros E [Hreach Hpl Hplace Hact Hnd Hheld Hfree Hcaps (Hl1 & Hl2 & Hl3 & Hl4) Hoth Hfresh Hby Hco] Hstep Epl Eput Hh3 Hlc' Hc Hf'
    Hown Hcap Hcb Hcne Hclen Hcgrow Hno Hfree' Htot1 Htot2 Htot3 Hcnt1 Hcnt2.
  cbn [lg_active lg_free lg_consumed lg_capacities lg_layout] in *.
  assert (x ∈ ids) as Hx by (rewrite E, elem_of_app; right; by left).
  assert (forall y, y ∈ d -> y ∈ ids) as Hd by (intros y Hy; rewrite E, elem_of_app; by left).
  assert (x ∉ d) as Hxd.
  { intros Hxd. pose proof (ai_nodup _ _ _ _ Hids) as Hn. rewrite E in Hn. apply list.NoDup_app in Hn as (_ & Hn & _).
    apply (Hn x Hxd). by left. }
  assert (forall y, y ∈ d -> y <> x) as Hne by (by intros y Hy ->).
  assert (owner ∈ ids) as Hoin by (by destruct Hown as [?| ->]; [apply Hd|]).
  pose proof (ai_range _ _ _ _ Hids owner Hoin) as Hor. pose proof (ai_bytes _ _ _ _ Hids x Hx) as Hb.
  destruct (slot_ids resources lifetimes destructive Hids x Hx) as [_ Hs].
  unfold store_large. cbn [lay_owners lay_offsets lay_bytes lay_count].
  destruct (Z.eqb_spec owner 0); [lia|]. destruct (Z.eqb_spec capacity 0); [lia|]. cbn [orb].
  rewrite Hcap. cbn [mbind option_bind]. rewrite Z.eqb_refl. cbn [negb].
  rewrite (zset_Some (lay_owners layout)) by lia. cbn [mbind option_bind].
  rewrite (zset_Some (lay_offsets layout)) by lia. cbn [mbind option_bind]. eexists. split; [done|].
  assert (forall y, y ∈ d -> forall l (v : Z), zget (<[Z.to_nat (slot x) := v]> l) (slot y) = zget l (slot y)) as Hget.
  { intros y Hy l v. apply zget_insert_ne; [lia|]. intros Es.
    by apply (Hne y Hy), (slot_inj resources lifetimes destructive Hids); [apply Hd| |]. }
  assert (map la_id (ord_insert large_lt (mk_large_active (last_of x) x owner capacity) active) ≡ₚ x :: map la_id active) as Hperm.
  { exact (Permutation_map la_id (ord_insert_perm large_lt (mk_large_active (last_of x) x owner capacity) active)). }
  assert (forall y, y ∈ map la_id active -> y ∈ d) as Hactd.
  { intros y Hy. apply list_elem_of_In, in_map_iff in Hy as (a & <- & Ha). apply Hact, list_elem_of_In, Ha. }
  assert (forall y, y ∈ ids -> y <> owner -> zget capacities' (slot y) = zget capacities (slot y)) as Hcapne.
  { intros y Hy Hn. apply Hcne. intros Es. by apply Hn, (slot_inj resources lifetimes destructive Hids). }
  assert (forall y, y ∈ d -> y ∈ ids /\ y ∈ d ++ [x]) as Hd1 by (intros y Hy; rewrite elem_of_app; auto).
  split; cbn [lg_active lg_free lg_consumed lg_capacities lg_layout lay_owners lay_offsets lay_bytes lay_count].
  - by eapply reach_step.
  - intros y. rewrite Epl, elem_of_cons, Hpl, elem_of_app, list_elem_of_singleton. tauto.
  - intros y Hy. rewrite Eput. apply elem_of_app in Hy as [Hy|Hy].
    + destruct (Hplace y Hy) as (? & ? & Hin & c & Ec & Hle). rewrite !Hget, put_ne by auto.
      split; [done|]. split; [done|]. split; [by apply Hd1|].
      destruct (decide (place s2 y = owner)) as [Eo|Hn].
      * rewrite Eo in *. destruct (Hcgrow Hin) as (c' & Ec' & ?). exists capacity. split; [done|]. rewrite Ec' in Ec. injection Ec as <-. lia.
      * exists c. rewrite Hcapne by auto. done.
    + apply list_elem_of_singleton in Hy as ->. rewrite !zget_insert_eq, put_eq by lia.
      split; [done|]. split; [done|]. split; [rewrite elem_of_app, list_elem_of_singleton; tauto|].
      exists capacity. split; [done | lia].
  - intros a [->|Ha]%elem_of_ord_insert; cbn [la_id la_last la_owner la_capacity].
    + rewrite elem_of_app, list_elem_of_singleton, Eput, put_eq. split; [by right | done].
    + destruct (Hact a Ha) as (Had & ? & Eo & Hcp). rewrite elem_of_app, Eput, put_ne by auto.
      split; [by left|]. split; [done|]. split; [done|]. intros Hh. pose proof Hh as Hh'. apply Hh3 in Hh as [Ex|[Hh _]]; [by destruct (Hne _ Had)|].
      rewrite Hcapne; [by apply Hcp | |].
      * rewrite Eo. by apply Hd, Hplace.
      * rewrite Eo. by apply Hno.
  - rewrite Hperm. apply list.NoDup_cons. split; [|done]. intros H. by apply Hxd, Hactd.
  - intros y. rewrite Hh3, Hperm, elem_of_cons, Hheld. split.
    + intros [->|[[Hy _] Hc']]; [split; [by left | by apply Hf'] | split; [by right | done]].
    + intros [[->|Hy] Hc']; [by left | right]. split; [|done]. split; [done | by apply Hc; [apply Hactd|]].
  - intros e He. destruct (Hfree' e He) as [He' Hn]. destruct (Hfree e He') as (Hed & Hec & ? & Hheldno).
    split; [by apply Hd1|]. split; [rewrite Hcapne by auto; done|]. split; [done|]. rewrite Eput.
    intros y [->|[Hy _]]%Hh3; [rewrite put_eq; auto|]. rewrite put_ne; [by apply Hheldno|]. intros ->.
    by apply Hxd, Hpl, (inv_held _ _ _ _ _ (reachable_inv _ _ _ _ other_sym s2 Hreach)).
  - intros i c Hi. destruct (decide (i = slot owner)) as [->|]; [rewrite Hcap in Hi; injection Hi as <-; lia|].
    rewrite Hcne in Hi by done. by eapply Hcaps.
  - rewrite !zlen_insert. rewrite Hclen. done.
  - intros i Hi. rewrite !zget_insert_ne; try lia.
    + apply Hoth. intros y Hy. apply Hi, elem_of_app. by left.
    + apply Hi, elem_of_app. right. by apply list_elem_of_singleton.
    + apply Hi, elem_of_app. right. by apply list_elem_of_singleton.
  - intros y Hy Hn. apply Hf'; [done|]. intros ?. apply Hn, elem_of_app. by left.
  - rewrite zlen_app. change (zlen [x]) with 1. lia.
  - rewrite zlen_app. change (zlen [x]) with 1. lia.
Qed.

Lemma place_large_one_ok d x rest st s : ids = d ++ x :: rest -> lrg_rel d st s -> now s <= first_of x ->
  (place_large_one resources lifetimes destructive st x = Some (Return None) /\
   (U64_MAX < lay_bytes layout0 + limit * (zlen d + 1) \/ U64_MAX <= lay_count layout0 + zlen d)) \/
  exists st' s', place_large_one resources lifetimes destructive st x = Some (Next st') /\
    lrg_rel (d ++ [x]) st' s' /\ now s' = first_of x.
Proof using Hids Hlimit Hbytes.
  intros E Hrel Hnow.
  assert (x ∈ ids) as Hx by (rewrite E, elem_of_app; right; by left).
  assert (forall y, y ∈ d -> y ∈ ids) as Hd by (intros y Hy; rewrite E, elem_of_app; by left).
  destruct (get_value resources lifetimes destructive Hids x Hx) as (v & Ev & Eb & Es).
  destruct (get_lifetime resources lifetimes destructive Hids x Hx) as (l & El & Ef & Ela).
  assert (lrg_rel d st (mk_plan (first_of x) (placed s) (held s) (place s))) as Hrel1.
  { destruct Hrel. split; try done. eapply reach_step; [done | by apply step_advance]. }
  destruct (expire_large_ok d st _ x Hrel1 eq_refl Hd) as (active & free & s2 & Ew & Hn2 & Hrel2).
  unfold place_large_one. rewrite Ev, El. cbn [mbind option_bind]. rewrite <- Ef, Ew. cbn [mbind option_bind].
  pose proof (ai_bytes _ _ _ _ Hids x Hx) as Hb. destruct (ai_life _ _ _ _ Hids x Hx) as [_ Hlife].
  pose proof Hrel2 as [Hreach Hpl Hplace Hact Hnd Hheld Hfree Hcaps (Hl1 & Hl2 & Hl3 & Hl4) Hoth Hfresh Hby Hco].
  cbn [lg_active lg_free lg_consumed lg_capacities lg_layout] in *.
  assert (x ∉ d) as Hxd.
  { intros Hxd. pose proof (ai_nodup _ _ _ _ Hids) as Hn. rewrite E in Hn. apply list.NoDup_app in Hn as (_ & Hn & _).
    apply (Hn x Hxd). by left. }
  assert (x ∉ placed s2) as Hxp by by rewrite Hpl.
  assert (forall y, y ∈ held s2 -> y ∈ d) as Hheldd.
  { intros y Hy. apply Hpl. by apply (inv_held _ _ _ _ _ (reachable_inv _ _ _ _ other_sym s2 Hreach)). }
  rewrite <- Ela. destruct (destructive && negb (g_source v =? 0)) eqn:Er.
  - apply andb_prop in Er as [Edes Esrc]. apply negb_true_iff, Z.eqb_neq in Esrc.
    assert (source_of x = g_source v) as Es' by (rewrite Es; by rewrite Edes). clear Es. rename Es' into Es. rewrite <- Es in Esrc.
    assert (source_of x ∈ held s2) as Hsh.
    { eapply (source_held resources lifetimes destructive Hids other other_sym); [done | exact E | done | done | exact Esrc]. }
    destruct (ai_source _ _ _ _ Hids x Hx Esrc) as (Hsin & Hsl & Hsf & Hsb).
    pose proof (Hheldd _ Hsh) as Hsd. destruct (Hplace _ Hsd) as (Eo & _ & Hod & c & Ec & Hle).
    destruct (slot_ids resources lifetimes destructive Hids _ Hsin) as [_ Hslot].
    pose proof (ai_range _ _ _ _ Hids _ (Hd _ Hod)) as Hor. pose proof (ai_range _ _ _ _ Hids _ Hsin) as Hsr.
    unfold reuse_large. rewrite <- Es. destruct (Z.ltb_spec (zlen resources) (source_of x)); [lia|].
    rewrite Eo. cbn [mbind option_bind]. destruct (Z.eqb_spec (place s2 (source_of x)) 0); [lia|].
    rewrite Ec. cbn [mbind option_bind]. rewrite <- Eb. destruct (Z.ltb_spec c (bytes_of x)); [lia|].
    rewrite (zset_Some (lg_consumed st)) by lia. cbn [mbind option_bind].
    set (consumed' := <[Z.to_nat (slot (source_of x)) := true]> (lg_consumed st)).
    assert (forall y, y ∈ ids -> y <> source_of x -> zget consumed' (slot y) = zget (lg_consumed st) (slot y)) as Hcne.
    { intros y Hy Hne. apply zget_insert_ne; [lia|]. intros Es'. by apply Hne, (slot_inj resources lifetimes destructive Hids). }
    assert (zget consumed' (slot (source_of x)) = Some true) as Hceq by (apply zget_insert_eq; lia).
    set (s3 := mk_plan (now s2) (x :: placed s2) (x :: hand_back (source_of x) (held s2)) (put (place s2) x (place s2 (source_of x)))).
    right. destruct (lrg_rel_place d x rest active free (lg_consumed st) (lg_capacities st) (lg_layout st) s2 free consumed'
      (lg_capacities st) (lay_bytes (lg_layout st)) (lay_count (lg_layout st)) (place s2 (source_of x)) c s3)
      as (st' & Est & Hrel3); try done; try lia.
    { apply step_reuse; [done | lia | lia | done | lia | lia]. }
    { intros y. unfold s3; cbn [held]. rewrite elem_of_cons, elem_of_hand_back. split.
      - intros [->|[Hy Hne]]; [by left|]. right. split; [done|]. rewrite Hcne by auto. by apply Hheld.
      - intros [->|[Hy Hc]]; [by left|]. right. split; [done|]. intros ->. by rewrite Hceq in Hc. }
    { unfold consumed'. by rewrite zlen_insert. }
    { intros y Hy Hc. destruct (decide (y = source_of x)) as [->|]; [by rewrite Hceq in Hc|]. by rewrite <- Hcne by auto. }
    { intros y Hy Hyd. rewrite Hcne; [by apply Hfresh | done |]. by intros ->. }
    { by left. }
    { destruct (Hcaps _ _ Ec). lia. }
    { intros _. by exists c. }
    { intros y Hy Hy3. unfold s3 in Hy3; cbn [held] in Hy3. apply elem_of_cons in Hy3 as [->|[_ Hne]%elem_of_hand_back]; [by apply Hheldd in Hy|].
      exact (inv_apart _ _ _ _ _ (reachable_inv _ _ _ _ other_sym s2 Hreach) y (source_of x) Hy Hsh Hne). }
    { intros e He. split; [done|]. destruct (Hfree e He) as (_ & _ & _ & Hno). intros Eq. by apply (Hno (source_of x) Hsh). }
    exists st', s3. split; [|by split]. rewrite <- Est. by destruct (lg_layout st).
  - rewrite <- Eb. cbn [lg_layout]. destruct (choose_large_ok x d (mk_large active free (lg_consumed st) (lg_capacities st) (lg_layout st)) s2 Hx Hxd Hd Hrel2)
      as [[Ech Hover] | (owner & capacity & free' & capacities' & total' & count' & Ech & Hch)];
      cbn [lg_free lg_capacities lg_layout] in *; rewrite Ech; cbn [mbind option_bind].
    + left. split; [done|]. pose proof (zlen_nonneg d). destruct Hover; [left | right]; lia.
    + destruct Hch as [Co Cc Cs Cg Cf Cl Ct Cn]. pose proof (Hbytes x Hx).
      assert (forall y, y ∈ held s2 -> place s2 y <> owner) as Hno.
      { intros y Hy. destruct Co as [->|(_ & e & He & <-)]; [|by apply Hfree].
        intros Eq. apply Hxd. rewrite <- Eq. by apply Hplace, Hheldd. }
      set (s3 := mk_plan (now s2) (x :: placed s2) (x :: held s2) (put (place s2) x owner)).
      right. destruct (lrg_rel_place d x rest active free (lg_consumed st) (lg_capacities st) (lg_layout st) s2 free' (lg_consumed st)
        capacities' total' count' owner capacity s3) as (st' & Est & Hrel3); try done; try lia; try tauto.
      { apply step_fresh; [done | lia | lia |]. intros y Hy. apply other_sym, Hno, Hy. }
      { intros y. unfold s3; cbn [held]. rewrite elem_of_cons. split; [|tauto]. intros [->|Hy]; [by left|]. right. split; [done|]. by apply Hheld. }
      { intros y Hy _. by apply Hno. }
      exists st', s3. split; [exact Est | by split].
Qed.

(** ** The whole loop *)
Record large_placed (layout : Layout) : Prop := {
  lp_place : forall y, y ∈ ids -> exists w, zget (lay_owners layout) (slot y) = Some w /\ w ∈ ids /\
    zget (lay_offsets layout) (slot y) = Some 0;
  lp_other : forall i, (forall y, y ∈ ids -> slot y <> i) ->
    zget (lay_owners layout) i = zget (lay_owners layout0) i /\ zget (lay_offsets layout) i = zget (lay_offsets layout0) i;
  lp_lengths : zlen (lay_owners layout) = zlen resources /\ zlen (lay_offsets layout) = zlen resources;
  lp_safe : forall x y w, x ∈ ids -> y ∈ ids -> x <> y -> overlap first_of last_of x y ->
    zget (lay_owners layout) (slot x) = Some w -> zget (lay_owners layout) (slot y) = Some w ->
    (source_of x = y /\ first_of x = last_of y) \/ (source_of y = x /\ first_of y = last_of x);
  lp_bytes : 0 <= lay_bytes layout <= U64_MAX;
  lp_count : 0 <= lay_count layout <= U64_MAX;
}.

Lemma place_large_ok : zlen (lay_owners layout0) = zlen resources -> zlen (lay_offsets layout0) = zlen resources ->
  0 <= lay_bytes layout0 <= U64_MAX -> 0 <= lay_count layout0 <= U64_MAX ->
  (place_large resources lifetimes ids destructive layout0 = Some None /\
   (U64_MAX < lay_bytes layout0 + limit * zlen ids \/ U64_MAX < lay_count layout0 + zlen ids)) \/
  exists layout, place_large resources lifetimes ids destructive layout0 = Some (Some layout) /\ large_placed layout.
Proof using Hids Hlimit Hbytes.
  intros Ho1 Ho2 Hby Hco. unfold place_large.
  set (st0 := mk_large [] [] (replicate (length resources) false) (replicate (length resources) 0) layout0).
  assert (forall (b : bool) (i : Z), 0 <= i < zlen resources -> zget (replicate (length resources) b) i = Some b) as Hrep.
  { intros b i Hi. apply zget_Some. split; [lia|]. apply lookup_replicate. unfold zlen in Hi. split; [done | lia]. }
  assert (lrg_rel [] st0 (mk_plan 0 [] [] (fun _ => 0))) as Hinit.
  { split; cbn [st0 lg_active lg_free lg_consumed lg_capacities lg_layout now placed held place map].
    - apply reach_start.
    - done.
    - intros y Hy. by apply elem_of_nil in Hy.
    - intros a Ha. by apply elem_of_nil in Ha.
    - constructor.
    - intros y. split; [intros Hy; by apply elem_of_nil in Hy | intros [Hy _]; by apply elem_of_nil in Hy].
    - intros e He. by apply elem_of_nil in He.
    - intros i c [_ [-> _]%lookup_replicate]%zget_Some. lia.
    - rewrite !zlen_replicate. unfold zlen in *. lia.
    - done.
    - intros y Hy _. apply Hrep. by apply (slot_ids resources lifetimes destructive Hids).
    - change (zlen []) with 0. lia.
    - change (zlen []) with 0. lia. }
  assert (forall rest d st s, ids = d ++ rest -> lrg_rel d st s ->
    (forall x r', rest = x :: r' -> now s <= first_of x) ->
    (for_loop (place_large_one resources lifetimes destructive) st rest = Some (Return None) /\
     (U64_MAX < lay_bytes layout0 + limit * zlen ids \/ U64_MAX < lay_count layout0 + zlen ids)) \/
    exists st' s', for_loop (place_large_one resources lifetimes destructive) st rest = Some (Next st') /\
      lrg_rel ids st' s') as G.
  { induction rest as [|x rest IH]; intros d st s Eids Hrel Hn.
    { right. exists st, s. rewrite app_nil_r in Eids. by subst d. }
    cbn [for_loop].
    destruct (place_large_one_ok d x rest st s Eids Hrel (Hn x rest eq_refl))
      as [[-> Hlt] | (st' & s' & -> & Hrel' & Hn')]; cbn [mbind option_bind].
    - left. split; [done|]. rewrite Eids, zlen_app, zlen_cons. pose proof (zlen_nonneg rest).
      destruct Hlt; [left; nia | right; lia].
    - apply (IH (d ++ [x]) st' s'); [by rewrite <- app_assoc | exact Hrel' |].
      intros y r' ->. rewrite Hn'. eapply (ai_sorted _ _ _ _ Hids (d ++ [x]) y r' x); [by rewrite <- app_assoc|].
      apply elem_of_app. right. by left. }
  destruct (G ids [] st0 _ eq_refl Hinit) as [[E Hlt] | (st & s & E & Hrel)].
  { intros x r' Eids. cbn. apply (ai_life _ _ _ _ Hids). rewrite Eids. by left. }
  - left. unfold after. by rewrite E.
  - right. unfold after. rewrite E. cbn [mbind option_bind]. eexists. split; [done|].
    destruct Hrel as [Hreach Hpl Hplace _ _ _ _ _ (? & ? & _) Hoth _ Hby' Hco']. split; [| done | done | | lia | lia].
    + intros y Hy. destruct (Hplace y Hy) as (? & ? & ? & _). eauto.
    + intros x y w Hx Hy Hne Ho Ex Ey. destruct (Hplace x Hx) as (Ex' & _), (Hplace y Hy) as (Ey' & _).
      rewrite Ex in Ex'. rewrite Ey in Ey'. injection Ex' as ->. injection Ey' as Ew.
      destruct (inv_safe _ _ _ _ _ (reachable_inv _ _ _ _ other_sym s Hreach) x y ltac:(by apply Hpl) ltac:(by apply Hpl) Hne Ho)
        as [Ha | [(? & ? & _) | (? & ? & _)]]; [done | by left | by right].
Qed.
End Large.
