(* ===== verification/PackFacts.v ===== *)
(** * PackFacts: packing an arena is safe and succeeds within its bounds *)
From stdpp Require Import base numbers list option.
From Stdlib Require Import ZArith Lia.
From S2P Require Import Prelude Checked Ordered MemoryModel MemoryArena PlanMemory MemoryArenaFacts OrdinaryFacts LargeFacts.

Section Pack.
Context (resources : list Resource) (lifetimes : list Lifetime) (destructive : bool).
Abbreviation bytes_of := (bytes_of resources).
Abbreviation source_of := (source_of resources destructive).
Abbreviation first_of := (first_of lifetimes).
Abbreviation last_of := (last_of lifetimes).
Abbreviation arena_ids := (arena_ids resources lifetimes destructive).

(** ** Measuring the pages *)
Lemma Accumulate_sum page l : 0 <= page -> Forall (fun e : Z * Z => 0 <= e.2 <= page) l -> forall total, 0 <= total <= U64_MAX ->
  0 <= fold_left (fun total e => Accumulate total e.2) l total <= U64_MAX /\
  fold_left (fun total e => Accumulate total e.2) l total <= total + page * zlen l.
Proof using.
  intros Hp. induction 1 as [|e l He _ IH]; intros total Ht; cbn [fold_left]; [change (zlen []) with 0; lia|].
  rewrite zlen_cons. unfold Accumulate at 2 4 6. destruct (Z.ltb_spec (U64_MAX - total) e.2).
  - destruct (IH U64_MAX ltac:(lia)). lia.
  - destruct (IH (total + e.2) ltac:(lia)). lia.
Qed.

Record arena_measured (ids : list Z) (page : Z) (offsets : list Z) (arena : Arena) : Prop := {
  am_bytes : 0 <= ar_bytes arena <= U64_MAX /\ ar_bytes arena <= page * zlen ids;
  am_count : 0 <= ar_count arena <= U64_MAX /\ ar_count arena <= zlen ids;
  am_owner : forall y o, y ∈ ids -> zget offsets (slot y) = Some o -> exists w ow,
    zget (ar_owners arena) (o / page) = Some w /\ w ∈ ids /\ zget offsets (slot w) = Some ow /\ ow / page = o / page;
}.

Lemma measure_ordinary_ok ids page offsets top : arena_ids ids -> ids <> [] ->
  ordinary_placed resources lifetimes destructive (ids := ids) page offsets top ->
  256 <= page <= U64_MAX -> page mod 256 = 0 -> (forall y, y ∈ ids -> bytes_of y <= page) ->
  exists arena, measure_ordinary resources top ids offsets page = Some (Some arena) /\ arena_measured ids page offsets arena.
Proof using.
  intros Hids Hne [Hlen Htop Hplace _] Hpage Hmod Hb. unfold measure_ordinary. change Alignment with 256.
  assert (exists y, y ∈ ids) as [y0 Hy0] by (destruct ids as [|y l]; [done|]; exists y; by left).
  assert (0 < top) as Hpos. { destruct (Hplace y0 Hy0) as (o & _ & ? & ? & _). pose proof (ai_bytes _ _ _ _ Hids y0 Hy0). lia. }
  destruct (Z.ltb_spec page 256); [lia|]. rewrite Hmod, Hlen, !Z.eqb_refl. destruct (Z.eqb_spec top 0); [lia|].
  rewrite bool_decide_eq_false_2 by done. cbn [negb orb Bool.eqb].
  pose proof (Z.div_mod (top - 1) page ltac:(lia)) as Hd. pose proof (Z.mod_pos_bound (top - 1) page ltac:(lia)) as Hr.
  set (chunks := (top - 1) / page + 1). assert (0 < chunks <= zlen ids) as Hchunks by (unfold chunks; nia).
  assert (chunks <= U64_MAX) as Hmax by (unfold chunks; nia).
  rewrite wrap64_small by (unfold is_u64; lia).
  set (zeros := replicate (Z.to_nat chunks) 0).
  destruct (for_loop_total (R := option Arena) (fun d '(owners, extents) =>
      zlen owners = chunks /\ zlen extents = chunks /\
      (forall c e, zget extents c = Some e -> 0 <= e <= page) /\
      (forall c w, zget owners c = Some w -> w = 0 \/ (w ∈ d /\ exists o, zget offsets (slot w) = Some o /\ o / page = c)) /\
      (forall y o, y ∈ d -> zget offsets (slot y) = Some o -> exists w, zget owners (o / page) = Some w /\ w <> 0))
    (measure_one resources page chunks offsets) ids (zeros, zeros)) as ([owners extents] & E & Ho & He & Hext & Hown & Hin).
  { unfold zeros. rewrite zlen_replicate. repeat split; try lia.
    - apply zget_Some in H0 as [_ [-> _]%lookup_replicate]. lia.
    - apply zget_Some in H0 as [_ [-> _]%lookup_replicate]. lia.
    - intros c w [_ [-> _]%lookup_replicate]%zget_Some. by left.
    - intros y o Hy. by apply elem_of_nil in Hy. }
  { intros d x rest [owners extents] Eids (Ho & He & Hext & Hown & Hin). assert (x ∈ ids) as Hx by (rewrite Eids, elem_of_app; right; by left).
    destruct (get_value _ _ _ Hids x Hx) as (v & Ev & Eb & _). destruct (Hplace x Hx) as (o & Eo & Ho0 & Hot & _ & Hip).
    pose proof (Hb x Hx). pose proof (ai_bytes _ _ _ _ Hids x Hx). pose proof (ai_range _ _ _ _ Hids x Hx).
    unfold measure_one. rewrite Ev, Eo. cbn [mbind option_bind]. rewrite <- Eb.
    pose proof (Z.div_mod o page ltac:(lia)). pose proof (Z.mod_pos_bound o page ltac:(lia)).
    unfold in_page in Hip; cbn in Hip. rewrite (wrap64_small (page - o mod page)) by (unfold is_u64; lia).
    assert (0 <= o / page < chunks) as Hc.
    { split; [apply Z.div_pos; lia|]. unfold chunks.
      assert (o / page <= (top - 1) / page); [|lia]. apply Z.div_le_mono; lia. }
    destruct (Z.ltb_spec page (bytes_of x)); [lia|]. destruct (Z.ltb_spec (page - o mod page) (bytes_of x)); [lia|].
    destruct (Z.leb_spec chunks (o / page)); [lia|]. cbn [orb].
    destruct (zget_is_Some owners (o / page) ltac:(lia)) as [w Ew]. destruct (zget_is_Some extents (o / page) ltac:(lia)) as [e Ee].
    rewrite Ew. cbn [mbind option_bind]. rewrite zset_Some by lia. cbn [mbind option_bind].
    rewrite Ee. cbn [mbind option_bind]. rewrite zset_Some by lia. cbn [mbind option_bind].
    rewrite wrap64_small by (unfold is_u64; lia). eexists. split; [done|].
    set (w' := if w =? 0 then x else Z.min w x).
    assert (w' = x \/ w' = w /\ w <> 0) as Hw'.
    { unfold w'. destruct (Z.eqb_spec w 0); [by left|]. destruct (Z.min_spec w x) as [[_ ->]|[_ ->]]; [by right | by left]. }
    assert (w' <> 0) as Hw0 by (destruct Hw' as [->|[-> ?]]; lia).
    split; [by rewrite zlen_insert|]. split; [by rewrite zlen_insert|]. split; [|split].
    - intros c e' Hc'. destruct (decide (c = o / page)) as [->|Hnc].
      + rewrite zget_insert_eq in Hc' by lia. injection Hc' as <-. destruct (Hext _ _ Ee). lia.
      + rewrite zget_insert_ne in Hc' by (lia || done). by eapply Hext.
    - intros c u Hu. destruct (decide (c = o / page)) as [->|Hnc].
      + rewrite zget_insert_eq in Hu by lia. injection Hu as <-. right. rewrite elem_of_app, list_elem_of_singleton.
        destruct Hw' as [->|[-> Hwne]]; [split; [by right | by exists o]|].
        destruct (Hown _ _ Ew) as [|[? ?]]; [done|]. split; [by left | done].
      + rewrite zget_insert_ne in Hu by (lia || done). destruct (Hown _ _ Hu) as [|[? ?]]; [by left|]. right.
        rewrite elem_of_app. split; [by left | done].
    - intros y oy Hy Ey. destruct (decide (oy / page = o / page)) as [->|Hnc].
      + exists w'. rewrite zget_insert_eq by lia. done.
      + apply elem_of_app in Hy as [Hy|Hy].
        * destruct (Hin y oy Hy Ey) as (u & Hu & ?). exists u. rewrite zget_insert_ne by (lia || done). done.
        * apply list_elem_of_singleton in Hy as ->. rewrite Eo in Ey. by injection Ey as <-. }
  unfold after. rewrite E. cbn [mbind option_bind]. eexists. split; [done|]. set (used := List.filter _ _).
  assert (zlen used <= chunks) as Hused.
  { unfold used. assert (zlen (zip owners extents) = chunks) as <- by (unfold zlen in *; rewrite length_zip_with; lia).
    unfold zlen. generalize (zip owners extents) as l. induction l as [|e l IH]; cbn; [lia|]. case_match; cbn; lia. }
  assert (Forall (fun e : Z * Z => 0 <= e.2 <= page) used) as Hall.
  { apply Forall_forall. intros [w e] Hin'. unfold used in Hin'. apply filter_In in Hin' as [Hz _].
    apply in_combine_r, list_elem_of_In, list_elem_of_lookup in Hz as [i Hi]. apply (Hext (Z.of_nat i)). by rewrite zget_nat. }
  destruct (Accumulate_sum page used ltac:(lia) Hall 0 ltac:(lia)) as [H1 H2]. pose proof (zlen_nonneg used).
  split; cbn [ar_bytes ar_count ar_owners].
  - split; [done|]. nia.
  - lia.
  - intros y o Hy Ey. destruct (Hin y o Hy Ey) as (w & Ew & Hwne). destruct (Hown _ _ Ew) as [|(Hwd & ow & Eow & Hco)]; [done|].
    exists w, ow. done.
Qed.

(** ** Ordinary and large resources *)
Lemma filter_split {A} (p : A -> bool) (l d r : list A) x : List.filter p l = d ++ x :: r ->
  exists d' r', l = d' ++ x :: r' /\ (forall y, y ∈ d -> y ∈ d').
Proof using.
  revert d. induction l as [|a l IH]; intros d E; cbn in E; [by destruct d|]. destruct (p a).
  - destruct d as [|b d]; cbn in E; injection E as -> E; [exists [], l; split; [done | intros y Hy; by apply elem_of_nil in Hy]|].
    destruct (IH d E) as (d' & r' & -> & H). exists (b :: d'), r'. split; [done|].
    intros y [->|Hy]%elem_of_cons; [by left | right; by apply H].
  - destruct (IH d E) as (d' & r' & -> & H). exists (a :: d'), r'. split; [done|]. intros y Hy. right. by apply H.
Qed.

(** A part of the arena that is told by the size is closed under sources. *)
Lemma arena_ids_filter ids (p : Z -> bool) : arena_ids ids -> arena_ids (List.filter (fun id => p (bytes_of id)) ids).
Proof using.
  intros H. assert (forall y, y ∈ List.filter (fun id => p (bytes_of id)) ids <-> y ∈ ids /\ p (bytes_of y) = true) as Hin.
  { intros y. rewrite !list_elem_of_In, filter_In. done. }
  destruct H as [H1 H2 H3 H4 H5 H6 H7 H8 H9]. split; try done.
  - apply NoDup_ListNoDup, NoDup_filter. by apply NoDup_ListNoDup.
  - intros id [Hid _]%Hin. by apply H2.
  - intros id [Hid _]%Hin. by apply H5.
  - intros id [Hid _]%Hin. by apply H6.
  - intros d x rest y E Hy. destruct (filter_split _ _ _ _ _ E) as (d' & r' & E' & Hd). eapply H7; [exact E' | by apply Hd].
  - intros id [Hid Hp]%Hin Hs. destruct (H8 id Hid Hs) as (? & ? & ? & Eb). rewrite Hin, Eb. done.
  - intros x y [Hx _]%Hin [Hy _]%Hin. by apply H9.
Qed.

(** ** The page and the offset in it *)
Lemma settle_ok ids page arena_owners owners0 offsets0 : arena_ids ids ->
  zlen owners0 = zlen resources -> zlen offsets0 = zlen resources ->
  (forall y, y ∈ ids -> exists o w, zget offsets0 (slot y) = Some o /\ zget arena_owners (o / page) = Some w /\ w <> 0) ->
  exists owners offsets, for_loop (settle_one page arena_owners) (owners0, offsets0) ids = Some (Next (owners, offsets)) /\
    zlen owners = zlen resources /\ zlen offsets = zlen resources /\
    (forall y o, y ∈ ids -> zget offsets0 (slot y) = Some o ->
       zget owners (slot y) = zget arena_owners (o / page) /\ zget offsets (slot y) = Some (o mod page)).
Proof using.
  intros Hids Hlo Hlf Hplace.
  destruct (for_loop_total (R := option Layout) (fun d '(owners, offsets) =>
      zlen owners = zlen resources /\ zlen offsets = zlen resources /\
      (forall y, y ∈ ids -> y ∉ d -> zget offsets (slot y) = zget offsets0 (slot y)) /\
      forall y o, y ∈ d -> zget offsets0 (slot y) = Some o ->
        zget owners (slot y) = zget arena_owners (o / page) /\ zget offsets (slot y) = Some (o mod page))
    (settle_one page arena_owners) ids (owners0, offsets0)) as ([owners offsets] & E & ? & ? & _ & H).
  - repeat split; try done; by apply elem_of_nil in H.
  - intros d x rest [owners offsets] Eids (Hl1 & Hl2 & Hun & Hdone).
    assert (x ∈ ids) as Hx by (rewrite Eids, elem_of_app; right; by left).
    assert (x ∉ d) as Hxd.
    { intros Hxd. pose proof (ai_nodup _ _ _ _ Hids) as Hn. rewrite Eids in Hn. apply list.NoDup_app in Hn as (_ & Hn & _).
      apply (Hn x Hxd). by left. }
    destruct (Hplace x Hx) as (o & w & Eo & Ew & Hw). destruct (slot_ids _ _ _ Hids x Hx) as [_ Hs].
    assert (forall y, y ∈ ids -> y <> x -> slot x <> slot y) as Hne.
    { intros y Hy Hn Es. by apply Hn, (slot_inj _ _ _ Hids). }
    unfold settle_one. rewrite (Hun x Hx Hxd), Eo. cbn [mbind option_bind]. rewrite Ew. destruct (Z.eqb_spec w 0); [done|].
    rewrite (zset_Some owners) by lia. cbn [mbind option_bind]. rewrite (zset_Some offsets) by lia. cbn [mbind option_bind].
    eexists. split; [done|]. cbv beta iota. rewrite !zlen_insert. split; [done|]. split; [done|]. split.
    + intros y Hy Hn. rewrite elem_of_app, list_elem_of_singleton in Hn. rewrite zget_insert_ne by (lia || (apply Hne; tauto)).
      apply Hun; tauto.
    + intros y oy Hy Ey. assert (y ∈ ids) as Hyin.
      { rewrite Eids. rewrite elem_of_app in Hy |- *. destruct Hy as [|Hy]; [by left|]. right.
        apply list_elem_of_singleton in Hy as ->. by left. }
      destruct (decide (y = x)) as [->|Hn].
      * rewrite !zget_insert_eq by lia. rewrite Eo in Ey. injection Ey as <-. done.
      * rewrite !zget_insert_ne by (lia || by apply Hne). apply Hdone; [|done].
        apply elem_of_app in Hy as [|Hy]; [done|]. by apply list_elem_of_singleton in Hy.
  - exists owners, offsets. done.
Qed.

(** ** The whole arena *)

(** [x] is written over [y] in place. *)
Definition in_place (x y : Z) : Prop := source_of x = y /\ first_of x = last_of y.

Record layout_safe (ids : list Z) (limit : Z) (layout : Layout) : Prop := {
  ls_place : forall y, y ∈ ids -> exists w o, zget (lay_owners layout) (slot y) = Some w /\
    zget (lay_offsets layout) (slot y) = Some o /\ w <> 0 /\ 0 <= o /\ o mod 256 = 0 /\ o + bytes_of y <= limit;
  ls_safe : forall x y w ox oy, x ∈ ids -> y ∈ ids -> x <> y -> overlap first_of last_of x y ->
    zget (lay_owners layout) (slot x) = Some w -> zget (lay_owners layout) (slot y) = Some w ->
    zget (lay_offsets layout) (slot x) = Some ox -> zget (lay_offsets layout) (slot y) = Some oy ->
    apart (ox, bytes_of x) (oy, bytes_of y) \/ in_place x y \/ in_place y x;
  ls_bytes : 0 <= lay_bytes layout <= U64_MAX;
  ls_count : 0 <= lay_count layout <= U64_MAX;
}.

Lemma pack_ordinary_ok ids page : arena_ids ids -> 256 <= page <= U64_MAX -> page mod 256 = 0 ->
  (forall y, y ∈ ids -> bytes_of y <= page) ->
  (pack_ordinary resources lifetimes ids page destructive = Some None /\ U64_MAX < page * zlen ids) \/
  exists offsets arena, pack_ordinary resources lifetimes ids page destructive = Some (Some (offsets, arena)) /\
    zlen offsets = zlen resources /\ arena_measured ids page offsets arena /\
    (ids <> [] -> exists top, ordinary_placed resources lifetimes destructive (ids := ids) page offsets top).
Proof using.
  intros Hids Hpage Hmod Hb. unfold pack_ordinary. case_bool_decide as Hnil.
  { right. do 2 eexists. split; [done|]. split; [by rewrite zlen_replicate|]. split; [|done]. subst ids.
    split; cbn; [split; [lia|]; change (zlen []) with 0; lia | split; [lia|]; change (zlen []) with 0; lia | intros y o Hy; by apply elem_of_nil in Hy]. }
  destruct (place_ordinary_ok resources lifetimes destructive Hids page (replicate (length resources) 0)
    ltac:(by rewrite zlen_replicate) Hpage Hmod Hb) as [[-> Hlt] | (offsets & top & -> & Hpl)]; cbn; [by left|].
  destruct (measure_ordinary_ok ids page offsets top Hids Hnil Hpl Hpage Hmod Hb) as (arena & -> & Hm).
  right. do 2 eexists. split; [done|]. split; [apply Hpl|]. split; [done|]. eauto.
Qed.

Lemma group_ok ids (small : Z -> bool) limit : arena_ids ids -> (forall y, y ∈ ids -> bytes_of y <= limit) ->
  for_loop (R := option Layout) (fun '(ordinary, large) id =>
        if (id =? 0) || (zlen resources <? id) then Some (Return None) else
        value ← zget resources (slot id);
        if (g_bytes value =? 0) || (limit <? g_bytes value) then Some (Return None) else
        Some (Next (if small (g_bytes value) then (ordinary ++ [id], large)
                    else (ordinary, large ++ [id])))) ([], []) ids =
  Some (Next (List.filter (fun id => small (bytes_of id)) ids, List.filter (fun id => negb (small (bytes_of id))) ids)).
Proof using.
  intros Hids Hb. match goal with |- for_loop ?b _ _ = _ => set (body := b) end.
  assert (forall o g x, x ∈ ids -> body (o, g) x =
    Some (Next (if small (bytes_of x) then (o ++ [x], g) else (o, g ++ [x])))) as Hstep.
  { intros o g x Hx. destruct (get_value _ _ _ Hids x Hx) as (v & Ev & Eb & _).
    pose proof (ai_range _ _ _ _ Hids x Hx). pose proof (ai_bytes _ _ _ _ Hids x Hx). pose proof (Hb x Hx).
    unfold body. destruct (Z.eqb_spec x 0); [lia|]. destruct (Z.ltb_spec (zlen resources) x); [lia|]. cbn [orb].
    rewrite Ev. cbn [mbind option_bind]. rewrite <- Eb. destruct (Z.eqb_spec (bytes_of x) 0); [lia|].
    destruct (Z.ltb_spec limit (bytes_of x)); [lia|]. done. }
  clearbody body.
  assert (forall l o g, (forall y, y ∈ l -> y ∈ ids) -> for_loop (R := option Layout) body (o, g) l =
    Some (Next (o ++ List.filter (fun id => small (bytes_of id)) l, g ++ List.filter (fun id => negb (small (bytes_of id))) l))) as G.
  { induction l as [|x l IH]; intros o g Hl; cbn [for_loop List.filter]; [by rewrite !app_nil_r|].
    rewrite Hstep by (apply Hl; by left). cbn [mbind option_bind].
    destruct (small (bytes_of x)); cbn [negb]; (rewrite IH; [|intros; apply Hl; by right]); by rewrite <- app_assoc. }
  exact (G ids [] [] (fun _ H => H)).
Qed.

Lemma pack_ok ids limit : arena_ids ids -> 256 <= limit <= U64_MAX -> limit mod 256 = 0 ->
  (forall y, y ∈ ids -> bytes_of y <= limit) ->
  (pack resources lifetimes ids limit destructive = Some None /\ U64_MAX < limit * zlen ids) \/
  exists layout, pack resources lifetimes ids limit destructive = Some (Some layout) /\ layout_safe ids limit layout.
Proof using.
  intros Hids Hlim Hmod Hb.
  assert (exists r, pack resources lifetimes ids limit destructive = r /\ ((r = Some None /\ U64_MAX < limit * zlen ids) \/
    exists layout, r = Some (Some layout) /\ layout_safe ids limit layout)) as (r & -> & H); [|exact H].
  unfold pack. change Alignment with 256. set (page := Z.min Chunk limit).
  assert (256 <= page <= limit /\ page mod 256 = 0) as [Hpage Hpmod].
  { unfold page, Chunk. split; [lia|]. destruct (Z.min_spec 1073741824 limit) as [[_ ->]|[_ ->]]; [done|done]. }
  destruct (Z.ltb_spec limit 256); [lia|]. rewrite Hmod, (ai_lifetimes _ _ _ _ Hids), !Z.eqb_refl. cbn [negb orb].
  rewrite (group_ok ids (fun b => b <=? page) limit Hids Hb). unfold after at 1. cbn [mbind option_bind].
  set (small := List.filter _ ids). set (large := List.filter _ ids).
  assert (arena_ids small) as Hsmall by (apply (arena_ids_filter ids (fun b => b <=? page)), Hids).
  assert (arena_ids large) as Hlarge by (apply (arena_ids_filter ids (fun b => negb (b <=? page))), Hids).
  assert (forall y, y ∈ small <-> y ∈ ids /\ bytes_of y <= page) as Hins.
  { intros y. unfold small. rewrite !list_elem_of_In, filter_In, Z.leb_le. done. }
  assert (forall y, y ∈ large <-> y ∈ ids /\ page < bytes_of y) as Hinl.
  { intros y. unfold large. rewrite !list_elem_of_In, filter_In, negb_true_iff, Z.leb_gt. done. }
  assert (zlen small + zlen large = zlen ids) as Hsum.
  { unfold small, large, zlen. clear. induction ids as [|x l IH]; cbn; [done|]. destruct (_ <=? _); cbn; lia. }
  pose proof (zlen_nonneg small). pose proof (zlen_nonneg large).
  destruct (pack_ordinary_ok small page Hsmall ltac:(lia) Hpmod) as [[-> Hlt] | (offsets & arena & -> & Hlen & Ham & Hop)].
  { intros y [_ ?]%Hins. done. }
  { eexists. split; [reflexivity|]. left. split; [done|]. nia. }
  cbn [bind_ok mbind option_bind].
  assert (forall y, y ∈ small -> exists top, ordinary_placed resources lifetimes destructive (ids := small) page offsets top) as Hop'.
  { intros y Hy. apply Hop. intros E. rewrite E in Hy. by apply elem_of_nil in Hy. }
  destruct Ham as [Hab Hac Hao].
  destruct (settle_ok small page (ar_owners arena) (replicate (length resources) 0) offsets Hsmall) as (owners & offs & -> & Hl1 & Hl2 & Hset).
  { by rewrite zlen_replicate. } { done. }
  { intros y Hy. destruct (Hop' y Hy) as (top & Hpl). destruct (op_place _ _ _ _ _ _ Hpl y Hy) as (o & Eo & _).
    destruct (Hao y o Hy Eo) as (w & ow & Ew & Hw & _). exists o, w. split; [done|]. split; [done|].
    pose proof (ai_range _ _ _ _ Hsmall w Hw). lia. }
  unfold after. cbn [mbind option_bind].
  destruct (place_large_ok resources lifetimes destructive Hlarge limit ltac:(lia)
    ltac:(intros y [Hy _]%Hinl; by apply Hb) (mk_layout (ar_bytes arena) (ar_count arena) owners offs) Hl1 Hl2)
    as [[-> Hover] | (layout & -> & [Lp Lo Ll Ls Lb Lc])]; cbn [lay_bytes lay_count] in *.
  { lia. } { nia. }
  { eexists. split; [reflexivity|]. left. split; [done|]. destruct Hover; nia. }
  eexists. split; [reflexivity|]. right. exists layout. split; [done|].
  assert (forall y, y ∈ small -> exists o w ow, zget offsets (slot y) = Some o /\ zget (lay_owners layout) (slot y) = Some w /\
    zget (lay_offsets layout) (slot y) = Some (o mod page) /\ w ∈ small /\ zget offsets (slot w) = Some ow /\ ow / page = o / page /\
    0 <= o /\ o mod 256 = 0 /\ in_page page (o, bytes_of y)) as Hs.
  { intros y Hy. destruct (Hop' y Hy) as (top & Hpl). destruct (op_place _ _ _ _ _ _ Hpl y Hy) as (o & Eo & ? & _ & ? & ?).
    destruct (Hao y o Hy Eo) as (w & ow & Ew & Hw & Eow & Hp). destruct (Hset y o Hy Eo) as [E1 E2].
    destruct (Lo (slot y)) as [E3 E4].
    { intros z Hz Ez. pose proof Hy as [Hyi ?]%Hins. pose proof Hz as [Hzi ?]%Hinl.
      assert (z = y) as -> by (by apply (slot_inj _ _ _ Hids)). lia. }
    cbn [lay_owners lay_offsets] in *. exists o, w, ow. rewrite E3, E4, E1, E2. done. }
  assert (forall y, y ∈ ids -> y ∈ small \/ y ∈ large) as Hcase.
  { intros y Hy. rewrite Hins, Hinl. destruct (decide (bytes_of y <= page)); [by left | right; split; [done|lia]]. }
  split; [| | done | done].
  - intros y Hy. destruct (Hcase y Hy) as [Hy'|Hy'].
    + destruct (Hs y Hy') as (o & w & ow & _ & Ew & Eo & Hw & _ & _ & Ho0 & Hom & Hip). exists w, (o mod page).
      pose proof (ai_range _ _ _ _ Hsmall w Hw). pose proof (Z.mod_pos_bound o page ltac:(lia)).
      unfold in_page in Hip; cbn in Hip. repeat split; [done | done | lia | lia | | lia].
      pose proof (Z.div_mod o page ltac:(lia)) as Hd.
      replace (o mod page) with (o - page * (o / page)) by lia.
      rewrite Zminus_mod, Hom, <- Z.mul_mod_idemp_l, Hpmod by lia. done.
    + destruct (Lp y Hy') as (w & Ew & Hw & Eo). exists w, 0. pose proof (ai_range _ _ _ _ Hlarge w Hw).
      repeat split; [done | done | lia | lia |]. rewrite Z.add_0_l. by apply Hb.
  - intros x y w ox oy Hx Hy Hne Hov Ewx Ewy Eox Eoy.
    destruct (Hcase x Hx) as [Hx'|Hx'], (Hcase y Hy) as [Hy'|Hy'].
    + destruct (Hs x Hx') as (px & wx & owx & Epx & Ewx' & Eox' & Hwx & Eowx & Hcx & _).
      destruct (Hs y Hy') as (py & wy & owy & Epy & Ewy' & Eoy' & Hwy & Eowy & Hcy & _).
      rewrite Ewx in Ewx'. rewrite Ewy in Ewy'. injection Ewx' as <-. injection Ewy' as <-.
      rewrite Eox in Eox'. rewrite Eoy in Eoy'. injection Eox' as ->. injection Eoy' as ->.
      rewrite Eowx in Eowy. injection Eowy as <-. destruct (Hop' x Hx') as (top & Hpl).
      destruct (op_safe _ _ _ _ _ _ Hpl x y px py Hx' Hy' Hne Hov Epx Epy) as [Ha|[(? & ? & _)|(? & ? & _)]];
        [left | right; left; done | right; right; done].
      pose proof (Z.div_mod px page ltac:(lia)). pose proof (Z.div_mod py page ltac:(lia)).
      assert (px / page = py / page) as Epage by congruence. rewrite Epage in *. unfold apart in *; cbn in *. lia.
    + destruct (Hs x Hx') as (px & wx & owx & _ & Ewx' & _ & Hwx & _). destruct (Lp y Hy') as (wy & Ewy' & Hwy & _).
      rewrite Ewx in Ewx'. rewrite Ewy in Ewy'. injection Ewx' as <-. injection Ewy' as <-.
      apply Hins in Hwx as [_ ?]. apply Hinl in Hwy as [_ ?]. lia.
    + destruct (Hs y Hy') as (py & wy & owy & _ & Ewy' & _ & Hwy & _). destruct (Lp x Hx') as (wx & Ewx' & Hwx & _).
      rewrite Ewx in Ewx'. rewrite Ewy in Ewy'. injection Ewx' as <-. injection Ewy' as <-.
      apply Hins in Hwy as [_ ?]. apply Hinl in Hwx as [_ ?]. lia.
    + right. destruct (Ls x y w Hx' Hy' Hne Hov Ewx Ewy) as [|]; [by left | by right].
Qed.
End Pack.

(** ** The memory plan of a graph is safe

    The planner returns for every graph, and in the plan of a graph two resources that
    are alive at the same node share no byte, unless one is written over the other at
    the node that uses the other for the last time. *)
(** ** Phases that return *)
Definition returns {A R} (r : option (flow A R)) (Q : A -> Prop) : Prop :=
  exists f, r = Some f /\ match f with Next a => Q a | Return _ => True end.

Lemma returns_next {A R} (a : A) (Q : A -> Prop) : Q a -> returns (R := R) (Some (Next a)) Q.
Proof. intros H. by exists (Next a). Qed.
Lemma returns_return {A R} (r : R) (Q : A -> Prop) : returns (Some (Return r)) Q.
Proof. by exists (Return r). Qed.
#[export] Hint Resolve returns_return : core.

Lemma returns_andThen {A B} (r : result A) (k : A -> result B) (P : A -> Prop) (Q : B -> Prop) :
  returns r P -> (forall a, P a -> returns (k a) Q) -> returns (andThen r k) Q.
Proof. intros (f & -> & Hf) Hk. unfold andThen. cbn. destruct f as [a|reason]; [by apply Hk | done]. Qed.

Lemma returns_for {A S R} (Inv : list A -> S -> Prop) (body : S -> A -> option (flow S R)) (Q : S -> Prop) l s :
  Inv [] s ->
  (forall d x rest st, l = d ++ x :: rest -> Inv d st -> returns (body st x) (Inv (d ++ [x]))) ->
  (forall st, Inv l st -> Q st) -> returns (for_loop body s l) Q.
Proof.
  intros H0 Hstep HQ.
  destruct (for_loop_safe Inv body l s H0) as [(v & ->) | (st & -> & HI)]; [| done | apply returns_next; auto].
  intros d x rest st E HI. destruct (Hstep d x rest st E HI) as ([st'|v] & E' & H); [right | left]; eauto.
Qed.

Lemma zmodify_Some {A} (l : list A) i f x : zget l i = Some x ->
  zmodify l i f = Some (<[Z.to_nat i := f x]> l).
Proof.
  intros E. unfold zmodify. rewrite E. cbn. apply zset_Some. by eapply zget_range.
Qed.

Lemma range_split lo hi d x rest : lo <= hi -> range lo hi = d ++ x :: rest ->
  x = lo + zlen d /\ x < hi /\ forall y, y ∈ d <-> lo <= y < x.
Proof.
  intros Hle E. assert (zget (range lo hi) (zlen d) = Some x) as Hx by (rewrite E; by apply zget_app_mid).
  assert (lo + zlen d < hi) as Hlt.
  { apply zget_range in Hx. rewrite zlen_range in Hx by done. lia. }
  rewrite zget_range_ix in Hx by (pose proof (zlen_nonneg d); lia). injection Hx as <-.
  split; [done|]. split; [done|]. intros y. pose proof (zlen_nonneg d).
  assert (d = range lo (lo + zlen d)) as Ed.
  { rewrite (range_app lo (lo + zlen d) hi) in E by lia.
    apply (f_equal (take (length d))) in E. rewrite take_app_length in E.
    rewrite take_app_le in E by (rewrite length_range; unfold zlen; lia).
    rewrite firstn_all2 in E by (rewrite length_range; unfold zlen; lia). done. }
  rewrite Ed at 1. apply elem_of_range.
Qed.

(** ** Graphs as the planner gets them *)
Record graph_typed (info : Info) (nodes : list MemoryNode) : Prop := {
  gt_resources : zlen (i_resources info) <= U32_MAX;
  gt_nodes : zlen (i_nodes info) <= NoNode;
  gt_resource : forall r, r ∈ i_resources info -> 0 <= g_active r /\ 0 <= g_parent r /\
    0 <= g_elements r <= U64_MAX /\ 0 <= g_element_bytes r <= U64_MAX;
  gt_access : forall node a, node ∈ i_nodes info -> a ∈ n_accesses node -> 0 <= a_resource a;
  gt_domain : forall m, m ∈ nodes -> 0 <= d_count (m_domain m) /\ 0 <= d_predicate (m_domain m);
}.

(** ** Validation *)

(** Resources that differ in the fields the planner writes only. *)
Definition erase (r : Resource) : Resource := set_reset NoNode (set_source 0 (set_alias 0 0 r)).

Definition like (rs rs' : list Resource) : Prop := erase <$> rs = erase <$> rs'.

Lemma like_refl rs : like rs rs.
Proof. done. Qed.
Lemma like_trans a b c : like a b -> like b c -> like a c.
Proof. unfold like. congruence. Qed.
Lemma like_zlen rs rs' : like rs rs' -> zlen rs = zlen rs'.
Proof. intros H. apply (f_equal length) in H. rewrite !length_fmap in H. unfold zlen. by rewrite H. Qed.
Lemma like_get rs rs' i r' : like rs rs' -> zget rs' i = Some r' -> exists r, zget rs i = Some r /\ erase r = erase r'.
Proof.
  intros H [Hi E]%zget_Some. assert ((erase <$> rs) !! Z.to_nat i = Some (erase r')) as E'.
  { rewrite H, list_lookup_fmap, E. done. }
  rewrite list_lookup_fmap in E'. destruct (rs !! Z.to_nat i) as [r|] eqn:Er; [|done].
  exists r. split; [by apply zget_Some | cbn in E'; congruence].
Qed.
Lemma like_sym a b : like a b -> like b a.
Proof. unfold like. congruence. Qed.
Lemma like_insert rs i r r' : zget rs i = Some r -> erase r' = erase r -> like rs (<[Z.to_nat i := r']> rs).
Proof.
  intros [Hi E]%zget_Some Hr. unfold like. rewrite list_fmap_insert, Hr.
  symmetry. apply list_insert_id. by rewrite list_lookup_fmap, E.
Qed.

(** What validation establishes of the resources; it speaks of fields the planner
    never writes. *)
Record resources_valid (rs : list Resource) : Prop := {
  rv_size : zlen rs <= U32_MAX;
  rv_get : forall i r, zget rs i = Some r -> g_id r = i + 1 /\ 0 <= g_active r <= zlen rs /\
    0 <= g_parent r <= zlen rs /\ 0 <= g_bytes r <= U64_MAX;
}.

Lemma like_valid rs rs' : like rs rs' -> resources_valid rs -> resources_valid rs'.
Proof.
  intros Hl [H1 H2]. pose proof (like_zlen _ _ Hl) as Hz. split; [by rewrite <- Hz|].
  intros i r E. destruct (like_get _ _ _ _ Hl E) as (r0 & E0 & He). destruct (H2 i r0 E0) as (? & ? & ? & ?).
  destruct r, r0. cbn in *. injection He as -> -> -> -> -> -> -> -> -> -> -> -> ->. rewrite <- Hz. done.
Qed.

Lemma slot_index id n : 1 <= id <= n -> n <= U32_MAX -> slot id = id - 1 /\ 0 <= slot id < n.
Proof. intros H Hn. rewrite slot_small by lia. lia. Qed.

Lemma get_slot {A} (l : list A) id : 1 <= id <= zlen l -> zlen l <= U32_MAX -> exists x, zget l (slot id) = Some x.
Proof. intros H Hn. apply zget_is_Some. by apply (slot_index id (zlen l)). Qed.

(** Fields that [erase] keeps. *)
Lemma erase_fields r r' : erase r = erase r' -> g_id r = g_id r' /\ g_active r = g_active r' /\ g_parent r = g_parent r' /\
  g_bytes r = g_bytes r' /\ g_elements r = g_elements r' /\ g_element_bytes r = g_element_bytes r' /\
  g_visibility r = g_visibility r'.
Proof. destruct r, r'. unfold erase, set_reset, set_source, set_alias. cbn. intros [=]. done. Qed.

Lemma like_modify rs i r r' rs0 : like rs0 rs -> zget rs i = Some r -> erase r' = erase r ->
  like rs0 (<[Z.to_nat i := r']> rs).
Proof. intros H E He. eapply like_trans; [exact H | by apply (like_insert rs i r r')]. Qed.

(** The checks of one resource. *)
Definition resource_ok (n index : Z) (r : Resource) : Prop :=
  g_id r = index + 1 /\ 0 <= g_active r <= n /\ 0 <= g_parent r <= n /\ 0 <= g_bytes r <= U64_MAX.

Lemma validate_resource_returns rs0 rs index (Q : list Resource -> Prop) :
  zlen rs <= U32_MAX -> 0 <= index < zlen rs ->
  (forall i r, zget rs i = Some r -> 0 <= g_active r /\ 0 <= g_parent r /\
     0 <= g_elements r <= U64_MAX /\ 0 <= g_element_bytes r <= U64_MAX) ->
  (forall r, zget rs index = Some r -> resource_ok (zlen rs) index r ->
     Q (<[Z.to_nat index := set_reset NoNode (set_source 0 (set_alias (g_id r) 0 r))]> rs)) ->
  like rs0 rs -> returns (validate_resource rs index) Q.
Proof.
  intros Hn Hi Ht HQ _. unfold validate_resource. destruct (zget_is_Some rs index Hi) as [r Er]. rewrite Er. cbn [mbind option_bind].
  destruct (Ht _ _ Er) as (Ha & Hp & He & Heb). destruct (bytes_valid index r) eqn:Eb; cbn [negb]; [|auto].
  assert (exists b, active_valid rs r = Some b /\ (b = true -> 0 <= g_active r <= zlen rs)) as (b1 & -> & Hb1).
  { unfold active_valid. destruct (Z.eqb_spec (g_active r) 0); [exists true; split; [done|]; pose proof (zlen_nonneg rs); lia|].
    destruct (Z.ltb_spec (zlen rs) (g_active r)); [by exists false|].
    destruct (get_slot rs (g_active r) ltac:(lia) Hn) as [v ->]. cbn. eexists. split; [done|]. lia. }
  cbn [mbind option_bind]. destruct b1; cbn [negb]; [|auto]. specialize (Hb1 eq_refl).
  assert (exists b, parent_valid rs r = Some b /\ (b = true -> 0 <= g_parent r <= zlen rs)) as (b2 & -> & Hb2).
  { unfold parent_valid. destruct (Z.eqb_spec (g_parent r) 0); [exists true; split; [done|]; pose proof (zlen_nonneg rs); lia|].
    destruct (negb (count_value r)); cbn [orb]; [by exists false|].
    destruct (Z.ltb_spec (zlen rs) (g_parent r)); [by exists false|].
    destruct (get_slot rs (g_parent r) ltac:(lia) Hn) as [v ->]. cbn. eexists. split; [done|]. lia. }
  cbn [mbind option_bind]. destruct b2; cbn [negb]; [|auto]. specialize (Hb2 eq_refl).
  rewrite zset_Some by done. cbn [mbind option_bind]. apply returns_next, HQ; [done|].
  unfold bytes_valid in Eb. to_prop. destruct (Checked.mul _ _) as [bytes|] eqn:Em; [|done]. to_prop.
  unfold Checked.mul in Em. case_match; [done|]. injection Em as Em.
  pose proof (wrap64_range (g_elements r * g_element_bytes r)) as Hw. unfold is_u64 in Hw.
  split; [lia|]. split; [done|]. split; [done|]. lia.
Qed.

(** The walk along the parents ends: every step changes a mark. *)
Definition marked (m : Z) (marks : list Z) : Z := zlen (List.filter (Z.eqb m) marks).

Lemma marked_zset m m' marks i : m <> m' -> zget marks i = Some m ->
  marked m (<[Z.to_nat i := m']> marks) = marked m marks - 1.
Proof.
  intros Hne [Hi E]%zget_Some. rewrite <- (take_drop_middle _ _ _ E) at 2. rewrite insert_take_drop by (by apply lookup_lt_Some in E).
  unfold marked. rewrite !List.filter_app. cbn [List.filter]. rewrite Z.eqb_refl. destruct (Z.eqb_spec m m'); [done|].
  rewrite !zlen_app, zlen_cons. lia.
Qed.

Lemma marked_bound m marks : 0 <= marked m marks <= zlen marks.
Proof.
  unfold marked, zlen. split; [lia|]. induction marks as [|x l IH]; cbn; [lia|]. case_match; cbn; lia.
Qed.

Lemma walk_marks_ok rs from to_ marks cursor : from <> to_ -> zlen rs <= U32_MAX -> zlen marks = zlen rs ->
  (forall i r, zget rs i = Some r -> 0 <= g_parent r <= zlen rs) -> 0 <= cursor <= zlen rs ->
  exists marks' cursor', walk_marks rs from to_ marks cursor = Some (marks', cursor') /\
    zlen marks' = zlen rs /\ 0 <= cursor' <= zlen rs.
Proof.
  intros Hne Hn Hm Hp Hc. unfold walk_marks.
  destruct (while_loop_safe (fun '(marks, cursor) => zlen marks = zlen rs /\ 0 <= cursor <= zlen rs)
    (fun '(marks, cursor) => zlen marks = zlen rs /\ 0 <= cursor <= zlen rs) (fun '(marks, _) => marked from marks)
    (fun '(_, cursor) => negb (cursor =? 0))
    (fun '(marks, cursor) =>
           mark ← zget marks (slot cursor);
           if mark =? from then
             marks ← zset marks (slot cursor) to_;
             value ← zget rs (slot cursor);
             Some (Next (marks, g_parent value))
           else Some (Return (marks, cursor))) (S (length rs)) (marks, cursor))
    as [([m c] & -> & ? & ?) | ([m c] & -> & (? & ?) & _)]; cbn; [done | | | by eauto | by eauto].
  - intros [m c] [Hl Hc'] Hcond. apply negb_true_iff, Z.eqb_neq in Hcond.
    destruct (slot_index c (zlen rs) ltac:(lia) Hn) as [_ Hs]. destruct (zget_is_Some m (slot c) ltac:(lia)) as [mark Em].
    rewrite Em. cbn [mbind option_bind]. destruct (Z.eqb_spec mark from) as [->|].
    + right. rewrite zset_Some by lia. cbn [mbind option_bind]. destruct (zget_is_Some rs (slot c) Hs) as [v Ev]. rewrite Ev. cbn [mbind option_bind].
      eexists. split; [done|]. split; [split; [by rewrite zlen_insert | by eapply Hp]|].
      rewrite marked_zset by done. pose proof (marked_bound from (<[Z.to_nat (slot c) := to_]> m)) as Hb.
      rewrite marked_zset in Hb by done. lia.
    + left. eexists. split; [done|]. done.
  - pose proof (marked_bound from marks). unfold zlen in *. lia.
Qed.

Lemma check_parents_returns rs marks value : zlen rs <= U32_MAX -> zlen marks = zlen rs ->
  (forall i r, zget rs i = Some r -> 0 <= g_parent r <= zlen rs) -> 0 <= g_id value <= zlen rs ->
  returns (check_parents rs marks value) (fun marks => zlen marks = zlen rs).
Proof.
  intros Hn Hm Hp Hv. unfold check_parents.
  destruct (walk_marks_ok rs 0 1 marks (g_id value)) as (m1 & c1 & -> & H1 & H2); try done. cbn [mbind option_bind].
  assert (exists b, (if c1 =? 0 then Some false else mark ← zget m1 (slot c1); Some (mark =? 1)) = Some b) as [b ->].
  { destruct (Z.eqb_spec c1 0); [by eexists|]. destruct (get_slot m1 c1 ltac:(lia) ltac:(lia)) as [mark ->]. by eexists. }
  cbn [mbind option_bind]. destruct b; [auto|].
  destruct (walk_marks_ok rs 1 2 m1 (g_id value)) as (m2 & c2 & -> & H3 & H4); try done. by apply returns_next.
Qed.

Lemma id_valid_ok rs id : zlen rs <= U32_MAX -> 0 <= id -> exists b, id_valid rs id = Some b /\ (b = true -> id <= zlen rs).
Proof.
  intros Hn Hid. unfold id_valid. destruct (Z.eqb_spec id 0); [exists true; split; [done|]; pose proof (zlen_nonneg rs); lia|].
  destruct (Z.ltb_spec (zlen rs) id); [by exists false|]. destruct (get_slot rs id ltac:(lia) Hn) as [v ->]. cbn. eexists. split; [done|]. lia.
Qed.

(** What validation leaves. *)
Record validated (info0 : Info) (nodes : list MemoryNode) (page : Z) (info : Info) : Prop := {
  va_resources : resources_valid (i_resources info);
  va_like : like (i_resources info0) (i_resources info);
  va_fresh : forall i r, zget (i_resources info) i = Some r ->
    g_source r = 0 /\ g_alias_group r = i + 1 /\ g_alias_offset_bytes r = 0;
  va_nodes : i_nodes info = i_nodes info0;
  va_memory : zlen nodes = zlen (i_nodes info0);
  va_page : 256 <= page /\ page mod 256 = 0;
  va_domain : forall m, m ∈ nodes -> 0 <= d_count (m_domain m) <= zlen (i_resources info);
}.

Lemma validate_returns info nodes page : graph_typed info nodes ->
  returns (validate info nodes page) (fun '(info', work) => validated info nodes page info' /\
    work = mk_work (replicate (length (i_resources info')) DefaultLifetime) (replicate (length (i_resources info')) 0) [] [] [] []).
Proof.
  intros [Hn Hnn Hr _ Hdom]. unfold validate. destruct (_ || _) eqn:E; [auto|]. to_prop. change Alignment with 256 in *.
  set (rs0 := i_resources info) in *. set (n := zlen rs0) in *.
  assert (forall i r, zget rs0 i = Some r -> 0 <= g_active r /\ 0 <= g_parent r /\
    0 <= g_elements r <= U64_MAX /\ 0 <= g_element_bytes r <= U64_MAX) as Ht0.
  { intros i r [_ Ei]%zget_Some. apply Hr. by eapply list_elem_of_lookup_2. }
  apply returns_andThen with (fun rs => like rs0 rs /\ forall i r, zget rs i = Some r ->
    resource_ok n i r /\ g_source r = 0 /\ g_alias_group r = i + 1 /\ g_alias_offset_bytes r = 0).
  { apply returns_for with (fun d rs => like rs0 rs /\ forall i r, i ∈ d -> zget rs i = Some r ->
      resource_ok n i r /\ g_source r = 0 /\ g_alias_group r = i + 1 /\ g_alias_offset_bytes r = 0).
    - split; [done|]. intros i r Hi. by apply elem_of_nil in Hi.
    - intros d index rest rs Eids [Hl Hd]. pose proof (zlen_nonneg rs0).
      destruct (range_split 0 n d index rest ltac:(lia) Eids) as (Hix & Hlt & Hin). pose proof (zlen_nonneg d).
      pose proof (like_zlen _ _ Hl) as Hlen. fold n in Hlen.
      eapply (validate_resource_returns rs0); [lia | lia | | | exact Hl].
      + intros i r Ei. destruct (like_get _ _ _ _ Hl Ei) as (r0 & E0 & He). destruct (erase_fields _ _ He) as (_ & <- & <- & _ & <- & <- & _).
        by eapply Ht0.
      + intros r Er Hok. split; [by eapply like_modify|]. intros i r' Hi Ei. destruct (decide (i = index)) as [->|Hne].
        * rewrite zget_insert_eq in Ei by lia. injection Ei as <-. destruct Hok as (Hid & ? & ? & ?). rewrite Hlen.
          split; [done|]. cbn. done.
        * rewrite zget_insert_ne in Ei by lia. apply elem_of_app in Hi as [Hi|Hi]; [by apply Hd|]. by apply list_elem_of_singleton in Hi.
    - intros rs [Hl Hd]. split; [done|]. intros i r Ei. apply Hd; [|done]. apply elem_of_range. apply zget_range in Ei.
      pose proof (like_zlen _ _ Hl). unfold n. lia. }
  intros rs [Hl Hok]. pose proof (like_zlen _ _ Hl) as Hlen. fold n in Hlen.
  apply returns_andThen with (fun _ => True).
  { apply returns_for with (fun _ marks => zlen marks = zlen rs); [| |done].
    - rewrite zlen_replicate, <- Hlen. done.
    - intros d value rest marks Eids Hm. assert (exists i, zget rs i = Some value) as [i Ei].
      { exists (zlen d). rewrite Eids. by apply zget_app_mid. }
      destruct (Hok _ _ Ei) as [(Hid & _ & Hp & _) _]. apply zget_range in Ei.
      apply check_parents_returns; [lia | done | | lia]. intros j r Ej. destruct (Hok _ _ Ej) as [(_ & _ & ? & _) _]. lia. }
  intros _ _. apply returns_andThen with (fun _ => forall m, m ∈ nodes -> 0 <= d_count (m_domain m) <= zlen rs).
  { apply returns_for with (fun d _ => forall m, m ∈ d -> 0 <= d_count (m_domain m) <= zlen rs); [| |done].
    - intros m Hm. by apply elem_of_nil in Hm.
    - intros d m rest _ Ed Hd. assert (m ∈ nodes) as Hm by (rewrite Ed, elem_of_app; right; by left).
      destruct (Hdom m Hm) as [Hc Hpr]. unfold valid_domain.
      destruct (id_valid_ok rs (d_count (m_domain m)) ltac:(lia) Hc) as (b1 & -> & Hb1). cbn [mbind option_bind].
      destruct b1; cbn [negb mbind option_bind]; [|auto].
      destruct (id_valid_ok rs (d_predicate (m_domain m)) ltac:(lia) Hpr) as (b2 & -> & Hb2). cbn [mbind option_bind].
      destruct b2; cbn [negb mbind option_bind]; [|auto]. destruct (_ || _); [|auto]. apply returns_next.
      intros m' [Hm'|Hm']%elem_of_app; [by apply Hd|]. apply list_elem_of_singleton in Hm' as ->. specialize (Hb1 eq_refl). lia. }
  intros _ Hd. apply returns_next. cbn [i_resources]. split.
  - split; cbn [i_resources i_nodes]; try done; try lia.
    + split; [lia|]. intros i r Ei. destruct (Hok i r Ei) as [(? & ? & ? & ?) _]. rewrite <- Hlen. done.
    + intros i r Ei. by destruct (Hok i r Ei).
  - assert (length rs = length rs0) as Elen by (apply Nat2Z.inj; exact (eq_sym Hlen)). by rewrite Elen.
Qed.
