(* ===== verification/ValidateFacts.v ===== *)
(** * ValidateFacts: validation accepts exactly the well-formed graphs

    A graph is well formed when every resource is, the parents of every resource end,
    and the domains of the nodes name counts. The two walks over the parents find every
    cycle, and on an accepted graph the bound on the depth of the ancestor search
    never cuts it short. *)

From stdpp Require Import base numbers list option.
From Stdlib Require Import ZArith Lia.
From S2P Require Import Prelude Checked Ordered MemoryModel MemoryArena PlanMemory MemoryArenaFacts OrdinaryFacts PackFacts.

(** ** Chains of parents *)
Definition parent_of (rs : list Resource) (id : Z) : Z := from_option g_parent 0 (zget rs (id - 1)).
Fixpoint up (rs : list Resource) (k : nat) (id : Z) : Z :=
  match k with O => id | S k => parent_of rs (up rs k id) end.
Definition rooted (rs : list Resource) (id : Z) : Prop := exists k, up rs k id = 0.

Lemma up_zero rs k : up rs k 0 = 0.
Proof. induction k as [|k IH]; cbn [up]; [done|]. by rewrite IH. Qed.
Lemma up_succ rs k id : up rs (S k) id = parent_of rs (up rs k id).
Proof. done. Qed.
Lemma up_add rs j k id : up rs (j + k) id = up rs j (up rs k id).
Proof. induction j as [|j IH]; cbn [up Nat.add]; [done|]. by rewrite IH. Qed.
Lemma up_stays rs k j id : up rs k id = 0 -> (k <= j)%nat -> up rs j id = 0.
Proof. intros E Hj. replace j with (j - k + k)%nat by lia. rewrite up_add, E. apply up_zero. Qed.

Lemma rooted_up rs k id : rooted rs (up rs k id) <-> rooted rs id.
Proof.
  split; intros [j Hj].
  - exists (j + k)%nat. by rewrite up_add.
  - exists j. rewrite <- up_add. apply (up_stays rs j); [done | lia].
Qed.

Lemma cycle_not_rooted rs k id : (0 < k)%nat -> id <> 0 -> up rs k id = id -> ~ rooted rs id.
Proof.
  intros Hk Hne E [j Hj]. assert (forall m, up rs (m * k) id = id) as Hm.
  { induction m as [|m IH]; [done|]. cbn [Nat.mul]. by rewrite up_add, IH. }
  apply Hne. rewrite <- (Hm j). apply (up_stays rs j); [done|]. nia.
Qed.

Lemma rooted_repeat rs i j id : rooted rs id -> (i < j)%nat -> up rs i id <> 0 -> up rs i id <> up rs j id.
Proof.
  intros Hr Hij Hne E. apply (cycle_not_rooted rs (j - i) (up rs i id)); [lia | done | | by apply rooted_up].
  rewrite <- up_add, E. f_equal. lia.
Qed.

(** ** Loops that decide *)
Lemma andThen_next {A B} (a : A) (k : A -> result B) : andThen (Some (Next a)) k = k a.
Proof. done. Qed.
Lemma andThen_return {A B} r (k : A -> result B) : andThen (Some (Return r)) k = Some (Return r).
Proof. done. Qed.

Lemma for_loop_decide {A S R} (Inv : list A -> S -> Prop) (P : A -> Prop) (body : S -> A -> option (flow S R)) (r : R) s l :
  Inv [] s ->
  (forall d x rest st, l = d ++ x :: rest -> Inv d st ->
     (exists st', body st x = Some (Next st') /\ P x /\ Inv (d ++ [x]) st') \/ (body st x = Some (Return r) /\ ~ P x)) ->
  (exists st, for_loop body s l = Some (Next st) /\ (forall x, x ∈ l -> P x) /\ Inv l st) \/
  (for_loop body s l = Some (Return r) /\ ~ forall x, x ∈ l -> P x).
Proof.
  intros H0 Hstep. assert (forall rest d st, l = d ++ rest -> Inv d st ->
    (exists st', for_loop body st rest = Some (Next st') /\ (forall x, x ∈ rest -> P x) /\ Inv l st') \/
    (for_loop body st rest = Some (Return r) /\ ~ forall x, x ∈ rest -> P x)) as G; [|by apply (G l [])].
  induction rest as [|x rest IH]; intros d st E HI.
  - left. exists st. rewrite app_nil_r in E. subst d. split; [done|]. split; [|done]. intros x Hx. by apply elem_of_nil in Hx.
  - cbn [for_loop]. destruct (Hstep d x rest st E HI) as [(st' & -> & Hx & HI')|[-> Hx]]; cbn [mbind option_bind].
    + destruct (IH (d ++ [x]) st') as [(st2 & -> & Hr & H2)|[-> Hr]]; [by rewrite <- app_assoc | done | |].
      * left. exists st2. split; [done|]. split; [|done]. intros y [->|Hy]%elem_of_cons; [done | by apply Hr].
      * right. split; [done|]. intros Hall. apply Hr. intros y Hy. apply Hall. by right.
    + right. split; [done|]. intros Hall. apply Hx, Hall. by left.
Qed.

(** ** The walks along the parents *)
Section Walk.
Context (rs : list Resource) (Hsize : zlen rs <= U32_MAX).
Context (Hparent : forall i r, zget rs i = Some r -> 0 <= g_parent r <= zlen rs).

Lemma parent_bound id : 0 <= id <= zlen rs -> 0 <= parent_of rs id <= zlen rs.
Proof using Hparent.
  intros Hid. unfold parent_of. destruct (zget rs (id - 1)) as [r|] eqn:E; cbn; [by eapply Hparent | lia].
Qed.
Lemma up_bound k id : 0 <= id <= zlen rs -> 0 <= up rs k id <= zlen rs.
Proof using Hparent. intros Hid. induction k as [|k IH]; [done|]. rewrite up_succ. by apply parent_bound. Qed.

(** [len] resources from [id] on were marked. *)
Definition painted (mark : Z) (id : Z) (len : nat) (marks marks' : list Z) : Prop :=
  zlen marks' = zlen marks /\ (forall j, (j < len)%nat -> up rs j id <> 0) /\
  forall i, 1 <= i <= zlen marks -> ((exists j, (j < len)%nat /\ up rs j id = i) /\ zget marks' (i - 1) = Some mark) \/
    ((forall j, (j < len)%nat -> up rs j id <> i) /\ zget marks' (i - 1) = zget marks (i - 1)).

Lemma painted_step mark id len marks marks' : zlen marks = zlen rs -> 0 <= id <= zlen rs -> up rs len id <> 0 ->
  painted mark id len marks marks' -> painted mark id (S len) marks (<[Z.to_nat (up rs len id - 1) := mark]> marks').
Proof using Hparent.
  intros Hm Hid Hne (Hl & Hnz & Hp). pose proof (up_bound len id Hid) as Hb. split; [by rewrite zlen_insert|]. split.
  { intros j Hj. destruct (decide (j = len)) as [->|]; [done|]. apply Hnz. lia. }
  intros i Hi. destruct (decide (i = up rs len id)) as [->|Hd].
  - left. split; [exists len; split; [lia | done]|]. apply zget_insert_eq. lia.
  - rewrite zget_insert_ne by lia. destruct (Hp i Hi) as [[(j & Hj & E) ?]|[Hn ?]]; [left | right]; (split; [|done]).
    + exists j. split; [lia | done].
    + intros j Hj. destruct (decide (j = len)) as [->|]; [congruence|]. apply Hn. lia.
Qed.

Lemma walk_marks_spec from to_ marks id : from <> to_ -> zlen marks = zlen rs -> 0 <= id <= zlen rs ->
  exists marks' len, walk_marks rs from to_ marks id = Some (marks', up rs len id) /\ painted to_ id len marks marks' /\
    (forall j, (j < len)%nat -> zget marks (up rs j id - 1) = Some from) /\
    (up rs len id = 0 \/ exists m, zget marks' (up rs len id - 1) = Some m /\ m <> from).
Proof using Hsize Hparent.
  intros Hne Hm Hid. unfold walk_marks.
  set (I := fun '(marks', cursor) => exists len, cursor = up rs len id /\ painted to_ id len marks marks' /\
    forall j, (j < len)%nat -> zget marks (up rs j id - 1) = Some from).
  destruct (while_loop_safe I (fun st => I st /\ exists m, zget st.1 (st.2 - 1) = Some m /\ m <> from) (fun '(marks, _) => marked from marks)
    (fun '(_, cursor) => negb (cursor =? 0))
    (fun '(marks, cursor) =>
           mark ← zget marks (slot cursor);
           if mark =? from then
             marks ← zset marks (slot cursor) to_;
             value ← zget rs (slot cursor);
             Some (Next (marks, g_parent value))
           else Some (Return (marks, cursor))) (S (length rs)) (marks, id))
    as [([m c] & E & (len & -> & Hp & Hf) & Hstop) | ([m c] & E & (len & -> & Hp & Hf) & Hcond)].
  - exists 0%nat. split; [done|]. split; [|lia]. split; [done|]. split; [lia|]. intros i Hi. right. split; [lia | done].
  - intros [m c] (len & -> & Hp & Hf) Hcond. apply negb_true_iff, Z.eqb_neq in Hcond. pose proof (up_bound len id Hid) as Hb.
    destruct (slot_index (up rs len id) (zlen rs) ltac:(lia) Hsize) as [Hs Hr]. rewrite Hs in *. pose proof Hp as (Hl & _ & Hpt).
    destruct (zget_is_Some m (up rs len id - 1) ltac:(lia)) as [mark Em]. rewrite Em. cbn [mbind option_bind].
    destruct (Z.eqb_spec mark from) as [->|Hd].
    + right. rewrite zset_Some by lia. cbn [mbind option_bind]. destruct (zget_is_Some rs (up rs len id - 1) Hr) as [v Ev]. rewrite Ev. cbn [mbind option_bind].
      eexists. split; [done|]. split.
      * exists (S len). split; [rewrite up_succ; unfold parent_of; by rewrite Ev|]. split; [by apply painted_step|].
        intros j Hj. destruct (decide (j = len)) as [->|]; [|apply Hf; lia].
        destruct (Hpt (up rs len id) ltac:(lia)) as [[_ E]|[_ E]]; congruence.
      * rewrite marked_zset by done. pose proof (marked_bound from (<[Z.to_nat (up rs len id - 1) := to_]> m)) as Hmb.
        rewrite marked_zset in Hmb by done. lia.
    + left. eexists. split; [done|]. split; [by exists len|]. cbn. by exists mark.
  - pose proof (marked_bound from marks). unfold zlen in *. lia.
  - rewrite E. cbn [mbind option_bind]. exists m, len. cbn in Hstop. split; [done|]. split; [done|]. split; [done|]. by right.
  - rewrite E. cbn [mbind option_bind]. exists m, len. split; [done|]. split; [done|]. split; [done|]. left. cbn in Hcond. by apply negb_false_iff, Z.eqb_eq in Hcond.
Qed.

(** Every mark is clear, or that of a resource whose parents end. *)
Definition settled (marks : list Z) : Prop := zlen marks = zlen rs /\
  forall i, 1 <= i <= zlen rs -> zget marks (i - 1) = Some 0 \/ (zget marks (i - 1) = Some 2 /\ rooted rs i).

Lemma check_parents_decides marks value : settled marks -> 1 <= g_id value <= zlen rs ->
  (exists marks', check_parents rs marks value = Some (Next marks') /\ rooted rs (g_id value) /\ settled marks') \/
  (check_parents rs marks value = Some (Return GraphInvalid) /\ ~ rooted rs (g_id value)).
Proof using Hsize Hparent.
  intros [Hl Hs] Hid. set (id := g_id value) in *. unfold check_parents. fold id.
  destruct (walk_marks_spec 0 1 marks id ltac:(done) Hl ltac:(lia)) as (m1 & len & -> & Hp1 & Hf1 & Hstop). cbn [mbind option_bind].
  pose proof (up_bound len id ltac:(lia)) as Hb. pose proof Hp1 as (Hl1 & Hnz & Hpt1).
  assert ((up rs len id <> 0 /\ zget m1 (up rs len id - 1) = Some 1 /\ ~ rooted rs id) \/
    ((up rs len id = 0 \/ zget m1 (up rs len id - 1) = Some 2) /\ rooted rs id)) as [(Hc & Em & Hnot) | [Hc Hroot]].
  { destruct (decide (up rs len id = 0)) as [E0|Hne].
    { right. split; [by left | by exists len]. }
    destruct Hstop as [|(m & Em & Hm)]; [done|].
    destruct (Hpt1 (up rs len id) ltac:(lia)) as [[(j & Hj & E) E1]|[_ E1]].
    - left. split; [done|]. split; [done|]. intros Hr. by apply (rooted_repeat rs j len id Hr Hj); [apply Hnz|].
    - destruct (Hs (up rs len id) ltac:(lia)) as [E2|[E2 Hr]]; [congruence|]. right. split; [right; congruence | by apply rooted_up in Hr]. }
  - right. split; [|done]. destruct (Z.eqb_spec (up rs len id) 0); [done|]. destruct (slot_index (up rs len id) (zlen rs) ltac:(lia) Hsize) as [-> _].
    rewrite Em. done.
  - assert ((if up rs len id =? 0 then Some false else mark ← zget m1 (slot (up rs len id)); Some (mark =? 1)) = Some false) as ->.
    { destruct (Z.eqb_spec (up rs len id) 0); [done|]. destruct (slot_index (up rs len id) (zlen rs) ltac:(lia) Hsize) as [-> _].
      destruct Hc as [|Em]; [done|]. by rewrite Em. }
    cbn [mbind option_bind].
    destruct (walk_marks_spec 1 2 m1 id ltac:(done) ltac:(congruence) ltac:(lia)) as (m2 & len2 & -> & (Hl2 & Hnz2 & Hpt2) & _ & Hstop2).
    cbn [mbind option_bind]. left. exists m2. split; [done|]. split; [done|]. split; [congruence|].
    assert (len <= len2)%nat as Hlen.
    { destruct (decide (len <= len2)%nat); [done|]. exfalso. assert (up rs len2 id <> 0) as Hne by (apply Hnz; lia).
      destruct Hstop2 as [|(m & Em & Hm)]; [done|]. pose proof (up_bound len2 id ltac:(lia)).
      destruct (Hpt2 (up rs len2 id) ltac:(lia)) as [[(j & Hj & E) _]|[_ E2]].
      - by apply (rooted_repeat rs j len2 id Hroot Hj); [apply Hnz2|].
      - destruct (Hpt1 (up rs len2 id) ltac:(lia)) as [[_ E1]|[Hn _]]; [congruence|]. apply (Hn len2); [lia | done]. }
    intros i Hi. destruct (Hpt2 i ltac:(lia)) as [[(j & _ & <-) E2]|[Hn2 E2]].
    + right. split; [done | by apply rooted_up].
    + rewrite E2. destruct (Hpt1 i ltac:(lia)) as [[(j & Hj & E) _]|[_ E1]]; [|rewrite E1; by apply Hs].
      exfalso. apply (Hn2 j); [lia | done].
Qed.
End Walk.

(** ** Well-formed graphs *)
Definition names_count (rs : list Resource) (id : Z) : Prop :=
  id = 0 \/ exists r, zget rs (id - 1) = Some r /\ count_value r = true.

Record resource_wf (rs : list Resource) (i : Z) (r : Resource) : Prop := {
  rw_id : g_id r = i + 1;
  rw_element : g_element_bytes r <> 0;
  rw_bytes : g_bytes r = g_elements r * g_element_bytes r /\ g_elements r * g_element_bytes r <= U64_MAX;
  rw_active : names_count rs (g_active r);
  rw_parent : g_parent r = 0 \/ count_value r = true /\ names_count rs (g_parent r);
}.

Record domain_wf (rs : list Resource) (d : Domain) : Prop := {
  dw_count : names_count rs (d_count d);
  dw_predicate : names_count rs (d_predicate d);
  dw_expected : d_predicate d = 0 -> d_expected d = 0;
}.

Record graph_wf (info : Info) (nodes : list MemoryNode) (page : Z) : Prop := {
  gw_nodes : zlen nodes = zlen (i_nodes info);
  gw_page : 256 <= page /\ page mod 256 = 0;
  gw_resource : forall i r, zget (i_resources info) i = Some r -> resource_wf (i_resources info) i r;
  gw_rooted : forall id, 1 <= id <= zlen (i_resources info) -> rooted (i_resources info) id;
  gw_domain : forall m, m ∈ nodes -> domain_wf (i_resources info) (m_domain m);
}.

Lemma erase_count r r' : erase r = erase r' -> count_value r = count_value r'.
Proof. destruct r, r'. unfold erase, set_reset, set_source, set_alias. cbn. by intros [= -> -> -> -> -> -> -> -> -> -> -> -> ->]. Qed.

Lemma like_forward rs rs' i r : like rs rs' -> zget rs i = Some r -> exists r', zget rs' i = Some r' /\ erase r' = erase r.
Proof. intros H E. destruct (like_get rs' rs i r (like_sym _ _ H) E) as (r' & ? & ?). by exists r'. Qed.

Lemma names_count_like rs rs' id : like rs rs' -> names_count rs id -> names_count rs' id.
Proof.
  intros Hl [->|(r & E & Hc)]; [by left|]. right. destruct (like_forward _ _ _ _ Hl E) as (r' & E' & He).
  exists r'. split; [done|]. by rewrite (erase_count _ _ He).
Qed.

Lemma up_like rs rs' k id : like rs rs' -> up rs k id = up rs' k id.
Proof.
  intros Hl. induction k as [|k IH]; [done|]. rewrite !up_succ, IH. unfold parent_of.
  destruct (zget rs' (up rs' k id - 1)) as [r'|] eqn:E.
  - destruct (like_get _ _ _ _ Hl E) as (r & -> & He). cbn. by destruct (erase_fields _ _ He) as (_ & _ & ? & _).
  - destruct (zget rs (up rs' k id - 1)) as [r|] eqn:E'; [|done]. destruct (like_forward _ _ _ _ Hl E') as (r' & ? & _). congruence.
Qed.

(** ** The checks decide *)
Lemma names_count_decides rs id : zlen rs <= U32_MAX -> 0 <= id ->
  exists b, (if id =? 0 then Some true else if zlen rs <? id then Some false
             else count ← zget rs (slot id); Some (count_value count)) = Some b /\ (b = true <-> names_count rs id).
Proof.
  intros Hn Hid. unfold names_count. destruct (Z.eqb_spec id 0) as [->|]; [exists true; split; [done|]; split; [by left | done]|].
  destruct (Z.ltb_spec (zlen rs) id).
  - exists false. split; [done|]. split; [done|]. intros [|(r & E & _)]; [done|]. apply zget_range in E. lia.
  - destruct (slot_index id (zlen rs) ltac:(lia) Hn) as [Hs Hr]. rewrite Hs in *. destruct (zget_is_Some rs (id - 1) Hr) as [v Ev].
    rewrite Ev. cbn [mbind option_bind]. exists (count_value v). split; [done|]. split; [by right; exists v|].
    intros [|(r & E & ?)]; [done|]. congruence.
Qed.

Lemma parent_valid_decides rs r : zlen rs <= U32_MAX -> 0 <= g_parent r ->
  exists b, parent_valid rs r = Some b /\ (b = true <-> g_parent r = 0 \/ count_value r = true /\ names_count rs (g_parent r)).
Proof.
  intros Hn Hp. unfold parent_valid. destruct (names_count_decides rs (g_parent r) Hn Hp) as (b & E & Hb).
  destruct (Z.eqb_spec (g_parent r) 0) as [|]; [exists true; split; [done|]; split; [by left | done]|].
  destruct (count_value r); cbn [negb orb].
  - rewrite E. exists b. split; [done|]. rewrite Hb. split; [by right | intros [|[_ ?]]; done].
  - exists false. split; [done|]. split; [done | intros [|[? _]]; done].
Qed.

Lemma bytes_valid_spec i r : 0 <= g_elements r <= U64_MAX -> 0 <= g_element_bytes r <= U64_MAX ->
  bytes_valid i r = true <-> g_id r = i + 1 /\ g_element_bytes r <> 0 /\
    (g_bytes r = g_elements r * g_element_bytes r /\ g_elements r * g_element_bytes r <= U64_MAX).
Proof.
  intros He Hb. unfold bytes_valid. rewrite !andb_true_iff, negb_true_iff, Z.eqb_eq, Z.eqb_neq.
  destruct (Checked.mul _ _) as [bytes|] eqn:E.
  - apply Checked.mul_spec in E as [-> Hu]; [|done|done]. rewrite Z.eqb_eq. unfold is_u64 in Hu. intuition lia.
  - apply Checked.mul_None in E; [|done|done]. intuition (try lia; try done).
Qed.

(** Resources that are alike are well formed together. *)
Lemma resource_wf_like rs rs' i r r' : like rs rs' -> erase r' = erase r -> resource_wf rs i r -> resource_wf rs' i r'.
Proof.
  intros Hl He [H1 H2 H3 H4 H5]. destruct (erase_fields _ _ He) as (Eid & Eact & Epar & Eb & Ee & Eeb & _).
  pose proof (erase_count _ _ He) as Ec. split; rewrite ?Eid, ?Eact, ?Epar, ?Eb, ?Ee, ?Eeb, ?Ec; try done.
  - by eapply names_count_like.
  - destruct H5 as [|[? ?]]; [by left|]. right. split; [done|]. by eapply names_count_like.
Qed.

Lemma validate_resource_decides rs index r : zlen rs <= U32_MAX -> zget rs index = Some r ->
  0 <= g_active r -> 0 <= g_parent r -> 0 <= g_elements r <= U64_MAX -> 0 <= g_element_bytes r <= U64_MAX ->
  (exists rs', validate_resource rs index = Some (Next rs') /\ resource_wf rs index r /\ like rs rs') \/
  (validate_resource rs index = Some (Return GraphInvalid) /\ ~ resource_wf rs index r).
Proof.
  intros Hn E Ha Hp He Hb. unfold validate_resource. rewrite E. cbn [mbind option_bind].
  pose proof (bytes_valid_spec index r He Hb) as Hbytes. destruct (bytes_valid index r); cbn [negb].
  2: { right. split; [done|]. intros [? ? ? _ _]. assert (false = true) by (apply Hbytes; done). done. }
  destruct (proj1 Hbytes eq_refl) as (H1 & H2 & H3).
  destruct (names_count_decides rs (g_active r) Hn Ha) as (b1 & E1 & Hb1). unfold active_valid. rewrite E1. cbn [mbind option_bind].
  destruct b1; cbn [negb]; [|right; split; [done|]; intros [_ _ _ H _]; by apply Hb1 in H].
  destruct (parent_valid_decides rs r Hn Hp) as (b2 & -> & Hb2). cbn [mbind option_bind].
  destruct b2; cbn [negb]; [|right; split; [done|]; intros [_ _ _ _ H]; by apply Hb2 in H].
  left. rewrite zset_Some by (by eapply zget_range). cbn [mbind option_bind]. eexists. split; [done|]. split.
  - split; [done | done | done | by apply Hb1 | by apply Hb2].
  - by eapply like_insert.
Qed.

Lemma valid_domain_decides rs d : zlen rs <= U32_MAX -> 0 <= d_count d -> 0 <= d_predicate d ->
  exists b, valid_domain rs d = Some b /\ (b = true <-> domain_wf rs d).
Proof.
  intros Hn Hc Hp. unfold valid_domain, id_valid.
  destruct (names_count_decides rs (d_count d) Hn Hc) as (b1 & -> & Hb1). cbn [mbind option_bind].
  destruct b1; cbn [negb]; [|exists false; split; [done|]; split; [done|]; intros [H _ _]; by apply Hb1 in H].
  destruct (names_count_decides rs (d_predicate d) Hn Hp) as (b2 & -> & Hb2). cbn [mbind option_bind].
  destruct b2; cbn [negb]; [|exists false; split; [done|]; split; [done|]; intros [_ H _]; by apply Hb2 in H].
  eexists. split; [done|]. rewrite orb_true_iff, negb_true_iff, Z.eqb_neq, Z.eqb_eq. split.
  - intros H. split; [by apply Hb1 | by apply Hb2 | intros; by destruct H].
  - intros [_ _ H]. destruct (decide (d_predicate d = 0)); [right; by apply H | by left].
Qed.

Section Decide.
Context (info : Info) (nodes : list MemoryNode) (page : Z) (Ht : graph_typed info nodes).
#[local] Abbreviation base := (i_resources info).

Lemma resources_decide :
  (exists rs, for_loop validate_resource base (range 0 (zlen base)) = Some (Next rs) /\
     (forall i, i ∈ range 0 (zlen base) -> forall r, zget base i = Some r -> resource_wf base i r) /\ like base rs) \/
  (for_loop validate_resource base (range 0 (zlen base)) = Some (Return GraphInvalid) /\
     ~ forall i, i ∈ range 0 (zlen base) -> forall r, zget base i = Some r -> resource_wf base i r).
Proof using Ht.
  apply for_loop_decide with (Inv := fun _ rs => like base rs); [done|]. intros d index rest rs E Hl.
  pose proof (zlen_nonneg base). destruct (range_split 0 (zlen base) d index rest ltac:(lia) E) as (Hi & Hlt & _). pose proof (zlen_nonneg d).
  pose proof (like_zlen _ _ Hl). destruct (zget_is_Some base index ltac:(lia)) as [r0 E0].
  destruct (like_forward _ _ _ _ Hl E0) as (r & Er & He). destruct (erase_fields _ _ He) as (_ & Ea & Ep & _ & Ee & Eeb & _).
  assert (r0 ∈ base) as Hin by (apply zget_Some in E0 as [_ E0]; by eapply list_elem_of_lookup_2).
  destruct (gt_resource _ _ Ht r0 Hin) as (? & ? & ? & ?). pose proof (gt_resources _ _ Ht).
  destruct (validate_resource_decides rs index r) as [(rs' & -> & Hw & Hl')|[-> Hw]]; try done; try (rewrite ?Ea, ?Ep, ?Ee, ?Eeb; done); [lia| |].
  - left. exists rs'. split; [done|]. split; [|by eapply like_trans]. intros r1 E1. rewrite E0 in E1. injection E1 as <-.
    eapply resource_wf_like; [by apply like_sym | | exact Hw]. done.
  - right. split; [done|]. intros Hall. apply Hw. eapply resource_wf_like; [exact Hl | exact He | by apply Hall].
Qed.

Lemma parents_decide rs : like base rs -> (forall i r, zget base i = Some r -> resource_wf base i r) ->
  (exists marks, for_loop (check_parents rs) (replicate (length base) 0) rs = Some (Next marks) /\
     forall v, v ∈ rs -> rooted base (g_id v)) \/
  (for_loop (check_parents rs) (replicate (length base) 0) rs = Some (Return GraphInvalid) /\
     ~ forall v, v ∈ rs -> rooted base (g_id v)).
Proof using Ht.
  intros Hl Hwf. pose proof (like_zlen _ _ Hl) as Hlen. pose proof (gt_resources _ _ Ht) as Hsize.
  assert (forall i r, zget rs i = Some r -> resource_wf rs i r) as Hwf'.
  { intros i r E. destruct (like_get _ _ _ _ Hl E) as (r0 & E0 & He). by eapply resource_wf_like; [exact Hl | | apply Hwf]. }
  assert (forall i r, zget rs i = Some r -> 0 <= g_parent r <= zlen rs) as Hpar.
  { intros i r E. destruct (like_get _ _ _ _ Hl E) as (r0 & E0 & He). destruct (erase_fields _ _ He) as (_ & _ & Ep & _).
    assert (r0 ∈ base) as Hin by (apply zget_Some in E0 as [_ E0]; by eapply list_elem_of_lookup_2).
    destruct (gt_resource _ _ Ht r0 Hin) as (_ & ? & _). pose proof (zlen_nonneg rs).
    destruct (rw_parent _ _ _ (Hwf' i r E)) as [|[_ [|(p & Eq & _)]]]; [lia | lia |]. apply zget_range in Eq. lia. }
  assert (forall id, rooted rs id <-> rooted base id) as Hroot.
  { intros id. unfold rooted. split; intros [k Hk]; exists k; [by rewrite (up_like _ _ _ _ Hl) | by rewrite <- (up_like _ _ _ _ Hl)]. }
  destruct (for_loop_decide (fun _ => settled rs) (fun v => rooted base (g_id v)) (check_parents rs) GraphInvalid (replicate (length base) 0) rs)
    as [(marks & -> & H & _)|[-> H]]; [| | left; by exists marks | by right].
  - split; [rewrite zlen_replicate; by rewrite <- Hlen|]. intros i Hi. left. apply zget_Some. split; [lia|].
    apply lookup_replicate. unfold zlen in *. split; [done | lia].
  - intros d v rest marks E Hm. assert (zget rs (zlen d) = Some v) as Ev by (rewrite E; by apply zget_app_mid).
    pose proof (rw_id _ _ _ (Hwf' _ _ Ev)) as Hid. apply zget_range in Ev.
    destruct (check_parents_decides rs ltac:(lia) Hpar marks v Hm ltac:(lia)) as [(marks' & -> & Hr & Hm')|[-> Hr]];
      [left; exists marks'; split; [done|]; split; [by apply Hroot | done] | right; split; [done|]; by rewrite <- Hroot].
Qed.

Lemma domains_decide rs : like base rs ->
  (exists u, for_loop (fun (_ : unit) node => valid ← valid_domain rs (m_domain node);
      Some (if (valid : bool) then Next tt else Return GraphInvalid)) tt nodes = Some (Next u) /\
     forall m, m ∈ nodes -> domain_wf base (m_domain m)) \/
  (for_loop (fun (_ : unit) node => valid ← valid_domain rs (m_domain node);
      Some (if (valid : bool) then Next tt else Return GraphInvalid)) tt nodes = Some (Return GraphInvalid) /\
     ~ forall m, m ∈ nodes -> domain_wf base (m_domain m)).
Proof using Ht.
  intros Hl. pose proof (like_zlen _ _ Hl) as Hlen. pose proof (gt_resources _ _ Ht) as Hsize.
  assert (forall d, domain_wf rs d <-> domain_wf base d) as Hiff.
  { intros d. split; intros [H1 H2 H3]; (split; [| | done]); (eapply names_count_like; [|eassumption]; (exact Hl || by apply like_sym)). }
  match goal with |- context [for_loop ?b tt nodes] =>
    destruct (for_loop_decide (fun _ (_ : unit) => True) (fun m => domain_wf base (m_domain m)) b GraphInvalid tt nodes)
      as [(u & -> & H & _)|[-> H]] end; [done | | left; by exists u | by right].
  intros d m rest st E _. assert (m ∈ nodes) as Hm by (rewrite E, elem_of_app; right; by left).
  destruct (gt_domain _ _ Ht m Hm) as [Hc Hp]. destruct (valid_domain_decides rs (m_domain m) ltac:(lia) Hc Hp) as (b & -> & Hb).
  cbn [mbind option_bind]. destruct b; [left; exists tt; split; [done|]; split; [by apply Hiff, Hb | done]|].
  right. split; [done|]. intros Hw%Hiff%Hb. done.
Qed.
End Decide.

Lemma validate_decides info nodes page : graph_typed info nodes ->
  (graph_wf info nodes page /\ exists info' work, validate info nodes page = Some (Next (info', work)) /\
     like (i_resources info) (i_resources info') /\ i_nodes info' = i_nodes info) \/
  (~ graph_wf info nodes page /\ validate info nodes page = Some (Return GraphInvalid)).
Proof.
  intros Ht. unfold validate. change Alignment with 256.
  destruct (_ || _) eqn:E; [right; split; [|done]; intros [H1 [H2 H3] _ _ _]; rewrite !orb_true_iff, !negb_true_iff, !Z.eqb_neq, Z.ltb_lt in E; lia|].
  to_prop. pose proof (gt_resources _ _ Ht) as Hsize.
  destruct (resources_decide info nodes Ht) as [(rs & -> & Hwf & Hl)|[-> Hwf]]; rewrite ?andThen_next, ?andThen_return.
  2: { right. split; [|done]. intros [_ _ Hb _ _]. apply Hwf. intros i _. by apply Hb. }
  assert (forall i r, zget (i_resources info) i = Some r -> resource_wf (i_resources info) i r) as Hwf'.
  { intros i r Er. apply Hwf; [|done]. apply elem_of_range. by eapply zget_range. }
  destruct (parents_decide info nodes Ht rs Hl Hwf') as [(marks & -> & Hr)|[-> Hr]]; rewrite ?andThen_next, ?andThen_return.
  2: { right. split; [|done]. intros [_ _ _ Hb _]. apply Hr. intros v Hv. apply list_elem_of_lookup in Hv as [k Ek]. rewrite <- zget_nat in Ek.
       destruct (like_get _ _ _ _ Hl Ek) as (r0 & E0 & He). destruct (erase_fields _ _ He) as (<- & _). rewrite (rw_id _ _ _ (Hwf' _ _ E0)).
       apply Hb. apply zget_range in E0. lia. }
  destruct (domains_decide info nodes Ht rs Hl) as [(u & -> & Hd)|[-> Hd]]; rewrite ?andThen_next, ?andThen_return.
  2: { right. split; [|done]. by intros [_ _ _ _ Hb]. }
  left. split; [|by do 2 eexists]. split; [lia | done | done | | done]. intros id Hid.
  destruct (zget_is_Some (i_resources info) (id - 1) ltac:(lia)) as [r0 E0]. destruct (like_forward _ _ _ _ Hl E0) as (r & Er & He).
  destruct (erase_fields _ _ He) as (Eid & _). pose proof (rw_id _ _ _ (Hwf' _ _ E0)) as Hid0.
  replace id with (g_id r) by lia. apply Hr. apply zget_Some in Er as [_ Er]. by eapply list_elem_of_lookup_2.
Qed.

(** C24: validation accepts exactly the well-formed graphs: on every graph it returns,
    with the graph for the later phases when every resource names itself and has the
    bytes of its elements, the resources it counts and its parent are counts, the
    chain of its parents ends, and every domain names counts; with the reason
    [GraphInvalid] otherwise. *)
Theorem validate_accepts info nodes page : graph_typed info nodes ->
  (graph_wf info nodes page /\ exists info' work, validate info nodes page = Some (Next (info', work)) /\
     like (i_resources info) (i_resources info') /\ i_nodes info' = i_nodes info) \/
  (~ graph_wf info nodes page /\ validate info nodes page = Some (Return GraphInvalid)).
Proof. apply validate_decides. Qed.

(** Two counts of which one is the parent of the other, and two that are parents of
    each other. *)
Definition example_count (id parent : Z) : Resource :=
  mk_resource id VU32 32 0 0 0 0 VisInput 1 4 4 0 parent 0 0 0 0.
Definition example_counts (parent : Z) : Info :=
  mk_info (mk_memory_plan 0 0 0 0 0 0) [example_count 1 parent; example_count 2 1] [mk_node 0 0 []].
Definition example_domains : list MemoryNode := [mk_memory_node (mk_domain 2 0 0) WritePartial InplaceNone].

Lemma example_counts_typed p : 0 <= p -> graph_typed (example_counts p) example_domains.
Proof.
  intros Hp. split; [done | done | | |].
  - intros r Hr. cbn in Hr. rewrite !elem_of_cons, elem_of_nil in Hr. destruct Hr as [->|[->|[]]]; cbn; lia.
  - intros node a Hn Ha. cbn in Hn. rewrite !elem_of_cons, elem_of_nil in Hn. destruct Hn as [->|[]]. by apply elem_of_nil in Ha.
  - intros m ->%list_elem_of_singleton. cbn. lia.
Qed.

Lemma validate_accepts_witness :
  (exists info' work, validate (example_counts 0) example_domains 256 = Some (Next (info', work))) /\
  (~ graph_wf (example_counts 2) example_domains 256 /\ validate (example_counts 2) example_domains 256 = Some (Return GraphInvalid)).
Proof.
  split; [do 2 eexists; vm_compute; reflexivity|].
  destruct (validate_accepts (example_counts 2) example_domains 256 (example_counts_typed 2 ltac:(lia))) as [(_ & i & w & E & _)|H]; [|exact H].
  vm_compute in E. discriminate.
Defined.

(** ** The ancestor search *)
Lemma count_subset_loop_spec rs depth child parent : zlen rs <= U32_MAX ->
  (forall i r, zget rs i = Some r -> 0 <= g_parent r <= zlen rs) -> 0 <= child <= zlen rs ->
  exists b, count_subset_loop depth rs child parent = Some b /\
    (b = true <-> exists k, (k < depth)%nat /\ up rs k child = parent /\ forall j, (j <= k)%nat -> up rs j child <> 0).
Proof.
  intros Hn Hp. revert child. induction depth as [|depth IH]; intros child Hc; cbn [count_subset_loop].
  { exists false. split; [done|]. split; [done|]. intros (k & ? & _). lia. }
  destruct (Z.eqb_spec child 0) as [->|Hne].
  { exists false. split; [done|]. split; [done|]. intros (k & _ & _ & H). by destruct (H 0%nat ltac:(lia)). }
  destruct (slot_index child (zlen rs) ltac:(lia) Hn) as [Hs Hr]. rewrite Hs in *. destruct (zget_is_Some rs (child - 1) Hr) as [v Ev].
  rewrite Ev. cbn [mbind option_bind]. destruct (Z.eqb_spec child parent) as [->|Hd].
  { exists true. split; [done|]. split; [|done]. intros _. exists 0%nat. split; [lia|]. split; [done|]. intros j Hj. by replace j with 0%nat by lia. }
  destruct (IH (g_parent v) ltac:(by eapply Hp)) as (b & -> & Hb). exists b. split; [done|]. rewrite Hb.
  assert (forall k, up rs (S k) child = up rs k (g_parent v)) as Hup.
  { intros k. rewrite <- Nat.add_1_r, up_add. f_equal. cbn. unfold parent_of. by rewrite Ev. }
  split.
  - intros (k & Hk & E & Hj). exists (S k). rewrite Hup. split; [lia|]. split; [done|]. intros [|j] Hjk; [done|]. rewrite Hup. apply Hj. lia.
  - intros ([|k] & Hk & E & Hj); [done|]. rewrite Hup in E. exists k. split; [lia|]. split; [done|]. intros j Hjk. rewrite <- Hup. apply Hj. lia.
Qed.

(** A chain that ends has at most as many members as there are resources. *)
Lemma chain_length rs id k : rooted rs id -> 0 <= id <= zlen rs ->
  (forall i r, zget rs i = Some r -> 0 <= g_parent r <= zlen rs) ->
  (forall j, (j <= k)%nat -> up rs j id <> 0) -> (k < length rs)%nat.
Proof.
  intros Hr Hid Hp Hne. assert (NoDup ((fun j => up rs j id) <$> seq 0 (S k))) as Hnd.
  { apply NoDup_fmap_2_strong; [|apply NoDup_seq]. intros i j Hi%elem_of_seq Hj%elem_of_seq E.
    destruct (Nat.lt_total i j) as [|[|]]; [|done|].
    - exfalso. by apply (rooted_repeat rs i j id Hr); [| apply Hne; lia |].
    - exfalso. by apply (rooted_repeat rs j i id Hr); [| apply Hne; lia |]. }
  assert (((fun j => up rs j id) <$> seq 0 (S k)) ⊆ seqZ 1 (zlen rs)) as Hsub.
  { intros x (j & -> & Hj%elem_of_seq)%list_elem_of_fmap. apply elem_of_seqZ.
    pose proof (up_bound rs Hp j id Hid). pose proof (Hne j ltac:(lia)). lia. }
  pose proof (submseteq_length _ _ (NoDup_submseteq _ _ Hnd Hsub)) as Hlen. rewrite length_fmap, length_seq, length_seqZ in Hlen.
  unfold zlen in Hlen. lia.
Qed.

(** C25: in a graph that validation accepts, the search for an ancestor, whose depth the
    code bounds by the number of resources, is never cut short: it answers whether the
    parent is zero or among the child and the chain of its parents. *)
Theorem count_subset_exact info nodes page child parent : graph_typed info nodes -> graph_wf info nodes page ->
  0 <= child <= zlen (i_resources info) -> 0 <= parent ->
  exists b, count_subset (i_resources info) child parent = Some b /\
    (b = true <-> parent = 0 \/ exists k, up (i_resources info) k child = parent).
Proof.
  intros Ht Hw Hc Hpar. set (rs := i_resources info) in *. pose proof (gt_resources _ _ Ht) as Hsize. fold rs in Hsize.
  assert (forall i r, zget rs i = Some r -> 0 <= g_parent r <= zlen rs) as Hp.
  { intros i r E. assert (r ∈ rs) as Hin by (apply zget_Some in E as [_ E]; by eapply list_elem_of_lookup_2).
    destruct (gt_resource _ _ Ht r Hin) as (_ & ? & _). pose proof (zlen_nonneg rs).
    destruct (rw_parent _ _ _ (gw_resource _ _ _ Hw i r E)) as [|[_ [|(p & Eq & _)]]]; [lia | lia |]. apply zget_range in Eq. fold rs in Eq. lia. }
  unfold count_subset. destruct (Z.eqb_spec parent 0) as [->|Hne]; [exists true; split; [done|]; split; [by left | done]|].
  destruct (count_subset_loop_spec rs (length rs) child parent Hsize Hp Hc) as (b & -> & Hb). exists b. split; [done|]. rewrite Hb. split.
  - intros (k & _ & E & _). right. by exists k.
  - intros [|[k E]]; [done|]. assert (forall j, (j <= k)%nat -> up rs j child <> 0) as Hj.
    { intros j Hjk E0. apply Hne. rewrite <- E. by apply (up_stays rs j). }
    exists k. split; [|done]. apply (chain_length rs child k); [|done|done|done].
    destruct (decide (child = 0)) as [->|]; [by exists 0%nat|]. apply (gw_rooted _ _ _ Hw). fold rs. lia.
Qed.

Lemma count_subset_exact_witness :
  exists b, count_subset (i_resources (example_counts 0)) 2 1 = Some b /\
    (b = true <-> 1 = 0 \/ exists k, up (i_resources (example_counts 0)) k 2 = 1).
Proof.
  pose proof (example_counts_typed 0 ltac:(lia)) as Ht.
  apply (count_subset_exact (example_counts 0) example_domains 256); [exact Ht | | vm_compute; split; discriminate | lia].
  destruct (validate_decides (example_counts 0) example_domains 256 Ht) as [[H _]|[_ E]]; [exact H|].
  vm_compute in E. discriminate.
Defined.
