(* ===== verification/CollectFacts.v ===== *)
(** * CollectFacts: lifetimes and uses of the resources of a graph

    The collection phase returns for every validated graph; every access of a resource
    lies in its lifetime, and the list of uses has room for all of them. *)
From stdpp Require Import base numbers list option.
From Stdlib Require Import ZArith Lia.
From S2P Require Import Prelude Checked Ordered MemoryModel MemoryArena PlanMemory MemoryArenaFacts OrdinaryFacts PackFacts.

(** ** Accesses in the order of the nodes *)
Definition accesses_of (node : Node) : list (Node * Access) := map (pair node) (n_accesses node).
Definition events (nodes : list Node) : list (Node * Access) := concat (map accesses_of nodes).

Definition uses_of (id : Z) (ev : list (Node * Access)) : Z :=
  zlen (List.filter (fun e => a_resource e.2 =? id) ev).

Lemma uses_of_app id ev ev' : uses_of id (ev ++ ev') = uses_of id ev + uses_of id ev'.
Proof. unfold uses_of. by rewrite List.filter_app, zlen_app. Qed.
Lemma uses_of_one id e : uses_of id [e] = if a_resource e.2 =? id then 1 else 0.
Proof. unfold uses_of. cbn. by destruct (_ =? _). Qed.
Lemma uses_of_nonneg id ev : 0 <= uses_of id ev.
Proof. apply zlen_nonneg. Qed.

Lemma events_app ns ns' : events (ns ++ ns') = events ns ++ events ns'.
Proof. unfold events. by rewrite map_app, concat_app. Qed.
Lemma events_cons node ns : events (node :: ns) = accesses_of node ++ events ns.
Proof. done. Qed.
Lemma events_one node : events [node] = accesses_of node.
Proof. unfold events. cbn. by rewrite app_nil_r. Qed.

Lemma elem_of_events e ns : e ∈ events ns <-> e.1 ∈ ns /\ e.2 ∈ n_accesses e.1.
Proof.
  destruct e as [node a]. cbn [fst snd]. unfold events, accesses_of. rewrite !list_elem_of_In, in_concat. split.
  - intros (l & (node' & <- & Hn)%in_map_iff & (a' & [= -> ->] & Ha)%in_map_iff). done.
  - intros [Hn Ha]. exists (map (pair node) (n_accesses node)). split; apply in_map_iff; [by exists node | by exists a].
Qed.

(** ** Lifetimes *)
Record collected (n cur : Z) (ev : list (Node * Access)) (st : list Lifetime * list Z) : Prop := {
  co_lifetimes : zlen st.1 = n;
  co_counts : zlen st.2 = n;
  co_range : forall e, e ∈ ev -> 1 <= a_resource e.2 <= n /\ 0 <= n_index e.1 <= cur;
  co_count : forall id, 1 <= id <= n -> zget st.2 (slot id) = Some (uses_of id ev);
  co_lifetime : forall id, 1 <= id <= n -> exists l, zget st.1 (slot id) = Some l /\
    (forall e, e ∈ ev -> a_resource e.2 = id -> l_first l <> NoNode /\ l_first l <= n_index e.1 <= l_last l) /\
    (l_first l <> NoNode -> 0 <= l_first l <= l_last l /\ l_last l <= cur);
}.

Lemma update_lifetime_bounds value memory k a l :
  l_first (update_lifetime value memory k a l) = (if l_first l =? NoNode then k else l_first l) /\
  l_last (update_lifetime value memory k a l) = k.
Proof. unfold update_lifetime, touch. cbn [l_first_read l_first_write]. repeat case_match; done. Qed.

Lemma collect_access_returns info nodes node a n ev st :
  n = zlen (i_resources info) -> n <= U32_MAX -> 0 <= a_resource a ->
  0 <= n_index node < zlen nodes -> n_index node < NoNode ->
  collected n (n_index node) ev st ->
  returns (collect_access info nodes node st a) (collected n (n_index node) (ev ++ [(node, a)])).
Proof.
  intros Hn Hmax Ha Hk Hno [H1 H2 H3 H4 H5]. destruct st as [lifetimes counts]. cbn [fst snd] in *. unfold collect_access.
  destruct (Z.eqb_spec (a_resource a) 0); cbn [orb]; [auto|].
  destruct (Z.ltb_spec (zlen lifetimes) (a_resource a)); cbn [orb]; [auto|].
  destruct (negb _ && negb _); [auto|]. set (id := a_resource a) in *. assert (1 <= id <= n) as Hid by lia.
  destruct (slot_index id n Hid Hmax) as [_ Hs]. rewrite (H4 id Hid). cbn [mbind option_bind].
  destruct (_ =? U64_MAX); [auto|]. rewrite zset_Some by lia. cbn [mbind option_bind].
  destruct (zget_is_Some (i_resources info) (slot id) ltac:(lia)) as [v ->]. cbn [mbind option_bind].
  destruct (zget_is_Some nodes (n_index node) Hk) as [m ->]. cbn [mbind option_bind].
  destruct (H5 id Hid) as (l & El & Hin & Hfl). rewrite (zmodify_Some _ _ _ l El). cbn [mbind option_bind].
  apply returns_next. assert (forall id', 1 <= id' <= n -> id' <> id -> slot id <> slot id') as Hne.
  { intros id' Hid' Hne E. destruct (slot_index id n Hid Hmax), (slot_index id' n Hid' Hmax). lia. }
  split; cbn [fst snd]; [by rewrite zlen_insert | by rewrite zlen_insert | | |].
  - intros e [He| ->%list_elem_of_singleton]%elem_of_app; [by apply H3|]. cbn. lia.
  - intros id' Hid'. rewrite uses_of_app, uses_of_one. cbn [snd]. fold id. destruct (Z.eqb_spec id id') as [<-|Hd].
    + rewrite zget_insert_eq by lia. done.
    + rewrite zget_insert_ne by (lia || apply Hne; auto). rewrite H4 by done. f_equal. lia.
  - intros id' Hid'. destruct (decide (id' = id)) as [->|Hd].
    + eexists. split; [apply zget_insert_eq; lia|]. destruct (update_lifetime_bounds v m (n_index node) a l) as [-> ->].
      split.
      * intros e [He| ->%list_elem_of_singleton]%elem_of_app He'.
        -- destruct (Hin e He He') as (? & ? & ?). destruct (H3 e He). destruct (Z.eqb_spec (l_first l) NoNode); [done|]. lia.
        -- cbn [fst]. destruct (Z.eqb_spec (l_first l) NoNode) as [|Hf]; [lia|]. destruct (Hfl Hf). lia.
      * intros _. destruct (Z.eqb_spec (l_first l) NoNode) as [|Hf]; [lia|]. destruct (Hfl Hf). lia.
    + destruct (H5 id' Hid') as (l' & El' & Hin' & Hfl'). exists l'. rewrite zget_insert_ne by (lia || by apply Hne).
      split; [done|]. split; [|done]. intros e [He| ->%list_elem_of_singleton]%elem_of_app He'; [by apply Hin' | done].
Qed.

Lemma collected_later n cur cur' ev st : cur <= cur' -> collected n cur ev st -> collected n cur' ev st.
Proof.
  intros Hle [H1 H2 H3 H4 H5]. split; try done.
  - intros e He. destruct (H3 e He). lia.
  - intros id Hid. destruct (H5 id Hid) as (l & ? & ? & H). exists l. split; [done|]. split; [done|]. intros Hf. destruct (H Hf). lia.
Qed.

Lemma collect_nodes_returns info nodes n : n = zlen (i_resources info) -> n <= U32_MAX ->
  zlen (i_nodes info) <= NoNode -> zlen nodes = zlen (i_nodes info) ->
  (forall node a, node ∈ i_nodes info -> a ∈ n_accesses node -> 0 <= a_resource a) ->
  returns (for_loop (collect_node info nodes) (replicate (length (i_resources info)) DefaultLifetime, replicate (length (i_resources info)) 0)
      (range 0 (zlen (i_nodes info))))
    (fun st => collected n (zlen (i_nodes info)) (events (i_nodes info)) st /\
       forall k node, zget (i_nodes info) k = Some node -> n_index node = k).
Proof.
  intros Hn Hmax Hno Hnodes Hacc. set (ns := i_nodes info) in *. pose proof (zlen_nonneg ns) as Hpos.
  apply returns_for with (fun d st => collected n (zlen d) (events (take (length d) ns)) st /\
    forall k node, k < zlen d -> zget ns k = Some node -> n_index node = k).
  - split; [|intros k node Hk [? _]%zget_Some; change (zlen []) with 0 in Hk; lia]. cbn [length take]. unfold events; cbn [map concat].
    split; cbn [fst snd]; [by rewrite zlen_replicate | by rewrite zlen_replicate | intros e He; by apply elem_of_nil in He | |].
    + intros id Hid. destruct (slot_index id n Hid Hmax) as [_ Hs]. apply zget_Some. split; [lia|]. apply lookup_replicate.
      unfold zlen in Hn. split; [done | lia].
    + intros id Hid. destruct (slot_index id n Hid Hmax) as [_ Hs]. exists DefaultLifetime. split.
      { apply zget_Some. split; [lia|]. apply lookup_replicate. unfold zlen in Hn. split; [done | lia]. }
      split; [intros e He; by apply elem_of_nil in He | done].
  - intros d k rest st Ed [Hc Hidx]. destruct (range_split 0 (zlen ns) d k rest ltac:(lia) Ed) as (Hk & Hlt & _). rewrite Z.add_0_l in Hk. pose proof (zlen_nonneg d).
    unfold collect_node. fold ns. destruct (zget_is_Some ns k ltac:(lia)) as [node En]. rewrite En. cbn [mbind option_bind].
    destruct (Z.eqb_spec (n_index node) k) as [Ei|]; cbn [negb]; [|auto].
    assert (node ∈ ns) as Hin by (apply zget_Some in En as [_ En]; by eapply list_elem_of_lookup_2).
    apply returns_for with (fun acc st => collected n (n_index node) (events (take (length d) ns) ++ map (pair node) acc) st).
    + cbn [map]. rewrite app_nil_r. by rewrite Ei, Hk.
    + intros acc a rest' st' Ea Hst'. rewrite map_app. cbn [map]. rewrite app_assoc.
      apply collect_access_returns; [done | done | | lia | lia | done]. apply (Hacc node); [done|]. rewrite Ea, elem_of_app. right. by left.
    + intros st' Hst'. rewrite length_app. cbn [length]. rewrite Nat.add_1_r.
      apply zget_Some in En as [_ En]. rewrite Hk in En. unfold zlen in En. rewrite Nat2Z.id in En.
      rewrite (take_S_r _ _ _ En), events_app, events_one. split.
      * rewrite zlen_app. change (zlen [k]) with 1. eapply collected_later; [|exact Hst']. lia.
      * intros j node' Hj Ej. rewrite zlen_app in Hj. change (zlen [k]) with 1 in Hj. destruct (decide (j < zlen d)); [by apply Hidx|].
        assert (j = k) as -> by lia. apply zget_Some in Ej as [_ Ej]. rewrite Hk in Ej. unfold zlen in Ej. rewrite Nat2Z.id, En in Ej. by injection Ej as <-.
  - intros st [Hc Hidx]. rewrite zlen_range in * by lia. rewrite length_range, Z.sub_0_r in Hc.
    rewrite (firstn_all2 (n := Z.to_nat (zlen ns)) ns) in Hc by (unfold zlen; lia).
    rewrite Z.sub_0_r in *. split; [done|]. intros k node Ek. apply Hidx; [|done]. apply zget_range in Ek. lia.
Qed.

(** ** Offsets of the uses *)
Record summed (counts offsets : list Z) : Prop := {
  su_length : zlen offsets = zlen counts + 1;
  su_zero : zget offsets 0 = Some 0;
  su_range : forall i o, zget offsets i = Some o -> 0 <= o <= U64_MAX;
  su_next : forall i b c, 0 <= i < zlen counts -> zget offsets i = Some b -> zget counts i = Some c -> zget offsets (i + 1) = Some (b + c);
}.

Lemma sum_offsets_returns counts : (forall i c, zget counts i = Some c -> 0 <= c) -> returns (sum_offsets counts) (summed counts).
Proof.
  intros Hc. unfold sum_offsets. pose proof (zlen_nonneg counts) as Hpos.
  apply returns_for with (fun d offsets => zlen offsets = zlen counts + 1 /\ zget offsets 0 = Some 0 /\
    (forall i o, zget offsets i = Some o -> 0 <= o <= U64_MAX) /\
    (forall i b c, 0 <= i < zlen d -> zget offsets i = Some b -> zget counts i = Some c -> zget offsets (i + 1) = Some (b + c))).
  - rewrite zlen_replicate. split; [unfold zlen; lia|]. split; [done|]. split; [|intros i b c Hi; change (zlen []) with 0 in Hi; lia].
    intros i o [_ [-> _]%lookup_replicate]%zget_Some. lia.
  - intros d i rest offsets Ed (Hl & H0 & Hn & Hs). destruct (range_split 0 (zlen counts) d i rest ltac:(lia) Ed) as (Hi & Hlt & _).
    rewrite Z.add_0_l in Hi. pose proof (zlen_nonneg d).
    destruct (zget_is_Some offsets i ltac:(lia)) as [b Eb]. destruct (zget_is_Some counts i ltac:(lia)) as [c Ec].
    rewrite Eb, Ec. cbn [mbind option_bind]. pose proof (Hc _ _ Ec). pose proof (Hn i b Eb).
    unfold Checked.add, Checked.add_fits. destruct (Z.leb_spec b (U64_MAX - c)); cbn [negb]; [|auto].
    rewrite wrap64_small by (unfold is_u64; lia). rewrite zset_Some by lia. cbn [mbind option_bind]. apply returns_next.
    split; [by rewrite zlen_insert|]. split; [by rewrite zget_insert_ne by lia|]. split.
    + intros j o Ej. destruct (decide (j = i + 1)) as [->|]; [|rewrite zget_insert_ne in Ej by lia; by eapply Hn].
      rewrite zget_insert_eq in Ej by lia. injection Ej as <-. lia.
    + intros j b' c' Hj Eb' Ec'. rewrite zlen_app in Hj. change (zlen [i]) with 1 in Hj. rewrite zget_insert_ne in Eb' by lia.
      destruct (decide (j = i)) as [->|].
      * rewrite zget_insert_eq by lia. congruence.
      * rewrite zget_insert_ne by lia. eapply Hs; [lia | done..].
  - intros offsets (Hl & H0 & Hr & Hs). split; [done | done | done |]. rewrite zlen_range in Hs by lia. rewrite Z.sub_0_r in Hs. exact Hs.
Qed.

Lemma summed_monotone counts offsets i j a b : summed counts offsets -> (forall i c, zget counts i = Some c -> 0 <= c) ->
  0 <= i <= j -> zget offsets i = Some a -> zget offsets j = Some b -> a <= b.
Proof.
  intros Hs Hc [Hi Hij]. revert b. remember (Z.to_nat (j - i)) as m eqn:Em. revert j Hij Em. induction m as [|m IH]; intros j Hij Em b Ea Eb.
  - assert (j = i) as -> by lia. rewrite Ea in Eb. injection Eb as <-. lia.
  - pose proof (zget_range _ _ _ Eb) as Hj. rewrite (su_length _ _ Hs) in Hj.
    destruct (zget_is_Some offsets (j - 1)) as [b' Eb']; [rewrite (su_length _ _ Hs); lia|].
    destruct (zget_is_Some counts (j - 1) ltac:(lia)) as [c Ec]. pose proof (Hc _ _ Ec).
    pose proof (su_next _ _ Hs (j - 1) b' c ltac:(lia) Eb' Ec) as E. replace (j - 1 + 1) with j in E by lia. rewrite Eb in E. injection E as ->.
    pose proof (IH (j - 1) ltac:(lia) ltac:(lia) b' Ea Eb'). lia.
Qed.

(** ** The list of the uses *)
Lemma for_each_events ns (st : list Z * list Z) :
  for_each (fun st node => for_each (list_use node) st (n_accesses node)) st ns =
  for_each (fun st e => list_use e.1 st e.2) st (events ns).
Proof.
  revert st. induction ns as [|node ns IH]; intros st; [done|]. rewrite events_cons, for_each_app. cbn [for_each].
  assert (forall l s, for_each (list_use node) s l = for_each (fun st e => list_use e.1 st e.2) s (map (pair node) l)) as Hin.
  { induction l as [|a l IHl]; intros s; [done|]. cbn [map for_each fst snd]. destruct (list_use node s a); cbn; [apply IHl | done]. }
  rewrite Hin. unfold accesses_of. destruct (for_each _ st (map _ _)); cbn; [apply IH | done].
Qed.

Lemma list_uses_total n counts offsets total ns : summed counts offsets -> zlen counts = n -> n <= U32_MAX ->
  (forall id, 1 <= id <= n -> zget counts (slot id) = Some (uses_of id (events ns))) ->
  (forall e, e ∈ events ns -> 1 <= a_resource e.2 <= n /\ 0 <= n_index e.1 < zlen ns) ->
  zget offsets n = Some total ->
  exists uses cursors, for_each (fun st node => for_each (list_use node) st (n_accesses node))
      (replicate (Z.to_nat total) 0, take (length counts) offsets) ns = Some (uses, cursors) /\
    zlen uses = total /\ forall v, v ∈ uses -> v = 0 \/ 0 <= v < zlen ns.
Proof.
  intros Hs Hn Hmax Hcount Hev Htotal. rewrite for_each_events. pose proof (su_range _ _ Hs _ _ Htotal) as Ht.
  assert (forall i c, zget counts i = Some c -> 0 <= c) as Hpos.
  { intros i c E. assert (i = slot (i + 1)) as Hi by (apply zget_range in E; rewrite slot_small by lia; lia).
    rewrite Hi, Hcount in E by (apply zget_range in E; lia). injection E as <-. apply uses_of_nonneg. }
  assert (length counts <= length offsets)%nat as Hle by (pose proof (su_length _ _ Hs); unfold zlen in *; lia).
  destruct (for_each_inv (fun d '(uses, cursors) => zlen uses = total /\ zlen cursors = n /\
      (forall v, v ∈ uses -> v = 0 \/ 0 <= v < zlen ns) /\
      forall id o, 1 <= id <= n -> zget offsets (slot id) = Some o -> zget cursors (slot id) = Some (o + uses_of id d))
    (fun st e => list_use e.1 st e.2) (events ns) (replicate (Z.to_nat total) 0, take (length counts) offsets))
    as ([uses cursors] & -> & H1 & _ & H3 & _); [| | by exists uses, cursors].
  - rewrite zlen_replicate. split; [lia|]. split; [unfold zlen in *; rewrite length_take; lia|]. split.
    + intros v Hv. left. by apply elem_of_replicate in Hv as [-> _].
    + intros id o Hid [Hi Eo]%zget_Some. apply zget_Some. split; [done|]. destruct (slot_index id n Hid Hmax).
      rewrite lookup_take_lt by (unfold zlen in *; lia). rewrite Eo. f_equal. unfold uses_of. cbn. change (zlen []) with 0. lia.
  - intros d [node a] rest [uses cursors] Ed (H1 & H2 & H3 & H4). unfold list_use. cbn [fst snd].
    assert ((node, a) ∈ events ns) as Hin by (rewrite Ed, elem_of_app; right; by left).
    destruct (Hev _ Hin) as [Hid Hnode]. cbn [fst snd] in Hid, Hnode. set (id := a_resource a) in *.
    destruct (slot_index id n Hid Hmax) as [Hslot Hrange]. destruct (zget_is_Some offsets (slot id)) as [o Eo].
    { rewrite (su_length _ _ Hs). lia. }
    rewrite (H4 id o Hid Eo). cbn [mbind option_bind].
    assert (0 <= o + uses_of id d < total) as Hcur.
    { pose proof (su_next _ _ Hs (slot id) o _ ltac:(lia) Eo (Hcount id Hid)) as Enext.
      assert (o + uses_of id (events ns) <= total).
      { eapply summed_monotone; [exact Hs | exact Hpos | | exact Enext | exact Htotal]. lia. }
      rewrite Ed, uses_of_app in H. change ((node, a) :: rest) with ([(node, a)] ++ rest) in H. rewrite uses_of_app, uses_of_one in H.
      cbn [snd] in H. fold id in H. rewrite Z.eqb_refl in H. pose proof (uses_of_nonneg id rest). pose proof (uses_of_nonneg id d).
      pose proof (su_range _ _ Hs _ _ Eo). lia. }
    rewrite zset_Some by lia. cbn [mbind option_bind]. rewrite zset_Some by lia. cbn [mbind option_bind].
    eexists. split; [reflexivity|]. cbn beta iota. split; [by rewrite zlen_insert|]. split; [by rewrite zlen_insert|]. split.
    + intros v Hv. apply list_elem_of_lookup in Hv as [j Ej]. apply list_lookup_insert_Some in Ej as [(_ & <- & _)|[_ Ej]]; [by right|].
      apply H3. by eapply list_elem_of_lookup_2.
    + intros id' o' Hid' Eo'. rewrite uses_of_app, uses_of_one. cbn [snd]. fold id. destruct (Z.eqb_spec id id') as [<-|Hne].
      * rewrite zget_insert_eq by lia. rewrite Eo in Eo'. injection Eo' as <-. rewrite wrap64_small by (unfold is_u64; lia). f_equal. lia.
      * destruct (slot_index id' n Hid' Hmax). rewrite zget_insert_ne by lia. rewrite (H4 id' o' Hid' Eo'). f_equal. lia.
Qed.

(** ** The phase *)
Record work_ok (info : Info) (work : Work) : Prop := {
  wk_lifetimes : zlen (w_lifetimes work) = zlen (i_resources info);
  wk_lifetime : forall id, 1 <= id <= zlen (i_resources info) -> exists l, zget (w_lifetimes work) (slot id) = Some l /\
    (forall node a, node ∈ i_nodes info -> a ∈ n_accesses node -> a_resource a = id ->
       l_first l <> NoNode /\ l_first l <= n_index node <= l_last l) /\
    (l_first l <> NoNode -> 0 <= l_first l <= l_last l);
  wk_index : forall k node, zget (i_nodes info) k = Some node -> n_index node = k;
  wk_accesses : forall node a, node ∈ i_nodes info -> a ∈ n_accesses node -> 1 <= a_resource a <= zlen (i_resources info);
  wk_offsets : forall i, 0 <= i < zlen (i_resources info) -> exists lo hi, zget (w_offsets work) i = Some lo /\
    zget (w_offsets work) (i + 1) = Some hi /\ 0 <= lo <= hi /\ hi <= zlen (w_uses work);
  wk_uses : forall v, v ∈ w_uses work -> v = 0 \/ 0 <= v < zlen (i_nodes info);
}.

Lemma collect_returns info nodes work : zlen (i_resources info) <= U32_MAX -> zlen (i_nodes info) <= NoNode ->
  zlen nodes = zlen (i_nodes info) ->
  (forall node a, node ∈ i_nodes info -> a ∈ n_accesses node -> 0 <= a_resource a) ->
  w_lifetimes work = replicate (length (i_resources info)) DefaultLifetime ->
  w_counts work = replicate (length (i_resources info)) 0 ->
  returns (collect info nodes work) (work_ok info).
Proof.
  intros Hmax Hnode Hnodes Hacc Hl Hc. unfold collect. rewrite Hl, Hc. set (n := zlen (i_resources info)) in *.
  eapply returns_andThen; [exact (collect_nodes_returns info nodes n eq_refl Hmax Hnode Hnodes Hacc)|]. intros [lifetimes counts] [[H1 H2 H3 H4 H5] Hidx].
  cbn [fst snd] in *. assert (forall i c, zget counts i = Some c -> 0 <= c) as Hpos.
  { intros i c E. assert (i = slot (i + 1)) as Hi by (apply zget_range in E; rewrite slot_small by lia; lia).
    rewrite Hi, H4 in E by (apply zget_range in E; lia). injection E as <-. apply uses_of_nonneg. }
  eapply returns_andThen; [exact (sum_offsets_returns counts Hpos)|]. intros offsets Hs.
  destruct (zget_is_Some offsets (zlen counts)) as [total Et]; [rewrite (su_length _ _ Hs); pose proof (zlen_nonneg counts); lia|].
  rewrite Et. cbn [mbind option_bind].
  destruct (list_uses_total n counts offsets total (i_nodes info) Hs H2 Hmax H4) as (uses & cursors & -> & Hu & Huse); [| by rewrite <- H2 |].
  { intros e He. destruct (H3 e He) as [? _]. split; [done|]. apply elem_of_events in He as [He _].
    apply list_elem_of_lookup in He as [k Ek]. rewrite <- zget_nat in Ek. rewrite (Hidx _ _ Ek). by apply zget_range in Ek. }
  cbn [mbind option_bind]. apply returns_next. split; cbn [w_lifetimes w_offsets w_uses]; try done.
  - intros id Hid. destruct (H5 id Hid) as (l & El & Hin & Hf). exists l. split; [done|]. split.
    + intros node a Hn Ha Hr. apply (Hin (node, a)); [by apply elem_of_events | done].
    + intros E. by destruct (Hf E).
  - intros node a Hn Ha. by destruct (H3 (node, a)) as [? _]; [apply elem_of_events|].
  - intros i Hi. fold n in Hi. destruct (zget_is_Some counts i ltac:(lia)) as [c Ec].
    destruct (zget_is_Some offsets i) as [lo Elo]; [rewrite (su_length _ _ Hs); lia|].
    pose proof (su_next _ _ Hs i lo c ltac:(lia) Elo Ec) as Ehi. exists lo, (lo + c). pose proof (su_range _ _ Hs _ _ Elo). pose proof (Hpos _ _ Ec).
    split; [done|]. split; [done|]. split; [lia|]. rewrite Hu. eapply summed_monotone; [exact Hs | exact Hpos | | exact Ehi | exact Et]. lia.
Qed.

(** ** The resources the arena holds

    The classification returns for every collected graph, and its arena lists every
    internal resource that is used, once. *)
(** ** The questions on domains *)
Lemma count_subset_total rs child parent : resources_valid rs -> 0 <= child <= zlen rs ->
  exists b, count_subset rs child parent = Some b.
Proof.
  intros [Hn Hr] Hc. unfold count_subset. destruct (parent =? 0); [by eexists|].
  generalize (length rs) as depth. intros depth. revert child Hc. induction depth as [|depth IH]; intros child Hc; [by eexists|].
  cbn [count_subset_loop]. destruct (Z.eqb_spec child 0); [by eexists|].
  destruct (get_slot rs child ltac:(lia) Hn) as [v Ev]. rewrite Ev. cbn [mbind option_bind].
  destruct (_ =? _); [by eexists|]. apply IH. by destruct (Hr _ _ Ev) as (_ & _ & ? & _).
Qed.

Lemma domain_subset_total rs read write : resources_valid rs -> 0 <= d_count read <= zlen rs ->
  exists b, domain_subset read write rs = Some b.
Proof.
  intros Hr Hc. unfold domain_subset. repeat case_match; try by eexists. by apply count_subset_total.
Qed.

Section Classify.
Context (info : Info) (nodes : list MemoryNode) (page : Z) (work : Work).
Context (Hvalid : resources_valid (i_resources info)).
Context (Hnodes : zlen nodes = zlen (i_nodes info)).
Context (Hdomain : forall m, m ∈ nodes -> 0 <= d_count (m_domain m) <= zlen (i_resources info)).
Context (Hwork : work_ok info work).

Lemma domain_reusable_total rs index lifetime : like (i_resources info) rs -> 0 <= index < zlen rs ->
  0 < zlen (i_nodes info) -> exists b, domain_reusable nodes work rs index lifetime = Some b.
Proof using Hvalid Hnodes Hdomain Hwork.
  intros Hl Hi Hpos. unfold domain_reusable. pose proof (like_zlen _ _ Hl) as Hlen.
  destruct (wk_offsets _ _ Hwork index ltac:(lia)) as (lo & hi & -> & -> & Hle & Hhi). cbn [mbind option_bind].
  match goal with |- context [for_loop ?b tt ?l] => destruct (for_loop_safe (R := bool) (fun _ _ => True) b l tt) as [(v & ->) | (st & -> & _)] end;
    [done | | by eexists | by eexists].
  intros d cursor rest _ Ed _. destruct (range_split lo hi d cursor rest ltac:(lia) Ed) as (Hc & Hlt & _). pose proof (zlen_nonneg d).
  destruct (zget_is_Some (w_uses work) cursor ltac:(lia)) as [node En]. rewrite En. cbn [mbind option_bind].
  assert (0 <= node < zlen nodes) as Hnode.
  { apply zget_Some in En as [_ En]. apply list_elem_of_lookup_2 in En. destruct (wk_uses _ _ Hwork node En); lia. }
  destruct (zget_is_Some nodes node Hnode) as [m Em]. rewrite Em. cbn [mbind option_bind].
  destruct (domain_subset_total rs (m_domain m) (l_domain lifetime)) as [b ->].
  - by eapply like_valid.
  - rewrite <- Hlen. apply Hdomain. apply zget_Some in Em as [_ Em]. by eapply list_elem_of_lookup_2.
  - cbn [mbind option_bind]. destruct b; [right; by eexists | left; by eexists].
Qed.

(** ** One resource *)
Definition kept (id : Z) : Prop := exists v l, zget (i_resources info) (slot id) = Some v /\
  g_visibility v = VisInternal /\ zget (w_lifetimes work) (slot id) = Some l /\ l_first l <> NoNode.

Record classified (d : list Z) (st : Classified) : Prop := {
  cd_like : like (i_resources info) (cl_resources st);
  cd_source : forall i r, zget (cl_resources st) i = Some r -> exists r0, zget (i_resources info) i = Some r0 /\ g_source r = g_source r0;
  cd_live : zlen (cl_live st) = zlen (i_nodes info);
  cd_nodup : NoDup (cl_arena st);
  cd_arena : forall id, id ∈ cl_arena st <-> 1 <= id <= zlen (i_resources info) /\ slot id ∈ d /\ kept id;
  cd_bytes : forall id v, id ∈ cl_arena st -> zget (i_resources info) (slot id) = Some v -> g_bytes v <= page;
}.

Lemma add_live_returns lifetime bytes live : 0 <= l_first lifetime < zlen live -> 0 <= l_last lifetime < zlen live ->
  returns (add_live lifetime bytes live) (fun live' => zlen live' = zlen live).
Proof.
  intros Hf Hl. unfold add_live. destruct (zget_is_Some live _ Hf) as [x ->]. cbn [mbind option_bind].
  destruct (Checked.add _ _); [|auto]. rewrite zset_Some by lia. cbn [mbind option_bind].
  destruct (zget_is_Some (<[Z.to_nat (l_first lifetime) := mk_live z (live_stop x)]> live) (l_last lifetime)) as [y ->]; [by rewrite zlen_insert|].
  cbn [mbind option_bind]. destruct (Checked.add _ _); [|auto]. rewrite zset_Some by (by rewrite zlen_insert). cbn [mbind option_bind].
  apply returns_next. by rewrite !zlen_insert.
Qed.

Lemma reset_resource_returns d index value lifetime st : zget (cl_resources st) index = Some value -> classified d st ->
  returns (reset_resource index value lifetime st) (fun st' => classified d st' /\ cl_arena st' = cl_arena st).
Proof.
  intros E [H1 H2 H3 H4 H5 H6]. unfold reset_resource. destruct (add_reset _ _); [|auto].
  pose proof (zget_range _ _ _ E) as Hi. rewrite zset_Some by done. cbn [mbind option_bind]. apply returns_next.
  split; [|done]. split; cbn [cl_resources cl_live cl_arena]; try done.
  - by eapply like_modify.
  - intros i r Er. destruct (decide (i = index)) as [->|Hne].
    + rewrite zget_insert_eq in Er by done. injection Er as <-. destruct (H2 _ _ E) as (r0 & ? & ?). by exists r0.
    + rewrite zget_insert_ne in Er by lia. by apply H2.
Qed.

Lemma classified_skip d index st : index = zlen d -> zlen d < zlen (i_resources info) -> ~ kept (index + 1) -> classified d st -> classified (d ++ [index]) st.
Proof using Hvalid.
  intros Hi Hlt Hk [H1 H2 H3 H4 H5 H6]. split; try done. intros id. rewrite H5, elem_of_app, list_elem_of_singleton.
  split; [intros (? & ? & ?); auto|]. intros (Hid & [?|Hs] & ?); [done|]. exfalso. apply Hk.
  assert (index + 1 = id) as ->; [|done]. rewrite slot_small in Hs by (pose proof (rv_size _ Hvalid); lia). lia.
Qed.

Lemma classified_add d index id st : index = zlen d -> zlen d < zlen (i_resources info) -> id = index + 1 -> index ∉ d ->
  kept id -> (forall v, zget (i_resources info) (slot id) = Some v -> g_bytes v <= page) -> classified d st ->
  classified (d ++ [index]) (mk_classified (cl_memory st) (cl_resources st) (cl_live st) (cl_arena st ++ [id])).
Proof using Hvalid.
  intros Hi Hlt -> Hnot Hk Hb [H1 H2 H3 H4 H5 H6]. pose proof (zlen_nonneg d). pose proof (rv_size _ Hvalid).
  assert (slot (index + 1) = index) as Hs by (rewrite slot_small by lia; lia).
  split; cbn [cl_resources cl_live cl_arena]; try done.
  - apply list.NoDup_app. split; [done|]. split; [|apply NoDup_singleton]. intros id Hid ->%list_elem_of_singleton.
    apply H5 in Hid as (_ & Hd & _). by rewrite Hs in Hd.
  - intros id. rewrite !elem_of_app, !list_elem_of_singleton, H5. split.
    + intros [(? & ? & ?)| ->]; [auto|]. split; [lia|]. auto.
    + intros (Hid & [?|E] & ?); [by left|]. right. rewrite slot_small in E by lia. lia.
  - intros id v [Hid| ->%list_elem_of_singleton]%elem_of_app Ev; [by eapply H6 | by apply Hb].
Qed.

Lemma classify_internal_returns d index value lifetime st : index = zlen d -> zlen d < zlen (i_resources info) ->
  index ∉ d -> zget (cl_resources st) index = Some value -> g_visibility value = VisInternal ->
  zget (w_lifetimes work) index = Some lifetime -> (l_first lifetime <> NoNode -> 0 <= l_first lifetime <= l_last lifetime) ->
  classified d st -> returns (classify_internal info nodes page work index value lifetime st) (classified (d ++ [index])).
Proof using Hvalid Hnodes Hdomain Hwork.
  intros Hi Hlt Hnot Ev Hvis El Hlife Hst. unfold classify_internal. destruct (add_logical _ _) as [memory|]; [|auto].
  destruct (Z.ltb_spec page (g_bytes value)) as [|Hpage]; [auto|]. pose proof (rv_size _ Hvalid) as Hsize. pose proof (zlen_nonneg d).
  assert (slot (index + 1) = index) as Hs by (rewrite slot_small by lia; lia).
  destruct (cd_source _ _ Hst _ _ Ev) as (v0 & Ev0 & _). destruct (like_get _ _ _ _ (cd_like _ _ Hst) Ev) as (v1 & Ev1 & He).
  rewrite Ev0 in Ev1. injection Ev1 as <-. destruct (erase_fields _ _ He) as (Hid & _ & _ & Hb & _ & _ & Hv).
  destruct Hst as [H1 H2 H3 H4 H5 H6]. set (st1 := mk_classified memory (cl_resources st) (cl_live st) (cl_arena st)).
  assert (classified d st1) as Hst1 by done.
  destruct (Z.eqb_spec (l_first lifetime) NoNode) as [Enone|Hsome].
  { apply returns_next. apply classified_skip; [done | done | | done].
    intros (v & l & _ & _ & El' & Hne). rewrite Hs, El in El'. by injection El' as <-. }
  destruct (_ || _) eqn:Eb; [auto|]. to_prop. specialize (Hlife Hsome).
  apply returns_andThen with (fun live => zlen live = zlen (i_nodes info)).
  { destruct (add_live_returns lifetime (g_bytes value) (cl_live st1)) as (f & -> & Hf); [cbn; lia | cbn; lia|]. exists f. split; [done|]. destruct f; [cbn in Hf; lia | done]. }
  intros live Hlive. assert (classified d (mk_classified memory (cl_resources st) live (cl_arena st))) as Hst2 by done.
  destruct (_ || _); [auto|]. unfold st1. cbn [cl_memory cl_resources cl_live cl_arena].
  assert (exists b, (if l_first_write_complete lifetime then Some true
                    else if l_first_write_domain lifetime
                    then domain_reusable nodes work (cl_resources st) index lifetime
                    else Some false) = Some b) as [b ->].
  { destruct (l_first_write_complete _); [by eexists|]. destruct (l_first_write_domain _); [|by eexists].
    apply domain_reusable_total; [done | by eapply zget_range | lia]. }
  cbn [mbind option_bind]. apply returns_andThen with (classified d).
  { destruct b; [by apply returns_next|].
    destruct (reset_resource_returns d index value lifetime (mk_classified memory (cl_resources st) live (cl_arena st)) Ev Hst2) as (f & -> & Hf). exists f. split; [done|]. by destruct f as [st'|]; [destruct Hf|]. }
  intros st' Hst'. apply returns_next. destruct (rv_get _ Hvalid _ _ Ev0) as [Hid0 _]. apply classified_add; try done; try lia.
  - exists v0, lifetime. rewrite <- Hid, Hid0, Hs. split; [done|]. split; [by rewrite Hv|]. done.
  - intros v Ev'. rewrite <- Hid, Hid0, Hs, Ev0 in Ev'. injection Ev' as <-. lia.
Qed.

Lemma classify_one_returns d index st : index = zlen d -> zlen d < zlen (i_resources info) -> index ∉ d ->
  classified d st -> returns (classify_one info nodes page work st index) (classified (d ++ [index])).
Proof using Hvalid Hnodes Hdomain Hwork.
  intros Hi Hlt Hnot Hst. unfold classify_one. pose proof (zlen_nonneg d). pose proof (rv_size _ Hvalid).
  assert (slot (index + 1) = index) as Hs by (rewrite slot_small by lia; lia).
  destruct (zget_is_Some (cl_resources st) index) as [v Ev]; [rewrite <- (like_zlen _ _ (cd_like _ _ Hst)); lia|].
  destruct (wk_lifetime _ _ Hwork (index + 1) ltac:(lia)) as (l & El & _ & Hl). rewrite Hs in El.
  rewrite Ev, El. cbn [mbind option_bind]. case_bool_decide as Hv; cbn [negb]; [by apply classify_internal_returns|].
  assert (classified (d ++ [index]) st) as Hskip.
  { apply classified_skip; [done | done | | done]. intros (v0 & l0 & Ev0 & Hv0 & _). rewrite Hs in Ev0.
    destruct (like_get _ _ _ _ (cd_like _ _ Hst) Ev) as (v1 & Ev1 & He). rewrite Ev0 in Ev1. injection Ev1 as <-.
    destruct (erase_fields _ _ He) as (_ & _ & _ & _ & _ & _ & Hvv). congruence. }
  destruct (_ && _); [|by apply returns_next]. destruct (_ || _); [auto|].
  destruct (reset_resource_returns _ index v l st Ev Hskip) as (f & -> & Hf). exists f. split; [done|]. by destruct f as [st'|]; [destruct Hf|].
Qed.
End Classify.

(** ** The phase *)
Record classes_ok (info : Info) (work : Work) (page : Z) (info' : Info) (work' : Work) : Prop := {
  cs_like : like (i_resources info) (i_resources info');
  cs_source : forall i r, zget (i_resources info') i = Some r -> exists r0, zget (i_resources info) i = Some r0 /\ g_source r = g_source r0;
  cs_nodes : i_nodes info' = i_nodes info;
  cs_lifetimes : w_lifetimes work' = w_lifetimes work;
  cs_live : zlen (w_live work') = zlen (i_nodes info);
  cs_nodup : NoDup (w_arena work');
  cs_arena : forall id, id ∈ w_arena work' <-> 1 <= id <= zlen (i_resources info) /\ kept info work id;
  cs_bytes : forall id v, id ∈ w_arena work' -> zget (i_resources info) (slot id) = Some v -> g_bytes v <= page;
}.

Lemma classify_returns info nodes page work : resources_valid (i_resources info) ->
  zlen nodes = zlen (i_nodes info) ->
  (forall m, m ∈ nodes -> 0 <= d_count (m_domain m) <= zlen (i_resources info)) ->
  work_ok info work ->
  returns (classify info nodes page work) (fun '(info', work') => classes_ok info work page info' work').
Proof.
  intros Hvalid Hnodes Hdomain Hwork. unfold classify. pose proof (zlen_nonneg (i_resources info)).
  apply returns_andThen with (classified info page work (range 0 (zlen (i_resources info)))).
  - apply returns_for with (classified info page work); [| |done].
    + split; cbn [cl_resources cl_live cl_arena]; try done.
      * intros i r E. by exists r.
      * by rewrite zlen_replicate.
      * constructor.
      * intros id. split; [intros Hid; by apply elem_of_nil in Hid|]. intros (_ & Hid & _). by apply elem_of_nil in Hid.
      * intros id v Hid. by apply elem_of_nil in Hid.
    + intros d index rest st Ed Hst. destruct (range_split 0 (zlen (i_resources info)) d index rest ltac:(lia) Ed) as (Hi & Hlt & Hin).
      apply classify_one_returns; try done; try lia. intros [_ Hd]%Hin. lia.
  - intros st [H1 H2 H3 H4 H5 H6]. apply returns_next. split; cbn; try done.
    + intros id. rewrite H5. split; [by intros (? & _ & ?)|]. intros [Hid Hk]. split; [done|]. split; [|done].
      apply elem_of_range. pose proof (rv_size _ Hvalid). rewrite slot_small by lia. lia.
Qed.

(** ** The sources of in-place writes

    The resource a node is the first to write may be written over a resource of the
    same shape that the node is the last to read. Every source found is such a
    resource, and no two resources have the same one. *)
(** ** What the search reads is the same in resources that are alike *)
Lemma like_lookup rs rs' i : like rs rs' -> erase <$> zget rs i = erase <$> zget rs' i.
Proof.
  intros H. unfold zget. destruct (0 <=? i); [|done]. rewrite <- !list_lookup_fmap. by rewrite H.
Qed.

Lemma for_loop_ext {A S R} (f g : S -> A -> option (flow S R)) s l : (forall s x, f s x = g s x) ->
  for_loop f s l = for_loop g s l.
Proof.
  intros H. revert s. induction l as [|x l IH]; intros s; [done|]. cbn [for_loop]. rewrite H.
  destruct (g s x) as [[]|]; cbn; [apply IH | done..].
Qed.

Lemma births_like lifetimes rs rs' node a : like rs rs' -> births lifetimes rs node a = births lifetimes rs' node a.
Proof.
  intros Hl. unfold births, stored. pose proof (like_lookup rs rs' (slot (a_resource a)) Hl) as E.
  destruct (zget rs _) as [v|], (zget rs' _) as [v'|]; try done. injection E as E.
  destruct (erase_fields v v') as (_ & _ & _ & Hb & He & Heb & Hv).
  { unfold erase, set_reset, set_source, set_alias. by f_equal. }
  cbn [mbind option_bind]. unfold whole_value. by rewrite Hb, He, Heb, Hv.
Qed.

Lemma find_output_like lifetimes rs rs' node : like rs rs' -> find_output lifetimes rs node = find_output lifetimes rs' node.
Proof.
  intros Hl. unfold find_output. f_equal. apply for_loop_ext. intros o a. by rewrite (births_like _ rs rs').
Qed.

Section Sources.
Context (info : Info) (nodes : list MemoryNode) (work : Work).
Context (Hvalid : resources_valid (i_resources info)).
Context (Hnodes : zlen nodes = zlen (i_nodes info)).
Context (Hwork : work_ok info work).

#[local] Abbreviation lifetimes := (w_lifetimes work).
#[local] Abbreviation base := (i_resources info).

Lemma get_base id rs : like base rs -> 1 <= id <= zlen base -> exists v v0, zget rs (slot id) = Some v /\
  zget base (slot id) = Some v0 /\ g_bytes v = g_bytes v0 /\ g_visibility v = g_visibility v0.
Proof using Hvalid.
  intros Hl Hid. pose proof (like_zlen _ _ Hl) as Hlen. pose proof (rv_size _ Hvalid).
  destruct (get_slot rs id ltac:(lia) ltac:(lia)) as [v Ev]. destruct (like_get _ _ _ _ Hl Ev) as (v0 & Ev0 & He).
  destruct (erase_fields _ _ He) as (_ & _ & _ & ? & _ & _ & ?). by exists v, v0.
Qed.

Lemma stored_ok rs id : like base rs -> 1 <= id <= zlen base ->
  exists b, stored lifetimes rs id = Some b /\ (b = true -> kept info work id).
Proof using Hvalid Hwork.
  intros Hl Hid. destruct (get_base id rs Hl Hid) as (v & v0 & Ev & Ev0 & _ & Hv).
  destruct (wk_lifetime _ _ Hwork id Hid) as (l & El & _). unfold stored. rewrite Ev. cbn [mbind option_bind].
  case_bool_decide as Hi; cbn [negb]; [|by exists false]. rewrite El. cbn [mbind option_bind]. eexists. split; [done|].
  intros Hf%negb_true_iff%Z.eqb_neq. exists v0, l. split; [done|]. split; [by rewrite <- Hv|]. done.
Qed.

Lemma births_ok rs node a : like base rs -> 1 <= a_resource a <= zlen base ->
  exists b, births lifetimes rs node a = Some b /\
    (b = true -> kept info work (a_resource a) /\ first_of lifetimes (a_resource a) = n_index node).
Proof using Hvalid Hwork.
  intros Hl Hid. unfold births. destruct (negb _); [by exists false|].
  destruct (stored_ok rs _ Hl Hid) as (b & -> & Hb). cbn [mbind option_bind]. destruct b; cbn [negb]; [|by exists false].
  destruct (wk_lifetime _ _ Hwork _ Hid) as (l & El & _). rewrite El. cbn [mbind option_bind].
  destruct (Z.eqb_spec (l_first l) (n_index node)) as [Hf|]; cbn [negb]; [|by exists false].
  destruct (get_base _ rs Hl Hid) as (v & _ & -> & _). cbn [mbind option_bind]. eexists. split; [done|]. intros _.
  split; [by apply Hb|]. unfold first_of. by rewrite El.
Qed.

Lemma find_output_ok rs node : like base rs -> (forall a, a ∈ n_accesses node -> 1 <= a_resource a <= zlen base) ->
  exists x, find_output lifetimes rs node = Some x /\
    (x <> 0 -> 1 <= x <= zlen base /\ kept info work x /\ first_of lifetimes x = n_index node).
Proof using Hvalid Hwork.
  intros Hl Hacc. unfold find_output. set (Good := fun x => x <> 0 -> 1 <= x <= zlen base /\ kept info work x /\ first_of lifetimes x = n_index node).
  assert (forall l o, (forall a, a ∈ l -> 1 <= a_resource a <= zlen base) -> Good o -> exists f,
    for_loop (fun output access =>
        fresh ← births lifetimes rs node access;
        Some (if negb fresh then Next output
              else if negb (output =? 0) then Return 0 else Next (a_resource access))) o l = Some f /\
    Good (match f with Next output => output | Return output => output end)) as G.
  { induction l as [|a l IH]; intros o Hin Ho; [by exists (Next o)|]. cbn [for_loop].
    assert (1 <= a_resource a <= zlen base) as Ha by (apply Hin; by left).
    destruct (births_ok rs node a Hl Ha) as (b & -> & Hb). cbn [mbind option_bind].
    assert (forall a', a' ∈ l -> 1 <= a_resource a' <= zlen base) as Hin' by (intros; apply Hin; by right).
    destruct b; cbn [negb]; [|by apply IH]. destruct (o =? 0); cbn [negb]; [|by exists (Return 0)].
    apply IH; [done|]. intros _. split; [done | by apply Hb]. }
  destruct (G (n_accesses node) 0 Hacc ltac:(done)) as (f & -> & Hf). cbn [mbind option_bind]. by eexists.
Qed.

Lemma dies_ok rs node target a : like base rs -> 1 <= a_resource a <= zlen base ->
  exists b, dies lifetimes rs node target a = Some b /\
    (b = true -> kept info work (a_resource a) /\ last_of lifetimes (a_resource a) = n_index node /\
       first_of lifetimes (a_resource a) < n_index node /\ bytes_of base (a_resource a) = g_bytes target).
Proof using Hvalid Hwork.
  intros Hl Hid. unfold dies. destruct (negb _); [by exists false|].
  destruct (stored_ok rs _ Hl Hid) as (b & -> & Hb). cbn [mbind option_bind]. destruct b; cbn [negb]; [|by exists false].
  destruct (wk_lifetime _ _ Hwork _ Hid) as (l & El & _). rewrite El. cbn [mbind option_bind].
  destruct (_ || _) eqn:Ec; [by exists false|]. to_prop.
  destruct (get_base _ rs Hl Hid) as (v & v0 & -> & Ev0 & Hbytes & _). cbn [mbind option_bind]. eexists. split; [done|].
  intros [_ Hs]%andb_true_iff. unfold same_shape in Hs. to_prop. split; [by apply Hb|].
  unfold last_of, first_of, bytes_of. rewrite El, Ev0. cbn. split; [done|]. split; [lia|]. congruence.
Qed.

Lemma find_source_ok rs node target : like base rs -> (forall a, a ∈ n_accesses node -> 1 <= a_resource a <= zlen base) ->
  exists s, find_source lifetimes rs node target = Some s /\
    (s <> 0 -> 1 <= s <= zlen base /\ kept info work s /\ last_of lifetimes s = n_index node /\
       first_of lifetimes s < n_index node /\ bytes_of base s = g_bytes target).
Proof using Hvalid Hwork.
  intros Hl Hacc. unfold find_source.
  set (Good := fun s => s <> 0 -> 1 <= s <= zlen base /\ kept info work s /\ last_of lifetimes s = n_index node /\
       first_of lifetimes s < n_index node /\ bytes_of base s = g_bytes target).
  match goal with |- exists s, for_each ?b 0 _ = Some s /\ _ => destruct (for_each_inv (fun _ s => Good s) b (n_accesses node) 0) as (s & -> & Hs) end;
    [done | | by exists s].
  intros d a rest s Ed Hs. assert (1 <= a_resource a <= zlen base) as Ha by (apply Hacc; rewrite Ed, elem_of_app; right; by left).
  destruct (dies_ok rs node target a Hl Ha) as (b & -> & Hb). cbn [mbind option_bind].
  destruct b; cbn [negb]; [|by exists s]. eexists. split; [done|]. assert (Good (a_resource a)) as Hg by (intros _; split; [done | by apply Hb]).
  destruct (s =? 0); [done|]. by destruct (Z.min_spec s (a_resource a)) as [[_ ->]|[_ ->]].
Qed.

(** ** The loop over the nodes *)
Record sources_ok (rs : list Resource) : Prop := {
  so_like : like base rs;
  so_source : forall x v, 1 <= x <= zlen base -> zget rs (slot x) = Some v -> g_source v <> 0 ->
    kept info work x /\ 1 <= g_source v <= zlen base /\ kept info work (g_source v) /\
    last_of lifetimes (g_source v) = first_of lifetimes x /\
    first_of lifetimes (g_source v) < first_of lifetimes x /\ bytes_of base (g_source v) = bytes_of base x /\
    exists node, node ∈ i_nodes info /\ n_index node = first_of lifetimes x /\ find_output lifetimes base node = Some x;
}.

Lemma identify_node_ok rs node : node ∈ i_nodes info -> sources_ok rs ->
  exists rs', identify_node lifetimes nodes rs node = Some rs' /\ sources_ok rs'.
Proof using Hvalid Hnodes Hwork.
  intros Hn Hok. unfold identify_node. destruct (negb _); [by exists rs|].
  assert (0 <= n_index node < zlen nodes) as Hi.
  { apply list_elem_of_lookup in Hn as [k Ek]. rewrite <- zget_nat in Ek. rewrite (wk_index _ _ Hwork _ _ Ek), Hnodes. by eapply zget_range. }
  destruct (zget_is_Some nodes _ Hi) as [m ->]. cbn [mbind option_bind]. destruct (_ || _); [by exists rs|].
  assert (forall a, a ∈ n_accesses node -> 1 <= a_resource a <= zlen base) as Hacc by (intros a; by apply (wk_accesses _ _ Hwork)).
  destruct Hok as [Hl Hs]. destruct (find_output_ok rs node Hl Hacc) as (x & Ex & Hx). rewrite Ex. cbn [mbind option_bind].
  destruct (Z.eqb_spec x 0) as [|Hne]; [by exists rs|]. destruct (Hx Hne) as (Hid & Hk & Hf).
  destruct (get_base x rs Hl Hid) as (v & v0 & Ev & Ev0 & Hb & _). rewrite Ev. cbn [mbind option_bind].
  destruct (find_source_ok rs node v Hl Hacc) as (s & -> & Hsrc). cbn [mbind option_bind].
  destruct (Z.eqb_spec s 0) as [|Hsne]; [by exists rs|]. destruct (Hsrc Hsne) as (Hsid & Hsk & Hlast & Hfirst & Hbytes).
  pose proof (zget_range _ _ _ Ev) as Hr. rewrite zset_Some by done. eexists. split; [done|]. split; [by eapply like_modify|].
  pose proof (rv_size _ Hvalid) as Hsize. intros y w Hy Ew Hw. destruct (slot_index y _ Hy Hsize) as [Hys ?]. destruct (slot_index x _ Hid Hsize) as [Hxs ?].
  destruct (decide (y = x)) as [->|Hyx].
  - rewrite zget_insert_eq in Ew by done. injection Ew as <-. cbn [g_source set_source]. split; [done|]. split; [done|]. split; [done|].
    split; [by rewrite Hlast, Hf|]. split; [lia|]. split; [by rewrite Hbytes, Hb; unfold bytes_of; rewrite Ev0|].
    exists node. split; [done|]. split; [done|]. by rewrite (find_output_like _ base rs).
  - rewrite zget_insert_ne in Ew by lia. by apply Hs.
Qed.

Lemma identify_sources_ok : (forall i r, zget base i = Some r -> g_source r = 0) ->
  exists rs, identify_sources lifetimes nodes base (i_nodes info) = Some rs /\ sources_ok rs.
Proof using Hvalid Hnodes Hwork.
  intros H0. apply for_each_inv with (Inv := fun _ => sources_ok).
  - split; [done|]. intros x v _ E Hne. by rewrite (H0 _ _ E) in Hne.
  - intros d node rest rs E Hok. apply identify_node_ok; [|done]. rewrite E, elem_of_app. right. by left.
Qed.

(** No two resources have the same source. *)
Lemma sources_unique rs x y v w : sources_ok rs -> 1 <= x <= zlen base -> 1 <= y <= zlen base ->
  zget rs (slot x) = Some v -> zget rs (slot y) = Some w -> g_source v <> 0 -> g_source v = g_source w -> x = y.
Proof using Hwork.
  intros [_ Hs] Hx Hy Ev Ew Hne E. destruct (Hs x v Hx Ev Hne) as (_ & _ & _ & Hlx & _ & _ & nx & Hnx & Hix & Hox).
  destruct (Hs y w Hy Ew ltac:(congruence)) as (_ & _ & _ & Hly & _ & _ & ny & Hny & Hiy & Hoy).
  assert (nx = ny) as ->; [|congruence]. apply list_elem_of_lookup in Hnx as [i Ei]. apply list_elem_of_lookup in Hny as [j Ej].
  rewrite <- zget_nat in Ei, Ej. pose proof (wk_index _ _ Hwork _ _ Ei). pose proof (wk_index _ _ Hwork _ _ Ej).
  assert (Z.of_nat i = Z.of_nat j) as Eij by congruence. rewrite Eij in Ei. congruence.
Qed.
End Sources.
