(* ===== verification/FinalizeFacts.v ===== *)
(** * FinalizeFacts: the memory plan of a graph is safe

    The arena of a graph meets what the packing relies on, so the layout of the plan is
    safe; with it, the planner returns for every graph, and in the plan two resources
    that are alive at the same node share no byte, unless one is written over the other
    at the node that is the last to use the other. *)

From stdpp Require Import base numbers list option.
From Stdlib Require Import ZArith Lia.
From S2P Require Import Prelude Checked Ordered MemoryModel MemoryArena PlanMemory MemoryArenaFacts OrdinaryFacts LargeFacts PackFacts CollectFacts.

(** ** The order of the arena *)
Lemma arena_key_first lifetimes id : arena_key lifetimes id = first_of lifetimes id.
Proof. unfold arena_key, first_of. by destruct (zget _ _). Qed.

Lemma arena_lt_spec lifetimes x y : arena_lt lifetimes x y = true <->
  first_of lifetimes x < first_of lifetimes y \/ (first_of lifetimes x = first_of lifetimes y /\ x < y).
Proof.
  unfold arena_lt. rewrite !arena_key_first, orb_true_iff, andb_true_iff, !Z.ltb_lt, Z.eqb_eq. done.
Qed.
Lemma arena_lt_false lifetimes x y : arena_lt lifetimes x y = false <->
  first_of lifetimes y < first_of lifetimes x \/ (first_of lifetimes y = first_of lifetimes x /\ y <= x).
Proof.
  pose proof (arena_lt_spec lifetimes x y) as H. destruct (arena_lt lifetimes x y).
  - split; [done|]. intros. assert (true = true) as E by done. apply H in E. lia.
  - split; [|done]. intros _. destruct (Z.lt_total (first_of lifetimes x) (first_of lifetimes y)) as [|[|]]; [| |lia].
    + assert (false = true) by (apply H; lia). done.
    + destruct (Z.le_gt_cases y x); [lia|]. assert (false = true) by (apply H; lia). done.
Qed.

Lemma arena_sorted lifetimes l d x rest y : ord_sort (arena_lt lifetimes) l = d ++ x :: rest -> y ∈ d ->
  first_of lifetimes y <= first_of lifetimes x.
Proof.
  intros E Hy. assert (in_order (arena_lt lifetimes) (ord_sort (arena_lt lifetimes) l)) as Hin.
  { apply ord_sort_in_order.
    - intros a b H%arena_lt_spec. apply arena_lt_false. lia.
    - intros a b c H1%arena_lt_false H2%arena_lt_false. apply arena_lt_false. lia. }
  specialize (Hin d x rest y E Hy). apply arena_lt_false in Hin. lia.
Qed.

(** ** An empty resource *)
Lemma pack_zero resources lifetimes ids limit destructive : zlen resources <= U32_MAX ->
  (forall id, id ∈ ids -> 1 <= id <= zlen resources) -> (exists id, id ∈ ids /\ bytes_of resources id = 0) ->
  pack resources lifetimes ids limit destructive = Some None.
Proof.
  intros Hn Hr [z [Hz H0]]. unfold pack. destruct (_ || _); [done|].
  match goal with |- after (for_loop ?b _ _) _ = _ => set (body := b) end.
  assert (forall l s, z ∈ l -> (forall id, id ∈ l -> id ∈ ids) -> for_loop (R := option Layout) body s l = Some (Return None)) as G.
  { induction l as [|x l IH]; intros [o g] Hin Hl; [by apply elem_of_nil in Hin|]. cbn [for_loop].
    assert (x ∈ ids) as Hx by (apply Hl; by left). pose proof (Hr x Hx) as Hxr.
    assert (body (o, g) x = Some (Return None) \/ (x <> z /\ exists s, body (o, g) x = Some (Next s))) as [-> | [Hne [s ->]]]; [|done|].
    - unfold body. destruct (Z.eqb_spec x 0); [by left|]. destruct (Z.ltb_spec (zlen resources) x); [by left|]. cbn [orb].
      destruct (get_slot resources x Hxr Hn) as [v Ev]. rewrite Ev. cbn [mbind option_bind].
      destruct (Z.eqb_spec (g_bytes v) 0); [by left|]. destruct (_ <? _); [by left|]. right. split; [|by eexists].
      intros ->. unfold bytes_of in H0. rewrite Ev in H0. done.
    - cbn [mbind option_bind]. apply IH; [|intros; apply Hl; by right]. by apply elem_of_cons in Hin as [->|]. }
  by rewrite G.
Qed.

(** ** What the planner says of the resources *)
Definition assigned (destructive : bool) (owner offset : Z) (value : Resource) : Resource :=
  let value := set_alias owner offset value in if destructive then value else set_source 0 value.

Lemma assigned_fields destructive owner offset v : erase (assigned destructive owner offset v) = erase v /\
  g_alias_group (assigned destructive owner offset v) = owner /\ g_alias_offset_bytes (assigned destructive owner offset v) = offset /\
  g_source (assigned destructive owner offset v) = (if destructive then g_source v else 0).
Proof. by destruct destructive, v. Qed.

Record laid_out (layout : Layout) (destructive : bool) (rs : list Resource) (ids : list Z) (rs' : list Resource) : Prop := {
  lo_like : like rs rs';
  lo_assigned : forall id, id ∈ ids -> exists v owner offset, zget rs (slot id) = Some v /\
    zget (lay_owners layout) (slot id) = Some owner /\ zget (lay_offsets layout) (slot id) = Some offset /\
    zget rs' (slot id) = Some (assigned destructive owner offset v);
  lo_other : forall i, (forall id, id ∈ ids -> slot id <> i) -> zget rs' i = zget rs i;
}.

Section Finalize.
Context (rs : list Resource) (lifetimes : list Lifetime) (ids : list Z).
Context (Hsize : zlen rs <= U32_MAX).
Context (Hrange : forall id, id ∈ ids -> 1 <= id <= zlen rs).
Context (Hnodup : NoDup ids).

Lemma assign_returns layout destructive :
  (forall id, id ∈ ids -> exists w o, zget (lay_owners layout) (slot id) = Some w /\ zget (lay_offsets layout) (slot id) = Some o /\ w <> 0) ->
  returns (for_loop (assign_one layout destructive) rs ids) (laid_out layout destructive rs ids).
Proof using Hsize Hrange Hnodup.
  intros Hlay. apply returns_for with (laid_out layout destructive rs); [| |done].
  - split; [done | | done]. intros id Hid. by apply elem_of_nil in Hid.
  - intros d x rest rs' E [Hl Ha Ho]. assert (x ∈ ids) as Hx by (rewrite E, elem_of_app; right; by left).
    destruct (Hlay x Hx) as (w & o & Ew & Eo & Hw). unfold assign_one. rewrite Ew, Eo. cbn [mbind option_bind].
    destruct (Z.eqb_spec w 0); [done|]. pose proof (Hrange x Hx) as Hxr. destruct (slot_index x _ Hxr Hsize) as [Hxs Hxb].
    assert (forall id, id ∈ d -> slot id <> slot x) as Hfresh.
    { intros id Hid Es. assert (id ∈ ids) as Hin by (rewrite E, elem_of_app; by left).
      destruct (slot_index id _ (Hrange id Hin) Hsize). assert (id = x) as -> by lia.
      rewrite E in Hnodup. apply list.NoDup_app in Hnodup as (_ & Hd & _). apply (Hd x Hid). by left. }
    destruct (get_slot rs x Hxr Hsize) as [v Ev]. pose proof (Ho (slot x) Hfresh) as Ev'. rewrite Ev in Ev'.
    rewrite (zmodify_Some _ _ _ v Ev'). cbn [mbind option_bind]. apply returns_next.
    change (if destructive then set_alias w o v else set_source 0 (set_alias w o v)) with (assigned destructive w o v).
    pose proof (zget_range _ _ _ Ev'). split.
    + eapply like_modify; [done | exact Ev' | apply assigned_fields].
    + intros id [Hid| ->%list_elem_of_singleton]%elem_of_app.
      * destruct (Ha id Hid) as (v1 & w1 & o1 & ? & ? & ? & E4). exists v1, w1, o1. rewrite zget_insert_ne; [done | lia |].
        intros Es. by apply (Hfresh id).
      * exists v, w, o. rewrite zget_insert_eq by lia. done.
    + intros i Hi. rewrite zget_insert_ne; [| lia | apply Hi, elem_of_app; right; by left].
      apply Ho. intros id Hid. apply Hi, elem_of_app. by left.
Qed.
End Finalize.

(** ** The layout of a graph *)
Record arena_ready (rs : list Resource) (lifetimes : list Lifetime) (ids : list Z) (page : Z) : Prop := {
  ay_size : zlen rs <= U32_MAX;
  ay_range : forall id, id ∈ ids -> 1 <= id <= zlen rs;
  ay_nodup : NoDup ids;
  ay_lifetimes : zlen lifetimes = zlen rs;
  ay_bytes : forall id, id ∈ ids -> 0 <= bytes_of rs id <= page;
  ay_life : forall id, id ∈ ids -> 0 <= first_of lifetimes id <= last_of lifetimes id;
  ay_source : forall id, id ∈ ids -> source_of rs true id <> 0 ->
    source_of rs true id ∈ ids /\ last_of lifetimes (source_of rs true id) = first_of lifetimes id /\
    first_of lifetimes (source_of rs true id) < first_of lifetimes id /\
    bytes_of rs (source_of rs true id) = bytes_of rs id;
  ay_unique : forall x y, x ∈ ids -> y ∈ ids -> source_of rs true x <> 0 -> source_of rs true x = source_of rs true y -> x = y;
}.

Lemma elem_of_sorted lifetimes ids id : id ∈ ord_sort (arena_lt lifetimes) ids <-> id ∈ ids.
Proof. by rewrite ord_sort_perm. Qed.

Lemma arena_ready_ids rs lifetimes ids page destructive : arena_ready rs lifetimes ids page -> page <= U64_MAX ->
  (forall id, id ∈ ids -> bytes_of rs id <> 0) -> arena_ids rs lifetimes destructive (ord_sort (arena_lt lifetimes) ids).
Proof.
  intros [H1 H2 H3 H4 H5 H6 H7 H8] Hpage Hne. split; try done.
  - by rewrite ord_sort_perm.
  - intros id Hid%elem_of_sorted. by apply H2.
  - intros id Hid%elem_of_sorted. pose proof (H5 id Hid). pose proof (Hne id Hid). lia.
  - intros id Hid%elem_of_sorted. by apply H6.
  - intros d x rest y. apply arena_sorted.
  - intros id Hid%elem_of_sorted Hs. destruct destructive; [|done]. rewrite elem_of_sorted. by apply H7.
  - intros x y Hx%elem_of_sorted Hy%elem_of_sorted Hs E. destruct destructive; [|done]. by apply H8.
Qed.

Record placed_plan (rs : list Resource) (lifetimes : list Lifetime) (ids : list Z) (page : Z) (rs' : list Resource) : Prop := {
  pp_layout : exists destructive layout, layout_safe rs lifetimes destructive ids page layout /\
    laid_out layout destructive rs ids rs';
}.

Lemma pack_returns rs lifetimes ids page destructive : arena_ready rs lifetimes ids page -> 256 <= page <= U64_MAX -> page mod 256 = 0 ->
  pack rs lifetimes (ord_sort (arena_lt lifetimes) ids) page destructive = Some None \/
  exists layout, pack rs lifetimes (ord_sort (arena_lt lifetimes) ids) page destructive = Some (Some layout) /\
    layout_safe rs lifetimes destructive (ord_sort (arena_lt lifetimes) ids) page layout.
Proof.
  intros Hr Hpage Hmod. destruct (decide (Exists (fun id => bytes_of rs id = 0) ids)) as [Hz|Hnz].
  - left. apply list.Exists_exists in Hz as (z & Hz & H0). apply pack_zero; [apply Hr | | exists z; by rewrite elem_of_sorted].
    intros id Hid%elem_of_sorted. by apply (ay_range _ _ _ _ Hr).
  - assert (arena_ids rs lifetimes destructive (ord_sort (arena_lt lifetimes) ids)) as Hids.
    { apply (arena_ready_ids rs lifetimes ids page); [done | lia |]. intros id Hid E. apply Hnz, list.Exists_exists. by exists id. }
    destruct (pack_ok rs lifetimes destructive _ page Hids Hpage Hmod) as [[E _]|E]; [| by left | by right].
    intros y Hy%elem_of_sorted. by apply (ay_bytes _ _ _ _ Hr).
Qed.

Lemma live_returns live n most : zlen live = n ->
  returns (for_loop (live_step live) most (range 0 n)) (fun _ => True).
Proof.
  intros Hlen. pose proof (zlen_nonneg live). apply returns_for with (fun _ _ => True); [done | | done].
  intros d node rest [bytes top] E _. destruct (range_split 0 n d node rest ltac:(lia) E) as (Hn & Hlt & _). pose proof (zlen_nonneg d).
  unfold live_step. apply returns_andThen with (fun _ => True).
  - destruct (Z.eqb_spec node 0); [by apply returns_next|]. destruct (zget_is_Some live (node - 1) ltac:(lia)) as [p ->]. cbn.
    destruct (_ <? _); [auto|]. by apply returns_next.
  - intros b _. destruct (zget_is_Some live node ltac:(lia)) as [p ->]. cbn. destruct (Checked.add _ _); [by apply returns_next | auto].
Qed.

Lemma finalize_returns info page work : arena_ready (i_resources info) (w_lifetimes work) (w_arena work) page ->
  256 <= page <= U64_MAX -> page mod 256 = 0 -> zlen (w_live work) = zlen (i_nodes info) ->
  returns (finalize info page work) (fun info' => i_nodes info' = i_nodes info /\
    placed_plan (i_resources info) (w_lifetimes work) (ord_sort (arena_lt (w_lifetimes work)) (w_arena work)) page (i_resources info')).
Proof.
  intros Hr Hpage Hmod Hlive. unfold finalize. eapply returns_andThen; [by apply live_returns|]. intros [b most] _.
  case_bool_decide as Hnil.
  { apply returns_next. split; [done|]. rewrite Hnil. split. exists true, (mk_layout 0 0 [] []). split.
    - split; cbn; [intros y Hy; by apply elem_of_nil in Hy | intros x y w ox oy Hx; by apply elem_of_nil in Hx | lia | lia].
    - split; [done | intros id Hid; by apply elem_of_nil in Hid | done]. }
  destruct (pack_returns _ _ _ page true Hr Hpage Hmod) as [-> | (ld & -> & Hd)]; [cbn; auto|]. cbn [mbind option_bind].
  destruct (pack_returns _ _ _ page false Hr Hpage Hmod) as [-> | (lo & -> & Ho)]; [cbn; auto|]. cbn [mbind option_bind].
  cbv zeta. set (choice := (_ || _) : bool). set (sorted := ord_sort _ _) in *.
  assert (layout_safe (i_resources info) (w_lifetimes work) choice sorted page (if choice then ld else lo)) as Hsafe by (by destruct choice).
  apply returns_andThen with (laid_out (if choice then ld else lo) choice (i_resources info) sorted).
  - apply assign_returns; [apply Hr | | |].
    + intros id Hid%elem_of_sorted. by apply (ay_range _ _ _ _ Hr).
    + unfold sorted. rewrite ord_sort_perm. apply Hr.
    + intros id Hid. destruct (ls_place _ _ _ _ _ _ Hsafe id Hid) as (w & o & ? & ? & ? & _). by exists w, o.
  - intros rs' Hrs'. destruct (with_physical _ _); [|auto]. apply returns_next. split; [done|]. split. by exists choice, (if choice then ld else lo).
Qed.

(** ** The plan of a graph *)
Definition used_at (info : Info) (id m : Z) : Prop :=
  exists node a, zget (i_nodes info) m = Some node /\ a ∈ n_accesses node /\ a_resource a = id.
Definition alive_at (info : Info) (id m : Z) : Prop :=
  exists i j, i <= m <= j /\ used_at info id i /\ used_at info id j.
Definition range_of (r : Resource) : Z * Z := (g_alias_offset_bytes r, g_bytes r).

(** The resource [x] is written over [y] at the node [m]. *)
Definition overwrites (info : Info) (m : Z) (rx : Resource) (y : Z) (x : Z) : Prop :=
  g_source rx = y /\ (forall k, used_at info x k -> m <= k) /\ (forall k, used_at info y k -> k <= m).

Record plan_safe (info info' : Info) (page : Z) : Prop := {
  ps_nodes : i_nodes info' = i_nodes info;
  ps_like : like (i_resources info) (i_resources info');
  ps_place : forall id r m, zget (i_resources info') (id - 1) = Some r -> g_visibility r = VisInternal -> used_at info id m ->
    0 <= g_alias_offset_bytes r /\ g_alias_offset_bytes r mod 256 = 0 /\ g_alias_offset_bytes r + g_bytes r <= page;
  ps_apart : forall x y rx ry m, x <> y ->
    zget (i_resources info') (x - 1) = Some rx -> zget (i_resources info') (y - 1) = Some ry ->
    g_visibility rx = VisInternal -> g_visibility ry = VisInternal ->
    alive_at info x m -> alive_at info y m -> g_alias_group rx = g_alias_group ry ->
    apart (range_of rx) (range_of ry) \/ overwrites info m rx y x \/ overwrites info m ry x y;
}.

Lemma bytes_of_like rs rs' id : like rs rs' -> bytes_of rs id = bytes_of rs' id.
Proof.
  intros Hl. unfold bytes_of. pose proof (like_lookup rs rs' (slot id) Hl) as E.
  destruct (zget rs _) as [v|], (zget rs' _) as [v'|]; try done. injection E as E.
  destruct (erase_fields v v') as (_ & _ & _ & Hb & _); [|done]. unfold erase, set_reset, set_source, set_alias. by f_equal.
Qed.

Lemma work_ok_like info info' work : like (i_resources info) (i_resources info') -> i_nodes info' = i_nodes info ->
  work_ok info work -> work_ok info' work.
Proof. intros Hl%like_zlen Hn [H1 H2 H3 H4 H5 H6]. split; rewrite <- ?Hl, ?Hn; done. Qed.

Lemma kept_like info info' work id : like (i_resources info) (i_resources info') -> kept info work id -> kept info' work id.
Proof.
  intros Hl (v & l & Ev & Hv & H). destruct (like_get _ _ _ _ (like_sym _ _ Hl) Ev) as (v' & Ev' & He).
  destruct (erase_fields _ _ He) as (_ & _ & _ & _ & _ & _ & Hvis). exists v', l. split; [done|]. split; [by rewrite Hvis | done].
Qed.

Lemma used_lifetime info work id m : work_ok info work -> used_at info id m ->
  1 <= id <= zlen (i_resources info) /\ first_of (w_lifetimes work) id <= m <= last_of (w_lifetimes work) id /\
  exists l, zget (w_lifetimes work) (slot id) = Some l /\ l_first l <> NoNode.
Proof.
  intros Hw (node & a & En & Ha & Hid). assert (node ∈ i_nodes info) as Hn by (apply zget_Some in En as [_ En]; by eapply list_elem_of_lookup_2).
  pose proof (wk_accesses _ _ Hw node a Hn Ha) as Hr. rewrite Hid in Hr. split; [done|].
  destruct (wk_lifetime _ _ Hw id Hr) as (l & El & Hin & _). destruct (Hin node a Hn Ha Hid) as (Hne & Hb).
  rewrite (wk_index _ _ Hw m node En) in Hb. unfold first_of, last_of. rewrite El. cbn. split; [done|]. by exists l.
Qed.

Lemma classes_ready info work page info' work' rs : resources_valid (i_resources info) -> work_ok info work ->
  classes_ok info work page info' work' -> sources_ok info' work rs ->
  arena_ready rs (w_lifetimes work) (w_arena work') page.
Proof.
  intros Hv Hw [H1 H2 H3 H4 H5 H6 H7 H8] Hs. pose proof (like_zlen _ _ H1) as Hlen1. pose proof (so_like _ _ _ Hs) as Hl2.
  pose proof (like_zlen _ _ Hl2) as Hlen2. pose proof (like_trans _ _ _ H1 Hl2) as Hl. pose proof (rv_size _ Hv) as Hsize.
  assert (forall id, kept info work id <-> kept info' work id) as Hkept by (intros id; split; apply kept_like; [done | by apply like_sym]).
  assert (forall id, id ∈ w_arena work' -> 1 <= id <= zlen (i_resources info) /\ kept info work id) as Hin by (intros id; apply H7).
  assert (forall id, id ∈ w_arena work' -> source_of rs true id <> 0 -> exists v, zget rs (slot id) = Some v /\
    source_of rs true id = g_source v /\ g_source v <> 0) as Hsrc.
  { intros id Hid Hne. destruct (Hin id Hid) as [Hr _]. destruct (get_slot rs id ltac:(lia) ltac:(lia)) as [v Ev].
    exists v. unfold source_of in *. rewrite Ev in *. done. }
  split.
  - lia.
  - intros id Hid. destruct (Hin id Hid). lia.
  - done.
  - rewrite (wk_lifetimes _ _ Hw). lia.
  - intros id Hid. destruct (Hin id Hid) as (Hr & v & l & Ev & _). rewrite <- (bytes_of_like _ _ id Hl). unfold bytes_of. rewrite Ev. cbn.
    pose proof (H8 id v Hid Ev). destruct (rv_get _ Hv _ _ Ev) as (_ & _ & _ & ?). lia.
  - intros id Hid. destruct (Hin id Hid) as (Hr & v & l & _ & _ & El & Hne). destruct (wk_lifetime _ _ Hw id Hr) as (l' & El' & _ & Hl').
    rewrite El in El'. injection El' as <-. unfold first_of, last_of. rewrite El. by apply Hl'.
  - intros id Hid Hne. destruct (Hin id Hid) as [Hr _]. destruct (Hsrc id Hid Hne) as (v & Ev & -> & Hv0).
    destruct (so_source _ _ _ Hs id v ltac:(lia) Ev Hv0) as (_ & Hsr & Hk & Hlast & Hfirst & Hbytes & _).
    split; [apply H7; split; [lia | by apply Hkept]|]. split; [done|]. split; [done|]. by rewrite <- !(bytes_of_like _ _ _ Hl2).
  - intros x y Hx Hy Hne E. destruct (Hin x Hx) as [Hxr _]. destruct (Hin y Hy) as [Hyr _].
    destruct (Hsrc x Hx Hne) as (v & Ev & Esx & Hv0). destruct (Hsrc y Hy ltac:(congruence)) as (w & Ew & Esy & _).
    apply (sources_unique info' work (work_ok_like _ _ _ H1 H3 Hw) rs x y v w); try done; try lia; congruence.
Qed.

Lemma placed_plan_safe info info' work rs ids page : work_ok info work -> zlen (i_resources info) <= U32_MAX ->
  i_nodes info' = i_nodes info -> like (i_resources info) rs ->
  arena_ready rs (w_lifetimes work) ids page ->
  (forall id, id ∈ ids <-> 1 <= id <= zlen (i_resources info) /\ kept info work id) ->
  placed_plan rs (w_lifetimes work) (ord_sort (arena_lt (w_lifetimes work)) ids) page (i_resources info') ->
  plan_safe info info' page.
Proof.
  intros Hw Hsize Hnodes Hl Hr Hids [(destructive & layout & Hsafe & Hlaid)]. set (sorted := ord_sort _ _) in *.
  pose proof (like_trans _ _ _ Hl (lo_like _ _ _ _ _ Hlaid)) as Hl'.
  assert (forall id r m, zget (i_resources info') (id - 1) = Some r -> g_visibility r = VisInternal -> used_at info id m ->
    id ∈ sorted /\ exists v owner offset, zget (lay_owners layout) (slot id) = Some owner /\ zget (lay_offsets layout) (slot id) = Some offset /\
    zget rs (slot id) = Some v /\ r = assigned destructive owner offset v) as Hget.
  { intros id r m Er Hvis Hu. destruct (used_lifetime info work id m Hw Hu) as (Hid & _ & l & El & Hne).
    pose proof (slot_index id _ Hid Hsize) as [Hslot _]. rewrite <- Hslot in Er.
    assert (id ∈ sorted) as Hin.
    { apply elem_of_sorted, Hids. split; [done|]. destruct (like_get _ _ _ _ Hl' Er) as (v & Ev & He).
      exists v, l. destruct (erase_fields _ _ He) as (_ & _ & _ & _ & _ & _ & Hv). split; [done|]. split; [by rewrite Hv | done]. }
    split; [done|]. destruct (lo_assigned _ _ _ _ _ Hlaid id Hin) as (v & w & o & Ev & Ew & Eo & Er'). exists v, w, o.
    rewrite Er in Er'. by injection Er' as ->. }
  assert (forall id v, zget rs (slot id) = Some v -> g_bytes v = bytes_of rs id /\ (if destructive then g_source v else 0) = source_of rs destructive id) as Hval.
  { intros id v Ev. unfold bytes_of, source_of. by rewrite Ev. }
  split; [done | done | |].
  - intros id r m Er Hvis Hu. destruct (Hget id r m Er Hvis Hu) as (Hin & v & w & o & Ew & Eo & Ev & ->).
    destruct (assigned_fields destructive w o v) as (He & _ & -> & _). destruct (erase_fields _ _ He) as (_ & _ & _ & -> & _).
    destruct (ls_place _ _ _ _ _ _ Hsafe id Hin) as (w' & o' & _ & Eo' & _ & ? & ? & ?). rewrite Eo in Eo'. injection Eo' as <-.
    by destruct (Hval id v Ev) as [-> _].
  - intros x y rx ry m Hne Ex Ey Hvx Hvy (i & j & Hij & Hxi & Hxj) (i' & j' & Hij' & Hyi & Hyj) Hgroup.
    destruct (Hget x rx i Ex Hvx Hxi) as (Hinx & vx & wx & ox & Ewx & Eox & Evx & ->).
    destruct (Hget y ry i' Ey Hvy Hyi) as (Hiny & vy & wy & oy & Ewy & Eoy & Evy & ->).
    destruct (assigned_fields destructive wx ox vx) as (Hex & Hgx & Hox & Hsx). destruct (assigned_fields destructive wy oy vy) as (Hey & Hgy & Hoy & Hsy).
    destruct (erase_fields _ _ Hex) as (_ & _ & _ & Hbx & _). destruct (erase_fields _ _ Hey) as (_ & _ & _ & Hby & _).
    destruct (Hval x vx Evx) as [Hbx' Hsx']. destruct (Hval y vy Evy) as [Hby' Hsy'].
    rewrite Hgx, Hgy in Hgroup. subst wy. unfold range_of. rewrite Hox, Hoy, Hbx, Hby, Hbx', Hby'.
    assert (forall id k, used_at info id k -> first_of (w_lifetimes work) id <= k <= last_of (w_lifetimes work) id) as Hlife.
    { intros id k Hu. by destruct (used_lifetime info work id k Hw Hu) as (_ & ? & _). }
    pose proof (Hlife _ _ Hxi). pose proof (Hlife _ _ Hxj). pose proof (Hlife _ _ Hyi). pose proof (Hlife _ _ Hyj).
    destruct (ls_safe _ _ _ _ _ _ Hsafe x y wx ox oy) as [Hap | [[Hs Hf] | [Hs Hf]]]; try done; [split; lia | by left | right; left | right; right].
    + split; [congruence|]. split; intros k Hk%Hlife; lia.
    + split; [congruence|]. split; intros k Hk%Hlife; lia.
Qed.

Lemma plan_safe_like info info1 info' page : like (i_resources info) (i_resources info1) -> i_nodes info1 = i_nodes info ->
  plan_safe info1 info' page -> plan_safe info info' page.
Proof.
  destruct info as [m0 rs0 ns0], info1 as [m1 rs1 ns1]. cbn [i_resources i_nodes]. intros Hl -> [P1 P2 P3 P4].
  split; [exact P1 | by eapply like_trans | exact P3 | exact P4].
Qed.

(** C4: the memory planner of a compute graph returns for every graph - a plan, or one
    of its two failures - and a plan is safe: only the fields of the plan changed; every
    internal resource that is used lies aligned inside its chunk; and two different
    internal resources alive at the same node that share a chunk have disjoint byte
    ranges, unless one is written over the other, at the node that is the last to use
    the other and the first to use it. *)
Theorem plan_memory_safe info nodes page : graph_typed info nodes -> page <= U64_MAX ->
  exists outcome, plan_memory info nodes page = Some outcome /\
    match outcome with Next info' => plan_safe info info' page | Return _ => True end.
Proof.
  intros Ht Hpage. change (returns (plan_memory info nodes page) (fun info' => plan_safe info info' page)). unfold plan_memory.
  eapply returns_andThen; [by apply validate_returns|]. intros [info1 work0] [Hv ->].
  destruct Hv as [Hres Hlike1 Hfresh Hn1 Hm [Hp1 Hp2] Hdom]. pose proof (rv_size _ Hres) as Hsize.
  assert (forall node a, node ∈ i_nodes info1 -> a ∈ n_accesses node -> 0 <= a_resource a) as Hacc by (rewrite Hn1; apply Ht).
  eapply returns_andThen; [apply (collect_returns info1 nodes); try done; rewrite Hn1; [apply Ht | done]|]. intros work1 Hwork.
  eapply returns_andThen; [apply (classify_returns info1 nodes page work1 Hres ltac:(by rewrite Hn1) Hdom Hwork)|].
  intros [info2 work2] Hc. pose proof (cs_like _ _ _ _ _ Hc) as Hl2. pose proof (cs_nodes _ _ _ _ _ Hc) as Hn2.
  pose proof (work_ok_like _ _ _ Hl2 Hn2 Hwork) as Hwork2. pose proof (like_valid _ _ Hl2 Hres) as Hres2.
  destruct (identify_sources_ok info2 nodes work1 Hres2 ltac:(by rewrite Hn2, Hn1) Hwork2) as (rs & Ers & Hs).
  { intros i r E. destruct (cs_source _ _ _ _ _ Hc i r E) as (r0 & E0 & ->). by destruct (Hfresh i r0 E0). }
  rewrite (cs_lifetimes _ _ _ _ _ Hc), Ers. cbn [mbind option_bind].
  pose proof (classes_ready info1 work1 page info2 work2 rs Hres Hwork Hc Hs) as Hready.
  destruct (finalize_returns (mk_info (i_memory info2) rs (i_nodes info2)) page work2) as (f & -> & Hf); cbn [i_resources i_nodes]; try done.
  { by rewrite (cs_lifetimes _ _ _ _ _ Hc). }
  { rewrite (cs_live _ _ _ _ _ Hc). by rewrite Hn2. }
  exists f. split; [done|]. destruct f as [info'|]; [|done]. destruct Hf as [Hn Hp]. cbn [i_resources i_nodes] in Hn, Hp.
  rewrite (cs_lifetimes _ _ _ _ _ Hc) in Hp. pose proof (like_trans _ _ _ Hl2 (so_like _ _ _ Hs)) as Hl3.
  apply (plan_safe_like info info1); [done | done |].
  apply (placed_plan_safe info1 info' work1 rs (w_arena work2) page Hwork Hsize); try done; [by rewrite Hn, Hn2|].
  intros id. apply (cs_arena _ _ _ _ _ Hc).
Qed.

(** A graph of two maps and a sink: [2] is written over [1], and [3] after both have
    been used for the last time. *)
Definition example_resource (id : Z) (visibility : Visibility) : Resource :=
  mk_resource id VU32 32 0 0 0 0 visibility 100 4 400 0 0 7 7 7 7.
Definition example_access (id mode : Z) : Access := mk_access id mode 0 400 4 100 4.
Definition example_graph : Info :=
  mk_info (mk_memory_plan 0 0 0 0 0 0)
    [example_resource 1 VisInternal; example_resource 2 VisInternal; example_resource 3 VisInternal; example_resource 4 VisOutput]
    [mk_node 0 0 [example_access 1 1]; mk_node 1 0 [example_access 1 0; example_access 2 1];
     mk_node 2 0 [example_access 2 0; example_access 4 1]; mk_node 3 0 [example_access 3 1]; mk_node 4 0 [example_access 3 0]].
Definition example_nodes : list MemoryNode := replicate 5 (mk_memory_node EmptyDomain WriteFull InplacePointwise).

Lemma example_graph_typed : graph_typed example_graph example_nodes.
Proof.
  split; [done | done | | |].
  - intros r Hr. cbn in Hr. rewrite !elem_of_cons, elem_of_nil in Hr. destruct Hr as [->|[->|[->|[->|[]]]]]; cbn; lia.
  - intros node a Hn Ha. cbn in Hn. rewrite !elem_of_cons, elem_of_nil in Hn.
    destruct Hn as [->|[->|[->|[->|[->|[]]]]]]; cbn in Ha; rewrite !elem_of_cons, elem_of_nil in Ha; intuition (subst; cbn; lia).
  - intros m Hm. cbn in Hm. rewrite !elem_of_cons, elem_of_nil in Hm. intuition (subst; cbn; lia).
Qed.

Lemma plan_memory_safe_witness :
  (match plan_memory example_graph example_nodes 1024 with
   | Some (Next info) => map (fun r => (g_source r, g_alias_group r, g_alias_offset_bytes r)) (i_resources info)
   | _ => []
   end) = [(0, 1, 0); (1, 1, 0); (0, 1, 0); (0, 4, 0)] /\
  exists outcome, plan_memory example_graph example_nodes 1024 = Some outcome /\
    match outcome with Next info' => plan_safe example_graph info' 1024 | Return _ => True end.
Proof. split; [vm_compute; reflexivity|]. apply (plan_memory_safe example_graph example_nodes 1024 example_graph_typed); lia. Defined.
