(* ===== verification/ReadyQueue.v ===== *)
(** * ReadyQueue: the bounded queue of ready tasks

    [src/runtime/task/scheduler/state/storage/ready/queue.hpp]: a doubly ended queue of
    task ids in two arrays, whose free slots are linked through the array of successors.
    Slots count from one; zero ends a chain. An option is undefined behaviour (an index
    out of range) or exhausted fuel. *)

From stdpp Require Import base numbers list option.
From Stdlib Require Import ZArith Lia.
From S2P Require Import Prelude.

Record ReadyQueue := mk_queue {
  q_ids : list Z;
  q_next : list Z;
  q_head : Z;
  q_tail : Z;
  q_free : Z;
  q_size : Z;
}.

Definition EmptyQueue : ReadyQueue := mk_queue [] [] 0 0 0 0.

(** The loop of [clear]. *)
Definition clear_slots (st : list Z * list Z) (index : Z) : option (list Z * list Z) :=
  let '(ids, next) := st in
  ids ← zset ids index 0;
  next ← zset next index (if index + 1 <? zlen ids then wrap32 (index + 2) else 0);
  Some (ids, next).

Definition queue_clear (q : ReadyQueue) : option ReadyQueue :=
  '(ids, next) ← for_each clear_slots (q_ids q, q_next q) (range 0 (zlen (q_ids q)));
  Some (mk_queue ids next 0 0 (if bool_decide (q_ids q = []) then 0 else 1) 0).

Definition configure (capacity : Z) (q : ReadyQueue) : option ReadyQueue :=
  queue_clear (mk_queue (replicate (Z.to_nat capacity) 0) (replicate (Z.to_nat capacity) 0)
    (q_head q) (q_tail q) (q_free q) (q_size q)).

Definition queue_empty (q : ReadyQueue) : bool := q_size q =? 0.
Definition queue_capacity (q : ReadyQueue) : Z := zlen (q_ids q).

(** The id at the head, when there is one. *)
Definition queue_front (q : ReadyQueue) : option (option Z) :=
  if q_head q =? 0 then Some None else id ← zget (q_ids q) (q_head q - 1); Some (Some id).

(** The slot taken for [id], or zero. *)
Definition claim (id : Z) (q : ReadyQueue) : option (Z * ReadyQueue) :=
  if (id =? 0) || (q_free q =? 0) then Some (0, q) else
  let slot := q_free q in
  free ← zget (q_next q) (slot - 1);
  ids ← zset (q_ids q) (slot - 1) id;
  next ← zset (q_next q) (slot - 1) 0;
  Some (slot, mk_queue ids next (q_head q) (q_tail q) free (q_size q + 1)).

Definition release_slot (slot : Z) (q : ReadyQueue) : option ReadyQueue :=
  ids ← zset (q_ids q) (slot - 1) 0;
  next ← zset (q_next q) (slot - 1) (q_free q);
  Some (mk_queue ids next (q_head q) (q_tail q) slot (wrap64 (q_size q - 1))).

Definition push_back (id : Z) (q : ReadyQueue) : option (bool * ReadyQueue) :=
  '(slot, q) ← claim id q;
  if slot =? 0 then Some (false, q) else
  q ← (if q_tail q =? 0
       then Some (mk_queue (q_ids q) (q_next q) slot (q_tail q) (q_free q) (q_size q))
       else next ← zset (q_next q) (q_tail q - 1) slot;
            Some (mk_queue (q_ids q) next (q_head q) (q_tail q) (q_free q) (q_size q)));
  Some (true, mk_queue (q_ids q) (q_next q) (q_head q) slot (q_free q) (q_size q)).

Definition push_front (id : Z) (q : ReadyQueue) : option (bool * ReadyQueue) :=
  '(slot, q) ← claim id q;
  if slot =? 0 then Some (false, q) else
  next ← zset (q_next q) (slot - 1) (q_head q);
  Some (true, mk_queue (q_ids q) next slot (if q_tail q =? 0 then slot else q_tail q) (q_free q) (q_size q)).

(** The id popped, when there is one. *)
Definition pop_front (q : ReadyQueue) : option (option Z * ReadyQueue) :=
  if q_head q =? 0 then Some (None, q) else
  let slot := q_head q in
  id ← zget (q_ids q) (slot - 1);
  head ← zget (q_next q) (slot - 1);
  q ← release_slot slot (mk_queue (q_ids q) (q_next q) head (if head =? 0 then 0 else q_tail q) (q_free q) (q_size q));
  Some (Some id, q).

Definition unlink (previous slot : Z) (q : ReadyQueue) : option ReadyQueue :=
  following ← zget (q_next q) (slot - 1);
  q ← (if previous =? 0
       then Some (mk_queue (q_ids q) (q_next q) following (q_tail q) (q_free q) (q_size q))
       else next ← zset (q_next q) (previous - 1) following;
            Some (mk_queue (q_ids q) next (q_head q) (q_tail q) (q_free q) (q_size q)));
  release_slot slot (mk_queue (q_ids q) (q_next q) (q_head q)
    (if q_tail q =? slot then previous else q_tail q) (q_free q) (q_size q)).

(** The walk of [take_first]; a chain of [capacity] slots ends after as many steps. *)
Definition take_step (predicate : Z -> bool) (q : ReadyQueue) (st : Z * Z)
    : option (flow (Z * Z) (Z * ReadyQueue)) :=
  let '(previous, slot) := st in
  candidate ← zget (q_ids q) (slot - 1);
  if predicate candidate then q ← unlink previous slot q; Some (Return (candidate, q))
  else following ← zget (q_next q) (slot - 1); Some (Next (slot, following)).

Definition take_first (predicate : Z -> bool) (q : ReadyQueue) : option (option Z * ReadyQueue) :=
  r ← while_loop (S (length (q_ids q))) (fun '(_, slot) => negb (slot =? 0)) (take_step predicate q) (0, q_head q);
  Some (match r with Next _ => (None, q) | Return (id, q) => (Some id, q) end).

Definition queue_remove (id : Z) (q : ReadyQueue) : option (bool * ReadyQueue) :=
  '(removed, q) ← take_first (fun candidate => candidate =? id) q;
  Some (bool_decide (removed <> None), q).
