(* ===== verification/ReadyQueueFacts.v ===== *)
(** * ReadyQueueFacts: the ready queue is a bounded list

    The queue represents the list of the ids of its chain from the head. Every
    operation does to the queue what its counterpart does to the list, refusing an id
    exactly when it is zero or the list has as many ids as the queue has slots. *)

From stdpp Require Import base numbers list option.
From Stdlib Require Import ZArith Lia.
From S2P Require Import Prelude ReadyQueue.

(** ** Chains of slots *)
Fixpoint linked (next : list Z) (slot : Z) (slots : list Z) : Prop :=
  match slots with
  | [] => slot = 0
  | s :: slots => slot = s /\ exists n, zget next (s - 1) = Some n /\ linked next n slots
  end.

Lemma linked_head next slot slots : linked next slot slots -> slot = List.hd 0 slots.
Proof. destruct slots; cbn; [done | by intros [-> _]]. Qed.

Lemma linked_insert next slot slots s n : 1 <= s -> s ∉ slots -> (forall x, x ∈ slots -> 1 <= x) ->
  linked next slot slots -> linked (<[Z.to_nat (s - 1) := n]> next) slot slots.
Proof.
  intros Hs. revert slot. induction slots as [|x slots IH]; intros slot Hn Hpos H; [done|]. destruct H as [-> (m & Em & Hl)].
  split; [done|]. exists m. rewrite not_elem_of_cons in Hn. destruct Hn as [Hne Hn]. assert (1 <= x) by (apply Hpos; by left).
  rewrite zget_insert_ne by lia. split; [done|]. apply IH; [done | | done]. intros y Hy. apply Hpos. by right.
Qed.

(** The chain with a slot more at its end. *)
Lemma linked_snoc next slot slots last s : linked next slot (slots ++ [last]) -> NoDup (slots ++ [last]) ->
  (forall x, x ∈ slots ++ [last] -> 1 <= x <= zlen next) -> s ∉ slots ++ [last] -> zget next (s - 1) = Some 0 -> 1 <= s ->
  linked (<[Z.to_nat (last - 1) := s]> next) slot (slots ++ [last; s]).
Proof.
  revert slot. induction slots as [|x slots IH]; intros slot Hl Hnd Hr Hs E Hpos; cbn [app linked] in *.
  - destruct Hl as [-> _]. assert (1 <= last <= zlen next) by (apply Hr; by left). rewrite elem_of_cons, elem_of_nil in Hs.
    split; [done|]. exists s. rewrite zget_insert_eq by lia. split; [done|]. split; [done|]. exists 0.
    rewrite zget_insert_ne by (lia || intros ?; apply Hs; left; lia). done.
  - destruct Hl as [-> (n & En & Hl)]. apply list.NoDup_cons in Hnd as [Hx Hnd]. rewrite not_elem_of_cons in Hs. destruct Hs as [Hsx Hs].
    assert (last ∈ slots ++ [last]) as Hin by (apply elem_of_app; right; by left).
    assert (1 <= last <= zlen next) by (apply Hr; by right). assert (1 <= x <= zlen next) by (apply Hr; by left).
    split; [done|]. exists n. rewrite zget_insert_ne by (lia || intros ?; apply Hx; by replace x with last by lia).
    split; [done|]. apply IH; try done. intros y Hy. apply Hr. by right.
Qed.

(** The chain without one of its slots. *)
Lemma linked_skip next slot pre s post n p : linked next slot (pre ++ p :: s :: post) -> NoDup (pre ++ p :: s :: post) ->
  (forall x, x ∈ pre ++ p :: s :: post -> 1 <= x <= zlen next) -> zget next (s - 1) = Some n ->
  linked (<[Z.to_nat (p - 1) := n]> next) slot (pre ++ p :: post).
Proof.
  revert slot. induction pre as [|x pre IH]; intros slot Hl Hnd Hr E; cbn [app linked] in *.
  - destruct Hl as [-> (m & Em & -> & m' & Em' & Hl)]. rewrite E in Em'. injection Em' as <-.
    assert (1 <= p <= zlen next) by (apply Hr; by left). split; [done|]. exists n. rewrite zget_insert_eq by lia. split; [done|].
    apply list.NoDup_cons in Hnd as [Hp Hnd]. apply linked_insert; [lia | | | done].
    + intros Hin. apply Hp. by right.
    + intros y Hy. assert (1 <= y <= zlen next); [|lia]. apply Hr. right. by right.
  - destruct Hl as [-> (m & Em & Hl)]. apply list.NoDup_cons in Hnd as [Hx Hnd]. split; [done|]. exists m.
    assert (1 <= p <= zlen next) by (apply Hr; right; apply elem_of_app; right; by left). assert (1 <= x <= zlen next) by (apply Hr; by left).
    rewrite zget_insert_ne by (lia || intros ?; apply Hx, elem_of_app; right; replace x with p by lia; by left).
    split; [done|]. apply IH; try done. intros y Hy. apply Hr. by right.
Qed.

Lemma linked_app next slot pre s post : linked next slot (pre ++ s :: post) -> exists n, zget next (s - 1) = Some n /\ linked next n post.
Proof.
  revert slot. induction pre as [|x pre IH]; intros slot; cbn [app linked].
  - intros [_ H]. exact H.
  - intros [_ (n & _ & H)]. by eapply IH.
Qed.

(** ** The representation *)
Record represents (q : ReadyQueue) (slots free l : list Z) : Prop := {
  rp_ids : zlen (q_ids q) <= U32_MAX;
  rp_next : zlen (q_next q) = zlen (q_ids q);
  rp_nodup : NoDup (slots ++ free);
  rp_range : forall s, s ∈ slots ++ free -> 1 <= s <= zlen (q_ids q);
  rp_total : zlen slots + zlen free = zlen (q_ids q);
  rp_head : linked (q_next q) (q_head q) slots;
  rp_free : linked (q_next q) (q_free q) free;
  rp_tail : q_tail q = List.last slots 0;
  rp_size : q_size q = zlen slots;
  rp_list : Forall2 (fun s id => zget (q_ids q) (s - 1) = Some id) slots l;
  rp_nonzero : forall id, id ∈ l -> id <> 0;
}.

Definition queue_of (capacity : Z) (q : ReadyQueue) (l : list Z) : Prop :=
  queue_capacity q = capacity /\ exists slots free, represents q slots free l.

(** ** The bounded list *)
Definition admits (capacity id : Z) (l : list Z) : bool := negb (id =? 0) && (zlen l <? capacity).

Fixpoint first_of_list (p : Z -> bool) (l : list Z) : option (Z * list Z) :=
  match l with
  | [] => None
  | x :: l' => if p x then Some (x, l') else '(y, rest) ← first_of_list p l'; Some (y, x :: rest)
  end.

(** ** Claiming and releasing slots *)
Lemma hd_cases (l : list Z) : l = [] \/ List.hd 0 l ∈ l.
Proof. destruct l; [by left | right; by left]. Qed.

Definition named (ids : list Z) (s id : Z) : Prop := zget ids (s - 1) = Some id.

Lemma named_insert ids slots l s v : 1 <= s -> s ∉ slots -> (forall x, x ∈ slots -> 1 <= x) ->
  Forall2 (named ids) slots l -> Forall2 (named (<[Z.to_nat (s - 1) := v]> ids)) slots l.
Proof.
  intros Hs Hn Hpos H. induction H as [|x id slots l Hx H IH]; constructor.
  - unfold named in *. rewrite not_elem_of_cons in Hn. assert (1 <= x) by (apply Hpos; by left). rewrite zget_insert_ne by lia. done.
  - rewrite not_elem_of_cons in Hn. apply IH; [apply Hn|]. intros y Hy. apply Hpos. by right.
Qed.

Section Represents.
Context {q : ReadyQueue} {slots free l : list Z} (H : represents q slots free l).

Lemma rep_slot s : s ∈ slots -> 1 <= s <= zlen (q_ids q) /\ s <= zlen (q_next q).
Proof using H. intros Hs. rewrite (rp_next _ _ _ _ H). assert (s ∈ slots ++ free) as Hin by (apply elem_of_app; by left). pose proof (rp_range _ _ _ _ H s Hin). lia. Qed.
Lemma rep_free s : s ∈ free -> 1 <= s <= zlen (q_ids q) /\ s <= zlen (q_next q) /\ (s ∉ slots).
Proof using H.
  intros Hs. rewrite (rp_next _ _ _ _ H). assert (s ∈ slots ++ free) as Hin by (apply elem_of_app; by right). pose proof (rp_range _ _ _ _ H s Hin).
  split; [lia|]. split; [lia|]. intros Hs'. destruct (proj1 (list.NoDup_app slots free) (rp_nodup _ _ _ _ H)) as (_ & Hd & _). by apply (Hd s).
Qed.
Lemma rep_length : zlen l = zlen slots.
Proof using H. pose proof (rp_list _ _ _ _ H) as Hl. apply Forall2_length in Hl. unfold zlen. lia. Qed.

Lemma rep_head_zero : q_head q = 0 <-> slots = [].
Proof using H.
  rewrite (linked_head _ _ _ (rp_head _ _ _ _ H)). destruct (hd_cases slots) as [->|Hin]; [done|].
  pose proof (rep_slot _ Hin). split; [lia | intros E; by rewrite E in Hin; apply elem_of_nil in Hin].
Qed.
Lemma rep_free_zero : q_free q = 0 <-> free = [].
Proof using H.
  rewrite (linked_head _ _ _ (rp_free _ _ _ _ H)). destruct (hd_cases free) as [->|Hin]; [done|].
  pose proof (rep_free _ Hin). split; [lia | intros E; by rewrite E in Hin; apply elem_of_nil in Hin].
Qed.

(** A slot is claimed exactly when the id can be admitted. *)
Lemma claim_ok id : (admits (zlen (q_ids q)) id l = false /\ claim id q = Some (0, q)) \/
  (admits (zlen (q_ids q)) id l = true /\ exists s free', free = s :: free' /\ 1 <= s <= zlen (q_ids q) /\ (s ∉ slots) /\
     claim id q = Some (s, mk_queue (<[Z.to_nat (s - 1) := id]> (q_ids q)) (<[Z.to_nat (s - 1) := 0]> (q_next q)) (q_head q) (q_tail q)
       (List.hd 0 free') (q_size q + 1))).
Proof using H.
  unfold claim, admits. rewrite rep_length. destruct (Z.eqb_spec id 0); cbn [orb negb andb]; [by left|].
  pose proof rep_free_zero as Hz. pose proof (rp_total _ _ _ _ H) as Ht. pose proof (rp_free _ _ _ _ H) as Hf.
  destruct (Z.eqb_spec (q_free q) 0) as [E0|E0].
  - left. apply Hz in E0. rewrite E0 in Ht. change (zlen []) with 0 in Ht. split; [|done]. apply Z.ltb_ge. lia.
  - right. assert (exists s free', free = s :: free') as (s & free' & E) by (destruct free as [|s free']; [destruct E0; by apply Hz | by exists s, free']).
    destruct (rep_free s) as (Hs & Hs' & Hn); [rewrite E; by left|]. rewrite E, zlen_cons in Ht. pose proof (zlen_nonneg free').
    rewrite E in Hf. destruct Hf as [Ef (nx & En & Hl)]. rewrite Ef, En. cbn [mbind option_bind].
    split; [apply Z.ltb_lt; lia|]. exists s, free'. rewrite !zset_Some by lia. cbn [mbind option_bind]. by rewrite (linked_head _ _ _ Hl).
Qed.

(** What every change of the arrays leaves linked. *)
Lemma claimed_free s free' next : free = s :: free' -> (forall i, i <> s - 1 -> (forall x, x ∈ slots -> i <> x - 1) -> zget next i = zget (q_next q) i) ->
  linked next (List.hd 0 free') free'.
Proof using H.
  intros E Hn. pose proof (rp_free _ _ _ _ H) as Hf. rewrite E in Hf. destruct Hf as [_ (n & _ & Hl)].
  assert (forall x, x ∈ free' -> x <> s /\ forall y, y ∈ slots -> x <> y) as Hx.
  { pose proof (rp_nodup _ _ _ _ H) as Hnd. rewrite E in Hnd. apply list.NoDup_app in Hnd as (_ & Hd & Hnd). apply list.NoDup_cons in Hnd as [Hs _].
    intros x Hx. split; [by intros ->|]. intros y Hy ->. apply (Hd y Hy). by right. }
  clear E. revert n Hl Hx. induction free' as [|x free' IH]; intros n Hl Hx; [done|]. destruct Hl as [-> (m & Em & Hl)].
  cbn [List.hd]. split; [done|]. exists m. rewrite Hn, Em; [| pose proof (proj1 (Hx x ltac:(by left))); lia | intros y Hy; pose proof (proj2 (Hx x ltac:(by left)) y Hy); lia].
  split; [done|]. pose proof (linked_head _ _ _ Hl) as ->. apply IH with (n := List.hd 0 free'); [exact Hl|]. intros y Hy. apply Hx. by right.
Qed.
End Represents.

(** ** Adding an id *)
Lemma list_snoc_cases (l : list Z) : l = [] \/ exists pre x, l = pre ++ [x].
Proof. destruct l as [|x l _] using rev_ind; [by left | right; by exists l, x]. Qed.
Lemma named_app ids slots l s id : Forall2 (named ids) slots l -> named ids s id -> Forall2 (named ids) (slots ++ [s]) (l ++ [id]).
Proof. intros. apply Forall2_app; [done|]. by repeat constructor. Qed.

Section Operations.
Context {q : ReadyQueue} {slots free l : list Z} (H : represents q slots free l).

Lemma rep_perm_nodup s free' slots' : free = s :: free' -> (slots' ≡ₚ s :: slots) -> NoDup (slots' ++ free') /\
  (forall x, x ∈ slots' ++ free' -> 1 <= x <= zlen (q_ids q)) /\ zlen slots' + zlen free' = zlen (q_ids q).
Proof using H.
  intros E Hp. assert (slots' ++ free' ≡ₚ slots ++ free) as Hp' by (rewrite Hp, E; cbn; by rewrite Permutation_middle).
  split; [rewrite Hp'; apply H|]. split; [intros x; rewrite Hp'; apply H|].
  pose proof (rp_total _ _ _ _ H) as Ht. rewrite E, zlen_cons in Ht. apply Permutation_length in Hp. unfold zlen in *. cbn in Hp. lia.
Qed.

Lemma rep_pos x : x ∈ slots -> 1 <= x.
Proof using H. intros Hx. pose proof (rep_slot H x Hx). lia. Qed.

Lemma push_back_ok id : exists q', push_back id q = Some (admits (zlen (q_ids q)) id l, q') /\
  zlen (q_ids q') = zlen (q_ids q) /\
  exists slots' free', represents q' slots' free' (if admits (zlen (q_ids q)) id l then l ++ [id] else l).
Proof using H.
  unfold push_back. destruct (claim_ok H id) as [[Ha ->]|(Ha & s & free' & E & Hs & Hn & ->)]; rewrite Ha; cbn [mbind option_bind].
  { exists q. split; [done|]. split; [done|]. by exists slots, free. }
  destruct (Z.eqb_spec s 0); [lia|]. cbn [q_tail q_ids q_next q_head q_free q_size]. rewrite (rp_tail _ _ _ _ H).
  destruct (rep_perm_nodup s free' (slots ++ [s]) E) as (N1 & N2 & N3); [by rewrite Permutation_app_comm|].
  assert (id <> 0 /\ forall x, x ∈ l ++ [id] -> x <> 0) as [_ Hnz].
  { unfold admits in Ha. to_prop. split; [done|]. intros x [Hx| ->%list_elem_of_singleton]%elem_of_app; [by apply (rp_nonzero _ _ _ _ H) | done]. }
  assert (Forall2 (named (<[Z.to_nat (s - 1) := id]> (q_ids q))) (slots ++ [s]) (l ++ [id])) as Hlist.
  { apply named_app; [apply named_insert; [lia | done | apply rep_pos | apply H]|]. unfold named. apply zget_insert_eq. lia. }
  pose proof (rp_next _ _ _ _ H) as Hnext. pose proof (rp_size _ _ _ _ H) as Hsize.
  assert (zlen (slots ++ [s]) = zlen slots + 1) as Hz by (rewrite zlen_app; done).
  destruct (list_snoc_cases slots) as [Enil|(pre & last & Esn)].
  - rewrite Enil in *. cbn [List.last]. rewrite Z.eqb_refl. cbn [mbind option_bind]. eexists. split; [reflexivity|]. cbn [q_ids]. split; [by rewrite zlen_insert|].
    exists [s], free'. split; cbn [q_ids q_next q_head q_tail q_free q_size app List.last] in *; rewrite ?zlen_insert; try done; try (by apply H); try lia.
    + split; [done|]. exists 0. rewrite zget_insert_eq by lia. done.
    + apply (claimed_free H s free'); [done|]. intros i Hi _. by rewrite zget_insert_ne by lia.
  - rewrite Esn, List.last_last. destruct (rep_slot H last) as [Hl1 Hl2]; [rewrite Esn; apply elem_of_app; right; by left|].
    destruct (Z.eqb_spec last 0); [lia|]. rewrite zset_Some by (rewrite zlen_insert; lia). cbn [mbind option_bind].
    eexists. split; [reflexivity|]. cbn [q_ids]. split; [by rewrite zlen_insert|].
    exists (slots ++ [s]), free'. split; cbn [q_ids q_next q_head q_tail q_free q_size]; rewrite ?zlen_insert; try done; try (by apply H); try lia.
    + rewrite Esn, <- app_assoc. apply linked_snoc; [| | | by rewrite <- Esn | | lia]; rewrite <- ?Esn.
      * apply linked_insert; [lia | done | apply rep_pos | apply H].
      * pose proof (rp_nodup _ _ _ _ H) as Hnd. by apply list.NoDup_app in Hnd as [Hnd _].
      * intros x Hx. rewrite zlen_insert. pose proof (rep_slot H x Hx). lia.
      * apply zget_insert_eq. lia.
    + apply (claimed_free H s free'); [done|]. intros i Hi Hx. assert (i <> last - 1) by (apply Hx; rewrite Esn; apply elem_of_app; right; by left).
      rewrite !zget_insert_ne by lia. done.
    + by rewrite List.last_last.
Qed.

Lemma push_front_ok id : exists q', push_front id q = Some (admits (zlen (q_ids q)) id l, q') /\
  zlen (q_ids q') = zlen (q_ids q) /\
  exists slots' free', represents q' slots' free' (if admits (zlen (q_ids q)) id l then id :: l else l).
Proof using H.
  unfold push_front. destruct (claim_ok H id) as [[Ha ->]|(Ha & s & free' & E & Hs & Hn & ->)]; rewrite Ha; cbn [mbind option_bind].
  { exists q. split; [done|]. split; [done|]. by exists slots, free. }
  destruct (Z.eqb_spec s 0); [lia|]. cbn [q_tail q_ids q_next q_head q_free q_size].
  pose proof (rp_next _ _ _ _ H) as Hnext. pose proof (rp_size _ _ _ _ H) as Hsize.
  rewrite zset_Some by (rewrite zlen_insert; lia). cbn [mbind option_bind]. eexists. split; [reflexivity|]. cbn [q_ids]. split; [by rewrite zlen_insert|].
  destruct (rep_perm_nodup s free' (s :: slots) E ltac:(done)) as (N1 & N2 & N3).
  exists (s :: slots), free'. split; cbn [q_ids q_next q_head q_tail q_free q_size]; rewrite ?zlen_insert; try done; try (by apply H); try lia.
  - split; [done|]. exists (q_head q). rewrite zget_insert_eq by (rewrite zlen_insert; lia). split; [done|].
    apply linked_insert; [lia | done | apply rep_pos |]. apply linked_insert; [lia | done | apply rep_pos | apply H].
  - apply (claimed_free H s free'); [done|]. intros i Hi _. by rewrite !zget_insert_ne by lia.
  - rewrite (rp_tail _ _ _ _ H). destruct (list_snoc_cases slots) as [->|(pre & last & Esn)]; [done|].
    assert (last ∈ slots) as Hin by (rewrite Esn; apply elem_of_app; right; by left). pose proof (rep_pos last Hin).
    rewrite Esn, List.last_last. destruct (Z.eqb_spec last 0); [lia|]. change (s :: pre ++ [last]) with ((s :: pre) ++ [last]). by rewrite List.last_last.
  - rewrite zlen_cons. lia.
  - constructor; [apply zget_insert_eq; lia|]. apply named_insert; [lia | done | apply rep_pos | apply H].
  - unfold admits in Ha. to_prop. intros x [->|Hx]%elem_of_cons; [done | by apply (rp_nonzero _ _ _ _ H)].
Qed.
End Operations.

(** ** Removing an id *)
Lemma last_app_cons (pre post : list Z) s : List.last (pre ++ s :: post) 0 = List.last (s :: post) 0.
Proof.
  destruct (list_snoc_cases (s :: post)) as [|(x & y & ->)]; [done|]. by rewrite app_assoc, !List.last_last.
Qed.

Section Removal.
Context {q : ReadyQueue} {pre post : list Z} {s : Z} {free l : list Z} (H : represents q (pre ++ s :: post) free l).

Lemma rem_facts : 1 <= s <= zlen (q_ids q) /\ s <= zlen (q_next q) /\ (s ∉ pre ++ post) /\ (s ∉ free) /\
  NoDup (pre ++ post) /\ (forall x, x ∈ pre ++ post -> (x ∉ free) /\ 1 <= x <= zlen (q_next q)) /\ (forall x, x ∈ free -> 1 <= x).
Proof using H.
  pose proof (rp_nodup _ _ _ _ H) as Hnd. apply list.NoDup_app in Hnd as (Hnd & Hd & _).
  assert (s ∈ pre ++ s :: post) as Hs by (apply elem_of_app; right; by left). pose proof (rep_slot H s Hs).
  assert (NoDup (s :: pre ++ post)) as Hnd' by (by rewrite Permutation_middle). apply list.NoDup_cons in Hnd' as [Hn Hnd'].
  split; [lia|]. split; [lia|]. split; [done|]. split; [by apply Hd|]. split; [done|]. split; [|intros x Hx; pose proof (rep_free H x Hx); lia].
  intros x Hx. assert (x ∈ pre ++ s :: post) as Hx' by (apply elem_of_app in Hx as [Hx|Hx]; apply elem_of_app; [by left | right; by right]).
  split; [by apply Hd|]. pose proof (rep_slot H x Hx'). lia.
Qed.

Lemma queue_release_ok next head tail lpre id lpost : l = lpre ++ id :: lpost -> length lpre = length pre ->
  zlen next = zlen (q_next q) -> linked next head (pre ++ post) -> linked next (q_free q) free ->
  tail = List.last (pre ++ post) 0 ->
  exists q', release_slot s (mk_queue (q_ids q) next head tail (q_free q) (q_size q)) = Some q' /\
    zlen (q_ids q') = zlen (q_ids q) /\ represents q' (pre ++ post) (s :: free) (lpre ++ lpost).
Proof using H.
  intros El Hlen Hnext Hh Hf ->. destruct rem_facts as (Hs & Hs' & Hn & Hnf & Hnd & Hx & Hxf). unfold release_slot.
  cbn [q_ids q_next q_head q_tail q_free q_size]. rewrite !zset_Some by lia. cbn [mbind option_bind]. eexists. split; [reflexivity|].
  cbn [q_ids]. split; [by rewrite zlen_insert|]. pose proof (rp_total _ _ _ _ H) as Ht. pose proof (rp_ids _ _ _ _ H) as Hids. pose proof (rp_next _ _ _ _ H) as Hq.
  assert (pre ++ post ++ s :: free ≡ₚ (pre ++ s :: post) ++ free) as Hp.
  { rewrite <- !app_assoc. apply Permutation_app_head. cbn. by rewrite Permutation_middle. }
  assert (zlen (pre ++ s :: post) = zlen (pre ++ post) + 1) as Hz by (rewrite !zlen_app, zlen_cons; lia).
  pose proof (rp_list _ _ _ _ H) as Hlist. rewrite El in Hlist. apply Forall2_app_inv in Hlist as [Hl1 Hl2]; [|done].
  apply Forall2_cons_1 in Hl2 as [_ Hl2]. pose proof (zlen_nonneg (pre ++ post)). pose proof (zlen_nonneg free).
  split; cbn [q_ids q_next q_head q_tail q_free q_size]; rewrite ?zlen_insert; try done; try lia.
  - rewrite <- app_assoc, Hp. apply H.
  - intros x. rewrite <- app_assoc, Hp. apply H.
  - rewrite zlen_cons. lia.
  - apply linked_insert; [lia | done | intros x Hx'; destruct (Hx x Hx'); lia | done].
  - split; [done|]. exists (q_free q). rewrite zget_insert_eq by lia. split; [done|]. apply linked_insert; [lia | done | done | done].
  - rewrite (rp_size _ _ _ _ H), Hz. rewrite wrap64_small by (unfold is_u64; lia). lia.
  - apply named_insert; [lia | done | intros x Hx'; destruct (Hx x Hx'); lia |]. by apply Forall2_app.
  - intros x Hx'. apply (rp_nonzero _ _ _ _ H). rewrite El. apply elem_of_app in Hx' as [Hx'|Hx']; apply elem_of_app; [by left | right; by right].
Qed.

Lemma unlink_ok lpre id lpost : l = lpre ++ id :: lpost -> length lpre = length pre ->
  exists q', unlink (List.last pre 0) s q = Some q' /\
    zlen (q_ids q') = zlen (q_ids q) /\ represents q' (pre ++ post) (s :: free) (lpre ++ lpost).
Proof using H.
  intros El Hlen. destruct rem_facts as (Hs & Hs' & Hn & Hnf & Hnd & Hx & Hxf). unfold unlink.
  pose proof (rp_head _ _ _ _ H) as Hh. destruct (linked_app _ _ _ _ _ Hh) as (n & En & Hl). rewrite En. cbn [mbind option_bind].
  assert ((if q_tail q =? s then List.last pre 0 else q_tail q) = List.last (pre ++ post) 0) as Htail.
  { rewrite (rp_tail _ _ _ _ H), last_app_cons. destruct post as [|y post']; cbn [List.last]; [by rewrite Z.eqb_refl, app_nil_r|].
    change (match post' with [] => y | _ :: _ => List.last post' 0 end) with (List.last (y :: post') 0).
    destruct (list_snoc_cases (y :: post')) as [|(z & w & Ez)]; [done|]. rewrite Ez, List.last_last, app_assoc, List.last_last.
    destruct (Z.eqb_spec w s) as [->|]; [|done]. exfalso. apply Hn. rewrite Ez, !elem_of_app. right. right. by left. }
  destruct (list_snoc_cases pre) as [Enil|(pre' & p & Ep)].
  - assert (List.last pre 0 = 0) as Elast by (by rewrite Enil). rewrite Elast in *. rewrite Z.eqb_refl. cbn [mbind option_bind q_ids q_next q_head q_tail q_free q_size].
    apply (queue_release_ok _ _ _ lpre id lpost); try done; [|apply H]. by rewrite Enil.
  - assert (List.last pre 0 = p) as Elast by (rewrite Ep; by rewrite List.last_last). rewrite Elast in *.
    assert (p ∈ pre ++ post) as Hp by (rewrite Ep, !elem_of_app; left; right; by left).
    destruct (Hx p Hp) as [Hpf Hpr]. destruct (Z.eqb_spec p 0); [lia|]. rewrite zset_Some by lia. cbn [mbind option_bind q_ids q_next q_head q_tail q_free q_size].
    apply (queue_release_ok _ _ _ lpre id lpost); try done; [by rewrite zlen_insert | |].
    + rewrite Ep, <- app_assoc. cbn. apply (linked_skip _ _ _ s); [| | | done].
      * rewrite Ep, <- app_assoc in Hh. done.
      * pose proof (rp_nodup _ _ _ _ H) as Hq. apply list.NoDup_app in Hq as [Hq _]. rewrite Ep, <- app_assoc in Hq. done.
      * intros x Hx'. assert (x ∈ pre ++ s :: post) as Hx2 by (rewrite Ep, <- app_assoc; done). pose proof (rep_slot H x Hx2). lia.
    + apply linked_insert; [lia | done | done | apply H].
Qed.
End Removal.

Lemma pop_front_ok q slots free l : represents q slots free l ->
  exists q', pop_front q = Some (List.head l, q') /\ zlen (q_ids q') = zlen (q_ids q) /\
    exists slots' free', represents q' slots' free' (List.tl l).
Proof.
  intros H. unfold pop_front. pose proof (rep_head_zero H) as Hz. pose proof (rp_list _ _ _ _ H) as Hl.
  destruct slots as [|s slots].
  - rewrite (proj2 Hz eq_refl). inversion Hl; subst. exists q. split; [done|]. split; [done|]. by exists [], free.
  - destruct (Z.eqb_spec (q_head q) 0) as [E|_]; [by apply Hz in E|]. inversion Hl as [|s' id slots' l' Hid Hl']; subst.
    pose proof (rp_head _ _ _ _ H) as Hh. destruct Hh as [-> (n & En & Hn)]. rewrite Hid, En. cbn [mbind option_bind].
    destruct (queue_release_ok (pre := []) H (q_next q) n (if n =? 0 then 0 else q_tail q) [] id l') as (q' & -> & Hq & Hr); try done.
    + apply H.
    + pose proof (linked_head _ _ _ Hn) as ->. rewrite (rp_tail _ _ _ _ H). destruct slots as [|y slots]; [done|]. cbn [List.hd app].
      assert (y ∈ s :: y :: slots) as Hy by (right; by left). pose proof (rep_slot H y Hy). destruct (Z.eqb_spec y 0); [lia|]. done.
    + cbn [mbind option_bind]. exists q'. split; [done|]. split; [done|]. by exists slots, (s :: free).
Qed.

Lemma take_loop_ok p q free pre rest lpre lrest fuel : represents q (pre ++ rest) free (lpre ++ lrest) ->
  length lpre = length pre -> (length rest < fuel)%nat ->
  match first_of_list p lrest with
  | None => exists st, while_loop fuel (fun '(_, slot) => negb (slot =? 0)) (take_step p q) (List.last pre 0, List.hd 0 rest) = Some (Next st)
  | Some (id, lrest') => exists q' slots' free',
      while_loop fuel (fun '(_, slot) => negb (slot =? 0)) (take_step p q) (List.last pre 0, List.hd 0 rest) = Some (Return (id, q')) /\
      zlen (q_ids q') = zlen (q_ids q) /\ represents q' slots' free' (lpre ++ lrest')
  end.
Proof.
  revert pre rest lpre fuel. induction lrest as [|id lrest IH]; intros pre rest lpre fuel H Hlen Hf; cbn [first_of_list];
    pose proof (rp_list _ _ _ _ H) as Hl; apply Forall2_app_inv in Hl as [Hl1 Hl2]; try done.
  - inversion Hl2; subst. destruct fuel; [cbn in Hf; lia|]. by eexists.
  - inversion Hl2 as [|s id' rest' lrest0 Hid Hl3]; subst. destruct fuel as [|fuel]; [lia|]. cbn [List.hd while_loop].
    assert (s ∈ pre ++ s :: rest') as Hs by (apply elem_of_app; right; by left). pose proof (rep_slot H s Hs).
    destruct (Z.eqb_spec s 0); [lia|]. cbn [negb]. cbn [take_step]. rewrite Hid. cbn [mbind option_bind].
    destruct (p id) eqn:Ep.
    + destruct (unlink_ok H lpre id lrest eq_refl Hlen) as (q' & -> & Hq & Hr). cbn [mbind option_bind].
      exists q', (pre ++ rest'), (s :: free). done.
    + destruct (linked_app _ _ _ _ _ (rp_head _ _ _ _ H)) as (nx & Enx & Hnx). rewrite Enx. cbn [mbind option_bind].
      pose proof (linked_head _ _ _ Hnx) as ->.
      specialize (IH (pre ++ [s]) rest' (lpre ++ [id]) fuel). rewrite List.last_last, <- !app_assoc in IH. cbn [app] in IH.
      specialize (IH H). rewrite !length_app in IH. cbn [length] in IH, Hf. specialize (IH ltac:(lia) ltac:(lia)).
      destruct (first_of_list p lrest) as [[id2 lrest']|]; cbn [mbind option_bind]; [|exact IH].
      destruct IH as (q' & slots' & free' & E & Hq & Hr). exists q', slots', free'. split; [exact E|]. split; [done|].
      rewrite <- app_assoc in Hr. exact Hr.
Qed.

Definition taken (p : Z -> bool) (l : list Z) : option Z * list Z :=
  match first_of_list p l with None => (None, l) | Some (id, l') => (Some id, l') end.

Lemma take_first_ok p q slots free l : represents q slots free l ->
  exists q', take_first p q = Some ((taken p l).1, q') /\ zlen (q_ids q') = zlen (q_ids q) /\
    exists slots' free', represents q' slots' free' (taken p l).2.
Proof.
  intros H. unfold take_first, taken. rewrite (linked_head _ _ _ (rp_head _ _ _ _ H)).
  assert (length slots < S (length (q_ids q)))%nat as Hf.
  { pose proof (rp_total _ _ _ _ H) as Ht. pose proof (zlen_nonneg free). unfold zlen in *. lia. }
  pose proof (take_loop_ok p q free [] slots [] l _ H eq_refl Hf) as G. cbn [List.last app] in G.
  destruct (first_of_list p l) as [[id l']|].
  - destruct G as (q' & slots' & free' & -> & Hq & Hr). cbn [mbind option_bind fst snd]. exists q'. split; [done|]. split; [done|]. by exists slots', free'.
  - destruct G as (st & ->). cbn [mbind option_bind fst snd]. exists q. split; [done|]. split; [done|]. by exists slots, free.
Qed.

(** ** Clearing *)
Lemma clear_loop_ok ids next : zlen ids = zlen next -> zlen ids <= U32_MAX ->
  exists ids' next', for_each clear_slots (ids, next) (range 0 (zlen ids)) = Some (ids', next') /\
    zlen ids' = zlen ids /\ zlen next' = zlen ids /\
    forall i, 0 <= i < zlen ids -> zget next' i = Some (if i + 1 <? zlen ids then i + 2 else 0).
Proof.
  intros Hlen Hmax. pose proof (zlen_nonneg ids).
  destruct (for_each_inv (fun d '(ids', next') => zlen ids' = zlen ids /\ zlen next' = zlen ids /\
    forall i, 0 <= i < zlen d -> zget next' i = Some (if i + 1 <? zlen ids then i + 2 else 0)) clear_slots (range 0 (zlen ids)) (ids, next))
    as ([ids' next'] & -> & H1 & H2 & H3).
  - split; [done|]. split; [lia|]. intros i. change (zlen []) with 0. lia.
  - intros d i rest [ids' next'] E (H1 & H2 & H3). pose proof (zlen_nonneg d).
    assert (zget (range 0 (zlen ids)) (zlen d) = Some i) as Hi by (rewrite E; by apply zget_app_mid).
    assert (zlen d < zlen ids) by (apply zget_range in Hi; rewrite zlen_range in Hi by lia; lia).
    rewrite zget_range_ix in Hi by lia. injection Hi as <-. unfold clear_slots. rewrite zset_Some by lia. cbn [mbind option_bind].
    rewrite zlen_insert, H1. rewrite zset_Some by lia. cbn [mbind option_bind]. eexists. split; [done|].
    cbn beta iota. rewrite !zlen_insert. split; [done|]. split; [done|]. intros j Hj. rewrite zlen_app in Hj. change (zlen [0 + zlen d]) with 1 in Hj.
    destruct (decide (j = zlen d)) as [->|].
    + rewrite zget_insert_eq by lia. rewrite Z.add_0_l. destruct (Z.ltb_spec (zlen d + 1) (zlen ids)); [|done]. by rewrite wrap32_small by (unfold is_u32; lia).
    + rewrite zget_insert_ne by lia. apply H3. lia.
  - exists ids', next'. rewrite zlen_range in H3 by lia. rewrite Z.sub_0_r in H3. done.
Qed.

Lemma linked_range next lo hi : 1 <= lo <= hi + 1 -> (forall i, lo <= i <= hi -> zget next (i - 1) = Some (if i <? hi then i + 1 else 0)) ->
  linked next (if lo <=? hi then lo else 0) (range lo (hi + 1)).
Proof.
  intros Hle. remember (Z.to_nat (hi + 1 - lo)) as m eqn:Em. revert lo Hle Em. induction m as [|m IH]; intros lo Hle Em Hn.
  - rewrite range_nil by lia. destruct (Z.leb_spec lo hi); [lia | done].
  - rewrite range_cons by lia. destruct (Z.leb_spec lo hi); [|lia]. split; [done|]. eexists. split; [apply Hn; lia|].
    specialize (IH (lo + 1) ltac:(lia) ltac:(lia) ltac:(intros i Hi; apply Hn; lia)).
    destruct (Z.ltb_spec lo hi), (Z.leb_spec (lo + 1) hi); try lia; done.
Qed.

Lemma queue_clear_ok q : zlen (q_ids q) = zlen (q_next q) -> zlen (q_ids q) <= U32_MAX ->
  exists q', queue_clear q = Some q' /\ zlen (q_ids q') = zlen (q_ids q) /\ exists free', represents q' [] free' [].
Proof.
  intros Hlen Hmax. unfold queue_clear. destruct (clear_loop_ok _ _ Hlen Hmax) as (ids' & next' & -> & H1 & H2 & H3).
  cbn [mbind option_bind]. eexists. split; [reflexivity|]. cbn [q_ids]. split; [done|]. set (n := zlen (q_ids q)) in *. pose proof (zlen_nonneg (q_ids q)).
  exists (range 1 (n + 1)). split; cbn [q_ids q_next q_head q_tail q_free q_size app]; try done; try lia.
  - apply NoDup_seqZ.
  - intros s Hs%elem_of_range. lia.
  - rewrite zlen_range by lia. change (zlen []) with 0. lia.
  - replace (if bool_decide (q_ids q = []) then 0 else 1) with (if 1 <=? n then 1 else 0).
    + apply linked_range; [fold n in H; lia|]. intros i Hi. rewrite H3 by lia. replace (i - 1 + 1) with i by lia.
      destruct (Z.ltb_spec i n); [|done]. f_equal. lia.
    + destruct (Z.leb_spec 1 n) as [Hn|Hn]; case_bool_decide as E; try done.
      * unfold n in Hn. rewrite E in Hn. change (zlen []) with 0 in Hn. lia.
      * destruct (q_ids q); [done|]. unfold n in Hn. rewrite zlen_cons in Hn. pose proof (zlen_nonneg l). lia.
  - intros id Hid. by apply elem_of_nil in Hid.
Qed.

(** ** Every sequence of operations *)
Inductive QueueOp := OpClear | OpFront | OpPushBack (id : Z) | OpPushFront (id : Z) | OpPopFront
  | OpTakeFirst (p : Z -> bool) | OpRemove (id : Z).

(** The answer of an operation: whether it succeeded, and the id it gives. *)
Definition run_op (op : QueueOp) (q : ReadyQueue) : option ((bool * option Z) * ReadyQueue) :=
  match op with
  | OpClear => q ← queue_clear q; Some ((true, None), q)
  | OpFront => id ← queue_front q; Some ((bool_decide (id <> None), id), q)
  | OpPushBack id => '(ok, q) ← push_back id q; Some ((ok, None), q)
  | OpPushFront id => '(ok, q) ← push_front id q; Some ((ok, None), q)
  | OpPopFront => '(id, q) ← pop_front q; Some ((bool_decide (id <> None), id), q)
  | OpTakeFirst p => '(id, q) ← take_first p q; Some ((bool_decide (id <> None), id), q)
  | OpRemove id => '(ok, q) ← queue_remove id q; Some ((ok, None), q)
  end.

Definition spec_op (capacity : Z) (op : QueueOp) (l : list Z) : (bool * option Z) * list Z :=
  match op with
  | OpClear => ((true, None), [])
  | OpFront => ((bool_decide (List.head l <> None), List.head l), l)
  | OpPushBack id => ((admits capacity id l, None), if admits capacity id l then l ++ [id] else l)
  | OpPushFront id => ((admits capacity id l, None), if admits capacity id l then id :: l else l)
  | OpPopFront => ((bool_decide (List.head l <> None), List.head l), List.tl l)
  | OpTakeFirst p => ((bool_decide ((taken p l).1 <> None), (taken p l).1), (taken p l).2)
  | OpRemove id => ((bool_decide ((taken (fun x => x =? id) l).1 <> None), None), (taken (fun x => x =? id) l).2)
  end.

Fixpoint run_ops (ops : list QueueOp) (q : ReadyQueue) : option (list (bool * option Z) * ReadyQueue) :=
  match ops with
  | [] => Some ([], q)
  | op :: ops => '(answer, q) ← run_op op q; '(answers, q) ← run_ops ops q; Some (answer :: answers, q)
  end.
Fixpoint spec_ops (capacity : Z) (ops : list QueueOp) (l : list Z) : list (bool * option Z) * list Z :=
  match ops with
  | [] => ([], l)
  | op :: ops => let '(answer, l) := spec_op capacity op l in
      let '(answers, l) := spec_ops capacity ops l in (answer :: answers, l)
  end.

Lemma run_op_ok capacity op q l : queue_of capacity q l ->
  exists q', run_op op q = Some ((spec_op capacity op l).1, q') /\ queue_of capacity q' (spec_op capacity op l).2.
Proof.
  intros [<- (slots & free & H)]. unfold queue_of, queue_capacity. destruct op as [| |id|id| |p|id]; cbn [run_op spec_op fst snd].
  - destruct (queue_clear_ok q) as (q' & -> & Hq & free' & Hr); [by rewrite (rp_next _ _ _ _ H) | apply H |].
    exists q'. split; [done|]. split; [done|]. by exists [], free'.
  - unfold queue_front. pose proof (rep_head_zero H) as Hz. pose proof (rp_list _ _ _ _ H) as Hl. exists q.
    split; [|split; [done | by exists slots, free]]. destruct (Z.eqb_spec (q_head q) 0) as [E|E].
    + apply Hz in E. subst. by inversion Hl.
    + destruct slots as [|s slots]; [by destruct E; apply Hz|]. inversion Hl as [|? id ? l' Hid]; subst.
      destruct (rp_head _ _ _ _ H) as [-> _]. by rewrite Hid.
  - destruct (push_back_ok H id) as (q' & -> & Hq & Hr). by exists q'.
  - destruct (push_front_ok H id) as (q' & -> & Hq & Hr). by exists q'.
  - destruct (pop_front_ok _ _ _ _ H) as (q' & -> & Hq & Hr). by exists q'.
  - destruct (take_first_ok p _ _ _ _ H) as (q' & -> & Hq & Hr). by exists q'.
  - unfold queue_remove. destruct (take_first_ok (fun x => x =? id) _ _ _ _ H) as (q' & -> & Hq & Hr). by exists q'.
Qed.

(** C16: the ready queue refines a bounded list: configured for a capacity of at most
    2^32 - 1 tasks, every sequence of operations - clearing, peeking, adding at either
    end, popping, taking the first id a predicate holds for and removing - runs without
    undefined behaviour and gives the answers the list gives, and an id is refused
    exactly when it is zero or the list has as many ids as the capacity. *)
Theorem ReadyQueue_refines_list capacity ops : 0 <= capacity <= U32_MAX ->
  exists q q', configure capacity EmptyQueue = Some q /\
    run_ops ops q = Some ((spec_ops capacity ops []).1, q') /\ queue_of capacity q' (spec_ops capacity ops []).2.
Proof.
  intros Hcap. unfold configure. destruct (queue_clear_ok (mk_queue (replicate (Z.to_nat capacity) 0) (replicate (Z.to_nat capacity) 0)
    (q_head EmptyQueue) (q_tail EmptyQueue) (q_free EmptyQueue) (q_size EmptyQueue))) as (q & -> & Hq & free & Hr);
    cbn [q_ids q_next] in *; rewrite ?zlen_replicate in *; [done | lia |].
  exists q. assert (queue_of capacity q []) as H0 by (split; [unfold queue_capacity; lia | by exists [], free]). clear Hr Hq.
  assert (forall q l, queue_of capacity q l -> exists q', run_ops ops q = Some ((spec_ops capacity ops l).1, q') /\
    queue_of capacity q' (spec_ops capacity ops l).2) as G; [|destruct (G q [] H0) as (q' & ? & ?); by exists q'].
  clear q H0 free. induction ops as [|op ops IH]; intros q l Hq; [by exists q|]. cbn [run_ops spec_ops].
  destruct (run_op_ok capacity op q l Hq) as (q1 & -> & Hq1). cbn [mbind option_bind].
  destruct (spec_op capacity op l) as [answer l1]. cbn [fst snd] in *. destruct (IH q1 l1 Hq1) as (q2 & -> & Hq2). cbn [mbind option_bind].
  destruct (spec_ops capacity ops l1) as [answers l2]. cbn [fst snd] in *. by exists q2.
Qed.

Lemma ReadyQueue_refines_list_witness : 0 <= 2 <= U32_MAX /\
  (let ops := [OpPushBack 7; OpPushBack 8; OpPushBack 9; OpPopFront; OpPushFront 5; OpTakeFirst Z.even; OpFront] in
   (spec_ops 2 ops []).1 = [(true, None); (true, None); (false, None); (true, Some 7); (true, None); (true, Some 8); (true, Some 5)] /\
   exists q q', configure 2 EmptyQueue = Some q /\
    run_ops ops q = Some ((spec_ops 2 ops []).1, q') /\ queue_of 2 q' (spec_ops 2 ops []).2).
Proof. split; [lia|]. split; [reflexivity|]. apply (ReadyQueue_refines_list 2). lia. Defined.
