(* ===== verification/TaskTable.v ===== *)
(** * TaskTable: the task records of the scheduler and the index over them

    [src/runtime/task/scheduler/state/task/index.cpp] (an open-addressing table from
    task ids to records), [core/spawn/{budget,identity,record,prepare,enqueue}.cpp]
    (issuing an id, taking a record and putting the task in the ready queue),
    [state/ready/queue.cpp] (entering the ready queue), [progress/ready/queue.cpp]
    (leaving it) and [task/retire.cpp] (giving the record back).

    Of a record only what these functions read and write is kept: the id, the scope,
    the state, whether the record can be reused and the link of the free records, which
    shares its storage with the id of a wait. Callables, completions, lanes, statistics
    and recorded operations are left out; whether a callable or a completion can be had
    is an argument of the spawn. The lanes run on one sequencer, so every function here
    is one step. An option is undefined behaviour or [std::abort]. *)

From stdpp Require Import base numbers list option.
From Stdlib Require Import ZArith Lia.
From S2P Require Import Prelude ReadyQueue.

Inductive TaskState :=
  | Ready | Running | Sleeping | JoinBlocked | ChannelBlocked | IoBlocked | ExternalBlocked | Completed | Failed.
#[export] Instance TaskState_eq_dec : EqDecision TaskState.
Proof. solve_decision. Defined.

Record TaskRecord := mk_record {
  t_id : Z;
  t_scope_id : Z;
  t_state : TaskState;
  t_recyclable : bool;
  t_wake_ticket : Z;
}.
Definition NewRecord : TaskRecord := mk_record 0 1 Ready false 0.

(** The index of the records, and the head of the free ones. *)
Record Tasks := mk_tasks {
  k_records : list TaskRecord;
  k_slots : list Z;
  k_size : Z;
  k_deleted : Z;
  k_free : Z;
}.

Definition IndexEmpty : Z := 0.
Definition IndexDeleted : Z := U32_MAX.
(** [kInvalidTaskIndex] *)
Definition InvalidTaskIndex : Z := U64_MAX.

Definition set_records (records : list TaskRecord) (t : Tasks) : Tasks :=
  mk_tasks records (k_slots t) (k_size t) (k_deleted t) (k_free t).
Definition set_index (slots : list Z) (size deleted : Z) (t : Tasks) : Tasks :=
  mk_tasks (k_records t) slots size deleted (k_free t).
Definition set_free (free : Z) (t : Tasks) : Tasks :=
  mk_tasks (k_records t) (k_slots t) (k_size t) (k_deleted t) free.

(** ** The index *)
Definition IndexOccupied (entry : Z) : bool := negb (entry =? IndexEmpty) && negb (entry =? IndexDeleted).

Definition IndexMatches (records : list TaskRecord) (entry id : Z) : bool :=
  IndexOccupied entry &&
  match within records (entry - 1) with Some record => t_id record =? id | None => false end.

(** One probe of [IndexTask]; the state is the slot and the first deleted slot. *)
Definition index_probe (id encoded : Z) (t : Tasks) (st : Z * Z) (_ : Z) : option (flow (Z * Z) (bool * Tasks)) :=
  let '(slot, first_deleted) := st in
  let capacity := zlen (k_slots t) in
  entry ← zget (k_slots t) slot;
  if IndexMatches (k_records t) entry id then
    slots ← zset (k_slots t) slot encoded;
    Some (Return (true, set_index slots (k_size t) (k_deleted t) t))
  else
    let first_deleted := if (entry =? IndexDeleted) && (first_deleted =? InvalidTaskIndex) then slot else first_deleted in
    if entry =? IndexEmpty then
      slots ← zset (k_slots t) (if first_deleted =? InvalidTaskIndex then slot else first_deleted) encoded;
      Some (Return (true, set_index slots (k_size t + 1)
        (if first_deleted =? InvalidTaskIndex then k_deleted t else wrap64 (k_deleted t - 1)) t))
    else Some (Next (wrap64 (slot + 1) mod capacity, first_deleted)).

Definition IndexTask (id index : Z) (t : Tasks) : option (bool * Tasks) :=
  if (id =? 0) || bool_decide (k_slots t = []) || (IndexDeleted - 1 <=? index) then Some (false, t) else
  let encoded := wrap32 (index + 1) in
  let capacity := zlen (k_slots t) in
  r ← for_loop (index_probe id encoded t) (id mod capacity, InvalidTaskIndex) (range 0 capacity);
  match r with
  | Return v => Some v
  | Next (_, first_deleted) =>
      if first_deleted =? InvalidTaskIndex then Some (false, t) else
      slots ← zset (k_slots t) first_deleted encoded;
      Some (true, set_index slots (k_size t + 1) (wrap64 (k_deleted t - 1)) t)
  end.

(** Failing to index a record aborts. *)
Definition rebuild_one (retired_id : Z) (t : Tasks) (index : Z) : option Tasks :=
  record ← zget (k_records t) index;
  if negb (t_id record =? 0) && negb (t_id record =? retired_id) then
    '(ok, t) ← IndexTask (t_id record) index t;
    if (ok : bool) then Some t else None
  else Some t.
Definition RebuildTaskIndex (retired_id : Z) (t : Tasks) : option Tasks :=
  for_each (rebuild_one retired_id) (set_index (replicate (length (k_slots t)) IndexEmpty) 0 0 t)
    (range 0 (zlen (k_records t))).

Definition forget_probe (id : Z) (t : Tasks) (slot : Z) (_ : Z) : option (flow Z Tasks) :=
  let capacity := zlen (k_slots t) in
  entry ← zget (k_slots t) slot;
  if entry =? IndexEmpty then Some (Return t)
  else if IndexMatches (k_records t) entry id then
    slots ← zset (k_slots t) slot IndexDeleted;
    let size := wrap64 (k_size t - 1) in
    let deleted := k_deleted t + 1 in
    if size =? 0 then Some (Return (set_index (replicate (length slots) IndexEmpty) size 0 t))
    else if (size <? deleted) && ((capacity + 3) / 4 <=? deleted) then
      t ← RebuildTaskIndex id (set_index slots size deleted t);
      Some (Return t)
    else Some (Return (set_index slots size deleted t))
  else Some (Next (wrap64 (slot + 1) mod capacity)).

Definition ForgetTask (id : Z) (t : Tasks) : option Tasks :=
  if (id =? 0) || bool_decide (k_slots t = []) then Some t else
  let capacity := zlen (k_slots t) in
  r ← for_loop (forget_probe id t) (id mod capacity) (range 0 capacity);
  Some (match r with Return t' => t' | Next _ => t end).

Definition find_probe (id : Z) (t : Tasks) (slot : Z) (_ : Z) : option (flow Z Z) :=
  let capacity := zlen (k_slots t) in
  entry ← zget (k_slots t) slot;
  if entry =? IndexEmpty then Some (Return InvalidTaskIndex)
  else if IndexMatches (k_records t) entry id then Some (Return (entry - 1))
  else Some (Next (wrap64 (slot + 1) mod capacity)).

Definition IndexFor (id : Z) (t : Tasks) : option Z :=
  if (id =? 0) || bool_decide (k_slots t = []) then Some InvalidTaskIndex else
  let capacity := zlen (k_slots t) in
  r ← for_loop (find_probe id t) (id mod capacity) (range 0 capacity);
  Some (match r with Return index => index | Next _ => InvalidTaskIndex end).

(** The index of the record found, when it has the id. *)
Definition Find (id : Z) (t : Tasks) : option (option Z) :=
  index ← IndexFor id t;
  Some (match within (k_records t) index with
        | Some record => if t_id record =? id then Some index else None
        | None => None
        end).

(** ** The records *)
Definition ClaimSpawnTaskSlot (t : Tasks) : option (bool * Z * Tasks) :=
  if negb (k_free t =? 0) then
    let index := k_free t - 1 in
    record ← zget (k_records t) index;
    records ← zset (k_records t) index
      (mk_record (t_id record) (t_scope_id record) (t_state record) (t_recyclable record) 0);
    Some (true, index, set_free (wrap32 (t_wake_ticket record)) (set_records records t))
  else Some (false, zlen (k_records t), set_records (k_records t ++ [NewRecord]) t).

Definition ReleasePreparedSpawnTaskSlot (index : Z) (reuse_record : bool) (t : Tasks) : option Tasks :=
  if reuse_record then
    record ← zget (k_records t) index;
    records ← zset (k_records t) index (mk_record (t_id record) (t_scope_id record) (t_state record) true (k_free t));
    Some (set_free (wrap32 (index + 1)) (set_records records t))
  else Some (set_records (removelast (k_records t)) t).

(** [RetireTaskRecord]; [DestroyTask] clears the wait of the record. *)
Definition RetireTaskRecord (record_index : Z) (t : Tasks) : option Tasks :=
  record ← zget (k_records t) record_index;
  if t_recyclable record || (t_id record =? 0) then Some t else
  let old_id := t_id record in
  index ← IndexFor old_id t;
  t ← ForgetTask old_id t;
  let linked := (index <? zlen (k_records t)) in
  records ← zset (k_records t) record_index
    (mk_record 0 1 Completed true (if linked then k_free t else 0));
  let t := set_records records t in
  Some (if linked then set_free (wrap32 (index + 1)) t else t).

(** ** Ids *)
Record Ids := mk_ids {
  next_task_id : Z;
  r_active : bool;
  r_parent : Z;
  r_scope : Z;
  r_next : Z;
  r_remaining : Z;
}.
Record Limits := mk_limits { task_capacity : Z; ready_queue_capacity : Z }.

(** [context_task]: the task of the scheduler context, or zero. *)
Definition IssueSpawnTaskId (limits : Limits) (context_task parent scope : Z) (ids : Ids) : Z * Ids :=
  let range_size := Z.max 1 (Z.min (task_capacity limits) (ready_queue_capacity limits)) in
  if negb ((parent =? 0) && (context_task =? 0)) then
    (next_task_id ids, mk_ids (wrap64 (next_task_id ids + 1)) false 0 0 0 0)
  else
    let ids :=
      if r_active ids && negb (r_remaining ids =? 0) && (r_parent ids =? parent) && (r_scope ids =? scope) then ids
      else mk_ids (wrap64 (next_task_id ids + range_size)) true parent scope (next_task_id ids) range_size in
    let id := r_next ids in
    let remaining := wrap64 (r_remaining ids - 1) in
    (id, if remaining =? 0 then mk_ids (next_task_id ids) false 0 0 0 0
         else mk_ids (next_task_id ids) (r_active ids) (r_parent ids) (r_scope ids) (wrap64 (r_next ids + 1)) remaining).

(** ** The scheduler *)
Record Scheduler := mk_scheduler {
  s_tasks : Tasks;
  s_ids : Ids;
  s_queue : ReadyQueue;
  s_depth : Z;
}.
Definition set_tasks (t : Tasks) (s : Scheduler) : Scheduler := mk_scheduler t (s_ids s) (s_queue s) (s_depth s).

(** The storage a scheduler starts with ([core/identity.cpp]). *)
Definition configure_tasks (limits : Limits) : option Scheduler :=
  q ← configure (task_capacity limits) EmptyQueue;
  Some (mk_scheduler (mk_tasks [] (replicate (Z.to_nat (task_capacity limits * 2 + 1)) 0) 0 0 0)
    (mk_ids 1 false 0 0 0 0) q 0).

Inductive ReadyAdmission := AdmitSpawn | AdmitContinuation.
Inductive SpawnReason :=
  | TaskInvalid | TaskCapacityExceeded | ReadyQueueCapacityExceeded | TaskCompletionCapacity | TaskStateTransitionInvalid.

(** A spawn: whether the name is valid, how the task is admitted, the task of the
    context, the parent and the scope; whether the task is an observed coroutine, whether
    its completion can be claimed and made ready, and whether its callable can be
    claimed. *)
Record SpawnRequest := mk_spawn {
  sp_name : bool;
  sp_admission : ReadyAdmission;
  sp_context : Z;
  sp_parent : Z;
  sp_scope : Z;
  sp_observed : bool;
  sp_completion : bool;
  sp_transition : bool;
  sp_callable : bool;
}.

Definition ValidateSpawnBudget (limits : Limits) (admission : ReadyAdmission) (s : Scheduler) : option SpawnReason :=
  if (task_capacity limits =? 0) ||
     ((task_capacity limits <=? zlen (k_records (s_tasks s))) && (k_free (s_tasks s) =? 0))
  then Some TaskCapacityExceeded
  else match admission with
       | AdmitSpawn => if ready_queue_capacity limits <=? s_depth s then Some ReadyQueueCapacityExceeded else None
       | AdmitContinuation => None
       end.

Definition EnqueueSpawn (limits : Limits) (id : Z) (s : Scheduler) : option (bool * Scheduler) :=
  if ready_queue_capacity limits <=? s_depth s then Some (false, s) else
  '(pushed, q) ← push_back id (s_queue s);
  if (pushed : bool) then Some (true, mk_scheduler (s_tasks s) (s_ids s) q (s_depth s + 1))
  else Some (false, mk_scheduler (s_tasks s) (s_ids s) q (s_depth s)).

(** The record at [index]; anything but a queued task aborts. *)
Definition EnqueueProgress (limits : Limits) (index : Z) (s : Scheduler) : option Scheduler :=
  record ← zget (k_records (s_tasks s)) index;
  found ← Find (t_id record) (s_tasks s);
  if (t_id record =? 0) || negb (bool_decide (t_state record = Ready)) || negb (bool_decide (found = Some index)) ||
     (task_capacity limits <=? s_depth s)
  then None else
  '(pushed, q) ← push_back (t_id record) (s_queue s);
  if (pushed : bool) then Some (mk_scheduler (s_tasks s) (s_ids s) q (s_depth s + 1)) else None.

(** [record = TaskRecord{}], the id and the scope; whether it succeeded. *)
Definition MaterializePreparedSpawnTask (limits : Limits) (sp : SpawnRequest) (index : Z) (s : Scheduler)
    : option (bool * Scheduler) :=
  let '(id, ids) := IssueSpawnTaskId limits (sp_context sp) (sp_parent sp) (sp_scope sp) (s_ids s) in
  records ← zset (k_records (s_tasks s)) index
    (if id =? 0 then mk_record 0 1 Ready false 0 else mk_record id (sp_scope sp) Ready false 0);
  Some (negb (id =? 0) && sp_callable sp,
    mk_scheduler (set_records records (s_tasks s)) ids (s_queue s) (s_depth s)).

(** The failure of a spawn that has a record. *)
Definition fail_spawn (index : Z) (reuse_record : bool) (reason : SpawnReason) (s : Scheduler)
    : option ((Z + SpawnReason) * Scheduler) :=
  t ← ReleasePreparedSpawnTaskSlot index reuse_record (s_tasks s);
  Some (inr reason, set_tasks t s).

Definition EnqueuePreparedSpawnTask (limits : Limits) (admission : ReadyAdmission) (index : Z) (reuse_record : bool)
    (s : Scheduler) : option ((Z + SpawnReason) * Scheduler) :=
  record ← zget (k_records (s_tasks s)) index;
  let id := t_id record in
  '(indexed, t) ← IndexTask id index (s_tasks s);
  let s := set_tasks t s in
  if negb indexed then fail_spawn index reuse_record TaskCapacityExceeded s else
  '(queued, s) ← match admission with
                 | AdmitContinuation => s ← EnqueueProgress limits index s; Some (true, s)
                 | AdmitSpawn => EnqueueSpawn limits id s
                 end;
  if negb (queued : bool) then
    t ← ForgetTask id (s_tasks s);
    fail_spawn index reuse_record ReadyQueueCapacityExceeded (set_tasks t s)
  else Some (inl id, s).

Definition SpawnPreparedCommitted (limits : Limits) (sp : SpawnRequest) (s : Scheduler)
    : option ((Z + SpawnReason) * Scheduler) :=
  if negb (sp_name sp) then Some (inr TaskInvalid, s) else
  match ValidateSpawnBudget limits (sp_admission sp) s with
  | Some reason => Some (inr reason, s)
  | None =>
      '(reuse_record, index, t) ← ClaimSpawnTaskSlot (s_tasks s);
      let s := set_tasks t s in
      if sp_observed sp && negb (sp_completion sp) then fail_spawn index reuse_record TaskCompletionCapacity s else
      '(materialized, s) ← MaterializePreparedSpawnTask limits sp index s;
      if negb materialized then fail_spawn index reuse_record TaskCapacityExceeded s
      else if sp_observed sp && negb (sp_transition sp)
      then fail_spawn index reuse_record TaskStateTransitionInvalid s
      else EnqueuePreparedSpawnTask limits (sp_admission sp) index reuse_record s
  end.

(** ** The ready queue *)
Definition less_one (depth : Z) : Z := if depth =? 0 then 0 else depth - 1.

(** The record of [id] is ready, in the scope when one is asked for. *)
Definition ready_task (only_scope_id id : Z) (t : Tasks) : bool :=
  match Find id t with
  | Some (Some index) =>
      match zget (k_records t) index with
      | Some record => bool_decide (t_state record = Ready) && ((only_scope_id =? 0) || (t_scope_id record =? only_scope_id))
      | None => false
      end
  | _ => false
  end.

Definition pop_step (s : Scheduler) : option (flow Scheduler (Z * Scheduler)) :=
  '(popped, q) ← pop_front (s_queue s);
  match popped with
  | None => None
  | Some id =>
      let s := mk_scheduler (s_tasks s) (s_ids s) q (less_one (s_depth s)) in
      Some (if ready_task 0 id (s_tasks s) then Return (id, s) else Next s)
  end.

(** The id of a ready task, or zero; after the timers and the reactor have been polled. *)
Definition PopReady (only_scope_id : Z) (s : Scheduler) : option (Z * Scheduler) :=
  if only_scope_id =? 0 then
    r ← while_loop (S (length (q_ids (s_queue s)))) (fun s => negb (queue_empty (s_queue s))) pop_step s;
    Some (match r with Next s => (0, s) | Return v => v end)
  else
    '(taken, q) ← take_first (fun id => ready_task only_scope_id id (s_tasks s)) (s_queue s);
    Some (match taken with
          | None => (0, s)
          | Some id => (id, mk_scheduler (s_tasks s) (s_ids s) q (less_one (s_depth s)))
          end).

(** A queue without a free slot aborts. *)
Definition RestoreReadyFront (id : Z) (s : Scheduler) : option Scheduler :=
  '(restored, q) ← push_front id (s_queue s);
  if (restored : bool) then Some (mk_scheduler (s_tasks s) (s_ids s) q (s_depth s + 1)) else None.

(** [record.state = state] *)
Definition SetState (index : Z) (state : TaskState) (t : Tasks) : option Tasks :=
  record ← zget (k_records t) index;
  records ← zset (k_records t) index
    (mk_record (t_id record) (t_scope_id record) state (t_recyclable record) (t_wake_ticket record));
  Some (set_records records t).
