(* ===== verification/TaskIndexFacts.v ===== *)
(** * TaskIndexFacts: the index over the task records

    A record is reachable when its entry is on the probe path of its id before any empty
    slot. Indexing, forgetting and rebuilding keep every other record reachable, and a
    reachable record is found; stale entries, which name a record that has another id by
    now, do no harm. *)
From stdpp Require Import base numbers list option.
From Stdlib Require Import ZArith Lia.
From S2P Require Import Prelude ReadyQueue TaskTable.

(** ** Counting entries *)
Definition count_slots (p : Z -> bool) (slots : list Z) : Z := zlen (List.filter p slots).
Definition bit (b : bool) : Z := if b then 1 else 0.

Lemma count_slots_insert p slots i old v : zget slots i = Some old ->
  count_slots p (<[Z.to_nat i := v]> slots) = count_slots p slots - bit (p old) + bit (p v).
Proof.
  intros [Hi E]%zget_Some. rewrite <- (take_drop_middle _ _ _ E) at 2. rewrite insert_take_drop by (by apply lookup_lt_Some in E).
  unfold count_slots. rewrite !List.filter_app. cbn [List.filter]. destruct (p old), (p v); rewrite !zlen_app, ?zlen_cons; cbn [bit]; lia.
Qed.

Lemma count_slots_bound p slots : 0 <= count_slots p slots <= zlen slots.
Proof.
  unfold count_slots, zlen. split; [lia|]. induction slots as [|x l IH]; cbn; [lia|]. case_match; cbn; lia.
Qed.

Lemma count_slots_positive p slots i x : zget slots i = Some x -> p x = true -> 1 <= count_slots p slots.
Proof.
  intros [_ E]%zget_Some Hp. unfold count_slots. assert (x ∈ List.filter p slots) as Hin.
  { apply list_elem_of_In, filter_In. split; [apply list_elem_of_In; by eapply list_elem_of_lookup_2 | done]. }
  destruct (List.filter p slots) as [|y l]; [by apply elem_of_nil in Hin|]. rewrite zlen_cons. pose proof (zlen_nonneg l). lia.
Qed.

Lemma count_slots_all p slots : (forall i x, zget slots i = Some x -> p x = true) -> count_slots p slots = zlen slots.
Proof.
  intros H. unfold count_slots. f_equal. assert (forall x, x ∈ slots -> p x = true) as Hx.
  { intros x Hx. apply list_elem_of_lookup in Hx as [i Ei]. apply (H (Z.of_nat i)). by rewrite zget_nat. }
  clear H. induction slots as [|x l IH]; [done|]. cbn. rewrite Hx by (by left). f_equal. apply IH. intros y Hy. apply Hx. by right.
Qed.

Lemma count_slots_replicate p n x : p x = false -> count_slots p (replicate n x) = 0.
Proof. intros H. unfold count_slots. induction n as [|n IH]; [done|]. cbn. by rewrite H. Qed.

(** ** Probe paths *)
Definition probe (capacity id : Z) (k : Z) : Z := (id mod capacity + k) mod capacity.

Lemma probe_zero capacity id : 0 < capacity -> probe capacity id 0 = id mod capacity.
Proof. intros H. unfold probe. rewrite Z.add_0_r. apply Z.mod_mod. lia. Qed.
Lemma probe_next capacity id k : 0 < capacity <= U64_MAX -> (wrap64 (probe capacity id k + 1)) mod capacity = probe capacity id (k + 1).
Proof.
  intros H. unfold probe. pose proof (Z.mod_pos_bound (id mod capacity + k) capacity ltac:(lia)).
  rewrite wrap64_small by (unfold is_u64; lia). rewrite Z.add_mod_idemp_l by lia. f_equal. lia.
Qed.
Lemma probe_range capacity id k : 0 < capacity -> 0 <= probe capacity id k < capacity.
Proof. intros H. apply Z.mod_pos_bound. lia. Qed.

(** The probes reach every slot. *)
Lemma probe_onto capacity id s : 0 <= s < capacity -> exists k, 0 <= k < capacity /\ probe capacity id k = s.
Proof.
  intros Hs. pose proof (Z.mod_pos_bound id capacity ltac:(lia)). exists ((s - id mod capacity) mod capacity).
  split; [apply Z.mod_pos_bound; lia|]. unfold probe. rewrite Z.add_mod_idemp_r by lia. rewrite Z.mod_small by lia. lia.
Qed.

Definition reachable_slot (slots : list Z) (id index : Z) : Prop := exists k,
  0 <= k < zlen slots /\ zget slots (probe (zlen slots) id k) = Some (index + 1) /\
  forall j, 0 <= j < k -> zget slots (probe (zlen slots) id j) <> Some IndexEmpty.

(** Ids are not shared. *)
Definition ids_distinct (records : list TaskRecord) : Prop := forall i j r r',
  zget records i = Some r -> zget records j = Some r' -> t_id r = t_id r' -> t_id r <> 0 -> i = j.

Definition has_id (records : list TaskRecord) (id index : Z) : Prop :=
  exists r, zget records index = Some r /\ t_id r = id.

Lemma IndexMatches_spec records entry id : IndexMatches records entry id = true <->
  entry <> 0 /\ entry <> IndexDeleted /\ has_id records id (entry - 1).
Proof.
  unfold IndexMatches, IndexOccupied, has_id, IndexEmpty. rewrite within_zget, !andb_true_iff, !negb_true_iff, !Z.eqb_neq.
  destruct (zget records (entry - 1)) as [r|]; [rewrite Z.eqb_eq|]; split.
  - intros [[? ?] ?]. by repeat split; try exists r.
  - intros (? & ? & r' & [= <-] & ?). done.
  - by intros [_ ?].
  - by intros (_ & _ & r' & ? & _).
Qed.

(** ** What the index keeps *)
Record index_ok (records : list TaskRecord) (t : Tasks) : Prop := {
  io_records : k_records t = records;
  io_capacity : 0 < zlen (k_slots t) <= U64_MAX;
  io_distinct : ids_distinct records;
  io_size : k_size t = count_slots IndexOccupied (k_slots t);
  io_deleted : k_deleted t = count_slots (Z.eqb IndexDeleted) (k_slots t);
}.

(** Loops that probe. *)
Lemma probe_loop {S R} (n : Z) (P : Z -> S -> Prop) (Q : option (flow S R) -> Prop) (body : S -> Z -> option (flow S R)) st :
  0 <= n -> P 0 st ->
  (forall k st, 0 <= k < n -> P k st ->
     (exists v, body st k = Some (Return v) /\ Q (Some (Return v))) \/
     (exists st', body st k = Some (Next st') /\ P (k + 1) st')) ->
  (forall st, P n st -> Q (Some (Next st))) -> Q (for_loop body st (range 0 n)).
Proof.
  intros Hn H0 Hstep Hend. assert (forall m k st, Z.to_nat (n - k) = m -> 0 <= k <= n -> P k st -> Q (for_loop body st (range k n))) as G;
    [|by apply (G (Z.to_nat (n - 0)) 0); [|lia|]].
  induction m as [|m IH]; intros k st' Em Hk HP.
  - rewrite range_nil by lia. assert (k = n) as -> by lia. by apply Hend.
  - rewrite range_cons by lia. cbn [for_loop]. destruct (Hstep k st' ltac:(lia) HP) as [(v & -> & HQ)|(st2 & -> & HP')]; [done|].
    cbn [mbind option_bind]. apply IH; [lia | lia | done].
Qed.

Section Index.
Context {records : list TaskRecord} {t : Tasks} (H : index_ok records t).
#[local] Abbreviation slots := (k_slots t).
#[local] Abbreviation n := (zlen (k_slots t)).

Lemma slots_not_nil : bool_decide (slots = []) = false.
Proof using H. apply bool_decide_eq_false. intros E. pose proof (io_capacity _ _ H) as Hc. rewrite E in Hc. change (zlen []) with 0 in Hc. lia. Qed.

(** The entry at a probe matches the id of a record only if it is the record's. *)
Lemma match_index entry id index : id <> 0 -> has_id records id index -> IndexMatches records entry id = true -> entry = index + 1.
Proof using H.
  intros Hid (r & Er & E) (_ & _ & r' & Er' & E')%IndexMatches_spec.
  assert (index = entry - 1); [|lia]. apply (io_distinct _ _ H index (entry - 1) r r'); congruence.
Qed.

(** ** Finding *)
Lemma find_loop id : exists r, IndexFor id t = Some r /\ (r = InvalidTaskIndex \/ has_id records id r) /\
  forall index, id <> 0 -> has_id records id index -> 0 <= index < U32_MAX - 1 -> reachable_slot slots id index -> r = index.
Proof using H.
  unfold IndexFor. destruct (Z.eqb_spec id 0) as [->|Hid]; [exists InvalidTaskIndex; split; [done|]; split; [by left | done]|].
  rewrite slots_not_nil. cbn [orb]. pose proof (io_capacity _ _ H) as Hc. rewrite <- probe_zero by lia.
  apply (probe_loop n (fun k slot => slot = probe n id k /\ forall index, has_id records id index -> 0 <= index < U32_MAX - 1 ->
      reachable_slot slots id index -> exists m, k <= m < n /\ zget slots (probe n id m) = Some (index + 1) /\
        forall j, 0 <= j < m -> zget slots (probe n id j) <> Some IndexEmpty)
    (fun f => exists r, (r0 ← f; Some (match r0 with Return index => index | Next _ => InvalidTaskIndex end)) = Some r /\
      (r = InvalidTaskIndex \/ has_id records id r) /\
      forall index, id <> 0 -> has_id records id index -> 0 <= index < U32_MAX - 1 -> reachable_slot slots id index -> r = index)).
  - lia.
  - split; [done|]. intros index _ _ (m & ? & ? & ?). by exists m.
  - intros k slot Hk [-> HP]. pose proof (probe_range n id k ltac:(lia)) as Hr. destruct (zget_is_Some slots _ Hr) as [entry E].
    unfold find_probe. rewrite E. cbn [mbind option_bind]. rewrite (io_records _ _ H).
    destruct (Z.eqb_spec entry IndexEmpty) as [->|Hne].
    { left. eexists. split; [done|]. cbn [mbind option_bind]. exists InvalidTaskIndex. split; [done|]. split; [by left|].
      intros index _ Hix Hb Hrs. destruct (HP index Hix Hb Hrs) as (m & Hm & Em & Hz). exfalso.
      destruct (decide (m = k)) as [->|]; [rewrite E in Em; injection Em as Em; unfold IndexEmpty in Em; lia|]. apply (Hz k); [lia | done]. }
    destruct (IndexMatches records entry id) eqn:Em.
    { left. eexists. split; [done|]. cbn [mbind option_bind]. exists (entry - 1). split; [done|].
      split; [right; by apply IndexMatches_spec in Em as (_ & _ & ?)|]. intros index _ Hix _ _. rewrite (match_index entry id index Hid Hix Em). lia. }
    right. eexists. split; [done|]. split; [by apply probe_next|]. intros index Hix Hb Hrs. destruct (HP index Hix Hb Hrs) as (m & Hm & Emm & Hz).
    exists m. split; [|done]. destruct (decide (m = k)) as [->|]; [|lia]. rewrite E in Emm. injection Emm as ->. exfalso.
    assert (IndexMatches records (index + 1) id = true) as Hmatch; [|congruence]. apply IndexMatches_spec. unfold IndexDeleted. split; [lia|]. split; [lia|].
    by replace (index + 1 - 1) with index by lia.
  - intros slot [_ HP]. cbn [mbind option_bind]. exists InvalidTaskIndex. split; [done|]. split; [by left|]. intros index _ Hix Hb Hrs.
    destruct (HP index Hix Hb Hrs) as (m & Hm & _). lia.
Qed.

Lemma Find_ok id : exists r, Find id t = Some r /\ (forall index, r = Some index -> has_id records id index) /\
  forall index, id <> 0 -> has_id records id index -> 0 <= index < U32_MAX - 1 -> reachable_slot slots id index -> r = Some index.
Proof using H.
  unfold Find. destruct (find_loop id) as (r & -> & Hr & Hf). cbn [mbind option_bind]. rewrite within_zget, (io_records _ _ H). eexists. split; [done|]. split.
  - intros index. destruct (zget records r) as [rec|] eqn:E; [|done]. destruct (Z.eqb_spec (t_id rec) id); [|done]. intros [= <-]. by exists rec.
  - intros index Hid Hix Hb Hrs. rewrite (Hf index Hid Hix Hb Hrs). destruct Hix as (rec & -> & ->). by rewrite Z.eqb_refl.
Qed.
End Index.

(** ** Indexing *)
Lemma reachable_update slots id index s old v : zget slots s = Some old -> old <> index + 1 -> v <> IndexEmpty ->
  reachable_slot slots id index -> reachable_slot (<[Z.to_nat s := v]> slots) id index.
Proof.
  intros E Hold Hv (k & Hk & Ek & Hz). pose proof (zget_range _ _ _ E) as Hs. exists k. rewrite zlen_insert. split; [done|]. split.
  - rewrite zget_insert_ne; [done | lia|]. intros Es. rewrite Es in E. congruence.
  - intros j Hj. destruct (decide (s = probe (zlen slots) id j)) as [->|]; [rewrite zget_insert_eq by done; congruence|].
    rewrite zget_insert_ne by lia. by apply Hz.
Qed.

Lemma reachable_here slots id index k : 0 <= k < zlen slots -> index + 1 <> IndexEmpty ->
  (forall j, 0 <= j < k -> zget slots (probe (zlen slots) id j) <> Some IndexEmpty) ->
  reachable_slot (<[Z.to_nat (probe (zlen slots) id k) := index + 1]> slots) id index.
Proof.
  intros Hk Hne Hz. pose proof (probe_range (zlen slots) id k ltac:(lia)) as Hr. exists k. rewrite zlen_insert. split; [done|].
  split; [by apply zget_insert_eq|]. intros j Hj. destruct (decide (probe (zlen slots) id k = probe (zlen slots) id j)) as [E|].
  - rewrite <- E, zget_insert_eq by done. congruence.
  - rewrite zget_insert_ne by lia. by apply Hz.
Qed.

(** What adding a record to the index does. *)
Record indexed (records : list TaskRecord) (t : Tasks) (id index : Z) (t' : Tasks) : Prop := {
  ix_ok : index_ok records t';
  ix_length : zlen (k_slots t') = zlen (k_slots t);
  ix_free : k_free t' = k_free t;
  ix_reach : reachable_slot (k_slots t') id index;
  ix_other : forall id' j, j <> index -> 0 <= j < U32_MAX - 1 -> reachable_slot (k_slots t) id' j -> reachable_slot (k_slots t') id' j;
  ix_count : count_slots IndexOccupied (k_slots t) <= count_slots IndexOccupied (k_slots t') <= count_slots IndexOccupied (k_slots t) + 1;
}.

Lemma entry_kinds x : 0 <= x -> bit (IndexOccupied x) + bit (x =? IndexEmpty) + bit (IndexDeleted =? x) = 1.
Proof.
  intros _. unfold IndexOccupied, IndexEmpty, IndexDeleted. destruct (Z.eqb_spec x 0), (Z.eqb_spec x U32_MAX), (Z.eqb_spec U32_MAX x); cbn; lia.
Qed.

Section IndexTask.
Context {records : list TaskRecord} {t : Tasks} (H : index_ok records t).
Context (id index : Z) (Hid : id <> 0) (Hix : has_id records id index) (Hb : 0 <= index < U32_MAX - 1).
#[local] Abbreviation slots := (k_slots t).
#[local] Abbreviation cap := (zlen (k_slots t)).

(** A record put in a slot that is not occupied, or that is its own. *)
Lemma indexed_at k old size deleted : 0 <= k < cap -> zget slots (probe cap id k) = Some old ->
  old = IndexEmpty \/ old = IndexDeleted \/ old = index + 1 ->
  (forall j, 0 <= j < k -> zget slots (probe cap id j) <> Some IndexEmpty) ->
  size = k_size t + (if old =? index + 1 then 0 else 1) ->
  deleted = k_deleted t - (if old =? IndexDeleted then 1 else 0) ->
  indexed records t id index (set_index (<[Z.to_nat (probe cap id k) := index + 1]> slots) size deleted t).
Proof using H Hid Hix Hb.
  intros Hk E Hold Hz Hsize Hdel. unfold IndexEmpty, IndexDeleted in *.
  pose proof (count_slots_insert IndexOccupied slots _ _ (index + 1) E) as Hc1.
  pose proof (count_slots_insert (Z.eqb IndexDeleted) slots _ _ (index + 1) E) as Hc2.
  assert (IndexOccupied (index + 1) = true /\ (IndexDeleted =? index + 1) = false) as [Ho Hd].
  { unfold IndexOccupied, IndexEmpty, IndexDeleted. rewrite andb_true_iff, !negb_true_iff, !Z.eqb_neq. lia. }
  rewrite Ho in Hc1. rewrite Hd in Hc2. cbn [bit] in Hc1, Hc2.
  assert (bit (IndexOccupied old) = (if old =? index + 1 then 1 else 0) /\ bit (IndexDeleted =? old) = (if old =? IndexDeleted then 1 else 0)) as [Eo Ed].
  { unfold IndexOccupied, IndexEmpty, IndexDeleted. destruct Hold as [->|[->| ->]].
    - destruct (Z.eqb_spec 0 (index + 1)); [lia|]. done.
    - destruct (Z.eqb_spec U32_MAX (index + 1)); [lia|]. done.
    - rewrite Z.eqb_refl. destruct (Z.eqb_spec (index + 1) 0), (Z.eqb_spec (index + 1) U32_MAX), (Z.eqb_spec U32_MAX (index + 1)); lia || done. }
  rewrite Eo in Hc1. rewrite Ed in Hc2. unfold IndexDeleted in *.
  split; cbn [k_slots k_size k_deleted k_free set_index].
  - split; cbn [k_slots k_size k_deleted k_records set_index]; [apply H | rewrite zlen_insert; apply H | apply H | |].
    + rewrite Hsize, (io_size _ _ H), Hc1. destruct (old =? index + 1); lia.
    + rewrite Hdel, (io_deleted _ _ H). unfold IndexDeleted. rewrite Hc2. lia.
  - by rewrite zlen_insert.
  - done.
  - by apply reachable_here; [| unfold IndexEmpty; lia |].
  - intros id' j Hj Hjb Hrs. eapply reachable_update; [exact E | | unfold IndexEmpty; lia | exact Hrs]. lia.
  - rewrite Hc1. destruct (old =? index + 1); lia.
Qed.

Lemma IndexTask_ok : count_slots IndexOccupied slots < cap -> exists t', IndexTask id index t = Some (true, t') /\ indexed records t id index t'.
Proof using H Hid Hix Hb.
  intros Hroom. unfold IndexTask. destruct (Z.eqb_spec id 0); [done|]. rewrite (slots_not_nil H). cbn [orb].
  destruct (Z.leb_spec (IndexDeleted - 1) index); [unfold IndexDeleted in *; lia|]. rewrite wrap32_small by (unfold is_u32; lia).
  pose proof (io_capacity _ _ H) as Hc. rewrite <- probe_zero by lia.
  apply (probe_loop cap (fun k '(slot, first) => slot = probe cap id k /\
      (forall j, 0 <= j < k -> zget slots (probe cap id j) <> Some IndexEmpty) /\
      ((first = InvalidTaskIndex /\ forall j e, 0 <= j < k -> zget slots (probe cap id j) = Some e -> IndexOccupied e = true) \/
       exists m, 0 <= m < k /\ first = probe cap id m /\ first <> InvalidTaskIndex /\ zget slots first = Some IndexDeleted))
    (fun f => exists t', (r ← f; match r with
       | Return v => Some v
       | Next (_, first_deleted) =>
           if first_deleted =? InvalidTaskIndex then Some (false, t)
           else slots' ← zset slots first_deleted (index + 1);
                Some (true, set_index slots' (k_size t + 1) (wrap64 (k_deleted t - 1)) t)
       end) = Some (true, t') /\ indexed records t id index t')).
  - lia.
  - split; [done|]. split; [lia|]. left. split; [done|]. lia.
  - intros k [slot first] Hk (-> & Hz & Hfirst). pose proof (probe_range cap id k ltac:(lia)) as Hr. destruct (zget_is_Some slots _ Hr) as [entry E].
    unfold index_probe. rewrite E. cbn [mbind option_bind]. rewrite (io_records _ _ H).
    destruct (IndexMatches records entry id) eqn:Em.
    { left. rewrite zset_Some by done. cbn [mbind option_bind]. eexists. split; [done|]. cbn [mbind option_bind]. eexists. split; [done|].
      pose proof (match_index H entry id index Hid Hix Em) as ->. apply (indexed_at k (index + 1)); try done; [by right; right | rewrite Z.eqb_refl; lia |].
      unfold IndexDeleted. destruct (Z.eqb_spec (index + 1) U32_MAX); lia. }
    assert ((first =? InvalidTaskIndex) = true \/ (first =? InvalidTaskIndex) = false) as [Ef|Ef] by (by destruct (first =? InvalidTaskIndex); [left|right]).
    + rewrite Ef, andb_true_r. apply Z.eqb_eq in Ef. destruct Hfirst as [[_ Hocc]|(m & _ & _ & ? & _)]; [|done].
      destruct (Z.eqb_spec entry IndexDeleted) as [->|Hnd].
      * right. destruct (Z.eqb_spec IndexDeleted IndexEmpty) as [|_]; [done|]. eexists. split; [done|]. split; [by apply probe_next|]. split.
        -- intros j Hj. destruct (decide (j = k)) as [->|]; [rewrite E; by intros [=]|]. apply Hz. lia.
        -- right. exists k. split; [lia|]. split; [done|]. split; [unfold InvalidTaskIndex; lia | done].
      * destruct (Z.eqb_spec entry IndexEmpty) as [->|Hne].
        -- left. rewrite Ef. rewrite Z.eqb_refl. rewrite zset_Some by done. cbn [mbind option_bind]. eexists. split; [done|]. cbn [mbind option_bind].
           eexists. split; [done|]. apply (indexed_at k IndexEmpty); try done; [by left | |].
           ++ unfold IndexEmpty. destruct (Z.eqb_spec 0 (index + 1)); lia.
           ++ unfold IndexEmpty, IndexDeleted. cbn. lia.
        -- right. eexists. split; [done|]. split; [by apply probe_next|]. split.
           ++ intros j Hj. destruct (decide (j = k)) as [->|]; [rewrite E; by intros [= ->]|]. apply Hz. lia.
           ++ left. split; [done|]. intros j e Hj Ee. destruct (decide (j = k)) as [->|]; [|apply (Hocc j); [lia|done]].
              rewrite E in Ee. injection Ee as <-. unfold IndexOccupied. rewrite andb_true_iff, !negb_true_iff, !Z.eqb_neq. done.
    + rewrite Ef, andb_false_r. apply Z.eqb_neq in Ef. destruct Hfirst as [[? _]|(m & Hm & -> & Hfi & Efi)]; [done|].
      destruct (Z.eqb_spec entry IndexEmpty) as [->|Hne].
      * left. destruct (Z.eqb_spec (probe cap id m) InvalidTaskIndex); [done|]. pose proof (probe_range cap id m ltac:(lia)).
        rewrite zset_Some by done. cbn [mbind option_bind]. eexists. split; [done|]. cbn [mbind option_bind]. eexists. split; [done|].
        apply (indexed_at m IndexDeleted); try done; [lia | by right; left | intros j Hj; apply Hz; lia | |].
        -- unfold IndexDeleted. destruct (Z.eqb_spec U32_MAX (index + 1)); lia.
        -- rewrite Z.eqb_refl. pose proof (count_slots_positive (Z.eqb IndexDeleted) slots _ _ Efi ltac:(done)). rewrite <- (io_deleted _ _ H) in *.
           pose proof (count_slots_bound (Z.eqb IndexDeleted) slots) as Hbd. rewrite <- (io_deleted _ _ H) in Hbd.
           apply wrap64_small. unfold is_u64. lia.
      * right. eexists. split; [done|]. split; [by apply probe_next|]. split.
        -- intros j Hj. destruct (decide (j = k)) as [->|]; [rewrite E; by intros [= ->]|]. apply Hz. lia.
        -- right. exists m. split; [lia|]. done.
  - intros [slot first] (_ & Hz & Hfirst). cbn [mbind option_bind]. destruct (Z.eqb_spec first InvalidTaskIndex) as [Ef|Ef].
    + exfalso. destruct Hfirst as [[_ Hocc]|(m & _ & _ & ? & _)]; [|done]. enough (count_slots IndexOccupied slots = cap) by lia.
      apply count_slots_all. intros i x Ei. destruct (probe_onto cap id i (zget_range _ _ _ Ei)) as (k & Hk & <-). by apply (Hocc k).
    + destruct Hfirst as [[? _]|(m & Hm & -> & Hfi & Efi)]; [done|]. pose proof (probe_range cap id m ltac:(lia)).
      rewrite zset_Some by done. cbn [mbind option_bind]. eexists. split; [done|].
      apply (indexed_at m IndexDeleted); try done; [by right; left | intros j Hj; apply Hz; lia | |].
      * unfold IndexDeleted. destruct (Z.eqb_spec U32_MAX (index + 1)); lia.
      * rewrite Z.eqb_refl. pose proof (count_slots_positive (Z.eqb IndexDeleted) slots _ _ Efi ltac:(done)). rewrite <- (io_deleted _ _ H) in *.
        pose proof (count_slots_bound (Z.eqb IndexDeleted) slots) as Hbd. rewrite <- (io_deleted _ _ H) in Hbd.
        apply wrap64_small. unfold is_u64. lia.
Qed.
End IndexTask.

(** ** Rebuilding *)
Lemma index_ok_clear records t deleted : index_ok records t -> deleted = 0 ->
  index_ok records (set_index (replicate (length (k_slots t)) IndexEmpty) 0 deleted t).
Proof.
  intros [H1 H2 H3 _ _] ->. split; cbn [k_records k_slots k_size k_deleted set_index]; try done.
  - rewrite zlen_replicate. exact H2.
  - by rewrite count_slots_replicate.
  - by rewrite count_slots_replicate.
Qed.

Lemma RebuildTaskIndex_ok records t retired : index_ok records t -> zlen records < zlen (k_slots t) -> zlen records <= U32_MAX - 1 ->
  exists t', RebuildTaskIndex retired t = Some t' /\ index_ok records t' /\ zlen (k_slots t') = zlen (k_slots t) /\ k_free t' = k_free t /\
    count_slots IndexOccupied (k_slots t') <= zlen records /\
    forall j r, zget records j = Some r -> t_id r <> 0 -> t_id r <> retired -> reachable_slot (k_slots t') (t_id r) j.
Proof.
  intros H Hroom Hsize. unfold RebuildTaskIndex. rewrite (io_records _ _ H). pose proof (zlen_nonneg records) as Hpos.
  destruct (for_each_inv (fun d t' => index_ok records t' /\ zlen (k_slots t') = zlen (k_slots t) /\ k_free t' = k_free t /\
    count_slots IndexOccupied (k_slots t') <= zlen d /\
    forall j r, 0 <= j < zlen d -> zget records j = Some r -> t_id r <> 0 -> t_id r <> retired -> reachable_slot (k_slots t') (t_id r) j)
    (rebuild_one retired) (range 0 (zlen records)) (set_index (replicate (length (k_slots t)) IndexEmpty) 0 0 t))
    as (t' & -> & H1 & H2 & H3 & H4 & H5).
  - split; [by apply index_ok_clear|]. cbn [k_slots k_free set_index]. split; [apply zlen_replicate|]. split; [done|].
    rewrite count_slots_replicate by done. change (zlen []) with 0. split; [lia|]. lia.
  - intros d i rest t1 E (H1 & H2 & H3 & H4 & H5). pose proof (zlen_nonneg d).
    assert (zget (range 0 (zlen records)) (zlen d) = Some i) as Hi by (rewrite E; by apply zget_app_mid).
    assert (zlen d < zlen records) by (apply zget_range in Hi; rewrite zlen_range in Hi by lia; lia).
    rewrite zget_range_ix in Hi by lia. injection Hi as <-. rewrite Z.add_0_l. unfold rebuild_one. rewrite (io_records _ _ H1).
    destruct (zget_is_Some records (zlen d) ltac:(lia)) as [r Er]. rewrite Er. cbn [mbind option_bind].
    rewrite zlen_app. change (zlen [zlen d]) with 1.
    destruct (Z.eqb_spec (t_id r) 0) as [E0|Hne]; cbn [negb andb].
    { exists t1. split; [done|]. split; [done|]. split; [done|]. split; [done|]. split; [lia|]. intros j r' Hj Er' Hn0 Hnr.
      destruct (decide (j = zlen d)) as [->|]; [congruence | apply H5; [lia | done..]]. }
    destruct (Z.eqb_spec (t_id r) retired) as [E0|Hnr]; cbn [negb].
    { exists t1. split; [done|]. split; [done|]. split; [done|]. split; [done|]. split; [lia|]. intros j r' Hj Er' Hn0 Hnr.
      destruct (decide (j = zlen d)) as [->|]; [congruence | apply H5; [lia | done..]]. }
    destruct (IndexTask_ok H1 (t_id r) (zlen d) Hne) as (t2 & -> & [I1 I2 I3 I4 I5 I6]); [by exists r | lia | lia |].
    cbn [mbind option_bind]. exists t2. split; [done|]. split; [done|]. split; [congruence|]. split; [congruence|]. split; [lia|].
    intros j r' Hj Er' Hn0 Hnr'. destruct (decide (j = zlen d)) as [->|]; [congruence|]. apply I5; [done | lia | apply H5; [lia | done..]].
  - exists t'. rewrite zlen_range in H4, H5 by lia. rewrite Z.sub_0_r in *. split; [done|]. split; [done|]. split; [done|]. split; [done|]. split; [done|].
    intros j r Er. apply H5; [by eapply zget_range | done].
Qed.

(** ** Forgetting *)
Record forgotten (records : list TaskRecord) (t : Tasks) (index : Z) (t' : Tasks) : Prop := {
  fg_ok : index_ok records t';
  fg_length : zlen (k_slots t') = zlen (k_slots t);
  fg_free : k_free t' = k_free t;
  fg_other : forall id' j, id' <> 0 -> j <> index -> 0 <= j < U32_MAX - 1 -> has_id records id' j ->
    reachable_slot (k_slots t) id' j -> reachable_slot (k_slots t') id' j;
  fg_count : count_slots IndexOccupied (k_slots t') <= count_slots IndexOccupied (k_slots t) - 1 \/
    count_slots IndexOccupied (k_slots t') <= zlen records;
}.

Section ForgetTask.
Context {records : list TaskRecord} {t : Tasks} (H : index_ok records t).
Context (id index : Z) (Hid : id <> 0) (Hix : has_id records id index) (Hb : 0 <= index < U32_MAX - 1).
Context (Hroom : zlen records < zlen (k_slots t)) (Hsize : zlen records <= U32_MAX - 1).
#[local] Abbreviation slots := (k_slots t).
#[local] Abbreviation cap := (zlen (k_slots t)).

Lemma forgotten_at s : zget slots s = Some (index + 1) ->
  let slots' := <[Z.to_nat s := IndexDeleted]> slots in
  let size := wrap64 (k_size t - 1) in
  let deleted := k_deleted t + 1 in
  exists t', (if size =? 0 then Some (Return (set_index (replicate (length slots') IndexEmpty) size 0 t))
    else if (size <? deleted) && ((cap + 3) / 4 <=? deleted) then
      t ← RebuildTaskIndex id (set_index slots' size deleted t);
      Some (Return t)
    else Some (Return (set_index slots' size deleted t))) = Some (Return (R := Tasks) (S := Z) t') /\ forgotten records t index t'.
Proof using H Hid Hix Hb Hroom Hsize.
  intros E slots' size deleted.
  pose proof (count_slots_insert IndexOccupied slots _ _ IndexDeleted E) as Hc1.
  pose proof (count_slots_insert (Z.eqb IndexDeleted) slots _ _ IndexDeleted E) as Hc2. fold slots' in Hc1, Hc2.
  assert (IndexOccupied (index + 1) = true /\ (IndexDeleted =? index + 1) = false) as [Ho Hd].
  { unfold IndexOccupied, IndexEmpty, IndexDeleted. rewrite andb_true_iff, !negb_true_iff, !Z.eqb_neq. lia. }
  rewrite Ho in Hc1. rewrite Hd in Hc2. change (IndexOccupied IndexDeleted) with false in Hc1. change (IndexDeleted =? IndexDeleted) with true in Hc2. cbn [bit] in Hc1, Hc2.
  pose proof (count_slots_bound IndexOccupied slots') as Hb1. pose proof (io_capacity _ _ H) as Hcap.
  assert (zlen slots' = cap) as Hlen by (unfold slots'; by rewrite zlen_insert).
  assert (size = count_slots IndexOccupied slots') as Es by (unfold size; rewrite (io_size _ _ H); rewrite wrap64_small by (unfold is_u64; lia); lia).
  assert (index_ok records (set_index slots' size deleted t)) as Hok.
  { split; cbn [k_records k_slots k_size k_deleted set_index]; [apply H | lia | apply H | done |]. unfold deleted. rewrite (io_deleted _ _ H). lia. }
  assert (forall id' j, j <> index -> reachable_slot slots id' j -> reachable_slot slots' id' j) as Hother.
  { intros id' j Hj Hrs. eapply reachable_update; [exact E | lia | done | done]. }
  destruct (Z.eqb_spec size 0) as [E0|Hne].
  - eexists. split; [reflexivity|]. rewrite E0. replace (length slots') with (length slots) by (unfold slots'; by rewrite length_insert).
    pose proof (index_ok_clear records t 0 H eq_refl) as Hcl. split; cbn [k_slots k_free set_index]; try done.
    + apply zlen_replicate.
    + intros id' j _ Hj Hjb _ Hrs. exfalso. destruct (Hother id' j Hj Hrs) as (k & _ & Ek & _).
      assert (IndexOccupied (j + 1) = true) as Hoj by (unfold IndexOccupied, IndexEmpty, IndexDeleted; rewrite andb_true_iff, !negb_true_iff, !Z.eqb_neq; lia).
      pose proof (count_slots_positive IndexOccupied slots' _ _ Ek Hoj). lia.
    + right. rewrite count_slots_replicate by done. apply zlen_nonneg.
  - destruct (_ && _).
    + destruct (RebuildTaskIndex_ok records _ id Hok) as (t' & -> & R1 & R2 & R3 & R4 & R5); cbn [k_slots k_free set_index] in *; [lia | done |].
      cbn [mbind option_bind]. eexists. split; [reflexivity|]. split; try done; [lia | | by right].
      intros id' j Hid' Hj _ (r & Er & Eid) _. rewrite <- Eid. apply R5; [done | congruence |]. intros Er'. apply Hj.
      destruct Hix as (r0 & Er0 & Eid0). symmetry. apply (io_distinct _ _ H index j r0 r); congruence.
    + eexists. split; [reflexivity|]. split; cbn [k_slots k_free set_index]; try done; [by intros; apply Hother | left; lia].
Qed.

Lemma ForgetTask_ok : reachable_slot slots id index -> exists t', ForgetTask id t = Some t' /\ forgotten records t index t'.
Proof using H Hid Hix Hb Hroom Hsize.
  intros Hrs. unfold ForgetTask. destruct (Z.eqb_spec id 0) as [|_]; [done|]. rewrite (slots_not_nil H). cbn [orb].
  pose proof (io_capacity _ _ H) as Hc. rewrite <- probe_zero by lia. destruct Hrs as (m & Hm & Em & Hz).
  apply (probe_loop cap (fun k slot => slot = probe cap id k /\ k <= m)
    (fun f => exists t', (r ← f; Some (match r with Return t' => t' | Next _ => t end)) = Some t' /\ forgotten records t index t')).
  - lia.
  - split; [done | lia].
  - intros k slot Hk [-> Hkm]. pose proof (probe_range cap id k ltac:(lia)) as Hr. destruct (zget_is_Some slots _ Hr) as [entry E].
    unfold forget_probe. rewrite E. cbn [mbind option_bind]. rewrite (io_records _ _ H).
    destruct (Z.eqb_spec entry IndexEmpty) as [->|Hne].
    { exfalso. destruct (decide (k = m)) as [->|]; [rewrite E in Em; injection Em as Em; unfold IndexEmpty in Em; lia|]. apply (Hz k); [lia | done]. }
    destruct (IndexMatches records entry id) eqn:Ematch.
    + left. pose proof (match_index H entry id index Hid Hix Ematch) as ->. rewrite zset_Some by done. cbn [mbind option_bind].
      destruct (forgotten_at _ E) as (t' & Et & Hf). eexists. split; [exact Et|]. cbn [mbind option_bind]. by exists t'.
    + right. eexists. split; [done|]. split; [by apply probe_next|]. destruct (decide (k = m)) as [->|]; [|lia].
      exfalso. rewrite E in Em. injection Em as ->. assert (IndexMatches records (index + 1) id = true); [|congruence].
      apply IndexMatches_spec. unfold IndexDeleted. split; [lia|]. split; [lia|]. by replace (index + 1 - 1) with index by lia.
  - intros slot [_ ?]. lia.
Qed.
End ForgetTask.

(** ** The task records keep their index, their free list and their ids

    The invariant of the table, also while one record is being set up (the hole), and
    that claiming, releasing, indexing, forgetting and retiring a record keep it. *)
(** ** The free records *)
Fixpoint free_chain (records : list TaskRecord) (head : Z) (chain : list Z) : Prop :=
  match chain with
  | [] => head = 0
  | x :: chain => head = x /\ exists r, zget records (x - 1) = Some r /\ is_u32 (t_wake_ticket r) /\ free_chain records (t_wake_ticket r) chain
  end.

Lemma free_chain_head records head chain : free_chain records head chain -> head = List.hd 0 chain.
Proof. destruct chain; cbn; [done | by intros [-> _]]. Qed.

Lemma free_chain_range records head chain x : free_chain records head chain -> x ∈ chain -> 1 <= x <= zlen records.
Proof.
  revert head. induction chain as [|y chain IH]; intros head H Hx; [by apply elem_of_nil in Hx|]. destruct H as [_ (r & E & _ & H)].
  apply elem_of_cons in Hx as [->|Hx]; [|by eapply IH]. apply zget_range in E. lia.
Qed.

(** Records outside the chain do not matter to it. *)
Lemma free_chain_frame records records' head chain :
  (forall x, x ∈ chain -> zget records' (x - 1) = zget records (x - 1)) -> free_chain records head chain -> free_chain records' head chain.
Proof.
  revert head. induction chain as [|x chain IH]; intros head Heq H; [done|]. destruct H as [-> (r & E & Hu & H)].
  split; [done|]. exists r. rewrite Heq by (by left). split; [done|]. split; [done|]. apply IH; [|done]. intros y Hy. apply Heq. by right.
Qed.

(** ** Live records *)
Definition live_at (records : list TaskRecord) (i : Z) : bool :=
  match zget records i with Some r => negb (t_recyclable r) | None => false end.
Definition settled_at (hole : option Z) (i : Z) : bool := bool_decide (hole <> Some i).

(** The live records other than the hole. *)
Definition busy (records : list TaskRecord) (hole : option Z) : Z :=
  zlen (List.filter (fun i => live_at records i && settled_at hole i) (range 0 (zlen records))).

Lemma busy_bound records hole : 0 <= busy records hole <= zlen records.
Proof.
  unfold busy. split; [apply zlen_nonneg|]. pose proof (filter_length_le (fun i => live_at records i && settled_at hole i) (range 0 (zlen records))) as H.
  rewrite length_range in H. unfold zlen in *. lia.
Qed.

(** Changing the record of the hole does not change the others. *)
Lemma busy_frame records records' hole : zlen records' = zlen records ->
  (forall i, settled_at hole i = true -> zget records' i = zget records i) -> busy records' hole = busy records hole.
Proof.
  intros Hlen Heq. unfold busy. rewrite Hlen. f_equal. apply filter_ext. intros i. destruct (settled_at hole i) eqn:E; [|by rewrite !andb_false_r].
  unfold live_at. by rewrite Heq.
Qed.

Lemma filter_one (p q : Z -> bool) (l : list Z) x : NoDup l -> x ∈ l -> p x = true -> q x = false ->
  (forall y, y <> x -> q y = p y) -> zlen (List.filter p l) = zlen (List.filter q l) + 1.
Proof.
  induction l as [|y l IH]; intros Hnd Hx Hp Hq Heq; [by apply elem_of_nil in Hx|]. apply list.NoDup_cons in Hnd as [Hy Hnd]. cbn [List.filter].
  destruct (decide (y = x)) as [->|Hne].
  - rewrite Hp, Hq, zlen_cons. f_equal. f_equal. apply filter_ext_in. intros z Hz. symmetry. apply Heq. intros ->. by apply Hy, list_elem_of_In.
  - rewrite (Heq y Hne). apply elem_of_cons in Hx as [->|Hx]; [done|]. specialize (IH Hnd Hx Hp Hq Heq). destruct (p y); rewrite ?zlen_cons; lia.
Qed.

(** Closing the hole over a live record, and opening it. *)
Lemma busy_close records i : live_at records i = true -> busy records None = busy records (Some i) + 1.
Proof.
  intros Hl. assert (0 <= i < zlen records) as Hi by (unfold live_at in Hl; destruct (zget records i) eqn:E; [by eapply zget_range | done]).
  unfold busy. apply (filter_one _ _ _ i).
  - apply NoDup_seqZ.
  - apply elem_of_range. lia.
  - by rewrite Hl.
  - unfold settled_at. rewrite bool_decide_eq_false_2 by auto. by rewrite andb_false_r.
  - intros y Hy. unfold settled_at. rewrite !bool_decide_eq_true_2; [done | done | congruence].
Qed.
Lemma busy_open_free records i : live_at records i = false -> busy records None = busy records (Some i).
Proof.
  intros Hl. unfold busy. f_equal. apply filter_ext. intros j. unfold settled_at. rewrite (bool_decide_eq_true_2 (None <> Some j)) by done.
  destruct (decide (j = i)) as [->|]; [by rewrite Hl|]. rewrite bool_decide_eq_true_2 by congruence. done.
Qed.

Lemma busy_snoc records r hole : busy (records ++ [r]) hole = busy records hole +
  (if negb (t_recyclable r) && settled_at hole (zlen records) then 1 else 0).
Proof.
  unfold busy. rewrite zlen_app. change (zlen [r]) with 1. pose proof (zlen_nonneg records). rewrite range_snoc by lia.
  rewrite List.filter_app, zlen_app. f_equal.
  - f_equal. apply filter_ext_in. intros i Hi. apply list_elem_of_In, elem_of_range in Hi. unfold live_at. by rewrite zget_app_l by lia.
  - cbn [List.filter]. unfold live_at. rewrite zget_app_mid by done. by destruct (_ && _).
Qed.

(** ** The invariant *)
Record table_ok (capacity fresh : Z) (hole : option Z) (t : Tasks) : Prop := {
  tk_capacity : 0 <= capacity <= U32_MAX - 1;
  tk_index : index_ok (k_records t) t;
  tk_slots : zlen (k_slots t) = 2 * capacity + 1;
  tk_records : zlen (k_records t) <= capacity;
  tk_chain : exists chain, free_chain (k_records t) (k_free t) chain /\ NoDup chain /\
    forall i r, zget (k_records t) i = Some r -> i + 1 ∈ chain <-> t_recyclable r = true /\ settled_at hole i = true;
  tk_live : forall i r, zget (k_records t) i = Some r -> t_recyclable r = false -> settled_at hole i = true ->
    t_id r <> 0 /\ reachable_slot (k_slots t) (t_id r) i;
  tk_count : count_slots IndexOccupied (k_slots t) <= capacity + busy (k_records t) hole;
  tk_fresh : forall i r, zget (k_records t) i = Some r -> 0 <= t_id r < fresh;
}.

(** The records other than one are the same. *)
Definition same_but (index : Z) (t t' : Tasks) : Prop := forall i, i <> index -> zget (k_records t') i = zget (k_records t) i.

Lemma settled_at_None i : settled_at None i = true.
Proof. by apply bool_decide_eq_true_2. Qed.
Lemma settled_at_Some j i : settled_at (Some j) i = true <-> i <> j.
Proof. unfold settled_at. rewrite bool_decide_eq_true. split; intros H; congruence. Qed.

Section Table.
Context {capacity fresh : Z} {t : Tasks}.

Lemma zlen_chain chain : free_chain (k_records t) (k_free t) chain -> k_free t = 0 -> chain = [].
Proof.
  intros H E. destruct chain as [|x chain]; [done|]. pose proof (free_chain_range _ _ _ x H ltac:(by left)). destruct H as [E2 _]. lia.
Qed.

Lemma ids_distinct_insert records index r : ids_distinct records -> (forall i r', zget records i = Some r' -> i <> index -> t_id r' = t_id r -> t_id r = 0) ->
  0 <= index < zlen records -> ids_distinct (<[Z.to_nat index := r]> records).
Proof.
  intros Hd Hnew Hr i j a b Ea Eb Hab Hne. destruct (decide (i = index)) as [->|Hi], (decide (j = index)) as [->|Hj]; [done | | |].
  - rewrite zget_insert_eq in Ea by done. injection Ea as <-. rewrite zget_insert_ne in Eb by lia. exfalso. apply Hne. by apply (Hnew j b).
  - rewrite zget_insert_eq in Eb by done. injection Eb as <-. rewrite zget_insert_ne in Ea by lia. exfalso. apply Hne. rewrite Hab. by apply (Hnew i a).
  - rewrite zget_insert_ne in Ea, Eb by lia. by apply (Hd i j a b).
Qed.

Lemma index_ok_records records' : index_ok (k_records t) t -> ids_distinct records' -> index_ok records' (set_records records' t).
Proof. intros [H1 H2 H3 H4 H5] Hd. by split. Qed.

Lemma index_ok_any t' : index_ok (k_records t) t -> k_slots t' = k_slots t -> k_size t' = k_size t -> k_deleted t' = k_deleted t ->
  ids_distinct (k_records t') -> index_ok (k_records t') t'.
Proof. intros [H1 H2 H3 H4 H5] E1 E2 E3 Hd. split; rewrite ?E1, ?E2, ?E3; done. Qed.

(** The record of the hole is set to one with a new id, or without one. *)
Lemma set_hole index r fresh' : table_ok capacity fresh (Some index) t -> 0 <= index < zlen (k_records t) ->
  t_id r = 0 \/ fresh <= t_id r -> 0 <= t_id r < fresh' -> fresh <= fresh' ->
  table_ok capacity fresh' (Some index) (set_records (<[Z.to_nat index := r]> (k_records t)) t).
Proof.
  intros [H1 H2 H3 H4 (chain & Hc & Hnd & Hin) H6 H7 H8] Hi Hid Hf Hle.
  assert (forall i, i <> index -> zget (<[Z.to_nat index := r]> (k_records t)) i = zget (k_records t) i) as Hother by (intros i Hne; apply zget_insert_ne; lia).
  split; cbn [k_records k_slots k_free set_records]; try done.
  - apply index_ok_records; [done|]. apply ids_distinct_insert; [apply H2 | | done]. intros i r' E _ Eid. pose proof (H8 i r' E). lia.
  - by rewrite zlen_insert.
  - exists chain. assert (forall x, x ∈ chain -> x - 1 <> index) as Hx.
    { intros x Hx E. pose proof (free_chain_range _ _ _ x Hc Hx). destruct (zget_is_Some (k_records t) (x - 1) ltac:(lia)) as [rx Ex].
      assert (x - 1 + 1 ∈ chain) as Hx' by (by replace (x - 1 + 1) with x by lia). apply (Hin _ _ Ex) in Hx' as [_ Hs]. by apply settled_at_Some in Hs. }
    split; [|split; [done|]].
    + eapply free_chain_frame; [|exact Hc]. intros x Hx'. apply Hother. by apply Hx.
    + intros i r' E. destruct (decide (i = index)) as [->|Hne].
      * split; [intros Hin'; exfalso; apply (Hx _ Hin'); lia | intros [_ Hs]; by apply settled_at_Some in Hs].
      * rewrite Hother in E by done. by apply Hin.
  - intros i r' E Hr Hs. pose proof Hs as Hne. apply settled_at_Some in Hne. rewrite Hother in E by done. by apply H6.
  - rewrite (busy_frame (k_records t)); [done | by rewrite zlen_insert|]. intros i Hs%settled_at_Some. by rewrite Hother.
  - intros i r' E. destruct (decide (i = index)) as [->|Hne]; [rewrite zget_insert_eq in E by done; injection E as <-; done|].
    rewrite Hother in E by done. pose proof (H8 i r' E). lia.
Qed.

(** ** Claiming and releasing a record *)
Lemma claim_table : table_ok capacity fresh None t -> zlen (k_records t) < capacity \/ k_free t <> 0 ->
  0 < fresh ->
  exists reuse index t', ClaimSpawnTaskSlot t = Some (reuse, index, t') /\ table_ok capacity fresh (Some index) t' /\
    0 <= index < zlen (k_records t') /\ (reuse = false -> index = zlen (k_records t') - 1) /\ same_but index t t' /\
    live_at (k_records t) index = false.
Proof.
  intros [H1 H2 H3 H4 (chain & Hc & Hnd & Hin) H6 H7 H8] Hroom Hfresh. unfold ClaimSpawnTaskSlot.
  destruct (Z.eqb_spec (k_free t) 0) as [E0|Hne]; cbn [negb].
  - assert (zlen (k_records t) < capacity) as Hlt by lia. pose proof (zlen_nonneg (k_records t)) as Hpos. clear Hroom.
    do 3 eexists. split; [reflexivity|]. set (records := k_records t) in *.
    assert (forall i, i <> zlen records -> zget (records ++ [NewRecord]) i = zget records i) as Hother.
    { intros i Hi. destruct (Z.lt_total i (zlen records)) as [|[|]]; [by apply zget_app_l | done |]. rewrite zget_app_ge by lia.
      unfold zget, zlen in *. destruct (Z.leb_spec 0 (i - Z.of_nat (length records))), (Z.leb_spec 0 i); try lia.
      rewrite (lookup_ge_None_2 records) by lia. apply lookup_ge_None_2. cbn. lia. }
    assert (live_at records (zlen records) = false) as Hdead.
    { unfold live_at. destruct (zget records (zlen records)) eqn:E; [|done]. apply zget_range in E. lia. }
    assert (zlen (records ++ [NewRecord]) = zlen records + 1) as Hlen by (by rewrite zlen_app).
    split; [|split; [cbn; lia|]; split; [intros _; cbn; lia|]; split; [exact Hother | done]].
    assert (chain = []) as -> by (by apply zlen_chain).
    split; cbn [k_records k_slots k_free set_records]; try done; try lia.
    + apply index_ok_records; [exact H2|]. intros i j a b Ea Eb Hab Hid.
      destruct (decide (i = zlen records)) as [->|Hi]; [rewrite zget_app_mid in Ea by done; by injection Ea as <-|].
      destruct (decide (j = zlen records)) as [->|Hj]; [rewrite zget_app_mid in Eb by done; injection Eb as <-; by rewrite Hab in Hid|].
      rewrite Hother in Ea, Eb by done. by apply (io_distinct _ _ H2 i j a b).
    + exists []. split; [done|]. split; [done|]. intros i r E. destruct (decide (i = zlen records)) as [->|Hi].
      * rewrite zget_app_mid in E by done. injection E as <-. split; [intros Hx; by apply elem_of_nil in Hx | by intros [? _]].
      * rewrite Hother in E by done. rewrite (Hin i r E), settled_at_None, settled_at_Some. split; intros [? _]; by split.
    + intros i r E Hr Hs%settled_at_Some. rewrite Hother in E by done. apply H6; [done | done | apply settled_at_None].
    + rewrite busy_snoc. assert (settled_at (Some (zlen records)) (zlen records) = false) as -> by (by apply bool_decide_eq_false_2; intros []).
      rewrite andb_false_r, Z.add_0_r. by rewrite <- busy_open_free.
    + intros i r E. destruct (decide (i = zlen records)) as [->|Hi]; [rewrite zget_app_mid in E by done; injection E as <-; cbn; lia|].
      rewrite Hother in E by done. by apply (H8 i).
  - destruct chain as [|x chain]; [done|]. destruct Hc as [Ex (r & Er & Hu & Hc)]. rewrite Ex, Er. cbn [mbind option_bind].
    pose proof (zget_range _ _ _ Er) as Hr. rewrite zset_Some by done. cbn [mbind option_bind]. rewrite (wrap32_small (t_wake_ticket r)) by done.
    do 3 eexists. split; [reflexivity|]. set (records := k_records t) in *. set (r' := mk_record _ _ _ _ _).
    assert (forall i, i <> x - 1 -> zget (<[Z.to_nat (x - 1) := r']> records) i = zget records i) as Hother by (intros i Hi; apply zget_insert_ne; lia).
    assert (t_recyclable r = true) as Hrec.
    { assert (x - 1 + 1 ∈ x :: chain) as Hx by (replace (x - 1 + 1) with x by lia; by left). by apply (Hin _ _ Er) in Hx as [? _]. }
    assert (live_at records (x - 1) = false) as Hdead by (unfold live_at; by rewrite Er, Hrec).
    apply list.NoDup_cons in Hnd as [Hx Hnd].
    split; [|split; [cbn; rewrite zlen_insert; done|]; split; [done|]; split; [exact Hother | done]].
    assert (forall y, y ∈ chain -> y - 1 <> x - 1) as Hne' by (intros y Hy E; apply Hx; by replace x with y by lia).
    split; cbn [k_records k_slots k_free set_records set_free]; try done.
    + match goal with |- index_ok _ ?t' => apply (index_ok_any t' H2 eq_refl eq_refl eq_refl) end. intros i j a b Ea Eb Hab Hid.
      assert (forall k a, zget (<[Z.to_nat (x - 1) := r']> records) k = Some a -> exists a', zget records k = Some a' /\ t_id a' = t_id a) as Hsame.
      { intros k a' E. destruct (decide (k = x - 1)) as [->|]; [rewrite zget_insert_eq in E by done; injection E as <-; by exists r|].
        rewrite Hother in E by done. by exists a'. }
      destruct (Hsame i a Ea) as (a' & Ea' & Eia). destruct (Hsame j b Eb) as (b' & Eb' & Eib). apply (io_distinct _ _ H2 i j a' b'); congruence.
    + by rewrite zlen_insert.
    + exists chain. split; [|split; [done|]].
      * eapply free_chain_frame; [|exact Hc]. intros y Hy. apply Hother. by apply Hne'.
      * intros i ri E. destruct (decide (i = x - 1)) as [->|Hi].
        -- split; [intros Hi; exfalso; apply (Hne' _ Hi); lia | intros [_ Hs]; by apply settled_at_Some in Hs].
        -- rewrite Hother in E by done. rewrite settled_at_Some. pose proof (Hin i ri E) as Hii. rewrite settled_at_None, elem_of_cons in Hii.
           split; [intros Hi'; split; [apply Hii; by right | done] | intros [Hr' _]; destruct (proj2 Hii (conj Hr' eq_refl)) as [E2|]; [lia | done]].
    + intros i ri E Hri Hs%settled_at_Some. rewrite Hother in E by done. apply H6; [done | done | apply settled_at_None].
    + rewrite (busy_frame records); [by rewrite <- busy_open_free | by rewrite zlen_insert|]. intros i Hs%settled_at_Some. by apply Hother.
    + intros i ri E. destruct (decide (i = x - 1)) as [->|Hi]; [rewrite zget_insert_eq in E by done; injection E as <-; by apply (H8 (x - 1) r)|].
      rewrite Hother in E by done. by apply (H8 i).
Qed.

(** A record of the hole that becomes the first of the free ones. *)
Lemma free_hole index r0 r : table_ok capacity fresh (Some index) t -> zget (k_records t) index = Some r0 ->
  t_recyclable r = true -> t_wake_ticket r = k_free t -> t_id r = 0 \/ t_id r = t_id r0 ->
  table_ok capacity fresh None (set_free (wrap32 (index + 1)) (set_records (<[Z.to_nat index := r]> (k_records t)) t)).
Proof.
  intros [H1 H2 H3 H4 (chain & Hc & Hnd & Hin) H6 H7 H8] E0 Hrec Htick Hid. pose proof (zget_range _ _ _ E0) as Hi.
  set (records := k_records t) in *.
  assert (forall i, i <> index -> zget (<[Z.to_nat index := r]> records) i = zget records i) as Hother by (intros i Hne; apply zget_insert_ne; lia).
  pose proof (H8 index r0 E0) as Hf0. pose proof (zlen_nonneg records). rewrite wrap32_small by (unfold is_u32; lia).
  split; cbn [k_records k_slots k_free set_records set_free]; try done.
  - match goal with |- index_ok _ ?t' => apply (index_ok_any t' H2 eq_refl eq_refl eq_refl) end. intros i j a b Ea Eb Hab Hne.
    assert (forall k a, zget (<[Z.to_nat index := r]> records) k = Some a -> t_id a <> 0 -> exists a', zget records k = Some a' /\ t_id a' = t_id a) as Hsame.
    { intros k a' E Ha. destruct (decide (k = index)) as [->|]; [|rewrite Hother in E by done; by exists a'].
      rewrite zget_insert_eq in E by done. injection E as <-. exists r0. destruct Hid; [done|]. done. }
    destruct (Hsame i a Ea Hne) as (a' & Ea' & Eia). destruct (Hsame j b Eb ltac:(congruence)) as (b' & Eb' & Eib). apply (io_distinct _ _ H2 i j a' b'); congruence.
  - by rewrite zlen_insert.
  - assert (index + 1 ∉ chain) as Hn by (intros Hx; apply (Hin _ _ E0) in Hx as [_ Hs]; by apply settled_at_Some in Hs).
    assert (is_u32 (k_free t)) as Hu.
    { rewrite (free_chain_head _ _ _ Hc). destruct chain as [|x chain]; [done|]. pose proof (free_chain_range _ _ _ x Hc ltac:(by left)). cbn. unfold is_u32. lia. }
    exists (index + 1 :: chain). split; [|split; [by apply list.NoDup_cons|]].
    + split; [done|]. exists r. replace (index + 1 - 1) with index by lia. rewrite zget_insert_eq by done. split; [done|]. rewrite Htick. split; [done|].
      eapply free_chain_frame; [|exact Hc]. intros x Hx. apply Hother. intros E. apply Hn. by replace (index + 1) with x by lia.
    + intros i ri E. rewrite elem_of_cons, settled_at_None. destruct (decide (i = index)) as [->|Hne].
      * rewrite zget_insert_eq in E by done. injection E as <-. split; [done | by left].
      * rewrite Hother in E by done. rewrite (Hin i ri E), settled_at_Some. split; [intros [|[? _]]; [lia | done] | intros [? _]; by right].
  - intros i ri E Hri _. destruct (decide (i = index)) as [->|Hne]; [rewrite zget_insert_eq in E by done; injection E as <-; congruence|].
    rewrite Hother in E by done. apply H6; [done | done | by apply settled_at_Some].
  - rewrite (busy_open_free _ index); [|unfold live_at; rewrite zget_insert_eq by done; by rewrite Hrec].
    rewrite (busy_frame records); [done | by rewrite zlen_insert|]. intros i Hs%settled_at_Some. by apply Hother.
  - intros i ri E. destruct (decide (i = index)) as [->|Hne]; [rewrite zget_insert_eq in E by done; injection E as <-; lia|].
    rewrite Hother in E by done. by apply (H8 i).
Qed.

(** The record of the hole is the last and is dropped. *)
Lemma drop_hole : table_ok capacity fresh (Some (zlen (k_records t) - 1)) t -> k_records t <> [] ->
  table_ok capacity fresh None (set_records (removelast (k_records t)) t).
Proof.
  intros [H1 H2 H3 H4 (chain & Hc & Hnd & Hin) H6 H7 H8] Hne. destruct (exists_last Hne) as (records & last & Er). rewrite Er in *.
  rewrite removelast_last in *. rewrite zlen_app in *. change (zlen [last]) with 1 in *. replace (zlen records + 1 - 1) with (zlen records) in * by lia.
  assert (forall i, i < zlen records -> zget (records ++ [last]) i = zget records i) as Hother by (intros i Hi; by apply zget_app_l).
  assert (zget (records ++ [last]) (zlen records) = Some last) as Elast by (by apply zget_app_mid).
  split; cbn [k_records k_slots k_free set_records]; try done; try lia.
  - match goal with |- index_ok _ ?t' => apply (index_ok_any t' ltac:(rewrite Er; exact H2) eq_refl eq_refl eq_refl) end. cbn [k_records set_records].
    intros i j a b Ea Eb. pose proof (zget_range _ _ _ Ea). pose proof (zget_range _ _ _ Eb).
    apply (io_distinct _ _ H2 i j a b); by rewrite Hother by lia.
  - exists chain. split; [|split; [done|]].
    + eapply free_chain_frame; [|exact Hc]. intros x Hx. symmetry. apply Hother. pose proof (free_chain_range _ _ _ x Hc Hx) as Hr. rewrite zlen_app in Hr. change (zlen [last]) with 1 in Hr.
      enough (x - 1 <> zlen records) by lia. intros E. assert (zlen records + 1 ∈ chain) as Hx' by (by replace (zlen records + 1) with x by lia).
      apply (Hin _ _ Elast) in Hx' as [_ Hs]. by apply settled_at_Some in Hs.
    + intros i r E. pose proof (zget_range _ _ _ E). rewrite settled_at_None. rewrite <- Hother in E by lia. rewrite (Hin i r E), settled_at_Some.
      split; [by intros [? _] | intros [? _]; split; [done | lia]].
  - intros i r E Hr _. pose proof (zget_range _ _ _ E). rewrite <- Hother in E by lia. apply (H6 i r); [done | done | apply settled_at_Some; lia].
  - rewrite busy_snoc in H7. assert (settled_at (Some (zlen records)) (zlen records) = false) as Es by (by apply bool_decide_eq_false_2; intros []).
    rewrite Es, andb_false_r, Z.add_0_r in H7. rewrite (busy_open_free _ (zlen records)); [done|]. unfold live_at. destruct (zget records (zlen records)) eqn:E; [|done]. apply zget_range in E. lia.
  - intros i r E. pose proof (zget_range _ _ _ E). rewrite <- Hother in E by lia. by apply (H8 i).
Qed.

Lemma release_table index reuse : table_ok capacity fresh (Some index) t -> 0 <= index < zlen (k_records t) ->
  (reuse = false -> index = zlen (k_records t) - 1) ->
  exists t', ReleasePreparedSpawnTaskSlot index reuse t = Some t' /\ table_ok capacity fresh None t' /\ same_but index t t' /\
    live_at (k_records t') index = false.
Proof.
  intros H Hi Hlast. unfold ReleasePreparedSpawnTaskSlot. destruct reuse.
  - destruct (zget_is_Some (k_records t) index Hi) as [r E]. rewrite E. cbn [mbind option_bind]. rewrite zset_Some by done. cbn [mbind option_bind].
    eexists. split; [reflexivity|]. split; [apply (free_hole index r); try done; by right|]. cbn [k_records set_free set_records]. split.
    + intros i Hne. apply zget_insert_ne; lia.
    + unfold live_at. by rewrite zget_insert_eq by done.
  - specialize (Hlast eq_refl) as ->. assert (k_records t <> []) as Hne by (intros E; rewrite E in Hi; change (zlen []) with 0 in Hi; lia).
    eexists. split; [reflexivity|]. split; [by apply drop_hole|]. cbn [k_records set_records]. destruct (exists_last Hne) as (records & last & Er). rewrite Er, removelast_last.
    rewrite zlen_app. change (zlen [last]) with 1. replace (zlen records + 1 - 1) with (zlen records) by lia. split.
    + intros i Hi'. cbn [k_records set_records]. rewrite Er. destruct (Z.lt_total i (zlen records)) as [|[|]]; [by rewrite zget_app_l | done |].
      rewrite zget_app_ge by lia. unfold zget, zlen in *. destruct (Z.leb_spec 0 (i - Z.of_nat (length records))), (Z.leb_spec 0 i); try lia.
      rewrite (lookup_ge_None_2 records) by lia. symmetry. apply lookup_ge_None_2. cbn. lia.
    + unfold live_at. destruct (zget records (zlen records)) eqn:E; [|done]. apply zget_range in E. lia.
Qed.

(** ** Entering and leaving the index *)
Lemma index_table index r : table_ok capacity fresh (Some index) t -> zget (k_records t) index = Some r -> t_id r <> 0 -> t_recyclable r = false ->
  exists t', IndexTask (t_id r) index t = Some (true, t') /\ table_ok capacity fresh None t' /\ k_records t' = k_records t.
Proof.
  intros [H1 H2 H3 H4 (chain & Hc & Hnd & Hin) H6 H7 H8] E Hid Hrec. pose proof (zget_range _ _ _ E) as Hi. pose proof (busy_bound (k_records t) (Some index)) as Hb.
  destruct (IndexTask_ok H2 (t_id r) index Hid) as (t' & Et & [I1 I2 I3 I4 I5 I6]); [by exists r | lia | lia |].
  exists t'. split; [done|]. pose proof (io_records _ _ I1) as Er. split; [|done]. split; rewrite ?Er; try done.
  - by rewrite I2.
  - exists chain. rewrite I3. split; [done|]. split; [done|]. intros i ri Ei. rewrite (Hin i ri Ei), settled_at_None, settled_at_Some.
    split; [by intros [? _]|]. intros [Hr _]. split; [done|]. intros ->. rewrite E in Ei. injection Ei as <-. congruence.
  - intros i ri Ei Hri _. destruct (decide (i = index)) as [->|Hne]; [rewrite E in Ei; injection Ei as <-; done|].
    destruct (H6 i ri Ei Hri) as [? Hrs]; [by apply settled_at_Some|]. split; [done|]. apply I5; [done | apply zget_range in Ei; lia | done].
  - rewrite (busy_close _ index) by (unfold live_at; by rewrite E, Hrec). lia.
Qed.

Lemma forget_table index r : table_ok capacity fresh None t -> zget (k_records t) index = Some r -> t_recyclable r = false ->
  exists t', ForgetTask (t_id r) t = Some t' /\ table_ok capacity fresh (Some index) t' /\ k_records t' = k_records t /\ k_free t' = k_free t.
Proof.
  intros [H1 H2 H3 H4 (chain & Hc & Hnd & Hin) H6 H7 H8] E Hrec. pose proof (zget_range _ _ _ E) as Hi.
  destruct (H6 index r E Hrec (settled_at_None _)) as [Hid Hrs].
  destruct (ForgetTask_ok H2 (t_id r) index Hid) as (t' & Et & [F1 F2 F3 F4 F5]); [by exists r | lia | lia | lia | done |].
  exists t'. split; [done|]. pose proof (io_records _ _ F1) as Er. split; [|done]. split; rewrite ?Er; try done.
  - by rewrite F2.
  - exists chain. rewrite F3. split; [done|]. split; [done|]. intros i ri Ei. rewrite (Hin i ri Ei), settled_at_None, settled_at_Some.
    split; [|by intros [? _]]. intros [Hr _]. split; [done|]. intros ->. rewrite E in Ei. injection Ei as <-. congruence.
  - intros i ri Ei Hri Hs%settled_at_Some. destruct (H6 i ri Ei Hri (settled_at_None _)) as [? Hrs']. split; [done|].
    apply F4; [done | done | apply zget_range in Ei; lia | by exists ri | done].
  - pose proof (busy_close (k_records t) index ltac:(unfold live_at; by rewrite E, Hrec)) as Hbz. pose proof (busy_bound (k_records t) (Some index)) as Hb. destruct F5; lia.
Qed.

(** ** Finding and retiring *)
Lemma find_table index r : table_ok capacity fresh None t -> zget (k_records t) index = Some r -> t_recyclable r = false ->
  t_id r <> 0 /\ IndexFor (t_id r) t = Some index /\ Find (t_id r) t = Some (Some index).
Proof.
  intros [H1 H2 H3 H4 Hchain H6 H7 H8] E Hrec. destruct (H6 index r E Hrec (settled_at_None _)) as [Hid Hrs]. split; [done|].
  assert (0 <= index < U32_MAX - 1) as Hb by (apply zget_range in E; lia). assert (has_id (k_records t) (t_id r) index) as Hix by (by exists r).
  destruct (find_loop H2 (t_id r)) as (x & Ex & _ & Hx). destruct (Find_ok H2 (t_id r)) as (y & Ey & _ & Hy).
  rewrite Ex, Ey, (Hx index), (Hy index) by done. done.
Qed.

End Table.

Lemma retire_table capacity fresh t index r : table_ok capacity fresh None t -> zget (k_records t) index = Some r -> t_recyclable r = false ->
  exists t', RetireTaskRecord index t = Some t' /\ table_ok capacity fresh None t' /\ same_but index t t' /\ live_at (k_records t') index = false.
Proof.
  intros H E Hrec. destruct (find_table index r H E Hrec) as (Hid & Ef & _). unfold RetireTaskRecord. rewrite E. cbn [mbind option_bind].
  rewrite Hrec. destruct (Z.eqb_spec (t_id r) 0); [done|]. cbn [orb]. rewrite Ef. cbn [mbind option_bind].
  destruct (forget_table index r H E Hrec) as (t1 & -> & H1 & Er & Efree). cbn [mbind option_bind]. pose proof (zget_range _ _ _ E) as Hi. rewrite Er.
  destruct (Z.ltb_spec index (zlen (k_records t))); [|lia]. rewrite zset_Some by done. cbn [mbind option_bind]. eexists. split; [reflexivity|].
  rewrite <- Er in *. split; [|split].
  - apply (free_hole index r); try done. by left.
  - intros i Hne. cbn [k_records set_free set_records]. rewrite zget_insert_ne by lia. by rewrite Er.
  - cbn [k_records set_free set_records]. unfold live_at. by rewrite zget_insert_eq by done.
Qed.
