(* ===== verification/SchedulerFacts.v ===== *)
(** * SchedulerFacts: the scheduler's table and ready queue, as a transition system

    The steps are the operations on the table and the ready queue, and any change of the
    state of a task that is not queued. By rule induction, in every reachable state the
    queue holds distinct live tasks that are ready, every operation returns, live tasks
    are found, and the queued tasks are popped in their order. *)

From stdpp Require Import base numbers list option.
From Stdlib Require Import ZArith Lia.
From S2P Require Import Prelude ReadyQueue ReadyQueueFacts TaskTable TaskIndexFacts.

(** ** Ids are issued once *)
Definition range_size (limits : Limits) : Z := Z.max 1 (Z.min (task_capacity limits) (ready_queue_capacity limits)).

Definition ids_ok (fresh : Z) (ids : Ids) : Prop :=
  1 <= fresh /\ 1 <= next_task_id ids <= U64_MAX /\
  if r_active ids && negb (r_remaining ids =? 0)
  then fresh = r_next ids /\ 0 < r_remaining ids /\ r_next ids + r_remaining ids = next_task_id ids
  else fresh = next_task_id ids.

Lemma IssueSpawnTaskId_ok limits context parent scope fresh ids id ids' : ids_ok fresh ids ->
  next_task_id ids + range_size limits <= U64_MAX ->
  IssueSpawnTaskId limits context parent scope ids = (id, ids') ->
  fresh <= id /\ ids_ok (id + 1) ids'.
Proof.
  intros (H1 & H2 & H3) Hroom. unfold IssueSpawnTaskId. fold (range_size limits). assert (1 <= range_size limits) as Hr by (unfold range_size; lia).
  set (n := range_size limits) in *. clearbody n. destruct (negb ((parent =? 0) && (context =? 0))).
  { intros E. injection E as <- <-. split.
    - destruct (_ && _); [lia | lia].
    - unfold ids_ok. cbn [next_task_id r_active r_remaining andb]. rewrite wrap64_small by (unfold is_u64; lia).
      assert (fresh <= next_task_id ids) by (destruct (_ && _); lia). lia. }
  destruct (r_active ids && negb (r_remaining ids =? 0)) eqn:Ea; cbn [andb].
  - destruct H3 as (Hf & Hrem & Hsum).
    destruct ((r_parent ids =? parent) && (r_scope ids =? scope)) eqn:Em; cbn [andb].
    + rewrite (wrap64_small (r_remaining ids - 1)) by (unfold is_u64; lia). intros E. injection E as <- <-.
      split; [lia|]. unfold ids_ok. apply andb_true_iff in Ea as [-> _]. destruct (Z.eqb_spec (r_remaining ids - 1) 0); cbn.
      * lia.
      * destruct (Z.eqb_spec (r_remaining ids - 1) 0); [lia|]. cbn. rewrite wrap64_small by (unfold is_u64; lia). lia.
    + cbn [andb r_next r_remaining next_task_id r_active r_parent r_scope].
      rewrite (wrap64_small (n - 1)), (wrap64_small (next_task_id ids + n)) by (unfold is_u64; lia). intros E. injection E as <- <-. split; [lia|].
      unfold ids_ok. destruct (Z.eqb_spec (n - 1) 0); cbn; [lia|]. destruct (Z.eqb_spec (n - 1) 0); [lia|]. cbn. rewrite wrap64_small by (unfold is_u64; lia). lia.
  - cbn [r_next r_remaining next_task_id r_active r_parent r_scope].
    rewrite (wrap64_small (n - 1)), (wrap64_small (next_task_id ids + n)) by (unfold is_u64; lia). intros E. injection E as <- <-. split; [lia|].
    unfold ids_ok. destruct (Z.eqb_spec (n - 1) 0); cbn; [lia|]. destruct (Z.eqb_spec (n - 1) 0); [lia|]. cbn. rewrite wrap64_small by (unfold is_u64; lia). lia.
Qed.

(** ** The invariant *)
Definition task_at (t : Tasks) (id index : Z) (r : TaskRecord) : Prop :=
  zget (k_records t) index = Some r /\ t_recyclable r = false /\ t_id r = id.

Record sched_ok (limits : Limits) (fresh : Z) (l : list Z) (s : Scheduler) : Prop := {
  so_table : table_ok (task_capacity limits) fresh None (s_tasks s);
  so_ids : ids_ok fresh (s_ids s);
  so_queue : queue_of (task_capacity limits) (s_queue s) l;
  so_nodup : NoDup l;
  so_depth : s_depth s = zlen l;
  so_ready : forall id, id ∈ l -> exists index r, task_at (s_tasks s) id index r /\ t_state r = Ready;
}.

Lemma ids_bounded t l : NoDup l -> (forall id, id ∈ l -> exists index r, task_at t id index r) -> zlen l <= zlen (k_records t).
Proof.
  intros Hnd Hl. assert (l ⊆ t_id <$> k_records t) as Hsub.
  { intros id Hid. destruct (Hl id Hid) as (i & r & [_ E]%zget_Some & _ & <-). apply list_elem_of_fmap. exists r. split; [done|]. by eapply list_elem_of_lookup_2. }
  pose proof (submseteq_length _ _ (NoDup_submseteq _ _ Hnd Hsub)) as H. rewrite length_fmap in H. unfold zlen. lia.
Qed.

(** A live task that is not queued leaves room in the queue. *)
Lemma queue_room limits fresh l s id index r : sched_ok limits fresh l s -> task_at (s_tasks s) id index r -> id ∉ l ->
  zlen l < task_capacity limits /\ id <> 0.
Proof.
  intros [H1 H2 H3 H4 H5 H6] Ht Hn. pose proof Ht as (E & Hrec & Eid). split.
  - enough (zlen (id :: l) <= zlen (k_records (s_tasks s))) as Hz by (rewrite zlen_cons in Hz; pose proof (tk_records _ _ _ _ H1); lia).
    apply ids_bounded; [by apply list.NoDup_cons|]. intros id' [->|Hid]%elem_of_cons; [by exists index, r|].
    destruct (H6 id' Hid) as (i & r' & ? & _). by exists i, r'.
  - destruct (tk_live _ _ _ _ H1 index r E Hrec (settled_at_None _)) as [? _]. congruence.
Qed.

Lemma task_found limits fresh l s id index r : sched_ok limits fresh l s -> task_at (s_tasks s) id index r ->
  Find id (s_tasks s) = Some (Some index).
Proof. intros H (E & Hrec & <-). by destruct (find_table index r (so_table _ _ _ _ H) E Hrec) as (_ & _ & ?). Qed.

(** ** The queue operations *)
Lemma queue_push_back capacity q l id : queue_of capacity q l ->
  exists q', push_back id q = Some (admits capacity id l, q') /\ queue_of capacity q' (if admits capacity id l then l ++ [id] else l).
Proof. intros [<- (slots & free & H)]. destruct (push_back_ok H id) as (q' & E & Hq & Hr). by exists q'. Qed.
Lemma queue_push_front capacity q l id : queue_of capacity q l ->
  exists q', push_front id q = Some (admits capacity id l, q') /\ queue_of capacity q' (if admits capacity id l then id :: l else l).
Proof. intros [<- (slots & free & H)]. destruct (push_front_ok H id) as (q' & E & Hq & Hr). by exists q'. Qed.
Lemma queue_pop_front capacity q l : queue_of capacity q l ->
  exists q', pop_front q = Some (List.head l, q') /\ queue_of capacity q' (List.tl l).
Proof. intros [<- (slots & free & H)]. destruct (pop_front_ok _ _ _ _ H) as (q' & E & Hq & Hr). by exists q'. Qed.
Lemma queue_take_first capacity q l p : queue_of capacity q l ->
  exists q', take_first p q = Some ((taken p l).1, q') /\ queue_of capacity q' (taken p l).2.
Proof. intros [<- (slots & free & H)]. destruct (take_first_ok p _ _ _ _ H) as (q' & E & Hq & Hr). by exists q'. Qed.

Lemma admits_true capacity id l : id <> 0 -> zlen l < capacity -> admits capacity id l = true.
Proof. intros H1 H2. unfold admits. rewrite andb_true_iff, negb_true_iff, Z.eqb_neq, Z.ltb_lt. done. Qed.

(** Whether a task is in the ready queue. *)
Definition queued (limits : Limits) (id : Z) (s : Scheduler) : Prop :=
  exists l, queue_of (task_capacity limits) (s_queue s) l /\ id ∈ l.

Section Steps.
Context {limits : Limits} {fresh : Z} {l : list Z} {s : Scheduler} (H : sched_ok limits fresh l s).

Lemma enqueue_progress_ok id index r : task_at (s_tasks s) id index r -> t_state r = Ready -> id ∉ l ->
  exists s', EnqueueProgress limits index s = Some s' /\ sched_ok limits fresh (l ++ [id]) s' /\ s_tasks s' = s_tasks s.
Proof using H.
  intros Ht Hst Hn. destruct (queue_room _ _ _ _ _ _ _ H Ht Hn) as [Hroom Hid]. pose proof (task_found _ _ _ _ _ _ _ H Ht) as Hf.
  pose proof Ht as (E & Hrec & Eid). unfold EnqueueProgress. rewrite E. cbn [mbind option_bind]. rewrite Eid, Hf. cbn [mbind option_bind].
  rewrite Hst, !bool_decide_eq_true_2 by done. destruct (Z.eqb_spec id 0); [done|]. pose proof (so_depth _ _ _ _ H) as Hd.
  destruct (Z.leb_spec (task_capacity limits) (s_depth s)); [lia|]. cbn [negb orb].
  destruct (queue_push_back _ _ _ id (so_queue _ _ _ _ H)) as (q' & -> & Hq). rewrite admits_true in * by done. cbn [mbind option_bind].
  eexists. split; [reflexivity|]. split; [|done]. destruct H as [H1 H2 H3 H4 H5 H6]. split; cbn [s_tasks s_ids s_queue s_depth]; try done.
  - apply list.NoDup_app. split; [done|]. split; [|apply NoDup_singleton]. intros x Hx ->%list_elem_of_singleton. done.
  - rewrite zlen_app. change (zlen [id]) with 1. lia.
  - intros x [Hx| ->%list_elem_of_singleton]%elem_of_app; [by apply H6|]. exists index, r. done.
Qed.

Lemma restore_ok id index r : task_at (s_tasks s) id index r -> t_state r = Ready -> id ∉ l ->
  exists s', RestoreReadyFront id s = Some s' /\ sched_ok limits fresh (id :: l) s' /\ s_tasks s' = s_tasks s.
Proof using H.
  intros Ht Hst Hn. destruct (queue_room _ _ _ _ _ _ _ H Ht Hn) as [Hroom Hid]. unfold RestoreReadyFront.
  destruct (queue_push_front _ _ _ id (so_queue _ _ _ _ H)) as (q' & -> & Hq). rewrite admits_true in * by done. cbn [mbind option_bind].
  eexists. split; [reflexivity|]. split; [|done]. pose proof (so_depth _ _ _ _ H) as Hd. destruct H as [H1 H2 H3 H4 H5 H6]. split; cbn [s_tasks s_ids s_queue s_depth]; try done.
  - by apply list.NoDup_cons.
  - rewrite zlen_cons. lia.
  - intros x [->|Hx]%elem_of_cons; [by exists index, r | by apply H6].
Qed.

(** A change of the table that leaves the queued tasks alone. *)
Lemma frame_ok index t' fresh' ids' : table_ok (task_capacity limits) fresh' None t' -> ids_ok fresh' ids' -> same_but index (s_tasks s) t' ->
  (forall r, zget (k_records (s_tasks s)) index = Some r -> t_recyclable r = false -> t_id r ∉ l) ->
  sched_ok limits fresh' l (mk_scheduler t' ids' (s_queue s) (s_depth s)).
Proof using H.
  destruct H as [H1 H2 H3 H4 H5 H6]. intros Ht Hids Hsame Hn. split; cbn [s_tasks s_ids s_queue s_depth]; try done.
  intros id Hid. destruct (H6 id Hid) as (i & r & (E & Hrec & Eid) & Hst). exists i, r. split; [|done]. split; [|done].
  rewrite Hsame; [done|]. intros ->. apply (Hn r E Hrec). by rewrite Eid.
Qed.

Lemma retire_ok id index r : task_at (s_tasks s) id index r -> id ∉ l ->
  exists t', RetireTaskRecord index (s_tasks s) = Some t' /\ sched_ok limits fresh l (set_tasks t' s) /\ live_at (k_records t') index = false.
Proof using H.
  intros (E & Hrec & Eid) Hn. destruct (retire_table _ _ _ index r (so_table _ _ _ _ H) E Hrec) as (t' & Et & Ht & Hsame & Hdead).
  exists t'. split; [done|]. split; [|done]. apply (frame_ok index); [done | apply H | done |]. intros r' E' _. congruence.
Qed.

(** Popping the head, whose task is ready. *)
Lemma pop_head id l' : l = id :: l' -> exists s', PopReady 0 s = Some (id, s') /\ sched_ok limits fresh l' s' /\ s_tasks s' = s_tasks s.
Proof using H.
  intros El. pose proof (so_queue _ _ _ _ H) as Hq. pose proof (so_depth _ _ _ _ H) as Hd. rewrite El, zlen_cons in Hd. pose proof (zlen_nonneg l').
  assert (id ∈ l) as Hin by (rewrite El; by left). destruct (so_ready _ _ _ _ H id Hin) as (index & r & Ht & Hst).
  unfold PopReady. rewrite Z.eqb_refl. cbn [while_loop]. assert (queue_empty (s_queue s) = false) as ->.
  { destruct Hq as [_ (slots & free & Hr)]. unfold queue_empty. rewrite (rp_size _ _ _ _ Hr), <- (rep_length Hr), El, zlen_cons. apply Z.eqb_neq. lia. }
  cbn [negb]. unfold pop_step. destruct (queue_pop_front _ _ _ Hq) as (q' & -> & Hq'). rewrite El. cbn [List.head mbind option_bind s_tasks].
  assert (ready_task 0 id (s_tasks s) = true) as ->.
  { unfold ready_task. rewrite (task_found _ _ _ _ _ _ _ H Ht). destruct Ht as (-> & _ & _). rewrite Hst, bool_decide_eq_true_2 by done. done. }
  eexists. split; [reflexivity|]. split; [|done]. rewrite El in Hq'. cbn [List.tl] in Hq'. pose proof (so_nodup _ _ _ _ H) as Hnd. rewrite El in Hnd. apply list.NoDup_cons in Hnd as [_ Hnd].
  split; cbn [s_tasks s_ids s_queue s_depth]; try done; try apply H.
  - unfold less_one. destruct (Z.eqb_spec (s_depth s) 0); lia.
  - intros x Hx. apply (so_ready _ _ _ _ H). rewrite El. by right.
Qed.

Lemma pop_empty : l = [] -> PopReady 0 s = Some (0, s).
Proof using H.
  intros El. pose proof (so_queue _ _ _ _ H) as [_ (slots & free & Hr)]. unfold PopReady. rewrite Z.eqb_refl. cbn [while_loop].
  assert (queue_empty (s_queue s) = true) as ->; [|done]. unfold queue_empty. rewrite (rp_size _ _ _ _ Hr), <- (rep_length Hr), El. done.
Qed.

Lemma taken_split p id l' : taken p l = (Some id, l') -> p id = true /\ exists a b, l = a ++ id :: b /\ l' = a ++ b.
Proof using.
  unfold taken. destruct (first_of_list p l) as [[x rest]|] eqn:E; [|done]. intros [= <- <-]. clear H.
  revert rest E. induction l as [|y l0 IH]; intros rest E; [done|]. cbn in E. destruct (p y) eqn:Ep.
  - injection E as <- <-. split; [done|]. by exists [], l0.
  - destruct (first_of_list p l0) as [[z rest0]|]; [|done]. cbn in E. injection E as <- <-. destruct (IH rest0 eq_refl) as (? & a & b & -> & ->).
    split; [done|]. by exists (y :: a), b.
Qed.

Lemma pop_scope scope : scope <> 0 -> exists id l' s', PopReady scope s = Some (id, s') /\ sched_ok limits fresh l' s' /\ s_tasks s' = s_tasks s /\
  (id = 0 /\ l' = l \/ exists a b, l = a ++ id :: b /\ l' = a ++ b /\ ready_task scope id (s_tasks s) = true).
Proof using H.
  intros Hs. unfold PopReady. destruct (Z.eqb_spec scope 0); [done|].
  destruct (queue_take_first _ _ _ (fun id => ready_task scope id (s_tasks s)) (so_queue _ _ _ _ H)) as (q' & -> & Hq). cbn [mbind option_bind].
  destruct (taken _ l) as [[id|] l'] eqn:Et; cbn [fst snd] in *.
  - destruct (taken_split _ _ _ Et) as (Hp & a & b & El & ->). exists id, (a ++ b). eexists. split; [reflexivity|]. pose proof (so_nodup _ _ _ _ H) as Hnd.
    pose proof (so_depth _ _ _ _ H) as Hd. rewrite El in Hnd, Hd. rewrite zlen_app, zlen_cons in Hd. pose proof (zlen_nonneg a). pose proof (zlen_nonneg b).
    assert (NoDup (id :: a ++ b)) as Hnd' by (by rewrite Permutation_middle). apply list.NoDup_cons in Hnd' as [_ Hnd'].
    split; [|split; [done | right; by exists a, b]]. split; cbn [s_tasks s_ids s_queue s_depth]; try done; try apply H.
    + rewrite zlen_app. unfold less_one. destruct (Z.eqb_spec (s_depth s) 0); lia.
    + intros x Hx. apply (so_ready _ _ _ _ H). rewrite El. apply elem_of_app in Hx as [Hx|Hx]; apply elem_of_app; [by left | right; by right].
  - exists 0, l, s. split; [done|]. split; [done|]. split; [done|]. by left.
Qed.
End Steps.

(** ** Spawning *)
Definition live_tasks (t : Tasks) : Z := busy (k_records t) None.

(** Why a spawn fails, from the number of live and of queued tasks. *)
Definition spawn_reason (limits : Limits) (sp : SpawnRequest) (live depth : Z) : option SpawnReason :=
  if negb (sp_name sp) then Some TaskInvalid
  else if task_capacity limits <=? live then Some TaskCapacityExceeded
  else if match sp_admission sp with AdmitSpawn => ready_queue_capacity limits <=? depth | AdmitContinuation => false end
  then Some ReadyQueueCapacityExceeded
  else if sp_observed sp && negb (sp_completion sp) then Some TaskCompletionCapacity
  else if negb (sp_callable sp) then Some TaskCapacityExceeded
  else if sp_observed sp && negb (sp_transition sp) then Some TaskStateTransitionInvalid
  else None.

Lemma busy_full records i : live_at records i = false -> 0 <= i < zlen records -> busy records None < zlen records.
Proof.
  intros Hl Hi. unfold busy. assert (zlen (List.filter (fun i => live_at records i && settled_at None i) (range 0 (zlen records))) + 1 <= zlen records) as H; [|lia].
  assert (i ∈ range 0 (zlen records)) as Hin by (apply elem_of_range; lia). apply list_elem_of_split in Hin as (a & b & E).
  pose proof (zlen_range 0 (zlen records) ltac:(lia)) as Hz. rewrite E in *. rewrite List.filter_app. cbn [List.filter]. rewrite Hl. cbn [andb].
  rewrite !zlen_app, zlen_cons in *. pose proof (filter_length_le (fun i => live_at records i && settled_at None i) a).
  pose proof (filter_length_le (fun i => live_at records i && settled_at None i) b). unfold zlen in *. lia.
Qed.

Lemma table_full capacity fresh t : table_ok capacity fresh None t ->
  (capacity =? 0) || ((capacity <=? zlen (k_records t)) && (k_free t =? 0)) = (capacity <=? live_tasks t).
Proof.
  intros H. pose proof (busy_bound (k_records t) None) as Hb. pose proof (tk_records _ _ _ _ H) as Hr. pose proof (tk_capacity _ _ _ _ H). unfold live_tasks.
  destruct (tk_chain _ _ _ _ H) as (chain & Hc & Hnd & Hin). destruct (Z.leb_spec capacity (busy (k_records t) None)) as [Hf|Hf].
  - destruct (Z.eqb_spec capacity 0); [done|]. cbn [orb]. assert (zlen (k_records t) = capacity) as Ez by lia. rewrite Ez, Z.leb_refl. cbn [andb].
    apply Z.eqb_eq. rewrite (free_chain_head _ _ _ Hc). destruct chain as [|x chain]; [done|]. exfalso.
    pose proof (free_chain_range _ _ _ x Hc ltac:(by left)) as Hx. destruct (zget_is_Some (k_records t) (x - 1) ltac:(lia)) as [r Er].
    assert (x - 1 + 1 ∈ x :: chain) as Hx' by (replace (x - 1 + 1) with x by lia; by left). apply (Hin _ _ Er) in Hx' as [Hrec _].
    pose proof (busy_full (k_records t) (x - 1)) as Hlt. unfold live_at in Hlt at 1. rewrite Er, Hrec in Hlt. specialize (Hlt eq_refl ltac:(lia)). lia.
  - destruct (Z.eqb_spec capacity 0); [lia|]. cbn [orb]. apply andb_false_iff. destruct (Z.leb_spec capacity (zlen (k_records t))); [right | by left].
    apply Z.eqb_neq. intros E0. assert (chain = []) as -> by (by apply (zlen_chain (t := t))).
    enough (busy (k_records t) None = zlen (k_records t)) by lia. unfold busy. rewrite (filter_ext_in _ (fun _ => true)).
    + assert (forall l : list Z, List.filter (fun _ => true) l = l) as -> by (induction l as [|y l IH]; cbn; [done | by rewrite IH]). rewrite zlen_range; lia.
    + intros i Hi%list_elem_of_In%elem_of_range. rewrite settled_at_None, andb_true_r. unfold live_at. destruct (zget_is_Some (k_records t) i ltac:(lia)) as [r Er]. rewrite Er.
      destruct (t_recyclable r) eqn:Hrec; [|done]. assert (i + 1 ∈ []) as Hx by (apply (Hin _ _ Er); by rewrite settled_at_None). by apply elem_of_nil in Hx.
Qed.

(** The result of a spawn, between the states before and after. *)
Definition spawned (limits : Limits) (sp : SpawnRequest) (fresh : Z) (l : list Z) (s : Scheduler) (r : Z + SpawnReason) (l' : list Z) (s' : Scheduler) : Prop :=
  match spawn_reason limits sp (live_tasks (s_tasks s)) (zlen l) with
  | Some reason => r = inr reason /\ l' = l /\
      exists index, same_but index (s_tasks s) (s_tasks s') /\ live_at (k_records (s_tasks s)) index = false /\ live_at (k_records (s_tasks s')) index = false
  | None => exists id index, r = inl id /\ fresh <= id /\ l' = l ++ [id] /\ same_but index (s_tasks s) (s_tasks s') /\
      live_at (k_records (s_tasks s)) index = false /\ task_at (s_tasks s') id index (mk_record id (sp_scope sp) Ready false 0)
  end.

Section Spawn.
Context {limits : Limits} {fresh : Z} {l : list Z} {s : Scheduler} (H : sched_ok limits fresh l s).

Lemma dead_frame index t' fresh' ids' : table_ok (task_capacity limits) fresh' None t' -> ids_ok fresh' ids' -> same_but index (s_tasks s) t' ->
  live_at (k_records (s_tasks s)) index = false -> sched_ok limits fresh' l (mk_scheduler t' ids' (s_queue s) (s_depth s)).
Proof using H.
  intros H1 H2 H3 H4. apply (frame_ok H index); try done. intros r E Hrec. exfalso. unfold live_at in H4. rewrite E, Hrec in H4. done.
Qed.

(** Giving back a record that was claimed. *)
Lemma fail_spawn_ok index reuse reason t1 ids1 fresh1 : table_ok (task_capacity limits) fresh1 (Some index) t1 -> ids_ok fresh1 ids1 ->
  0 <= index < zlen (k_records t1) -> (reuse = false -> index = zlen (k_records t1) - 1) -> same_but index (s_tasks s) t1 ->
  live_at (k_records (s_tasks s)) index = false ->
  exists s', fail_spawn index reuse reason (mk_scheduler t1 ids1 (s_queue s) (s_depth s)) = Some (inr reason, s') /\
    sched_ok limits fresh1 l s' /\ same_but index (s_tasks s) (s_tasks s') /\ live_at (k_records (s_tasks s')) index = false.
Proof using H.
  intros H1 H2 H3 H4 H5 H6. unfold fail_spawn. cbn [s_tasks]. destruct (release_table index reuse H1 H3 H4) as (t2 & -> & Ht2 & Hsame & Hdead).
  cbn [mbind option_bind]. assert (same_but index (s_tasks s) t2) as Hs2 by (intros i Hi; rewrite Hsame by done; by apply H5).
  eexists. split; [reflexivity|]. split; [by apply (dead_frame index)|]. done.
Qed.

Lemma spawn_ok sp : next_task_id (s_ids s) + range_size limits <= U64_MAX ->
  exists r s' fresh' l', SpawnPreparedCommitted limits sp s = Some (r, s') /\ sched_ok limits fresh' l' s' /\
    fresh <= fresh' /\ spawned limits sp fresh l s r l' s'.
Proof using H.
  intros Hroom. unfold SpawnPreparedCommitted, spawned, spawn_reason. pose proof (so_table _ _ _ _ H) as Ht. pose proof (so_ids _ _ _ _ H) as Hids.
  assert (exists index, live_at (k_records (s_tasks s)) index = false) as [dead Hdead0] by (exists (-1); done).
  destruct (sp_name sp); cbn [negb].
  2: { exists (inr TaskInvalid), s, fresh, l. split; [done|]. split; [done|]. split; [lia|]. split; [done|]. split; [done|]. by exists dead. }
  unfold ValidateSpawnBudget. rewrite (table_full _ _ _ Ht).
  destruct (Z.leb_spec (task_capacity limits) (live_tasks (s_tasks s))) as [|Hlive].
  { exists (inr TaskCapacityExceeded), s, fresh, l. split; [done|]. split; [done|]. split; [lia|]. split; [done|]. split; [done|]. by exists dead. }
  rewrite (so_depth _ _ _ _ H). destruct (match sp_admission sp with AdmitSpawn => ready_queue_capacity limits <=? zlen l | AdmitContinuation => false end) eqn:Eq.
  { destruct (sp_admission sp); [|done]. rewrite Eq. exists (inr ReadyQueueCapacityExceeded), s, fresh, l. split; [done|]. split; [done|]. split; [lia|]. split; [done|]. split; [done|]. by exists dead. }
  assert ((match sp_admission sp with
           | AdmitSpawn => if ready_queue_capacity limits <=? zlen l then Some ReadyQueueCapacityExceeded else None
           | AdmitContinuation => None end) = None) as -> by (destruct (sp_admission sp); [by rewrite Eq | done]).
  assert (zlen (k_records (s_tasks s)) < task_capacity limits \/ k_free (s_tasks s) <> 0) as Hfree.
  { pose proof (table_full _ _ _ Ht) as E. destruct (Z.leb_spec (task_capacity limits) (live_tasks (s_tasks s))); [lia|].
    apply orb_false_iff in E as [_ E]. apply andb_false_iff in E as [E|E]; [apply Z.leb_gt in E; by left | apply Z.eqb_neq in E; by right]. }
  destruct Hids as (Hf1 & Hids2). destruct (claim_table Ht Hfree ltac:(lia)) as (reuse & index & t1 & -> & Ht1 & Hi1 & Hlast & Hs1 & Hdead).
  cbn [mbind option_bind]. unfold set_tasks. assert (ids_ok fresh (s_ids s)) as Hids by (by split).
  destruct (sp_observed sp && negb (sp_completion sp)).
  { destruct (fail_spawn_ok index reuse TaskCompletionCapacity t1 (s_ids s) fresh Ht1 Hids Hi1 Hlast Hs1 Hdead) as (s' & -> & Hs' & Hsb & Hd').
    exists (inr TaskCompletionCapacity), s', fresh, l. split; [done|]. split; [done|]. split; [lia|]. split; [done|]. split; [done|]. by exists index. }
  unfold MaterializePreparedSpawnTask. cbn [s_tasks s_ids s_queue s_depth].
  destruct (IssueSpawnTaskId limits (sp_context sp) (sp_parent sp) (sp_scope sp) (s_ids s)) as [id ids'] eqn:Eid.
  destruct (IssueSpawnTaskId_ok _ _ _ _ _ _ _ _ Hids Hroom Eid) as [Hidf Hids']. rewrite zset_Some by done. cbn [mbind option_bind].
  destruct (Z.eqb_spec id 0) as [|Hid0]; [lia|]. set (r := mk_record id (sp_scope sp) Ready false 0). cbn [negb andb].
  set (t2 := set_records (<[Z.to_nat index := r]> (k_records t1)) t1).
  assert (table_ok (task_capacity limits) (id + 1) (Some index) t2) as Ht2 by (apply (set_hole index r (id + 1) Ht1 Hi1); cbn; lia).
  assert (zlen (k_records t2) = zlen (k_records t1)) as Hlen2 by (unfold t2; cbn; by rewrite zlen_insert).
  assert (same_but index (s_tasks s) t2) as Hs2 by (intros i Hi; unfold t2; cbn [k_records set_records]; rewrite zget_insert_ne by lia; by apply Hs1).
  assert (zget (k_records t2) index = Some r) as Er2 by (unfold t2; cbn [k_records set_records]; by apply zget_insert_eq).
  assert (forall reason, exists s', fail_spawn index reuse reason (mk_scheduler t2 ids' (s_queue s) (s_depth s)) = Some (inr reason, s') /\
    sched_ok limits (id + 1) l s' /\ same_but index (s_tasks s) (s_tasks s') /\ live_at (k_records (s_tasks s')) index = false) as Hfail.
  { intros reason. by apply fail_spawn_ok; rewrite ?Hlen2. }
  destruct (sp_callable sp); cbn [negb].
  2: { destruct (Hfail TaskCapacityExceeded) as (s' & -> & Hs' & Hsb & Hd'). exists (inr TaskCapacityExceeded), s', (id + 1), l.
       split; [done|]. split; [done|]. split; [lia|]. split; [done|]. split; [done|]. by exists index. }
  destruct (sp_observed sp && negb (sp_transition sp)).
  { destruct (Hfail TaskStateTransitionInvalid) as (s' & -> & Hs' & Hsb & Hd'). exists (inr TaskStateTransitionInvalid), s', (id + 1), l.
    split; [done|]. split; [done|]. split; [lia|]. split; [done|]. split; [done|]. by exists index. }
  unfold EnqueuePreparedSpawnTask. cbn [s_tasks]. rewrite Er2. cbn [mbind option_bind]. change (t_id r) with id.
  destruct (index_table index r Ht2 Er2 Hid0 eq_refl) as (t3 & Et3 & Ht3 & Er3). change (t_id r) with id in Et3. rewrite Et3. cbn [mbind option_bind negb].
  assert (same_but index (s_tasks s) t3) as Hs3 by (intros i Hi; rewrite Er3; by apply Hs2).
  assert (task_at t3 id index r) as Hta by (rewrite <- Er3 in Er2; done).
  unfold set_tasks. cbn [s_ids s_queue s_depth s_tasks]. set (s3 := mk_scheduler t3 ids' (s_queue s) (s_depth s)).
  assert (sched_ok limits (id + 1) l s3) as Hok3 by (by apply (dead_frame index)).
  assert (id ∉ l) as Hnl.
  { intros Hin. destruct (so_ready _ _ _ _ H id Hin) as (i & ri & (Ei & _ & Eii) & _). pose proof (tk_fresh _ _ _ _ Ht i ri Ei). lia. }
  assert (exists s4, (match sp_admission sp with
                 | AdmitContinuation => s ← EnqueueProgress limits index s3; Some (true, s)
                 | AdmitSpawn => EnqueueSpawn limits id s3
                 end) = Some (true, s4) /\ sched_ok limits (id + 1) (l ++ [id]) s4 /\ s_tasks s4 = t3) as (s4 & E4 & Hok4 & Et4).
  { destruct (enqueue_progress_ok Hok3 id index r Hta eq_refl Hnl) as (s4 & E4 & Hok4 & Et4). destruct (sp_admission sp) eqn:Ea.
    - unfold EnqueueSpawn. cbn [s_depth s3]. rewrite (so_depth _ _ _ _ H), Eq. destruct (queue_room _ _ _ _ _ _ _ Hok3 Hta Hnl) as [Hr _].
      destruct (queue_push_back _ _ _ id (so_queue _ _ _ _ Hok3)) as (q' & Ep & Hq). rewrite admits_true in * by done. rewrite Ep. cbn [mbind option_bind].
      unfold EnqueueProgress in E4. destruct Hta as (Ez & _ & Eidr). cbn [s_tasks s3] in E4.
      eexists. split; [reflexivity|]. split; [|done]. rewrite Ez in E4. cbn [mbind option_bind] in E4. change (t_id r) with id in E4.
      destruct (Find id t3) as [found|]; [|done]. cbn [mbind option_bind] in E4. destruct (_ || _) in E4; [done|]. rewrite Ep in E4. cbn [mbind option_bind] in E4.
      injection E4 as <-. rewrite <- (so_depth _ _ _ _ H). exact Hok4.
    - rewrite E4. by exists s4. }
  rewrite E4. cbn [mbind option_bind negb]. exists (inl id), s4, (id + 1), (l ++ [id]). split; [done|]. split; [done|]. split; [lia|].
  exists id, index. rewrite Et4. done.
Qed.
End Spawn.
