(* ===== verification/SchedulerSteps.v ===== *)
(** * SchedulerSteps: the scheduler as a transition system

    The steps are the operations of TaskTable.v and any change of the state of a task
    that is not queued, under the conditions in which the rest of the scheduler calls
    them. By induction on the run: no operation of a reachable scheduler is undefined
    behaviour or aborts, its queue holds distinct ready tasks, its live tasks are the
    ones the index finds, ids are issued once, and a queued task is popped after as many
    pops as there are tasks before it, whatever is done in between. *)

From stdpp Require Import base numbers list option.
From Stdlib Require Import ZArith Lia.
From S2P Require Import Prelude ReadyQueue ReadyQueueFacts TaskTable TaskIndexFacts SchedulerFacts.

(** ** Steps *)
Inductive SchedOp :=
  | OpSpawn (sp : SpawnRequest)
  | OpPop (only_scope_id : Z)
  | OpState (index : Z) (state : TaskState)
  | OpEnqueue (index : Z)
  | OpRestore (id : Z)
  | OpRetire (index : Z).

(** The second component is the id of the task spawned or popped, or zero. *)
Definition sched_op (limits : Limits) (op : SchedOp) (s : Scheduler) : option (Z * Scheduler) :=
  match op with
  | OpSpawn sp => '(r, s) ← SpawnPreparedCommitted limits sp s; Some (match r with inl id => id | inr _ => 0 end, s)
  | OpPop scope => PopReady scope s
  | OpState index state => t ← SetState index state (s_tasks s); Some (0, set_tasks t s)
  | OpEnqueue index => s ← EnqueueProgress limits index s; Some (0, s)
  | OpRestore id => s ← RestoreReadyFront id s; Some (0, s)
  | OpRetire index => t ← RetireTaskRecord index (s_tasks s); Some (0, set_tasks t s)
  end.

(** Live tasks that are not queued have their state changed, are queued and are retired;
    ids are left. *)
Definition enabled (limits : Limits) (op : SchedOp) (s : Scheduler) : Prop :=
  match op with
  | OpSpawn _ => next_task_id (s_ids s) + range_size limits <= U64_MAX
  | OpPop _ => True
  | OpState index _ | OpRetire index =>
      exists id r, task_at (s_tasks s) id index r /\ ~ queued limits id s
  | OpEnqueue index => exists id r, task_at (s_tasks s) id index r /\ t_state r = Ready /\ ~ queued limits id s
  | OpRestore id => exists index r, task_at (s_tasks s) id index r /\ t_state r = Ready /\ ~ queued limits id s
  end.

Inductive steps (limits : Limits) : Scheduler -> list (SchedOp * Z) -> Scheduler -> Prop :=
  | steps_nil s : steps limits s [] s
  | steps_cons s op out s1 trace s2 : enabled limits op s -> sched_op limits op s = Some (out, s1) ->
      steps limits s1 trace s2 -> steps limits s ((op, out) :: trace) s2.

(** From the storage a scheduler starts with. *)
Definition reachable (limits : Limits) (trace : list (SchedOp * Z)) (s : Scheduler) : Prop :=
  exists s0, configure_tasks limits = Some s0 /\ steps limits s0 trace s.

(** ** The initial state *)
Lemma configure_ok limits : 0 <= task_capacity limits <= U32_MAX - 1 ->
  exists s, configure_tasks limits = Some s /\ sched_ok limits 1 [] s.
Proof.
  intros Hcap. unfold configure_tasks, configure. set (c := task_capacity limits) in *.
  destruct (queue_clear_ok (mk_queue (replicate (Z.to_nat c) 0) (replicate (Z.to_nat c) 0)
    (q_head EmptyQueue) (q_tail EmptyQueue) (q_free EmptyQueue) (q_size EmptyQueue))) as (q & -> & Hq & free & Hr);
    cbn [q_ids q_next] in *; rewrite ?zlen_replicate in *; [done | lia |].
  cbn [mbind option_bind]. eexists. split; [reflexivity|]. fold c in Hcap |- *.
  split; cbn [s_tasks s_ids s_queue s_depth].
  - split; cbn [k_records k_slots k_free k_size k_deleted]; fold c.
    + lia.
    + split; cbn [k_records k_slots k_size k_deleted].
      * done.
      * rewrite zlen_replicate by lia. lia.
      * intros i j r r' E. apply zget_range in E. change (zlen (@nil TaskRecord)) with 0 in E. lia.
      * by rewrite count_slots_replicate.
      * by rewrite count_slots_replicate.
    + rewrite zlen_replicate by lia. lia.
    + change (zlen (@nil TaskRecord)) with 0. lia.
    + exists []. split; [done|]. split; [constructor|]. intros i r E. apply zget_range in E. change (zlen (@nil TaskRecord)) with 0 in E. lia.
    + intros i r E. apply zget_range in E. change (zlen (@nil TaskRecord)) with 0 in E. lia.
    + rewrite count_slots_replicate by done. pose proof (busy_bound [] None). lia.
    + intros i r E. apply zget_range in E. change (zlen (@nil TaskRecord)) with 0 in E. lia.
  - unfold ids_ok. cbn [next_task_id r_active andb]. lia.
  - fold c. split; [unfold queue_capacity; lia | by exists [], free].
  - constructor.
  - done.
  - intros id Hid. by apply elem_of_nil in Hid.
Qed.

(** ** One step *)
(** What a step does to the queued tasks. *)
Definition effect (op : SchedOp) (out : Z) (fresh fresh' : Z) (l l' : list Z) : Prop :=
  fresh <= fresh' /\
  match op with
  | OpSpawn _ => out = 0 /\ l' = l \/ fresh <= out < fresh' /\ l' = l ++ [out]
  | OpPop scope =>
      if scope =? 0 then out = List.hd 0 l /\ l' = List.tl l
      else out = 0 /\ l' = l \/ exists a b, l = a ++ out :: b /\ l' = a ++ b
  | OpState _ _ | OpRetire _ => out = 0 /\ l' = l
  | OpEnqueue _ => out = 0 /\ exists id, l' = l ++ [id]
  | OpRestore id => out = 0 /\ l' = id :: l
  end.

Section Step.
Context {limits : Limits} {fresh : Z} {l : list Z} {s : Scheduler} (H : sched_ok limits fresh l s).

Lemma not_queued id : ~ queued limits id s -> id ∉ l.
Proof using H. intros Hn Hin. apply Hn. exists l. split; [apply H | done]. Qed.

Lemma state_table index id r state : task_at (s_tasks s) id index r ->
  exists t', SetState index state (s_tasks s) = Some t' /\ table_ok (task_capacity limits) fresh None t' /\ same_but index (s_tasks s) t'.
Proof using H.
  intros (E & Hrec & Eid). pose proof (zget_range _ _ _ E) as Hi. unfold SetState. rewrite E. cbn [mbind option_bind]. rewrite zset_Some by done. cbn [mbind option_bind].
  eexists. split; [reflexivity|]. set (r' := mk_record (t_id r) (t_scope_id r) state (t_recyclable r) (t_wake_ticket r)).
  set (records' := <[Z.to_nat index := r']> (k_records (s_tasks s))).
  assert (forall i, i <> index -> zget records' i = zget (k_records (s_tasks s)) i) as Hother by (intros i Hne; apply zget_insert_ne; lia).
  assert (zget records' index = Some r') as Enew by (by apply zget_insert_eq).
  assert (forall i q, zget records' i = Some q -> exists q0, zget (k_records (s_tasks s)) i = Some q0 /\ t_id q0 = t_id q /\ t_recyclable q0 = t_recyclable q) as Hback.
  { intros i q Eq. destruct (decide (i = index)) as [->|Hne]; [|rewrite Hother in Eq by done; by exists q].
    rewrite Enew in Eq. injection Eq as <-. by exists r. }
  split; [|exact Hother]. destruct (so_table _ _ _ _ H) as [H1 H2 H3 H4 (chain & Hc & Hnd & Hin) H6 H7 H8].
  split; cbn [k_records k_slots k_free set_records]; fold r' records'; try done.
  - apply index_ok_records; [done|]. intros i j a b Ea Eb Hab Hne. destruct (Hback i a Ea) as (a0 & Ea0 & Eia & _). destruct (Hback j b Eb) as (b0 & Eb0 & Eib & _).
    apply (io_distinct _ _ H2 i j a0 b0 Ea0 Eb0); congruence.
  - unfold records'. by rewrite zlen_insert.
  - exists chain. split; [|split; [done|]].
    + eapply free_chain_frame; [|exact Hc]. intros x Hx. apply Hother. intros Ex. assert (index + 1 ∈ chain) as Hx' by (by replace (index + 1) with x by lia).
      apply (Hin _ _ E) in Hx' as [Hx' _]. congruence.
    + intros i q Eq. destruct (Hback i q Eq) as (q0 & Eq0 & _ & <-). by apply Hin.
  - intros i q Eq Hq Hs. destruct (Hback i q Eq) as (q0 & Eq0 & <- & Eqr). apply (H6 i q0 Eq0); congruence.
  - assert (live_at (k_records (s_tasks s)) index = true) as Hl by (unfold live_at; by rewrite E, Hrec).
    assert (live_at records' index = true) as Hl' by (unfold live_at; by rewrite Enew; cbn; rewrite Hrec).
    rewrite (busy_close _ _ Hl) in H7. rewrite (busy_close _ _ Hl').
    rewrite (busy_frame (k_records (s_tasks s)) records'); [done | unfold records'; by rewrite zlen_insert|]. intros i Hi'%settled_at_Some. by apply Hother.
  - intros i q Eq. destruct (Hback i q Eq) as (q0 & Eq0 & <- & _). by apply (H8 i q0).
Qed.

Lemma op_ok op : enabled limits op s -> exists out s' fresh' l', sched_op limits op s = Some (out, s') /\
  sched_ok limits fresh' l' s' /\ effect op out fresh fresh' l l'.
Proof using H.
  destruct op as [sp|scope|index state|index|id|index]; cbn [enabled sched_op].
  - intros Hroom. destruct (spawn_ok H sp Hroom) as (r & s' & fresh' & l' & -> & Hok & Hle & Hsp). cbn [mbind option_bind].
    eexists _, s', fresh', l'. split; [reflexivity|]. split; [done|]. split; [done|]. unfold spawned in Hsp.
    destruct (spawn_reason _ _ _ _) as [reason|]; [destruct Hsp as (-> & -> & _); by left|].
    destruct Hsp as (id & index & -> & Hf & -> & _ & _ & (E & _ & Eid)). right. pose proof (tk_fresh _ _ _ _ (so_table _ _ _ _ Hok) _ _ E) as Hlt.
    cbn [t_id] in Hlt. split; [lia | done].
  - intros _. destruct (decide (scope = 0)) as [->|Hs].
    + destruct l as [|id l'] eqn:El.
      * exists 0, s, fresh, []. split; [by apply (pop_empty H)|]. split; [done|]. split; [lia | done].
      * destruct (pop_head H id l' eq_refl) as (s' & E & Hok & _). exists id, s', fresh, l'. split; [done|]. split; [done|]. split; [lia | done].
    + destruct (pop_scope H scope Hs) as (id & l' & s' & E & Hok & _ & Hcase). exists id, s', fresh, l'. split; [done|]. split; [done|].
      split; [lia|]. destruct (Z.eqb_spec scope 0); [done|]. destruct Hcase as [[-> ->]|(a & b & E1 & E2 & _)]; [by left|]. right. by exists a, b.
  - intros (id & r & Ht & Hn%not_queued). destruct (state_table index id r state Ht) as (t' & -> & Htab & Hsame). cbn [mbind option_bind].
    exists 0, (set_tasks t' s), fresh, l. split; [done|]. split; [|split; [lia | done]].
    apply (frame_ok H index); [done | apply H | done|]. intros r' E' _. destruct Ht as (E & _ & Eid). congruence.
  - intros (id & r & Ht & Hst & Hn%not_queued). destruct (enqueue_progress_ok H id index r Ht Hst Hn) as (s' & -> & Hok & _). cbn [mbind option_bind].
    exists 0, s', fresh, (l ++ [id]). split; [done|]. split; [done|]. split; [lia|]. split; [done|]. by exists id.
  - intros (index & r & Ht & Hst & Hn%not_queued). destruct (restore_ok H id index r Ht Hst Hn) as (s' & -> & Hok & _). cbn [mbind option_bind].
    exists 0, s', fresh, (id :: l). split; [done|]. split; [done|]. split; [lia | done].
  - intros (id & r & Ht & Hn%not_queued). destruct (retire_ok H id index r Ht Hn) as (t' & -> & Hok & _). cbn [mbind option_bind].
    exists 0, (set_tasks t' s), fresh, l. split; [done|]. split; [done|]. split; [lia | done].
Qed.
End Step.

(** ** Runs *)
(** The ids given to new tasks. *)
Definition spawned_id (e : SchedOp * Z) : option Z :=
  match e with (OpSpawn _, out) => if out =? 0 then None else Some out | _ => None end.
Definition issued (trace : list (SchedOp * Z)) : list Z := omap spawned_id trace.

Lemma steps_ok limits s trace s' : steps limits s trace s' -> forall fresh l, sched_ok limits fresh l s ->
  exists fresh' l', sched_ok limits fresh' l' s' /\ fresh <= fresh' /\ NoDup (issued trace) /\
    forall id, id ∈ issued trace -> fresh <= id < fresh'.
Proof.
  induction 1 as [s|s op out s1 trace s2 Hen Eop Hrun IH]; intros fresh l Hok.
  { exists fresh, l. split; [done|]. split; [lia|]. split; [constructor|]. intros id Hid. by apply elem_of_nil in Hid. }
  destruct (op_ok Hok op Hen) as (out' & s1' & fresh1 & l1 & Eop' & Hok1 & Hle & Heff). rewrite Eop in Eop'. injection Eop' as <- <-.
  destruct (IH fresh1 l1 Hok1) as (fresh2 & l2 & Hok2 & Hle2 & Hnd & Hids). exists fresh2, l2. split; [done|]. split; [lia|].
  unfold issued. cbn [omap list_omap]. fold (issued trace). destruct (spawned_id (op, out)) as [id|] eqn:Eid.
  - destruct op; try done. cbn in Eid. destruct (Z.eqb_spec out 0); [done|]. injection Eid as <-. destruct Heff as [[? _]|[Hf _]]; [done|].
    split; [apply list.NoDup_cons; split; [|done]; intros Hin; pose proof (Hids _ Hin); lia|].
    intros id [->|Hid]%elem_of_cons; [lia|]. pose proof (Hids _ Hid). lia.
  - split; [done|]. intros id Hid. pose proof (Hids _ Hid). lia.
Qed.

Lemma reachable_ok limits trace s : 0 <= task_capacity limits <= U32_MAX - 1 -> reachable limits trace s ->
  exists fresh l, sched_ok limits fresh l s /\ NoDup (issued trace) /\ forall id, id ∈ issued trace -> id < fresh.
Proof.
  intros Hcap (s0 & E0 & Hrun). destruct (configure_ok limits Hcap) as (s0' & E0' & Hok0). rewrite E0 in E0'. injection E0' as <-.
  destruct (steps_ok _ _ _ _ Hrun 1 [] Hok0) as (fresh & l & Hok & _ & Hnd & Hids). exists fresh, l. split; [done|]. split; [done|].
  intros id Hid. by apply Hids.
Qed.

(** The queue determines the list it holds. *)
Lemma linked_inj next slot slots slots' : linked next slot slots -> linked next slot slots' -> (forall x, x ∈ slots ++ slots' -> x <> 0) -> slots = slots'.
Proof.
  revert slot slots'. induction slots as [|x slots IH]; intros slot [|y slots'] H1 H2 Hnz.
  - done.
  - destruct H2 as [-> _]. cbn in H1. subst y. exfalso. apply (Hnz 0); [by left | done].
  - destruct H1 as [-> _]. cbn in H2. subst x. exfalso. apply (Hnz 0); [by left | done].
  - destruct H1 as [-> (n1 & E1 & H1)], H2 as [<- (n2 & E2 & H2)]. rewrite E1 in E2. injection E2 as <-. f_equal. apply (IH n1); [done | done|].
    intros z Hz. apply Hnz. apply elem_of_app in Hz as [Hz|Hz]; [right; apply elem_of_app; by left|]. right. apply elem_of_app. right. by right.
Qed.

Lemma queue_of_inj capacity q l l' : queue_of capacity q l -> queue_of capacity q l' -> l = l'.
Proof.
  intros [_ (slots & free & H)] [_ (slots' & free' & H')]. assert (slots = slots') as <-.
  { apply (linked_inj (q_next q) (q_head q)); [apply H | apply H'|]. intros x [Hx|Hx]%elem_of_app; [pose proof (rep_pos H x Hx) | pose proof (rep_pos H' x Hx)]; lia. }
  pose proof (rp_list _ _ _ _ H) as H1. pose proof (rp_list _ _ _ _ H') as H2. clear H H'. revert l' H2. induction H1 as [|s id slots l E H1 IH]; intros l' H2.
  - by apply Forall2_nil_inv_l in H2 as ->.
  - apply Forall2_cons_inv_l in H2 as (id' & l2 & E' & H2 & ->). rewrite E in E'. injection E' as <-. f_equal. by apply IH.
Qed.

(** ** Example *)
(** A task is spawned, popped, completed and retired, and two more are spawned. *)
Definition example_limits : Limits := mk_limits 2 2.
Definition example_spawn (scope : Z) : SpawnRequest := mk_spawn true AdmitSpawn 0 0 scope false false false true.
Definition example_trace : list (SchedOp * Z) :=
  [(OpSpawn (example_spawn 1), 1); (OpPop 0, 1); (OpState 0 Completed, 0); (OpRetire 0, 0);
   (OpSpawn (example_spawn 1), 2); (OpSpawn (example_spawn 4), 3)].

Definition run_trace (limits : Limits) (trace : list (SchedOp * Z)) : option Scheduler :=
  s ← configure_tasks limits;
  for_each (fun s e => '(_, s) ← sched_op limits (fst e) s; Some s) s trace.
Definition example_scheduler : Scheduler := Eval vm_compute in
  match run_trace example_limits example_trace with
  | Some s => s
  | None => mk_scheduler (mk_tasks [] [] 0 0 0) (mk_ids 0 false 0 0 0 0) EmptyQueue 0
  end.

Lemma queued_none limits s id : q_size (s_queue s) = 0 -> ~ queued limits id s.
Proof.
  intros E (l & [_ (slots & free & H)] & Hin). pose proof (rp_size _ _ _ _ H) as Hs. rewrite <- (rep_length H), E in Hs.
  destruct l; [by apply elem_of_nil in Hin|]. rewrite zlen_cons in Hs. pose proof (zlen_nonneg l). lia.
Qed.

Lemma example_reachable : reachable example_limits example_trace example_scheduler.
Proof.
  eexists. split; [vm_compute; reflexivity|].
  eapply steps_cons; [vm_compute; discriminate | vm_compute; reflexivity|].
  eapply steps_cons; [exact I | vm_compute; reflexivity|].
  eapply steps_cons; [exists 1; eexists; split; [repeat split; vm_compute; reflexivity | by apply queued_none] | vm_compute; reflexivity|].
  eapply steps_cons; [exists 1; eexists; split; [repeat split; vm_compute; reflexivity | by apply queued_none] | vm_compute; reflexivity|].
  eapply steps_cons; [vm_compute; discriminate | vm_compute; reflexivity|].
  eapply steps_cons; [vm_compute; discriminate | vm_compute; reflexivity|]. apply steps_nil.
Qed.

(** C5: In every state the scheduler reaches from its first one by operations under the
    conditions above: no id was issued twice; no operation is undefined behaviour or
    aborts; the index finds every live task, at its record, under a nonzero id; and the
    ready queue holds distinct tasks, as many as the depth says, all of them live and
    ready. *)
Theorem scheduler_safe limits trace s : 0 <= task_capacity limits <= U32_MAX - 1 -> reachable limits trace s ->
  NoDup (issued trace) /\
  (forall op, enabled limits op s -> exists out s', sched_op limits op s = Some (out, s')) /\
  (forall index r, zget (k_records (s_tasks s)) index = Some r -> t_recyclable r = false ->
     t_id r <> 0 /\ Find (t_id r) (s_tasks s) = Some (Some index)) /\
  exists l, queue_of (task_capacity limits) (s_queue s) l /\ NoDup l /\ s_depth s = zlen l /\
    forall id, id ∈ l -> ready_task 0 id (s_tasks s) = true.
Proof.
  intros Hcap Hr. destruct (reachable_ok _ _ _ Hcap Hr) as (fresh & l & Hok & Hnd & _).
  split; [done|]. split; [|split].
  - intros op Hen. destruct (op_ok Hok op Hen) as (out & s' & _ & _ & E & _). by exists out, s'.
  - intros index r E Hrec. destruct (find_table index r (so_table _ _ _ _ Hok) E Hrec) as (Hid & _ & Ef). done.
  - exists l. split; [apply Hok|]. split; [apply Hok|]. split; [apply Hok|]. intros id Hid.
    destruct (so_ready _ _ _ _ Hok id Hid) as (index & r & Ht & Hst). unfold ready_task. rewrite (task_found _ _ _ _ _ _ _ Hok Ht).
    destruct Ht as (-> & _). by rewrite Hst.
Qed.

Lemma scheduler_safe_witness : (0 <= task_capacity example_limits <= U32_MAX - 1) /\ reachable example_limits example_trace example_scheduler /\
  issued example_trace = [1; 2; 3] /\
  NoDup (issued example_trace) /\
  (forall op, enabled example_limits op example_scheduler -> exists out s', sched_op example_limits op example_scheduler = Some (out, s')) /\
  (forall index r, zget (k_records (s_tasks example_scheduler)) index = Some r -> t_recyclable r = false ->
     t_id r <> 0 /\ Find (t_id r) (s_tasks example_scheduler) = Some (Some index)) /\
  exists l, queue_of (task_capacity example_limits) (s_queue example_scheduler) l /\ NoDup l /\ s_depth example_scheduler = zlen l /\
    forall id, id ∈ l -> ready_task 0 id (s_tasks example_scheduler) = true.
Proof.
  split; [vm_compute; split; discriminate|]. split; [exact example_reachable|]. split; [reflexivity|].
  apply (scheduler_safe example_limits example_trace example_scheduler); [vm_compute; split; discriminate | exact example_reachable].
Defined.

(** C7: A spawn in a reachable state, with ids left, fails for exactly the reasons of
    [spawn_reason], from the numbers of live and of queued tasks: then the queue and the
    live tasks are as before. Otherwise the task gets an id never issued before, a record
    that was not live and the last place in the queue, and the other records are as they
    were. *)
Theorem spawn_spec limits trace s sp : 0 <= task_capacity limits <= U32_MAX - 1 -> reachable limits trace s ->
  next_task_id (s_ids s) + range_size limits <= U64_MAX ->
  exists fresh l r s' l', queue_of (task_capacity limits) (s_queue s) l /\ (forall id, id ∈ issued trace -> id < fresh) /\
    SpawnPreparedCommitted limits sp s = Some (r, s') /\ queue_of (task_capacity limits) (s_queue s') l' /\
    spawned limits sp fresh l s r l' s'.
Proof.
  intros Hcap Hr Hroom. destruct (reachable_ok _ _ _ Hcap Hr) as (fresh & l & Hok & _ & Hids).
  destruct (spawn_ok Hok sp Hroom) as (r & s' & fresh' & l' & E & Hok' & _ & Hsp). exists fresh, l, r, s', l'.
  split; [apply Hok|]. split; [done|]. split; [done|]. split; [apply Hok' | done].
Qed.

(** The table is full, so the next spawn fails. *)
Lemma spawn_spec_witness : reachable example_limits example_trace example_scheduler /\
  next_task_id (s_ids example_scheduler) + range_size example_limits <= U64_MAX /\
  spawn_reason example_limits (example_spawn 1) (live_tasks (s_tasks example_scheduler)) 2 = Some TaskCapacityExceeded /\
  exists fresh l r s' l', queue_of (task_capacity example_limits) (s_queue example_scheduler) l /\
    (forall id, id ∈ issued example_trace -> id < fresh) /\
    SpawnPreparedCommitted example_limits (example_spawn 1) example_scheduler = Some (r, s') /\
    queue_of (task_capacity example_limits) (s_queue s') l' /\
    spawned example_limits (example_spawn 1) fresh l example_scheduler r l' s'.
Proof.
  split; [exact example_reachable|]. split; [vm_compute; discriminate|]. split; [vm_compute; reflexivity|].
  apply (spawn_spec example_limits example_trace example_scheduler (example_spawn 1));
    [vm_compute; split; discriminate | exact example_reachable | vm_compute; discriminate].
Defined.

(** ** Waiting in the queue *)
Definition is_restore (e : SchedOp * Z) : bool := match e.1 with OpRestore _ => true | _ => false end.
Definition is_pop (e : SchedOp * Z) : bool := match e.1 with OpPop scope => scope =? 0 | _ => false end.
Definition pops (trace : list (SchedOp * Z)) : nat := length (List.filter is_pop trace).

Lemma lookup_skip {A} (a b : list A) x (k : nat) y : (a ++ x :: b) !! k = Some y -> x = y \/ exists k' : nat, (k' <= k)%nat /\ (a ++ b) !! k' = Some y.
Proof.
  intros E. destruct (decide (k < length a)%nat).
  - right. exists k. split; [done|]. rewrite lookup_app_l in * by lia. done.
  - rewrite lookup_app_r in E by lia. destruct (k - length a)%nat as [|j] eqn:Ej; cbn in E; [injection E as ->; by left|].
    right. exists (k - 1)%nat. split; [lia|]. rewrite lookup_app_r by lia. replace (k - 1 - length a)%nat with j by lia. done.
Qed.

(** After a step that restores nothing, a task is popped or is not further back. *)
Lemma effect_front op out fresh fresh' l l' k id : effect op out fresh fresh' l l' -> is_restore (op, out) = false -> l !! k = Some id ->
  (exists scope, (op, out) = (OpPop scope, id)) \/
  exists k', (if is_pop (op, out) then k' < k else k' <= k)%nat /\ l' !! k' = Some id.
Proof.
  intros [_ He] Hr Hk. assert (forall x, (l ++ [x]) !! k = Some id) as Hsnoc by (intros x; by apply lookup_app_l_Some).
  destruct op as [sp|scope|index state|index|id'|index]; cbn in He |- *; try done.
  - right. exists k. split; [done|]. by destruct He as [[_ ->]|[_ ->]].
  - destruct (scope =? 0) eqn:Es.
    + destruct He as [-> ->]. destruct l as [|x l]; [done|]. destruct k as [|k]; cbn in Hk; [injection Hk as ->; left; by exists scope|].
      right. exists k. cbn. split; [lia | done].
    + destruct He as [[_ ->]|(a & b & -> & ->)]; [right; exists k; done|]. destruct (lookup_skip _ _ _ _ _ Hk) as [->|(k' & Hle & Hk')]; [left; by exists scope|].
      right. by exists k'.
  - right. exists k. destruct He as [_ ->]. done.
  - right. exists k. destruct He as (_ & x & ->). done.
  - right. exists k. destruct He as [_ ->]. done.
Qed.

Lemma waits limits s trace s' : steps limits s trace s' -> forall fresh l k id, sched_ok limits fresh l s -> l !! k = Some id ->
  forallb (fun e => negb (is_restore e)) trace = true -> (k < pops trace)%nat -> exists scope, (OpPop scope, id) ∈ trace.
Proof.
  induction 1 as [s|s op out s1 trace s2 Hen Eop Hrun IH]; intros fresh l k id Hok Hk Hnr Hpops; [cbn in Hpops; lia|].
  cbn [forallb] in Hnr. apply andb_true_iff in Hnr as [Hr%negb_true_iff Hnr].
  destruct (op_ok Hok op Hen) as (out' & s1' & fresh1 & l1 & Eop' & Hok1 & Heff). rewrite Eop in Eop'. injection Eop' as <- <-.
  destruct (effect_front _ _ _ _ _ _ _ _ Heff Hr Hk) as [(scope & E)|(k' & Hk' & E)]; [exists scope; rewrite E; by left|].
  unfold pops in Hpops. cbn [List.filter] in Hpops. destruct (IH fresh1 l1 k' id Hok1 E Hnr) as (scope & Hin).
  - unfold pops. destruct (is_pop (op, out)); cbn [length] in Hpops; lia.
  - exists scope. by right.
Qed.

(** C6: A task in the ready queue of a reachable state is popped: whatever operations
    follow, as long as none puts a task back in front, if more of them are unscoped pops
    than there are tasks before it in the queue, one of the pops returns it. *)
Theorem ready_task_popped limits trace s l k id trace' s' : 0 <= task_capacity limits <= U32_MAX - 1 -> reachable limits trace s ->
  queue_of (task_capacity limits) (s_queue s) l -> l !! k = Some id ->
  steps limits s trace' s' -> forallb (fun e => negb (is_restore e)) trace' = true -> (k < pops trace')%nat ->
  exists scope, (OpPop scope, id) ∈ trace'.
Proof.
  intros Hcap Hr Hq Hk Hrun Hnr Hpops. destruct (reachable_ok _ _ _ Hcap Hr) as (fresh & l0 & Hok & _).
  rewrite (queue_of_inj _ _ _ _ Hq (so_queue _ _ _ _ Hok)) in Hk. by apply (waits _ _ _ _ Hrun fresh l0 k).
Qed.

Lemma example_queue : queue_of 2 (s_queue example_scheduler) [2; 3].
Proof.
  destruct (reachable_ok example_limits example_trace example_scheduler) as (fresh & l & Hok & _); [vm_compute; split; discriminate | exact example_reachable|].
  pose proof (so_queue _ _ _ _ Hok) as Hq. destruct (queue_pop_front _ _ _ Hq) as (q1 & E1 & Hq1).
  vm_compute in E1. injection E1 as E1 <-. destruct (queue_pop_front _ _ _ Hq1) as (q2 & E2 & Hq2). vm_compute in E2. injection E2 as E2 <-.
  assert (List.tl (List.tl l) = []) as E3.
  { destruct Hq2 as [_ (slots & free & H)]. pose proof (rp_size _ _ _ _ H) as Hs. rewrite <- (rep_length H) in Hs.
    destruct (List.tl (List.tl l)); [done|]. rewrite zlen_cons in Hs. cbn in Hs. match type of Hs with context [zlen ?z] => pose proof (zlen_nonneg z) end. lia. }
  destruct l as [|x [|y [|z l]]]; cbn in E1, E2, E3; try discriminate. injection E1 as <-. injection E2 as <-. exact Hq.
Qed.

(** The second queued task is popped by a scoped pop, past the first. *)
Lemma ready_task_popped_witness : queue_of 2 (s_queue example_scheduler) [2; 3] /\
  exists scope, (OpPop scope, 3) ∈ [(OpPop 4, 3); (OpPop 0, 2); (OpPop 0, 0)].
Proof.
  split; [exact example_queue|].
  eapply (ready_task_popped example_limits example_trace example_scheduler [2; 3] 1 3 [(OpPop 4, 3); (OpPop 0, 2); (OpPop 0, 0)]);
    [vm_compute; split; discriminate | exact example_reachable | exact example_queue | reflexivity | | reflexivity | cbn; lia].
  eapply steps_cons; [exact I | vm_compute; reflexivity|]. eapply steps_cons; [exact I | vm_compute; reflexivity|].
  eapply steps_cons; [exact I | vm_compute; reflexivity|]. apply steps_nil.
Defined.
