(* ===== verification/Channel.v ===== *)
(** * Channel: bounded channels between tasks

    [include/rund/task/channel/*.hpp] (the control block: a ring of values, the tasks
    waiting to send and to receive, linked through their record slots, the values handed
    to receivers and the completed sends) and [src/runtime/task/scheduler/channel/*.cpp],
    [progress/ready/wait.cpp] (parking and waking a task).

    [A] is the type of the values. The waiting senders and receivers have the same
    fields and code, here one [Waiters]. An operation runs with the scheduler active and
    in a coroutine, since the gate refuses others; then finishing an operation and
    recording it succeed and are left out, as are allocation failure, statistics, and the
    result of a wait ([wait_result]), which waking only clears. The channel is
    locked while it changes and its operations run on one sequencer, so each is one
    step. An option is undefined behaviour, [std::abort] or exhausted fuel. *)
From stdpp Require Import base numbers list option sorting gmap.
From Stdlib Require Import ZArith Lia.
From S2P Require Import Prelude ReadyQueue TaskTable.

Inductive ChannelCode :=
  | ChannelInvalid | ChannelClosed | ChannelCapacityExceeded | ChannelWaitCapacityExceeded | ChannelWrongRuntime
  | NodeRuntimeMissing | TaskContextMissing | TaskHandleUnknown.

(** [TaskSlot]: the record of a task, or the largest index. *)
Definition TaskSlot (t : Tasks) (id : Z) : Z :=
  if id =? 0 then U64_MAX else match IndexFor id t with Some index => index | None => U64_MAX end.

(** ** Waiting tasks *)
Record Waiters := mk_waiters {
  w_waiting : list Z;
  w_next : list Z;
  w_head : Z;
  w_tail : Z;
  w_count : Z;
}.
Definition NoWaiters : Waiters := mk_waiters [] [] 0 0 0.

(** [std::vector::resize] *)
Definition resized {B} (n : Z) (x : B) (l : list B) : list B :=
  take (Z.to_nat n) l ++ replicate (Z.to_nat n - length l) x.

Definition WaiterActive (slot : Z -> Z) (task_id : Z) (w : Waiters) : bool :=
  match within (w_waiting w) (slot task_id) with Some flag => negb (flag =? 0) | None => false end.

(** The part of a push that queues the task. *)
Definition link_waiter (slot : Z -> Z) (task_id : Z) (w : Waiters) : option Waiters :=
  let index := slot task_id in
  if WaiterActive slot task_id w then Some w else
  waiting ← zset (w_waiting w) index 1;
  next ← zset (w_next w) index 0;
  '(next, head) ← (if negb (w_tail w =? 0) then
      let tail := slot (w_tail w) in
      if tail <? zlen next then next ← zset next tail task_id; Some (next, w_head w) else Some (next, w_head w)
    else Some (next, task_id));
  Some (mk_waiters waiting next head task_id (w_count w + 1)).

Definition unlink_visit (slot : Z -> Z) (task_id : Z) (w : Waiters) (st : Z * Z) (_ : Z) : option (flow (Z * Z) Waiters) :=
  let '(previous, current) := st in
  if current =? 0 then Some (Return w) else
  let current_index := slot current in
  if zlen (w_next w) <=? current_index then Some (Return w) else
  next ← zget (w_next w) current_index;
  let next := if next =? current then 0 else next in
  if current =? task_id then
    '(links, head) ← (if negb (previous =? 0) then
        let previous_index := slot previous in
        if previous_index <? zlen (w_next w) then links ← zset (w_next w) previous_index next; Some (links, w_head w)
        else Some (w_next w, w_head w)
      else Some (w_next w, next));
    links ← zset links current_index 0;
    Some (Return (mk_waiters (w_waiting w) links head (if w_tail w =? task_id then previous else w_tail w) (w_count w)))
  else Some (Next (current, next)).

Definition UnlinkWaiter (slot : Z -> Z) (task_id : Z) (w : Waiters) : option Waiters :=
  if zlen (w_next w) <=? slot task_id then Some w else
  r ← for_loop (unlink_visit slot task_id w) (0, w_head w) (range 0 (zlen (w_next w)));
  Some (match r with Return w' => w' | Next _ => w end).

(** Whether the task was waiting. *)
Definition RemoveWaiter (slot : Z -> Z) (task_id : Z) (w : Waiters) : option (bool * Waiters) :=
  if negb (WaiterActive slot task_id w) then Some (false, w) else
  let index := slot task_id in
  if zlen (w_waiting w) <=? index then Some (false, w) else
  w ← UnlinkWaiter slot task_id w;
  waiting ← zset (w_waiting w) index 0;
  next ← zset (w_next w) index 0;
  Some (true, mk_waiters waiting next (w_head w) (w_tail w) (if 0 <? w_count w then w_count w - 1 else w_count w)).

(** The task at the head, taken off the links; it is passed over when it no longer waits. *)
Definition pop_visit (slot : Z -> Z) (w : Waiters) : option (flow Waiters (option Z * Waiters)) :=
  let front := w_head w in
  let index := slot front in
  if zlen (w_next w) <=? index then Some (Return (None, w)) else
  head ← zget (w_next w) index;
  next ← zset (w_next w) index 0;
  let w := mk_waiters (w_waiting w) next head (if head =? 0 then 0 else w_tail w) (w_count w) in
  if negb (WaiterActive slot front w) then Some (Next w) else
  '(_, w) ← RemoveWaiter slot front w;
  Some (Return (Some front, w)).

Definition PopWaiter (slot : Z -> Z) (w : Waiters) : option (option Z * Waiters) :=
  r ← while_loop (S (S (length (w_next w)))) (fun w => negb (w_head w =? 0)) (pop_visit slot) w;
  Some (match r with Next w => (None, w) | Return v => v end).

Section Channel.
Context {A : Type}.

(** ** The ring *)
Record Ring := mk_ring {
  r_buffer : list (option A);
  r_head : Z;
  r_size : Z;
}.

Definition PushBuffered (capacity : Z) (value : A) (r : Ring) : option Ring :=
  if capacity =? 0 then None else
  let index := wrap64 (r_head r + r_size r) mod capacity in
  buffer ← zset (r_buffer r) index (Some value);
  Some (mk_ring buffer (r_head r) (r_size r + 1)).

Definition PopBuffered (capacity : Z) (r : Ring) : option (A * Ring) :=
  if capacity =? 0 then None else
  slot ← zget (r_buffer r) (r_head r);
  value ← slot;
  buffer ← zset (r_buffer r) (r_head r) None;
  Some (value, mk_ring buffer (wrap64 (r_head r + 1) mod capacity) (wrap64 (r_size r - 1))).

Definition ClearBuffered (r : Ring) : Ring := mk_ring (replicate (length (r_buffer r)) None) 0 0.

(** ** The control block *)
Record Control := mk_control {
  c_owner : Z;
  c_capacity : Z;
  c_task_capacity : Z;
  c_ring : Ring;
  c_send : Waiters;
  c_values : list (option A);
  c_recv : Waiters;
  c_rendezvous : list (option (Z * A));
  c_rendezvous_count : Z;
  c_completed : list (option (Z * Z));
  c_completed_count : Z;
  c_counted : list Z;
  c_counted_entries : Z;
  c_in_flight : Z;
  c_closed : bool;
  c_released : bool;
}.

Definition set_ring (r : Ring) (c : Control) : Control :=
  mk_control (c_owner c) (c_capacity c) (c_task_capacity c) r (c_send c) (c_values c) (c_recv c) (c_rendezvous c)
    (c_rendezvous_count c) (c_completed c) (c_completed_count c) (c_counted c) (c_counted_entries c) (c_in_flight c)
    (c_closed c) (c_released c).
Definition set_send (w : Waiters) (values : list (option A)) (c : Control) : Control :=
  mk_control (c_owner c) (c_capacity c) (c_task_capacity c) (c_ring c) w values (c_recv c) (c_rendezvous c)
    (c_rendezvous_count c) (c_completed c) (c_completed_count c) (c_counted c) (c_counted_entries c) (c_in_flight c)
    (c_closed c) (c_released c).
Definition set_recv (w : Waiters) (c : Control) : Control :=
  mk_control (c_owner c) (c_capacity c) (c_task_capacity c) (c_ring c) (c_send c) (c_values c) w (c_rendezvous c)
    (c_rendezvous_count c) (c_completed c) (c_completed_count c) (c_counted c) (c_counted_entries c) (c_in_flight c)
    (c_closed c) (c_released c).
Definition set_rendezvous (l : list (option (Z * A))) (n : Z) (c : Control) : Control :=
  mk_control (c_owner c) (c_capacity c) (c_task_capacity c) (c_ring c) (c_send c) (c_values c) (c_recv c) l n
    (c_completed c) (c_completed_count c) (c_counted c) (c_counted_entries c) (c_in_flight c) (c_closed c) (c_released c).
Definition set_completed (l : list (option (Z * Z))) (n : Z) (c : Control) : Control :=
  mk_control (c_owner c) (c_capacity c) (c_task_capacity c) (c_ring c) (c_send c) (c_values c) (c_recv c) (c_rendezvous c)
    (c_rendezvous_count c) l n (c_counted c) (c_counted_entries c) (c_in_flight c) (c_closed c) (c_released c).
Definition set_counted (l : list Z) (entries in_flight : Z) (c : Control) : Control :=
  mk_control (c_owner c) (c_capacity c) (c_task_capacity c) (c_ring c) (c_send c) (c_values c) (c_recv c) (c_rendezvous c)
    (c_rendezvous_count c) (c_completed c) (c_completed_count c) l entries in_flight (c_closed c) (c_released c).
Definition set_closed (closed released : bool) (c : Control) : Control :=
  mk_control (c_owner c) (c_capacity c) (c_task_capacity c) (c_ring c) (c_send c) (c_values c) (c_recv c) (c_rendezvous c)
    (c_rendezvous_count c) (c_completed c) (c_completed_count c) (c_counted c) (c_counted_entries c) (c_in_flight c)
    closed released.

(** The control block of [make], once the channel is admitted. *)
Definition make (owner capacity task_capacity : Z) : Control :=
  mk_control owner capacity task_capacity (mk_ring (replicate (Z.to_nat capacity) None) 0 0)
    NoWaiters [] NoWaiters [] 0 [] 0 [] 0 0 false false.

Definition BufferEmpty (c : Control) : bool := r_size (c_ring c) =? 0.
Definition BufferFull (c : Control) : bool := r_size (c_ring c) =? c_capacity c.
Definition HasSendWaiters (c : Control) : bool := negb (w_count (c_send c) =? 0).
Definition HasRecvWaiters (c : Control) : bool := negb (w_count (c_recv c) =? 0).

(** The storage of a side, made when it is first needed. *)
Definition EnsureSendWaitStorage (c : Control) : Control :=
  let n := c_task_capacity c in
  let w := c_send c in
  set_counted (resized n 0 (c_counted c)) (c_counted_entries c) (c_in_flight c)
    (set_completed (resized n None (c_completed c)) (c_completed_count c)
      (set_send (mk_waiters (resized n 0 (w_waiting w)) (resized n 0 (w_next w)) (w_head w) (w_tail w) (w_count w))
        (resized n None (c_values c)) c)).
Definition EnsureRecvWaitStorage (c : Control) : Control :=
  let n := c_task_capacity c in
  let w := c_recv c in
  set_counted (resized n 0 (c_counted c)) (c_counted_entries c) (c_in_flight c)
    (set_recv (mk_waiters (resized n 0 (w_waiting w)) (resized n 0 (w_next w)) (w_head w) (w_tail w) (w_count w)) c).
Definition EnsureRendezvousStorage (c : Control) : Control :=
  set_rendezvous (resized (c_task_capacity c) None (c_rendezvous c)) (c_rendezvous_count c) c.

Definition PushSendWaiter (slot : Z -> Z) (task_id : Z) (value : A) (c : Control) : option (bool * Control) :=
  let c := EnsureSendWaitStorage c in
  let index := slot task_id in
  if zlen (w_waiting (c_send c)) <=? index then Some (false, c) else
  w ← link_waiter slot task_id (c_send c);
  values ← zset (c_values c) index (Some value);
  Some (true, set_send w values c).

Definition PushRecvWaiter (slot : Z -> Z) (task_id : Z) (c : Control) : option (bool * Control) :=
  let c := EnsureRecvWaitStorage c in
  let index := slot task_id in
  if zlen (w_waiting (c_recv c)) <=? index then Some (false, c) else
  w ← link_waiter slot task_id (c_recv c);
  Some (true, set_recv w c).

Definition RemoveSendWaiter (slot : Z -> Z) (task_id : Z) (c : Control) : option Control :=
  '(removed, w) ← RemoveWaiter slot task_id (c_send c);
  if (removed : bool) then
    values ← zset (c_values c) (slot task_id) None;
    Some (set_send w values c)
  else Some (set_send w (c_values c) c).

Definition RemoveRecvWaiter (slot : Z -> Z) (task_id : Z) (c : Control) : option Control :=
  '(_, w) ← RemoveWaiter slot task_id (c_recv c);
  Some (set_recv w c).

(** The sender at the head and its value, which has left the waiting values. *)
Definition PopSendWaiter (slot : Z -> Z) (c : Control) : option (option (Z * option A) * Control) :=
  '(popped, w) ← PopWaiter slot (c_send c);
  match popped with
  | None => Some (None, set_send w (c_values c) c)
  | Some front =>
      value ← zget (c_values c) (slot front);
      values ← zset (c_values c) (slot front) None;
      Some (Some (front, value), set_send w values c)
  end.

Definition PopRecvWaiter (slot : Z -> Z) (c : Control) : option (option Z * Control) :=
  '(popped, w) ← PopWaiter slot (c_recv c);
  Some (popped, set_recv w c).

(** ** Values handed over and completed sends *)
Definition PushRendezvous (slot : Z -> Z) (receiver : Z) (value : A) (c : Control) : option Control :=
  match within (c_rendezvous c) (slot receiver) with
  | None => Some c
  | Some entry =>
      l ← zset (c_rendezvous c) (slot receiver) (Some (receiver, value));
      Some (set_rendezvous l (if entry then c_rendezvous_count c else c_rendezvous_count c + 1) c)
  end.

Definition less_count (n : Z) : Z := if 0 <? n then n - 1 else n.

(** The value handed to the task, when there is one. *)
Definition TakeRendezvous (slot : Z -> Z) (receiver : Z) (c : Control) : option (option A * Control) :=
  match within (c_rendezvous c) (slot receiver) with
  | Some (Some (_, value)) =>
      l ← zset (c_rendezvous c) (slot receiver) None;
      Some (Some value, set_rendezvous l (less_count (c_rendezvous_count c)) c)
  | _ => Some (None, c)
  end.

Definition RemoveRendezvous (slot : Z -> Z) (receiver : Z) (c : Control) : option Control :=
  '(_, c) ← TakeRendezvous slot receiver c; Some c.

Definition AddCountedWake (slot : Z -> Z) (task_id : Z) (c : Control) : option Control :=
  match within (c_counted c) (slot task_id) with
  | None => Some c
  | Some count =>
      l ← zset (c_counted c) (slot task_id) (wrap32 (count + 1));
      Some (set_counted l (c_counted_entries c + 1) (c_in_flight c + 1) c)
  end.

Definition CompleteParkedSend (slot : Z -> Z) (task_id value_count : Z) (c : Control) : option Control :=
  match within (c_completed c) (slot task_id) with
  | None => Some c
  | Some entry =>
      l ← zset (c_completed c) (slot task_id) (Some (task_id, value_count));
      AddCountedWake slot task_id
        (set_completed l (if entry then c_completed_count c else c_completed_count c + 1) c)
  end.

(** The buffered values reported to the completed send, when there is one. *)
Definition TakeCompletedSend (slot : Z -> Z) (task_id : Z) (c : Control) : option (option Z * Control) :=
  match within (c_completed c) (slot task_id) with
  | Some (Some (_, value_count)) =>
      l ← zset (c_completed c) (slot task_id) None;
      Some (Some value_count, set_completed l (less_count (c_completed_count c)) c)
  | _ => Some (None, c)
  end.

Definition RemoveCompletedSend (slot : Z -> Z) (task_id : Z) (c : Control) : option Control :=
  '(_, c) ← TakeCompletedSend slot task_id c; Some c.

Definition CompleteCountedWake (slot : Z -> Z) (task_id : Z) (c : Control) : option Control :=
  match within (c_counted c) (slot task_id) with
  | None => Some c
  | Some count =>
      if count =? 0 then Some c else
      l ← zset (c_counted c) (slot task_id) (count - 1);
      Some (set_counted l (less_count (c_counted_entries c)) (less_count (c_in_flight c)) c)
  end.

(** ** Release of the scheduler's record of the channel *)
Definition releasable (c : Control) : bool :=
  negb (c_released c) && c_closed c && BufferEmpty c && (c_rendezvous_count c =? 0) && (w_count (c_send c) =? 0) &&
  (c_completed_count c =? 0) && (w_count (c_recv c) =? 0) && (c_counted_entries c =? 0) && (c_in_flight c =? 0).

Definition TryReleaseSchedulerRecord (c : Control) : Control :=
  if releasable c then set_closed (c_closed c) true c else c.

Definition CompleteWokenWaiters (slot : Z -> Z) (task_ids : list Z) (c : Control) : option Control :=
  c ← for_each (fun c task_id => CompleteCountedWake slot task_id c) c task_ids;
  Some (TryReleaseSchedulerRecord c).

Definition FailCloseAfterWakeFailure (slot : Z -> Z) (failed_task_id : Z) (c : Control) : option Control :=
  let c := set_closed true (c_released c) c in
  let c := set_ring (ClearBuffered (c_ring c)) c in
  let c := set_recv NoWaiters (set_send NoWaiters [] c) in
  c ← RemoveRendezvous slot failed_task_id c;
  c ← RemoveCompletedSend slot failed_task_id c;
  c ← CompleteCountedWake slot failed_task_id c;
  Some (TryReleaseSchedulerRecord c).

(** ** The operations, while the channel is locked *)
Inductive SendBranch :=
  | SendRefused (code : ChannelCode)
  | SendCompleted
  | SendStored
  | SendHanded (receiver : Z)
  | SendQueued.

(** [queued] is set on a second turn of the loop. *)
Definition send_locked (slot : Z -> Z) (task_id : Z) (queued : bool) (value : A) (c : Control)
    : option (SendBranch * Control) :=
  '(completed, c) ← (if queued then TakeCompletedSend slot task_id c else Some (None, c));
  if bool_decide (completed <> None) then Some (SendCompleted, c)
  else if c_closed c then Some (SendRefused ChannelClosed, c)
  else if negb queued && HasRecvWaiters c && ((c_capacity c =? 0) || negb (BufferFull c)) then
    '(receiver, c) ← PopRecvWaiter slot (EnsureRendezvousStorage c);
    match receiver with
    | Some receiver => c ← PushRendezvous slot receiver value c; Some (SendHanded receiver, c)
    | None => Some (SendStored, c)
    end
  else if negb queued && negb (BufferFull c) then
    ring ← PushBuffered (c_capacity c) value (c_ring c);
    Some (SendStored, set_ring ring c)
  else if negb queued then
    '(pushed, c) ← PushSendWaiter slot task_id value c;
    Some (if (pushed : bool) then SendQueued else SendRefused ChannelCapacityExceeded, c)
  else if negb (WaiterActive slot task_id (c_send c)) then Some (SendStored, c)
  else Some (SendQueued, c).

(** Handing the first buffered value to the first waiting receiver. *)
Definition hand_buffered (slot : Z -> Z) (c : Control) : option (option Z * Control) :=
  if negb (BufferEmpty c) && HasRecvWaiters c then
    '(receiver, c) ← PopRecvWaiter slot c;
    match receiver with
    | None => Some (None, c)
    | Some receiver =>
        '(value, ring) ← PopBuffered (c_capacity c) (c_ring c);
        c ← PushRendezvous slot receiver value (set_ring ring c);
        c ← AddCountedWake slot receiver c;
        Some (Some receiver, c)
    end
  else Some (None, c).

Inductive RecvBranch :=
  | RecvRefused (code : ChannelCode)
  | RecvGot (value : A) (sender receiver : option Z)
  | RecvQueued.

(** Taking the first buffered value, whose place goes to the first waiting sender. *)
Definition take_buffered (slot : Z -> Z) (c : Control) : option (RecvBranch * Control) :=
  '(value, ring) ← PopBuffered (c_capacity c) (c_ring c);
  '(pending, c) ← PopSendWaiter slot (set_ring ring c);
  '(sender, c) ← match pending with
    | None => Some (None, c)
    | Some (sender, pending) =>
        next ← pending;
        ring ← PushBuffered (c_capacity c) next (c_ring c);
        let c := set_ring ring c in
        c ← CompleteParkedSend slot sender (r_size (c_ring c)) c;
        Some (Some sender, c)
    end;
  '(receiver, c) ← hand_buffered slot c;
  Some (RecvGot value sender receiver, c).

(** Taking the value of the first waiting sender. *)
Definition take_sender (slot : Z -> Z) (c : Control) : option (RecvBranch * Control) :=
  '(pending, c) ← PopSendWaiter slot c;
  '(sender, pending) ← pending;
  value ← pending;
  c ← CompleteParkedSend slot sender (r_size (c_ring c)) c;
  Some (RecvGot value (Some sender) None, c).

Definition recv_locked (slot : Z -> Z) (task_id : Z) (queued : bool) (c : Control) : option (RecvBranch * Control) :=
  let c := if HasRecvWaiters c && negb (BufferEmpty c) then EnsureRendezvousStorage c else c in
  '(value, c) ← TakeRendezvous slot task_id c;
  match value with
  | Some value =>
      '(receiver, c) ← hand_buffered slot c;
      Some (RecvGot value None receiver, c)
  | None =>
      if negb (BufferEmpty c) then take_buffered slot c
      else if HasSendWaiters c then take_sender slot c
      else if c_closed c then Some (RecvRefused ChannelClosed, c)
      else if negb queued then
        '(pushed, c) ← PushRecvWaiter slot task_id c;
        Some (if (pushed : bool) then RecvQueued else RecvRefused ChannelCapacityExceeded, c)
      else Some (RecvQueued, c)
  end.

(** One waiter of [close]. *)
Definition detach_sender (slot : Z -> Z) (st : list Z * Control) : option (flow (list Z * Control) (list Z * Control)) :=
  let '(waiters, c) := st in
  '(pending, c) ← PopSendWaiter slot c;
  match pending with
  | None => Some (Return (waiters, c))
  | Some (task_id, _) => c ← AddCountedWake slot task_id c; Some (Next (waiters ++ [task_id], c))
  end.
Definition detach_receiver (slot : Z -> Z) (st : list Z * Control) : option (flow (list Z * Control) (list Z * Control)) :=
  let '(waiters, c) := st in
  '(waiter, c) ← PopRecvWaiter slot c;
  match waiter with
  | None => Some (Return (waiters, c))
  | Some task_id => c ← AddCountedWake slot task_id c; Some (Next (waiters ++ [task_id], c))
  end.
Definition reset_links (w : Waiters) : Waiters := mk_waiters (w_waiting w) (w_next w) 0 0 (w_count w).

(** The tasks to wake. *)
Definition close_locked (slot : Z -> Z) (c : Control) : option (list Z * Control) :=
  let c := set_closed true (c_released c) c in
  '(waiters, c) ← (if HasSendWaiters c || HasRecvWaiters c then
      let fuel := S (Z.to_nat (w_count (c_send c) + w_count (c_recv c))) in
      r ← while_loop fuel (fun _ => true) (detach_sender slot) ([], c);
      st ← match r with Return st => Some st | Next _ => None end;
      r ← while_loop fuel (fun _ => true) (detach_receiver slot) st;
      match r with Return st => Some st | Next _ => None end
    else Some ([], c));
  let c := set_recv (reset_links (c_recv c)) (set_send (reset_links (c_send c)) (c_values c) c) in
  Some (waiters, if bool_decide (waiters = []) then TryReleaseSchedulerRecord c else c).
End Channel.
Arguments Ring : clear implicits.
Arguments Control : clear implicits.
Arguments RecvBranch : clear implicits.

(** ** The channel operations of a task, with the scheduler

    [channel/{gate,send,recv,coroutine,close}.hpp] and the functions of the scheduler
    they call: [src/runtime/task/scheduler/channel/{wait,waiters}.cpp] and the wake of
    deadlocked tasks in [progress/ready/wait.cpp]. The world is one channel, the table
    and the queue of the scheduler, and what it keeps about waits. *)
(** ** Parking and waking *)
(** The waits in progress, the next wait id and the wait id of each record. *)
Record Runtime := mk_runtime {
  rt_sched : Scheduler;
  rt_live_waits : Z;
  rt_next_wait : Z;
  rt_wait_ids : gmap Z Z;
}.
Definition set_sched (s : Scheduler) (rt : Runtime) : Runtime :=
  mk_runtime s (rt_live_waits rt) (rt_next_wait rt) (rt_wait_ids rt).

Record ChannelLimits := mk_channel_limits {
  cl_tasks : Limits;
  cl_wait_capacity : Z;
}.

Definition slot_of (rt : Runtime) : Z -> Z := TaskSlot (s_tasks (rt_sched rt)).

(** The code of a failure, or none. *)
Definition ParkChannel (limits : ChannelLimits) (task_id : Z) (rt : Runtime) : option (option ChannelCode * Runtime) :=
  let s := rt_sched rt in
  found ← Find task_id (s_tasks s);
  match found with
  | None => Some (Some TaskContextMissing, rt)
  | Some index =>
      record ← zget (k_records (s_tasks s)) index;
      if negb (bool_decide (t_state record = Running)) then Some (Some TaskContextMissing, rt)
      else if cl_wait_capacity limits <=? rt_live_waits rt then Some (Some ChannelWaitCapacityExceeded, rt)
      else
        t ← SetState index ChannelBlocked (s_tasks s);
        Some (None, mk_runtime (set_tasks t s) (rt_live_waits rt + 1) (wrap64 (rt_next_wait rt + 1))
          (<[index := rt_next_wait rt]> (rt_wait_ids rt)))
  end.

(** A blocked record becomes ready and is queued. *)
Definition unblock (limits : ChannelLimits) (index : Z) (rt : Runtime) : option Runtime :=
  t ← SetState index Ready (s_tasks (rt_sched rt));
  s ← EnqueueProgress (cl_tasks limits) index (set_tasks t (rt_sched rt));
  Some (mk_runtime s (less_count (rt_live_waits rt)) (rt_next_wait rt) (rt_wait_ids rt)).

Definition WakeChannel (limits : ChannelLimits) (task_id : Z) (rt : Runtime) : option (option ChannelCode * Runtime) :=
  found ← Find task_id (s_tasks (rt_sched rt));
  match found with
  | None => Some (Some TaskHandleUnknown, rt)
  | Some index =>
      record ← zget (k_records (s_tasks (rt_sched rt))) index;
      if bool_decide (t_state record = ChannelBlocked) then rt ← unblock limits index rt; Some (None, rt)
      else Some (None, rt)
  end.

Definition lex_le (x y : Z * Z) : Prop := x.1 < y.1 \/ x.1 = y.1 /\ x.2 <= y.2.
#[export] Instance lex_le_dec x y : Decision (lex_le x y).
Proof. unfold lex_le. apply _. Defined.

(** The wait id of a task, or the largest, and the task. *)
Definition wake_key (rt : Runtime) (task_id : Z) : Z * Z :=
  (match Find task_id (s_tasks (rt_sched rt)) with
   | Some (Some index) => default 0 (rt_wait_ids rt !! index)
   | _ => U64_MAX
   end, task_id).

(** The first failure and the tasks that could not be woken. *)
Definition wake_each (limits : ChannelLimits) (st : option ChannelCode * list Z * Runtime) (task_id : Z) : option (option ChannelCode * list Z * Runtime) :=
  let '(failure, failed, rt) := st in
  '(code, rt) ← WakeChannel limits task_id rt;
  Some (match code with
        | None => (failure, failed, rt)
        | Some code => (match failure with None => Some code | Some _ => failure end, failed ++ [task_id], rt)
        end).
Definition WakeChannelWaiters (limits : ChannelLimits) (task_ids : list Z) (rt : Runtime)
    : option (option ChannelCode * list Z * Runtime) :=
  for_each (wake_each limits) (None, [], rt) (map snd (merge_sort lex_le (map (wake_key rt) task_ids))).

(** The records blocked on a channel, woken in the order of their waits. *)
Definition WakeDeadlockedTasks (limits : ChannelLimits) (only_scope_id : Z) (rt : Runtime) : option (bool * Runtime) :=
  let records := k_records (s_tasks (rt_sched rt)) in
  let victim '(index, record) :=
    bool_decide (t_state record = ChannelBlocked) && ((only_scope_id =? 0) || (t_scope_id record =? only_scope_id)) in
  let victims := List.filter victim (zip (range 0 (zlen records)) records) in
  let key '(index, record) := ((default 0 (rt_wait_ids rt !! index), t_id record), index) in
  if bool_decide (victims = []) then Some (false, rt) else
  rt ← for_each (fun rt '(_, index) => unblock limits index rt) rt
         (merge_sort (fun x y => lex_le x.1 y.1) (map key victims));
  Some (true, rt).

(** ** Operations *)
(** The task of an operation the gate lets through: [endpoint] is the code of a bad
    channel, [commit] the scheduler and the task of the context. *)
Definition BeginChannelOperation (endpoint : option ChannelCode) (commit : ChannelCode + (Z * Z)) (owner : Z)
    (require_task : bool) : ChannelCode + Z :=
  match endpoint with
  | Some code => inl code
  | None =>
      match commit with
      | inl code => inl code
      | inr (scheduler_id, task_id) =>
          if scheduler_id =? 0 then inl NodeRuntimeMissing
          else if negb (owner =? scheduler_id) then inl ChannelWrongRuntime
          else if require_task && (task_id =? 0) then inl TaskContextMissing
          else inr task_id
      end
  end.

Section ChannelOps.
Context {A : Type}.

Record World := mk_world {
  w_control : Control A;
  w_runtime : Runtime;
}.

Inductive Reply :=
  | Sent
  | Received (value : A)
  | Parked
  | Refused (code : ChannelCode).

(** Waking a task whose side of an exchange is done; failing closes the channel. *)
Definition wake_or_close (limits : ChannelLimits) (task_id : Z) (w : World) : option (option ChannelCode * World) :=
  '(code, rt) ← WakeChannel limits task_id (w_runtime w);
  match code with
  | None => Some (None, mk_world (w_control w) rt)
  | Some code =>
      c ← FailCloseAfterWakeFailure (slot_of rt) task_id (w_control w);
      Some (Some code, mk_world c rt)
  end.

Definition send_impl (limits : ChannelLimits) (gate : ChannelCode + Z) (value : A) (w : World) : option (Reply * World) :=
  match gate with
  | inl code => Some (Refused code, w)
  | inr task_id =>
      let slot := slot_of (w_runtime w) in
      '(branch, c) ← send_locked slot task_id false value (w_control w);
      let w := mk_world c (w_runtime w) in
      match branch with
      | SendRefused code => Some (Refused code, w)
      | SendCompleted => Some (Sent, mk_world (TryReleaseSchedulerRecord c) (w_runtime w))
      | SendStored => Some (Sent, w)
      | SendHanded receiver =>
          '(failure, w) ← wake_or_close limits receiver w;
          Some (match failure with None => Sent | Some code => Refused code end, w)
      | SendQueued =>
          '(failure, rt) ← ParkChannel limits task_id (w_runtime w);
          match failure with
          | None => Some (Parked, mk_world c rt)
          | Some code =>
              c ← CompleteWokenWaiters (slot_of rt) [task_id] c;
              c ← RemoveSendWaiter (slot_of rt) task_id c;
              Some (Refused code, mk_world c rt)
          end
      end
  end.

Definition wake_option (limits : ChannelLimits) (task_id : option Z) (w : World) : option (option ChannelCode * World) :=
  match task_id with None => Some (None, w) | Some task_id => wake_or_close limits task_id w end.

Definition recv_impl (limits : ChannelLimits) (gate : ChannelCode + Z) (w : World) : option (Reply * World) :=
  match gate with
  | inl code => Some (Refused code, w)
  | inr task_id =>
      let slot := slot_of (w_runtime w) in
      '(branch, c) ← recv_locked slot task_id false (w_control w);
      let w := mk_world c (w_runtime w) in
      match branch with
      | RecvRefused code => Some (Refused code, w)
      | RecvGot value sender receiver =>
          '(failure, w) ← wake_option limits sender w;
          match failure with
          | Some code => Some (Refused code, w)
          | None =>
              '(failure, w) ← wake_option limits receiver w;
              match failure with
              | Some code => Some (Refused code, w)
              | None => Some (Received value, mk_world (TryReleaseSchedulerRecord (w_control w)) (w_runtime w))
              end
          end
      | RecvQueued =>
          '(failure, rt) ← ParkChannel limits task_id (w_runtime w);
          match failure with
          | None => Some (Parked, mk_world c rt)
          | Some code =>
              c ← CompleteWokenWaiters (slot_of rt) [task_id] c;
              c ← RemoveRecvWaiter (slot_of rt) task_id c;
              Some (Refused code, mk_world c rt)
          end
      end
  end.

(** What a parked operation returns when its task runs again. *)
Definition missing (c : Control A) : ChannelCode := if c_closed c then ChannelClosed else TaskContextMissing.

Definition CoroutineResumeSend (task_id : Z) (w : World) : option (Reply * World) :=
  let slot := slot_of (w_runtime w) in
  c ← CompleteWokenWaiters slot [task_id] (w_control w);
  '(completed, c) ← TakeCompletedSend slot task_id c;
  Some (match completed with
        | None => (Refused (missing c), mk_world c (w_runtime w))
        | Some _ => (Sent, mk_world (TryReleaseSchedulerRecord c) (w_runtime w))
        end).

Definition CoroutineResumeRecv (task_id : Z) (w : World) : option (Reply * World) :=
  let slot := slot_of (w_runtime w) in
  c ← CompleteWokenWaiters slot [task_id] (w_control w);
  '(value, c) ← TakeRendezvous slot task_id c;
  Some (match value with
        | None => (Refused (missing c), mk_world c (w_runtime w))
        | Some value => (Received value, mk_world (TryReleaseSchedulerRecord c) (w_runtime w))
        end).

Definition close (limits : ChannelLimits) (gate : ChannelCode + Z) (w : World) : option (option ChannelCode * World) :=
  match gate with
  | inl code => Some (Some code, w)
  | inr _ =>
      '(waiters, c) ← close_locked (slot_of (w_runtime w)) (w_control w);
      if bool_decide (waiters = []) then Some (None, mk_world c (w_runtime w)) else
      '(failure, failed, rt) ← WakeChannelWaiters limits waiters (w_runtime w);
      c ← CompleteWokenWaiters (slot_of rt) failed c;
      Some (failure, mk_world (TryReleaseSchedulerRecord c) rt)
  end.
End ChannelOps.
Arguments World : clear implicits.
Arguments Reply : clear implicits.
