(* ===== verification/ChannelWaiters.v ===== *)
(** * ChannelWaiters: the queue of tasks that wait at a channel

    The linked [Waiters] hold a list of tasks with distinct slots: pushing appends, popping
    takes the head, and removing takes out one task, whatever its place. *)

From stdpp Require Import base numbers list option.
From Stdlib Require Import ZArith Lia.
From S2P Require Import Prelude Channel.

(** ** Chains of tasks *)
(** The tasks from [head] on, each linked at its slot. *)
Fixpoint chained (slot : Z -> Z) (next : list Z) (head : Z) (tasks : list Z) : Prop :=
  match tasks with
  | [] => head = 0
  | t :: tasks => head = t /\ exists n, zget next (slot t) = Some n /\ chained slot next n tasks
  end.

Lemma chained_head slot next head tasks : chained slot next head tasks -> head = List.hd 0 tasks.
Proof. destruct tasks; cbn; [done | by intros [-> _]]. Qed.

(** Links of other slots do not matter. *)
Lemma chained_frame slot next next' head tasks : (forall t, t ∈ tasks -> zget next' (slot t) = zget next (slot t)) ->
  chained slot next head tasks -> chained slot next' head tasks.
Proof.
  revert head. induction tasks as [|t tasks IH]; intros head Hs H; [done|]. destruct H as [-> (n & E & H)].
  split; [done|]. exists n. rewrite Hs by (by left). split; [done|]. apply IH; [|done]. intros y Hy. apply Hs. by right.
Qed.

Lemma chained_slot slot slot' next head tasks : (forall t, t ∈ tasks -> slot' t = slot t) -> chained slot next head tasks ->
  chained slot' next head tasks.
Proof.
  revert head. induction tasks as [|t tasks IH]; intros head Hs H; [done|]. destruct H as [-> (n & E & H)].
  split; [done|]. exists n. rewrite Hs by (by left). split; [done|]. apply IH; [|done]. intros y Hy. apply Hs. by right.
Qed.

Lemma chained_app slot next head pre post : chained slot next head (pre ++ post) ->
  exists mid, chained slot next mid post /\ (pre = [] -> mid = head).
Proof.
  revert head. induction pre as [|t pre IH]; intros head H; [by exists head|]. destruct H as [_ (n & _ & H)].
  destruct (IH n H) as (mid & Hm & _). by exists mid.
Qed.

(** Changing the link of the last task of a prefix. *)
Lemma chained_relink slot next head pre p post mid : chained slot next head (pre ++ p :: post) -> NoDup (map slot (pre ++ [p])) ->
  0 <= slot p < zlen next ->
  forall post', chained slot (<[Z.to_nat (slot p) := mid]> next) mid post' ->
  chained slot (<[Z.to_nat (slot p) := mid]> next) head (pre ++ p :: post').
Proof.
  intros H Hnd Hp post' Hpost. revert head H. induction pre as [|t pre IH]; intros head H.
  - destruct H as [-> _]. split; [done|]. exists mid. rewrite zget_insert_eq by done. done.
  - destruct H as [-> (n & E & H)]. cbn in Hnd. apply list.NoDup_cons in Hnd as [Hn Hnd]. split; [done|]. exists n. split; [|by apply IH].
    rewrite zget_insert_ne; [done | lia|].
    intros Et. apply Hn. rewrite <- Et || rewrite Et. rewrite map_app. apply elem_of_app. right. by left.
Qed.

(** ** The representation *)
Record links_ok (slot : Z -> Z) (tasks : list Z) (w : Waiters) : Prop := {
  lo_sizes : zlen (w_waiting w) = zlen (w_next w);
  lo_slots : forall t, t ∈ tasks -> t <> 0 /\ 0 <= slot t < zlen (w_next w);
  lo_nodup : NoDup (map slot tasks);
  lo_links : chained slot (w_next w) (w_head w) tasks;
  lo_tail : w_tail w = List.last tasks 0;
}.

Record waiting_ok (slot : Z -> Z) (tasks : list Z) (w : Waiters) : Prop := {
  wo_links : links_ok slot tasks w;
  wo_count : w_count w = zlen tasks;
  wo_active : forall i flag, zget (w_waiting w) i = Some flag -> (flag <> 0 <-> i ∈ map slot tasks);
}.

Lemma map_distinct (slot : Z -> Z) tasks t t' : NoDup (map slot tasks) -> t ∈ tasks -> t' ∈ tasks -> slot t = slot t' -> t = t'.
Proof.
  induction tasks as [|x tasks IH]; intros Hnd Ht Ht' E; [by apply elem_of_nil in Ht|]. cbn in Hnd. apply list.NoDup_cons in Hnd as [Hn Hnd].
  assert (forall y, y ∈ tasks -> slot y <> slot x) as Hne.
  { intros y Hy Ey. apply Hn. rewrite <- Ey. by apply list_elem_of_In, in_map, list_elem_of_In. }
  apply elem_of_cons in Ht as [->|Ht], Ht' as [->|Ht']; [done | | |by apply IH].
  - exfalso. by apply (Hne t').
  - exfalso. by apply (Hne t).
Qed.

Lemma elem_of_map (slot : Z -> Z) tasks t : t ∈ tasks -> slot t ∈ map slot tasks.
Proof. intros H. by apply list_elem_of_In, in_map, list_elem_of_In. Qed.

Lemma hd_not_self (slot : Z -> Z) t tasks : NoDup (map slot (t :: tasks)) -> t <> 0 -> List.hd 0 tasks <> t.
Proof.
  intros Hnd Hnz E. destruct tasks as [|x tasks]; cbn in E; [congruence|]. subst x. cbn in Hnd. apply list.NoDup_cons in Hnd as [Hn _].
  apply Hn. by left.
Qed.

Lemma last_snoc_Z (l : list Z) x : List.last (l ++ [x]) 0 = x.
Proof. induction l as [|y l IH]; [done|]. cbn. destruct (l ++ [x]) eqn:E; [by destruct l|]. exact IH. Qed.

Lemma last_app_ne (pre post : list Z) : post <> [] -> List.last (pre ++ post) 0 = List.last post 0.
Proof.
  intros Hp. induction pre as [|y pre IH]; [done|]. cbn. destruct (pre ++ post) eqn:E; [|exact IH].
  apply app_eq_nil in E as [_ ->]. done.
Qed.

Lemma slots_fit (slot : Z -> Z) tasks n : NoDup (map slot tasks) -> (forall t, t ∈ tasks -> 0 <= slot t < n) -> 0 <= n -> zlen tasks <= n.
Proof.
  intros Hnd Hr Hn. assert (map slot tasks ⊆ range 0 n) as Hsub.
  { intros x Hx%list_elem_of_In. apply in_map_iff in Hx as (t & <- & Ht%list_elem_of_In). apply elem_of_range. pose proof (Hr t Ht). lia. }
  pose proof (submseteq_length _ _ (NoDup_submseteq _ _ Hnd Hsub)) as H. rewrite length_map, length_range in H. unfold zlen. lia.
Qed.

(** ** Unlinking *)
Section Unlink.
Context {slot : Z -> Z} {tasks : list Z} {w : Waiters} (H : links_ok slot tasks w).

Definition unlinked (r : option (flow (Z * Z) Waiters)) : option Waiters :=
  r ← r; Some (match r with Return w' => w' | Next _ => w end).

Lemma visit_pass id previous t next i : t <> 0 -> 0 <= slot t < zlen (w_next w) -> zget (w_next w) (slot t) = Some next -> next <> t -> t <> id ->
  unlink_visit slot id w (previous, t) i = Some (Next (t, next)).
Proof using.
  intros Hnz Hr E Hne Hid. unfold unlink_visit. destruct (Z.eqb_spec t 0); [done|]. destruct (Z.leb_spec (zlen (w_next w)) (slot t)); [lia|].
  rewrite E. cbn [mbind option_bind]. destruct (Z.eqb_spec next t); [done|]. by destruct (Z.eqb_spec t id).
Qed.

(** The walk from the task after a prefix. *)
Lemma unlink_absent id rest : forall done_ l, tasks = done_ ++ rest -> id ∉ rest ->
  chained slot (w_next w) (List.hd 0 rest) rest ->
  unlinked (for_loop (unlink_visit slot id w) (List.last done_ 0, List.hd 0 rest) l) = Some w.
Proof using H.
  induction rest as [|t rest IH]; intros done_ l E Hn Hc.
  - destruct l as [|i l]; cbn; [done|]. done.
  - destruct l as [|i l]; [done|]. cbn [for_loop List.hd]. assert (t ∈ tasks) as Ht by (rewrite E; apply elem_of_app; right; by left).
    destruct (lo_slots _ _ _ H t Ht) as [Hnz Hr]. destruct Hc as [_ (nx & En & Hc)].
    assert (nx = List.hd 0 rest) as -> by (by eapply chained_head).
    assert (List.hd 0 rest <> t) as Hne.
    { apply (hd_not_self slot); [|done]. pose proof (lo_nodup _ _ _ H) as Hnd. rewrite E, map_app in Hnd. by apply list.NoDup_app in Hnd as (_ & _ & ?). }
    apply not_elem_of_cons in Hn as [Hid Hn]. rewrite (visit_pass id _ t (List.hd 0 rest)) by congruence || done. cbn [mbind option_bind]. replace t with (List.last (done_ ++ [t]) 0) at 1 by apply last_snoc_Z. apply IH; [by rewrite <- app_assoc | done | done].
Qed.

Lemma UnlinkWaiter_absent id : id ∉ tasks -> UnlinkWaiter slot id w = Some w.
Proof using H.
  intros Hn. unfold UnlinkWaiter. destruct (_ <=? _); [done|]. pose proof (lo_links _ _ _ H) as Hc. pose proof (chained_head _ _ _ _ Hc) as Eh.
  rewrite Eh in Hc |- *. apply (unlink_absent id tasks [] _ eq_refl Hn Hc).
Qed.

(** The waiters after taking [id] out. *)
Definition unlinked_at (pre post : list Z) (id : Z) : Waiters :=
  mk_waiters (w_waiting w)
    (<[Z.to_nat (slot id) := 0]> (match pre with [] => w_next w | _ => <[Z.to_nat (slot (List.last pre 0)) := List.hd 0 post]> (w_next w) end))
    (match pre with [] => List.hd 0 post | _ => w_head w end)
    (if w_tail w =? id then List.last pre 0 else w_tail w) (w_count w).

Lemma unlink_present id pre post : tasks = pre ++ id :: post -> forall done_ rest l, pre = done_ ++ rest ->
  chained slot (w_next w) (List.hd 0 (rest ++ id :: post)) (rest ++ id :: post) -> (length rest < length l)%nat ->
  unlinked (for_loop (unlink_visit slot id w) (List.last done_ 0, List.hd 0 (rest ++ id :: post)) l) = Some (unlinked_at pre post id).
Proof using H.
  intros E done_ rest. revert done_. induction rest as [|t rest IH]; intros done_ l Ed Hc Hl.
  - rewrite app_nil_r in Ed. subst done_. destruct l as [|i l]; [cbn in Hl; lia|]. cbn [for_loop List.hd app].
    assert (id ∈ tasks) as Hid by (rewrite E; apply elem_of_app; right; by left). destruct (lo_slots _ _ _ H id Hid) as [Hnz Hr].
    unfold unlink_visit. destruct (Z.eqb_spec id 0); [done|]. destruct (Z.leb_spec (zlen (w_next w)) (slot id)); [lia|].
    destruct Hc as [_ (nx & En & Hc)]. rewrite En. cbn [mbind option_bind]. assert (nx = List.hd 0 post) as -> by (by eapply chained_head).
    assert (List.hd 0 post <> id) as Hne.
    { apply (hd_not_self slot); [|done]. pose proof (lo_nodup _ _ _ H) as Hnd. rewrite E, map_app in Hnd. by apply list.NoDup_app in Hnd as (_ & _ & ?). }
    destruct (Z.eqb_spec (List.hd 0 post) id); [done|]. rewrite Z.eqb_refl. unfold unlinked_at.
    destruct (decide (pre = [])) as [->|Hpre].
    + cbn [List.last]. rewrite Z.eqb_refl. cbn [negb mbind option_bind]. rewrite zset_Some by lia. done.
    + assert (List.last pre 0 ∈ tasks) as Hp.
      { destruct (exists_last Hpre) as (pre' & p & ->). rewrite last_snoc_Z, E. apply elem_of_app. left. apply elem_of_app. right. by left. }
      destruct (lo_slots _ _ _ H _ Hp) as [Hpnz Hpr]. destruct (Z.eqb_spec (List.last pre 0) 0); [done|]. cbn [negb].
      destruct (Z.ltb_spec (slot (List.last pre 0)) (zlen (w_next w))); [|lia]. rewrite zset_Some by done. cbn [mbind option_bind].
      rewrite zset_Some by (rewrite zlen_insert; lia). cbn [mbind option_bind]. by destruct pre.
  - destruct l as [|i l]; [cbn in Hl; lia|]. cbn [for_loop List.hd app].
    assert (t ∈ tasks) as Ht by (rewrite E, Ed; apply elem_of_app; left; apply elem_of_app; right; by left).
    destruct (lo_slots _ _ _ H t Ht) as [Hnz Hr]. destruct Hc as [_ (nx & En & Hc)].
    assert (nx = List.hd 0 (rest ++ id :: post)) as -> by (by eapply chained_head).
    assert (NoDup (map slot (t :: rest ++ id :: post))) as Hnd.
    { pose proof (lo_nodup _ _ _ H) as Hnd. rewrite E, Ed, <- app_assoc, map_app in Hnd. by apply list.NoDup_app in Hnd as (_ & _ & ?). }
    pose proof (hd_not_self slot t _ Hnd Hnz) as Hne.
    assert (t <> id) as Htid.
    { intros ->. cbn in Hnd. apply list.NoDup_cons in Hnd as [Hn _]. apply Hn. apply elem_of_map. apply elem_of_app. right. by left. }
    rewrite (visit_pass id _ t (List.hd 0 (rest ++ id :: post))) by done. cbn [mbind option_bind]. replace t with (List.last (done_ ++ [t]) 0) at 1 by apply last_snoc_Z.
    apply IH; [by rewrite Ed, <- app_assoc | done | cbn in Hl; lia].
Qed.

Lemma unlinked_at_ok id pre post : tasks = pre ++ id :: post -> links_ok slot (pre ++ post) (unlinked_at pre post id).
Proof using H.
  intros E. assert (forall t, t ∈ pre ++ post -> t ∈ tasks) as Hsub by (intros t Ht; rewrite E; apply elem_of_app in Ht as [?|?]; apply elem_of_app; [by left | right; by right]).
  pose proof (lo_nodup _ _ _ H) as Hnd. rewrite E, map_app in Hnd. cbn [map] in Hnd.
  assert (NoDup (map slot (pre ++ post)) /\ slot id ∉ map slot (pre ++ post)) as [Hnd' Hnid].
  { rewrite <- Permutation_middle in Hnd. apply list.NoDup_cons in Hnd as [? ?]. by rewrite map_app. }
  assert (id ∈ tasks) as Hid by (rewrite E; apply elem_of_app; right; by left). destruct (lo_slots _ _ _ H id Hid) as [Hnz Hr].
  pose proof (lo_links _ _ _ H) as Hc. rewrite E in Hc.
  assert (forall next head, chained slot next head (pre ++ post) -> chained slot (<[Z.to_nat (slot id) := 0]> next) head (pre ++ post)) as Hz.
  { intros next head. apply chained_frame. intros t Ht. pose proof (lo_slots _ _ _ H t (Hsub t Ht)) as [_ Hs]. apply zget_insert_ne; [lia|].
    intros Et. apply Hnid. rewrite Et. by apply elem_of_map. }
  split.
  - cbn. rewrite zlen_insert, (lo_sizes _ _ _ H). destruct pre; [done | by rewrite zlen_insert].
  - intros t Ht. destruct (lo_slots _ _ _ H t (Hsub t Ht)) as [? ?]. split; [done|]. cbn. rewrite zlen_insert. destruct pre; [done | by rewrite zlen_insert].
  - done.
  - cbn [unlinked_at w_next w_head]. apply Hz. destruct pre as [|p0 pre0] eqn:Ep.
    + destruct Hc as [_ (nx & En & Hc)]. pose proof (chained_head _ _ _ _ Hc) as Eh. rewrite Eh in Hc. exact Hc.
    + rewrite <- Ep in *. assert (pre <> []) as Hpre by (by rewrite Ep). destruct (exists_last Hpre) as (pre' & p & Epp). rewrite Epp in *. rewrite last_snoc_Z.
      rewrite <- app_assoc in *. cbn [app] in *. assert (p ∈ tasks) as Hp by (rewrite E; apply elem_of_app; right; by left).
      destruct (lo_slots _ _ _ H p Hp) as [Hpnz Hpr].
      assert (NoDup (map slot (pre' ++ [p]))) as Hndp.
      { rewrite map_app. rewrite map_app in Hnd'. cbn [map] in *. apply list.NoDup_app in Hnd' as (? & Hd & Hnd2). apply list.NoDup_app. split; [done|]. split.
        - intros x Hx Hx'. apply (Hd x Hx). apply list_elem_of_singleton in Hx' as ->. by left.
        - apply NoDup_singleton. }
      apply (chained_relink slot (w_next w) (w_head w) pre' p (id :: post)); [done | done | done|].
      destruct (chained_app _ _ _ _ _ Hc) as (mid & Hm & _). destruct Hm as [_ (n0 & En0 & Hm)]. destruct Hm as [_ (n1 & En1 & Hm)].
      rewrite <- (chained_head _ _ _ _ Hm). eapply chained_frame; [|exact Hm]. intros t Ht.
      assert (t ∈ pre' ++ p :: post) as Ht' by (apply elem_of_app; right; by right). pose proof (lo_slots _ _ _ H t (Hsub t Ht')) as [_ Hs].
      apply zget_insert_ne; [lia|]. intros Et. rewrite map_app in Hnd'. cbn [map] in Hnd'. apply list.NoDup_app in Hnd' as (_ & _ & Hnd2).
      apply list.NoDup_cons in Hnd2 as [Hn2 _]. apply Hn2. rewrite Et. by apply elem_of_map.
  - cbn [unlinked_at w_tail]. rewrite (lo_tail _ _ _ H), E. destruct post as [|x post].
    + rewrite last_snoc_Z, Z.eqb_refl. by rewrite app_nil_r.
    + rewrite (last_app_ne pre (id :: x :: post)) by done. rewrite (last_app_ne pre (x :: post)) by done. change (List.last (id :: x :: post) 0) with (List.last (x :: post) 0).
      destruct (Z.eqb_spec (List.last (x :: post) 0) id) as [El|]; [|done]. exfalso. apply Hnid. rewrite <- El. apply elem_of_map. apply elem_of_app. right.
      destruct (exists_last (l := x :: post) ltac:(done)) as (q & y & Eq). rewrite Eq, last_snoc_Z. apply elem_of_app. right. by left.
Qed.

Lemma UnlinkWaiter_present id pre post : tasks = pre ++ id :: post ->
  UnlinkWaiter slot id w = Some (unlinked_at pre post id) /\ links_ok slot (pre ++ post) (unlinked_at pre post id).
Proof using H.
  intros E. split; [|by apply unlinked_at_ok]. unfold UnlinkWaiter. assert (id ∈ tasks) as Hid by (rewrite E; apply elem_of_app; right; by left).
  destruct (lo_slots _ _ _ H id Hid) as [Hnz Hr]. destruct (Z.leb_spec (zlen (w_next w)) (slot id)); [lia|].
  pose proof (lo_links _ _ _ H) as Hc. pose proof (chained_head _ _ _ _ Hc) as Eh. rewrite Eh in Hc |- *. rewrite E in Hc |- *.
  apply (unlink_present id pre post E [] pre); [done | done|]. rewrite length_range.
  pose proof (slots_fit slot tasks (zlen (w_next w)) ltac:(apply H) ltac:(intros t Ht; by apply (lo_slots _ _ _ H)) ltac:(lia)) as Hf. rewrite E in Hf.
  unfold zlen in *. rewrite length_app in Hf. cbn in Hf. lia.
Qed.
End Unlink.

(** ** Operations *)
Section Waiting.
Context {slot : Z -> Z} {tasks : list Z} {w : Waiters} (H : waiting_ok slot tasks w).

Lemma WaiterActive_spec t : 0 <= slot t < zlen (w_next w) -> WaiterActive slot t w = true <-> slot t ∈ map slot tasks.
Proof using H.
  intros Hr. unfold WaiterActive. rewrite within_zget. pose proof (lo_sizes _ _ _ (wo_links _ _ _ H)) as Hs.
  destruct (zget_is_Some (w_waiting w) (slot t) ltac:(lia)) as [flag E]. rewrite E, negb_true_iff, Z.eqb_neq. by apply (wo_active _ _ _ H).
Qed.

Lemma WaiterActive_out t : zlen (w_next w) <= slot t -> WaiterActive slot t w = false.
Proof using H.
  intros Hr. unfold WaiterActive, within. rewrite (lo_sizes _ _ _ (wo_links _ _ _ H)). destruct (Z.leb_spec (zlen (w_next w)) (slot t)); [done | lia].
Qed.

Lemma link_waiter_ok t : t <> 0 -> 0 <= slot t < zlen (w_next w) -> slot t ∉ map slot tasks ->
  exists w', link_waiter slot t w = Some w' /\ waiting_ok slot (tasks ++ [t]) w' /\ zlen (w_next w') = zlen (w_next w).
Proof using H.
  intros Hnz Hr Hn. unfold link_waiter. destruct (WaiterActive slot t w) eqn:Ea; [by apply (WaiterActive_spec t Hr) in Ea|].
  destruct H as [[L1 L2 L3 L4 L5] Hc Hact]. rewrite (zset_Some (w_waiting w)) by lia. cbn [mbind option_bind]. rewrite (zset_Some (w_next w)) by lia. cbn [mbind option_bind].
  assert (NoDup (map slot (tasks ++ [t]))) as Hnd.
  { rewrite map_app. apply list.NoDup_app. split; [done|]. split; [|apply NoDup_singleton]. intros x Hx ->%list_elem_of_singleton. done. }
  set (next := <[Z.to_nat (slot t) := 0]> (w_next w)).
  assert (forall y, y ∈ tasks -> zget next (slot y) = zget (w_next w) (slot y)) as Hother.
  { intros y Hy. pose proof (L2 y Hy) as [_ ?]. apply zget_insert_ne; [lia|]. intros E. apply Hn. rewrite E. by apply elem_of_map. }
  assert (zget next (slot t) = Some 0) as Et by (by apply zget_insert_eq).
  assert (zlen next = zlen (w_next w)) as Hln by (apply zlen_insert).
  assert (chained slot next (w_head w) tasks) as L4' by (by eapply chained_frame).
  assert (exists next' head', (if negb (w_tail w =? 0) then
      if slot (w_tail w) <? zlen next then next0 ← zset next (slot (w_tail w)) t; Some (next0, w_head w) else Some (next, w_head w) else Some (next, t)) = Some (next', head') /\
      chained slot next' head' (tasks ++ [t]) /\ zlen next' = zlen next) as (next' & head' & -> & Hch & Hlen).
  { rewrite L5. destruct (decide (tasks = [])) as [->|Hne].
    - exists next, t. split; [done|]. split; [|done]. split; [done|]. by exists 0.
    - destruct (exists_last Hne) as (pre & p & ->). rewrite last_snoc_Z. destruct (L2 p ltac:(apply elem_of_app; right; by left)) as [Hpnz Hpr].
      destruct (Z.eqb_spec p 0); [done|]. cbn [negb]. destruct (Z.ltb_spec (slot p) (zlen next)); [|lia]. rewrite zset_Some by lia. cbn [mbind option_bind].
      eexists _, _. split; [reflexivity|]. split; [|by rewrite zlen_insert]. rewrite <- app_assoc. apply (chained_relink slot next (w_head w) pre p []); [done | done | lia|].
      split; [done|]. exists 0. split; [|done]. rewrite zget_insert_ne; [done | lia|]. intros E. apply Hn. rewrite <- E, map_app. apply elem_of_app. right. by left. }
  cbn [mbind option_bind]. eexists. split; [reflexivity|]. split; [|cbn; lia]. split.
  - split; cbn [w_waiting w_next w_head w_tail].
    + rewrite zlen_insert. lia.
    + intros y [Hy| ->%list_elem_of_singleton]%elem_of_app; [destruct (L2 y Hy); split; [done | lia] | split; [done | lia]].
    + done.
    + done.
    + by rewrite last_snoc_Z.
  - cbn [w_count]. rewrite zlen_app. change (zlen [t]) with 1. lia.
  - cbn [w_waiting]. intros i flag E. rewrite map_app, elem_of_app. destruct (decide (i = slot t)) as [->|Hi].
    + rewrite zget_insert_eq in E by lia. injection E as <-. split; [intros _; right; by left | done].
    + rewrite zget_insert_ne in E by lia. rewrite (Hact i flag E). split; [by left|]. intros [?|Hx]; [done|]. cbn in Hx. by apply list_elem_of_singleton in Hx.
Qed.
End Waiting.

(** After the links of a task have been cut, it no longer waits. *)
Lemma waiting_cut slot tasks w id rest w' : waiting_ok slot tasks w -> id ∈ tasks -> links_ok slot rest w' -> w_waiting w' = w_waiting w ->
  zlen (w_next w') = zlen (w_next w) -> w_count w' = w_count w -> Permutation tasks (id :: rest) ->
  exists waiting next, zset (w_waiting w') (slot id) 0 = Some waiting /\ zset (w_next w') (slot id) 0 = Some next /\
    waiting_ok slot rest (mk_waiters waiting next (w_head w') (w_tail w') (if 0 <? w_count w' then w_count w' - 1 else w_count w')) /\
    zlen next = zlen (w_next w).
Proof.
  intros [HL Hc Hact] Hid HL' Ew Ln Ec Hp. destruct (lo_slots _ _ _ HL id Hid) as [Hnz Hr]. pose proof (lo_sizes _ _ _ HL) as Hs.
  rewrite Ew. rewrite !zset_Some by lia. eexists _, _. split; [done|]. split; [done|]. pose proof (lo_nodup _ _ _ HL) as Hnd.
  assert (Permutation (map slot tasks) (slot id :: map slot rest)) as Hp' by (by rewrite Hp). rewrite Hp' in Hnd. apply list.NoDup_cons in Hnd as [Hn Hnd].
  split; [|by rewrite zlen_insert]. split.
  - destruct HL' as [L1 L2 L3 L4 L5]. split; cbn [w_waiting w_next w_head w_tail]; try done.
    + rewrite !zlen_insert. lia.
    + intros y Hy. rewrite zlen_insert. by apply L2.
    + eapply chained_frame; [|exact L4]. intros y Hy. pose proof (L2 y Hy) as [_ ?]. apply zget_insert_ne; [lia|]. intros E. apply Hn. rewrite E. by apply elem_of_map.
  - cbn [w_count]. rewrite Ec, Hc. assert (zlen tasks = zlen rest + 1) as -> by (unfold zlen; rewrite Hp; cbn; lia). pose proof (zlen_nonneg rest).
    destruct (Z.ltb_spec 0 (zlen rest + 1)); lia.
  - cbn [w_waiting]. intros i flag E. destruct (decide (i = slot id)) as [->|Hi].
    + rewrite zget_insert_eq in E by lia. injection E as <-. split; [done|]. intros Hx. by destruct Hn.
    + rewrite zget_insert_ne in E by lia. rewrite (Hact i flag E), Hp'. rewrite elem_of_cons. split; [intros [?|?]; done | by right].
Qed.

Section Popping.
Context {slot : Z -> Z} {tasks : list Z} {w : Waiters} (H : waiting_ok slot tasks w).

Lemma RemoveWaiter_ok id pre post : tasks = pre ++ id :: post ->
  exists w', RemoveWaiter slot id w = Some (true, w') /\ waiting_ok slot (pre ++ post) w' /\ zlen (w_next w') = zlen (w_next w).
Proof using H.
  intros E. assert (id ∈ tasks) as Hid by (rewrite E; apply elem_of_app; right; by left). pose proof (wo_links _ _ _ H) as HL.
  destruct (lo_slots _ _ _ HL id Hid) as [Hnz Hr]. unfold RemoveWaiter. rewrite (proj2 (WaiterActive_spec H id Hr)) by (by apply elem_of_map).
  cbn [negb]. destruct (Z.leb_spec (zlen (w_waiting w)) (slot id)); [rewrite (lo_sizes _ _ _ HL) in *; lia|].
  destruct (UnlinkWaiter_present HL id pre post E) as [-> HL']. cbn [mbind option_bind].
  destruct (waiting_cut slot tasks w id (pre ++ post) (unlinked_at (w := w) pre post id) H Hid HL') as (waiting & next & -> & -> & Hok & Hlen); try done.
  - cbn. rewrite zlen_insert. destruct pre; [done | by rewrite zlen_insert].
  - rewrite E. by rewrite Permutation_middle.
  - cbn [mbind option_bind]. eexists. split; [reflexivity|]. done.
Qed.

Lemma RemoveWaiter_absent id : WaiterActive slot id w = false -> RemoveWaiter slot id w = Some (false, w).
Proof using. intros E. unfold RemoveWaiter. by rewrite E. Qed.

(** The task at the head is taken. *)
Lemma pop_visit_ok id rest : tasks = id :: rest -> w_head w = id /\ id <> 0 /\
  exists w', pop_visit slot w = Some (Return (Some id, w')) /\ waiting_ok slot rest w' /\ zlen (w_next w') = zlen (w_next w).
Proof using H.
  intros E. assert (id ∈ tasks) as Hid by (rewrite E; by left). pose proof (wo_links _ _ _ H) as HL.
  destruct (lo_slots _ _ _ HL id Hid) as [Hnz Hr]. pose proof (lo_links _ _ _ HL) as Hc. rewrite E in Hc. destruct Hc as [Eh (nx & En & Hc)].
  pose proof (chained_head _ _ _ _ Hc) as Enx. pose proof (lo_nodup _ _ _ HL) as Hnd. rewrite E in Hnd. cbn in Hnd. apply list.NoDup_cons in Hnd as [Hn Hnd].
  split; [done|]. split; [done|]. unfold pop_visit. rewrite Eh.
  destruct (Z.leb_spec (zlen (w_next w)) (slot id)); [lia|]. rewrite En. cbn [mbind option_bind]. rewrite zset_Some by done. cbn [mbind option_bind].
  set (w1 := mk_waiters (w_waiting w) (<[Z.to_nat (slot id) := 0]> (w_next w)) nx (if nx =? 0 then 0 else w_tail w) (w_count w)).
  assert (WaiterActive slot id w1 = true) as Ha.
  { pose proof (proj2 (WaiterActive_spec H id Hr) (elem_of_map slot tasks id Hid)) as Ha. exact Ha. }
  assert (links_ok slot rest w1) as HL1.
  { split; cbn [w1 w_waiting w_next w_head w_tail].
    - rewrite zlen_insert. apply HL.
    - intros y Hy. rewrite zlen_insert. apply (lo_slots _ _ _ HL). rewrite E. by right.
    - done.
    - eapply chained_frame; [|exact Hc]. intros y Hy. pose proof (lo_slots _ _ _ HL y ltac:(rewrite E; by right)) as [_ ?].
      apply zget_insert_ne; [lia|]. intros Ey. apply Hn. rewrite Ey. by apply elem_of_map.
    - rewrite Enx, (lo_tail _ _ _ HL), E. destruct rest as [|x rest]; [done|]. cbn [List.hd].
      pose proof (lo_slots _ _ _ HL x ltac:(rewrite E; right; by left)) as [Hx _]. destruct (Z.eqb_spec x 0); done. }
  assert (id ∉ rest) as Hidr by (intros Hx; apply Hn; by apply elem_of_map).
  rewrite Ha. cbn [negb]. unfold RemoveWaiter. rewrite Ha. cbn [negb]. change (w_waiting w1) with (w_waiting w).
  destruct (Z.leb_spec (zlen (w_waiting w)) (slot id)); [rewrite (lo_sizes _ _ _ HL) in *; lia|]. rewrite (UnlinkWaiter_absent HL1 id Hidr). cbn [mbind option_bind].
  destruct (waiting_cut slot tasks w id rest w1 H Hid HL1 eq_refl) as (waiting & next & Ew & Ex & Hok & Hlen); [cbn; by rewrite zlen_insert | done | by rewrite E|].
  rewrite Ew. cbn [mbind option_bind]. rewrite Ex. cbn [mbind option_bind].
  eexists. split; [reflexivity|]. done.
Qed.

Lemma PopWaiter_cons id rest : tasks = id :: rest ->
  exists w', PopWaiter slot w = Some (Some id, w') /\ waiting_ok slot rest w' /\ zlen (w_next w') = zlen (w_next w).
Proof using H.
  intros E. destruct (pop_visit_ok id rest E) as (Eh & Hnz & w' & Ep & Hok). exists w'. split; [|done]. unfold PopWaiter. cbn [while_loop].
  rewrite Ep, Eh. by destruct (Z.eqb_spec id 0).
Qed.

Lemma PopWaiter_nil : tasks = [] -> PopWaiter slot w = Some (None, w).
Proof using H.
  intros E. pose proof (lo_links _ _ _ (wo_links _ _ _ H)) as Hc. rewrite E in Hc. cbn in Hc. unfold PopWaiter. cbn [while_loop]. by rewrite Hc.
Qed.

(** The waiters hold tasks, each at its slot. *)
Lemma waiting_slots t : t ∈ tasks -> t <> 0 /\ 0 <= slot t < zlen (w_next w).
Proof using H. apply (lo_slots _ _ _ (wo_links _ _ _ H)). Qed.

Lemma waiting_change slot' : (forall t, t ∈ tasks -> slot' t = slot t) -> waiting_ok slot' tasks w.
Proof using H.
  intros Hs. assert (map slot' tasks = map slot tasks) as Em.
  { clear H. induction tasks as [|t l IH]; [done|]. cbn. rewrite Hs by (by left). f_equal. apply IH. intros y Hy. apply Hs. by right. }
  destruct H as [[L1 L2 L3 L4 L5] Hc Hact]. split; [split|done|]; try done.
  - intros t Ht. rewrite Hs by done. by apply L2.
  - by rewrite Em.
  - by eapply chained_slot.
  - intros i flag E. rewrite Em. by apply Hact.
Qed.
End Popping.

(** ** Storage *)
Lemma resized_full {B} n (x : B) l : zlen l = n -> resized n x l = l.
Proof. intros E. unfold resized, zlen in *. rewrite take_ge by lia. replace (Z.to_nat n - length l)%nat with 0%nat by lia. by rewrite app_nil_r. Qed.
Lemma resized_nil {B} n (x : B) : resized n x [] = replicate (Z.to_nat n) x.
Proof. unfold resized. rewrite take_nil. cbn [length app]. by rewrite Nat.sub_0_r. Qed.

(** Storage is not made yet or has all its slots. *)
Definition storage_ok {B} (n : Z) (x : B) (l : list B) : Prop := zlen l = n \/ l = [].
Lemma resized_storage {B} n (x : B) l : 0 <= n -> storage_ok n x l -> zlen (resized n x l) = n.
Proof.
  intros Hn [E| ->]; [by rewrite resized_full|]. rewrite resized_nil, zlen_replicate. lia.
Qed.
Lemma resized_get {B} n (x : B) l i y : 0 <= n -> storage_ok n x l -> zget (resized n x l) i = Some y -> zget l i = Some y \/ l = [] /\ y = x.
Proof.
  intros Hn [E| ->]; [rewrite resized_full by done; by left|]. rewrite resized_nil. intros [_ Hy]%zget_Some. right. split; [done|].
  by apply lookup_replicate in Hy as [-> _].
Qed.
Lemma resized_keep {B} n (x : B) l i y : 0 <= n -> storage_ok n x l -> zget l i = Some y -> zget (resized n x l) i = Some y.
Proof. intros Hn [E| ->]; [by rewrite resized_full|]. intros Hy. by apply zget_nil in Hy. Qed.

Lemma NoWaiters_ok slot : waiting_ok slot [] NoWaiters.
Proof. split; [split|done|]; try done; [intros t Ht; by apply elem_of_nil in Ht | constructor|]. intros i flag E. by apply zget_nil in E. Qed.

Lemma resized_waiting slot tasks w n : 0 <= n -> waiting_ok slot tasks w -> storage_ok n 0 (w_next w) ->
  waiting_ok slot tasks (mk_waiters (resized n 0 (w_waiting w)) (resized n 0 (w_next w)) (w_head w) (w_tail w) (w_count w)).
Proof.
  intros Hn [HL Hc Hact] [E|E].
  - rewrite !resized_full; [by destruct w | done|]. by rewrite (lo_sizes _ _ _ HL).
  - assert (tasks = []) as ->.
    { destruct tasks as [|t l]; [done|]. pose proof (lo_slots _ _ _ HL t ltac:(by left)) as [_ Hr]. rewrite E in Hr. change (zlen []) with 0 in Hr. lia. }
    assert (w_waiting w = []) as Ew by (apply zlen_0; rewrite (lo_sizes _ _ _ HL), E; done). rewrite E, Ew, !resized_nil.
    destruct HL as [_ _ _ L4 L5]. split; [split|done|]; cbn [w_waiting w_next w_head w_tail w_count]; try done.
    + intros t Ht. by apply elem_of_nil in Ht.
    + constructor.
    + intros i flag [_ Hy]%zget_Some. apply lookup_replicate in Hy as [-> _]. split; [done|]. intros Hx. by apply elem_of_nil in Hx.
Qed.
