(* ===== verification/ChannelFacts.v ===== *)
(** * ChannelFacts: the locked operations of a channel refine a queue of values

    The abstract channel is the buffered values, the senders that wait with their values,
    the receivers that wait, the values handed to receivers, the sends that have
    completed and whether it is closed. Each locked operation answers as the abstract one
    does and keeps the representation. *)

From stdpp Require Import base numbers list option.
From Stdlib Require Import ZArith Lia.
From S2P Require Import Prelude Channel ChannelWaiters.

(** ** The ring *)
Lemma mod_distinct head cap k j : 0 < cap -> 0 <= k < cap -> 0 <= j < cap -> k <> j -> (head + k) mod cap <> (head + j) mod cap.
Proof.
  intros Hc Hk Hj Hne E. pose proof (Z.div_mod (head + k) cap ltac:(lia)). pose proof (Z.div_mod (head + j) cap ltac:(lia)).
  assert ((head + k) / cap = (head + j) / cap) as Ed by nia. nia.
Qed.

Section Abstract.
Context {A : Type}.

Record ring_ok (cap : Z) (values : list A) (r : Ring A) : Prop := {
  ro_len : zlen (r_buffer r) = cap;
  ro_size : r_size r = zlen values;
  ro_fits : zlen values <= cap;
  ro_head : 0 <= r_head r /\ (0 < cap -> r_head r < cap);
  ro_get : forall k v, zget values k = Some v -> zget (r_buffer r) ((r_head r + k) mod cap) = Some (Some v);
}.

Lemma PushBuffered_ok cap values r v : 0 <= cap <= U32_MAX -> ring_ok cap values r -> zlen values < cap ->
  exists r', PushBuffered cap v r = Some r' /\ ring_ok cap (values ++ [v]) r'.
Proof.
  intros Hcap [H1 H2 H3 [H4 H5] H6] Hroom. unfold PushBuffered. pose proof (zlen_nonneg values). destruct (Z.eqb_spec cap 0); [lia|].
  rewrite wrap64_small by (unfold is_u64; lia). rewrite H2. pose proof (Z.mod_pos_bound (r_head r + zlen values) cap ltac:(lia)) as Hm.
  rewrite zset_Some by lia. cbn [mbind option_bind]. eexists. split; [reflexivity|]. split; cbn [r_buffer r_size r_head].
  - by rewrite zlen_insert.
  - rewrite zlen_app. change (zlen [v]) with 1. lia.
  - rewrite zlen_app. change (zlen [v]) with 1. lia.
  - split; lia.
  - intros k x E. pose proof (zget_range _ _ _ E) as Hk. rewrite zlen_app in Hk. change (zlen [v]) with 1 in Hk.
    destruct (decide (k = zlen values)) as [->|Hne].
    + rewrite zget_app_mid in E by done. injection E as <-. by rewrite zget_insert_eq by lia.
    + rewrite zget_app_l in E by lia. rewrite zget_insert_ne; [by apply H6 | lia|]. intros Em.
      apply (mod_distinct (r_head r) cap k (zlen values)); [lia | lia | lia | done | congruence].
Qed.

Lemma PopBuffered_ok cap values r v : 0 <= cap <= U32_MAX -> ring_ok cap (v :: values) r ->
  exists r', PopBuffered cap r = Some (v, r') /\ ring_ok cap values r'.
Proof.
  intros Hcap [H1 H2 H3 [H4 H5] H6]. rewrite zlen_cons in *. pose proof (zlen_nonneg values). unfold PopBuffered. destruct (Z.eqb_spec cap 0); [lia|].
  assert (zget (r_buffer r) (r_head r) = Some (Some v)) as E0.
  { pose proof (H6 0 v eq_refl) as E. rewrite Z.add_0_r, Z.mod_small in E by lia. exact E. }
  rewrite E0. cbn [mbind option_bind]. rewrite zset_Some by lia. cbn [mbind option_bind]. eexists. split; [reflexivity|].
  rewrite !wrap64_small by (unfold is_u64; lia). pose proof (Z.mod_pos_bound (r_head r + 1) cap ltac:(lia)). split; cbn [r_buffer r_size r_head].
  - by rewrite zlen_insert.
  - lia.
  - lia.
  - lia.
  - intros k x E. pose proof (zget_range _ _ _ E) as Hk. rewrite Z.add_mod_idemp_l by lia. replace (r_head r + 1 + k) with (r_head r + (k + 1)) by lia.
    rewrite zget_insert_ne; [|lia|].
    + apply H6. rewrite <- E. replace (k + 1) with (zlen [v] + k) by (change (zlen [v]) with 1; lia). apply (zget_app_r [v] values). lia.
    + intros Em. apply (mod_distinct (r_head r) cap 0 (k + 1)); [lia | lia | lia | lia|]. rewrite Z.add_0_r, (Z.mod_small (r_head r)) by lia. done.
Qed.

Lemma ring_empty cap : 0 <= cap -> ring_ok cap [] (mk_ring (replicate (Z.to_nat cap) None) 0 0).
Proof.
  intros Hcap. split; cbn [r_buffer r_size r_head]; try done.
  - rewrite zlen_replicate. lia.
  - intros k v E. by apply zget_nil in E.
Qed.

(** ** The abstract channel *)
Record Abs := mk_abs {
  a_values : list A;
  a_senders : list (Z * A);
  a_receivers : list Z;
  a_handed : list (Z * A);
  a_done : list Z;
  a_closed : bool;
}.
Definition EmptyAbs : Abs := mk_abs [] [] [] [] [] false.

Definition spec_send (cap task_id : Z) (value : A) (a : Abs) : SendBranch * Abs :=
  if a_closed a then (SendRefused ChannelClosed, a)
  else match a_receivers a with
       | r :: receivers =>
           (SendHanded r, mk_abs (a_values a) (a_senders a) receivers (a_handed a ++ [(r, value)]) (a_done a) false)
       | [] =>
           if zlen (a_values a) <? cap
           then (SendStored, mk_abs (a_values a ++ [value]) (a_senders a) [] (a_handed a) (a_done a) false)
           else (SendQueued, mk_abs (a_values a) (a_senders a ++ [(task_id, value)]) [] (a_handed a) (a_done a) false)
       end.

Definition spec_recv (task_id : Z) (a : Abs) : RecvBranch A * Abs :=
  match a_values a, a_senders a with
  | x :: values, [] =>
      (RecvGot x None None, mk_abs values [] (a_receivers a) (a_handed a) (a_done a) (a_closed a))
  | x :: values, (s, v) :: senders =>
      (RecvGot x (Some s) None, mk_abs (values ++ [v]) senders (a_receivers a) (a_handed a) (a_done a ++ [s]) (a_closed a))
  | [], (s, v) :: senders =>
      (RecvGot v (Some s) None, mk_abs [] senders (a_receivers a) (a_handed a) (a_done a ++ [s]) (a_closed a))
  | [], [] =>
      if a_closed a then (RecvRefused ChannelClosed, a)
      else (RecvQueued, mk_abs [] [] (a_receivers a ++ [task_id]) (a_handed a) (a_done a) false)
  end.

Definition spec_close (a : Abs) : list Z * Abs :=
  (map fst (a_senders a) ++ a_receivers a, mk_abs (a_values a) [] [] (a_handed a) (a_done a) true).

(** The completed send or the value handed to a task, taken. *)
Definition spec_done (task_id : Z) (a : Abs) : bool * Abs :=
  (bool_decide (task_id ∈ a_done a),
   mk_abs (a_values a) (a_senders a) (a_receivers a) (a_handed a) (List.filter (fun t => negb (t =? task_id)) (a_done a)) (a_closed a)).
Definition spec_handed (task_id : Z) (a : Abs) : option A * Abs :=
  (snd <$> List.find (fun e => fst e =? task_id) (a_handed a),
   mk_abs (a_values a) (a_senders a) (a_receivers a) (List.filter (fun e => negb (fst e =? task_id)) (a_handed a)) (a_done a) (a_closed a)).

(** The tasks in the middle of an operation. *)
Definition involved (a : Abs) : list Z := map fst (a_senders a) ++ a_receivers a ++ map fst (a_handed a) ++ a_done a.

(** ** The representation *)
Definition send_storage (n : Z) (c : Control A) : Prop :=
  zlen (w_next (c_send c)) = n /\ zlen (c_values c) = n /\ zlen (c_completed c) = n \/
  w_next (c_send c) = [] /\ c_values c = [] /\ c_completed c = [].

Record chan_ok (slot : Z -> Z) (cap n : Z) (c : Control A) (a : Abs) : Prop := {
  co_capacity : c_capacity c = cap /\ 0 <= cap <= U32_MAX;
  co_tasks : c_task_capacity c = n /\ 0 <= n;
  co_ring : ring_ok cap (a_values a) (c_ring c);
  co_send : waiting_ok slot (map fst (a_senders a)) (c_send c);
  co_recv : waiting_ok slot (a_receivers a) (c_recv c);
  co_send_storage : send_storage n c;
  co_recv_storage : storage_ok n 0 (w_next (c_recv c));
  co_rendezvous_storage : storage_ok n None (c_rendezvous c);
  co_counted_storage : storage_ok n 0 (c_counted c);
  co_values : forall s v, (s, v) ∈ a_senders a -> zget (c_values c) (slot s) = Some (Some v);
  co_handed : forall r v, (r, v) ∈ a_handed a -> zget (c_rendezvous c) (slot r) = Some (Some (r, v));
  co_handed_only : forall i e, zget (c_rendezvous c) i = Some (Some e) -> e ∈ a_handed a /\ slot (fst e) = i;
  co_done : forall t, t ∈ a_done a -> exists k, zget (c_completed c) (slot t) = Some (Some (t, k));
  co_done_only : forall i e, zget (c_completed c) i = Some (Some e) -> fst e ∈ a_done a /\ slot (fst e) = i;
  co_distinct : NoDup (map slot (involved a));
  co_slots : forall t, t ∈ involved a -> t <> 0 /\ 0 <= slot t < n;
  co_full : a_senders a <> [] -> zlen (a_values a) = cap;
  co_waiting : a_receivers a <> [] -> a_values a = [] /\ a_senders a = [];
  co_closed : c_closed c = a_closed a;
  co_closed_none : a_closed a = true -> a_senders a = [] /\ a_receivers a = [];
}.

Lemma make_ok slot owner cap n : 0 <= cap <= U32_MAX -> 0 <= n -> chan_ok slot cap n (make owner cap n) EmptyAbs.
Proof.
  intros Hcap Hn. split; cbn [make c_capacity c_task_capacity c_ring c_send c_recv c_values c_rendezvous c_completed c_counted c_closed EmptyAbs
    a_values a_senders a_receivers a_handed a_done a_closed map involved app]; try done.
  - apply ring_empty. lia.
  - apply NoWaiters_ok.
  - apply NoWaiters_ok.
  - by right.
  - by right.
  - by right.
  - by right.
  - intros s v Hx. by apply elem_of_nil in Hx.
  - intros r v Hx. by apply elem_of_nil in Hx.
  - intros i e Hx. by apply zget_nil in Hx.
  - intros s Hx. by apply elem_of_nil in Hx.
  - intros i e Hx. by apply zget_nil in Hx.
  - constructor.
  - intros s Hx. by apply elem_of_nil in Hx.
Qed.

(** ** Parts that do not matter *)
(** What only concerns the wakes in flight and the release of the record. *)
Lemma chan_counted slot cap n c a l e f r : chan_ok slot cap n c a -> storage_ok n 0 l ->
  chan_ok slot cap n (set_closed (c_closed c) r (set_counted l e f c)) a.
Proof. intros [] Hl. by split. Qed.

Definition same_but_counts (c c' : Control A) : Prop := exists l e f r, c' = set_closed (c_closed c) r (set_counted l e f c) /\
  (forall n, storage_ok n 0 (c_counted c) -> storage_ok n 0 l).

Lemma counts_ok slot cap n c c' a : same_but_counts c c' -> chan_ok slot cap n c a -> chan_ok slot cap n c' a.
Proof. intros (l & e & f & r & -> & Hl) H. apply chan_counted; [done|]. apply Hl, H. Qed.

Lemma counts_refl c : same_but_counts c c.
Proof. exists (c_counted c), (c_counted_entries c), (c_in_flight c), (c_released c). split; [by destruct c | done]. Qed.
Lemma counts_trans c1 c2 c3 : same_but_counts c1 c2 -> same_but_counts c2 c3 -> same_but_counts c1 c3.
Proof.
  intros (l & e & f & r & -> & Hl) (l' & e' & f' & r' & -> & Hl'). exists l', e', f', r'. split; [done|]. intros n Hn. by apply Hl', Hl.
Qed.

Lemma storage_len {B} n (x : B) l l' : storage_ok n x l -> zlen l' = zlen l -> storage_ok n x l'.
Proof. intros [E| ->] El; [left; lia|]. right. by apply zlen_0. Qed.
Lemma storage_insert {B} n (x : B) l i y : storage_ok n x l -> storage_ok n x (<[i := y]> l).
Proof. intros [E| ->]; [left; by rewrite zlen_insert | by right]. Qed.

Lemma counts_intro l e f c : (forall n, storage_ok n 0 (c_counted c) -> storage_ok n 0 l) -> same_but_counts c (set_counted l e f c).
Proof. intros Hl. exists l, e, f, (c_released c). split; [by destruct c | done]. Qed.

Lemma AddCountedWake_ok slot t c : exists c', AddCountedWake slot t c = Some c' /\ same_but_counts c c'.
Proof.
  unfold AddCountedWake. rewrite within_zget. destruct (zget (c_counted c) (slot t)) as [k|] eqn:E; [|exists c; split; [done | apply counts_refl]].
  rewrite zset_Some by (by apply zget_range in E). cbn [mbind option_bind]. eexists. split; [reflexivity|].
  apply counts_intro. intros n. apply storage_insert.
Qed.

Lemma CompleteCountedWake_ok slot t c : exists c', CompleteCountedWake slot t c = Some c' /\ same_but_counts c c'.
Proof.
  unfold CompleteCountedWake. rewrite within_zget. destruct (zget (c_counted c) (slot t)) as [k|] eqn:E; [|exists c; split; [done | apply counts_refl]].
  destruct (k =? 0); [exists c; split; [done | apply counts_refl]|].
  rewrite zset_Some by (by apply zget_range in E). cbn [mbind option_bind]. eexists. split; [reflexivity|].
  apply counts_intro. intros n. apply storage_insert.
Qed.

Lemma TryRelease_counts c : same_but_counts c (TryReleaseSchedulerRecord c).
Proof.
  unfold TryReleaseSchedulerRecord. destruct (releasable c); [|apply counts_refl].
  exists (c_counted c), (c_counted_entries c), (c_in_flight c), true. split; [by destruct c | done].
Qed.

Lemma CompleteWokenWaiters_ok slot l c : exists c', CompleteWokenWaiters slot l c = Some c' /\ same_but_counts c c'.
Proof.
  unfold CompleteWokenWaiters. assert (exists c', for_each (fun c t => CompleteCountedWake slot t c) c l = Some c' /\ same_but_counts c c') as (c' & -> & Hc).
  { revert c. induction l as [|t l IH]; intros c; [exists c; split; [done | apply counts_refl]|]. cbn [for_each].
    destruct (CompleteCountedWake_ok slot t c) as (c1 & -> & H1). cbn [mbind option_bind]. destruct (IH c1) as (c2 & E & H2).
    exists c2. split; [exact E|]. by eapply counts_trans. }
  cbn [mbind option_bind]. eexists. split; [reflexivity|]. eapply counts_trans; [exact Hc | apply TryRelease_counts].
Qed.

(** Only the slots of the involved tasks matter. *)
Lemma chan_slots slot slot' cap n c a : (forall t, t ∈ involved a -> slot' t = slot t) -> chan_ok slot cap n c a -> chan_ok slot' cap n c a.
Proof.
  intros Hs []. assert (map slot' (involved a) = map slot (involved a)) as Em.
  { revert Hs. generalize (involved a). intros l Hs. induction l as [|t l IH]; [done|]. cbn. rewrite Hs by (by left). f_equal. apply IH. intros y Hy. apply Hs. by right. }
  assert (forall t v, (t, v) ∈ a_senders a -> t ∈ involved a) as Is.
  { intros t v Hx. apply elem_of_app. left. apply list_elem_of_In, in_map_iff. exists (t, v). split; [done|]. by apply list_elem_of_In. }
  assert (forall t v, (t, v) ∈ a_handed a -> t ∈ involved a) as Ih.
  { intros t v Hx. unfold involved. rewrite !elem_of_app. right. right. left. apply list_elem_of_In, in_map_iff. exists (t, v). split; [done|]. by apply list_elem_of_In. }
  assert (forall t, t ∈ a_done a -> t ∈ involved a) as Id by (intros t Hx; unfold involved; rewrite !elem_of_app; by right; right; right).
  split; try done.
  - apply (waiting_change co_send0). intros t Ht. apply Hs. unfold involved. rewrite !elem_of_app. by left.
  - apply (waiting_change co_recv0). intros t Ht. apply Hs. unfold involved. rewrite !elem_of_app. by right; left.
  - intros s v Hx. rewrite (Hs s) by (by eapply Is). by apply co_values0.
  - intros r v Hx. rewrite (Hs r) by (by eapply Ih). by apply co_handed0.
  - intros i [r v] Hx. destruct (co_handed_only0 i _ Hx) as [Hin E]. split; [done|]. cbn in *. rewrite (Hs r); [done | by eapply Ih].
  - intros t Hx. rewrite (Hs t) by (by apply Id). by apply co_done0.
  - intros i e Hx. destruct (co_done_only0 i e Hx) as [Hin E]. split; [done|]. rewrite (Hs (fst e)); [done | by apply Id].
  - by rewrite Em.
  - intros t Ht. rewrite (Hs t Ht). by apply co_slots0.
Qed.
(** ** The tasks involved *)
Lemma involved_permutation (slot : Z -> Z) n a a' : Permutation (involved a') (involved a) ->
  (NoDup (map slot (involved a)) -> NoDup (map slot (involved a'))) /\
  ((forall t, t ∈ involved a -> t <> 0 /\ 0 <= slot t < n) -> forall t, t ∈ involved a' -> t <> 0 /\ 0 <= slot t < n).
Proof.
  intros Hp. split.
  - intros H. by rewrite Hp.
  - intros H t Ht. apply H. by rewrite <- Hp.
Qed.

(** A task that is not in the middle of an operation. *)
Definition outside (slot : Z -> Z) (n : Z) (a : Abs) (t : Z) : Prop := t <> 0 /\ 0 <= slot t < n /\ slot t ∉ map slot (involved a).

Lemma involved_new slot n a a' t : outside slot n a t -> Permutation (involved a') (t :: involved a) ->
  (NoDup (map slot (involved a)) -> NoDup (map slot (involved a'))) /\
  ((forall t, t ∈ involved a -> t <> 0 /\ 0 <= slot t < n) -> forall t, t ∈ involved a' -> t <> 0 /\ 0 <= slot t < n).
Proof.
  intros (Hz & Hr & Hn) Hp. split.
  - intros H. rewrite Hp. cbn. by apply list.NoDup_cons.
  - intros H x Hx. rewrite Hp in Hx. apply elem_of_cons in Hx as [->|Hx]; [done | by apply H].
Qed.

Lemma not_in_slots (slot : Z -> Z) a t : slot t ∉ map slot (involved a) ->
  (slot t ∉ map slot (map fst (a_senders a))) /\ (slot t ∉ map slot (a_receivers a)) /\
  (slot t ∉ map slot (map fst (a_handed a))) /\ (slot t ∉ map slot (a_done a)).
Proof. unfold involved. rewrite !map_app, !elem_of_app. tauto. Qed.

(** Two involved tasks in different roles have different slots. *)
Lemma slots_apart (slot : Z -> Z) (l1 l2 : list Z) : NoDup (map slot (l1 ++ l2)) -> forall x y, x ∈ l1 -> y ∈ l2 -> slot x <> slot y.
Proof.
  rewrite map_app. intros H x y Hx Hy E. apply list.NoDup_app in H as (_ & Hd & _). apply (Hd (slot x)); [by apply elem_of_map|].
  rewrite E. by apply elem_of_map.
Qed.

Lemma elem_of_fst {B} (l : list (Z * B)) t v : (t, v) ∈ l -> t ∈ map fst l.
Proof. intros H. apply list_elem_of_In, in_map_iff. exists (t, v). split; [done|]. by apply list_elem_of_In. Qed.

(** ** Storage *)
Lemma ensure_rendezvous_ok slot cap n c a : chan_ok slot cap n c a ->
  chan_ok slot cap n (EnsureRendezvousStorage c) a /\ zlen (c_rendezvous (EnsureRendezvousStorage c)) = n.
Proof.
  intros []. destruct co_tasks0 as [En Hn]. unfold EnsureRendezvousStorage. rewrite En. split; [|by apply resized_storage].
  split; try done; cbn [set_rendezvous c_rendezvous].
  - left. by apply resized_storage.
  - intros r v Hx. apply resized_keep; [done | done | by apply co_handed0].
  - intros i e Hx. apply resized_get in Hx as [Hx|[_ ?]]; [by apply co_handed_only0 | done | done | done].
Qed.

Lemma ensure_send_ok slot cap n c a : chan_ok slot cap n c a ->
  chan_ok slot cap n (EnsureSendWaitStorage c) a /\
  let c' := EnsureSendWaitStorage c in zlen (w_waiting (c_send c')) = n /\ zlen (w_next (c_send c')) = n /\ zlen (c_values c') = n /\ zlen (c_completed c') = n.
Proof.
  intros []. destruct co_tasks0 as [En Hn]. unfold EnsureSendWaitStorage. rewrite En. cbn zeta.
  assert (storage_ok n 0 (w_next (c_send c)) /\ storage_ok n None (c_values c) /\ storage_ok n None (c_completed c)) as (S1 & S2 & S3).
  { destruct co_send_storage0 as [(? & ? & ?)|(-> & -> & ->)]; [by repeat split; left | by repeat split; right]. }
  assert (storage_ok n 0 (w_waiting (c_send c))) as S4.
  { pose proof (lo_sizes _ _ _ (wo_links _ _ _ co_send0)) as Es. destruct S1 as [?|E]; [left; lia|]. right. apply zlen_0. by rewrite Es, E. }
  split; [|cbn; by rewrite !resized_storage].
  split; try done; cbn [set_counted set_completed set_send c_send c_values c_completed c_counted].
  - by apply resized_waiting.
  - left. cbn. by rewrite !resized_storage.
  - left. by apply resized_storage.
  - intros s v Hx. apply resized_keep; [done | done | by apply co_values0].
  - intros s Hx. destruct (co_done0 s Hx) as [k E]. exists k. by apply resized_keep.
  - intros i e Hx. apply resized_get in Hx as [Hx|[_ ?]]; [by apply co_done_only0 | done | done | done].
Qed.

Lemma ensure_recv_ok slot cap n c a : chan_ok slot cap n c a ->
  chan_ok slot cap n (EnsureRecvWaitStorage c) a /\
  let c' := EnsureRecvWaitStorage c in zlen (w_waiting (c_recv c')) = n /\ zlen (w_next (c_recv c')) = n.
Proof.
  intros []. destruct co_tasks0 as [En Hn]. unfold EnsureRecvWaitStorage. rewrite En. cbn zeta.
  assert (storage_ok n 0 (w_waiting (c_recv c))) as S4.
  { pose proof (lo_sizes _ _ _ (wo_links _ _ _ co_recv0)) as Es. destruct co_recv_storage0 as [?|E]; [left; lia|]. right. apply zlen_0. by rewrite Es, E. }
  split; [|cbn; by rewrite !resized_storage].
  split; try done; cbn [set_counted set_recv c_recv c_counted].
  - by apply resized_waiting.
  - left. by apply resized_storage.
  - left. by apply resized_storage.
Qed.
(** ** Sending *)
Lemma recv_count slot cap n c a : chan_ok slot cap n c a -> HasRecvWaiters c = negb (bool_decide (a_receivers a = [])).
Proof.
  intros H. unfold HasRecvWaiters. rewrite (wo_count _ _ _ (co_recv _ _ _ _ _ H)). destruct (a_receivers a) as [|r l]; [done|].
  rewrite zlen_cons. pose proof (zlen_nonneg l). destruct (Z.eqb_spec (zlen l + 1) 0); [lia | done].
Qed.
Lemma send_count slot cap n c a : chan_ok slot cap n c a -> HasSendWaiters c = negb (bool_decide (a_senders a = [])).
Proof.
  intros H. unfold HasSendWaiters. rewrite (wo_count _ _ _ (co_send _ _ _ _ _ H)), zlen_map. destruct (a_senders a) as [|r l]; [done|].
  rewrite zlen_cons. pose proof (zlen_nonneg l). destruct (Z.eqb_spec (zlen l + 1) 0); [lia | done].
Qed.
Lemma buffer_empty slot cap n c a : chan_ok slot cap n c a -> BufferEmpty c = bool_decide (a_values a = []).
Proof.
  intros H. unfold BufferEmpty. rewrite (ro_size _ _ _ (co_ring _ _ _ _ _ H)). destruct (a_values a) as [|x l]; [done|].
  rewrite zlen_cons. pose proof (zlen_nonneg l). destruct (Z.eqb_spec (zlen l + 1) 0); [lia | done].
Qed.
Lemma buffer_full slot cap n c a : chan_ok slot cap n c a -> BufferFull c = (zlen (a_values a) =? cap).
Proof. intros H. unfold BufferFull. rewrite (ro_size _ _ _ (co_ring _ _ _ _ _ H)). by destruct (co_capacity _ _ _ _ _ H) as [-> _]. Qed.

(** The first waiting receiver gets a value. *)
Lemma hand_ok slot cap n c a r rs v : chan_ok slot cap n c a -> a_receivers a = r :: rs -> zlen (c_rendezvous c) = n -> a_closed a = false ->
  exists c1 c2, PopRecvWaiter slot c = Some (Some r, c1) /\ PushRendezvous slot r v c1 = Some c2 /\
    chan_ok slot cap n c2 (mk_abs (a_values a) (a_senders a) rs (a_handed a ++ [(r, v)]) (a_done a) false).
Proof.
  intros H Er Hsz Hcl. destruct (PopWaiter_cons (co_recv _ _ _ _ _ H) r rs Er) as (w' & Ep & Hw & Hlen). unfold PopRecvWaiter. rewrite Ep. cbn [mbind option_bind].
  exists (set_recv w' c). assert (r ∈ involved a) as Hr by (unfold involved; rewrite !elem_of_app, Er; right; left; by left).
  destruct (co_slots _ _ _ _ _ H r Hr) as [Hz Hs]. unfold PushRendezvous. rewrite within_zget. cbn [set_recv c_rendezvous].
  destruct (zget_is_Some (c_rendezvous c) (slot r) ltac:(lia)) as [entry Ee].
  rewrite Ee, zset_Some by lia. cbn [mbind option_bind]. eexists. split; [reflexivity|]. split; [reflexivity|].
  assert (Permutation (involved (mk_abs (a_values a) (a_senders a) rs (a_handed a ++ [(r, v)]) (a_done a) false)) (involved a)) as Hp.
  { unfold involved. cbn. rewrite Er, map_app. cbn. apply Permutation_app_head. rewrite <- app_assoc. cbn. rewrite !(Permutation_middle _ _ r). cbn.
    rewrite !app_assoc. by rewrite <- Permutation_middle. }
  destruct (involved_permutation slot n _ _ Hp) as [Pd Ps]. pose proof (co_distinct _ _ _ _ _ H) as Hd.
  assert (forall r' v', (r', v') ∈ a_handed a -> slot r' <> slot r) as Hne.
  { intros r' v' Hin. unfold involved in Hd. rewrite map_app in Hd. apply list.NoDup_app in Hd as (_ & _ & Hd).
    intros E. apply (slots_apart slot _ _ Hd r r'); [rewrite Er; by left | | done]. apply elem_of_app. left. by eapply elem_of_fst. }
  destruct H. split; try done; cbn [a_values a_senders a_receivers a_handed a_done a_closed set_rendezvous set_recv c_recv c_rendezvous].
  - exact (storage_len n 0 _ _ co_recv_storage0 Hlen).
  - left. by rewrite zlen_insert.
  - intros r' v' [Hin|Hin]%elem_of_app.
    + pose proof (Hne r' v' Hin) as Hne'. pose proof (co_handed0 r' v' Hin) as E. pose proof (zget_range _ _ _ E). by rewrite zget_insert_ne by lia.
    + apply list_elem_of_singleton in Hin as [= -> ->]. by apply zget_insert_eq; lia.
  - intros i e E. destruct (decide (i = slot r)) as [->|Hi].
    + rewrite zget_insert_eq in E by lia. injection E as <-. split; [|done]. apply elem_of_app. right. by left.
    + rewrite zget_insert_ne in E by lia. destruct (co_handed_only0 i e E) as [Hin ?]. split; [|done]. apply elem_of_app. by left.
  - by apply Pd.
  - by apply Ps.
  - intros Hrs. apply co_waiting0. by rewrite Er.
  - cbn. by rewrite co_closed0.
Qed.

Lemma send_ok slot cap n c a task v : chan_ok slot cap n c a -> outside slot n a task ->
  exists c', send_locked slot task false v c = Some ((spec_send cap task v a).1, c') /\ chan_ok slot cap n c' (spec_send cap task v a).2.
Proof.
  intros H Hout. unfold send_locked, spec_send. cbn [mbind option_bind]. rewrite bool_decide_eq_false_2 by (by intros ?). rewrite (co_closed _ _ _ _ _ H).
  destruct (a_closed a) eqn:Ecl; [by exists c|]. rewrite (recv_count _ _ _ _ _ H), (buffer_full _ _ _ _ _ H). cbn [negb andb].
  destruct (co_capacity _ _ _ _ _ H) as [Ecap Hcap]. rewrite Ecap. destruct (a_receivers a) as [|r rs] eqn:Er; cbn [negb].
  - rewrite bool_decide_eq_true_2 by done. cbn [negb andb]. pose proof (ro_fits _ _ _ (co_ring _ _ _ _ _ H)) as Hfit.
    destruct (Z.ltb_spec (zlen (a_values a)) cap) as [Hlt|Hge].
    + destruct (Z.eqb_spec (zlen (a_values a)) cap); [lia|]. cbn [negb]. destruct (PushBuffered_ok cap _ _ v Hcap (co_ring _ _ _ _ _ H) Hlt) as (ring & -> & Hring).
      cbn [mbind option_bind]. eexists. split; [reflexivity|]. cbn [snd]. destruct H. split; try done; cbn [a_values a_senders a_receivers a_handed a_done a_closed set_ring c_ring c_recv c_closed].
      * by rewrite <- Er.
      * unfold involved in *. cbn. by rewrite Er in co_distinct0.
      * unfold involved in *. cbn. by rewrite Er in co_slots0.
      * intros Hs. pose proof (co_full0 Hs). lia.
      * congruence.
    + assert (zlen (a_values a) = cap) as Efull by lia. destruct (Z.eqb_spec (zlen (a_values a)) cap); [|done]. cbn [negb].
      destruct Hout as (Hz & Hs & Hn). unfold PushSendWaiter. destruct (ensure_send_ok _ _ _ _ _ H) as (H1 & Hl1 & Hl2 & Hl3 & Hl4). cbn zeta in *.
      set (c1 := EnsureSendWaitStorage c) in *. destruct (Z.leb_spec (zlen (w_waiting (c_send c1))) (slot task)); [lia|].
      destruct (not_in_slots slot a task Hn) as (Hn1 & Hn2 & Hn3 & Hn4).
      destruct (link_waiter_ok (co_send _ _ _ _ _ H1) task Hz ltac:(lia) Hn1) as (w' & -> & Hw & Hlw). cbn [mbind option_bind].
      rewrite zset_Some by lia. cbn [mbind option_bind]. eexists. split; [reflexivity|].
      assert (Permutation (involved (mk_abs (a_values a) (a_senders a ++ [(task, v)]) [] (a_handed a) (a_done a) false)) (task :: involved a)) as Hp.
      { unfold involved. cbn. rewrite Er, map_app. cbn. rewrite <- !app_assoc. cbn. by rewrite <- Permutation_middle. }
      destruct (involved_new slot n a _ task ltac:(by split) Hp) as [Pd Ps]. cbn [snd]. destruct H1. split; try done;
        cbn [a_values a_senders a_receivers a_handed a_done a_closed set_send c_send c_values c_recv c_closed c_completed].
      * by rewrite map_app.
      * by rewrite <- Er.
      * left. cbn [set_send c_send c_values c_completed]. by rewrite zlen_insert, Hlw.
      * intros s x [Hin|Hin]%elem_of_app.
        -- pose proof (co_values0 s x Hin) as E. pose proof (zget_range _ _ _ E). rewrite zget_insert_ne; [done | lia|]. intros Es. apply Hn1. rewrite Es.
           apply elem_of_map. by eapply elem_of_fst.
        -- apply list_elem_of_singleton in Hin as [= -> ->]. apply zget_insert_eq. lia.
      * by apply Pd.
      * by apply Ps.
      * congruence.
  - rewrite bool_decide_eq_false_2 by done. cbn [negb andb]. destruct (co_waiting _ _ _ _ _ H) as [Ev _]; [by rewrite Er|]. rewrite Ev. change (zlen []) with 0.
    assert ((cap =? 0) || negb (0 =? cap) = true) as -> by (rewrite (Z.eqb_sym 0 cap); by destruct (cap =? 0)).
    destruct (ensure_rendezvous_ok _ _ _ _ _ H) as [H1 Hlen]. destruct (hand_ok slot cap n _ a r rs v H1 Er Hlen Ecl) as (c1 & c2 & -> & E2 & Hok).
    cbn [mbind option_bind]. rewrite E2. cbn [mbind option_bind]. exists c2. rewrite Ev in Hok. done.
Qed.
(** ** Receiving *)
Lemma TakeRendezvous_none slot cap n c a t : chan_ok slot cap n c a -> slot t ∉ map slot (map fst (a_handed a)) -> TakeRendezvous slot t c = Some (None, c).
Proof.
  intros H Hn. unfold TakeRendezvous. rewrite within_zget. destruct (zget (c_rendezvous c) (slot t)) as [[[r v]|]|] eqn:E; [|done|done].
  exfalso. destruct (co_handed_only _ _ _ _ _ H _ _ E) as [Hin Es]. cbn in Es. apply Hn. rewrite <- Es. apply elem_of_map. by eapply elem_of_fst.
Qed.

Lemma hand_none slot cap n c a : chan_ok slot cap n c a -> hand_buffered slot c = Some (None, c).
Proof.
  intros H. unfold hand_buffered. rewrite (buffer_empty _ _ _ _ _ H), (recv_count _ _ _ _ _ H). destruct (a_receivers a) as [|r rs] eqn:Er; cbn.
  - by rewrite andb_false_r.
  - destruct (co_waiting _ _ _ _ _ H) as [-> _]; [by rewrite Er | done].
Qed.

(** The first waiting sender leaves, with its value. *)
Lemma pop_send_ok slot cap n c a s v ss : chan_ok slot cap n c a -> a_senders a = (s, v) :: ss ->
  exists w values, (forall c2, c_send c2 = c_send c -> c_values c2 = c_values c -> PopSendWaiter slot c2 = Some (Some (s, Some v), set_send w values c2)) /\
    let a' := mk_abs (a_values a) ss (a_receivers a) (a_handed a) (a_done a) (a_closed a) in
    chan_ok slot cap n (set_send w values c) a' /\ outside slot n a' s /\ zlen (c_completed c) = n.
Proof.
  intros H Es. assert (map fst (a_senders a) = s :: map fst ss) as Em by (by rewrite Es).
  destruct (PopWaiter_cons (co_send _ _ _ _ _ H) s _ Em) as (w & Ep & Hw & Hlen). assert ((s, v) ∈ a_senders a) as Hin by (rewrite Es; by left).
  pose proof (co_values _ _ _ _ _ H s v Hin) as Ev. pose proof (zget_range _ _ _ Ev) as Hr. exists w, (<[Z.to_nat (slot s) := None]> (c_values c)). split.
  { intros c2 E1 E2. unfold PopSendWaiter. rewrite E1, E2, Ep. cbn [mbind option_bind]. rewrite Ev. cbn [mbind option_bind]. by rewrite zset_Some. }
  cbn zeta. assert (Permutation (involved a) (s :: involved (mk_abs (a_values a) ss (a_receivers a) (a_handed a) (a_done a) (a_closed a)))) as Hp by (unfold involved; cbn; by rewrite Es).
  pose proof (co_distinct _ _ _ _ _ H) as Hd. rewrite Hp in Hd. cbn [map] in Hd. apply list.NoDup_cons in Hd as [Hn Hd].
  assert (s ∈ involved a) as Hsi by (rewrite Hp; by left). destruct (co_slots _ _ _ _ _ H s Hsi) as [Hz Hs].
  destruct H. assert (zlen (c_completed c) = n) as Hcn.
  { destruct co_send_storage0 as [(_ & _ & ?)|(_ & E & _)]; [done|]. rewrite E in Ev. by apply zget_nil in Ev. }
  split; [|by split; [split|]]. split; try done; cbn [a_values a_senders a_receivers a_handed a_done a_closed set_send c_send c_values c_completed c_recv c_closed].
  - left. cbn. rewrite zlen_insert, Hlen. destruct co_send_storage0 as [?|(_ & E & _)]; [done|]. rewrite E in Ev. by apply zget_nil in Ev.
  - intros s' v' Hin'. assert (slot s' <> slot s) as Hne.
    { intros E. destruct (not_in_slots slot (mk_abs (a_values a) ss (a_receivers a) (a_handed a) (a_done a) (a_closed a)) s Hn) as (Hn1 & _). apply Hn1. rewrite <- E. cbn.
      apply elem_of_map. by eapply elem_of_fst. }
    assert ((s', v') ∈ a_senders a) as Hin2 by (rewrite Es; by right). pose proof (co_values0 s' v' Hin2) as E. pose proof (zget_range _ _ _ E).
    rewrite zget_insert_ne; [done | lia|]. congruence.
  - intros t Ht. apply co_slots0. rewrite Hp. by right.
  - intros Hss. apply co_full0. by rewrite Es.
  - intros Hrs. destruct (co_waiting0 Hrs) as [_ E]. congruence.
  - intros Hc. destruct (co_closed_none0 Hc) as [E _]. congruence.
Qed.

Lemma complete_ok slot cap n c a s k : chan_ok slot cap n c a -> outside slot n a s -> zlen (c_completed c) = n ->
  exists c', CompleteParkedSend slot s k c = Some c' /\
    chan_ok slot cap n c' (mk_abs (a_values a) (a_senders a) (a_receivers a) (a_handed a) (a_done a ++ [s]) (a_closed a)).
Proof.
  intros H Hout Hlen. pose proof Hout as (Hz & Hs & Hn). unfold CompleteParkedSend. rewrite within_zget.
  destruct (zget_is_Some (c_completed c) (slot s) ltac:(lia)) as [entry Ee]. rewrite Ee, zset_Some by lia. cbn [mbind option_bind].
  match goal with |- context [AddCountedWake slot s ?x] => destruct (AddCountedWake_ok slot s x) as (c' & -> & Hc); set (c1 := x) in * end.
  exists c'. split; [done|]. apply (counts_ok _ _ _ _ _ _ Hc).
  assert (Permutation (involved (mk_abs (a_values a) (a_senders a) (a_receivers a) (a_handed a) (a_done a ++ [s]) (a_closed a))) (s :: involved a)) as Hp.
  { unfold involved. cbn. rewrite !app_assoc. by rewrite <- Permutation_cons_append. }
  destruct (involved_new slot n a _ s Hout Hp) as [Pd Ps]. destruct (not_in_slots slot a s Hn) as (_ & _ & _ & Hn4).
  destruct H. split; try done; cbn [a_values a_senders a_receivers a_handed a_done a_closed c1 set_completed c_completed].
  - destruct co_send_storage0 as [(? & ? & ?)|(? & ? & E)]; [left; cbn; by rewrite zlen_insert|]. rewrite E in Ee. by apply zget_nil in Ee.
  - intros t [Hin| ->%list_elem_of_singleton]%elem_of_app.
    + destruct (co_done0 t Hin) as [j E]. exists j. pose proof (zget_range _ _ _ E). rewrite zget_insert_ne; [done | lia|]. intros Et. apply Hn4. rewrite Et. by apply elem_of_map.
    + exists k. apply zget_insert_eq. lia.
  - intros i e E. destruct (decide (i = slot s)) as [->|Hi].
    + rewrite zget_insert_eq in E by lia. injection E as <-. split; [|done]. apply elem_of_app. right. by left.
    + rewrite zget_insert_ne in E by lia. destruct (co_done_only0 i e E) as [Hin ?]. split; [|done]. apply elem_of_app. by left.
  - by apply Pd.
  - by apply Ps.
Qed.

(** A change of the buffered values. *)
Lemma chan_ring slot cap n c a ring values : chan_ok slot cap n c a -> ring_ok cap values ring ->
  (a_senders a <> [] -> zlen values = cap) -> (a_receivers a <> [] -> values = []) ->
  chan_ok slot cap n (set_ring ring c) (mk_abs values (a_senders a) (a_receivers a) (a_handed a) (a_done a) (a_closed a)).
Proof.
  intros [] Hring Hs Hr. split; try done; cbn [a_values a_senders a_receivers a_handed a_done a_closed]. intros Hx. split; [by apply Hr | by apply co_waiting0].
Qed.
Lemma take_buffered_ok slot cap n c a x values task : chan_ok slot cap n c a -> a_values a = x :: values ->
  exists c', take_buffered slot c = Some ((spec_recv task a).1, c') /\ chan_ok slot cap n c' (spec_recv task a).2.
Proof.
  intros H Ev. unfold take_buffered, spec_recv. rewrite Ev. destruct (co_capacity _ _ _ _ _ H) as [Ecap Hcap]. rewrite Ecap.
  pose proof (co_ring _ _ _ _ _ H) as Hring. rewrite Ev in Hring. destruct (PopBuffered_ok cap values _ x Hcap Hring) as (r1 & -> & Hr1). cbn [mbind option_bind].
  assert (a_receivers a = []) as Er.
  { destruct (a_receivers a) eqn:E; [done|]. destruct (co_waiting _ _ _ _ _ H) as [Ev' _]; [by rewrite E | congruence]. }
  destruct (a_senders a) as [|[s v] ss] eqn:Es.
  - assert (chan_ok slot cap n (set_ring r1 c) (mk_abs values [] (a_receivers a) (a_handed a) (a_done a) (a_closed a))) as H1.
    { rewrite <- Es. apply chan_ring; [done | done | by rewrite Es | by rewrite Er]. }
    unfold PopSendWaiter. pose proof (co_send _ _ _ _ _ H1) as Hw. rewrite (PopWaiter_nil Hw eq_refl). cbn [mbind option_bind].
    change (set_send (c_send (set_ring r1 c)) (c_values (set_ring r1 c)) (set_ring r1 c)) with (set_ring r1 c).
    rewrite (hand_none _ _ _ _ _ H1). cbn [mbind option_bind]. eexists. split; [reflexivity|]. exact H1.
  - destruct (pop_send_ok _ _ _ _ _ s v ss H Es) as (w & vals & Hpop & H1 & Hout & Hlen). cbn zeta in *. rewrite Hpop by done. cbn [mbind option_bind].
    assert (zlen (x :: values) = cap) as Hfull by (rewrite <- Ev; apply (co_full _ _ _ _ _ H); by rewrite Es). rewrite zlen_cons in Hfull.
    cbn [set_send set_ring c_ring c_capacity]. rewrite Ecap. destruct (PushBuffered_ok cap values r1 v Hcap Hr1 ltac:(lia)) as (r2 & -> & Hr2). cbn [mbind option_bind].
    set (c1 := set_send w vals c) in *. change (set_ring r2 _) with (set_ring r2 c1).
    pose proof (chan_ring _ _ _ _ _ r2 (values ++ [v]) H1 Hr2) as H2. cbn [a_senders a_receivers a_handed a_done a_closed] in H2.
    specialize (H2 ltac:(intros _; rewrite zlen_app; change (zlen [v]) with 1; lia) ltac:(by rewrite Er)).
    destruct (complete_ok _ _ _ _ _ s (r_size r2) H2 Hout Hlen) as (c3 & E3 & H3). cbn [a_values a_senders a_receivers a_handed a_done a_closed] in H3.
    change (r_size (c_ring (set_ring r2 c1))) with (r_size r2). rewrite E3. cbn [mbind option_bind]. rewrite (hand_none _ _ _ _ _ H3). cbn [mbind option_bind].
    eexists. split; [reflexivity|]. exact H3.
Qed.

Lemma take_sender_ok slot cap n c a task : chan_ok slot cap n c a -> a_values a = [] -> a_senders a <> [] ->
  exists c', take_sender slot c = Some ((spec_recv task a).1, c') /\ chan_ok slot cap n c' (spec_recv task a).2.
Proof.
  intros H Ev Hne. unfold take_sender, spec_recv. rewrite Ev. destruct (a_senders a) as [|[s v] ss] eqn:Es; [done|].
  destruct (pop_send_ok _ _ _ _ _ s v ss H Es) as (w & vals & Hpop & H1 & Hout & Hlen). cbn zeta in *.
  rewrite Hpop by done. cbn [mbind option_bind].
  destruct (complete_ok _ _ _ _ _ s (r_size (c_ring (set_send w vals c))) H1 Hout Hlen) as (c3 & -> & H3). cbn [mbind option_bind].
  eexists. split; [reflexivity|]. cbn [a_values a_senders a_receivers a_handed a_done a_closed] in H3. rewrite Ev in H3. exact H3.
Qed.

Lemma push_recv_ok slot cap n c a task : chan_ok slot cap n c a -> outside slot n a task -> a_values a = [] -> a_senders a = [] -> a_closed a = false ->
  exists c', PushRecvWaiter slot task c = Some (true, c') /\ chan_ok slot cap n c' (mk_abs [] [] (a_receivers a ++ [task]) (a_handed a) (a_done a) false).
Proof.
  intros H Hout Ev Es Ecl. pose proof Hout as (Hz & Hs & Hn). unfold PushRecvWaiter. destruct (ensure_recv_ok _ _ _ _ _ H) as (H1 & Hl1 & Hl2). cbn zeta in *.
  set (c1 := EnsureRecvWaitStorage c) in *. destruct (Z.leb_spec (zlen (w_waiting (c_recv c1))) (slot task)); [lia|].
  destruct (not_in_slots slot a task Hn) as (_ & Hn2 & _).
  destruct (link_waiter_ok (co_recv _ _ _ _ _ H1) task Hz ltac:(lia) Hn2) as (w' & -> & Hw & Hlw). cbn [mbind option_bind].
  eexists. split; [reflexivity|].
  assert (Permutation (involved (mk_abs [] [] (a_receivers a ++ [task]) (a_handed a) (a_done a) false)) (task :: involved a)) as Hp.
  { unfold involved. cbn. rewrite Es. cbn. rewrite <- !app_assoc. cbn. by rewrite <- Permutation_middle. }
  destruct (involved_new slot n a _ task Hout Hp) as [Pd Ps]. destruct H1. rewrite Ev in *. rewrite Es in *. split; try done;
    cbn [a_values a_senders a_receivers a_handed a_done a_closed set_recv c_recv c_closed].
  - left. lia.
  - by apply Pd.
  - by apply Ps.
  - congruence.
Qed.

Lemma recv_ok slot cap n c a task : chan_ok slot cap n c a -> outside slot n a task ->
  exists c', recv_locked slot task false c = Some ((spec_recv task a).1, c') /\ chan_ok slot cap n c' (spec_recv task a).2.
Proof.
  intros H Hout. unfold recv_locked. assert (HasRecvWaiters c && negb (BufferEmpty c) = false) as ->.
  { rewrite (buffer_empty _ _ _ _ _ H), (recv_count _ _ _ _ _ H). destruct (a_receivers a) eqn:Er; [done|].
    destruct (co_waiting _ _ _ _ _ H) as [-> _]; [by rewrite Er | done]. }
  destruct (not_in_slots slot a task ltac:(apply Hout)) as (_ & _ & Hn3 & _). rewrite (TakeRendezvous_none _ _ _ _ _ _ H Hn3). cbn [mbind option_bind].
  rewrite (buffer_empty _ _ _ _ _ H), (send_count _ _ _ _ _ H). destruct (a_values a) as [|x values] eqn:Ev; cbn [bool_decide negb].
  - rewrite bool_decide_eq_true_2 by done. cbn [negb]. destruct (a_senders a) as [|e ss] eqn:Es.
    + rewrite bool_decide_eq_true_2 by done. cbn [negb]. unfold spec_recv. rewrite Ev, Es, (co_closed _ _ _ _ _ H).
      destruct (a_closed a) eqn:Ecl; [by exists c|]. destruct (push_recv_ok _ _ _ _ _ task H Hout Ev Es Ecl) as (c' & -> & Hok). by exists c'.
    + rewrite bool_decide_eq_false_2 by done. apply take_sender_ok; [done | done | by rewrite Es].
  - rewrite bool_decide_eq_false_2 by done. cbn [negb]. by eapply take_buffered_ok.
Qed.
(** ** Closing *)
(** The representation, whether or not the channel has just been closed. *)
Definition open_ok (slot : Z -> Z) (cap n : Z) (c : Control A) (a : Abs) : Prop :=
  chan_ok slot cap n (set_closed false (c_released c) c) a /\ a_closed a = false.

Lemma open_counts slot cap n c c' a : same_but_counts c c' -> open_ok slot cap n c a -> open_ok slot cap n c' a /\ c_closed c' = c_closed c.
Proof.
  intros (l & e & f & r & -> & Hl) [H Ecl]. split; [|done]. split; [|done].
  apply (chan_counted slot cap n (set_closed false (c_released c) c) a l e f r); [done|]. apply Hl, H.
Qed.

Lemma detach_senders slot cap n ss : forall fuel ws c a, a_senders a = ss -> (length ss < fuel)%nat -> open_ok slot cap n c a ->
  exists c', while_loop fuel (fun _ => true) (detach_sender slot) (ws, c) = Some (Return (ws ++ map fst ss, c')) /\
    open_ok slot cap n c' (mk_abs (a_values a) [] (a_receivers a) (a_handed a) (a_done a) false) /\ c_closed c' = c_closed c.
Proof.
  induction ss as [|[s v] ss IH]; intros fuel ws c a Es Hf [H Ecl]; destruct fuel as [|fuel]; cbn [length] in Hf; try lia; cbn [while_loop].
  - assert (detach_sender slot (ws, c) = Some (Return (ws, c))) as ->.
    { unfold detach_sender, PopSendWaiter. pose proof (co_send _ _ _ _ _ H) as Hw. cbn [set_closed c_send] in Hw. rewrite Es in Hw. rewrite (PopWaiter_nil Hw eq_refl). by destruct c. }
    cbn [mbind option_bind]. rewrite app_nil_r. exists c. split; [done|]. split; [|done].
    destruct a. cbn in *. subst. by split.
  - destruct (pop_send_ok _ _ _ _ _ s v ss H Es) as (w & vals & Hpop & H1 & _). cbn zeta in *.
    destruct (AddCountedWake_ok slot s (set_send w vals c)) as (c1 & Ec1 & Hc).
    assert (detach_sender slot (ws, c) = Some (Next (ws ++ [s], c1))) as -> by (unfold detach_sender; rewrite (Hpop c) by done; cbn [mbind option_bind]; by rewrite Ec1).
    cbn [mbind option_bind].
    rewrite Ecl in H1. destruct (open_counts slot cap n _ _ (mk_abs (a_values a) ss (a_receivers a) (a_handed a) (a_done a) false) Hc) as [H2 E2]; [split; [exact H1 | done]|].
    destruct (IH fuel (ws ++ [s]) c1 (mk_abs (a_values a) ss (a_receivers a) (a_handed a) (a_done a) false) eq_refl ltac:(lia) H2) as (c' & E & Hok & Ec). exists c'. rewrite <- app_assoc in E. split; [exact E|]. split; [exact Hok | by rewrite Ec, E2].
Qed.

Lemma pop_recv_ok slot cap n c a r rs : chan_ok slot cap n c a -> a_receivers a = r :: rs ->
  exists w, (forall c2 : Control A, c_recv c2 = c_recv c -> PopRecvWaiter slot c2 = Some (Some r, set_recv w c2)) /\
    chan_ok slot cap n (set_recv w c) (mk_abs (a_values a) (a_senders a) rs (a_handed a) (a_done a) (a_closed a)).
Proof.
  intros H Er. destruct (PopWaiter_cons (co_recv _ _ _ _ _ H) r rs Er) as (w & Ep & Hw & Hlen). exists w. split.
  { intros c2 E. unfold PopRecvWaiter. by rewrite E, Ep. }
  assert (Permutation (involved a) (r :: involved (mk_abs (a_values a) (a_senders a) rs (a_handed a) (a_done a) (a_closed a)))) as Hp.
  { unfold involved. cbn. rewrite Er. cbn. by rewrite <- Permutation_middle. }
  destruct H. rewrite Hp in co_distinct0. cbn [map] in co_distinct0. apply list.NoDup_cons in co_distinct0 as [_ Hd].
  split; try done; cbn [a_values a_senders a_receivers a_handed a_done a_closed set_recv c_recv].
  - exact (storage_len n 0 _ _ co_recv_storage0 Hlen).
  - intros t Ht. apply co_slots0. rewrite Hp. by right.
  - intros _. apply co_waiting0. by rewrite Er.
  - intros Hc. destruct (co_closed_none0 Hc) as [_ E]. congruence.
Qed.

Lemma detach_receivers slot cap n rs : forall fuel ws c a, a_receivers a = rs -> (length rs < fuel)%nat -> open_ok slot cap n c a ->
  exists c', while_loop fuel (fun _ => true) (detach_receiver slot) (ws, c) = Some (Return (ws ++ rs, c')) /\
    open_ok slot cap n c' (mk_abs (a_values a) (a_senders a) [] (a_handed a) (a_done a) false) /\ c_closed c' = c_closed c.
Proof.
  induction rs as [|r rs IH]; intros fuel ws c a Er Hf [H Ecl]; destruct fuel as [|fuel]; cbn [length] in Hf; try lia; cbn [while_loop].
  - assert (detach_receiver slot (ws, c) = Some (Return (ws, c))) as ->.
    { unfold detach_receiver, PopRecvWaiter. pose proof (co_recv _ _ _ _ _ H) as Hw. cbn [set_closed c_recv] in Hw. rewrite Er in Hw. rewrite (PopWaiter_nil Hw eq_refl). by destruct c. }
    cbn [mbind option_bind]. rewrite app_nil_r. exists c. split; [done|]. split; [|done].
    destruct a. cbn in *. subst. by split.
  - destruct (pop_recv_ok _ _ _ _ _ r rs H Er) as (w & Hpop & H1).
    destruct (AddCountedWake_ok slot r (set_recv w c)) as (c1 & Ec1 & Hc).
    assert (detach_receiver slot (ws, c) = Some (Next (ws ++ [r], c1))) as -> by (unfold detach_receiver; rewrite (Hpop c) by done; cbn [mbind option_bind]; by rewrite Ec1).
    cbn [mbind option_bind].
    rewrite Ecl in H1. destruct (open_counts slot cap n _ _ (mk_abs (a_values a) (a_senders a) rs (a_handed a) (a_done a) false) Hc) as [H2 E2]; [split; [exact H1 | done]|].
    destruct (IH fuel (ws ++ [r]) c1 (mk_abs (a_values a) (a_senders a) rs (a_handed a) (a_done a) false) eq_refl ltac:(lia) H2) as (c' & E & Hok & Ec). exists c'. rewrite <- app_assoc in E. split; [exact E|]. split; [exact Hok | by rewrite Ec, E2].
Qed.

Lemma reset_links_none slot w : waiting_ok slot [] w -> reset_links w = w.
Proof. intros [[_ _ _ Hl Ht] _ _]. cbn in *. unfold reset_links. rewrite <- Hl, <- Ht at 1. by destruct w. Qed.

Lemma close_state slot cap n c a : open_ok slot cap n c a -> a_senders a = [] -> a_receivers a = [] -> c_closed c = true ->
  set_recv (reset_links (c_recv c)) (set_send (reset_links (c_send c)) (c_values c) c) = c /\
  chan_ok slot cap n c (mk_abs (a_values a) [] [] (a_handed a) (a_done a) true).
Proof.
  intros [[] Ecl] Es Er Hc. cbn [set_closed c_send c_recv] in *. rewrite Es, Er in *. split.
  - rewrite (reset_links_none _ _ co_send0), (reset_links_none _ _ co_recv0). by destruct c.
  - unfold involved in *. rewrite Es, Er in *. by split.
Qed.

Lemma close_ok slot cap n c a : chan_ok slot cap n c a ->
  exists c', close_locked slot c = Some ((spec_close a).1, c') /\ chan_ok slot cap n c' (spec_close a).2.
Proof.
  intros H. unfold close_locked, spec_close. set (c0 := set_closed true (c_released c) c). set (a0 := mk_abs (a_values a) (a_senders a) (a_receivers a) (a_handed a) (a_done a) false).
  assert (open_ok slot cap n c0 a0) as H0 by (split; [|done]; destruct H; by split).
  assert (exists c1, (if HasSendWaiters c0 || HasRecvWaiters c0 then
      r ← while_loop (S (Z.to_nat (w_count (c_send c0) + w_count (c_recv c0)))) (fun _ => true) (detach_sender slot) ([], c0);
      st ← match r with Return st => Some st | Next _ => None end;
      r ← while_loop (S (Z.to_nat (w_count (c_send c0) + w_count (c_recv c0)))) (fun _ => true) (detach_receiver slot) st;
      match r with Return st => Some st | Next _ => None end else Some ([], c0)) = Some (map fst (a_senders a) ++ a_receivers a, c1) /\
    open_ok slot cap n c1 (mk_abs (a_values a) [] [] (a_handed a) (a_done a) false) /\ c_closed c1 = true) as (c1 & -> & H1 & Ec1).
  { pose proof (send_count _ _ _ _ _ H) as Hs. pose proof (recv_count _ _ _ _ _ H) as Hr. change (HasSendWaiters c) with (HasSendWaiters c0) in Hs. change (HasRecvWaiters c) with (HasRecvWaiters c0) in Hr.
    rewrite Hs, Hr. destruct (negb (bool_decide (a_senders a = [])) || negb (bool_decide (a_receivers a = []))) eqn:Ew.
    - pose proof (wo_count _ _ _ (co_send _ _ _ _ _ H)) as Ns. pose proof (wo_count _ _ _ (co_recv _ _ _ _ _ H)) as Nr. rewrite zlen_map in Ns. unfold zlen in Ns, Nr.
      change (w_count (c_send c0)) with (w_count (c_send c)). change (w_count (c_recv c0)) with (w_count (c_recv c)).
      destruct (detach_senders slot cap n (a_senders a) (S (Z.to_nat (w_count (c_send c) + w_count (c_recv c)))) [] c0 a0 eq_refl ltac:(lia) H0) as (c2 & -> & H2 & Ec2).
      cbn [mbind option_bind app]. destruct (detach_receivers slot cap n (a_receivers a) (S (Z.to_nat (w_count (c_send c) + w_count (c_recv c)))) (map fst (a_senders a)) c2
        (mk_abs (a_values a) [] (a_receivers a) (a_handed a) (a_done a) false) eq_refl ltac:(lia) H2) as (c3 & -> & H3 & Ec3).
      cbn [mbind option_bind]. exists c3. split; [done|]. split; [exact H3|]. by rewrite Ec3, Ec2.
    - apply orb_false_iff in Ew as [E1 E2]. apply negb_false_iff, bool_decide_eq_true in E1, E2. unfold a0 in H0. rewrite E1, E2 in *. by exists c0. }
  cbn [mbind option_bind]. destruct (close_state _ _ _ _ _ H1 eq_refl eq_refl Ec1) as [-> Hok]. eexists. split; [reflexivity|]. cbn [snd].
  destruct (bool_decide _); [|exact Hok]. eapply counts_ok; [apply TryRelease_counts | exact Hok].
Qed.
(** ** Resuming *)
(** A task whose slot no other involved task has. *)
Definition own_slot (slot : Z -> Z) (n : Z) (a : Abs) (t : Z) : Prop :=
  0 <= slot t < n /\ forall t', t' ∈ involved a -> slot t' = slot t -> t' = t.

Lemma filter_other (l : list Z) t : t ∉ l -> List.filter (fun x => negb (x =? t)) l = l.
Proof.
  induction l as [|x l IH]; intros Hn; [done|]. apply not_elem_of_cons in Hn as [Hne Hn]. cbn. destruct (Z.eqb_spec x t); [congruence|]. cbn. by rewrite IH.
Qed.
Lemma elem_of_filter_other (l : list Z) t x : x ∈ List.filter (fun x => negb (x =? t)) l <-> x ∈ l /\ x <> t.
Proof. rewrite !list_elem_of_In, filter_In, negb_true_iff, Z.eqb_neq. done. Qed.
Lemma elem_of_filter_fst {B} (l : list (Z * B)) t e : e ∈ List.filter (fun e => negb (fst e =? t)) l <-> e ∈ l /\ fst e <> t.
Proof. rewrite !list_elem_of_In, filter_In, negb_true_iff, Z.eqb_neq. done. Qed.
Lemma map_fst_filter {B} (l : list (Z * B)) t : map fst (List.filter (fun e => negb (fst e =? t)) l) = List.filter (fun x => negb (x =? t)) (map fst l).
Proof. induction l as [|[x v] l IH]; [done|]. cbn. destruct (x =? t); cbn; by rewrite IH. Qed.
Lemma NoDup_filter_mid (slot : Z -> Z) p l1 l2 l3 : NoDup (map slot (l1 ++ l2 ++ l3)) -> NoDup (map slot (l1 ++ List.filter p l2 ++ l3)).
Proof.
  revert l1. induction l2 as [|x l2 IH]; intros l1 H; [done|]. cbn. destruct (p x).
  - replace (l1 ++ (x :: List.filter p l2) ++ l3) with ((l1 ++ [x]) ++ List.filter p l2 ++ l3) by (by rewrite <- app_assoc).
    apply IH. by rewrite <- app_assoc.
  - apply IH. cbn [app] in H. rewrite <- Permutation_middle in H. cbn [map] in H. by apply list.NoDup_cons in H as [_ ?].
Qed.

Lemma resume_send_ok slot cap n c a t : chan_ok slot cap n c a -> own_slot slot n a t ->
  exists k c', TakeCompletedSend slot t c = Some (k, c') /\ bool_decide (k <> None) = (spec_done t a).1 /\ chan_ok slot cap n c' (spec_done t a).2.
Proof.
  intros H [Hs Hown]. assert (forall x, x ∈ a_done a -> x ∈ involved a) as Hinv by (intros x Hx; unfold involved; rewrite !elem_of_app; by right; right; right).
  unfold TakeCompletedSend, spec_done. rewrite within_zget. destruct (decide (t ∈ a_done a)) as [Hin|Hn].
  - destruct (co_done _ _ _ _ _ H t Hin) as [k E]. rewrite E. pose proof (zget_range _ _ _ E). rewrite zset_Some by lia. cbn [mbind option_bind].
    exists (Some k). eexists. split; [reflexivity|]. cbn [fst snd]. rewrite !bool_decide_eq_true_2 by done. split; [done|].
    destruct H. split; try done; cbn [a_values a_senders a_receivers a_handed a_done a_closed set_completed c_completed].
    + destruct co_send_storage0 as [(? & ? & ?)|(? & ? & E0)]; [left; cbn; by rewrite zlen_insert|]. rewrite E0 in E. by apply zget_nil in E.
    + intros x [Hx Hne]%elem_of_filter_other. destruct (co_done0 x Hx) as [j Ej]. exists j. pose proof (zget_range _ _ _ Ej).
      rewrite zget_insert_ne; [done | lia|]. intros Es. apply Hne. symmetry. symmetry. apply Hown; [by apply Hinv | done].
    + intros i e Ee. destruct (decide (i = slot t)) as [->|Hi]; [by rewrite zget_insert_eq in Ee by lia|]. rewrite zget_insert_ne in Ee by lia.
      destruct (co_done_only0 i e Ee) as [Hx Es]. split; [|done]. apply elem_of_filter_other. split; [done|]. intros Et. congruence.
    + unfold involved in *. cbn. rewrite !app_assoc in *. replace (List.filter _ (a_done a)) with (List.filter (fun x => negb (x =? t)) (a_done a) ++ []) by apply app_nil_r.
      apply NoDup_filter_mid. by rewrite app_nil_r.
    + intros x Hx. apply co_slots0. unfold involved in *. cbn in Hx. rewrite !elem_of_app in *. destruct Hx as [?|[?|[?|[? _]%elem_of_filter_other]]]; tauto.
  - exists None. eexists. rewrite filter_other by done. cbn [fst snd]. rewrite (bool_decide_eq_false_2 (t ∈ a_done a)) by done. rewrite bool_decide_eq_false_2 by (by intros ?).
    assert (mk_abs (a_values a) (a_senders a) (a_receivers a) (a_handed a) (a_done a) (a_closed a) = a) as -> by (by destruct a).
    split; [|split; [done | exact H]]. destruct (zget (c_completed c) (slot t)) as [[[x k]|]|] eqn:E; [|done|done].
    exfalso. destruct (co_done_only _ _ _ _ _ H _ _ E) as [Hx Es]. cbn in *. apply Hn. rewrite <- (Hown x); [done | by apply Hinv | done].
Qed.

Lemma find_fst (l : list (Z * A)) t : (exists v, (t, v) ∈ l /\ List.find (fun e => fst e =? t) l = Some (t, v)) \/
  (t ∉ map fst l) /\ List.find (fun e => fst e =? t) l = None.
Proof.
  induction l as [|[x v] l IH]; [right; split; [by intros ?%elem_of_nil | done]|]. cbn. destruct (Z.eqb_spec x t) as [->|Hne].
  - left. exists v. split; [by left | done].
  - destruct IH as [(v' & Hin & E)|[Hn E]]; [left; exists v'; split; [by right | done]|]. right. split; [|done]. by apply not_elem_of_cons.
Qed.

Lemma resume_recv_ok slot cap n c a t : chan_ok slot cap n c a -> own_slot slot n a t ->
  exists c', TakeRendezvous slot t c = Some ((spec_handed t a).1, c') /\ chan_ok slot cap n c' (spec_handed t a).2.
Proof.
  intros H [Hs Hown]. assert (forall x, x ∈ map fst (a_handed a) -> x ∈ involved a) as Hinv by (intros x Hx; unfold involved; rewrite !elem_of_app; by right; right; left).
  unfold spec_handed. destruct (find_fst (a_handed a) t) as [(v & Hin & E)|[Hn E]]; rewrite E; cbn [fmap option_fmap option_map fst snd].
  - unfold TakeRendezvous. rewrite within_zget. pose proof (co_handed _ _ _ _ _ H t v Hin) as Ev. rewrite Ev. pose proof (zget_range _ _ _ Ev).
    rewrite zset_Some by lia. cbn [mbind option_bind]. eexists. split; [reflexivity|].
    destruct H. split; try done; cbn [a_values a_senders a_receivers a_handed a_done a_closed set_rendezvous c_rendezvous].
    + destruct co_rendezvous_storage0 as [?|E0]; [left; by rewrite zlen_insert|]. rewrite E0 in Ev. by apply zget_nil in Ev.
    + intros x w [Hx Hne]%elem_of_filter_fst. cbn in Hne. pose proof (co_handed0 x w Hx) as Ex. pose proof (zget_range _ _ _ Ex).
      rewrite zget_insert_ne; [done | lia|]. intros Es. apply Hne. apply Hown; [apply Hinv; by eapply elem_of_fst | done].
    + intros i e Ee. destruct (decide (i = slot t)) as [->|Hi]; [by rewrite zget_insert_eq in Ee by lia|]. rewrite zget_insert_ne in Ee by lia.
      destruct (co_handed_only0 i e Ee) as [Hx Es]. split; [|done]. apply elem_of_filter_fst. split; [done|]. intros Et. congruence.
    + unfold involved in *. cbn. rewrite map_fst_filter. rewrite app_assoc in *. by apply NoDup_filter_mid.
    + intros x Hx. apply co_slots0. unfold involved in *. cbn in Hx. rewrite map_fst_filter in Hx. rewrite !elem_of_app in *.
      destruct Hx as [?|[?|[[? _]%elem_of_filter_other|?]]]; tauto.
  - exists c. assert (List.filter (fun e => negb (fst e =? t)) (a_handed a) = a_handed a) as ->.
    { revert Hn. generalize (a_handed a). intros l Hn. induction l as [|[x w] l IH]; [done|]. cbn in *. apply not_elem_of_cons in Hn as [Hne Hn].
      destruct (Z.eqb_spec x t); [congruence|]. cbn. by rewrite IH. }
    assert (mk_abs (a_values a) (a_senders a) (a_receivers a) (a_handed a) (a_done a) (a_closed a) = a) as -> by (by destruct a). split; [|exact H].
    apply (TakeRendezvous_none _ _ _ _ _ _ H). intros Hx%list_elem_of_In. apply in_map_iff in Hx as (x & Es & Hx%list_elem_of_In).
    apply Hn. rewrite <- (Hown x); [done | by apply Hinv | done].
Qed.
(** ** Giving a wait up *)
Lemma cancel_send_ok slot cap n c a ss t v : chan_ok slot cap n c a -> a_senders a = ss ++ [(t, v)] ->
  exists c', RemoveSendWaiter slot t c = Some c' /\ chan_ok slot cap n c' (mk_abs (a_values a) ss (a_receivers a) (a_handed a) (a_done a) (a_closed a)).
Proof.
  intros H Es. assert (map fst (a_senders a) = map fst ss ++ t :: []) as Em by (by rewrite Es, map_app).
  destruct (RemoveWaiter_ok (co_send _ _ _ _ _ H) t _ _ Em) as (w & Er & Hw & Hlen). rewrite app_nil_r in Hw. assert ((t, v) ∈ a_senders a) as Hin by (rewrite Es; apply elem_of_app; right; by left).
  pose proof (co_values _ _ _ _ _ H t v Hin) as Ev. pose proof (zget_range _ _ _ Ev) as Hr. unfold RemoveSendWaiter. rewrite Er. cbn [mbind option_bind].
  rewrite zset_Some by done. cbn [mbind option_bind]. eexists. split; [reflexivity|].
  assert (Permutation (involved a) (t :: involved (mk_abs (a_values a) ss (a_receivers a) (a_handed a) (a_done a) (a_closed a)))) as Hp.
  { unfold involved. cbn. rewrite Es, map_app. cbn. rewrite <- app_assoc. cbn. by rewrite <- Permutation_middle. }
  pose proof (co_distinct _ _ _ _ _ H) as Hd. rewrite Hp in Hd. cbn [map] in Hd. apply list.NoDup_cons in Hd as [Hn Hd].
  destruct H. split; try done; cbn [a_values a_senders a_receivers a_handed a_done a_closed set_send c_send c_values c_completed c_recv c_closed].
  - left. cbn. rewrite zlen_insert, Hlen. destruct co_send_storage0 as [?|(_ & E & _)]; [done|]. rewrite E in Ev. by apply zget_nil in Ev.
  - intros s' v' Hin'. assert (slot s' <> slot t) as Hne.
    { intros E. destruct (not_in_slots slot (mk_abs (a_values a) ss (a_receivers a) (a_handed a) (a_done a) (a_closed a)) t Hn) as (Hn1 & _). apply Hn1. rewrite <- E. cbn.
      apply elem_of_map. by eapply elem_of_fst. }
    assert ((s', v') ∈ a_senders a) as Hin2 by (rewrite Es; apply elem_of_app; by left). pose proof (co_values0 s' v' Hin2) as E. pose proof (zget_range _ _ _ E).
    rewrite zget_insert_ne; [done | lia|]. congruence.
  - intros x Hx. apply co_slots0. rewrite Hp. by right.
  - intros Hss. apply co_full0. rewrite Es. by destruct ss.
  - intros Hrs. destruct (co_waiting0 Hrs) as [_ E]. rewrite Es in E. by destruct ss.
  - intros Hc. destruct (co_closed_none0 Hc) as [E _]. rewrite Es in E. by destruct ss.
Qed.

Lemma cancel_recv_ok slot cap n c a rs t : chan_ok slot cap n c a -> a_receivers a = rs ++ [t] ->
  exists c', RemoveRecvWaiter slot t c = Some c' /\ chan_ok slot cap n c' (mk_abs (a_values a) (a_senders a) rs (a_handed a) (a_done a) (a_closed a)).
Proof.
  intros H Er. destruct (RemoveWaiter_ok (co_recv _ _ _ _ _ H) t rs [] Er) as (w & Ew & Hw & Hlen). rewrite app_nil_r in Hw.
  unfold RemoveRecvWaiter. rewrite Ew. cbn [mbind option_bind]. eexists. split; [reflexivity|].
  assert (Permutation (involved a) (t :: involved (mk_abs (a_values a) (a_senders a) rs (a_handed a) (a_done a) (a_closed a)))) as Hp.
  { unfold involved. cbn. rewrite Er, <- !app_assoc. cbn. rewrite <- !Permutation_middle. done. }
  pose proof (co_distinct _ _ _ _ _ H) as Hd. rewrite Hp in Hd. cbn [map] in Hd. apply list.NoDup_cons in Hd as [Hn Hd].
  destruct H. split; try done; cbn [a_values a_senders a_receivers a_handed a_done a_closed set_recv c_recv].
  - exact (storage_len n 0 _ _ co_recv_storage0 Hlen).
  - intros x Hx. apply co_slots0. rewrite Hp. by right.
  - intros _. apply co_waiting0. rewrite Er. by destruct rs.
  - intros Hc. destruct (co_closed_none0 Hc) as [_ E]. rewrite Er in E. by destruct rs.
Qed.

(** Whether a task waits, from the flags at its slot. *)
Lemma active_involved slot cap n c a index : chan_ok slot cap n c a -> 0 <= index ->
  (WaiterActive (fun i => i) index (c_send c) = true <-> index ∈ map slot (map fst (a_senders a))) /\
  (WaiterActive (fun i => i) index (c_recv c) = true <-> index ∈ map slot (a_receivers a)).
Proof.
  intros H Hi. assert (forall tasks w, waiting_ok slot tasks w -> WaiterActive (fun i => i) index w = true <-> index ∈ map slot tasks) as G.
  { intros tasks w [HL _ Hact]. unfold WaiterActive. rewrite within_zget. destruct (zget (w_waiting w) index) as [flag|] eqn:E.
    - rewrite negb_true_iff, Z.eqb_neq. by apply Hact.
    - split; [done|]. intros Hx%list_elem_of_In. apply in_map_iff in Hx as (t & Et & Ht%list_elem_of_In). destruct (lo_slots _ _ _ HL t Ht) as [_ Hr].
      rewrite Et in Hr. destruct (zget_is_Some (w_waiting w) index ltac:(rewrite (lo_sizes _ _ _ HL); lia)) as [f Ef]. congruence. }
  split; apply G; apply H.
Qed.
End Abstract.
Arguments Abs : clear implicits.
