(* ===== verification/ChannelRuns.v ===== *)
(** * ChannelRuns: a channel used by the tasks of a scheduler

    Runs of channel operations of running tasks, of the resumptions of parked ones, and
    of steps of the scheduler. The world refines the abstract channel of ChannelFacts.v:
    operations always return, waking never fails, and the channel is a queue. *)

From stdpp Require Import base numbers list option sorting gmap.
From Stdlib Require Import ZArith Lia.
From S2P Require Import Prelude ReadyQueue ReadyQueueFacts TaskTable TaskIndexFacts SchedulerFacts SchedulerSteps.
From S2P Require Import Channel ChannelWaiters ChannelFacts.

(** ** Tasks and their slots *)
Lemma task_slot limits fresh l s id index r : sched_ok limits fresh l s -> task_at (s_tasks s) id index r ->
  TaskSlot (s_tasks s) id = index /\ 0 <= index < task_capacity limits /\ id <> 0.
Proof.
  intros H (E & Hrec & <-). destruct (find_table index r (so_table _ _ _ _ H) E Hrec) as (Hid & Ef & _).
  pose proof (zget_range _ _ _ E). pose proof (tk_records _ _ _ _ (so_table _ _ _ _ H)).
  unfold TaskSlot. destruct (Z.eqb_spec (t_id r) 0); [done|]. rewrite Ef. split; [done|]. split; [lia | done].
Qed.

Lemma task_unique limits fresh l s id i r j r' : sched_ok limits fresh l s -> task_at (s_tasks s) id i r -> task_at (s_tasks s) id j r' -> i = j /\ r = r'.
Proof.
  intros H Hi Hj. destruct (task_slot _ _ _ _ _ _ _ H Hi) as [E1 _]. destruct (task_slot _ _ _ _ _ _ _ H Hj) as [E2 _].
  assert (i = j) as <- by congruence. destruct Hi as (E & _ & _), Hj as (E' & _ & _). split; congruence.
Qed.

(** A task in a state other than ready is not queued. *)
Lemma not_ready_not_queued limits fresh l s id i r : sched_ok limits fresh l s -> task_at (s_tasks s) id i r -> t_state r <> Ready -> id ∉ l.
Proof.
  intros H Ht Hs Hin. destruct (so_ready _ _ _ _ H id Hin) as (j & r' & Ht' & Hr). destruct (task_unique _ _ _ _ _ _ _ _ _ H Ht Ht') as [_ ->]. done.
Qed.

(** The tasks of [s], but that at [index], are as they are in [s']. *)
Definition tasks_kept (index : Z) (s s' : Scheduler) : Prop :=
  forall id i r, task_at (s_tasks s) id i r -> i <> index -> task_at (s_tasks s') id i r.

Lemma same_but_kept index s s' : same_but index (s_tasks s) (s_tasks s') -> tasks_kept index s s'.
Proof. intros H id i r (E & Hr & Ei) Hne. split; [by rewrite H | done]. Qed.

(** The record a step of the scheduler changes. *)
Definition touches (op : SchedOp) (index : Z) : Prop :=
  match op with OpState i _ | OpRetire i => i = index | _ => False end.

Lemma sched_op_kept limits fresh l s op out s' : sched_ok limits fresh l s -> enabled limits op s -> sched_op limits op s = Some (out, s') ->
  forall id i r, task_at (s_tasks s) id i r -> ~ touches op i -> task_at (s_tasks s') id i r.
Proof.
  intros H Hen E id i r Ht Hto. destruct op as [sp|scope|index state|index|id'|index]; cbn [enabled sched_op touches] in *.
  - destruct (spawn_ok H sp Hen) as (r' & s1 & fresh' & l' & E' & _ & _ & Hsp). rewrite E' in E. injection E as _ <-. unfold spawned in Hsp.
    assert (exists index, same_but index (s_tasks s) (s_tasks s1) /\ live_at (k_records (s_tasks s)) index = false) as (index & Hsame & Hdead).
    { destruct (spawn_reason _ _ _ _); [destruct Hsp as (_ & _ & index & ? & ? & _); by exists index|].
      destruct Hsp as (? & index & _ & _ & _ & ? & ? & _). by exists index. }
    apply (same_but_kept index s s1 Hsame id i r Ht). intros ->. destruct Ht as (Et & Hrec & _). unfold live_at in Hdead. by rewrite Et, Hrec in Hdead.
  - enough (s_tasks s' = s_tasks s) as -> by done. destruct (decide (scope = 0)) as [->|Hs].
    + destruct l as [|x l'] eqn:El.
      * rewrite (pop_empty H eq_refl) in E. by injection E as _ <-.
      * destruct (pop_head H x l' eq_refl) as (s1 & E' & _ & Et). rewrite E' in E. by injection E as _ <-.
    + destruct (pop_scope H scope Hs) as (x & l' & s1 & E' & _ & Et & _). rewrite E' in E. by injection E as _ <-.
  - destruct Hen as (id' & r' & Ht' & _). destruct (state_table H index id' r' state Ht') as (t' & Est & _ & Hsame). rewrite Est in E. injection E as _ <-.
    apply (same_but_kept index s (set_tasks t' s) Hsame id i r Ht). congruence.
  - destruct Hen as (id' & r' & Ht' & Hst & Hn). destruct (enqueue_progress_ok H id' index r' Ht' Hst (not_queued H id' Hn)) as (s1 & E' & _ & Et).
    rewrite E' in E. injection E as _ <-. by rewrite Et.
  - destruct Hen as (index & r' & Ht' & Hst & Hn). destruct (restore_ok H id' index r' Ht' Hst (not_queued H id' Hn)) as (s1 & E' & _ & Et).
    rewrite E' in E. injection E as _ <-. by rewrite Et.
  - destruct Hen as (id' & r' & Ht' & _). destruct Ht' as (E' & Hrec & Eid). destruct (retire_table _ _ _ index r' (so_table _ _ _ _ H) E' Hrec) as (t' & Er & _ & Hsame & _).
    rewrite Er in E. injection E as _ <-. apply (same_but_kept index s (set_tasks t' s) Hsame id i r Ht). congruence.
Qed.

(** ** Parking and waking *)
Section Waking.
Context {limits : ChannelLimits} {fresh : Z} {l : list Z} {rt : Runtime} (H : sched_ok (cl_tasks limits) fresh l (rt_sched rt)).

Lemma park_ok t index r : task_at (s_tasks (rt_sched rt)) t index r -> t_state r = Running ->
  (cl_wait_capacity limits <= rt_live_waits rt /\ ParkChannel limits t rt = Some (Some ChannelWaitCapacityExceeded, rt)) \/
  exists rt', rt_live_waits rt < cl_wait_capacity limits /\ ParkChannel limits t rt = Some (None, rt') /\
    sched_ok (cl_tasks limits) fresh l (rt_sched rt') /\ tasks_kept index (rt_sched rt) (rt_sched rt') /\
    exists r', task_at (s_tasks (rt_sched rt')) t index r' /\ t_state r' = ChannelBlocked.
Proof using H.
  intros Ht Hst. unfold ParkChannel. rewrite (task_found _ _ _ _ _ _ _ H Ht). cbn [mbind option_bind]. pose proof Ht as (E & Hrec & Eid). rewrite E. cbn [mbind option_bind].
  rewrite bool_decide_eq_true_2 by done. cbn [negb]. destruct (Z.leb_spec (cl_wait_capacity limits) (rt_live_waits rt)); [by left|]. right.
  destruct (state_table H index t r ChannelBlocked Ht) as (t' & Es & Htab & Hsame). rewrite Es. cbn [mbind option_bind]. eexists. split; [done|]. split; [reflexivity|].
  cbn [rt_sched]. split; [|split].
  - apply (frame_ok H index); [done | apply H | done|]. intros r' E' _. assert (r' = r) as -> by congruence. rewrite Eid.
    apply (not_ready_not_queued _ _ _ _ _ _ _ H Ht). by rewrite Hst.
  - by apply same_but_kept.
  - unfold SetState in Es. rewrite E in Es. cbn [mbind option_bind] in Es. pose proof (zget_range _ _ _ E). rewrite zset_Some in Es by done. injection Es as <-.
    eexists. split; [split; [by apply zget_insert_eq | done]|done].
Qed.

Lemma unblock_ok t index r : task_at (s_tasks (rt_sched rt)) t index r -> t_state r = ChannelBlocked ->
  exists rt', unblock limits index rt = Some rt' /\ sched_ok (cl_tasks limits) fresh (l ++ [t]) (rt_sched rt') /\
    tasks_kept index (rt_sched rt) (rt_sched rt') /\ exists r', task_at (s_tasks (rt_sched rt')) t index r'.
Proof using H.
  intros Ht Hst. unfold unblock. pose proof Ht as (E & Hrec & Eid). destruct (state_table H index t r Ready Ht) as (t' & Es & Htab & Hsame). rewrite Es. cbn [mbind option_bind].
  assert (t ∉ l) as Hn by (apply (not_ready_not_queued _ _ _ _ _ _ _ H Ht); by rewrite Hst).
  assert (sched_ok (cl_tasks limits) fresh l (set_tasks t' (rt_sched rt))) as H1.
  { apply (frame_ok H index); [done | apply H | done|]. intros r' E' _. assert (r' = r) as -> by congruence. by rewrite Eid. }
  assert (exists r', task_at t' t index r' /\ t_state r' = Ready) as (r' & Ht' & Hst').
  { unfold SetState in Es. rewrite E in Es. cbn [mbind option_bind] in Es. pose proof (zget_range _ _ _ E). rewrite zset_Some in Es by done. injection Es as <-.
    eexists. split; [split; [by apply zget_insert_eq | done]|done]. }
  destruct (enqueue_progress_ok H1 t index r' Ht' Hst' Hn) as (s2 & -> & H2 & Et2). cbn [mbind option_bind]. eexists. split; [reflexivity|]. cbn [rt_sched].
  split; [done|]. split; [|exists r'; by rewrite Et2]. intros id i q Hq Hne. rewrite Et2. by apply (same_but_kept index (rt_sched rt) (set_tasks t' (rt_sched rt)) Hsame).
Qed.

Lemma wake_ok t index r : task_at (s_tasks (rt_sched rt)) t index r -> t_state r = ChannelBlocked ->
  exists rt', WakeChannel limits t rt = Some (None, rt') /\ sched_ok (cl_tasks limits) fresh (l ++ [t]) (rt_sched rt') /\
    tasks_kept index (rt_sched rt) (rt_sched rt') /\ exists r', task_at (s_tasks (rt_sched rt')) t index r'.
Proof using H.
  intros Ht Hst. unfold WakeChannel. rewrite (task_found _ _ _ _ _ _ _ H Ht). cbn [mbind option_bind]. pose proof Ht as (E & _). rewrite E. cbn [mbind option_bind].
  rewrite bool_decide_eq_true_2 by done. destruct (unblock_ok t index r Ht Hst) as (rt' & -> & Hrest). by exists rt'.
Qed.
End Waking.

(** Distinct blocked tasks are all woken. *)
Definition same_records (s s' : Scheduler) (but : list Z) : Prop :=
  forall id i r, task_at (s_tasks s) id i r -> exists r', task_at (s_tasks s') id i r' /\ (id ∉ but -> r' = r).

Lemma wake_each_ok limits fresh ks : forall l rt, sched_ok (cl_tasks limits) fresh l (rt_sched rt) -> NoDup ks ->
  (forall t, t ∈ ks -> exists index r, task_at (s_tasks (rt_sched rt)) t index r /\ t_state r = ChannelBlocked) ->
  exists rt', for_each (wake_each limits) (None, [], rt) ks = Some (None, [], rt') /\ sched_ok (cl_tasks limits) fresh (l ++ ks) (rt_sched rt') /\
    same_records (rt_sched rt) (rt_sched rt') ks.
Proof.
  induction ks as [|t ks IH]; intros l rt H Hnd Hb.
  - exists rt. rewrite app_nil_r. split; [done|]. split; [done|]. intros id i r Hr. by exists r.
  - apply list.NoDup_cons in Hnd as [Hn Hnd]. destruct (Hb t ltac:(by left)) as (index & r & Ht & Hst).
    destruct (wake_ok H t index r Ht Hst) as (rt1 & E & H1 & Hk & r' & Ht').
    destruct (IH (l ++ [t]) rt1 H1 Hnd) as (rt2 & E2 & H2 & Hk2).
    { intros t' Hin. destruct (Hb t' ltac:(by right)) as (j & q & Hq & Hqs). exists j, q. split; [|done]. apply Hk; [done|].
      intros ->. destruct Ht as (Ea & _ & Eid), Hq as (Eb & _ & Eid'). apply Hn. replace t with t' by congruence. done. }
    exists rt2. cbn [for_each]. assert (wake_each limits (None, [], rt) t = Some (None, [], rt1)) as -> by (unfold wake_each; by rewrite E). cbn [mbind option_bind]. rewrite E2. rewrite <- app_assoc in H2. split; [done|]. split; [exact H2|].
    intros id i q Hq. destruct (decide (i = index)) as [->|Hne].
    + assert (id = t) as -> by (destruct Ht as (Ea & _ & <-), Hq as (Eb & _ & <-); congruence). destruct (Hk2 t index r' Ht') as (q' & Hq' & _).
      exists q'. split; [done|]. intros Hx. exfalso. apply Hx. by left.
    + destruct (Hk2 id i q (Hk id i q Hq Hne)) as (q' & Hq' & He). exists q'. split; [done|]. intros [_ Hx]%not_elem_of_cons. by apply He.
Qed.

Lemma WakeChannelWaiters_ok limits fresh l ks rt : sched_ok (cl_tasks limits) fresh l (rt_sched rt) -> NoDup ks ->
  (forall t, t ∈ ks -> exists index r, task_at (s_tasks (rt_sched rt)) t index r /\ t_state r = ChannelBlocked) ->
  exists rt' l', WakeChannelWaiters limits ks rt = Some (None, [], rt') /\ sched_ok (cl_tasks limits) fresh l' (rt_sched rt') /\
    same_records (rt_sched rt) (rt_sched rt') ks.
Proof.
  intros H Hnd Hb. unfold WakeChannelWaiters. set (order := map snd (merge_sort lex_le (map (wake_key rt) ks))).
  assert (Permutation order ks) as Hp.
  { unfold order. rewrite merge_sort_Permutation. rewrite map_map. cbn. by rewrite map_id. }
  destruct (wake_each_ok limits fresh order l rt H) as (rt' & E & H' & Hk); [by rewrite Hp | intros t Ht; apply Hb; by rewrite <- Hp|].
  exists rt', (l ++ order). split; [exact E|]. split; [done|]. intros id i r Hr. destruct (Hk id i r Hr) as (r' & Hr' & He). exists r'. split; [done|]. by rewrite <- Hp.
Qed.

(** ** Runs *)
Section Runs.
Context {A : Type}.

Inductive ChanOp :=
  | ChSend (task_id : Z) (value : A)
  | ChRecv (task_id : Z)
  | ChResumeSend (task_id : Z)
  | ChResumeRecv (task_id : Z)
  | ChClose
  | ChSched (op : SchedOp).
Inductive ChanOut :=
  | OutReply (reply : Reply A)
  | OutClose (code : option ChannelCode)
  | OutSched (id : Z).

Definition replied (r : option (Reply A * World A)) : option (ChanOut * World A) := '(reply, w) ← r; Some (OutReply reply, w).

(** The gate lets the operations of a running coroutine through. *)
Definition chan_op (limits : ChannelLimits) (op : ChanOp) (w : World A) : option (ChanOut * World A) :=
  match op with
  | ChSend t v => replied (send_impl limits (inr t) v w)
  | ChRecv t => replied (recv_impl limits (inr t) w)
  | ChResumeSend t => replied (CoroutineResumeSend t w)
  | ChResumeRecv t => replied (CoroutineResumeRecv t w)
  | ChClose => '(code, w) ← close limits (inr 0) w; Some (OutClose code, w)
  | ChSched op =>
      '(id, s) ← sched_op (cl_tasks limits) op (rt_sched (w_runtime w));
      Some (OutSched id, mk_world (w_control w) (set_sched s (w_runtime w)))
  end.

(** Whether the task of a record waits at the channel, or has yet to resume from it. *)
Definition waits_at (index : Z) (w : World A) : bool :=
  WaiterActive (fun i => i) index (c_send (w_control w)) || WaiterActive (fun i => i) index (c_recv (w_control w)).
Definition resumes_at (index : Z) (w : World A) : bool :=
  match within (c_rendezvous (w_control w)) index with Some (Some _) => true | _ => false end ||
  match within (c_completed (w_control w)) index with Some (Some _) => true | _ => false end.

Definition task_running (t index : Z) (w : World A) : Prop :=
  exists r, task_at (s_tasks (rt_sched (w_runtime w))) t index r /\ t_state r = Running.

(** A running task that has resumed sends and receives; the scheduler leaves alone the
    tasks that wait, and does not retire one that has yet to resume. *)
Definition chan_enabled (limits : ChannelLimits) (op : ChanOp) (w : World A) : Prop :=
  match op with
  | ChSend t _ | ChRecv t => exists index, task_running t index w /\ resumes_at index w = false
  | ChResumeSend t | ChResumeRecv t => exists index, task_running t index w
  | ChClose => True
  | ChSched op => enabled (cl_tasks limits) op (rt_sched (w_runtime w)) /\
      (forall index, touches op index -> waits_at index w = false /\
         (match op with OpRetire _ => resumes_at index w = false | _ => True end))
  end.

(** ** The abstract channel *)
(** The answer, when the channel gives it; [wait_room_left] is whether another wait is allowed. *)
Definition spec_op (cap : Z) (wait_room_left : bool) (op : ChanOp) (a : Abs A) : option ChanOut * Abs A :=
  let parked (a' : Abs A) := if wait_room_left then (Some (OutReply Parked), a') else (Some (OutReply (Refused ChannelWaitCapacityExceeded)), a) in
  let missed := Some (OutReply (Refused (if a_closed a then ChannelClosed else TaskContextMissing))) in
  match op with
  | ChSend t v =>
      match spec_send cap t v a with
      | (SendRefused code, _) => (Some (OutReply (Refused code)), a)
      | (SendQueued, a') => parked a'
      | (_, a') => (Some (OutReply Sent), a')
      end
  | ChRecv t =>
      match spec_recv t a with
      | (RecvRefused code, _) => (Some (OutReply (Refused code)), a)
      | (RecvQueued, a') => parked a'
      | (RecvGot v _ _, a') => (Some (OutReply (Received v)), a')
      end
  | ChResumeSend t => let '(ok, a') := spec_done t a in (if ok then Some (OutReply Sent) else missed, a')
  | ChResumeRecv t => let '(v, a') := spec_handed t a in (match v with Some v => Some (OutReply (Received v)) | None => missed end, a')
  | ChClose => (Some (OutClose None), snd (spec_close a))
  | ChSched _ => (None, a)
  end.

Definition answers (spec : option ChanOut) (out : ChanOut) : Prop := match spec with Some o => out = o | None => True end.

(** ** The invariant *)
Record world_ok (limits : ChannelLimits) (cap fresh : Z) (l : list Z) (w : World A) (a : Abs A) : Prop := {
  wk_sched : sched_ok (cl_tasks limits) fresh l (rt_sched (w_runtime w));
  wk_chan : chan_ok (slot_of (w_runtime w)) cap (task_capacity (cl_tasks limits)) (w_control w) a;
  wk_parked : forall t, t ∈ map fst (a_senders a) ++ a_receivers a ->
    exists index r, task_at (s_tasks (rt_sched (w_runtime w))) t index r /\ t_state r = ChannelBlocked;
  wk_woken : forall t, t ∈ map fst (a_handed a) ++ a_done a -> exists index r, task_at (s_tasks (rt_sched (w_runtime w))) t index r;
}.

Section World.
Context {limits : ChannelLimits} {cap fresh : Z} {l : list Z} {w : World A} {a : Abs A} (H : world_ok limits cap fresh l w a).

Lemma involved_live t : t ∈ involved a -> exists index r, task_at (s_tasks (rt_sched (w_runtime w))) t index r.
Proof using H.
  intros Ht. unfold involved in Ht. rewrite app_assoc in Ht. apply elem_of_app in Ht as [Ht|Ht]; [|by apply (wk_woken _ _ _ _ _ _ H)].
  destruct (wk_parked _ _ _ _ _ _ H t Ht) as (index & r & ? & _). by exists index, r.
Qed.

Lemma live_slot t index r : task_at (s_tasks (rt_sched (w_runtime w))) t index r ->
  slot_of (w_runtime w) t = index /\ t <> 0 /\ own_slot (slot_of (w_runtime w)) (task_capacity (cl_tasks limits)) a t.
Proof using H.
  intros Ht. destruct (task_slot _ _ _ _ _ _ _ (wk_sched _ _ _ _ _ _ H) Ht) as (Es & Hr & Hz). unfold slot_of. split; [done|]. split; [done|].
  split; [by rewrite Es|]. intros t' Hin E. destruct (involved_live t' Hin) as (i' & r' & Ht'). destruct (task_slot _ _ _ _ _ _ _ (wk_sched _ _ _ _ _ _ H) Ht') as (Es' & _).
  assert (i' = index) as -> by congruence. destruct Ht as (E1 & _ & <-), Ht' as (E2 & _ & <-). congruence.
Qed.

(** The flags at the record of a task tell whether it is involved. *)
Lemma waits_spec t index r : task_at (s_tasks (rt_sched (w_runtime w))) t index r -> waits_at index w = false -> t ∉ map fst (a_senders a) ++ a_receivers a.
Proof using H.
  intros Ht Hw Hin. destruct (live_slot t index r Ht) as (Es & _ & _). pose proof (zget_range _ _ _ (proj1 Ht)) as Hr.
  destruct (active_involved _ _ _ _ _ index (wk_chan _ _ _ _ _ _ H) ltac:(lia)) as [H1 H2]. apply orb_false_iff in Hw as [E1 E2].
  apply elem_of_app in Hin as [Hin|Hin].
  - rewrite (proj2 H1) in E1; [done|]. rewrite <- Es. by apply elem_of_map.
  - rewrite (proj2 H2) in E2; [done|]. rewrite <- Es. by apply elem_of_map.
Qed.

Lemma resumes_spec t index r : task_at (s_tasks (rt_sched (w_runtime w))) t index r -> resumes_at index w = false -> t ∉ map fst (a_handed a) ++ a_done a.
Proof using H.
  intros Ht Hw Hin. destruct (live_slot t index r Ht) as (Es & _ & _). unfold resumes_at in Hw. rewrite !within_zget in Hw. apply orb_false_iff in Hw as [E1 E2].
  apply elem_of_app in Hin as [Hin|Hin].
  - apply list_elem_of_In, in_map_iff in Hin as ([t' v] & <- & Hin%list_elem_of_In). pose proof (co_handed _ _ _ _ _ (wk_chan _ _ _ _ _ _ H) _ _ Hin) as E. cbn in *.
    rewrite Es in E. by rewrite E in E1.
  - destruct (co_done _ _ _ _ _ (wk_chan _ _ _ _ _ _ H) _ Hin) as [k E]. rewrite Es in E. by rewrite E in E2.
Qed.

Lemma running_not_parked t index r : task_at (s_tasks (rt_sched (w_runtime w))) t index r -> t_state r = Running -> t ∉ map fst (a_senders a) ++ a_receivers a.
Proof using H.
  intros Ht Hst Hin. destruct (wk_parked _ _ _ _ _ _ H t Hin) as (i' & r' & Ht' & Hb). destruct (task_unique _ _ _ _ _ _ _ _ _ (wk_sched _ _ _ _ _ _ H) Ht Ht') as [_ ->].
  congruence.
Qed.

Lemma idle_outside t index r : task_at (s_tasks (rt_sched (w_runtime w))) t index r -> t_state r = Running -> resumes_at index w = false ->
  outside (slot_of (w_runtime w)) (task_capacity (cl_tasks limits)) a t.
Proof using H.
  intros Ht Hst Hre. destruct (live_slot t index r Ht) as (Es & Hz & Hr & Hown). split; [done|]. split; [done|].
  intros Hin%list_elem_of_In. apply in_map_iff in Hin as (t' & E & Hin%list_elem_of_In). rewrite (Hown t' Hin E) in Hin.
  unfold involved in Hin. rewrite app_assoc in Hin. apply elem_of_app in Hin as [Hin|Hin]; [by apply (running_not_parked t index r) in Hin | by apply (resumes_spec t index r) in Hin].
Qed.
End World.

(** ** Steps of the world *)
Definition parked_tasks (a : Abs A) : list Z := map fst (a_senders a) ++ a_receivers a.
Definition woken_tasks (a : Abs A) : list Z := map fst (a_handed a) ++ a_done a.

Lemma involved_split a : involved a = parked_tasks a ++ woken_tasks a.
Proof. unfold involved, parked_tasks, woken_tasks. by rewrite app_assoc. Qed.

(** Tasks that keep their records keep the representation. *)
Lemma world_intro limits cap fresh l fresh' l' (c : Control A) (a : Abs A) rt rt' :
  sched_ok (cl_tasks limits) fresh l (rt_sched rt) -> sched_ok (cl_tasks limits) fresh' l' (rt_sched rt') ->
  chan_ok (slot_of rt) cap (task_capacity (cl_tasks limits)) c a ->
  (forall t, t ∈ involved a -> exists index r r', task_at (s_tasks (rt_sched rt)) t index r /\ task_at (s_tasks (rt_sched rt')) t index r' /\
     (t ∈ parked_tasks a -> t_state r' = ChannelBlocked)) ->
  world_ok limits cap fresh' l' (mk_world c rt') a.
Proof.
  intros H H' Hc Hk. split; cbn [w_runtime w_control]; [done| | |].
  - revert Hc. apply chan_slots. intros t Ht. destruct (Hk t Ht) as (index & r & r' & Hr & Hr' & _). unfold slot_of.
    destruct (task_slot _ _ _ _ _ _ _ H Hr) as [-> _]. by destruct (task_slot _ _ _ _ _ _ _ H' Hr') as [-> _].
  - intros t Ht. destruct (Hk t) as (index & r & r' & _ & Hr' & Hb); [rewrite involved_split; apply elem_of_app; by left|]. exists index, r'. split; [done | by apply Hb].
  - intros t Ht. destruct (Hk t) as (index & r & r' & _ & Hr' & _); [rewrite involved_split; apply elem_of_app; by right|]. by exists index, r'.
Qed.

Section Steps.
Context {limits : ChannelLimits} {cap fresh : Z} {l : list Z} {w : World A} {a : Abs A} (H : world_ok limits cap fresh l w a).

Lemma involved_state t : t ∈ involved a -> exists index r, task_at (s_tasks (rt_sched (w_runtime w))) t index r /\ (t ∈ parked_tasks a -> t_state r = ChannelBlocked).
Proof using H.
  intros Ht. destruct (decide (t ∈ parked_tasks a)) as [Hp|Hn].
  - destruct (wk_parked _ _ _ _ _ _ H t Hp) as (index & r & ? & ?). by exists index, r.
  - destruct (involved_live H t Ht) as (index & r & ?). by exists index, r.
Qed.

(** The scheduler does nothing, and no task becomes involved. *)
Lemma world_same c a' : chan_ok (slot_of (w_runtime w)) cap (task_capacity (cl_tasks limits)) c a' ->
  (forall t, t ∈ involved a' -> t ∈ involved a /\ (t ∈ parked_tasks a' -> t ∈ parked_tasks a)) ->
  world_ok limits cap fresh l (mk_world c (w_runtime w)) a'.
Proof using H.
  intros Hc Hs. apply (world_intro limits cap fresh l fresh l c a' (w_runtime w)); [apply H | apply H | done|].
  intros t Ht. destruct (Hs t Ht) as [Hi Hp]. destruct (involved_state t Hi) as (index & r & ? & ?). exists index, r, r. split; [done|]. split; [done|]. tauto.
Qed.

(** The scheduler changes the record of one task. *)
Lemma world_touch fresh' l' rt' c a' t index r : sched_ok (cl_tasks limits) fresh' l' (rt_sched rt') ->
  chan_ok (slot_of (w_runtime w)) cap (task_capacity (cl_tasks limits)) c a' ->
  task_at (s_tasks (rt_sched (w_runtime w))) t index r -> tasks_kept index (rt_sched (w_runtime w)) (rt_sched rt') ->
  (exists r', task_at (s_tasks (rt_sched rt')) t index r' /\ (t ∈ parked_tasks a' -> t_state r' = ChannelBlocked)) ->
  (forall t', t' ∈ involved a' -> t' <> t -> t' ∈ involved a /\ (t' ∈ parked_tasks a' -> t' ∈ parked_tasks a)) ->
  world_ok limits cap fresh' l' (mk_world c rt') a'.
Proof using H.
  intros H' Hc Ht Hk (r' & Ht' & Hb) Hs. apply (world_intro limits cap fresh l fresh' l' c a' (w_runtime w)); [apply H | done | done|].
  intros x Hx. destruct (decide (x = t)) as [->|Hne]; [by exists index, r, r'|]. destruct (Hs x Hx Hne) as [Hi Hp].
  destruct (involved_state x Hi) as (j & q & Hq & Hqb). exists j, q, q. split; [done|]. split; [|tauto]. apply Hk; [done|].
  intros ->. destruct Ht as (E & _ & Eid), Hq as (E' & _ & Eid'). congruence.
Qed.

Lemma involved_NoDup slot n (c : Control A) (a1 : Abs A) : chan_ok slot cap n c a1 -> NoDup (involved a1).
Proof using Type. intros Hc. pose proof (co_distinct _ _ _ _ _ Hc) as Hd. by apply NoDup_fmap_1 in Hd. Qed.

(** Waking a task whose side of an exchange is done. *)
Lemma wake_step c a' t : chan_ok (slot_of (w_runtime w)) cap (task_capacity (cl_tasks limits)) c a' -> t ∈ parked_tasks a -> t ∈ woken_tasks a' ->
  (forall t', t' ∈ involved a' -> t' <> t -> t' ∈ involved a /\ (t' ∈ parked_tasks a' -> t' ∈ parked_tasks a)) ->
  exists rt' l', wake_or_close limits t (mk_world c (w_runtime w)) = Some (None, mk_world c rt') /\ world_ok limits cap fresh l' (mk_world c rt') a'.
Proof using H.
  intros Hc Hp Hw Hs. destruct (wk_parked _ _ _ _ _ _ H t Hp) as (index & r & Ht & Hst).
  destruct (wake_ok (wk_sched _ _ _ _ _ _ H) t index r Ht Hst) as (rt' & E & H' & Hk & r' & Ht').
  exists rt', (l ++ [t]). unfold wake_or_close. cbn [w_runtime w_control]. rewrite E. cbn [mbind option_bind]. split; [done|].
  apply (world_touch fresh (l ++ [t]) rt' c a' t index r H' Hc Ht Hk); [|done].
  exists r'. split; [done|]. intros Hx. exfalso. apply involved_NoDup in Hc. rewrite involved_split in Hc. apply list.NoDup_app in Hc as (_ & Hd & _). by apply (Hd t).
Qed.

(** A task that starts to wait, or is refused when there are too many waits. *)
Definition wait_room_left : bool := rt_live_waits (w_runtime w) <? cl_wait_capacity limits.

Lemma abs_eta (a0 : Abs A) : mk_abs (a_values a0) (a_senders a0) (a_receivers a0) (a_handed a0) (a_done a0) (a_closed a0) = a0.
Proof using Type. by destruct a0. Qed.

Lemma park_step c a' t index r : task_at (s_tasks (rt_sched (w_runtime w))) t index r -> t_state r = Running ->
  chan_ok (slot_of (w_runtime w)) cap (task_capacity (cl_tasks limits)) c a' ->
  (forall t', t' ∈ involved a' -> t' <> t -> t' ∈ involved a /\ (t' ∈ parked_tasks a' -> t' ∈ parked_tasks a)) ->
  if wait_room_left then exists rt', ParkChannel limits t (w_runtime w) = Some (None, rt') /\ world_ok limits cap fresh l (mk_world c rt') a'
  else ParkChannel limits t (w_runtime w) = Some (Some ChannelWaitCapacityExceeded, w_runtime w).
Proof using H.
  intros Ht Hst Hc Hs. unfold wait_room_left. destruct (park_ok (wk_sched _ _ _ _ _ _ H) t index r Ht Hst) as [[Hfull E]|(rt' & Hroom & E & H' & Hk & r' & Ht' & Hb)].
  - by destruct (Z.ltb_spec (rt_live_waits (w_runtime w)) (cl_wait_capacity limits)); [lia|].
  - destruct (Z.ltb_spec (rt_live_waits (w_runtime w)) (cl_wait_capacity limits)); [|lia]. exists rt'. split; [done|].
    apply (world_touch fresh l rt' c a' t index r H' Hc Ht Hk); [|done]. by exists r'.
Qed.

Lemma send_step t v index : task_running t index w -> resumes_at index w = false ->
  exists out w' l', send_impl limits (inr t) v w = Some (out, w') /\ answers (spec_op cap wait_room_left (ChSend t v) a).1 (OutReply out) /\
    world_ok limits cap fresh l' w' (spec_op cap wait_room_left (ChSend t v) a).2.
Proof using H.
  intros (r & Ht & Hst) Hre. pose proof (idle_outside H t index r Ht Hst Hre) as Hout.
  destruct (send_ok _ _ _ _ _ t v (wk_chan _ _ _ _ _ _ H) Hout) as (c & E & Hc). unfold send_impl. rewrite E. cbn [mbind option_bind spec_op].
  revert Hc. unfold spec_send. destruct (a_closed a) eqn:Ecl; [|destruct (a_receivers a) as [|x rs] eqn:Er; [destruct (zlen (a_values a) <? cap)|]]; cbn [fst snd]; intros Hc.
  - eexists _, _, l. split; [reflexivity|]. split; [done|]. apply world_same; [exact Hc | by intros].
  - eexists _, _, l. split; [reflexivity|]. split; [done|]. apply world_same; [exact Hc|]. intros t' Ht'. unfold involved, parked_tasks in *. cbn in *. by rewrite Er.
  - set (a' := mk_abs _ _ _ _ _ _) in *. pose proof (park_step c a' t index r Ht Hst Hc) as Hpark.
    cbn [w_runtime w_control]. destruct wait_room_left; cbn [fst snd].
    + destruct Hpark as (rt' & -> & Hok).
      { intros t' Ht' Hne. unfold a', involved, parked_tasks in *. cbn in *. rewrite Er, map_app in *. rewrite !elem_of_app in *. cbn in *. set_solver. }
      cbn [mbind option_bind]. eexists _, _, l. split; [reflexivity|]. by split.
    + rewrite Hpark. 2:{ intros t' Ht' Hne. unfold a', involved, parked_tasks in *. cbn in *. rewrite Er, map_app in *. rewrite !elem_of_app in *. cbn in *. set_solver. }
      cbn [mbind option_bind]. destruct (CompleteWokenWaiters_ok (slot_of (w_runtime w)) [t] c) as (c1 & -> & Hcnt). cbn [mbind option_bind].
      destruct (cancel_send_ok _ _ _ c1 a' (a_senders a) t v (counts_ok _ _ _ _ _ _ Hcnt Hc) eq_refl) as (c2 & -> & Hc2). cbn [mbind option_bind].
      eexists _, _, l. split; [reflexivity|]. split; [done|]. apply world_same; [|by intros].
      unfold a' in Hc2. cbn in Hc2. rewrite <- Er, <- Ecl, abs_eta in Hc2. exact Hc2.
  - set (a' := mk_abs _ _ _ _ _ _) in *. destruct (wake_step c a' x Hc) as (rt' & l' & -> & Hok).
    + apply elem_of_app. right. rewrite Er. by left.
    + apply elem_of_app. left. cbn. rewrite map_app. apply elem_of_app. right. by left.
    + intros t' Ht' Hne. unfold a', involved, parked_tasks in *. cbn in *. rewrite Er, map_app in *. rewrite !elem_of_app in *. cbn in *. set_solver.
    + cbn [mbind option_bind]. eexists _, _, l'. split; [reflexivity|]. by split.
Qed.

Lemma world_counts l1 (c c' : Control A) rt a1 : same_but_counts c c' -> world_ok limits cap fresh l1 (mk_world c rt) a1 -> world_ok limits cap fresh l1 (mk_world c' rt) a1.
Proof using Type. intros Hcnt []. split; try done. by apply (counts_ok _ _ _ _ _ _ Hcnt). Qed.

Lemma recv_step t index : task_running t index w -> resumes_at index w = false ->
  exists out w' l', recv_impl limits (inr t) w = Some (out, w') /\ answers (spec_op cap wait_room_left (ChRecv t) a).1 (OutReply out) /\
    world_ok limits cap fresh l' w' (spec_op cap wait_room_left (ChRecv t) a).2.
Proof using H.
  intros (r & Ht & Hst) Hre. pose proof (idle_outside H t index r Ht Hst Hre) as Hout.
  destruct (recv_ok _ _ _ _ _ t (wk_chan _ _ _ _ _ _ H) Hout) as (c & E & Hc). unfold recv_impl. rewrite E. cbn [mbind option_bind spec_op].
  assert (forall x a', spec_recv t a = (RecvGot x None None, a') -> (forall t', t' ∈ involved a' -> t' ∈ involved a /\ (t' ∈ parked_tasks a' -> t' ∈ parked_tasks a)) -> chan_ok (slot_of (w_runtime w)) cap (task_capacity (cl_tasks limits)) c a' ->
    world_ok limits cap fresh l (mk_world (TryReleaseSchedulerRecord c) (w_runtime w)) a') as Hgot.
  { intros x a' Es Hs Hc'. apply (world_counts l c); [apply TryRelease_counts | by apply world_same]. }
  revert Hc Hgot. unfold spec_recv. destruct (a_values a) as [|x values] eqn:Ev; destruct (a_senders a) as [|[s v] ss] eqn:Es; cbn [fst snd]; intros Hc Hgot.
  - destruct (a_closed a) eqn:Ecl; cbn [fst snd] in *.
    + eexists _, _, l. split; [reflexivity|]. split; [done|]. apply world_same; [exact Hc | by intros].
    + set (a' := mk_abs _ _ _ _ _ _) in *. pose proof (park_step c a' t index r Ht Hst Hc) as Hpark. cbn [w_runtime w_control]. destruct wait_room_left; cbn [fst snd].
      * destruct Hpark as (rt' & -> & Hok).
        { intros t' Ht' Hne. unfold a', involved, parked_tasks in *. cbn in *. rewrite Es. cbn. rewrite !elem_of_app in *. set_solver. }
        cbn [mbind option_bind]. eexists _, _, l. split; [reflexivity|]. by split.
      * rewrite Hpark. 2:{ intros t' Ht' Hne. unfold a', involved, parked_tasks in *. cbn in *. rewrite Es. cbn. rewrite !elem_of_app in *. set_solver. }
        cbn [mbind option_bind]. destruct (CompleteWokenWaiters_ok (slot_of (w_runtime w)) [t] c) as (c1 & -> & Hcnt). cbn [mbind option_bind].
        destruct (cancel_recv_ok _ _ _ c1 a' (a_receivers a) t (counts_ok _ _ _ _ _ _ Hcnt Hc) eq_refl) as (c2 & -> & Hc2). cbn [mbind option_bind].
        eexists _, _, l. split; [reflexivity|]. split; [done|]. apply world_same; [|by intros].
        unfold a' in Hc2. cbn in Hc2. rewrite <- Ecl, <- Es, <- Ev, abs_eta in Hc2. exact Hc2.
  - set (a' := mk_abs _ _ _ _ _ _) in *. cbn [wake_option]. destruct (wake_step c a' s Hc) as (rt' & l' & -> & Hok).
    + apply elem_of_app. left. rewrite Es. by left.
    + apply elem_of_app. right. cbn. apply elem_of_app. right. by left.
    + intros t' Ht' Hne. unfold a', involved, parked_tasks in *. cbn in *. rewrite Es. cbn. rewrite !elem_of_app in *. set_solver.
    + cbn [mbind option_bind]. eexists _, _, l'. split; [reflexivity|]. split; [done|]. cbn [w_control w_runtime]. by apply (world_counts l' c); [apply TryRelease_counts|].
  - cbn [wake_option mbind option_bind]. eexists _, _, l. split; [reflexivity|]. split; [done|]. cbn [w_control w_runtime]. eapply Hgot; [reflexivity | | exact Hc].
    intros t'. unfold involved, parked_tasks. cbn. by rewrite Es.
  - set (a' := mk_abs _ _ _ _ _ _) in *. cbn [wake_option]. destruct (wake_step c a' s Hc) as (rt' & l' & -> & Hok).
    + apply elem_of_app. left. rewrite Es. by left.
    + apply elem_of_app. right. cbn. apply elem_of_app. right. by left.
    + intros t' Ht' Hne. unfold a', involved, parked_tasks in *. cbn in *. rewrite Es. cbn. rewrite !elem_of_app in *. set_solver.
    + cbn [mbind option_bind]. eexists _, _, l'. split; [reflexivity|]. split; [done|]. cbn [w_control w_runtime]. by apply (world_counts l' c); [apply TryRelease_counts|].
Qed.

Lemma slots_live t index r : task_at (s_tasks (rt_sched (w_runtime w))) t index r -> own_slot (slot_of (w_runtime w)) (task_capacity (cl_tasks limits)) a t.
Proof using H. intros Ht. by destruct (live_slot H t index r Ht) as (_ & _ & ?). Qed.

Lemma missing_closed (c : Control A) (a1 : Abs A) slot n : chan_ok slot cap n c a1 -> missing c = (if a_closed a1 then ChannelClosed else TaskContextMissing).
Proof using Type. intros Hc. unfold missing. by rewrite (co_closed _ _ _ _ _ Hc). Qed.

Lemma resume_send_step t index : task_running t index w ->
  exists out w' l', CoroutineResumeSend t w = Some (out, w') /\ answers (spec_op cap wait_room_left (ChResumeSend t) a).1 (OutReply out) /\
    world_ok limits cap fresh l' w' (spec_op cap wait_room_left (ChResumeSend t) a).2.
Proof using H.
  intros (r & Ht & Hst). unfold CoroutineResumeSend. destruct (CompleteWokenWaiters_ok (slot_of (w_runtime w)) [t] (w_control w)) as (c1 & -> & Hcnt). cbn [mbind option_bind].
  pose proof (counts_ok _ _ _ _ _ _ Hcnt (wk_chan _ _ _ _ _ _ H)) as Hc1.
  destruct (resume_send_ok _ _ _ _ _ t Hc1 (slots_live t index r Ht)) as (k & c' & -> & Ek & Hc'). cbn [mbind option_bind].
  assert (world_ok limits cap fresh l (mk_world c' (w_runtime w)) (spec_done t a).2) as Hw.
  { apply world_same; [done|]. intros t'. unfold spec_done, involved, parked_tasks. cbn. rewrite !elem_of_app, elem_of_filter_other. tauto. }
  cbn [spec_op]. rewrite (missing_closed _ _ _ _ Hc'). revert Ek Hw. unfold spec_done. cbn [fst snd a_closed]. intros Ek Hw. destruct k as [k|].
  - rewrite bool_decide_eq_true_2 in Ek by done. rewrite <- Ek. eexists _, _, l. split; [reflexivity|]. split; [done|]. by apply (world_counts l c'); [apply TryRelease_counts|].
  - rewrite bool_decide_eq_false_2 in Ek by (by intros ?). rewrite <- Ek. eexists _, _, l. split; [reflexivity|]. by split.
Qed.

Lemma resume_recv_step t index : task_running t index w ->
  exists out w' l', CoroutineResumeRecv t w = Some (out, w') /\ answers (spec_op cap wait_room_left (ChResumeRecv t) a).1 (OutReply out) /\
    world_ok limits cap fresh l' w' (spec_op cap wait_room_left (ChResumeRecv t) a).2.
Proof using H.
  intros (r & Ht & Hst). unfold CoroutineResumeRecv. destruct (CompleteWokenWaiters_ok (slot_of (w_runtime w)) [t] (w_control w)) as (c1 & -> & Hcnt). cbn [mbind option_bind].
  pose proof (counts_ok _ _ _ _ _ _ Hcnt (wk_chan _ _ _ _ _ _ H)) as Hc1.
  destruct (resume_recv_ok _ _ _ _ _ t Hc1 (slots_live t index r Ht)) as (c' & -> & Hc'). cbn [mbind option_bind].
  assert (world_ok limits cap fresh l (mk_world c' (w_runtime w)) (spec_handed t a).2) as Hw.
  { apply world_same; [done|]. intros t'. unfold spec_handed, involved, parked_tasks. cbn. rewrite !elem_of_app, map_fst_filter, elem_of_filter_other. tauto. }
  cbn [spec_op]. rewrite (missing_closed _ _ _ _ Hc'). revert Hw. unfold spec_handed. cbn [fst snd a_closed]. intros Hw. destruct (snd <$> _) as [v|].
  - eexists _, _, l. split; [reflexivity|]. split; [done|]. by apply (world_counts l c'); [apply TryRelease_counts|].
  - eexists _, _, l. split; [reflexivity|]. by split.
Qed.

Lemma close_step : exists out w' l', close limits (inr 0) w = Some (out, w') /\ answers (spec_op cap wait_room_left ChClose a).1 (OutClose out) /\
    world_ok limits cap fresh l' w' (spec_op cap wait_room_left ChClose a).2.
Proof using H.
  unfold close. destruct (close_ok _ _ _ _ _ (wk_chan _ _ _ _ _ _ H)) as (c & -> & Hc). cbn [mbind option_bind spec_op spec_close fst snd] in *.
  pose proof (involved_NoDup _ _ _ _ (wk_chan _ _ _ _ _ _ H)) as Hnd. rewrite involved_split in Hnd. apply list.NoDup_app in Hnd as (Hnd & Hdis & _).
  assert (forall t, t ∈ involved (mk_abs (a_values a) [] [] (a_handed a) (a_done a) true) -> t ∈ woken_tasks a) as Hin by (intros t; unfold involved, woken_tasks; by cbn).
  destruct (bool_decide _).
  - eexists _, _, l. split; [reflexivity|]. split; [done|]. apply world_same; [exact Hc|]. intros t Ht%Hin. split; [rewrite involved_split; apply elem_of_app; by right|].
    unfold parked_tasks. cbn. by intros ?%elem_of_nil.
  - destruct (WakeChannelWaiters_ok limits fresh l (parked_tasks a) (w_runtime w) (wk_sched _ _ _ _ _ _ H) Hnd) as (rt' & l' & E & H' & Hk); [apply H|].
    unfold parked_tasks in E. rewrite E. cbn [mbind option_bind]. destruct (CompleteWokenWaiters_ok (slot_of rt') [] c) as (c1 & -> & Hcnt). cbn [mbind option_bind].
    eexists _, _, l'. split; [reflexivity|]. split; [done|]. apply (world_counts l' c); [eapply counts_trans; [exact Hcnt | apply TryRelease_counts]|].
    apply (world_intro limits cap fresh l fresh l' c _ (w_runtime w)); [apply H | done | exact Hc|].
    intros t Ht%Hin. destruct (wk_woken _ _ _ _ _ _ H t Ht) as (index & r & Hr). destruct (Hk t index r Hr) as (r' & Hr' & _).
    exists index, r, r'. split; [done|]. split; [done|]. unfold parked_tasks. cbn. by intros ?%elem_of_nil.
Qed.

Lemma state_kept s index id r state t' : task_at (s_tasks s) id index r -> SetState index state (s_tasks s) = Some t' -> exists r', task_at t' id index r'.
Proof using Type.
  intros (E & Hrec & Eid) Es. unfold SetState in Es. rewrite E in Es. cbn [mbind option_bind] in Es. pose proof (zget_range _ _ _ E). rewrite zset_Some in Es by done. injection Es as <-.
  eexists. split; [by apply zget_insert_eq | done].
Qed.

Lemma sched_step op : enabled (cl_tasks limits) op (rt_sched (w_runtime w)) ->
  (forall index, touches op index -> waits_at index w = false /\ (match op with OpRetire _ => resumes_at index w = false | _ => True end)) ->
  exists id s' fresh' l', sched_op (cl_tasks limits) op (rt_sched (w_runtime w)) = Some (id, s') /\
    world_ok limits cap fresh' l' (mk_world (w_control w) (set_sched s' (w_runtime w))) a.
Proof using H.
  intros Hen Hto. destruct (op_ok (wk_sched _ _ _ _ _ _ H) op Hen) as (id & s' & fresh' & l' & E & H' & _). exists id, s', fresh', l'. split; [done|].
  apply (world_intro limits cap fresh l fresh' l' (w_control w) a (w_runtime w)); [apply H | exact H' | apply H|]. cbn [set_sched rt_sched].
  intros t Ht. destruct (involved_state t Ht) as (index & r & Hr & Hb).
  assert (touches op index \/ ~ touches op index) as [Ht1|Hn1] by (destruct op; cbn [touches]; try (right; by intros ?); destruct (decide (index0 = index)); [by left | by right | by left | by right]).
  - destruct (Hto index Ht1) as [Hw Hre]. pose proof (waits_spec H t index r Hr Hw) as Hnp. destruct op as [| |i state| | |i]; cbn [touches] in Ht1; try done; subst i.
    + cbn [sched_op] in E. destruct (SetState index state _) as [t'|] eqn:Es; [|done]. injection E as _ <-.
      destruct (state_kept _ _ _ _ _ _ Hr Es) as [r' Hr']. exists index, r, r'. split; [done|]. split; [done|]. by intros ?%Hnp.
    + exfalso. rewrite involved_split in Ht. apply elem_of_app in Ht as [Ht|Ht]; [done|]. by apply (resumes_spec H t index r Hr Hre).
  - exists index, r, r. split; [done|]. split; [|done]. by apply (sched_op_kept _ _ _ _ _ _ _ (wk_sched _ _ _ _ _ _ H) Hen E).
Qed.

Lemma chan_step op : chan_enabled limits op w -> exists out w' fresh' l', chan_op limits op w = Some (out, w') /\
  answers (spec_op cap wait_room_left op a).1 out /\ world_ok limits cap fresh' l' w' (spec_op cap wait_room_left op a).2.
Proof using H.
  destruct op as [t v|t|t|t| |op]; cbn [chan_enabled chan_op replied]; unfold replied.
  - intros (index & Hr & Hre). destruct (send_step t v index Hr Hre) as (out & w' & l' & -> & Ha & Hw). cbn [mbind option_bind]. by eexists _, _, fresh, l'.
  - intros (index & Hr & Hre). destruct (recv_step t index Hr Hre) as (out & w' & l' & -> & Ha & Hw). cbn [mbind option_bind]. by eexists _, _, fresh, l'.
  - intros (index & Hr). destruct (resume_send_step t index Hr) as (out & w' & l' & -> & Ha & Hw). cbn [mbind option_bind]. by eexists _, _, fresh, l'.
  - intros (index & Hr). destruct (resume_recv_step t index Hr) as (out & w' & l' & -> & Ha & Hw). cbn [mbind option_bind]. by eexists _, _, fresh, l'.
  - intros _. destruct close_step as (out & w' & l' & -> & Ha & Hw). cbn [mbind option_bind]. by eexists _, _, fresh, l'.
  - intros [Hen Hto]. destruct (sched_step op Hen Hto) as (id & s' & fresh' & l' & -> & Hw). cbn [mbind option_bind]. by eexists _, _, fresh', l'.
Qed.
End Steps.
End Runs.
Arguments ChanOp : clear implicits.
Arguments ChanOut : clear implicits.
