(* ===== verification/ChannelQueue.v ===== *)
(** * ChannelQueue: a channel is a queue of the values sent

    Reachable worlds of a channel and its scheduler, from the storage they start with.
    Each represents the abstract channel after the same operations, so that operations
    return and answer as the abstract ones, and the k-th receive the channel accepts gets
    the k-th value it accepts. *)

From stdpp Require Import base numbers list option sorting gmap.
From Stdlib Require Import ZArith Lia.
From S2P Require Import Prelude ReadyQueue ReadyQueueFacts TaskTable TaskIndexFacts SchedulerFacts SchedulerSteps.
From S2P Require Import Channel ChannelWaiters ChannelFacts ChannelRuns.

Section Queue.
Context {A : Type}.

(** ** Runs *)
(** Whether a wait was allowed, the operation and its answer. *)
Definition ChanEvent : Type := bool * ChanOp A * ChanOut A.

Definition chan_start (limits : ChannelLimits) (owner cap : Z) : option (World A) :=
  s ← configure_tasks (cl_tasks limits);
  Some (mk_world (make owner cap (task_capacity (cl_tasks limits))) (mk_runtime s 0 1 ∅)).

Definition wait_room (limits : ChannelLimits) (w : World A) : bool := rt_live_waits (w_runtime w) <? cl_wait_capacity limits.

(** The worlds reached by operations of running tasks and by steps of the scheduler that leave
    the waiting tasks alone. [WakeDeadlockedTasks] is not among the operations: it wakes tasks
    that stay in the queues of their channel, and what follows is not true after it
    ([deadlock_wake_loses_value]). *)
Inductive chan_reachable (limits : ChannelLimits) (owner cap : Z) : list ChanEvent -> World A -> Prop :=
  | chan_reachable_start w : chan_start limits owner cap = Some w -> chan_reachable limits owner cap [] w
  | chan_reachable_step trace w op out w' : chan_reachable limits owner cap trace w -> chan_enabled limits op w ->
      chan_op limits op w = Some (out, w') -> chan_reachable limits owner cap (trace ++ [(wait_room limits w, op, out)]) w'.

(** The abstract channel after the operations of a run. *)
Definition channel_after (cap : Z) (trace : list ChanEvent) : Abs A :=
  fold_left (fun a '(room, op, _) => (spec_op cap room op a).2) trace EmptyAbs.

Lemma channel_after_snoc cap trace r op out : channel_after cap (trace ++ [(r, op, out)]) = (spec_op cap r op (channel_after cap trace)).2.
Proof. unfold channel_after. by rewrite fold_left_app. Qed.

(** The capacity of a channel and the number of tasks fit their words. *)
Definition sizes_ok (limits : ChannelLimits) (cap : Z) : Prop :=
  0 <= cap <= U32_MAX /\ 0 <= task_capacity (cl_tasks limits) <= U32_MAX - 1.

Lemma chan_start_ok limits owner cap : sizes_ok limits cap -> exists w, chan_start limits owner cap = Some w /\ world_ok limits cap 1 [] w EmptyAbs.
Proof.
  intros [Hcap Ht]. unfold chan_start. destruct (configure_ok (cl_tasks limits) Ht) as (s & -> & Hs). cbn [mbind option_bind]. eexists. split; [reflexivity|].
  split; cbn [w_runtime w_control rt_sched]; [done | apply make_ok; lia | |]; intros t Ht'; by apply elem_of_nil in Ht'.
Qed.

Lemma chan_reachable_ok limits owner cap trace w : sizes_ok limits cap -> chan_reachable limits owner cap trace w ->
  exists fresh l, world_ok limits cap fresh l w (channel_after cap trace).
Proof.
  intros Hsz. induction 1 as [w Hw|trace w op out w' _ (fresh & l & IH) Hen E].
  - destruct (chan_start_ok limits owner cap Hsz) as (w' & E & Hok). rewrite E in Hw. injection Hw as <-. by exists 1, [].
  - rewrite channel_after_snoc. destruct (chan_step IH op Hen) as (out' & w2 & fresh' & l' & E' & _ & Hok). rewrite E in E'. injection E' as <- <-. by exists fresh', l'.
Qed.

(** ** Values in order *)
Definition offers (trace : list ChanEvent) : list A :=
  concat (map (fun e : ChanEvent => match e with (_, ChSend _ v, OutReply (Sent | Parked)) => [v] | _ => [] end) trace).
Definition takers (trace : list ChanEvent) : list Z :=
  concat (map (fun e : ChanEvent => match e with (_, ChRecv t, OutReply (Received _ | Parked)) => [t] | _ => [] end) trace).
Definition deliveries (trace : list ChanEvent) : list (Z * A) :=
  concat (map (fun e : ChanEvent => match e with (_, (ChRecv t | ChResumeRecv t), OutReply (Received v)) => [(t, v)] | _ => [] end) trace).

Lemma offers_snoc tr e : offers (tr ++ [e]) = offers tr ++ offers [e].
Proof. unfold offers. by rewrite map_app, concat_app. Qed.
Lemma takers_snoc tr e : takers (tr ++ [e]) = takers tr ++ takers [e].
Proof. unfold takers. by rewrite map_app, concat_app. Qed.
Lemma deliveries_snoc tr e : deliveries (tr ++ [e]) = deliveries tr ++ deliveries [e].
Proof. unfold deliveries. by rewrite map_app, concat_app. Qed.

(** The receives and the values that have met, then the ones that wait, then the ones
    that a close has dropped. *)
Record fifo_ok (trace : list ChanEvent) (a : Abs A) (met : list Z) (values : list A) (dropped_tasks : list Z) (dropped : list A) : Prop := {
  fo_takers : takers trace = met ++ a_receivers a ++ dropped_tasks;
  fo_offers : offers trace = values ++ a_values a ++ map snd (a_senders a) ++ dropped;
  fo_length : length met = length values;
  fo_given : Permutation (deliveries trace ++ a_handed a) (zip met values);
  fo_open : a_closed a = false -> dropped_tasks = [] /\ dropped = [];
  fo_empty : dropped_tasks <> [] -> a_values a = [] /\ dropped = [];
}.

Lemma take_handed (l : list (Z * A)) t : NoDup (map fst l) ->
  match List.find (fun e => fst e =? t) l with
  | Some (_, v) => Permutation l ((t, v) :: List.filter (fun e => negb (fst e =? t)) l)
  | None => List.filter (fun e => negb (fst e =? t)) l = l
  end.
Proof.
  induction l as [|[x v] l IH]; intros Hnd; [done|]. cbn [map fst] in Hnd. apply list.NoDup_cons in Hnd as [Hn Hnd]. cbn [List.find List.filter fst].
  destruct (Z.eqb_spec x t) as [->|Hne]; cbn [negb].
  - enough (List.filter (fun e => negb (fst e =? t)) l = l) as -> by done. specialize (IH Hnd).
    destruct (find_fst l t) as [(v' & Hin & _)|[_ E]]; [|by rewrite E in IH]. exfalso. apply Hn. by eapply elem_of_fst.
  - specialize (IH Hnd). destruct (List.find _ l) as [[y u]|]; [|by rewrite IH]. rewrite IH at 1. apply Permutation_swap.
Qed.

Definition fifo (trace : list ChanEvent) (a : Abs A) : Prop := exists met values dropped_tasks dropped, fifo_ok trace a met values dropped_tasks dropped.

(** An event that accepts and gives nothing. *)
Lemma fifo_idle trace a e : fifo trace a -> offers [e] = [] -> takers [e] = [] -> deliveries [e] = [] -> fifo (trace ++ [e]) a.
Proof.
  intros (m & vs & dt & dv & []) E1 E2 E3. exists m, vs, dt, dv. split; rewrite ?takers_snoc, ?offers_snoc, ?deliveries_snoc, ?E1, ?E2, ?E3, ?app_nil_r; done.
Qed.

(** A meeting: a task and a value are added at the ends of the lists of both. *)
Lemma zip_snoc (m : list Z) (vs : list A) t v : length m = length vs -> zip (m ++ [t]) (vs ++ [v]) = zip m vs ++ [(t, v)].
Proof. intros E. by rewrite zip_with_app. Qed.

Section Step.
Context {slot : Z -> Z} {cap n : Z} {c : Control A} {a : Abs A} (H : chan_ok slot cap n c a) (trace : list ChanEvent) (F : fifo trace a).

Lemma send_fifo room t v out : answers (spec_op cap room (ChSend t v) a).1 out -> fifo (trace ++ [(room, ChSend t v, out)]) (spec_op cap room (ChSend t v) a).2.
Proof using H F.
  cbn [spec_op]. unfold spec_send. destruct (a_closed a) eqn:Ecl; [intros ->; by apply fifo_idle|].
  destruct F as (m & vs & dt & dv & Fo). destruct (fo_open _ _ _ _ _ _ Fo Ecl) as [-> ->]. destruct Fo as [Ft Fv Fl Fg _ _]. rewrite !app_nil_r in *.
  destruct (a_receivers a) as [|r rs] eqn:Er.
  - destruct (Z.ltb_spec (zlen (a_values a)) cap) as [Hlt|Hge]; cbn [fst snd answers].
    + intros ->. assert (a_senders a = []) as Es.
      { destruct (a_senders a) eqn:Es; [done|]. pose proof (co_full _ _ _ _ _ H ltac:(by rewrite Es)). lia. }
      exists m, vs, [], []. rewrite Es in *. split; cbn [a_values a_senders a_receivers a_handed a_closed]; rewrite ?takers_snoc, ?offers_snoc, ?deliveries_snoc; cbn; rewrite ?app_nil_r in *; try done.
      by rewrite Fv, <- app_assoc.
    + destruct room; cbn [fst snd answers]; intros ->.
      * exists m, vs, [], []. split; cbn [a_values a_senders a_receivers a_handed a_closed]; rewrite ?takers_snoc, ?offers_snoc, ?deliveries_snoc; cbn; rewrite ?app_nil_r in *; try done.
        by rewrite Fv, map_app, <- !app_assoc.
      * by apply fifo_idle.
  - cbn [fst snd answers]. intros ->. destruct (co_waiting _ _ _ _ _ H ltac:(by rewrite Er)) as [Ev Es]. exists (m ++ [r]), (vs ++ [v]), [], [].
    rewrite Ev, Es in *. split; cbn [a_values a_senders a_receivers a_handed a_closed map]; rewrite ?takers_snoc, ?offers_snoc, ?deliveries_snoc; cbn; rewrite ?app_nil_r in *; try done.
    + by rewrite Ft, <- app_assoc.
    + by rewrite Fv.
    + rewrite !length_app. cbn. lia.
    + rewrite zip_snoc by done. by rewrite app_assoc, Fg.
Qed.

Lemma recv_fifo room t out : answers (spec_op cap room (ChRecv t) a).1 out -> fifo (trace ++ [(room, ChRecv t, out)]) (spec_op cap room (ChRecv t) a).2.
Proof using H F.
  cbn [spec_op]. destruct F as (m & vs & dt & dv & Fo).
  (* A receive that meets a value: no receiver waits, none was dropped. *)
  assert (forall x vals snds done_, a_receivers a = [] -> dt = [] -> a_values a ++ map snd (a_senders a) = x :: vals ++ map snd snds ->
    fifo (trace ++ [(room, ChRecv t, OutReply (Received x))]) (mk_abs vals snds (a_receivers a) (a_handed a) done_ (a_closed a))) as Hmeet.
  { intros x vals snds done_ Er -> Ex. destruct Fo as [Ft Fv Fl Fg Fopen Fe]. exists (m ++ [t]), (vs ++ [x]), [], dv.
    split; cbn [a_values a_senders a_receivers a_handed a_closed map]; rewrite ?takers_snoc, ?offers_snoc, ?deliveries_snoc; cbn; rewrite ?Er, ?app_nil_r in *; try done.
    - by rewrite Ft.
    - rewrite Fv, app_assoc, app_assoc, <- (app_assoc vs), Ex, <- !app_assoc. cbn. by rewrite <- !app_assoc.
    - rewrite !length_app. cbn. lia.
    - rewrite zip_snoc by done. rewrite <- Fg, <- !app_assoc. apply Permutation_app_head. by rewrite <- Permutation_cons_append. }
  assert (a_values a <> [] -> a_receivers a = [] /\ dt = []) as Hval.
  { intros Hv. split.
    - destruct (a_receivers a) eqn:Er; [done|]. by destruct (co_waiting _ _ _ _ _ H ltac:(by rewrite Er)).
    - destruct dt; [done|]. by destruct (fo_empty _ _ _ _ _ _ Fo ltac:(done)). }
  assert (a_senders a <> [] -> a_receivers a = [] /\ dt = []) as Hsnd.
  { intros Hs. split.
    - destruct (a_receivers a) eqn:Er; [done|]. by destruct (co_waiting _ _ _ _ _ H ltac:(by rewrite Er)).
    - destruct (a_closed a) eqn:Ecl; [by destruct (co_closed_none _ _ _ _ _ H Ecl)|]. by destruct (fo_open _ _ _ _ _ _ Fo Ecl). }
  unfold spec_recv. destruct (a_values a) as [|x values] eqn:Ev; destruct (a_senders a) as [|[s v] ss] eqn:Es; cbn [fst snd].
  - destruct (a_closed a) eqn:Ecl; cbn [fst snd answers]; [intros ->; by apply fifo_idle|].
    destruct room; cbn [fst snd answers]; intros ->; [|by apply fifo_idle].
    destruct (fo_open _ _ _ _ _ _ Fo Ecl) as [-> ->]. destruct Fo as [Ft Fv Fl Fg _ _]. exists m, vs, [], []. rewrite Ev, Es in *.
    split; cbn [a_values a_senders a_receivers a_handed a_closed map]; rewrite ?takers_snoc, ?offers_snoc, ?deliveries_snoc; cbn; rewrite ?app_nil_r in *; try done.
    by rewrite Ft, <- app_assoc.
  - intros ->. destruct (Hsnd ltac:(done)) as [Er Ed]. by apply Hmeet.
  - intros ->. destruct (Hval ltac:(done)) as [Er Ed]. by apply Hmeet.
  - intros ->. destruct (Hval ltac:(done)) as [Er Ed]. apply Hmeet; [done | done|]. cbn. by rewrite <- app_assoc.
Qed.

Lemma handed_distinct : NoDup (map fst (a_handed a)).
Proof using H.
  pose proof (co_distinct _ _ _ _ _ H) as Hd. apply NoDup_fmap_1 in Hd. unfold involved in Hd. apply list.NoDup_app in Hd as (_ & _ & Hd).
  apply list.NoDup_app in Hd as (_ & _ & Hd). by apply list.NoDup_app in Hd as (? & _).
Qed.

Lemma resume_fifo room op out : (exists t, op = ChResumeSend t) \/ (exists t, op = ChResumeRecv t) -> answers (spec_op cap room op a).1 out ->
  fifo (trace ++ [(room, op, out)]) (spec_op cap room op a).2.
Proof using H F.
  intros Hop. destruct F as (m & vs & dt & dv & [Ft Fv Fl Fg Fo Fe]). destruct Hop as [[t ->]|[t ->]]; cbn [spec_op].
  - unfold spec_done. destruct (bool_decide _); cbn [fst snd answers]; intros ->; (apply fifo_idle; [|done|done|done]); exists m, vs, dt, dv; by split.
  - unfold spec_handed. pose proof (take_handed (a_handed a) t handed_distinct) as Hp. destruct (List.find _ (a_handed a)) as [[t' v]|] eqn:Ef; cbn [fmap option_fmap option_map fst snd answers]; intros ->.
    + exists m, vs, dt, dv. split; cbn [a_values a_senders a_receivers a_handed a_closed map]; rewrite ?takers_snoc, ?offers_snoc, ?deliveries_snoc; cbn; rewrite ?app_nil_r; try done.
      rewrite <- Fg, <- app_assoc. apply Permutation_app_head. cbn. destruct (find_fst (a_handed a) t) as [(v' & _ & E)|[_ E]]; rewrite Ef in E; [|done].
      injection E as -> ->. symmetry. exact Hp.
    + apply fifo_idle; [|done|done|done]. exists m, vs, dt, dv. split; cbn [a_values a_senders a_receivers a_handed a_closed]; try done. by rewrite Hp.
Qed.

Lemma close_fifo room out : fifo (trace ++ [(room, ChClose, out)]) (spec_op cap room ChClose a).2.
Proof using H F.
  destruct F as (m & vs & dt & dv & [Ft Fv Fl Fg Fo Fe]). cbn [spec_op spec_close snd]. apply fifo_idle; [|done|done|done].
  exists m, vs, (a_receivers a ++ dt), (map snd (a_senders a) ++ dv). split; cbn [a_values a_senders a_receivers a_handed a_closed map]; try done.
  intros Hne. destruct (a_closed a) eqn:Ecl.
  - destruct (co_closed_none _ _ _ _ _ H Ecl) as [Es Er]. rewrite Es, Er in *. by apply Fe.
  - destruct (Fo eq_refl) as [-> ->]. rewrite !app_nil_r in *. destruct (co_waiting _ _ _ _ _ H Hne) as [Ev Es]. by rewrite Ev, Es.
Qed.

Lemma op_fifo room op out : answers (spec_op cap room op a).1 out -> fifo (trace ++ [(room, op, out)]) (spec_op cap room op a).2.
Proof using H F.
  destruct op as [t v|t|t|t| |op].
  - apply send_fifo.
  - apply recv_fifo.
  - apply resume_fifo. left. by exists t.
  - apply resume_fifo. right. by exists t.
  - intros _. apply close_fifo.
  - intros _. by apply fifo_idle.
Qed.
End Step.

Lemma chan_reachable_fifo limits owner cap trace w : sizes_ok limits cap -> chan_reachable limits owner cap trace w -> fifo trace (channel_after cap trace).
Proof.
  intros Hsz. induction 1 as [w Hw|trace w op out w' Hr IH Hen E].
  - exists [], [], [], []. by split.
  - rewrite channel_after_snoc. destruct (chan_reachable_ok limits owner cap trace w Hsz Hr) as (fresh & l & Hok).
    destruct (chan_step Hok op Hen) as (out' & w2 & _ & _ & E' & Ha & _). rewrite E in E'. injection E' as <- <-.
    by apply (op_fifo (wk_chan _ _ _ _ _ _ Hok)).
Qed.

(** ** Checked runs *)
Definition state_is (id : Z) (state : TaskState) (s : Scheduler) : bool :=
  match Find id (s_tasks s) with
  | Some (Some index) => match zget (k_records (s_tasks s)) index with
      | Some r => bool_decide (t_state r = state) && (t_id r =? id) && negb (t_recyclable r)
      | None => false
      end
  | _ => false
  end.
Definition resumed (id : Z) (w : World A) : bool := negb (resumes_at (slot_of (w_runtime w) id) w).

(** A condition on the steps of the scheduler that is enough for runs with an empty queue. *)
Definition checked (limits : ChannelLimits) (op : ChanOp A) (w : World A) : bool :=
  let s := rt_sched (w_runtime w) in
  match op with
  | ChSend t _ | ChRecv t => state_is t Running s && resumed t w
  | ChResumeSend t | ChResumeRecv t => state_is t Running s
  | ChClose => true
  | ChSched (OpSpawn _) => next_task_id (s_ids s) + range_size (cl_tasks limits) <=? U64_MAX
  | ChSched (OpPop _) => true
  | ChSched (OpState index state) =>
      (q_size (s_queue s) =? 0) && negb (waits_at index w) &&
      match zget (k_records (s_tasks s)) index with Some r => negb (t_recyclable r) | None => false end
  | ChSched _ => false
  end.

Lemma state_is_at id state s : state_is id state s = true ->
  exists index r, Find id (s_tasks s) = Some (Some index) /\ task_at (s_tasks s) id index r /\ t_state r = state.
Proof.
  unfold state_is. destruct (Find id (s_tasks s)) as [[index|]|]; [|done|done]. destruct (zget _ index) as [r|] eqn:E; [|done].
  rewrite !andb_true_iff, bool_decide_eq_true, Z.eqb_eq, negb_true_iff. intros [[Hs Hid] Hr]. by exists index, r.
Qed.

Lemma checked_enabled limits op w fresh l : sched_ok (cl_tasks limits) fresh l (rt_sched (w_runtime w)) -> checked limits op w = true -> chan_enabled limits op w.
Proof.
  intros H. assert (forall t, state_is t Running (rt_sched (w_runtime w)) = true -> exists index, task_running t index w /\ slot_of (w_runtime w) t = index) as Hrun.
  { intros t Ht. destruct (state_is_at t Running _ Ht) as (index & r & _ & Hr & Hs). exists index. split; [by exists r|]. by destruct (task_slot _ _ _ _ _ _ _ H Hr). }
  destruct op as [t v|t|t|t| |[sp|scope|index state|index|id|index]]; cbn [checked chan_enabled touches enabled]; try done.
  - intros [Hr Hre]%andb_true_iff. destruct (Hrun t Hr) as (index & Hi & <-). eexists. split; [exact Hi|]. by apply negb_true_iff.
  - intros [Hr Hre]%andb_true_iff. destruct (Hrun t Hr) as (index & Hi & <-). eexists. split; [exact Hi|]. by apply negb_true_iff.
  - intros Hr. destruct (Hrun t Hr) as (index & Hi & _). by exists index.
  - intros Hr. destruct (Hrun t Hr) as (index & Hi & _). by exists index.
  - intros Hle%Z.leb_le. split; [done|]. by intros.
  - rewrite !andb_true_iff, Z.eqb_eq, negb_true_iff. intros [[Hq Hw] Hr]. split.
    + destruct (zget _ index) as [r|] eqn:E; [|done]. exists (t_id r), r. split; [split; [done|]; split; [by apply negb_true_iff | done]|]. by apply queued_none.
    + intros i ->. done.
Qed.

Definition checked_step (limits : ChannelLimits) (st : list ChanEvent * World A) (op : ChanOp A) : option (list ChanEvent * World A) :=
  let '(trace, w) := st in
  if checked limits op w then '(out, w') ← chan_op limits op w; Some (trace ++ [(wait_room limits w, op, out)], w') else None.
Definition checked_run (limits : ChannelLimits) (owner cap : Z) (ops : list (ChanOp A)) : option (list ChanEvent * World A) :=
  w ← chan_start limits owner cap; for_each (checked_step limits) ([], w) ops.

Lemma checked_reachable limits owner cap ops trace w : sizes_ok limits cap -> checked_run limits owner cap ops = Some (trace, w) ->
  chan_reachable limits owner cap trace w.
Proof.
  intros Hsz. unfold checked_run. destruct (chan_start limits owner cap) as [w0|] eqn:E0; [|done]. cbn [mbind option_bind].
  pose proof (chan_reachable_start limits owner cap w0 E0) as H0. clear E0. revert H0. generalize (@nil ChanEvent) as trace0. revert w0.
  induction ops as [|op ops IH]; intros w0 trace0 H0; cbn [for_each]; [by intros [= <- <-]|].
  destruct (checked_step limits (trace0, w0) op) as [[trace1 w1]|] eqn:E1; [|done]. cbn [mbind option_bind]. apply IH.
  unfold checked_step in E1. destruct (checked limits op w0) eqn:Ec; [|done]. destruct (chan_op limits op w0) as [[out w2]|] eqn:E2; [|done]. injection E1 as <- <-.
  apply (chan_reachable_step _ _ _ _ w0); [done | | done]. destruct (chan_reachable_ok _ _ _ _ _ Hsz H0) as (fresh & l & Hok). by apply (checked_enabled _ _ _ fresh l); [apply Hok|].
Qed.

(** ** The properties *)
(** C10: In every world reached without a deadlock wake of waiting tasks, and without a step
    of the scheduler on a task that waits at the channel, the channel represents the abstract
    channel after the operations so far, every operation that the tasks may make returns,
    waking never fails, and the answer is that of the abstract channel. *)
Theorem channel_refines limits owner cap trace w : sizes_ok limits cap -> chan_reachable limits owner cap trace w ->
  chan_ok (slot_of (w_runtime w)) cap (task_capacity (cl_tasks limits)) (w_control w) (channel_after cap trace) /\
  forall op, chan_enabled limits op w -> exists out w', chan_op limits op w = Some (out, w') /\
    answers (spec_op cap (wait_room limits w) op (channel_after cap trace)).1 out.
Proof.
  intros Hsz Hr. destruct (chan_reachable_ok limits owner cap trace w Hsz Hr) as (fresh & l & Hok). split; [apply Hok|].
  intros op Hen. destruct (chan_step Hok op Hen) as (out & w' & _ & _ & E & Ha & _). by exists out, w'.
Qed.

(** C11: In the same worlds, reached without a deadlock wake, the k-th receive accepted gets
    the k-th value accepted, once: what receives have returned and what is handed to tasks yet
    to resume are the two lists zipped. While the channel is open the values in it are the
    rest, in order. *)
Theorem channel_fifo limits owner cap trace w : sizes_ok limits cap -> chan_reachable limits owner cap trace w ->
  let a := channel_after cap trace in
  Permutation (deliveries trace ++ a_handed a) (zip (takers trace) (offers trace)) /\
  (a_closed a = false -> a_values a ++ map snd (a_senders a) = drop (length (takers trace)) (offers trace)).
Proof.
  intros Hsz Hr a. destruct (chan_reachable_fifo _ _ _ _ _ Hsz Hr) as (m & vs & dt & dv & [Ft Fv Fl Fg Fo Fe]).
  destruct (chan_reachable_ok _ _ _ _ _ Hsz Hr) as (fresh & l & Hok). pose proof (wk_chan _ _ _ _ _ _ Hok) as Hc. fold a in Ft, Fv, Fg, Fo, Fe, Hc.
  assert (a_receivers a ++ dt <> [] -> a_values a ++ map snd (a_senders a) ++ dv = []) as Hnone.
  { intros Hne. destruct dt as [|t0 dt'].
    - rewrite app_nil_r in Hne. destruct (co_waiting _ _ _ _ _ Hc Hne) as [-> ->]. cbn. destruct (a_closed a) eqn:Ecl; [|by destruct (Fo eq_refl)].
      by destruct (co_closed_none _ _ _ _ _ Hc Ecl) .
    - destruct (Fe ltac:(done)) as [-> ->]. destruct (a_closed a) eqn:Ecl; [|by destruct (Fo eq_refl)]. by destruct (co_closed_none _ _ _ _ _ Hc Ecl) as [-> _]. }
  split.
  - rewrite Fg, Ft, Fv. rewrite zip_with_app by done. destruct (decide (a_receivers a ++ dt = [])) as [->|Hne]; [by rewrite app_nil_r|].
    rewrite (Hnone Hne), zip_with_nil_r. by rewrite app_nil_r.
  - intros Ho. destruct (Fo Ho) as [-> ->]. rewrite !app_nil_r in *. rewrite Ft, Fv, length_app, Fl.
    destruct (decide (a_receivers a = [])) as [->|Hne]; [cbn; by rewrite Nat.add_0_r, drop_app_length|]. rewrite (Hnone Hne), app_nil_r. symmetry. apply drop_ge. lia.
Qed.
End Queue.

(** ** Example *)
(** A receiver waits, three values are sent to a channel of one, the last of them by a
    sender that waits, and two are received. *)
Definition pair_limits : ChannelLimits := mk_channel_limits (mk_limits 2 2) 4.
Definition spawn_pair : list (ChanOp Z) :=
  [ChSched (OpSpawn (example_spawn 1)); ChSched (OpSpawn (example_spawn 1)); ChSched (OpPop 0); ChSched (OpPop 0);
   ChSched (OpState 0 Running); ChSched (OpState 1 Running)].
Definition example_ops : list (ChanOp Z) :=
  spawn_pair ++ [ChRecv 1; ChSend 2 77; ChSend 2 78; ChSend 2 79; ChSched (OpPop 0); ChSched (OpState 0 Running); ChResumeRecv 1; ChRecv 1].
Definition example_channel : list ChanEvent * World Z := Eval vm_compute in
  match checked_run pair_limits 1 1 example_ops with
  | Some r => r
  | None => ([], mk_world (make 1 1 2) (mk_runtime (mk_scheduler (mk_tasks [] [] 0 0 0) (mk_ids 0 false 0 0 0 0) EmptyQueue 0) 0 1 ∅))
  end.

Lemma pair_sizes : sizes_ok pair_limits 1.
Proof. split; vm_compute; split; discriminate. Qed.
Lemma example_channel_reachable : chan_reachable pair_limits 1 1 (fst example_channel) (snd example_channel).
Proof. apply (checked_reachable pair_limits 1 1 example_ops); [exact pair_sizes | vm_compute; reflexivity]. Qed.

Lemma channel_refines_witness : let '(trace, w) := example_channel in
  sizes_ok pair_limits 1 /\ chan_reachable pair_limits 1 1 trace w /\
  chan_ok (slot_of (w_runtime w)) 1 2 (w_control w) (channel_after 1 trace) /\
  forall op, chan_enabled pair_limits op w -> exists out w', chan_op pair_limits op w = Some (out, w') /\
    answers (spec_op 1 (wait_room pair_limits w) op (channel_after 1 trace)).1 out.
Proof.
  split; [exact pair_sizes|]. split; [exact example_channel_reachable|].
  apply (channel_refines pair_limits 1 1 _ _ pair_sizes example_channel_reachable).
Defined.

Lemma channel_fifo_witness : let '(trace, w) := example_channel in
  takers trace = [1; 1] /\ offers trace = [77; 78; 79] /\ deliveries trace = [(1, 77); (1, 78)] /\
  let a := channel_after 1 trace in
  Permutation (deliveries trace ++ a_handed a) (zip (takers trace) (offers trace)) /\
  (a_closed a = false -> a_values a ++ map snd (a_senders a) = drop (length (takers trace)) (offers trace)).
Proof.
  split; [reflexivity|]. split; [reflexivity|]. split; [reflexivity|].
  apply (channel_fifo pair_limits 1 1 _ _ pair_sizes example_channel_reachable).
Defined.

(** ** A wake outside the protocol *)
(** A receiver waits on a channel without a buffer and the scheduler, with nothing else to
    do, wakes it. It is refused, as it has no value, and finishes; then a value is sent. *)
Definition stranded : option (Reply Z * Reply Z * World Z) :=
  '(_, w) ← checked_run pair_limits 1 0 (spawn_pair ++ [ChRecv 1]);
  '(_, rt) ← WakeDeadlockedTasks pair_limits 0 (w_runtime w);
  '(_, s) ← PopReady 0 (rt_sched rt);
  t ← SetState 0 Running (s_tasks s);
  '(refusal, w) ← CoroutineResumeRecv 1 (mk_world (w_control w) (set_sched (set_tasks t s) rt));
  t ← SetState 0 Completed (s_tasks (rt_sched (w_runtime w)));
  t ← RetireTaskRecord 0 t;
  '(reply, w) ← send_impl pair_limits (inr 2) 77 (mk_world (w_control w) (set_sched (set_tasks t (rt_sched (w_runtime w))) (w_runtime w)));
  Some (refusal, reply, w).

(** The value is nowhere: the receiver that left was still first in the queue of the
    channel, so the sender is told that the value was sent, the open channel holds none
    and nobody waits to receive one. *)
Example deadlock_wake_loses_value : exists w, stranded = Some (Refused TaskContextMissing, Sent, w) /\
  c_closed (w_control w) = false /\ r_size (c_ring (w_control w)) = 0 /\ c_values (w_control w) = [] /\
  Forall (fun entry => entry = None) (c_rendezvous (w_control w)) /\ TaskSlot (s_tasks (rt_sched (w_runtime w))) (w_head (c_recv (w_control w))) = InvalidTaskIndex.
Proof.
  eexists. split; [vm_compute; reflexivity|]. repeat split; vm_compute; try reflexivity. by repeat constructor.
Qed.
