(* ===== verification/Primitives.v ===== *)
(** * Primitives: what the compute primitives share

    The count source of [program/compute/model.hpp], the dispatch plan of
    [compute/indexed/preflight.hpp] and the result of [accel/check.hpp]. A primitive's
    buffer is a list; a null pointer is [None]; distinct buffers do not overlap. An enum
    of the source is an inductive type with the source's enumerators and one more
    constructor for the other values of its underlying type, which the plans reject. *)
From stdpp Require Import base numbers list option strings.
From Stdlib Require Import ZArith Lia.
From S2P Require Import Prelude.

(** [ComputeCountSource] *)
Inductive ComputeCountSource := Descriptor | BufferU32 | BufferU64 | OtherCountSource (value : Z).
#[export] Instance ComputeCountSource_eq_dec : EqDecision ComputeCountSource.
Proof. solve_decision. Defined.

Definition ComputeCountBytes (source : ComputeCountSource) : Z :=
  if decide (source = BufferU32) then 4 else if decide (source = BufferU64) then 8 else 0.

(** The guard every plan has on its count source. *)
Definition count_source_unsupported (source : ComputeCountSource) : bool :=
  bool_decide (source <> Descriptor) && (ComputeCountBytes source =? 0).

(** [AccelCheck] *)
Record AccelCheck := { check_ok : bool; check_reason : string }.
Definition accel_ok : AccelCheck := {| check_ok := true; check_reason := "ok" |}.
Definition accel_fail (reason : string) : AccelCheck := {| check_ok := false; check_reason := reason |}.

(** The result of a reference primitive that reports the elements it handled. *)
Record CountedResult := { result_count : Z; result_ok : bool; result_reason : string }.
Definition counted_ok (count : Z) : CountedResult :=
  {| result_count := count; result_ok := true; result_reason := "ok" |}.
Definition counted_reject (count : Z) (reason : string) : CountedResult :=
  {| result_count := count; result_ok := false; result_reason := reason |}.

(** A buffer that may be a null pointer. *)
Notation buffer := (option (list Z)).
Definition is_null (b : buffer) : bool := match b with None => true | Some _ => false end.
Definition read (b : buffer) (index : Z) : option Z := l ← b; zget l index.
Definition write (b : buffer) (index value : Z) : option buffer := l ← b; l ← zset l index value; Some (Some l).

(** ** Outputs written from the front

    [filled g i out]: the first [i] elements are [g 0 .. g (i - 1)], the others are those
    of [out]. A loop that writes [g index] at every index leaves this array. *)
Definition filled (g : Z -> Z) (i : Z) (out : list Z) : list Z := map g (range 0 i) ++ drop (Z.to_nat i) out.

Lemma filled_0 g out : filled g 0 out = out.
Proof. done. Qed.

Lemma zlen_filled g i out : 0 <= i <= zlen out -> zlen (filled g i out) = zlen out.
Proof.
  intros H. unfold filled. rewrite zlen_app, zlen_map, zlen_range by lia. unfold zlen in *. rewrite length_drop. lia.
Qed.

Lemma filled_step g i out : 0 <= i < zlen out -> zset (filled g i out) i (g i) = Some (filled g (i + 1) out).
Proof.
  intros H. unfold filled. destruct (zget_is_Some out i H) as [x Hx]. apply zget_Some in Hx as [_ Hx].
  rewrite (drop_S out x (Z.to_nat i) Hx). rewrite zset_app_mid by (rewrite zlen_map, zlen_range; lia).
  rewrite range_snoc, map_app, <- app_assoc by lia. do 2 f_equal. cbn. f_equal. f_equal. lia.
Qed.

Lemma filled_get g i out j : 0 <= j < i -> zget (filled g i out) j = Some (g j).
Proof.
  intros H. unfold filled. rewrite zget_app_l by (rewrite zlen_map, zlen_range; lia).
  apply zget_Some. split; [lia|]. rewrite list_lookup_fmap. change (range 0 i !! Z.to_nat j) with (seqZ 0 (i - 0) !! Z.to_nat j).
  rewrite lookup_seqZ_lt by lia. cbn. f_equal. f_equal. lia.
Qed.

Lemma filled_ext g h i out : (forall j, 0 <= j < i -> g j = h j) -> filled g i out = filled h i out.
Proof.
  intros H. unfold filled. f_equal. apply map_ext_in. intros j Hj. apply H. apply list_elem_of_In, elem_of_range in Hj. lia.
Qed.

(** ** Prefix sums *)
Definition prefix_sum (l : list Z) (i : Z) : Z := foldr Z.add 0 (take (Z.to_nat i) l).

Lemma prefix_sum_0 l : prefix_sum l 0 = 0.
Proof. done. Qed.
Lemma prefix_sum_S l i v : 0 <= i -> zget l i = Some v -> prefix_sum l (i + 1) = prefix_sum l i + v.
Proof. intros Hi Hv. unfold prefix_sum. rewrite (take_S_Z l i v) by done. apply foldr_add_snoc. Qed.
Lemma prefix_sum_mono l i j : Forall (fun v => 0 <= v) l -> 0 <= i <= j -> 0 <= prefix_sum l i <= prefix_sum l j.
Proof.
  intros Hl Hij. unfold prefix_sum. replace (Z.to_nat j) with (Z.to_nat i + Z.to_nat (j - i))%nat by lia.
  rewrite <- take_take_drop. rewrite foldr_app.
  assert (forall k x, foldr Z.add x k = foldr Z.add 0 k + x) as E by (induction k; intros; cbn; [|rewrite IHk]; lia).
  rewrite (E _ (foldr _ _ _)).
  pose proof (foldr_add_nonneg _ (Forall_take _ (Z.to_nat i) _ Hl)).
  pose proof (foldr_add_nonneg _ (Forall_take _ (Z.to_nat (j - i)) _ (Forall_drop _ (Z.to_nat i) _ Hl))). lia.
Qed.

(** ** Lanes

    A lane of [w] bits holds an unsigned or a two's complement number; a buffer holds its
    unsigned representation. *)
Definition lane_min (w : Z) (is_signed : bool) : Z := if is_signed then - 2 ^ (w - 1) else 0.
Definition lane_max (w : Z) (is_signed : bool) : Z := if is_signed then 2 ^ (w - 1) - 1 else 2 ^ w - 1.
Definition lane_fits (w : Z) (is_signed : bool) (v : Z) : Prop := lane_min w is_signed <= v <= lane_max w is_signed.
Definition lane_value (w : Z) (is_signed : bool) (word : Z) : Z := if is_signed then to_signed w word else word.

(** ** [PlanIndexPreflight] *)
Record IndexPreflightPlan := { group_count : Z; pass_count : Z; partial_bytes : Z }.

Definition PlanIndexPreflight (capacity : Z) : IndexPreflightPlan :=
  if (capacity =? 0) || (capacity >? U32_MAX) then {| group_count := 0; pass_count := 0; partial_bytes := 0 |}
  else if capacity <=? 65536 then {| group_count := 1; pass_count := 1; partial_bytes := 0 |}
  else
    let requested := wrap64 (capacity / 4096 + (if negb (capacity mod 4096 =? 0) then 1 else 0)) in
    let groups := wrap32 (if requested <? 1024 then requested else 1024) in
    {| group_count := groups; pass_count := 2; partial_bytes := wrap64 (groups * 4) |}.

(** The groups of a two-pass preflight, each of at least 4096 indices, cover the capacity
    without an idle group, and their partial minima fit in one group's reduction. *)
Lemma PlanIndexPreflight_spec capacity :
  0 < capacity <= U32_MAX ->
  let plan := PlanIndexPreflight capacity in
  1 <= group_count plan <= 1024 /\ (pass_count plan = 1 <-> group_count plan = 1) /\
  (group_count plan - 1) * 4096 < capacity /\
  (group_count plan < 1024 -> capacity <= group_count plan * 4096 \/ capacity <= 65536) /\
  partial_bytes plan = (if pass_count plan =? 1 then 0 else 4 * group_count plan).
Proof.
  intros H. unfold PlanIndexPreflight.
  rewrite (proj2 (orb_false_iff _ _)) by (split; [by apply Z.eqb_neq; lia | rewrite Z.gtb_ltb; apply Z.ltb_ge; lia]).
  destruct (Z.leb_spec capacity 65536); cbn -[wrap32 wrap64]; [lia|].
  pose proof (Z.div_mod capacity 4096 ltac:(lia)) as Hd. pose proof (Z.mod_pos_bound capacity 4096 ltac:(lia)) as Hm.
  set (q := capacity / 4096) in *. set (r := capacity mod 4096) in *. clearbody q r.
  assert (16 <= q <= 1048576) by lia.
  destruct (Z.eqb_spec r 0); cbn -[wrap32 wrap64]; rewrite (wrap64_small (q + _)) by (unfold is_u64; lia);
    case_match; to_prop; rewrite (wrap32_small _) by (unfold is_u32; lia);
    rewrite wrap64_small by (unfold is_u64; lia); lia.
Qed.
