(* ===== verification/StableSort.v ===== *)
(** * StableSort: what a stable sort computes

    [stable_sort key l l']: [l'] is sorted by [key] and has, for every key, the elements
    of [l] with that key in the order of [l]. There is one such list; the bucket sort
    computes it, and so does a sequence of stable passes from the least to the most
    significant digit of the key. *)
From stdpp Require Import base numbers list option sorting.
From Stdlib Require Import ZArith Lia Sorted.
From S2P Require Import Prelude BucketSort.

Section stable.
Context {A : Type}.
Implicit Types (key : A -> Z) (l : list A).

Record stable_sort key l l' : Prop := {
  stable_sorted : StronglySorted (fun a b => key a <= key b) l';
  stable_buckets : forall k, bucket_list key l' k = bucket_list key l k;
}.

Lemma bucket_list_cons key a l k :
  bucket_list key (a :: l) k = if decide (key a = k) then a :: bucket_list key l k else bucket_list key l k.
Proof. done. Qed.

Lemma stable_elem key l l' p : stable_sort key l l' -> p ∈ l' <-> p ∈ l.
Proof.
  intros [_ Hb]. transitivity (p ∈ bucket_list key l' (key p)); [by rewrite elem_of_bucket_list; naive_solver|].
  rewrite Hb. rewrite elem_of_bucket_list. naive_solver.
Qed.

(** A stable sort of a list is unique. *)
Lemma sorted_unique key l1 l2 :
  StronglySorted (fun a b => key a <= key b) l1 -> StronglySorted (fun a b => key a <= key b) l2 ->
  (forall k, bucket_list key l1 k = bucket_list key l2 k) -> l1 = l2.
Proof.
  intros H1. revert l2. induction H1 as [|a l1 Hs1 IH Ha]; intros l2 H2 Hb.
  - destruct l2 as [|b l2]; [done|]. specialize (Hb (key b)). rewrite bucket_list_cons, decide_True in Hb by done. done.
  - destruct H2 as [|b l2 Hs2 Hb2].
    { specialize (Hb (key a)). rewrite bucket_list_cons, decide_True in Hb by done. done. }
    rewrite Forall_forall in Ha, Hb2.
    assert (forall x k, x ∈ bucket_list key (a :: l1) k -> x ∈ b :: l2) as H12.
    { intros x k Hx. rewrite Hb in Hx. by apply elem_of_bucket_list in Hx as [_ ?]. }
    assert (forall x k, x ∈ bucket_list key (b :: l2) k -> x ∈ a :: l1) as H21.
    { intros x k Hx. rewrite <- Hb in Hx. by apply elem_of_bucket_list in Hx as [_ ?]. }
    assert (key a = key b) as Eab.
    { apply Z.le_antisymm.
      - assert (b ∈ a :: l1) as [->|?]%elem_of_cons; [|lia|by apply Ha].
        apply (H21 b (key b)). apply elem_of_bucket_list. split; [done | left].
      - assert (a ∈ b :: l2) as [->|?]%elem_of_cons; [|lia|by apply Hb2].
        apply (H12 a (key a)). apply elem_of_bucket_list. split; [done | left]. }
    assert (a = b) as <-.
    { pose proof (Hb (key a)) as E. rewrite !bucket_list_cons, !decide_True in E by congruence. by injection E. }
    f_equal. apply IH; [done|]. intros k. pose proof (Hb k) as E. rewrite !bucket_list_cons in E.
    case_decide; [by injection E | done].
Qed.

Lemma stable_unique key l l1 l2 : stable_sort key l l1 -> stable_sort key l l2 -> l1 = l2.
Proof.
  intros [H1 B1] [H2 B2]. apply (sorted_unique key); [done | done |]. intros k. by rewrite B1, B2.
Qed.

(** Equal buckets are a permutation of each other. *)
Lemma stable_Permutation key nb l l' :
  0 <= nb -> Forall (fun p => 0 <= key p < nb) l -> stable_sort key l l' -> l' ≡ₚ l.
Proof.
  intros Hnb Hl Hs. rewrite <- (bucket_sort_Permutation key nb l Hnb Hl).
  rewrite <- (bucket_sort_Permutation key nb l' Hnb).
  - unfold bucket_sort. by rewrite (map_ext _ _ (stable_buckets _ _ _ Hs)).
  - apply Forall_forall. intros p Hp. apply (proj1 (Forall_forall _ _) Hl). by apply (stable_elem key l l' p Hs).
Qed.

Lemma stable_refl key l : StronglySorted (fun a b => key a <= key b) l -> stable_sort key l l.
Proof. by intros. Qed.

Lemma stable_ext key key' l l' : (forall p, p ∈ l -> key p = key' p) -> stable_sort key l l' -> stable_sort key' l l'.
Proof.
  intros He Hs. pose proof (fun p => proj1 (stable_elem key l l' p Hs)) as Hin. split.
  - eapply StronglySorted_impl; [|apply Hs]. cbn. intros a b Ha Hb. by rewrite !He by auto.
  - intros k. rewrite <- !(bucket_list_ext key key') by auto. by apply Hs.
Qed.

Lemma filter_none (P : A -> Prop) `{!forall x, Decision (P x)} l : (forall x, x ∈ l -> ~ P x) -> filter P l = [].
Proof.
  induction l as [|x l IH]; intros Hn; [done|]. rewrite filter_cons, decide_False by (apply Hn; left).
  apply IH. intros y Hy. apply Hn. by right.
Qed.

Lemma filter_swap (P Q : A -> Prop) `{!forall x, Decision (P x), !forall x, Decision (Q x)} l :
  filter P (filter Q l) = filter Q (filter P l).
Proof.
  induction l as [|x l IH]; [done|]. rewrite !(filter_cons _ x l). case_decide as HQ; case_decide as HP.
  - by rewrite !filter_cons, !decide_True, IH.
  - by rewrite filter_cons, decide_False, IH.
  - by rewrite filter_cons, decide_False, IH.
  - done.
Qed.

Lemma stable_bucket_list key f l l' b : stable_sort key l l' -> stable_sort key (bucket_list f l b) (bucket_list f l' b).
Proof.
  intros [Hs Hb]. split; [by apply filter_StronglySorted|]. intros k. specialize (Hb k). unfold bucket_list in *.
  by rewrite filter_swap, Hb, filter_swap.
Qed.

Lemma bucket_list_bucket_sort f nb l b :
  0 <= nb -> bucket_list f (bucket_sort f nb l) b = if decide (0 <= b < nb) then bucket_list f l b else [].
Proof.
  revert nb. apply natlike_ind.
  - rewrite decide_False by lia. done.
  - intros nb Hnb IH. unfold Z.succ. rewrite bucket_sort_snoc by done. unfold bucket_list at 1. rewrite filter_app.
    fold (bucket_list f (bucket_sort f nb l) b). rewrite IH. unfold bucket_list.
    destruct (decide (b = nb)) as [->|Hne].
    + rewrite decide_False, decide_True by lia. cbn. rewrite list_filter_filter.
      apply list_filter_iff. naive_solver.
    + rewrite list_filter_filter.
      assert (filter (fun x => f x = b /\ f x = nb) l = []) as ->.
      { apply filter_none. intros x _ [? ?]. congruence. }
      rewrite app_nil_r. destruct (decide (0 <= b < nb)); [rewrite decide_True by lia | rewrite decide_False by lia]; done.
Qed.

(** A stable pass by the more significant digit [f] sorts by both digits. *)
Lemma stable_pass low f m nb l l' :
  0 <= nb -> (forall p, p ∈ l -> 0 <= low p < m /\ 0 <= f p < nb) ->
  stable_sort low l l' -> stable_sort (fun p => low p + m * f p) l (bucket_sort f nb l').
Proof.
  intros Hnb Hr Hs. pose proof (fun p => proj1 (stable_elem low l l' p Hs)) as Hin. split.
  - eapply StronglySorted_impl; [|apply (bucket_sort_sorted f (fun a b => low a <= low b)); [done | apply Hs]].
    intros a b [_ Ha]%elem_of_bucket_sort [_ Hb]%elem_of_bucket_sort; [|done..].
    pose proof (Hr a (Hin a Ha)). pose proof (Hr b (Hin b Hb)). intros [? | [? ?]]; nia.
  - intros k.
    assert (forall x, x ∈ l -> low x + m * f x = k <-> f x = k / m /\ low x = k mod m) as Hk.
    { intros x Hx. pose proof (Hr x Hx). split.
      - intros <-. rewrite (Z.mul_comm m), Z.div_add, Z.mod_add by lia. rewrite Z.div_small, Z.mod_small by lia. lia.
      - intros [-> ->]. pose proof (Z.div_mod k m). lia. }
    assert (forall L, (forall x, x ∈ L -> x ∈ l) ->
      bucket_list (fun p => low p + m * f p) L k = bucket_list low (bucket_list f L (k / m)) (k mod m)) as E.
    { intros L HL. unfold bucket_list. rewrite list_filter_filter. induction L as [|x L IH]; [done|].
      rewrite !filter_cons. rewrite IH by (intros; apply HL; by right).
      pose proof (Hk x (HL x ltac:(left))) as Hkx.
      destruct (decide (low x + m * f x = k)); [rewrite decide_True by (destruct Hkx; tauto) | rewrite decide_False by (destruct Hkx; tauto)]; done. }
    rewrite E by (intros x [_ Hx]%elem_of_bucket_sort; [by apply Hin | done]). rewrite E by done.
    rewrite bucket_list_bucket_sort by done. case_decide as Hd.
    + by apply stable_bucket_list.
    + assert (bucket_list f l (k / m) = []) as ->.
      { unfold bucket_list. apply filter_none. intros x Hx. pose proof (Hr x Hx). lia. }
      done.
Qed.

(** Appending an element to the source inserts it behind the elements not above it. *)
Lemma stable_insert key l a b x :
  stable_sort key l (a ++ b) -> Forall (fun p => key p <= key x) a -> Forall (fun p => key x < key p) b ->
  stable_sort key (l ++ [x]) (a ++ x :: b).
Proof.
  intros [Hs Hb] Ha Hx. rewrite Forall_forall in Ha, Hx. split.
  - apply StronglySorted_app in Hs as (Hab & Hsa & Hsb).
    apply StronglySorted_app_2; [|done|].
    + intros y z Hy [->|Hz]%elem_of_cons; [by apply Ha | by apply Hab].
    + constructor; [done|]. apply Forall_forall. intros y Hy. specialize (Hx y Hy). lia.
  - intros k. rewrite bucket_list_snoc, <- Hb. unfold bucket_list. rewrite !filter_app, filter_cons, <- app_assoc. f_equal.
    case_decide as Hk; [|by rewrite app_nil_r]. subst k.
    assert (filter (fun p => key p = key x) b = []) as ->; [|done].
    apply filter_none. intros y Hy. specialize (Hx y Hy). lia.
Qed.
End stable.

(** A stable sort of images is the image of a stable sort. *)
Lemma stable_map {A B} (g : A -> B) (key : B -> Z) l l' :
  stable_sort (fun p => key (g p)) l l' -> stable_sort key (map g l) (map g l').
Proof.
  intros [Hs Hb]. split.
  - clear Hb. induction Hs as [|a l' Hs IH Ha]; [constructor|]. cbn. constructor; [done|].
    apply Forall_forall. intros y Hy. apply list_elem_of_In, in_map_iff in Hy as (x & <- & Hx%list_elem_of_In).
    by apply (proj1 (Forall_forall _ _) Ha).
  - intros k. specialize (Hb k).
    assert (forall L, bucket_list key (map g L) k = map g (bucket_list (fun p => key (g p)) L k)) as E.
    { induction L as [|x L IH]; [done|]. cbn [map]. rewrite !bucket_list_cons, IH. by case_decide. }
    by rewrite !E, Hb.
Qed.
