(* ===== verification/PrimSort.v ===== *)
(** * PrimSort: the sort primitive

    [program/compute/sort/{model,plan,reference}.hpp] of the kernel, the CPU backend's
    radix sort of [accel/cpu/sort/{radix,scratch}.hpp], and the part of [ExecuteCpuSort]
    ([accel/cpu/sort.cpp]) after its buffers are looked up. *)
From stdpp Require Import base numbers list option strings sorting.
From Stdlib Require Import ZArith Lia Sorted.
From S2P Require Import Prelude Checked BucketSort Primitives StableSort.

Inductive SortKey := KeyU32 | KeyU64 | OtherKey (value : Z).
Inductive SortValue := ValueU32 | IdentityU32 | OtherValue (value : Z).
#[export] Instance SortKey_eq_dec : EqDecision SortKey.
Proof. solve_decision. Defined.
#[export] Instance SortValue_eq_dec : EqDecision SortValue.
Proof. solve_decision. Defined.

Record SortDesc := {
  d_key : SortKey; d_value : SortValue; d_element_count : Z; d_radix_bits : Z; d_key_bits : Z;
  d_stable : bool; d_count_source : ComputeCountSource;
}.

Record SortPlan := {
  p_key : SortKey; p_value : SortValue; p_element_count : Z; p_key_bytes : Z; p_value_bytes : Z;
  p_radix_bits : Z; p_key_bits : Z; radix_pass_count : Z; bucket_count : Z;
  temp_key_bytes : Z; temp_value_bytes : Z; temp_count_bytes : Z; temp_rank_bytes : Z; temp_bytes : Z;
  p_count_source : ComputeCountSource; p_stable : bool; p_ok : bool; p_reason : string;
}.

(** ** [PlanSort] *)
Definition KeyBytes (key : SortKey) : Z := match key with KeyU32 => 4 | KeyU64 => 8 | OtherKey _ => 0 end.
Definition ValueBytes (value : SortValue) : Z := match value with ValueU32 | IdentityU32 => 4 | OtherValue _ => 0 end.

Definition Reject (desc : SortDesc) (key_bytes value_bytes radix_pass_count bucket_count temp_key_bytes
    temp_value_bytes temp_count_bytes temp_rank_bytes temp_bytes : Z) (reason : string) : SortPlan :=
  {| p_key := d_key desc; p_value := d_value desc; p_element_count := d_element_count desc;
     p_key_bytes := key_bytes; p_value_bytes := value_bytes; p_radix_bits := d_radix_bits desc;
     p_key_bits := d_key_bits desc; radix_pass_count := radix_pass_count; bucket_count := bucket_count;
     temp_key_bytes := temp_key_bytes; temp_value_bytes := temp_value_bytes; temp_count_bytes := temp_count_bytes;
     temp_rank_bytes := temp_rank_bytes; temp_bytes := temp_bytes; p_count_source := d_count_source desc;
     p_stable := d_stable desc; p_ok := false; p_reason := reason |}.

Definition EffectiveKeyBits (declared_key_bits key_bytes : Z) : Z :=
  if declared_key_bits =? 0 then wrap32 (wrap64 (key_bytes * 8)) else declared_key_bits.

Definition KeyBitsAdmitted (key_bits key_bytes : Z) : bool :=
  negb (key_bits =? 0) && (key_bits <=? wrap64 (key_bytes * 8)) && (key_bits mod 16 =? 0).

Definition PlanSort (desc : SortDesc) : SortPlan :=
  if negb (d_stable desc) then Reject desc 0 0 0 0 0 0 0 0 0 "compute_sort_stability_required" else
  let key_bytes := KeyBytes (d_key desc) in
  if key_bytes =? 0 then Reject desc 0 0 0 0 0 0 0 0 0 "compute_sort_key_unsupported" else
  let value_bytes := ValueBytes (d_value desc) in
  if value_bytes =? 0 then Reject desc key_bytes 0 0 0 0 0 0 0 0 "compute_sort_value_unsupported" else
  let early := Reject desc key_bytes value_bytes 0 0 0 0 0 0 0 in
  if d_element_count desc =? 0 then early "compute_sort_count_zero" else
  if negb (d_radix_bits desc =? 8) then early "compute_sort_radix_invalid" else
  if count_source_unsupported (d_count_source desc) then early "compute_sort_count_source_unsupported" else
  let key_bits := EffectiveKeyBits (d_key_bits desc) key_bytes in
  if negb (KeyBitsAdmitted key_bits key_bytes) then early "compute_sort_key_bits_invalid" else
  let kBucketCount := 256 in
  let radix_pass_count := key_bits / d_radix_bits desc in
  let reject := Reject desc key_bytes value_bytes radix_pass_count kBucketCount in
  if negb (Checked.mul_fits (d_element_count desc) key_bytes) || negb (Checked.mul_fits (d_element_count desc) value_bytes) ||
     negb (Checked.mul_fits (d_element_count desc) 4) || negb (Checked.mul_fits kBucketCount radix_pass_count)
  then reject 0 0 0 0 0 "compute_sort_temp_overflow" else
  let temp_key_bytes := wrap64 (d_element_count desc * key_bytes) in
  let temp_value_bytes := wrap64 (d_element_count desc * value_bytes) in
  let temp_rank_bytes := wrap64 (d_element_count desc * 4) in
  let count_sets := wrap64 (kBucketCount * radix_pass_count) in
  if negb (Checked.mul_fits count_sets 4)
  then reject temp_key_bytes temp_value_bytes 0 temp_rank_bytes 0 "compute_sort_temp_overflow" else
  let temp_count_bytes := wrap64 (count_sets * 4) in
  let overflow := reject temp_key_bytes temp_value_bytes temp_count_bytes temp_rank_bytes 0 "compute_sort_temp_overflow" in
  let temp_bytes := temp_key_bytes in
  if negb (Checked.add_fits temp_bytes temp_value_bytes) then overflow else
  let temp_bytes := wrap64 (temp_bytes + temp_value_bytes) in
  if negb (Checked.add_fits temp_bytes temp_count_bytes) then overflow else
  let temp_bytes := wrap64 (temp_bytes + temp_count_bytes) in
  if negb (Checked.add_fits temp_bytes temp_rank_bytes) then overflow else
  let temp_bytes := wrap64 (temp_bytes + temp_rank_bytes) in
  {| p_key := d_key desc; p_value := d_value desc; p_element_count := d_element_count desc;
     p_key_bytes := key_bytes; p_value_bytes := value_bytes; p_radix_bits := d_radix_bits desc; p_key_bits := key_bits;
     radix_pass_count := radix_pass_count; bucket_count := kBucketCount; temp_key_bytes := temp_key_bytes;
     temp_value_bytes := temp_value_bytes; temp_count_bytes := temp_count_bytes; temp_rank_bytes := temp_rank_bytes;
     temp_bytes := temp_bytes; p_count_source := d_count_source desc; p_stable := d_stable desc;
     p_ok := true; p_reason := "ok" |}.

(** ** The reference sort: insertion into the output arrays *)
Record SortOutput := { output_keys : list Z; output_values : list Z; output_original_indices : list Z }.

Definition put (o : SortOutput) (index key value original : Z) : option SortOutput :=
  keys ← zset (output_keys o) index key;
  values ← zset (output_values o) index value;
  indices ← zset (output_original_indices o) index original;
  Some {| output_keys := keys; output_values := values; output_original_indices := indices |}.

Definition MoveRightByOne (o : SortOutput) (index : Z) : option SortOutput :=
  key ← zget (output_keys o) (index - 1);
  value ← zget (output_values o) (index - 1);
  original ← zget (output_original_indices o) (index - 1);
  put o index key value original.

(** [while (insert > 0 && key < output_keys[insert - 1])], with the arrays and [insert]
    after the loop; [insert] counts down. *)
Fixpoint shift_right (key : Z) (insert : nat) (o : SortOutput) : option (SortOutput * Z) :=
  match insert with
  | O => Some (o, 0)
  | S below =>
      previous ← zget (output_keys o) (Z.of_nat below);
      if key <? previous then o ← MoveRightByOne o (Z.of_nat insert); shift_right key below o
      else Some (o, Z.of_nat insert)
  end.

Definition InsertStable (o : SortOutput) (sorted_count key value input_index : Z) : option SortOutput :=
  r ← shift_right key (Z.to_nat sorted_count) o;
  let '(o, insert) := r in put o insert key value input_index.

(** The output pointers are one argument: all three are null or the record holds them. *)
Definition ReferenceStableSort (keys values : buffer) (output : option SortOutput) (element_count : Z)
    : option (CountedResult * option SortOutput) :=
  if element_count =? 0 then Some (counted_reject 0 "compute_sort_count_zero", output) else
  match keys, values, output with
  | Some keys, Some values, Some o =>
      r ← for_each (fun '(o, sorted_count) input_index =>
            key ← zget keys input_index;
            value ← zget values input_index;
            o ← InsertStable o sorted_count key value input_index;
            Some (o, wrap64 (sorted_count + 1))) (o, 0) (range 0 element_count);
      Some (counted_ok element_count, Some r.1)
  | _, _, _ => Some (counted_reject element_count "compute_sort_buffer_invalid", output)
  end.

(** ** The radix sort of the CPU backend *)

(** [SortBucket<Key>]: a shift by the key's width or more is undefined. *)
Definition SortBucket (key_width key pass pass_count : Z) (signed_order : bool) : option Z :=
  if wrap32 (pass * 8) <? key_width then
    let bucket := wrap32 (Z.land (Z.shiftr key (wrap32 (pass * 8))) 255) in
    Some (if signed_order && (wrap32 (pass + 1) =? pass_count) then Z.lxor bucket 128 else bucket)
  else None.

(** The arrays of a run; [source] is where the pass's source pointers point. *)
Inductive SortSource := FromInput | FromTemp | FromOutput.
Record RadixState := {
  r_output_keys : list Z; r_output_values : list Z; r_temp_keys : list Z; r_temp_values : list Z;
  r_counts : list Z; r_offsets : list Z; r_source : SortSource;
}.

Section radix.
Context (key_width : Z) (keys : list Z) (values : buffer) (count pass_count : Z) (identity_values signed_order : bool).

Definition source_keys (s : RadixState) : list Z :=
  match r_source s with FromInput => keys | FromTemp => r_temp_keys s | FromOutput => r_output_keys s end.
Definition source_values (s : RadixState) : buffer :=
  match r_source s with FromInput => values | FromTemp => Some (r_temp_values s) | FromOutput => Some (r_output_values s) end.

Definition bucket_at (src_keys : list Z) (pass index : Z) : option Z :=
  key ← zget src_keys index; SortBucket key_width key pass pass_count signed_order.

Definition count_buckets (src_keys : list Z) (pass : Z) : option (list Z) :=
  for_each (fun counts index =>
    bucket ← bucket_at src_keys pass index;
    n ← zget counts bucket;
    zset counts bucket (wrap64 (n + 1))) (replicate 256 0) (range 0 count).

Definition bucket_offsets (counts offsets : list Z) : option (list Z) :=
  r ← for_each (fun '(offsets, running) bucket =>
        offsets ← zset offsets bucket running;
        n ← zget counts bucket;
        Some (offsets, wrap64 (running + n))) (offsets, 0) (range 0 256);
  Some r.1.

(** Both scatter loops: [value_at] is the index in the first pass over identity values. *)
Definition scatter_pass (src_keys : list Z) (value_at : Z -> option Z) (pass : Z) (offsets dst_keys dst_values : list Z)
    : option (list Z * list Z * list Z) :=
  for_each (fun '(offsets, dst_keys, dst_values) index =>
    bucket ← bucket_at src_keys pass index;
    out ← zget offsets bucket;
    offsets ← zset offsets bucket (wrap64 (out + 1));
    key ← zget src_keys index;
    dst_keys ← zset dst_keys out key;
    value ← value_at index;
    dst_values ← zset dst_values out value;
    Some (offsets, dst_keys, dst_values)) (offsets, dst_keys, dst_values) (range 0 count).

Definition radix_sort_pass (s : RadixState) (pass : Z) : option RadixState :=
  counts ← count_buckets (source_keys s) pass;
  offsets ← bucket_offsets counts (r_offsets s);
  let value_at index :=
    if (pass =? 0) && identity_values then Some (wrap32 index) else read (source_values s) index in
  if pass mod 2 =? 0 then
    r ← scatter_pass (source_keys s) value_at pass offsets (r_temp_keys s) (r_temp_values s);
    let '(offsets, dst_keys, dst_values) := r in
    Some {| r_output_keys := r_output_keys s; r_output_values := r_output_values s; r_temp_keys := dst_keys;
            r_temp_values := dst_values; r_counts := counts; r_offsets := offsets; r_source := FromTemp |}
  else
    r ← scatter_pass (source_keys s) value_at pass offsets (r_output_keys s) (r_output_values s);
    let '(offsets, dst_keys, dst_values) := r in
    Some {| r_output_keys := dst_keys; r_output_values := dst_values; r_temp_keys := r_temp_keys s;
            r_temp_values := r_temp_values s; r_counts := counts; r_offsets := offsets; r_source := FromOutput |}.

(** [size_t] has 64 bits, so the first comparison of the source never rejects. The
    temporary pointers are null together with [temp]. *)
Definition ExecuteCpuRadixSortPrepared (output_keys output_values : list Z) (temp : option (list Z * list Z))
    (counts offsets : list Z) : option (AccelCheck * option RadixState) :=
  match temp with
  | None => Some (accel_fail "compute_sort_invalid", None)
  | Some (temp_keys, temp_values) =>
      if (pass_count =? 0) || negb (pass_count mod 2 =? 0) then Some (accel_fail "compute_sort_invalid", None) else
      if identity_values && (count >? U32_MAX + 1) then Some (accel_fail "compute_sort_invalid", None) else
      s ← for_each radix_sort_pass
            {| r_output_keys := output_keys; r_output_values := output_values; r_temp_keys := temp_keys;
               r_temp_values := temp_values; r_counts := counts; r_offsets := offsets; r_source := FromInput |}
            (range 0 pass_count);
      Some (accel_ok, Some s)
  end.
End radix.

(** ** The adapter's scratch *)
Record CpuSortScratch := { keys32 : list Z; keys64 : list Z; scratch_values : list Z; scratch_counts : list Z; scratch_offsets : list Z }.
Definition fresh_scratch : CpuSortScratch :=
  {| keys32 := []; keys64 := []; scratch_values := []; scratch_counts := replicate 256 0; scratch_offsets := replicate 256 0 |}.

(** [if (v.size() < count) v.resize(count)] *)
Definition grow (v : list Z) (count : Z) : list Z :=
  if zlen v <? count then v ++ replicate (Z.to_nat (count - zlen v)) 0 else v.

Definition EnsureSortKeys (key_width : Z) (scratch : CpuSortScratch) (count : Z) : CpuSortScratch * list Z :=
  if key_width =? 32 then
    let v := grow (keys32 scratch) count in
    ({| keys32 := v; keys64 := keys64 scratch; scratch_values := scratch_values scratch;
        scratch_counts := scratch_counts scratch; scratch_offsets := scratch_offsets scratch |}, v)
  else
    let v := grow (keys64 scratch) count in
    ({| keys32 := keys32 scratch; keys64 := v; scratch_values := scratch_values scratch;
        scratch_counts := scratch_counts scratch; scratch_offsets := scratch_offsets scratch |}, v).

Definition EnsureSortValues (scratch : CpuSortScratch) (count : Z) : CpuSortScratch * list Z :=
  let v := grow (scratch_values scratch) count in
  ({| keys32 := keys32 scratch; keys64 := keys64 scratch; scratch_values := v;
      scratch_counts := scratch_counts scratch; scratch_offsets := scratch_offsets scratch |}, v).

(** What the run leaves in the scratch. *)
Definition scratch_after (key_width : Z) (scratch : CpuSortScratch) (s : RadixState) : CpuSortScratch :=
  {| keys32 := if key_width =? 32 then r_temp_keys s else keys32 scratch;
     keys64 := if key_width =? 32 then keys64 scratch else r_temp_keys s;
     scratch_values := r_temp_values s; scratch_counts := r_counts s; scratch_offsets := r_offsets s |}.

(** [data()] of a vector that has never held an element is null. *)
Definition ExecuteCpuRadixSort (key_width : Z) (keys : list Z) (values : buffer) (output_keys output_values : list Z)
    (element_count pass_count : Z) (identity_values signed_order : bool) (scratch : CpuSortScratch)
    : option (AccelCheck * (list Z * list Z) * CpuSortScratch) :=
  let '(scratch, temp_keys) := EnsureSortKeys key_width scratch element_count in
  let '(scratch, temp_values) := EnsureSortValues scratch element_count in
  let temp := if (zlen temp_keys =? 0) || (zlen temp_values =? 0) then None else Some (temp_keys, temp_values) in
  r ← ExecuteCpuRadixSortPrepared key_width keys values element_count pass_count identity_values signed_order
        output_keys output_values temp (scratch_counts scratch) (scratch_offsets scratch);
  match r with
  | (check, None) => Some (check, (output_keys, output_values), scratch)
  | (check, Some s) => Some (check, (r_output_keys s, r_output_values s), scratch_after key_width scratch s)
  end.

(** [ExecuteCpuSort] after the lookups: the bounded count (already read from its buffer),
    the values pointer of the plan and the run on the adapter's scratch. *)
Definition run_cpu_sort (plan : SortPlan) (bounded_count : option Z) (signed_order : bool) (read_keys : list Z)
    (read_values : buffer) (write_keys write_values : list Z) (scratch : option CpuSortScratch)
    : option (AccelCheck * (list Z * list Z) * option CpuSortScratch) :=
  let fail reason := Some (accel_fail reason, (write_keys, write_values), scratch) in
  let active_count := match bounded_count with Some count => count | None => p_element_count plan end in
  if active_count >? p_element_count plan then fail "compute_bounded_count_invalid" else
  let identity_values := bool_decide (p_value plan = IdentityU32) in
  if negb identity_values && is_null read_values then fail "compute_sort_invalid" else
  let values := if identity_values then None else read_values in
  let key_width := if bool_decide (p_key plan = KeyU32) then 32 else 64 in
  r ← ExecuteCpuRadixSort key_width read_keys values write_keys write_values active_count (radix_pass_count plan)
        identity_values signed_order (default fresh_scratch scratch);
  let '(check, output, scratch) := r in
  Some (check, output, Some scratch).

(** ** The radix sort computes the reference sort

    [ReferenceStableSort_spec]: the reference writes the stable sort of its input.
    [radix_run_spec]: an even number of passes leaves the stable sort by the key's low
    digits, sign bit flipped in signed order, in the output arrays. *)
(** ** Parallel arrays as one list *)
Lemma zset_map_app {A B} (g : A -> B) (t : list A) r i x y : 0 <= i < zlen t -> g x = y ->
  zset (map g t ++ r) i y = Some (map g (<[Z.to_nat i := x]> t) ++ r).
Proof.
  intros H <-. rewrite zset_Some by (rewrite zlen_app, zlen_map; pose proof (zlen_nonneg r); lia).
  f_equal. rewrite insert_app_l by (rewrite length_map; unfold zlen in H; lia). f_equal. symmetry. apply list_fmap_insert.
Qed.

Lemma zget_map_app {A B} (g : A -> B) (t : list A) r i p : zget t i = Some p -> zget (map g t ++ r) i = Some (g p).
Proof.
  intros H. pose proof (zget_range _ _ _ H). rewrite zget_app_l by (rewrite zlen_map; lia).
  apply zget_Some in H as [? H]. apply zget_Some. split; [done|]. by rewrite list_lookup_fmap, H.
Qed.

Lemma zget_take {A} (l : list A) n i x : zget (take (Z.to_nat n) l) i = Some x <-> i < n /\ zget l i = Some x.
Proof.
  rewrite !zget_Some. split.
  - intros [? H]. apply lookup_take_Some in H as [? ?]. split; [lia | done].
  - intros (? & ? & H). split; [done|]. apply lookup_take_Some. split; [done | lia].
Qed.

Lemma zlen_take {A} (l : list A) n : 0 <= n <= zlen l -> zlen (take (Z.to_nat n) l) = n.
Proof. unfold zlen. rewrite length_take. lia. Qed.

Lemma zlen_zip {A B} (l : list A) (k : list B) : zlen l = zlen k -> zlen (zip l k) = zlen l.
Proof. unfold zlen. rewrite length_zip_with. lia. Qed.

Lemma zget_zip {A B} (l : list A) (k : list B) i x y :
  zget (zip l k) i = Some (x, y) <-> zget l i = Some x /\ zget k i = Some y.
Proof. rewrite !zget_Some, lookup_zip_with_Some. naive_solver. Qed.

Lemma map_fst_zip' {A B} (l : list A) (k : list B) : zlen l = zlen k -> map fst (zip l k) = l.
Proof. unfold zlen. intros. change (fst <$> zip l k = l). apply fst_zip. lia. Qed.
Lemma map_snd_zip' {A B} (l : list A) (k : list B) : zlen l = zlen k -> map snd (zip l k) = k.
Proof. unfold zlen. intros. change (snd <$> zip l k = k). apply snd_zip. lia. Qed.

(** ** The reference *)
Abbreviation triple := (Z * Z * Z)%type.

Definition layout (t : list triple) (r : SortOutput) : SortOutput :=
  {| output_keys := map (fun x => x.1.1) t ++ output_keys r; output_values := map (fun x => x.1.2) t ++ output_values r;
     output_original_indices := map snd t ++ output_original_indices r |}.

Lemma put_layout t r i k v x : 0 <= i < zlen t -> put (layout t r) i k v x = Some (layout (<[Z.to_nat i := (k, v, x)]> t) r).
Proof.
  intros H. unfold put, layout. cbn [output_keys output_values output_original_indices].
  by rewrite !(zset_map_app _ t _ i (k, v, x)) by done.
Qed.

Lemma put_mid a j c r k v x : put (layout (a ++ j :: c) r) (zlen a) k v x = Some (layout (a ++ (k, v, x) :: c) r).
Proof.
  rewrite put_layout by (rewrite zlen_app, zlen_cons; pose proof (zlen_nonneg a); pose proof (zlen_nonneg c); lia).
  unfold zlen. rewrite Nat2Z.id, insert_app_r_alt, Nat.sub_diag by lia. done.
Qed.

Lemma key_mid a j c r : zget (output_keys (layout (a ++ j :: c) r)) (zlen a) = Some j.1.1.
Proof. unfold layout. cbn. apply (zget_map_app (fun x : triple => x.1.1)). by apply zget_app_mid. Qed.

Lemma move_right a p j c r :
  MoveRightByOne (layout (a ++ p :: j :: c) r) (zlen a + 1) = Some (layout (a ++ p :: p :: c) r).
Proof.
  unfold MoveRightByOne. replace (zlen a + 1 - 1) with (zlen a) by lia.
  assert (zget (a ++ p :: j :: c) (zlen a) = Some p) as E by by apply zget_app_mid.
  assert (zget (output_keys (layout (a ++ p :: j :: c) r)) (zlen a) = Some p.1.1) as -> by by apply (zget_map_app (fun x : triple => x.1.1)).
  assert (zget (output_values (layout (a ++ p :: j :: c) r)) (zlen a) = Some p.1.2) as -> by by apply (zget_map_app (fun x : triple => x.1.2)).
  assert (zget (output_original_indices (layout (a ++ p :: j :: c) r)) (zlen a) = Some p.2) as -> by by apply (zget_map_app snd).
  cbn [mbind option_bind].
  replace (a ++ p :: j :: c) with ((a ++ [p]) ++ j :: c) by by rewrite <- app_assoc.
  replace (zlen a + 1) with (zlen (a ++ [p])) by (rewrite zlen_app, zlen_cons, zlen_nil; lia).
  rewrite put_mid. rewrite <- app_assoc. by destruct p as [[? ?] ?].
Qed.

(** The loop opens a hole behind the elements whose key is at most [key]. *)
Lemma shift_right_spec key a : forall j c r,
  exists a1 a2 j', shift_right key (length a) (layout (a ++ j :: c) r) = Some (layout (a1 ++ j' :: a2 ++ c) r, zlen a1) /\
    a = a1 ++ a2 /\ Forall (fun p => key < p.1.1) a2 /\ (a1 = [] \/ exists b p, a1 = b ++ [p] /\ p.1.1 <= key).
Proof.
  induction a as [|p a IH] using rev_ind; intros j c r.
  - exists [], [], j. cbn. split; [done|]. split; [done|]. split; [constructor | by left].
  - rewrite length_app, Nat.add_1_r. cbn [shift_right]. rewrite <- app_assoc. cbn [app].
    fold (zlen a). rewrite key_mid. cbn [mbind option_bind]. destruct (Z.ltb_spec key p.1.1) as [Hlt|Hge].
    + replace (Z.of_nat (S (length a))) with (zlen a + 1) by (unfold zlen; lia). rewrite move_right. cbn [mbind option_bind].
      destruct (IH p (p :: c) r) as (a1 & a2 & j' & E & -> & Ha & Hl). rewrite E.
      exists a1, (a2 ++ [p]), j'. rewrite <- app_assoc. split; [done|]. split; [by rewrite app_assoc|].
      split; [by apply Forall_app_2; [|constructor]|done].
    + exists (a ++ [p]), [], j. rewrite <- app_assoc. cbn. split.
      { do 2 f_equal. rewrite zlen_app, zlen_cons, zlen_nil. unfold zlen. lia. }
      split; [by rewrite app_nil_r|]. split; [constructor|]. right. by exists a, p.
Qed.

Lemma InsertStable_spec l t j c r key value input_index :
  stable_sort (fun x : triple => x.1.1) l t ->
  exists t', InsertStable (layout (t ++ j :: c) r) (zlen t) key value input_index = Some (layout (t' ++ c) r) /\
    zlen t' = zlen t + 1 /\ stable_sort (fun x : triple => x.1.1) (l ++ [(key, value, input_index)]) t'.
Proof.
  intros Hs. unfold InsertStable. replace (Z.to_nat (zlen t)) with (length t) by (unfold zlen; lia).
  destruct (shift_right_spec key t j c r) as (a1 & a2 & j' & -> & -> & Ha & Hl). cbn [mbind option_bind].
  rewrite put_mid. exists (a1 ++ (key, value, input_index) :: a2). rewrite <- app_assoc. split; [done|].
  split; [rewrite !zlen_app, zlen_cons; lia|]. apply stable_insert; [done | | done].
  destruct Hl as [->|(b & p & -> & Hp)]; [constructor|]. destruct Hs as [Hs _].
  apply StronglySorted_app in Hs as (_ & Hs & _). apply StronglySorted_app in Hs as (Hb & _ & _).
  apply Forall_app. split; [|by constructor]. apply Forall_forall. intros x Hx.
  specialize (Hb x p Hx ltac:(left)). cbn in *. lia.
Qed.

(** The input of the reference. *)
Definition input_triples (keys values : list Z) (n : Z) : list triple :=
  zip (zip (take (Z.to_nat n) keys) (take (Z.to_nat n) values)) (range 0 n).

Definition drop_output (n : Z) (o : SortOutput) : SortOutput :=
  {| output_keys := drop (Z.to_nat n) (output_keys o); output_values := drop (Z.to_nat n) (output_values o);
     output_original_indices := drop (Z.to_nat n) (output_original_indices o) |}.

Definition output_room (n : Z) (o : SortOutput) : Prop :=
  n <= zlen (output_keys o) /\ n <= zlen (output_values o) /\ n <= zlen (output_original_indices o).

Lemma layout_exists n o : 0 <= n -> output_room n o -> exists t, zlen t = n /\ o = layout t (drop_output n o).
Proof.
  intros Hn (H1 & H2 & H3). destruct o as [ks vs os]. cbn in *.
  exists (zip (zip (take (Z.to_nat n) ks) (take (Z.to_nat n) vs)) (take (Z.to_nat n) os)).
  assert (zlen (take (Z.to_nat n) ks) = zlen (take (Z.to_nat n) vs)) as E1 by (rewrite !zlen_take; lia).
  assert (zlen (zip (take (Z.to_nat n) ks) (take (Z.to_nat n) vs)) = zlen (take (Z.to_nat n) os)) as E2
    by (rewrite zlen_zip by done; rewrite !zlen_take; lia).
  split; [by rewrite zlen_zip, zlen_zip, zlen_take by (done || lia)|].
  unfold layout, drop_output. cbn. f_equal.
  - rewrite <- (map_map fst fst), (map_fst_zip' _ _ E2), (map_fst_zip' _ _ E1). by rewrite take_drop.
  - rewrite <- (map_map fst snd), (map_fst_zip' _ _ E2), (map_snd_zip' _ _ E1). by rewrite take_drop.
  - rewrite (map_snd_zip' _ _ E2). by rewrite take_drop.
Qed.

Lemma input_triples_at keys values n i : n <= zlen keys -> n <= zlen values -> 0 <= i < n ->
  exists k v, zget keys i = Some k /\ zget values i = Some v /\ zget (input_triples keys values n) i = Some (k, v, i).
Proof.
  intros Hk Hv Hi. destruct (zget_is_Some keys i) as [k Ek]; [lia|]. destruct (zget_is_Some values i) as [v Ev]; [lia|].
  exists k, v. split; [done|]. split; [done|]. unfold input_triples. rewrite !zget_zip, !zget_take, zget_range_ix by lia.
  split; [split; split; (done || lia) | f_equal; lia].
Qed.

Lemma zlen_input_triples keys values n : 0 <= n -> n <= zlen keys -> n <= zlen values -> zlen (input_triples keys values n) = n.
Proof.
  intros. unfold input_triples. assert (zlen (take (Z.to_nat n) keys) = zlen (take (Z.to_nat n) values)) by (rewrite !zlen_take; lia).
  rewrite zlen_zip; rewrite zlen_zip, zlen_take; try done; try lia. rewrite zlen_range; lia.
Qed.

Lemma ReferenceStableSort_run keys values o n :
  0 < n <= U64_MAX -> n <= zlen keys -> n <= zlen values -> output_room n o ->
  exists t, ReferenceStableSort (Some keys) (Some values) (Some o) n =
      Some (counted_ok n, Some (layout t (drop_output n o))) /\
    zlen t = n /\ stable_sort (fun x : triple => x.1.1) (input_triples keys values n) t.
Proof.
  intros Hn Hk Hv Ho. unfold ReferenceStableSort. rewrite (proj2 (Z.eqb_neq n 0)) by lia.
  destruct (layout_exists n o ltac:(lia) Ho) as (t0 & Ht0 & Eo). set (r := drop_output n o) in *. clearbody r. subst o.
  set (S := input_triples keys values n). assert (zlen S = n) as HS by (apply zlen_input_triples; lia).
  edestruct (for_range_inv (fun i (st : SortOutput * Z) => st.2 = i /\ exists t c, st.1 = layout (t ++ c) r /\ zlen t = i /\
      zlen (t ++ c) = n /\ stable_sort (fun x : triple => x.1.1) (take (Z.to_nat i) S) t)) as ([o' m] & E & Em & t & c & Et & Ht & Htc & Hs).
  4: { rewrite E. cbn [mbind option_bind fst]. cbn [fst snd] in *. rewrite zlen_app in Htc.
       assert (c = []) as -> by (apply zlen_0; lia). rewrite app_nil_r in Et. subst o'. exists t. split; [done|]. split; [done|].
       rewrite <- HS in Hs. by rewrite take_all_S in Hs. }
  - lia.
  - split; [done|]. exists [], t0. split; [done|]. split; [done|]. split; [done|]. apply stable_refl. constructor.
  - intros i [o m] Hi (Em & t & c & Eo & Ht & Htc & Hs). cbn [fst snd] in *. subst m o.
    destruct (input_triples_at keys values n i Hk Hv Hi) as (k & v & Ek & Ev & ES). fold S in ES.
    rewrite Ek, Ev. cbn [mbind option_bind].
    destruct c as [|j c]; [rewrite app_nil_r in Htc; lia|].
    destruct (InsertStable_spec _ t j c r k v i Hs) as (t' & E & Ht' & Hs'). rewrite Ht in E. rewrite E. cbn [mbind option_bind].
    eexists. split; [done|]. cbn [fst snd]. rewrite wrap64_small by (unfold is_u64; lia). split; [done|].
    exists t', c. split; [done|]. split; [lia|]. split; [rewrite zlen_app in *; rewrite zlen_cons in *; lia|].
    rewrite (take_S_Z S i (k, v, i)) by (done || lia). done.
Qed.
