(* ===== verification/PrimRadix.v ===== *)
(** * PrimRadix: the passes of the CPU radix sort

    [sort_radix_pass_spec]: a pass is a stable bucket sort by one byte of the key.
    [radix_run_spec]: the run sorts by [sort_order], the low bytes of the key with the
    sign bit flipped in signed order. [cpu_sort_refines_reference] states it of
    [ExecuteCpuSort] under a plan of [PlanSort]. *)
From stdpp Require Import base numbers list option strings sorting.
From Stdlib Require Import ZArith Lia Sorted.
From S2P Require Import Prelude Checked BucketSort Primitives StableSort PrimSort.

(** ** Digits *)
Lemma pow256 n : 0 <= n -> 2 ^ (n * 8) = 256 ^ n.
Proof. intros. change 256 with (2 ^ 8). rewrite <- Z.pow_mul_r by lia. f_equal. lia. Qed.

Lemma mod_next key m : 0 < m -> key mod (m * 256) = key mod m + m * (key / m mod 256).
Proof. intros. rewrite Z.rem_mul_r by lia. done. Qed.

Lemma lxor_high bucket : 0 <= bucket < 256 -> Z.lxor bucket 128 = (bucket + 128) mod 256.
Proof.
  intros H. assert (Forall (fun b => Z.lxor b 128 = (b + 128) mod 256) (range 0 256)) as F by (vm_compute; repeat constructor).
  rewrite Forall_forall in F. apply F. apply elem_of_range. lia.
Qed.

(** The rank of a key after the first [passes] of [pass_count] passes. *)
Definition rank_after (pass_count : Z) (signed_order : bool) (passes key : Z) : Z :=
  if signed_order && (passes =? pass_count) then (key + 256 ^ passes / 2) mod 256 ^ passes else key mod 256 ^ passes.

Definition digit (pass_count : Z) (signed_order : bool) (pass key : Z) : Z :=
  let bucket := key / 256 ^ pass mod 256 in
  if signed_order && (pass + 1 =? pass_count) then Z.lxor bucket 128 else bucket.

Lemma digit_range pass_count signed_order pass key : 0 <= digit pass_count signed_order pass key < 256.
Proof.
  unfold digit. pose proof (Z.mod_pos_bound (key / 256 ^ pass) 256 ltac:(lia)). case_match; [|lia].
  rewrite lxor_high by lia. apply Z.mod_pos_bound. lia.
Qed.

Lemma rank_range pass_count signed_order passes key : 0 <= passes -> 0 <= rank_after pass_count signed_order passes key < 256 ^ passes.
Proof. intros. unfold rank_after. case_match; apply Z.mod_pos_bound, Z.pow_pos_nonneg; lia. Qed.

Lemma rank_step pass_count signed_order pass key : 0 <= pass < pass_count ->
  rank_after pass_count signed_order (pass + 1) key =
  rank_after pass_count signed_order pass key + 256 ^ pass * digit pass_count signed_order pass key.
Proof.
  intros H. unfold rank_after, digit. rewrite (proj2 (Z.eqb_neq pass pass_count)), andb_false_r by lia.
  rewrite Z.pow_add_r, Z.pow_1_r by lia. assert (0 < 256 ^ pass) as Hm by (apply Z.pow_pos_nonneg; lia).
  set (m := 256 ^ pass) in *. clearbody m. destruct (signed_order && (pass + 1 =? pass_count)); [|by apply mod_next].
  rewrite lxor_high by (apply Z.mod_pos_bound; lia). rewrite Zplus_mod_idemp_l.
  replace (m * 256) with (128 * m * 2) at 1 by lia. rewrite Z.div_mul by lia.
  rewrite mod_next by done. rewrite Z.div_add, Z.mod_add by lia. done.
Qed.

Lemma SortBucket_digit w key pass pass_count signed_order :
  0 <= pass < pass_count -> pass_count * 8 <= w -> w <= 64 ->
  SortBucket w key pass pass_count signed_order = Some (digit pass_count signed_order pass key).
Proof.
  intros H Hw Hm. unfold SortBucket, digit. rewrite !wrap32_small by (unfold is_u32; lia).
  rewrite (proj2 (Z.ltb_lt _ _)) by lia. change 255 with (2 ^ 8 - 1).
  rewrite land_mask, Z.shiftr_div_pow2, pow256 by lia. change (2 ^ 8) with 256.
  rewrite wrap32_small by (unfold is_u32; pose proof (Z.mod_pos_bound (key / 256 ^ pass) 256); lia). done.
Qed.

(** ** One pass *)
Section pass.
Context (w : Z) (keys : list Z) (values : buffer) (n pass_count : Z) (identity_values signed_order : bool) (pass : Z).
Context (Hpass : 0 <= pass < pass_count) (Hw : pass_count * 8 <= w) (Hw64 : w <= 64).
Context (L : list (Z * Z)) (HL : zlen L = n) (Hn : n <= U64_MAX).

Abbreviation f := (fun p : Z * Z => digit pass_count signed_order pass p.1).

Lemma digits_L : Forall (fun p => 0 <= f p < 256) L.
Proof using. apply Forall_forall. intros p _. apply digit_range. Qed.

(** [src_keys] and [value_at] read the elements of [L]. *)
Definition reads (src_keys : list Z) (value_at : Z -> option Z) : Prop :=
  forall i p, zget L i = Some p -> zget src_keys i = Some p.1 /\ value_at i = Some p.2.

Lemma source_digit src_keys value_at i : reads src_keys value_at -> 0 <= i < n ->
  exists p, zget L i = Some p /\ zget src_keys i = Some p.1 /\ value_at i = Some p.2 /\ 0 <= f p < 256 /\
    bucket_at w pass_count signed_order src_keys pass i = Some (f p).
Proof using Hpass Hw Hw64 HL.
  intros Hr Hi. destruct (zget_is_Some L i) as [p Hp]; [lia|]. destruct (Hr i p Hp) as [Hk Hv]. exists p.
  do 3 (split; [done|]). split; [apply digit_range|]. unfold bucket_at. rewrite Hk. cbn. by apply SortBucket_digit.
Qed.

Lemma count_buckets_spec src_keys value_at : reads src_keys value_at ->
  exists counts, count_buckets w n pass_count signed_order src_keys pass = Some counts /\ zlen counts = 256 /\
    forall b, 0 <= b < 256 -> zget counts b = Some (zlen (bucket_list f L b)).
Proof using Hpass Hw Hw64 HL Hn.
  intros Hr. unfold count_buckets.
  edestruct (for_range_inv (count_inv f 256 L 256)) as (cs & E & Hcs).
  4: { exists cs. split; [exact E|]. rewrite <- HL in Hcs. split; [apply Hcs | by apply (count_end _ _ _ _ _ Hcs)]. }
  - rewrite <- HL. apply zlen_nonneg.
  - apply (count_start f 256 L (replicate 256 0)). intros b Hb. unfold zget. rewrite (proj2 (Z.leb_le 0 b)) by lia.
    apply lookup_replicate_2. lia.
  - intros i cs Hi Hcs. destruct (source_digit _ _ i Hr Hi) as (p & Hp & Hk & Hv & Hf & ->). cbn [mbind option_bind].
    destruct (count_step f 256 L 256 i cs p ltac:(lia) ltac:(lia) Hp Hf Hcs) as (c & Ec & Hc & Hcs').
    pose proof (zget_range _ _ _ Ec). rewrite Ec. cbn [mbind option_bind]. rewrite zset_Some by done.
    rewrite wrap64_small by (unfold is_u64; lia). by eexists.
Qed.

Lemma bucket_offsets_spec counts offsets : zlen offsets = 256 ->
  (forall b, 0 <= b < 256 -> zget counts b = Some (zlen (bucket_list f L b))) ->
  exists offsets', bucket_offsets counts offsets = Some offsets' /\ zlen offsets' = 256 /\
    forall b, 0 <= b < 256 -> zget offsets' b = Some (bucket_start f L b).
Proof using HL Hn.
  intros Ho Hc. unfold bucket_offsets.
  edestruct (for_range_inv (start_inv f L 256)) as ([os pre] & E & Hl & _ & Hos).
  4: { rewrite E. exists os. by split. }
  - lia.
  - split; [done|]. split; [done|]. lia.
  - intros i [os pre] Hi Hinv. destruct (start_step f 256 L digits_L 256 i os pre ltac:(lia) Hi Hinv) as (Es & Hr & Hinv').
    rewrite Es. cbn [mbind option_bind]. rewrite Hc by done. cbn [mbind option_bind].
    rewrite wrap64_small by (unfold is_u64; lia). by eexists.
Qed.

Lemma scatter_pass_spec src_keys value_at offsets dst_keys dst_values :
  reads src_keys value_at -> n <= zlen dst_keys -> n <= zlen dst_values -> zlen offsets = 256 ->
  (forall b, 0 <= b < 256 -> zget offsets b = Some (bucket_start f L b)) ->
  exists offsets', scatter_pass w n pass_count signed_order src_keys value_at pass offsets dst_keys dst_values =
      Some (offsets', map fst (bucket_sort f 256 L) ++ drop (Z.to_nat n) dst_keys,
            map snd (bucket_sort f 256 L) ++ drop (Z.to_nat n) dst_values) /\ zlen offsets' = 256.
Proof using Hpass Hw Hw64 HL Hn.
  intros Hr Hdk Hdv Ho Hoff. unfold scatter_pass. pose proof (zlen_nonneg L) as H0.
  set (rk := drop (Z.to_nat n) dst_keys). set (rv := drop (Z.to_nat n) dst_values).
  set (t0 := zip (take (Z.to_nat n) dst_keys) (take (Z.to_nat n) dst_values)).
  assert (zlen (take (Z.to_nat n) dst_keys) = zlen (take (Z.to_nat n) dst_values)) as El by (rewrite !zlen_take; lia).
  assert (zlen t0 = zlen L) as Ht0 by (unfold t0; rewrite zlen_zip by done; rewrite zlen_take; lia).
  edestruct (for_range_inv (fun i (st : list Z * list Z * list Z) => exists t, scatter_inv f 256 L 256 i st.1.1 t /\
      st.1.2 = map fst t ++ rk /\ st.2 = map snd t ++ rv)) as ([[os dk] dv] & E & t & Hinv & Ek & Ev).
  4: { rewrite E. rewrite <- HL in Hinv. destruct (scatter_end _ _ _ _ _ _ Hinv) as [Hl Et]. cbn [fst snd] in *. subst t.
       rewrite Ek, Ev. by exists os. }
  - lia.
  - exists t0. cbn [fst snd]. split.
    + pose proof (scatter_start f 256 L ltac:(lia) digits_L offsets t0 Ht0 Hoff) as Hs. by rewrite Ho in Hs.
    + unfold t0. rewrite (map_fst_zip' _ _ El), (map_snd_zip' _ _ El). unfold rk, rv. by rewrite !take_drop.
  - intros i [[os dk] dv] Hi (t & Hinv & Ek & Ev). cbn [fst snd] in *. subst dk dv.
    destruct (source_digit _ _ i Hr Hi) as (p & Hp & Hk & Hv & Hf & ->). cbn [mbind option_bind].
    destruct (scatter_step f 256 L ltac:(lia) digits_L 256 i p os t ltac:(lia) Hp Hf ltac:(lia) Hinv) as (out & Eo & Hout & Ht & Hinv').
    rewrite Eo. cbn [mbind option_bind]. pose proof (zget_range _ _ _ Eo). rewrite (zset_Some os) by done. cbn [mbind option_bind].
    rewrite Hk. cbn [mbind option_bind]. rewrite (zset_map_app fst t rk out p) by done. cbn [mbind option_bind].
    rewrite Hv. cbn [mbind option_bind]. rewrite (zset_map_app snd t rv out p) by done. cbn [mbind option_bind].
    rewrite wrap64_small by (unfold is_u64; lia). eexists. split; [done|]. by exists (<[Z.to_nat out := p]> t).
Qed.

(** The state a pass leaves: the sorted elements in front of what the arrays held. *)
Definition placed (l : list (Z * Z)) (n : Z) (ks vs ks0 vs0 : list Z) : Prop :=
  ks = map fst l ++ drop (Z.to_nat n) ks0 /\ vs = map snd l ++ drop (Z.to_nat n) vs0.

Definition roomy (s : RadixState) : Prop :=
  n <= zlen (r_output_keys s) /\ n <= zlen (r_output_values s) /\ n <= zlen (r_temp_keys s) /\ n <= zlen (r_temp_values s) /\
  zlen (r_counts s) = 256 /\ zlen (r_offsets s) = 256.

Lemma sort_radix_pass_spec s :
  roomy s ->
  reads (source_keys keys s) (fun index => if (pass =? 0) && identity_values then Some (wrap32 index) else read (source_values values s) index) ->
  exists s', radix_sort_pass w keys values n pass_count identity_values signed_order s pass = Some s' /\
    zlen (r_counts s') = 256 /\ zlen (r_offsets s') = 256 /\
    if pass mod 2 =? 0 then
      r_source s' = FromTemp /\ r_output_keys s' = r_output_keys s /\ r_output_values s' = r_output_values s /\
      placed (bucket_sort f 256 L) n (r_temp_keys s') (r_temp_values s') (r_temp_keys s) (r_temp_values s)
    else
      r_source s' = FromOutput /\ r_temp_keys s' = r_temp_keys s /\ r_temp_values s' = r_temp_values s /\
      placed (bucket_sort f 256 L) n (r_output_keys s') (r_output_values s') (r_output_keys s) (r_output_values s).
Proof using Hpass Hw Hw64 HL Hn.
  intros (H1 & H2 & H3 & H4 & H5 & H6) Hr. unfold radix_sort_pass.
  destruct (count_buckets_spec _ _ Hr) as (cs & -> & Hcs & Hc). cbn [mbind option_bind].
  destruct (bucket_offsets_spec cs (r_offsets s) H6 Hc) as (os & -> & Hos & Ho). cbn [mbind option_bind].
  destruct (pass mod 2 =? 0).
  - destruct (scatter_pass_spec _ _ os _ _ Hr H3 H4 Hos Ho) as (os' & -> & Hos'). cbn [mbind option_bind]. by eexists.
  - destruct (scatter_pass_spec _ _ os _ _ Hr H1 H2 Hos Ho) as (os' & -> & Hos'). cbn [mbind option_bind]. by eexists.
Qed.
End pass.

(** ** The run *)
Section run.
Context (w : Z) (keys : list Z) (values : buffer) (n pass_count : Z) (identity_values signed_order : bool).
Context (Hpc : 0 < pass_count) (Heven : pass_count mod 2 = 0) (Hw : pass_count * 8 <= w) (Hw64 : w <= 64).
Context (S : list (Z * Z)) (HS : zlen S = n) (Hn : n <= U64_MAX).
Context (Hin : forall i p, zget S i = Some p -> zget keys i = Some p.1 /\
  (if identity_values then Some (wrap32 i) else read values i) = Some p.2).
Context (output_keys output_values : list Z).

Definition pass_value (s : RadixState) (pass index : Z) : option Z :=
  if (pass =? 0) && identity_values then Some (wrap32 index) else read (source_values values s) index.

Definition run_inv (i : Z) (s : RadixState) : Prop :=
  roomy n s /\ drop (Z.to_nat n) (r_output_keys s) = drop (Z.to_nat n) output_keys /\
  drop (Z.to_nat n) (r_output_values s) = drop (Z.to_nat n) output_values /\
  exists L, zlen L = n /\ stable_sort (fun p : Z * Z => rank_after pass_count signed_order i p.1) S L /\
    reads L (source_keys keys s) (pass_value s i) /\
    (i <> 0 -> i mod 2 = 0 -> r_output_keys s = map fst L ++ drop (Z.to_nat n) output_keys /\
                              r_output_values s = map snd L ++ drop (Z.to_nat n) output_values).

Lemma bucket_sort_zlen pass L : zlen L = n -> zlen (bucket_sort (fun p : Z * Z => digit pass_count signed_order pass p.1) 256 L) = n.
Proof using HS Hn.
  intros <-. unfold zlen. rewrite (bucket_sort_Permutation _ 256 L); [done | lia|].
  apply Forall_forall. intros p _. apply digit_range.
Qed.

Lemma drop_placed (g : Z * Z -> Z) (l : list (Z * Z)) r : zlen l = n -> drop (Z.to_nat n) (map g l ++ r) = r.
Proof using HS Hn.
  intros <-. unfold zlen. rewrite Nat2Z.id. rewrite <- (length_map g l). apply drop_app_length.
Qed.

Lemma placed_reads (l : list (Z * Z)) rk rv : reads l (map fst l ++ rk) (fun index => read (Some (map snd l ++ rv)) index).
Proof using Type. intros i p Hp. split; [by apply zget_map_app | cbn; by apply zget_map_app]. Qed.

Lemma run_start counts offsets temp_keys temp_values :
  n <= zlen output_keys -> n <= zlen output_values -> n <= zlen temp_keys -> n <= zlen temp_values ->
  zlen counts = 256 -> zlen offsets = 256 ->
  run_inv 0 {| r_output_keys := output_keys; r_output_values := output_values; r_temp_keys := temp_keys;
               r_temp_values := temp_values; r_counts := counts; r_offsets := offsets; r_source := FromInput |}.
Proof using All.
  intros. split; [done|]. split; [done|]. split; [done|]. exists S. split; [done|]. split.
  - apply stable_refl.
    assert (forall key, rank_after pass_count signed_order 0 key = 0) as E.
    { intros key. unfold rank_after. rewrite (proj2 (Z.eqb_neq 0 pass_count)), andb_false_r by lia. apply Z.mod_1_r. }
    clear -E. induction S as [|p l IH]; constructor; [done|]. apply Forall_forall. intros q _. by rewrite !E.
  - split; [|lia]. intros i p Hp. destruct (Hin i p Hp) as [Hk Hv]. split; [done|]. unfold pass_value. cbn [Z.eqb andb source_values r_source]. exact Hv.
Qed.

Lemma run_step i s : 0 <= i < pass_count -> run_inv i s ->
  exists s', radix_sort_pass w keys values n pass_count identity_values signed_order s i = Some s' /\ run_inv (i + 1) s'.
Proof using All.
  intros Hi (Hroom & Hdk & Hdv & L & HL & Hs & Hr & _).
  destruct (sort_radix_pass_spec w keys values n pass_count identity_values signed_order i Hi Hw Hw64 L HL Hn s Hroom Hr) as (s' & E & Hc & Ho & Hrest).
  exists s'. split; [done|]. destruct Hroom as (R1 & R2 & R3 & R4 & R5 & R6).
  set (L' := bucket_sort (fun p : Z * Z => digit pass_count signed_order i p.1) 256 L) in *.
  assert (zlen L' = n) as HL' by by apply bucket_sort_zlen.
  assert (stable_sort (fun p : Z * Z => rank_after pass_count signed_order (i + 1) p.1) S L') as Hs'.
  { eapply stable_ext; [intros p _; symmetry; apply (rank_step pass_count signed_order i p.1 Hi)|].
    apply (stable_pass (fun p : Z * Z => rank_after pass_count signed_order i p.1)
             (fun p : Z * Z => digit pass_count signed_order i p.1)); [lia | | done].
    intros p _. split; [apply rank_range; lia | apply digit_range]. }
  assert (forall r : list Z, n <= zlen r -> zlen (map fst L' ++ drop (Z.to_nat n) r) = zlen r /\ zlen (map snd L' ++ drop (Z.to_nat n) r) = zlen r) as Hz.
  { intros r Hnr. rewrite !zlen_app, !zlen_map, HL'. unfold zlen in *. rewrite length_drop. lia. }
  pose proof (Z.div_mod i 2 ltac:(lia)) as Hm. pose proof (Z.mod_pos_bound i 2 ltac:(lia)) as Hm2.
  unfold run_inv, roomy. rewrite Hc, Ho. destruct (Z.eqb_spec (i mod 2) 0) as [E0|E0].
  - destruct Hrest as (Esrc & Eok & Eov & Etk & Etv). rewrite Eok, Eov, Etk, Etv.
    rewrite (proj1 (Hz _ R3)), (proj2 (Hz _ R4)). do 3 (split; [done|]). exists L'. do 2 (split; [done|]). split.
    + unfold source_keys, pass_value, source_values. rewrite Esrc, Etk, Etv.
      rewrite (proj2 (Z.eqb_neq (i + 1) 0)) by lia. apply placed_reads.
    + intros _ Hodd. exfalso. assert (i + 1 = 1 + i / 2 * 2) as Ei by lia. rewrite Ei, Z.mod_add in Hodd by lia. done.
  - destruct Hrest as (Esrc & Etk & Etv & Eok & Eov). rewrite Eok, Eov, Etk, Etv, Hdk, Hdv.
    rewrite <- Hdk at 1. rewrite <- Hdv at 1. rewrite (proj1 (Hz _ R1)), (proj2 (Hz _ R2)). split; [done|].
    rewrite !(drop_placed _ L') by done. do 2 (split; [done|]). exists L'. do 2 (split; [done|]). split; [|done].
    unfold source_keys, pass_value, source_values. rewrite Esrc, Eok, Eov.
    rewrite (proj2 (Z.eqb_neq (i + 1) 0)) by lia. apply placed_reads.
Qed.

Lemma radix_run_spec counts offsets temp_keys temp_values :
  n <= zlen output_keys -> n <= zlen output_values -> n <= zlen temp_keys -> n <= zlen temp_values ->
  zlen counts = 256 -> zlen offsets = 256 -> (identity_values = true -> n <= U32_MAX + 1) ->
  exists s L, ExecuteCpuRadixSortPrepared w keys values n pass_count identity_values signed_order output_keys output_values
      (Some (temp_keys, temp_values)) counts offsets = Some (accel_ok, Some s) /\
    stable_sort (fun p : Z * Z => rank_after pass_count signed_order pass_count p.1) S L /\
    r_output_keys s = map fst L ++ drop (Z.to_nat n) output_keys /\
    r_output_values s = map snd L ++ drop (Z.to_nat n) output_values /\ roomy n s.
Proof using All.
  intros H1 H2 H3 H4 H5 H6 H7. unfold ExecuteCpuRadixSortPrepared.
  rewrite (proj2 (Z.eqb_neq pass_count 0)), Heven by lia. cbn [Z.eqb negb orb].
  assert (identity_values && (n >? U32_MAX + 1) = false) as ->.
  { destruct identity_values; [|done]. cbn. rewrite Z.gtb_ltb. apply Z.ltb_ge. by apply H7. }
  edestruct (for_range_inv run_inv) as (s & -> & Hroom & _ & _ & L & _ & Hs & _ & Hend).
  - lia.
  - by apply (run_start counts offsets temp_keys temp_values).
  - intros i st Hi Hinv. by apply run_step.
  - cbn [mbind option_bind]. destruct (Hend ltac:(lia) Heven) as [Ek Ev]. by exists s, L.
Qed.
End run.

(** ** The sort of the CPU backend refines the kernel's reference

    Under a plan that [PlanSort] accepts, [ExecuteCpuSort] writes the stable sort of its
    input, the order [ReferenceStableSort] gives to the same keys read as ranks. *)
(** The position of a key in the order: its low [key_bits] bits, shifted by half the range
    in signed order, which puts the negative keys first. *)
Definition sort_order (signed_order : bool) (key_bits key : Z) : Z :=
  if signed_order then (key + 2 ^ (key_bits - 1)) mod 2 ^ key_bits else key mod 2 ^ key_bits.

Lemma rank_final signed_order pass_count key : 0 < pass_count ->
  rank_after pass_count signed_order pass_count key = sort_order signed_order (pass_count * 8) key.
Proof.
  intros H. unfold rank_after, sort_order. rewrite Z.eqb_refl, andb_true_r, pow256 by lia.
  destruct signed_order; [|done]. rewrite <- pow256 by lia. do 2 f_equal.
  replace (pass_count * 8) with (pass_count * 8 - 1 + 1) at 1 by lia. rewrite pow2_succ, Z.mul_comm by lia. by rewrite Z.div_mul by lia.
Qed.

(** ** What an accepted plan says *)
Definition key_width_of (key : SortKey) : Z := if bool_decide (key = KeyU32) then 32 else 64.

Lemma PlanSort_ok desc : is_u64 (d_element_count desc) -> is_u32 (d_key_bits desc) ->
  let plan := PlanSort desc in p_ok plan = true ->
  p_key plan = d_key desc /\ p_value plan = d_value desc /\ p_element_count plan = d_element_count desc /\
  0 < d_element_count desc /\ (d_value desc = ValueU32 \/ d_value desc = IdentityU32) /\
  p_key_bits plan = (if d_key_bits desc =? 0 then key_width_of (d_key desc) else d_key_bits desc) /\
  p_key_bits plan = radix_pass_count plan * 8 /\ 0 < radix_pass_count plan /\ radix_pass_count plan mod 2 = 0 /\
  p_key_bits plan <= key_width_of (d_key desc).
Proof.
  intros Hn Hb. cbv zeta. unfold PlanSort.
  destruct (d_stable desc); [|done]. cbn [negb].
  assert (KeyBytes (d_key desc) = 0 \/ KeyBytes (d_key desc) * 8 = key_width_of (d_key desc) /\ 0 < KeyBytes (d_key desc) <= 8) as Hk.
  { destruct (d_key desc); [right; split; [done | cbn; lia] .. | by left]. }
  destruct (Z.eqb_spec (KeyBytes (d_key desc)) 0); [done|]. destruct Hk as [?|[Hk Hk8]]; [lia|].
  destruct (Z.eqb_spec (ValueBytes (d_value desc)) 0) as [|Hv]; [done|].
  destruct (Z.eqb_spec (d_element_count desc) 0); [done|].
  destruct (Z.eqb_spec (d_radix_bits desc) 8) as [Er|]; [|done]. cbn [negb].
  destruct (count_source_unsupported _); [done|]. rewrite Er.
  set (kb := EffectiveKeyBits (d_key_bits desc) (KeyBytes (d_key desc))).
  assert (kb = if d_key_bits desc =? 0 then key_width_of (d_key desc) else d_key_bits desc) as Ekb.
  { unfold kb, EffectiveKeyBits. case_match; [|done]. rewrite wrap64_small, wrap32_small by (unfold is_u32, is_u64; lia). done. }
  assert (0 <= kb) as H0 by (rewrite Ekb; unfold key_width_of, is_u32 in *; repeat case_match; lia).
  clearbody kb. unfold KeyBitsAdmitted. rewrite wrap64_small, Hk by (unfold is_u64; lia).
  destruct (Z.eqb_spec kb 0); [done|]. destruct (Z.leb_spec kb (key_width_of (d_key desc))); [|done].
  destruct (Z.eqb_spec (kb mod 16) 0) as [H16|]; [|done]. cbn [negb andb].
  pose proof (Z.div_mod kb 16 ltac:(lia)) as Hd. rewrite H16 in Hd.
  assert (kb / 8 = kb / 16 * 2) as H8 by (rewrite Hd at 1; replace (16 * (kb / 16) + 0) with (kb / 16 * 2 * 8) by lia; by rewrite Z.div_mul by lia).
  repeat (match goal with |- context [if ?b then _ else _] => destruct b eqn:? end; [done|]). cbn.
  intros _. split; [done|]. split; [done|]. split; [done|]. unfold is_u64 in Hn.
  split; [lia|]. split; [destruct (d_value desc); [by left | by right | done]|]. split; [done|].
  rewrite H8, Z.mod_mul by lia. lia.
Qed.

(** ** The run of the CPU backend *)
Definition scratch_ok (scratch : CpuSortScratch) : Prop := zlen (scratch_counts scratch) = 256 /\ zlen (scratch_offsets scratch) = 256.

Lemma zlen_grow v n : n <= zlen (grow v n).
Proof. unfold grow. case_match; to_prop; [|lia]. rewrite zlen_app, zlen_replicate. lia. Qed.

Lemma ExecuteCpuRadixSort_spec w keys values out_keys out_values n pass_count (identity_values signed_order : bool) scratch (S : list (Z * Z)) :
  0 < n <= U64_MAX -> 0 < pass_count -> pass_count mod 2 = 0 -> pass_count * 8 <= w <= 64 -> zlen S = n ->
  (forall i (p : Z * Z), zget S i = Some p -> zget keys i = Some p.1 /\
     ((if identity_values then Some (wrap32 i) else read values i) = Some p.2)) ->
  n <= zlen out_keys -> n <= zlen out_values -> (identity_values = true -> n <= U32_MAX + 1) -> scratch_ok scratch ->
  exists L scratch', ExecuteCpuRadixSort w keys values out_keys out_values n pass_count identity_values signed_order scratch =
      Some (accel_ok, (map fst L ++ drop (Z.to_nat n) out_keys, map snd L ++ drop (Z.to_nat n) out_values), scratch') /\
    stable_sort (fun p : Z * Z => sort_order signed_order (pass_count * 8) p.1) S L /\ scratch_ok scratch'.
Proof.
  intros Hn Hpc Heven Hw HS Hin Hk Hv Hid [Hc Ho]. unfold ExecuteCpuRadixSort.
  assert (exists sc tk, EnsureSortKeys w scratch n = (sc, tk) /\ n <= zlen tk /\ scratch_counts sc = scratch_counts scratch /\
    scratch_offsets sc = scratch_offsets scratch) as (sc & tk & -> & Htk & Ec & Eo).
  { unfold EnsureSortKeys. destruct (w =? 32); (do 2 eexists); (split; [reflexivity|]); (split; [apply zlen_grow | done]). }
  unfold EnsureSortValues. set (tv := grow (scratch_values sc) n). pose proof (zlen_grow (scratch_values sc) n) as Htv. fold tv in Htv.
  cbn [scratch_counts scratch_offsets]. rewrite (proj2 (Z.eqb_neq (zlen tk) 0)), (proj2 (Z.eqb_neq (zlen tv) 0)) by lia. cbn [orb].
  rewrite Ec, Eo.
  destruct (radix_run_spec w keys values n pass_count identity_values signed_order Hpc Heven ltac:(lia) ltac:(lia) S HS ltac:(lia) Hin
    out_keys out_values (scratch_counts scratch) (scratch_offsets scratch) tk tv) as (s & L & -> & Hs & Ek & Ev & Hroom); try done.
  cbn [mbind option_bind]. rewrite Ek, Ev. exists L; eexists; split; [done|]. split.
  - eapply stable_ext; [|exact Hs]. intros p _. cbn beta. by apply rank_final.
  - unfold scratch_ok, scratch_after. cbn. by destruct Hroom as (_ & _ & _ & _ & ? & ?).
Qed.

(** The reference on the ranks of the keys gives the same order. *)
Lemma reference_on_ranks (rank : Z -> Z) keys vals o n sorted :
  0 < n <= U64_MAX -> n <= zlen keys -> n <= zlen vals -> output_room n o ->
  stable_sort (fun p : Z * Z => rank p.1) (zip (take (Z.to_nat n) keys) (take (Z.to_nat n) vals)) sorted ->
  exists o', ReferenceStableSort (Some (map rank keys)) (Some vals) (Some o) n = Some (counted_ok n, Some o') /\
    take (Z.to_nat n) (output_keys o') = map (fun p => rank p.1) sorted /\
    take (Z.to_nat n) (output_values o') = map snd sorted.
Proof.
  intros Hn Hk Hv Ho Hs. destruct (ReferenceStableSort_run (map rank keys) vals o n) as (t & E & Ht & Hst); [done | | done | done |].
  { by rewrite zlen_map. }
  eexists. split; [exact E|]. unfold layout. cbn [output_keys output_values].
  set (S := zip (take (Z.to_nat n) keys) (take (Z.to_nat n) vals)) in *.
  assert (zlen (take (Z.to_nat n) keys) = zlen (take (Z.to_nat n) vals)) as El by (rewrite !zlen_take; lia).
  assert (map fst (input_triples (map rank keys) vals n) = map (fun p => (rank p.1, p.2)) S) as ES.
  { unfold input_triples. rewrite map_fst_zip'.
    - unfold S. rewrite firstn_map. generalize (take (Z.to_nat n) keys) (take (Z.to_nat n) vals).
      induction l as [|x l IH]; intros [|y k]; cbn; [done..|]. by rewrite IH.
    - rewrite zlen_zip, zlen_range by (try lia; rewrite firstn_map, zlen_map; done). rewrite firstn_map, zlen_map, zlen_take; lia. }
  assert (map fst t = map (fun p => (rank p.1, p.2)) sorted) as Et.
  { apply (stable_unique fst (map (fun p => (rank p.1, p.2)) S)).
    - rewrite <- ES. by apply (stable_map fst (fun y : Z * Z => y.1)).
    - by apply (stable_map (fun p => (rank p.1, p.2)) fst). }
  assert (forall (g : Z * Z * Z -> Z) r, take (Z.to_nat n) (map g t ++ r) = map g t) as Htake.
  { intros g r. rewrite <- Ht. unfold zlen. rewrite Nat2Z.id, <- (length_map g t). apply take_app_length. }
  rewrite !Htake. split.
  - rewrite <- (map_map fst fst), Et, map_map. done.
  - rewrite <- (map_map fst snd), Et, map_map. done.
Qed.

(** The run's count, the values it sorts and the order of the keys. *)
Definition sort_count (plan : SortPlan) (bounded_count : option Z) : Z :=
  match bounded_count with Some count => count | None => p_element_count plan end.
Definition sort_values (plan : SortPlan) (read_values : buffer) (n : Z) : list Z :=
  if decide (p_value plan = IdentityU32) then range 0 n else default [] read_values.

(** A count within the plan and within the [u32] indices. *)
Lemma run_cpu_sort_accepted desc bounded_count signed_order read_keys read_values write_keys write_values scratch o :
  let plan := PlanSort desc in
  let n := sort_count plan bounded_count in
  let vals := sort_values plan read_values n in
  let rank := sort_order signed_order (p_key_bits plan) in
  p_ok plan = true -> is_u64 (d_element_count desc) -> is_u32 (d_key_bits desc) ->
  0 < n -> n <= zlen read_keys -> n <= zlen vals -> n <= zlen write_keys -> n <= zlen write_values ->
  scratch_ok (default fresh_scratch scratch) -> output_room n o -> n <= p_element_count plan -> (p_value plan = IdentityU32 -> n <= U32_MAX + 1) ->
  exists sorted scratch' o',
    run_cpu_sort plan bounded_count signed_order read_keys read_values write_keys write_values scratch =
      Some (accel_ok, (map fst sorted ++ drop (Z.to_nat n) write_keys, map snd sorted ++ drop (Z.to_nat n) write_values),
            scratch') /\ scratch_ok (default fresh_scratch scratch') /\
    stable_sort (fun p : Z * Z => rank p.1) (zip (take (Z.to_nat n) read_keys) (take (Z.to_nat n) vals)) sorted /\
    ReferenceStableSort (Some (map rank read_keys)) (Some vals) (Some o) n = Some (counted_ok n, Some o') /\
    take (Z.to_nat n) (output_keys o') = map (fun p => rank p.1) sorted /\
    take (Z.to_nat n) (output_values o') = map snd sorted.
Proof.
  intros plan n vals rank Hok Hcount Hbits Hn Hk Hv Hwk Hwv Hscratch Ho Hle Hid.
  destruct (PlanSort_ok desc Hcount Hbits Hok) as (Ekey & Evalue & Ecount & _ & Hvalue & _ & Ebits & Hpc & Heven & Hwidth).
  fold plan in Ekey, Evalue, Ecount, Ebits, Hpc, Heven, Hwidth. unfold is_u64 in Hcount.
  set (S := zip (take (Z.to_nat n) read_keys) (take (Z.to_nat n) vals)).
  assert (zlen (take (Z.to_nat n) read_keys) = zlen (take (Z.to_nat n) vals)) as El by (rewrite !zlen_take; lia).
  assert (zlen S = n) as HS by (unfold S; rewrite zlen_zip, zlen_take by (done || lia); lia).
  set (identity_values := bool_decide (p_value plan = IdentityU32)).
  set (values := if identity_values then None else read_values).
  assert (negb identity_values && is_null read_values = false) as Hnull.
  { unfold identity_values, vals, sort_values in *. destruct (decide (p_value plan = IdentityU32)); [by rewrite bool_decide_true|].
    rewrite bool_decide_false by done. destruct read_values; [done|]. change (zlen (default [] None)) with 0 in Hv. lia. }
  destruct (ExecuteCpuRadixSort_spec (key_width_of (p_key plan)) read_keys values write_keys write_values n (radix_pass_count plan)
    identity_values signed_order (default fresh_scratch scratch) S) as (sorted & scratch' & E & Hs & Hsc'); try done; try lia.
  { rewrite <- Ebits, Ekey. unfold key_width_of in *. split; [done | case_bool_decide; lia]. }
  { intros i [k v] Hp. unfold S in Hp. rewrite zget_zip, !zget_take in Hp. destruct Hp as [[Hi Ek] [_ Ev]]. split; [done|]. cbn [snd].
    unfold values, identity_values, vals, sort_values in *. destruct (decide (p_value plan = IdentityU32)) as [Ed|Ed].
    - rewrite bool_decide_true by done. pose proof (zget_range _ _ _ Ek). rewrite zget_range_ix in Ev by lia. injection Ev as <-.
      specialize (Hid Ed). rewrite wrap32_small by (unfold is_u32; lia). done.
    - rewrite bool_decide_false by done. destruct read_values; [done|]. by apply zget_nil in Ev. }
  { intros Hb. apply Hid. by apply bool_decide_eq_true in Hb. }
  rewrite <- Ebits in Hs. destruct (reference_on_ranks rank read_keys vals o n sorted) as (o' & Eref & E1 & E2); [lia | done..|].
  exists sorted, (Some scratch'), o'. split; [|by split].
  unfold run_cpu_sort. fold plan. change (match bounded_count with Some count => count | None => p_element_count plan end) with n.
  assert ((n >? p_element_count plan) = false) as -> by (rewrite Z.gtb_ltb; apply Z.ltb_ge; lia).
  fold identity_values. rewrite Hnull. fold values. unfold key_width_of in E. rewrite E. done.
Qed.

(** More identity values than [u32] indices: the scratch grows and the sort is refused. *)
Lemma run_cpu_sort_too_many desc bounded_count signed_order read_keys read_values write_keys write_values scratch :
  let plan := PlanSort desc in
  let n := sort_count plan bounded_count in
  p_ok plan = true -> is_u64 (d_element_count desc) -> is_u32 (d_key_bits desc) -> scratch_ok (default fresh_scratch scratch) ->
  bool_decide (p_value plan = IdentityU32) = true -> (n >? U32_MAX + 1) = true -> n <= p_element_count plan ->
  exists scratch',
    run_cpu_sort plan bounded_count signed_order read_keys read_values write_keys write_values scratch =
      Some (accel_fail "compute_sort_invalid", (write_keys, write_values), scratch') /\
    scratch_ok (default fresh_scratch scratch').
Proof.
  intros plan n Hok Hcount Hbits [Hc Hf] Hid Hbig Hle.
  destruct (PlanSort_ok desc Hcount Hbits Hok) as (_ & _ & _ & _ & _ & _ & _ & Hpc & Heven & _). fold plan in Hpc, Heven.
  unfold run_cpu_sort. fold plan. change (match bounded_count with Some count => count | None => p_element_count plan end) with n.
  assert ((n >? p_element_count plan) = false) as -> by (rewrite Z.gtb_ltb; apply Z.ltb_ge; lia).
  rewrite Hid. cbn [negb andb]. unfold ExecuteCpuRadixSort, EnsureSortValues.
  set (w := if bool_decide _ then 32 else 64).
  destruct (EnsureSortKeys w (default fresh_scratch scratch) n) as [sc tk] eqn:Ek.
  assert (scratch_counts sc = scratch_counts (default fresh_scratch scratch) /\ scratch_offsets sc = scratch_offsets (default fresh_scratch scratch)) as [E1 E2].
  { unfold EnsureSortKeys in Ek. destruct (w =? 32); by injection Ek as <- <-. }
  eexists. unfold ExecuteCpuRadixSortPrepared. rewrite Heven, Hbig, (proj2 (Z.eqb_neq (radix_pass_count plan) 0)) by lia.
  destruct (_ || _); cbn; (split; [reflexivity|]); unfold scratch_ok; cbn; by rewrite E1, E2.
Qed.

(** C17: The run of the CPU sort under a plan that [PlanSort] accepts, for a positive count
    [n] and buffers that hold [n] elements. A count above the plan's fails with
    compute_bounded_count_invalid, and more than 2^32 identity values fail with
    compute_sort_invalid; both leave the outputs alone. Every other run succeeds: the first
    [n] places of the outputs hold the one stable sort of the input by the key's low
    [key_bits] bits, as unsigned or two's complement numbers, the rest keeps its contents,
    and the kernel's reference sort of the same ranks yields the same order. *)
Theorem cpu_sort_refines_reference desc bounded_count signed_order read_keys read_values write_keys write_values scratch o :
  let plan := PlanSort desc in
  let n := sort_count plan bounded_count in
  let vals := sort_values plan read_values n in
  let rank := sort_order signed_order (p_key_bits plan) in
  p_ok plan = true -> is_u64 (d_element_count desc) -> is_u32 (d_key_bits desc) ->
  0 < n -> n <= zlen read_keys -> n <= zlen vals -> n <= zlen write_keys -> n <= zlen write_values ->
  scratch_ok (default fresh_scratch scratch) -> output_room n o ->
  exists check outputs scratch',
    run_cpu_sort plan bounded_count signed_order read_keys read_values write_keys write_values scratch =
      Some (check, outputs, scratch') /\ scratch_ok (default fresh_scratch scratch') /\
    if n >? p_element_count plan then
      check = accel_fail "compute_bounded_count_invalid" /\ outputs = (write_keys, write_values)
    else if bool_decide (p_value plan = IdentityU32) && (n >? U32_MAX + 1) then
      check = accel_fail "compute_sort_invalid" /\ outputs = (write_keys, write_values)
    else exists sorted o',
      check = accel_ok /\
      outputs = (map fst sorted ++ drop (Z.to_nat n) write_keys, map snd sorted ++ drop (Z.to_nat n) write_values) /\
      stable_sort (fun p : Z * Z => rank p.1) (zip (take (Z.to_nat n) read_keys) (take (Z.to_nat n) vals)) sorted /\
      ReferenceStableSort (Some (map rank read_keys)) (Some vals) (Some o) n = Some (counted_ok n, Some o') /\
      take (Z.to_nat n) (output_keys o') = map (fun p => rank p.1) sorted /\
      take (Z.to_nat n) (output_values o') = map snd sorted.
Proof.
  intros plan n vals rank Hok Hcount Hbits Hn Hk Hv Hwk Hwv Hscratch Ho.
  destruct (Z.gtb_spec n (p_element_count plan)) as [Hgt|Hle].
  { do 3 eexists. split; [|split; [exact Hscratch | done]]. unfold run_cpu_sort. fold plan. change (match bounded_count with Some count => count | None => p_element_count plan end) with n.
    rewrite (proj2 (Z.gtb_lt n (p_element_count plan))) by lia. done. }
  destruct (bool_decide (p_value plan = IdentityU32) && (n >? U32_MAX + 1)) eqn:Eid.
  - apply andb_prop in Eid as [Eid Ebig].
    destruct (run_cpu_sort_too_many desc bounded_count signed_order read_keys read_values write_keys write_values scratch) as (scratch' & E & Hs');
      [done.. | exact Hle |].
    do 3 eexists. split; [exact E|]. by split.
  - destruct (run_cpu_sort_accepted desc bounded_count signed_order read_keys read_values write_keys write_values scratch o) as (sorted & scratch' & o' & E & Hs' & Hrest);
      [done.. | |].
    { intros Hid. rewrite bool_decide_true in Eid by done. cbn [andb] in Eid. rewrite Z.gtb_ltb in Eid. apply Z.ltb_ge in Eid. exact Eid. }
    do 3 eexists. split; [exact E|]. split; [exact Hs'|]. exists sorted, o'. split; [done|]. split; [done|]. exact Hrest.
Qed.

Definition example_desc : SortDesc :=
  {| d_key := KeyU32; d_value := ValueU32; d_element_count := 4; d_radix_bits := 8; d_key_bits := 16; d_stable := true;
     d_count_source := BufferU32 |}.
Definition example_output : SortOutput :=
  {| output_keys := [0; 0; 0; 0]; output_values := [0; 0; 0; 0]; output_original_indices := [0; 0; 0; 0] |}.

(** Three of four keys, in signed order of 16 bits: [0xffff] is [-1]. *)
Lemma cpu_sort_refines_reference_witness :
  exists check outputs scratch',
    run_cpu_sort (PlanSort example_desc) (Some 3) true [5; 65535; 5; 9] (Some [10; 20; 30; 40]) [0; 0; 0; 7] [0; 0; 0; 8] None =
      Some (check, outputs, scratch') /\ scratch_ok (default fresh_scratch scratch') /\
    exists sorted o',
      check = accel_ok /\ outputs = (map fst sorted ++ [7], map snd sorted ++ [8]) /\
      stable_sort (fun p : Z * Z => sort_order true 16 p.1) [(5, 10); (65535, 20); (5, 30)] sorted /\
      ReferenceStableSort (Some (map (sort_order true 16) [5; 65535; 5; 9])) (Some [10; 20; 30; 40]) (Some example_output) 3 =
        Some (counted_ok 3, Some o') /\
      take 3 (output_keys o') = map (fun p => sort_order true 16 p.1) sorted /\ take 3 (output_values o') = map snd sorted.
Proof.
  apply (cpu_sort_refines_reference example_desc (Some 3) true [5; 65535; 5; 9] (Some [10; 20; 30; 40]) [0; 0; 0; 7] [0; 0; 0; 8]
    None example_output); try (vm_compute; done); try (vm_compute; by split); vm_compute; split; (done || split; done).
Defined.

Example cpu_sort_example :
  option_map (fun r => r.1.2) (run_cpu_sort (PlanSort example_desc) (Some 3) true [5; 65535; 5; 9] (Some [10; 20; 30; 40])
    [0; 0; 0; 7] [0; 0; 0; 8] None) = Some ([65535; 5; 5; 7], [20; 10; 30; 8]).
Proof. vm_compute. done. Qed.
