(* ===== verification/PrimScan.v ===== *)
(** * PrimScan: the scan primitive

    [program/compute/scan/{model,plan,reference}.hpp] of the kernel,
    [accel/cpu/scan/canonical.hpp] and the part of [ExecuteCpuScan]
    ([accel/cpu/scan.cpp]) after its buffers are looked up. [cpu_scan_spec]: the scan
    writes the prefix sums exactly when all of them fit the lane. *)
From stdpp Require Import base numbers list option strings.
From Stdlib Require Import ZArith Lia.
From S2P Require Import Prelude Checked Primitives.

Inductive ScanOp := ExclusiveSum | InclusiveSum | OtherScanOp (value : Z).
Inductive ScanElement := ScanU32 | ScanU64 | OtherScanElement (value : Z).
#[export] Instance ScanOp_eq_dec : EqDecision ScanOp.
Proof. solve_decision. Defined.
#[export] Instance ScanElement_eq_dec : EqDecision ScanElement.
Proof. solve_decision. Defined.

Record ScanDesc := {
  d_op : ScanOp; d_element : ScanElement; d_element_count : Z; d_block_size : Z; d_count_source : ComputeCountSource;
}.
Record ScanPlan := {
  p_op : ScanOp; p_element : ScanElement; p_element_count : Z; p_element_bytes : Z; p_block_size : Z;
  p_block_count : Z; p_pass_count : Z; p_temp_bytes : Z; p_count_source : ComputeCountSource; p_ok : bool; p_reason : string;
}.
Record ScanResult := { s_element_count : Z; s_total : Z; s_ok : bool; s_reason : string }.

(** ** [PlanScan] *)
Definition KnownOp (op : ScanOp) : bool := bool_decide (op = ExclusiveSum) || bool_decide (op = InclusiveSum).
Definition ElementBytes (element : ScanElement) : Z := match element with ScanU32 => 4 | ScanU64 => 8 | OtherScanElement _ => 0 end.

Definition RejectPlan (desc : ScanDesc) (element_bytes block_count temp_bytes : Z) (reason : string) : ScanPlan :=
  {| p_op := d_op desc; p_element := d_element desc; p_element_count := d_element_count desc; p_element_bytes := element_bytes;
     p_block_size := d_block_size desc; p_block_count := block_count; p_pass_count := 0; p_temp_bytes := temp_bytes;
     p_count_source := d_count_source desc; p_ok := false; p_reason := reason |}.

Definition PlanScan (desc : ScanDesc) : ScanPlan :=
  if negb (KnownOp (d_op desc)) then RejectPlan desc 0 0 0 "compute_scan_op_unsupported" else
  if count_source_unsupported (d_count_source desc) then RejectPlan desc 0 0 0 "compute_scan_count_source_unsupported" else
  let element_bytes := ElementBytes (d_element desc) in
  if element_bytes =? 0 then RejectPlan desc 0 0 0 "compute_scan_element_unsupported" else
  if d_element_count desc =? 0 then RejectPlan desc element_bytes 0 0 "compute_scan_count_zero" else
  if d_block_size desc =? 0 then RejectPlan desc element_bytes 0 0 "compute_scan_block_invalid" else
  let block_count := Checked.ceil (d_element_count desc) (d_block_size desc) in
  if negb (Checked.mul_fits (d_element_count desc) element_bytes)
  then RejectPlan desc element_bytes block_count 0 "compute_scan_temp_overflow" else
  {| p_op := d_op desc; p_element := d_element desc; p_element_count := d_element_count desc; p_element_bytes := element_bytes;
     p_block_size := d_block_size desc; p_block_count := block_count; p_pass_count := if block_count >? 1 then 2 else 1;
     p_temp_bytes := wrap64 (d_element_count desc * element_bytes); p_count_source := d_count_source desc;
     p_ok := true; p_reason := "ok" |}.

(** ** The reference scans

    [total] is an out-parameter, null when [None]; a scan yields the result, the output
    array and the total after it. *)
Definition Reject (element_count total : Z) (reason : string) : ScanResult :=
  {| s_element_count := element_count; s_total := total; s_ok := false; s_reason := reason |}.
Definition scan_ok (element_count total : Z) : ScanResult :=
  {| s_element_count := element_count; s_total := total; s_ok := true; s_reason := "ok" |}.

Abbreviation scan_outcome := (ScanResult * buffer * option Z)%type.

(** The guards and the end every reference scan has around its loop. *)
Definition scan_call (element_count : Z) (input output : buffer) (total : option Z)
    (loop : list Z -> list Z -> option (flow (list Z * Z) scan_outcome)) (finish : list Z -> Z -> scan_outcome) : option scan_outcome :=
  if element_count =? 0 then Some (Reject 0 0 "compute_scan_count_zero", output, total) else
  match input, output, total with
  | Some input, Some out, Some _ => after (loop input out) (fun '(out, running) => Some (finish out running))
  | _, _, _ => Some (Reject element_count 0 "compute_scan_buffer_invalid", output, total)
  end.

Definition overflow_at (element_count running : Z) (out : list Z) : scan_outcome :=
  (Reject element_count running "compute_scan_sum_overflow", Some out, Some running).
Definition done_at (element_count : Z) (out : list Z) (running : Z) : scan_outcome :=
  (scan_ok element_count running, Some out, Some running).

(** [StoreU32TotalOrReject]: what a total beyond [u32] makes the scan return. *)
Definition StoreU32TotalOrReject (element_count running : Z) (out : list Z) : option scan_outcome :=
  if running <=? U32_MAX then None else Some (overflow_at element_count running out).

Definition ReferenceExclusiveScanU32 (input output : buffer) (element_count : Z) (total : option Z) : option scan_outcome :=
  scan_call element_count input output total (fun input out =>
    for_loop (fun '(out, running) index =>
      match StoreU32TotalOrReject element_count running out with
      | Some rejected => Some (Return rejected)
      | None =>
          out ← zset out index (wrap32 running);
          value ← zget input index;
          if negb (Checked.add_fits running value) then Some (Return (overflow_at element_count running out))
          else Some (Next (out, wrap64 (running + value)))
      end) (out, 0) (range 0 element_count))
    (fun out running => default (done_at element_count out running) (StoreU32TotalOrReject element_count running out)).

Definition ReferenceExclusiveScanU64 (input output : buffer) (element_count : Z) (total : option Z) : option scan_outcome :=
  scan_call element_count input output total (fun input out =>
    for_loop (fun '(out, running) index =>
      out ← zset out index running;
      value ← zget input index;
      if negb (Checked.add_fits running value) then Some (Return (overflow_at element_count running out))
      else Some (Next (out, wrap64 (running + value)))) (out, 0) (range 0 element_count))
    (done_at element_count).

Definition ReferenceInclusiveScanU32 (input output : buffer) (element_count : Z) (total : option Z) : option scan_outcome :=
  scan_call element_count input output total (fun input out =>
    for_loop (fun '(out, running) index =>
      value ← zget input index;
      if negb (Checked.add_fits running value) then Some (Return (overflow_at element_count running out))
      else
        let running := wrap64 (running + value) in
        match StoreU32TotalOrReject element_count running out with
        | Some rejected => Some (Return rejected)
        | None => out ← zset out index (wrap32 running); Some (Next (out, running))
        end) (out, 0) (range 0 element_count))
    (done_at element_count).

Definition ReferenceInclusiveScanU64 (input output : buffer) (element_count : Z) (total : option Z) : option scan_outcome :=
  scan_call element_count input output total (fun input out =>
    for_loop (fun '(out, running) index =>
      value ← zget input index;
      if negb (Checked.add_fits running value) then Some (Return (overflow_at element_count running out))
      else
        let running := wrap64 (running + value) in
        out ← zset out index running; Some (Next (out, running))) (out, 0) (range 0 element_count))
    (done_at element_count).

(** ** The signed scan of the CPU backend

    [Word] is a [width]-bit unsigned type; the running prefix is wider and does not
    overflow for the counts a program can hold. *)
Definition SignedPrefixFits (width prefix : Z) : bool := (- 2 ^ (width - 1) <=? prefix) && (prefix <=? 2 ^ (width - 1) - 1).
Definition StoreSignedPrefix (width prefix : Z) (out : list Z) (index : Z) : option (option (list Z)) :=
  if negb (SignedPrefixFits width prefix) then Some None else out ← zset out index (prefix mod 2 ^ width); Some (Some out).

Definition CanonicalSignedScan (width : Z) (input output : buffer) (element_count : Z) (inclusive : bool)
    : option (AccelCheck * buffer) :=
  if element_count =? 0 then Some (accel_fail "compute_scan_count_zero", output) else
  match input, output with
  | Some input, Some out =>
      after (for_loop (fun '(out, running) index =>
          stored ← (if inclusive then Some (Some out) else StoreSignedPrefix width running out index);
          match stored with
          | None => Some (Return (accel_fail "compute_scan_sum_overflow", Some out))
          | Some out =>
              value ← zget input index;
              let running := running + to_signed width value in
              stored ← (if inclusive then StoreSignedPrefix width running out index else Some (Some out));
              match stored with
              | None => Some (Return (accel_fail "compute_scan_sum_overflow", Some out))
              | Some out => Some (Next (out, running))
              end
          end) (out, 0) (range 0 element_count))
        (fun '(out, running) =>
          Some (if negb inclusive && negb (SignedPrefixFits width running)
                then (accel_fail "compute_scan_sum_overflow", Some out) else (accel_ok, Some out)))
  | _, _ => Some (accel_fail "compute_scan_buffer_invalid", output)
  end.

(** ** [ExecuteCpuScan] after the lookups *)
Definition check_of (outcome : scan_outcome) : AccelCheck * buffer :=
  let '(result, out, _) := outcome in (if s_ok result then accel_ok else accel_fail (s_reason result), out).

Definition run_cpu_scan (plan : ScanPlan) (is_signed : bool) (input output : buffer) : option (AccelCheck * buffer) :=
  let u32 := bool_decide (p_element plan = ScanU32) in
  let exclusive := bool_decide (p_op plan = ExclusiveSum) in
  let n := p_element_count plan in
  if is_signed then CanonicalSignedScan (if u32 then 32 else 64) input output n (bool_decide (p_op plan = InclusiveSum))
  else
    outcome ← (if u32 && exclusive then ReferenceExclusiveScanU32 input output n (Some 0)
               else if u32 then ReferenceInclusiveScanU32 input output n (Some 0)
               else if exclusive then ReferenceExclusiveScanU64 input output n (Some 0)
               else ReferenceInclusiveScanU64 input output n (Some 0));
    Some (check_of outcome).

(** The lane of a plan. *)
Definition lane_width (plan : ScanPlan) : Z := if bool_decide (p_element plan = ScanU32) then 32 else 64.

(** What a scan does with [pre], the prefix sums of its input: either all of them fit and
    [output] holds their words, or one does not and the scan reports the overflow. *)
Definition scans (fits : Z -> Prop) (pre word : Z -> Z) (n shift : Z) (out : list Z) (r : AccelCheck * buffer) : Prop :=
  (r = (accel_ok, Some (filled (fun i => word (pre (i + shift))) n out)) /\ forall i, 0 <= i <= n -> fits (pre i)) \/
  (exists out', r = (accel_fail "compute_scan_sum_overflow", Some out') /\ exists i, 0 <= i <= n /\ ~ fits (pre i)).

(** ** The scans write the prefix sums or report the overflow *)
Section unsigned.
Context (input out : list Z) (n : Z) (Hn : 0 < n) (Hin : n <= zlen input) (Hout : n <= zlen out).
Context (Hwords : Forall is_u64 input) (max : Z) (Hmax : 0 <= max <= U64_MAX).

Abbreviation pre := (prefix_sum input).
Abbreviation fits := (fun v => 0 <= v <= max).

Lemma word_at i : 0 <= i < n -> exists v, zget input i = Some v /\ is_u64 v /\ pre (i + 1) = pre i + v.
Proof using All.
  intros Hi. destruct (zget_is_Some input i) as [v Hv]; [lia|]. exists v. split; [done|]. split.
  - apply zget_Some in Hv as [_ Hv]. apply (proj1 (Forall_forall _ _) Hwords). by eapply list_elem_of_lookup_2.
  - apply prefix_sum_S; [lia | done].
Qed.

Lemma pre_nonneg i : 0 <= i -> 0 <= pre i.
Proof using All.
  intros Hi. assert (Forall (fun v => 0 <= v) input) as Hp by (eapply Forall_impl; [exact Hwords | unfold is_u64; cbn; lia]).
  pose proof (prefix_sum_mono input i i Hp ltac:(lia)). lia.
Qed.

(** After [i] iterations: the output so far, the running sum, and the prefixes below
    [lead] past [i] fit. *)
Definition scan_inv (word : Z -> Z) (shift lead i : Z) (st : list Z * Z) : Prop :=
  st.1 = filled (fun j => word (pre (j + shift))) i out /\ st.2 = pre i /\ pre i <= U64_MAX /\ forall j, 0 <= j < i + lead -> pre j <= max.

(** A rejection for a prefix that does not fit. *)
Definition rejected (r : scan_outcome) : Prop :=
  exists total out', r = (Reject n total "compute_scan_sum_overflow", Some out', Some total) /\ exists i, 0 <= i <= n /\ ~ fits (pre i).

Lemma rejected_scans word shift r : rejected r -> scans fits pre word n shift out (check_of r).
Proof using All.
  intros (total & out' & -> & i & Hi & Hf). right. exists out'. split; [done|]. by exists i.
Qed.

Lemma overflow_rejected running out' i : 0 <= i <= n -> max < pre i -> rejected (overflow_at n running out').
Proof using All. intros Hi Hm. eexists _, _. split; [done|]. exists i. split; [done | lia]. Qed.

Lemma done_scans word shift lead st : lead = 0 \/ lead = 1 -> scan_inv word shift lead n st -> pre n <= max ->
  scans fits pre word n shift out (check_of (done_at n st.1 st.2)).
Proof using All.
  intros Hl (E1 & E2 & _ & Hf) Hlast. left. rewrite E1. split; [done|]. intros i Hi. split; [apply pre_nonneg; lia|].
  destruct (decide (i = n)) as [->|]; [done | apply Hf; lia].
Qed.

Lemma running_sum i v : 0 <= i -> pre i <= U64_MAX -> is_u64 v -> pre (i + 1) = pre i + v ->
  (negb (Checked.add_fits (pre i) v) = true /\ U64_MAX < pre (i + 1)) \/
  (negb (Checked.add_fits (pre i) v) = false /\ wrap64 (pre i + v) = pre (i + 1) /\ pre (i + 1) <= U64_MAX).
Proof using All.
  intros Hi Hp Hv E. pose proof (pre_nonneg i Hi). rewrite Checked.add_fits_spec by (done || (unfold is_u64; lia)).
  unfold is_u64 in Hv. destruct (Z.leb_spec (pre i + v) U64_MAX); [right | left]; cbn; (split; [done|]); [|lia].
  rewrite wrap64_small by (unfold is_u64; lia). lia.
Qed.

Lemma store_at (g : Z -> Z) x i : 0 <= i < n -> x = g i -> zset (filled g i out) i x = Some (filled g (i + 1) out).
Proof using All. intros Hi ->. apply filled_step. lia. Qed.

(** One iteration keeps the invariant. *)
Lemma inv_next word shift lead i : scan_inv word shift lead (i + 1) (filled (fun j => word (pre (j + shift))) (i + 1) out, pre (i + 1)) <->
  pre (i + 1) <= U64_MAX /\ forall j, 0 <= j < i + 1 + lead -> pre j <= max.
Proof using All. unfold scan_inv. cbn. naive_solver. Qed.

(** A scan whose iterations keep the invariant or reject. *)
Lemma scan_loop word shift lead body finish :
  lead = 0 \/ lead = 1 ->
  (forall i, 0 <= i < n -> pre i <= U64_MAX -> (forall j, 0 <= j < i + lead -> pre j <= max) ->
     let out_i := filled (fun j => word (pre (j + shift))) i out in
     (exists r, body (out_i, pre i) i = Some (Return r) /\ rejected r) \/
     (body (out_i, pre i) i = Some (Next (filled (fun j => word (pre (j + shift))) (i + 1) out, pre (i + 1))) /\
      pre (i + 1) <= U64_MAX /\ forall j, 0 <= j < i + 1 + lead -> pre j <= max)) ->
  (forall o, scan_inv word shift lead n (o, pre n) -> scans fits pre word n shift out (check_of (finish o (pre n)))) ->
  exists r, scan_call n (Some input) (Some out) (Some 0) (fun _ out => for_loop body (out, 0) (range 0 n)) finish = Some r /\
    scans fits pre word n shift out (check_of r).
Proof using All.
  intros Hl Hstep Hfin. unfold scan_call. rewrite (proj2 (Z.eqb_neq n 0)) by lia.
  destruct (for_range_safe (scan_inv word shift lead) rejected body 0 n (out, 0)) as [(r & -> & Hr) | ([o running] & -> & Hinv)].
  - lia.
  - split; [done|]. split; [done|]. split; [rewrite prefix_sum_0; lia|]. intros j Hj. replace j with 0 by lia. rewrite prefix_sum_0. lia.
  - intros i [o running] Hi (Eo & Er & Hb & Hf). cbn [fst snd] in *. subst o running.
    destruct (Hstep i Hi Hb Hf) as [(r & -> & Hr) | (-> & Hb' & Hf')]; [left; by exists r | right; eexists; split; [done|]].
    by apply inv_next.
  - cbn [after mbind option_bind]. eexists. split; [done|]. by apply rejected_scans.
  - cbn [after mbind option_bind]. eexists. split; [done|]. pose proof Hinv as (_ & Er & _). cbn [snd] in Er. subst running. by apply Hfin.
Qed.

Ltac up_to Hf i := intros j Hj; destruct (decide (j = i)) as [->|]; [lia | apply Hf; lia].
Ltac reject_at i := left; eexists; split; [done|]; apply (overflow_rejected _ _ i); lia.

Lemma exclusive32 : max = U32_MAX ->
  exists r, ReferenceExclusiveScanU32 (Some input) (Some out) n (Some 0) = Some r /\ scans fits pre wrap32 n 0 out (check_of r).
Proof using All.
  intros Em. unfold ReferenceExclusiveScanU32, StoreU32TotalOrReject. rewrite <- Em. apply (scan_loop wrap32 0 0); [by left | |].
  - intros i Hi Hb Hf. cbn beta. destruct (Z.leb_spec (pre i) max); [|reject_at i].
    cbv zeta beta iota. rewrite (store_at _ (wrap32 (pre i))) by (lia || (by rewrite Z.add_0_r)). cbn [mbind option_bind].
    destruct (word_at i Hi) as (v & -> & Hv & E). cbn [mbind option_bind].
    destruct (running_sum i v ltac:(lia) Hb Hv E) as [[-> Ho] | (-> & -> & Hb')]; [reject_at (i + 1)|].
    right. split; [done|]. split; [done|]. up_to Hf i.
  - intros o Hinv. destruct (Z.leb_spec (pre n) max) as [Hm|Hm]; cbn [default].
    + apply (done_scans _ _ 0 (o, pre n)); [by left | done | lia].
    + apply rejected_scans, (overflow_rejected _ _ n); lia.
Qed.

Lemma exclusive64 : max = U64_MAX ->
  exists r, ReferenceExclusiveScanU64 (Some input) (Some out) n (Some 0) = Some r /\ scans fits pre (fun v => v) n 0 out (check_of r).
Proof using All.
  intros Em. unfold ReferenceExclusiveScanU64. apply (scan_loop (fun v => v) 0 0); [by left | |].
  - intros i Hi Hb Hf. cbv zeta beta iota. rewrite (store_at _ (pre i)) by (lia || (by rewrite Z.add_0_r)). cbn [mbind option_bind].
    destruct (word_at i Hi) as (v & -> & Hv & E). cbn [mbind option_bind].
    destruct (running_sum i v ltac:(lia) Hb Hv E) as [[-> Ho] | (-> & -> & Hb')]; [reject_at (i + 1)|].
    right. split; [done|]. split; [done|]. up_to Hf i.
  - intros o Hinv. apply (done_scans _ _ 0 (o, pre n)); [by left | done |]. destruct Hinv as (_ & _ & ? & _). lia.
Qed.

Lemma inclusive32 : max = U32_MAX ->
  exists r, ReferenceInclusiveScanU32 (Some input) (Some out) n (Some 0) = Some r /\ scans fits pre wrap32 n 1 out (check_of r).
Proof using All.
  intros Em. unfold ReferenceInclusiveScanU32, StoreU32TotalOrReject. rewrite <- Em. apply (scan_loop wrap32 1 1); [by right | |].
  - intros i Hi Hb Hf. cbv zeta beta iota.
    destruct (word_at i Hi) as (v & -> & Hv & E). cbn [mbind option_bind].
    destruct (running_sum i v ltac:(lia) Hb Hv E) as [[-> Ho] | (-> & -> & Hb')]; [reject_at (i + 1)|].
    destruct (Z.leb_spec (pre (i + 1)) max); [|reject_at (i + 1)].
    rewrite (store_at (fun j => wrap32 (pre (j + 1))) (wrap32 (pre (i + 1)))) by (lia || done). cbn [mbind option_bind].
    right. split; [done|]. split; [done|]. up_to Hf (i + 1).
  - intros o Hinv. apply (done_scans _ _ 1 (o, pre n)); [by right | done |]. destruct Hinv as (_ & _ & _ & Hf). apply Hf. lia.
Qed.

Lemma inclusive64 : max = U64_MAX ->
  exists r, ReferenceInclusiveScanU64 (Some input) (Some out) n (Some 0) = Some r /\ scans fits pre (fun v => v) n 1 out (check_of r).
Proof using All.
  intros Em. unfold ReferenceInclusiveScanU64. apply (scan_loop (fun v => v) 1 1); [by right | |].
  - intros i Hi Hb Hf. cbv zeta beta iota.
    destruct (word_at i Hi) as (v & -> & Hv & E). cbn [mbind option_bind].
    destruct (running_sum i v ltac:(lia) Hb Hv E) as [[-> Ho] | (-> & -> & Hb')]; [reject_at (i + 1)|].
    rewrite (store_at (fun j => pre (j + 1)) (pre (i + 1))) by (lia || done). cbn [mbind option_bind].
    right. split; [done|]. split; [done|]. up_to Hf (i + 1).
  - intros o Hinv. apply (done_scans _ _ 1 (o, pre n)); [by right | done |]. destruct Hinv as (_ & _ & _ & Hf). apply Hf. lia.
Qed.
End unsigned.

(** ** The signed scan *)
Section signed.
Context (w : Z) (input out : list Z) (n : Z) (Hw : 0 < w) (Hn : 0 < n) (Hin : n <= zlen input) (Hout : n <= zlen out).

Abbreviation pre := (prefix_sum (map (to_signed w) input)).
Abbreviation fits := (lane_fits w true).
Abbreviation word := (fun v => v mod 2 ^ w).

Lemma SignedPrefixFits_spec v : SignedPrefixFits w v = true <-> fits v.
Proof using All. unfold SignedPrefixFits, lane_fits, lane_min, lane_max. rewrite andb_true_iff, !Z.leb_le. lia. Qed.

Lemma StoreSignedPrefix_spec (g : Z -> Z) x i : 0 <= i < n -> x mod 2 ^ w = g i ->
  (fits x /\ StoreSignedPrefix w x (filled g i out) i = Some (Some (filled g (i + 1) out))) \/
  (~ fits x /\ StoreSignedPrefix w x (filled g i out) i = Some None).
Proof using All.
  intros Hi E. unfold StoreSignedPrefix. destruct (SignedPrefixFits w x) eqn:F; cbn [negb].
  - left. split; [by apply SignedPrefixFits_spec|]. rewrite E, filled_step by lia. done.
  - right. split; [|done]. intros H. apply SignedPrefixFits_spec in H. congruence.
Qed.

Lemma signed_word i : 0 <= i < n -> exists v, zget input i = Some v /\ pre (i + 1) = pre i + to_signed w v.
Proof using All.
  intros Hi. destruct (zget_is_Some input i) as [v Hv]; [lia|]. exists v. split; [done|].
  apply prefix_sum_S; [lia|]. apply zget_Some in Hv as [? Hv]. apply zget_Some. split; [done|]. by rewrite list_lookup_fmap, Hv.
Qed.

Lemma zero_fits : fits 0.
Proof using All. unfold lane_fits, lane_min, lane_max. pose proof (pow2_pos (w - 1)). lia. Qed.

Lemma CanonicalSignedScan_spec (inclusive : bool) :
  exists r, CanonicalSignedScan w (Some input) (Some out) n inclusive = Some r /\
    scans fits pre word n (if inclusive then 1 else 0) out r.
Proof using All.
  unfold CanonicalSignedScan. rewrite (proj2 (Z.eqb_neq n 0)) by lia. set (shift := if inclusive then 1 else 0).
  set (Q := fun r : AccelCheck * buffer => exists out', r = (accel_fail "compute_scan_sum_overflow", Some out') /\ exists i, 0 <= i <= n /\ ~ fits (pre i)).
  assert (forall r, Q r -> scans fits pre word n shift out r) as HQ by (intros r Hr; by right).
  edestruct (for_range_safe (fun i st => st.1 = filled (fun j => word (pre (j + shift))) i out /\ st.2 = pre i /\
    forall j, 0 <= j < i + shift -> fits (pre j)) Q) as [(r & E & Hr) | ([o running] & E & Eo & Er & Hf)]; cycle -2.
  - rewrite E. cbn [after mbind option_bind]. eexists. split; [done|]. by apply HQ.
  - rewrite E. cbn [after mbind option_bind fst snd] in *. subst o running. eexists. split; [done|]. subst shift.
    destruct inclusive; cbn [negb andb].
    + left. split; [done|]. intros i Hi. apply Hf. lia.
    + destruct (SignedPrefixFits w (pre n)) eqn:F; cbn [negb].
      * left. split; [done|]. apply SignedPrefixFits_spec in F. intros i Hi. destruct (decide (i = n)) as [->|]; [done | apply Hf; lia].
      * apply HQ. eexists. split; [done|]. exists n. split; [lia|]. rewrite <- SignedPrefixFits_spec. congruence.
  - lia.
  - split; [done|]. split; [done|]. intros j Hj. replace j with 0 by (unfold shift in *; destruct inclusive; lia). apply zero_fits.
  - intros i [o running] Hi (Eo & Er & Hf). cbn [fst snd] in *. subst o running. destruct (signed_word i Hi) as (v & Ev & Ep).
    unfold shift in *. destruct inclusive; cbn [mbind option_bind].
    + rewrite Ev. cbn [mbind option_bind]. rewrite <- Ep.
      destruct (StoreSignedPrefix_spec (fun j => word (pre (j + 1))) (pre (i + 1)) i Hi eq_refl) as [[F ->] | [F ->]]; cbn [mbind option_bind].
      * right. eexists. split; [done|]. cbn [fst snd]. split; [done|]. split; [done|].
        intros j Hj. destruct (decide (j = i + 1)) as [->|]; [done | apply Hf; lia].
      * left. eexists. split; [done|]. eexists. split; [done|]. exists (i + 1). split; [lia | done].
    + destruct (StoreSignedPrefix_spec (fun j => word (pre (j + 0))) (pre i) i Hi ltac:(cbv beta; by rewrite Z.add_0_r)) as [[F ->] | [F ->]]; cbn [mbind option_bind].
      * rewrite Ev. cbn [mbind option_bind]. rewrite <- Ep. right. eexists. split; [done|]. cbn [fst snd]. split; [done|]. split; [done|].
        intros j Hj. destruct (decide (j = i)) as [->|]; [done | apply Hf; lia].
      * left. eexists. split; [done|]. eexists. split; [done|]. exists i. split; [lia | done].
Qed.
End signed.

(** ** The primitive *)
Lemma scans_ext (fits fits' : Z -> Prop) pre word word' n shift out r :
  (forall v, fits v <-> fits' v) -> (forall v, fits v -> word v = word' v) -> 0 <= shift <= 1 -> (shift = 0 \/ shift = 1) ->
  scans fits pre word n shift out r -> scans fits' pre word' n shift out r.
Proof.
  intros Hf Hw Hs _ [[-> H] | (out' & -> & i & Hi & H)].
  - left. split; [|intros i Hi; by apply Hf, H]. do 2 f_equal. apply filled_ext. intros j Hj. apply Hw, H. lia.
  - right. exists out'. split; [done|]. exists i. split; [done|]. by rewrite <- Hf.
Qed.

Lemma PlanScan_ok desc : let plan := PlanScan desc in p_ok plan = true ->
  0 <= d_element_count desc -> 0 < p_element_count plan /\ p_element_count plan = d_element_count desc /\
  (p_element plan = ScanU32 \/ p_element plan = ScanU64) /\ (p_op plan = ExclusiveSum \/ p_op plan = InclusiveSum).
Proof.
  cbv zeta. unfold PlanScan. destruct (KnownOp (d_op desc)) eqn:Ek; [|done]. cbn [negb].
  destruct (count_source_unsupported _); [done|]. destruct (d_element desc) eqn:Ee; cbn [ElementBytes Z.eqb]; [| |done].
  all: destruct (Z.eqb_spec (d_element_count desc) 0); [done|]; destruct (d_block_size desc =? 0); [done|];
    destruct (Checked.mul_fits _ _); [|done]; cbn; intros _ H; split; [lia|]; split; [done|].
  all: split; [auto|]; apply orb_true_iff in Ek as [Ek%bool_decide_eq_true | Ek%bool_decide_eq_true]; tauto.
Qed.

(** C19: Under a plan that [PlanScan] accepts and whose count is the descriptor's, the CPU
    scan of [n] lanes, over buffers that hold [n] lanes, writes at every index the exclusive
    or inclusive prefix sum, in the lane's representation, and keeps the rest of the output,
    exactly when every prefix of the input, the total included, fits the signed or unsigned
    lane; otherwise it fails with compute_scan_sum_overflow. *)
Theorem cpu_scan_spec desc is_signed input out :
  let plan := PlanScan desc in
  let w := lane_width plan in
  p_ok plan = true -> d_count_source desc = Descriptor -> 0 <= d_element_count desc ->
  p_element_count plan <= zlen input -> p_element_count plan <= zlen out -> Forall (fun v => 0 <= v < 2 ^ w) input ->
  exists r, run_cpu_scan plan is_signed (Some input) (Some out) = Some r /\
    scans (lane_fits w is_signed) (prefix_sum (map (lane_value w is_signed) input)) (fun v => v mod 2 ^ w)
      (p_element_count plan) (if bool_decide (p_op plan = InclusiveSum) then 1 else 0) out r.
Proof.
  intros plan w Hok _ H0 Hin Hout Hwords. destruct (PlanScan_ok desc Hok H0) as (Hn & _ & He & Ho). fold plan in Hn, He, Ho.
  unfold run_cpu_scan. fold plan. subst w. unfold lane_width in *. clearbody plan. destruct is_signed.
  { assert (0 < (if bool_decide (p_element plan = ScanU32) then 32 else 64)) as Hw by (case_match; lia).
    destruct (CanonicalSignedScan_spec _ input out (p_element_count plan) Hw Hn Hin Hout (bool_decide (p_op plan = InclusiveSum))) as (r & E & Hs). by exists r. }
  assert (map (lane_value (if bool_decide (p_element plan = ScanU32) then 32 else 64) false) input = input) as -> by apply map_id.
  assert (Forall is_u64 input) as Hu.
  { eapply Forall_impl; [exact Hwords|]. intros v Hv. unfold is_u64. case_bool_decide; lia. }
  assert (forall max shift out_word r, 0 <= max -> max = lane_max (if bool_decide (p_element plan = ScanU32) then 32 else 64) false ->
    0 <= shift <= 1 -> (forall v, 0 <= v <= max -> out_word v = v mod 2 ^ (if bool_decide (p_element plan = ScanU32) then 32 else 64)) ->
    scans (fun v => 0 <= v <= max) (prefix_sum input) out_word (p_element_count plan) shift out r ->
    scans (lane_fits (if bool_decide (p_element plan = ScanU32) then 32 else 64) false) (prefix_sum input)
      (fun v => v mod 2 ^ (if bool_decide (p_element plan = ScanU32) then 32 else 64)) (p_element_count plan) shift out r) as Hext.
  { intros max shift out_word r _ -> Hs Hw. apply scans_ext; [| exact Hw | done | lia].
    intros v. reflexivity. }
  assert (0 <= (if bool_decide (p_op plan = InclusiveSum) then 1 else 0) <= 1) as Hsh by (destruct (bool_decide (p_op plan = InclusiveSum)); lia).
  destruct He as [He|He], Ho as [Ho|Ho]; rewrite He, Ho in *.
  - destruct (exclusive32 input out _ Hn Hin Hout Hu U32_MAX ltac:(lia) eq_refl) as (r & Er & Hs).
    exists (check_of r). split; [cbn; by rewrite Er|]. apply (Hext U32_MAX _ wrap32); [lia | done | exact Hsh | done | done].
  - destruct (inclusive32 input out _ Hn Hin Hout Hu U32_MAX ltac:(lia) eq_refl) as (r & Er & Hs).
    exists (check_of r). split; [cbn; by rewrite Er|]. apply (Hext U32_MAX _ wrap32); [lia | done | exact Hsh | done | done].
  - destruct (exclusive64 input out _ Hn Hin Hout Hu U64_MAX ltac:(lia) eq_refl) as (r & Er & Hs).
    exists (check_of r). split; [cbn; by rewrite Er|]. apply (Hext U64_MAX _ (fun v => v)); [lia | done | exact Hsh | | done].
    intros v Hv. symmetry. apply Z.mod_small. change (0 <= v < 2 ^ 64). lia.
  - destruct (inclusive64 input out _ Hn Hin Hout Hu U64_MAX ltac:(lia) eq_refl) as (r & Er & Hs).
    exists (check_of r). split; [cbn; by rewrite Er|]. apply (Hext U64_MAX _ (fun v => v)); [lia | done | exact Hsh | | done].
    intros v Hv. symmetry. apply Z.mod_small. change (0 <= v < 2 ^ 64). lia.
Qed.

(** A signed exclusive scan of [5, -2, 7] in 32-bit lanes. *)
Lemma cpu_scan_spec_witness :
  let plan := PlanScan {| d_op := ExclusiveSum; d_element := ScanU32; d_element_count := 3; d_block_size := 2; d_count_source := Descriptor |} in
  exists r, run_cpu_scan plan true (Some [5; 4294967294; 7]) (Some [0; 0; 0; 9]) = Some r /\
    scans (lane_fits 32 true) (prefix_sum (map (lane_value 32 true) [5; 4294967294; 7])) (fun v => v mod 2 ^ 32) 3 0 [0; 0; 0; 9] r.
Proof.
  intros plan. assert (p_element_count plan = 3) as En by reflexivity. assert (lane_width plan = 32) as Ew by reflexivity.
  apply (cpu_scan_spec {| d_op := ExclusiveSum; d_element := ScanU32; d_element_count := 3; d_block_size := 2; d_count_source := Descriptor |}
    true [5; 4294967294; 7] [0; 0; 0; 9]).
  - reflexivity.
  - reflexivity.
  - cbn. lia.
  - fold plan. rewrite En. vm_compute. discriminate.
  - fold plan. rewrite En. vm_compute. discriminate.
  - fold plan. rewrite Ew. repeat constructor; lia.
Defined.
