(* ===== verification/PrimReduce.v ===== *)
(** * PrimReduce: the reduce primitive

    [program/compute/reduce/{model,operation,plan,reference}.hpp] of the kernel,
    [accel/cpu/reduce/reference.hpp] and the part of [ExecuteCpuReduce]
    ([accel/cpu/reduce.cpp]) after its buffers are looked up. *)
From stdpp Require Import base numbers list option strings.
From Stdlib Require Import ZArith Lia.
From S2P Require Import Prelude Checked Primitives.

Inductive ReduceOp := Sum | CountNonzero | Min | Max | OtherReduceOp (value : Z).
Inductive ReduceElement := ReduceU32 | ReduceU64 | OtherReduceElement (value : Z).
#[export] Instance ReduceOp_eq_dec : EqDecision ReduceOp.
Proof. solve_decision. Defined.
#[export] Instance ReduceElement_eq_dec : EqDecision ReduceElement.
Proof. solve_decision. Defined.

Definition kReduceItemsPerThread : Z := 8.
Definition kReduceFirstPassMaxGroups : Z := 128.
Definition kReduceWideElementBytes : Z := 16.
Definition kStatusBytes : Z := 4.

Definition ReduceUsesWidePartials (op : ReduceOp) : bool := bool_decide (op = Sum) || bool_decide (op = CountNonzero).
Definition valid (op : ReduceOp) : bool :=
  bool_decide (op = Sum) || bool_decide (op = CountNonzero) || bool_decide (op = Min) || bool_decide (op = Max).

Record ReduceDesc := {
  d_op : ReduceOp; d_element : ReduceElement; d_element_count : Z; d_block_size : Z; d_count_source : ComputeCountSource;
}.
Record ReducePlan := {
  p_op : ReduceOp; p_element : ReduceElement; p_element_count : Z; p_element_bytes : Z; p_block_size : Z;
  items_per_thread : Z; first_pass_group_count : Z; p_pass_count : Z; partial_element_count : Z;
  partial_element_bytes : Z; p_partial_bytes : Z; status_bytes : Z; p_temp_bytes : Z;
  p_count_source : ComputeCountSource; p_ok : bool; p_reason : string;
}.
Record ReduceResult := { r_element_count : Z; r_total : Z; r_ok : bool; r_reason : string }.

(** ** [PlanReduce] *)
Definition ElementBytes (element : ReduceElement) : Z := match element with ReduceU32 => 4 | ReduceU64 => 8 | OtherReduceElement _ => 0 end.

Definition RejectPlan (desc : ReduceDesc) (element_bytes items_per_thread first_pass_group_count pass_count partial_element_count
    partial_element_bytes partial_bytes temp_bytes : Z) (reason : string) : ReducePlan :=
  {| p_op := d_op desc; p_element := d_element desc; p_element_count := d_element_count desc; p_element_bytes := element_bytes;
     p_block_size := d_block_size desc; items_per_thread := items_per_thread; first_pass_group_count := first_pass_group_count;
     p_pass_count := pass_count; partial_element_count := partial_element_count; partial_element_bytes := partial_element_bytes;
     p_partial_bytes := partial_bytes; status_bytes := kStatusBytes; p_temp_bytes := temp_bytes;
     p_count_source := d_count_source desc; p_ok := false; p_reason := reason |}.

Definition BlockSizeAdmitted (block_size count : Z) : bool := negb (block_size =? 0) && negb ((block_size =? 1) && (count >? 1)).
Definition ReduceGroupCount (element_count group_width : Z) : Z := Checked.ceil element_count group_width.

(** The narrow tree: [current_count], [pass_count] and [partial_element_count] of one pass.
    A pass at least halves the count, so 65 passes are more than a [u64] count needs. *)
Definition narrow_pass (block_size : Z) (reject : Z -> Z -> ReducePlan) (st : Z * Z * Z) : option (flow (Z * Z * Z) ReducePlan) :=
  let '(current_count, pass_count, partial_count) := st in
  let next_count := ReduceGroupCount current_count block_size in
  let pass_count := wrap64 (pass_count + 1) in
  if next_count >? 1 then
    if negb (Checked.add_fits partial_count next_count) then Some (Return (reject pass_count partial_count))
    else Some (Next (next_count, pass_count, wrap64 (partial_count + next_count)))
  else Some (Next (next_count, pass_count, partial_count)).

Definition narrow_tree (block_size : Z) (reject : Z -> Z -> ReducePlan) (element_count : Z) : option (flow (Z * Z * Z) ReducePlan) :=
  while_loop 65 (fun '(current_count, _, _) => current_count >? 1) (narrow_pass block_size reject) (element_count, 0, 0).

(** The sizes and the accepted plan behind the passes. *)
Definition finish_plan (desc : ReduceDesc) (element_bytes items_per_thread first_pass_group_count partial_element_bytes
    pass_count partial_element_count : Z) : ReducePlan :=
  let reject partial_bytes := RejectPlan desc element_bytes items_per_thread first_pass_group_count pass_count partial_element_count
    partial_element_bytes partial_bytes 0 "compute_reduce_temp_overflow" in
  if negb (Checked.mul_fits partial_element_count partial_element_bytes) then reject 0 else
  let partial_bytes := wrap64 (partial_element_count * partial_element_bytes) in
  if negb (Checked.add_fits partial_bytes kStatusBytes) then reject partial_bytes else
  {| p_op := d_op desc; p_element := d_element desc; p_element_count := d_element_count desc; p_element_bytes := element_bytes;
     p_block_size := d_block_size desc; items_per_thread := items_per_thread; first_pass_group_count := first_pass_group_count;
     p_pass_count := pass_count; partial_element_count := partial_element_count; partial_element_bytes := partial_element_bytes;
     p_partial_bytes := partial_bytes; status_bytes := kStatusBytes; p_temp_bytes := wrap64 (partial_bytes + kStatusBytes);
     p_count_source := d_count_source desc; p_ok := true; p_reason := "ok" |}.

Definition PlanReduce (desc : ReduceDesc) : option ReducePlan :=
  let reject0 := RejectPlan desc 0 0 0 0 0 0 0 0 in
  if negb (valid (d_op desc)) then Some (reject0 "compute_reduce_op_unsupported") else
  if count_source_unsupported (d_count_source desc) then Some (reject0 "compute_reduce_count_source_unsupported") else
  let element_bytes := ElementBytes (d_element desc) in
  if element_bytes =? 0 then Some (reject0 "compute_reduce_element_unsupported") else
  let wide := ReduceUsesWidePartials (d_op desc) in
  let items_per_thread := if wide then kReduceItemsPerThread else 1 in
  let partial_element_bytes := if wide then kReduceWideElementBytes else element_bytes in
  let early := RejectPlan desc element_bytes items_per_thread 0 0 0 partial_element_bytes 0 0 in
  if d_element_count desc =? 0 then Some (early "compute_reduce_count_zero") else
  if negb (BlockSizeAdmitted (d_block_size desc) (d_element_count desc)) then Some (early "compute_reduce_block_invalid") else
  if negb (Checked.mul_fits (d_block_size desc) items_per_thread) then Some (early "compute_reduce_temp_overflow") else
  let first_pass_width := wrap64 (d_block_size desc * items_per_thread) in
  let groups := ReduceGroupCount (d_element_count desc) first_pass_width in
  let first_pass_group_count := if wide && (groups >? kReduceFirstPassMaxGroups) then kReduceFirstPassMaxGroups else groups in
  let finish := finish_plan desc element_bytes items_per_thread first_pass_group_count partial_element_bytes in
  if wide then
    Some (finish (if first_pass_group_count >? 1 then 2 else 1) (if first_pass_group_count >? 1 then first_pass_group_count else 0))
  else
    after (narrow_tree (d_block_size desc) (fun pass_count partial_count =>
        RejectPlan desc element_bytes items_per_thread first_pass_group_count pass_count partial_count partial_element_bytes 0 0
          "compute_reduce_temp_overflow") (d_element_count desc))
      (fun '(_, pass_count, partial_count) => Some (finish (if pass_count =? 0 then 1 else pass_count) partial_count)).

(** ** The reference reductions

    A reduction writes [output[0]] when it succeeds. *)
Definition Reject (element_count total : Z) (reason : string) : ReduceResult :=
  {| r_element_count := element_count; r_total := total; r_ok := false; r_reason := reason |}.
Definition reduce_ok (element_count total : Z) : ReduceResult :=
  {| r_element_count := element_count; r_total := total; r_ok := true; r_reason := "ok" |}.

(** The guards and the final write that the reductions share. *)
Definition reduce_call (element_count : Z) (input output : buffer) (word : Z -> Z)
    (loop : list Z -> option (flow Z ReduceResult)) : option (ReduceResult * buffer) :=
  if element_count =? 0 then Some (Reject 0 0 "compute_reduce_count_zero", output) else
  match input, output with
  | Some input, Some out =>
      after (r ← loop input; Some match r with Next running => Next running | Return rejected => Return (rejected, output) end)
        (fun running => out ← zset out 0 (word running); Some (reduce_ok element_count running, Some out))
  | _, _ => Some (Reject element_count 0 "compute_reduce_buffer_invalid", output)
  end.

Definition ReduceMinMax (input output : buffer) (element_count : Z) (maximum : bool) : option (ReduceResult * buffer) :=
  reduce_call element_count input output (fun v => v) (fun input =>
    first ← zget input 0;
    for_loop (fun selected index =>
      value ← zget input index;
      Some (Next (if (maximum && (value >? selected)) || (negb maximum && (value <? selected)) then value else selected)))
      first (range 1 element_count)).

Definition ReferenceReduceSumU32 (input output : buffer) (element_count : Z) : option (ReduceResult * buffer) :=
  reduce_call element_count input output wrap32 (fun input =>
    for_loop (fun running index =>
      value ← zget input index;
      if negb (Checked.add_fits running value) then Some (Return (Reject element_count running "compute_reduce_sum_overflow"))
      else
        let running := wrap64 (running + value) in
        Some (if running >? U32_MAX then Return (Reject element_count running "compute_reduce_sum_overflow") else Next running))
      0 (range 0 element_count)).

Definition ReferenceReduceSumU64 (input output : buffer) (element_count : Z) : option (ReduceResult * buffer) :=
  reduce_call element_count input output (fun v => v) (fun input =>
    for_loop (fun running index =>
      value ← zget input index;
      Some (if negb (Checked.add_fits running value) then Return (Reject element_count running "compute_reduce_sum_overflow")
            else Next (wrap64 (running + value)))) 0 (range 0 element_count)).

Definition ReferenceReduceCountNonzeroU32 (input output : buffer) (element_count : Z) : option (ReduceResult * buffer) :=
  reduce_call element_count input output wrap32 (fun input =>
    for_loop (fun running index =>
      value ← zget input index;
      if value =? 0 then Some (Next running)
      else
        let running := wrap64 (running + 1) in
        Some (if running >? U32_MAX then Return (Reject element_count running "compute_reduce_count_overflow") else Next running))
      0 (range 0 element_count)).

Definition ReferenceReduceCountNonzeroU64 (input output : buffer) (element_count : Z) : option (ReduceResult * buffer) :=
  reduce_call element_count input output (fun v => v) (fun input =>
    for_loop (fun running index =>
      value ← zget input index;
      Some (if value =? 0 then Next running
            else if negb (Checked.add_fits running 1) then Return (Reject element_count running "compute_reduce_count_overflow")
            else Next (wrap64 (running + 1)))) 0 (range 0 element_count)).

(** [ReferenceReduceU32] and [ReferenceReduceU64] of the CPU backend. *)
Definition ReferenceReduceU32 (op : ReduceOp) (input output : buffer) (element_count : Z) : option (ReduceResult * buffer) :=
  match op with
  | CountNonzero => ReferenceReduceCountNonzeroU32 input output element_count
  | Min => ReduceMinMax input output element_count false
  | Max => ReduceMinMax input output element_count true
  | _ => ReferenceReduceSumU32 input output element_count
  end.
Definition ReferenceReduceU64 (op : ReduceOp) (input output : buffer) (element_count : Z) : option (ReduceResult * buffer) :=
  match op with
  | CountNonzero => ReferenceReduceCountNonzeroU64 input output element_count
  | Min => ReduceMinMax input output element_count false
  | Max => ReduceMinMax input output element_count true
  | _ => ReferenceReduceSumU64 input output element_count
  end.

(** [__builtin_add_overflow] of [width]-bit signed numbers. *)
Definition add_overflow (width a b : Z) : bool := negb ((- 2 ^ (width - 1) <=? a + b) && (a + b <=? 2 ^ (width - 1) - 1)).

(** [ReferenceReduceSigned<S>]: the buffers hold the words of the signed elements. *)
Definition signed_step (width : Z) (op : ReduceOp) (element_count : Z) (value element : Z) : flow Z ReduceResult :=
  match op with
  | Sum => if add_overflow width value element then Return (Reject element_count 0 "compute_reduce_sum_overflow") else Next (value + element)
  | CountNonzero =>
      if negb (element =? 0) && add_overflow width value 1 then Return (Reject element_count 0 "compute_reduce_count_overflow")
      else Next (if negb (element =? 0) then value + 1 else value)
  | Min => Next (if element <? value then element else value)
  | _ => Next (if element >? value then element else value)
  end.

Definition ReferenceReduceSigned (width : Z) (op : ReduceOp) (input output : buffer) (element_count : Z) : option (ReduceResult * buffer) :=
  match input, output with
  | Some input, Some out =>
      if element_count =? 0 then Some (Reject 0 0 "compute_reduce_buffer_invalid", output) else
      let start := match op with Min => 2 ^ (width - 1) - 1 | Max => - 2 ^ (width - 1) | _ => 0 end in
      after (r ← for_loop (fun value index => word ← zget input index; Some (signed_step width op element_count value (to_signed width word)))
               start (range 0 element_count);
             Some match r with Next value => Next value | Return rejected => Return (rejected, output) end)
        (fun value => out ← zset out 0 (value mod 2 ^ width); Some (reduce_ok element_count 0, Some out))
  | _, _ => Some (Reject 0 0 "compute_reduce_buffer_invalid", output)
  end.

(** ** [ExecuteCpuReduce] after the lookups *)
Definition check_of (outcome : ReduceResult * buffer) : AccelCheck * buffer :=
  let '(result, out) := outcome in (if r_ok result then accel_ok else accel_fail (r_reason result), out).

Definition run_cpu_reduce (op : ReduceOp) (plan : ReducePlan) (is_signed : bool) (input output : buffer) : option (AccelCheck * buffer) :=
  let u32 := bool_decide (p_element plan = ReduceU32) in
  let n := p_element_count plan in
  outcome ← (if is_signed then ReferenceReduceSigned (if u32 then 32 else 64) op input output n
             else if u32 then ReferenceReduceU32 op input output n
             else ReferenceReduceU64 op input output n);
  Some (check_of outcome).

(** ** What a reduction means *)
Definition lane_width (plan : ReducePlan) : Z := if bool_decide (p_element plan = ReduceU32) then 32 else 64.

Definition reduce_value (op : ReduceOp) (l : list Z) : Z :=
  match op with
  | CountNonzero => zlen (filter (fun v => v <> 0) l)
  | Min => match l with [] => 0 | x :: l => foldl Z.min x l end
  | Max => match l with [] => 0 | x :: l => foldl Z.max x l end
  | _ => foldr Z.add 0 l
  end.

Definition overflow_reason (op : ReduceOp) : string :=
  match op with CountNonzero => "compute_reduce_count_overflow" | _ => "compute_reduce_sum_overflow" end.

(** The first [n] elements of a buffer. *)
Definition lanes_of (w : Z) (is_signed : bool) (input : list Z) (n : Z) : list Z :=
  map (lane_value w is_signed) (take (Z.to_nat n) input).

(** The value of the first [k] elements. *)
Definition partial_value (op : ReduceOp) (lanes : list Z) (k : Z) : Z := reduce_value op (take (Z.to_nat k) lanes).

(** Either every partial result fits the lane and the result is written, or one does not
    and nothing is. *)
Definition reduces (w : Z) (is_signed : bool) (op : ReduceOp) (lanes : list Z) (out : list Z) (r : AccelCheck * buffer) : Prop :=
  ((forall k, 0 < k <= zlen lanes -> lane_fits w is_signed (partial_value op lanes k)) /\
   r = (accel_ok, Some (<[0%nat := reduce_value op lanes mod 2 ^ w]> out))) \/
  ((exists k, 0 < k <= zlen lanes /\ ~ lane_fits w is_signed (partial_value op lanes k)) /\ r = (accel_fail (overflow_reason op), Some out)).
