(* ===== verification/PrimReduceFacts.v ===== *)
(** * PrimReduceFacts: what the CPU reductions compute, and the tree of a reduce plan *)
From stdpp Require Import base numbers list option strings.
From Stdlib Require Import ZArith Lia.
From S2P Require Import Prelude Checked Primitives PrimReduce.

(** ** One more element *)
Definition lane_step (op : ReduceOp) (acc v : Z) : Z :=
  match op with CountNonzero => if v =? 0 then acc else acc + 1 | Min => Z.min acc v | Max => Z.max acc v | _ => acc + v end.

(** Sum and CountNonzero are defined on the empty list. *)
Definition starts_at_zero (op : ReduceOp) : bool := match op with Min | Max => false | _ => true end.

Lemma reduce_value_snoc op l v : starts_at_zero op = true \/ l <> [] ->
  reduce_value op (l ++ [v]) = lane_step op (reduce_value op l) v.
Proof.
  intros H. destruct op; unfold reduce_value, lane_step; try (by apply foldr_add_snoc).
  - rewrite filter_app, zlen_app, filter_cons, filter_nil. destruct (Z.eqb_spec v 0) as [->|Hv].
    + rewrite decide_False by (intros Hz; by apply Hz). change (zlen (@nil Z)) with 0. lia.
    + by rewrite decide_True by done.
  - destruct l as [|x l]; [by destruct H|]. cbn. by rewrite foldl_app.
  - destruct l as [|x l]; [by destruct H|]. cbn. by rewrite foldl_app.
Qed.

Section run.
Context (w : Z) (is_signed : bool) (op : ReduceOp) (input out : list Z) (n : Z).
Context (Hn : 0 < n) (Hin : n <= zlen input) (Hout : 0 < zlen out).

Abbreviation lanes := (lanes_of w is_signed input n).
Abbreviation partial := (partial_value op lanes).
Abbreviation fits := (lane_fits w is_signed).

Lemma zlen_lanes : zlen lanes = n.
Proof using All. unfold lanes_of. rewrite zlen_map. unfold zlen in *. rewrite length_take. lia. Qed.

Lemma lane_at i : 0 <= i < n -> exists word, zget input i = Some word /\ zget lanes i = Some (lane_value w is_signed word) /\ word ∈ input.
Proof using All.
  intros Hi. destruct (zget_is_Some input i) as [v Hv]; [lia|]. exists v. split; [done|]. apply zget_Some in Hv as [_ Hv].
  split; [|by eapply list_elem_of_lookup_2]. apply zget_Some. split; [lia|]. unfold lanes_of.
  rewrite list_lookup_fmap, lookup_take_lt by lia. by rewrite Hv.
Qed.

Lemma partial_next i word : 0 <= i < n -> zget input i = Some word -> starts_at_zero op = true \/ 0 < i ->
  partial (i + 1) = lane_step op (partial i) (lane_value w is_signed word).
Proof using All.
  intros Hi Hw Ho. destruct (lane_at i Hi) as (word' & E & El & _). rewrite E in Hw. injection Hw as ->.
  unfold partial_value. rewrite (take_S_Z _ i _ ltac:(lia) El). apply reduce_value_snoc. destruct Ho as [?|Ho]; [by left | right].
  intros E0. apply (f_equal zlen) in E0. pose proof zlen_lanes as Hz. unfold zlen in E0, Hz. rewrite length_take in E0. cbn in E0. lia.
Qed.

Lemma partial_first word : zget input 0 = Some word -> partial 1 = lane_step op (match op with Min | Max => lane_value w is_signed word | _ => 0 end) (lane_value w is_signed word).
Proof using All.
  intros Hw. destruct (lane_at 0 ltac:(lia)) as (word' & E & El & _). rewrite E in Hw. injection Hw as ->.
  unfold partial_value. change 1 with (0 + 1). rewrite (take_S_Z _ 0 _ ltac:(lia) El). change (take (Z.to_nat 0) lanes) with (@nil Z).
  destruct (starts_at_zero op) eqn:Ez.
  - rewrite (reduce_value_snoc op []) by (by left). destruct op; done.
  - destruct op; try done; cbn; lia.
Qed.

Lemma partial_all : partial n = reduce_value op lanes.
Proof using All. unfold partial_value. rewrite take_ge; [done|]. pose proof zlen_lanes as Hz. unfold zlen in Hz. lia. Qed.

Definition overflowed (r : ReduceResult) : Prop := r_ok r = false /\ r_reason r = overflow_reason op.

(** The loop of a reduction: [acc k] is its state after [k] elements. *)
Lemma reduce_loop (acc : Z -> Z) lo body :
  0 <= lo <= n -> (forall k, 0 < k <= n -> acc k = partial k) -> (forall k, 0 < k <= lo -> fits (acc k)) ->
  (forall i, lo <= i < n -> (0 < i -> fits (acc i)) ->
     (body (acc i) i = Some (Next (acc (i + 1))) /\ fits (acc (i + 1))) \/
     (exists r, body (acc i) i = Some (Return r) /\ overflowed r /\ ~ fits (acc (i + 1)))) ->
  exists f, for_loop body (acc lo) (range lo n) = Some f /\
    ((f = Next (acc n) /\ forall k, 0 < k <= n -> fits (partial k)) \/
     (exists r, f = Return r /\ overflowed r /\ exists k, 0 < k <= n /\ ~ fits (partial k))).
Proof using All.
  intros Hlo Hacc Hfits Hstep.
  destruct (for_range_safe (fun i v => v = acc i /\ forall k, 0 < k <= i -> fits (acc k))
    (fun r => overflowed r /\ exists k, 0 < k <= n /\ ~ fits (partial k)) body lo n (acc lo)) as [(r & -> & Hr & Hk) | (v & -> & -> & Hf)].
  - lia.
  - by split.
  - intros i v Hi [-> Hf]. destruct (Hstep i Hi ltac:(intros; apply Hf; lia)) as [[-> Hf'] | (r & -> & Hr & Hf')].
    + right. eexists. split; [done|]. split; [done|]. intros k Hk. destruct (decide (k = i + 1)) as [->|]; [done | apply Hf; lia].
    + left. eexists. split; [done|]. split; [done|]. exists (i + 1). split; [lia|]. by rewrite <- Hacc by lia.
  - eexists. split; [done|]. right. by exists r.
  - eexists. split; [done|]. left. split; [done|]. intros k Hk. rewrite <- Hacc by done. by apply Hf.
Qed.

Lemma reduces_written v : v = reduce_value op lanes mod 2 ^ w -> (forall k, 0 < k <= n -> fits (partial k)) ->
  reduces w is_signed op lanes out (accel_ok, Some (<[0%nat := v]> out)).
Proof using All. intros -> Hf. left. rewrite zlen_lanes. by split. Qed.

Lemma reduces_rejected r : overflowed r -> (exists k, 0 < k <= n /\ ~ fits (partial k)) ->
  reduces w is_signed op lanes out (check_of (r, Some out)).
Proof using All. intros [Hr1 Hr2] Hk. right. rewrite zlen_lanes. split; [done|]. cbn. by rewrite Hr1, Hr2. Qed.

Lemma reduce_call_spec word loop :
  (forall v, fits v -> word v = v mod 2 ^ w) ->
  (exists f, loop input = Some f /\
    ((f = Next (partial n) /\ forall k, 0 < k <= n -> fits (partial k)) \/
     (exists r, f = Return r /\ overflowed r /\ exists k, 0 < k <= n /\ ~ fits (partial k)))) ->
  exists o, reduce_call n (Some input) (Some out) word loop = Some o /\ reduces w is_signed op lanes out (check_of o).
Proof using All.
  intros Hword (f & E & H). unfold reduce_call. rewrite (proj2 (Z.eqb_neq n 0)) by lia. rewrite E. cbn [mbind option_bind].
  destruct H as [[-> Hf] | (r & -> & Hr & Hk)]; cbn [after mbind option_bind].
  - rewrite zset_Some by lia. cbn [mbind option_bind]. eexists. split; [done|]. cbn [check_of r_ok reduce_ok].
    apply reduces_written; [|done]. rewrite Hword by (apply Hf; lia). by rewrite <- partial_all.
  - eexists. split; [done|]. by apply reduces_rejected.
Qed.
End run.

(** ** The unsigned reductions *)
Section unsigned.
Context (w : Z) (op : ReduceOp) (input out : list Z) (n : Z).
Context (Hn : 0 < n <= U64_MAX) (Hin : n <= zlen input) (Hout : 0 < zlen out).
Context (Hw : w = 32 \/ w = 64) (Hwords : Forall (fun v => 0 <= v < 2 ^ w) input).

Abbreviation lanes := (lanes_of w false input n).
Abbreviation partial := (partial_value op lanes).
Abbreviation fits := (lane_fits w false).
Abbreviation reducing o := (exists r, o = Some r /\ reduces w false op lanes out (check_of r)).

Lemma fits_unsigned v : fits v <-> 0 <= v < 2 ^ w.
Proof using All. unfold lane_fits, lane_min, lane_max. lia. Qed.

Lemma width_bound : 2 ^ w - 1 <= U64_MAX.
Proof using All. destruct Hw as [-> | ->]; cbn; lia. Qed.

Lemma reduced_word_at i : 0 <= i < n -> exists v, zget input i = Some v /\ 0 <= v < 2 ^ w /\
  (starts_at_zero op = true \/ 0 < i -> partial (i + 1) = lane_step op (partial i) v).
Proof using All.
  intros Hi. destruct (lane_at w false op input out n ltac:(lia) Hin Hout i Hi) as (v & Hv & _ & Hel). exists v. split; [done|].
  split; [by apply (proj1 (Forall_forall _ _) Hwords)|]. intros Ho. by apply (partial_next w false op input out n ltac:(lia) Hin Hout i v Hi Hv).
Qed.

Lemma running_range i : starts_at_zero op = true -> 0 <= i -> (0 < i -> fits (partial i)) -> 0 <= partial i < 2 ^ w.
Proof using All.
  intros Ho Hi H. destruct (decide (i = 0)) as [->|]; [|apply fits_unsigned, H; lia].
  destruct Hw as [-> | ->], op; done.
Qed.

Lemma wrap_fits : (forall v, fits v -> (if decide (w = 32) then wrap32 else (fun v => v)) v = v mod 2 ^ w).
Proof using All. intros v Hv%fits_unsigned. destruct Hw as [-> | ->]; cbn; [done|]. symmetry. by apply Z.mod_small. Qed.

(** The loops from zero. *)
Lemma zero_loop body :
  starts_at_zero op = true ->
  (forall i v, 0 <= i < n -> 0 <= v < 2 ^ w -> zget input i = Some v -> 0 <= partial i < 2 ^ w -> partial i <= i \/ op <> CountNonzero ->
     partial (i + 1) = lane_step op (partial i) v ->
     (body (partial i) i = Some (Next (partial (i + 1))) /\ fits (partial (i + 1))) \/
     (exists r, body (partial i) i = Some (Return r) /\ overflowed op r /\ ~ fits (partial (i + 1)))) ->
  exists f, for_loop body 0 (range 0 n) = Some f /\
    ((f = Next (partial n) /\ forall k, 0 < k <= n -> fits (partial k)) \/
     (exists r, f = Return r /\ overflowed op r /\ exists k, 0 < k <= n /\ ~ fits (partial k))).
Proof using All.
  intros Ho Hstep.
  destruct (reduce_loop w false op input out n ltac:(lia) Hin Hout partial 0 body) as (f & E & H); [lia | done | lia | |].
  - intros i Hi Hf. destruct (reduced_word_at i Hi) as (v & Hv & Hr & Hp). specialize (Hp ltac:(by left)).
    apply (Hstep i v); try done; [by apply running_range; [| lia |]|].
    destruct op; try (by right). left. unfold partial_value, reduce_value, zlen.
    etransitivity; [apply Nat2Z.inj_le, length_filter|]. rewrite length_take. lia.
  - exists f. split; [|done]. assert (partial 0 = 0) as E0 by (by destruct op). by rewrite E0 in E.
Qed.

Ltac pose_step Eo Ew Hp E2 :=
  match type of Ew with ?w = ?k => assert (2 ^ w = 2 ^ k) as E2 by (by rewrite Ew) end;
  rewrite (f_equal lane_step Eo) in Hp; cbn [lane_step] in Hp.

Lemma sum32 : op = Sum -> w = 32 -> reducing (ReferenceReduceSumU32 (Some input) (Some out) n).
Proof using All.
  intros Eo Ew. unfold ReferenceReduceSumU32. apply (reduce_call_spec w false op input out n ltac:(lia) Hin Hout); [intros v Hv; by rewrite <- wrap_fits, decide_True by done|].
  apply zero_loop; [by rewrite Eo|]. intros i v Hi Hv -> Hr _ Hp. cbn [mbind option_bind]. pose_step Eo Ew Hp E2.
  rewrite Checked.add_fits_spec by (unfold is_u64; lia). rewrite (proj2 (Z.leb_le _ _)) by lia. cbn [negb].
  rewrite wrap64_small by (unfold is_u64; lia). rewrite <- Hp, Z.gtb_ltb, ?fits_unsigned. destruct (Z.ltb_spec U32_MAX (partial (i + 1))).
  - right. eexists. split; [done|]. split; [by rewrite Eo|]. rewrite ?fits_unsigned. lia.
  - left. split; [done|]. lia.
Qed.

Lemma sum64 : op = Sum -> w = 64 -> reducing (ReferenceReduceSumU64 (Some input) (Some out) n).
Proof using All.
  intros Eo Ew. unfold ReferenceReduceSumU64. apply (reduce_call_spec w false op input out n ltac:(lia) Hin Hout); [intros v Hv; rewrite <- wrap_fits by done; by rewrite Ew|].
  apply zero_loop; [by rewrite Eo|]. intros i v Hi Hv -> Hr _ Hp. cbn [mbind option_bind]. pose_step Eo Ew Hp E2.
  rewrite Checked.add_fits_spec by (unfold is_u64; lia). rewrite <- Hp, ?fits_unsigned. destruct (Z.leb_spec (partial (i + 1)) U64_MAX); cbn [negb].
  - left. rewrite wrap64_small by (unfold is_u64; lia). split; [done|]. lia.
  - right. eexists. split; [done|]. split; [by rewrite Eo|]. rewrite ?fits_unsigned. lia.
Qed.

Lemma count32 : op = CountNonzero -> w = 32 -> reducing (ReferenceReduceCountNonzeroU32 (Some input) (Some out) n).
Proof using All.
  intros Eo Ew. unfold ReferenceReduceCountNonzeroU32. apply (reduce_call_spec w false op input out n ltac:(lia) Hin Hout); [intros v Hv; by rewrite <- wrap_fits, decide_True by done|].
  apply zero_loop; [by rewrite Eo|]. intros i v Hi Hv -> Hr _ Hp. cbn [mbind option_bind]. pose_step Eo Ew Hp E2.
  rewrite ?fits_unsigned. destruct (v =? 0); [left; rewrite Hp; split; [done | lia]|].
  rewrite wrap64_small by (unfold is_u64; lia). rewrite <- Hp, Z.gtb_ltb. destruct (Z.ltb_spec U32_MAX (partial (i + 1))).
  - right. eexists. split; [done|]. split; [by rewrite Eo|]. rewrite ?fits_unsigned. lia.
  - left. split; [done|]. lia.
Qed.

Lemma count64 : op = CountNonzero -> w = 64 -> reducing (ReferenceReduceCountNonzeroU64 (Some input) (Some out) n).
Proof using All.
  intros Eo Ew. unfold ReferenceReduceCountNonzeroU64. apply (reduce_call_spec w false op input out n ltac:(lia) Hin Hout); [intros v Hv; rewrite <- wrap_fits by done; by rewrite Ew|].
  apply zero_loop; [by rewrite Eo|]. intros i v Hi Hv -> Hr Hc Hp. cbn [mbind option_bind]. pose_step Eo Ew Hp E2.
  destruct Hc as [Hc | Hc]; [|by rewrite Eo in Hc]. rewrite fits_unsigned. left. destruct (v =? 0); [rewrite Hp; split; [done | lia]|].
  rewrite Checked.add_fits_spec by (unfold is_u64; lia). rewrite (proj2 (Z.leb_le _ _)) by lia. cbn [negb].
  rewrite wrap64_small by (unfold is_u64; lia). rewrite <- Hp. split; [done | lia].
Qed.

Lemma min_max (maximum : bool) : op = (if maximum then Max else Min) -> reducing (ReduceMinMax (Some input) (Some out) n maximum).
Proof using All.
  intros Eo. unfold ReduceMinMax. apply (reduce_call_spec w false op input out n ltac:(lia) Hin Hout).
  { intros v Hv%fits_unsigned. symmetry. by apply Z.mod_small. }
  destruct (reduced_word_at 0 ltac:(lia)) as (first & Hf & Hfr & _). rewrite Hf. cbn [mbind option_bind].
  assert (partial 1 = first) as E1.
  { rewrite (partial_first w false op input out n ltac:(lia) Hin Hout first Hf). rewrite Eo. destruct maximum; cbn; lia. }
  rewrite <- E1. apply (reduce_loop w false op input out n ltac:(lia) Hin Hout partial 1); [lia | done | |].
  { intros k Hk. replace k with 1 by lia. rewrite E1. by apply fits_unsigned. }
  intros i Hi Hfi. specialize (Hfi ltac:(lia)). destruct (reduced_word_at i ltac:(lia)) as (v & Hv & Hr & Hp). specialize (Hp ltac:(right; lia)).
  rewrite Hv. cbn [mbind option_bind]. left. rewrite Hp, (f_equal lane_step Eo). rewrite fits_unsigned in *.
  destruct maximum; cbn [andb orb negb lane_step].
  - rewrite orb_false_r, Z.gtb_ltb. destruct (Z.ltb_spec (partial i) v); split; repeat f_equal; lia.
  - destruct (Z.ltb_spec v (partial i)); split; repeat f_equal; lia.
Qed.
End unsigned.

(** ** The signed reductions *)
Lemma to_signed_fits w v : 0 < w -> lane_fits w true (to_signed w v).
Proof.
  intros Hw. unfold lane_fits, lane_min, lane_max, to_signed. pose proof (Z.mod_pos_bound (v + 2 ^ (w - 1)) (2 ^ w)) as H.
  replace w with (w - 1 + 1) in H by lia. rewrite pow2_succ in H by lia. pose proof (pow2_pos (w - 1)).
  replace (w - 1 + 1) with w in H by lia. replace (2 ^ w) with (2 * 2 ^ (w - 1)) by (rewrite <- pow2_succ by lia; f_equal; lia). lia.
Qed.

Section signed.
Context (w : Z) (op : ReduceOp) (input out : list Z) (n : Z).
Context (Hw : 0 < w) (Hop : valid op = true) (Hn : 0 < n) (Hin : n <= zlen input) (Hout : 0 < zlen out).

Abbreviation lanes := (lanes_of w true input n).
Abbreviation partial := (partial_value op lanes).
Abbreviation fits := (lane_fits w true).

Definition signed_start : Z := match op with Min => 2 ^ (w - 1) - 1 | Max => - 2 ^ (w - 1) | _ => 0 end.
Definition signed_acc (k : Z) : Z := if k =? 0 then signed_start else partial k.

Lemma add_overflow_spec a b : add_overflow w a b = false <-> fits (a + b).
Proof using All. unfold add_overflow, lane_fits, lane_min, lane_max. rewrite negb_false_iff, andb_true_iff, !Z.leb_le. lia. Qed.

Lemma start_fits : fits signed_start.
Proof using All. unfold signed_start, lane_fits, lane_min, lane_max. pose proof (pow2_pos (w - 1)). destruct op; lia. Qed.

Lemma signed_acc_next i word : 0 <= i < n -> zget input i = Some word -> signed_acc (i + 1) = lane_step op (signed_acc i) (to_signed w word).
Proof using All.
  intros Hi Hv. unfold signed_acc. rewrite (proj2 (Z.eqb_neq (i + 1) 0)) by lia. destruct (Z.eqb_spec i 0) as [->|Hne].
  - change (0 + 1) with 1. rewrite (partial_first w true op input out n Hn Hin Hout word Hv). pose proof (to_signed_fits w word Hw) as Hf.
    unfold lane_fits, lane_min, lane_max in Hf. unfold signed_start, lane_value. destruct op; cbn [lane_step]; lia.
  - apply (partial_next w true op input out n Hn Hin Hout i word Hi Hv). right. lia.
Qed.

Lemma ReferenceReduceSigned_spec : exists r, ReferenceReduceSigned w op (Some input) (Some out) n = Some r /\
  reduces w true op lanes out (check_of r).
Proof using All.
  unfold ReferenceReduceSigned. rewrite (proj2 (Z.eqb_neq n 0)) by lia. fold signed_start. change signed_start with (signed_acc 0).
  destruct (reduce_loop w true op input out n Hn Hin Hout signed_acc 0 (fun value index =>
    word ← zget input index; Some (signed_step w op n value (to_signed w word)))) as (f & -> & H).
  - lia.
  - intros k Hk. unfold signed_acc. by rewrite (proj2 (Z.eqb_neq k 0)) by lia.
  - lia.
  - intros i Hi Hf. assert (fits (signed_acc i)) as Ha.
    { destruct (decide (i = 0)) as [->|]; [apply start_fits | apply Hf; lia]. }
    destruct (lane_at w true op input out n Hn Hin Hout i Hi) as (word & Hv & _). rewrite (signed_acc_next i word Hi Hv), Hv. cbn [mbind option_bind].
    pose proof add_overflow_spec as Hspec. set (v := to_signed w word). pose proof (to_signed_fits w word Hw) as Hfv. fold v in Hfv. unfold signed_step.
    assert (forall b, add_overflow w (signed_acc i) b = true -> ~ fits (signed_acc i + b)) as Hov.
    { intros b Hb Hc. apply add_overflow_spec in Hc. congruence. }
    destruct op eqn:Eo; try done; cbn [lane_step].
    + destruct (add_overflow w (signed_acc i) v) eqn:E; [right; eexists; split; [done|]; split; [done | by apply Hov]|].
      left. split; [done | by apply Hspec].
    + destruct (v =? 0); cbn [negb andb]; [by left|].
      destruct (add_overflow w (signed_acc i) 1) eqn:E; [right; eexists; split; [done|]; split; [done | by apply Hov]|].
      left. split; [done | by apply Hspec].
    + left. unfold lane_fits in *. destruct (Z.ltb_spec v (signed_acc i)); split; repeat f_equal; lia.
    + left. unfold lane_fits in *. rewrite Z.gtb_ltb. destruct (Z.ltb_spec (signed_acc i) v); split; repeat f_equal; lia.
  - cbn [mbind option_bind]. destruct H as [[-> Hf] | (r & -> & Hr & Hk)]; cbn [after mbind option_bind].
    + rewrite zset_Some by lia. cbn [mbind option_bind]. eexists. split; [done|].
      apply (reduces_written w true op input out n Hn Hin Hout); [|done].
      unfold signed_acc. rewrite (proj2 (Z.eqb_neq n 0)) by lia. by rewrite (partial_all w true op input out n Hn Hin Hout).
    + eexists. split; [done|]. by apply (reduces_rejected w true op input out n Hn Hin Hout).
Qed.
End signed.

(** ** The tree of a plan

    [group_count n d] groups of [d] cover [n] elements; after [k] passes of [block_size]
    the tree of a Min or Max reduction has [tree_width] groups. *)
Definition group_count (n d : Z) : Z := (n + d - 1) / d.
Definition tree_width (block_size n k : Z) : Z := group_count n (block_size ^ k).

(** The least positive number of passes that leaves one group, and the groups between. *)
Record narrow_tree_of (block_size n passes partials : Z) : Prop := {
  tree_passes : 1 <= passes;
  tree_enough : n <= block_size ^ passes;
  tree_least : forall k, 0 < k < passes -> block_size ^ k < n;
  tree_partials : partials = foldr Z.add 0 (map (tree_width block_size n) (range 1 passes));
}.

Lemma group_count_pred n d : 0 < d -> group_count n d = (n - 1) / d + 1.
Proof. intros Hd. unfold group_count. replace (n + d - 1) with (n - 1 + 1 * d) by lia. by rewrite Z.div_add by lia. Qed.

Lemma group_count_pos n d : 0 < n -> 0 < d -> 1 <= group_count n d.
Proof. intros Hn Hd. rewrite group_count_pred by done. pose proof (Z.div_pos (n - 1) d). lia. Qed.

Lemma group_count_one n d : 0 < n -> 0 < d -> 1 < group_count n d <-> d < n.
Proof.
  intros Hn Hd. rewrite group_count_pred by done. pose proof (Z.div_mod (n - 1) d ltac:(lia)). pose proof (Z.mod_pos_bound (n - 1) d Hd).
  split; intros H1; nia.
Qed.

Lemma tree_width_next block_size n k : 0 < block_size -> 0 <= k ->
  group_count (tree_width block_size n k) block_size = tree_width block_size n (k + 1).
Proof.
  intros Hb Hk. unfold tree_width. assert (0 < block_size ^ k) by (by apply Z.pow_pos_nonneg).
  rewrite !group_count_pred by (done || (apply Z.pow_pos_nonneg; lia)).
  rewrite Z.pow_add_r, Z.pow_1_r by lia. rewrite <- Z.div_div by lia.
  by replace ((n - 1) / block_size ^ k + 1 - 1) with ((n - 1) / block_size ^ k) by lia.
Qed.

Section tree.
Context (block_size element_count : Z) (reject : Z -> Z -> ReducePlan).
Context (Hb : 1 < block_size \/ element_count = 1 /\ 0 < block_size) (Hn : 0 < element_count <= U64_MAX).

Abbreviation width := (tree_width block_size element_count).

(** After [pass_count] passes the groups still to reduce halve with every pass, so 64 passes
    are enough and the partials stored never reach [2^64]. *)
Definition tree_inv (st : Z * Z * Z) : Prop :=
  let '(current, pass_count, partial_count) := st in
  0 <= pass_count <= 64 /\ current = width pass_count /\ 1 <= current <= 2 ^ (64 - pass_count) /\ current <= element_count /\
  (forall k, 0 <= k < pass_count -> block_size ^ k < element_count) /\
  partial_count = foldr Z.add 0 (map width (range 1 (if current >? 1 then pass_count + 1 else pass_count))) /\
  0 <= partial_count /\ partial_count + 2 ^ (64 - pass_count) <= 2 ^ 64.

Lemma tree_start : tree_inv (element_count, 0, 0).
Proof using All.
  unfold tree_inv, tree_width. rewrite Z.pow_0_r, group_count_pred, Z.div_1_r by lia.
  change U64_MAX with (2 ^ 64 - 1) in Hn. destruct (element_count >? 1); cbn -[Z.pow]; repeat split; lia.
Qed.

Lemma partials_next k : 0 <= k -> foldr Z.add 0 (map width (range 1 (k + 1 + 1))) = foldr Z.add 0 (map width (range 1 (k + 1))) + width (k + 1).
Proof using Type. intros Hk. rewrite range_snoc, map_app by lia. apply foldr_add_snoc. Qed.

Lemma narrow_pass_spec st : tree_inv st -> (let '(current, _, _) := st in current >? 1) = true ->
  exists st', narrow_pass block_size reject st = Some (Next st') /\ tree_inv st' /\ st'.1.2 = st.1.2 + 1 /\ st.1.2 < 64.
Proof using All.
  destruct st as [[c p] q]. intros (Hp & Ec & Hc & Hcn & Hless & Eq & Hq & Hsum) Hgt. rewrite Hgt in Eq. rewrite Z.gtb_ltb in Hgt. apply Z.ltb_lt in Hgt.
  assert (p < 64) as Hp64 by (destruct (decide (p = 64)) as [->|]; [cbn in Hc |]; lia).
  assert (1 < element_count) as Hn1.
  { destruct (decide (element_count = 1)) as [E|]; [|lia]. unfold tree_width in Ec. rewrite E, group_count_pred in Ec by (apply Z.pow_pos_nonneg; lia).
    rewrite Z.div_0_l in Ec by (pose proof (Z.pow_pos_nonneg block_size p); lia). lia. }
  assert (2 ^ (64 - p) = 2 * 2 ^ (64 - (p + 1))) as E2 by (rewrite <- pow2_succ by lia; f_equal; lia).
  assert (2 ^ (64 - p) <= 2 ^ 64) as Hm by (apply Z.pow_le_mono_r; lia). change (2 ^ 64) with (U64_MAX + 1) in *.
  pose proof (pow2_pos (64 - (p + 1)) ltac:(lia)).
  unfold narrow_pass, ReduceGroupCount. rewrite Checked.ceil_spec by (unfold is_u64; lia). fold (group_count c block_size).
  rewrite wrap64_small by (unfold is_u64; lia). rewrite Ec, tree_width_next by lia.
  pose proof (group_count_pred c block_size ltac:(lia)) as E. rewrite Ec, tree_width_next, <- Ec in E by lia.
  assert ((c - 1) / block_size <= (c - 1) / 2) as Hdiv by (apply Z.div_le_compat_l; lia).
  pose proof (Z.div_pos (c - 1) block_size ltac:(lia) ltac:(lia)). pose proof (Z.div_mod (c - 1) 2 ltac:(lia)). pose proof (Z.mod_pos_bound (c - 1) 2 ltac:(lia)).
  assert (block_size ^ p < element_count) as Hlt.
  { apply (group_count_one element_count (block_size ^ p)); [lia | apply Z.pow_pos_nonneg; lia |]. fold (width p). lia. }
  assert (forall q', q' = foldr Z.add 0 (map width (range 1 (if width (p + 1) >? 1 then p + 1 + 1 else p + 1))) ->
    0 <= q' -> q' + 2 ^ (64 - (p + 1)) <= 2 ^ 64 -> tree_inv (width (p + 1), p + 1, q')) as Hinv.
  { intros q' ? ? ?. split; [lia|]. split; [done|]. split; [lia|]. split; [lia|]. split; [|by split].
    intros k Hk. destruct (decide (k = p)) as [->|]; [done | apply Hless; lia]. }
  destruct (Z.gtb_spec (width (p + 1)) 1) as [Hw|Hw].
  - rewrite Checked.add_fits_spec by (unfold is_u64; lia). rewrite (proj2 (Z.leb_le _ _)) by lia. cbn [negb].
    rewrite wrap64_small by (unfold is_u64; lia). eexists. split; [done|]. split; [|done]. apply Hinv; [|lia..].
    rewrite partials_next by lia. by rewrite <- Eq.
  - eexists. split; [done|]. split; [|done]. by apply Hinv; [|lia..].
Qed.

(** The tree never rejects. *)
Lemma narrow_tree_spec : exists current passes partials,
  narrow_tree block_size reject element_count = Some (Next (current, passes, partials)) /\
  narrow_tree_of block_size element_count (if passes =? 0 then 1 else passes) partials /\ is_u64 partials.
Proof using All.
  unfold narrow_tree.
  destruct (while_loop_safe tree_inv (fun _ => False) (fun st => 64 - st.1.2) (fun '(current_count, _, _) => current_count >? 1)
    (narrow_pass block_size reject) 65 (element_count, 0, 0)) as [(v & _ & []) | ([[c p] q] & E & Hinv & Hc)].
  - exact tree_start.
  - intros st Hinv Hc. destruct (narrow_pass_spec st Hinv) as (st' & E & Hinv' & E' & Hlt); [by destruct st as [[? ?] ?]|].
    right. exists st'. split; [done|]. split; [done|]. rewrite E'. lia.
  - cbn. lia.
  - exists c, p, q. split; [done|]. destruct Hinv as (Hp & Ec & Hc1 & _ & Hless & Eq & Hq & Hsum). rewrite Hc in Eq.
    rewrite Z.gtb_ltb in Hc. apply Z.ltb_ge in Hc. pose proof (pow2_pos (64 - p)).
    assert (element_count <= block_size ^ p) as Henough.
    { apply Z.nlt_ge. intros Hlt. apply (group_count_one element_count (block_size ^ p)) in Hlt; [| lia | apply Z.pow_pos_nonneg; lia].
      fold (width p) in Hlt. lia. }
    split; [|change U64_MAX with (2 ^ 64 - 1); unfold is_u64; change U64_MAX with (2 ^ 64 - 1); lia].
    destruct (Z.eqb_spec p 0) as [->|]; (constructor; [lia | | | done]).
    + rewrite Z.pow_0_r in Henough. rewrite Z.pow_1_r. lia.
    + lia.
    + done.
    + intros k Hk. apply Hless. lia.
Qed.
End tree.

(** ** The plan *)
(** The first check of a descriptor that fails. *)
Definition desc_failure (desc : ReduceDesc) : option string :=
  if negb (valid (d_op desc)) then Some "compute_reduce_op_unsupported"
  else if count_source_unsupported (d_count_source desc) then Some "compute_reduce_count_source_unsupported"
  else if ElementBytes (d_element desc) =? 0 then Some "compute_reduce_element_unsupported"
  else if d_element_count desc =? 0 then Some "compute_reduce_count_zero"
  else if negb (BlockSizeAdmitted (d_block_size desc) (d_element_count desc)) then Some "compute_reduce_block_invalid"
  else if d_block_size desc * (if ReduceUsesWidePartials (d_op desc) then kReduceItemsPerThread else 1) >? U64_MAX
  then Some "compute_reduce_temp_overflow"
  else None.

(** The groups of the first pass: at most 128 for a wide reduction. *)
Definition first_groups (desc : ReduceDesc) : Z :=
  if ReduceUsesWidePartials (d_op desc)
  then Z.min 128 (group_count (d_element_count desc) (d_block_size desc * kReduceItemsPerThread))
  else group_count (d_element_count desc) (d_block_size desc).

(** The passes and the partial results of a reduction. *)
Definition reduce_tree (desc : ReduceDesc) (passes partials : Z) : Prop :=
  if ReduceUsesWidePartials (d_op desc)
  then (passes, partials) = (if first_groups desc >? 1 then (2, first_groups desc) else (1, 0))
  else narrow_tree_of (d_block_size desc) (d_element_count desc) passes partials.

(** The plan of an accepted descriptor with those passes and partials. *)
Definition accepted_plan (desc : ReduceDesc) (passes partials : Z) : ReducePlan :=
  let wide := ReduceUsesWidePartials (d_op desc) in
  let partial_bytes := if wide then kReduceWideElementBytes else ElementBytes (d_element desc) in
  {| p_op := d_op desc; p_element := d_element desc; p_element_count := d_element_count desc;
     p_element_bytes := ElementBytes (d_element desc); p_block_size := d_block_size desc;
     items_per_thread := if wide then kReduceItemsPerThread else 1; first_pass_group_count := first_groups desc;
     p_pass_count := passes; partial_element_count := partials; partial_element_bytes := partial_bytes;
     p_partial_bytes := partials * partial_bytes; status_bytes := kStatusBytes;
     p_temp_bytes := partials * partial_bytes + kStatusBytes; p_count_source := d_count_source desc; p_ok := true; p_reason := "ok" |}.

(** The outcome of the sizes of a plan. *)
Definition sized_plan (desc : ReduceDesc) (passes partials : Z) (plan : ReducePlan) : Prop :=
  if p_temp_bytes (accepted_plan desc passes partials) <=? U64_MAX then plan = accepted_plan desc passes partials
  else p_ok plan = false /\ p_reason plan = "compute_reduce_temp_overflow".

Lemma ElementBytes_range element : 0 <= ElementBytes element <= 8.
Proof. destruct element; cbn; lia. Qed.

Lemma finish_plan_sized desc passes partials :
  is_u64 partials ->
  let wide := ReduceUsesWidePartials (d_op desc) in
  sized_plan desc passes partials
    (finish_plan desc (ElementBytes (d_element desc)) (if wide then kReduceItemsPerThread else 1) (first_groups desc)
       (if wide then kReduceWideElementBytes else ElementBytes (d_element desc)) passes partials).
Proof.
  intros Hp wide. unfold sized_plan, accepted_plan. fold wide. cbn [p_temp_bytes]. unfold finish_plan.
  pose proof (ElementBytes_range (d_element desc)). set (bytes := if wide then _ else _).
  assert (0 <= bytes <= 16) as Hb by (unfold bytes, kReduceWideElementBytes; destruct wide; lia). clearbody bytes. unfold is_u64, kStatusBytes in *.
  rewrite Checked.mul_fits_spec by (unfold is_u64; lia). destruct (Z.leb_spec (partials * bytes) U64_MAX); cbn [negb].
  2: { rewrite (proj2 (Z.leb_gt _ _)) by lia. done. }
  rewrite wrap64_small by (unfold is_u64; nia). rewrite Checked.add_fits_spec by (unfold is_u64; nia).
  destruct (Z.leb_spec (partials * bytes + 4) U64_MAX); cbn [negb]; [|done].
  rewrite wrap64_small by (unfold is_u64; nia). done.
Qed.

Lemma PlanReduce_run desc :
  is_u64 (d_element_count desc) -> is_u64 (d_block_size desc) ->
  exists plan, PlanReduce desc = Some plan /\
    match desc_failure desc with
    | Some reason => p_ok plan = false /\ p_reason plan = reason
    | None => exists passes partials, reduce_tree desc passes partials /\ sized_plan desc passes partials plan
    end.
Proof.
  intros Hn Hb. unfold PlanReduce, desc_failure.
  destruct (valid (d_op desc)) eqn:Ev; cbn [negb]; [|by eexists].
  destruct (count_source_unsupported _); [by eexists|].
  destruct (Z.eqb_spec (ElementBytes (d_element desc)) 0); [by eexists|].
  destruct (Z.eqb_spec (d_element_count desc) 0); [by eexists|]. unfold is_u64 in Hn, Hb.
  destruct (BlockSizeAdmitted _ _) eqn:Eb; cbn [negb]; [|by eexists].
  assert (1 < d_block_size desc \/ d_element_count desc = 1 /\ 0 < d_block_size desc) as Hb1.
  { unfold BlockSizeAdmitted in Eb. apply andb_prop in Eb as [Eb1 Eb2]. rewrite negb_andb in Eb2. apply orb_prop in Eb2. to_prop.
    destruct Eb2; to_prop; lia. }
  set (wide := ReduceUsesWidePartials (d_op desc)).
  set (items := if wide then kReduceItemsPerThread else 1).
  assert (1 <= items <= 8) as Hi by (unfold items, kReduceItemsPerThread; destruct wide; lia).
  rewrite Checked.mul_fits_spec by (unfold is_u64; lia). rewrite (Z.gtb_ltb (d_block_size desc * items)), Z.leb_antisym.
  destruct (Z.ltb_spec U64_MAX (d_block_size desc * items)); cbn [negb]; [by eexists|].
  rewrite wrap64_small by (unfold is_u64; nia). unfold ReduceGroupCount.
  rewrite Checked.ceil_spec by (unfold is_u64; nia). fold (group_count (d_element_count desc) (d_block_size desc * items)).
  assert ((if wide && (group_count (d_element_count desc) (d_block_size desc * items) >? kReduceFirstPassMaxGroups) then kReduceFirstPassMaxGroups
    else group_count (d_element_count desc) (d_block_size desc * items)) = first_groups desc) as ->.
  { unfold first_groups, items. fold wide. unfold kReduceFirstPassMaxGroups, kReduceItemsPerThread. destruct wide; cbn [andb].
    - destruct (Z.gtb_spec (group_count (d_element_count desc) (d_block_size desc * 8)) 128); lia.
    - by rewrite Z.mul_1_r. }
  unfold reduce_tree. fold wide. unfold items. destruct wide eqn:Ew.
  - assert (1 <= first_groups desc <= 128) as Hf.
    { unfold first_groups. fold wide. rewrite Ew. pose proof (group_count_pos (d_element_count desc) (d_block_size desc * kReduceItemsPerThread)).
      unfold kReduceItemsPerThread in *. lia. }
    eexists. split; [done|]. exists (if first_groups desc >? 1 then 2 else 1), (if first_groups desc >? 1 then first_groups desc else 0). split.
    + destruct (first_groups desc >? 1); reflexivity.
    + pose proof (finish_plan_sized desc) as Hfin. fold wide in Hfin. rewrite Ew in Hfin. apply Hfin.
      destruct (first_groups desc >? 1); unfold is_u64; lia.
  - edestruct (narrow_tree_spec (d_block_size desc) (d_element_count desc)) as (c & p & q & Et & Htree & Hq); [exact Hb1 | lia |].
    rewrite Et. cbn [after mbind option_bind]. eexists. split; [done|]. exists (if p =? 0 then 1 else p), q. split; [done|].
    pose proof (finish_plan_sized desc) as Hfin. fold wide in Hfin. rewrite Ew in Hfin. by apply Hfin.
Qed.

(** What an accepted plan says of its descriptor. *)
Lemma PlanReduce_accepted desc plan :
  PlanReduce desc = Some plan -> p_ok plan = true -> is_u64 (d_element_count desc) -> is_u64 (d_block_size desc) ->
  p_element plan = d_element desc /\ p_element_count plan = d_element_count desc /\ 0 < d_element_count desc /\
  valid (d_op desc) = true.
Proof.
  intros E Hok Hn Hb. destruct (PlanReduce_run desc Hn Hb) as (plan' & E' & H). rewrite E in E'. injection E' as <-.
  assert (forall reason, desc_failure desc <> Some reason) as Hnone by (intros reason Er; rewrite Er in H; destruct H; congruence).
  destruct (desc_failure desc) as [reason|] eqn:Ef; [by destruct (Hnone reason)|]. destruct H as (passes & partials & _ & Hs).
  assert (valid (d_op desc) = true /\ d_element_count desc <> 0) as [Hv H0].
  { unfold desc_failure in Ef. destruct (valid (d_op desc)); [|done]. destruct (Z.eqb_spec (d_element_count desc) 0) as [E0|]; [|done].
    cbn [negb] in Ef. by destruct (count_source_unsupported (d_count_source desc)), (ElementBytes (d_element desc) =? 0). }
  unfold sized_plan in Hs. case_match; [|destruct Hs; congruence]. subst plan. cbn. unfold is_u64 in Hn. split; [done|]. split; [done|]. split; [lia | done].
Qed.

(** C21: [PlanReduce] always returns a plan. A descriptor that fails a check yields a
    rejected plan with the reason of the first failing one. Otherwise a Sum or CountNonzero
    has [min 128 ceil(n / (8 * block))] groups and, when they are more than one, a second
    pass over one partial each; a Min or Max has the least positive number of passes [p]
    with [n <= block^p] and stores [ceil(n / block^k)] partials after each pass [k < p].
    The plan is accepted with exactly that tree and its scratch bytes when they fit 64 bits
    and is rejected with compute_reduce_temp_overflow when they do not. *)
Theorem PlanReduce_terminates desc :
  is_u64 (d_element_count desc) -> is_u64 (d_block_size desc) ->
  exists plan, PlanReduce desc = Some plan /\
    match desc_failure desc with
    | Some reason => p_ok plan = false /\ p_reason plan = reason
    | None => exists passes partials, reduce_tree desc passes partials /\ sized_plan desc passes partials plan
    end.
Proof. apply PlanReduce_run. Qed.

Lemma PlanReduce_terminates_witness :
  let desc := {| d_op := Max; d_element := ReduceU64; d_element_count := 1000; d_block_size := 8; d_count_source := Descriptor |} in
  exists plan, PlanReduce desc = Some plan /\
    match desc_failure desc with
    | Some reason => p_ok plan = false /\ p_reason plan = reason
    | None => exists passes partials, reduce_tree desc passes partials /\ sized_plan desc passes partials plan
    end.
Proof. intros desc. apply PlanReduce_terminates; vm_compute; split; discriminate. Defined.

Example narrow_tree_example :
  option_map (fun plan => (p_ok plan, p_pass_count plan, partial_element_count plan))
    (PlanReduce {| d_op := Max; d_element := ReduceU64; d_element_count := 1000; d_block_size := 8; d_count_source := Descriptor |}) =
  Some (true, 4, 143).
Proof. reflexivity. Qed.

(** The reduction in the order of the lanes: the first prefix that does not fit fails it. *)
Lemma cpu_reduce_runs desc plan is_signed input out :
  PlanReduce desc = Some plan -> p_ok plan = true -> is_u64 (d_element_count desc) -> is_u64 (d_block_size desc) ->
  p_element_count plan <= zlen input -> 0 < zlen out -> Forall (fun v => 0 <= v < 2 ^ lane_width plan) input ->
  exists r, run_cpu_reduce (d_op desc) plan is_signed (Some input) (Some out) = Some r /\
    reduces (lane_width plan) is_signed (d_op desc) (lanes_of (lane_width plan) is_signed input (p_element_count plan)) out r.
Proof.
  intros E Hok Hn Hb Hin Hout Hwords. destruct (PlanReduce_accepted desc plan E Hok Hn Hb) as (Eel & Ecount & H0 & Hop). clear E.
  unfold run_cpu_reduce. set (n := p_element_count plan) in *. set (op := d_op desc) in *.
  assert (0 < n <= U64_MAX) as Hn' by (unfold is_u64 in Hn; lia).
  assert ((if bool_decide (p_element plan = ReduceU32) then 32 else 64) = lane_width plan) as -> by done.
  assert (lane_width plan = 32 \/ lane_width plan = 64) as Hw by (unfold lane_width; case_bool_decide; tauto).
  assert (bool_decide (p_element plan = ReduceU32) = true <-> lane_width plan = 32) as Hb32.
  { unfold lane_width. case_bool_decide; split; done. }
  set (w := lane_width plan) in *. clearbody w n op. destruct is_signed.
  - destruct (ReferenceReduceSigned_spec w op input out n ltac:(lia) Hop ltac:(lia) Hin Hout) as (r & -> & Hr). cbn. by eexists.
  - destruct (bool_decide (p_element plan = ReduceU32)).
    + assert (w = 32) as Ew by by apply Hb32.
      assert (exists r, ReferenceReduceU32 op (Some input) (Some out) n = Some r /\ reduces w false op (lanes_of w false input n) out (check_of r)) as (r & -> & Hr).
      { unfold ReferenceReduceU32. destruct op eqn:Eo; try done.
        - by apply sum32. - by apply count32. - by apply min_max. - by apply min_max. }
      cbn. by eexists.
    + assert (w = 64) as Ew by (destruct Hw as [Hw|]; [by apply Hb32 in Hw | done]).
      assert (exists r, ReferenceReduceU64 op (Some input) (Some out) n = Some r /\ reduces w false op (lanes_of w false input n) out (check_of r)) as (r & -> & Hr).
      { unfold ReferenceReduceU64. destruct op eqn:Eo; try done.
        - by apply sum64. - by apply count64. - by apply min_max. - by apply min_max. }
      cbn. by eexists.
Qed.

(** ** The exact value decides

    A value that fits the lane has only fitting prefixes, but for signed sums. *)
Lemma lane_value_fits w is_signed v : 0 < w -> 0 <= v < 2 ^ w -> lane_fits w is_signed (lane_value w is_signed v).
Proof. intros Hw Hv. destruct is_signed; [by apply to_signed_fits|]. unfold lane_fits, lane_value, lane_min, lane_max. lia. Qed.

Lemma foldl_choice (f : Z -> Z -> Z) (P : Z -> Prop) l x : (forall a b, f a b = a \/ f a b = b) -> P x -> Forall P l -> P (foldl f x l).
Proof.
  intros Hf Hx Hl. revert x Hx. induction Hl as [|y l Hy Hl IH]; intros x Hx; [done|]. cbn. apply IH. by destruct (Hf x y) as [-> | ->].
Qed.

Lemma partial_fits w is_signed op lanes k :
  0 < w -> Forall (lane_fits w is_signed) lanes -> is_signed = false \/ op <> Sum -> valid op = true -> 0 < k <= zlen lanes ->
  lane_fits w is_signed (reduce_value op lanes) -> lane_fits w is_signed (partial_value op lanes k).
Proof.
  intros Hw Hl Ho Hv Hk Hfit. unfold partial_value. set (t := take (Z.to_nat k) lanes).
  assert (lanes = t ++ drop (Z.to_nat k) lanes) as E by (symmetry; apply take_drop). set (d := drop (Z.to_nat k) lanes) in *.
  assert (Forall (lane_fits w is_signed) t) as Ht by (rewrite E in Hl; by apply Forall_app in Hl as [? _]).
  assert (t <> []) as Hne by (intros E0; apply (f_equal zlen) in E0; unfold t, zlen in *; rewrite length_take in E0; cbn in E0; lia).
  pose proof (pow2_pos (w - 1) ltac:(lia)) as Hpos. destruct op; try done; cbn [reduce_value] in *.
  - destruct Ho as [-> |]; [|done].
    assert (Forall (fun v => 0 <= v) lanes) as Hnn by (eapply Forall_impl; [exact Hl | unfold lane_fits; cbn; lia]).
    pose proof (prefix_sum_mono lanes k (zlen lanes) Hnn ltac:(lia)) as Hmono. unfold prefix_sum in Hmono. fold t in Hmono.
    rewrite (take_ge lanes) in Hmono by (unfold zlen; lia). unfold lane_fits, lane_min in *. lia.
  - rewrite E, filter_app, zlen_app in Hfit. pose proof (zlen_nonneg (filter (fun v => v <> 0) t)). pose proof (zlen_nonneg (filter (fun v => v <> 0) d)).
    unfold lane_fits, lane_min in *. destruct is_signed; lia.
  - clearbody t. destruct Ht as [|x t Hx Ht]; [done|]. apply foldl_choice; [intros; lia | done..].
  - clearbody t. destruct Ht as [|x t Hx Ht]; [done|]. apply foldl_choice; [intros; lia | done..].
Qed.

(** What the contract asks of a reduction: the exact value when it fits the lane. *)
Definition exact_reduction (w : Z) (is_signed : bool) (op : ReduceOp) (lanes out : list Z) : AccelCheck * buffer :=
  let value := reduce_value op lanes in
  if (lane_min w is_signed <=? value) && (value <=? lane_max w is_signed)
  then (accel_ok, Some (<[0%nat := value mod 2 ^ w]> out))
  else (accel_fail (overflow_reason op), Some out).

Lemma reduces_exact w is_signed op lanes out r :
  0 < w -> 0 < zlen lanes -> reduces w is_signed op lanes out r ->
  (lane_fits w is_signed (reduce_value op lanes) -> forall k, 0 < k <= zlen lanes -> lane_fits w is_signed (partial_value op lanes k)) ->
  r = exact_reduction w is_signed op lanes out.
Proof.
  intros Hw Hn Hr Hex. unfold exact_reduction. set (b := _ && _).
  assert (b = true <-> lane_fits w is_signed (reduce_value op lanes)) as Hb by (unfold b, lane_fits; rewrite andb_true_iff, !Z.leb_le; lia).
  assert (partial_value op lanes (zlen lanes) = reduce_value op lanes) as Eall by (unfold partial_value; rewrite take_ge; [done | unfold zlen; lia]).
  destruct Hr as [[Hf ->] | [(k & Hk & Hf) ->]].
  - rewrite (proj2 Hb); [done|]. rewrite <- Eall. apply Hf. lia.
  - destruct b; [|done]. exfalso. apply Hf, Hex; [by apply Hb | done].
Qed.

(** C20: Under an accepted plan whose count is the descriptor's, the CPU reduction of [n]
    lanes writes the exact Sum, CountNonzero, Min or Max of the signed or unsigned lanes to
    the first word of the output when that value fits the lane, and otherwise fails with the
    overflow reason of the operation and writes nothing. A signed Sum is stated for inputs
    with no prefix that overflows although the whole sum fits; the code rejects those
    (see the example below). *)
Theorem cpu_reduce_spec desc plan is_signed input out :
  let w := lane_width plan in
  let lanes := lanes_of w is_signed input (p_element_count plan) in
  PlanReduce desc = Some plan -> p_ok plan = true -> is_u64 (d_element_count desc) -> is_u64 (d_block_size desc) ->
  d_count_source desc = Descriptor ->
  p_element_count plan <= zlen input -> 0 < zlen out -> Forall (fun v => 0 <= v < 2 ^ w) input ->
  (is_signed = true -> d_op desc = Sum -> lane_fits w is_signed (reduce_value Sum lanes) ->
     forall k, 0 < k <= zlen lanes -> lane_fits w is_signed (partial_value Sum lanes k)) ->
  run_cpu_reduce (d_op desc) plan is_signed (Some input) (Some out) = Some (exact_reduction w is_signed (d_op desc) lanes out).
Proof.
  intros w lanes E Hok Hn Hb _ Hin Hout Hwords Hsum. destruct (PlanReduce_accepted desc plan E Hok Hn Hb) as (_ & Ecount & H0 & Hop).
  destruct (cpu_reduce_runs desc plan is_signed input out) as (r & -> & Hr); [done..|]. f_equal. fold w lanes in Hr.
  assert (0 < w) as Hw by (unfold w, lane_width; case_bool_decide; lia).
  assert (zlen lanes = p_element_count plan) as El by (unfold lanes, lanes_of; rewrite zlen_map; unfold zlen in *; rewrite length_take; lia).
  apply reduces_exact; [done | lia | done |]. intros Hfit k Hk.
  destruct (decide (is_signed = true /\ d_op desc = Sum)) as [[Es Eo]|Hne].
  - rewrite Eo in *. by apply Hsum.
  - apply partial_fits; try done.
    + unfold lanes, lanes_of. apply Forall_map. apply Forall_take. eapply Forall_impl; [exact Hwords|]. intros v Hv. by apply lane_value_fits.
    + destruct is_signed; [right | by left]. intros Eo. by apply Hne.
Qed.

Definition sum_desc (count : Z) : ReduceDesc :=
  {| d_op := Sum; d_element := ReduceU32; d_element_count := count; d_block_size := 256; d_count_source := Descriptor |}.

(** The signed sum of [5, -7, 3] is [1]. *)
Lemma cpu_reduce_spec_witness :
  exists plan, PlanReduce (sum_desc 3) = Some plan /\
  run_cpu_reduce Sum plan true (Some [5; 4294967289; 3]) (Some [0]) =
    Some (exact_reduction (lane_width plan) true Sum (lanes_of (lane_width plan) true [5; 4294967289; 3] (p_element_count plan)) [0]).
Proof.
  eexists. split; [reflexivity|]. apply (cpu_reduce_spec (sum_desc 3)).
  - reflexivity.
  - reflexivity.
  - vm_compute. split; discriminate.
  - vm_compute. split; discriminate.
  - reflexivity.
  - vm_compute. discriminate.
  - vm_compute. reflexivity.
  - repeat constructor; vm_compute; (discriminate || reflexivity).
  - intros _ _ _ k Hk. assert (0 < k <= 3) as Hk3 by exact Hk. assert (k = 1 \/ k = 2 \/ k = 3) as [-> | [-> | ->]] by (clear Hk; lia);
      vm_compute; split; discriminate.
Defined.

(** The signed CPU sum rejects an input whose exact sum fits the lane: it fails on
    [2^31 - 1, 1, -2], though the contract checks only the exact final sum, and the same
    sum in another order succeeds. *)
Example signed_sum_rejects_exact_sum :
  exists plan, PlanReduce (sum_desc 3) = Some plan /\ p_ok plan = true /\
    reduce_value Sum (lanes_of 32 true [2147483647; 1; 4294967294] 3) = 2147483646 /\
    lane_fits 32 true 2147483646 /\
    run_cpu_reduce Sum plan true (Some [2147483647; 1; 4294967294]) (Some [0]) =
      Some (accel_fail "compute_reduce_sum_overflow", Some [0]) /\
    run_cpu_reduce Sum plan true (Some [2147483647; 4294967294; 1]) (Some [0]) = Some (accel_ok, Some [2147483646]).
Proof.
  eexists. split; [reflexivity|]. split; [reflexivity|]. split; [reflexivity|].
  split; [vm_compute; split; discriminate|]. by split.
Qed.
