(* ===== verification/PrimCompact.v ===== *)
(** * PrimCompact: the compact and partition primitives

    [program/compute/compact/{model,plan,reference}.hpp] and
    [program/compute/partition/{model,plan,reference}.hpp] of the kernel, run by
    [accel/cpu/{compact,partition}.cpp] and [accel/cpu/partition/run.hpp]. *)
From stdpp Require Import base numbers list option strings.
From Stdlib Require Import ZArith Lia.
From S2P Require Import Prelude Checked BucketSort Primitives.

Module Compact.
Record CompactDesc := { d_element_count : Z; d_output_capacity : Z; d_flag_bytes : Z; d_output_bytes : Z }.
Record CompactPlan := {
  p_element_count : Z; p_output_capacity : Z; p_flag_bytes : Z; p_output_bytes : Z; scan_temp_bytes : Z;
  p_status_bytes : Z; p_temp_bytes : Z; p_pass_count : Z; p_ok : bool; p_reason : string;
}.
Record CompactResult := { r_element_count : Z; r_output_count : Z; r_ok : bool; r_reason : string }.

Definition RejectCompact (desc : CompactDesc) (flag_bytes output_bytes scan_temp_bytes status_bytes temp_bytes : Z) (reason : string) : CompactPlan :=
  {| p_element_count := d_element_count desc; p_output_capacity := d_output_capacity desc; p_flag_bytes := flag_bytes;
     p_output_bytes := output_bytes; scan_temp_bytes := scan_temp_bytes; p_status_bytes := status_bytes;
     p_temp_bytes := temp_bytes; p_pass_count := 0; p_ok := false; p_reason := reason |}.

Definition PlanCompact (desc : CompactDesc) : CompactPlan :=
  let reject := RejectCompact desc (d_flag_bytes desc) (d_output_bytes desc) in
  if negb (d_flag_bytes desc =? 4) || negb (d_output_bytes desc =? 4) then reject 0 0 0 "compute_compact_invalid" else
  if d_element_count desc =? 0 then reject 0 0 0 "compute_compact_count_zero" else
  if d_output_capacity desc =? 0 then reject 0 0 0 "compute_compact_capacity_zero" else
  let status_bytes := if d_output_capacity desc <? d_element_count desc then 4 else 0 in
  if negb (Checked.mul_fits (d_element_count desc) (d_flag_bytes desc)) then reject 0 status_bytes 0 "compute_compact_temp_overflow" else
  let scan_temp_bytes := wrap64 (d_element_count desc * d_flag_bytes desc) in
  if negb (Checked.add_fits scan_temp_bytes status_bytes) then reject scan_temp_bytes status_bytes 0 "compute_compact_temp_overflow" else
  {| p_element_count := d_element_count desc; p_output_capacity := d_output_capacity desc; p_flag_bytes := d_flag_bytes desc;
     p_output_bytes := d_output_bytes desc; scan_temp_bytes := scan_temp_bytes; p_status_bytes := status_bytes;
     p_temp_bytes := wrap64 (scan_temp_bytes + status_bytes); p_pass_count := 2; p_ok := true; p_reason := "ok" |}.

Definition CompactReject (element_count output_count : Z) (reason : string) : CompactResult :=
  {| r_element_count := element_count; r_output_count := output_count; r_ok := false; r_reason := reason |}.

(** [output_count] is an out-parameter, null when [None]. *)
Definition ReferenceCompactIdsU32 (flags : buffer) (count capacity : Z) (output : buffer) (output_count : option Z)
    : option (CompactResult * buffer * option Z) :=
  if count =? 0 then Some (CompactReject 0 0 "compute_compact_count_zero", output, option_map (fun _ => 0) output_count) else
  if capacity =? 0 then Some (CompactReject count 0 "compute_compact_capacity_zero", output, option_map (fun _ => 0) output_count) else
  match flags, output, output_count with
  | Some flags, Some out, Some _ =>
      after (for_loop (fun '(out, selected_count) index =>
          flag ← zget flags index;
          if flag =? 0 then Some (Next (out, selected_count)) else
          if index >? U32_MAX
          then Some (Return (CompactReject count selected_count "compute_compact_temp_overflow", Some out, Some selected_count)) else
          if selected_count >=? capacity
          then Some (Return (CompactReject count selected_count "compute_compact_capacity_insufficient", Some out, Some selected_count)) else
          out ← zset out selected_count (wrap32 index);
          Some (Next (out, wrap64 (selected_count + 1)))) (out, 0) (range 0 count))
        (fun '(out, selected_count) =>
          Some ({| r_element_count := count; r_output_count := selected_count; r_ok := true; r_reason := "ok" |},
                Some out, Some selected_count))
  | _, _, _ => Some (CompactReject count 0 "compute_compact_buffer_invalid", output, output_count)
  end.

(** ** What compaction computes *)
Definition selected (flags : list Z) (n : Z) : list Z := filter (fun i => zget flags i <> Some 0) (range 0 n).

Lemma selected_step flags i flag : 0 <= i -> zget flags i = Some flag ->
  selected flags (i + 1) = selected flags i ++ (if flag =? 0 then [] else [i]).
Proof.
  intros Hi Hf. unfold selected. rewrite range_snoc, filter_app by done. f_equal. rewrite filter_cons, filter_nil, Hf.
  destruct (Z.eqb_spec flag 0) as [->|Hne]; [rewrite decide_False by (intros H; by apply H) | rewrite decide_True by congruence]; done.
Qed.

Lemma zlen_selected flags i : 0 <= i -> 0 <= zlen (selected flags i) <= i.
Proof.
  intros Hi. unfold selected, zlen. pose proof (length_filter (fun i => zget flags i <> Some 0) (range 0 i)) as H.
  rewrite length_range in H. lia.
Qed.

Lemma selected_elem flags n i : i ∈ selected flags n <-> 0 <= i < n /\ zget flags i <> Some 0.
Proof. unfold selected. rewrite list_elem_of_filter, elem_of_range. tauto. Qed.

(** The first [k] elements of [out] replaced by those of [l]. *)
Definition overwritten (l out : list Z) : list Z := l ++ drop (length l) out.

Lemma overwritten_step l out x : zlen l < zlen out -> zset (overwritten l out) (zlen l) x = Some (overwritten (l ++ [x]) out).
Proof.
  intros H. unfold overwritten, zlen in *. destruct (lookup_lt_is_Some_2 out (length l)) as [y Hy]; [lia|].
  rewrite (drop_S out y (length l) Hy). fold (zlen l). rewrite zset_app_mid by done. rewrite length_app, <- app_assoc. do 2 f_equal.
  cbn. by rewrite Nat.add_1_r.
Qed.

(** C36: For a count up to 2^32, a positive capacity and buffers that hold them, compaction
    writes the indices of the nonzero flags in ascending order and their number when they fit the capacity; otherwise it fails with
    compute_compact_capacity_insufficient, having written the first [capacity] of them. *)
Theorem ReferenceCompactIdsU32_spec flags n capacity out output_count :
  0 < n <= U32_MAX + 1 -> 0 < capacity <= U64_MAX -> n <= zlen flags -> capacity <= zlen out ->
  ReferenceCompactIdsU32 (Some flags) n capacity (Some out) (Some output_count) =
    Some (let ids := selected flags n in
      if zlen ids <=? capacity
      then ({| r_element_count := n; r_output_count := zlen ids; r_ok := true; r_reason := "ok" |}, Some (overwritten ids out), Some (zlen ids))
      else (CompactReject n capacity "compute_compact_capacity_insufficient", Some (overwritten (take (Z.to_nat capacity) ids) out), Some capacity)).
Proof.
  intros Hn Hc Hf Ho. unfold ReferenceCompactIdsU32. rewrite (proj2 (Z.eqb_neq n 0)), (proj2 (Z.eqb_neq capacity 0)) by lia.
  set (fail := (CompactReject n capacity "compute_compact_capacity_insufficient", Some (overwritten (take (Z.to_nat capacity) (selected flags n)) out), Some capacity)).
  edestruct (for_range_safe (fun i st => st = (overwritten (selected flags i) out, zlen (selected flags i)) /\ zlen (selected flags i) <= capacity)
    (fun r => r = fail /\ capacity < zlen (selected flags n))) as [(r & E & Er & Hlt) | (st & E & -> & Hle)]; cycle -2.
  - rewrite E. cbn [after mbind option_bind]. subst r. cbv zeta. by rewrite (proj2 (Z.leb_gt _ _)).
  - rewrite E. cbn [after mbind option_bind]. cbv zeta. by rewrite (proj2 (Z.leb_le _ _)).
  - lia.
  - split; [done|]. change (zlen (selected flags 0)) with 0. lia.
  - intros i [o m] Hi [Eo Hm]. injection Eo as -> ->. destruct (zget_is_Some flags i) as [flag Ef]; [lia|].
    rewrite Ef. cbn [mbind option_bind]. pose proof (selected_step flags i flag ltac:(lia) Ef) as Es.
    pose proof (zlen_selected flags i ltac:(lia)).
    destruct (Z.eqb_spec flag 0) as [->|Hne].
    + rewrite app_nil_r in Es. right. eexists. split; [done|]. by rewrite Es.
    + rewrite Z.gtb_ltb, (proj2 (Z.ltb_ge U32_MAX i)) by lia.
      rewrite Z.geb_leb. destruct (Z.leb_spec capacity (zlen (selected flags i))).
      * assert (zlen (selected flags i) = capacity) as Ecap by lia. left. eexists. split; [done|].
        assert (exists rest, selected flags n = selected flags i ++ i :: rest) as [rest Er].
        { unfold selected. rewrite (range_app 0 i n), (range_cons i n) by lia. rewrite filter_app, filter_cons, decide_True by congruence. by eexists. }
        split; [|rewrite Er, zlen_app, zlen_cons; pose proof (zlen_nonneg rest); lia].
        unfold fail. rewrite Er. assert (Z.to_nat capacity = length (selected flags i)) as -> by (unfold zlen in Ecap; lia).
        rewrite take_app_length. by rewrite Ecap.
      * rewrite overwritten_step by lia. cbn [mbind option_bind]. right. eexists. split; [done|].
        rewrite wrap32_small, wrap64_small by (unfold is_u32, is_u64; lia). rewrite Es, zlen_app. split; [done|].
        change (zlen [i]) with 1. lia.
Qed.

Lemma ReferenceCompactIdsU32_spec_witness :
  ReferenceCompactIdsU32 (Some [1; 0; 3; 9]) 4 2 (Some [0; 0]) (Some 0) =
    Some (CompactReject 4 2 "compute_compact_capacity_insufficient", Some [0; 2], Some 2).
Proof. apply (ReferenceCompactIdsU32_spec [1; 0; 3; 9] 4 2 [0; 0] 0); vm_compute; (done || by split). Defined.
End Compact.

Module Partition.
Record PartitionDesc := { d_element_count : Z; d_flag_bytes : Z; d_value_bytes : Z }.
Record PartitionPlan := {
  p_element_count : Z; p_flag_bytes : Z; p_value_bytes : Z; scan_temp_bytes : Z; p_temp_bytes : Z; p_pass_count : Z;
  p_ok : bool; p_reason : string;
}.
Record PartitionResult := { r_element_count : Z; r_false_count : Z; r_true_count : Z; r_ok : bool; r_reason : string }.

Definition RejectPartition (desc : PartitionDesc) (flag_bytes value_bytes scan_temp_bytes temp_bytes : Z) (reason : string) : PartitionPlan :=
  {| p_element_count := d_element_count desc; p_flag_bytes := flag_bytes; p_value_bytes := value_bytes;
     scan_temp_bytes := scan_temp_bytes; p_temp_bytes := temp_bytes; p_pass_count := 0; p_ok := false; p_reason := reason |}.

Definition PlanPartition (desc : PartitionDesc) : PartitionPlan :=
  let reject := RejectPartition desc (d_flag_bytes desc) (d_value_bytes desc) 0 0 in
  if (negb (d_flag_bytes desc =? 4) && negb (d_flag_bytes desc =? 8)) || (negb (d_value_bytes desc =? 4) && negb (d_value_bytes desc =? 8))
  then reject "compute_partition_invalid" else
  if d_element_count desc =? 0 then reject "compute_partition_count_zero" else
  if negb (Checked.mul_fits (d_element_count desc) 4) then reject "compute_partition_temp_overflow" else
  let scan_temp_bytes := wrap64 (d_element_count desc * 4) in
  {| p_element_count := d_element_count desc; p_flag_bytes := d_flag_bytes desc; p_value_bytes := d_value_bytes desc;
     scan_temp_bytes := scan_temp_bytes; p_temp_bytes := scan_temp_bytes; p_pass_count := 3; p_ok := true; p_reason := "ok" |}.

Definition PartitionReject (element_count false_count true_count : Z) (reason : string) : PartitionResult :=
  {| r_element_count := element_count; r_false_count := false_count; r_true_count := true_count; r_ok := false; r_reason := reason |}.

Definition CountFalseGroup (flags : list Z) (count : Z) : option Z :=
  for_each (fun false_count index => flag ← zget flags index; Some (wrap64 (false_count + (if flag =? 0 then 1 else 0)))) 0 (range 0 count).

Definition WriteStableGroups (flags values : list Z) (count false_count : Z) (output : list Z) : option (list Z) :=
  r ← for_each (fun '(output, false_index) index =>
        flag ← zget flags index;
        value ← zget values index;
        let true_rank := wrap64 (index - false_index) in
        output ← zset output (if flag =? 0 then false_index else wrap64 (false_count + true_rank)) value;
        Some (output, wrap64 (false_index + (if flag =? 0 then 1 else 0)))) (output, 0) (range 0 count);
  Some r.1.

(** The counts are out-parameters, null when [None]. The four entry points of the source
    differ in the element types only. *)
Definition ReferenceStablePartition (flags values : buffer) (count : Z) (output : buffer) (false_count true_count : option Z)
    : option (PartitionResult * buffer * option Z * option Z) :=
  let false_zero := option_map (fun _ => 0) false_count in
  let true_zero := option_map (fun _ => 0) true_count in
  if count =? 0 then Some (PartitionReject 0 0 0 "compute_partition_count_zero", output, false_zero, true_zero) else
  match flags, values, output, false_count, true_count with
  | Some flags, Some values, Some out, Some _, Some _ =>
      false_index ← CountFalseGroup flags count;
      out ← WriteStableGroups flags values count false_index out;
      let true_index := wrap64 (count - false_index) in
      Some ({| r_element_count := count; r_false_count := false_index; r_true_count := true_index; r_ok := true; r_reason := "ok" |},
            Some out, Some false_index, Some true_index)
  | _, _, _, _, _ => Some (PartitionReject count 0 0 "compute_partition_buffer_invalid", output, false_zero, true_zero)
  end.

(** [RunCpuPartition] and the end of [ExecuteCpuPartition]. *)
Definition run_cpu_partition (plan : PartitionPlan) (flags values output : buffer) : option (AccelCheck * buffer) :=
  r ← ReferenceStablePartition flags values (p_element_count plan) output (Some 0) (Some 0);
  let '(result, out, _, _) := r in
  Some (if r_ok result then accel_ok else accel_fail (r_reason result), out).

(** ** What partition computes *)
Definition group (p : Z * Z) : Z := if p.1 =? 0 then 0 else 1.
Definition flagged (flags values : list Z) (n : Z) : list (Z * Z) := zip (take (Z.to_nat n) flags) (take (Z.to_nat n) values).

Lemma group_range l : Forall (fun p => 0 <= group p < 2) l.
Proof. apply Forall_forall. intros p _. unfold group. case_match; lia. Qed.

Lemma flagged_at flags values n i : n <= zlen flags -> n <= zlen values -> 0 <= i < n ->
  exists flag value, zget flags i = Some flag /\ zget values i = Some value /\ zget (flagged flags values n) i = Some (flag, value).
Proof.
  intros Hf Hv Hi. destruct (zget_is_Some flags i) as [x Ex]; [lia|]. destruct (zget_is_Some values i) as [y Ey]; [lia|].
  exists x, y. split; [done|]. split; [done|]. apply zget_Some in Ex as [_ Ex], Ey as [_ Ey]. apply zget_Some. split; [lia|].
  unfold flagged. apply lookup_zip_with_Some. exists x, y. rewrite !lookup_take_lt by lia. done.
Qed.

Lemma zlen_flagged flags values n : 0 <= n -> n <= zlen flags -> n <= zlen values -> zlen (flagged flags values n) = n.
Proof. intros. unfold flagged, zlen in *. rewrite length_zip_with, !length_take. lia. Qed.

Lemma group_split l : zlen (bucket_list group l 0) + zlen (bucket_list group l 1) = zlen l.
Proof.
  pose proof (bucket_sort_Permutation group 2 l ltac:(lia) (group_range l)) as Hp. apply Permutation_length in Hp.
  change 2 with (0 + 1 + 1) in Hp. rewrite !bucket_sort_snoc, bucket_sort_0, app_nil_l, length_app in Hp by lia.
  change (0 + 1) with 1 in Hp. unfold zlen. lia.
Qed.

Lemma group_count_step l p : zlen (bucket_list group (l ++ [p]) 0) = zlen (bucket_list group l 0) + (if p.1 =? 0 then 1 else 0).
Proof.
  rewrite bucket_list_snoc, zlen_app. unfold group. by destruct (p.1 =? 0).
Qed.

Lemma CountFalseGroup_spec flags values n : 0 <= n <= U64_MAX -> n <= zlen flags -> n <= zlen values ->
  CountFalseGroup flags n = Some (zlen (bucket_list group (flagged flags values n) 0)).
Proof.
  intros Hn Hf Hv. set (S := flagged flags values n). assert (zlen S = n) as HS by (apply zlen_flagged; lia).
  unfold CountFalseGroup.
  edestruct (for_range_inv (fun i c => c = zlen (bucket_list group (take (Z.to_nat i) S) 0))) as (c & E & Ec).
  4: { rewrite E, Ec, <- HS. by rewrite take_all_S. }
  - lia.
  - done.
  - intros i c Hi ->. destruct (flagged_at flags values n i Hf Hv Hi) as (x & y & Ex & _ & ES). fold S in ES. rewrite Ex. cbn [mbind option_bind].
    eexists. split; [done|]. rewrite (take_S_Z S i _ ltac:(lia) ES), group_count_step. cbn [fst].
    pose proof (group_split (take (Z.to_nat i) S)) as Hs. pose proof (zlen_nonneg (bucket_list group (take (Z.to_nat i) S) 0)).
    pose proof (zlen_nonneg (bucket_list group (take (Z.to_nat i) S) 1)).
    assert (zlen (take (Z.to_nat i) S) <= i) by (unfold zlen; rewrite length_take; lia).
    apply wrap64_small. unfold is_u64. case_match; lia.
Qed.

(** The write loop is the scatter of a counting pass whose two offsets it computes. *)
Lemma WriteStableGroups_spec flags values n out :
  0 <= n <= U64_MAX -> n <= zlen flags -> n <= zlen values -> n <= zlen out ->
  let S := flagged flags values n in
  WriteStableGroups flags values n (zlen (bucket_list group S 0)) out =
    Some (map snd (bucket_sort group 2 S) ++ drop (Z.to_nat n) out).
Proof.
  intros Hn Hf Hv Ho S. assert (zlen S = n) as HS by (apply zlen_flagged; lia). pose proof (group_split S) as Hsplit.
  set (r := drop (Z.to_nat n) out). set (t0 := map (fun v => (0, v)) (take (Z.to_nat n) out)).
  assert (map snd t0 = take (Z.to_nat n) out) as Et0 by (unfold t0; rewrite map_map; apply map_id).
  assert (zlen t0 = n) as Ht0 by (unfold t0; rewrite zlen_map; unfold zlen in *; rewrite length_take; lia).
  assert (bucket_start group S 1 = zlen (bucket_list group S 0)) as E1.
  { unfold bucket_start. change 1 with (0 + 1). by rewrite bucket_sort_snoc, bucket_sort_0 by lia. }
  unfold WriteStableGroups.
  edestruct (for_range_inv (fun i (st : list Z * Z) => st.2 = zlen (bucket_list group (take (Z.to_nat i) S) 0) /\
      exists os t, scatter_inv group 2 S 2 i os t /\ st.1 = map snd t ++ r)) as ([o f] & E & _ & os & t & Hinv & Eo).
  4: { rewrite E. cbn [mbind option_bind fst] in *. rewrite <- HS in Hinv at 1. destruct (scatter_end _ _ _ _ _ _ Hinv) as [_ ->]. by rewrite Eo. }
  - lia.
  - split; [done|]. exists [0; zlen (bucket_list group S 0)], t0. split; [|by rewrite Et0; unfold r; rewrite take_drop].
    apply (scatter_start group 2 S ltac:(lia) (group_range S) [0; zlen (bucket_list group S 0)] t0); [by rewrite Ht0|].
    intros b Hb. assert (b = 0 \/ b = 1) as [-> | ->] by lia; [done|]. by rewrite E1.
  - intros i [o f] Hi (Ef & os & t & Hinv & Eo). cbn [fst snd] in *. subst f o.
    destruct (flagged_at flags values n i Hf Hv Hi) as (x & y & Ex & Ey & ES). fold S in ES.
    assert (0 <= group (x, y) < 2) as Hg by (unfold group; case_match; lia).
    destruct (scatter_step group 2 S ltac:(lia) (group_range S) 2 i _ os t ltac:(lia) ES Hg ltac:(lia) Hinv) as (at_ & Eat & Hat & _ & Hinv').
    rewrite Ex, Ey. cbn [mbind option_bind].
    set (L := take (Z.to_nat i) S) in *. pose proof (group_split L) as HL. pose proof (zlen_nonneg (bucket_list group L 0)).
    pose proof (zlen_nonneg (bucket_list group L 1)). assert (zlen L = i) as EL by (unfold L, zlen in *; rewrite length_take; lia).
    destruct Hinv as (_ & Hos & _). specialize (Hos (group (x, y)) Hg). rewrite Eat in Hos. injection Hos as Hos.
    assert ((if x =? 0 then zlen (bucket_list group L 0) else wrap64 (zlen (bucket_list group S 0) + wrap64 (i - zlen (bucket_list group L 0)))) = at_) as ->.
    { pose proof (bucket_list_take_le group S 0 (Z.to_nat i)) as Hle. fold L in Hle. pose proof (bucket_list_take_le group S 1 (Z.to_nat i)) as Hle1. fold L in Hle1.
      assert (group (x, y) = if x =? 0 then 0 else 1) as Eg by done. rewrite Eg in Hos. fold L in Hos. destruct (x =? 0).
      - change (bucket_start group S 0) with 0 in Hos. lia.
      - rewrite E1 in Hos. rewrite (wrap64_small (i - _)), wrap64_small by (unfold is_u64; lia). lia. }
    assert (zset (map snd t ++ r) at_ y = Some (map snd (<[Z.to_nat at_ := (x, y)]> t) ++ r)) as ->.
    { rewrite zset_Some by (rewrite zlen_app, zlen_map; pose proof (zlen_nonneg r); lia). f_equal.
      rewrite insert_app_l by (rewrite length_map; unfold zlen in Hat; lia). f_equal. symmetry. apply list_fmap_insert. }
    cbn [mbind option_bind]. eexists. split; [done|]. cbn [fst snd]. split; [|by do 2 eexists].
    rewrite (take_S_Z S i _ ltac:(lia) ES), group_count_step. fold L. cbn [fst].
    apply wrap64_small. unfold is_u64. case_match; lia.
Qed.

(** C23: The partition writes the values with a zero flag, then those with a nonzero flag,
    both in source order, and reports both counts. *)
Theorem partition_spec plan flags values out :
  let n := p_element_count plan in
  0 < n <= U64_MAX -> n <= zlen flags -> n <= zlen values -> n <= zlen out ->
  let pairs := flagged flags values n in
  run_cpu_partition plan (Some flags) (Some values) (Some out) =
    Some (accel_ok, Some (map snd (filter (fun p => p.1 = 0) pairs) ++ map snd (filter (fun p => p.1 <> 0) pairs) ++ drop (Z.to_nat n) out)) /\
  ReferenceStablePartition (Some flags) (Some values) n (Some out) (Some 0) (Some 0) =
    Some ({| r_element_count := n; r_false_count := zlen (filter (fun p => p.1 = 0) pairs);
             r_true_count := zlen (filter (fun p => p.1 <> 0) pairs); r_ok := true; r_reason := "ok" |},
      Some (map snd (filter (fun p => p.1 = 0) pairs) ++ map snd (filter (fun p => p.1 <> 0) pairs) ++ drop (Z.to_nat n) out),
      Some (zlen (filter (fun p => p.1 = 0) pairs)), Some (zlen (filter (fun p => p.1 <> 0) pairs))).
Proof.
  intros n Hn Hf Hv Ho pairs.
  assert (forall b (P : Z * Z -> Prop) `{!forall p, Decision (P p)}, (forall p, group p = b <-> P p) -> bucket_list group pairs b = filter P pairs) as Hb.
  { intros b P ? HP. by apply list_filter_iff. }
  assert (bucket_list group pairs 0 = filter (fun p => p.1 = 0) pairs) as E0.
  { apply Hb. intros p. unfold group. destruct (Z.eqb_spec p.1 0); split; (done || lia). }
  assert (bucket_list group pairs 1 = filter (fun p => p.1 <> 0) pairs) as E1.
  { apply Hb. intros p. unfold group. destruct (Z.eqb_spec p.1 0); split; (done || lia). }
  assert (ReferenceStablePartition (Some flags) (Some values) n (Some out) (Some 0) (Some 0) =
    Some ({| r_element_count := n; r_false_count := zlen (bucket_list group pairs 0); r_true_count := zlen (bucket_list group pairs 1); r_ok := true; r_reason := "ok" |},
      Some (map snd (bucket_sort group 2 pairs) ++ drop (Z.to_nat n) out), Some (zlen (bucket_list group pairs 0)), Some (zlen (bucket_list group pairs 1)))) as E.
  { unfold ReferenceStablePartition. rewrite (proj2 (Z.eqb_neq n 0)) by lia.
    rewrite (CountFalseGroup_spec flags values n) by lia. cbn [mbind option_bind]. rewrite WriteStableGroups_spec by lia. cbn [mbind option_bind].
    pose proof (group_split pairs) as Hs. pose proof (zlen_flagged flags values n ltac:(lia) Hf Hv) as Hz. fold pairs in Hz. pose proof (zlen_nonneg (bucket_list group pairs 0)).
    pose proof (zlen_nonneg (bucket_list group pairs 1)). fold pairs.
    assert (wrap64 (n - zlen (bucket_list group pairs 0)) = zlen (bucket_list group pairs 1)) as -> by (rewrite wrap64_small by (unfold is_u64; lia); lia).
    done. }
  assert (map snd (bucket_sort group 2 pairs) ++ drop (Z.to_nat n) out =
    map snd (filter (fun p => p.1 = 0) pairs) ++ map snd (filter (fun p => p.1 <> 0) pairs) ++ drop (Z.to_nat n) out) as Eo.
  { change 2 with (0 + 1 + 1). rewrite !bucket_sort_snoc, bucket_sort_0, app_nil_l by lia. change (0 + 1) with 1.
    rewrite E0, E1, map_app, <- app_assoc. done. }
  rewrite <- Eo, <- E0, <- E1. split; [|exact E]. unfold run_cpu_partition. fold n. rewrite E. done.
Qed.

Lemma partition_spec_witness :
  run_cpu_partition {| p_element_count := 4; p_flag_bytes := 4; p_value_bytes := 8; scan_temp_bytes := 16; p_temp_bytes := 16;
      p_pass_count := 3; p_ok := true; p_reason := "ok" |} (Some [1; 0; 3; 0]) (Some [10; 20; 30; 40]) (Some [0; 0; 0; 0]) =
    Some (accel_ok, Some [20; 40; 10; 30]).
Proof.
  apply (partition_spec {| p_element_count := 4; p_flag_bytes := 4; p_value_bytes := 8; scan_temp_bytes := 16; p_temp_bytes := 16;
      p_pass_count := 3; p_ok := true; p_reason := "ok" |} [1; 0; 3; 0] [10; 20; 30; 40] [0; 0; 0; 0]); vm_compute; (done || by split).
Defined.
End Partition.
