(* ===== verification/PrimGather.v ===== *)
(** * PrimGather: the gather and histogram primitives

    [program/compute/gather/{model,plan,reference}.hpp] and
    [program/compute/histogram/{model,plan,reference}.hpp] of the kernel, run by
    [accel/cpu/{gather,histogram}.cpp]. *)
From stdpp Require Import base numbers list option strings.
From Stdlib Require Import ZArith Lia.
From S2P Require Import Prelude Checked Primitives.

(** A value read through an index array, [0] where it cannot be read. *)
Definition at_index (l : list Z) (i : Z) : Z := default 0 (zget l i).

Lemma at_index_eq l i x : zget l i = Some x -> at_index l i = x.
Proof. unfold at_index. by intros ->. Qed.

Module Gather.
Inductive GatherElement := GatherU32 | GatherU64 | OtherGatherElement (value : Z).
#[export] Instance GatherElement_eq_dec : EqDecision GatherElement.
Proof. solve_decision. Defined.

Record GatherDesc := { d_element : GatherElement; d_element_count : Z; d_source_count : Z; d_count_source : ComputeCountSource }.
Record GatherPlan := {
  p_element : GatherElement; p_element_count : Z; p_source_count : Z; p_element_bytes : Z; p_index_bytes : Z;
  p_preflight : IndexPreflightPlan; p_status_bytes : Z; p_temp_bytes : Z; p_pass_count : Z;
  p_count_source : ComputeCountSource; p_ok : bool; p_reason : string;
}.
Record GatherResult := { r_element_count : Z; r_first_invalid_index : Z; r_ok : bool; r_reason : string }.

Definition kIndexBytes : Z := 4.
Definition kStatusBytes : Z := 8.
Definition kIndirectBytes : Z := 16.
Definition kMaxU32AddressableCount : Z := U32_MAX + 1.
Definition GatherElementBytes (element : GatherElement) : Z := match element with GatherU32 => 4 | GatherU64 => 8 | OtherGatherElement _ => 0 end.

Definition RejectGather (desc : GatherDesc) (element_bytes index_bytes status_bytes temp_bytes : Z) (reason : string) : GatherPlan :=
  {| p_element := d_element desc; p_element_count := d_element_count desc; p_source_count := d_source_count desc;
     p_element_bytes := element_bytes; p_index_bytes := index_bytes;
     p_preflight := {| group_count := 0; pass_count := 0; partial_bytes := 0 |}; p_status_bytes := status_bytes;
     p_temp_bytes := temp_bytes; p_pass_count := 0; p_count_source := d_count_source desc; p_ok := false; p_reason := reason |}.

Definition PlanGather (desc : GatherDesc) : GatherPlan :=
  let element_bytes := GatherElementBytes (d_element desc) in
  if count_source_unsupported (d_count_source desc) then RejectGather desc 0 kIndexBytes kStatusBytes 0 "compute_gather_count_source_unsupported" else
  if element_bytes =? 0 then RejectGather desc 0 0 0 0 "compute_gather_element_unsupported" else
  let reject := RejectGather desc element_bytes kIndexBytes kStatusBytes 0 in
  if d_element_count desc =? 0 then reject "compute_gather_count_zero" else
  if d_element_count desc >? U32_MAX then reject "compute_gather_count_unsupported" else
  if d_source_count desc =? 0 then reject "compute_gather_source_zero" else
  if d_source_count desc >? kMaxU32AddressableCount then reject "compute_gather_source_unsupported" else
  if negb (Checked.mul_fits (d_element_count desc) element_bytes) || negb (Checked.mul_fits (d_element_count desc) kIndexBytes)
  then reject "compute_gather_temp_overflow" else
  let preflight := PlanIndexPreflight (d_element_count desc) in
  {| p_element := d_element desc; p_element_count := d_element_count desc; p_source_count := d_source_count desc;
     p_element_bytes := element_bytes; p_index_bytes := kIndexBytes; p_preflight := preflight;
     p_status_bytes := wrap64 (kStatusBytes + partial_bytes preflight);
     p_temp_bytes := wrap64 (kStatusBytes + partial_bytes preflight + kIndirectBytes);
     p_pass_count := wrap32 (pass_count preflight + 1); p_count_source := d_count_source desc; p_ok := true; p_reason := "ok" |}.

Definition GatherReject (element_count first_invalid_index : Z) (reason : string) : GatherResult :=
  {| r_element_count := element_count; r_first_invalid_index := first_invalid_index; r_ok := false; r_reason := reason |}.

Definition ReferenceGather (values indices output : buffer) (element_count source_count : Z) : option (GatherResult * buffer) :=
  if element_count =? 0 then Some (GatherReject 0 0 "compute_gather_count_zero", output) else
  if source_count =? 0 then Some (GatherReject element_count 0 "compute_gather_source_zero", output) else
  if source_count >? kMaxU32AddressableCount then Some (GatherReject element_count 0 "compute_gather_source_unsupported", output) else
  match values, indices, output with
  | Some values, Some indices, Some out =>
      after (for_loop (fun (_ : unit) index =>
          source_index ← zget indices index;
          Some (if source_index >=? source_count
                then Return (GatherReject element_count index "compute_gather_index_out_of_range", output) else Next tt))
          tt (range 0 element_count))
        (fun _ =>
          out ← for_each (fun out index =>
            source_index ← zget indices index; value ← zget values source_index; zset out index value) out (range 0 element_count);
          Some ({| r_element_count := element_count; r_first_invalid_index := element_count; r_ok := true; r_reason := "ok" |}, Some out))
  | _, _, _ => Some (GatherReject element_count 0 "compute_gather_buffer_invalid", output)
  end.

(** [ExecuteCpuGather] after the lookups; [logical_count] is the count read from its
    buffer, [None] without a count handle. *)
Definition run_cpu_gather (plan : GatherPlan) (logical_count : option Z) (values indices output : buffer) : option (AccelCheck * buffer) :=
  let active_count := default (p_element_count plan) logical_count in
  if active_count >? p_element_count plan then Some (accel_fail "compute_bounded_count_invalid", output) else
  r ← ReferenceGather values indices output active_count (p_source_count plan);
  Some (if r_ok r.1 then accel_ok else accel_fail (r_reason r.1), r.2).

Definition valid_index (indices : list Z) (source_count i : Z) : Prop := at_index indices i < source_count.

(** The preflight finds the first index out of range. *)
Lemma preflight_spec indices n source_count (output : buffer) :
  0 <= n -> n <= zlen indices ->
  let loop := for_loop (fun (_ : unit) index =>
      source_index ← zget indices index;
      Some (if source_index >=? source_count
            then Return (GatherReject n index "compute_gather_index_out_of_range", output) else Next tt)) tt (range 0 n) in
  (loop = Some (Next tt) /\ forall i, 0 <= i < n -> valid_index indices source_count i) \/
  (exists i, 0 <= i < n /\ ~ valid_index indices source_count i /\ (forall j, 0 <= j < i -> valid_index indices source_count j) /\
     loop = Some (Return (GatherReject n i "compute_gather_index_out_of_range", output))).
Proof.
  intros Hn Hi loop. subst loop.
  edestruct (for_range_safe (fun i (_ : unit) => forall j, 0 <= j < i -> valid_index indices source_count j)
    (fun r => exists i, 0 <= i < n /\ ~ valid_index indices source_count i /\ (forall j, 0 <= j < i -> valid_index indices source_count j) /\
       r = (GatherReject n i "compute_gather_index_out_of_range", output))) as [(r & E & i & H1 & H2 & H3 & ->) | ([] & E & H)]; cycle -2.
  - right. exists i. by rewrite E.
  - left. by rewrite E.
  - done.
  - lia.
  - intros i [] Hr Hinv. destruct (zget_is_Some indices i) as [x Ex]; [lia|]. rewrite Ex. cbn [mbind option_bind]. rewrite Z.geb_leb.
    pose proof (at_index_eq _ _ _ Ex) as Ea. destruct (Z.leb_spec source_count x).
    + left. eexists. split; [done|]. exists i. unfold valid_index. rewrite Ea. split; [done|]. split; [lia|]. by split.
    + right. exists tt. split; [done|]. intros j Hj. destruct (decide (j = i)) as [->|]; [unfold valid_index; by rewrite Ea | apply Hinv; lia].
Qed.

(** C22: With a positive count, the CPU gather either rejects the first index that is not
    below the source count and leaves the output as it was, or writes
    [values[indices[i]]] at every [i] and keeps the rest; a count above the plan's
    capacity is rejected first. *)
Theorem cpu_gather_spec plan logical_count values indices out :
  let n := default (p_element_count plan) logical_count in
  let source_count := p_source_count plan in
  0 < n -> 0 < source_count <= kMaxU32AddressableCount -> n <= zlen indices -> n <= zlen out -> source_count <= zlen values ->
  Forall (fun i => 0 <= i) indices ->
  run_cpu_gather plan logical_count (Some values) (Some indices) (Some out) =
    Some (accel_fail "compute_bounded_count_invalid", Some out) /\ p_element_count plan < n \/
  n <= p_element_count plan /\
  (((forall i, 0 <= i < n -> valid_index indices source_count i) /\
    run_cpu_gather plan logical_count (Some values) (Some indices) (Some out) =
      Some (accel_ok, Some (filled (fun i => at_index values (at_index indices i)) n out))) \/
   (exists i, 0 <= i < n /\ ~ valid_index indices source_count i /\ (forall j, 0 <= j < i -> valid_index indices source_count j) /\
      ReferenceGather (Some values) (Some indices) (Some out) n source_count =
        Some (GatherReject n i "compute_gather_index_out_of_range", Some out) /\
      run_cpu_gather plan logical_count (Some values) (Some indices) (Some out) =
        Some (accel_fail "compute_gather_index_out_of_range", Some out))).
Proof.
  intros n source_count Hn Hs Hi Ho Hv Hpos. unfold run_cpu_gather. fold n source_count. rewrite Z.gtb_ltb.
  destruct (Z.ltb_spec (p_element_count plan) n); [by left | right]. split; [done|].
  unfold ReferenceGather. rewrite (proj2 (Z.eqb_neq n 0)), (proj2 (Z.eqb_neq source_count 0)) by lia.
  rewrite Z.gtb_ltb, (proj2 (Z.ltb_ge _ _)) by lia.
  destruct (preflight_spec indices n source_count (Some out) ltac:(lia) Hi) as [[-> Hok] | (i & Hr & Hbad & Hfirst & ->)]; cbn [after mbind option_bind].
  - left. split; [done|].
    edestruct (for_range_inv (fun i o => o = filled (fun i => at_index values (at_index indices i)) i out)) as (o & E & Eo).
    4: { rewrite E. cbn [mbind option_bind]. by rewrite Eo. }
    + lia.
    + done.
    + intros i o Hr ->. destruct (zget_is_Some indices i) as [x Ex]; [lia|]. rewrite Ex. cbn [mbind option_bind].
      pose proof (Hok i Hr) as Hx. unfold valid_index in Hx. rewrite (at_index_eq _ _ _ Ex) in Hx.
      assert (0 <= x) by (apply (proj1 (Forall_forall _ _) Hpos); apply zget_Some in Ex as [_ ?]; by eapply list_elem_of_lookup_2).
      destruct (zget_is_Some values x) as [v Ev]; [lia|]. rewrite Ev. cbn [mbind option_bind].
      assert (v = at_index values (at_index indices i)) as -> by (by rewrite (at_index_eq _ _ _ Ex), (at_index_eq _ _ _ Ev)).
      eexists. split; [apply (filled_step (fun i => at_index values (at_index indices i))); lia | done].
  - right. exists i. split; [done|]. split; [done|]. split; [done|]. by split.
Qed.

Definition example_plan : GatherPlan :=
  PlanGather {| d_element := GatherU64; d_element_count := 4; d_source_count := 3; d_count_source := BufferU32 |}.

Lemma cpu_gather_spec_witness :
  let n := 3 in
  run_cpu_gather example_plan (Some 3) (Some [7; 8; 9]) (Some [2; 0; 5; 1]) (Some [0; 0; 0; 4]) =
    Some (accel_fail "compute_bounded_count_invalid", Some [0; 0; 0; 4]) /\ 4 < n \/
  n <= 4 /\
  (((forall i, 0 <= i < n -> valid_index [2; 0; 5; 1] 3 i) /\
    run_cpu_gather example_plan (Some 3) (Some [7; 8; 9]) (Some [2; 0; 5; 1]) (Some [0; 0; 0; 4]) =
      Some (accel_ok, Some (filled (fun i => at_index [7; 8; 9] (at_index [2; 0; 5; 1] i)) n [0; 0; 0; 4]))) \/
   (exists i, 0 <= i < n /\ ~ valid_index [2; 0; 5; 1] 3 i /\ (forall j, 0 <= j < i -> valid_index [2; 0; 5; 1] 3 j) /\
      ReferenceGather (Some [7; 8; 9]) (Some [2; 0; 5; 1]) (Some [0; 0; 0; 4]) n 3 =
        Some (GatherReject n i "compute_gather_index_out_of_range", Some [0; 0; 0; 4]) /\
      run_cpu_gather example_plan (Some 3) (Some [7; 8; 9]) (Some [2; 0; 5; 1]) (Some [0; 0; 0; 4]) =
        Some (accel_fail "compute_gather_index_out_of_range", Some [0; 0; 0; 4]))).
Proof.
  apply (cpu_gather_spec example_plan (Some 3) [7; 8; 9] [2; 0; 5; 1] [0; 0; 0; 4]); try (vm_compute; (done || by split)).
  repeat constructor; lia.
Defined.
End Gather.

Module Histogram.
Inductive HistogramIndex := IndexU32 | OtherIndex (value : Z).
Inductive HistogramCount := CountU32 | OtherCount (value : Z).
#[export] Instance HistogramCount_eq_dec : EqDecision HistogramCount.
Proof. solve_decision. Defined.

Record HistogramDesc := { d_index : HistogramIndex; d_count : HistogramCount; d_element_count : Z; d_bin_count : Z }.
Record HistogramPlan := {
  p_index : HistogramIndex; p_count : HistogramCount; p_element_count : Z; p_bin_count : Z; p_index_bytes : Z; p_count_bytes : Z;
  p_input_bytes : Z; p_output_bytes : Z; p_status_bytes : Z; p_temp_bytes : Z; p_pass_count : Z; p_ok : bool; p_reason : string;
}.
Record HistogramResult := { r_element_count : Z; r_bin_count : Z; r_ok : bool; r_reason : string }.

Definition IndexBytes (index : HistogramIndex) : Z := match index with IndexU32 => 4 | OtherIndex _ => 0 end.
Definition CountBytes (count : HistogramCount) : Z := match count with CountU32 => 4 | OtherCount _ => 0 end.

Definition RejectHistogram (desc : HistogramDesc) (index_bytes count_bytes : Z) (reason : string) : HistogramPlan :=
  {| p_index := d_index desc; p_count := d_count desc; p_element_count := d_element_count desc; p_bin_count := d_bin_count desc;
     p_index_bytes := index_bytes; p_count_bytes := count_bytes; p_input_bytes := 0; p_output_bytes := 0; p_status_bytes := 0;
     p_temp_bytes := 0; p_pass_count := 0; p_ok := false; p_reason := reason |}.

Definition PlanHistogram (desc : HistogramDesc) : HistogramPlan :=
  let index_bytes := IndexBytes (d_index desc) in
  if index_bytes =? 0 then RejectHistogram desc 0 0 "compute_histogram_index_unsupported" else
  let count_bytes := CountBytes (d_count desc) in
  if count_bytes =? 0 then RejectHistogram desc index_bytes 0 "compute_histogram_count_unsupported" else
  let reject := RejectHistogram desc index_bytes count_bytes in
  if d_element_count desc =? 0 then reject "compute_histogram_count_zero" else
  if d_bin_count desc =? 0 then reject "compute_histogram_bin_count_zero" else
  if bool_decide (d_count desc = CountU32) && (d_element_count desc >? U32_MAX) then reject "compute_histogram_count_overflow" else
  if negb (Checked.mul_fits (d_element_count desc) index_bytes) || negb (Checked.mul_fits (d_bin_count desc) count_bytes)
  then reject "compute_histogram_bytes_overflow" else
  {| p_index := d_index desc; p_count := d_count desc; p_element_count := d_element_count desc; p_bin_count := d_bin_count desc;
     p_index_bytes := index_bytes; p_count_bytes := count_bytes; p_input_bytes := wrap64 (d_element_count desc * index_bytes);
     p_output_bytes := wrap64 (d_bin_count desc * count_bytes); p_status_bytes := 4; p_temp_bytes := 4; p_pass_count := 2;
     p_ok := true; p_reason := "ok" |}.

Definition HistogramReject (element_count bin_count : Z) (reason : string) : HistogramResult :=
  {| r_element_count := element_count; r_bin_count := bin_count; r_ok := false; r_reason := reason |}.

Definition ReferenceHistogramU32 (input output : buffer) (element_count bin_count : Z) : option (HistogramResult * buffer) :=
  if element_count =? 0 then Some (HistogramReject 0 bin_count "compute_histogram_count_zero", output) else
  if bin_count =? 0 then Some (HistogramReject element_count 0 "compute_histogram_bin_count_zero", output) else
  if element_count >? U32_MAX then Some (HistogramReject element_count bin_count "compute_histogram_count_overflow", output) else
  match input, output with
  | Some input, Some out =>
      out ← for_each (fun out bin => zset out bin 0) out (range 0 bin_count);
      after (for_loop (fun out index =>
          bin ← zget input index;
          if bin >=? bin_count then Some (Return (HistogramReject element_count bin_count "compute_histogram_bin_invalid", Some out))
          else count ← zget out bin; out ← zset out bin (wrap32 (count + 1)); Some (Next out)) out (range 0 element_count))
        (fun out => Some ({| r_element_count := element_count; r_bin_count := bin_count; r_ok := true; r_reason := "ok" |}, Some out))
  | _, _ => Some (HistogramReject element_count bin_count "compute_histogram_buffer_invalid", output)
  end.

Definition run_cpu_histogram (plan : HistogramPlan) (bins counts : buffer) : option (AccelCheck * buffer) :=
  r ← ReferenceHistogramU32 bins counts (p_element_count plan) (p_bin_count plan);
  Some (if r_ok r.1 then accel_ok else accel_fail (r_reason r.1), r.2).

(** The number of elements in a bin. *)
Definition bin_size (l : list Z) (bin : Z) : Z := zlen (filter (fun v => v = bin) l).

Lemma bin_size_snoc l v bin : bin_size (l ++ [v]) bin = bin_size l bin + (if decide (v = bin) then 1 else 0).
Proof. unfold bin_size. rewrite filter_app, zlen_app, filter_cons, filter_nil. by case_decide. Qed.

Lemma bin_size_le l bin : 0 <= bin_size l bin <= zlen l.
Proof. unfold bin_size, zlen. pose proof (length_filter (fun v => v = bin) l). lia. Qed.

(** The bins' sizes add up to the elements. *)
Lemma bin_size_total l n : 0 <= n -> Forall (fun v => 0 <= v < n) l -> foldr Z.add 0 (map (bin_size l) (range 0 n)) = zlen l.
Proof.
  intros Hn. assert (forall v, foldr Z.add 0 (map (fun b => if decide (v = b) then 1 else 0) (range 0 n)) = if decide (0 <= v < n) then 1 else 0) as Hone.
  { intros v. revert n Hn. apply natlike_ind; [by rewrite decide_False by lia|]. intros n Hn IH. unfold Z.succ.
    rewrite range_snoc, map_app by lia. cbn [map]. rewrite foldr_add_snoc, IH.
    destruct (decide (v = n)) as [->|]; [rewrite decide_False, decide_True by lia; lia|].
    destruct (decide (0 <= v < n)); [rewrite decide_True by lia | rewrite decide_False by lia]; lia. }
  assert (forall (f g : Z -> Z) (L : list Z), foldr Z.add 0 (map (fun b => f b + g b) L) = foldr Z.add 0 (map f L) + foldr Z.add 0 (map g L)) as Hadd
    by (intros f g L; induction L; cbn; lia).
  induction l as [|v l IH] using rev_ind; intros Hl.
  - assert (forall L, foldr Z.add 0 (map (bin_size []) L) = 0) as -> by (induction L; cbn; [done | by rewrite IHL]). done.
  - apply Forall_app in Hl as [Hl [Hv _]%Forall_cons].
    rewrite (map_ext _ _ (fun b => bin_size_snoc l v b)), Hadd, (IH Hl), Hone, decide_True by done. by rewrite zlen_app.
Qed.

(** C37: For a count of 1 to 2^32 - 1 and buffers that hold it, the histogram counts, for
    every bin, the elements in it, and its counts add up to
    the element count; an element outside the bins makes it fail with
    compute_histogram_bin_invalid. *)
Theorem cpu_histogram_spec plan input out :
  let n := p_element_count plan in
  let bins := p_bin_count plan in
  0 < n <= U32_MAX -> 0 < bins -> n <= zlen input -> bins <= zlen out -> Forall (fun v => 0 <= v) input ->
  let l := take (Z.to_nat n) input in
  (Forall (fun v => v < bins) l /\ run_cpu_histogram plan (Some input) (Some out) = Some (accel_ok, Some (filled (bin_size l) bins out)) /\
   foldr Z.add 0 (map (bin_size l) (range 0 bins)) = n) \/
  (~ Forall (fun v => v < bins) l /\ exists out', run_cpu_histogram plan (Some input) (Some out) = Some (accel_fail "compute_histogram_bin_invalid", Some out')).
Proof.
  intros n bins Hn Hb Hin Hout Hpos l. unfold run_cpu_histogram, ReferenceHistogramU32. fold n bins.
  assert (zlen l = n) as Hl by (unfold l, zlen in *; rewrite length_take; lia).
  rewrite (proj2 (Z.eqb_neq n 0)), (proj2 (Z.eqb_neq bins 0)), Z.gtb_ltb, (proj2 (Z.ltb_ge _ _)) by lia.
  assert (for_each (fun out bin => zset out bin 0) out (range 0 bins) = Some (filled (fun _ => 0) bins out)) as ->.
  { edestruct (for_range_inv (fun i o => o = filled (fun _ => 0) i out)) as (o & E & Eo); [| | |by rewrite E, Eo]; [lia | done |].
    intros i o Hi ->. eexists. split; [apply (filled_step (fun _ => 0)); lia | done]. }
  cbn [mbind option_bind].
  edestruct (for_range_safe (fun i o => o = filled (bin_size (take (Z.to_nat i) l)) bins out /\ Forall (fun v => v < bins) (take (Z.to_nat i) l))
    (fun r : HistogramResult * buffer => ~ Forall (fun v => v < bins) l /\ exists out', r = (HistogramReject n bins "compute_histogram_bin_invalid", Some out')))
    as [(r & E & Hbad & out' & ->) | (o & E & -> & Hok)]; cycle -2.
  - right. split; [done|]. rewrite E. by exists out'.
  - left. rewrite E. assert (take (Z.to_nat n) l = l) as El by (apply take_ge; unfold zlen in Hl; lia). rewrite El in *.
    split; [done|]. split; [done|]. rewrite bin_size_total; [done | lia|].
    apply Forall_forall. intros v Hv. split; [|by apply (proj1 (Forall_forall _ _) Hok)].
    apply (proj1 (Forall_forall _ _) Hpos). unfold l in Hv. apply list_elem_of_lookup in Hv as [k Hk].
    apply lookup_take_Some in Hk as [Hk _]. by eapply list_elem_of_lookup_2.
  - lia.
  - split; [by apply filled_ext | constructor].
  - intros i o Hi [-> Hok]. destruct (zget_is_Some input i) as [v Ev]; [lia|]. rewrite Ev. cbn [mbind option_bind].
    assert (zget l i = Some v) as Elv.
    { apply zget_Some in Ev as [? Ev]. apply zget_Some. split; [done|]. unfold l. rewrite lookup_take_lt by lia. done. }
    assert (0 <= v) as Hv0 by (apply (proj1 (Forall_forall _ _) Hpos); apply zget_Some in Ev as [_ ?]; by eapply list_elem_of_lookup_2).
    rewrite Z.geb_leb. destruct (Z.leb_spec bins v) as [Hge|Hlt].
    + left. eexists. split; [done|]. split; [|by eexists]. intros HF. apply zget_Some in Elv as [_ Elv].
      apply list_elem_of_lookup_2 in Elv. pose proof (proj1 (Forall_forall _ _) HF v Elv) as Hv. cbn in Hv. lia.
    + right. rewrite filled_get by lia. cbn [mbind option_bind]. pose proof (take_S_Z l i v ltac:(lia) Elv) as Et.
      rewrite zset_Some by (rewrite zlen_filled; lia). cbn [mbind option_bind]. eexists. split; [done|]. rewrite Et. split; [|by apply Forall_app_2; [|constructor]].
      pose proof (bin_size_le (take (Z.to_nat i) l) v) as Hle. assert (zlen (take (Z.to_nat i) l) = i) as Hzi by (unfold zlen in *; rewrite length_take; lia).
      rewrite wrap32_small by (unfold is_u32; lia). apply list_eq. intros k.
      assert (forall (g : Z -> Z) j, filled g bins out !! j = zget (filled g bins out) (Z.of_nat j)) as Hz by (intros; by rewrite zget_nat).
      destruct (decide (k = Z.to_nat v)) as [->|Hne].
      * rewrite list_lookup_insert_eq by (unfold zlen in *; pose proof (zlen_filled (bin_size (take (Z.to_nat i) l)) bins out); unfold zlen in *; lia).
        rewrite Hz, Z2Nat.id, filled_get by lia. f_equal. rewrite bin_size_snoc, decide_True by done. done.
      * rewrite list_lookup_insert_ne by done. unfold filled. destruct (decide (Z.of_nat k < bins)).
        -- rewrite !lookup_app_l by (rewrite length_map, length_range; lia). rewrite !list_lookup_fmap.
           destruct (range 0 bins !! k) as [b|] eqn:Eb; [|done]. cbn. f_equal. rewrite bin_size_snoc, decide_False; [lia|].
           intros <-. apply lookup_seqZ in Eb as [Eb _]. lia.
        -- rewrite !lookup_app_r by (rewrite length_map, length_range; lia). by rewrite !length_map.
Qed.

Lemma cpu_histogram_spec_witness :
  let plan := PlanHistogram {| d_index := IndexU32; d_count := CountU32; d_element_count := 4; d_bin_count := 3 |} in
  (Forall (fun v => v < 3) [2; 0; 2; 1] /\ run_cpu_histogram plan (Some [2; 0; 2; 1]) (Some [9; 9; 9; 7]) =
      Some (accel_ok, Some (filled (bin_size [2; 0; 2; 1]) 3 [9; 9; 9; 7])) /\ foldr Z.add 0 (map (bin_size [2; 0; 2; 1]) (range 0 3)) = 4) \/
  (~ Forall (fun v => v < 3) [2; 0; 2; 1] /\
   exists out', run_cpu_histogram plan (Some [2; 0; 2; 1]) (Some [9; 9; 9; 7]) = Some (accel_fail "compute_histogram_bin_invalid", Some out')).
Proof.
  intros plan. apply (cpu_histogram_spec plan [2; 0; 2; 1] [9; 9; 9; 7]); try (vm_compute; (done || by split)). repeat constructor; lia.
Defined.
End Histogram.
