(* ===== verification/PrimScatter.v ===== *)
(** * PrimScatter: the scatter primitive

    [program/compute/scatter/{model,plan,reference}.hpp] of the kernel and the CPU
    backend's scatter of [accel/cpu/scatter/{scratch,linear}.hpp], whose duplicate test is
    an open-addressing table kept between calls and cleared by changing its epoch, with
    the part of [ExecuteCpuScatter] ([accel/cpu/scatter.cpp]) after the lookups. *)
From stdpp Require Import base numbers list option strings.
From Stdlib Require Import ZArith Lia.
From S2P Require Import Prelude Checked Primitives.

Inductive ScatterElement := ScatterU32 | ScatterU64 | OtherScatterElement (value : Z).
Record ScatterDesc := { d_element : ScatterElement; d_element_count : Z; d_output_count : Z }.
Record ScatterPlan := {
  p_element : ScatterElement; p_element_count : Z; p_output_count : Z; p_element_bytes : Z; p_index_bytes : Z;
  p_status_bytes : Z; p_temp_bytes : Z; scratch_slots : Z; p_pass_count : Z; p_ok : bool; p_reason : string;
}.
Record ScatterResult := { r_element_count : Z; r_output_count : Z; r_first_rejected_index : Z; r_ok : bool; r_reason : string }.

Definition kIndexBytes : Z := 4.
Definition kStatusElementBytes : Z := 4.
Definition kMaxOutputCount : Z := U32_MAX.
Definition kMaxEncodedCount : Z := Z.shiftr kMaxOutputCount 1.
Definition ElementBytes (element : ScatterElement) : Z := match element with ScatterU32 => 4 | ScatterU64 => 8 | OtherScatterElement _ => 0 end.

(** The doubling reaches a [u64] bound within 64 steps; [0] is the overflow result. *)
Definition ScratchSlots (count : Z) : option Z :=
  if (count =? 0) || negb (Checked.mul_fits count 2) then Some 0 else
  let required := wrap64 (count * 2) in
  after (while_loop 65 (fun slots => slots <? required) (fun slots =>
      Some (if negb (Checked.mul_fits slots 2) then Return 0 else Next (wrap64 (slots * 2)))) 1)
    (fun slots => Some slots).

Definition RejectPlan (desc : ScatterDesc) (element_bytes index_bytes status_bytes temp_bytes : Z) (reason : string) : ScatterPlan :=
  {| p_element := d_element desc; p_element_count := d_element_count desc; p_output_count := d_output_count desc;
     p_element_bytes := element_bytes; p_index_bytes := index_bytes; p_status_bytes := status_bytes; p_temp_bytes := temp_bytes;
     scratch_slots := 0; p_pass_count := 0; p_ok := false; p_reason := reason |}.

Definition PlanScatter (desc : ScatterDesc) : option ScatterPlan :=
  let element_bytes := ElementBytes (d_element desc) in
  if element_bytes =? 0 then Some (RejectPlan desc 0 0 0 0 "compute_scatter_element_unsupported") else
  let reject := RejectPlan desc element_bytes kIndexBytes 0 0 in
  if d_element_count desc =? 0 then Some (reject "compute_scatter_count_zero") else
  if d_element_count desc >? kMaxEncodedCount then Some (reject "compute_scatter_count_unsupported") else
  if d_output_count desc =? 0 then Some (reject "compute_scatter_output_zero") else
  if d_output_count desc >? kMaxOutputCount then Some (reject "compute_scatter_output_unsupported") else
  slots ← ScratchSlots (d_element_count desc);
  let status_bytes := wrap64 ((d_output_count desc + 1) * kStatusElementBytes) in
  Some {| p_element := d_element desc; p_element_count := d_element_count desc; p_output_count := d_output_count desc;
          p_element_bytes := element_bytes; p_index_bytes := kIndexBytes; p_status_bytes := status_bytes; p_temp_bytes := status_bytes;
          scratch_slots := slots; p_pass_count := 1; p_ok := true; p_reason := "ok" |}.

Definition Reject (element_count output_count first_rejected_index : Z) (reason : string) : ScatterResult :=
  {| r_element_count := element_count; r_output_count := output_count; r_first_rejected_index := first_rejected_index;
     r_ok := false; r_reason := reason |}.
Definition scatter_ok (element_count output_count : Z) : ScatterResult :=
  {| r_element_count := element_count; r_output_count := output_count; r_first_rejected_index := element_count;
     r_ok := true; r_reason := "ok" |}.

(** [for index: output[indices[index]] = values[index]] *)
Definition write_scatter (values indices output : list Z) (element_count : Z) : option (list Z) :=
  for_each (fun output index => target ← zget indices index; value ← zget values index; zset output target value)
    output (range 0 element_count).

Definition ReferenceScatter (values indices output : buffer) (element_count output_count : Z) : option (ScatterResult * buffer) :=
  let reject count index reason := Some (Reject count output_count index reason, output) in
  if element_count =? 0 then reject 0 0 "compute_scatter_count_zero" else
  if element_count >? kMaxEncodedCount then reject element_count 0 "compute_scatter_count_unsupported" else
  if output_count =? 0 then Some (Reject element_count 0 0 "compute_scatter_output_zero", output) else
  if output_count >? kMaxOutputCount then reject element_count 0 "compute_scatter_output_unsupported" else
  match values, indices, output with
  | Some values, Some indices, Some out =>
      after (for_loop (fun (_ : unit) index =>
          target ← zget indices index;
          if target >=? output_count then Some (Return (Reject element_count output_count index "compute_scatter_index_out_of_range", output))
          else
            duplicate ← for_loop (fun (_ : unit) prior =>
                earlier ← zget indices prior;
                Some (if earlier =? target then Return (Reject element_count output_count index "compute_scatter_duplicate_index", output)
                      else Next tt)) tt (range 0 index);
            Some duplicate) tt (range 0 element_count))
        (fun _ => out ← write_scatter values indices out element_count; Some (scatter_ok element_count output_count, Some out))
  | _, _, _ => reject element_count 0 "compute_scatter_buffer_invalid"
  end.

(** ** The linear scatter *)
Record CpuScatterScratch := { keys : list Z; marks : list Z; epoch : Z }.
Definition fresh_scratch : CpuScatterScratch := {| keys := []; marks := []; epoch := 0 |}.

(** A vector's [EnsureScatterCapacity] always succeeds. *)
Definition EnsureScatterCapacity (v : list Z) (cap : Z) : list Z :=
  if zlen v >=? cap then v else v ++ replicate (Z.to_nat (cap - zlen v)) 0.

Definition NextScatterEpoch (scratch : CpuScatterScratch) : CpuScatterScratch :=
  if epoch scratch =? U32_MAX
  then {| keys := keys scratch; marks := replicate (length (marks scratch)) 0; epoch := 1 |}
  else {| keys := keys scratch; marks := marks scratch; epoch := wrap32 (epoch scratch + 1) |}.

Definition home_slot (cap target : Z) : Z := Z.land (wrap64 (target * 2654435761)) (wrap64 (cap - 1)).
Definition next_slot (cap slot : Z) : Z := Z.land (wrap64 (slot + 1)) (wrap64 (cap - 1)).

(** The probing loop: [Some None] has found the target, [Some (Some slot)] a free slot.
    [None] is a read out of range or a probe longer than the fuel. *)
Fixpoint probe (fuel : nat) (scratch : CpuScatterScratch) (cap epoch target slot : Z) : option (option Z) :=
  match fuel with
  | O => None
  | S fuel =>
      mark ← zget (marks scratch) slot;
      if mark =? epoch then
        key ← zget (keys scratch) slot;
        if key =? target then Some None else probe fuel scratch cap epoch target (next_slot cap slot)
      else Some (Some slot)
  end.

Definition MarkScatterTarget (scratch : CpuScatterScratch) (cap epoch_ target : Z) : option (bool * CpuScatterScratch) :=
  found ← probe (Z.to_nat cap) scratch cap epoch_ target (home_slot cap target);
  match found with
  | None => Some (false, scratch)
  | Some slot =>
      marks ← zset (marks scratch) slot epoch_;
      keys ← zset (keys scratch) slot target;
      Some (true, {| keys := keys; marks := marks; epoch := epoch scratch |})
  end.

Definition ExecuteLinearScatter (scratch : CpuScatterScratch) (values indices output : list Z)
    (element_count output_count scratch_slots : Z) : option (ScatterResult * list Z * CpuScatterScratch) :=
  if scratch_slots =? 0 then Some (Reject element_count output_count 0 "compute_scatter_temp_overflow", output, scratch) else
  let scratch := {| keys := EnsureScatterCapacity (keys scratch) scratch_slots;
                    marks := EnsureScatterCapacity (marks scratch) scratch_slots; epoch := epoch scratch |} in
  let scratch := NextScatterEpoch scratch in
  let epoch := epoch scratch in
  after (for_loop (fun scratch index =>
      target ← zget indices index;
      if target >=? output_count
      then Some (Return (Reject element_count output_count index "compute_scatter_index_out_of_range", output, scratch))
      else
        r ← MarkScatterTarget scratch scratch_slots epoch target;
        let '(marked, scratch) := r in
        Some (if negb marked then Return (Reject element_count output_count index "compute_scatter_duplicate_index", output, scratch)
              else Next scratch)) scratch (range 0 element_count))
    (fun scratch => out ← write_scatter values indices output element_count; Some (scatter_ok element_count output_count, out, scratch)).

(** [ExecuteCpuScatter] after the lookups; [scratch] is the adapter's, if it has one. *)
Definition run_cpu_scatter (plan : ScatterPlan) (values indices output : list Z) (scratch : option CpuScatterScratch)
    : option (AccelCheck * list Z * option CpuScatterScratch) :=
  r ← ExecuteLinearScatter (default fresh_scratch scratch) values indices output (p_element_count plan) (p_output_count plan) (scratch_slots plan);
  let '(result, out, scratch) := r in
  Some (if r_ok result then accel_ok else accel_fail (r_reason result), out, Some scratch).
