(* ===== verification/PrimScatterFacts.v ===== *)
(** * PrimScatterFacts: the linear scatter refines the reference

    [table e cap T s]: the slots of epoch [e] hold exactly the targets [T], each reachable
    from its home slot over occupied slots. Marking a target keeps it a table and fails
    exactly on a target it holds, so the linear scatter rejects what the reference
    rejects. *)
From stdpp Require Import base numbers list option strings.
From Stdlib Require Import ZArith Lia.
From S2P Require Import Prelude Checked Primitives PrimGather PrimScatter.

(** ** The size of the table *)
Lemma ScratchSlots_spec n : 0 < n <= kMaxEncodedCount ->
  exists k, ScratchSlots n = Some (2 ^ k) /\ 0 < k <= 32 /\ 2 * n <= 2 ^ k.
Proof.
  intros Hn. change kMaxEncodedCount with 2147483647 in Hn. unfold ScratchSlots. rewrite (proj2 (Z.eqb_neq n 0)) by lia.
  rewrite Checked.mul_fits_spec by (unfold is_u64; lia). rewrite (proj2 (Z.leb_le _ _)) by lia. cbn [negb orb].
  rewrite wrap64_small by (unfold is_u64; lia).
  destruct (while_loop_total (R := Z) (fun slots => exists j, 0 <= j <= 32 /\ slots = 2 ^ j) (fun slots => 33 - Z.log2 slots)
    (fun slots => slots <? n * 2) (fun slots => Some (if negb (Checked.mul_fits slots 2) then Return 0 else Next (wrap64 (slots * 2)))) 65 1)
    as (st & -> & (j & Hj & ->) & Hc).
  - by exists 0.
  - intros st (j & Hj & ->) Hc. apply Z.ltb_lt in Hc. pose proof (pow2_pos j).
    assert (j < 32) as Hj32.
    { destruct (decide (j = 32)) as [->|]; [|lia]. change (2 ^ 32) with 4294967296 in Hc. lia. }
    rewrite Checked.mul_fits_spec by (unfold is_u64; lia). rewrite (proj2 (Z.leb_le _ _)) by lia. cbn [negb].
    rewrite wrap64_small by (unfold is_u64; lia). eexists. split; [done|].
    replace (2 ^ j * 2) with (2 ^ (j + 1)) by (rewrite pow2_succ; lia). split; [exists (j + 1); split; [lia | done]|].
    rewrite !Z.log2_pow2 by lia. lia.
  - cbn. lia.
  - cbn [after mbind option_bind]. apply Z.ltb_ge in Hc. exists j. split; [done|]. split; [|lia].
    destruct (decide (j = 0)) as [->|]; [cbn in Hc; lia | lia].
Qed.

(** ** Probing *)
Section table.
Context (k : Z) (Hk : 0 < k <= 32).
Abbreviation cap := (2 ^ k).

Lemma cap_range : 2 <= cap <= U32_MAX + 1.
Proof using Hk.
  split; [change 2 with (2 ^ 1); apply Z.pow_le_mono_r; lia|]. change (U32_MAX + 1) with (2 ^ 32). apply Z.pow_le_mono_r; lia.
Qed.

Lemma slot_mod x : Z.land (wrap64 x) (wrap64 (cap - 1)) = wrap64 x mod cap.
Proof using Hk. pose proof cap_range. rewrite (wrap64_small (cap - 1)) by (unfold is_u64; lia). apply land_mask. lia. Qed.

(** The [d]th slot a probe for [target] reads. *)
Definition slot_at (target d : Z) : Z := (home_slot cap target + d) mod cap.

Lemma home_range target : 0 <= home_slot cap target < cap.
Proof using Hk. unfold home_slot. rewrite slot_mod. apply Z.mod_pos_bound. pose proof cap_range. lia. Qed.

Lemma slot_range target d : 0 <= slot_at target d < cap.
Proof using Hk. apply Z.mod_pos_bound. pose proof cap_range. lia. Qed.

Lemma slot_first target : slot_at target 0 = home_slot cap target.
Proof using Hk. unfold slot_at. rewrite Z.add_0_r. apply Z.mod_small, home_range. Qed.

Lemma slot_next target d : next_slot cap (slot_at target d) = slot_at target (d + 1).
Proof using Hk.
  unfold next_slot. rewrite slot_mod. pose proof (slot_range target d). pose proof cap_range.
  rewrite wrap64_small by (unfold is_u64; lia). unfold slot_at. rewrite Zplus_mod_idemp_l. f_equal. lia.
Qed.

(** Every slot is on the probe path of every target. *)
Lemma slot_reached target s : 0 <= s < cap -> exists d, 0 <= d < cap /\ slot_at target d = s.
Proof using Hk.
  intros Hs. pose proof (home_range target). pose proof cap_range. set (h := home_slot cap target) in *.
  exists ((s - h) mod cap). split; [apply Z.mod_pos_bound; lia|]. unfold slot_at. fold h. rewrite Zplus_mod_idemp_r.
  replace (h + (s - h)) with s by lia. by apply Z.mod_small.
Qed.

Context (e : Z) (s : CpuScatterScratch).

Definition occupied (slot : Z) : Prop := zget (marks s) slot = Some e.
#[local] Instance occupied_dec slot : Decision (occupied slot).
Proof using Type. unfold occupied. apply _. Defined.

Record table (T : list Z) : Prop := {
  table_marks : cap <= zlen (marks s);
  table_keys : cap <= zlen (keys s);
  table_holds : forall slot, 0 <= slot < cap -> occupied slot -> exists t, zget (keys s) slot = Some t /\ t ∈ T;
  table_reach : forall t, t ∈ T -> exists d, 0 <= d < cap /\ zget (keys s) (slot_at t d) = Some t /\
    forall d', 0 <= d' <= d -> occupied (slot_at t d');
  table_count : exists O : list Z, zlen O = zlen T /\ forall slot, 0 <= slot < cap -> occupied slot -> slot ∈ O;
}.

(** A probe that reads occupied slots with other keys up to the [d]th. *)
Lemma probe_skip target d fuel : 0 <= d -> d <= Z.of_nat fuel -> cap <= zlen (marks s) -> cap <= zlen (keys s) ->
  (forall d', 0 <= d' < d -> occupied (slot_at target d') /\ zget (keys s) (slot_at target d') <> Some target) ->
  probe fuel s cap e target (home_slot cap target) = probe (fuel - Z.to_nat d) s cap e target (slot_at target d).
Proof using Hk.
  intros Hd Hfuel Hm Hks. revert d Hd Hfuel. apply (natlike_ind (fun d => d <= Z.of_nat fuel ->
    (forall d', 0 <= d' < d -> occupied (slot_at target d') /\ zget (keys s) (slot_at target d') <> Some target) ->
    probe fuel s cap e target (home_slot cap target) = probe (fuel - Z.to_nat d) s cap e target (slot_at target d))).
  - intros _ _. by rewrite Nat.sub_0_r, slot_first.
  - intros d Hd IH Hf H. unfold Z.succ in *. rewrite IH by (lia || (intros; apply H; lia)).
    replace (fuel - Z.to_nat d)%nat with (S (fuel - Z.to_nat (d + 1)))%nat by lia. cbn [probe].
    destruct (H d ltac:(lia)) as [Hocc Hkey]. unfold occupied in Hocc. rewrite Hocc. cbn [mbind option_bind]. rewrite Z.eqb_refl.
    destruct (zget_is_Some (keys s) (slot_at target d)) as [key Ekey]; [pose proof (slot_range target d); lia|].
    rewrite Ekey. cbn [mbind option_bind]. rewrite (proj2 (Z.eqb_neq key target)) by congruence. by rewrite slot_next.
Qed.

(** A table that is not full has a free slot on every path, and a first one. *)
Lemma free_slot T target : table T -> zlen T < cap ->
  exists d, 0 <= d < cap /\ ~ occupied (slot_at target d) /\ forall d', 0 <= d' < d -> occupied (slot_at target d').
Proof using Hk.
  intros [_ _ _ _ (O & HO & Hocc)] Hlen.
  destruct (decide (Forall (fun d => occupied (slot_at target d)) (range 0 cap))) as [Hall|Hno].
  - exfalso. assert (incl (range 0 cap) O) as Hincl.
    { intros slot Hin. apply list_elem_of_In, elem_of_range in Hin. apply list_elem_of_In. apply Hocc; [done|].
      destruct (slot_reached target slot Hin) as (d & Hd & <-). apply (proj1 (Forall_forall _ _) Hall). by apply elem_of_range. }
    apply List.NoDup_incl_length in Hincl; [|apply NoDup_ListNoDup, range_NoDup]. rewrite length_range in Hincl.
    unfold zlen in *. pose proof cap_range. lia.
  - assert (forall n, 0 <= n -> Forall (fun d => occupied (slot_at target d)) (range 0 n) \/
      exists d, 0 <= d < n /\ ~ occupied (slot_at target d) /\ forall d', 0 <= d' < d -> occupied (slot_at target d')) as Hfirst.
    { apply natlike_ind; [left; constructor|]. intros n Hn [IH | (d & Hd & H)].
      - destruct (decide (occupied (slot_at target n))) as [Ho|Ho].
        + left. unfold Z.succ. rewrite range_snoc by lia. apply Forall_app_2; [done | by constructor].
        + right. exists n. split; [lia|]. split; [done|]. intros d' Hd'. apply (proj1 (Forall_forall _ _) IH). by apply elem_of_range.
      - right. exists d. split; [lia | done]. }
    destruct (Hfirst cap) as [?|(d & Hd & H)]; [pose proof cap_range; lia | done | by exists d].
Qed.

Lemma probe_found T target : table T -> target ∈ T -> probe (Z.to_nat cap) s cap e target (home_slot cap target) = Some None.
Proof using Hk.
  intros HT Hin. destruct (table_reach T HT target Hin) as (d & Hd & Hkey & Hocc). destruct HT as [Hm Hks _ _ _].
  assert (forall n, 0 <= n -> (forall d', 0 <= d' < n -> zget (keys s) (slot_at target d') <> Some target) \/
    exists d0, 0 <= d0 < n /\ zget (keys s) (slot_at target d0) = Some target /\ forall d', 0 <= d' < d0 -> zget (keys s) (slot_at target d') <> Some target) as Hfirst.
  { apply natlike_ind; [left; lia|]. intros n Hn [IH | (d0 & Hd0 & H)].
    - destruct (decide (zget (keys s) (slot_at target n) = Some target)) as [Ho|Ho].
      + right. exists n. split; [lia|]. by split.
      + left. intros d' Hd'. destruct (decide (d' = n)) as [->|]; [done | apply IH; lia].
    - right. exists d0. split; [lia | done]. }
  destruct (Hfirst (d + 1) ltac:(lia)) as [Hno | (d0 & Hd0 & Hkey0 & Hbefore)]; [by destruct (Hno d ltac:(lia))|].
  rewrite (probe_skip target d0) by (done || lia || (intros d' Hd'; split; [apply Hocc; lia | by apply Hbefore])).
  replace (Z.to_nat cap - Z.to_nat d0)%nat with (S (Z.to_nat cap - Z.to_nat d0 - 1)) by lia. cbn [probe].
  pose proof (Hocc d0 ltac:(lia)) as Ho. unfold occupied in Ho. rewrite Ho. cbn [mbind option_bind]. rewrite Z.eqb_refl, Hkey0.
  cbn [mbind option_bind]. by rewrite Z.eqb_refl.
Qed.

Lemma probe_free T target : table T -> zlen T < cap -> target ∉ T ->
  exists d, 0 <= d < cap /\ ~ occupied (slot_at target d) /\ (forall d', 0 <= d' < d -> occupied (slot_at target d')) /\
    probe (Z.to_nat cap) s cap e target (home_slot cap target) = Some (Some (slot_at target d)).
Proof using Hk.
  intros HT Hlen Hin. destruct (free_slot T target HT Hlen) as (d & Hd & Hfree & Hocc). exists d. do 3 (split; [done|]).
  destruct HT as [Hm Hks Hholds _ _].
  rewrite (probe_skip target d).
  - replace (Z.to_nat cap - Z.to_nat d)%nat with (S (Z.to_nat cap - Z.to_nat d - 1)) by lia. cbn [probe].
    destruct (zget_is_Some (marks s) (slot_at target d)) as [mark Em]; [pose proof (slot_range target d); lia|].
    rewrite Em. cbn [mbind option_bind]. rewrite (proj2 (Z.eqb_neq mark e)); [done|]. intros ->. by apply Hfree.
  - lia.
  - lia.
  - done.
  - done.
  - intros d' Hd'. split; [by apply Hocc|]. intros Hkey. destruct (Hholds _ (slot_range target d') (Hocc d' Hd')) as (t & Et & Ht).
    rewrite Hkey in Et. by injection Et as <-.
Qed.
End table.

(** ** Marking *)
Definition scratch_ok (s : CpuScatterScratch) : Prop :=
  is_u32 (epoch s) /\ Forall (fun mark => 0 <= mark <= epoch s) (marks s).

Section marking.
Context (k : Z) (Hk : 0 < k <= 32) (e : Z).
Abbreviation cap := (2 ^ k).

Definition marked_at (s : CpuScatterScratch) (p target : Z) : CpuScatterScratch :=
  {| keys := <[Z.to_nat p := target]> (keys s); marks := <[Z.to_nat p := e]> (marks s); epoch := epoch s |}.

Lemma occupied_marked s p target slot : 0 <= p < zlen (marks s) -> occupied e (marked_at s p target) slot <-> slot = p \/ occupied e s slot.
Proof using All.
  intros Hp. unfold occupied, marked_at. cbn. destruct (decide (slot = p)) as [->|Hne].
  - rewrite zget_insert_eq by done. tauto.
  - rewrite zget_insert_ne by (lia || done). tauto.
Qed.

Lemma table_marked s T target d : table k e s T -> target ∉ T -> 0 <= d < cap ->
  ~ occupied e s (slot_at k target d) -> (forall d', 0 <= d' < d -> occupied e s (slot_at k target d')) ->
  table k e (marked_at s (slot_at k target d) target) (target :: T).
Proof using All.
  intros [Hm Hks Hholds Hreach (O & HO & Hocc)] Hnew Hd Hfree Hpath. set (p := slot_at k target d).
  pose proof (slot_range k Hk target d) as Hp. fold p in Hp, Hfree.
  assert (forall slot, occupied e (marked_at s p target) slot <-> slot = p \/ occupied e s slot) as Hiff.
  { intros slot. apply occupied_marked. lia. }
  assert (forall slot, slot <> p -> zget (keys (marked_at s p target)) slot = zget (keys s) slot) as Hkeys.
  { intros slot Hne. unfold marked_at. cbn. rewrite zget_insert_ne by (lia || done). done. }
  assert (zget (keys (marked_at s p target)) p = Some target) as Hkp by (unfold marked_at; cbn; apply zget_insert_eq; lia).
  split.
  - unfold marked_at. cbn. by rewrite zlen_insert.
  - unfold marked_at. cbn. by rewrite zlen_insert.
  - intros slot Hs Ho. destruct (decide (slot = p)) as [->|Hne].
    + exists target. split; [done | left].
    + apply Hiff in Ho as [?|Ho]; [done|]. destruct (Hholds slot Hs Ho) as (t & Et & Ht). exists t. rewrite Hkeys by done. split; [done | by right].
  - intros t [->|Ht]%elem_of_cons.
    + exists d. split; [done|]. fold p. split; [done|]. intros d' Hd'. apply Hiff.
      destruct (decide (d' = d)) as [->|]; [by left | right; apply Hpath; lia].
    + destruct (Hreach t Ht) as (dt & Hdt & Hkt & Hot). exists dt. split; [done|]. split.
      * rewrite Hkeys; [done|]. intros E. apply Hfree. rewrite <- E. apply Hot. lia.
      * intros d' Hd'. apply Hiff. right. by apply Hot.
  - exists (p :: O). rewrite !zlen_cons, HO. split; [done|]. intros slot Hs [->|Ho]%Hiff; [left | right; by apply Hocc].
Qed.

Lemma MarkScatterTarget_spec s T target : table k e s T -> zlen T < cap ->
  (target ∈ T /\ MarkScatterTarget s cap e target = Some (false, s)) \/
  ((target ∉ T) /\ exists p, 0 <= p < zlen (marks s) /\ MarkScatterTarget s cap e target = Some (true, marked_at s p target) /\
     table k e (marked_at s p target) (target :: T)).
Proof using All.
  intros HT Hlen. unfold MarkScatterTarget. destruct (decide (target ∈ T)) as [Hin|Hnew].
  - left. split; [done|]. by rewrite (probe_found k Hk e s T target HT Hin).
  - right. split; [done|]. destruct (probe_free k Hk e s T target HT Hlen Hnew) as (d & Hd & Hfree & Hpath & ->). cbn [mbind option_bind].
    pose proof (slot_range k Hk target d). pose proof (table_marks _ _ _ _ HT). pose proof (table_keys _ _ _ _ HT).
    exists (slot_at k target d). split; [lia|]. split; [|by apply table_marked]. rewrite !zset_Some by lia. done.
Qed.

Lemma marked_ok s p target : scratch_ok s -> e = epoch s -> scratch_ok (marked_at s p target).
Proof using All.
  intros [He Hm] ->. split; [done|]. unfold marked_at. cbn. apply Forall_insert; [done|]. unfold is_u32 in He. lia.
Qed.
End marking.

(** A new epoch is an empty table. *)
Lemma EnsureScatterCapacity_zlen v cap : cap <= zlen (EnsureScatterCapacity v cap).
Proof. unfold EnsureScatterCapacity. rewrite Z.geb_leb. case_match; to_prop; [done|]. rewrite zlen_app, zlen_replicate. lia. Qed.

Lemma next_epoch_table k s : 0 < k <= 32 -> scratch_ok s ->
  let s' := NextScatterEpoch {| keys := EnsureScatterCapacity (keys s) (2 ^ k); marks := EnsureScatterCapacity (marks s) (2 ^ k); epoch := epoch s |} in
  table k (epoch s') s' [] /\ scratch_ok s'.
Proof.
  intros Hk [He Hm]. unfold is_u32 in He.
  assert (Forall (fun mark => 0 <= mark <= epoch s) (EnsureScatterCapacity (marks s) (2 ^ k))) as Hm'.
  { unfold EnsureScatterCapacity. case_match; [done|]. apply Forall_app_2; [done|]. apply Forall_replicate. lia. }
  pose proof (EnsureScatterCapacity_zlen (keys s) (2 ^ k)) as Hk1. pose proof (EnsureScatterCapacity_zlen (marks s) (2 ^ k)) as Hk2.
  unfold NextScatterEpoch. cbn [epoch keys marks]. destruct (Z.eqb_spec (epoch s) U32_MAX) as [Ee|Ee]; cbn [epoch keys marks].
  - split.
    + split; cbn [keys marks]; [unfold zlen in *; by rewrite length_replicate | done | | intros t []%elem_of_nil |].
      * intros slot _ Ho. exfalso. unfold occupied in Ho. cbn in Ho. apply zget_Some in Ho as [_ Ho]. apply lookup_replicate in Ho as [Ho _]. done.
      * exists []. split; [done|]. intros slot _ Ho. exfalso. unfold occupied in Ho. cbn in Ho. apply zget_Some in Ho as [_ Ho]. apply lookup_replicate in Ho as [Ho _]. done.
    + split; [done|]. cbn. apply Forall_replicate. lia.
  - assert (forall slot, ~ zget (EnsureScatterCapacity (marks s) (2 ^ k)) slot = Some (epoch s + 1)) as Hno.
    { intros slot Ho. apply zget_Some in Ho as [_ Ho]. apply list_elem_of_lookup_2 in Ho.
      pose proof (proj1 (Forall_forall _ _) Hm' _ Ho) as H. cbn in H. lia. }
    rewrite wrap32_small by (unfold is_u32; lia). split.
    + split; cbn [keys marks]; [done | done | | intros t []%elem_of_nil |].
      * intros slot _ Ho. by apply Hno in Ho.
      * exists []. split; [done|]. intros slot _ Ho. by apply Hno in Ho.
    + split; [unfold is_u32; cbn; lia|]. cbn. eapply Forall_impl; [exact Hm'|]. cbn. lia.
Qed.

(** ** The run *)
Section run.
Context (values indices out : list Z) (n output_count : Z).
Context (Hn : 0 < n <= kMaxEncodedCount) (Hi : n <= zlen indices) (Hv : n <= zlen values) (Ho : 0 < output_count <= kMaxOutputCount).
Context (Hout : output_count <= zlen out) (Hpos : Forall (fun i => 0 <= i) indices).

(** The first index the scatter rejects, and why. *)
Definition target_at (i : Z) : Z := default 0 (zget indices i).
Definition accepted (i : Z) : Prop := target_at i < output_count /\ forall j, 0 <= j < i -> target_at j <> target_at i.
Definition rejection (i : Z) : string :=
  if output_count <=? target_at i then "compute_scatter_index_out_of_range" else "compute_scatter_duplicate_index".

(** What the scatter returns and leaves in the output. *)
Definition scattered (r : ScatterResult) (o : list Z) : Prop :=
  ((forall i, 0 <= i < n -> accepted i) /\ r = scatter_ok n output_count /\ write_scatter values indices out n = Some o) \/
  (exists i, 0 <= i < n /\ ~ accepted i /\ (forall j, 0 <= j < i -> accepted j) /\ r = Reject n output_count i (rejection i) /\ o = out).

Lemma target_get i : 0 <= i < n -> zget indices i = Some (target_at i) /\ 0 <= target_at i.
Proof using All.
  intros Hr. destruct (zget_is_Some indices i) as [x Hx]; [lia|]. unfold target_at. rewrite Hx. cbn. split; [done|].
  apply (proj1 (Forall_forall _ _) Hpos). apply zget_Some in Hx as [_ Hx]. by eapply list_elem_of_lookup_2.
Qed.

Lemma write_total : (forall i, 0 <= i < n -> accepted i) ->
  exists o, write_scatter values indices out n = Some o /\ zlen o = zlen out /\
    (forall i, 0 <= i < n -> zget o (target_at i) = zget values i) /\
    (forall slot, (forall i, 0 <= i < n -> target_at i <> slot) -> zget o slot = zget out slot).
Proof using All.
  intros Hacc. unfold write_scatter.
  edestruct (for_range_inv (fun i o => zlen o = zlen out /\ (forall j, 0 <= j < i -> zget o (target_at j) = zget values j) /\
    (forall slot, (forall j, 0 <= j < i -> target_at j <> slot) -> zget o slot = zget out slot))) as (o & E & H).
  4: { by exists o. }
  - lia.
  - split; [done|]. split; [lia | done].
  - intros i o Hr (Hz & Hw & Hkeep). destruct (target_get i Hr) as [-> H0]. destruct (zget_is_Some values i) as [v Ev]; [lia|]. rewrite Ev. cbn [mbind option_bind].
    destruct (Hacc i Hr) as [Hlt Hdis]. rewrite zset_Some by lia. eexists. split; [done|]. split; [by rewrite zlen_insert|]. split.
    + intros j Hj. destruct (decide (j = i)) as [->|Hne].
      * rewrite zget_insert_eq by lia. done.
      * rewrite zget_insert_ne; [apply Hw; lia | done|]. intros E. apply (Hdis j); [lia | done].
    + intros slot Hs. rewrite zget_insert_ne; [apply Hkeep; intros; apply Hs; lia | done | apply Hs; lia].
Qed.

Lemma rejection_range i : output_count <= target_at i -> rejection i = "compute_scatter_index_out_of_range".
Proof using All. intros H. unfold rejection. by rewrite (proj2 (Z.leb_le _ _)). Qed.
Lemma rejection_duplicate i : target_at i < output_count -> rejection i = "compute_scatter_duplicate_index".
Proof using All. intros H. unfold rejection. by rewrite (proj2 (Z.leb_gt _ _)). Qed.

Lemma ReferenceScatter_spec : exists r o, ReferenceScatter (Some values) (Some indices) (Some out) n output_count = Some (r, Some o) /\ scattered r o.
Proof using All.
  unfold ReferenceScatter. rewrite (proj2 (Z.eqb_neq n 0)), (proj2 (Z.eqb_neq output_count 0)), !Z.gtb_ltb, !(proj2 (Z.ltb_ge _ _)) by lia.
  edestruct (for_range_safe (fun i (_ : unit) => forall j, 0 <= j < i -> accepted j)
    (fun r : ScatterResult * buffer => exists i, 0 <= i < n /\ ~ accepted i /\ (forall j, 0 <= j < i -> accepted j) /\ r = (Reject n output_count i (rejection i), Some out)))
    as [(r & E & i & H1 & H2 & H3 & ->) | ([] & E & Hacc)]; cycle -2.
  - rewrite E. cbn [after mbind option_bind]. do 2 eexists. split; [done|]. right. by exists i.
  - rewrite E. cbn [after mbind option_bind]. destruct (write_total Hacc) as (o & Ew & _). rewrite Ew. cbn [mbind option_bind].
    do 2 eexists. split; [done|]. left. done.
  - lia.
  - lia.
  - intros i [] Hr Hacc. destruct (target_get i Hr) as [-> H0]. cbn [mbind option_bind]. rewrite Z.geb_leb.
    destruct (Z.leb_spec output_count (target_at i)) as [Hge|Hlt].
    { left. eexists. split; [done|]. exists i. split; [done|]. split; [intros [? _]; lia|]. split; [done|]. by rewrite rejection_range. }
    edestruct (for_range_safe (fun j (_ : unit) => forall j', 0 <= j' < j -> target_at j' <> target_at i)
      (fun r : ScatterResult * buffer => (exists j, 0 <= j < i /\ target_at j = target_at i) /\ r = (Reject n output_count i "compute_scatter_duplicate_index", Some out)))
      as [(r & E & (j & Hj & Ej) & ->) | ([] & E & Hdis)]; cycle -2.
    + rewrite E. cbn [mbind option_bind]. left. eexists. split; [done|]. exists i. split; [done|].
      split; [intros [_ Hd]; by apply (Hd j)|]. split; [done|]. by rewrite rejection_duplicate.
    + rewrite E. cbn [mbind option_bind]. right. exists tt. split; [done|]. intros j Hj.
      destruct (decide (j = i)) as [->|]; [by split | apply Hacc; lia].
    + lia.
    + lia.
    + intros j [] Hj Hd. destruct (target_get j ltac:(lia)) as [-> _]. cbn [mbind option_bind].
      destruct (Z.eqb_spec (target_at j) (target_at i)) as [Ej|Ej].
      * left. eexists. split; [done|]. split; [by exists j | done].
      * right. exists tt. split; [done|]. intros j' Hj'. destruct (decide (j' = j)) as [->|]; [done | apply Hd; lia].
Qed.

Lemma ExecuteLinearScatter_spec scratch k : 0 < k <= 32 -> 2 * n <= 2 ^ k -> scratch_ok scratch ->
  exists r o scratch', ExecuteLinearScatter scratch values indices out n output_count (2 ^ k) = Some (r, o, scratch') /\
    scattered r o /\ scratch_ok scratch'.
Proof using All.
  intros Hk Hcap Hs. unfold ExecuteLinearScatter. pose proof (pow2_pos k). rewrite (proj2 (Z.eqb_neq (2 ^ k) 0)) by lia.
  destruct (next_epoch_table k scratch Hk Hs) as [Ht Hs']. set (s := NextScatterEpoch _) in *. clearbody s.
  edestruct (for_range_safe (fun i st => epoch st = epoch s /\ scratch_ok st /\ (forall j, 0 <= j < i -> accepted j) /\
      exists T, table k (epoch s) st T /\ zlen T = i /\ forall t, t ∈ T <-> exists j, 0 <= j < i /\ target_at j = t)
    (fun r : ScatterResult * list Z * CpuScatterScratch => scratch_ok r.2 /\ exists i, 0 <= i < n /\ ~ accepted i /\ (forall j, 0 <= j < i -> accepted j) /\
      r.1 = (Reject n output_count i (rejection i), out)))
    as [([[r o] st] & E & Hst & i & H1 & H2 & H3 & Er) | (st & E & Ee & Hst & Hacc & _)]; cycle -2.
  - rewrite E. cbn [after mbind option_bind fst snd] in *. injection Er as -> ->. do 3 eexists. split; [done|]. split; [|done].
    right. by exists i.
  - rewrite E. cbn [after mbind option_bind]. destruct (write_total Hacc) as (o & Ew & _). rewrite Ew. cbn [mbind option_bind].
    do 3 eexists. split; [done|]. split; [left; by split | done].
  - lia.
  - split; [done|]. split; [done|]. split; [lia|]. exists []. split; [done|]. split; [done|]. intros t. rewrite elem_of_nil. split; [done|]. intros (j & Hj & _). lia.
  - intros i st Hr (Ee & Hst & Hacc & T & HT & HzT & Hin). destruct (target_get i Hr) as [-> H0]. cbn [mbind option_bind]. rewrite Z.geb_leb.
    destruct (Z.leb_spec output_count (target_at i)) as [Hge|Hlt].
    { left. eexists. split; [done|]. split; [done|]. exists i. split; [done|]. split; [intros [? _]; lia|]. split; [done|]. by rewrite rejection_range. }
    destruct (MarkScatterTarget_spec k Hk (epoch s) st T (target_at i) HT ltac:(lia)) as [[Hdup ->] | (Hnew & p & Hp & -> & HT')]; cbn [mbind option_bind negb].
    + left. eexists. split; [done|]. split; [done|]. apply Hin in Hdup as (j & Hj & Ej). exists i. split; [done|].
      split; [intros [_ Hd]; by apply (Hd j)|]. split; [done|]. by rewrite rejection_duplicate.
    + right. eexists. split; [done|]. split; [done|]. split; [by apply (marked_ok k Hk)|]. split.
      * intros j Hj. destruct (decide (j = i)) as [->|]; [|apply Hacc; lia]. split; [done|]. intros j' Hj' Ej. apply Hnew, Hin. by exists j'.
      * exists (target_at i :: T). split; [done|]. split; [rewrite zlen_cons; lia|]. intros t. rewrite elem_of_cons, Hin. split.
        -- intros [->|(j & Hj & Ej)]; [exists i; split; [lia | done] | exists j; split; [lia | done]].
        -- intros (j & Hj & Ej). destruct (decide (j = i)) as [->|]; [by left | right; exists j; split; [lia | done]].
Qed.
End run.

(** ** The scatter primitive under its plan, and gather after scatter *)
Lemma PlanScatter_ok desc plan : PlanScatter desc = Some plan -> p_ok plan = true -> 0 <= d_element_count desc -> 0 <= d_output_count desc ->
  p_element_count plan = d_element_count desc /\ p_output_count plan = d_output_count desc /\
  0 < d_element_count desc <= kMaxEncodedCount /\ 0 < d_output_count desc <= kMaxOutputCount /\
  ScratchSlots (d_element_count desc) = Some (scratch_slots plan).
Proof.
  unfold PlanScatter. intros E Hok Hn Ho.
  destruct (ElementBytes (d_element desc) =? 0); [by injection E as <-|].
  destruct (Z.eqb_spec (d_element_count desc) 0); [by injection E as <-|]. rewrite !Z.gtb_ltb in E.
  destruct (Z.ltb_spec kMaxEncodedCount (d_element_count desc)); [by injection E as <-|].
  destruct (Z.eqb_spec (d_output_count desc) 0); [by injection E as <-|].
  destruct (Z.ltb_spec kMaxOutputCount (d_output_count desc)); [by injection E as <-|].
  destruct (ScratchSlots (d_element_count desc)) as [slots|]; [|done]. cbn [mbind option_bind] in E. injection E as <-. cbn. repeat split; lia.
Qed.

Lemma scattered_unique values indices out n output_count r o r' o' :
  scattered values indices out n output_count r o -> scattered values indices out n output_count r' o' -> r = r' /\ o = o'.
Proof.
  intros [(Ha & -> & Hw) | (i & Hi & Hni & Hbi & -> & ->)] [(Ha' & -> & Hw') | (i' & Hi' & Hni' & Hbi' & -> & ->)].
  - split; [done | congruence].
  - by destruct Hni'; apply Ha.
  - by destruct Hni; apply Ha'.
  - assert (i = i') as ->; [|done]. destruct (Z.lt_trichotomy i i') as [?|[?|?]]; [|done|].
    + destruct Hni. apply Hbi'. lia.
    + destruct Hni'. apply Hbi. lia.
Qed.

(** C18: Under a plan that [PlanScatter] accepts, the CPU scatter with its epoch-cleared
    hash table returns what the kernel's quadratic reference returns - the same first
    rejected index and reason, and the same output - from any scratch an earlier call left,
    and leaves such a scratch. *)
Theorem linear_scatter_refines desc plan values indices out scratch :
  PlanScatter desc = Some plan -> p_ok plan = true -> 0 <= d_element_count desc -> 0 <= d_output_count desc ->
  p_element_count plan <= zlen indices -> p_element_count plan <= zlen values -> p_output_count plan <= zlen out ->
  Forall (fun i => 0 <= i) indices -> scratch_ok (default fresh_scratch scratch) ->
  exists r o scratch', ReferenceScatter (Some values) (Some indices) (Some out) (p_element_count plan) (p_output_count plan) = Some (r, Some o) /\
    run_cpu_scatter plan values indices out scratch = Some (if r_ok r then accel_ok else accel_fail (r_reason r), o, Some scratch') /\
    scratch_ok scratch' /\ scattered values indices out (p_element_count plan) (p_output_count plan) r o.
Proof.
  intros E Hok Hn Ho Hi Hv Hout Hpos Hs. destruct (PlanScatter_ok desc plan E Hok Hn Ho) as (En & Eo & Hn' & Ho' & Eslots).
  rewrite <- En in Hn', Eslots. rewrite <- Eo in Ho'. destruct (ScratchSlots_spec (p_element_count plan) Hn') as (k & Ek & Hk & Hcap).
  rewrite Eslots in Ek. injection Ek as Ek.
  destruct (ReferenceScatter_spec values indices out (p_element_count plan) (p_output_count plan) Hn' Hi Hv Ho' Hout Hpos) as (r & o & Er & Hr).
  destruct (ExecuteLinearScatter_spec values indices out (p_element_count plan) (p_output_count plan) Hn' Hi Hv Ho' Hout Hpos
    (default fresh_scratch scratch) k Hk Hcap Hs) as (r' & o' & s' & Er' & Hr' & Hs').
  destruct (scattered_unique _ _ _ _ _ _ _ _ _ Hr Hr') as [<- <-].
  exists r, o, s'. split; [done|]. split; [|by split]. unfold run_cpu_scatter. rewrite Ek, Er'. done.
Qed.

Definition example_desc : ScatterDesc := {| d_element := ScatterU32; d_element_count := 3; d_output_count := 4 |}.

Definition example_plan : ScatterPlan :=
  {| p_element := ScatterU32; p_element_count := 3; p_output_count := 4; p_element_bytes := 4; p_index_bytes := 4;
     p_status_bytes := 20; p_temp_bytes := 20; scratch_slots := 8; p_pass_count := 1; p_ok := true; p_reason := "ok" |}.

(** A second scatter, on the scratch of a first one with the same targets. *)
Lemma linear_scatter_refines_witness :
  let scratch := {| keys := [0; 3; 1; 0; 0; 0; 0; 0]; marks := [1; 1; 1; 0; 0; 0; 0; 0]; epoch := 1 |} in
  exists r o scratch', ReferenceScatter (Some [7; 8; 9]) (Some [3; 0; 3]) (Some [0; 0; 0; 0]) 3 4 = Some (r, Some o) /\
    run_cpu_scatter example_plan [7; 8; 9] [3; 0; 3] [0; 0; 0; 0] (Some scratch) =
      Some (if r_ok r then accel_ok else accel_fail (r_reason r), o, Some scratch') /\
    scratch_ok scratch' /\ scattered [7; 8; 9] [3; 0; 3] [0; 0; 0; 0] 3 4 r o.
Proof.
  intros scratch. apply (linear_scatter_refines example_desc example_plan [7; 8; 9] [3; 0; 3] [0; 0; 0; 0] (Some scratch)); try reflexivity; try (vm_compute; discriminate).
  - repeat constructor; lia.
  - split; [vm_compute; split; discriminate | repeat constructor; vm_compute; discriminate].
Defined.

Example duplicate_rejected :
  option_map fst (run_cpu_scatter example_plan
      [7; 8; 9] [3; 0; 3] [0; 0; 0; 0] None) = Some (accel_fail "compute_scatter_duplicate_index", [0; 0; 0; 0]).
Proof. reflexivity. Qed.

(** Gathering what a successful scatter wrote, by the same indices, gives the values
    back, and the scatter keeps every output slot that no index names. *)
Theorem scatter_gather_roundtrip values indices out n output_count r o back :
  0 < n <= kMaxEncodedCount -> n <= zlen indices -> n <= zlen values -> n <= zlen back -> 0 < output_count <= kMaxOutputCount ->
  output_count <= zlen out -> Forall (fun i => 0 <= i) indices ->
  ReferenceScatter (Some values) (Some indices) (Some out) n output_count = Some (r, Some o) -> r_ok r = true ->
  (exists g, Gather.ReferenceGather (Some o) (Some indices) (Some back) n output_count = Some (g, Some (take (Z.to_nat n) values ++ drop (Z.to_nat n) back)) /\
     Gather.r_ok g = true) /\
  zlen o = zlen out /\ forall slot, (forall i, 0 <= i < n -> target_at indices i <> slot) -> zget o slot = zget out slot.
Proof.
  intros Hn Hi Hv Hb Ho Hout Hpos E Hok.
  destruct (ReferenceScatter_spec values indices out n output_count Hn Hi Hv Ho Hout Hpos) as (r' & o' & E' & Hr).
  rewrite E in E'. injection E' as <- <-. destruct Hr as [(Hacc & _ & Hw) | (i & _ & _ & _ & -> & _)]; [|done].
  destruct (write_total values indices out n output_count Hn Hi Hv Ho Hout Hpos Hacc) as (o' & Ew & Hz & Hget & Hkeep).
  rewrite Hw in Ew. injection Ew as <-. split; [|by split].
  destruct (Gather.preflight_spec indices n output_count (Some back) ltac:(lia) Hi) as [[Epre Hvalid] | (i & Hr & Hbad & _)].
  2: { destruct Hbad. apply (Hacc i Hr). }
  unfold Gather.ReferenceGather. rewrite (proj2 (Z.eqb_neq n 0)), (proj2 (Z.eqb_neq output_count 0)) by lia.
  change Gather.kMaxU32AddressableCount with 4294967296. change kMaxOutputCount with 4294967295 in Ho.
  rewrite Z.gtb_ltb, (proj2 (Z.ltb_ge _ _)), Epre by lia. cbn [after mbind option_bind].
  edestruct (for_range_inv (fun i b => b = filled (at_index values) i back)) as (b & Eb & Hbk).
  4: { rewrite Eb. cbn [mbind option_bind]. subst b.
       assert (filled (at_index values) n back = take (Z.to_nat n) values ++ drop (Z.to_nat n) back) as ->; [|by eexists].
       unfold filled. f_equal.
       apply list_eq. intros j. rewrite list_lookup_fmap. destruct (decide (Z.of_nat j < n)).
       - destruct (zget_is_Some values (Z.of_nat j)) as [v Ev]; [lia|]. rewrite lookup_take_lt by lia.
         change (range 0 n !! j) with (seqZ 0 (n - 0) !! j). rewrite lookup_seqZ_lt by lia. cbn. unfold at_index. rewrite Z.add_0_l, Ev. rewrite zget_nat in Ev. by rewrite Ev.
       - rewrite lookup_take_ge by lia. unfold range. rewrite lookup_seqZ_ge by lia. done. }
  - lia.
  - done.
  - intros i b Hr ->. destruct (target_get values indices out n output_count Hn Hi Hv Ho Hout Hpos i Hr) as [-> _]. cbn [mbind option_bind].
    rewrite Hget by done. destruct (zget_is_Some values i) as [v Ev]; [lia|]. rewrite Ev. cbn [mbind option_bind].
    rewrite <- (at_index_eq _ _ _ Ev). eexists. split; [apply (filled_step (at_index values)); lia | done].
Qed.

Lemma scatter_gather_roundtrip_witness :
  (exists g, Gather.ReferenceGather (Some [8; 0; 0; 7]) (Some [3; 0]) (Some [0; 0; 5]) 2 4 = Some (g, Some [7; 8; 5]) /\ Gather.r_ok g = true) /\
  zlen [8; 0; 0; 7] = zlen [0; 0; 0; 0] /\
  forall slot, (forall i, 0 <= i < 2 -> target_at [3; 0] i <> slot) -> zget [8; 0; 0; 7] slot = zget [0; 0; 0; 0] slot.
Proof.
  apply (scatter_gather_roundtrip [7; 8] [3; 0] [0; 0; 0; 0] 2 4 (scatter_ok 2 4) [8; 0; 0; 7] [0; 0; 5]); try reflexivity; try (vm_compute; discriminate);
    try (vm_compute; split; (reflexivity || discriminate)).
  repeat constructor; lia.
Defined.
