(* ===== verification/IrModel.v ===== *)
(** * IrModel: the compute IR

    The canonical IR of a map as the lowering sees it: scalars, domains and fixed-point
    formats ([kernel/program/compute/model.hpp]), opcodes ([ir.hpp]), parsed nodes,
    bindings and programs ([lowering/model.hpp]), and the classification of a node's value
    edges ([lowering/names/ops.hpp], [lowering/resource.hpp]).

    Node [i] of a program defines the value [i + 1]; the value 0 is none. *)
From stdpp Require Import base numbers list option strings.
From Stdlib Require Import ZArith Lia.
From S2P Require Import Prelude.

Module Op.
Inductive IrOp :=
| Param | Read | Write | Add | Sub | Mul | MulWrap | Min | Max | Clamp | Select | Eq | Lt | Le
| Constant | Neg | Abs | AbsMagnitude | Sign | Ne | Gt | Ge | PredicateNot | PredicateAnd | PredicateOr
| BitAnd | BitOr | BitXor | BitNot | ShlConst | ShrLogicalConst | ShrArithmeticConst
| AddSat | AddSatUnsigned | SubSat | NegPositiveFixed | MulFixed | MulFixedScaled | MulUnsignedFixed
| MulAddFixed | DivFixed | Recip | Sqrt | Rsqrt | Sin | Cos | Tan | Exp | Log | Atan2
| DivSigned | DivUnsigned | MinUnsigned | MaxUnsigned | ClampUnsigned
| LtUnsigned | LeUnsigned | GtUnsigned | GeUnsigned | Index | Quantize | ReadAt | ReadUniform.

(** The opcodes in the order of their codes 0, 1, ... *)
Definition all : list IrOp :=
  [Param; Read; Write; Add; Sub; Mul; MulWrap; Min; Max; Clamp; Select; Eq; Lt; Le;
   Constant; Neg; Abs; AbsMagnitude; Sign; Ne; Gt; Ge; PredicateNot; PredicateAnd; PredicateOr;
   BitAnd; BitOr; BitXor; BitNot; ShlConst; ShrLogicalConst; ShrArithmeticConst;
   AddSat; AddSatUnsigned; SubSat; NegPositiveFixed; MulFixed; MulFixedScaled; MulUnsignedFixed;
   MulAddFixed; DivFixed; Recip; Sqrt; Rsqrt; Sin; Cos; Tan; Exp; Log; Atan2;
   DivSigned; DivUnsigned; MinUnsigned; MaxUnsigned; ClampUnsigned;
   LtUnsigned; LeUnsigned; GtUnsigned; GeUnsigned; Index; Quantize; ReadAt; ReadUniform].
End Op.

#[export] Instance IrOp_eq_dec : EqDecision Op.IrOp.
Proof. solve_decision. Defined.

(** [static_cast<u8>(op)] and, for a byte, the opcode it casts to; [OpName] is null for a
    byte that is no opcode. *)
Definition op_code (op : Op.IrOp) : Z :=
  match list_find (eq op) Op.all with Some (i, _) => Z.of_nat i | None => 0 end.
Definition op_of_code (code : Z) : option Op.IrOp := zget Op.all code.

Lemma op_code_of op : op_of_code (op_code op) = Some op.
Proof. by destruct op. Qed.

Lemma op_code_range op : 0 <= op_code op < 63.
Proof. destruct op; vm_compute; split; (discriminate || reflexivity). Qed.

Inductive ComputeScalar := Lane32 | Lane64.
Inductive ComputeDomain := I32 | U32 | I64 | U64 | Fixed.
#[export] Instance ComputeScalar_eq_dec : EqDecision ComputeScalar.
Proof. solve_decision. Defined.
#[export] Instance ComputeDomain_eq_dec : EqDecision ComputeDomain.
Proof. solve_decision. Defined.

(** Rounding, overflow and approximation are the bytes of their enumerations. *)
Record ComputeFixedFormat := mkFormat {
  integer_bits : Z; fraction_bits : Z; rounding : Z; overflow : Z; approximation : Z;
}.
#[export] Instance ComputeFixedFormat_eq_dec : EqDecision ComputeFixedFormat.
Proof. solve_decision. Defined.
Definition no_format : ComputeFixedFormat := mkFormat 0 0 0 0 0.

Definition TowardZero : Z := 1.
Definition Down : Z := 2.
Definition Up : Z := 3.
Definition NearestEven : Z := 4.
Definition Saturate : Z := 1.
Definition WrapAround : Z := 2.
Definition Exact : Z := 1.
Definition Deterministic : Z := 2.

Definition ComputeFixedFormatAbsent (f : ComputeFixedFormat) : bool :=
  (integer_bits f =? 0) && (fraction_bits f =? 0) && (rounding f =? 0) && (overflow f =? 0) && (approximation f =? 0).

Definition ComputeScalarBits (scalar : ComputeScalar) : Z := match scalar with Lane32 => 32 | Lane64 => 64 end.

Definition policy_valid (f : ComputeFixedFormat) : bool :=
  (TowardZero <=? rounding f) && (rounding f <=? NearestEven) && (Saturate <=? overflow f) && (overflow f <=? WrapAround) &&
  (Exact <=? approximation f) && (approximation f <=? Deterministic).

Definition ComputeFixedFormatValid (scalar : ComputeScalar) (f : ComputeFixedFormat) : bool :=
  let width := integer_bits f + fraction_bits f in
  negb (integer_bits f =? 0) && negb (fraction_bits f =? 0) && (width =? ComputeScalarBits scalar) && policy_valid f.

Definition ComputeIntermediateFormatValid (f : ComputeFixedFormat) : bool :=
  ComputeFixedFormatAbsent f ||
  (let width := integer_bits f + fraction_bits f in
   negb (integer_bits f =? 0) && negb (fraction_bits f =? 0) && (width <=? 128) && policy_valid f).

(** Names and payloads are lists of bytes. *)
Record ParsedBinding := mkBinding {
  b_kind : Z; b_numeric_mode : Z; b_name : list Z; b_element_bytes : Z; b_floating_point_param : bool; b_value_bytes : list Z;
}.
Record ParsedNode := mkNode { n_op : Op.IrOp; n_lhs : Z; n_rhs : Z; n_aux : Z; n_format : ComputeFixedFormat }.
Record ParsedIR := mkIR {
  ir_name : list Z; ir_scalar_mode : Z; ir_format : ComputeFixedFormat; ir_bindings : list ParsedBinding; ir_nodes : list ParsedNode;
}.
#[export] Instance ParsedBinding_eq_dec : EqDecision ParsedBinding.
Proof. solve_decision. Defined.
#[export] Instance ParsedNode_eq_dec : EqDecision ParsedNode.
Proof. solve_decision. Defined.

Definition kParamBindingKind : Z := 1.
Definition kReadBindingKind : Z := 2.
Definition kWriteBindingKind : Z := 3.
Definition kMaxComputeBindingCount : Z := 64.
Definition kMaxComputeNodeCount : Z := 1024.

Definition ScalarModeFor (scalar : ComputeScalar) : Z := match scalar with Lane64 => 2 | Lane32 => 1 end.
Definition DomainModeFor (scalar : ComputeScalar) (domain : ComputeDomain) : Z :=
  match domain with I32 => 3 | U32 => 4 | I64 => 5 | U64 => 6 | Fixed => ScalarModeFor scalar end.
Definition ScalarBitWidth (scalar : ComputeScalar) : Z := match scalar with Lane64 => 64 | Lane32 => 32 end.
Definition ScalarBytes (scalar : ComputeScalar) : Z := match scalar with Lane64 => 8 | Lane32 => 4 end.

(** ** Value edges of a node *)
Definition UnaryValueOp (op : Op.IrOp) : bool :=
  match op with
  | Op.Neg | Op.Abs | Op.AbsMagnitude | Op.Sign | Op.Quantize | Op.PredicateNot | Op.BitNot | Op.NegPositiveFixed
  | Op.Recip | Op.Sqrt | Op.Rsqrt | Op.Sin | Op.Cos | Op.Tan | Op.Exp | Op.Log => true
  | _ => false
  end.
Definition BinaryValueOp (op : Op.IrOp) : bool :=
  match op with
  | Op.Add | Op.Sub | Op.Mul | Op.MulWrap | Op.Min | Op.Max | Op.Eq | Op.Lt | Op.Le | Op.Ne | Op.Gt | Op.Ge
  | Op.PredicateAnd | Op.PredicateOr | Op.BitAnd | Op.BitOr | Op.BitXor | Op.AddSat | Op.AddSatUnsigned | Op.SubSat
  | Op.MulFixed | Op.MulFixedScaled | Op.MulUnsignedFixed | Op.DivFixed | Op.Atan2 | Op.DivSigned | Op.DivUnsigned
  | Op.MinUnsigned | Op.MaxUnsigned | Op.LtUnsigned | Op.LeUnsigned | Op.GtUnsigned | Op.GeUnsigned => true
  | _ => false
  end.
Definition ConstShiftOp (op : Op.IrOp) : bool :=
  match op with Op.ShlConst | Op.ShrLogicalConst | Op.ShrArithmeticConst => true | _ => false end.
Definition TernaryValueOp (op : Op.IrOp) : bool :=
  match op with Op.Clamp | Op.Select | Op.MulAddFixed | Op.ClampUnsigned => true | _ => false end.

Record ParsedNodeResources := { refs : list Z; produces_value : bool }.

(** [None] is the source's result that is not [ok]; a list of [ref_count] edges. *)
Definition ParsedNodeResourcesFor (node : ParsedNode) : option ParsedNodeResources :=
  let op := n_op node in
  if bool_decide (op = Op.Write) then Some {| refs := [n_lhs node]; produces_value := false |} else
  if UnaryValueOp op || ConstShiftOp op then Some {| refs := [n_lhs node]; produces_value := true |} else
  if BinaryValueOp op then Some {| refs := [n_lhs node; n_rhs node]; produces_value := true |} else
  if TernaryValueOp op then Some {| refs := [n_lhs node; n_rhs node; n_aux node]; produces_value := true |} else
  match op with
  | Op.Param | Op.Read | Op.ReadUniform | Op.ReadAt | Op.Constant | Op.Index => Some {| refs := []; produces_value := true |}
  | _ => None
  end.

Lemma resources_total node : exists r, ParsedNodeResourcesFor node = Some r /\ (produces_value r = false <-> n_op node = Op.Write).
Proof. destruct node as [[] ? ? ? ?]; eexists; (split; [reflexivity|]); split; (reflexivity || discriminate). Qed.

(** The edges themselves: every opcode is classified. *)
Definition node_refs (node : ParsedNode) : list Z := match ParsedNodeResourcesFor node with Some r => refs r | None => [] end.
Definition is_write (node : ParsedNode) : bool := bool_decide (n_op node = Op.Write).

Lemma resources_eq node :
  ParsedNodeResourcesFor node = Some {| refs := node_refs node; produces_value := negb (is_write node) |}.
Proof. destruct node as [[] ? ? ? ?]; reflexivity. Qed.

(** The loop of [ValidateLowerableIR] over the value edges: an edge names an earlier node
    that produces a value. *)
Definition edge_ok (produced : list bool) (current ref : Z) : bool :=
  negb (ref =? 0) && (ref <? current) && default false (zget produced ref).
Definition value_edges_ok (nodes : list ParsedNode) : bool :=
  (fix go (produced : list bool) (nodes : list ParsedNode) : bool :=
     match nodes with
     | [] => true
     | node :: nodes =>
         forallb (edge_ok produced (zlen produced)) (node_refs node) && go (produced ++ [negb (is_write node)]) nodes
     end) [false] nodes.
