(* ===== verification/IrCodec.v ===== *)
(** * IrCodec: the canonical bytes of a compute map

    The reader and the parser of canonical IR ([kernel/src/program/compute/lowering/parse]),
    the writer ([lowering/serialize.hpp], [lowering/fusion/artifact.cpp]), the hash of the
    bytes ([program/compute/ir.cpp]) and what admission checks before it parses
    ([lowering/admission.hpp]).

    A reader is the list of the bytes it has not read. A parsed program or the reason of
    its rejection is a sum. *)
From stdpp Require Import base numbers list option strings.
From Stdlib Require Import ZArith Lia.
From S2P Require Import Prelude IrModel.

(** A rejection leaves the function it occurs in. *)
Definition or_reject {A B} (r : A + string) (k : A -> B + string) : B + string :=
  match r with inl a => k a | inr reason => inr reason end.
Notation "x ⇐ r ; k" := (or_reject r (fun x => k)) (at level 20, r at level 100, k at level 200, right associativity).
Notation "' x ⇐ r ; k" := (or_reject r (fun x => k)) (at level 20, x pattern, r at level 100, k at level 200, right associativity).
Definition reading {A} (r : option A) (reason : string) : A + string :=
  match r with Some a => inl a | None => inr reason end.
Definition unless (reason : option string) : unit + string :=
  match reason with Some reason => inr reason | None => inl tt end.

(** ** [Reader] *)
Definition Reader := list Z.
Definition remaining (r : Reader) : Z := zlen r.

Definition read_u8 (r : Reader) : option (Z * Reader) :=
  match r with b :: r => Some (b, r) | [] => None end.
Definition read_u32 (r : Reader) : option (Z * Reader) :=
  match r with
  | b0 :: b1 :: b2 :: b3 :: r => Some (Z.lor (Z.lor (Z.lor b0 (Z.shiftl b1 8)) (Z.shiftl b2 16)) (Z.shiftl b3 24), r)
  | _ => None
  end.
(** [read_string] reads the same bytes. *)
Definition read_bytes (r : Reader) : option (list Z * Reader) :=
  '(size, r) ← read_u32 r;
  if remaining r <? size then None else Some (take (Z.to_nat size) r, drop (Z.to_nat size) r).

Definition read_format (r : Reader) : option (ComputeFixedFormat * Reader) :=
  '(integer, r) ← read_u8 r; '(fraction, r) ← read_u8 r; '(rounding, r) ← read_u8 r;
  '(overflow, r) ← read_u8 r; '(approximation, r) ← read_u8 r;
  Some (mkFormat integer fraction rounding overflow approximation, r).

(** ** The writer *)
Definition AppendSerializedU8 (bytes : list Z) (value : Z) : list Z := bytes ++ [value].
Definition AppendSerializedU32 (bytes : list Z) (value : Z) : list Z :=
  bytes ++ [Z.land value 255; Z.land (Z.shiftr value 8) 255; Z.land (Z.shiftr value 16) 255; Z.land (Z.shiftr value 24) 255].
Definition AppendSerializedBytes (bytes value : list Z) : list Z := AppendSerializedU32 bytes (wrap32 (zlen value)) ++ value.
Definition append_format (bytes : list Z) (f : ComputeFixedFormat) : list Z :=
  AppendSerializedU8 (AppendSerializedU8 (AppendSerializedU8 (AppendSerializedU8 (AppendSerializedU8 bytes
    (integer_bits f)) (fraction_bits f)) (rounding f)) (overflow f)) (approximation f).

Definition AppendSerializedBinding (bytes : list Z) (b : ParsedBinding) : list Z :=
  let bytes := AppendSerializedU8 (AppendSerializedU8 bytes (b_kind b)) (b_numeric_mode b) in
  let bytes := AppendSerializedU32 (AppendSerializedBytes bytes (b_name b)) (b_element_bytes b) in
  AppendSerializedBytes (AppendSerializedU8 bytes (if b_floating_point_param b then 1 else 0)) (b_value_bytes b).

Definition AppendSerializedNode (bytes : list Z) (n : ParsedNode) : list Z :=
  let bytes := AppendSerializedU32 (AppendSerializedU8 bytes (op_code (n_op n))) (n_lhs n) in
  append_format (AppendSerializedU32 (AppendSerializedU32 bytes (n_rhs n)) (n_aux n)) (n_format n).

(** "rund.compute.ir" *)
Definition kSchema : list Z := [114; 117; 110; 100; 46; 99; 111; 109; 112; 117; 116; 101; 46; 105; 114].

Definition SerializeParsedIR (p : ParsedIR) : list Z :=
  let bytes := AppendSerializedBytes (AppendSerializedBytes [] kSchema) (ir_name p) in
  let bytes := append_format (AppendSerializedU8 bytes (ir_scalar_mode p)) (ir_format p) in
  let bytes := AppendSerializedU32 bytes (wrap32 (zlen (ir_bindings p))) in
  let bytes := fold_left AppendSerializedBinding (ir_bindings p) bytes in
  let bytes := AppendSerializedU32 bytes (wrap32 (zlen (ir_nodes p))) in
  fold_left AppendSerializedNode (ir_nodes p) bytes.

(** ** Bindings *)
Definition BindingIs (bindings : list ParsedBinding) (index kind : Z) : bool :=
  bool_decide (b_kind <$> zget bindings index = Some kind).
Definition DuplicateBindingName (bindings : list ParsedBinding) (b : ParsedBinding) : bool :=
  existsb (fun existing => (b_kind existing =? b_kind b) && bool_decide (b_name existing = b_name b)) bindings.

Definition ReadParsedBinding (r : Reader) : option (ParsedBinding * Reader) :=
  '(kind, r) ← read_u8 r; '(mode, r) ← read_u8 r; '(name, r) ← read_bytes r;
  '(element_bytes, r) ← read_u32 r; '(floating_point, r) ← read_u8 r; '(value_bytes, r) ← read_bytes r;
  Some (mkBinding kind mode name element_bytes (negb (floating_point =? 0)) value_bytes, r).

Definition kind_known (kind : Z) : bool := (kind =? 1) || (kind =? 2) || (kind =? 3).

Definition ValidateParsedBinding (bindings : list ParsedBinding) (b : ParsedBinding) : option string :=
  if negb (kind_known (b_kind b)) || (b_numeric_mode b <? 1) || (b_numeric_mode b >? 6) || (b_element_bytes b =? 0)
  then Some "compute_ir_binding_invalid" else
  if (b_kind b =? kParamBindingKind) && b_floating_point_param b then Some "compute_param_float_unsupported" else
  if (b_kind b =? kParamBindingKind) && negb (zlen (b_value_bytes b) =? b_element_bytes b) then Some "compute_ir_param_size_mismatch" else
  if negb (b_kind b =? kParamBindingKind) && negb (zlen (b_value_bytes b) =? 0) then Some "compute_ir_binding_payload_invalid" else
  if DuplicateBindingName bindings b then Some "compute_ir_binding_duplicate" else None.

Definition AppendParsedBinding (bindings : list ParsedBinding) (r : Reader) : (list ParsedBinding * Reader) + string :=
  '(b, r) ⇐ reading (ReadParsedBinding r) "compute_ir_malformed";
  _ ⇐ unless (ValidateParsedBinding bindings b);
  inl (bindings ++ [b], r).

Fixpoint parse_bindings (count : nat) (bindings : list ParsedBinding) (r : Reader) : (list ParsedBinding * Reader) + string :=
  match count with
  | O => inl (bindings, r)
  | S count => '(bindings, r) ⇐ AppendParsedBinding bindings r; parse_bindings count bindings r
  end.

(** ** Nodes *)
Definition WriteValue : Z := 0.
Definition CheckedOrdinal : Z := 1.
Definition BoundaryMask : Z := 2.
Definition IrWriteModeValid (mode : Z) : bool := mode <=? BoundaryMask.

Definition ReadParsedNode (r : Reader) : (ParsedNode * Reader) + string :=
  '(op, lhs, rhs, aux, format, r) ⇐ reading
    ('(op, r) ← read_u8 r; '(lhs, r) ← read_u32 r; '(rhs, r) ← read_u32 r; '(aux, r) ← read_u32 r;
     '(format, r) ← read_format r; Some (op, lhs, rhs, aux, format, r)) "compute_ir_malformed";
  op ⇐ reading (op_of_code op) "compute_ir_op_unsupported";
  if negb (ComputeIntermediateFormatValid format) then inr "compute_ir_numeric_policy_invalid" else
  inl (mkNode op lhs rhs aux format, r).

Definition ValidNodeRef (node current : Z) : bool := negb (node =? 0) && (node <? current).

(** [fixed_mode]: the mode of the program is that of a fixed-point scalar. *)
Definition fixed_mode (p : ParsedIR) (scalar : ComputeScalar) : bool := ir_scalar_mode p =? ScalarModeFor scalar.
Definition op_at (nodes : list ParsedNode) (value : Z) (op : Op.IrOp) : bool :=
  bool_decide (n_op <$> zget nodes (value - 1) = Some op).

Definition ValidateParsedNodeOperands (p : ParsedIR) (node : ParsedNode) (scalar : ComputeScalar) (current : Z) : option string :=
  let invalid (b : bool) := if b then Some "compute_ir_node_invalid" else None in
  let lhs := n_lhs node in let rhs := n_rhs node in let aux := n_aux node in
  match n_op node with
  | Op.Param => invalid (negb (lhs =? 0) || negb (rhs =? 0) || negb (BindingIs (ir_bindings p) aux kParamBindingKind))
  | Op.Read | Op.ReadUniform => invalid (negb (lhs =? 0) || negb (rhs =? 0) || negb (BindingIs (ir_bindings p) aux kReadBindingKind))
  | Op.ReadAt =>
      invalid (negb (BindingIs (ir_bindings p) lhs kReadBindingKind) || negb (BindingIs (ir_bindings p) aux kReadBindingKind) ||
               (lhs =? aux) || (rhs =? 0) ||
               negb (bool_decide (b_numeric_mode <$> zget (ir_bindings p) lhs = Some 4)) ||
               negb (bool_decide (b_element_bytes <$> zget (ir_bindings p) lhs = Some 4)))
  | Op.Constant => invalid (negb (aux =? 0) || (bool_decide (scalar = Lane32) && negb (rhs =? 0)))
  | Op.Index => invalid (negb (lhs =? 0) || negb (rhs =? 0) || negb (aux =? 0))
  | Op.Write =>
      if negb (ValidNodeRef lhs current) || negb (IrWriteModeValid rhs) || negb (BindingIs (ir_bindings p) aux kWriteBindingKind)
      then Some "compute_ir_node_invalid" else
      if fixed_mode p scalar && negb (rhs =? WriteValue) then Some "compute_ir_node_invalid" else
      if fixed_mode p scalar && negb (op_at (ir_nodes p) lhs Op.Quantize) then Some "compute_ir_quantize_required" else None
  | op =>
      if ConstShiftOp op then
        if negb (ValidNodeRef lhs current) || negb (rhs =? 0) then Some "compute_ir_node_invalid" else
        if aux >=? ScalarBitWidth scalar then Some "compute_shift_count_invalid" else None
      else if UnaryValueOp op then invalid (negb (ValidNodeRef lhs current) || negb (rhs =? 0) || negb (aux =? 0))
      else if BinaryValueOp op then invalid (negb (ValidNodeRef lhs current) || negb (ValidNodeRef rhs current) || negb (aux =? 0))
      else invalid (negb (ValidNodeRef lhs current) || negb (ValidNodeRef rhs current) || negb (ValidNodeRef aux current))
  end.

Definition AppendParsedNode (p : ParsedIR) (scalar : ComputeScalar) (index write_count : Z) (r : Reader)
    : (list ParsedNode * Z * Reader) + string :=
  '(node, r) ⇐ ReadParsedNode r;
  let nonfixed_boundary_format := bool_decide (n_op node = Op.Write) && (n_rhs node =? BoundaryMask) in
  if negb (fixed_mode p scalar) && negb (ComputeFixedFormatAbsent (n_format node)) && negb nonfixed_boundary_format
  then inr "compute_ir_numeric_policy_mismatch" else
  _ ⇐ unless (ValidateParsedNodeOperands p node scalar (index + 1));
  inl (ir_nodes p ++ [node], if is_write node then wrap32 (write_count + 1) else write_count, r).

Definition with_nodes (p : ParsedIR) (nodes : list ParsedNode) : ParsedIR :=
  mkIR (ir_name p) (ir_scalar_mode p) (ir_format p) (ir_bindings p) nodes.

Fixpoint parse_nodes (count : nat) (p : ParsedIR) (scalar : ComputeScalar) (index write_count : Z) (r : Reader)
    : (ParsedIR * Z * Reader) + string :=
  match count with
  | O => inl (p, write_count, r)
  | S count =>
      '(nodes, write_count, r) ⇐ AppendParsedNode p scalar index write_count r;
      parse_nodes count (with_nodes p nodes) scalar (index + 1) write_count r
  end.

(** ** Programs *)
Definition kMinBindingBytes : Z := 15.
Definition kSerializedNodeBytes : Z := 18.

(** The header of the IR that the bytes have to agree with. *)
Record ComputeIR := {
  c_scalar : ComputeScalar; c_domain : ComputeDomain; c_format : ComputeFixedFormat; op_hash_hi : Z; op_hash_lo : Z;
  canonical_bytes : list Z; c_failure : option string;
}.

Definition header_failure (ir : ComputeIR) (mode : Z) (format : ComputeFixedFormat) : option string :=
  if negb (mode =? DomainModeFor (c_scalar ir) (c_domain ir)) then Some "compute_ir_scalar_mismatch" else
  if negb (bool_decide (format = c_format ir)) ||
     (if bool_decide (c_domain ir = Fixed) then negb (ComputeFixedFormatValid (c_scalar ir) format) else negb (ComputeFixedFormatAbsent format))
  then Some "compute_ir_numeric_policy_mismatch" else None.

Definition ParseComputeIR (ir : ComputeIR) (bytes : list Z) : ParsedIR + string :=
  '(schema, r) ⇐ reading (read_bytes bytes) "compute_ir_malformed";
  if negb (bool_decide (schema = kSchema)) then inr "compute_ir_malformed" else
  '(name, mode, format, r) ⇐ reading
    ('(name, r) ← read_bytes r; '(mode, r) ← read_u8 r; '(format, r) ← read_format r; Some (name, mode, format, r))
    "compute_ir_malformed";
  _ ⇐ unless (header_failure ir mode format);
  '(binding_count, r) ⇐ reading (read_u32 r) "compute_ir_malformed";
  if (binding_count >? kMaxComputeBindingCount) || (binding_count >? remaining r / kMinBindingBytes)
  then inr "compute_ir_binding_count_invalid" else
  '(bindings, r) ⇐ parse_bindings (Z.to_nat binding_count) [] r;
  '(node_count, r) ⇐ reading (read_u32 r) "compute_ir_malformed";
  if node_count =? 0 then inr "compute_ir_malformed" else
  if (node_count >? kMaxComputeNodeCount) || (node_count >? remaining r / kSerializedNodeBytes)
  then inr "compute_ir_node_count_invalid" else
  '(parsed, write_count, r) ⇐ parse_nodes (Z.to_nat node_count) (mkIR name mode format bindings []) (c_scalar ir) 0 0 r;
  if negb (remaining r =? 0) then inr "compute_ir_malformed" else
  if write_count =? 0 then inr "compute_write_missing" else
  inl parsed.

(** ** The identity of the bytes *)
Definition kFnvOffset : Z := 14695981039346656037.
Definition kFnvPrime : Z := 1099511628211.
Definition kSecondOffset : Z := 10957381669161133421.
Definition kSecondPrime : Z := 14029467366897019727.

Definition hash_byte (h : Z * Z) (byte : Z) : Z * Z :=
  let '(hi, lo) := h in
  (wrap64 (Z.lxor hi byte * kFnvPrime),
   wrap64 (Z.lxor lo (wrap64 (byte + 11400714819323198485 + wrap64 (Z.shiftl lo 6) + Z.shiftr lo 2)) * kSecondPrime)).
Definition HashComputeIrCanonicalBytes (bytes : list Z) : Z * Z :=
  let '(hi, lo) := fold_left hash_byte bytes (kFnvOffset, kSecondOffset) in
  (hi, if (hi =? 0) && (lo =? 0) then kFnvPrime else lo).

(** The API and the scalar are enumerators here, so that they are supported. *)
Definition ComputeInputHeaderFailure (ir : ComputeIR) : option string :=
  match c_failure ir with
  | Some reason => Some reason
  | None =>
      if zlen (canonical_bytes ir) =? 0 then Some "compute_ir_missing" else
      let '(hi, lo) := HashComputeIrCanonicalBytes (canonical_bytes ir) in
      if ((op_hash_hi ir =? 0) && (op_hash_lo ir =? 0)) || negb (op_hash_hi ir =? hi) || negb (op_hash_lo ir =? lo)
      then Some "compute_ir_hash_mismatch" else None
  end.

(** ** What the parser accepts *)

(** Every binding and every node passes the checks at its place in the program. *)
Record valid_ir (ir : ComputeIR) (p : ParsedIR) : Prop := {
  vi_header : header_failure ir (ir_scalar_mode p) (ir_format p) = None;
  vi_binding_count : zlen (ir_bindings p) <= kMaxComputeBindingCount;
  vi_binding : forall k b, ir_bindings p !! k = Some b -> ValidateParsedBinding (take k (ir_bindings p)) b = None;
  vi_node_count : 0 < zlen (ir_nodes p) <= kMaxComputeNodeCount;
  vi_format : forall node, node ∈ ir_nodes p ->
    ComputeIntermediateFormatValid (n_format node) = true /\
    (fixed_mode p (c_scalar ir) = true \/ ComputeFixedFormatAbsent (n_format node) = true \/
     (n_op node = Op.Write /\ n_rhs node = BoundaryMask));
  vi_node : forall k node, ir_nodes p !! k = Some node ->
    ValidateParsedNodeOperands (with_nodes p (take k (ir_nodes p))) node (c_scalar ir) (Z.of_nat k + 1) = None;
  vi_write : exists node, node ∈ ir_nodes p /\ is_write node = true;
}.

(** The fields that are written as words and lengths fit them. *)
Definition binding_encodable (b : ParsedBinding) : Prop :=
  zlen (b_name b) <= U32_MAX /\ is_u32 (b_element_bytes b) /\ zlen (b_value_bytes b) <= U32_MAX.
Definition node_encodable (n : ParsedNode) : Prop := is_u32 (n_lhs n) /\ is_u32 (n_rhs n) /\ is_u32 (n_aux n).
Record encodable (p : ParsedIR) : Prop := {
  enc_name_fits : zlen (ir_name p) <= U32_MAX;
  enc_bindings_fit : Forall binding_encodable (ir_bindings p);
  enc_nodes_fit : Forall node_encodable (ir_nodes p);
}.
Definition unflagged (p : ParsedIR) : Prop := Forall (fun b => b_floating_point_param b = false) (ir_bindings p).

(** ** Words and strings *)
Definition is_byte (b : Z) : Prop := 0 <= b < 256.
Definition enc_u32 (v : Z) : list Z := AppendSerializedU32 [] v.
Definition enc_bytes (v : list Z) : list Z := enc_u32 (wrap32 (zlen v)) ++ v.
Definition enc_format (f : ComputeFixedFormat) : list Z := [integer_bits f; fraction_bits f; rounding f; overflow f; approximation f].
Definition enc_binding (b : ParsedBinding) : list Z :=
  [b_kind b; b_numeric_mode b] ++ enc_bytes (b_name b) ++ enc_u32 (b_element_bytes b) ++
  [if b_floating_point_param b then 1 else 0] ++ enc_bytes (b_value_bytes b).
Definition enc_node (n : ParsedNode) : list Z :=
  [op_code (n_op n)] ++ enc_u32 (n_lhs n) ++ enc_u32 (n_rhs n) ++ enc_u32 (n_aux n) ++ enc_format (n_format n).

Lemma append_u32_enc bytes v : AppendSerializedU32 bytes v = bytes ++ enc_u32 v.
Proof. done. Qed.
Lemma append_bytes_enc bytes v : AppendSerializedBytes bytes v = bytes ++ enc_bytes v.
Proof. unfold AppendSerializedBytes, enc_bytes. by rewrite append_u32_enc, app_assoc. Qed.
Lemma append_format_enc bytes f : append_format bytes f = bytes ++ enc_format f.
Proof. unfold append_format, AppendSerializedU8. by rewrite <- !app_assoc. Qed.
Lemma append_binding_enc bytes b : AppendSerializedBinding bytes b = bytes ++ enc_binding b.
Proof.
  unfold AppendSerializedBinding, enc_binding, AppendSerializedU8.
  rewrite append_bytes_enc, append_u32_enc, append_bytes_enc. by rewrite <- !app_assoc.
Qed.
Lemma append_node_enc bytes n : AppendSerializedNode bytes n = bytes ++ enc_node n.
Proof.
  unfold AppendSerializedNode, enc_node, AppendSerializedU8. rewrite append_format_enc, !append_u32_enc. by rewrite <- !app_assoc.
Qed.
Lemma append_all {A} (f : list Z -> A -> list Z) (enc : A -> list Z) l bytes :
  (forall bytes x, f bytes x = bytes ++ enc x) -> fold_left f l bytes = bytes ++ concat (map enc l).
Proof.
  intros Hf. revert bytes. induction l as [|x l IH]; intros bytes; cbn; [by rewrite app_nil_r|]. by rewrite IH, Hf, app_assoc.
Qed.

Lemma SerializeParsedIR_enc p :
  SerializeParsedIR p = enc_bytes kSchema ++ enc_bytes (ir_name p) ++ [ir_scalar_mode p] ++ enc_format (ir_format p) ++
    enc_u32 (wrap32 (zlen (ir_bindings p))) ++ concat (map enc_binding (ir_bindings p)) ++
    enc_u32 (wrap32 (zlen (ir_nodes p))) ++ concat (map enc_node (ir_nodes p)).
Proof.
  unfold SerializeParsedIR. rewrite (append_all _ enc_node) by apply append_node_enc. rewrite append_u32_enc.
  rewrite (append_all _ enc_binding) by apply append_binding_enc. rewrite append_u32_enc, append_format_enc, !append_bytes_enc.
  unfold AppendSerializedU8. by rewrite <- !app_assoc.
Qed.

Lemma join_u32 b0 b1 b2 b3 : is_byte b0 -> is_byte b1 -> is_byte b2 -> is_byte b3 ->
  Z.lor (Z.lor (Z.lor b0 (Z.shiftl b1 8)) (Z.shiftl b2 16)) (Z.shiftl b3 24) = b0 + b1 * 256 + b2 * 65536 + b3 * 16777216.
Proof.
  unfold is_byte. intros. rewrite !Z.shiftl_mul_pow2 by lia.
  rewrite (Z.lor_comm b0), (lor_disjoint b1 b0 8) by lia.
  rewrite (Z.lor_comm _ (b2 * 2 ^ 16)), (lor_disjoint b2 _ 16) by lia.
  rewrite (Z.lor_comm _ (b3 * 2 ^ 24)), (lor_disjoint b3 _ 24) by lia. lia.
Qed.

Lemma read_u32_enc v r : is_u32 v -> read_u32 (enc_u32 v ++ r) = Some (v, r).
Proof.
  unfold is_u32. intros Hv. unfold enc_u32, AppendSerializedU32. cbn [app read_u32]. f_equal. f_equal.
  change 255 with (2 ^ 8 - 1). rewrite !land_mask, !Z.shiftr_div_pow2 by lia.
  rewrite join_u32 by (apply Z.mod_pos_bound; lia).
  change (2 ^ 8) with 256. change (2 ^ 16) with 65536. change (2 ^ 24) with 16777216.
  pose proof (Z.div_mod v 256 ltac:(lia)). pose proof (Z.div_mod (v / 256) 256 ltac:(lia)). pose proof (Z.div_mod (v / 65536) 256 ltac:(lia)).
  replace (v / 65536) with (v / 256 / 256) in * by (rewrite Z.div_div by lia; done).
  replace (v / 16777216) with (v / 256 / 256 / 256) by (rewrite !Z.div_div by lia; done).
  rewrite (Z.mod_small (v / 256 / 256 / 256)); [lia|]. rewrite !Z.div_div by lia. cbn.
  split; [apply Z.div_pos; lia | apply Z.div_lt_upper_bound; lia].
Qed.

Lemma read_u32_inv r v r' : Forall is_byte r -> read_u32 r = Some (v, r') -> r = enc_u32 v ++ r' /\ is_u32 v /\ Forall is_byte r'.
Proof.
  destruct r as [|b0 [|b1 [|b2 [|b3 r]]]]; try done. intros Hb [= <- <-]. rewrite !Forall_cons in Hb.
  destruct Hb as (H0 & H1 & H2 & H3 & Hb). rewrite join_u32 by done. set (v := _ + _).
  unfold is_byte, is_u32 in *. assert (0 <= v <= 4294967295) as Hv by lia. split; [|done].
  unfold enc_u32, AppendSerializedU32. cbn [app]. change 255 with (2 ^ 8 - 1). rewrite !land_mask, !Z.shiftr_div_pow2 by lia.
  change (2 ^ 8) with 256. change (2 ^ 16) with 65536. change (2 ^ 24) with 16777216.
  assert (v / 256 = b1 + b2 * 256 + b3 * 65536) as E1 by (symmetry; apply (Z.div_unique_pos _ _ _ b0); lia).
  assert (v / 65536 = b2 + b3 * 256) as E2 by (symmetry; apply (Z.div_unique_pos _ _ _ (b0 + b1 * 256)); lia).
  assert (v / 16777216 = b3) as E3 by (symmetry; apply (Z.div_unique_pos _ _ _ (b0 + b1 * 256 + b2 * 65536)); lia).
  rewrite E1, E2, E3. f_equal; [|f_equal; [|f_equal; [|f_equal]]].
  - apply (Z.mod_unique_pos _ _ (b1 + b2 * 256 + b3 * 65536)); lia.
  - apply (Z.mod_unique_pos _ _ (b2 + b3 * 256)); lia.
  - apply (Z.mod_unique_pos _ _ b3); lia.
  - symmetry. apply Z.mod_small. lia.
Qed.

Lemma enc_u32_len v : zlen (enc_u32 v) = 4.
Proof. done. Qed.

Lemma read_bytes_enc v r : zlen v <= U32_MAX -> read_bytes (enc_bytes v ++ r) = Some (v, r).
Proof.
  intros Hv. pose proof (zlen_nonneg v). unfold enc_bytes, read_bytes. rewrite wrap32_small by (split; lia).
  rewrite <- app_assoc, read_u32_enc by (split; lia). cbn [mbind option_bind]. unfold remaining. rewrite zlen_app.
  pose proof (zlen_nonneg r). destruct (Z.ltb_spec (zlen v + zlen r) (zlen v)); [lia|].
  replace (Z.to_nat (zlen v)) with (length v) by (unfold zlen; lia). by rewrite take_app_length, drop_app_length.
Qed.

Lemma read_bytes_inv r v r' : Forall is_byte r -> read_bytes r = Some (v, r') ->
  r = enc_bytes v ++ r' /\ zlen v <= U32_MAX /\ Forall is_byte r'.
Proof.
  intros Hb. unfold read_bytes. destruct (read_u32 r) as [[size r1]|] eqn:E; [|done]. cbn [mbind option_bind].
  apply read_u32_inv in E as (-> & Hs & Hb1); [|done]. unfold remaining. destruct (Z.ltb_spec (zlen r1) size); [done|]. intros [= <- <-].
  assert (zlen (take (Z.to_nat size) r1) = size) as El by (unfold zlen, is_u32 in *; rewrite length_take; lia).
  split; [|split; [unfold is_u32 in *; lia | by apply Forall_drop]].
  unfold enc_bytes. rewrite El, wrap32_small by done. by rewrite <- app_assoc, take_drop.
Qed.

Lemma read_format_enc f r : read_format (enc_format f ++ r) = Some (f, r).
Proof. by destruct f. Qed.
Lemma read_format_inv r f r' : Forall is_byte r -> read_format r = Some (f, r') -> r = enc_format f ++ r' /\ Forall is_byte r'.
Proof.
  destruct r as [|? [|? [|? [|? [|? r]]]]]; try done. intros Hb [= <- <-]. rewrite !Forall_cons in Hb. split; [done | tauto].
Qed.

(** ** Bindings *)
Lemma read_binding_enc b r : binding_encodable b -> ReadParsedBinding (enc_binding b ++ r) = Some (b, r).
Proof.
  intros (Hn & He & Hv). unfold enc_binding, ReadParsedBinding. rewrite <- !app_assoc. cbn [app read_u8 mbind option_bind].
  rewrite read_bytes_enc by done. cbn [mbind option_bind]. rewrite read_u32_enc by done. cbn [mbind option_bind app read_u8].
  rewrite read_bytes_enc by done. cbn [mbind option_bind]. destruct b as [? ? ? ? [] ?]; done.
Qed.

Lemma read_binding_inv r b r' : Forall is_byte r -> ReadParsedBinding r = Some (b, r') ->
  binding_encodable b /\ Forall is_byte r' /\ (b_floating_point_param b = false -> r = enc_binding b ++ r').
Proof.
  intros Hb. unfold ReadParsedBinding. destruct r as [|kind [|mode r]]; try done. cbn [read_u8 mbind option_bind].
  rewrite !Forall_cons in Hb. destruct Hb as (_ & _ & Hb).
  destruct (read_bytes r) as [[name r1]|] eqn:E1; [|done]. cbn [mbind option_bind]. apply read_bytes_inv in E1 as (-> & Hn & Hb1); [|done].
  destruct (read_u32 r1) as [[size r2]|] eqn:E2; [|done]. cbn [mbind option_bind]. apply read_u32_inv in E2 as (-> & Hs & Hb2); [|done].
  destruct r2 as [|flag r3]; [done|]. cbn [read_u8 mbind option_bind]. apply Forall_cons in Hb2 as [_ Hb3].
  destruct (read_bytes r3) as [[v r4]|] eqn:E3; [|done]. cbn [mbind option_bind]. apply read_bytes_inv in E3 as (-> & Hv & Hb4); [|done].
  intros [= <- <-]. split; [done|]. split; [done|]. cbn [b_floating_point_param]. intros Hf%negb_false_iff%Z.eqb_eq. subst flag.
  unfold enc_binding. cbn [b_kind b_numeric_mode b_name b_element_bytes b_value_bytes b_floating_point_param Z.eqb negb]. by rewrite <- !app_assoc.
Qed.

(** The bindings that follow [bs] pass their checks. *)
Definition bindings_valid (bs l : list ParsedBinding) : Prop :=
  forall k b, l !! k = Some b -> ValidateParsedBinding (bs ++ take k l) b = None.

Lemma bindings_valid_cons bs b l : bindings_valid bs (b :: l) <-> ValidateParsedBinding bs b = None /\ bindings_valid (bs ++ [b]) l.
Proof.
  unfold bindings_valid. split.
  - intros H. split; [by specialize (H O b eq_refl); rewrite app_nil_r in H|]. intros k x Hx. specialize (H (S k) x Hx).
    by rewrite <- app_assoc.
  - intros [H0 H] [|k] x Hx; [injection Hx as <-; by rewrite app_nil_r|]. specialize (H k x Hx). by rewrite <- app_assoc in H.
Qed.

Lemma parse_bindings_enc l bs r : Forall binding_encodable l -> bindings_valid bs l ->
  parse_bindings (length l) bs (concat (map enc_binding l) ++ r) = inl (bs ++ l, r).
Proof.
  revert bs. induction l as [|b l IH]; intros bs He Hv; cbn [length parse_bindings map concat]; [by rewrite app_nil_r|].
  apply Forall_cons in He as [Hb He]. apply bindings_valid_cons in Hv as [H0 Hv]. unfold AppendParsedBinding.
  rewrite <- app_assoc, read_binding_enc by done. cbn [reading or_reject]. rewrite H0. cbn [unless or_reject]. rewrite IH by done. by rewrite <- app_assoc.
Qed.

Lemma parse_bindings_inv n bs r bs' r' : Forall is_byte r -> parse_bindings n bs r = inl (bs', r') ->
  exists l, length l = n /\ bs' = bs ++ l /\ Forall binding_encodable l /\ bindings_valid bs l /\ Forall is_byte r' /\
    (Forall (fun b => b_floating_point_param b = false) l -> r = concat (map enc_binding l) ++ r').
Proof.
  revert bs r. induction n as [|n IH]; intros bs r Hb; cbn [parse_bindings].
  - intros [= <- <-]. exists []. by rewrite app_nil_r.
  - unfold AppendParsedBinding. destruct (ReadParsedBinding r) as [[b r1]|] eqn:E; [|done]. cbn [reading or_reject].
    apply read_binding_inv in E as (He & Hb1 & Er); [|done].
    destruct (ValidateParsedBinding bs b) eqn:Ev; [done|]. cbn [unless or_reject]. intros Hp.
    destruct (IH _ _ Hb1 Hp) as (l & <- & -> & Hl & Hv & Hb' & Er'). exists (b :: l). split; [done|]. split; [by rewrite <- app_assoc|].
    split; [by constructor|]. split; [by apply bindings_valid_cons|]. split; [done|]. intros [Hf Hfl]%Forall_cons. cbn [map concat].
    by rewrite <- app_assoc, <- Er', <- Er.
Qed.

(** ** Nodes *)
Lemma read_node_enc n r : node_encodable n -> ComputeIntermediateFormatValid (n_format n) = true -> ReadParsedNode (enc_node n ++ r) = inl (n, r).
Proof.
  intros (Hl & Hr & Ha) Hf. unfold enc_node, ReadParsedNode. rewrite <- !app_assoc. cbn [app read_u8 mbind option_bind].
  do 3 (rewrite read_u32_enc by done; cbn [mbind option_bind]). rewrite read_format_enc. cbn [mbind option_bind reading or_reject].
  rewrite op_code_of. cbn [reading or_reject]. rewrite Hf. by destruct n.
Qed.

Lemma op_of_code_inv code op : op_of_code code = Some op -> op_code op = code.
Proof.
  unfold op_of_code. intros H. apply zget_Some in H as [Hc H].
  assert (forall i, Op.all !! i = Some op -> op_code op = Z.of_nat i) as G.
  { intros i Hi. do 63 (destruct i as [|i]; [cbn in Hi; injection Hi as <-; reflexivity|]). by destruct i. }
  rewrite (G _ H). lia.
Qed.

Lemma read_node_inv r n r' : Forall is_byte r -> ReadParsedNode r = inl (n, r') ->
  r = enc_node n ++ r' /\ node_encodable n /\ ComputeIntermediateFormatValid (n_format n) = true /\ Forall is_byte r'.
Proof.
  intros Hb. unfold ReadParsedNode. destruct r as [|op r]; [done|]. cbn [read_u8 mbind option_bind]. apply Forall_cons in Hb as [_ Hb].
  destruct (read_u32 r) as [[lhs r1]|] eqn:E1; [|done]. cbn [mbind option_bind]. apply read_u32_inv in E1 as (-> & Hl & Hb1); [|done].
  destruct (read_u32 r1) as [[rhs r2]|] eqn:E2; [|done]. cbn [mbind option_bind]. apply read_u32_inv in E2 as (-> & Hr & Hb2); [|done].
  destruct (read_u32 r2) as [[aux r3]|] eqn:E3; [|done]. cbn [mbind option_bind]. apply read_u32_inv in E3 as (-> & Ha & Hb3); [|done].
  destruct (read_format r3) as [[f r4]|] eqn:E4; [|done]. cbn [mbind option_bind reading or_reject]. apply read_format_inv in E4 as (-> & Hb4); [|done].
  destruct (op_of_code op) as [o|] eqn:Eo; [|done]. cbn [reading or_reject]. destruct (ComputeIntermediateFormatValid f) eqn:Ef; [|done].
  cbn [negb]. intros [= <- <-]. split; [|done]. unfold enc_node. cbn [n_op n_lhs n_rhs n_aux n_format].
  rewrite (op_of_code_inv _ _ Eo). by rewrite <- !app_assoc.
Qed.

Definition node_accepted (p : ParsedIR) (scalar : ComputeScalar) (index : Z) (node : ParsedNode) : Prop :=
  ComputeIntermediateFormatValid (n_format node) = true /\
  (fixed_mode p scalar = true \/ ComputeFixedFormatAbsent (n_format node) = true \/ (n_op node = Op.Write /\ n_rhs node = BoundaryMask)) /\
  ValidateParsedNodeOperands p node scalar (index + 1) = None.

Lemma read_node_format r node r' : ReadParsedNode r = inl (node, r') -> ComputeIntermediateFormatValid (n_format node) = true.
Proof.
  unfold ReadParsedNode. destruct (reading _ _) as [[[[[[op lhs] rhs] aux] f] r1]|]; [|done]. cbn [or_reject].
  destruct (reading _ _) as [o|]; [|done]. cbn [or_reject]. destruct (ComputeIntermediateFormatValid f) eqn:Ef; [|done].
  by intros [= <- <-].
Qed.

Lemma AppendParsedNode_spec p scalar index count r nodes count' r' :
  AppendParsedNode p scalar index count r = inl (nodes, count', r') <->
  exists node, ReadParsedNode r = inl (node, r') /\ node_accepted p scalar index node /\ nodes = ir_nodes p ++ [node] /\
    count' = if is_write node then wrap32 (count + 1) else count.
Proof.
  unfold AppendParsedNode, node_accepted. split.
  - destruct (ReadParsedNode r) as [[node r1]|] eqn:E; [|done]. cbn [or_reject]. apply read_node_format in E as Hf.
    destruct (_ && _ && _) eqn:Eg; [done|]. destruct (ValidateParsedNodeOperands _ _ _ _) eqn:Ev; [done|]. cbn [unless or_reject].
    intros [= <- <- <-]. exists node. split; [done|]. split; [|done]. split; [done|]. split; [|done].
    destruct (fixed_mode p scalar); [by left|]. destruct (ComputeFixedFormatAbsent _); [by right; left|]. cbn in Eg.
    apply negb_false_iff, andb_prop in Eg as [?%bool_decide_eq_true ?%Z.eqb_eq]. by right; right.
  - intros (node & -> & (_ & Hg & Hv) & -> & ->). cbn [or_reject]. rewrite Hv. cbn [unless or_reject].
    destruct Hg as [-> |[-> |[-> ->]]]; [done | by rewrite andb_false_r |]. rewrite bool_decide_true, Z.eqb_refl by done. by rewrite andb_false_r.
Qed.

Definition nodes_accepted (p : ParsedIR) (scalar : ComputeScalar) (index : Z) (l : list ParsedNode) : Prop :=
  forall k node, l !! k = Some node -> node_accepted (with_nodes p (ir_nodes p ++ take k l)) scalar (index + Z.of_nat k) node.

Lemma nodes_accepted_cons p scalar index node l : nodes_accepted p scalar index (node :: l) <->
  node_accepted p scalar index node /\ nodes_accepted (with_nodes p (ir_nodes p ++ [node])) scalar (index + 1) l.
Proof.
  unfold nodes_accepted. assert (forall q, with_nodes q (ir_nodes q ++ []) = q) as Hq by (intros [nm md fm bs ns]; cbn; by rewrite app_nil_r).
  split.
  - intros H. split; [specialize (H O node eq_refl); cbn [take] in H; by rewrite Hq, Z.add_0_r in H|].
    intros k x Hx. specialize (H (S k) x Hx). cbn [take] in H. destruct p as [nm md fm bs ns]; cbn [with_nodes ir_nodes] in *. rewrite <- app_assoc.
    replace (index + 1 + Z.of_nat k) with (index + Z.of_nat (S k)) by lia. done.
  - intros [H0 H] [|k] x Hx; [injection Hx as <-; cbn [take]; by rewrite Hq, Z.add_0_r|]. specialize (H k x Hx).
    cbn [take]. destruct p as [nm md fm bs ns]; cbn [with_nodes ir_nodes] in *. rewrite <- app_assoc in H.
    replace (index + Z.of_nat (S k)) with (index + 1 + Z.of_nat k) by lia. done.
Qed.

Definition writes_in (l : list ParsedNode) : Z := zlen (filter (fun n => is_write n = true) l).
Lemma writes_in_cons n l : writes_in (n :: l) = (if is_write n then 1 else 0) + writes_in l.
Proof. unfold writes_in. rewrite filter_cons. destruct (is_write n); [rewrite decide_True by done; rewrite zlen_cons; lia | by rewrite decide_False]. Qed.
Lemma writes_in_bounds l : 0 <= writes_in l <= zlen l.
Proof. unfold writes_in, zlen. pose proof (length_filter (fun n => is_write n = true) l). lia. Qed.

Lemma parse_nodes_enc l p scalar index count r :
  Forall node_encodable l -> nodes_accepted p scalar index l -> 0 <= count -> count + zlen l <= U32_MAX ->
  parse_nodes (length l) p scalar index count (concat (map enc_node l) ++ r) = inl (with_nodes p (ir_nodes p ++ l), count + writes_in l, r).
Proof.
  revert p index count. induction l as [|n l IH]; intros p index count He Hv Hc Hm; cbn [length parse_nodes map concat].
  - rewrite app_nil_r. unfold writes_in. cbn. rewrite Z.add_0_r. by destruct p.
  - apply Forall_cons in He as [Hn He]. apply nodes_accepted_cons in Hv as [H0 Hv]. rewrite zlen_cons in Hm. pose proof (zlen_nonneg l).
    rewrite <- app_assoc. erewrite (proj2 (AppendParsedNode_spec p scalar index count _ _ _ _)).
    2: { exists n. split; [apply read_node_enc; [done | apply H0]|]. split; [done|]. split; reflexivity. }
    cbn [or_reject]. rewrite IH; try done.
    + rewrite writes_in_cons. unfold with_nodes. cbn [ir_nodes ir_name ir_scalar_mode ir_format ir_bindings]. rewrite <- app_assoc.
      destruct (is_write n); [rewrite wrap32_small by (split; lia)|]; do 3 f_equal; lia.
    + destruct (is_write n); [rewrite wrap32_small by (split; lia)|]; lia.
    + destruct (is_write n); [rewrite wrap32_small by (split; lia)|]; lia.
Qed.

Lemma parse_nodes_inv n p scalar index count r p' count' r' :
  Forall is_byte r -> 0 <= count -> count + Z.of_nat n <= U32_MAX -> parse_nodes n p scalar index count r = inl (p', count', r') ->
  exists l, length l = n /\ p' = with_nodes p (ir_nodes p ++ l) /\ Forall node_encodable l /\ nodes_accepted p scalar index l /\
    count' = count + writes_in l /\ Forall is_byte r' /\ r = concat (map enc_node l) ++ r'.
Proof.
  revert p index count r. induction n as [|n IH]; intros p index count r Hb Hc Hm; cbn [parse_nodes].
  - intros [= <- <- <-]. exists []. rewrite app_nil_r. unfold writes_in. cbn. rewrite Z.add_0_r. split; [done|]. by destruct p.
  - destruct (AppendParsedNode p scalar index count r) as [[[nodes c1] r1]|] eqn:E; [|done]. cbn [or_reject]. intros Hp.
    apply AppendParsedNode_spec in E as (node & Er & Hn & -> & Ec). apply read_node_inv in Er as (-> & He & _ & Hb1); [|done].
    assert (c1 = count + if is_write node then 1 else 0) as -> by (rewrite Ec; destruct (is_write node); [rewrite wrap32_small by (split; lia)|]; lia).
    apply IH in Hp as (l & <- & -> & Hl & Hv & -> & Hb' & ->); [| done | destruct (is_write node); lia | destruct (is_write node); lia].
    exists (node :: l). split; [done|]. split; [unfold with_nodes; cbn [ir_nodes ir_name ir_scalar_mode ir_format ir_bindings]; by rewrite <- app_assoc|].
    split; [by constructor|]. split; [by apply nodes_accepted_cons|]. split; [rewrite writes_in_cons; lia|]. split; [done|].
    cbn [map concat]. by rewrite <- app_assoc.
Qed.

(** ** Programs *)
Lemma zlen_enc_binding b : kMinBindingBytes <= zlen (enc_binding b).
Proof.
  unfold enc_binding, enc_bytes, kMinBindingBytes. rewrite !zlen_app, !enc_u32_len. change (zlen [_; _]) with 2. change (zlen [_]) with 1.
  pose proof (zlen_nonneg (b_name b)). pose proof (zlen_nonneg (b_value_bytes b)). lia.
Qed.
Lemma zlen_concat_enc {A} (enc : A -> list Z) c l : (forall x, c <= zlen (enc x)) -> c * zlen l <= zlen (concat (map enc l)).
Proof.
  intros H. induction l as [|x l IH]; cbn [map concat]; [change (zlen _) with 0; change (zlen (concat _)) with 0; lia|].
  rewrite zlen_cons, zlen_app. specialize (H x). lia.
Qed.
Lemma writes_in_pos l : (exists n, n ∈ l /\ is_write n = true) <-> writes_in l <> 0.
Proof.
  unfold writes_in. split.
  - intros (n & Hin & Hw) H%zlen_0. assert (n ∈ filter (fun n => is_write n = true) l) as Hf by (by apply list_elem_of_filter). rewrite H in Hf. by apply not_elem_of_nil in Hf.
  - intros H. destruct (filter (fun n => is_write n = true) l) as [|n k] eqn:E; [done|]. exists n.
    assert (n ∈ filter (fun n => is_write n = true) l) as Hf by (rewrite E; left). apply list_elem_of_filter in Hf as [? ?]. done.
Qed.

Definition bare (p : ParsedIR) : ParsedIR := with_nodes p [].

(** What the nodes and the bindings of a valid program satisfy, as the parser sees them. *)
Lemma valid_ir_parts ir p : valid_ir ir p <->
  header_failure ir (ir_scalar_mode p) (ir_format p) = None /\ zlen (ir_bindings p) <= kMaxComputeBindingCount /\
  bindings_valid [] (ir_bindings p) /\ 0 < zlen (ir_nodes p) <= kMaxComputeNodeCount /\
  nodes_accepted (bare p) (c_scalar ir) 0 (ir_nodes p) /\ writes_in (ir_nodes p) <> 0.
Proof.
  split.
  - intros [Hh Hbc Hb Hnc Hf Hn Hw]. split; [done|]. split; [done|]. split; [exact Hb|]. split; [done|]. split; [|by apply writes_in_pos].
    intros k node Hk. destruct (Hf node ltac:(by eapply list_elem_of_lookup_2)) as [H1 H2]. split; [done|]. split; [done|]. apply (Hn k node Hk).
  - intros (Hh & Hbc & Hb & Hnc & Hn & Hw). split; try done; [|intros k node Hk; apply (Hn k node Hk) | by apply writes_in_pos].
    intros node [k Hk]%list_elem_of_lookup. destruct (Hn k node Hk) as (H1 & H2 & _). done.
Qed.

Lemma parse_valid ir p : encodable p -> valid_ir ir p -> ParseComputeIR ir (SerializeParsedIR p) = inl p.
Proof.
  intros [Hn Hbs Hns] (Hh & Hbc & Hb & Hnc & Hnv & Hw)%valid_ir_parts. rewrite SerializeParsedIR_enc. unfold ParseComputeIR.
  unfold kMaxComputeBindingCount, kMaxComputeNodeCount in *. pose proof (zlen_nonneg (ir_bindings p)).
  rewrite read_bytes_enc by (vm_compute; discriminate). cbn [reading or_reject]. rewrite bool_decide_true by done. cbn [negb].
  rewrite read_bytes_enc by done. cbn [mbind option_bind]. cbn [app read_u8 mbind option_bind].
  rewrite read_format_enc. cbn [mbind option_bind reading or_reject]. rewrite Hh. cbn [unless or_reject].
  rewrite wrap32_small, read_u32_enc by (split; lia). cbn [reading or_reject]. unfold remaining.
  rewrite zlen_app. pose proof (zlen_concat_enc enc_binding _ (ir_bindings p) zlen_enc_binding) as Hl1. unfold kMinBindingBytes in Hl1 |- *.
  set (rest := enc_u32 _ ++ _). pose proof (zlen_nonneg rest).
  destruct (Z.gtb_spec (zlen (ir_bindings p)) 64); [lia|]. destruct (Z.gtb_spec (zlen (ir_bindings p)) ((zlen (concat (map enc_binding (ir_bindings p))) + zlen rest) / 15)).
  { pose proof (Z.div_le_lower_bound (zlen (concat (map enc_binding (ir_bindings p))) + zlen rest) 15 (zlen (ir_bindings p)) ltac:(lia) ltac:(lia)). lia. }
  cbn [orb]. replace (Z.to_nat (zlen (ir_bindings p))) with (length (ir_bindings p)) by (unfold zlen; lia).
  rewrite parse_bindings_enc by done. cbn [or_reject app]. subst rest. rewrite wrap32_small, read_u32_enc by (split; lia). cbn [reading or_reject].
  pose proof (zlen_concat_enc enc_node kSerializedNodeBytes (ir_nodes p) ltac:(done)) as Hl2. unfold kSerializedNodeBytes in Hl2 |- *.
  destruct (Z.eqb_spec (zlen (ir_nodes p)) 0); [lia|]. destruct (Z.gtb_spec (zlen (ir_nodes p)) 1024); [lia|].
  destruct (Z.gtb_spec (zlen (ir_nodes p)) (zlen (concat (map enc_node (ir_nodes p))) / 18)).
  { pose proof (Z.div_le_lower_bound (zlen (concat (map enc_node (ir_nodes p)))) 18 (zlen (ir_nodes p)) ltac:(lia) ltac:(lia)). lia. }
  cbn [orb]. replace (Z.to_nat (zlen (ir_nodes p))) with (length (ir_nodes p)) by (unfold zlen; lia).
  rewrite <- (app_nil_r (concat (map enc_node (ir_nodes p)))).
  rewrite (parse_nodes_enc (ir_nodes p)) by (try done; lia). cbn [or_reject app ir_nodes with_nodes]. change (zlen [] =? 0) with true. cbn [negb].
  destruct (Z.eqb_spec (0 + writes_in (ir_nodes p)) 0); [lia|]. by destruct p.
Qed.

Lemma parse_inv ir bytes p : Forall is_byte bytes -> ParseComputeIR ir bytes = inl p ->
  encodable p /\ valid_ir ir p /\ (unflagged p -> SerializeParsedIR p = bytes) /\ Forall is_byte (concat (map enc_node (ir_nodes p))).
Proof.
  intros Hb. unfold ParseComputeIR. destruct (read_bytes bytes) as [[schema r1]|] eqn:E1; [|done]. cbn [reading or_reject].
  apply read_bytes_inv in E1 as (-> & _ & Hb1); [|done]. destruct (bool_decide_reflect (schema = kSchema)) as [-> |]; [|done]. cbn [negb].
  destruct (read_bytes r1) as [[name r2]|] eqn:E2; [|done]. cbn [mbind option_bind]. apply read_bytes_inv in E2 as (-> & Hname & Hb2); [|done].
  destruct r2 as [|mode r2]; [done|]. cbn [read_u8 mbind option_bind]. apply Forall_cons in Hb2 as [_ Hb2].
  destruct (read_format r2) as [[f r3]|] eqn:E3; [|done]. cbn [mbind option_bind reading or_reject]. apply read_format_inv in E3 as (-> & Hb3); [|done].
  destruct (header_failure ir mode f) eqn:Eh; [done|]. cbn [unless or_reject].
  destruct (read_u32 r3) as [[bc r4]|] eqn:E4; [|done]. cbn [reading or_reject]. apply read_u32_inv in E4 as (-> & Hbc & Hb4); [|done].
  destruct (Z.gtb_spec bc kMaxComputeBindingCount); [done|]. destruct (bc >? _); [done|]. cbn [orb].
  destruct (parse_bindings _ [] r4) as [[bs r5]|] eqn:E5; [|done]. cbn [or_reject].
  apply parse_bindings_inv in E5 as (bs' & Hlb & -> & Heb & Hvb & Hb5 & Er4); [|done]. cbn [app] in *.
  destruct (read_u32 r5) as [[nc r6]|] eqn:E6; [|done]. cbn [reading or_reject]. apply read_u32_inv in E6 as (-> & Hnc & Hb6); [|done].
  destruct (Z.eqb_spec nc 0); [done|]. destruct (Z.gtb_spec nc kMaxComputeNodeCount); [done|]. destruct (nc >? _); [done|]. cbn [orb].
  unfold is_u32, kMaxComputeBindingCount, kMaxComputeNodeCount in *.
  destruct (parse_nodes _ _ _ _ _ r6) as [[[p' wc] r7]|] eqn:E7; [|done]. cbn [or_reject].
  apply parse_nodes_inv in E7 as (ns & Hln & -> & Hen & Hvn & -> & Hb7 & ->); [| done | lia | lia]. cbn [ir_nodes app] in *.
  destruct (Z.eqb_spec (remaining r7) 0) as [Hr|]; [|done]. apply zlen_0 in Hr as ->. cbn [negb]. destruct (Z.eqb_spec (0 + writes_in ns) 0); [done|].
  intros [= <-]. cbn [with_nodes ir_name ir_scalar_mode ir_format ir_bindings]. split; [by split|].
  assert (zlen bs' = bc) as Ebc by (unfold zlen; lia). assert (zlen ns = nc) as Enc by (unfold zlen; lia). split.
  - apply valid_ir_parts. cbn [with_nodes ir_scalar_mode ir_format ir_bindings ir_nodes]. unfold kMaxComputeBindingCount, kMaxComputeNodeCount.
    split; [done|]. split; [lia|]. split; [done|]. split; [lia|]. split; [exact Hvn | lia].
  - split; [|by rewrite Forall_app in Hb6; apply Hb6]. intros Hf. rewrite SerializeParsedIR_enc. cbn [with_nodes ir_name ir_scalar_mode ir_format ir_bindings ir_nodes]. rewrite Ebc, Enc, !wrap32_small by (split; lia).
    by rewrite (Er4 Hf), app_nil_r.
Qed.

Lemma node_fraction_byte p node : Forall is_byte (concat (map enc_node (ir_nodes p))) -> node ∈ ir_nodes p ->
  is_byte (integer_bits (n_format node)) /\ is_byte (fraction_bits (n_format node)).
Proof.
  intros H [k Hk]%list_elem_of_lookup. assert (Forall is_byte (enc_node node)) as Hn.
  { apply Forall_forall. intros b Hb. eapply Forall_forall; [exact H|]. apply list_elem_of_In, in_concat. exists (enc_node node).
    split; [|by apply list_elem_of_In]. apply in_map, list_elem_of_In. by eapply list_elem_of_lookup_2. }
  unfold enc_node, enc_u32, AppendSerializedU32, enc_format in Hn. cbn [app] in Hn. rewrite !Forall_cons in Hn. tauto.
Qed.

(** C26: Parsing the bytes of a program gives it back exactly when every binding and node
    passes its checks; and bytes that are parsed are the bytes of the parsed program, when
    its bindings have no floating-point flag. *)
Theorem ir_roundtrip ir p bytes :
  encodable p -> Forall is_byte (SerializeParsedIR p) -> Forall is_byte bytes ->
  (ParseComputeIR ir (SerializeParsedIR p) = inl p <-> valid_ir ir p) /\
  (ParseComputeIR ir bytes = inl p -> valid_ir ir p /\ (unflagged p -> SerializeParsedIR p = bytes)).
Proof.
  intros He Hp Hb. split; [split|].
  - intros H. by apply parse_inv in H as (_ & ? & _).
  - by apply parse_valid.
  - intros H. by apply parse_inv in H as (_ & ? & ? & _).
Qed.

(** Twice the input plus one: [out = in * 2 + 1]. *)
Definition sample_ir : ComputeIR :=
  {| c_scalar := Lane32; c_domain := I32; c_format := no_format; op_hash_hi := 0; op_hash_lo := 0; canonical_bytes := []; c_failure := None |}.
Definition sample_program : ParsedIR :=
  mkIR [109] 3 no_format [mkBinding 2 3 [105] 4 false []; mkBinding 1 3 [112] 4 false [1; 0; 0; 0]; mkBinding 3 3 [111] 4 false []]
    [mkNode Op.Read 0 0 0 no_format; mkNode Op.Constant 2 0 0 no_format; mkNode Op.Mul 1 2 0 no_format;
     mkNode Op.Param 0 0 1 no_format; mkNode Op.Add 3 4 0 no_format; mkNode Op.Write 5 0 2 no_format].

Lemma ir_roundtrip_witness :
  (ParseComputeIR sample_ir (SerializeParsedIR sample_program) = inl sample_program <-> valid_ir sample_ir sample_program) /\
  (ParseComputeIR sample_ir (SerializeParsedIR sample_program) = inl sample_program ->
   valid_ir sample_ir sample_program /\ (unflagged sample_program -> SerializeParsedIR sample_program = SerializeParsedIR sample_program)).
Proof.
  assert (Forall is_byte (SerializeParsedIR sample_program)) as Hb
    by (apply Forall_forall; intros b Hb; vm_compute in Hb; unfold is_byte; repeat (apply elem_of_cons in Hb as [->|Hb]; [lia|]); by apply elem_of_nil in Hb).
  apply (ir_roundtrip sample_ir sample_program (SerializeParsedIR sample_program)); [|exact Hb | exact Hb].
  split; [vm_compute; discriminate | |]; repeat constructor; vm_compute; discriminate.
Defined.

(** Another program is a valid one: the parser reads what was written. *)
Example sample_parses : ParseComputeIR sample_ir (SerializeParsedIR sample_program) = inl sample_program.
Proof. vm_compute. reflexivity. Qed.

(** The flag of a binding that is not a parameter is any byte: two encodings of a program. *)
Example flag_not_canonical :
  let flagged flag := enc_bytes kSchema ++ enc_bytes [] ++ [3] ++ enc_format no_format ++ enc_u32 1 ++
    ([3; 3] ++ enc_bytes [111] ++ enc_u32 4 ++ [flag] ++ enc_bytes []) ++ enc_u32 2 ++
    concat (map enc_node [mkNode Op.Constant 2 0 0 no_format; mkNode Op.Write 1 0 0 no_format]) in
  ParseComputeIR sample_ir (flagged 1) = ParseComputeIR sample_ir (flagged 2) /\
  exists p, ParseComputeIR sample_ir (flagged 1) = inl p.
Proof. split; [vm_compute; reflexivity | eexists; vm_compute; reflexivity]. Qed.
