(* ===== verification/IrValidate.v ===== *)
(** * IrValidate: the numeric rules of a compute map

    [kernel/src/program/compute/lowering/validate]: the domains of bindings and nodes
    ([binding.cpp], [propagate.cpp]), masks that change the width of an output
    ([mask.cpp]), the modes of writes ([write.cpp]), the fixed-point format of every node
    ([format.cpp]), the validation itself ([entry.cpp]), and the admission of an IR
    ([lowering/admission.hpp]).

    The domain the source casts from zero is [None]. A reason is [Some], and the
    validation itself is an option: [None] is an access out of range. *)
From stdpp Require Import base numbers list option strings.
From Stdlib Require Import ZArith Lia.
From S2P Require Import Prelude IrModel IrCodec.

(** ** Opcodes and domains ([ir.hpp], [lowering/names.hpp]) *)
Definition FixedOnlyOp (op : Op.IrOp) : bool :=
  match op with
  | Op.Quantize | Op.NegPositiveFixed | Op.MulFixed | Op.MulFixedScaled | Op.MulUnsignedFixed | Op.MulAddFixed | Op.DivFixed
  | Op.Recip | Op.Sqrt | Op.Rsqrt | Op.Sin | Op.Cos | Op.Tan | Op.Exp | Op.Log | Op.Atan2 => true
  | _ => false
  end.

Definition UnsignedDomain (domain : ComputeDomain) : bool := match domain with U32 | U64 => true | _ => false end.
Definition SignedDomain (domain : ComputeDomain) : bool := match domain with I32 | I64 => true | _ => false end.

Definition CanonicalIrOpForDomain (op : Op.IrOp) (domain : ComputeDomain) : Op.IrOp :=
  if negb (UnsignedDomain domain) then op else
  match op with
  | Op.Min => Op.MinUnsigned | Op.Max => Op.MaxUnsigned | Op.Clamp => Op.ClampUnsigned
  | Op.Lt => Op.LtUnsigned | Op.Le => Op.LeUnsigned | Op.Gt => Op.GtUnsigned | Op.Ge => Op.GeUnsigned
  | op => op
  end.

Definition IrOpDomainValid (op : Op.IrOp) (domain : ComputeDomain) : bool :=
  let signed := SignedDomain domain in
  let unsigned := UnsignedDomain domain in
  let fixed := bool_decide (domain = Fixed) in
  if FixedOnlyOp op then fixed else
  match op with
  | Op.Abs | Op.AbsMagnitude | Op.Sign | Op.AddSat | Op.SubSat | Op.ShrArithmeticConst | Op.Min | Op.Max | Op.Clamp
  | Op.Lt | Op.Le | Op.Gt | Op.Ge => signed || fixed
  | Op.AddSatUnsigned => unsigned || fixed
  | Op.MinUnsigned | Op.MaxUnsigned | Op.ClampUnsigned | Op.LtUnsigned | Op.LeUnsigned | Op.GtUnsigned | Op.GeUnsigned => unsigned
  | Op.DivSigned => signed
  | Op.DivUnsigned => unsigned
  | _ => true
  end.

Definition MergeComputeDomains (lhs rhs : option ComputeDomain) : option ComputeDomain :=
  match lhs, rhs with
  | None, _ => rhs
  | _, None => lhs
  | Some l, Some r =>
      if bool_decide (l = r) then lhs else
      match l, r with
      | Fixed, _ | _, Fixed => None
      | I32, U32 | U32, I32 => Some U32
      | I32, I64 | I64, I32 | U32, I64 | I64, U32 => Some I64
      | I32, U64 | U64, I32 | U32, U64 | U64, U32 | I64, U64 | U64, I64 => Some U64
      | _, _ => None
      end
  end.

Definition DomainForMode (scalar : ComputeScalar) (mode : Z) : option ComputeDomain :=
  if mode =? ScalarModeFor scalar then Some Fixed else
  match scalar with
  | Lane32 => if mode =? 3 then Some I32 else if mode =? 4 then Some U32 else None
  | Lane64 => if mode =? 5 then Some I64 else if mode =? 6 then Some U64 else None
  end.

(** ** Bindings *)
Definition BindingDomainForShape (b : ParsedBinding) : option ComputeDomain :=
  if b_element_bytes b =? 4 then DomainForMode Lane32 (b_numeric_mode b) else
  if b_element_bytes b =? 8 then DomainForMode Lane64 (b_numeric_mode b) else None.

Definition BindingWidthShapeValid (kind element_bytes : Z) (scalar : ComputeScalar) : bool :=
  (element_bytes =? ScalarBytes scalar) ||
  ((kind =? kWriteBindingKind) &&
   ((bool_decide (scalar = Lane64) && (element_bytes =? 4)) || (bool_decide (scalar = Lane32) && (element_bytes =? 8)))).

Section program.
Context (p : ParsedIR) (scalar : ComputeScalar).
Abbreviation nodes := (ir_nodes p).
Abbreviation bindings := (ir_bindings p).

Definition is_op (op : Op.IrOp) (node : ParsedNode) : bool := bool_decide (n_op node = op).

(** The binding is read only as the indices of [ReadAt]. *)
Definition ReadAtIndexBinding (binding : Z) : bool :=
  forallb (fun node => negb (((is_op Op.Read node || is_op Op.ReadUniform node) && (n_aux node =? binding)) ||
                             (is_op Op.ReadAt node && (n_aux node =? binding)))) nodes &&
  existsb (fun node => is_op Op.ReadAt node && (n_lhs node =? binding)) nodes.

Definition writes_of (binding : Z) : list ParsedNode := filter (fun node => is_op Op.Write node && (n_aux node =? binding)) nodes.
Definition BoundaryMaskWriteBinding (binding : Z) : bool :=
  negb (zlen (writes_of binding) =? 0) && forallb (fun node => n_rhs node =? BoundaryMask) (writes_of binding).

(** ** Masks *)
Definition ref_valid (ref : Z) : bool := negb (ref =? 0) && (ref <=? zlen nodes).
Definition node_at (ref : Z) : option ParsedNode := zget nodes (ref - 1).

Definition CanonicalMaskConstant (ref expected_low_bits : Z) : bool :=
  if negb (ref_valid ref) then false else
  match node_at ref with
  | Some node => is_op Op.Constant node && (n_lhs node =? expected_low_bits) && (n_rhs node =? 0) && (n_aux node =? 0)
  | None => false
  end.

Definition format_at (ref : Z) : option ComputeFixedFormat := n_format <$> node_at ref.

(** The selection of the constants one and zero. *)
Definition mask_select (source : ParsedNode) (fixed : bool) : bool :=
  is_op Op.Select source && CanonicalMaskConstant (n_rhs source) 1 && CanonicalMaskConstant (n_aux source) 0 &&
  (negb fixed || (bool_decide (format_at (n_rhs source) = Some (n_format source)) && bool_decide (format_at (n_aux source) = Some (n_format source)))).

Definition CanonicalMaskSource (source_ref : Z) (fixed : bool) : bool :=
  if negb (ref_valid source_ref) then false else
  match node_at source_ref with
  | None => false
  | Some source =>
      if negb fixed then mask_select source false else
      if negb (is_op Op.Quantize source) || negb (ref_valid (n_lhs source)) then false else
      match node_at (n_lhs source) with
      | None => false
      | Some inner => bool_decide (n_format inner = n_format source) && mask_select inner true
      end
  end.

Definition CanonicalUnsignedMaskWriteBinding (binding : Z) : bool :=
  negb (zlen (writes_of binding) =? 0) &&
  forallb (fun node => (n_rhs node =? WriteValue) && CanonicalMaskSource (n_lhs node) true) (writes_of binding).

Definition BindingDomainsMatchGraph : bool :=
  forallb (fun '(index, b) =>
    match BindingDomainForShape b with
    | None => false
    | Some domain =>
        ReadAtIndexBinding index ||
        (if negb (fixed_mode p scalar) then
           negb (bool_decide (domain = Fixed)) || ((b_kind b =? kWriteBindingKind) && BoundaryMaskWriteBinding index)
         else
           bool_decide (domain = Fixed) ||
           ((b_kind b =? kWriteBindingKind) && UnsignedDomain domain && CanonicalUnsignedMaskWriteBinding index))
    end) (zip (range 0 (zlen bindings)) bindings).

(** The bindings of another width than the scalar's. *)
Definition width_changing : list (Z * ParsedBinding) :=
  filter (fun '(index, b) => negb (b_element_bytes b =? ScalarBytes scalar) && negb (ReadAtIndexBinding index)) (zip (range 0 (zlen bindings)) bindings).
Definition width_mode (b : ParsedBinding) : Z :=
  if b_element_bytes b =? 4 then DomainModeFor Lane32 U32 else DomainModeFor Lane64 U64.

Definition WidthChangingWriteIsCanonicalMask : bool :=
  if negb (forallb (fun '(index, b) => (b_kind b =? kWriteBindingKind) && (b_numeric_mode b =? width_mode b)) width_changing) then false else
  match width_changing with
  | [] => true
  | [(index, _)] =>
      (zlen (filter (fun b => b_kind b = kWriteBindingKind) bindings) =? 1) &&
      match filter (fun node => is_op Op.Write node) nodes with
      | [write] => (n_aux write =? index) && (n_rhs write =? WriteValue) && CanonicalMaskSource (n_lhs write) (fixed_mode p scalar)
      | _ => false
      end
  | _ => false
  end.

(** ** Domains of the nodes *)
Record EffectiveNodeDomains := { d_values : list (option ComputeDomain); d_valid : bool }.
Definition invalid (st : EffectiveNodeDomains) : EffectiveNodeDomains := {| d_values := d_values st; d_valid := false |}.
Definition domain_of (st : EffectiveNodeDomains) (ref : Z) : option ComputeDomain := default None (zget (d_values st) (ref - 1)).
Definition set_domain (st : EffectiveNodeDomains) (ref : Z) (domain : option ComputeDomain) : EffectiveNodeDomains :=
  {| d_values := <[Z.to_nat (ref - 1) := domain]> (d_values st); d_valid := d_valid st |}.
Definition ref_known (st : EffectiveNodeDomains) (ref : Z) : bool := negb (ref =? 0) && (ref <=? zlen (d_values st)).

Definition binding_domain (binding : Z) : option ComputeDomain := b ← zget bindings binding; BindingDomainForShape b.

(** The results of the constraints, whether they changed a domain, are not used. *)
Definition assign (st : EffectiveNodeDomains) (ref : Z) (expected : option ComputeDomain) : EffectiveNodeDomains :=
  if negb (ref_known st ref) then invalid st else
  match expected, domain_of st ref with
  | None, _ => st
  | Some _, None => set_domain st ref expected
  | Some e, Some current => if bool_decide (current = e) then st else invalid st
  end.

Definition constrain_unary (st : EffectiveNodeDomains) (result source : Z) : EffectiveNodeDomains :=
  if negb (ref_known st result) || negb (ref_known st source) then invalid st else
  let result_domain := domain_of st result in
  let source_domain := domain_of st source in
  assign (assign st source result_domain) result source_domain.

Definition constrain_binary (st : EffectiveNodeDomains) (result lhs rhs : Z) : EffectiveNodeDomains :=
  if negb (ref_known st result) || negb (ref_known st lhs) || negb (ref_known st rhs) then invalid st else
  let dl := domain_of st lhs in
  let dr := domain_of st rhs in
  let merged := MergeComputeDomains dl dr in
  if bool_decide (is_Some dl) && bool_decide (is_Some dr) && bool_decide (merged = None) then invalid st else
  let st := assign st result merged in
  let result_domain := domain_of st result in
  match result_domain with
  | None => st
  | Some _ =>
      let '(st, dl) := if bool_decide (dl = None) then let st := assign st lhs result_domain in (st, domain_of st lhs) else (st, dl) in
      let '(st, dr) := if bool_decide (dr = None) then let st := assign st rhs result_domain in (st, domain_of st rhs) else (st, dr) in
      let merged := MergeComputeDomains dl dr in
      if bool_decide (merged = None) || negb (bool_decide (merged = result_domain)) then invalid st else st
  end.

Definition unsigned_target (domain : option ComputeDomain) : bool := match domain with Some d => UnsignedDomain d | None => false end.

(** A write of the selection of one and zero to an unsigned output. *)
Definition canonical_value_mask (node : ParsedNode) : bool :=
  is_op Op.Write node && (n_rhs node =? WriteValue) && unsigned_target (binding_domain (n_aux node)) && CanonicalMaskSource (n_lhs node) false.
Definition canonical_value_mask_result (ref : Z) : bool := existsb (fun node => canonical_value_mask node && (n_lhs node =? ref)) nodes.

Definition constrain_node (st : EffectiveNodeDomains) (index : Z) : EffectiveNodeDomains :=
  match zget nodes index with
  | None => invalid st
  | Some node =>
      if negb (d_valid st) then st else
      let result := index + 1 in
      match n_op node with
      | Op.Param | Op.Read | Op.ReadUniform | Op.ReadAt | Op.Constant | Op.Index => st
      | Op.Write =>
          let target := binding_domain (n_aux node) in
          if (n_rhs node =? WriteValue) && negb (unsigned_target target && CanonicalMaskSource (n_lhs node) false)
          then assign st (n_lhs node) target else st
      | Op.Select =>
          let st := constrain_binary st result (n_rhs node) (n_aux node) in
          if bool_decide (domain_of st result = None) && canonical_value_mask_result result
          then constrain_unary st result (n_lhs node) else st
      | Op.Clamp | Op.ClampUnsigned | Op.MulAddFixed =>
          constrain_binary (constrain_binary st result (n_lhs node) (n_rhs node)) result result (n_aux node)
      | op =>
          if UnaryValueOp op || ConstShiftOp op then constrain_unary st result (n_lhs node)
          else constrain_binary st result (n_lhs node) (n_rhs node)
      end
  end.

Definition sweep (reverse : bool) (st : EffectiveNodeDomains) : EffectiveNodeDomains :=
  fold_left constrain_node (if reverse then rev (range 0 (zlen nodes)) else range 0 (zlen nodes)) st.

(** The domain a node has by itself, and whether it makes the program invalid. *)
Definition own_domain (node : ParsedNode) : option ComputeDomain * bool :=
  let of_binding (domain : option ComputeDomain) :=
    (domain, negb (bool_decide (domain = None) || bool_decide (domain = Some Fixed))) in
  match n_op node with
  | Op.Param | Op.Read | Op.ReadUniform | Op.ReadAt => of_binding (binding_domain (n_aux node))
  | Op.Write =>
      of_binding (if n_rhs node =? BoundaryMask then DomainForMode scalar (ir_scalar_mode p) else binding_domain (n_aux node))
  | op =>
      let signed := match scalar with Lane64 => I64 | Lane32 => I32 end in
      let unsigned := match scalar with Lane64 => U64 | Lane32 => U32 end in
      (if IrOpDomainValid op signed && negb (IrOpDomainValid op unsigned) then Some signed
       else if IrOpDomainValid op unsigned && negb (IrOpDomainValid op signed) then Some unsigned else None, true)
  end.

Definition ResolveEffectiveNodeDomains : EffectiveNodeDomains :=
  if fixed_mode p scalar then {| d_values := map (fun _ => Some Fixed) nodes; d_valid := true |} else
  let st := {| d_values := map (fun node => (own_domain node).1) nodes; d_valid := forallb (fun node => (own_domain node).2) nodes |} in
  let st := sweep false (sweep true st) in
  let header := DomainForMode scalar (ir_scalar_mode p) in
  let st := {| d_values := map (fun d => match d with None => header | Some _ => d end) (d_values st); d_valid := d_valid st |} in
  let st := sweep false (sweep true st) in
  {| d_values := d_values st; d_valid := d_valid st && forallb (fun d => bool_decide (is_Some d)) (d_values st) |}.
End program.

(** ** Formats of the nodes *)
Definition SameFixedPolicy (lhs rhs : ComputeFixedFormat) : bool := (rounding lhs =? rounding rhs) && (overflow lhs =? overflow rhs).
Definition SameStoredFormat (lhs rhs : ComputeFixedFormat) : bool :=
  SameFixedPolicy lhs rhs && (integer_bits lhs =? integer_bits rhs) && (fraction_bits lhs =? fraction_bits rhs).
Definition u8 (z : Z) : Z := z mod 256.

Definition DerivedBinaryFormat (op : Op.IrOp) (lhs rhs : ComputeFixedFormat) : ComputeFixedFormat :=
  let approximation := Z.max (approximation lhs) (approximation rhs) in
  match op with
  | Op.Mul => mkFormat (u8 (integer_bits lhs + integer_bits rhs)) (u8 (fraction_bits lhs + fraction_bits rhs)) (rounding lhs) (overflow lhs) approximation
  | Op.Add | Op.Sub =>
      mkFormat (u8 (Z.max (integer_bits lhs) (integer_bits rhs) + 1)) (u8 (Z.max (fraction_bits lhs) (fraction_bits rhs))) (rounding lhs) (overflow lhs) approximation
  | _ => mkFormat (u8 (Z.max (integer_bits lhs) (integer_bits rhs))) (u8 (Z.max (fraction_bits lhs) (fraction_bits rhs))) (rounding lhs) (overflow lhs) approximation
  end.

Definition with_approximation (f : ComputeFixedFormat) (approximation : Z) : ComputeFixedFormat :=
  mkFormat (integer_bits f) (fraction_bits f) (rounding f) (overflow f) approximation.
Definition with_integer_bits (f : ComputeFixedFormat) (bits : Z) : ComputeFixedFormat :=
  mkFormat bits (fraction_bits f) (rounding f) (overflow f) (approximation f).

(** The format of [MulAddFixed]. *)
Definition DerivedMulAddFormat (lhs rhs addend : ComputeFixedFormat) : ComputeFixedFormat :=
  let product_integer := integer_bits lhs + integer_bits rhs in
  let product_fraction := fraction_bits lhs + fraction_bits rhs in
  mkFormat (u8 (if product_integer >? integer_bits addend then product_integer else integer_bits addend + 1))
    (u8 (Z.max product_fraction (fraction_bits addend))) (rounding lhs) (overflow lhs)
    (Z.max (Z.max (approximation lhs) (approximation rhs)) (approximation addend)).

Section format.
Context (p : ParsedIR) (scalar : ComputeScalar).
Definition source (ref : Z) : option ComputeFixedFormat := format_at p ref.
Definition require (ok : bool) (reason : string) : option string := if ok then None else Some reason.
Definition mismatch (ok : bool) : option string := require ok "compute_ir_numeric_policy_mismatch".
Definition quantize_required (ok : bool) : option string := require ok "compute_ir_quantize_required".
Definition stored (f : ComputeFixedFormat) : bool := ComputeFixedFormatValid scalar f.
Definition same (f g : ComputeFixedFormat) : bool := bool_decide (f = g).

(** The rules of a program of fixed-point numbers. *)
Definition fixed_format_rule (node : ParsedNode) : option (option string) :=
  let f := n_format node in
  if negb (ComputeIntermediateFormatValid f) then Some (Some "compute_ir_numeric_policy_invalid") else
  match n_op node with
  | Op.Param | Op.Read | Op.ReadUniform | Op.ReadAt | Op.Index => Some (require (stored f) "compute_ir_numeric_policy_invalid")
  | Op.Constant => Some (require (ComputeIntermediateFormatValid f) "compute_ir_numeric_policy_invalid")
  | Op.Write =>
      s ← source (n_lhs node);
      Some (quantize_required (op_at (ir_nodes p) (n_lhs node) Op.Quantize && stored s && same f s))
  | Op.Quantize =>
      s ← source (n_lhs node);
      let downgrade := (approximation s =? Deterministic) && negb (approximation f =? Deterministic) in
      Some (if ComputeIntermediateFormatValid s && stored f && negb downgrade then None
            else if downgrade then Some "compute_ir_approximation_downgrade" else Some "compute_ir_quantize_policy_invalid")
  | Op.Neg | Op.Abs | Op.AbsMagnitude => s ← source (n_lhs node); Some (mismatch (same f (with_integer_bits s (u8 (integer_bits s + 1)))))
  | Op.Sign | Op.PredicateNot => s ← source (n_lhs node); Some (mismatch (same f s))
  | Op.BitNot | Op.NegPositiveFixed | Op.ShlConst | Op.ShrLogicalConst | Op.ShrArithmeticConst =>
      s ← source (n_lhs node); Some (quantize_required (stored s && same f s))
  | Op.Recip | Op.Sqrt | Op.Rsqrt | Op.Sin | Op.Cos | Op.Tan | Op.Exp | Op.Log =>
      s ← source (n_lhs node); Some (quantize_required (stored s && same f (with_approximation s Deterministic)))
  | Op.Select =>
      a ← source (n_rhs node); b ← source (n_aux node);
      Some (mismatch (SameFixedPolicy a b && same f (DerivedBinaryFormat Op.Min a b)))
  | Op.Clamp =>
      a ← source (n_lhs node); b ← source (n_rhs node); c ← source (n_aux node);
      let ab := DerivedBinaryFormat Op.Min a b in
      let abc := DerivedBinaryFormat Op.Min ab c in
      Some (mismatch (SameFixedPolicy a b && SameFixedPolicy abc c && same f abc))
  | Op.MulAddFixed =>
      a ← source (n_lhs node); b ← source (n_rhs node); c ← source (n_aux node);
      Some (mismatch (SameFixedPolicy a b && SameFixedPolicy a c && same f (DerivedMulAddFormat a b c)))
  | Op.MulWrap | Op.BitAnd | Op.BitOr | Op.BitXor
  | Op.AddSat | Op.AddSatUnsigned | Op.SubSat | Op.MulFixed | Op.MulFixedScaled | Op.MulUnsignedFixed =>
      a ← source (n_lhs node); b ← source (n_rhs node);
      Some (quantize_required (stored a && stored b && SameStoredFormat a b && same f (with_approximation a (Z.max (approximation a) (approximation b)))))
  | Op.DivFixed | Op.Atan2 =>
      a ← source (n_lhs node); b ← source (n_rhs node);
      Some (quantize_required (stored a && stored b && SameStoredFormat a b && same f (with_approximation a Deterministic)))
  | Op.DivSigned | Op.DivUnsigned => Some (Some "compute_ir_node_invalid")
  | op =>
      a ← source (n_lhs node); b ← source (n_rhs node);
      Some (mismatch (SameFixedPolicy a b && same f (DerivedBinaryFormat op a b)))
  end.

Definition ValidateFixedNodeFormat (node : ParsedNode) : option (option string) :=
  if fixed_mode p scalar then fixed_format_rule node else
  let f := n_format node in
  match (if bool_decide (n_op node = Op.Write) && (n_rhs node =? BoundaryMask) then zget (ir_bindings p) (n_aux node) else None) with
  | Some target =>
      Some (if bool_decide (BindingDomainForShape target = Some Fixed)
            then require (stored f) "compute_ir_numeric_policy_invalid" else mismatch (ComputeFixedFormatAbsent f))
  | None => Some (mismatch (ComputeFixedFormatAbsent f))
  end.
End format.

(** ** Modes of the writes *)
Section write.
Context (p : ParsedIR) (scalar : ComputeScalar) (domains : EffectiveNodeDomains).
Abbreviation nodes := (ir_nodes p).

Definition IntegerDomain (domain : option ComputeDomain) : bool :=
  match domain with Some Fixed | None => false | Some _ => true end.
Definition NodeFormatAbsent (node : ParsedNode) : bool := ComputeFixedFormatAbsent (n_format node).
(** [NodeFormatAbsent] and [domains.values] of a reference that was checked. *)
Definition absent_at (ref : Z) : bool := default false (NodeFormatAbsent <$> node_at p ref).

Definition signed_to_unsigned (source target : option ComputeDomain) : bool :=
  (bool_decide (source = Some I32) && bool_decide (target = Some U32)) || (bool_decide (source = Some I64) && bool_decide (target = Some U64)).

Definition CheckedOrdinalWriteValid (write : ParsedNode) : bool :=
  if negb (bool_decide (n_op write = Op.Write)) || negb (n_rhs write =? CheckedOrdinal) || negb (ref_valid p (n_lhs write)) ||
     (n_aux write >=? zlen (ir_bindings p)) || negb (NodeFormatAbsent write) then false else
  match node_at p (n_lhs write), zget (ir_bindings p) (n_aux write) with
  | Some select, Some binding =>
      if negb (bool_decide (n_op select = Op.Select)) || negb (NodeFormatAbsent select) || negb (ref_valid p (n_lhs select)) ||
         negb (ref_valid p (n_rhs select)) || negb (CanonicalMaskConstant p (n_aux select) 0) || negb (absent_at (n_aux select)) then false else
      let source := domain_of domains (n_rhs select) in
      let target := BindingDomainForShape binding in
      if negb (b_kind binding =? kWriteBindingKind) || negb (b_element_bytes binding =? ScalarBytes scalar) ||
         negb (IntegerDomain source) || negb (IntegerDomain target) then false else
      match node_at p (n_lhs select) with
      | None => false
      | Some predicate =>
          if negb (NodeFormatAbsent predicate) || negb (n_lhs predicate =? n_rhs select) || negb (ref_valid p (n_rhs predicate)) then false else
          if signed_to_unsigned source target then bool_decide (n_op predicate = Op.Ge) && (n_rhs predicate =? n_aux select) else
          if negb (signed_to_unsigned target source) then false else
          let expected := if bool_decide (source = Some U64) then 9223372036854775807 else 2147483647 in
          match node_at p (n_rhs predicate) with
          | None => false
          | Some limit =>
              let bits := Z.lor (n_lhs limit) (wrap64 (Z.shiftl (n_rhs limit) 32)) in
              bool_decide (n_op predicate = Op.LeUnsigned) && bool_decide (n_op limit = Op.Constant) && (n_aux limit =? 0) &&
              NodeFormatAbsent limit && (bits =? expected)
          end
      end
  | _, _ => false
  end.

Definition BoundaryMaskWriteValid (write : ParsedNode) : bool :=
  if negb (bool_decide (n_op write = Op.Write)) || negb (n_rhs write =? BoundaryMask) || negb (ref_valid p (n_lhs write)) ||
     (n_aux write >=? zlen (ir_bindings p)) then false else
  match node_at p (n_lhs write), zget (ir_bindings p) (n_aux write) with
  | Some select, Some binding =>
      let target := BindingDomainForShape binding in
      let signed_target := bool_decide (target = Some I32) || bool_decide (target = Some I64) in
      if negb (b_kind binding =? kWriteBindingKind) || negb (b_element_bytes binding =? ScalarBytes scalar) ||
         (negb signed_target && negb (bool_decide (target = Some Fixed))) then false else
      if negb (bool_decide (n_op select = Op.Select)) || negb (NodeFormatAbsent select) || negb (ref_valid p (n_lhs select)) ||
         negb (CanonicalMaskConstant p (n_rhs select) 1) || negb (CanonicalMaskConstant p (n_aux select) 0) ||
         negb (absent_at (n_rhs select)) || negb (absent_at (n_aux select)) then false else
      match node_at p (n_lhs select) with
      | None => false
      | Some predicate =>
          if negb (bool_decide (n_op predicate = Op.Ne)) || negb (NodeFormatAbsent predicate) || negb (ref_valid p (n_lhs predicate)) ||
             negb (CanonicalMaskConstant p (n_rhs predicate) 0) || negb (n_rhs predicate =? n_aux select) || negb (absent_at (n_rhs predicate)) then false else
          let source := domain_of domains (n_lhs predicate) in
          IntegerDomain source && negb (bool_decide (source = target))
      end
  | _, _ => false
  end.

Definition with_mode (node : ParsedNode) (mode : Z) : ParsedNode := mkNode (n_op node) (n_lhs node) mode (n_aux node) (n_format node).

Definition write_mode_valid (node : ParsedNode) : bool :=
  if n_rhs node =? WriteValue then negb (BoundaryMaskWriteValid (with_mode node BoundaryMask))
  else if n_rhs node =? CheckedOrdinal then CheckedOrdinalWriteValid node
  else if n_rhs node =? BoundaryMask then BoundaryMaskWriteValid node
  else false.

Definition ValidateWriteModes : option string :=
  if forallb (fun node => negb (is_op Op.Write node) || write_mode_valid node) nodes then None else Some "compute_ir_node_invalid".
End write.

(** ** The validation *)
Section validate.
Context (p : ParsedIR) (scalar : ComputeScalar).

Definition numeric_policy_ok : bool :=
  if fixed_mode p scalar then ComputeFixedFormatValid scalar (ir_format p) else ComputeFixedFormatAbsent (ir_format p).
Definition binding_shapes_ok : bool :=
  forallb (fun '(index, b) =>
    (BindingWidthShapeValid (b_kind b) (b_element_bytes b) scalar || ReadAtIndexBinding p index) &&
    bool_decide (is_Some (BindingDomainForShape b))) (zip (range 0 (zlen (ir_bindings p))) (ir_bindings p)).

(** One node; [produces] has the entry of the value 0 and those of the nodes before. *)
Definition validate_node (domains : EffectiveNodeDomains) (produces : list bool) (index : Z) (node : ParsedNode)
    : option (flow (list bool) (option string)) :=
  let current := index + 1 in
  domain ← zget (d_values domains) index;
  match domain with
  | None => Some (Return (Some "compute_ir_node_invalid"))
  | Some domain =>
      if negb (bool_decide (CanonicalIrOpForDomain (n_op node) domain = n_op node)) || negb (IrOpDomainValid (n_op node) domain)
      then Some (Return (Some "compute_ir_node_invalid")) else
      reason ← ValidateFixedNodeFormat p scalar node;
      match reason with
      | Some reason => Some (Return (Some reason))
      | None =>
          if negb (forallb (edge_ok produces current) (node_refs node)) then Some (Return (Some "compute_ir_node_invalid")) else
          if ConstShiftOp (n_op node) && (n_aux node >=? ScalarBitWidth scalar) then Some (Return (Some "compute_shift_count_invalid")) else
          Some (Next (produces ++ [negb (is_write node)]))
      end
  end.

Definition ValidateLowerableIR : option (option string) :=
  if negb numeric_policy_ok then Some (Some "compute_ir_numeric_policy_mismatch") else
  if negb binding_shapes_ok then Some (Some "compute_ir_binding_scalar_mismatch") else
  if negb (BindingDomainsMatchGraph p scalar) then Some (Some "compute_ir_binding_scalar_mismatch") else
  if negb (WidthChangingWriteIsCanonicalMask p scalar) then Some (Some "compute_ir_binding_scalar_mismatch") else
  let domains := ResolveEffectiveNodeDomains p scalar in
  if negb (d_valid domains) then Some (Some "compute_ir_node_invalid") else
  match ValidateWriteModes p scalar domains with
  | Some reason => Some (Some reason)
  | None =>
      r ← for_loop (fun produces '(index, node) => validate_node domains produces index node) [false] (zip (range 0 (zlen (ir_nodes p))) (ir_nodes p));
      Some (match r with Return reason => reason | Next _ => None end)
  end.
End validate.

(** ** Admission *)
Definition AdmitComputeInput (ir : ComputeIR) : option (ParsedIR + string) :=
  match ComputeInputHeaderFailure ir with
  | Some reason => Some (inr reason)
  | None =>
      match ParseComputeIR ir (canonical_bytes ir) with
      | inr reason => Some (inr reason)
      | inl parsed =>
          reason ← ValidateLowerableIR parsed (c_scalar ir);
          Some (match reason with Some reason => inr reason | None => inl parsed end)
      end
  end.

(** ** What the validation gives *)
Lemma assign_len st ref d : length (d_values (assign st ref d)) = length (d_values st).
Proof. unfold assign. repeat case_match; try done. cbn. by rewrite length_insert. Qed.
Lemma constrain_unary_len st result source : length (d_values (constrain_unary st result source)) = length (d_values st).
Proof. unfold constrain_unary. destruct (_ || _); [done|]. by rewrite !assign_len. Qed.
Lemma constrain_binary_len st result lhs rhs : length (d_values (constrain_binary st result lhs rhs)) = length (d_values st).
Proof.
  unfold constrain_binary. destruct (_ || _); [done|]. destruct (_ && _); [done|]. set (st1 := assign st result _).
  assert (length (d_values st1) = length (d_values st)) as <- by apply assign_len. destruct (domain_of st1 result) as [d|]; [|done].
  destruct (bool_decide (domain_of st lhs = None)), (bool_decide (domain_of st rhs = None)); cbv beta iota zeta;
    (destruct (_ || negb _)); cbn [invalid d_values]; by rewrite ?assign_len.
Qed.

Section validated.
Context (p : ParsedIR) (scalar : ComputeScalar).
Abbreviation nodes := (ir_nodes p).

Lemma constrain_node_len st index : length (d_values (constrain_node p st index)) = length (d_values st).
Proof.
  unfold constrain_node. destruct (zget nodes index) as [node|]; [|done]. destruct (d_valid st); [|done]. cbn [negb].
  destruct (n_op node); cbv beta iota zeta;
    repeat first [rewrite constrain_binary_len | rewrite constrain_unary_len | rewrite assign_len | case_match]; done.
Qed.
Lemma sweep_len reverse st : length (d_values (sweep p reverse st)) = length (d_values st).
Proof.
  unfold sweep. generalize (if reverse then rev (range 0 (zlen nodes)) else range 0 (zlen nodes)). intros l. revert st.
  induction l as [|i l IH]; intros st; cbn [fold_left]; [done|]. by rewrite IH, constrain_node_len.
Qed.

(** Every node has a domain. *)
Lemma domains_len : zlen (d_values (ResolveEffectiveNodeDomains p scalar)) = zlen nodes.
Proof.
  unfold zlen. f_equal. unfold ResolveEffectiveNodeDomains. destruct (fixed_mode p scalar); cbn [d_values]; [apply length_map|].
  rewrite !sweep_len. cbn [d_values]. rewrite length_map, !sweep_len. apply length_map.
Qed.

(** The nodes from [i], validated in order, and the value edges the preparation relies on. *)
Definition edges_from (produced : list bool) (l : list ParsedNode) : bool :=
  (fix go (produced : list bool) (nodes : list ParsedNode) : bool :=
     match nodes with
     | [] => true
     | node :: nodes => forallb (edge_ok produced (zlen produced)) (node_refs node) && go (produced ++ [negb (is_write node)]) nodes
     end) produced l.

Definition node_validated (domains : EffectiveNodeDomains) (index : Z) (node : ParsedNode) : Prop :=
  (exists domain, zget (d_values domains) index = Some (Some domain) /\ CanonicalIrOpForDomain (n_op node) domain = n_op node /\
     IrOpDomainValid (n_op node) domain = true) /\
  ValidateFixedNodeFormat p scalar node = Some None /\ (ConstShiftOp (n_op node) = true -> n_aux node < ScalarBitWidth scalar).

Lemma validate_node_next domains produces index node produces' :
  validate_node p scalar domains produces index node = Some (Next produces') ->
  node_validated domains index node /\ forallb (edge_ok produces (index + 1)) (node_refs node) = true /\ produces' = produces ++ [negb (is_write node)].
Proof.
  unfold validate_node. destruct (zget (d_values domains) index) as [[domain|]|] eqn:Ed; try done. cbn [mbind option_bind].
  destruct (bool_decide_reflect (CanonicalIrOpForDomain (n_op node) domain = n_op node)) as [Hc|]; [|done].
  destruct (IrOpDomainValid (n_op node) domain) eqn:Ev; [|done]. cbn [negb orb].
  destruct (ValidateFixedNodeFormat p scalar node) as [[|]|] eqn:Ef; try done. cbn [mbind option_bind].
  destruct (forallb _ _) eqn:Ee; [|done]. cbn [negb]. destruct (ConstShiftOp (n_op node) && _) eqn:Es; [done|]. intros [= <-].
  split; [|done]. split; [by exists domain|]. split; [done|]. intros Hs. rewrite Hs in Es. cbn [andb] in Es. to_prop. lia.
Qed.

Lemma validate_loop domains l produces i produces' : zlen produces = i + 1 ->
  for_loop (fun produces '(index, node) => validate_node p scalar domains produces index node) produces (zip (range i (i + zlen l)) l) = Some (Next produces') ->
  edges_from produces l = true /\ forall k node, l !! k = Some node -> node_validated domains (i + Z.of_nat k) node.
Proof.
  revert produces i. induction l as [|node l IH]; intros produces i Hp; [intros _; by split|].
  pose proof (zlen_nonneg l). rewrite zlen_cons, range_cons by lia. cbn [zip_with for_loop].
  destruct (validate_node p scalar domains produces i node) as [[pr|]|] eqn:E; try done. cbn [mbind option_bind].
  apply validate_node_next in E as (Hnode & He0 & ->). replace (i + (zlen l + 1)) with (i + 1 + zlen l) by lia. intros Hl.
  apply (IH (produces ++ [negb (is_write node)]) (i + 1)) in Hl as [He Hn]; [|rewrite zlen_app; change (zlen [_]) with 1; lia]. split.
  - cbn [edges_from]. apply andb_true_intro. split; [by rewrite Hp | exact He].
  - intros [|k] x Hx; [injection Hx as <-; by rewrite Z.add_0_r|].
    replace (i + Z.of_nat (S k)) with (i + 1 + Z.of_nat k) by lia. by apply Hn.
Qed.

Record validated : Prop := {
  va_edges : value_edges_ok nodes = true;
  va_nodes : forall k node, nodes !! k = Some node -> node_validated (ResolveEffectiveNodeDomains p scalar) (Z.of_nat k) node;
  va_shapes : forall k b, zget (ir_bindings p) k = Some b ->
    BindingWidthShapeValid (b_kind b) (b_element_bytes b) scalar = true \/ ReadAtIndexBinding p k = true;
}.

Lemma ValidateLowerableIR_validated : ValidateLowerableIR p scalar = Some None -> validated.
Proof.
  unfold ValidateLowerableIR. destruct (numeric_policy_ok p scalar); [|done]. destruct (binding_shapes_ok p scalar) eqn:Eb; [|done].
  destruct (BindingDomainsMatchGraph p scalar); [|done]. destruct (WidthChangingWriteIsCanonicalMask p scalar); [|done].
  destruct (d_valid _); [|done]. destruct (ValidateWriteModes _ _ _); [done|]. cbn [negb].
  destruct (for_loop _ _ _) as [[produces|r]|] eqn:El; cbn [mbind option_bind].
  - intros _. apply (validate_loop _ nodes [false] 0) in El as [He Hn]; [|done]. split; [exact He | intros k node Hk; by apply Hn |].
    intros k b Hk. unfold binding_shapes_ok in Eb. rewrite forallb_forall in Eb.
    assert ((k, b) ∈ zip (range 0 (zlen (ir_bindings p))) (ir_bindings p)) as Hin.
    { apply zget_Some in Hk as [Hk0 Hk]. apply (list_elem_of_lookup_2 _ (Z.to_nat k)). apply lookup_zip_with_Some. exists k, b. split; [done|]. split; [|done].
      unfold range. apply lookup_seqZ. apply lookup_lt_Some in Hk. unfold zlen. lia. }
    apply list_elem_of_In, Eb in Hin. apply andb_prop in Hin as [[?|?]%orb_true_iff _]; auto.
  - intros [= ->]. exfalso. revert El. generalize (zip (range 0 (zlen nodes)) nodes), [false]. intros l. induction l as [|[index node] l IH]; intros pr; [done|].
    cbn [for_loop]. destruct (validate_node _ _ _ pr index node) as [[pr'|r]|] eqn:E; cbn [mbind option_bind]; [apply IH | | done].
    intros [= ->]. revert E. unfold validate_node. destruct (zget _ index) as [[domain|]|]; try done. cbn [mbind option_bind].
    destruct (_ || _); [done|]. destruct (ValidateFixedNodeFormat p scalar node) as [[|]|]; try done. cbn [mbind option_bind].
    destruct (negb _); [done|]. by destruct (_ && _).
  - done.
Qed.
End validated.

(** ** The validation of a parsed program never reads out of range *)
Lemma valid_ref ref current : is_u32 ref -> ValidNodeRef ref current = true -> 0 < ref < current.
Proof. unfold ValidNodeRef, is_u32. intros ? [?%negb_true_iff%Z.eqb_neq ?%Z.ltb_lt]%andb_prop. lia. Qed.

Lemma accepted_refs p scalar index node ref :
  ValidateParsedNodeOperands p node scalar (index + 1) = None -> node_encodable node -> ref ∈ node_refs node -> 0 < ref <= index.
Proof.
  intros Hv (Hl & Hr & Ha) Hin. destruct node as [op l r a f]. cbn [n_lhs n_rhs n_aux] in *.
  assert (forall x, is_u32 x -> ValidNodeRef x (index + 1) = true -> 0 < x <= index) as G by (intros x Hx Hvx; apply valid_ref in Hvx; [lia | done]).
  unfold ValidateParsedNodeOperands in Hv. cbn [n_op n_lhs n_rhs n_aux] in Hv.
  destruct op; cbn [ConstShiftOp UnaryValueOp BinaryValueOp] in Hv; cbv [node_refs ParsedNodeResourcesFor] in Hin; cbn in Hin;
    repeat (apply elem_of_cons in Hin as [->|Hin]); try (by apply elem_of_nil in Hin);
    repeat match type of Hv with
    | (if ?c then _ else _) = None => destruct c eqn:?; [done|]
    end; repeat match goal with H : _ || _ = false |- _ => apply orb_false_iff in H as [? ?] end;
    repeat match goal with H : negb _ = false |- _ => apply negb_false_iff in H end; by apply G.
Qed.

Lemma source_known p ref : 0 < ref <= zlen (ir_nodes p) -> exists f, source p ref = Some f.
Proof. intros H. unfold source, format_at, node_at. destruct (zget_is_Some (ir_nodes p) (ref - 1)) as [n ->]; [lia | by eexists]. Qed.

Lemma format_rule_total p scalar node :
  (forall ref, ref ∈ node_refs node -> 0 < ref <= zlen (ir_nodes p)) -> exists r, ValidateFixedNodeFormat p scalar node = Some r.
Proof.
  intros H. unfold ValidateFixedNodeFormat. destruct (fixed_mode p scalar).
  2: { destruct (if _ : bool then _ else _); by eexists. }
  unfold fixed_format_rule. destruct (negb _); [by eexists|].
  destruct node as [op l r a f]. cbn [n_op n_lhs n_rhs n_aux n_format] in *.
  destruct op; cbv [node_refs ParsedNodeResourcesFor] in H; cbn in H; try (by eexists);
    repeat match goal with
    | |- context [source p ?x] => let E := fresh in let g := fresh in
        destruct (source_known p x ltac:(apply H; repeat first [apply list_elem_of_here | apply list_elem_of_further])) as [g E]; rewrite E; cbn [mbind option_bind]; clear E
    end; by eexists.
Qed.

Lemma validate_total ir p : valid_ir ir p -> encodable p -> exists r, ValidateLowerableIR p (c_scalar ir) = Some r.
Proof.
  intros Hv He. unfold ValidateLowerableIR.
  repeat (match goal with |- context [if ?c then Some (Some _) else _] => destruct c; [by eexists|] end).
  destruct (ValidateWriteModes _ _ _); [by eexists|]. set (domains := ResolveEffectiveNodeDomains _ _).
  assert (zlen (d_values domains) = zlen (ir_nodes p)) as Hd by apply domains_len.
  destruct (for_loop_safe (R := option string) (fun _ _ => True)
    (fun produces '(index, node) => validate_node p (c_scalar ir) domains produces index node) (zip (range 0 (zlen (ir_nodes p))) (ir_nodes p)) [false])
    as [(r & ->)|(s & -> & _)]; [done | | by eexists | by eexists].
  intros d [index node] rest st El _.
  assert (zip (range 0 (zlen (ir_nodes p))) (ir_nodes p) !! length d = Some (index, node)) as Hk by (rewrite El; by apply list_lookup_middle).
  apply lookup_zip_with_Some in Hk as (i & n & [= -> ->] & Hi & Hn). unfold range in Hi. apply lookup_seqZ in Hi as [-> _].
  pose proof (lookup_lt_Some _ _ _ Hn) as Hlt.
  destruct (format_rule_total p (c_scalar ir) n) as [r Er].
  { intros ref Hin. pose proof (vi_node _ _ Hv _ _ Hn) as Ho. apply (accepted_refs _ _ _ _ ref) in Ho; [unfold zlen; lia | | done].
    eapply Forall_lookup_1; [apply (enc_nodes_fit _ He) | exact Hn]. }
  unfold validate_node. destruct (zget_is_Some (d_values domains) (0 + Z.of_nat (length d))) as [[domain|] ->]; [rewrite Hd; unfold zlen; lia | |]; cbn [mbind option_bind]; [|by left; eexists].
  destruct (_ || _); [by left; eexists|]. rewrite Er. cbn [mbind option_bind]. destruct r; [by left; eexists|].
  destruct (negb _); [by left; eexists|]. destruct (_ && _); [by left; eexists|]. right. by eexists.
Qed.

(** What admission gives, for canonical bytes that are bytes. *)
Record admitted (ir : ComputeIR) (p : ParsedIR) : Prop := {
  ad_encodable : encodable p;
  ad_valid : valid_ir ir p;
  ad_validated : validated p (c_scalar ir);
  ad_fractions : forall node, node ∈ ir_nodes p -> 0 <= fraction_bits (n_format node) < 256;
}.

Lemma AdmitComputeInput_ok ir : Forall is_byte (canonical_bytes ir) ->
  (exists reason, AdmitComputeInput ir = Some (inr reason)) \/ (exists p, AdmitComputeInput ir = Some (inl p) /\ admitted ir p).
Proof.
  intros Hb. unfold AdmitComputeInput. destruct (ComputeInputHeaderFailure ir); [left; by eexists|].
  destruct (ParseComputeIR ir (canonical_bytes ir)) as [p|] eqn:E; [|left; by eexists].
  apply parse_inv in E as (He & Hv & _ & Hn); [|done]. destruct (validate_total ir p Hv He) as [[reason|] Er]; rewrite Er; cbn [mbind option_bind];
    [left; by eexists|]. right. exists p. split; [done|]. split; [done | done | by apply ValidateLowerableIR_validated |].
  intros node Hin. by apply (node_fraction_byte p).
Qed.
