(* ===== verification/CpuLanes.v ===== *)
(** * CpuLanes: the arithmetic of one CPU lane

    The functions the executors of [node/src/accel/cpu/simd/run/body] apply to a lane: the
    128-bit fixed-point helpers ([arithmetic/wide.hpp], [fixed/base.hpp],
    [fixed/transcendental.hpp]) and the lane operations of math32 and math64
    ([fixed/lane.hpp]) that integer domains use.

    A scalar of [w] bits is a signed number, a wide lane a signed 128-bit number. Signed
    128-bit arithmetic wraps here; it is undefined when it overflows in the source, which
    the formats that the IR's validation accepts exclude. *)
From stdpp Require Import base numbers list option strings.
From Stdlib Require Import ZArith Lia.
From S2P Require Import Prelude IrModel.

Definition i128 (z : Z) : Z := to_signed 128 z.
Definition unsigned (w z : Z) : Z := z mod 2 ^ w.
Definition FixedMin (w : Z) : Z := - 2 ^ (w - 1).
Definition FixedMax (w : Z) : Z := 2 ^ (w - 1) - 1.

(** ** Wide lanes *)
Definition ShiftWideLeft (value shift : Z) : Z := i128 (Z.shiftl value shift).

(** The source shifts the unsigned bits of the value, so the shift wraps at 128 bits. The
    difference of the fractions is unsigned too: a target with fewer fraction bits makes the
    shift undefined in the source, where the definition shifts right. *)
Definition AlignWideFraction (value source_fraction target_fraction : Z) : Z :=
  if source_fraction =? target_fraction then value else ShiftWideLeft value (target_fraction - source_fraction).

(** Rounding of a magnitude shifted right, as [QuantizeWide] does it. *)
Definition rounds_away (rounding : Z) (negative nonzero nearest : bool) : bool :=
  ((rounding =? Down) && negative && nonzero) || ((rounding =? Up) && negb negative && nonzero) ||
  ((rounding =? NearestEven) && nearest).

Definition QuantizeWide (value : Z) (source target : ComputeFixedFormat) : Z :=
  let width := integer_bits target + fraction_bits target in
  let sign := 2 ^ (width - 1) in
  let low := - sign in
  let high := sign - 1 in
  let finish scaled :=
    if overflow target =? Saturate then if scaled <? low then low else if high <? scaled then high else scaled
    else to_signed width scaled in
  if fraction_bits source <? fraction_bits target then
    let shift := fraction_bits target - fraction_bits source in
    let factor := 2 ^ shift in
    if (overflow target =? Saturate) && (value <? Z.quot low factor) then low else
    if (overflow target =? Saturate) && (Z.quot high factor <? value) then high else
    finish (ShiftWideLeft value shift)
  else if fraction_bits target <? fraction_bits source then
    let shift := fraction_bits source - fraction_bits target in
    let negative := value <? 0 in
    let magnitude := Z.abs value in
    let quotient := Z.shiftr magnitude shift in
    let remainder := magnitude mod 2 ^ shift in
    let halfway := 2 ^ (shift - 1) in
    let nearest := (halfway <? remainder) || ((remainder =? halfway) && Z.odd quotient) in
    let quotient := if rounds_away (rounding target) negative (negb (remainder =? 0)) nearest then quotient + 1 else quotient in
    finish (if negative then - quotient else quotient)
  else finish value.

Definition StoredWidth (format : ComputeFixedFormat) : Z := integer_bits format + fraction_bits format.
Definition StoredUnsignedBits (value : Z) (format : ComputeFixedFormat) : Z := unsigned (StoredWidth format) value.
Definition StoredSignedBits (value : Z) (format : ComputeFixedFormat) : Z := to_signed (StoredWidth format) value.

Definition FixedProductFormat (format : ComputeFixedFormat) : ComputeFixedFormat :=
  mkFormat ((integer_bits format * 2) mod 256) ((fraction_bits format * 2) mod 256) (rounding format) (overflow format) (approximation format).

Definition QuantizeUnsignedFixedProduct (product : Z) (format : ComputeFixedFormat) : Z :=
  let shift := fraction_bits format in
  let quotient := Z.shiftr product shift in
  let remainder := product mod 2 ^ shift in
  let halfway := 2 ^ (shift - 1) in
  let nearest := (halfway <? remainder) || ((remainder =? halfway) && Z.odd quotient) in
  let quotient := if rounds_away (rounding format) false (negb (remainder =? 0)) nearest then quotient + 1 else quotient in
  let maximum := 2 ^ StoredWidth format - 1 in
  let quotient := if (overflow format =? Saturate) && (maximum <? quotient) then maximum else quotient in
  StoredSignedBits quotient format.

Definition FixedDivideRaw (lhs rhs : Z) (format : ComputeFixedFormat) : Z :=
  let fraction := fraction_bits format in
  if rhs =? 0 then
    if lhs =? 0 then 0 else
    let sign := 2 ^ (integer_bits format + fraction - 1) in
    if lhs <? 0 then - sign else sign - 1
  else
    let negative := negb (Bool.eqb (lhs <? 0) (rhs <? 0)) in
    let numerator := wrap128 (Z.shiftl (Z.abs lhs) fraction) in
    let denominator := Z.abs rhs in
    let quotient := numerator / denominator in
    let remainder := numerator mod denominator in
    let twice := wrap128 (2 * remainder) in
    let nearest := (denominator <? twice) || ((twice =? denominator) && Z.odd quotient) in
    let quotient := if rounds_away (rounding format) negative (negb (remainder =? 0)) nearest then quotient + 1 else quotient in
    if negative then - i128 quotient else i128 quotient.

Definition FixedSqrtRaw (value : Z) (format : ComputeFixedFormat) : Z :=
  if value <=? 0 then 0 else
  let radicand := wrap128 (Z.shiftl value (fraction_bits format)) in
  fold_left (fun root step =>
    let candidate := Z.lor root (2 ^ (63 - step)) in
    if wrap128 (candidate * candidate) <=? radicand then candidate else root) (range 0 64) 0.

Definition CanonicalUnitFormat (w : Z) (format : ComputeFixedFormat) : ComputeFixedFormat :=
  mkFormat 1 (w - 1) (rounding format) Saturate (approximation format).
Definition FixedTurnPhase (w value : Z) (format : ComputeFixedFormat) : Z :=
  to_signed w (Z.shiftl (unsigned w value) (w - fraction_bits format)).
Definition FixedCanonicalUnit (w value : Z) (format : ComputeFixedFormat) : Z :=
  to_signed w (QuantizeWide value format (CanonicalUnitFormat w format)).

(** The nonlinear lane laws of math32 and math64 ([TurnSin], [TurnCos], [Exp2], [Log2],
    [TurnAtan2]) are arguments of the model. *)
Record LaneMath := { turn_sin : Z -> Z; turn_cos : Z -> Z; exp2 : Z -> Z; log2 : Z -> Z; turn_atan2 : Z -> Z -> Z }.

(** ** Scalar lanes *)
Definition AddWrap (w lhs rhs : Z) : Z := to_signed w (lhs + rhs).
Definition SubWrap (w lhs rhs : Z) : Z := to_signed w (lhs - rhs).
Definition MulLow (w lhs rhs : Z) : Z := to_signed w (lhs * rhs).
Definition BooleanValue (b : bool) : Z := if b then 1 else 0.
Definition Truthy (value : Z) : bool := negb (value =? 0).
Definition ValueMin (lhs rhs : Z) : Z := if lhs <? rhs then lhs else rhs.
Definition ValueMax (lhs rhs : Z) : Z := if rhs <? lhs then lhs else rhs.
Definition MinUnsigned (w lhs rhs : Z) : Z := if unsigned w lhs <? unsigned w rhs then lhs else rhs.
Definition MaxUnsigned (w lhs rhs : Z) : Z := if unsigned w rhs <? unsigned w lhs then lhs else rhs.
Definition Abs (w value : Z) : Z := if value =? FixedMin w then FixedMax w else if value <? 0 then SubWrap w 0 value else value.
Definition AbsMagnitude (w value : Z) : Z := if value <? 0 then SubWrap w 0 value else value.
Definition Sign (value : Z) : Z := if value <? 0 then -1 else if 0 <? value then 1 else 0.
Definition clamp_scalar (w value : Z) : Z := Z.max (FixedMin w) (Z.min (FixedMax w) value).
Definition AddSat (w lhs rhs : Z) : Z := clamp_scalar w (lhs + rhs).
Definition SubSat (w lhs rhs : Z) : Z := clamp_scalar w (lhs - rhs).
Definition AddSatUnsigned (w lhs rhs : Z) : Z :=
  let sum := unsigned w (lhs + rhs) in
  to_signed w (if sum <? unsigned w lhs then 2 ^ w - 1 else sum).
Definition NegPositiveFixed (w value : Z) : Z := if value =? FixedMax w then FixedMin w else SubWrap w 0 value.
Definition bits2 (w : Z) (f : Z -> Z -> Z) (lhs rhs : Z) : Z := to_signed w (f (unsigned w lhs) (unsigned w rhs)).
Definition BitNot (w value : Z) : Z := to_signed w (Z.lnot value).
Definition ShlConst (w value amount : Z) : Z := to_signed w (Z.shiftl (unsigned w value) amount).
Definition ShrLogicalConst (w value amount : Z) : Z := to_signed w (Z.shiftr (unsigned w value) amount).
Definition ShiftArithmeticRight (w value amount : Z) : Z :=
  if amount =? 0 then value else
  let fill := if value <? 0 then unsigned w (Z.shiftl (2 ^ w - 1) (w - amount)) else 0 in
  to_signed w (Z.lor (Z.shiftr (unsigned w value) amount) fill).

(** ** One operation on one lane

    The result of an operation from the wide lanes of its operands and their fraction
    bits. Operations on scalars take the operand's low [w] bits. *)
Section lane.
Context (w : Z) (fixed : bool) (math : LaneMath).

Definition stored (value : Z) : Z := to_signed w value.
Definition aligned (fr value : Z) (format : ComputeFixedFormat) : Z := AlignWideFraction value fr (fraction_bits format).

Definition FixedCompare (test : Z -> Z -> bool) (format : ComputeFixedFormat) (fa fb a b : Z) : Z :=
  BooleanValue (test (aligned fa a format) (aligned fb b format)).
Definition compare_lane (test : Z -> Z -> bool) (format : ComputeFixedFormat) (fa fb a b : Z) : Z :=
  if fixed then FixedCompare test format fa fb a b else BooleanValue (test (stored a) (stored b)).
Definition compare_unsigned (test : Z -> Z -> bool) (a b : Z) : Z := BooleanValue (test (unsigned w a) (unsigned w b)).

Definition ne (a b : Z) : bool := negb (a =? b).
Definition gt (a b : Z) : bool := b <? a.
Definition ge (a b : Z) : bool := b <=? a.

Definition canonical_unary (input : Z -> ComputeFixedFormat -> Z) (operation : Z -> Z) (value : Z) (format : ComputeFixedFormat) : Z :=
  let source := mkFormat 1 (w - 1) (rounding format) (overflow format) (approximation format) in
  QuantizeWide (operation (input value format)) source format.

Definition ExecuteAdd (format : ComputeFixedFormat) (fa fb a b : Z) : Z :=
  if fixed then i128 (aligned fa a format + aligned fb b format) else AddWrap w (stored a) (stored b).
Definition ExecuteSub (format : ComputeFixedFormat) (fa fb a b : Z) : Z :=
  if fixed then i128 (aligned fa a format - aligned fb b format) else SubWrap w (stored a) (stored b).
Definition ExecuteMul (a b : Z) : Z := if fixed then i128 (a * b) else MulLow w (stored a) (stored b).
Definition ExecuteMulWrap (a b : Z) : Z := MulLow w (stored a) (stored b).
Definition ExecuteQuantize (format : ComputeFixedFormat) (fa a : Z) : Z := QuantizeWide a (mkFormat 0 fa 0 0 0) format.
Definition ExecuteMin (format : ComputeFixedFormat) (fa fb a b : Z) : Z :=
  if fixed then ValueMin (aligned fa a format) (aligned fb b format) else ValueMin (stored a) (stored b).
Definition ExecuteMax (format : ComputeFixedFormat) (fa fb a b : Z) : Z :=
  if fixed then ValueMax (aligned fa a format) (aligned fb b format) else ValueMax (stored a) (stored b).
Definition ExecuteMinUnsigned (a b : Z) : Z := MinUnsigned w (stored a) (stored b).
Definition ExecuteMaxUnsigned (a b : Z) : Z := MaxUnsigned w (stored a) (stored b).
Definition ExecuteClamp (format : ComputeFixedFormat) (fa fb fc a b c : Z) : Z :=
  if fixed then
    let value := aligned fa a format in let low := aligned fb b format in let high := aligned fc c format in
    if value <? low then low else if high <? value then high else value
  else ValueMin (ValueMax (stored a) (stored b)) (stored c).
Definition ExecuteClampUnsigned (a b c : Z) : Z := MinUnsigned w (MaxUnsigned w (stored a) (stored b)) (stored c).
Definition ExecuteSelect (format : ComputeFixedFormat) (fb fc a b c : Z) : Z :=
  if fixed then if negb (a =? 0) then aligned fb b format else aligned fc c format
  else if Truthy (stored a) then stored b else stored c.
Definition ExecuteEq (format : ComputeFixedFormat) (fa fb a b : Z) : Z := compare_lane Z.eqb format fa fb a b.
Definition ExecuteNe (format : ComputeFixedFormat) (fa fb a b : Z) : Z := compare_lane ne format fa fb a b.
Definition ExecuteLt (format : ComputeFixedFormat) (fa fb a b : Z) : Z := compare_lane Z.ltb format fa fb a b.
Definition ExecuteLe (format : ComputeFixedFormat) (fa fb a b : Z) : Z := compare_lane Z.leb format fa fb a b.
Definition ExecuteGt (format : ComputeFixedFormat) (fa fb a b : Z) : Z := compare_lane gt format fa fb a b.
Definition ExecuteGe (format : ComputeFixedFormat) (fa fb a b : Z) : Z := compare_lane ge format fa fb a b.
Definition ExecuteLtUnsigned (a b : Z) : Z := compare_unsigned Z.ltb a b.
Definition ExecuteLeUnsigned (a b : Z) : Z := compare_unsigned Z.leb a b.
Definition ExecuteGtUnsigned (a b : Z) : Z := compare_unsigned gt a b.
Definition ExecuteGeUnsigned (a b : Z) : Z := compare_unsigned ge a b.
Definition ExecutePredicateNot (a : Z) : Z := if fixed then BooleanValue (a =? 0) else BooleanValue (negb (Truthy (stored a))).
Definition ExecutePredicateAnd (a b : Z) : Z := if fixed then BooleanValue (Truthy a && Truthy b) else BooleanValue (Truthy (stored a) && Truthy (stored b)).
Definition ExecutePredicateOr (a b : Z) : Z := if fixed then BooleanValue (Truthy a || Truthy b) else BooleanValue (Truthy (stored a) || Truthy (stored b)).
Definition ExecuteNeg (a : Z) : Z := if fixed then i128 (- a) else SubWrap w 0 (stored a).
Definition ExecuteAbs (a : Z) : Z := if fixed then i128 (if a <? 0 then - a else a) else Abs w (stored a).
Definition ExecuteAbsMagnitude (a : Z) : Z := if fixed then i128 (if a <? 0 then - a else a) else AbsMagnitude w (stored a).
Definition ExecuteSign (a : Z) : Z := if fixed then Sign a else Sign (stored a).
Definition ExecuteBitAnd (a b : Z) : Z := bits2 w Z.land (stored a) (stored b).
Definition ExecuteBitOr (a b : Z) : Z := bits2 w Z.lor (stored a) (stored b).
Definition ExecuteBitXor (a b : Z) : Z := bits2 w Z.lxor (stored a) (stored b).
Definition ExecuteBitNot (a : Z) : Z := BitNot w (stored a).
Definition ExecuteShlConst (amount a : Z) : Z := ShlConst w (stored a) amount.
Definition ExecuteShrLogicalConst (amount a : Z) : Z := ShrLogicalConst w (stored a) amount.
Definition ExecuteShrArithmeticConst (amount a : Z) : Z := ShiftArithmeticRight w (stored a) amount.
Definition ExecuteAddSat (a b : Z) : Z := AddSat w (stored a) (stored b).
Definition ExecuteAddSatUnsigned (a b : Z) : Z := AddSatUnsigned w (stored a) (stored b).
Definition ExecuteSubSat (a b : Z) : Z := SubSat w (stored a) (stored b).
Definition ExecuteNegPositiveFixed (a : Z) : Z := NegPositiveFixed w (stored a).
Definition ExecuteMulFixed (format : ComputeFixedFormat) (a b : Z) : Z := QuantizeWide (i128 (a * b)) (FixedProductFormat format) format.
Definition ExecuteMulFixedScaled (format : ComputeFixedFormat) (a b : Z) : Z :=
  QuantizeWide (i128 (a * StoredUnsignedBits b format)) (FixedProductFormat format) format.
Definition ExecuteMulUnsignedFixed (format : ComputeFixedFormat) (a b : Z) : Z :=
  QuantizeUnsignedFixedProduct (wrap128 (StoredUnsignedBits a format * StoredUnsignedBits b format)) format.
Definition ExecuteMulAddFixed (format : ComputeFixedFormat) (fa fb fc a b c : Z) : Z := i128 (aligned (fa + fb) (i128 (a * b)) format + aligned fc c format).
Definition ExecuteDivFixed (format : ComputeFixedFormat) (a b : Z) : Z := QuantizeWide (FixedDivideRaw a b format) format format.
Definition ExecuteRecip (format : ComputeFixedFormat) (a : Z) : Z := QuantizeWide (FixedDivideRaw (2 ^ fraction_bits format) a format) format format.
Definition ExecuteSqrt (format : ComputeFixedFormat) (a : Z) : Z := QuantizeWide (FixedSqrtRaw a format) format format.
Definition ExecuteRsqrt (format : ComputeFixedFormat) (a : Z) : Z :=
  QuantizeWide (FixedDivideRaw (2 ^ fraction_bits format) (FixedSqrtRaw a format) format) format format.
Definition ExecuteSin (format : ComputeFixedFormat) (a : Z) : Z := canonical_unary (FixedTurnPhase w) (turn_sin math) a format.
Definition ExecuteCos (format : ComputeFixedFormat) (a : Z) : Z := canonical_unary (FixedTurnPhase w) (turn_cos math) a format.
Definition ExecuteTan (format : ComputeFixedFormat) (a : Z) : Z :=
  let phase := FixedTurnPhase w a format in
  QuantizeWide (FixedDivideRaw (turn_sin math phase) (turn_cos math phase) format) format format.
Definition ExecuteExp (format : ComputeFixedFormat) (a : Z) : Z := canonical_unary (FixedCanonicalUnit w) (exp2 math) a format.
Definition ExecuteLog (format : ComputeFixedFormat) (a : Z) : Z := canonical_unary (FixedCanonicalUnit w) (log2 math) a format.
Definition ExecuteAtan2 (format : ComputeFixedFormat) (a b : Z) : Z :=
  QuantizeWide (turn_atan2 math (stored a) (stored b)) (mkFormat 0 w (rounding format) (overflow format) (approximation format)) format.
Definition ExecuteDivSigned (a b : Z) : Z := Z.quot (stored a) (stored b).
Definition ExecuteDivUnsigned (a b : Z) : Z := to_signed w (unsigned w a / unsigned w b).

(** The executor of an opcode. *)
Definition lane_value (node : ParsedNode) (fa fb fc a b c : Z) : Z :=
  let format := n_format node in
  match n_op node with
  | Op.Add => ExecuteAdd format fa fb a b
  | Op.Sub => ExecuteSub format fa fb a b
  | Op.Mul => ExecuteMul a b
  | Op.MulWrap => ExecuteMulWrap a b
  | Op.Quantize => ExecuteQuantize format fa a
  | Op.Min => ExecuteMin format fa fb a b
  | Op.Max => ExecuteMax format fa fb a b
  | Op.MinUnsigned => ExecuteMinUnsigned a b
  | Op.MaxUnsigned => ExecuteMaxUnsigned a b
  | Op.Clamp => ExecuteClamp format fa fb fc a b c
  | Op.ClampUnsigned => ExecuteClampUnsigned a b c
  | Op.Select => ExecuteSelect format fb fc a b c
  | Op.Eq => ExecuteEq format fa fb a b
  | Op.Ne => ExecuteNe format fa fb a b
  | Op.Lt => ExecuteLt format fa fb a b
  | Op.Le => ExecuteLe format fa fb a b
  | Op.Gt => ExecuteGt format fa fb a b
  | Op.Ge => ExecuteGe format fa fb a b
  | Op.LtUnsigned => ExecuteLtUnsigned a b
  | Op.LeUnsigned => ExecuteLeUnsigned a b
  | Op.GtUnsigned => ExecuteGtUnsigned a b
  | Op.GeUnsigned => ExecuteGeUnsigned a b
  | Op.PredicateNot => ExecutePredicateNot a
  | Op.PredicateAnd => ExecutePredicateAnd a b
  | Op.PredicateOr => ExecutePredicateOr a b
  | Op.Neg => ExecuteNeg a
  | Op.Abs => ExecuteAbs a
  | Op.AbsMagnitude => ExecuteAbsMagnitude a
  | Op.Sign => ExecuteSign a
  | Op.BitAnd => ExecuteBitAnd a b
  | Op.BitOr => ExecuteBitOr a b
  | Op.BitXor => ExecuteBitXor a b
  | Op.BitNot => ExecuteBitNot a
  | Op.ShlConst => ExecuteShlConst (n_aux node) a
  | Op.ShrLogicalConst => ExecuteShrLogicalConst (n_aux node) a
  | Op.ShrArithmeticConst => ExecuteShrArithmeticConst (n_aux node) a
  | Op.AddSat => ExecuteAddSat a b
  | Op.AddSatUnsigned => ExecuteAddSatUnsigned a b
  | Op.SubSat => ExecuteSubSat a b
  | Op.NegPositiveFixed => ExecuteNegPositiveFixed a
  | Op.MulFixed => ExecuteMulFixed format a b
  | Op.MulFixedScaled => ExecuteMulFixedScaled format a b
  | Op.MulUnsignedFixed => ExecuteMulUnsignedFixed format a b
  | Op.MulAddFixed => ExecuteMulAddFixed format fa fb fc a b c
  | Op.DivFixed => ExecuteDivFixed format a b
  | Op.Recip => ExecuteRecip format a
  | Op.Sqrt => ExecuteSqrt format a
  | Op.Rsqrt => ExecuteRsqrt format a
  | Op.Sin => ExecuteSin format a
  | Op.Cos => ExecuteCos format a
  | Op.Tan => ExecuteTan format a
  | Op.Exp => ExecuteExp format a
  | Op.Log => ExecuteLog format a
  | Op.Atan2 => ExecuteAtan2 format a b
  | Op.DivSigned => ExecuteDivSigned a b
  | Op.DivUnsigned => ExecuteDivUnsigned a b
  | _ => 0
  end.

(** The failures of a division. *)
Definition lane_fault (op : Op.IrOp) (a b : Z) : option string :=
  match op with
  | Op.DivSigned =>
      if stored b =? 0 then Some "compute_integer_divide_by_zero" else
      if (stored a =? FixedMin w) && (stored b =? -1) then Some "compute_integer_divide_overflow" else None
  | Op.DivUnsigned => if unsigned w b =? 0 then Some "compute_integer_divide_by_zero" else None
  | _ => None
  end.
End lane.

Create HintDb lanes.
#[export] Hint Unfold lane_value ExecuteAdd ExecuteSub ExecuteMul ExecuteMulWrap ExecuteQuantize ExecuteMin ExecuteMax ExecuteMinUnsigned ExecuteMaxUnsigned ExecuteClamp ExecuteClampUnsigned ExecuteSelect ExecuteEq ExecuteNe ExecuteLt ExecuteLe ExecuteGt ExecuteGe ExecuteLtUnsigned ExecuteLeUnsigned ExecuteGtUnsigned ExecuteGeUnsigned ExecutePredicateNot ExecutePredicateAnd ExecutePredicateOr ExecuteNeg ExecuteAbs ExecuteAbsMagnitude ExecuteSign ExecuteBitAnd ExecuteBitOr ExecuteBitXor ExecuteBitNot ExecuteShlConst ExecuteShrLogicalConst ExecuteShrArithmeticConst ExecuteAddSat ExecuteAddSatUnsigned ExecuteSubSat ExecuteNegPositiveFixed ExecuteMulFixed ExecuteMulFixedScaled ExecuteMulUnsignedFixed ExecuteMulAddFixed ExecuteDivFixed ExecuteRecip ExecuteSqrt ExecuteRsqrt ExecuteSin ExecuteCos ExecuteTan ExecuteExp ExecuteLog ExecuteAtan2 ExecuteDivSigned ExecuteDivUnsigned : lanes.
