(* ===== verification/CpuPlan.v ===== *)
(** * CpuPlan: the instruction plan of the CPU backend

    [node/src/accel/cpu/simd/context.hpp] (prepared instructions) and
    [simd/prepare/{binding,plan,affine}.hpp]: the ordinals of the bindings, the nodes that
    do not depend on the tile and run once, the order of execution, the last use of every
    value, and the value slots of the instructions; and the affine form of a program.

    Pointers to run-time buffers are left out: an instruction is prepared from the shapes
    of the buffers. *)
From stdpp Require Import base numbers list option strings.
From Stdlib Require Import ZArith Lia.
From S2P Require Import Prelude IrModel CpuLanes.

(** ** Prepared instructions *)
Definition kCpuSimdBaseExecutorCount : Z := 63.
Definition kCpuSimdReadFullExecutorSlot : Z := 63.
Definition kCpuSimdReadStridedFullExecutorSlot : Z := 64.
Definition kCpuSimdWriteFullExecutorSlot : Z := 65.
Definition kCpuSimdExecutorCount : Z := 66.
Definition kCpuSimdInvalidExecutorSlot : Z := 255.

Definition CpuSimdBaseExecutorSlot (op : Z) : Z := if op <? kCpuSimdBaseExecutorCount then op else kCpuSimdInvalidExecutorSlot.
Definition CpuSimdExecutorSlotValid (slot : Z) : bool := slot <? kCpuSimdExecutorCount.

Record PreparedInstruction := mkInstruction {
  i_node : ParsedNode; binding_and_operand_fractions : Z; immediate : Z; element_bytes : Z; value_index : Z;
  full_executor_slot : Z; tail_executor_slot : Z;
}.

Definition binding_slot (i : PreparedInstruction) : Z := wrap32 (binding_and_operand_fractions i).
Definition with_packed (i : PreparedInstruction) (packed : Z) : PreparedInstruction :=
  mkInstruction (i_node i) packed (immediate i) (element_bytes i) (value_index i) (full_executor_slot i) (tail_executor_slot i).
Definition set_binding_slot (i : PreparedInstruction) (slot : Z) : PreparedInstruction :=
  with_packed i (Z.lor (Z.land (binding_and_operand_fractions i) 18446744069414584320) (wrap32 slot)).
Definition operand_fraction (i : PreparedInstruction) (index : Z) : Z :=
  if index <? 3 then Z.shiftr (binding_and_operand_fractions i) (32 + 8 * index) mod 256 else 0.
Definition set_operand_fraction (i : PreparedInstruction) (index value : Z) : PreparedInstruction :=
  if index >=? 3 then i else
  let shift := 32 + 8 * index in
  let mask := wrap64 (Z.shiftl 255 shift) in
  with_packed i (Z.lor (Z.land (binding_and_operand_fractions i) (U64_MAX - mask)) (wrap64 (Z.shiftl value shift))).

Definition with_immediate (i : PreparedInstruction) (v : Z) : PreparedInstruction :=
  mkInstruction (i_node i) (binding_and_operand_fractions i) v (element_bytes i) (value_index i) (full_executor_slot i) (tail_executor_slot i).
Definition with_element_bytes (i : PreparedInstruction) (v : Z) : PreparedInstruction :=
  mkInstruction (i_node i) (binding_and_operand_fractions i) (immediate i) v (value_index i) (full_executor_slot i) (tail_executor_slot i).
Definition with_full_executor (i : PreparedInstruction) (v : Z) : PreparedInstruction :=
  mkInstruction (i_node i) (binding_and_operand_fractions i) (immediate i) (element_bytes i) (value_index i) v (tail_executor_slot i).
Definition with_node (i : PreparedInstruction) (n : ParsedNode) : PreparedInstruction :=
  mkInstruction n (binding_and_operand_fractions i) (immediate i) (element_bytes i) (value_index i) (full_executor_slot i) (tail_executor_slot i).
Definition with_value_index (i : PreparedInstruction) (v : Z) : PreparedInstruction :=
  mkInstruction (i_node i) (binding_and_operand_fractions i) (immediate i) (element_bytes i) v (full_executor_slot i) (tail_executor_slot i).

(** ** Binding ordinals *)
Definition kInvalidSlot : Z := U64_MAX.
Record BindingPlan := { slots : list Z; param_bytes : Z; read_count : Z; write_count : Z }.

Definition BuildBindingPlan (parsed : ParsedIR) : BindingPlan :=
  fold_left (fun plan binding =>
    let put slot p r w := {| slots := slots plan ++ [slot]; param_bytes := p; read_count := r; write_count := w |} in
    if b_kind binding =? kParamBindingKind then
      put (param_bytes plan) (wrap64 (param_bytes plan + b_element_bytes binding)) (read_count plan) (write_count plan)
    else if b_kind binding =? kReadBindingKind then
      put (read_count plan) (param_bytes plan) (wrap64 (read_count plan + 1)) (write_count plan)
    else if b_kind binding =? kWriteBindingKind then
      put (write_count plan) (param_bytes plan) (read_count plan) (wrap64 (write_count plan + 1))
    else put kInvalidSlot (param_bytes plan) (read_count plan) (write_count plan))
    (ir_bindings parsed) {| slots := []; param_bytes := 0; read_count := 0; write_count := 0 |}.

(** ** Nodes that do not depend on the tile *)
Definition StableReference (stable : list bool) (value : Z) : bool := (value =? 0) || default false (zget stable value).

Definition StableNode (node : ParsedNode) (stable : list bool) : bool :=
  match n_op node with
  | Op.Param | Op.Constant | Op.ReadUniform => true
  | Op.Read | Op.ReadAt | Op.Write | Op.Index => false
  | _ =>
      match ParsedNodeResourcesFor node with
      | Some r => produces_value r && forallb (StableReference stable) (refs r)
      | None => false
      end
  end.

(** [stable] has the entry of value 0 and those of the nodes seen. *)
Definition stable_flags (nodes : list ParsedNode) : list bool :=
  fold_left (fun stable node => stable ++ [StableNode node stable]) nodes [false].

Definition execution_order (stable : list bool) (node_count : Z) : list Z :=
  filter (fun index => zget stable (index + 1) = Some true) (range 0 node_count) ++
  filter (fun index => zget stable (index + 1) = Some false) (range 0 node_count).

(** ** Value edges *)
Definition AppendValueReference (references : list Z) (value : Z) : list Z :=
  if (value =? 0) || bool_decide (value ∈ references) then references else references ++ [value].
Definition NodeValueReferences (node : ParsedNode) : list Z :=
  match ParsedNodeResourcesFor node with Some r => fold_left AppendValueReference (refs r) [] | None => [] end.

(** The operand fields of a node by their position. *)
Definition operand (node : ParsedNode) (index : Z) : Z :=
  if index =? 0 then n_lhs node else if index =? 1 then n_rhs node else n_aux node.
Definition with_operand (node : ParsedNode) (index value : Z) : ParsedNode :=
  if index =? 0 then mkNode (n_op node) value (n_rhs node) (n_aux node) (n_format node)
  else if index =? 1 then mkNode (n_op node) (n_lhs node) value (n_aux node) (n_format node)
  else mkNode (n_op node) (n_lhs node) (n_rhs node) value (n_format node).

(** [slot_by_value]: [None] is [kNoValueSlot]; [None] as a result is [false]. *)
Definition RemapNodeValueReferences (node : ParsedNode) (slot_by_value : list (option Z)) : option ParsedNode :=
  match ParsedNodeResourcesFor node with
  | None => None
  | Some r =>
      for_each (fun node '(index, ref) =>
        let value := operand node index in
        if (value =? 0) || negb (value =? ref) then None else
        match zget slot_by_value value with
        | Some (Some slot) => Some (with_operand node index slot)
        | _ => None
        end) node (zip (range 0 (zlen (refs r))) (refs r))
  end.

(** ** [PrepareInstruction]

    [read_stride] gives the stride of an input buffer, [output_full] says that the output
    buffer of a slot (or the staged output) has scalars of the lane's width next to each
    other. *)
Section prepare.
Context (parsed : ParsedIR) (bindings : BindingPlan) (read_stride : Z -> option Z) (output_full : Z -> bool) (scalar_bytes : Z).

Fixpoint le_value (bytes : list Z) : Z := match bytes with [] => 0 | b :: bytes => b + 256 * le_value bytes end.

Definition PrepareInstruction (node_index : Z) : option PreparedInstruction :=
  node ← zget (ir_nodes parsed) node_index;
  let base_executor := CpuSimdBaseExecutorSlot (op_code (n_op node)) in
  let i := mkInstruction node 0 0 0 (wrap32 (node_index + 1)) base_executor base_executor in
  i ← for_each (fun i '(index, value) =>
        if negb (value =? 0) && (value <=? zlen (ir_nodes parsed)) then
          source ← zget (ir_nodes parsed) (value - 1);
          Some (set_operand_fraction i index (fraction_bits (n_format source)))
        else Some i) i (zip (range 0 (zlen (node_refs node))) (node_refs node));
  match n_op node with
  | Op.Param =>
      binding ← zget (ir_bindings parsed) (n_aux node);
      Some (with_immediate i (le_value (take (Z.to_nat (b_element_bytes binding)) (b_value_bytes binding))))
  | Op.Read =>
      slot ← zget (slots bindings) (n_aux node);
      let i := set_binding_slot i slot in
      stride ← read_stride (binding_slot i);
      Some (with_full_executor i (if stride =? scalar_bytes then kCpuSimdReadFullExecutorSlot else kCpuSimdReadStridedFullExecutorSlot))
  | Op.ReadUniform =>
      slot ← zget (slots bindings) (n_aux node);
      Some (set_binding_slot i slot)
  | Op.ReadAt =>
      slot ← zget (slots bindings) (n_aux node);
      index_slot ← zget (slots bindings) (n_lhs node);
      Some (with_element_bytes (with_immediate (set_binding_slot i slot) index_slot) (n_rhs node))
  | Op.Write =>
      slot ← zget (slots bindings) (n_aux node);
      binding ← zget (ir_bindings parsed) (n_aux node);
      let i := with_element_bytes (set_binding_slot i slot) (b_element_bytes binding) in
      Some (if output_full (binding_slot i) then with_full_executor i kCpuSimdWriteFullExecutorSlot else i)
  | _ => Some i
  end.

(** ** [BuildPreparedPlan] *)
Record PreparedPlan := {
  instructions : list PreparedInstruction; value_slot_count : Z; once_count : Z; plan_reads : Z; plan_writes : Z; uses_index : bool;
}.

(** [last_use] and [pinned] by value: a use in the tile loop pins a value computed once. *)
Definition use_value (position once : Z) (stable : list bool) (st : list Z * list bool) (value : Z) : option (list Z * list bool) :=
  let '(last_use, pinned) := st in
  last ← zget last_use value;
  last_use ← zset last_use value (Z.max last position);
  is_stable ← zget stable value;
  pinned ← (if (once <=? position) && is_stable then zset pinned value true else Some pinned);
  Some (last_use, pinned).

Definition use_node (once : Z) (stable : list bool) (st : list Z * list bool) (step : Z * Z) : option (list Z * list bool) :=
  let '(position, node_index) := step in
  let '(last_use, pinned) := st in
  node ← zget (ir_nodes parsed) node_index;
  last_use ← zset last_use (node_index + 1) position;
  for_each (use_value position once stable) (last_use, pinned) (NodeValueReferences node).

Definition value_uses (order : list Z) (once : Z) (stable : list bool) : option (list Z * list bool) :=
  let n := zlen (ir_nodes parsed) in
  st ← for_each (use_node once stable) (replicate (Z.to_nat (n + 1)) 0, replicate (Z.to_nat (n + 1)) false) (zip (range 0 (zlen order)) order);
  let '(last_use, pinned) := st in
  Some (zip_with (fun last pin => if pin : bool then zlen order else last) last_use pinned, pinned).

(** The slots in use, the free ones as a stack with its top first, and the instructions. *)
Record SlotState := { slot_by_value : list (option Z); free_slots : list Z; slot_count : Z; emitted : list PreparedInstruction }.

Section allocate.
Context (last_use : list Z) (pinned : list bool).

Definition dies_at (position value : Z) : option bool :=
  last ← zget last_use value;
  pin ← zget pinned value;
  Some ((last =? position) && negb pin).

(** [release]: [None] is [false] or an access out of range. *)
Definition release (st : SlotState) (value : Z) : option SlotState :=
  match zget (slot_by_value st) value with
  | Some (Some slot) =>
      by_value ← zset (slot_by_value st) value None;
      Some {| slot_by_value := by_value; free_slots := slot :: free_slots st; slot_count := slot_count st; emitted := emitted st |}
  | _ => None
  end.

(** The first operand whose last use this is. *)
Fixpoint aliased_value (position : Z) (references : list Z) : option Z :=
  match references with
  | [] => Some 0
  | reference :: references =>
      dies ← dies_at position reference;
      if dies : bool then Some reference else aliased_value position references
  end.

(** The slot of a value: its operand's, a free one, or a new one. *)
Definition take_slot (st : SlotState) (aliased : Z) : option (Z * SlotState) :=
  if negb (aliased =? 0) then
    match zget (slot_by_value st) aliased with
    | Some (Some slot) =>
        by_value ← zset (slot_by_value st) aliased None;
        Some (slot, {| slot_by_value := by_value; free_slots := free_slots st; slot_count := slot_count st; emitted := emitted st |})
    | _ => None
    end
  else
    match free_slots st with
    | slot :: rest => Some (slot, {| slot_by_value := slot_by_value st; free_slots := rest; slot_count := slot_count st; emitted := emitted st |})
    | [] =>
        if slot_count st >? U32_MAX then None else
        let slot := wrap32 (slot_count st) in
        if slot =? U32_MAX then None else
        Some (slot, {| slot_by_value := slot_by_value st; free_slots := []; slot_count := slot_count st + 1; emitted := emitted st |})
    end.

Definition assign (st : SlotState) (value slot : Z) : option SlotState :=
  by_value ← zset (slot_by_value st) value (Some slot);
  Some {| slot_by_value := by_value; free_slots := free_slots st; slot_count := slot_count st; emitted := emitted st |}.
Definition emit (st : SlotState) (i : PreparedInstruction) : SlotState :=
  {| slot_by_value := slot_by_value st; free_slots := free_slots st; slot_count := slot_count st; emitted := emitted st ++ [i] |}.

(** After an instruction: the operands that died and still have a slot, then a value that
    is never used. *)
Definition release_operands (position : Z) (references : list Z) (st : SlotState) : option SlotState :=
  for_each (fun st reference =>
    dies ← dies_at position reference;
    entry ← zget (slot_by_value st) reference;
    if (dies : bool) && bool_decide (is_Some entry) then release st reference else Some st) st references.

Definition place_node (st : SlotState) (step : Z * Z) : option SlotState :=
  let '(position, node_index) := step in
  source ← zget (ir_nodes parsed) node_index;
  instruction ← PrepareInstruction node_index;
  if negb (CpuSimdExecutorSlotValid (full_executor_slot instruction)) || negb (CpuSimdExecutorSlotValid (tail_executor_slot instruction))
  then None else
  node ← RemapNodeValueReferences (i_node instruction) (slot_by_value st);
  let instruction := with_node instruction node in
  let value := wrap32 (node_index + 1) in
  let references := NodeValueReferences source in
  if is_write source then
    release_operands position references (emit st (with_value_index instruction 0))
  else
    aliased ← aliased_value position references;
    taken ← take_slot st aliased;
    let '(slot, st) := taken in
    st ← assign st value slot;
    let st := emit st (with_value_index instruction slot) in
    st ← release_operands position references st;
    dies ← dies_at position value;
    if dies : bool then release st value else Some st.
End allocate.

(** [None] is "cpu_simd_instruction_plan_invalid". *)
Definition BuildPreparedPlan : option PreparedPlan :=
  let nodes := ir_nodes parsed in
  let stable := stable_flags nodes in
  let writes := zlen (filter (fun node => n_op node = Op.Write) nodes) in
  if (writes =? 0) || negb (writes =? write_count bindings) then None else
  let once := zlen (filter (fun b => b = true) stable) in
  let order := execution_order stable (zlen nodes) in
  if negb (zlen order =? zlen nodes) then None else
  uses ← value_uses order once stable;
  let '(last_use, pinned) := uses in
  st ← for_each (place_node last_use pinned)
         {| slot_by_value := replicate (Z.to_nat (zlen nodes + 1)) None; free_slots := []; slot_count := 0; emitted := [] |}
         (zip (range 0 (zlen order)) order);
  if (zlen (emitted st) =? zlen nodes) && negb (slot_count st =? 0) then
    Some {| instructions := emitted st; value_slot_count := slot_count st; once_count := once;
            plan_reads := wrap32 (read_count bindings); plan_writes := wrap32 (write_count bindings);
            uses_index := existsb (fun node => bool_decide (n_op node = Op.Index)) nodes |}
  else None.
End prepare.

(** ** The affine form of a program over the integers modulo a power of two *)
Record AffineForm := { form_a : Z; form_b : Z; form_valid : bool }.
Definition no_form : AffineForm := {| form_a := 0; form_b := 0; form_valid := false |}.
Definition a_form (a b : Z) : AffineForm := {| form_a := wrap64 a; form_b := wrap64 b; form_valid := true |}.

(** The form of one instruction: [None] declines, [Some (inl f)] is the form of its
    value, [Some (inr f)] the output of the write that ends the program. *)
Definition affine_step (scalar_bytes count index : Z) (get : Z -> AffineForm) (i : PreparedInstruction)
    : option (AffineForm + AffineForm) :=
  let node := i_node i in
  let both (k : AffineForm -> AffineForm -> option (AffineForm + AffineForm)) :=
    let left := get (n_lhs node) in let right := get (n_rhs node) in
    if negb (form_valid left) || negb (form_valid right) then None else k left right in
  match n_op node with
  | Op.Param => Some (inl (a_form 0 (immediate i)))
  | Op.Constant => Some (inl (a_form 0 (Z.lor (n_lhs node) (if scalar_bytes =? 8 then wrap64 (Z.shiftl (n_rhs node) 32) else 0))))
  | Op.Index => Some (inl no_form)
  | Op.Read => if negb (binding_slot i =? 0) then None else Some (inl (a_form 1 0))
  | Op.Add => both (fun left right => Some (inl (a_form (form_a left + form_a right) (form_b left + form_b right))))
  | Op.Sub => both (fun left right => Some (inl (a_form (form_a left - form_a right) (form_b left - form_b right))))
  | Op.Mul | Op.MulWrap => both (fun left right =>
      if negb (form_a left =? 0) && negb (form_a right =? 0) then None else
      Some (inl (a_form (form_a left * form_b right + form_a right * form_b left) (form_b left * form_b right))))
  | Op.Write =>
      let output := get (n_lhs node) in
      if negb (form_valid output) || negb (index + 1 =? count) || negb (binding_slot i =? 0) || negb (element_bytes i =? scalar_bytes)
      then None else Some (inr output)
  | _ => None
  end.

Fixpoint affine_walk (scalar_bytes count : Z) (forms : list AffineForm) (index : Z) (rest : list PreparedInstruction) : AffineForm :=
  match rest with
  | [] => no_form
  | i :: rest =>
      match affine_step scalar_bytes count index (fun slot => default no_form (zget forms slot)) i with
      | None => no_form
      | Some (inr output) => output
      | Some (inl form) =>
          match zset forms (value_index i) form with
          | None => no_form
          | Some forms => affine_walk scalar_bytes count forms (index + 1) rest
          end
      end
  end.

Definition BuildAffinePlan (domain : ComputeDomain) (plan : PreparedPlan) (scalar_bytes : Z) : AffineForm :=
  if bool_decide (domain = Fixed) || negb (plan_reads plan =? 1) || negb (plan_writes plan =? 1) then no_form else
  affine_walk scalar_bytes (zlen (instructions plan)) (replicate (Z.to_nat (value_slot_count plan)) no_form) 0 (instructions plan).
