(* ===== verification/CpuExec.v ===== *)
(** * CpuExec: the execution of a prepared plan by the CPU backend

    [node/src/accel/cpu/simd/run]: the value slots of a run ([body/values.hpp]), loads and
    stores of a vector of lanes ([body/memory]), the executors and their table
    ([body/executor.hpp]), the instructions that run once, the loop over the tiles, the
    affine loop ([body/plan]), and the run with its guards ([body/run.hpp]).

    A vector is the list of its lanes, each a signed number of [w] bits. The buffers of the
    inputs are lists of bytes, those of the outputs are another list of lists: an input
    does not share memory with an output.

    At the end, the reference semantics of a map over the tiles of an invocation: the tiles
    one after the other, the nodes of a tile in the order of the program, every node reading
    the values of its tile. The backend runs the same map by vectors of tiles, with the
    tile-independent nodes first and the values in shared slots. [view_fits] says that the
    buffers of an invocation are large enough for what the program reads and writes. *)
From stdpp Require Import base numbers list option strings.
From Stdlib Require Import ZArith Lia.
From S2P Require Import Prelude IrModel CpuLanes CpuPlan.

(** ** Bytes *)
Fixpoint le_bytes (n : nat) (v : Z) : list Z :=
  match n with O => [] | S n => v mod 256 :: le_bytes n (v / 256) end.

(** [memcpy] from and to a buffer, [None] out of its range. *)
Definition load (bytes : list Z) (size offset : Z) : option Z :=
  if (0 <=? offset) && (offset + size <=? zlen bytes)
  then Some (le_value (take (Z.to_nat size) (drop (Z.to_nat offset) bytes))) else None.
Definition store (bytes : list Z) (size offset value : Z) : option (list Z) :=
  if (0 <=? offset) && (offset + size <=? zlen bytes)
  then Some (list_inserts (Z.to_nat offset) (le_bytes (Z.to_nat size) value) bytes) else None.

(** ** Bindings of an invocation *)
Record CpuSimdReadBinding := { r_data : list Z; r_stride : Z }.
Record CpuSimdBindingView := {
  reads : list CpuSimdReadBinding; write_strides : list Z; logical_offset : Z; tile_count : Z;
}.

(** The result of a run: [Rejected] with a reason, or the counts of the loop. *)
Record LoopCount := { tiles : Z; vectors : Z; tails : Z }.
Inductive CpuSimdRunResult := RejectRun (reason : string) | AcceptRun (count : LoopCount).

(** ** Value slots *)
Record ValueSlot := mkSlot { data : list Z; wide : list Z; wide_valid : bool }.
Record Machine := { values : list ValueSlot; fault : option string; outputs : list (list Z) }.
Definition with_values (m : Machine) (v : list ValueSlot) : Machine := {| values := v; fault := fault m; outputs := outputs m |}.
Definition with_outputs (m : Machine) (o : list (list Z)) : Machine := {| values := values m; fault := fault m; outputs := o |}.
Definition fail (m : Machine) (reason : string) : Machine :=
  {| values := values m; fault := match fault m with Some r => Some r | None => Some reason end; outputs := outputs m |}.

Definition kWideScratchInvalid : string := "cpu_simd_wide_scratch_invalid".

Section exec.
Context (w : Z) (domain : ComputeDomain) (math : LaneMath) (view : CpuSimdBindingView).

Definition is_fixed : bool := bool_decide (domain = Fixed).
Definition scalar_bytes : Z := w / 8.
Definition kLaneCount : Z := 128 / w.
Definition lane_range : list Z := range 0 kLaneCount.
Definition splat (v : Z) : list Z := replicate (Z.to_nat kLaneCount) v.

Definition set_raw (m : Machine) (index : Z) (lanes : list Z) : option Machine :=
  old ← zget (values m) index;
  vs ← zset (values m) index (mkSlot lanes (wide old) false);
  Some (with_values m vs).

Definition materialize (m : Machine) (index : Z) : option Machine :=
  slot ← zget (values m) index;
  if wide_valid slot then Some m else
  vs ← zset (values m) index (mkSlot (data slot) (data slot) true);
  Some (with_values m vs).

Definition set_wide (m : Machine) (index : Z) (lanes : list Z) : option Machine :=
  if negb is_fixed then Some (fail m kWideScratchInvalid) else
  vs ← zset (values m) index (mkSlot (map (to_signed w) lanes) lanes true);
  Some (with_values m vs).

(** ** Loads *)
Definition ByteOffset (tile stride : Z) : Z := wrap64 (tile * stride).
Definition load_scalar (bytes : list Z) (offset : Z) : option Z := to_signed w <$> load bytes scalar_bytes offset.

Definition LoadParam (i : PreparedInstruction) : list Z := splat (to_signed w (immediate i)).
Definition LoadRead (i : PreparedInstruction) (base_tile live_lanes : Z) : option (list Z) :=
  binding ← zget (reads view) (binding_slot i);
  mapM (fun lane => if lane <? live_lanes then load_scalar (r_data binding) (ByteOffset base_tile (r_stride binding) + lane * r_stride binding)
                    else Some 0) lane_range.
Definition LoadReadUniform (i : PreparedInstruction) : option (list Z) :=
  binding ← zget (reads view) (binding_slot i);
  splat <$> load_scalar (r_data binding) 0.
Definition LoadReadAt (i : PreparedInstruction) (base_tile live_lanes : Z) : option (list Z) :=
  source ← zget (reads view) (binding_slot i);
  indices ← zget (reads view) (immediate i);
  mapM (fun lane =>
    if lane <? live_lanes then
      index ← load (r_data indices) 4 (ByteOffset (wrap64 (base_tile + lane)) (r_stride indices));
      if index <? element_bytes i then load_scalar (r_data source) (ByteOffset index (r_stride source)) else Some 0
    else Some 0) lane_range.
Definition LoadReadStridedFull (i : PreparedInstruction) (base_tile : Z) : option (list Z) :=
  binding ← zget (reads view) (binding_slot i);
  mapM (fun lane => load_scalar (r_data binding) (ByteOffset base_tile (r_stride binding) + lane * r_stride binding)) lane_range.
Definition LoadReadFull (i : PreparedInstruction) (base_tile : Z) : option (list Z) :=
  binding ← zget (reads view) (binding_slot i);
  mapM (fun lane => load_scalar (r_data binding) (ByteOffset base_tile (r_stride binding) + lane * scalar_bytes)) lane_range.

Definition constant_value (node : ParsedNode) : Z :=
  to_signed w (if w =? 64 then Z.lor (n_lhs node) (wrap64 (Z.shiftl (n_rhs node) 32)) else n_lhs node).

(** ** Stores *)
Definition store_at (slot size : Z) (outs : list (list Z)) (offset value : Z) : option (list (list Z)) :=
  bytes ← zget outs slot;
  bytes ← store bytes size offset value;
  zset outs slot bytes.

(** The bytes and the number that a scalar of an output of [element_bytes] is stored with. *)
Definition stored_size (element_bytes : Z) : Z :=
  if element_bytes =? scalar_bytes then scalar_bytes else if element_bytes =? 4 then 4 else 8.
Definition stored_value (element_bytes lane : Z) : Z :=
  if element_bytes =? scalar_bytes then unsigned w lane else wrap32 (unsigned w lane).

Definition StoreWrite (i : PreparedInstruction) (lanes : list Z) (base_tile live_lanes : Z) (outs : list (list Z)) : option (list (list Z)) :=
  stride ← zget (write_strides view) (binding_slot i);
  for_each (fun outs lane =>
    value ← zget lanes lane;
    store_at (binding_slot i) (stored_size (element_bytes i)) outs (ByteOffset base_tile stride + lane * stride)
      (stored_value (element_bytes i) value)) outs (range 0 live_lanes).
Definition StoreWriteFull (i : PreparedInstruction) (lanes : list Z) (base_tile : Z) (outs : list (list Z)) : option (list (list Z)) :=
  stride ← zget (write_strides view) (binding_slot i);
  for_each (fun outs lane =>
    value ← zget lanes lane;
    store_at (binding_slot i) scalar_bytes outs (ByteOffset base_tile stride + lane * scalar_bytes) (unsigned w value)) outs lane_range.

(** ** Executors *)
Definition ValueFractionBits (i : PreparedInstruction) (value : Z) : Z :=
  if n_lhs (i_node i) =? value then operand_fraction i 0 else
  if n_rhs (i_node i) =? value then operand_fraction i 1 else
  if n_aux (i_node i) =? value then operand_fraction i 2 else 0.

(** The operations on wide lanes in the fixed domain, and those that are always on wide
    lanes. *)
Definition wide_in_fixed (op : Op.IrOp) : bool :=
  match op with
  | Op.Add | Op.Sub | Op.Mul | Op.Min | Op.Max | Op.Clamp | Op.Select | Op.Eq | Op.Ne | Op.Lt | Op.Le | Op.Gt | Op.Ge
  | Op.PredicateNot | Op.PredicateAnd | Op.PredicateOr | Op.Neg | Op.Abs | Op.AbsMagnitude | Op.Sign => true
  | _ => false
  end.
Definition wide_always (op : Op.IrOp) : bool :=
  match op with
  | Op.Quantize | Op.MulFixed | Op.MulFixedScaled | Op.MulUnsignedFixed | Op.MulAddFixed | Op.DivFixed | Op.Recip | Op.Sqrt
  | Op.Rsqrt | Op.Sin | Op.Cos | Op.Tan | Op.Exp | Op.Log | Op.Atan2 => true
  | _ => false
  end.
Definition writes_wide (op : Op.IrOp) : bool := wide_always op || (is_fixed && wide_in_fixed op).
(** [ExecuteAtan2] takes its operands from the scalars. *)
Definition reads_wide (op : Op.IrOp) : bool := writes_wide op && negb (bool_decide (op = Op.Atan2)).

(** The operand lanes: the vector of a slot, or its wide lanes. *)
Definition operand_lanes (op : Op.IrOp) (m : Machine) (index : Z) : option (Machine * list Z) :=
  if reads_wide op then
    m ← materialize m index;
    slot ← zget (values m) index;
    Some (m, wide slot)
  else
    slot ← zget (values m) index;
    Some (m, data slot).

Definition read_operands (i : PreparedInstruction) (m : Machine) : option (Machine * list (list Z)) :=
  for_each (fun '(m, lanes) index =>
    r ← operand_lanes (n_op (i_node i)) m index;
    Some (r.1, lanes ++ [r.2])) (m, []) (node_refs (i_node i)).

Definition lane_at (lanes : list (list Z)) (operand_index lane : Z) : Z :=
  default 0 (l ← zget lanes operand_index; zget l lane).

Definition compute_lane (i : PreparedInstruction) (lanes : list (list Z)) (lane : Z) : Z :=
  let node := i_node i in
  lane_value w is_fixed math node (ValueFractionBits i (n_lhs node)) (ValueFractionBits i (n_rhs node)) (ValueFractionBits i (n_aux node))
    (lane_at lanes 0 lane) (lane_at lanes 1 lane) (lane_at lanes 2 lane).

Definition is_division (op : Op.IrOp) : bool := match op with Op.DivSigned | Op.DivUnsigned => true | _ => false end.

(** The first fault of the live lanes. *)
Definition first_fault (op : Op.IrOp) (lanes : list (list Z)) (live_lanes : Z) : option string :=
  foldr (fun lane rest => match lane_fault w op (lane_at lanes 0 lane) (lane_at lanes 1 lane) with Some r => Some r | None => rest end)
    None (range 0 live_lanes).

Definition ExecuteValue (i : PreparedInstruction) (live_lanes : Z) (m : Machine) : option Machine :=
  let op := n_op (i_node i) in
  if writes_wide op && negb is_fixed then Some (fail m kWideScratchInvalid) else
  r ← read_operands i m;
  let '(m, lanes) := r in
  match first_fault op lanes live_lanes with
  | Some reason => Some (fail m reason)
  | None =>
      let result := map (fun lane => if is_division op && negb (lane <? live_lanes) then 0 else compute_lane i lanes lane) lane_range in
      if writes_wide op then set_wide m (value_index i) result else set_raw m (value_index i) result
  end.

Definition ExecuteWrite (i : PreparedInstruction) (full : bool) (base_tile live_lanes : Z) (m : Machine) : option Machine :=
  slot ← zget (values m) (n_lhs (i_node i));
  outs ← (if full then StoreWriteFull i (data slot) base_tile (outputs m) else StoreWrite i (data slot) base_tile live_lanes (outputs m));
  Some (with_outputs m outs).

Definition ExecuteLoad (i : PreparedInstruction) (lanes : option (list Z)) (m : Machine) : option Machine :=
  lanes ← lanes; set_raw m (value_index i) lanes.

Definition ExecuteIndex (base_tile live_lanes : Z) : list Z :=
  map (fun lane => if lane <? live_lanes then to_signed w (wrap64 (logical_offset view + base_tile + lane)) else 0) lane_range.

(** The executor of a slot of the table. *)
Definition ExecutorFor (slot : Z) (i : PreparedInstruction) (base_tile live_lanes : Z) (m : Machine) : option Machine :=
  if slot =? kCpuSimdReadFullExecutorSlot then ExecuteLoad i (LoadReadFull i base_tile) m else
  if slot =? kCpuSimdReadStridedFullExecutorSlot then ExecuteLoad i (LoadReadStridedFull i base_tile) m else
  if slot =? kCpuSimdWriteFullExecutorSlot then ExecuteWrite i true base_tile live_lanes m else
  match op_of_code slot with
  | None => None
  | Some Op.Param => ExecuteLoad i (Some (LoadParam i)) m
  | Some Op.Read => ExecuteLoad i (LoadRead i base_tile live_lanes) m
  | Some Op.ReadUniform => ExecuteLoad i (LoadReadUniform i) m
  | Some Op.ReadAt => ExecuteLoad i (LoadReadAt i base_tile live_lanes) m
  | Some Op.Constant => ExecuteLoad i (Some (splat (constant_value (i_node i)))) m
  | Some Op.Index => ExecuteLoad i (Some (ExecuteIndex base_tile live_lanes)) m
  | Some Op.Write => ExecuteWrite i false base_tile live_lanes m
  | Some _ => ExecuteValue i live_lanes m
  end.

(** ** Loops

    A loop over instructions that leaves at the first fault. *)
Fixpoint run_instructions (full : bool) (code : list PreparedInstruction) (base_tile live_lanes : Z) (m : Machine) : option Machine :=
  match code with
  | [] => Some m
  | i :: code =>
      m ← ExecutorFor (if full then full_executor_slot i else tail_executor_slot i) i base_tile live_lanes m;
      match fault m with Some _ => Some m | None => run_instructions full code base_tile live_lanes m end
  end.

Context (plan : PreparedPlan).
Definition once_instructions : list PreparedInstruction := take (Z.to_nat (once_count plan)) (instructions plan).
Definition loop_instructions : list PreparedInstruction := drop (Z.to_nat (once_count plan)) (instructions plan).

Definition ExecuteOnce (m : Machine) : option Machine := run_instructions true once_instructions 0 kLaneCount m.

(** Every state of the full batches; the loop stops at a fault. *)
Definition run_batch (begin : Z) (st : Machine * LoopCount) (batch : Z) : option (flow (Machine * LoopCount) (Machine * LoopCount)) :=
  let '(m, count) := st in
  m ← run_instructions true loop_instructions (begin + batch * kLaneCount) kLaneCount m;
  Some (match fault m with
        | Some _ => Return (m, count)
        | None => Next (m, {| tiles := tiles count + kLaneCount; vectors := vectors count + 1; tails := tails count |})
        end).

Definition ExecuteLoop (begin count : Z) (m : Machine) : option (Machine * LoopCount) :=
  let full := count - count mod kLaneCount in
  after (for_loop (run_batch begin) (m, {| tiles := 0; vectors := 0; tails := 0 |}) (range 0 (full / kLaneCount))) (fun '(m, done) =>
    let tail := count - full in
    if tail =? 0 then Some (m, done) else
    m ← run_instructions false loop_instructions (begin + full) tail m;
    Some (m, match fault m with
             | Some _ => done
             | None => {| tiles := tiles done + tail; vectors := vectors done; tails := tails done + 1 |}
             end)).

(** ** The affine loop: [x * a + b] on every lane *)
Definition affine_apply (form : AffineForm) (input : Z) : Z :=
  AddWrap w (MulLow w input (to_signed w (form_a form))) (to_signed w (form_b form)).

(** A vector of [live] scalars [offset] scalars after [begin]: read, computed, written. *)
Definition affine_chunk (form : AffineForm) (begin live : Z) (outs : list (list Z)) (offset : Z) : option (list (list Z)) :=
  binding ← zget (reads view) 0;
  let cursor lane := ByteOffset begin scalar_bytes + (offset + lane) * scalar_bytes in
  inputs ← mapM (fun lane => load_scalar (r_data binding) (cursor lane)) (range 0 live);
  for_each (fun outs '(lane, input) => store_at 0 scalar_bytes outs (cursor lane) (unsigned w (affine_apply form input)))
    outs (zip (range 0 live) inputs).

Definition ExecuteAffine (form : AffineForm) (begin length : Z) (outs : list (list Z)) : option (list (list Z) * LoopCount) :=
  let full := length - length mod kLaneCount in
  let tail := length - full in
  outs ← for_each (fun outs batch => affine_chunk form begin kLaneCount outs (batch * kLaneCount)) outs (range 0 (full / kLaneCount));
  outs ← (if tail =? 0 then Some outs else affine_chunk form begin tail outs full);
  Some (outs, {| tiles := length; vectors := full / kLaneCount; tails := if tail =? 0 then 0 else 1 |}).

(** ** [RUND_CPU_SIMD_RUN], the scratch prepared *)
Definition run_admitted (begin count : Z) : bool :=
  negb (count =? 0) && negb (begin >? U64_MAX - count) &&
  (let last := begin + count in
   negb (last >? tile_count view) && (zlen (reads view) =? plan_reads plan) && (zlen (write_strides view) =? plan_writes plan) &&
   negb (uses_index plan && (logical_offset view >? U64_MAX - (last - 1)))).

Definition finish (m : Machine) (count : LoopCount) : CpuSimdRunResult * list (list Z) :=
  (match fault m with Some reason => RejectRun reason | None => AcceptRun count end, outputs m).

Definition RunFixedLane (affine : AffineForm) (begin count : Z) (slots0 : list ValueSlot) (outs : list (list Z))
    : option (CpuSimdRunResult * list (list Z)) :=
  if negb (run_admitted begin count) then Some (RejectRun "cpu_simd_tile_count_invalid", outs) else
  if form_valid affine && bool_decide (r_stride <$> zget (reads view) 0 = Some scalar_bytes) &&
     bool_decide (zget (write_strides view) 0 = Some scalar_bytes)
  then
    r ← ExecuteAffine affine begin count outs;
    Some (AcceptRun r.2, r.1)
  else
    m ← ExecuteOnce {| values := slots0; fault := None; outputs := outs |};
    match fault m with
    | Some reason => Some (RejectRun reason, outputs m)
    | None => r ← ExecuteLoop begin count m; Some (finish r.1 r.2)
    end.
End exec.

(** ** What a map means *)
Section reference.
Context (w : Z) (domain : ComputeDomain) (math : LaneMath) (view : CpuSimdBindingView).
Context (parsed : ParsedIR) (bindings : BindingPlan).
Abbreviation nodes := (ir_nodes parsed).

(** The operand of a node at a position and the fraction bits of its format; zero when the
    node has fewer operands. *)
Definition operand_value (env : list Z) (node : ParsedNode) (position : Z) : Z :=
  default 0 (value ← zget (node_refs node) position; zget env value).
Definition operand_format (node : ParsedNode) (position : Z) : Z :=
  default 0 (value ← zget (node_refs node) position; source ← zget nodes (value - 1); Some (fraction_bits (n_format source))).

Definition tile_value (env : list Z) (tile : Z) (node : ParsedNode) : option Z :=
  match n_op node with
  | Op.Param =>
      binding ← zget (ir_bindings parsed) (n_aux node);
      Some (to_signed w (le_value (take (Z.to_nat (b_element_bytes binding)) (b_value_bytes binding))))
  | Op.Read =>
      slot ← zget (slots bindings) (n_aux node); binding ← zget (reads view) slot;
      load_scalar w (r_data binding) (tile * r_stride binding)
  | Op.ReadUniform =>
      slot ← zget (slots bindings) (n_aux node); binding ← zget (reads view) slot;
      load_scalar w (r_data binding) 0
  | Op.ReadAt =>
      slot ← zget (slots bindings) (n_aux node); binding ← zget (reads view) slot;
      index_slot ← zget (slots bindings) (n_lhs node); indices ← zget (reads view) index_slot;
      index ← load (r_data indices) 4 (tile * r_stride indices);
      if index <? n_rhs node then load_scalar w (r_data binding) (index * r_stride binding) else Some 0
  | Op.Constant => Some (constant_value w node)
  | Op.Index => Some (to_signed w (wrap64 (logical_offset view + tile)))
  | Op.Write => Some 0
  | _ =>
      Some (lane_value w (is_fixed domain) math node
              (operand_format node 0) (operand_format node 1) (operand_format node 2)
              (operand_value env node 0) (operand_value env node 1) (operand_value env node 2))
  end.

(** A node fails on a division by zero, on a division that overflows, and on an operation
    of fixed-point numbers in an integer domain. *)
Definition node_fault (env : list Z) (node : ParsedNode) : option string :=
  if writes_wide domain (n_op node) && negb (is_fixed domain) then Some kWideScratchInvalid
  else lane_fault w (n_op node) (operand_value env node 0) (operand_value env node 1).

(** A write stores the scalar of its value in the element of the tile. *)
Definition tile_store (env : list Z) (tile : Z) (node : ParsedNode) (outs : list (list Z)) : option (list (list Z)) :=
  if is_write node then
    slot ← zget (slots bindings) (n_aux node);
    binding ← zget (ir_bindings parsed) (n_aux node);
    stride ← zget (write_strides view) slot;
    store_at slot (stored_size w (b_element_bytes binding)) outs (tile * stride)
      (stored_value w (b_element_bytes binding) (to_signed w (operand_value env node 0)))
  else Some outs.

Definition reference_node (tile : Z) (st : list Z * list (list Z)) (node : ParsedNode) : option (flow (list Z * list (list Z)) string) :=
  let '(env, outs) := st in
  match node_fault env node with
  | Some reason => Some (Return reason)
  | None =>
      value ← tile_value env tile node;
      outs ← tile_store env tile node outs;
      Some (Next (env ++ [value], outs))
  end.

Definition reference_tile (outs : list (list Z)) (tile : Z) : option (flow (list (list Z)) string) :=
  r ← for_loop (reference_node tile) ([0], outs) nodes;
  Some (match r with Next st => Next st.2 | Return reason => Return reason end).

(** The outputs after the tiles [begin .. begin + count - 1], or the first failure. *)
Definition reference_run (begin count : Z) (outs : list (list Z)) : option (flow (list (list Z)) string) :=
  for_loop reference_tile outs (range begin (begin + count)).

(** ** Sizes *)
Definition source_fits (slot count size : Z) : Prop :=
  exists binding, zget (reads view) slot = Some binding /\ 0 <= r_stride binding /\ zlen (r_data binding) <= U64_MAX /\
    Forall (fun b => 0 <= b < 256) (r_data binding) /\
    forall i, 0 <= i < count -> i * r_stride binding + size <= zlen (r_data binding).

Definition target_fits (outs : list (list Z)) (slot size : Z) : Prop :=
  exists stride bytes, zget (write_strides view) slot = Some stride /\ zget outs slot = Some bytes /\ size <= stride /\
    zlen bytes <= U64_MAX /\ forall i, 0 <= i < tile_count view -> i * stride + size <= zlen bytes.

Definition node_fits (outs : list (list Z)) (node : ParsedNode) : Prop :=
  match n_op node with
  | Op.Param => is_Some (zget (ir_bindings parsed) (n_aux node))
  | Op.Read => exists slot, zget (slots bindings) (n_aux node) = Some slot /\ is_u32 slot /\ source_fits slot (tile_count view) (scalar_bytes w)
  | Op.ReadUniform => exists slot, zget (slots bindings) (n_aux node) = Some slot /\ is_u32 slot /\ source_fits slot 1 (scalar_bytes w)
  | Op.ReadAt => exists slot index_slot,
      zget (slots bindings) (n_aux node) = Some slot /\ is_u32 slot /\ source_fits slot (n_rhs node) (scalar_bytes w) /\
      zget (slots bindings) (n_lhs node) = Some index_slot /\ source_fits index_slot (tile_count view) 4
  | Op.Write => exists slot binding,
      zget (slots bindings) (n_aux node) = Some slot /\ is_u32 slot /\ zget (ir_bindings parsed) (n_aux node) = Some binding /\
      target_fits outs slot (stored_size w (b_element_bytes binding))
  | _ => True
  end.

(** A node that reads from an input; every input has one. *)
Definition reads_slot (node : ParsedNode) (slot : Z) : Prop :=
  ((n_op node = Op.Read \/ n_op node = Op.ReadUniform \/ n_op node = Op.ReadAt) /\ zget (slots bindings) (n_aux node) = Some slot) \/
  (n_op node = Op.ReadAt /\ zget (slots bindings) (n_lhs node) = Some slot).

(** The preparation saw the strides of the run: it chose the vector store only for an
    output of dense scalars. *)
Record prepared_for (read_stride : Z -> option Z) (output_full : Z -> bool) : Prop := {
  same_strides : forall slot, is_u32 slot -> read_stride slot = r_stride <$> zget (reads view) slot;
  dense_outputs : forall node slot binding, node ∈ nodes -> n_op node = Op.Write -> zget (slots bindings) (n_aux node) = Some slot ->
    zget (ir_bindings parsed) (n_aux node) = Some binding -> output_full slot = true ->
    b_element_bytes binding = scalar_bytes w /\ zget (write_strides view) slot = Some (scalar_bytes w);
}.

Record view_fits (outs : list (list Z)) : Prop := {
  fits_tiles : is_u64 (tile_count view);
  fits_nodes : forall node, node ∈ nodes -> node_fits outs node;
  fits_reads : forall slot binding, zget (reads view) slot = Some binding -> exists node, node ∈ nodes /\ reads_slot node slot;
}.
End reference.
