(* ===== verification/CpuPrepare.v ===== *)
(** * CpuPrepare: the bindings of an invocation and the run of a map

    [node/src/accel/cpu/simd/prepare] (the checks of parameters, inputs and outputs),
    [simd/prepare.cpp] (the preparation of a run), [simd/context.hpp] (the view of the
    bindings), [simd/run/body/scratch.hpp] (the layout of the scratch) and
    [node/src/accel/cpu/simd.cpp] (the run of an IR).

    An array and its length are a list, so that an array is not null when its length is
    not zero; the data of a span is [None] when it is null. A [size_t] has 64 bits. *)
From stdpp Require Import base numbers list option strings.
From Stdlib Require Import ZArith Lia.
From S2P Require Import Prelude IrModel IrCodec IrValidate CpuLanes CpuPlan CpuExec.

(** ** Capabilities ([kernel/program/compute/cpu.hpp]) *)
Inductive CpuSimdStrategy := Scalar_ | Sse2 | Avx2 | Avx512 | Neon.
#[export] Instance CpuSimdStrategy_eq_dec : EqDecision CpuSimdStrategy.
Proof. solve_decision. Defined.

(** [caps_failure] is the reason of capabilities that are not [ok]; the backend is the CPU
    when [cpu_backend]. *)
Record CpuCaps := { cpu_backend : bool; strategy : CpuSimdStrategy; lane_bytes : Z; fixed_lane32_lanes : Z; fixed_lane64_lanes : Z; caps_failure : option string }.

Definition CpuSimdLaneBytes (s : CpuSimdStrategy) : Z :=
  match s with Scalar_ => 8 | Sse2 | Neon => 16 | Avx2 => 32 | Avx512 => 64 end.
Definition CpuSimdFixedLane32Lanes (s : CpuSimdStrategy) : Z := match s with Scalar_ => 1 | _ => CpuSimdLaneBytes s / 4 end.
Definition CpuSimdFixedLane64Lanes (s : CpuSimdStrategy) : Z := match s with Scalar_ => 1 | _ => CpuSimdLaneBytes s / 8 end.
Definition CpuCapsFailure (caps : CpuCaps) : option string :=
  match caps_failure caps with
  | Some reason => Some reason
  | None =>
      if cpu_backend caps && (lane_bytes caps =? CpuSimdLaneBytes (strategy caps)) &&
         (fixed_lane32_lanes caps =? CpuSimdFixedLane32Lanes (strategy caps)) && (fixed_lane64_lanes caps =? CpuSimdFixedLane64Lanes (strategy caps))
      then None else Some "cpu_caps_invalid"
  end.

(** [LaneCount] is four lanes of 32 bits and two of 64. *)
Definition SupportsPortableLaneShape (caps : CpuCaps) (scalar : ComputeScalar) : bool :=
  (lane_bytes caps =? 16) && (bool_decide (strategy caps = Sse2) || bool_decide (strategy caps = Neon)) &&
  match scalar with Lane32 => fixed_lane32_lanes caps =? 4 | Lane64 => fixed_lane64_lanes caps =? 2 end.

(** ** Bindings of an invocation ([kernel/program/compute/binding/model.hpp]) *)
Record BufferSpan := { s_data : option (list Z); s_element_bytes : Z; s_stride_bytes : Z; s_count : Z }.

(** [failure] is the reason of bindings that are not [ok]; [resident_output] that outputs
    stay on a device; [has_sequence] that the tiles are given as a sequence. *)
Record BindingSet := {
  failure : option string; has_sequence : bool; b_tile_count : Z; b_logical_offset : Z; b_hash_hi : Z; b_hash_lo : Z;
  b_scalar : ComputeScalar; b_domain : ComputeDomain; output_bytes_per_tile : Z; b_param_bytes : Z; param_data : option (list Z);
  param_data_bytes : Z; inputs : list BufferSpan; input_element_bytes : list Z; output_spans : list BufferSpan;
  staged_output : option (list Z); staged_output_stride : Z; staged_output_count : Z; resident_output : bool;
}.

Definition has_staged_outputs (b : BindingSet) : bool :=
  if (b_tile_count b =? 0) || (output_bytes_per_tile b =? 0) then false else
  if negb (zlen (output_spans b) =? 0) then
    forallb (fun span => bool_decide (is_Some (s_data span)) && negb (s_element_bytes span =? 0) &&
                         (s_element_bytes span <=? s_stride_bytes span) && (b_tile_count b <=? s_count span)) (output_spans b)
  else bool_decide (is_Some (staged_output b)) && (output_bytes_per_tile b <=? staged_output_stride b) && (b_tile_count b <=? staged_output_count b).
Definition has_resident_output (b : BindingSet) : bool :=
  negb (b_tile_count b =? 0) && negb (output_bytes_per_tile b =? 0) && resident_output b.

Definition FitsSize (value : Z) : bool := value <=? U64_MAX.
(** [offset] is the offset when the element ends in range. *)
Definition CheckedOffset (index stride bytes : Z) : option Z :=
  if negb (stride =? 0) && (index >? U64_MAX / stride) then None else
  let offset := wrap64 (index * stride) in
  if offset <=? U64_MAX - bytes then Some offset else None.

Section prepare.
Context (parsed : ParsedIR) (plan : BindingPlan) (b : BindingSet) (scalar_bytes : Z).

(** ** Parameters *)
Definition param_matches (data : list Z) (st : Z * ParsedBinding) : option (option string) :=
  let '(index, binding) := st in
  if negb (b_kind binding =? kParamBindingKind) then Some None else
  offset ← zget (slots plan) index;
  if negb (FitsSize offset) || negb (FitsSize (b_element_bytes binding)) then Some (Some "cpu_simd_param_data_invalid") else
  let size := Z.to_nat (b_element_bytes binding) in
  if negb (offset + b_element_bytes binding <=? zlen data) || negb (b_element_bytes binding <=? zlen (b_value_bytes binding)) then None else
  Some (if bool_decide (take size (drop (Z.to_nat offset) data) = take size (b_value_bytes binding)) then None
        else Some "cpu_simd_param_data_mismatch").

(** The first reason of a list of checks; [None] is an access out of range. *)
Fixpoint first_reason {A} (check : A -> option (option string)) (l : list A) : option (option string) :=
  match l with
  | [] => Some None
  | x :: l => r ← check x; match r with Some reason => Some (Some reason) | None => first_reason check l end
  end.

Definition indexed_bindings : list (Z * ParsedBinding) := zip (range 0 (zlen (ir_bindings parsed))) (ir_bindings parsed).

Definition ValidateParamBytes : option (option string) :=
  if negb (b_param_bytes b =? param_bytes plan) || negb (param_data_bytes b =? param_bytes plan) then Some (Some "cpu_simd_param_size_mismatch") else
  if param_bytes plan =? 0 then Some None else
  match param_data b with
  | None => Some (Some "cpu_simd_param_data_invalid")
  | Some data => if negb (FitsSize (param_bytes plan)) then Some (Some "cpu_simd_param_data_invalid") else first_reason (param_matches data) indexed_bindings
  end.

(** ** Inputs *)
Record ReadShape := { sh_bytes : Z; sh_count : Z }.
Definition shape_node (binding : Z) (shape : ReadShape) (node : ParsedNode) : ReadShape :=
  if is_op Op.Read node && (n_aux node =? binding) then {| sh_bytes := sh_bytes shape; sh_count := b_tile_count b |} else
  if is_op Op.ReadUniform node && (n_aux node =? binding) then {| sh_bytes := sh_bytes shape; sh_count := Z.max (sh_count shape) 1 |} else
  if is_op Op.ReadAt node && (n_lhs node =? binding) then {| sh_bytes := 4; sh_count := b_tile_count b |} else
  if is_op Op.ReadAt node && (n_aux node =? binding) then {| sh_bytes := sh_bytes shape; sh_count := Z.max (sh_count shape) (n_rhs node) |} else
  shape.
Definition ReadBindingShape (binding : Z) : ReadShape :=
  fold_left (shape_node binding) (ir_nodes parsed) {| sh_bytes := scalar_bytes; sh_count := 0 |}.

Definition check_read (st : Z * ParsedBinding) : option (option string) :=
  let '(index, binding) := st in
  if negb (b_kind binding =? kReadBindingKind) then Some None else
  slot ← zget (slots plan) index;
  span ← zget (inputs b) slot;
  let shape := ReadBindingShape index in
  if (sh_count shape =? 0) || bool_decide (s_data span = None) || negb (s_element_bytes span =? sh_bytes shape) ||
     (s_stride_bytes span <? sh_bytes shape) || negb (FitsSize (s_stride_bytes span)) || (s_count span <? sh_count shape)
  then Some (Some "cpu_simd_input_invalid") else
  mismatch ← (if zlen (input_element_bytes b) =? 0 then Some false else
              bytes ← zget (input_element_bytes b) slot; Some (negb (bytes =? sh_bytes shape)));
  if mismatch : bool then Some (Some "cpu_simd_input_element_bytes_mismatch") else
  Some (match CheckedOffset (sh_count shape - 1) (s_stride_bytes span) (sh_bytes shape) with
        | Some offset => if FitsSize offset then None else Some "cpu_simd_input_bounds_overflow"
        | None => Some "cpu_simd_input_bounds_overflow"
        end).

Definition ValidateReadBuffers : option (option string) :=
  if negb (zlen (inputs b) =? read_count plan) then Some (Some "cpu_simd_input_count_mismatch") else
  if negb (zlen (input_element_bytes b) =? 0) && negb (zlen (input_element_bytes b) =? read_count plan)
  then Some (Some "cpu_simd_input_element_bytes_mismatch") else
  first_reason check_read indexed_bindings.

(** ** Outputs *)
Definition cross_width (element_bytes : Z) : bool :=
  ((scalar_bytes =? 8) && (element_bytes =? 4)) || ((scalar_bytes =? 4) && (element_bytes =? 8)).
Definition check_offset (stride bytes : Z) : option string :=
  match CheckedOffset (b_tile_count b - 1) stride bytes with
  | Some offset => if FitsSize offset then None else Some "cpu_simd_output_bounds_overflow"
  | None => Some "cpu_simd_output_bounds_overflow"
  end.

Fixpoint check_outputs (spans : list BufferSpan) (total_bytes : Z) : Z + string :=
  match spans with
  | [] => inl total_bytes
  | span :: spans =>
      let width_ok := (s_element_bytes span =? scalar_bytes) || ((write_count plan =? 1) && cross_width (s_element_bytes span)) in
      if negb width_ok || bool_decide (s_data span = None) || (s_stride_bytes span <? s_element_bytes span) ||
         negb (FitsSize (s_stride_bytes span)) || (s_count span <? b_tile_count b) then inr "cpu_simd_output_invalid" else
      match check_offset (s_stride_bytes span) (s_element_bytes span) with
      | Some reason => inr reason
      | None => check_outputs spans (wrap64 (total_bytes + s_element_bytes span))
      end
  end.

Definition ValidateOutput : option string :=
  if write_count plan =? 0 then Some "cpu_simd_write_missing" else
  if negb (has_staged_outputs b) then
    Some (if has_resident_output b then "cpu_simd_resident_output_unsupported" else "cpu_simd_staged_output_missing") else
  if negb (zlen (output_spans b) =? 0) then
    if negb (zlen (output_spans b) =? write_count plan) then Some "cpu_simd_output_invalid" else
    match check_outputs (output_spans b) 0 with
    | inr reason => Some reason
    | inl total => if total =? output_bytes_per_tile b then None else Some "cpu_simd_output_invalid"
    end
  else
    if negb (write_count plan =? 1) then Some "cpu_simd_output_invalid" else
    let bytes := output_bytes_per_tile b in
    if negb ((bytes =? scalar_bytes) || cross_width bytes) || (staged_output_stride b <? bytes) || negb (FitsSize (staged_output_stride b)) ||
       (staged_output_count b <? b_tile_count b) then Some "cpu_simd_output_invalid" else
    check_offset (staged_output_stride b) bytes.
End prepare.

Definition ValidateBindings (ir : ComputeIR) (parsed : ParsedIR) (plan : BindingPlan) (b : BindingSet) : option (option string) :=
  match failure b with
  | Some reason => Some (Some reason)
  | None =>
      if has_sequence b then Some (Some "cpu_simd_sequence_unsupported") else
      if b_tile_count b =? 0 then Some (Some "cpu_simd_tile_count_invalid") else
      if negb (bool_decide (b_scalar b = c_scalar ir)) then Some (Some "cpu_simd_scalar_mismatch") else
      if negb (bool_decide (b_domain b = c_domain ir)) then Some (Some "cpu_simd_domain_mismatch") else
      if negb (b_hash_hi b =? op_hash_hi ir) || negb (b_hash_lo b =? op_hash_lo ir) then Some (Some "cpu_simd_binding_artifact_mismatch") else
      let scalar_bytes := ScalarBytes (c_scalar ir) in
      params ← ValidateParamBytes parsed plan b;
      match params with
      | Some reason => Some (Some reason)
      | None =>
          reads ← ValidateReadBuffers parsed plan b scalar_bytes;
          match reads with
          | Some reason => Some (Some reason)
          | None => Some (ValidateOutput plan b scalar_bytes)
          end
      end
  end.

(** ** [BindingView] *)
Definition kCpuSimdBindingCapacity : Z := kMaxComputeBindingCount.
Definition staged (b : BindingSet) : bool := zlen (output_spans b) =? 0.
Definition no_view : CpuSimdBindingView := {| reads := []; write_strides := []; logical_offset := 0; tile_count := 0 |}.
Definition BindingView (b : BindingSet) : CpuSimdBindingView :=
  if (zlen (inputs b) >? kCpuSimdBindingCapacity) || (zlen (output_spans b) >? kCpuSimdBindingCapacity) then no_view else
  {| reads := map (fun span => {| r_data := default [] (s_data span); r_stride := s_stride_bytes span |}) (inputs b);
     write_strides := if staged b then [staged_output_stride b] else map s_stride_bytes (output_spans b);
     logical_offset := b_logical_offset b; tile_count := b_tile_count b |}.
(** The contents of the outputs. *)
Definition output_data (b : BindingSet) : list (list Z) :=
  if staged b then [default [] (staged_output b)] else map (fun span => default [] (s_data span)) (output_spans b).

(** ** [PrepareRun] *)
Definition run_read_stride (b : BindingSet) (slot : Z) : option Z := s_stride_bytes <$> zget (inputs b) slot.
Definition run_output_full (b : BindingSet) (scalar_bytes slot : Z) : bool :=
  if negb (staged b) then
    match zget (output_spans b) slot with
    | Some span => (s_element_bytes span =? scalar_bytes) && (s_stride_bytes span =? scalar_bytes)
    | None => false
    end
  else (output_bytes_per_tile b =? scalar_bytes) && (staged_output_stride b =? scalar_bytes).

Definition PrepareRun (ir : ComputeIR) (caps : CpuCaps) (parsed : ParsedIR) (b : BindingSet) : option ((PreparedPlan * AffineForm) + string) :=
  if negb (SupportsPortableLaneShape caps (c_scalar ir)) then Some (inr "cpu_simd_lane_width_unsupported") else
  let binding_plan := BuildBindingPlan parsed in
  let scalar_bytes := ScalarBytes (c_scalar ir) in
  reason ← ValidateBindings ir parsed binding_plan b;
  match reason with
  | Some reason => Some (inr reason)
  | None =>
      Some (match BuildPreparedPlan parsed binding_plan (run_read_stride b) (run_output_full b scalar_bytes) scalar_bytes with
            | None => inr "cpu_simd_instruction_plan_invalid"
            | Some plan => inl (plan, BuildAffinePlan (c_domain ir) plan scalar_bytes)
            end)
  end.

(** ** The layout of the scratch

    An arena is the address of its first free byte and of its end. *)
Definition kScratchAlignment : Z := 16.
Definition take_array (size alignment count : Z) (arena : Z * Z) : option (Z * (Z * Z)) :=
  let '(current, last) := arena in
  let start := (current + alignment - 1) / alignment * alignment in
  if (last <? start) || ((last - start) / size <? count) then None else Some (start, (start + count * size, last)).

Definition RequiredScratchBytes (w : Z) (fixed : bool) (values : Z) : Z :=
  values * 16 + (if fixed then values * kLaneCount w * 16 + values else 0) + (kScratchAlignment - 1).

(** The addresses of the vectors, of the wide lanes and of their flags. *)
Definition PrepareRunScratch (w : Z) (fixed : bool) (values address bytes : Z) : option (Z * option (Z * Z)) :=
  if bytes <? RequiredScratchBytes w fixed values then None else
  '(vectors, arena) ← take_array 16 16 values (address, address + bytes);
  if negb fixed then Some (vectors, None) else
  '(wide, arena) ← take_array 16 16 (values * kLaneCount w) arena;
  '(valid, arena) ← take_array 1 1 values arena;
  Some (vectors, Some (wide, valid)).

(** The scratch of a thread has whole elements of the largest alignment. *)
Definition scratch_bytes (w : Z) (fixed : bool) (values : Z) : Z :=
  (RequiredScratchBytes w fixed values + kScratchAlignment - 1) / kScratchAlignment * kScratchAlignment.

(** ** [PrepareCpuSimdDispatch]: the program and its plan, or the reason of a rejection *)
Definition PrepareCpuSimdDispatch (ir : ComputeIR) (caps : CpuCaps) (b : BindingSet) : option ((ParsedIR * PreparedPlan * AffineForm) + string) :=
  match CpuCapsFailure caps with
  | Some reason => Some (inr reason)
  | None =>
      admitted ← AdmitComputeInput ir;
      match admitted with
      | inr reason => Some (inr reason)
      | inl parsed =>
          prepared ← PrepareRun ir caps parsed b;
          Some (match prepared with inr reason => inr reason | inl (plan, affine) => inl (parsed, plan, affine) end)
      end
  end.

(** ** [RunCpuSimd], of the dispatch of the canonical bytes

    [scratch] is what a scratch of that many value slots happens to hold, [address] where
    it is. *)
Definition RunCpuSimd (math : LaneMath) (scratch : Z -> list ValueSlot) (address : Z) (ir : ComputeIR) (caps : CpuCaps) (b : BindingSet)
    : option (CpuSimdRunResult * list (list Z)) :=
  dispatch ← PrepareCpuSimdDispatch ir caps b;
  match dispatch with
  | inr reason => Some (RejectRun reason, output_data b)
  | inl (_, plan, affine) =>
      let w := ScalarBitWidth (c_scalar ir) in
      let fixed := is_fixed (c_domain ir) in
      match PrepareRunScratch w fixed (value_slot_count plan) address (scratch_bytes w fixed (value_slot_count plan)) with
      | None => Some (RejectRun "cpu_simd_scratch_invalid", output_data b)
      | Some _ =>
          RunFixedLane w (c_domain ir) math (BindingView b) plan affine 0 (b_tile_count b) (scratch (value_slot_count plan)) (output_data b)
      end
  end.
