(* ===== verification/CpuPlanFacts.v ===== *)
(** * CpuPlanFacts: the plan of the CPU backend

    The order of execution is a permutation of the nodes that keeps every operand before
    its use, the last uses bound every use, and the slots of the values alive are distinct:
    a valid program always has a plan, and [placed_all] says what its instructions are. *)
From stdpp Require Import base numbers list option strings sorting sets.
From Stdlib Require Import ZArith Lia.
From S2P Require Import Prelude IrModel CpuLanes CpuPlan.

(** What the validation of a parsed program gives: its value edges, its size, its formats as
    bytes, and one write at least. *)
Record program_ok (parsed : ParsedIR) (bindings : BindingPlan) : Prop := {
  ok_edges : value_edges_ok (ir_nodes parsed) = true;
  ok_count : zlen (ir_nodes parsed) <= kMaxComputeNodeCount;
  ok_fractions : forall node, node ∈ ir_nodes parsed -> 0 <= fraction_bits (n_format node) < 256;
  ok_writes : zlen (filter (fun node => n_op node = Op.Write) (ir_nodes parsed)) = write_count bindings;
  ok_some_write : write_count bindings <> 0;
}.

(** ** Arity: the operands are the first fields of a node *)
Definition arity (op : Op.IrOp) : nat :=
  if bool_decide (op = Op.Write) || UnaryValueOp op || ConstShiftOp op then 1%nat else
  if BinaryValueOp op then 2%nat else if TernaryValueOp op then 3%nat else 0%nat.

Lemma node_refs_arity op l r x f : node_refs (mkNode op l r x f) = take (arity op) [l; r; x].
Proof. by destruct op. Qed.

(** ** The value edges *)
Definition produces (nodes : list ParsedNode) (value : Z) : Prop :=
  exists node, zget nodes (value - 1) = Some node /\ is_write node = false.

Lemma zget_take_lt {A} (l : list A) n i : 0 <= i < n -> zget (take (Z.to_nat n) l) i = zget l i.
Proof. intros. unfold zget. destruct (Z.leb_spec 0 i); [|done]. apply lookup_take_lt. lia. Qed.

Lemma zget_map {A B} (f : A -> B) l i : zget (map f l) i = f <$> zget l i.
Proof. unfold zget. destruct (0 <=? i); [|done]. apply list_lookup_fmap. Qed.

Lemma zget_elem {A} (l : list A) i x : zget l i = Some x -> x ∈ l.
Proof. intros [_ H]%zget_Some. by eapply list_elem_of_lookup_2. Qed.
Lemma elem_zget {A} (l : list A) x : x ∈ l -> exists i, zget l i = Some x.
Proof. intros [i H]%list_elem_of_lookup_1. exists (Z.of_nat i). by rewrite zget_nat. Qed.

Lemma value_edges_go done_ nodes :
  (fix go (produced : list bool) (nodes : list ParsedNode) : bool :=
     match nodes with
     | [] => true
     | node :: nodes => forallb (edge_ok produced (zlen produced)) (node_refs node) && go (produced ++ [negb (is_write node)]) nodes
     end) ([false] ++ map (fun node => negb (is_write node)) done_) nodes = true ->
  forall k node ref, zget nodes k = Some node -> ref ∈ node_refs node ->
    1 <= ref <= zlen done_ + k /\ produces (done_ ++ nodes) ref.
Proof.
  revert done_. induction nodes as [|first nodes IH]; intros done_ H k node ref Hk Hr; [by apply zget_nil in Hk|].
  apply andb_prop in H as [H1 H2]. rewrite <- app_assoc in H2. specialize (IH (done_ ++ [first])).
  rewrite map_app in IH. specialize (IH H2).
  destruct (Z.eq_dec k 0) as [->|Hne].
  - injection Hk as <-. apply list_elem_of_In in Hr. pose proof (proj1 (forallb_forall _ _) H1 ref Hr) as He. unfold edge_ok in He.
    to_prop. rewrite zlen_app, zlen_map in *. cbn in *. change (zlen [false]) with 1 in *.
    destruct (zget _ ref) as [[]|] eqn:Ep; try done. pose proof (zget_range _ _ _ Ep). split; [lia|].
    change (false :: map ?f ?l) with ([false] ++ map f l) in Ep. rewrite (zget_app_ge [false]) in Ep by (change (zlen [false]) with 1; lia). change (zlen [false]) with 1 in Ep.
    rewrite zget_map in Ep. destruct (zget done_ (ref - 1)) as [n|] eqn:En; [|done]. exists n.
    rewrite zget_app_l by (apply zget_range in En; lia). split; [done|]. cbn in Ep. by destruct (is_write n).
  - assert (zget nodes (k - 1) = Some node) as Hk'.
    { rewrite <- Hk. change (first :: nodes) with ([first] ++ nodes).
      rewrite (zget_app_ge [first]) by (apply zget_range in Hk; change (zlen [first]) with 1; lia). done. }
    destruct (IH _ _ _ Hk' Hr) as [Hb Hp]. rewrite zlen_app in Hb. change (zlen [first]) with 1 in Hb.
    split; [lia|]. by rewrite <- app_assoc in Hp.
Qed.

Lemma value_edges nodes :
  value_edges_ok nodes = true ->
  forall k node ref, zget nodes k = Some node -> ref ∈ node_refs node -> 1 <= ref <= k /\ produces nodes ref.
Proof. intros H k node ref Hk Hr. apply (value_edges_go [] nodes H k node ref Hk Hr). Qed.

Lemma NodeValueReferences_elem node ref : ref <> 0 -> ref ∈ NodeValueReferences node <-> ref ∈ node_refs node.
Proof.
  intros H0. unfold NodeValueReferences. rewrite resources_eq. cbn [refs].
  assert (forall l acc, ref ∈ fold_left AppendValueReference l acc <-> ref ∈ acc \/ ref ∈ l) as G.
  { induction l as [|x l IH]; intros acc; cbn [fold_left]; [set_solver|]. rewrite IH. unfold AppendValueReference.
    destruct (Z.eqb_spec x 0) as [->|]; cbn [orb]; [set_solver|]. case_bool_decide; set_solver. }
  rewrite G. set_solver.
Qed.

Lemma NodeValueReferences_nonzero node : 0 ∉ NodeValueReferences node.
Proof.
  unfold NodeValueReferences. rewrite resources_eq. cbn [refs].
  assert (forall l acc, 0 ∈ fold_left AppendValueReference l acc -> 0 ∈ acc) as G.
  { induction l as [|x l IH]; intros acc; cbn [fold_left]; [done|]. intros H%IH. unfold AppendValueReference in H.
    destruct (Z.eqb_spec x 0); cbn [orb] in H; [done|]. case_bool_decide; [done|]. set_solver. }
  intros H%G. set_solver.
Qed.

Lemma NodeValueReferences_NoDup node : NoDup (NodeValueReferences node).
Proof.
  unfold NodeValueReferences. rewrite resources_eq. cbn [refs].
  assert (forall l acc, NoDup acc -> NoDup (fold_left AppendValueReference l acc)) as G.
  { induction l as [|x l IH]; intros acc Hn; cbn [fold_left]; [done|]. apply IH. unfold AppendValueReference.
    destruct (x =? 0); cbn [orb]; [done|]. case_bool_decide; [done|]. apply NoDup_app. split; [done|]. split; [set_solver|].
    apply NoDup_singleton. }
  apply G, NoDup_nil_2.
Qed.

(** ** The stable nodes *)
Lemma stable_flags_spec nodes :
  zlen (stable_flags nodes) = zlen nodes + 1 /\
  zget (stable_flags nodes) 0 = Some false /\
  forall k node, zget nodes k = Some node ->
    zget (stable_flags nodes) (k + 1) = Some (StableNode node (take (Z.to_nat (k + 1)) (stable_flags nodes))).
Proof.
  unfold stable_flags. induction nodes as [|node nodes IH] using rev_ind.
  - split; [done|]. split; [done|]. intros k node H. by apply zget_nil in H.
  - rewrite fold_left_app. cbn [fold_left]. destruct IH as (Hl & H0 & IH). set (flags := fold_left _ nodes [false]) in *.
    pose proof (zlen_nonneg nodes).
    split; [rewrite !zlen_app; change (zlen [?x]) with 1; lia|].
    split; [rewrite zget_app_l by lia; done|].
    intros k n Hk. destruct (Z.eq_dec k (zlen nodes)) as [->|Hne].
    + rewrite zget_app_mid in Hk by done. injection Hk as <-. rewrite zget_app_mid by lia. f_equal. f_equal.
      rewrite take_app_le by (unfold zlen in *; lia). rewrite take_ge; [done | unfold zlen in *; lia].
    + pose proof (zget_range _ _ _ Hk) as Hr. rewrite zlen_app in Hr. change (zlen [node]) with 1 in Hr.
      rewrite zget_app_l in Hk by lia. rewrite zget_app_l by lia. rewrite (IH k n Hk). do 2 f_equal.
      rewrite take_app_le by (unfold zlen in *; lia). done.
Qed.

Definition stable_value (nodes : list ParsedNode) (value : Z) : Prop := zget (stable_flags nodes) value = Some true.

#[export] Instance stable_value_dec nodes value : Decision (stable_value nodes value).
Proof. unfold stable_value. apply _. Defined.

Lemma StableNode_refs node flags :
  StableNode node flags = true ->
  is_write node = false /\ n_op node <> Op.Read /\ n_op node <> Op.ReadAt /\ n_op node <> Op.Index /\
  forall ref, ref ∈ node_refs node -> StableReference flags ref = true.
Proof.
  unfold StableNode, is_write. rewrite resources_eq. cbn [produces_value refs]. destruct node as [op l r x f]. cbn [n_op].
  intros H. split; [by destruct op|]. split; [by destruct op|]. split; [by destruct op|]. split; [by destruct op|].
  intros ref Hr. rewrite node_refs_arity in *. 
  destruct op; cbn [n_op] in H; try done; try (apply andb_prop in H as [_ H]; by eapply (proj1 (forallb_forall _ _) H), list_elem_of_In);
    by apply not_elem_of_nil in Hr.
Qed.

(** A stable node reads stable values. *)
Lemma stable_refs nodes k node ref :
  value_edges_ok nodes = true -> zget nodes k = Some node -> stable_value nodes (k + 1) -> ref ∈ node_refs node -> stable_value nodes ref.
Proof.
  intros He Hk Hs Hr. destruct (value_edges nodes He k node ref Hk Hr) as [Hb _].
  destruct (stable_flags_spec nodes) as (Hl & _ & Hf). unfold stable_value in *. rewrite (Hf k node Hk) in Hs. injection Hs as Hs.
  apply StableNode_refs in Hs as (_ & _ & _ & _ & Hs). specialize (Hs ref Hr). unfold StableReference in Hs.
  destruct (Z.eqb_spec ref 0); [lia|]. cbn [orb] in Hs. rewrite zget_take_lt in Hs by lia. by destruct (zget _ ref) as [[]|].
Qed.

(** ** The order of execution *)
Lemma filter_range_sorted (P : Z -> Prop) `{!forall i, Decision (P i)} lo hi l1 k l2 j :
  filter P (range lo hi) = l1 ++ k :: l2 -> j ∈ filter P (range lo hi) -> j < k -> j ∈ l1.
Proof.
  intros E Hj Hlt. rewrite E in Hj. apply elem_of_app in Hj as [?|Hj]; [done|].
  assert (StronglySorted Z.lt (filter P (range lo hi))) as Hs.
  { clear. remember (Z.to_nat (hi - lo)) as n eqn:En. revert lo En. induction n as [|n IH]; intros lo En.
    - rewrite range_nil by lia. constructor.
    - rewrite range_cons by lia. rewrite filter_cons. specialize (IH (lo + 1) ltac:(lia)). destruct (decide _); [|done].
      constructor; [done|]. apply Forall_forall. intros x Hx. apply list_elem_of_filter in Hx as [_ Hx%elem_of_range]. lia. }
  rewrite E in Hs. apply StronglySorted_app in Hs as (_ & _ & Hs).
  apply elem_of_cons in Hj as [->|Hj]; [lia|].
  inversion Hs as [|? ? _ Hf]; subst. rewrite Forall_forall in Hf. specialize (Hf _ Hj). lia.
Qed.

Lemma split_unique {A} (a b a' b' : list A) x : NoDup (a ++ x :: b) -> a ++ x :: b = a' ++ x :: b' -> a = a'.
Proof.
  intros Hnd E. assert (length a = length a') as El.
  { eapply NoDup_lookup; [exact Hnd | by apply list_lookup_middle | rewrite E; by apply list_lookup_middle]. }
  by apply app_inj_1 in E as [? _].
Qed.

Section order.
Context (nodes : list ParsedNode) (edges : value_edges_ok nodes = true).
Abbreviation stable := (stable_flags nodes).
Abbreviation n := (zlen nodes).
Definition stable_group : list Z := filter (fun index => zget stable (index + 1) = Some true) (range 0 n).
Definition loop_group : list Z := filter (fun index => zget stable (index + 1) = Some false) (range 0 n).
Abbreviation order := (execution_order stable n).

Lemma order_eq : order = stable_group ++ loop_group.
Proof. done. Qed.

Lemma order_elem k : k ∈ order <-> 0 <= k < n.
Proof.
  rewrite order_eq, elem_of_app. unfold stable_group, loop_group. rewrite !list_elem_of_filter, !elem_of_range.
  split; [naive_solver|]. intros Hk. destruct (stable_flags_spec nodes) as (Hl & _).
  destruct (zget_is_Some stable (k + 1)) as [[] ->]; [lia | by left | by right].
Qed.

Lemma order_NoDup : NoDup order.
Proof.
  rewrite order_eq. apply NoDup_app. unfold stable_group, loop_group. repeat split; try apply NoDup_filter, range_NoDup.
  intros x [H1 _]%list_elem_of_filter [H2 _]%list_elem_of_filter. congruence.
Qed.

Lemma order_perm : order ≡ₚ range 0 n.
Proof. apply NoDup_Permutation; [apply order_NoDup | apply range_NoDup |]. intros k. by rewrite order_elem, elem_of_range. Qed.

Lemma zlen_order : zlen order = n.
Proof. unfold zlen. rewrite order_perm, length_range. unfold zlen. lia. Qed.

(** Every operand comes before its use. *)
Lemma order_topological l1 k l2 node ref :
  order = l1 ++ k :: l2 -> zget nodes k = Some node -> ref ∈ node_refs node -> ref - 1 ∈ l1.
Proof using edges.
  intros E Hk Hr. destruct (value_edges nodes edges k node ref Hk Hr) as [Hb _].
  pose proof (zget_range _ _ _ Hk) as Hkr.
  assert (k ∈ order /\ ref - 1 ∈ order) as [Hk1 Hr1] by (split; apply order_elem; lia).
  pose proof order_NoDup as Hnd. rewrite order_eq in *. apply elem_of_app in Hk1 as [Hk1|Hk1].
  - apply list_elem_of_split in Hk1 as (a & b & Ea). rewrite Ea, <- app_assoc in E, Hnd. cbn [app] in *.
    rewrite <- (split_unique _ _ _ _ _ Hnd E). apply (filter_range_sorted _ _ _ _ _ _ _ Ea); [|lia].
    assert (stable_value nodes ref) as Hs.
    { apply (stable_refs nodes k node); try done. assert (k ∈ stable_group) as Hin by (rewrite Ea; set_solver).
      by apply list_elem_of_filter in Hin as [? _]. }
    apply list_elem_of_filter. rewrite Z.sub_add. split; [done|]. apply elem_of_range. lia.
  - apply list_elem_of_split in Hk1 as (a & b & Ea). rewrite Ea, app_assoc in E, Hnd.
    rewrite <- (split_unique _ _ _ _ _ Hnd E). apply elem_of_app in Hr1 as [Hr1|Hr1]; apply elem_of_app; [by left|right].
    by apply (filter_range_sorted _ _ _ _ _ _ _ Ea); [|lia].
Qed.
End order.

(** ** Positions *)
Lemma zip_range_zget {A} (l : list A) p x : (p, x) ∈ zip (range 0 (zlen l)) l <-> zget l p = Some x.
Proof.
  split.
  - intros [i [Ha Hb]%lookup_zip_Some]%list_elem_of_lookup_1. unfold range in Ha. apply lookup_seqZ in Ha as [-> Hi]. by rewrite Z.add_0_l, zget_nat.
  - intros H. pose proof (zget_range _ _ _ H). apply zget_Some in H as [Hp H].
    apply (list_elem_of_lookup_2 _ (Z.to_nat p)), lookup_zip_Some. split; [|done]. unfold range. apply lookup_seqZ. lia.
Qed.

Lemma zlen_zip_range {A} (l : list A) : zlen (zip (range 0 (zlen l)) l) = zlen l.
Proof. unfold zlen. rewrite length_zip, length_range. lia. Qed.
Lemma snd_zip_range {A} (l : list A) : map snd (zip (range 0 (zlen l)) l) = l.
Proof. apply snd_zip. rewrite length_range. unfold zlen. lia. Qed.

Lemma zip_range_prefix {A} (l : list A) d p x rest :
  zip (range 0 (zlen l)) l = d ++ (p, x) :: rest ->
  p = zlen d /\ zget l p = Some x /\ (forall q y, (q, y) ∈ d <-> q < p /\ zget l q = Some y) /\ map snd d = take (Z.to_nat p) l.
Proof.
  intros E.
  assert (forall i : nat, (i < length l)%nat -> zip (range 0 (zlen l)) l !! i = pair (Z.of_nat i) <$> l !! i) as G.
  { intros i Hi. destruct (lookup_lt_is_Some_2 l i Hi) as [y Hy]. rewrite Hy. apply lookup_zip_Some. split; [|done].
    unfold range. apply lookup_seqZ. unfold zlen. lia. }
  assert (length (zip (range 0 (zlen l)) l) = length l) as Hl by (rewrite length_zip, length_range; unfold zlen; lia).
  assert (length d < length l)%nat as Hd by (rewrite <- Hl, E, length_app; cbn; lia).
  pose proof (G (length d) Hd) as Gd. rewrite E, list_lookup_middle in Gd by done.
  destruct (l !! length d) as [y|] eqn:Ey; [|done]. cbn in Gd. injection Gd as -> ->.
  split; [done|]. split; [by rewrite zget_nat|]. split.
  - intros q y'. split.
    + intros [i Hi]%list_elem_of_lookup_1. pose proof (lookup_lt_Some _ _ _ Hi).
      pose proof (G i ltac:(lia)) as Gi. rewrite E, lookup_app_l, Hi in Gi by lia.
      destruct (l !! i) eqn:El; [|done]. injection Gi as -> ->. rewrite zget_nat. split; [lia|done].
    + intros [Hlt Hq]. apply zget_Some in Hq as [H0 Hq]. pose proof (G (Z.to_nat q) ltac:(lia)) as Gi. rewrite Hq in Gi.
      rewrite E, lookup_app_l in Gi by lia. rewrite Z2Nat.id in Gi by lia. by eapply list_elem_of_lookup_2.
  - pose proof (snd_zip_range l) as Hs.
    rewrite E, map_app in Hs. rewrite <- Hs. rewrite Nat2Z.id, take_app_length'; [done | by rewrite length_map].
Qed.

(** ** Last uses *)
Definition le_at (l : list Z) (v x : Z) : Prop := exists y, zget l v = Some y /\ x <= y.

Lemma le_at_set l v y l' u x : zset l v y = Some l' -> le_at l u x -> (u = v -> x <= y) -> le_at l' u x.
Proof.
  intros [Hr ->]%zset_inv (z & Hz & Hle) Hy. destruct (Z.eq_dec u v) as [->|Hne].
  - exists y. rewrite zget_insert_eq by done. split; [done | by apply Hy].
  - exists z. by rewrite zget_insert_ne by lia.
Qed.

Section uses.
Context (parsed : ParsedIR) (edges : value_edges_ok (ir_nodes parsed) = true) (once : Z).
Abbreviation nodes := (ir_nodes parsed).
Abbreviation stable := (stable_flags nodes).
Abbreviation order := (execution_order stable (zlen nodes)).

Definition sized (st : list Z * list bool) : Prop := zlen st.1 = zlen nodes + 1 /\ zlen st.2 = zlen nodes + 1.
Definition grows (position : Z) (st st' : list Z * list bool) : Prop :=
  (forall v x, x <= position -> le_at st.1 v x -> le_at st'.1 v x) /\ (forall v, zget st.2 v = Some true -> zget st'.2 v = Some true).
Definition used (position value : Z) (st : list Z * list bool) : Prop :=
  le_at st.1 value position /\ (once <= position -> stable_value nodes value -> zget st.2 value = Some true).

Lemma grows_used position q value st st' : q <= position -> grows position st st' -> used q value st -> used q value st'.
Proof. intros Hq [H1 H2] [H3 H4]. split; [by apply H1 | intros; by apply H2, H4]. Qed.

Lemma use_value_ok position value st :
  sized st -> 1 <= value <= zlen nodes ->
  exists st', use_value position once stable st value = Some st' /\ sized st' /\ grows position st st' /\ used position value st'.
Proof.
  destruct st as [last pin]. intros [Hl Hp] Hv. cbn [fst snd] in *. unfold use_value. destruct (stable_flags_spec nodes) as (Hs & _).
  destruct (zget_is_Some last value) as [x Hx]; [lia|]. bind_step Hx.
  set (last' := <[Z.to_nat value := Z.max x position]> last).
  assert (zset last value (Z.max x position) = Some last') as Eset by (apply zset_Some; lia).
  destruct (zget_is_Some stable value) as [s Es]; [lia|]. bind_step Eset. bind_step Es.
  assert (forall v y, le_at last v y -> le_at last' v y) as Hgrow.
  { intros v y Hy. eapply le_at_set; [exact Eset | done |]. intros ->. destruct Hy as (z & Hz & Hle). rewrite Hx in Hz. injection Hz as ->. lia. }
  assert (le_at last' value position) as Hnew.
  { exists (Z.max x position). split; [apply zget_insert_eq; lia | lia]. }
  assert (zlen last' = zlen nodes + 1) as Hl' by (unfold last'; by rewrite zlen_insert).
  destruct ((once <=? position) && s) eqn:Ec.
  - rewrite (zset_Some pin) by lia. cbn [mbind option_bind]. eexists. split; [reflexivity|]. unfold sized, grows, used. cbn [fst snd].
    split; [split; [done | by rewrite zlen_insert]|]. split; [split; [by auto|]|split; [done|]].
    + intros v Hv'. destruct (Z.eq_dec v value) as [->|Hne]; [by rewrite zget_insert_eq by lia | by rewrite zget_insert_ne by lia].
    + intros _ _. by rewrite zget_insert_eq by lia.
  - cbn [mbind option_bind]. eexists. split; [reflexivity|]. unfold sized, grows, used. cbn [fst snd]. repeat split; auto.
    intros Ho Hst. unfold stable_value in Hst. rewrite Es in Hst. injection Hst as ->. apply andb_false_iff in Ec as [Ec|]; [to_prop; lia | done].
Qed.

Definition node_used (position k : Z) (st : list Z * list bool) : Prop :=
  le_at st.1 (k + 1) position /\ forall node ref, zget nodes k = Some node -> ref ∈ node_refs node -> used position ref st.

Lemma grows_node_used position q k st st' : q <= position -> grows position st st' -> node_used q k st -> node_used q k st'.
Proof.
  intros Hq Hg [H1 H2]. split; [by apply Hg|]. intros node ref Hk Hr. eapply grows_used; [done | done | by eapply H2].
Qed.

Lemma grows_trans position a b c : grows position a b -> grows position b c -> grows position a c.
Proof. intros [H1 H2] [H3 H4]. split; auto. Qed.
Lemma grows_refl position a : grows position a a.
Proof. by split. Qed.

Lemma use_node_ok position k st :
  sized st -> 0 <= k < zlen nodes ->
  exists st', use_node parsed once stable st (position, k) = Some st' /\ sized st' /\ grows position st st' /\ node_used position k st'.
Proof using edges.
  destruct st as [last pin]. intros [Hl Hp] Hk. cbn [fst snd] in *. unfold use_node.
  destruct (zget_is_Some nodes k Hk) as [node En]. rewrite En. cbn [mbind option_bind].
  rewrite zset_Some by lia. cbn [mbind option_bind]. set (last0 := <[Z.to_nat (k + 1) := position]> last).
  assert (zset last (k + 1) position = Some last0) as Eset by (apply zset_Some; lia).
  assert (forall ref, ref ∈ NodeValueReferences node -> 1 <= ref <= zlen nodes) as Href.
  { intros ref Hr. assert (ref <> 0) as H0 by (intros ->; by apply NodeValueReferences_nonzero in Hr).
    apply NodeValueReferences_elem in Hr; [|done]. destruct (value_edges nodes edges k node ref En Hr). lia. }
  destruct (for_each_inv (fun d st' => sized st' /\ grows position (last0, pin) st' /\ forall ref, ref ∈ d -> used position ref st')
              (use_value position once stable) (NodeValueReferences node) (last0, pin)) as (st' & E & Hs & Hg & Hu).
  - split; [split; cbn; [unfold last0; by rewrite zlen_insert | done]|]. split; [apply grows_refl | set_solver].
  - intros d ref rest st1 El (Hs & Hg & Hu).
    destruct (use_value_ok position ref st1 Hs (Href ref ltac:(rewrite El; set_solver))) as (st2 & E2 & Hs2 & Hg2 & Hu2).
    exists st2. split; [done|]. split; [done|]. split; [by eapply grows_trans|].
    intros r [Hr| ->%list_elem_of_singleton]%elem_of_app; [|done]. eapply grows_used; [reflexivity | done | by apply Hu].
  - exists st'. split; [done|]. split; [done|]. split.
    + eapply grows_trans; [|exact Hg]. split; [|done]. cbn [fst]. intros v x Hx Hv. eapply le_at_set; [exact Eset | done | done].
    + split.
      * apply Hg; [done|]. exists position. split; [apply zget_insert_eq; lia | done].
      * intros node' ref Hn Hr. rewrite En in Hn. injection Hn as <-. apply Hu. apply NodeValueReferences_elem; [|done].
        destruct (value_edges nodes edges k node ref En Hr). lia.
Qed.

(** The uses of a program: every use of a value is at most its last use, and a value of
    the first part that the loop uses is pinned and lives to the end. *)
Lemma value_uses_spec :
  exists L P, value_uses parsed order once stable = Some (L, P) /\ sized (L, P) /\
    (forall p k, zget order p = Some k -> node_used p k (L, P)) /\
    (forall v, zget P v = Some true -> zget L v = Some (zlen order)).
Proof using edges.
  unfold value_uses.
  destruct (for_each_inv (fun d st => sized st /\ forall p k, (p, k) ∈ d -> node_used p k st)
              (use_node parsed once stable)
              (zip (range 0 (zlen order)) order)
              (replicate (Z.to_nat (zlen nodes + 1)) 0, replicate (Z.to_nat (zlen nodes + 1)) false)) as ([last pin] & E & [Hl Hp] & Hu).
  - split; [split; cbn [fst snd]; rewrite zlen_replicate; pose proof (zlen_nonneg nodes); lia | set_solver].
  - intros d [p k] rest st El [Hs Hd]. apply zip_range_prefix in El as (-> & Hk & Hpre & _).
    destruct (use_node_ok (zlen d) k st Hs) as (st' & E' & Hs' & Hg & Hu).
    { apply zget_elem, order_elem in Hk. done. }
    exists st'. split; [done|]. split; [done|]. intros q j [Hq|Hq%list_elem_of_singleton]%elem_of_app; [|by injection Hq as -> ->].
    eapply grows_node_used; [| exact Hg | by apply Hd]. apply Hpre in Hq. lia.
  - rewrite E. cbn [mbind option_bind]. do 2 eexists. split; [reflexivity|]. cbn [fst snd] in *.
    set (L := zip_with _ last pin).
    assert (forall v, 0 <= v < zlen nodes + 1 -> exists x b, zget last v = Some x /\ zget pin v = Some b /\
              zget L v = Some (if b : bool then zlen order else x)) as HL.
    { intros v Hv. destruct (zget_is_Some last v) as [x Hx]; [lia|]. destruct (zget_is_Some pin v) as [b Hb]; [lia|].
      exists x, b. split; [done|]. split; [done|]. apply zget_Some in Hx as [? Hx], Hb as [_ Hb]. apply zget_Some. split; [done|].
      unfold L. rewrite lookup_zip_with, Hx. cbn. rewrite Hb. done. }
    assert (zlen L = zlen nodes + 1) as HlL by (unfold L, zlen in *; rewrite length_zip_with; lia).
    assert (forall v x, x <= zlen order -> le_at last v x -> le_at L v x) as Hup.
    { intros v x Hx (y & Hy & Hle). destruct (HL v) as (y' & b & Hy' & Hb & HLv); [apply zget_range in Hy; lia|].
      eexists. split; [exact HLv|]. destruct b; [lia | congruence]. }
    split; [by split|]. split.
    + intros p k Hk. pose proof (zget_range _ _ _ Hk). destruct (Hu p k) as [H1 H2]; [by apply zip_range_zget|].
      split; [apply Hup; [lia | done]|]. intros node ref Hn Hr. destruct (H2 node ref Hn Hr) as [H3 H4].
      split; [apply Hup; [lia | done] | done].
    + intros v Hv. destruct (HL v) as (x & b & _ & Hb & ->); [apply zget_range in Hv; lia|]. rewrite Hv in Hb. by injection Hb as <-.
Qed.
End uses.

(** ** Slots *)
Definition holds (slots : list (option Z)) (value slot : Z) : Prop := zget slots value = Some (Some slot).

Lemma holds_set_None slots v u s : 0 <= v < zlen slots -> holds (<[Z.to_nat v := None]> slots) u s <-> holds slots u s /\ u <> v.
Proof.
  intros Hv. unfold holds. destruct (Z.eq_dec u v) as [->|Hne]; [rewrite zget_insert_eq by done; naive_solver|].
  rewrite zget_insert_ne by lia. naive_solver.
Qed.
Lemma holds_set_Some slots v t u s :
  0 <= v < zlen slots -> holds (<[Z.to_nat v := Some t]> slots) u s <-> (u = v /\ s = t) \/ (u <> v /\ holds slots u s).
Proof.
  intros Hv. unfold holds. destruct (Z.eq_dec u v) as [->|Hne]; [rewrite zget_insert_eq by done; naive_solver|].
  rewrite zget_insert_ne by lia. naive_solver.
Qed.
Lemma holds_range slots v s : holds slots v s -> 0 <= v < zlen slots.
Proof. apply zget_range. Qed.
Lemma holds_fun slots v s t : holds slots v s -> holds slots v t -> s = t.
Proof. unfold holds. congruence. Qed.

(** A node and its form over slots. *)
Record renamed (slots : list (option Z)) (node node' : ParsedNode) : Prop := {
  ren_op : n_op node' = n_op node;
  ren_format : n_format node' = n_format node;
  ren_refs : Forall2 (holds slots) (node_refs node) (node_refs node');
  ren_rest : drop (arity (n_op node)) [n_lhs node'; n_rhs node'; n_aux node'] = drop (arity (n_op node)) [n_lhs node; n_rhs node; n_aux node];
}.

Lemma arity_le op : (arity op <= 3)%nat.
Proof. destruct op; vm_compute; lia. Qed.

Lemma RemapNodeValueReferences_ok slots node :
  (forall ref, ref ∈ node_refs node -> ref <> 0 /\ exists s, holds slots ref s) ->
  exists node', RemapNodeValueReferences node slots = Some node' /\ renamed slots node node'.
Proof.
  destruct node as [op l r x f]. unfold RemapNodeValueReferences. rewrite resources_eq, node_refs_arity. cbn [refs].
  pose proof (arity_le op) as Ha. intros H. unfold holds in H.
  assert (forall op' l' r' x', op' = op ->
    Forall2 (holds slots) (take (arity op) [l; r; x]) (take (arity op) [l'; r'; x']) ->
    drop (arity op) [l'; r'; x'] = drop (arity op) [l; r; x] -> renamed slots (mkNode op l r x f) (mkNode op' l' r' x' f)) as mk.
  { intros ? l' r' x' -> Hf Hd. split; [done | done | by rewrite !node_refs_arity | done]. }
  unfold holds in mk.
  destruct (arity op) as [|[|[|[|]]]]; [| | | |lia]; cbn [take] in *.
  - eexists. split; [reflexivity|]. apply mk; [done | constructor | done].
  - destruct (H l ltac:(set_solver)) as (Hl & s & Es).
    change (zip (range 0 (zlen [l])) [l]) with [(0, l)]. cbn [for_each].
    replace (operand (mkNode op l r x f) 0) with l by done. rewrite (proj2 (Z.eqb_neq l 0) Hl), Z.eqb_refl. cbn [orb negb]. rewrite Es. cbn.
    eexists. split; [reflexivity|]. apply mk; [done | by repeat constructor | done].
  - destruct (H l ltac:(set_solver)) as (Hl & s & Es). destruct (H r ltac:(set_solver)) as (Hr & s' & Es').
    change (zip (range 0 (zlen [l; r])) [l; r]) with [(0, l); (1, r)]. cbn [for_each].
    replace (operand (mkNode op l r x f) 0) with l by done. rewrite (proj2 (Z.eqb_neq l 0) Hl), Z.eqb_refl. cbn [orb negb]. rewrite Es. cbn [mbind option_bind].
    cbn. rewrite (proj2 (Z.eqb_neq r 0) Hr), Z.eqb_refl. cbn [orb negb]. rewrite Es'. cbn.
    eexists. split; [reflexivity|]. apply mk; [done | by repeat constructor | done].
  - destruct (H l ltac:(set_solver)) as (Hl & s & Es). destruct (H r ltac:(set_solver)) as (Hr & s' & Es'). destruct (H x ltac:(set_solver)) as (Hx & s'' & Es'').
    change (zip (range 0 (zlen [l; r; x])) [l; r; x]) with [(0, l); (1, r); (2, x)]. cbn [for_each].
    replace (operand (mkNode op l r x f) 0) with l by done. rewrite (proj2 (Z.eqb_neq l 0) Hl), Z.eqb_refl. cbn [orb negb]. rewrite Es. cbn [mbind option_bind].
    cbn. rewrite (proj2 (Z.eqb_neq r 0) Hr), Z.eqb_refl. cbn [orb negb]. rewrite Es'. cbn [mbind option_bind].
    cbn. rewrite (proj2 (Z.eqb_neq x 0) Hx), Z.eqb_refl. cbn [orb negb]. rewrite Es''. cbn.
    eexists. split; [reflexivity|]. apply mk; [done | by repeat constructor | done].
Qed.

(** The values with a slot have different slots, and the free slots are others. *)
Record slots_ok (n : Z) (st : SlotState) : Prop := {
  so_length : zlen (slot_by_value st) = n + 1;
  so_count : 0 <= slot_count st;
  so_bound : forall v s, holds (slot_by_value st) v s -> 1 <= v /\ 0 <= s < slot_count st;
  so_distinct : forall v v' s, holds (slot_by_value st) v s -> holds (slot_by_value st) v' s -> v = v';
  so_free : NoDup (free_slots st);
  so_free_bound : forall s, s ∈ free_slots st -> 0 <= s < slot_count st /\ forall v, ~ holds (slot_by_value st) v s;
}.

Lemma release_slot_ok n st v s :
  slots_ok n st -> holds (slot_by_value st) v s ->
  exists st', release st v = Some st' /\ slots_ok n st' /\ slot_count st' = slot_count st /\ emitted st' = emitted st /\
    forall u t, holds (slot_by_value st') u t <-> holds (slot_by_value st) u t /\ u <> v.
Proof.
  intros [Hl Hn Hb Hd Hf Hfb] Hv. unfold release. rewrite Hv. pose proof (holds_range _ _ _ Hv).
  rewrite zset_Some by done. cbn [mbind option_bind]. eexists. split; [reflexivity|]. cbn [slot_by_value free_slots slot_count emitted].
  assert (forall u t, holds (<[Z.to_nat v := None]> (slot_by_value st)) u t <-> holds (slot_by_value st) u t /\ u <> v) as G
    by (intros; by apply holds_set_None).
  split; [|by split; [|split]]. split; cbn [slot_by_value free_slots slot_count emitted].
  - by rewrite zlen_insert.
  - done.
  - intros u t [Hu _]%G. by apply Hb.
  - intros u u' t [Hu _]%G [Hu' _]%G. by eapply Hd.
  - constructor; [|done]. intros Hin%Hfb. by apply (proj2 Hin v).
  - intros t [->|Ht]%elem_of_cons.
    + split; [by eapply Hb|]. intros u [Hu Hne]%G. by apply Hne, (Hd _ _ s).
    + destruct (Hfb t Ht) as [? Hno]. split; [done|]. intros u [Hu _]%G. by eapply Hno.
Qed.

Lemma take_slot_ok n st aliased :
  slots_ok n st -> slot_count st < U32_MAX -> (aliased <> 0 -> exists s, holds (slot_by_value st) aliased s) ->
  exists slot st', take_slot st aliased = Some (slot, st') /\ slots_ok n st' /\ slot_count st <= slot_count st' <= slot_count st + 1 /\
    emitted st' = emitted st /\ 0 <= slot < slot_count st' /\ slot ∉ free_slots st' /\
    (forall u t, holds (slot_by_value st') u t <-> holds (slot_by_value st) u t /\ u <> aliased) /\
    (forall u, ~ holds (slot_by_value st') u slot).
Proof.
  intros Hok Hc Ha. pose proof Hok as [Hl Hn Hb Hd Hf Hfb]. unfold take_slot. destruct (Z.eqb_spec aliased 0) as [->|Hne]; cbn [negb].
  - assert (forall u t, holds (slot_by_value st) u t <-> holds (slot_by_value st) u t /\ u <> 0) as G.
    { intros u t. split; [|tauto]. intros Hu. split; [done|]. destruct (Hb _ _ Hu). lia. }
    destruct (free_slots st) as [|s rest] eqn:Ef.
    + rewrite wrap32_small by (unfold is_u32; lia). 
      destruct (Z.gtb_spec (slot_count st) U32_MAX); [lia|]. destruct (Z.eqb_spec (slot_count st) U32_MAX); [lia|].
      do 2 eexists. split; [reflexivity|]. cbn [slot_by_value free_slots slot_count emitted]. split; [|repeat split; try lia; try done].
      * split; cbn [slot_by_value free_slots slot_count emitted]; try done; try lia; [|set_solver].
        intros v s Hv. specialize (Hb v s Hv). lia.
      * set_solver.
      * match goal with H : holds _ _ _ |- _ => by destruct (proj1 (G _ _) H) end.
      * by intros [? _].
      * intros u Hu. specialize (Hb _ _ Hu). lia.
    + assert (s ∈ s :: rest) as Hs by set_solver. destruct (Hfb s Hs) as [Hsb Hno]. apply NoDup_cons in Hf as [Hf1 Hf2].
      do 2 eexists. split; [reflexivity|]. cbn [slot_by_value free_slots slot_count emitted].
      split; [|split; [lia|]; split; [done|]; split; [done|]; split; [done|]; split; [exact G | done]].
      split; cbn [slot_by_value free_slots slot_count emitted]; try done. intros t Ht. apply Hfb. set_solver.
  - destruct (Ha Hne) as [s Hs]. rewrite Hs. pose proof (holds_range _ _ _ Hs). rewrite zset_Some by done. cbn [mbind option_bind].
    do 2 eexists. split; [reflexivity|]. cbn [slot_by_value free_slots slot_count emitted].
    assert (forall u t, holds (<[Z.to_nat aliased := None]> (slot_by_value st)) u t <-> holds (slot_by_value st) u t /\ u <> aliased) as G
      by (intros; by apply holds_set_None).
    destruct (Hb _ _ Hs) as [_ Hsb]. split; [|repeat split; try lia; try done].
    + split; cbn [slot_by_value free_slots slot_count emitted]; [by rewrite zlen_insert | done | intros u t [Hu _]%G; by apply Hb
        | intros u u' t [Hu _]%G [Hu' _]%G; by eapply Hd | done
        | intros t Ht; destruct (Hfb t Ht) as [? Hno]; split; [done|]; intros u [Hu _]%G; by eapply Hno].
    + intros Hin%Hfb. by eapply (proj2 Hin).
    + match goal with H : holds _ _ _ |- _ => by destruct (proj1 (G _ _) H) end.
    + match goal with H : holds _ _ _ |- _ => by destruct (proj1 (G _ _) H) end.
    + intros [? ?]. by apply G.
    + intros u [Hu Hu']%G. by apply Hu', (Hd _ _ s).
Qed.

Lemma assign_ok n st v slot :
  slots_ok n st -> 1 <= v <= n -> 0 <= slot < slot_count st -> slot ∉ free_slots st -> (forall u, ~ holds (slot_by_value st) u slot) ->
  exists st', assign st v slot = Some st' /\ slots_ok n st' /\ slot_count st' = slot_count st /\ emitted st' = emitted st /\
    forall u t, holds (slot_by_value st') u t <-> (u = v /\ t = slot) \/ (u <> v /\ holds (slot_by_value st) u t).
Proof.
  intros [Hl Hn Hb Hd Hf Hfb] Hv Hs Hnf Hno. unfold assign. rewrite zset_Some by lia. cbn [mbind option_bind].
  eexists. split; [reflexivity|]. cbn [slot_by_value free_slots slot_count emitted].
  assert (forall u t, holds (<[Z.to_nat v := Some slot]> (slot_by_value st)) u t <-> (u = v /\ t = slot) \/ (u <> v /\ holds (slot_by_value st) u t)) as G
    by (intros; apply holds_set_Some; lia).
  split; [|done]. split; cbn [slot_by_value free_slots slot_count emitted]; try done.
  - by rewrite zlen_insert.
  - intros u t [[-> ->]|[_ Hu]]%G; [lia | by apply Hb].
  - intros u u' t [[-> ->]|[_ Hu]]%G [[-> E]|[_ Hu']]%G; [done | by apply Hno in Hu' | subst; by apply Hno in Hu | by eapply Hd].
  - intros t Ht. destruct (Hfb t Ht) as [? Hnt]. split; [done|]. intros u [[-> ->]|[_ Hu]]%G; [done | by eapply Hnt].
Qed.

Section allocate.
Context (n : Z) (L : list Z) (P : list bool) (sizes : zlen L = n + 1 /\ zlen P = n + 1).

Definition dies (position value : Z) : Prop := zget L value = Some position /\ zget P value = Some false.

Lemma dies_at_ok position value :
  0 <= value <= n -> exists b, dies_at L P position value = Some b /\ (b = true <-> dies position value).
Proof using sizes.
  intros Hv. destruct sizes as [Hl Hp]. unfold dies_at, dies. destruct (zget_is_Some L value) as [x Hx]; [lia|].
  destruct (zget_is_Some P value) as [b Hb]; [lia|]. rewrite Hx, Hb. cbn [mbind option_bind]. eexists. split; [reflexivity|].
  rewrite andb_true_iff, Z.eqb_eq, negb_true_iff. naive_solver.
Qed.

Lemma aliased_value_ok position references :
  (forall r, r ∈ references -> 1 <= r <= n) ->
  exists aliased, aliased_value L P position references = Some aliased /\
    (aliased = 0 \/ aliased ∈ references /\ dies position aliased).
Proof using sizes.
  induction references as [|r references IH]; intros Hr; cbn [aliased_value]; [by exists 0; auto|].
  destruct (dies_at_ok position r) as (b & -> & Hb); [specialize (Hr r ltac:(set_solver)); lia|]. cbn [mbind option_bind].
  destruct b; [exists r; split; [done|]; right; split; [set_solver | by apply Hb]|].
  destruct IH as (a & -> & Ha); [intros; apply Hr; set_solver|]. exists a. split; [done|]. destruct Ha as [|[]]; [by left | right; set_solver].
Qed.

(** Releasing the operands that die takes exactly these from the values with a slot. *)
Lemma release_operands_ok position references st :
  (forall r, r ∈ references -> 1 <= r <= n) -> slots_ok n st ->
  exists st', release_operands L P position references st = Some st' /\ slots_ok n st' /\ slot_count st' = slot_count st /\ emitted st' = emitted st /\
    forall u t, holds (slot_by_value st') u t <-> holds (slot_by_value st) u t /\ ~ (u ∈ references /\ dies position u).
Proof using sizes.
  revert st. induction references as [|r references IH]; intros st Hr Hok.
  - exists st. split; [done|]. split; [done|]. split; [done|]. split; [done|]. set_solver.
  - unfold release_operands. cbn [for_each].
    destruct (dies_at_ok position r) as (b & Eb & Hb); [specialize (Hr r ltac:(set_solver)); lia|].
    destruct (zget_is_Some (slot_by_value st) r) as [entry Ee]; [rewrite (so_length _ _ Hok); specialize (Hr r ltac:(set_solver)); lia|].
    rewrite Eb, Ee. cbn [mbind option_bind].
    assert (exists st1, (if b && bool_decide (is_Some entry) then release st r else Some st) = Some st1 /\ slots_ok n st1 /\
              slot_count st1 = slot_count st /\ emitted st1 = emitted st /\
              forall u t, holds (slot_by_value st1) u t <-> holds (slot_by_value st) u t /\ ~ (u = r /\ dies position u)) as (st1 & -> & Hok1 & Hc1 & He1 & H1).
    { destruct b; cbn [andb].
      - assert (dies position r) as Hd by by apply Hb. destruct entry as [s|].
        + rewrite bool_decide_true by done. destruct (release_slot_ok n st r s Hok Ee) as (st1 & E1 & Hok1 & Hc & He & H1).
          exists st1. split; [done|]. split; [done|]. split; [done|]. split; [done|]. intros u t. rewrite H1. naive_solver.
        + rewrite bool_decide_false by (by intros [? ?]). exists st. split; [done|]. split; [done|]. split; [done|]. split; [done|].
          intros u t. unfold holds. split; [|tauto]. intros Hu. split; [done|]. intros [-> _]. congruence.
      - exists st. split; [done|]. split; [done|]. split; [done|]. split; [done|]. intros u t. split; [|tauto]. intros Hu. split; [done|].
        intros [-> Hd]. by apply Hb in Hd. }
    cbn [mbind option_bind]. destruct (IH st1) as (st2 & E2 & Hok2 & Hc2 & He2 & H2); [intros; apply Hr; set_solver | done |].
    exists st2. split; [exact E2|]. split; [done|]. split; [congruence|]. split; [congruence|]. intros u t. rewrite H2, H1. set_solver.
Qed.
End allocate.

Lemma filter_ext_elem {A} (P Q : A -> Prop) `{!forall x, Decision (P x)} `{!forall x, Decision (Q x)} (l : list A) :
  (forall x, x ∈ l -> P x <-> Q x) -> filter P l = filter Q l.
Proof.
  intros Hpq. induction l as [|x l IH]; [done|]. rewrite !filter_cons, IH by set_solver. specialize (Hpq x ltac:(set_solver)).
  destruct (decide (P x)), (decide (Q x)); naive_solver.
Qed.

Lemma count_true (l : list bool) : zlen (filter (fun b => b = true) l) = zlen (filter (fun i => zget l i = Some true) (range 0 (zlen l))).
Proof.
  induction l as [|b l IH] using rev_ind; [done|]. pose proof (zlen_nonneg l).
  rewrite zlen_app. change (zlen [b]) with 1. rewrite range_snoc by lia. rewrite !filter_app, !zlen_app, IH. f_equal.
  - f_equal. apply filter_ext_elem. intros i Hi%elem_of_range. by rewrite zget_app_l by lia.
  - rewrite !filter_cons, !filter_nil. rewrite zget_app_mid by done. destruct b; [by rewrite !decide_True by done | by rewrite !decide_False by done].
Qed.

Lemma count_stable nodes : zlen (filter (fun b => b = true) (stable_flags nodes)) = zlen (stable_group nodes).
Proof.
  destruct (stable_flags_spec nodes) as (Hl & H0 & _). pose proof (zlen_nonneg nodes). rewrite count_true, Hl.
  rewrite range_cons by lia. rewrite filter_cons, decide_False by (by rewrite H0). unfold stable_group.
  assert (range (0 + 1) (zlen nodes + 1) = (fun i => i + 1) <$> range 0 (zlen nodes)) as ->.
  { unfold range. apply list_eq. intros i. rewrite list_lookup_fmap. destruct (decide (Z.of_nat i < zlen nodes)).
    - rewrite !lookup_seqZ_lt by lia. cbn. f_equal. lia.
    - rewrite !lookup_seqZ_ge by lia. done. }
  generalize (range 0 (zlen nodes)). intros l. induction l as [|i l IH]; [done|].
  rewrite fmap_cons, !filter_cons. destruct (decide _); [rewrite !zlen_cons|]; by rewrite IH.
Qed.

(** ** The instructions of a plan

    [placed k] relates the slots of the values before and after the instruction of node
    [k]. A value keeps its slot until it is released; no other live value has the slot the
    instruction writes. *)
Section placed.
Context (parsed : ParsedIR) (bindings : BindingPlan) (read_stride : Z -> option Z) (output_full : Z -> bool) (scalar_bytes : Z).
Abbreviation nodes := (ir_nodes parsed).
Abbreviation prepare := (PrepareInstruction parsed bindings read_stride output_full scalar_bytes).

Record placed (P : list bool) (k : Z) (slots : list (option Z)) (i : PreparedInstruction) (slots' : list (option Z)) : Prop := {
  pl_instruction : exists node i0 node', zget nodes k = Some node /\ prepare k = Some i0 /\ renamed slots (i_node i0) node' /\
                     i = with_value_index (with_node i0 node') (value_index i);
  pl_distinct : forall v v' s, holds slots v s -> holds slots v' s -> v = v';
  pl_frame : forall v s, holds slots' v s ->
               (v = k + 1 /\ s = value_index i /\ n_op (i_node i) <> Op.Write) \/
               (v <> k + 1 /\ holds slots v s /\ (n_op (i_node i) <> Op.Write -> s <> value_index i));
  pl_pinned : forall v s, zget P v = Some true -> holds slots v s -> holds slots' v s;
}.

Inductive placed_all (P : list bool) : list (option Z) -> list Z -> list PreparedInstruction -> list (option Z) -> Prop :=
| placed_nil slots : placed_all P slots [] [] slots
| placed_cons slots k i slots1 ks is_ slots2 :
    placed P k slots i slots1 -> placed_all P slots1 ks is_ slots2 -> placed_all P slots (k :: ks) (i :: is_) slots2.

Lemma placed_snoc P slots ks is_ slots1 k i slots2 :
  placed_all P slots ks is_ slots1 -> placed P k slots1 i slots2 -> placed_all P slots (ks ++ [k]) (is_ ++ [i]) slots2.
Proof. induction 1; cbn; intros; econstructor; eauto. constructor. Qed.

Lemma placed_app P slots ks1 ks2 is_ slots2 :
  placed_all P slots (ks1 ++ ks2) is_ slots2 ->
  exists slots1, placed_all P slots ks1 (take (length ks1) is_) slots1 /\ placed_all P slots1 ks2 (drop (length ks1) is_) slots2.
Proof.
  revert slots is_. induction ks1 as [|k ks1 IH]; intros slots is_ H; cbn [app length] in *.
  - exists slots. rewrite drop_0. split; [constructor | done].
  - inversion H as [|? ? ? s1 ? is1 ? Hp Hr]; subst. destruct (IH _ _ Hr) as (s2 & H1 & H2). exists s2. split; [by econstructor | done].
Qed.

Lemma placed_join P slots ks1 is1 slots1 ks2 is2 slots2 :
  placed_all P slots ks1 is1 slots1 -> placed_all P slots1 ks2 is2 slots2 -> placed_all P slots (ks1 ++ ks2) (is1 ++ is2) slots2.
Proof. induction 1; intros; [done|]. cbn. econstructor; eauto. Qed.

Lemma placed_length P slots ks is_ slots' : placed_all P slots ks is_ slots' -> length is_ = length ks.
Proof. induction 1; cbn; congruence. Qed.

Lemma placed_all_pinned P slots ks is_ slots' :
  placed_all P slots ks is_ slots' -> forall v s, zget P v = Some true -> holds slots v s -> holds slots' v s.
Proof. induction 1; intros v s Hp Hv; [done|]. eapply IHplaced_all; [done|]. by eapply pl_pinned. Qed.

Lemma placed_all_defined P slots ks is_ slots' :
  placed_all P slots ks is_ slots' -> forall v s, holds slots' v s -> (exists s', holds slots v s') \/ exists k, k ∈ ks /\ v = k + 1.
Proof.
  induction 1 as [|slots k i slots1 ks is_ slots2 Hp Hr IH]; intros v s Hv; [by left; exists s|].
  destruct (IH v s Hv) as [[s' Hs]|(j & ? & ?)]; [|right; exists j; split; [set_solver | done]].
  destruct (pl_frame _ _ _ _ _ Hp v s' Hs) as [(-> & _)|(_ & ? & _)]; [right; exists k; split; [set_solver | done] | left; by exists s'].
Qed.

Context (ok : program_ok parsed bindings).
Context (prepared : forall k node, zget nodes k = Some node -> exists i, prepare k = Some i /\ i_node i = node /\
  CpuSimdExecutorSlotValid (full_executor_slot i) = true /\ CpuSimdExecutorSlotValid (tail_executor_slot i) = true).
Abbreviation stable := (stable_flags nodes).
Abbreviation n := (zlen nodes).
Abbreviation order := (execution_order stable n).

Section step.
Context (once : Z) (L : list Z) (P : list bool) (sizes : sized parsed (L, P)).
Context (uses : forall p k, zget order p = Some k -> node_used parsed once p k (L, P)).
Context (pins : forall v, zget P v = Some true -> zget L v = Some (zlen order)).

Record allocated (p : Z) (st : SlotState) : Prop := {
  al_slots : slots_ok n st;
  al_count : slot_count st <= p;
  al_defined : forall v s, holds (slot_by_value st) v s -> exists q, q < p /\ zget order q = Some (v - 1);
  al_live : forall q k node, q < p -> zget order q = Some k -> zget nodes k = Some node -> is_write node = false ->
              le_at L (k + 1) p -> exists s, holds (slot_by_value st) (k + 1) s;
}.

Lemma order_unique q q' k : zget order q = Some k -> zget order q' = Some k -> q = q'.
Proof using Type.
  intros [H1 H2]%zget_Some [H3 H4]%zget_Some. pose proof (NoDup_lookup _ _ _ _ (order_NoDup nodes) H2 H4). lia.
Qed.

(** The operands of the node at a position have a slot. *)
Lemma operands_held p st k node ref :
  allocated p st -> zget order p = Some k -> zget nodes k = Some node -> ref ∈ node_refs node ->
  1 <= ref <= k /\ exists s, holds (slot_by_value st) ref s.
Proof using ok uses.
  intros Ha Hp Hk Hr. destruct (value_edges nodes (ok_edges _ _ ok) k node ref Hk Hr) as [Hb (source & Hsource & Hw)].
  split; [done|]. apply zget_Some in Hp as [Hp0 Hp]. pose proof (take_drop_middle _ _ _ Hp) as E. symmetry in E.
  pose proof (order_topological nodes (ok_edges _ _ ok) _ _ _ node ref E Hk Hr) as Hin.
  apply elem_zget in Hin as [q Hq]. pose proof (zget_range _ _ _ Hq) as Hqr.
  assert (zlen (take (Z.to_nat p) order) = p) as Hlt by (unfold zlen at 1; rewrite length_take; apply lookup_lt_Some in Hp; lia).
  rewrite zget_take_lt in Hq by lia. replace ref with (ref - 1 + 1) by lia.
  eapply (al_live p st Ha q); [lia | done | done | done |]. rewrite Z.sub_add.
  assert (zget order p = Some k) as Hp' by (apply zget_Some; split; [done|exact Hp]).
  by apply (proj2 (uses p k Hp') node ref Hk Hr).
Qed.

Lemma not_dying_pinned p v : p < zlen order -> zget P v = Some true -> ~ dies L P p v.
Proof using pins. intros Hp Hv [H1 H2]. congruence. Qed.

(** An entry whose last use is not this one is used later. *)
Lemma later_use p v : 0 <= v <= n -> p < zlen order -> le_at L v p -> ~ dies L P p v -> le_at L v (p + 1).
Proof using sizes pins.
  intros Hv Hp (y & Hy & Hle) Hd. exists y. split; [done|]. destruct (Z.eq_dec y p) as [->|]; [|lia]. exfalso.
  destruct sizes as [_ Hs]. cbn [snd] in Hs. destruct (zget_is_Some P v) as [[] Hb]; [lia | | by apply Hd].
  apply pins in Hb. assert (zlen order = p) by congruence. lia.
Qed.

Record step_ok (p k : Z) (st : SlotState) (st' : SlotState) : Prop := {
  sk_allocated : allocated (p + 1) st';
  sk_placed : exists i, emitted st' = emitted st ++ [i] /\ placed P k (slot_by_value st) i (slot_by_value st') /\
                (n_op (i_node i) <> Op.Write -> 0 <= value_index i < slot_count st');
  sk_count : slot_count st <= slot_count st';
}.

Lemma place_write p k node st :
  allocated p st -> zget order p = Some k -> zget nodes k = Some node -> is_write node = true ->
  exists st', place_node parsed bindings read_stride output_full scalar_bytes L P st (p, k) = Some st' /\ step_ok p k st st'.
Proof using All.
  intros Ha Hp Hk Hw. unfold place_node. bind_step Hk. destruct (prepared k node Hk) as (i0 & Ei & Hn & Hv1 & Hv2). bind_step Ei.
  rewrite Hv1, Hv2. cbn [negb orb]. pose proof (operands_held p st k node) as Hheld.
  destruct (RemapNodeValueReferences_ok (slot_by_value st) (i_node i0)) as (node' & En & Hren).
  { rewrite Hn. intros ref Hr. destruct (Hheld ref Ha Hp Hk Hr) as [? ?]. split; [lia | done]. }
  bind_step En. rewrite Hw. pose proof (zget_range _ _ _ Hk) as Hkr. pose proof (zget_range _ _ _ Hp) as Hpr.
  set (st1 := emit st _).
  assert (slots_ok n st1) as Hok1 by (destruct (al_slots _ _ Ha); by split).
  assert (forall r, r ∈ NodeValueReferences node -> 1 <= r <= n) as Hrr.
  { intros r Hr. destruct (Z.eq_dec r 0) as [->|]; [|apply NodeValueReferences_elem in Hr; [|done]; destruct (Hheld r Ha Hp Hk Hr); lia].
    exfalso. by apply NodeValueReferences_nonzero in Hr. }
  destruct (release_operands_ok n L P sizes p _ st1 Hrr Hok1) as (st2 & E2 & Hok2 & Hc2 & He2 & H2).
  exists st2. split; [exact E2|]. assert (n_op node = Op.Write) as Hop by (unfold is_write in Hw; by apply bool_decide_eq_true in Hw).
  split; [split; [done | | |] | | rewrite Hc2; done].
  - rewrite Hc2. cbn. pose proof (al_count _ _ Ha). lia.
  - intros v s [Hv _]%H2. destruct (al_defined _ _ Ha v s Hv) as (q & Hq & ?). exists q. split; [lia | done].
  - intros q j nd Hq Hqo Hj Hjw Hle. assert (q <> p) as Hne by (intros ->; congruence).
    destruct (al_live _ _ Ha q j nd) as [s Hs]; try done; [lia | destruct Hle as (y & ? & ?); exists y; split; [done | lia] |].
    exists s. apply H2. split; [done|]. intros [_ [Hd _]]. destruct Hle as (y & Hy & ?). rewrite Hd in Hy. injection Hy as <-. lia.
  - exists (with_value_index (with_node i0 node') 0). split; [by rewrite He2|]. split; [|cbn; rewrite (ren_op _ _ _ Hren), Hn; congruence].
    split.
    + by exists node, i0, node'.
    + apply (so_distinct _ _ (al_slots _ _ Ha)).
    + intros v s [Hv _]%H2. right. split; [|split; [done | cbn; rewrite (ren_op _ _ _ Hren), Hn; congruence]].
      intros ->. destruct (al_defined _ _ Ha _ _ Hv) as (q & Hq & Hqo). replace (k + 1 - 1) with k in Hqo by lia.
      pose proof (order_unique _ _ _ Hqo Hp). lia.
    + intros v s Hpin Hv. apply H2. split; [done|]. intros [_ Hd]. by eapply not_dying_pinned; [|exact Hpin |]; [|exact Hd]; lia.
Qed.

Lemma place_value p k node st :
  allocated p st -> zget order p = Some k -> zget nodes k = Some node -> is_write node = false ->
  exists st', place_node parsed bindings read_stride output_full scalar_bytes L P st (p, k) = Some st' /\ step_ok p k st st'.
Proof using All.
  intros Ha Hp Hk Hw. unfold place_node. bind_step Hk. destruct (prepared k node Hk) as (i0 & Ei & Hn & Hv1 & Hv2). bind_step Ei.
  rewrite Hv1, Hv2. cbn [negb orb]. pose proof (operands_held p st k node) as Hheld.
  destruct (RemapNodeValueReferences_ok (slot_by_value st) (i_node i0)) as (node' & En & Hren).
  { rewrite Hn. intros ref Hr. destruct (Hheld ref Ha Hp Hk Hr) as [? ?]. split; [lia | done]. }
  bind_step En. rewrite Hw. pose proof (zget_range _ _ _ Hk) as Hkr. pose proof (zget_range _ _ _ Hp) as Hpr.
  pose proof (zlen_order nodes) as Hlo. pose proof (ok_count _ _ ok) as Hcount. unfold kMaxComputeNodeCount in Hcount.
  assert (forall r, r ∈ NodeValueReferences node -> r ∈ node_refs node) as Hin.
  { intros r Hr. apply NodeValueReferences_elem; [|done]. intros ->. by apply NodeValueReferences_nonzero in Hr. }
  assert (forall r, r ∈ NodeValueReferences node -> 1 <= r <= n) as Hrr.
  { intros r Hr. destruct (Hheld r Ha Hp Hk (Hin r Hr)). lia. }
  assert (k + 1 ∉ NodeValueReferences node) as Hself.
  { intros Hr. destruct (Hheld _ Ha Hp Hk (Hin _ Hr)). lia. }
  assert (is_u32 (k + 1)) as H32 by (unfold is_u32; lia). rewrite (wrap32_small _ H32).
  destruct (aliased_value_ok n L P sizes p (NodeValueReferences node) Hrr) as (aliased & Eal & Hal). bind_step Eal.
  destruct (take_slot_ok n st aliased (al_slots _ _ Ha)) as (slot & st1 & Et & Hok1 & Hc1 & He1 & Hslot & Hfree & H1 & Hno1).
  { pose proof (al_count _ _ Ha). lia. }
  { intros Hne. destruct Hal as [?|[Hr _]]; [done|]. apply (Hheld aliased Ha Hp Hk (Hin _ Hr)). }
  bind_step Et.
  destruct (assign_ok n st1 (k + 1) slot Hok1 ltac:(lia) Hslot Hfree Hno1) as (st2 & E2 & Hok2 & Hc2 & He2 & H2). bind_step E2.
  set (i := with_value_index (with_node i0 node') slot). 
  assert (slots_ok n (emit st2 i)) as Hok2' by (destruct Hok2; by split).
  destruct (release_operands_ok n L P sizes p _ (emit st2 i) Hrr Hok2') as (st3 & E3 & Hok3 & Hc3 & He3 & H3). bind_step E3.
  cbn [emit slot_by_value slot_count emitted] in Hc3, He3, H3.
  destruct (dies_at_ok n L P sizes p (k + 1)) as (b & Eb & Hb); [lia|]. bind_step Eb.
  assert (exists st4, (if b then release st3 (k + 1) else Some st3) = Some st4 /\ slots_ok n st4 /\ slot_count st4 = slot_count st3 /\ emitted st4 = emitted st3 /\
            forall u t, holds (slot_by_value st4) u t <-> holds (slot_by_value st3) u t /\ ~ (u = k + 1 /\ dies L P p (k + 1)))
    as (st4 & E4 & Hok4 & Hc4 & He4 & H4).
  { destruct b.
    - destruct (release_slot_ok n st3 (k + 1) slot Hok3) as (st4 & ? & ? & ? & ? & H4).
      { apply H3. split; [apply H2; by left | by intros [? _]]. }
      exists st4. split; [done|]. split; [done|]. split; [done|]. split; [done|]. intros u t. rewrite H4. split; [naive_solver|].
      intros [? Hnd]. split; [done|]. intros ->. apply Hnd. split; [done | by apply Hb].
    - exists st3. split; [done|]. split; [done|]. split; [done|]. split; [done|]. intros u t. split; [|tauto]. intros Hu. split; [done|].
      intros [_ Hd]. by apply Hb in Hd. }
  exists st4. split; [exact E4|].
  assert (forall u t, holds (slot_by_value st4) u t <->
            ((u = k + 1 /\ t = slot) \/ (u <> k + 1 /\ holds (slot_by_value st) u t /\ u <> aliased)) /\
            ~ (u ∈ NodeValueReferences node /\ dies L P p u) /\ ~ (u = k + 1 /\ dies L P p (k + 1))) as G.
  { intros u t. rewrite H4, H3, H2, H1. tauto. }
  assert (n_op node' = n_op node) as Hop by (by rewrite (ren_op _ _ _ Hren), Hn).
  split; [split; [done | | |] | | lia].
  - pose proof (al_count _ _ Ha). lia.
  - intros u t [[[-> _]|(_ & Hu & _)] _]%G; [exists p; split; [lia|]; by replace (k + 1 - 1) with k by lia|].
    destruct (al_defined _ _ Ha _ _ Hu) as (q & ? & ?). exists q. split; [lia | done].
  - intros q j nd Hq Hqo Hj Hjw Hle.
    assert (~ dies L P p (j + 1)) as Hnd by (intros [Hd _]; destruct Hle as (y & Hy & ?); rewrite Hd in Hy; injection Hy as <-; lia).
    destruct (Z.eq_dec q p) as [->|Hne].
    + assert (j = k) as -> by congruence. exists slot. apply G. split; [by left|]. split; [by intros [? _] | by intros [_ ?]].
    + destruct (al_live _ _ Ha q j nd) as [s Hs]; try done; [lia | destruct Hle as (y & ? & ?); exists y; split; [done | lia] |].
      assert (j <> k) as Hjk by (intros ->; by apply Hne, (order_unique q p k)).
      exists s. apply G. split; [right; split; [lia|]; split; [done|]|].
      * intros Heq. rewrite <- Heq in Hal. destruct Hal as [?|[_ Hd]]; [|done]. pose proof (so_bound _ _ (al_slots _ _ Ha) _ _ Hs). lia.
      * split; [by intros [_ ?] | intros [? _]; lia].
  - exists i. split; [by rewrite He4, He3, He2, He1|]. split; [|intros _; cbn; lia].
    assert (holds (slot_by_value st2) (k + 1) slot) as Hnew by (apply H2; by left).
    split.
    + by exists node, i0, node'.
    + apply (so_distinct _ _ (al_slots _ _ Ha)).
    + intros v s Hv. apply G in Hv as [[[-> ->]|(Hv1' & Hv2' & Hv3)] _].
      * left. split; [done|]. split; [done|]. cbn. rewrite Hop. unfold is_write in Hw. by apply bool_decide_eq_false in Hw.
      * right. split; [done|]. split; [done|]. intros _. cbn. intros ->.
        assert (holds (slot_by_value st2) v slot) as Hv2s by (apply H2; right; split; [done|]; by apply H1).
        by apply Hv1', (so_distinct _ _ Hok2 _ _ slot).
    + intros v s Hpin Hv. assert (~ dies L P p v) as Hnd by (apply not_dying_pinned; [lia | done]).
      assert (v <> k + 1) as Hvk.
      { intros ->. destruct (al_defined _ _ Ha _ _ Hv) as (q & Hq & Hqo). replace (k + 1 - 1) with k in Hqo by lia.
        pose proof (order_unique _ _ _ Hqo Hp). lia. }
      apply G. split; [right; split; [done|]; split; [done|]|].
      * intros ->. destruct Hal as [->|[_ Hd]]; [|done]. pose proof (so_bound _ _ (al_slots _ _ Ha) _ _ Hv). lia.
      * split; [by intros [_ ?] | by intros [? _]].
Qed.

Lemma place_all :
  exists st, for_each (place_node parsed bindings read_stride output_full scalar_bytes L P)
      {| slot_by_value := replicate (Z.to_nat (n + 1)) None; free_slots := []; slot_count := 0; emitted := [] |}
      (zip (range 0 (zlen order)) order) = Some st /\
    allocated (zlen order) st /\ placed_all P (replicate (Z.to_nat (n + 1)) None) order (emitted st) (slot_by_value st) /\
    Forall (fun i => n_op (i_node i) <> Op.Write -> 0 <= value_index i < slot_count st) (emitted st).
Proof using All.
  assert (forall v s, ~ holds (replicate (Z.to_nat (n + 1)) None) v s) as Hnone.
  { intros v s [_ [? _]%lookup_replicate_1]%zget_Some. done. }
  destruct (for_each_inv (fun d st => allocated (zlen d) st /\
      placed_all P (replicate (Z.to_nat (n + 1)) None) (map snd d) (emitted st) (slot_by_value st) /\
      Forall (fun i => n_op (i_node i) <> Op.Write -> 0 <= value_index i < slot_count st) (emitted st))
    (place_node parsed bindings read_stride output_full scalar_bytes L P)
    (zip (range 0 (zlen order)) order)
    {| slot_by_value := replicate (Z.to_nat (n + 1)) None; free_slots := []; slot_count := 0; emitted := [] |}) as (st & E & Ha & Hp & Hf).
  - split; [|split; [constructor | constructor]]. split; cbn [slot_by_value free_slots slot_count emitted].
    + split; cbn [slot_by_value free_slots slot_count emitted]; try lia.
      * rewrite zlen_replicate. pose proof (zlen_nonneg nodes). lia.
      * intros v s Hv. by apply Hnone in Hv.
      * intros v v' s Hv. by apply Hnone in Hv.
      * constructor.
      * set_solver.
    + change (0 <= 0). lia.
    + intros v s Hv. by apply Hnone in Hv.
    + intros q k nd Hq Hqo. apply zget_range in Hqo. change (zlen (@nil (Z * Z))) with 0 in Hq. lia.
  - intros d [p k] rest st El (Ha & Hp & Hf). apply zip_range_prefix in El as (-> & Hk & _ & _).
    assert (0 <= k < n) as Hkr by (by apply order_elem, zget_elem with (i := zlen d)).
    destruct (zget_is_Some nodes k Hkr) as [node En].
    assert (exists st', place_node parsed bindings read_stride output_full scalar_bytes L P st (zlen d, k) = Some st' /\ step_ok (zlen d) k st st')
      as (st' & E' & Hs) by (destruct (is_write node) eqn:Ew; [by eapply place_write | by eapply place_value]).
    exists st'. split; [done|]. rewrite zlen_app. change (zlen [(zlen d, k)]) with 1. split; [apply Hs|].
    destruct (sk_placed _ _ _ _ Hs) as (i & Ei & Hpl & Hi). rewrite Ei, map_app. split; [by eapply placed_snoc|].
    apply Forall_app. split; [|by constructor; [|constructor]]. eapply Forall_impl; [exact Hf|]. cbn. intros j Hj Hne.
    specialize (Hj Hne). pose proof (sk_count _ _ _ _ Hs). lia.
  - exists st. split; [done|].
    rewrite zlen_zip_range in Ha. split; [done|]. split; [|done]. by rewrite snd_zip_range in Hp.
Qed.
End step.

(** The plan of a valid program. *)
Record plan_ok (plan : PreparedPlan) (P : list bool) (slots1 slots2 : list (option Z)) : Prop := {
  po_once : placed_all P (replicate (Z.to_nat (n + 1)) None) (stable_group nodes) (take (Z.to_nat (once_count plan)) (instructions plan)) slots1;
  po_loop : placed_all P slots1 (loop_group nodes) (drop (Z.to_nat (once_count plan)) (instructions plan)) slots2;
  po_index : Forall (fun i => n_op (i_node i) <> Op.Write -> 0 <= value_index i < value_slot_count plan) (instructions plan);
  po_pins : forall k node ref, k ∈ loop_group nodes -> zget nodes k = Some node -> ref ∈ node_refs node -> stable_value nodes ref ->
              zget P ref = Some true;
  po_first : forall v s, holds slots1 v s -> stable_value nodes v;
  po_length : zlen (instructions plan) = n;
  po_reads : plan_reads plan = wrap32 (read_count bindings);
  po_writes : plan_writes plan = wrap32 (write_count bindings);
  po_slots : 0 < value_slot_count plan;
  po_uses_index : uses_index plan = existsb (fun node => bool_decide (n_op node = Op.Index)) nodes;
}.

(** A valid program has a node with a value, the one its write stores. *)
Lemma some_value : exists j node, zget nodes j = Some node /\ is_write node = false.
Proof using All.
  destruct (filter (fun node => n_op node = Op.Write) nodes) as [|node l] eqn:Ef.
  { pose proof (ok_writes _ _ ok) as Hws. rewrite Ef in Hws. by destruct (ok_some_write _ _ ok). }
  assert (node ∈ filter (fun node => n_op node = Op.Write) nodes) as [Hop Hin]%list_elem_of_filter by (rewrite Ef; set_solver).
  apply elem_zget in Hin as [k Hk].
  assert (n_lhs node ∈ node_refs node) as Hr by (destruct node as [op l' r x f]; cbn [n_op] in Hop; subst op; cbn; set_solver).
  destruct (value_edges nodes (ok_edges _ _ ok) k node _ Hk Hr) as [_ (source & Hs & Hsw)]. eauto.
Qed.

Lemma placed_all_elem P slots ks is_ slots' j :
  placed_all P slots ks is_ slots' -> j ∈ ks ->
  exists i, i ∈ is_ /\ exists node, zget nodes j = Some node /\ n_op (i_node i) = n_op node.
Proof using All.
  induction 1 as [|slots j' i slots1' ks is_ slots2' Hpl Hr' IH]; intros Hj; [set_solver|].
  apply elem_of_cons in Hj as [->|Hj]; [|destruct (IH Hj) as (i' & ? & ?); exists i'; split; [set_solver | done]].
  exists i. split; [set_solver|]. destruct (pl_instruction _ _ _ _ _ Hpl) as (nd & i0 & nd' & Hnd & Hi0 & Hren & ->).
  exists nd. split; [done|]. cbn. rewrite (ren_op _ _ _ Hren). destruct (prepared _ _ Hnd) as (i1 & Hi1 & Hnode & _).
  rewrite Hi0 in Hi1. injection Hi1 as <-. by rewrite Hnode.
Qed.

Theorem plan_built : exists plan P slots1 slots2,
  BuildPreparedPlan parsed bindings read_stride output_full scalar_bytes = Some plan /\ plan_ok plan P slots1 slots2.
Proof using All.
  unfold BuildPreparedPlan. rewrite (ok_writes _ _ ok). pose proof (ok_some_write _ _ ok) as Hw0.
  rewrite (proj2 (Z.eqb_neq _ _) Hw0), Z.eqb_refl, zlen_order, Z.eqb_refl, count_stable. cbn [orb negb].
  destruct (value_uses_spec parsed (ok_edges _ _ ok) (zlen (stable_group nodes))) as (L & P & Eu & Hsizes & Huses & Hpins).
  bind_step Eu. destruct (place_all (zlen (stable_group nodes)) L P Hsizes Huses Hpins) as (st & Ep & Ha & Hp & Hf). rewrite zlen_order in Ep. bind_step Ep.
  assert (zlen (emitted st) = n) as Hlen by (apply placed_length in Hp; rewrite <- (zlen_order nodes); unfold zlen at 1 3; by rewrite Hp).
  assert (0 < slot_count st) as Hcount.
  { destruct some_value as (j & node & Hj & Hw). assert (j ∈ execution_order stable n) as Hin by (apply order_elem; by apply zget_range in Hj).
    destruct (placed_all_elem _ _ _ _ _ _ Hp Hin) as (i & Hi & nd & Hnd & Hop). rewrite Hj in Hnd. injection Hnd as <-.
    rewrite Forall_forall in Hf. specialize (Hf i Hi). apply bool_decide_eq_false in Hw. rewrite Hop in Hf. specialize (Hf Hw). lia. }
  rewrite Hlen, Z.eqb_refl, (proj2 (Z.eqb_neq (slot_count st) 0)) by lia. cbn [andb negb].
  destruct (placed_app _ _ (stable_group nodes) (loop_group nodes) _ _ Hp) as (slots1 & H1 & H2).
  eexists _, P, slots1, _. split; [reflexivity|].
  split; cbn [instructions value_slot_count once_count plan_reads plan_writes uses_index]; try done;
    [replace (Z.to_nat (zlen (stable_group nodes))) with (length (stable_group nodes)) by (unfold zlen; lia); done
    |replace (Z.to_nat (zlen (stable_group nodes))) with (length (stable_group nodes)) by (unfold zlen; lia); done | |].
  - intros k node ref Hk Hn Hr Hs. apply elem_zget in Hk as [q Hq].
    assert (zget (execution_order stable n) (zlen (stable_group nodes) + q) = Some k) as Ho.
    { rewrite order_eq. rewrite zget_app_r; [done | by apply zget_range in Hq as [? _]]. }
    destruct (Huses _ _ Ho) as [_ Hu]. destruct (Hu node ref Hn Hr) as [_ Hpin]. apply Hpin; [|done].
    apply zget_range in Hq. lia.
  - intros v s Hv. destruct (placed_all_defined _ _ _ _ _ H1 v s Hv) as [[s' Hs]|(k & Hk & ->)].
    + apply zget_Some in Hs as [_ [? _]%lookup_replicate_1]. done.
    + by apply list_elem_of_filter in Hk as [? _].
Qed.
End placed.
