(* ===== verification/CpuExecFacts.v ===== *)
(** * CpuExecFacts: one instruction of the CPU backend

    The packed fields of a prepared instruction, what an operation on a lane depends on,
    and the simulation: if every live value is in its slot on the live lanes, an
    instruction puts the value of its node into its slot, stores it, or fails exactly when
    the node fails on one of the live tiles. *)
From stdpp Require Import base numbers list option strings sets.
From Stdlib Require Import ZArith Lia.
From S2P Require Import Prelude IrModel CpuLanes CpuPlan CpuExec CpuPlanFacts.

(** ** Packed fields *)
Lemma operand_fraction_set i j v j' :
  0 <= j < 3 -> 0 <= j' < 3 -> 0 <= v < 256 ->
  operand_fraction (set_operand_fraction i j v) j' = if j =? j' then v else operand_fraction i j'.
Proof.
  intros Hj Hj' Hv. unfold set_operand_fraction, operand_fraction. 
  destruct (Z.geb_spec j 3); [lia|]. destruct (Z.ltb_spec j' 3); [|lia]. cbn [with_packed binding_and_operand_fractions].
  set (x := binding_and_operand_fractions i). change 256 with (2 ^ 8) in *.
  assert (wrap64 (Z.shiftl v (32 + 8 * j)) = Z.shiftl v (32 + 8 * j)) as ->.
  { apply wrap64_small. rewrite Z.shiftl_mul_pow2 by lia. assert (2 ^ (32 + 8 * j) <= 2 ^ 48) by (apply Z.pow_le_mono_r; lia).
    unfold is_u64. change (2 ^ 48) with 281474976710656 in *. change (2 ^ 8) with 256 in *. nia. }
  assert (forall k, 8 <= k -> Z.testbit v k = false) as Hhigh
    by (intros k Hk; rewrite <- (Z.mod_small v (2 ^ 8)) by lia; by rewrite Z.mod_pow2_bits_high by lia).
  apply Z.bits_inj'. intros n Hn. destruct (Z.ltb_spec n 8) as [Hlt|Hge].
  2: { rewrite Z.mod_pow2_bits_high by lia. destruct (j =? j'); [|by rewrite Z.mod_pow2_bits_high by lia].
       rewrite <- (Z.mod_small v (2 ^ 8)) by lia. by rewrite Z.mod_pow2_bits_high by lia. }
  rewrite Z.mod_pow2_bits_low by lia. rewrite Z.shiftr_spec, Z.lor_spec, Z.land_spec, Z.shiftl_spec by lia.
  assert (j = 0 \/ j = 1 \/ j = 2) as [->|[->| ->]] by lia; assert (j' = 0 \/ j' = 1 \/ j' = 2) as [->|[->| ->]] by lia; cbn [Z.eqb Pos.eqb];
    rewrite ?Z.mod_pow2_bits_low, ?Z.shiftr_spec by lia;
    assert (n = 0 \/ n = 1 \/ n = 2 \/ n = 3 \/ n = 4 \/ n = 5 \/ n = 6 \/ n = 7) as Hcase by lia;
    repeat (destruct Hcase as [->|Hcase] || subst n);
    match goal with |- context [Z.testbit (U64_MAX - wrap64 ?m) ?k] =>
      let b := eval vm_compute in (Z.testbit (U64_MAX - wrap64 m) k) in
      replace (Z.testbit (U64_MAX - wrap64 m) k) with b by reflexivity end;
    rewrite ?andb_true_r, ?andb_false_r, ?orb_false_l; try reflexivity;
    first [rewrite (Z.testbit_neg_r v) by lia | rewrite Hhigh by lia]; by rewrite orb_false_r.
Qed.

Lemma set_operand_fraction_node i j v : i_node (set_operand_fraction i j v) = i_node i.
Proof. unfold set_operand_fraction. by destruct (j >=? 3). Qed.

Lemma binding_slot_set i slot : is_u32 slot -> binding_slot (set_binding_slot i slot) = slot.
Proof.
  intros Hs. unfold binding_slot, set_binding_slot. cbn [with_packed binding_and_operand_fractions]. rewrite (wrap32_small slot Hs).
  unfold wrap32. change 4294967296 with (2 ^ 32). apply Z.bits_inj'. intros n Hn. unfold is_u32 in Hs.
  destruct (Z.ltb_spec n 32).
  - rewrite Z.mod_pow2_bits_low, Z.lor_spec, Z.land_spec by lia.
    change 18446744069414584320 with (Z.shiftl 4294967295 32). rewrite (Z.shiftl_spec_low _ 32 n) by lia. by rewrite andb_false_r.
  - rewrite Z.mod_pow2_bits_high by lia. rewrite <- (Z.mod_small slot (2 ^ 32)) by lia. by rewrite Z.mod_pow2_bits_high by lia.
Qed.

(** ** Signed numbers *)
Section width.
Context (w : Z) (width : w = 32 \/ w = 64).

Lemma to_signed_idem v : to_signed w (to_signed w v) = to_signed w v.
Proof.
  unfold to_signed. rewrite Z.sub_add, Z.mod_mod; [done|]. assert (0 < 2 ^ w) by (apply Z.pow_pos_nonneg; lia). lia.
Qed.

Lemma signed_range v : - 2 ^ (w - 1) <= to_signed w v <= 2 ^ (w - 1) - 1.
Proof.
  unfold to_signed. assert (2 ^ w = 2 * 2 ^ (w - 1)) as E by (rewrite <- Z.pow_succ_r by lia; f_equal; lia).
  assert (0 < 2 ^ (w - 1)) by (apply Z.pow_pos_nonneg; lia).
  pose proof (Z.mod_pos_bound (v + 2 ^ (w - 1)) (2 ^ w) ltac:(lia)). lia.
Qed.

Lemma to_signed_fixpoint v : - 2 ^ (w - 1) <= v <= 2 ^ (w - 1) - 1 -> to_signed w v = v.
Proof.
  intros Hv. unfold to_signed. assert (2 ^ w = 2 * 2 ^ (w - 1)) as E by (rewrite <- Z.pow_succ_r by lia; f_equal; lia).
  rewrite Z.mod_small by lia. lia.
Qed.

Lemma to_signed_eq a b : to_signed w a = to_signed w b <-> unsigned w a = unsigned w b.
Proof.
  unfold to_signed, unsigned. assert (0 < 2 ^ w) by (apply Z.pow_pos_nonneg; lia). split; intros E.
  - assert ((a + 2 ^ (w - 1)) mod 2 ^ w = (b + 2 ^ (w - 1)) mod 2 ^ w) as E' by lia.
    assert (a = a + 2 ^ (w - 1) - 2 ^ (w - 1)) as -> by lia. assert (b = b + 2 ^ (w - 1) - 2 ^ (w - 1)) as -> by lia.
    rewrite (Zminus_mod (a + _)), (Zminus_mod (b + _)), E'. done.
  - rewrite (Zplus_mod a), (Zplus_mod b), E. done.
Qed.

Lemma unsigned_to_signed a : unsigned w (to_signed w a) = unsigned w a.
Proof. apply to_signed_eq, to_signed_idem. Qed.
End width.

(** ** What a prepared instruction holds *)
Section prepare_facts.
Context (parsed : ParsedIR) (bindings : BindingPlan) (read_stride : Z -> option Z) (output_full : Z -> bool) (sb : Z).
Abbreviation nodes := (ir_nodes parsed).

Definition prep_ok (node : ParsedNode) (i : PreparedInstruction) : Prop :=
  i_node i = node /\ tail_executor_slot i = op_code (n_op node) /\
  match n_op node with
  | Op.Param => full_executor_slot i = op_code (n_op node) /\ exists binding, zget (ir_bindings parsed) (n_aux node) = Some binding /\
      immediate i = le_value (take (Z.to_nat (b_element_bytes binding)) (b_value_bytes binding))
  | Op.Read => exists slot stride, zget (slots bindings) (n_aux node) = Some slot /\ binding_slot i = slot /\ read_stride slot = Some stride /\
      full_executor_slot i = if stride =? sb then kCpuSimdReadFullExecutorSlot else kCpuSimdReadStridedFullExecutorSlot
  | Op.ReadUniform => full_executor_slot i = op_code (n_op node) /\ zget (slots bindings) (n_aux node) = Some (binding_slot i)
  | Op.ReadAt => full_executor_slot i = op_code (n_op node) /\ zget (slots bindings) (n_aux node) = Some (binding_slot i) /\
      zget (slots bindings) (n_lhs node) = Some (immediate i) /\ element_bytes i = n_rhs node
  | Op.Write => exists binding, zget (slots bindings) (n_aux node) = Some (binding_slot i) /\
      zget (ir_bindings parsed) (n_aux node) = Some binding /\ element_bytes i = b_element_bytes binding /\
      full_executor_slot i = if output_full (binding_slot i) then kCpuSimdWriteFullExecutorSlot else op_code (n_op node)
  | _ => full_executor_slot i = op_code (n_op node) /\
      forall j ref source, zget (node_refs node) j = Some ref -> zget nodes (ref - 1) = Some source ->
        operand_fraction i j = fraction_bits (n_format source)
  end.

Lemma node_refs_length node : zlen (node_refs node) = Z.of_nat (arity (n_op node)) /\ zlen (node_refs node) <= 3.
Proof.
  destruct node as [op l r x f]. rewrite node_refs_arity. cbn [n_op]. pose proof (arity_le op). unfold zlen. rewrite length_take. cbn. lia.
Qed.

(** The loop over the operands sets the fraction bits of every source. *)
Lemma set_fractions node i0 :
  (forall ref, ref ∈ node_refs node -> exists source, zget nodes (ref - 1) = Some source /\ 0 <= fraction_bits (n_format source) < 256) ->
  exists i, for_each (fun i '(index, value) =>
      if negb (value =? 0) && (value <=? zlen nodes) then
        source ← zget nodes (value - 1); Some (set_operand_fraction i index (fraction_bits (n_format source)))
      else Some i) i0 (zip (range 0 (zlen (node_refs node))) (node_refs node)) = Some i /\
    i_node i = i_node i0 /\ tail_executor_slot i = tail_executor_slot i0 /\ full_executor_slot i = full_executor_slot i0 /\
    forall j ref source, zget (node_refs node) j = Some ref -> zget nodes (ref - 1) = Some source ->
      operand_fraction i j = fraction_bits (n_format source).
Proof.
  intros Hs. destruct (node_refs_length node) as [_ H3].
  edestruct (for_each_inv (fun d i => i_node i = i_node i0 /\ tail_executor_slot i = tail_executor_slot i0 /\
      full_executor_slot i = full_executor_slot i0 /\
      forall j ref source, (j, ref) ∈ d -> zget nodes (ref - 1) = Some source -> operand_fraction i j = fraction_bits (n_format source)))
    as (i & E & H1 & H2 & H4 & H5); [| | exists i; split; [exact E|]; split; [done|]; split; [done|]; split; [done|];
      intros j ref source Hj; apply H5; by apply zip_range_zget].
  - split; [done|]. split; [done|]. split; [done|]. set_solver.
  - intros d [j ref] rest i El (H1 & H2 & H4 & H5). apply zip_range_prefix in El as (-> & Hj & Hpre & _).
    destruct (Hs ref (zget_elem _ _ _ Hj)) as (source & Hsource & Hfr). pose proof (zget_range _ _ _ Hsource).
    destruct (Z.eqb_spec ref 0) as [|_]; [lia|]. destruct (Z.leb_spec ref (zlen nodes)); [|lia]. cbn [negb andb]. bind_step Hsource.
    eexists. split; [reflexivity|]. pose proof (zget_range _ _ _ Hj).
    split; [by rewrite set_operand_fraction_node|]. unfold set_operand_fraction at 1 2. split; [by case_match|]. split; [by case_match|].
    intros j' ref' source' [Hin|Hin%list_elem_of_singleton]%elem_of_app Hs'.
    + assert (0 <= j' < zlen d) by (apply Hpre in Hin as [? Hin]; apply zget_range in Hin; lia).
      rewrite operand_fraction_set by lia. destruct (Z.eqb_spec (zlen d) j'); [lia|]. by eapply H5.
    + injection Hin as -> ->. rewrite operand_fraction_set by lia. rewrite Z.eqb_refl. congruence.
Qed.

Lemma op_code_slot op : CpuSimdBaseExecutorSlot (op_code op) = op_code op.
Proof. by destruct op. Qed.
Lemma op_code_valid op : CpuSimdExecutorSlotValid (op_code op) = true.
Proof. by destruct op. Qed.

(** What the preparation needs of a node. *)
Definition preparable (node : ParsedNode) : Prop :=
  match n_op node with
  | Op.Param => is_Some (zget (ir_bindings parsed) (n_aux node))
  | Op.Read => exists slot, zget (slots bindings) (n_aux node) = Some slot /\ is_u32 slot /\ is_Some (read_stride slot)
  | Op.ReadUniform => exists slot, zget (slots bindings) (n_aux node) = Some slot /\ is_u32 slot
  | Op.ReadAt => exists slot, zget (slots bindings) (n_aux node) = Some slot /\ is_u32 slot /\ is_Some (zget (slots bindings) (n_lhs node))
  | Op.Write => exists slot, zget (slots bindings) (n_aux node) = Some slot /\ is_u32 slot /\ is_Some (zget (ir_bindings parsed) (n_aux node))
  | _ => True
  end.

#[local] Ltac fields := cbn [i_node tail_executor_slot full_executor_slot immediate element_bytes with_immediate with_element_bytes with_full_executor set_binding_slot with_packed].

Lemma PrepareInstruction_ok k node :
  program_ok parsed bindings -> zget nodes k = Some node -> preparable node ->
  exists i, PrepareInstruction parsed bindings read_stride output_full sb k = Some i /\ prep_ok node i /\
    CpuSimdExecutorSlotValid (full_executor_slot i) = true /\ CpuSimdExecutorSlotValid (tail_executor_slot i) = true.
Proof.
  intros Hok Hk Hp. unfold PrepareInstruction. bind_step Hk. rewrite op_code_slot. cbv zeta.
  edestruct (set_fractions node) as (i & E & Hn & Ht & Hf & Hfr).
  { intros ref Hr. destruct (value_edges nodes (ok_edges _ _ Hok) k node ref Hk Hr) as [_ (source & Hs & _)].
    exists source. split; [done|]. eapply (ok_fractions _ _ Hok), zget_elem, Hs. }
  bind_step E. cbn [i_node tail_executor_slot full_executor_slot] in Hn, Ht, Hf. unfold prep_ok, preparable in *.
  pose proof (op_code_valid (n_op node)) as Hcv.
  destruct (n_op node) eqn:Eop; try (exists i; rewrite Hf, Ht; split; [reflexivity|]; split; [|split; exact Hcv]; split; [exact Hn|]; split; [reflexivity|]; split; [reflexivity | exact Hfr]).
  - destruct Hp as [binding Hb]. bind_step Hb. eexists. split; [reflexivity|].
    fields. rewrite Hf, Ht. split; [|done]. split; [done|]. split; [done|]. split; [done|]. by exists binding.
  - destruct Hp as (slot & Hs & Hu & [stride Hst]). bind_step Hs. pose proof (binding_slot_set i slot Hu) as Hbs. rewrite Hbs. bind_step Hst.
    eexists. split; [reflexivity|]. fields. rewrite Ht. split; [|split; [by destruct (stride =? sb)|done]]. split; [done|]. split; [done|].
    exists slot, stride. split; [done|]. split; [exact Hbs|]. done.
  - destruct Hp as (slot & Hs & Hu & [binding Hb]). bind_step Hs. bind_step Hb. pose proof (binding_slot_set i slot Hu) as Hbs.
    change (binding_slot (with_element_bytes (set_binding_slot i slot) (b_element_bytes binding))) with (binding_slot (set_binding_slot i slot)).
    rewrite Hbs. eexists. split; [reflexivity|].
    destruct (output_full slot) eqn:Eo; fields; rewrite ?Ht, ?Hf; (split; [|done]); (split; [done|]); (split; [done|]);
      exists binding; rewrite Hs; (split; [f_equal; symmetry; exact Hbs|]); (split; [done|]); (split; [done|]);
      match goal with |- context [output_full (binding_slot ?x)] => change (binding_slot x) with (binding_slot (set_binding_slot i slot)) end;
      by rewrite Hbs, Eo.
  - destruct Hp as (slot & Hs & Hu & [islot Hi]). bind_step Hs. bind_step Hi. pose proof (binding_slot_set i slot Hu) as Hbs.
    eexists. split; [reflexivity|]. fields. rewrite Ht, Hf. split; [|done]. split; [done|]. split; [done|]. split; [done|]. rewrite Hs, Hi.
    split; [|done]. f_equal. symmetry. exact Hbs.
  - destruct Hp as (slot & Hs & Hu). bind_step Hs. pose proof (binding_slot_set i slot Hu) as Hbs. eexists. split; [reflexivity|]. fields. rewrite Ht, Hf.
    split; [|done]. split; [done|]. split; [done|]. split; [done|]. rewrite Hs. f_equal. symmetry. exact Hbs.
Qed.
End prepare_facts.

(** ** What an operation on a lane depends on *)
Section lanes.
Context (w : Z) (width : w = 32 \/ w = 64) (domain : ComputeDomain) (math : LaneMath).

Definition value_op (op : Op.IrOp) : bool :=
  match op with Op.Param | Op.Read | Op.ReadUniform | Op.ReadAt | Op.Constant | Op.Index | Op.Write => false | _ => true end.

#[local] Ltac arities :=
  repeat match goal with H : (?n <= arity ?op)%nat -> _ |- _ =>
    first [specialize (H ltac:(vm_compute; lia)) | clear H] end.

(** Operands that an operation does not tell apart. *)
Definition lane_agree (op : Op.IrOp) (a b : Z) : Prop := if reads_wide domain op then a = b else to_signed w a = to_signed w b.

Lemma lane_value_agree node node' fa fb fc fa' fb' fc' a b c a' b' c' :
  n_op node' = n_op node -> n_format node' = n_format node -> (ConstShiftOp (n_op node) = true -> n_aux node' = n_aux node) ->
  ((1 <= arity (n_op node))%nat -> fa' = fa /\ lane_agree (n_op node) a' a) ->
  ((2 <= arity (n_op node))%nat -> fb' = fb /\ lane_agree (n_op node) b' b) ->
  ((3 <= arity (n_op node))%nat -> fc' = fc /\ lane_agree (n_op node) c' c) ->
  lane_value w (is_fixed domain) math node' fa' fb' fc' a' b' c' = lane_value w (is_fixed domain) math node fa fb fc a b c.
Proof.
  intros Eo Ef Ex. unfold lane_agree, reads_wide, writes_wide. autounfold with lanes. rewrite Eo, Ef. unfold is_fixed.
  destruct (bool_decide (domain = Fixed)); destruct (n_op node) eqn:Eop; cbn [wide_always wide_in_fixed orb andb negb];
    try match goal with |- context [bool_decide (?op = Op.Atan2)] =>
      let b := eval vm_compute in (bool_decide (op = Op.Atan2)) in change (bool_decide (op = Op.Atan2)) with b; cbn [negb] end;
    intros Ha Hb Hc; arities; try specialize (Ex eq_refl);
    repeat match goal with H : _ = _ /\ _ |- _ => destruct H as [-> H] end;
    repeat match goal with H : ?x = ?y |- _ => is_var x; subst x end;
    unfold compare_lane, compare_unsigned, stored in *;
    repeat match goal with H : to_signed w ?x = to_signed w ?y |- _ => rewrite ?H; rewrite ?(proj1 (to_signed_eq w width x y) H); clear H end;
    rewrite ?Ex; reflexivity.
Qed.

(** A scalar result is a scalar. *)
Lemma wrapped_is_scalar x v : x = to_signed w v -> to_signed w x = x.
Proof. intros ->. by apply to_signed_idem. Qed.

Lemma small_is_scalar v : -1 <= v <= 1 -> to_signed w v = v.
Proof.
  intros Hv. apply to_signed_fixpoint; [done|]. assert (1 <= 2 ^ (w - 1) - 1) by (destruct width as [->| ->]; done). lia.
Qed.

Lemma select_is_scalar (t : bool) x y : to_signed w x = x -> to_signed w y = y -> to_signed w (if t then x else y) = (if t then x else y).
Proof. by destruct t. Qed.

Lemma quot_is_scalar a b :
  lane_fault w Op.DivSigned a b = None -> to_signed w (Z.quot (stored w a) (stored w b)) = Z.quot (stored w a) (stored w b).
Proof.
  unfold lane_fault, stored, FixedMin. pose proof (signed_range w width a) as Ha. pose proof (signed_range w width b) as Hb.
  set (x := to_signed w a) in *. set (y := to_signed w b) in *. set (m := 2 ^ (w - 1)) in *.
  destruct (Z.eqb_spec y 0) as [|Hy]; [done|]. destruct ((x =? - m) && (y =? -1)) eqn:E; [done|]. intros _.
  apply to_signed_fixpoint; [done|]. fold m.
  assert (Z.abs (Z.quot x y) <= Z.abs x) as Hq.
  { rewrite <- Z.quot_abs by done. apply Z.quot_le_upper_bound; lia || (assert (1 <= Z.abs y) by lia; nia). }
  destruct (Z.eq_dec y (-1)) as [->|Hne1].
  - pose proof (Z.quot_opp_r x 1 ltac:(lia)) as Hm1. rewrite Z.quot_1_r in Hm1. change (- (1)) with (-1) in Hm1. rewrite Hm1.
    apply andb_false_iff in E as [E|E]; to_prop; lia.
  - destruct (Z.eq_dec y 1) as [->|Hne2]; [rewrite Z.quot_1_r; lia|].
    assert (Z.abs (Z.quot x y) * 2 <= Z.abs x) as Hq2.
    { rewrite <- Z.quot_abs by done. pose proof (Z.mul_quot_le (Z.abs x) (Z.abs y) ltac:(lia) ltac:(lia)).
      pose proof (Z.quot_pos (Z.abs x) (Z.abs y) ltac:(lia) ltac:(lia)). nia. }
    lia.
Qed.

Lemma lane_value_scalar node fa fb fc a b c :
  value_op (n_op node) = true -> writes_wide domain (n_op node) = false -> lane_fault w (n_op node) a b = None ->
  let v := lane_value w (is_fixed domain) math node fa fb fc a b c in to_signed w v = v.
Proof.
  unfold writes_wide. autounfold with lanes. destruct (is_fixed domain); destruct (n_op node) eqn:Eop; cbn [value_op wide_always wide_in_fixed orb andb];
    intros Hv Hw Hf; try discriminate; cbv zeta;
    unfold AddSat, SubSat, clamp_scalar, compare_lane, compare_unsigned, Sign, BooleanValue, Abs, AbsMagnitude, NegPositiveFixed, ShiftArithmeticRight,
      ValueMin, ValueMax, MinUnsigned, MaxUnsigned;
    try (eapply wrapped_is_scalar; reflexivity);
    try (by apply quot_is_scalar);
    repeat first [apply select_is_scalar | by apply to_signed_idem | by apply small_is_scalar];
    try (by apply to_signed_idem); try (apply to_signed_fixpoint; [done|]; unfold FixedMin, FixedMax;
      assert (1 <= 2 ^ (w - 1)) by (destruct width as [->| ->]; done); lia).
Qed.
End lanes.
