(* ===== verification/CpuMapFacts.v ===== *)
(** * CpuMapFacts: a prepared run computes the map

    The vectors of tiles, the slots shared by the values and the instructions run once
    give what [CpuExec] says: the run is rejected exactly when a tile fails, and otherwise
    writes the outputs of the reference. *)
From stdpp Require Import base numbers list option strings sets.
From Stdlib Require Import ZArith Lia.
From S2P Require Import Prelude IrModel CpuLanes CpuPlan CpuExec CpuPlanFacts CpuExecFacts.

(** ** Loops *)
Lemma for_each_id {A S} (f : S -> A -> option S) s l : (forall s x, x ∈ l -> f s x = Some s) -> for_each f s l = Some s.
Proof. intros H. revert s H. induction l as [|x l IH]; intros s H; [done|]. cbn. rewrite H by set_solver. cbn. apply IH. set_solver. Qed.

Lemma for_each_commute_one {A S} (g : S -> option S) (F : S -> A -> option S) xs s :
  (forall a s, a ∈ xs -> (s1 ← g s; F s1 a) = (s1 ← F s a; g s1)) ->
  (s1 ← g s; for_each F s1 xs) = (s1 ← for_each F s xs; g s1).
Proof.
  revert s. induction xs as [|a xs IH]; intros s Hc; cbn; [by destruct (g s)|].
  pose proof (Hc a s ltac:(set_solver)) as Ha. destruct (F s a) as [s1|]; cbn in Ha |- *.
  - rewrite <- IH, <- Ha by set_solver. by destruct (g s).
  - destruct (g s) as [s1|]; cbn in *; [by rewrite Ha | done].
Qed.

Lemma for_each_fuse {A S} (F G : S -> A -> option S) xs s :
  (forall a a' s, a ∈ xs -> a' ∈ xs -> (s1 ← G s a; F s1 a') = (s1 ← F s a'; G s1 a)) ->
  for_each (fun s a => s1 ← F s a; G s1 a) s xs = (s1 ← for_each F s xs; for_each G s1 xs).
Proof.
  intros Hc. revert s. induction xs as [|a xs IH]; intros s; [done|]. cbn. destruct (F s a) as [s1|]; cbn; [|done].
  specialize (IH ltac:(intros; apply Hc; set_solver)).
  pose proof (for_each_commute_one (fun s => G s a) F xs s1 ltac:(intros; apply Hc; set_solver)) as Hone. cbn in Hone.
  assert ((s2 ← G s1 a; for_each (fun s a => s1 ← F s a; G s1 a) s2 xs) =
          (s2 ← (s2 ← G s1 a; for_each F s2 xs); for_each G s2 xs)) as ->
    by (destruct (G s1 a); cbn; [apply IH | done]).
  rewrite Hone. by destruct (for_each _ s1 xs).
Qed.

(** Steps of different columns commute: a matrix of steps can run by rows or by columns. *)
Lemma for_each_interchange {A B S} (f : S -> A -> B -> option S) xs ys s :
  NoDup ys ->
  (forall a a' b b' s, a ∈ xs -> a' ∈ xs -> b ∈ ys -> b' ∈ ys -> b <> b' -> (s1 ← f s a b; f s1 a' b') = (s1 ← f s a' b'; f s1 a b)) ->
  for_each (fun s a => for_each (fun s b => f s a b) s ys) s xs = for_each (fun s b => for_each (fun s a => f s a b) s xs) s ys.
Proof.
  intros Hnd. revert s. induction ys as [|b ys IH]; intros s Hc; cbn [for_each].
  - apply for_each_id. done.
  - apply NoDup_cons in Hnd as [Hb Hnd].
    rewrite (for_each_fuse (fun s a => f s a b) (fun s a => for_each (fun s b => f s a b) s ys)).
    + destruct (for_each _ s xs); cbn; [apply IH; [done | intros; apply Hc; set_solver] | done].
    + intros a a' s' Ha Ha'. symmetry. apply (for_each_commute_one (fun s => f s a' b) (fun s b' => f s a b')).
      intros b' s2 Hb'. apply Hc; set_solver.
Qed.

(** ** Bytes *)
Lemma list_inserts_commute {A} (l k k' : list A) i i' :
  (i + length k <= i' \/ i' + length k' <= i)%nat -> list_inserts i k (list_inserts i' k' l) = list_inserts i' k' (list_inserts i k l).
Proof.
  intros Hd. apply list_eq. intros j.
  destruct (decide (j < length l)%nat) as [Hj|Hj].
  2: { rewrite !lookup_ge_None_2; [done | rewrite !length_inserts; lia | rewrite !length_inserts; lia]. }
  destruct (decide (i <= j < i + length k)%nat) as [Hi|Hi]; destruct (decide (i' <= j < i' + length k')%nat) as [Hi'|Hi']; [lia | | |].
  - rewrite list_lookup_inserts by (rewrite ?length_inserts; lia).
    destruct (decide (j < i')%nat); [rewrite list_lookup_inserts_lt by lia | rewrite list_lookup_inserts_ge by lia];
      by rewrite list_lookup_inserts by lia.
  - rewrite (list_lookup_inserts (list_inserts i k l)) by (rewrite ?length_inserts; lia).
    destruct (decide (j < i)%nat); [rewrite list_lookup_inserts_lt by lia | rewrite list_lookup_inserts_ge by lia];
      by rewrite list_lookup_inserts by lia.
  - assert (forall l : list A, list_inserts i k l !! j = l !! j) as E1
      by (intros l0; destruct (decide (j < i)%nat); [by rewrite list_lookup_inserts_lt by lia | by rewrite list_lookup_inserts_ge by lia]).
    assert (forall l : list A, list_inserts i' k' l !! j = l !! j) as E2
      by (intros l0; destruct (decide (j < i')%nat); [by rewrite list_lookup_inserts_lt by lia | by rewrite list_lookup_inserts_ge by lia]).
    by rewrite E1, E2, E2, E1.
Qed.

Lemma length_le_bytes n v : length (le_bytes n v) = n.
Proof. revert v. induction n as [|n IH]; intros v; cbn; [done | by rewrite IH]. Qed.

Lemma store_Some bytes size offset v :
  0 <= offset -> offset + size <= zlen bytes ->
  store bytes size offset v = Some (list_inserts (Z.to_nat offset) (le_bytes (Z.to_nat size) v) bytes).
Proof. intros H1 H2. unfold store. destruct (Z.leb_spec 0 offset); [|lia]. destruct (Z.leb_spec (offset + size) (zlen bytes)); [done|lia]. Qed.

Lemma store_inv bytes size offset v bytes' :
  store bytes size offset v = Some bytes' ->
  0 <= offset /\ offset + size <= zlen bytes /\ bytes' = list_inserts (Z.to_nat offset) (le_bytes (Z.to_nat size) v) bytes.
Proof. unfold store. case_match eqn:E; [|done]. to_prop. naive_solver. Qed.

Lemma zlen_inserts {A} (l k : list A) i : zlen (list_inserts i k l) = zlen l.
Proof. unfold zlen. by rewrite length_inserts. Qed.

(** The lengths of the output buffers. *)
Definition shape (outs : list (list Z)) : list Z := map zlen outs.

Lemma shape_zget outs s bytes : zget outs s = Some bytes -> zget (shape outs) s = Some (zlen bytes).
Proof. intros H. unfold shape. by rewrite zget_map, H. Qed.
Lemma shape_some outs outs' s bytes : shape outs = shape outs' -> zget outs' s = Some bytes -> exists b, zget outs s = Some b /\ zlen b = zlen bytes.
Proof.
  intros E H%shape_zget. rewrite <- E in H. unfold shape in H. rewrite zget_map in H. destruct (zget outs s) as [b|]; [|done].
  exists b. split; [done|]. by injection H.
Qed.

Lemma store_at_shape slot size outs offset v outs' : store_at slot size outs offset v = Some outs' -> shape outs' = shape outs.
Proof.
  unfold store_at. destruct (zget outs slot) as [bytes|] eqn:E; [|done]. cbn.
  destruct (store bytes size offset v) as [b'|] eqn:Es; [|done]. cbn. intros [Hr ->]%zset_inv. apply store_inv in Es as (_ & _ & ->).
  unfold shape. apply list_eq. intros i.
  change ((zlen <$> <[Z.to_nat slot := list_inserts (Z.to_nat offset) (le_bytes (Z.to_nat size) v) bytes]> outs) !! i = (zlen <$> outs) !! i).
  rewrite !list_lookup_fmap.
  destruct (decide (i = Z.to_nat slot)) as [->|Hne]; [|by rewrite list_lookup_insert_ne by done].
  rewrite list_lookup_insert_eq by (unfold zlen in Hr; lia). apply zget_Some in E as [_ ->]. cbn. by rewrite zlen_inserts.
Qed.

Lemma store_at_Some slot size outs offset v bytes :
  zget outs slot = Some bytes -> 0 <= offset -> offset + size <= zlen bytes -> exists outs', store_at slot size outs offset v = Some outs'.
Proof.
  intros E H1 H2. unfold store_at. bind_step E. rewrite store_Some by done. cbn. rewrite zset_Some by (by apply zget_range in E). eauto.
Qed.

(** Stores to different slots, or to disjoint ranges of a slot, commute. *)
Lemma store_at_commute s z off v s' z' off' v' outs :
  0 <= z -> 0 <= z' -> (s <> s' \/ off + z <= off' \/ off' + z' <= off) ->
  (o ← store_at s z outs off v; store_at s' z' o off' v') = (o ← store_at s' z' outs off' v'; store_at s z o off v).
Proof.
  intros Hz Hz' Hd. unfold store_at.
  destruct (zget outs s) as [b|] eqn:Es; destruct (zget outs s') as [b'|] eqn:Es'; cbn.
  - pose proof (zget_range _ _ _ Es) as Hr. pose proof (zget_range _ _ _ Es') as Hr'.
    destruct (Z.eq_dec s s') as [->|Hne].
    + rewrite Es in Es'. injection Es' as <-. destruct (store b z off v) as [c|] eqn:Ec; destruct (store b z' off' v') as [c'|] eqn:Ec'; cbn;
        rewrite ?zset_Some by done; cbn; rewrite ?zget_insert_eq by done; cbn; [| | |done].
      * apply store_inv in Ec as (H1 & H2 & ->), Ec' as (H3 & H4 & ->). rewrite !store_Some by (rewrite ?zlen_inserts; lia). cbn.
        rewrite !zset_Some by (rewrite zlen_insert; done). rewrite !list_insert_insert_eq. do 2 f_equal.
        apply list_inserts_commute. rewrite !length_le_bytes. lia.
      * apply store_inv in Ec as (H1 & H2 & ->). destruct (store (list_inserts _ _ b) z' off' v') as [c'|] eqn:E; [|done].
        apply store_inv in E as (H3 & H4 & _). rewrite zlen_inserts in H4. by rewrite store_Some in Ec' by done.
      * apply store_inv in Ec' as (H1 & H2 & ->). destruct (store (list_inserts _ _ b) z off v) as [c|] eqn:E; [|done].
        apply store_inv in E as (H3 & H4 & _). rewrite zlen_inserts in H4. by rewrite store_Some in Ec by done.
    + destruct (store b z off v) as [c|] eqn:Ec; destruct (store b' z' off' v') as [c'|] eqn:Ec'; cbn; rewrite ?zset_Some by done; cbn;
        rewrite ?(zget_insert_ne _ s s'), ?(zget_insert_ne _ s' s) by lia; rewrite ?Es, ?Es'; cbn; rewrite ?Ec, ?Ec'; cbn; try done.
      rewrite !zset_Some by (rewrite zlen_insert; done). f_equal. apply list_insert_insert_ne. lia.
  - destruct (store b z off v) as [c|]; cbn; [|done]. rewrite zset_Some by (by apply zget_range in Es). cbn.
    destruct (Z.eq_dec s s') as [->|Hne]; [congruence|]. rewrite zget_insert_ne by (pose proof (zget_range _ _ _ Es); lia). by rewrite Es'.
  - destruct (store b' z' off' v') as [c|]; cbn; [|done]. rewrite zset_Some by (by apply zget_range in Es'). cbn.
    destruct (Z.eq_dec s' s) as [->|Hne]; [congruence|]. rewrite zget_insert_ne by (pose proof (zget_range _ _ _ Es'); lia). by rewrite Es.
  - done.
Qed.

Lemma load_Some bytes size offset : 0 <= offset -> offset + size <= zlen bytes -> exists v, load bytes size offset = Some v.
Proof. intros H1 H2. unfold load. destruct (Z.leb_spec 0 offset); [|lia]. destruct (Z.leb_spec (offset + size) (zlen bytes)); [eauto | lia]. Qed.

Lemma load_scalar_Some w bytes offset : 0 <= offset -> offset + scalar_bytes w <= zlen bytes -> exists v, load_scalar w bytes offset = Some v.
Proof. intros H1 H2. unfold load_scalar. destruct (load_Some bytes (scalar_bytes w) offset H1 H2) as [v ->]. cbn. eauto. Qed.

Lemma load_nonneg bytes size offset v : load bytes size offset = Some v -> Forall (fun b => 0 <= b) bytes -> 0 <= v.
Proof.
  unfold load. case_match; [|done]. intros E Hb. injection E as <-.
  assert (Forall (fun b => 0 <= b) (take (Z.to_nat size) (drop (Z.to_nat offset) bytes))) as Hf by by apply Forall_take, Forall_drop.
  induction Hf; cbn; lia.
Qed.

Lemma byte_offset (t stride : Z) (len : Z) : 0 <= t -> 0 <= stride -> t * stride <= len -> len <= U64_MAX -> ByteOffset t stride = t * stride.
Proof. intros. unfold ByteOffset. apply wrap64_small. unfold is_u64. nia. Qed.

(** Loads of the lanes of a vector. *)
Lemma mapM_range (f : Z -> option Z) (g : Z -> Z) live n :
  (forall lane, 0 <= lane < n -> exists v, f lane = Some v /\ (lane < live -> v = g lane)) ->
  exists l, mapM f (range 0 n) = Some l /\ forall lane, 0 <= lane < n -> lane < live -> zget l lane = Some (g lane).
Proof.
  assert (forall lo, 0 <= lo -> (forall lane, lo <= lane < n -> exists v, f lane = Some v /\ (lane < live -> v = g lane)) ->
    exists l, mapM f (range lo n) = Some l /\ forall lane, lo <= lane < n -> lane < live -> zget l (lane - lo) = Some (g lane)) as G.
  { intros lo. remember (Z.to_nat (n - lo)) as c eqn:Ec. revert lo Ec. induction c as [|c IH]; intros lo Ec H0 H.
    - exists []. rewrite range_nil by lia. split; [done | lia].
    - rewrite range_cons by lia. destruct (H lo ltac:(lia)) as (v & Ev & Hv). destruct (IH (lo + 1)) as (l & El & Hl); [lia | lia | intros; apply H; lia|].
      exists (v :: l). cbn [mapM]. rewrite Ev. cbn [mbind option_bind]. rewrite El. split; [done|]. intros lane Hr Hlive.
      destruct (Z.eq_dec lane lo) as [->|Hne]; [rewrite Z.sub_diag; cbn; by rewrite (Hv Hlive)|].
      change (v :: l) with ([v] ++ l). rewrite zget_app_ge by (change (zlen [v]) with 1; lia). change (zlen [v]) with 1.
      replace (lane - lo - 1) with (lane - (lo + 1)) by lia. apply Hl; lia. }
  intros H. destruct (G 0 ltac:(lia) H) as (l & El & Hl). exists l. split; [done|]. intros lane Hr Hlive. rewrite <- Hl by lia. f_equal. lia.
Qed.

(** ** The values of a tile *)
Section map.
Context (w : Z) (width : w = 32 \/ w = 64) (domain : ComputeDomain) (math : LaneMath) (view : CpuSimdBindingView).
Context (parsed : ParsedIR) (bindings : BindingPlan) (ok : program_ok parsed bindings).
Abbreviation nodes := (ir_nodes parsed).
Abbreviation value_of := (tile_value w domain math view parsed bindings).
Abbreviation fault_of := (node_fault w domain).

Definition total_value (env : list Z) (tile : Z) (node : ParsedNode) : Z := default 0 (value_of env tile node).
Definition prefix_env (tile : Z) (ns : list ParsedNode) : list Z := fold_left (fun env node => env ++ [total_value env tile node]) ns [0].
Definition env_of (tile : Z) : list Z := prefix_env tile nodes.
Definition value_at (tile v : Z) : Z := default 0 (zget (env_of tile) v).

Lemma prefix_env_snoc tile ns node : prefix_env tile (ns ++ [node]) = prefix_env tile ns ++ [total_value (prefix_env tile ns) tile node].
Proof using All. unfold prefix_env. by rewrite fold_left_app. Qed.

Lemma zlen_prefix_env tile ns : zlen (prefix_env tile ns) = zlen ns + 1.
Proof using All. induction ns as [|node ns IH] using rev_ind; [done|]. rewrite prefix_env_snoc, !zlen_app, IH. change (zlen [?x]) with 1. lia. Qed.

Lemma prefix_env_app tile ns ns' v : v <= zlen ns -> zget (prefix_env tile (ns ++ ns')) v = zget (prefix_env tile ns) v.
Proof using All.
  intros Hv. induction ns' as [|node ns' IH] using rev_ind; [by rewrite app_nil_r|].
  rewrite app_assoc, prefix_env_snoc. pose proof (zlen_nonneg ns'). rewrite zget_app_l by (rewrite zlen_prefix_env, zlen_app; lia). exact IH.
Qed.

Lemma operand_value_ext env env' node :
  (forall ref, ref ∈ node_refs node -> zget env ref = zget env' ref) ->
  forall j, operand_value env node j = operand_value env' node j.
Proof using All.
  intros He j. unfold operand_value. destruct (zget (node_refs node) j) as [ref|] eqn:E; [|done]. cbn. by rewrite (He ref (zget_elem _ _ _ E)).
Qed.

Lemma tile_value_ext env env' tile node :
  (forall ref, ref ∈ node_refs node -> zget env ref = zget env' ref) -> value_of env tile node = value_of env' tile node.
Proof using All. intros He. unfold tile_value. by rewrite !(operand_value_ext env env' node He). Qed.

Lemma node_fault_ext env env' node :
  (forall ref, ref ∈ node_refs node -> zget env ref = zget env' ref) -> fault_of env node = fault_of env' node.
Proof using All. intros He. unfold node_fault. by rewrite !(operand_value_ext env env' node He). Qed.

(** The nodes before node [k], its value, and the values it reads. *)
Lemma node_split k node : zget nodes k = Some node ->
  nodes = take (Z.to_nat k) nodes ++ node :: drop (S (Z.to_nat k)) nodes /\ zlen (take (Z.to_nat k) nodes) = k.
Proof using All.
  intros H. pose proof (zget_range _ _ _ H) as Hr. apply zget_Some in H as [H0 H]. split; [symmetry; by apply take_drop_middle|].
  unfold zlen in *. rewrite length_take. lia.
Qed.

Lemma prefix_agrees tile k node ref : zget nodes k = Some node -> ref ∈ node_refs node ->
  zget (prefix_env tile (take (Z.to_nat k) nodes)) ref = zget (env_of tile) ref.
Proof using All.
  intros Hk Hr. destruct (node_split k node Hk) as [E Hl]. destruct (value_edges nodes (ok_edges _ _ ok) k node ref Hk Hr) as [Hb _].
  unfold env_of. rewrite E at 2. symmetry. apply prefix_env_app. lia.
Qed.

Lemma env_node tile k node : zget nodes k = Some node -> zget (env_of tile) (k + 1) = Some (total_value (env_of tile) tile node).
Proof using All.
  intros Hk. destruct (node_split k node Hk) as [E Hl]. unfold env_of at 1. rewrite E. 
  replace (take (Z.to_nat k) nodes ++ node :: drop (S (Z.to_nat k)) nodes) with ((take (Z.to_nat k) nodes ++ [node]) ++ drop (S (Z.to_nat k)) nodes)
    by (by rewrite <- app_assoc).
  rewrite prefix_env_app by (rewrite zlen_app; change (zlen [node]) with 1; lia).
  rewrite prefix_env_snoc, zget_app_mid by (rewrite zlen_prefix_env; lia). f_equal. unfold total_value. f_equal.
  apply tile_value_ext. intros ref Hr. by apply (prefix_agrees tile k node).
Qed.

Lemma value_at_node tile k node : zget nodes k = Some node -> value_at tile (k + 1) = total_value (env_of tile) tile node.
Proof using All. intros Hk. unfold value_at. by rewrite (env_node tile k node Hk). Qed.

Lemma operand_value_at tile k node j ref : zget nodes k = Some node -> zget (node_refs node) j = Some ref ->
  operand_value (env_of tile) node j = value_at tile ref.
Proof using All. intros Hk Hj. unfold operand_value, value_at. by rewrite Hj. Qed.

(** A stable value is the same on every tile. *)
Lemma stable_value_at tile tile' v : stable_value nodes v -> value_at tile v = value_at tile' v.
Proof using All.
  destruct (stable_flags_spec nodes) as (Hl & H0 & Hf).
  pattern v. apply (well_founded_ind (Z.lt_wf 0)). clear v. intros v IH Hs.
  pose proof (zget_range _ _ _ Hs) as Hr. assert (v <> 0) as Hne by (intros ->; unfold stable_value in Hs; congruence).
  destruct (zget_is_Some nodes (v - 1)) as [node Hk]; [lia|].
  assert (v = (v - 1) + 1) as Ev by lia. set (k := v - 1) in *. clearbody k. subst v.
  rewrite !(value_at_node _ _ _ Hk). assert (forall ref, ref ∈ node_refs node -> value_at tile ref = value_at tile' ref) as Hrefs.
  { intros ref Hin. destruct (value_edges nodes (ok_edges _ _ ok) _ node ref Hk Hin). apply IH; [lia|]. by apply (stable_refs nodes k node ref (ok_edges _ _ ok)). }
  pose proof Hs as Hst. unfold stable_value in Hst. rewrite (Hf _ _ Hk) in Hst. injection Hst as Hst.
  apply StableNode_refs in Hst as (Hw & Hn1 & Hn2 & Hn3 & _).
  assert (forall j, operand_value (env_of tile) node j = operand_value (env_of tile') node j) as Ho.
  { intros j. destruct (zget (node_refs node) j) as [ref|] eqn:Ej; [|unfold operand_value; by rewrite Ej].
    rewrite !(operand_value_at _ _ _ _ _ Hk Ej). by apply Hrefs, zget_elem with (i := j). }
  unfold total_value. f_equal. unfold tile_value. rewrite !Ho. unfold is_write in Hw. apply bool_decide_eq_false in Hw.
  destruct (n_op node); done.
Qed.

Lemma not_stable_op k node : zget nodes k = Some node ->
  n_op node = Op.Read \/ n_op node = Op.ReadAt \/ n_op node = Op.Index \/ n_op node = Op.Write -> ~ stable_value nodes (k + 1).
Proof using All.
  intros Hk Hop Hs. destruct (stable_flags_spec nodes) as (_ & _ & Hf). unfold stable_value in Hs. rewrite (Hf _ _ Hk) in Hs. injection Hs as Hs.
  apply StableNode_refs in Hs as (Hw & H1 & H2 & H3 & _). unfold is_write in Hw. apply bool_decide_eq_false in Hw. naive_solver.
Qed.

(** ** The reference of a tile *)
Context (outs0 : list (list Z)) (fits : view_fits w view parsed bindings outs0).
Definition tile_ok (tile : Z) : Prop := 0 <= tile < tile_count view.
Definition wstore (tile : Z) (outs : list (list Z)) (node : ParsedNode) : option (list (list Z)) :=
  tile_store w view parsed bindings (env_of tile) tile node outs.
Definition tile_effect (outs : list (list Z)) (tile : Z) : option (list (list Z)) := for_each (wstore tile) outs nodes.
Definition fault_at (tile : Z) (node : ParsedNode) : option string := fault_of (env_of tile) node.
Definition first_of (tile : Z) (ns : list ParsedNode) : option string :=
  foldr (fun node rest => match fault_at tile node with Some r => Some r | None => rest end) None ns.

Lemma first_of_None tile ns : first_of tile ns = None <-> forall node, node ∈ ns -> fault_at tile node = None.
Proof using All.
  unfold first_of. induction ns as [|node ns IH]; cbn [foldr]; [set_solver|]. destruct (fault_at tile node) eqn:E.
  - split; [done|]. intros H. rewrite (H node) in E by set_solver. done.
  - rewrite IH. set_solver.
Qed.

Lemma tile_value_some env tile node : node ∈ nodes -> tile_ok tile -> exists v, value_of env tile node = Some v.
Proof using All.
  intros Hin Ht. pose proof (fits_nodes _ _ _ _ _ fits node Hin) as Hf. unfold tile_value, node_fits, tile_ok in *.
  destruct (n_op node); try (eexists; reflexivity).
  - destruct Hf as [b Hb]. bind_step Hb. eauto.
  - destruct Hf as (slot & Hs & _ & (b & Hb & Hst & _ & _ & Hfit)). bind_step Hs. bind_step Hb. apply load_scalar_Some; [nia | apply Hfit; lia].
  - destruct Hf as (slot & islot & Hs & _ & (b & Hb & Hst & _ & _ & Hfit) & Hi & (ib & Hib & Hist & _ & Hbytes & Hifit)).
    bind_step Hs. bind_step Hb. bind_step Hi. bind_step Hib.
    destruct (load_Some (r_data ib) 4 (tile * r_stride ib)) as [ix Hix]; [nia | apply Hifit; lia|]. bind_step Hix.
    assert (0 <= ix) by (eapply load_nonneg; [exact Hix | eapply Forall_impl; [exact Hbytes | cbn; lia]]).
    destruct (Z.ltb_spec ix (n_rhs node)); [|eauto]. apply load_scalar_Some; [nia | apply Hfit; lia].
  - destruct Hf as (slot & Hs & _ & (b & Hb & Hst & _ & _ & Hfit)). bind_step Hs. bind_step Hb. apply load_scalar_Some; [lia | specialize (Hfit 0 ltac:(lia)); lia].
Qed.

Lemma stored_size_nonneg eb : 0 <= stored_size w eb.
Proof using All. unfold stored_size, scalar_bytes. destruct width as [->| ->]; repeat case_match; vm_compute; discriminate. Qed.

Lemma wstore_some tile outs node :
  node ∈ nodes -> tile_ok tile -> shape outs = shape outs0 -> exists outs', wstore tile outs node = Some outs' /\ shape outs' = shape outs0.
Proof using All.
  intros Hin Ht Hsh. unfold wstore, tile_store. unfold is_write. case_bool_decide as Hop; [|by exists outs].
  pose proof (fits_nodes _ _ _ _ _ fits node Hin) as Hf. unfold node_fits in Hf. rewrite Hop in Hf.
  destruct Hf as (slot & b & Hs & _ & Hb & (stride & bytes & Hst & Hby & Hsz & _ & Hfit)). bind_step Hs. bind_step Hb. bind_step Hst.
  destruct (shape_some _ _ _ _ Hsh Hby) as (bytes' & Hby' & Hlen). pose proof (stored_size_nonneg (b_element_bytes b)).
  destruct (store_at_Some slot (stored_size w (b_element_bytes b)) outs (tile * stride)
    (stored_value w (b_element_bytes b) (to_signed w (operand_value (env_of tile) node 0))) bytes' Hby') as [outs' E].
  - unfold tile_ok in Ht. nia.
  - rewrite Hlen. by apply Hfit.
  - exists outs'. split; [exact E|]. apply store_at_shape in E. congruence.
Qed.

Lemma tile_effect_some tile outs :
  tile_ok tile -> shape outs = shape outs0 -> exists outs', tile_effect outs tile = Some outs' /\ shape outs' = shape outs0.
Proof using All.
  intros Ht Hsh. unfold tile_effect. 
  destruct (for_each_inv (fun _ o => shape o = shape outs0) (wstore tile) nodes outs) as (o & E & Ho); [done | | by exists o].
  intros d node rest o E Ho. apply wstore_some; [rewrite E; set_solver | done | done].
Qed.

(** The sequential run of a tile: its first failure, or its stores. *)
Lemma reference_tile_eq tile outs :
  tile_ok tile -> shape outs = shape outs0 ->
  reference_tile w domain math view parsed bindings outs tile =
    match first_of tile nodes with Some reason => Some (Return reason) | None => Next <$> tile_effect outs tile end.
Proof using All.
  intros Ht Hsh. unfold reference_tile.
  assert (forall rest d o, nodes = d ++ rest -> shape o = shape outs0 ->
    for_loop (reference_node w domain math view parsed bindings tile) (prefix_env tile d, o) rest =
      match first_of tile rest with Some reason => Some (Return reason) | None => (fun o' => Next (env_of tile, o')) <$> for_each (wstore tile) o rest end) as G.
  { induction rest as [|node rest IH]; intros d o E Ho.
    - cbn. unfold env_of. by rewrite E, app_nil_r.
    - assert (zget nodes (zlen d) = Some node) as Hk by (rewrite E; by apply zget_app_mid).
      assert (node ∈ nodes) as Hin by by eapply zget_elem.
      assert (forall ref, ref ∈ node_refs node -> zget (prefix_env tile d) ref = zget (env_of tile) ref) as Hext.
      { intros ref Hr. rewrite <- (prefix_agrees tile (zlen d) node ref Hk Hr). rewrite E. unfold zlen. rewrite Nat2Z.id, take_app_length. done. }
      cbn [for_loop first_of foldr].
      assert (reference_node w domain math view parsed bindings tile (prefix_env tile d, o) node =
        match fault_at tile node with Some r => Some (Return r) | None =>
          value ← value_of (prefix_env tile d) tile node; o' ← wstore tile o node; Some (Next (prefix_env tile d ++ [value], o')) end) as ->.
      { unfold reference_node, fault_at. rewrite (node_fault_ext _ _ _ Hext). unfold wstore, tile_store. by rewrite (operand_value_ext _ _ _ Hext 0). }
      destruct (fault_at tile node) as [reason|] eqn:Ef; [done|].
      destruct (tile_value_some (prefix_env tile d) tile node Hin Ht) as [v Hv]. rewrite Hv. cbn [mbind option_bind].
      destruct (wstore_some tile o node Hin Ht Ho) as (o' & Ew & Ho'). rewrite Ew. cbn [mbind option_bind for_each]. rewrite Ew. cbn [mbind option_bind].
      assert (prefix_env tile d ++ [v] = prefix_env tile (d ++ [node])) as ->
        by (rewrite prefix_env_snoc; unfold total_value; by rewrite Hv).
      apply IH; [by rewrite <- app_assoc | done]. }
  pose proof (G nodes [] outs eq_refl Hsh) as G0. change (prefix_env tile []) with [0] in G0. rewrite G0. unfold tile_effect.
  destruct (first_of tile nodes); [done|]. by destruct (for_each (wstore tile) outs nodes).
Qed.

Lemma reference_run_eq begin count outs :
  0 <= begin -> 0 <= count -> begin + count <= tile_count view -> shape outs = shape outs0 ->
  (exists tile reason, begin <= tile < begin + count /\ first_of tile nodes = Some reason /\
     reference_run w domain math view parsed bindings begin count outs = Some (Return reason)) \/
  (forall tile, begin <= tile < begin + count -> first_of tile nodes = None) /\
    exists outs', for_each tile_effect outs (range begin (begin + count)) = Some outs' /\ shape outs' = shape outs0 /\
      reference_run w domain math view parsed bindings begin count outs = Some (Next outs').
Proof using All.
  intros Hb Hc He. unfold reference_run. remember (Z.to_nat count) as n eqn:En. revert begin count outs Hb Hc He En.
  induction n as [|n IH]; intros begin count outs Hb Hc He En Hsh.
  - right. split; [lia|]. exists outs. rewrite range_nil by lia. done.
  - rewrite range_cons by lia. cbn [for_loop for_each]. rewrite reference_tile_eq by (done || (unfold tile_ok; lia)).
    destruct (first_of begin nodes) as [reason|] eqn:Ef; [left; exists begin, reason; split; [lia|]; by split|].
    destruct (tile_effect_some begin outs) as (o & Eo & Ho); [unfold tile_ok; lia | done|]. rewrite Eo. cbn [fmap option_fmap option_map mbind option_bind].
    replace (begin + count) with (begin + 1 + (count - 1)) by lia.
    destruct (IH (begin + 1) (count - 1) o ltac:(lia) ltac:(lia) ltac:(lia) ltac:(lia) Ho) as [(t & r & Ht & Hr & E)|(Hno & o' & E & Ho' & Er)].
    + left. exists t, r. split; [lia|]. done.
    + right. split; [|by exists o']. intros t Ht. destruct (Z.eq_dec t begin) as [->|]; [done | apply Hno; lia].
Qed.

(** ** Slots of a run *)
Definition lane_ok (slot : ValueSlot) (lane v : Z) : Prop :=
  zget (data slot) lane = Some (to_signed w v) /\
  if wide_valid slot then zget (wide slot) lane = Some v else to_signed w v = v.

(** The live values of [D] are in their slots, lane by lane; lane [l] runs tile [tau l]. *)
Record good (D : Z -> Prop) (slot_total : Z) (slots : list (option Z)) (live : Z) (tau : Z -> Z) (m : Machine) : Prop := {
  gd_length : zlen (values m) = slot_total;
  gd_fault : fault m = None;
  gd_shape : shape (outputs m) = shape outs0;
  gd_values : forall v s, D v -> holds slots v s ->
    exists slot, zget (values m) s = Some slot /\ forall lane, 0 <= lane < live -> lane_ok slot lane (value_at (tau lane) v);
}.

Section sim.
Context (D : Z -> Prop) (total : Z) (slots : list (option Z)) (live : Z) (tau : Z -> Z).
Abbreviation good_here := (good D total slots live tau).

Lemma operand_lanes_ok op m v s :
  good_here m -> D v -> holds slots v s ->
  exists m' l, operand_lanes domain op m s = Some (m', l) /\ good_here m' /\ outputs m' = outputs m /\
    forall lane, 0 <= lane < live -> exists a, zget l lane = Some a /\ lane_agree w domain op a (value_at (tau lane) v).
Proof using All.
  intros Hg HD Hv. destruct (gd_values _ _ _ _ _ _ Hg v s HD Hv) as (slot & Hs & Hl). unfold operand_lanes, lane_agree.
  destruct (reads_wide domain op).
  - unfold materialize. rewrite Hs. cbn [mbind option_bind]. destruct (wide_valid slot) eqn:Ew; cbn [mbind option_bind].
    + rewrite Hs. cbn [mbind option_bind]. do 2 eexists. split; [reflexivity|]. split; [done|]. split; [done|].
      intros lane Hlane. destruct (Hl lane Hlane) as [_ Hw]. rewrite Ew in Hw. eauto.
    + pose proof (zget_range _ _ _ Hs) as Hr. rewrite zset_Some by done. cbn [mbind option_bind with_values values].
      rewrite zget_insert_eq by done. cbn [mbind option_bind wide]. do 2 eexists. split; [reflexivity|]. split; [|split; [done|]].
      * destruct Hg as [Hg1 Hg2 Hg3 Hg4]. split; cbn [with_values values fault outputs]; [by rewrite zlen_insert | done | done |].
        intros u t Hu Ht. destruct (Z.eq_dec t s) as [->|Hne]; [|rewrite zget_insert_ne by lia; by apply Hg4].
        rewrite zget_insert_eq by done. eexists. split; [reflexivity|]. intros lane Hlane.
        destruct (Hg4 u s Hu Ht) as (slot' & Hs' & Hl'). rewrite Hs in Hs'. injection Hs' as <-.
        destruct (Hl' lane Hlane) as [Hd Hw]. rewrite Ew in Hw. split; cbn; [done|]. by rewrite Hd, Hw.
      * intros lane Hlane. destruct (Hl lane Hlane) as [Hd Hw]. rewrite Ew in Hw. exists (value_at (tau lane) v). split; [by rewrite Hd, Hw | done].
  - rewrite Hs. cbn [mbind option_bind]. do 2 eexists. split; [reflexivity|]. split; [done|]. split; [done|].
    intros lane Hlane. destruct (Hl lane Hlane) as [Hd _]. eexists. split; [exact Hd|]. by apply to_signed_idem.
Qed.

Lemma read_operands_ok op refs refs' m acc :
  good_here m -> Forall2 (holds slots) refs refs' -> (forall ref, ref ∈ refs -> D ref) ->
  exists m' lanes, for_each (fun '(m, lanes) index => r ← operand_lanes domain op m index; Some (r.1, lanes ++ [r.2])) (m, acc) refs' = Some (m', acc ++ lanes) /\
    good_here m' /\ outputs m' = outputs m /\
    forall j ref lane, zget refs j = Some ref -> 0 <= lane < live ->
      exists l a, zget lanes j = Some l /\ zget l lane = Some a /\ lane_agree w domain op a (value_at (tau lane) ref).
Proof using All.
  intros Hg Hf. revert m acc Hg. induction Hf as [|ref s refs refs' Hh Hf IH]; intros m acc Hg HD.
  - exists m, []. cbn. rewrite app_nil_r. split; [done|]. split; [done|]. split; [done|]. intros j ref lane Hj. by apply zget_nil in Hj.
  - destruct (operand_lanes_ok op m ref s Hg (HD ref ltac:(set_solver)) Hh) as (m1 & l & E1 & Hg1 & Ho1 & Hl). cbn [for_each]. rewrite E1.
    cbn [mbind option_bind fst snd]. destruct (IH m1 (acc ++ [l]) Hg1) as (m2 & lanes & E2 & Hg2 & Ho2 & Hl2); [set_solver|].
    exists m2, (l :: lanes). rewrite E2. split; [by rewrite <- app_assoc|]. split; [done|]. split; [congruence|].
    intros j ref' lane Hj Hlane. destruct (Z.eq_dec j 0) as [->|Hne].
    + injection Hj as <-. destruct (Hl lane Hlane) as (a & ? & ?). by exists l, a.
    + change (ref :: refs) with ([ref] ++ refs) in Hj. pose proof (zget_range _ _ _ Hj). rewrite zget_app_ge in Hj by (change (zlen [ref]) with 1; lia).
      change (zlen [ref]) with 1 in Hj. destruct (Hl2 _ _ _ Hj Hlane) as (l' & a & ? & ? & ?). exists l', a.
      change (l :: lanes) with ([l] ++ lanes). rewrite zget_app_ge by (change (zlen [l]) with 1; lia). by change (zlen [l]) with 1.
Qed.

(** The machine after the slot of the node is set. *)
Section set.
Context (k vi : Z) (slots' : list (option Z)) (Hvi : 0 <= vi < total).
Context (Hframe : forall v s, holds slots' v s -> (v = k + 1 /\ s = vi) \/ (v <> k + 1 /\ holds slots v s /\ s <> vi)).

Lemma good_set m slot :
  good_here m -> (forall lane, 0 <= lane < live -> lane_ok slot lane (value_at (tau lane) (k + 1))) ->
  good D total slots' live tau (with_values m (<[Z.to_nat vi := slot]> (values m))).
Proof using All.
  intros [H1 H2 H3 H4] Hl. split; cbn [with_values values fault outputs]; [by rewrite zlen_insert | done | done |].
  intros v s HD [[-> ->]|(Hv & Hh & Hs)]%Hframe.
  - exists slot. rewrite zget_insert_eq by lia. done.
  - rewrite zget_insert_ne by lia. by apply H4.
Qed.

Lemma set_raw_ok m lanes :
  good_here m -> (forall lane, 0 <= lane < live -> zget lanes lane = Some (value_at (tau lane) (k + 1)) /\ to_signed w (value_at (tau lane) (k + 1)) = value_at (tau lane) (k + 1)) ->
  exists m', set_raw m vi lanes = Some m' /\ outputs m' = outputs m /\ good D total slots' live tau m'.
Proof using All.
  intros Hg Hl. unfold set_raw. destruct (zget_is_Some (values m) vi) as [old Eo]; [rewrite (gd_length _ _ _ _ _ _ Hg); lia|].
  rewrite Eo. cbn [mbind option_bind]. rewrite zset_Some by (rewrite (gd_length _ _ _ _ _ _ Hg); lia). cbn [mbind option_bind].
  eexists. split; [reflexivity|]. split; [done|]. apply good_set; [done|]. intros lane Hlane. destruct (Hl lane Hlane) as [H1 H2].
  split; cbn; [by rewrite H1, H2 | done].
Qed.

Lemma set_wide_ok m lanes :
  good_here m -> is_fixed domain = true -> (forall lane, 0 <= lane < live -> zget lanes lane = Some (value_at (tau lane) (k + 1))) ->
  exists m', set_wide w domain m vi lanes = Some m' /\ outputs m' = outputs m /\ good D total slots' live tau m'.
Proof using All.
  intros Hg Hf Hl. unfold set_wide. rewrite Hf. cbn [negb]. rewrite zset_Some by (rewrite (gd_length _ _ _ _ _ _ Hg); lia). cbn [mbind option_bind].
  eexists. split; [reflexivity|]. split; [done|]. apply good_set; [done|]. intros lane Hlane.
  split; cbn; [rewrite zget_map, (Hl lane Hlane); done | by apply Hl].
Qed.
End set.

Section value.
Context (read_stride : Z -> option Z) (output_full : Z -> bool).
Context (k : Z) (node : ParsedNode) (i0 : PreparedInstruction) (node' : ParsedNode) (vi : Z).
Context (Hk : zget nodes k = Some node) (Hprep : prep_ok parsed bindings read_stride output_full (scalar_bytes w) node i0).
Context (Hren : renamed slots node node') (Hdist : forall v v' s, holds slots v s -> holds slots v' s -> v = v').
Context (Hop : value_op (n_op node) = true).
Abbreviation i := (with_value_index (with_node i0 node') vi).

Lemma refs_fields : node_refs node' = take (arity (n_op node)) [n_lhs node'; n_rhs node'; n_aux node'].
Proof using All. destruct node' as [op l r x f] eqn:E. rewrite node_refs_arity. rewrite <- (ren_op _ _ _ Hren). done. Qed.

Lemma refs_held j ref s : zget (node_refs node) j = Some ref -> zget (node_refs node') j = Some s -> holds slots ref s.
Proof using All.
  intros [_ H1]%zget_Some [_ H2]%zget_Some. eapply Forall2_lookup_lr; [exact (ren_refs _ _ _ Hren) | exact H1 | exact H2].
Qed.

Lemma operand_fraction_format j ref : zget (node_refs node) j = Some ref -> operand_fraction i j = operand_format parsed node j.
Proof using All.
  intros Hj. destruct (value_edges nodes (ok_edges _ _ ok) k node ref Hk (zget_elem _ _ _ Hj)) as [_ (source & Hs & _)].
  unfold operand_format. rewrite Hj. cbn [mbind option_bind]. rewrite Hs. cbn [mbind option_bind default].
  change (operand_fraction i j) with (operand_fraction i0 j). destruct Hprep as (_ & _ & Hp).
  destruct (n_op node); try done; by eapply (proj2 Hp).
Qed.

Lemma operand_format_same j j' : zget (node_refs node) j = zget (node_refs node) j' -> operand_format parsed node j = operand_format parsed node j'.
Proof using All. unfold operand_format. by intros ->. Qed.

(** Two operands in one slot are one value. *)
Lemma same_slot j j' s : zget (node_refs node') j = Some s -> zget (node_refs node') j' = Some s ->
  zget (node_refs node) j = zget (node_refs node) j'.
Proof using All.
  intros H1 H2. assert (length (node_refs node) = length (node_refs node')) as Hlen by by eapply Forall2_length, (ren_refs _ _ _ Hren).
  destruct (zget_is_Some (node_refs node) j) as [r1 E1]; [apply zget_range in H1; unfold zlen in *; lia|].
  destruct (zget_is_Some (node_refs node) j') as [r2 E2]; [apply zget_range in H2; unfold zlen in *; lia|].
  rewrite E1, E2. f_equal. eapply Hdist; [by eapply refs_held | by eapply refs_held].
Qed.

Lemma ValueFractionBits_ok j s : zget (node_refs node') j = Some s -> ValueFractionBits i s = operand_format parsed node j.
Proof using All.
  intros Hj. assert (length (node_refs node) = length (node_refs node')) as Hlen by by eapply Forall2_length, (ren_refs _ _ _ Hren).
  assert (forall j' , zget (node_refs node') j' = Some s -> operand_fraction i j' = operand_format parsed node j) as G.
  { intros j' Hj'. rewrite <- (operand_format_same _ _ (same_slot _ _ _ Hj' Hj)).
    destruct (zget_is_Some (node_refs node) j') as [r E]; [apply zget_range in Hj'; unfold zlen in *; lia|]. by apply (operand_fraction_format j' r). }
  assert (zget (node_refs node') 0 = Some (n_lhs node')) as H0.
  { rewrite refs_fields in Hj |- *. pose proof (arity_le (n_op node)). destruct (arity (n_op node)) as [|[|[|[|]]]]; [by apply zget_nil in Hj | done..| lia]. }
  unfold ValueFractionBits. change (i_node i) with node'. destruct (Z.eqb_spec (n_lhs node') s) as [E|N0]; [apply G; congruence|].
  pose proof (zget_range _ _ _ Hj) as Hr. pose proof Hj as Hj2. rewrite refs_fields in Hj2, Hr. pose proof (arity_le (n_op node)).
  destruct (arity (n_op node)) as [|[|[|[|]]]] eqn:Ea; cbn [take] in *; try lia.
  - by apply zget_nil in Hj2.
  - change (zlen [n_lhs node']) with 1 in Hr. assert (j = 0) as -> by lia. congruence.
  - assert (zget (node_refs node') 1 = Some (n_rhs node')) as H1 by (rewrite refs_fields, Ea; done).
    change (zlen [n_lhs node'; n_rhs node']) with 2 in Hr. assert (j = 0 \/ j = 1) as [->| ->] by lia; [congruence|].
    rewrite H1 in Hj. injection Hj as <-. rewrite Z.eqb_refl. by apply G.
  - assert (zget (node_refs node') 1 = Some (n_rhs node')) as H1 by (rewrite refs_fields, Ea; done).
    assert (zget (node_refs node') 2 = Some (n_aux node')) as H2 by (rewrite refs_fields, Ea; done).
    destruct (Z.eqb_spec (n_rhs node') s) as [E|N1]; [apply G; congruence|].
    change (zlen [n_lhs node'; n_rhs node'; n_aux node']) with 3 in Hr. assert (j = 0 \/ j = 1 \/ j = 2) as [->|[->| ->]] by lia; [congruence | congruence |].
    rewrite H2 in Hj. injection Hj as <-. rewrite Z.eqb_refl. by apply G.
Qed.

Lemma value_node_total tile : value_at tile (k + 1) =
  lane_value w (is_fixed domain) math node (operand_format parsed node 0) (operand_format parsed node 1) (operand_format parsed node 2)
    (operand_value (env_of tile) node 0) (operand_value (env_of tile) node 1) (operand_value (env_of tile) node 2).
Proof using All. rewrite (value_at_node _ _ _ Hk). unfold total_value, tile_value. by destruct (n_op node). Qed.

Definition lanes_agree (lanes : list (list Z)) (lane : Z) : Prop := forall j ref, zget (node_refs node) j = Some ref ->
  exists l a, zget lanes j = Some l /\ zget l lane = Some a /\ lane_agree w domain (n_op node) a (value_at (tau lane) ref).

Lemma lane_operand lanes lane j : lanes_agree lanes lane -> (Z.to_nat j < arity (n_op node))%nat -> 0 <= j ->
  lane_agree w domain (n_op node) (lane_at lanes j lane) (operand_value (env_of (tau lane)) node j).
Proof using All.
  intros Hl Hj H0. destruct (node_refs_length node) as [Hlen _].
  destruct (zget_is_Some (node_refs node) j) as [ref Er]; [lia|]. destruct (Hl j ref Er) as (l & x & El & Ex & Ha).
  unfold lane_at. rewrite El. cbn [mbind option_bind]. rewrite Ex. cbn [default]. by rewrite (operand_value_at _ _ _ _ _ Hk Er).
Qed.

Lemma compute_lane_ok lanes lane : lanes_agree lanes lane -> compute_lane w domain math i lanes lane = value_at (tau lane) (k + 1).
Proof using All.
  intros Hl. rewrite value_node_total. unfold compute_lane. change (i_node i) with node'.
  assert (forall j s, zget (take (arity (n_op node)) [n_lhs node'; n_rhs node'; n_aux node']) j = Some s ->
    ValueFractionBits i s = operand_format parsed node j) as G by (intros j s Hj; apply ValueFractionBits_ok; by rewrite refs_fields).
  apply (lane_value_agree w width domain math); [apply (ren_op _ _ _ Hren) | apply (ren_format _ _ _ Hren) | | | |].
  - intros Hshift. pose proof (ren_rest _ _ _ Hren) as Hrest.
    assert (arity (n_op node) = 1%nat) as E1 by (destruct (n_op node); done). rewrite E1 in Hrest. cbn in Hrest. congruence.
  - intros Ha. split; [|apply lane_operand; [done | lia | lia]]. apply G. destruct (arity (n_op node)) as [|]; [lia | done].
  - intros Ha. split; [|apply lane_operand; [done | lia | lia]]. apply G. destruct (arity (n_op node)) as [|[|]]; [lia | lia | done].
  - intros Ha. split; [|apply lane_operand; [done | lia | lia]]. apply G. destruct (arity (n_op node)) as [|[|[|]]]; [lia | lia | lia | done].
Qed.

Lemma lane_fault_ok lanes lane : writes_wide domain (n_op node) && negb (is_fixed domain) = false -> lanes_agree lanes lane ->
  lane_fault w (n_op node) (lane_at lanes 0 lane) (lane_at lanes 1 lane) = fault_at (tau lane) node.
Proof using All.
  intros Hw Hl. unfold fault_at, node_fault. rewrite Hw.
  assert (is_division (n_op node) = true -> lane_fault w (n_op node) (lane_at lanes 0 lane) (lane_at lanes 1 lane) =
    lane_fault w (n_op node) (operand_value (env_of (tau lane)) node 0) (operand_value (env_of (tau lane)) node 1)) as G.
  { intros Hdiv. assert (arity (n_op node) = 2%nat) as E2 by (by destruct (n_op node)).
    pose proof (lane_operand lanes lane 0 Hl ltac:(rewrite E2; lia) ltac:(lia)) as H0.
    pose proof (lane_operand lanes lane 1 Hl ltac:(rewrite E2; lia) ltac:(lia)) as H1.
    unfold lane_agree in H0, H1. destruct (reads_wide domain (n_op node)); [by rewrite H0, H1|].
    pose proof (proj1 (to_signed_eq w width _ _) H1) as H1u.
    unfold lane_fault, stored. rewrite H0, H1, H1u. by destruct (n_op node). }
  destruct (is_division (n_op node)) eqn:Ed; [by apply G|]. unfold lane_fault. by destruct (n_op node).
Qed.

Lemma first_fault_ok lanes n : writes_wide domain (n_op node) && negb (is_fixed domain) = false ->
  (forall lane, 0 <= lane < n -> lanes_agree lanes lane) ->
  match first_fault w (n_op node) lanes n with
  | Some reason => exists lane, 0 <= lane < n /\ fault_at (tau lane) node = Some reason
  | None => forall lane, 0 <= lane < n -> fault_at (tau lane) node = None
  end.
Proof using All.
  intros Hw Hl. unfold first_fault.
  assert (forall lane, lane ∈ range 0 n -> 0 <= lane < n) as Hin by (intros lane; by rewrite elem_of_range).
  assert (forall lane, 0 <= lane < n -> lane ∈ range 0 n) as Hin' by (intros lane; by rewrite elem_of_range).
  revert Hin Hin'. generalize (range 0 n). intros ls Hin Hin'.
  assert (match foldr (fun lane rest => match lane_fault w (n_op node) (lane_at lanes 0 lane) (lane_at lanes 1 lane) with Some r => Some r | None => rest end) None ls with
    | Some reason => exists lane, lane ∈ ls /\ fault_at (tau lane) node = Some reason
    | None => forall lane, lane ∈ ls -> fault_at (tau lane) node = None end) as G.
  { clear Hin'. induction ls as [|lane ls IH]; cbn [foldr]; [set_solver|].
    rewrite lane_fault_ok by (done || (apply Hl, Hin; set_solver)). destruct (fault_at (tau lane) node) eqn:E; [exists lane; set_solver|].
    specialize (IH ltac:(set_solver)). destruct (foldr _ None ls); [destruct IH as (l' & ? & ?); exists l'; set_solver | set_solver]. }
  destruct (foldr _ None ls); [destruct G as (lane & ? & ?); exists lane; auto | auto].
Qed.

Context (slots' : list (option Z)) (Hvi : 0 <= vi < total).
Context (Hframe : forall v s, holds slots' v s -> (v = k + 1 /\ s = vi) \/ (v <> k + 1 /\ holds slots v s /\ s <> vi)).

Lemma ExecuteValue_ok m :
  good_here m -> (forall ref, ref ∈ node_refs node -> D ref) -> 1 <= live <= kLaneCount w ->
  exists m', ExecuteValue w domain math i live m = Some m' /\
    ((exists lane reason, 0 <= lane < live /\ fault_at (tau lane) node = Some reason /\ fault m' = Some reason) \/
     ((forall lane, 0 <= lane < live -> fault_at (tau lane) node = None) /\ outputs m' = outputs m /\ good D total slots' live tau m')).
Proof using All.
  intros Hg HD Hlive. unfold ExecuteValue. change (i_node i) with node'. rewrite (ren_op _ _ _ Hren).
  replace (i_node i0) with node in * by (symmetry; apply Hprep).
  destruct (writes_wide domain (n_op node) && negb (is_fixed domain)) eqn:Ew.
  - eexists. split; [reflexivity|]. left. exists 0, kWideScratchInvalid. split; [lia|]. split.
    + unfold fault_at, node_fault. by rewrite Ew.
    + cbn [fail fault]. by rewrite (gd_fault _ _ _ _ _ _ Hg).
  - unfold read_operands. change (i_node i) with node'. rewrite (ren_op _ _ _ Hren).
    destruct (read_operands_ok (n_op node) _ _ m [] Hg (ren_refs _ _ _ Hren) HD) as (m1 & lanes & E1 & Hg1 & Ho1 & Hl). rewrite E1.
    cbn [mbind option_bind app].
    assert (forall lane, 0 <= lane < live -> lanes_agree lanes lane) as Hagree by (intros lane Hlane j ref Hj; by apply Hl).
    pose proof (first_fault_ok lanes live Ew Hagree) as Hff. destruct (first_fault w (n_op node) lanes live) as [reason|].
    + eexists. split; [reflexivity|]. left. destruct Hff as (lane & ? & ?). exists lane, reason. split; [done|]. split; [done|].
      cbn [fail fault]. by rewrite (gd_fault _ _ _ _ _ _ Hg1).
    + set (result := map _ (lane_range w)).
      assert (forall lane, 0 <= lane < live -> zget result lane = Some (value_at (tau lane) (k + 1))) as Hres.
      { intros lane Hlane. unfold result. rewrite zget_map. unfold lane_range. rewrite zget_range_ix by lia. cbn [fmap option_fmap option_map].
        rewrite Z.add_0_l. destruct (Z.ltb_spec lane live); [|lia]. rewrite andb_false_r. f_equal. apply compute_lane_ok. by apply Hagree. }
      change (value_index i) with vi. destruct (writes_wide domain (n_op node)) eqn:Eww.
      * destruct (set_wide_ok k vi slots' Hvi Hframe m1 result Hg1) as (m2 & E2 & Ho2 & Hg2); [by destruct (is_fixed domain) | done |].
        exists m2. split; [done|]. right. split; [done|]. split; [congruence | done].
      * destruct (set_raw_ok k vi slots' Hvi Hframe m1 result Hg1) as (m2 & E2 & Ho2 & Hg2).
        { intros lane Hlane. split; [by apply Hres|]. specialize (Hff lane Hlane). unfold fault_at, node_fault in Hff. rewrite Eww in Hff. cbn [andb] in Hff.
          rewrite value_node_total. by apply (lane_value_scalar w width). }
        exists m2. split; [done|]. right. split; [done|]. split; [congruence | done].
Qed.
End value.

(** ** Loads *)
Section load.
Context (read_stride : Z -> option Z) (output_full : Z -> bool) (prepared : prepared_for w view parsed bindings read_stride output_full).
Context (k : Z) (node : ParsedNode) (i0 : PreparedInstruction) (node' : ParsedNode) (vi base : Z).
Context (Hk : zget nodes k = Some node) (Hprep : prep_ok parsed bindings read_stride output_full (scalar_bytes w) node i0).
Context (Hren : renamed slots node node').
Context (Hlive : 1 <= live <= kLaneCount w).
Abbreviation i := (with_value_index (with_node i0 node') vi).

(** The lanes run the tiles from [base]; a node of the first part has no tile. *)
Context (Htau : stable_value nodes (k + 1) \/ (0 <= base /\ base + live <= tile_count view /\ forall lane, 0 <= lane < live -> tau lane = base + lane)).

Definition loaded (lanes : list Z) : Prop := forall lane, 0 <= lane < live ->
  zget lanes lane = Some (value_at (tau lane) (k + 1)) /\ to_signed w (value_at (tau lane) (k + 1)) = value_at (tau lane) (k + 1).

Lemma unstable_tiles : ~ stable_value nodes (k + 1) -> 0 <= base /\ base + live <= tile_count view /\ forall lane, 0 <= lane < live -> tau lane = base + lane.
Proof using All. by destruct Htau. Qed.

Lemma splat_loaded v : (forall tile, value_at tile (k + 1) = v) -> to_signed w v = v -> loaded (splat w v).
Proof using All.
  intros He Hs lane Hl. rewrite He. split; [|done]. unfold splat. apply zget_Some. split; [lia|]. apply lookup_replicate_2. lia.
Qed.

Lemma load_scalar_range bytes offset v : load_scalar w bytes offset = Some v -> to_signed w v = v.
Proof using All. unfold load_scalar. destruct (load _ _ _); [|done]. cbn. intros E. injection E as <-. by apply to_signed_idem. Qed.

Lemma value_of_node tile v : value_of (env_of tile) tile node = Some v -> value_at tile (k + 1) = v.
Proof using All. intros E. rewrite (value_at_node _ _ _ Hk). unfold total_value. by rewrite E. Qed.

(** A vector whose live lanes are the loads of their tiles. *)
Lemma mapM_loaded (f : Z -> option Z) :
  (forall lane, 0 <= lane < live -> f lane = value_of (env_of (tau lane)) (tau lane) node) ->
  (forall lane, live <= lane < kLaneCount w -> f lane = Some 0) ->
  (forall lane, 0 <= lane < live -> tile_ok (tau lane)) ->
  (forall lane v, 0 <= lane < live -> f lane = Some v -> to_signed w v = v) ->
  exists lanes, mapM f (lane_range w) = Some lanes /\ loaded lanes.
Proof using All.
  intros Hf Hdead Ht Hr. assert (node ∈ nodes) as Hin by by eapply zget_elem.
  assert (forall lane, 0 <= lane < live -> f lane = Some (value_at (tau lane) (k + 1))) as G.
  { intros lane Hl. destruct (tile_value_some (env_of (tau lane)) (tau lane) node Hin (Ht lane Hl)) as [v Hv].
    rewrite (Hf lane Hl), (value_of_node _ _ Hv). done. }
  destruct (mapM_range f (fun lane => value_at (tau lane) (k + 1)) live (kLaneCount w)) as (lanes & E & Hz).
  { intros lane Hl. destruct (Z.ltb_spec lane live); [exists (value_at (tau lane) (k + 1)); split; [apply G; lia | done]|].
    exists 0. split; [apply Hdead; lia | lia]. }
  exists lanes. split; [exact E|]. intros lane Hl. split; [apply Hz; lia|]. apply (Hr lane); [done | by apply G].
Qed.

Lemma LoadRead_ok : n_op node = Op.Read ->
  (exists lanes, LoadRead w view i base live = Some lanes /\ loaded lanes) /\
  (live = kLaneCount w -> exists lanes, LoadReadStridedFull w view i base = Some lanes /\ loaded lanes) /\
  (live = kLaneCount w -> read_stride (binding_slot i0) = Some (scalar_bytes w) -> exists lanes, LoadReadFull w view i base = Some lanes /\ loaded lanes).
Proof using All.
  intros Hop. destruct (unstable_tiles (not_stable_op k node Hk ltac:(auto))) as (Hb & He & Ht).
  pose proof (fits_nodes _ _ _ _ _ fits node ltac:(by eapply zget_elem)) as Hf. unfold node_fits in Hf. rewrite Hop in Hf.
  destruct Hf as (slot & Hs & Hu & (b & Hbind & Hst & Hmax & _ & Hfit)).
  destruct Hprep as (_ & _ & Hp). rewrite Hop in Hp. destruct Hp as (slot' & stride & Hs' & Hbs & Hrs & _).
  rewrite Hs in Hs'. injection Hs' as <-. assert (binding_slot i = slot) as Hbi by exact Hbs.
  assert (0 <= scalar_bytes w) as Hsb by (destruct width as [->| ->]; done).
  assert (forall lane, 0 <= lane < live -> ByteOffset base (r_stride b) + lane * r_stride b = tau lane * r_stride b) as Hoff.
  { intros lane Hl. rewrite (byte_offset base (r_stride b) (zlen (r_data b))); [rewrite Ht by done; lia | lia | done | | done].
    specialize (Hfit base ltac:(lia)). lia. }
  assert (forall lane, 0 <= lane < live -> load_scalar w (r_data b) (ByteOffset base (r_stride b) + lane * r_stride b) = value_of (env_of (tau lane)) (tau lane) node) as Hval.
  { intros lane Hl. unfold tile_value. rewrite Hop, Hs. cbn [mbind option_bind]. rewrite Hbind. cbn [mbind option_bind]. by rewrite Hoff. }
  assert (forall lane, 0 <= lane < live -> tile_ok (tau lane)) as Htile by (intros lane Hl; unfold tile_ok; rewrite Ht by done; lia).
  split; [|split].
  - unfold LoadRead. rewrite Hbi, Hbind. cbn [mbind option_bind]. apply mapM_loaded; [| | exact Htile |].
    + intros lane Hl. destruct (Z.ltb_spec lane live); [by apply Hval | lia].
    + intros lane Hl. destruct (Z.ltb_spec lane live); [lia | done].
    + intros lane v Hl. destruct (Z.ltb_spec lane live); [apply load_scalar_range | lia].
  - intros Hfull. unfold LoadReadStridedFull. rewrite Hbi, Hbind. cbn [mbind option_bind].
    apply mapM_loaded; [exact Hval | lia | exact Htile | intros lane v _; apply load_scalar_range].
  - intros Hfull Hdense. unfold LoadReadFull. rewrite Hbi, Hbind. cbn [mbind option_bind].
    rewrite Hbs in Hdense. rewrite (same_strides _ _ _ _ _ _ prepared slot Hu), Hbind in Hdense. cbn in Hdense. injection Hdense as Hdense.
    rewrite <- Hdense. apply mapM_loaded; [exact Hval | lia | exact Htile | intros lane v _; apply load_scalar_range].
Qed.

Lemma LoadReadAt_ok : n_op node = Op.ReadAt -> exists lanes, LoadReadAt w view i base live = Some lanes /\ loaded lanes.
Proof using All.
  intros Hop. destruct (unstable_tiles (not_stable_op k node Hk ltac:(auto))) as (Hb & He & Ht).
  pose proof (fits_nodes _ _ _ _ _ fits node ltac:(by eapply zget_elem)) as Hf. unfold node_fits in Hf. rewrite Hop in Hf.
  destruct Hf as (slot & islot & Hs & Hu & (b & Hbind & Hst & Hmax & _ & Hfit) & Hi & (ib & Hib & Hist & Himax & Hbytes & Hifit)).
  destruct Hprep as (_ & _ & Hp). rewrite Hop in Hp. destruct Hp as (_ & Hs' & Hi' & Heb).
  rewrite Hs in Hs'. injection Hs' as Hs'. rewrite Hi in Hi'. injection Hi' as Hi'.
  assert (binding_slot i = slot) as Hbi by (symmetry; exact Hs'). assert (immediate i = islot) as Him by (symmetry; exact Hi').
  assert (element_bytes i = n_rhs node) as Hei by exact Heb.
  unfold LoadReadAt. rewrite Hbi, Hbind. cbn [mbind option_bind]. rewrite Him, Hib. cbn [mbind option_bind]. rewrite Hei.
  pose proof (fits_tiles _ _ _ _ _ fits) as Htc. unfold is_u64 in Htc.
  assert (forall lane, 0 <= lane < live -> tile_ok (tau lane)) as Htile by (intros lane Hl; unfold tile_ok; rewrite Ht by done; lia).
  assert (0 <= scalar_bytes w) as Hsb by (destruct width as [->| ->]; done).
  apply mapM_loaded; [| | exact Htile |].
  - intros lane Hl. destruct (Z.ltb_spec lane live); [|lia]. rewrite wrap64_small by (unfold is_u64; lia). rewrite <- (Ht lane Hl).
    unfold tile_value. rewrite Hop, Hs. cbn [mbind option_bind]. rewrite Hbind. cbn [mbind option_bind]. rewrite Hi. cbn [mbind option_bind]. rewrite Hib. cbn [mbind option_bind].
    pose proof (Htile lane Hl) as Htl. unfold tile_ok in Htl. pose proof (Hifit (tau lane) Htl) as Hx.
    rewrite (byte_offset (tau lane) (r_stride ib) (zlen (r_data ib))) by lia.
    destruct (load (r_data ib) 4 (tau lane * r_stride ib)) as [ix|] eqn:Eix; [|done]. cbn [mbind option_bind].
    assert (0 <= ix) by (eapply load_nonneg; [exact Eix | eapply Forall_impl; [exact Hbytes | cbn; lia]]).
    destruct (Z.ltb_spec ix (n_rhs node)); [|done]. specialize (Hfit ix ltac:(lia)).
    by rewrite (byte_offset ix (r_stride b) (zlen (r_data b))) by lia.
  - intros lane Hl. destruct (Z.ltb_spec lane live); [lia | done].
  - intros lane v Hl. destruct (Z.ltb_spec lane live); [|lia]. destruct (load _ _ _) as [ix|]; [|done]. cbn [mbind option_bind].
    destruct (ix <? n_rhs node); [apply load_scalar_range|]. intros E. injection E as <-. apply small_is_scalar; lia.
Qed.

Lemma load_others_ok :
  match n_op node with
  | Op.Param => loaded (LoadParam w i)
  | Op.ReadUniform => exists lanes, LoadReadUniform w view i = Some lanes /\ loaded lanes
  | Op.Constant => loaded (splat w (constant_value w node'))
  | Op.Index => loaded (ExecuteIndex w view base live)
  | _ => True
  end.
Proof using All.
  pose proof (fits_nodes _ _ _ _ _ fits node ltac:(by eapply zget_elem)) as Hf. unfold node_fits in Hf.
  destruct Hprep as (_ & _ & Hp). destruct (n_op node) eqn:Hop; try done.
  - destruct Hp as (_ & b & Hb & Him). unfold LoadParam. apply splat_loaded; [|by apply to_signed_idem].
    intros tile. apply value_of_node. unfold tile_value. rewrite Hop, Hb. cbn [mbind option_bind]. by change (immediate i) with (immediate i0); rewrite Him.
  - apply splat_loaded; [|by apply to_signed_idem]. intros tile. apply value_of_node. unfold tile_value. rewrite Hop.
    pose proof (ren_rest _ _ _ Hren) as Hrest. rewrite Hop in Hrest. cbn in Hrest. injection Hrest as H1 H2 _. unfold constant_value. by rewrite H1, H2.
  - destruct (unstable_tiles (not_stable_op k node Hk ltac:(auto))) as (Hb & He & Ht). intros lane Hl.
    assert (value_at (tau lane) (k + 1) = to_signed w (wrap64 (logical_offset view + tau lane))) as -> by (apply value_of_node; unfold tile_value; by rewrite Hop).
    split; [|by apply to_signed_idem]. unfold ExecuteIndex. rewrite zget_map. unfold lane_range. rewrite zget_range_ix by lia. cbn. 
    rewrite Z.add_0_l. destruct (Z.ltb_spec lane live); [|lia]. by rewrite (Ht lane Hl), Z.add_assoc.
  - destruct Hf as (slot & Hs & Hu & (b & Hbind & Hst & _ & _ & Hfit)). destruct Hp as (_ & Hs').
    rewrite Hs in Hs'. injection Hs' as Hs'. assert (binding_slot i = slot) as Hbi by (symmetry; exact Hs').
    unfold LoadReadUniform. rewrite Hbi, Hbind. cbn [mbind option_bind].
    destruct (load_scalar_Some w (r_data b) 0) as [v Hv]; [lia | specialize (Hfit 0 ltac:(lia)); lia|]. rewrite Hv. cbn.
    eexists. split; [reflexivity|]. apply splat_loaded; [|by eapply load_scalar_range].
    intros tile. apply value_of_node. unfold tile_value. rewrite Hop, Hs. cbn [mbind option_bind]. rewrite Hbind. exact Hv.
Qed.
End load.

(** ** Writes *)
Section write.
Context (read_stride : Z -> option Z) (output_full : Z -> bool) (prepared : prepared_for w view parsed bindings read_stride output_full).
Context (k : Z) (node : ParsedNode) (i0 : PreparedInstruction) (node' : ParsedNode) (vi base : Z).
Context (Hk : zget nodes k = Some node) (Hprep : prep_ok parsed bindings read_stride output_full (scalar_bytes w) node i0).
Context (Hren : renamed slots node node').
Context (Hlive : 1 <= live <= kLaneCount w).
Context (Hbase : 0 <= base /\ base + live <= tile_count view) (Htau : forall lane, 0 <= lane < live -> tau lane = base + lane).
Context (Hop : n_op node = Op.Write).
Abbreviation i := (with_value_index (with_node i0 node') vi).

Lemma write_refs : exists ref, zget (node_refs node) 0 = Some ref /\ ref ∈ node_refs node /\ holds slots ref (n_lhs node').
Proof using All.
  pose proof (ren_refs _ _ _ Hren) as Hf. pose proof (ren_op _ _ _ Hren) as Ho. rewrite Hop in Ho.
  destruct node as [op l r x f], node' as [op' l' r' x' f']. cbn [n_op] in *. subst op op'. rewrite !node_refs_arity in *.
  exists l. split; [done|]. split; [set_solver|]. cbn in *. by apply Forall2_cons in Hf as [? _].
Qed.

Lemma ExecuteWrite_ok m full :
  good_here m -> (forall ref, ref ∈ node_refs node -> D ref) -> (full = true -> live = kLaneCount w /\ output_full (binding_slot i0) = true) ->
  exists m', ExecuteWrite w view i full base live m = Some m' /\ values m' = values m /\ fault m' = fault m /\ shape (outputs m') = shape outs0 /\
    for_each (fun o lane => wstore (tau lane) o node) (outputs m) (range 0 live) = Some (outputs m').
Proof using All.
  intros Hg HD Hfull. destruct write_refs as (ref & Hr0 & Hr & Hh). assert (node ∈ nodes) as Hin by by eapply zget_elem.
  destruct (gd_values _ _ _ _ _ _ Hg ref _ (HD ref Hr) Hh) as (slot & Hs & Hl). unfold ExecuteWrite.
  change (n_lhs (i_node i)) with (n_lhs node'). rewrite Hs. cbn [mbind option_bind].
  pose proof (fits_nodes _ _ _ _ _ fits node Hin) as Hf. unfold node_fits in Hf. rewrite Hop in Hf.
  destruct Hf as (wslot & b & Hws & Hu & Hb & (stride & bytes & Hst & Hby & Hsz & Hmax & Hfit)).
  destruct Hprep as (_ & _ & Hp). rewrite Hop in Hp. destruct Hp as (b' & Hws' & Hb' & Heb & _).
  rewrite Hws in Hws'. injection Hws' as Hws'. rewrite Hb in Hb'. injection Hb' as <-.
  assert (binding_slot i = wslot) as Hbi by (symmetry; exact Hws'). assert (element_bytes i = b_element_bytes b) as Hei by exact Heb.
  pose proof (stored_size_nonneg (b_element_bytes b)) as Hsz0.
  assert (forall lane, 0 <= lane < live -> ByteOffset base stride + lane * stride = tau lane * stride) as Hoff.
  { intros lane Hlane. rewrite (byte_offset base stride (zlen bytes)); [rewrite (Htau lane Hlane); lia | lia | lia | specialize (Hfit base ltac:(lia)); lia | done]. }
  assert (forall o lane, 0 <= lane < live -> wstore (tau lane) o node =
    store_at wslot (stored_size w (b_element_bytes b)) o (tau lane * stride) (stored_value w (b_element_bytes b) (to_signed w (value_at (tau lane) ref)))) as Hwst.
  { intros o lane Hlane. unfold wstore, tile_store, is_write. rewrite bool_decide_true by done. rewrite Hws. cbn [mbind option_bind].
    rewrite Hb. cbn [mbind option_bind]. rewrite Hst. cbn [mbind option_bind]. by rewrite (operand_value_at _ _ _ _ _ Hk Hr0). }
  assert (exists o', for_each (fun o lane => wstore (tau lane) o node) (outputs m) (range 0 live) = Some o' /\ shape o' = shape outs0) as (o' & Eo & Ho').
  { destruct (for_each_inv (fun _ o => shape o = shape outs0) (fun o lane => wstore (tau lane) o node) (range 0 live) (outputs m)) as (o' & E & Ho);
      [apply Hg | | by exists o'].
    intros d lane rest o E Ho. assert (lane ∈ range 0 live) as Hlane%elem_of_range by (rewrite E; set_solver).
    apply wstore_some; [done | unfold tile_ok; rewrite (Htau lane Hlane); lia | done]. }
  assert ((if full then StoreWriteFull w view i (data slot) base (outputs m) else StoreWrite w view i (data slot) base live (outputs m)) = Some o') as ->.
  { rewrite <- Eo. destruct full.
    - destruct (Hfull eq_refl) as [Hfl Hout]. change (binding_slot i0) with (binding_slot i) in Hout. rewrite Hbi in Hout.
      destruct (dense_outputs _ _ _ _ _ _ prepared node wslot b Hin Hop Hws Hb Hout) as [Hdense Hdst]. rewrite Hst in Hdst. injection Hdst as Hdst.
      unfold StoreWriteFull. rewrite Hbi, Hst. cbn [mbind option_bind]. unfold lane_range. rewrite <- Hfl. apply for_each_ext. intros o lane Hlane%elem_of_range.
      rewrite (proj1 (Hl lane Hlane)). cbn [mbind option_bind]. rewrite Hwst by done. rewrite <- Hdst at 2. rewrite Hoff by done.
      unfold stored_size, stored_value. by rewrite Hdense, Z.eqb_refl.
    - unfold StoreWrite. rewrite Hbi, Hst. cbn [mbind option_bind]. apply for_each_ext. intros o lane Hlane%elem_of_range.
      rewrite (proj1 (Hl lane Hlane)). cbn [mbind option_bind]. rewrite Hwst by done. rewrite Hei. by rewrite Hoff. }
  cbn [mbind option_bind]. eexists. split; [reflexivity|]. done.
Qed.
End write.
End sim.

(** ** One instruction *)
Lemma executor_of_op op i base live m :
  ExecutorFor w domain math view (op_code op) i base live m =
  match op with
  | Op.Param => ExecuteLoad i (Some (LoadParam w i)) m
  | Op.Read => ExecuteLoad i (LoadRead w view i base live) m
  | Op.ReadUniform => ExecuteLoad i (LoadReadUniform w view i) m
  | Op.ReadAt => ExecuteLoad i (LoadReadAt w view i base live) m
  | Op.Constant => ExecuteLoad i (Some (splat w (constant_value w (i_node i)))) m
  | Op.Index => ExecuteLoad i (Some (ExecuteIndex w view base live)) m
  | Op.Write => ExecuteWrite w view i false base live m
  | _ => ExecuteValue w domain math i live m
  end.
Proof using Type. by destruct op. Qed.

Lemma load_no_fault tile node : value_op (n_op node) = false -> fault_at tile node = None.
Proof using Type. intros H. unfold fault_at, node_fault, writes_wide, lane_fault. destruct (n_op node); (discriminate || by rewrite andb_false_r). Qed.

Lemma wstore_value tile node o : n_op node <> Op.Write -> wstore tile o node = Some o.
Proof using Type. intros H. unfold wstore, tile_store, is_write. by rewrite bool_decide_false. Qed.

Context (read_stride : Z -> option Z) (output_full : Z -> bool) (prepared : prepared_for w view parsed bindings read_stride output_full).
Abbreviation prepare := (PrepareInstruction parsed bindings read_stride output_full (scalar_bytes w)).
Abbreviation is_placed := (placed parsed bindings read_stride output_full (scalar_bytes w)).

Lemma node_preparable node : node ∈ nodes -> preparable parsed bindings read_stride node.
Proof using All.
  intros Hin. pose proof (fits_nodes _ _ _ _ _ fits node Hin) as Hf. unfold node_fits in Hf. unfold preparable.
  destruct (n_op node); try done.
  - destruct Hf as (slot & Hs & Hu & (b & Hb & _)). exists slot. split; [done|]. split; [done|]. rewrite (same_strides _ _ _ _ _ _ prepared slot Hu), Hb. by eexists.
  - destruct Hf as (slot & b & Hs & Hu & Hb & _). exists slot. split; [done|]. split; [done | by eexists].
  - destruct Hf as (slot & islot & Hs & Hu & _ & Hi & _). exists slot. split; [done|]. split; [done | by eexists].
  - destruct Hf as (slot & Hs & Hu & _). by exists slot.
Qed.

Lemma prepare_spec k node i0 : zget nodes k = Some node -> prepare k = Some i0 ->
  prep_ok parsed bindings read_stride output_full (scalar_bytes w) node i0.
Proof using All.
  intros Hk Hi. destruct (PrepareInstruction_ok parsed bindings read_stride output_full (scalar_bytes w) k node ok Hk) as (i & E & Hp & _).
  - by apply node_preparable, zget_elem with (i := k).
  - rewrite E in Hi. by injection Hi as <-.
Qed.

(** An instruction simulates its node: it fails as the node fails on a live tile, or it
    stores what the node stores and leaves the live values in their slots. *)
Definition simulates (D : Z -> Prop) (total : Z) (slots' : list (option Z)) (live : Z) (tau : Z -> Z) (node : ParsedNode) (m m' : Machine) : Prop :=
  (exists lane reason, 0 <= lane < live /\ fault_at (tau lane) node = Some reason /\ fault m' = Some reason) \/
  ((forall lane, 0 <= lane < live -> fault_at (tau lane) node = None) /\ good D total slots' live tau m' /\
   for_each (fun o lane => wstore (tau lane) o node) (outputs m) (range 0 live) = Some (outputs m')).

Section instruction.
Context (D : Z -> Prop) (total k : Z) (slots slots' : list (option Z)) (live : Z) (tau : Z -> Z) (base : Z) (full : bool) (m : Machine).
Context (node : ParsedNode) (i0 : PreparedInstruction) (node' : ParsedNode) (vi : Z).
Abbreviation i := (with_value_index (with_node i0 node') vi).
Context (Hk : zget nodes k = Some node) (Hprep : prep_ok parsed bindings read_stride output_full (scalar_bytes w) node i0).
Context (Hren : renamed slots node node') (Hdist : forall v v' s, holds slots v s -> holds slots v' s -> v = v').
Context (Hframe : forall v s, holds slots' v s -> (v = k + 1 /\ s = vi /\ n_op node <> Op.Write) \/
                                (v <> k + 1 /\ holds slots v s /\ (n_op node <> Op.Write -> s <> vi))).
Context (Hg : good D total slots live tau m) (HD : forall ref, ref ∈ node_refs node -> D ref).
Context (Hvi : n_op node <> Op.Write -> 0 <= vi < total).
Context (Hlive : 1 <= live <= kLaneCount w) (Hfull : full = true -> live = kLaneCount w).
Context (Htau : stable_value nodes (k + 1) \/ (0 <= base /\ base + live <= tile_count view /\ forall lane, 0 <= lane < live -> tau lane = base + lane)).

Lemma value_frame : n_op node <> Op.Write -> forall v s, holds slots' v s -> (v = k + 1 /\ s = vi) \/ (v <> k + 1 /\ holds slots v s /\ s <> vi).
Proof using All. intros Hw v s Hv. destruct (Hframe v s Hv) as [(? & ? & _)|(? & ? & Hs)]; [by left | right; auto]. Qed.

Lemma no_stores : n_op node <> Op.Write -> for_each (fun o lane => wstore (tau lane) o node) (outputs m) (range 0 live) = Some (outputs m).
Proof using All. intros Hw. apply for_each_id. intros o lane _. by apply wstore_value. Qed.

Lemma load_instruction lanes :
  n_op node <> Op.Write -> value_op (n_op node) = false ->
  (forall lane, 0 <= lane < live -> zget lanes lane = Some (value_at (tau lane) (k + 1)) /\
      to_signed w (value_at (tau lane) (k + 1)) = value_at (tau lane) (k + 1)) ->
  exists m', ExecuteLoad i (Some lanes) m = Some m' /\ simulates D total slots' live tau node m m'.
Proof using All.
  intros Hw Hnv Hlanes. destruct (set_raw_ok D total slots live tau k vi slots' (Hvi Hw) (value_frame Hw) m lanes Hg Hlanes) as (m' & E & Ho & Hg').
  exists m'. split; [exact E|]. right. split; [intros lane _; by apply load_no_fault|]. split; [done|]. rewrite Ho. by apply no_stores.
Qed.

Lemma value_instruction : value_op (n_op node) = true ->
  exists m', ExecuteValue w domain math i live m = Some m' /\ simulates D total slots' live tau node m m'.
Proof using All.
  intros Hv. assert (n_op node <> Op.Write) as Hw by (by destruct (n_op node)).
  destruct (ExecuteValue_ok D total slots live tau read_stride output_full k node i0 node' vi Hk Hprep Hren Hdist Hv slots' (Hvi Hw) (value_frame Hw) m Hg HD Hlive)
    as (m' & E & [Hfault|(Hno & Ho & Hg')]); exists m'; (split; [exact E|]); [by left | right].
  split; [done|]. split; [done|]. rewrite Ho. by apply no_stores.
Qed.

Lemma write_instruction store_full : n_op node = Op.Write -> (store_full = true -> live = kLaneCount w /\ output_full (binding_slot i0) = true) ->
  exists m', ExecuteWrite w view i store_full base live m = Some m' /\ simulates D total slots' live tau node m m'.
Proof using All.
  intros Hop Hst. destruct Htau as [Hs|(Hb & He & Ht)]; [by destruct (not_stable_op k node Hk ltac:(auto))|].
  destruct (ExecuteWrite_ok D total slots live tau read_stride output_full prepared k node i0 node' vi base Hk Hprep Hren Hlive (conj Hb He) Ht Hop m store_full Hg HD Hst)
    as (m' & E & Hv & Hf & Hsh & Ho). exists m'. split; [exact E|]. right.
  split; [intros lane _; apply load_no_fault; by rewrite Hop|]. split; [|done]. destruct Hg as [H1 H2 H3 H4].
  split; [congruence | congruence | done |]. intros v s Hd Hh. rewrite Hv. apply H4; [done|].
  destruct (Hframe v s Hh) as [(_ & _ & ?)|(_ & ? & _)]; [by rewrite Hop in * | done].
Qed.

Lemma instruction_sim : exists m',
  ExecutorFor w domain math view (if full then full_executor_slot i0 else tail_executor_slot i0) i base live m = Some m' /\
  simulates D total slots' live tau node m m'.
Proof using All.
  pose proof (load_others_ok D total slots live tau read_stride output_full prepared k node i0 node' vi base Hk Hprep Hren Hlive Htau) as Hothers.
  pose proof (LoadRead_ok D total slots live tau read_stride output_full prepared k node i0 node' vi base Hk Hprep Hren Hlive Htau) as Hread.
  pose proof (LoadReadAt_ok D total slots live tau read_stride output_full prepared k node i0 node' vi base Hk Hprep Hren Hlive Htau) as Hat.
  pose proof Hprep as (Hn & -> & Hp). pose proof load_instruction as Hload. pose proof value_instruction as Hvalue. pose proof write_instruction as Hwrite.
  assert (full_executor_slot i0 = op_code (n_op node) ->
    (if full then full_executor_slot i0 else op_code (n_op node)) = op_code (n_op node)) as Hsame by (by destruct full).
  destruct (n_op node) eqn:Hop; try (rewrite Hsame by apply Hp; rewrite executor_of_op; by apply Hvalue).
  - rewrite Hsame by apply Hp. rewrite executor_of_op. by apply Hload.
  - destruct (Hread eq_refl) as ((l1 & E1 & H1) & H2 & H3). destruct Hp as (slot & stride & _ & Hbs & Hrs & ->). destruct full.
    + destruct (Z.eqb_spec stride (scalar_bytes w)) as [->|].
      * destruct (H3 (Hfull eq_refl)) as (l3 & E3 & H3'); [by rewrite Hbs|]. unfold ExecutorFor. cbn [kCpuSimdReadFullExecutorSlot Z.eqb Pos.eqb]. rewrite E3. by apply Hload.
      * destruct (H2 (Hfull eq_refl)) as (l2 & E2 & H2'). unfold ExecutorFor. cbn [kCpuSimdReadFullExecutorSlot kCpuSimdReadStridedFullExecutorSlot Z.eqb Pos.eqb].
        rewrite E2. by apply Hload.
    + rewrite executor_of_op, E1. by apply Hload.
  - destruct Hp as (b & _ & _ & _ & ->). destruct full; [|rewrite executor_of_op; by apply Hwrite].
    destruct (output_full (binding_slot i0)) eqn:Eo; [|rewrite executor_of_op; by apply Hwrite].
    unfold ExecutorFor. cbn [kCpuSimdReadFullExecutorSlot kCpuSimdReadStridedFullExecutorSlot kCpuSimdWriteFullExecutorSlot Z.eqb Pos.eqb].
    apply Hwrite; [done | by auto].
  - rewrite Hsame by apply Hp. rewrite executor_of_op. by apply Hload.
  - rewrite Hsame by apply Hp. rewrite executor_of_op. by apply Hload.
  - rewrite Hsame by apply Hp. rewrite executor_of_op. destruct (Hat eq_refl) as (l & El & Hl). rewrite El. by apply Hload.
  - rewrite Hsame by apply Hp. rewrite executor_of_op. destruct Hothers as (l & El & Hl). rewrite El. by apply Hload.
Qed.
End instruction.

Lemma instruction_ok D total P k slots i slots' live tau base full m node :
  is_placed P k slots i slots' -> zget nodes k = Some node ->
  good D total slots live tau m -> (forall ref, ref ∈ node_refs node -> D ref) ->
  (n_op (i_node i) <> Op.Write -> 0 <= value_index i < total) ->
  1 <= live <= kLaneCount w -> (full = true -> live = kLaneCount w) ->
  stable_value nodes (k + 1) \/ (0 <= base /\ base + live <= tile_count view /\ forall lane, 0 <= lane < live -> tau lane = base + lane) ->
  exists m', ExecutorFor w domain math view (if full then full_executor_slot i else tail_executor_slot i) i base live m = Some m' /\
    simulates D total slots' live tau node m m'.
Proof using All.
  intros [(nd & i0 & node' & Hk' & Hi0 & Hren & Ei) Hdist Hframe Hpin] Hk Hg HD Hvi Hlive Hfull Htau.
  rewrite Hk in Hk'. injection Hk' as <-. pose proof (prepare_spec k node i0 Hk Hi0) as Hprep.
  assert (i_node i0 = node) as Hn by apply Hprep. rewrite Hn in Hren.
  assert (n_op (i_node i) = n_op node) as Hopi by (rewrite Ei; exact (ren_op _ _ _ Hren)). rewrite Hopi in Hvi, Hframe.
  set (vi := value_index i) in *. clearbody vi. subst i.
  by apply (instruction_sim D total k slots slots' live tau base full m node i0 node' vi).
Qed.

(** ** Lists of instructions *)
Definition nodes_of (ks : list Z) : list ParsedNode := omap (zget nodes) ks.
Abbreviation all_placed := (placed_all parsed bindings read_stride output_full (scalar_bytes w)).

(** A tile among the live ones on which a node of [ks] fails with a reason. *)
Definition fails (ks : list Z) (live : Z) (tau : Z -> Z) (reason : string) : Prop :=
  exists k node lane, k ∈ ks /\ zget nodes k = Some node /\ 0 <= lane < live /\ fault_at (tau lane) node = Some reason.

Lemma run_instructions_ok D total P slots ks code slots' live tau base full m :
  all_placed P slots ks code slots' ->
  Forall (fun i => n_op (i_node i) <> Op.Write -> 0 <= value_index i < total) code ->
  good D total slots live tau m -> (forall k node ref, k ∈ ks -> zget nodes k = Some node -> ref ∈ node_refs node -> D ref) ->
  1 <= live <= kLaneCount w -> (full = true -> live = kLaneCount w) ->
  (forall k, k ∈ ks -> stable_value nodes (k + 1) \/
     (0 <= base /\ base + live <= tile_count view /\ forall lane, 0 <= lane < live -> tau lane = base + lane)) ->
  exists m', run_instructions w domain math view full code base live m = Some m' /\
    ((exists reason, fails ks live tau reason /\ fault m' = Some reason) \/
     ((forall reason, ~ fails ks live tau reason) /\ good D total slots' live tau m' /\
      for_each (fun o node => for_each (fun o lane => wstore (tau lane) o node) o (range 0 live)) (outputs m) (nodes_of ks) = Some (outputs m'))).
Proof using All.
  intros Hp. revert m. induction Hp as [slots|slots k i slots1 ks code slots' Hi Hp IH]; intros m Hf Hg HD Hlive Hfull Htau.
  - exists m. split; [done|]. right. split; [intros reason (k & ? & ? & Hk & _); set_solver | by split].
  - apply Forall_cons in Hf as [Hfi Hf]. assert (exists node, zget nodes k = Some node) as [node Hk] by (destruct (pl_instruction _ _ _ _ _ _ _ _ _ _ Hi) as (nd & ? & ? & ? & _); eauto).
    destruct (instruction_ok D total P k slots i slots1 live tau base full m node Hi Hk Hg) as (m1 & E1 & Hsim);
      [intros ref; apply (HD k node ref ltac:(set_solver) Hk) | done | done | done | apply Htau; set_solver |].
    cbn [run_instructions]. rewrite E1. cbn [mbind option_bind]. destruct Hsim as [(lane & reason & Hlane & Hfa & Hm)|(Hno & Hg1 & Ho)].
    + rewrite Hm. exists m1. split; [done|]. left. exists reason. split; [|done]. exists k, node, lane. split; [set_solver | done].
    + rewrite (gd_fault _ _ _ _ _ _ Hg1).
      destruct (IH m1 Hf Hg1) as (m2 & E2 & H2); [intros j nd ref Hj; apply (HD j nd ref); set_solver | done | done | intros; apply Htau; set_solver |].
      exists m2. split; [done|]. destruct H2 as [(reason & (k' & nd & lane & Hk' & Hr) & Hm)|(Hno2 & Hg2 & Ho2)].
      * left. exists reason. split; [|done]. exists k', nd, lane. split; [set_solver | done].
      * right. split; [|split; [done|]].
        -- intros reason (k' & nd & lane & Hk' & Hnd & Hlane & Hr). apply elem_of_cons in Hk' as [->|Hk'].
           ++ rewrite Hk in Hnd. injection Hnd as <-. by rewrite Hno in Hr.
           ++ by apply (Hno2 reason); exists k', nd, lane.
        -- unfold nodes_of. cbn [omap list_omap]. rewrite Hk. cbn [for_each]. rewrite Ho. exact Ho2.
Qed.

(** ** Vectors of tiles *)
Lemma omap_range_all {A} (l d : list A) : omap (zget (d ++ l)) (range (zlen d) (zlen d + zlen l)) = l.
Proof using Type.
  revert d. induction l as [|x l IH]; intros d.
  - by rewrite zlen_nil, Z.add_0_r, range_nil.
  - rewrite zlen_cons. pose proof (zlen_nonneg l). rewrite range_cons by lia. cbn [omap list_omap]. rewrite zget_app_mid by done. f_equal.
    specialize (IH (d ++ [x])). rewrite <- app_assoc, zlen_app in IH. change (zlen [x]) with 1 in IH. cbn [app] in IH.
    by replace (zlen d + (zlen l + 1)) with (zlen d + 1 + zlen l) by lia.
Qed.

Lemma tile_effect_loop tile outs : for_each (wstore tile) outs (nodes_of (loop_group nodes)) = tile_effect outs tile.
Proof using All.
  unfold tile_effect. replace (for_each (wstore tile) outs nodes) with (for_each (wstore tile) outs (omap (zget nodes) (range 0 (zlen nodes))))
    by (f_equal; apply (omap_range_all nodes [])).
  unfold nodes_of, loop_group. destruct (stable_flags_spec nodes) as (Hl & _ & Hf).
  assert (forall k, k ∈ range 0 (zlen nodes) -> 0 <= k < zlen nodes) as Hin by (intros k; by rewrite elem_of_range).
  revert outs Hin. generalize (range 0 (zlen nodes)). intros ks. induction ks as [|k ks IH]; intros outs Hin; [done|].
  rewrite filter_cons. destruct (zget_is_Some nodes k) as [node Hk]; [apply Hin; set_solver|].
  cbn [omap list_omap]. rewrite Hk. destruct (decide _) as [Hs|Hs].
  - cbn [omap list_omap]. rewrite Hk. cbn [for_each]. destruct (wstore tile outs node); cbn; [apply IH; intros; apply Hin; set_solver | done].
  - cbn [for_each]. rewrite wstore_value; [cbn [mbind option_bind]; apply IH; intros; apply Hin; set_solver|].
    intros Hop. destruct (zget_is_Some (stable_flags nodes) (k + 1)) as [[] Eb]; [specialize (Hin k ltac:(set_solver)); lia | | done].
    by apply (not_stable_op k node Hk ltac:(auto)).
Qed.

Lemma wstore_commute node node' tile tile' outs :
  node ∈ nodes -> node' ∈ nodes -> tile_ok tile -> tile_ok tile' -> tile <> tile' ->
  (o ← wstore tile outs node; wstore tile' o node') = (o ← wstore tile' outs node'; wstore tile o node).
Proof using All.
  intros Hn Hn' Ht Ht' Hne. destruct (decide (n_op node = Op.Write)) as [Hw|Hw].
  2: { rewrite (wstore_value tile node outs Hw). cbn [mbind option_bind]. destruct (wstore tile' outs node'); cbn; [by rewrite wstore_value | done]. }
  destruct (decide (n_op node' = Op.Write)) as [Hw'|Hw'].
  2: { rewrite (wstore_value tile' node' outs Hw'). cbn [mbind option_bind]. destruct (wstore tile outs node); cbn; [by rewrite wstore_value | done]. }
  pose proof (fits_nodes _ _ _ _ _ fits node Hn) as Hf. pose proof (fits_nodes _ _ _ _ _ fits node' Hn') as Hf'.
  unfold node_fits in Hf, Hf'. rewrite Hw in Hf. rewrite Hw' in Hf'.
  destruct Hf as (s & b & Hs & _ & Hb & (st & by_ & Hst & _ & Hsz & _)). destruct Hf' as (s' & b' & Hs' & _ & Hb' & (st' & by' & Hst' & _ & Hsz' & _)).
  unfold wstore, tile_store, is_write. rewrite !bool_decide_true by done. rewrite Hs, Hs'. cbn [mbind option_bind]. rewrite Hb, Hb'. cbn [mbind option_bind].
  rewrite Hst, Hst'. cbn [mbind option_bind]. pose proof (stored_size_nonneg (b_element_bytes b)). pose proof (stored_size_nonneg (b_element_bytes b')).
  apply store_at_commute; [done | done |]. destruct (Z.eq_dec s s') as [->|]; [right | by left].
  assert (st = st') as -> by congruence. unfold tile_ok in Ht, Ht'. destruct (Z.lt_total tile tile') as [?|[?|?]]; [left; nia | lia | right; nia].
Qed.

(** The stores of a vector, node by node, are those of its tiles one after the other. *)
Lemma vector_effect base live outs : 0 <= base -> base + live <= tile_count view ->
  for_each (fun o node => for_each (fun o lane => wstore (base + lane) o node) o (range 0 live)) outs (nodes_of (loop_group nodes)) =
  for_each tile_effect outs (map (fun lane => base + lane) (range 0 live)).
Proof using All.
  intros Hb He. set (ns := nodes_of (loop_group nodes)).
  assert (forall node, node ∈ ns -> node ∈ nodes) as Hns.
  { intros node Hin. apply list_elem_of_omap in Hin as (k & _ & Hk). by eapply zget_elem. }
  rewrite (for_each_interchange (fun o node lane => wstore (base + lane) o node)).
  - generalize (range 0 live). intros ls. revert outs. induction ls as [|lane ls IH]; intros outs; [done|]. cbn [for_each map].
    unfold ns at 1. rewrite tile_effect_loop. destruct (tile_effect outs (base + lane)); cbn; [apply IH | done].
  - apply range_NoDup.
  - intros nd nd' l l' o Hnd Hnd' Hl%elem_of_range Hl'%elem_of_range Hne.
    apply wstore_commute; [by apply Hns | by apply Hns | unfold tile_ok; lia | unfold tile_ok; lia | lia].
Qed.

Lemma map_range base live : map (fun lane => base + lane) (range 0 live) = range base (base + live).
Proof using Type.
  apply list_eq. intros j. change (map (fun lane => base + lane) (range 0 live)) with ((fun lane => base + lane) <$> range 0 live).
  rewrite list_lookup_fmap. unfold range. destruct (decide (Z.of_nat j < live)).
  - rewrite !lookup_seqZ_lt by lia. cbn. f_equal.
  - rewrite !lookup_seqZ_ge by lia. done.
Qed.

(** ** The run *)
Lemma lane_count : 1 <= kLaneCount w.
Proof using All. by destruct width as [->| ->]. Qed.

Lemma stable_fault tile tile' k node : zget nodes k = Some node -> stable_value nodes (k + 1) -> fault_at tile node = fault_at tile' node.
Proof using All.
  intros Hk Hs. unfold fault_at, node_fault.
  assert (forall j, operand_value (env_of tile) node j = operand_value (env_of tile') node j) as Ho; [|by rewrite !Ho].
  intros j. destruct (zget (node_refs node) j) as [ref|] eqn:Ej; [|unfold operand_value; by rewrite Ej].
  rewrite !(operand_value_at _ _ _ _ _ Hk Ej). apply stable_value_at. exact (stable_refs nodes k node ref (ok_edges _ _ ok) Hk Hs (zget_elem _ _ _ Ej)).
Qed.

Section run.
Context (plan : PreparedPlan) (P : list bool) (slots1 slots2 : list (option Z)).
Context (pok : plan_ok parsed bindings read_stride output_full (scalar_bytes w) plan P slots1 slots2).
Abbreviation total := (value_slot_count plan).

Definition live_in_loop (v : Z) : Prop := zget P v = Some true \/ ~ stable_value nodes v.
Definition ready (m : Machine) : Prop := good live_in_loop total slots1 (kLaneCount w) (fun _ => 0) m.

(** The slots of the first part hold stable values: any tiles will do. *)
Lemma ready_any m live tau : ready m -> live <= kLaneCount w -> good live_in_loop total slots1 live tau m.
Proof using All.
  intros [H1 H2 H3 H4] Hl. split; [done | done | done |]. intros v s Hd Hh. destruct (H4 v s Hd Hh) as (slot & Hs & Hlane).
  exists slot. split; [done|]. intros lane Hr. rewrite (stable_value_at (tau lane) 0); [apply Hlane; lia|]. exact (po_first _ _ _ _ _ _ _ _ _ pok _ _ Hh).
Qed.

Definition tile_fails (lo hi : Z) (reason : string) : Prop :=
  exists tile node, lo <= tile < hi /\ node ∈ nodes /\ fault_at tile node = Some reason.

Lemma once_ok slots0 outs t0 : zlen slots0 = total -> shape outs = shape outs0 ->
  exists m, ExecuteOnce w domain math view plan {| values := slots0; fault := None; outputs := outs |} = Some m /\
    ((exists reason, tile_fails t0 (t0 + 1) reason /\ fault m = Some reason) \/
     ((forall k node, k ∈ stable_group nodes -> zget nodes k = Some node -> fault_at t0 node = None) /\ ready m /\ outputs m = outs)).
Proof using All.
  intros Hlen Hsh. unfold ExecuteOnce. pose proof lane_count as HK.
  destruct (run_instructions_ok (fun _ => True) total P _ _ _ _ (kLaneCount w) (fun _ => t0) 0 true {| values := slots0; fault := None; outputs := outs |}
              (po_once _ _ _ _ _ _ _ _ _ pok)) as (m & E & H).
  - apply Forall_take, (po_index _ _ _ _ _ _ _ _ _ pok).
  - split; [done | done | done |]. intros v s _ [_ [? _]%lookup_replicate_1]%zget_Some. done.
  - done.
  - lia.
  - done.
  - intros k [Hk _]%list_elem_of_filter. by left.
  - exists m. split; [exact E|]. destruct H as [(reason & (k & node & lane & Hk & Hn & Hl & Hr) & Hm)|(Hno & Hg & Ho)].
    + left. exists reason. split; [|done]. exists t0, node. split; [lia|]. split; [by eapply zget_elem | done].
    + right. split; [|split].
      * intros k node Hk Hn. destruct (fault_at t0 node) as [reason|] eqn:Ef; [|done]. destruct (Hno reason). exists k, node, 0. split; [done|]. split; [done|]. split; [lia | done].
      * destruct Hg as [H1 H2 H3 H4]. split; [done | done | done |]. intros v s _ Hh. destruct (H4 v s I Hh) as (slot & Hs & Hl). exists slot. split; [done|].
        intros lane Hr. rewrite (stable_value_at 0 t0); [by apply Hl | exact (po_first _ _ _ _ _ _ _ _ _ pok _ _ Hh)].
      * cbn [outputs] in Ho. rewrite for_each_id in Ho; [by injection Ho|]. intros o node Hin. apply for_each_id. intros o' lane _. apply wstore_value.
        apply list_elem_of_omap in Hin as (k & [Hk _]%list_elem_of_filter & Hn). intros Hop. by apply (not_stable_op k node Hn ltac:(auto)).
Qed.

Lemma batch_ok base live full m :
  ready m -> 1 <= live <= kLaneCount w -> (full = true -> live = kLaneCount w) -> 0 <= base -> base + live <= tile_count view ->
  exists m', run_instructions w domain math view full (loop_instructions plan) base live m = Some m' /\
    ((exists reason, tile_fails base (base + live) reason /\ fault m' = Some reason) \/
     ((forall k node tile, k ∈ loop_group nodes -> zget nodes k = Some node -> base <= tile < base + live -> fault_at tile node = None) /\
      fault m' = None /\ for_each tile_effect (outputs m) (range base (base + live)) = Some (outputs m') /\ (live = kLaneCount w -> ready m'))).
Proof using All.
  intros Hready Hlive Hfull Hb He.
  destruct (run_instructions_ok live_in_loop total P _ _ _ _ live (fun lane => base + lane) base full m (po_loop _ _ _ _ _ _ _ _ _ pok)) as (m' & E & H).
  - apply Forall_drop, (po_index _ _ _ _ _ _ _ _ _ pok).
  - by apply ready_any; [|lia].
  - intros k node ref Hk Hn Hr. destruct (decide (stable_value nodes ref)) as [Hs|]; [left | by right].
    exact (po_pins _ _ _ _ _ _ _ _ _ pok k node ref Hk Hn Hr Hs).
  - done.
  - done.
  - intros k Hk. right. done.
  - exists m'. split; [exact E|]. destruct H as [(reason & (k & node & lane & Hk & Hn & Hl & Hr) & Hm)|(Hno & Hg & Ho)].
    + left. exists reason. split; [|done]. exists (base + lane), node. split; [lia|]. split; [by eapply zget_elem | done].
    + right. split; [|split; [by apply Hg | split]].
      * intros k node tile Hk Hn Ht. destruct (fault_at tile node) as [reason|] eqn:Ef; [|done]. destruct (Hno reason).
        exists k, node, (tile - base). split; [done|]. split; [done|]. split; [lia|]. by replace (base + (tile - base)) with tile by lia.
      * rewrite vector_effect, map_range in Ho by done. exact Ho.
      * intros ->. destruct Hg as [H1 H2 H3 H4]. split; [done | done | done |]. intros v s Hd Hh.
        assert (stable_value nodes v) as Hs by (exact (po_first _ _ _ _ _ _ _ _ _ pok _ _ Hh)).
        assert (holds slots2 v s) as Hh2.
        { destruct Hd as [Hpin|]; [|done]. exact (placed_all_pinned _ _ _ _ _ _ _ _ _ _ (po_loop _ _ _ _ _ _ _ _ _ pok) v s Hpin Hh). }
        destruct (H4 v s Hd Hh2) as (slot & Hsl & Hl). exists slot. split; [done|]. intros lane Hr.
        rewrite (stable_value_at 0 (base + lane) v Hs). by apply Hl.
Qed.

Definition loop_count (count : Z) : LoopCount :=
  {| tiles := count; vectors := count / kLaneCount w; tails := if count mod kLaneCount w =? 0 then 0 else 1 |}.

Definition loop_clean (lo hi : Z) : Prop :=
  forall k node tile, k ∈ loop_group nodes -> zget nodes k = Some node -> lo <= tile < hi -> fault_at tile node = None.

Lemma loop_clean_app lo mid hi : loop_clean lo mid -> loop_clean mid hi -> loop_clean lo hi.
Proof using Type. intros H1 H2 k node tile Hk Hn Ht. destruct (Z.lt_ge_cases tile mid); [apply (H1 k node tile Hk Hn); lia | apply (H2 k node tile Hk Hn); lia]. Qed.

Lemma tile_fails_mono lo hi lo' hi' reason : lo' <= lo -> hi <= hi' -> tile_fails lo hi reason -> tile_fails lo' hi' reason.
Proof using Type. intros H1 H2 (tile & node & Ht & ?). exists tile, node. split; [lia | done]. Qed.

Lemma for_each_range_app {S} (f : S -> Z -> option S) s s1 lo mid hi :
  lo <= mid <= hi -> for_each f s (range lo mid) = Some s1 -> for_each f s (range lo hi) = for_each f s1 (range mid hi).
Proof using Type. intros H E. rewrite (range_app lo mid hi) by done. rewrite for_each_app, E. done. Qed.

Lemma ExecuteLoop_ok begin count m :
  ready m -> 0 <= begin -> 0 < count -> begin + count <= tile_count view ->
  exists m' c, ExecuteLoop w domain math view plan begin count m = Some (m', c) /\
    ((exists reason, tile_fails begin (begin + count) reason /\ fault m' = Some reason) \/
     (loop_clean begin (begin + count) /\ fault m' = None /\
      for_each tile_effect (outputs m) (range begin (begin + count)) = Some (outputs m') /\ c = loop_count count)).
Proof using All.
  intros Hready Hb Hc He. unfold ExecuteLoop. pose proof lane_count as HK. set (K := kLaneCount w) in *.
  pose proof (Z.div_mod count K ltac:(lia)) as Hdm. pose proof (Z.mod_pos_bound count K ltac:(lia)) as Hmod.
  assert (count - count mod K = count / K * K) as Hfull by lia. rewrite Hfull, Z.div_mul by lia.
  assert (0 <= count / K) as Hq by (apply Z.div_pos; lia).
  destruct (for_range_safe (R := Machine * LoopCount)
    (fun i st => ready st.1 /\ loop_clean begin (begin + i * K) /\
       for_each tile_effect (outputs m) (range begin (begin + i * K)) = Some (outputs st.1) /\ st.2 = {| tiles := i * K; vectors := i; tails := 0 |})
    (fun st => exists reason, tile_fails begin (begin + count) reason /\ fault st.1 = Some reason)
    (run_batch w domain math view plan begin) 0 (count / K) (m, {| tiles := 0; vectors := 0; tails := 0 |}) Hq) as [([m1 c1] & E & Hf)|([m1 c1] & E & Hr1 & Hcl & Ho & Hcnt)].
  - cbn [fst snd]. split; [done|]. split; [intros k node tile _ _ ?; lia|]. split; [by rewrite range_nil by lia | done].
  - intros i [m1 c1] Hi (Hr1 & Hcl & Ho & Hcnt). cbn [fst snd] in *. unfold run_batch. fold K.
    destruct (batch_ok (begin + i * K) K true m1 Hr1) as (m2 & E & H2); [lia | done | lia | nia |]. rewrite E. cbn [mbind option_bind].
    destruct H2 as [(reason & Hfail & Hm)|(Hcl2 & Hm & Ho2 & Hr2)]; rewrite Hm.
    + left. eexists. split; [reflexivity|]. exists reason. split; [|done]. eapply tile_fails_mono; [| |exact Hfail]; nia.
    + right. eexists. split; [reflexivity|]. cbn [fst snd]. replace (begin + (i + 1) * K) with (begin + i * K + K) by lia.
      split; [by apply Hr2|]. split; [by eapply loop_clean_app|]. split; [|by rewrite Hcnt; cbn; f_equal; lia].
      by rewrite (for_each_range_app _ _ _ begin (begin + i * K) (begin + i * K + K) ltac:(nia) Ho).
  - rewrite E. cbn [after mbind option_bind]. do 2 eexists. split; [reflexivity|]. by left.
  - cbn [fst snd] in *. rewrite E. cbn [after mbind option_bind]. replace (count - count / K * K) with (count mod K) by lia.
    destruct (Z.eqb_spec (count mod K) 0) as [Hz|Hz].
    + do 2 eexists. split; [reflexivity|]. right. replace (begin + count) with (begin + count / K * K) by lia.
      split; [done|]. split; [by apply Hr1|]. split; [done|]. rewrite Hcnt. unfold loop_count. fold K. rewrite Hz. cbn. f_equal; lia.
    + destruct (batch_ok (begin + count / K * K) (count mod K) false m1 Hr1) as (m2 & E2 & H2); [lia | done | lia | lia |].
      rewrite E2. cbn [mbind option_bind]. do 2 eexists. split; [reflexivity|].
      replace (begin + count / K * K + count mod K) with (begin + count) in H2 by lia.
      destruct H2 as [(reason & Hfail & Hm)|(Hcl2 & Hm & Ho2 & _)].
      * left. exists reason. split; [|done]. eapply tile_fails_mono; [| |exact Hfail]; lia.
      * right. split; [by eapply loop_clean_app|]. split; [done|]. split; [by rewrite (for_each_range_app _ _ _ begin (begin + count / K * K) (begin + count) ltac:(lia) Ho)|].
        rewrite Hm, Hcnt. unfold loop_count. fold K. rewrite (proj2 (Z.eqb_neq _ _) Hz). cbn. f_equal; lia.
Qed.

(** No node fails on the tiles of a run. *)
Lemma clean_tiles begin count t0 :
  (forall k node, k ∈ stable_group nodes -> zget nodes k = Some node -> fault_at t0 node = None) -> loop_clean begin (begin + count) ->
  forall tile, begin <= tile < begin + count -> first_of tile nodes = None.
Proof using All.
  intros Hs Hl tile Ht. apply first_of_None. intros node Hin. apply elem_zget in Hin as [k Hk].
  assert (k ∈ execution_order (stable_flags nodes) (zlen nodes)) as Ho by (apply order_elem; by apply zget_range in Hk).
  rewrite order_eq in Ho. apply elem_of_app in Ho as [Hst|Hlp]; [|by apply (Hl k)].
  rewrite (stable_fault tile t0 k node Hk); [by apply (Hs k)|]. by apply list_elem_of_filter in Hst as [? _].
Qed.

Lemma tile_fails_first lo hi reason : tile_fails lo hi reason -> exists tile r, lo <= tile < hi /\ first_of tile nodes = Some r.
Proof using All.
  intros (tile & node & Ht & Hin & Hr). exists tile. destruct (first_of tile nodes) as [r|] eqn:E; [by exists r|].
  rewrite first_of_None in E. by rewrite E in Hr.
Qed.

(** What a run must return, against the reference. *)
Definition run_result_ok (begin count : Z) (result : option (CpuSimdRunResult * list (list Z))) : Prop :=
  match reference_run w domain math view parsed bindings begin count outs0 with
  | None => False
  | Some (Next outs) => result = Some (AcceptRun (loop_count count), outs)
  | Some (Return _) => exists reason outs, result = Some (RejectRun reason, outs) /\ tile_fails begin (begin + count) reason
  end.

Lemma generic_run_ok begin count slots0 :
  zlen slots0 = total -> 0 <= begin -> 0 < count -> begin + count <= tile_count view ->
  run_result_ok begin count
    (m ← ExecuteOnce w domain math view plan {| values := slots0; fault := None; outputs := outs0 |};
     match fault m with
     | Some reason => Some (RejectRun reason, outputs m)
     | None => r ← ExecuteLoop w domain math view plan begin count m; Some (finish r.1 r.2)
     end).
Proof using All.
  intros Hlen Hb Hc He. unfold run_result_ok.
  destruct (reference_run_eq begin count outs0 Hb ltac:(lia) He eq_refl) as [(tile & r & Ht & Hr & Eref)|(Hno & outs & Eouts & _ & Eref)]; rewrite Eref.
  - destruct (once_ok slots0 outs0 begin Hlen eq_refl) as (m & Em & Hm). rewrite Em. cbn [mbind option_bind].
    destruct Hm as [(reason & Hfail & Hm)|(Hs & Hready & Ho)].
    + rewrite Hm. exists reason, (outputs m). split; [done|]. eapply tile_fails_mono; [| |exact Hfail]; lia.
    + rewrite (gd_fault _ _ _ _ _ _ Hready). destruct (ExecuteLoop_ok begin count m Hready Hb Hc He) as (m2 & c & E2 & H2). rewrite E2.
      cbn [mbind option_bind fst snd]. unfold finish. destruct H2 as [(reason & Hfail & Hm)|(Hcl & Hm & _)].
      * rewrite Hm. by exists reason, (outputs m2).
      * exfalso. pose proof (clean_tiles begin count begin Hs Hcl tile Ht). congruence.
  - destruct (once_ok slots0 outs0 begin Hlen eq_refl) as (m & Em & Hm). rewrite Em. cbn [mbind option_bind].
    destruct Hm as [(reason & Hfail & Hm)|(Hs & Hready & Ho)].
    + exfalso. apply tile_fails_first in Hfail as (tile & r & Ht & Hr). rewrite (Hno tile ltac:(lia)) in Hr. done.
    + rewrite (gd_fault _ _ _ _ _ _ Hready). destruct (ExecuteLoop_ok begin count m Hready Hb Hc He) as (m2 & c & E2 & H2). rewrite E2.
      cbn [mbind option_bind fst snd]. unfold finish. destruct H2 as [(reason & Hfail & Hm)|(Hcl & Hm & Ho2 & ->)].
      * exfalso. apply tile_fails_first in Hfail as (tile & r & Ht & Hr). rewrite (Hno tile Ht) in Hr. done.
      * rewrite Hm. rewrite Ho in Ho2. rewrite Eouts in Ho2. by injection Ho2 as <-.
Qed.
End run.
End map.
