(* ===== verification/CpuAffine.v ===== *)
(** * CpuAffine: the affine path, and the run as a whole

    A program over integers with one input and one output whose operations are affine
    modulo a power of two runs as [x * a + b]. The form of every slot agrees with the value
    the slot holds, so the affine loop writes what the reference writes; with
    [CpuMapFacts] this covers every run. *)
From stdpp Require Import base numbers list option strings sets.
From Stdlib Require Import ZArith Lia.
From S2P Require Import Prelude IrModel CpuLanes CpuPlan CpuExec CpuPlanFacts CpuExecFacts CpuMapFacts.

(** ** Congruence modulo [2 ^ w] *)
Section cong.
Context (w : Z) (width : w = 32 \/ w = 64).
Definition cong (x y : Z) : Prop := exists q, x = y + 2 ^ w * q.

#[export] Instance cong_equivalence : Equivalence cong.
Proof.
  split.
  - intros x. exists 0. lia.
  - intros x y [q ->]. exists (- q). lia.
  - intros x y z [q ->] [q' ->]. exists (q + q'). lia.
Qed.

#[export] Instance cong_add : Proper (cong ==> cong ==> cong) Z.add.
Proof. intros x x' [q ->] y y' [q' ->]. exists (q + q'). lia. Qed.
#[export] Instance cong_sub : Proper (cong ==> cong ==> cong) Z.sub.
Proof. intros x x' [q ->] y y' [q' ->]. exists (q - q'). lia. Qed.
#[export] Instance cong_mul : Proper (cong ==> cong ==> cong) Z.mul.
Proof. intros x x' [q ->] y y' [q' ->]. exists (q * y' + x' * q' + 2 ^ w * q * q'). lia. Qed.

Lemma cong_to_signed z : cong (to_signed w z) z.
Proof using width.
  unfold to_signed, cong. exists (- ((z + 2 ^ (w - 1)) / 2 ^ w)). pose proof (Z.div_mod (z + 2 ^ (w - 1)) (2 ^ w)) as H.
  assert (2 ^ w <> 0) by (destruct width as [->| ->]; done). specialize (H ltac:(done)). lia.
Qed.

Lemma cong_wrap64 z : cong (wrap64 z) z.
Proof using width.
  unfold wrap64, cong. change 18446744073709551616 with (2 ^ 64). pose proof (Z.div_mod z (2 ^ 64) ltac:(done)) as H.
  exists (- (2 ^ (64 - w) * (z / 2 ^ 64))). replace (2 ^ w * - (2 ^ (64 - w) * (z / 2 ^ 64))) with (- (2 ^ 64 * (z / 2 ^ 64))); [lia|].
  assert (2 ^ 64 = 2 ^ w * 2 ^ (64 - w)) as -> by (rewrite <- Z.pow_add_r by lia; f_equal; lia). ring.
Qed.

Lemma cong_eq x y : cong x y -> to_signed w x = to_signed w y.
Proof using width. intros [q ->]. unfold to_signed. f_equal. replace (y + 2 ^ w * q + 2 ^ (w - 1)) with (y + 2 ^ (w - 1) + q * 2 ^ w) by ring. by rewrite Z_mod_plus_full. Qed.

End cong.

(** ** The forms of the slots *)
Section affine.
Context (w : Z) (width : w = 32 \/ w = 64) (domain : ComputeDomain) (math : LaneMath) (view : CpuSimdBindingView).
Context (parsed : ParsedIR) (bindings : BindingPlan) (ok : program_ok parsed bindings).
Context (outs0 : list (list Z)) (fits : view_fits w view parsed bindings outs0).
Context (read_stride : Z -> option Z) (output_full : Z -> bool) (prepared : prepared_for w view parsed bindings read_stride output_full).
Abbreviation nodes := (ir_nodes parsed).
Abbreviation sb := (scalar_bytes w).
Abbreviation value := (value_at w domain math view parsed bindings).
Abbreviation effect := (tile_effect w domain math view parsed bindings).
Abbreviation fault_of := (fault_at w domain math view parsed bindings).
Abbreviation is_placed := (placed parsed bindings read_stride output_full sb).
Abbreviation all_placed := (placed_all parsed bindings read_stride output_full sb).

(** The input of a tile. *)
Definition input (tile : Z) : Z := default 0 (binding ← zget (reads view) 0; load_scalar w (r_data binding) (tile * r_stride binding)).
Definition denotes (f : AffineForm) (v : Z) : Prop := forall tile, cong w (value tile v) (form_a f * input tile + form_b f).

Definition forms_ok (slots : list (option Z)) (get : Z -> AffineForm) : Prop :=
  forall v s, holds slots v s -> form_valid (get s) = true -> denotes (get s) v.

Context (integers : is_fixed domain = false).

Lemma integer_no_fault node tile : wide_always (n_op node) = false -> is_division (n_op node) = false -> fault_of tile node = None.
Proof using All.
  intros Hw Hd. unfold fault_at, node_fault, writes_wide. rewrite Hw, integers. cbn [andb orb]. unfold lane_fault. by destruct (n_op node).
Qed.


Section step.
Context (slots : list (option Z)) (get : Z -> AffineForm) (Hget : forms_ok slots get) (count index : Z).
Context (k : Z) (node : ParsedNode) (i0 : PreparedInstruction) (node' : ParsedNode) (vi : Z).
Context (Hk : zget nodes k = Some node) (Hprep : prep_ok parsed bindings read_stride output_full sb node i0) (Hren : renamed slots node node').
Abbreviation i := (with_value_index (with_node i0 node') vi).

Lemma binary_refs : arity (n_op node) = 2%nat ->
  exists l r, zget (node_refs node) 0 = Some l /\ zget (node_refs node) 1 = Some r /\ holds slots l (n_lhs node') /\ holds slots r (n_rhs node').
Proof using All.
  intros Ha. pose proof (ren_refs _ _ _ Hren) as Hf. pose proof (ren_op _ _ _ Hren) as Ho.
  destruct node as [op l r x f], node' as [op' l' r' x' f']. cbn [n_op] in *. subst op'. rewrite !node_refs_arity, Ha in Hf. rewrite node_refs_arity, Ha.
  exists l, r. cbn in *. apply Forall2_cons in Hf as [? Hf]. apply Forall2_cons in Hf as [? _]. done.
Qed.

Lemma binary_value op l r : arity (n_op node) = 2%nat -> zget (node_refs node) 0 = Some l -> zget (node_refs node) 1 = Some r ->
  (forall a b c fa fb fc, lane_value w false math node fa fb fc a b c = to_signed w (op (to_signed w a) (to_signed w b))) ->
  value_op (n_op node) = true ->
  (forall x x' y y', cong w x x' -> cong w y y' -> cong w (op x y) (op x' y')) ->
  forall tile, cong w (value tile (k + 1)) (op (value tile l) (value tile r)).
Proof using All.
  intros Ha Hl Hr Hop Hv Hc tile.
  assert (value tile (k + 1) = to_signed w (op (to_signed w (value tile l)) (to_signed w (value tile r)))) as ->.
  { rewrite (value_at_node w width domain math view parsed bindings ok tile k node Hk). unfold total_value, tile_value. rewrite integers.
    destruct (n_op node) eqn:Eop; try discriminate Hv; cbn [default];
      rewrite Hop; rewrite (operand_value_at w width domain math view parsed bindings ok tile k node 0 l Hk Hl),
        (operand_value_at w width domain math view parsed bindings ok tile k node 1 r Hk Hr); reflexivity. }
  rewrite cong_to_signed by done. apply Hc; by apply cong_to_signed.
Qed.

Lemma form_of_both form op :
  arity (n_op node) = 2%nat -> value_op (n_op node) = true ->
  (forall a b c fa fb fc, lane_value w false math node fa fb fc a b c = to_signed w (op (to_signed w a) (to_signed w b))) ->
  (forall x x' y y', cong w x x' -> cong w y y' -> cong w (op x y) (op x' y')) ->
  form_valid (get (n_lhs node')) = true -> form_valid (get (n_rhs node')) = true ->
  (forall x, cong w (op (form_a (get (n_lhs node')) * x + form_b (get (n_lhs node'))) (form_a (get (n_rhs node')) * x + form_b (get (n_rhs node'))))
               (form_a form * x + form_b form)) ->
  denotes form (k + 1).
Proof using All.
  intros Ha Hv Hlane Hc Hl Hr Hf tile. destruct (binary_refs Ha) as (l & r & El & Er & Hhl & Hhr).
  rewrite (binary_value op l r Ha El Er Hlane Hv Hc tile). etransitivity; [|apply Hf].
  apply Hc; [by apply (Hget l) | by apply (Hget r)].
Qed.

(** A step whose instruction has a value gives a form the value denotes. *)
Lemma affine_step_value form :
  affine_step sb count index get i = Some (inl form) ->
  n_op node <> Op.Write /\ (form_valid form = true -> denotes form (k + 1)) /\ forall tile, fault_of tile node = None.
Proof using All.
  unfold affine_step. cbv zeta beta. change (i_node i) with node'. rewrite (ren_op _ _ _ Hren).
  pose proof Hprep as (Hn & _ & Hp). pose proof (integer_no_fault node) as Hnf. pose proof form_of_both as Hboth.
  assert (forall tile, value tile (k + 1) = default 0 (tile_value w domain math view parsed bindings (env_of w domain math view parsed bindings tile) tile node)) as Hvalue
    by (intros tile; by rewrite (value_at_node w width domain math view parsed bindings ok tile k node Hk)).
  unfold tile_value in Hvalue. destruct (n_op node) eqn:Eop; try discriminate; intros E.
  - injection E as <-. split; [done|]. split; [|auto]. intros _ tile. destruct Hp as (_ & b & Hb & Him). rewrite Hvalue, Hb. cbn [mbind option_bind default].
    rewrite <- Him. rewrite cong_to_signed by done. cbn [a_form form_a form_b]. change (immediate i) with (immediate i0). rewrite (cong_wrap64 w width (immediate i0)).
    by rewrite (cong_wrap64 w width 0), Z.mul_0_l.
  - destruct (binding_slot i =? 0) eqn:Hz; [|discriminate E]. apply Z.eqb_eq in Hz. cbn [negb] in E. injection E as <-. split; [done|]. split; [|auto]. intros _ tile.
    destruct Hp as (slot & stride & Hs & Hbs & _). change (binding_slot i) with (binding_slot i0) in Hz. rewrite Hbs in Hz. subst slot.
    rewrite Hvalue, Hs. cbn [mbind option_bind a_form form_a form_b]. rewrite Hz. unfold input.
    rewrite (cong_wrap64 w width 1), (cong_wrap64 w width 0). by rewrite Z.mul_1_l, Z.add_0_r.
  - destruct (_ || _); discriminate E.
  - destruct (form_valid (get (n_lhs node'))) eqn:Hl; [|discriminate E]. destruct (form_valid (get (n_rhs node'))) eqn:Hr; [|discriminate E].
    cbn [negb orb] in E. injection E as <-. split; [done|]. split; [|auto]. intros _.
    apply (Hboth _ Z.add); try done; [intros; autounfold with lanes; by rewrite Eop | intros; by apply cong_add |].
    intros x. cbn [a_form form_a form_b]. rewrite !cong_wrap64 by done. exists 0. ring.
  - destruct (form_valid (get (n_lhs node'))) eqn:Hl; [|discriminate E]. destruct (form_valid (get (n_rhs node'))) eqn:Hr; [|discriminate E].
    cbn [negb orb] in E. injection E as <-. split; [done|]. split; [|auto]. intros _.
    apply (Hboth _ Z.sub); try done; [intros; autounfold with lanes; by rewrite Eop | intros; by apply cong_sub |].
    intros x. cbn [a_form form_a form_b]. rewrite !cong_wrap64 by done. exists 0. ring.
  - destruct (form_valid (get (n_lhs node'))) eqn:Hl; [|discriminate E]. destruct (form_valid (get (n_rhs node'))) eqn:Hr; [|discriminate E].
    cbn [negb orb] in E. destruct (negb (form_a (get (n_lhs node')) =? 0) && negb (form_a (get (n_rhs node')) =? 0)) eqn:Ez; [discriminate E|].
    injection E as <-. split; [done|]. split; [|auto]. intros _.
    apply (Hboth _ Z.mul); try done; [intros; autounfold with lanes; by rewrite Eop | intros; by apply cong_mul |].
    intros x. cbn [a_form form_a form_b]. rewrite !cong_wrap64 by done. exists 0.
    apply andb_false_iff in Ez as [Ez|Ez]; apply negb_false_iff, Z.eqb_eq in Ez; rewrite Ez; ring.
  - destruct (form_valid (get (n_lhs node'))) eqn:Hl; [|discriminate E]. destruct (form_valid (get (n_rhs node'))) eqn:Hr; [|discriminate E].
    cbn [negb orb] in E. destruct (negb (form_a (get (n_lhs node')) =? 0) && negb (form_a (get (n_rhs node')) =? 0)) eqn:Ez; [discriminate E|].
    injection E as <-. split; [done|]. split; [|auto]. intros _.
    apply (Hboth _ Z.mul); try done; [intros; autounfold with lanes; by rewrite Eop | intros; by apply cong_mul |].
    intros x. cbn [a_form form_a form_b]. rewrite !cong_wrap64 by done. exists 0.
    apply andb_false_iff in Ez as [Ez|Ez]; apply negb_false_iff, Z.eqb_eq in Ez; rewrite Ez; ring.
  - injection E as <-. split; [done|]. split; [|auto]. intros _ tile. rewrite Hvalue. cbn [default a_form form_a form_b]. unfold constant_value.
    pose proof (ren_rest _ _ _ Hren) as Hrest. rewrite Eop in Hrest. cbn in Hrest. injection Hrest as H1 H2 _. rewrite H1, H2.
    rewrite cong_to_signed by done. rewrite (cong_wrap64 w width 0), (cong_wrap64 w width (Z.lor _ _)). rewrite Z.mul_0_l, Z.add_0_l.
    destruct width as [-> | ->]; cbn; [by rewrite Z.lor_0_r | done].
  - injection E as <-. split; [done|]. split; [done | auto].
Qed.


Lemma affine_step_reads form :
  affine_step sb count index get i = Some (inl form) -> n_op node <> Op.ReadUniform /\ n_op node <> Op.ReadAt.
Proof using All.
  unfold affine_step. cbv zeta beta. change (i_node i) with node'. rewrite (ren_op _ _ _ Hren).
  destruct (n_op node); try discriminate; done.
Qed.

(** The step that ends a program is its write, of dense scalars, to the output. *)
Lemma affine_step_write form :
  affine_step sb count index get i = Some (inr form) ->
  n_op node = Op.Write /\ index + 1 = count /\ form_valid form = true /\
  exists ref b, zget (node_refs node) 0 = Some ref /\ denotes form ref /\ zget (CpuPlan.slots bindings) (n_aux node) = Some 0 /\
    zget (ir_bindings parsed) (n_aux node) = Some b /\ b_element_bytes b = sb.
Proof using All.
  unfold affine_step. cbv zeta beta. change (i_node i) with node'. rewrite (ren_op _ _ _ Hren).
  pose proof Hprep as (_ & _ & Hp). pose proof (ren_refs _ _ _ Hren) as Hrefs. pose proof (ren_op _ _ _ Hren) as Ho.
  destruct (n_op node) eqn:Eop; try discriminate;
    try (destruct (negb _ || negb _); [discriminate|]; try destruct (negb _ && negb _); discriminate); intros E.
  - destruct (negb _) in E; discriminate E.
  - destruct (form_valid (get (n_lhs node'))) eqn:Hv; [|discriminate E]. cbn [negb orb] in E.
    destruct (index + 1 =? count) eqn:Hi; [|discriminate E]. cbn [negb orb] in E.
    destruct (binding_slot i =? 0) eqn:Hs; [|discriminate E]. cbn [negb orb] in E.
    destruct (element_bytes i =? sb) eqn:He; [|discriminate E]. cbn [negb] in E. injection E as <-. to_prop.
    destruct Hp as (b & Hslot & Hb & Heb & _). change (binding_slot i) with (binding_slot i0) in Hs. change (element_bytes i) with (element_bytes i0) in He.
    split; [done|]. split; [done|]. split; [done|].
    destruct node as [op l r x f], node' as [op' l' r' x' f']. cbn [n_op n_aux] in *. subst op. subst op'.
    rewrite !node_refs_arity in *. cbn in Hrefs. apply Forall2_cons in Hrefs as [Hh _].
    exists l, b. split; [done|]. split; [by apply (Hget l)|]. split; [congruence|]. split; [done | congruence].
Qed.
End step.

(** What a valid form says of a program. *)
Record affine_program (form : AffineForm) (ks : list Z) (kw : Z) (write : ParsedNode) (ref : Z) : Prop := {
  ap_others : forall k node, k ∈ ks -> zget nodes k = Some node ->
    n_op node <> Op.Write /\ n_op node <> Op.ReadUniform /\ n_op node <> Op.ReadAt /\ forall tile, fault_of tile node = None;
  ap_node : zget nodes kw = Some write;
  ap_write : n_op write = Op.Write;
  ap_ref : zget (node_refs write) 0 = Some ref;
  ap_denotes : denotes form ref;
  ap_slot : zget (slots bindings) (n_aux write) = Some 0;
  ap_binding : exists b, zget (ir_bindings parsed) (n_aux write) = Some b /\ b_element_bytes b = sb;
}.

Lemma affine_walk_ok P slots ks code slots' forms index count form :
  all_placed P slots ks code slots' -> forms_ok slots (fun slot => default no_form (zget forms slot)) -> count = index + zlen code ->
  affine_walk sb count forms index code = form -> form_valid form = true ->
  exists ks1 kw write ref, ks = ks1 ++ [kw] /\ affine_program form ks1 kw write ref.
Proof using All.
  intros Hp. revert forms index. induction Hp as [slots|slots k i slots1 ks code slots' Hi Hp IH]; intros forms index Hf Hc Hw Hv; cbn [affine_walk] in Hw;
    [by subst form|].
  destruct Hi as [(node & i0 & node' & Hk & Hi0 & Hren & Ei) _ Hframe _].
  pose proof (prepare_spec w width domain math view parsed bindings ok outs0 fits read_stride output_full prepared k node i0 Hk Hi0) as Hprep.
  assert (i_node i0 = node) as Hn by apply Hprep. rewrite Hn in Hren.
  set (get := fun slot => default no_form (zget forms slot)) in *. set (vi := value_index i) in *. 
  destruct (affine_step sb count index get i) as [[f|f]|] eqn:Es; [| |by subst form].
  - rewrite Ei in Es. destruct (affine_step_value slots get Hf count index k node i0 node' vi Hk Hprep Hren f Es) as (Hnw & Hden & Hnf).
    pose proof (affine_step_reads slots get Hf count index k node i0 node' vi Hk Hprep Hren f Es) as [Hr1 Hr2].
    destruct (zset forms vi f) as [forms'|] eqn:Ez; [|by subst form]. apply zset_inv in Ez as [Hr ->].
    assert (n_op (i_node i) = n_op node) as Hop by (rewrite Ei; exact (ren_op _ _ _ Hren)). rewrite Hop in Hframe.
    destruct (IH (<[Z.to_nat vi := f]> forms) (index + 1)) as (ks1 & kw & write & ref & -> & [Ho H]); [| rewrite zlen_cons in Hc; lia | done | done |].
    + intros v s Hh. destruct (Hframe v s Hh) as [(-> & -> & _)|(_ & Hh' & Hs)].
      * rewrite zget_insert_eq by done. exact Hden.
      * rewrite zget_insert_ne by (done || (specialize (Hs Hnw); lia)). by apply Hf.
    + exists (k :: ks1), kw, write, ref. split; [done|]. split; try done.
      intros k' nd [->|Hin]%elem_of_cons Hnd; [|by apply (Ho k')]. rewrite Hk in Hnd. injection Hnd as <-. done.
  - rewrite Ei in Es. destruct (affine_step_write slots get Hf count index k node i0 node' vi Hk Hprep Hren f Es) as (Hop & Hlast & _ & (ref & b & H1 & H2 & H3 & H4 & H5)).
    subst f. rewrite zlen_cons in Hc. assert (code = []) as -> by (apply zlen_0; lia). assert (ks = []) as -> by (apply placed_length in Hp; by destruct ks).
    exists [], k, node, ref. split; [done|]. split; try done; [set_solver | by exists b].
Qed.

(** ** The affine loop *)
Section loop.
Context (form : AffineForm) (ks : list Z) (kw : Z) (write : ParsedNode) (ref : Z) (ap : affine_program form ks kw write ref).
Context (all_nodes : forall k, 0 <= k < zlen nodes -> k ∈ ks \/ k = kw).
Context (binding : CpuSimdReadBinding) (Hbinding : zget (reads view) 0 = Some binding) (dense_in : r_stride binding = sb).
Context (dense_out : zget (write_strides view) 0 = Some sb).

Lemma affine_clean tile node : node ∈ nodes -> fault_of tile node = None.
Proof using All.
  intros Hin. apply elem_zget in Hin as [k Hk]. destruct (all_nodes k ltac:(by apply zget_range in Hk)) as [Hks| ->].
  - by apply (ap_others _ _ _ _ _ ap k node Hks Hk).
  - rewrite (ap_node _ _ _ _ _ ap) in Hk. injection Hk as <-. apply integer_no_fault; by rewrite (ap_write _ _ _ _ _ ap).
Qed.

Lemma input_fits : source_fits view 0 (tile_count view) sb.
Proof using All.
  destruct (fits_reads _ _ _ _ _ fits 0 binding Hbinding) as (node & Hin & Hr). pose proof (fits_nodes _ _ _ _ _ fits node Hin) as Hf.
  apply elem_zget in Hin as [k Hk].
  assert (n_op node <> Op.ReadUniform /\ n_op node <> Op.ReadAt) as [H1 H2].
  { destruct (all_nodes k ltac:(by apply zget_range in Hk)) as [Hks| ->]; [destruct (ap_others _ _ _ _ _ ap k node Hks Hk) as (_ & ? & ? & _); done|].
    rewrite (ap_node _ _ _ _ _ ap) in Hk. injection Hk as <-. by rewrite (ap_write _ _ _ _ _ ap). }
  destruct Hr as [[[Hop|[Hop|Hop]] Hs]|[Hop _]]; try done. unfold node_fits in Hf. rewrite Hop in Hf.
  destruct Hf as (slot & Hs' & _ & Hfit). rewrite Hs in Hs'. by injection Hs' as <-.
Qed.

Definition affine_store (outs : list (list Z)) (tile : Z) : option (list (list Z)) :=
  store_at 0 sb outs (tile * sb) (unsigned w (affine_apply w form (input tile))).

Lemma affine_value tile : unsigned w (affine_apply w form (input tile)) = unsigned w (to_signed w (value tile ref)).
Proof using All.
  apply to_signed_eq; [done|]. apply cong_eq; [done|]. unfold affine_apply, AddWrap, MulLow.
  rewrite !(cong_to_signed w width). symmetry. rewrite (ap_denotes _ _ _ _ _ ap tile). by rewrite Z.mul_comm.
Qed.

Lemma affine_effect tile outs : effect outs tile = affine_store outs tile.
Proof using All.
  unfold tile_effect. destruct (node_split w width domain math view parsed bindings ok kw write (ap_node _ _ _ _ _ ap)) as [E Hl]. rewrite E.
  assert (forall j node, j <> kw -> zget nodes j = Some node -> n_op node <> Op.Write) as Hothers.
  { intros j node Hne Hj. destruct (all_nodes j ltac:(by apply zget_range in Hj)) as [Hks|]; [|done]. by apply (ap_others _ _ _ _ _ ap j node Hks Hj). }
  rewrite for_each_app. rewrite for_each_id.
  2: { intros o node Hin. apply wstore_value; try done. apply elem_zget in Hin as [j Hj]. pose proof (zget_range _ _ _ Hj) as Hr. rewrite Hl in Hr.
       apply (Hothers j); [lia|]. rewrite E, zget_app_l by lia. done. }
  cbn [mbind option_bind for_each].
  assert (wstore w domain math view parsed bindings tile outs write = affine_store outs tile) as ->.
  { unfold wstore, tile_store, is_write. rewrite bool_decide_true by apply ap. rewrite (ap_slot _ _ _ _ _ ap). cbn [mbind option_bind].
    destruct (ap_binding _ _ _ _ _ ap) as (b & Hb & Heb). rewrite Hb. cbn [mbind option_bind]. rewrite dense_out. cbn [mbind option_bind].
    unfold affine_store, stored_size, stored_value. rewrite Heb, Z.eqb_refl, affine_value.
    by rewrite (operand_value_at w width domain math view parsed bindings ok tile kw write 0 ref (ap_node _ _ _ _ _ ap) (ap_ref _ _ _ _ _ ap)). }
  destruct (affine_store outs tile); [|done]. cbn [mbind option_bind]. apply for_each_id. intros o node Hin. apply wstore_value; try done.
  apply elem_zget in Hin as [j Hj]. apply (Hothers (kw + 1 + j)); [apply zget_range in Hj; lia|].
  rewrite E. pose proof (zget_range _ _ _ Hj). rewrite zget_app_ge by lia. rewrite Hl.
  change (write :: drop (S (Z.to_nat kw)) nodes) with ([write] ++ drop (S (Z.to_nat kw)) nodes). rewrite zget_app_ge by (change (zlen [write]) with 1; lia).
  change (zlen [write]) with 1. by replace (kw + 1 + j - kw - 1) with j by lia.
Qed.

Lemma for_each_pairs {S} (f : S -> Z -> Z -> option S) (g : Z -> Z) s n l :
  zlen l = n -> (forall lane, 0 <= lane < n -> zget l lane = Some (g lane)) ->
  for_each (fun s '(lane, x) => f s lane x) s (zip (range 0 n) l) = for_each (fun s lane => f s lane (g lane)) s (range 0 n).
Proof using Type.
  intros Hl Hg. assert (zip (range 0 n) l = map (fun lane => (lane, g lane)) (range 0 n)) as ->.
  { rewrite <- Hl in *. apply list_eq. intros j.
    change (map (fun lane => (lane, g lane)) (range 0 (zlen l))) with ((fun lane => (lane, g lane)) <$> range 0 (zlen l)). rewrite list_lookup_fmap.
    destruct (decide (Z.of_nat j < zlen l)) as [Hj|Hj].
    - assert (range 0 (zlen l) !! j = Some (Z.of_nat j)) as Er by (unfold range; apply lookup_seqZ; lia). rewrite Er. cbn.
      apply lookup_zip_Some. split; [done|]. specialize (Hg (Z.of_nat j) ltac:(lia)). by rewrite zget_nat in Hg.
    - rewrite (lookup_ge_None_2 (range 0 (zlen l)) j) by (rewrite length_range; lia). cbn. apply lookup_ge_None_2. rewrite length_zip, length_range. unfold zlen in *. lia. }
  generalize (range 0 n). intros ls. revert s. induction ls as [|x ls IH]; intros s; [done|]. cbn. destruct (f s x (g x)); cbn; [apply IH | done].
Qed.

Lemma affine_chunk_ok begin live outs offset :
  0 <= begin -> 0 <= offset -> 0 <= live -> begin + offset + live <= tile_count view -> begin < tile_count view ->
  affine_chunk w view form begin live outs offset = for_each affine_store outs (range (begin + offset) (begin + offset + live)).
Proof using All.
  intros Hb Ho Hl He Hlt. unfold affine_chunk. rewrite Hbinding. cbn [mbind option_bind].
  destruct input_fits as (b & Hb' & Hst & Hmax & _ & Hfit). rewrite Hbinding in Hb'. injection Hb' as <-. rewrite dense_in in Hfit.
  assert (0 <= sb) as Hsb by (destruct width as [->| ->]; done).
  assert (ByteOffset begin sb = begin * sb) as Hoff by (apply (byte_offset _ _ (zlen (r_data binding))); [done | done | specialize (Hfit begin ltac:(lia)); lia | done]).
  rewrite Hoff.
  assert (forall lane, begin * sb + (offset + lane) * sb = (begin + offset + lane) * sb) as Hcur by (intros; lia).
  destruct (mapM_range (fun lane => load_scalar w (r_data binding) (begin * sb + (offset + lane) * sb)) (fun lane => input (begin + offset + lane)) live live)
    as (l & El & Hz).
  { intros lane Hr. specialize (Hfit (begin + offset + lane) ltac:(lia)). rewrite Hcur.
    destruct (load_scalar_Some w (r_data binding) ((begin + offset + lane) * sb)) as [v Hv]; [nia | lia |]. exists v. split; [done|]. intros _.
    unfold input. rewrite Hbinding. cbn [mbind option_bind]. by rewrite dense_in, Hv. }
  rewrite El. cbn [mbind option_bind].
  assert (zlen l = live) as Hlen.
  { apply length_mapM in El. unfold zlen. rewrite <- El, length_range. lia. }
  rewrite (for_each_pairs (fun outs lane input => store_at 0 sb outs (begin * sb + (offset + lane) * sb) (unsigned w (affine_apply w form input)))
             (fun lane => input (begin + offset + lane)) outs live l Hlen) by (intros; apply Hz; lia).
  rewrite <- (map_range (begin + offset) live). generalize (range 0 live). intros ls. revert outs. induction ls as [|lane ls IH]; intros outs; [done|].
  cbn [for_each map]. rewrite Hcur. fold (affine_store outs (begin + offset + lane)). destruct (affine_store outs (begin + offset + lane)); cbn [mbind option_bind]; [apply IH | done].
Qed.

Lemma for_each_blocks {S} (f : S -> Z -> option S) s begin K q : 0 <= K -> 0 <= q ->
  for_each (fun s b => for_each f s (range (begin + b * K) (begin + b * K + K))) s (range 0 q) = for_each f s (range begin (begin + q * K)).
Proof using Type.
  intros HK Hq. remember (Z.to_nat q) as n eqn:En. revert q Hq En. induction n as [|n IH]; intros q Hq En.
  - rewrite range_nil by lia. rewrite range_nil by lia. done.
  - replace q with (q - 1 + 1) by lia. rewrite range_snoc by lia. rewrite for_each_app, IH by lia.
    rewrite (range_app begin (begin + (q - 1) * K) (begin + (q - 1 + 1) * K)) by nia. rewrite for_each_app.
    destruct (for_each f s (range begin (begin + (q - 1) * K))) as [s1|]; [|done]. cbn [mbind option_bind for_each].
    replace (begin + (q - 1 + 1) * K) with (begin + (q - 1) * K + K) by ring. by destruct (for_each f s1 _).
Qed.

Lemma ExecuteAffine_ok begin count outs :
  0 <= begin -> 0 < count -> begin + count <= tile_count view ->
  ExecuteAffine w view form begin count outs =
  (outs' ← for_each affine_store outs (range begin (begin + count)); Some (outs', loop_count w count)).
Proof using All.
  intros Hb Hc He. unfold ExecuteAffine. pose proof (lane_count w width domain math view parsed bindings ok outs0 fits read_stride output_full prepared) as HK.
  unfold loop_count. set (K := kLaneCount w) in *.
  pose proof (Z.div_mod count K ltac:(lia)) as Hdm. pose proof (Z.mod_pos_bound count K ltac:(lia)) as Hmod.
  assert (count - count mod K = count / K * K) as Hfull by lia. rewrite Hfull, Z.div_mul by lia.
  assert (0 <= count / K) as Hq by (apply Z.div_pos; lia).
  replace (count - count / K * K) with (count mod K) by lia.
  assert (for_each (fun outs batch => affine_chunk w view form begin K outs (batch * K)) outs (range 0 (count / K)) =
          for_each affine_store outs (range begin (begin + count / K * K))) as ->.
  { rewrite <- for_each_blocks by lia. apply for_each_ext. intros o b Hb'%elem_of_range. apply affine_chunk_ok; nia. }
  rewrite (range_app begin (begin + count / K * K) (begin + count)) by lia. rewrite for_each_app.
  destruct (for_each affine_store outs (range begin (begin + count / K * K))) as [o|]; [|done]. cbn [mbind option_bind].
  destruct (Z.eqb_spec (count mod K) 0) as [Hz|Hz].
  - rewrite range_nil by lia. done.
  - rewrite affine_chunk_ok by lia. replace (begin + count / K * K + count mod K) with (begin + count) by lia. done.
Qed.

Lemma affine_run_ok begin count :
  0 <= begin -> 0 < count -> begin + count <= tile_count view ->
  run_result_ok w domain math view parsed bindings outs0 begin count
    (r ← ExecuteAffine w view form begin count outs0; Some (AcceptRun r.2, r.1)).
Proof using All.
  intros Hb Hc He. unfold run_result_ok. rewrite ExecuteAffine_ok by done.
  destruct (reference_run_eq w width domain math view parsed bindings ok outs0 fits begin count outs0 Hb ltac:(lia) He eq_refl)
    as [(tile & r & Ht & Hr & Eref)|(Hno & outs & Eouts & _ & ->)].
  - exfalso. assert (first_of w domain math view parsed bindings tile nodes = None) as Hn; [|congruence].
    apply (first_of_None w width domain math view parsed bindings ok outs0 fits). intros node Hin. by apply affine_clean.
  - assert (for_each affine_store outs0 (range begin (begin + count)) = Some outs) as ->.
    { rewrite <- Eouts. apply for_each_ext. intros o t _. symmetry. apply affine_effect. }
    done.
Qed.
End loop.
End affine.

(** ** A map of five tiles: the larger of seven and seven times the input *)
Module Example5.
Definition zero_math : LaneMath :=
  {| turn_sin := fun _ => 0; turn_cos := fun _ => 0; exp2 := fun _ => 0; log2 := fun _ => 0; turn_atan2 := fun _ _ => 0 |}.
Definition parsed : ParsedIR :=
  mkIR [] 3 no_format [mkBinding 2 3 [105] 4 false []; mkBinding 3 3 [111] 4 false []]
    [mkNode Op.Read 0 0 0 no_format; mkNode Op.Constant 7 0 0 no_format; mkNode Op.Mul 1 2 0 no_format;
     mkNode Op.Max 3 2 0 no_format; mkNode Op.Write 4 0 1 no_format].
Definition bindings : BindingPlan := BuildBindingPlan parsed.
Definition view : CpuSimdBindingView :=
  {| reads := [{| r_data := concat (map (le_bytes 4) [1; -2; 3; 0; 5]); r_stride := 4 |}];
     write_strides := [4]; logical_offset := 0; tile_count := 5 |}.
Definition outs : list (list Z) := [replicate 20 0].
Definition read_stride (slot : Z) : option Z := r_stride <$> zget (reads view) slot.
Definition output_full (slot : Z) : bool := slot =? 0.
Definition plan : option PreparedPlan := BuildPreparedPlan parsed bindings read_stride output_full 4.

(** Three instructions share a slot: four values in two slots. *)
Example two_slots : value_slot_count <$> plan = Some 2.
Proof. vm_compute. reflexivity. Qed.

Example outputs5 :
  (plan ← plan; RunFixedLane 32 I32 zero_math view plan (BuildAffinePlan I32 plan 4) 0 5 (replicate 2 (mkSlot [] [] false)) outs) =
  Some (AcceptRun {| tiles := 5; vectors := 1; tails := 1 |}, [concat (map (le_bytes 4) [7; 7; 21; 7; 35])]).
Proof. vm_compute. reflexivity. Qed.

Lemma parsed_ok : program_ok parsed bindings.
Proof.
  split; try (vm_compute; (reflexivity || discriminate)).
  apply Forall_forall. repeat constructor; vm_compute; (discriminate || reflexivity).
Qed.

Lemma parsed_fits : view_fits 32 view parsed bindings outs.
Proof.
  split.
  - split; vm_compute; discriminate.
  - apply Forall_forall. repeat constructor.
    + exists 0. split; [reflexivity|]. split; [split; vm_compute; discriminate|]. eexists. split; [reflexivity|].
      split; [vm_compute; discriminate|]. split; [vm_compute; discriminate|]. split.
      * repeat constructor; vm_compute; (discriminate || reflexivity).
      * change (tile_count view) with 5. change (zlen _) with 20. change (scalar_bytes 32) with 4. cbn [r_stride]. lia.
    + exists 0. eexists. split; [reflexivity|]. split; [split; vm_compute; discriminate|]. split; [reflexivity|].
      eexists _, _. split; [reflexivity|]. split; [reflexivity|]. split; [vm_compute; discriminate|]. split; [vm_compute; discriminate|].
      change (tile_count view) with 5. change (zlen _) with 20. change (stored_size 32 _) with 4. lia.
  - intros slot binding [? H]%zget_Some. exists (mkNode Op.Read 0 0 0 no_format). split; [left|]. left. split; [by left|].
    change (Some 0 = Some slot). f_equal. apply lookup_lt_Some in H. cbn in H. lia.
Qed.

Lemma parsed_prepared : prepared_for 32 view parsed bindings read_stride output_full.
Proof.
  split; [done|]. intros node slot binding Hin Hop Hs Hb Hf. apply Z.eqb_eq in Hf as ->. split; [|reflexivity].
  revert node Hin Hop Hs Hb. refine (proj1 (Forall_forall _ _) _). repeat constructor; try discriminate. intros _ _ [= <-]. reflexivity.
Qed.
End Example5.

(** ** The run *)
Section whole.
Context (w : Z) (width : w = 32 \/ w = 64) (domain : ComputeDomain) (math : LaneMath) (view : CpuSimdBindingView).
Context (parsed : ParsedIR) (bindings : BindingPlan) (read_stride : Z -> option Z) (output_full : Z -> bool) (outs : list (list Z)).
Abbreviation prepared_plan := (BuildPreparedPlan parsed bindings read_stride output_full (scalar_bytes w)).

Lemma map_runs :
  program_ok parsed bindings -> view_fits w view parsed bindings outs -> prepared_for w view parsed bindings read_stride output_full ->
  exists plan, prepared_plan = Some plan /\ 0 < value_slot_count plan /\
    forall slots0 begin count, zlen slots0 = value_slot_count plan -> 0 <= begin -> 0 <= count ->
      run_admitted view plan begin count = true ->
      run_result_ok w domain math view parsed bindings outs begin count
        (RunFixedLane w domain math view plan (BuildAffinePlan domain plan (scalar_bytes w)) begin count slots0 outs).
Proof using width.
  intros ok fits prepared.
  assert (forall k node, zget (ir_nodes parsed) k = Some node -> exists i, PrepareInstruction parsed bindings read_stride output_full (scalar_bytes w) k = Some i /\
    i_node i = node /\ CpuSimdExecutorSlotValid (full_executor_slot i) = true /\ CpuSimdExecutorSlotValid (tail_executor_slot i) = true) as Hprep.
  { intros k node Hk. destruct (PrepareInstruction_ok parsed bindings read_stride output_full (scalar_bytes w) k node ok Hk) as (i & E & [Hn _] & H).
    - eapply (node_preparable w width domain math view parsed bindings ok outs fits _ _ prepared), zget_elem, Hk.
    - by exists i. }
  destruct (plan_built parsed bindings read_stride output_full (scalar_bytes w) ok Hprep) as (plan & P & slots1 & slots2 & Eplan & pok).
  exists plan. split; [done|]. split; [apply pok|]. intros slots0 begin count Hlen Hb Hc Hadm. unfold RunFixedLane. rewrite Hadm. cbn [negb].
  unfold run_admitted in Hadm. to_prop.
  destruct (form_valid (BuildAffinePlan domain plan (scalar_bytes w)) && _ && _) eqn:Eaff.
  2: { eapply generic_run_ok; try done. lia. }
  apply andb_prop in Eaff as [[Hv Hin]%andb_prop Hout]. apply bool_decide_eq_true in Hin, Hout.
  destruct (zget (reads view) 0) as [binding|] eqn:Eb; [|done]. injection Hin as Hin.
  unfold BuildAffinePlan in Hv |- *. destruct (bool_decide (domain = Fixed)) eqn:Efix; [done|]. cbn [orb] in *.
  destruct (negb (plan_reads plan =? 1) || negb (plan_writes plan =? 1)); [done|].
  assert (placed_all parsed bindings read_stride output_full (scalar_bytes w) P (replicate (Z.to_nat (zlen (ir_nodes parsed) + 1)) None)
            (execution_order (stable_flags (ir_nodes parsed)) (zlen (ir_nodes parsed))) (instructions plan) slots2) as Hall.
  { rewrite order_eq, <- (take_drop (Z.to_nat (once_count plan)) (instructions plan)). eapply placed_join; [apply pok | apply pok]. }
  set (form := affine_walk _ _ _ _ _) in *.
  destruct (affine_walk_ok w width domain math view parsed bindings ok outs fits read_stride output_full prepared Efix P _ _ _ _
              (replicate (Z.to_nat (value_slot_count plan)) no_form) 0 (zlen (instructions plan)) form Hall) as (ks & kw & write & ref & Eks & Hap).
  - intros v s [_ [? _]%lookup_replicate_1]%zget_Some. done.
  - done.
  - done.
  - exact Hv.
  - eapply affine_run_ok; try done; [| lia].
    intros k Hk. assert (k ∈ execution_order (stable_flags (ir_nodes parsed)) (zlen (ir_nodes parsed))) as Hin' by by apply order_elem.
    rewrite Eks in Hin'. apply elem_of_app in Hin' as [?|?%list_elem_of_singleton]; auto.
Qed.

(** C9: A valid program always has a plan, and from any scratch the prepared run of any
    tiles, by vectors or by the affine loop, is accepted with the outputs and the counts of
    the tile-by-tile reference, or is rejected when a tile of the reference fails. *)
Theorem cpu_map_refines :
  program_ok parsed bindings -> view_fits w view parsed bindings outs -> prepared_for w view parsed bindings read_stride output_full ->
  exists plan, prepared_plan = Some plan /\
    forall slots0 begin count, zlen slots0 = value_slot_count plan -> 0 <= begin -> 0 <= count ->
      run_admitted view plan begin count = true ->
      run_result_ok w domain math view parsed bindings outs begin count
        (RunFixedLane w domain math view plan (BuildAffinePlan domain plan (scalar_bytes w)) begin count slots0 outs).
Proof using width.
  intros ok fits prepared. destruct (map_runs ok fits prepared) as (plan & E & _ & H). by exists plan.
Qed.
End whole.

Lemma cpu_map_refines_witness :
  exists plan, Example5.plan = Some plan /\
    forall slots0 begin count, zlen slots0 = value_slot_count plan -> 0 <= begin -> 0 <= count ->
      run_admitted Example5.view plan begin count = true ->
      run_result_ok 32 I32 Example5.zero_math Example5.view Example5.parsed Example5.bindings Example5.outs begin count
        (RunFixedLane 32 I32 Example5.zero_math Example5.view plan (BuildAffinePlan I32 plan 4) begin count slots0 Example5.outs).
Proof.
  exact (cpu_map_refines 32 (or_introl eq_refl) I32 Example5.zero_math Example5.view Example5.parsed Example5.bindings
    Example5.read_stride Example5.output_full Example5.outs Example5.parsed_ok Example5.parsed_fits Example5.parsed_prepared).
Defined.
