(* ===== verification/CpuRun.v ===== *)
(** * CpuRun: an admitted map with accepted bindings runs as it means to

    The checks of an IR and of the bindings of an invocation give what the execution of
    the plan relies on ([CpuExec.view_fits]); so the run of an admitted map over buffers
    that hold what their spans say never leaves them and computes the map. *)
From stdpp Require Import base numbers list option strings.
From Stdlib Require Import ZArith Lia.
From S2P Require Import Prelude IrModel IrCodec IrValidate CpuLanes CpuPlan CpuExec CpuPlanFacts CpuExecFacts CpuMapFacts CpuAffine CpuPrepare.

(** ** Ordinals of the bindings *)
Definition of_kind (kind : Z) (bs : list ParsedBinding) : Z := zlen (filter (fun b => b_kind b = kind) bs).
Definition param_size (bs : list ParsedBinding) : Z :=
  foldr (fun b n => (if b_kind b =? kParamBindingKind then b_element_bytes b else 0) + n) 0 bs.

Lemma of_kind_app kind bs k : of_kind kind (bs ++ k) = of_kind kind bs + of_kind kind k.
Proof. unfold of_kind. by rewrite filter_app, zlen_app. Qed.
Lemma of_kind_one kind b : of_kind kind [b] = if b_kind b =? kind then 1 else 0.
Proof. unfold of_kind. cbn. destruct (Z.eqb_spec (b_kind b) kind); [by rewrite decide_True | by rewrite decide_False]. Qed.
Lemma of_kind_bounds kind bs : 0 <= of_kind kind bs <= zlen bs.
Proof. unfold of_kind, zlen. pose proof (length_filter (fun b => b_kind b = kind) bs). lia. Qed.
Lemma param_size_app bs k : param_size (bs ++ k) = param_size bs + param_size k.
Proof. unfold param_size. rewrite foldr_app. induction bs as [|b bs IH]; cbn; [lia|]. rewrite IH. lia. Qed.
Lemma param_size_bounds bs : Forall (fun b => is_u32 (b_element_bytes b)) bs -> 0 <= param_size bs <= zlen bs * U32_MAX.
Proof.
  induction 1 as [|b bs Hb _ IH]; [by cbn|]. unfold param_size in *. cbn [foldr]. rewrite zlen_cons. unfold is_u32 in Hb.
  destruct (b_kind b =? kParamBindingKind); lia.
Qed.

(** The slot of a binding after the bindings [bs]. *)
Definition slot_after (bs : list ParsedBinding) (b : ParsedBinding) : Z :=
  if b_kind b =? kParamBindingKind then param_size bs
  else if b_kind b =? kReadBindingKind then of_kind kReadBindingKind bs
  else if b_kind b =? kWriteBindingKind then of_kind kWriteBindingKind bs else kInvalidSlot.

Record plan_of (bs : list ParsedBinding) (plan : BindingPlan) : Prop := {
  pl_length : length (slots plan) = length bs;
  pl_slot : forall k b, bs !! k = Some b -> slots plan !! k = Some (slot_after (take k bs) b);
  pl_params : param_bytes plan = param_size bs;
  pl_reads : read_count plan = of_kind kReadBindingKind bs;
  pl_writes : write_count plan = of_kind kWriteBindingKind bs;
}.

Lemma BuildBindingPlan_ok p : zlen (ir_bindings p) <= kMaxComputeBindingCount -> Forall (fun b => is_u32 (b_element_bytes b)) (ir_bindings p) ->
  plan_of (ir_bindings p) (BuildBindingPlan p).
Proof.
  unfold BuildBindingPlan, kMaxComputeBindingCount. generalize (ir_bindings p). intros bs.
  induction bs as [|b bs IH] using rev_ind; intros Hl Hw; [split; try done; intros k b Hk; by rewrite lookup_nil in Hk|].
  rewrite zlen_app in Hl. change (zlen [b]) with 1 in Hl. apply Forall_app in Hw as [Hw Hb]. apply Forall_cons in Hb as [Hb _].
  specialize (IH ltac:(lia) Hw). rewrite fold_left_app. cbn [fold_left]. set (plan := fold_left _ bs _) in *.
  destruct IH as [Hlen Hs Hp Hr Hwr]. pose proof (param_size_bounds bs Hw). pose proof (of_kind_bounds kReadBindingKind bs).
  pose proof (of_kind_bounds kWriteBindingKind bs). pose proof (zlen_nonneg bs). unfold is_u32 in Hb.
  assert (forall slot, slot = slot_after bs b -> forall k c, (bs ++ [b]) !! k = Some c -> (slots plan ++ [slot]) !! k = Some (slot_after (take k (bs ++ [b])) c)) as Hslot.
  { intros slot -> k c [Hk|[Hge Hk]]%lookup_app_Some.
    - rewrite lookup_app_l by (rewrite Hlen; by eapply lookup_lt_Some). rewrite take_app_le by (apply lookup_lt_Some in Hk; lia). by apply Hs.
    - apply list_lookup_singleton_Some in Hk as [Hk <-]. assert (k = length bs) as -> by lia.
      rewrite take_app_length, <- Hlen. by rewrite lookup_app_r, Nat.sub_diag by lia. }
  assert (forall slot, length (slots plan ++ [slot]) = length (bs ++ [b])) as Hlength by (intros; rewrite !length_app, Hlen; done).
  assert (param_size [b] = if b_kind b =? kParamBindingKind then b_element_bytes b else 0) as Ep by (unfold param_size; cbn; lia).
  unfold slot_after in Hslot. unfold kParamBindingKind, kReadBindingKind, kWriteBindingKind in *.
  destruct (Z.eqb_spec (b_kind b) 1) as [E1|]; [|destruct (Z.eqb_spec (b_kind b) 2) as [E2|]; [|destruct (Z.eqb_spec (b_kind b) 3) as [E3|]]];
    (split; cbn [slots param_bytes read_count write_count]; [apply Hlength | apply Hslot; done | ..]);
    unfold kParamBindingKind, kReadBindingKind, kWriteBindingKind in *;
    rewrite ?param_size_app, ?of_kind_app, ?of_kind_one, ?Ep, ?Hp, ?Hr, ?Hwr;
    repeat match goal with |- context [?x =? ?y] => destruct (Z.eqb_spec x y); [lia|] || (destruct (Z.eqb_spec x y); [|lia]) end;
    rewrite ?wrap64_small by (unfold is_u64; lia); lia.
Qed.

Lemma slot_of_read bs slot : 0 <= slot < of_kind kReadBindingKind bs ->
  exists k b, bs !! k = Some b /\ b_kind b = kReadBindingKind /\ of_kind kReadBindingKind (take k bs) = slot.
Proof.
  induction bs as [|b bs IH] using rev_ind; [unfold of_kind, zlen; cbn; lia|]. rewrite of_kind_app, of_kind_one. intros Hs.
  destruct (decide (slot < of_kind kReadBindingKind bs)) as [Hlt|Hge].
  - destruct IH as (k & c & Hk & Hc & E); [lia|]. exists k, c. split; [by apply lookup_app_l_Some|]. split; [done|].
    rewrite take_app_le by (apply lookup_lt_Some in Hk; lia). done.
  - destruct (Z.eqb_spec (b_kind b) kReadBindingKind) as [Hb|]; [|lia]. exists (length bs), b. split; [by apply list_lookup_middle|]. split; [done|].
    rewrite take_app_length. lia.
Qed.

Lemma slot_below kind bs k b : bs !! k = Some b -> b_kind b = kind -> 0 <= of_kind kind (take k bs) < of_kind kind bs.
Proof.
  intros Hk Hb. rewrite <- (take_drop_middle bs k b Hk) at 3. rewrite of_kind_app. change (b :: drop (S k) bs) with ([b] ++ drop (S k) bs).
  rewrite of_kind_app, of_kind_one, Hb, Z.eqb_refl. pose proof (of_kind_bounds kind (take k bs)). pose proof (of_kind_bounds kind (drop (S k) bs)). lia.
Qed.

(** ** Buffers that hold what their spans say *)
Definition span_backed (span : BufferSpan) : Prop :=
  is_u64 (s_stride_bytes span) /\
  forall data, s_data span = Some data -> Forall is_byte data /\ zlen data <= U64_MAX /\
    forall i, 0 <= i < s_count span -> i * s_stride_bytes span + s_element_bytes span <= zlen data.

Definition staged_span (b : BindingSet) : BufferSpan :=
  {| s_data := staged_output b; s_element_bytes := output_bytes_per_tile b; s_stride_bytes := staged_output_stride b; s_count := staged_output_count b |}.
Definition output_list (b : BindingSet) : list BufferSpan := if staged b then [staged_span b] else output_spans b.

Record bindings_backed (b : BindingSet) : Prop := {
  bk_tiles : is_u64 (b_tile_count b);
  bk_params : forall data, param_data b = Some data -> zlen data = param_data_bytes b;
  bk_inputs : Forall span_backed (inputs b);
  bk_outputs : Forall span_backed (output_list b);
}.

(** An output has the element width of the binding that is written to it. *)
Definition outputs_match (p : ParsedIR) (b : BindingSet) : Prop :=
  forall k c slot, zget (ir_bindings p) k = Some c -> b_kind c = kWriteBindingKind -> zget (slots (BuildBindingPlan p)) k = Some slot ->
    s_element_bytes <$> zget (output_list b) slot = Some (b_element_bytes c).

(** The elements that [ReadAt] reads are counted by the shape of its input. *)
Definition reads_covered (p : ParsedIR) (b : BindingSet) (scalar_bytes : Z) : Prop :=
  forall node, node ∈ ir_nodes p -> n_op node = Op.ReadAt -> n_rhs node <= sh_count (ReadBindingShape p b scalar_bytes (n_aux node)).

(** ** Shapes *)
Lemma first_reason_all {A} (check : A -> option (option string)) l : first_reason check l = Some None -> forall x, x ∈ l -> check x = Some None.
Proof.
  induction l as [|y l IH]; cbn [first_reason]; [intros _ x Hx; by apply elem_of_nil in Hx|].
  destruct (check y) as [[|]|] eqn:E; try done. cbn [mbind option_bind]. intros H x [->|Hx]%elem_of_cons; [done | by apply IH].
Qed.
Lemma first_reason_total {A} (check : A -> option (option string)) l : (forall x, x ∈ l -> exists r, check x = Some r) -> exists r, first_reason check l = Some r.
Proof.
  induction l as [|y l IH]; intros H; cbn [first_reason]; [by eexists|]. destruct (H y (list_elem_of_here _ _)) as [[r|] ->]; cbn [mbind option_bind]; [by eexists|].
  apply IH. intros x Hx. apply H. by apply list_elem_of_further.
Qed.

Section shape.
Context (p : ParsedIR) (b : BindingSet) (sb k : Z).
Abbreviation step := (shape_node b k).
Abbreviation direct node := (((n_op node = Op.Read \/ n_op node = Op.ReadUniform \/ n_op node = Op.ReadAt) /\ n_aux node = k)).
Abbreviation index node := (n_op node = Op.ReadAt /\ n_lhs node = k).

Lemma shape_node_cases shape node :
  (n_op node = Op.Read /\ n_aux node = k /\ step shape node = {| sh_bytes := sh_bytes shape; sh_count := b_tile_count b |}) \/
  (n_op node = Op.ReadUniform /\ n_aux node = k /\ step shape node = {| sh_bytes := sh_bytes shape; sh_count := Z.max (sh_count shape) 1 |}) \/
  (n_op node = Op.ReadAt /\ n_lhs node = k /\ step shape node = {| sh_bytes := 4; sh_count := b_tile_count b |}) \/
  (n_op node = Op.ReadAt /\ n_lhs node <> k /\ n_aux node = k /\ step shape node = {| sh_bytes := sh_bytes shape; sh_count := Z.max (sh_count shape) (n_rhs node) |}) \/
  (~ direct node /\ ~ index node /\ step shape node = shape).
Proof.
  unfold shape_node, is_op. destruct node as [op l r x f]. cbn [n_op n_lhs n_rhs n_aux].
  destruct (decide (op = Op.Read)) as [->|H1]; [|destruct (decide (op = Op.ReadUniform)) as [->|H2]; [|destruct (decide (op = Op.ReadAt)) as [->|H3]]];
    rewrite ?bool_decide_true, ?bool_decide_false by done; cbn [andb]; destruct (Z.eqb_spec x k), (Z.eqb_spec l k); cbn [andb];
    try (left; by repeat split); try (right; left; by repeat split); try (right; right; left; by repeat split);
    try (right; right; right; left; by repeat split);
    right; right; right; right; (split; [|split; [|done]]); intuition congruence.
Qed.

Lemma shape_count_kept c l shape : c <= b_tile_count b -> c <= sh_count shape -> c <= sh_count (fold_left step l shape).
Proof.
  intros Hc. revert shape. induction l as [|node l IH]; intros shape Hs; cbn [fold_left]; [done|]. apply IH.
  destruct (shape_node_cases shape node) as [(_ & _ & ->)|[(_ & _ & ->)|[(_ & _ & ->)|[(_ & _ & _ & ->)|(_ & _ & ->)]]]]; cbn [sh_count]; lia.
Qed.

Lemma shape_count node : node ∈ ir_nodes p -> 1 <= b_tile_count b ->
  ((n_op node = Op.Read /\ n_aux node = k) \/ index node -> b_tile_count b <= sh_count (ReadBindingShape p b sb k)) /\
  (n_op node = Op.ReadUniform /\ n_aux node = k -> 1 <= sh_count (ReadBindingShape p b sb k)).
Proof.
  intros (l1 & l2 & E)%list_elem_of_split Ht. unfold ReadBindingShape. rewrite E, fold_left_app. cbn [fold_left].
  set (s := fold_left _ l1 _). split; intros H; apply shape_count_kept; try lia;
    destruct (shape_node_cases s node) as [(Ho & Ha & ->)|[(Ho & Ha & ->)|[(Ho & Ha & ->)|[(Ho & Hl & Ha & ->)|(Hd & Hi & ->)]]]]; cbn [sh_count]; try lia; exfalso; intuition congruence.
Qed.

Lemma shape_bytes_fold l shape :
  sh_bytes (fold_left step l shape) = if existsb (fun node => is_op Op.ReadAt node && (n_lhs node =? k)) l then 4 else sh_bytes shape.
Proof.
  revert shape. induction l as [|node l IH]; intros shape; cbn [fold_left existsb]; [done|]. rewrite IH. unfold is_op at 2.
  destruct (shape_node_cases shape node) as [(Ho & Ha & ->)|[(Ho & Ha & ->)|[(Ho & Ha & ->)|[(Ho & Hl & Ha & ->)|(Hd & Hi & ->)]]]]; cbn [sh_bytes];
    destruct (existsb _ l); rewrite ?orb_true_r, ?orb_false_r; try done.
  - by rewrite bool_decide_false by (by rewrite Ho).
  - by rewrite bool_decide_false by (by rewrite Ho).
  - by rewrite bool_decide_true, Ha, Z.eqb_refl.
  - rewrite bool_decide_true by done. destruct (Z.eqb_spec (n_lhs node) k); [done|]. done.
  - destruct (bool_decide_reflect (n_op node = Op.ReadAt)), (Z.eqb_spec (n_lhs node) k); cbn [andb]; try done. tauto.
Qed.

Lemma shape_bytes : sh_bytes (ReadBindingShape p b sb k) = if existsb (fun node => is_op Op.ReadAt node && (n_lhs node =? k)) (ir_nodes p) then 4 else sb.
Proof. unfold ReadBindingShape. by rewrite shape_bytes_fold. Qed.

Lemma shape_reader : sh_count (ReadBindingShape p b sb k) <> 0 -> exists node, node ∈ ir_nodes p /\ (direct node \/ index node).
Proof.
  unfold ReadBindingShape. assert (forall l shape, sh_count (fold_left step l shape) = sh_count shape \/ exists node, node ∈ l /\ (direct node \/ index node)) as G.
  { induction l as [|node l IH]; intros shape; cbn [fold_left]; [by left|].
    destruct (shape_node_cases shape node) as [(Ho & Ha & ->)|[(Ho & Ha & ->)|[(Ho & Ha & ->)|[(Ho & Hl & Ha & ->)|(Hd & Hi & ->)]]]].
    5: { destruct (IH shape) as [|(n & Hn & ?)]; [by left | right]. exists n. split; [by apply list_elem_of_further | done]. }
    all: right; exists node; (split; [apply list_elem_of_here|]); tauto. }
  intros H. by destruct (G (ir_nodes p) {| sh_bytes := sb; sh_count := 0 |}).
Qed.
End shape.

(** ** The bindings of an admitted program *)
Lemma binding_at bs k kind : BindingIs bs k kind = true -> exists c, zget bs k = Some c /\ b_kind c = kind.
Proof. unfold BindingIs. intros H%bool_decide_eq_true. destruct (zget bs k) as [c|]; [|done]. injection H as H. by exists c. Qed.

Lemma indexed_elem (p : ParsedIR) k c : zget (ir_bindings p) k = Some c <-> (k, c) ∈ indexed_bindings p.
Proof.
  unfold indexed_bindings. rewrite list_elem_of_lookup. split.
  - intros [Hk Hc]%zget_Some. exists (Z.to_nat k). apply lookup_zip_with_Some. exists k, c. split; [done|]. split; [|done].
    pose proof (lookup_lt_Some _ _ _ Hc). unfold range. apply lookup_seqZ. unfold zlen. lia.
  - intros (i & (x & y & [= <- <-] & Hx & Hy)%lookup_zip_with_Some). unfold range in Hx. apply lookup_seqZ in Hx as [-> _].
    by rewrite Z.add_0_l, zget_nat.
Qed.

Section admitted_program.
Context (ir : ComputeIR) (p : ParsedIR) (adm : admitted ir p) (b : BindingSet).
Abbreviation bs := (ir_bindings p).
Abbreviation plan := (BuildBindingPlan p).
Abbreviation sb := (ScalarBytes (c_scalar ir)).
Abbreviation w := (ScalarBitWidth (c_scalar ir)).

Lemma scalar_bytes_eq : scalar_bytes w = sb.
Proof. by destruct (c_scalar ir). Qed.

Lemma binding_plan : plan_of bs plan.
Proof.
  apply BuildBindingPlan_ok; [apply adm|]. eapply Forall_impl; [apply (enc_bindings_fit _ (ad_encodable _ _ adm))|]. by intros c (_ & ? & _).
Qed.

Lemma slot_at k c : zget bs k = Some c -> zget (slots plan) k = Some (slot_after (take (Z.to_nat k) bs) c).
Proof. intros [Hk Hc]%zget_Some. apply zget_Some. split; [done|]. by apply binding_plan. Qed.

Lemma kind_slot k c kind : zget bs k = Some c -> b_kind c = kind -> kind = kReadBindingKind \/ kind = kWriteBindingKind ->
  zget (slots plan) k = Some (of_kind kind (take (Z.to_nat k) bs)) /\ 0 <= of_kind kind (take (Z.to_nat k) bs) < of_kind kind bs /\
  is_u32 (of_kind kind (take (Z.to_nat k) bs)).
Proof.
  intros Hk Hc Hkind. split; [|split].
  - rewrite (slot_at k c Hk). unfold slot_after. rewrite Hc. by destruct Hkind as [-> | ->].
  - apply zget_Some in Hk as [_ Hk]. by eapply slot_below.
  - pose proof (of_kind_bounds kind (take (Z.to_nat k) bs)). pose proof (vi_binding_count _ _ (ad_valid _ _ adm)) as Hn.
    assert (zlen (take (Z.to_nat k) bs) <= zlen bs) by (unfold zlen; rewrite length_take; lia). unfold is_u32, kMaxComputeBindingCount in *. lia.
Qed.

Lemma node_operands node : node ∈ ir_nodes p -> exists k, ir_nodes p !! k = Some node /\
  ValidateParsedNodeOperands (with_nodes p (take k (ir_nodes p))) node (c_scalar ir) (Z.of_nat k + 1) = None.
Proof. intros [k Hk]%list_elem_of_lookup. exists k. split; [done|]. by apply adm. Qed.

Lemma direct_read node : node ∈ ir_nodes p -> n_op node = Op.Read \/ n_op node = Op.ReadUniform \/ n_op node = Op.ReadAt ->
  exists c, zget bs (n_aux node) = Some c /\ b_kind c = kReadBindingKind.
Proof.
  intros (k & Hk & Hv)%node_operands Hop. unfold ValidateParsedNodeOperands in Hv. cbn [with_nodes ir_bindings] in Hv. apply binding_at.
  destruct Hop as [Hop|[Hop|Hop]]; rewrite Hop in Hv; destruct (_ || _) eqn:E in Hv; try done; to_prop; assumption.
Qed.

Lemma index_read node : node ∈ ir_nodes p -> n_op node = Op.ReadAt ->
  exists c, zget bs (n_lhs node) = Some c /\ b_kind c = kReadBindingKind /\ b_element_bytes c = 4.
Proof.
  intros (k & Hk & Hv)%node_operands Hop. unfold ValidateParsedNodeOperands in Hv. cbn [with_nodes ir_bindings] in Hv. rewrite Hop in Hv.
  destruct (_ || _) eqn:E in Hv; [done|]. to_prop. destruct (binding_at bs (n_lhs node) kReadBindingKind) as (c & Hc & Hkind); [done|].
  exists c. split; [done|]. split; [done|].
  match goal with H : bool_decide (b_element_bytes <$> _ = _) = true |- _ => apply bool_decide_eq_true in H; rewrite Hc in H; by injection H end.
Qed.

Lemma write_node node : node ∈ ir_nodes p -> n_op node = Op.Write ->
  exists c, zget bs (n_aux node) = Some c /\ b_kind c = kWriteBindingKind.
Proof.
  intros (k & Hk & Hv)%node_operands Hop. unfold ValidateParsedNodeOperands in Hv. cbn [with_nodes ir_bindings] in Hv. rewrite Hop in Hv.
  destruct (_ || _) eqn:E in Hv; [done|]. to_prop. apply binding_at. done.
Qed.

(** An input that is read as scalars has the width of the scalar. *)
Lemma direct_bytes node : node ∈ ir_nodes p -> n_op node = Op.Read \/ n_op node = Op.ReadUniform \/ n_op node = Op.ReadAt ->
  sh_bytes (ReadBindingShape p b sb (n_aux node)) = sb.
Proof.
  intros Hin Hop. destruct (direct_read node Hin Hop) as (c & Hc & Hkind). rewrite shape_bytes. destruct (existsb _ _) eqn:Ex; [|done].
  apply existsb_exists in Ex as (other & Ho%list_elem_of_In & [Hat%bool_decide_eq_true Hl%Z.eqb_eq]%andb_prop).
  destruct (index_read other Ho Hat) as (c' & Hc' & _ & H4). rewrite Hl, Hc in Hc'. injection Hc' as <-.
  destruct (va_shapes _ _ (ad_validated _ _ adm) _ _ Hc) as [Hw|Hi].
  - unfold BindingWidthShapeValid in Hw. rewrite Hkind, H4 in Hw. change (kReadBindingKind =? kWriteBindingKind) with false in Hw. cbn [andb] in Hw.
    rewrite orb_false_r in Hw. by apply Z.eqb_eq in Hw.
  - exfalso. unfold ReadAtIndexBinding in Hi. apply andb_prop in Hi as [Hi _]. rewrite forallb_forall in Hi.
    specialize (Hi node (proj1 (list_elem_of_In _ _) Hin)). unfold is_op in Hi. rewrite Z.eqb_refl, !andb_true_r in Hi.
    destruct Hop as [E|[E|E]]; by rewrite E in Hi.
Qed.
(** ** The checks never leave their arrays *)
Context (backed : bindings_backed b).

Lemma slot_total k c : (k, c) ∈ indexed_bindings p -> zget bs k = Some c /\ zget (slots plan) k = Some (slot_after (take (Z.to_nat k) bs) c).
Proof. intros H%indexed_elem. split; [done | by apply slot_at]. Qed.

Lemma param_slot k c : zget bs k = Some c -> b_kind c = kParamBindingKind ->
  0 <= param_size (take (Z.to_nat k) bs) /\ param_size (take (Z.to_nat k) bs) + b_element_bytes c <= param_bytes plan /\
  zlen (b_value_bytes c) = b_element_bytes c.
Proof.
  intros [Hk Hc]%zget_Some Hkind.
  assert (Forall (fun c => is_u32 (b_element_bytes c)) bs) as Henc
    by (eapply Forall_impl; [apply (enc_bindings_fit _ (ad_encodable _ _ adm))|]; by intros x (_ & ? & _)).
  pose proof (param_size_bounds _ (Forall_take _ (Z.to_nat k) _ Henc)). pose proof (param_size_bounds _ (Forall_drop _ (S (Z.to_nat k)) _ Henc)).
  split; [lia|]. split.
  - rewrite (pl_params _ _ binding_plan). rewrite <- (take_drop_middle bs _ c Hc) at 2. rewrite param_size_app.
    change (c :: drop (S (Z.to_nat k)) bs) with ([c] ++ drop (S (Z.to_nat k)) bs). rewrite param_size_app.
    assert (param_size [c] = b_element_bytes c) by (unfold param_size; cbn; rewrite Hkind, Z.eqb_refl; lia). lia.
  - pose proof (vi_binding _ _ (ad_valid _ _ adm) _ _ Hc) as Hv. unfold ValidateParsedBinding in Hv. rewrite Hkind in Hv.
    change (kParamBindingKind =? kParamBindingKind) with true in Hv. cbn [andb] in Hv.
    destruct (_ || _ || _ || _); [done|]. destruct (b_floating_point_param c); [done|]. destruct (zlen (b_value_bytes c) =? b_element_bytes c) eqn:E; [|done].
    by apply Z.eqb_eq.
Qed.

Lemma params_total : exists r, ValidateParamBytes p plan b = Some r.
Proof using adm backed.
  unfold ValidateParamBytes. destruct (_ || _) eqn:E; [by eexists|]. to_prop. destruct (param_bytes plan =? 0); [by eexists|].
  destruct (param_data b) as [data|] eqn:Ed; [|by eexists]. destruct (negb _); [by eexists|]. apply first_reason_total. intros [k c] Hin.
  apply slot_total in Hin as [Hc Hs]. unfold param_matches. destruct (b_kind c =? kParamBindingKind) eqn:Ek; cbn [negb]; [|by eexists].
  rewrite Hs. cbn [mbind option_bind]. unfold slot_after. rewrite Ek. apply Z.eqb_eq in Ek. destruct (param_slot k c Hc Ek) as (Hlo & Hhi & Hval).
  pose proof (bk_params _ backed _ Ed) as Hlen. destruct (negb (FitsSize _) || _); [by eexists|].
  rewrite (proj2 (Z.leb_le _ _)), (proj2 (Z.leb_le _ _)) by lia. cbn [negb orb]. by eexists.
Qed.

Lemma read_slot k c : zget bs k = Some c -> b_kind c = kReadBindingKind -> zlen (inputs b) = read_count plan ->
  exists slot span, zget (slots plan) k = Some slot /\ is_u32 slot /\ 0 <= slot < read_count plan /\ zget (inputs b) slot = Some span.
Proof using adm.
  intros Hc Hk Hn. destruct (kind_slot k c _ Hc Hk ltac:(by left)) as (Hs & Hb & Hu). rewrite <- (pl_reads _ _ binding_plan) in Hb.
  destruct (zget_is_Some (inputs b) _ (eq_ind_r (fun n => _ <= _ < n) Hb Hn)) as [span Hspan]. by eexists _, span.
Qed.

Lemma reads_total : exists r, ValidateReadBuffers p plan b sb = Some r.
Proof using adm.
  unfold ValidateReadBuffers. destruct (zlen (inputs b) =? read_count plan) eqn:En; cbn [negb]; [|by eexists]. apply Z.eqb_eq in En.
  destruct (negb _ && _) eqn:E; [by eexists|]. apply first_reason_total. intros [k c] Hin. apply slot_total in Hin as [Hc _]. unfold check_read.
  destruct (b_kind c =? kReadBindingKind) eqn:Ek; cbn [negb]; [|by eexists]. apply Z.eqb_eq in Ek.
  destruct (read_slot k c Hc Ek En) as (slot & span & -> & _ & Hb & Hspan). cbn [mbind option_bind]. rewrite Hspan. cbn [mbind option_bind].
  destruct (_ || _); [by eexists|]. destruct (zlen (input_element_bytes b) =? 0) eqn:Ez; cbn [mbind option_bind]; [by eexists|]. cbn [negb andb] in E. to_prop.
  destruct (zget_is_Some (input_element_bytes b) slot) as [bytes ->]; [lia|]. cbn [mbind option_bind]. destruct (negb _); by eexists.
Qed.

Lemma bindings_total : exists r, ValidateBindings ir p plan b = Some r.
Proof using adm backed.
  unfold ValidateBindings. destruct (failure b); [by eexists|]. repeat (match goal with |- context [if ?c then Some (Some _) else _] => destruct c; [by eexists|] end).
  destruct params_total as [[reason|] ->]; cbn [mbind option_bind]; [by eexists|]. destruct reads_total as [[reason|] ->]; by eexists.
Qed.

(** ** What accepted bindings give *)
Record accepted : Prop := {
  ac_tiles : 0 < b_tile_count b;
  ac_inputs : zlen (inputs b) = read_count plan;
  ac_reads : forall k c, zget bs k = Some c -> b_kind c = kReadBindingKind -> check_read p plan b sb (k, c) = Some None;
  ac_output : ValidateOutput plan b sb = None;
}.

Lemma ValidateBindings_accepted : ValidateBindings ir p plan b = Some None -> accepted.
Proof using backed.
  unfold ValidateBindings. destruct (failure b); [done|]. destruct (has_sequence b); [done|]. destruct (b_tile_count b =? 0) eqn:Et; [done|].
  repeat (match goal with |- context [if ?c then Some (Some _) else _] => destruct c; [done|] end).
  destruct (ValidateParamBytes p plan b) as [[|]|]; try done. cbn [mbind option_bind].
  destruct (ValidateReadBuffers p plan b _) as [[|]|] eqn:Er; try done. cbn [mbind option_bind]. intros [= Ho].
  pose proof (bk_tiles _ backed) as Ht. unfold is_u64 in Ht. to_prop. unfold ValidateReadBuffers in Er.
  destruct (zlen (inputs b) =? read_count plan) eqn:En; [|done]. cbn [negb] in Er. destruct (negb _ && _); [done|].
  split; [lia | by apply Z.eqb_eq | | done]. intros k c Hc _. exact (first_reason_all _ _ Er (k, c) (proj1 (indexed_elem _ _ _) Hc)).
Qed.

Context (acc : accepted).

(** The input of a read binding. *)
Lemma accepted_read k c : zget bs k = Some c -> b_kind c = kReadBindingKind ->
  let shape := ReadBindingShape p b sb k in
  exists slot span data, zget (slots plan) k = Some slot /\ is_u32 slot /\ zget (inputs b) slot = Some span /\ s_data span = Some data /\
    sh_count shape <> 0 /\ sh_count shape <= s_count span /\ s_element_bytes span = sh_bytes shape.
Proof using adm acc.
  intros Hc Hk shape. pose proof (ac_reads acc k c Hc Hk) as Hr. unfold check_read in Hr. rewrite Hk in Hr.
  change (kReadBindingKind =? kReadBindingKind) with true in Hr. cbn [negb] in Hr. cbv zeta in Hr. subst shape.
  destruct (read_slot k c Hc Hk (ac_inputs acc)) as (slot & span & Hs & Hu & _ & Hspan). rewrite Hs in Hr. cbn [mbind option_bind] in Hr.
  rewrite Hspan in Hr. cbn [mbind option_bind] in Hr. destruct (_ || _) eqn:E in Hr; [done|]. to_prop.
  destruct (s_data span) as [data|] eqn:Ed; [|by rewrite bool_decide_eq_true_2 in * by done].
  exists slot, span, data. split_and!; done.
Qed.

Definition output_ok (span : BufferSpan) : Prop :=
  is_Some (s_data span) /\ s_element_bytes span <= s_stride_bytes span /\ b_tile_count b <= s_count span /\
  (s_element_bytes span = sb \/ cross_width sb (s_element_bytes span) = true).

Lemma check_outputs_ok spans total total' : check_outputs plan b sb spans total = inl total' -> Forall output_ok spans.
Proof using Type.
  revert total. induction spans as [|span spans IH]; intros total; [constructor|]. cbn [check_outputs].
  destruct (_ || _) eqn:E; [done|]. destruct (check_offset _ _ _); [done|]. intros H. constructor; [|by eapply IH]. to_prop.
  split_and!; [|done..|].
  - destruct (s_data span) as [d|]; [by exists d|]. by rewrite bool_decide_eq_true_2 in * by done.
  - match goal with H : _ || _ = true |- _ => apply orb_prop in H as [?%Z.eqb_eq|[_ ?]%andb_prop]; auto end.
Qed.

Lemma accepted_outputs : zlen (output_list b) = write_count plan /\ Forall output_ok (output_list b).
Proof using acc.
  pose proof (ac_output acc) as Ho. unfold ValidateOutput in Ho. destruct (write_count plan =? 0) eqn:Ez; [done|].
  destruct (has_staged_outputs b) eqn:Eh; cbn [negb] in Ho; [|done]. unfold output_list, staged.
  destruct (zlen (output_spans b) =? 0) eqn:Es; cbn [negb] in Ho.
  - destruct (write_count plan =? 1) eqn:Ew; cbn [negb] in Ho; [|done]. destruct (_ || _) eqn:E in Ho; [done|].
    unfold has_staged_outputs in Eh. destruct (_ || _); [done|]. rewrite Es in Eh. cbn [negb] in Eh. to_prop. split; [done|].
    constructor; [|constructor]. unfold output_ok, staged_span. cbn [s_data s_element_bytes s_stride_bytes s_count].
    split_and!; [by apply bool_decide_eq_true in H | done.. |].
    match goal with H : _ || _ = true |- _ => apply orb_prop in H as [?%Z.eqb_eq|?]; auto end.
  - destruct (_ =? write_count plan) eqn:Ew in Ho; cbn [negb] in Ho; [|done]. destruct (check_outputs _ _ _ _ _) as [total|] eqn:E; [|done].
    split; [by apply Z.eqb_eq|]. by eapply check_outputs_ok.
Qed.

Lemma outputs_few : zlen (output_list b) <= kMaxComputeBindingCount /\ zlen (inputs b) <= kMaxComputeBindingCount.
Proof using adm acc.
  rewrite (proj1 accepted_outputs), (ac_inputs acc), (pl_reads _ _ binding_plan), (pl_writes _ _ binding_plan).
  pose proof (of_kind_bounds kReadBindingKind bs). pose proof (of_kind_bounds kWriteBindingKind bs).
  pose proof (vi_binding_count _ _ (ad_valid _ _ adm)). lia.
Qed.

Lemma view_eq : BindingView b =
  {| reads := map (fun span => {| r_data := default [] (s_data span); r_stride := s_stride_bytes span |}) (inputs b);
     write_strides := map s_stride_bytes (output_list b); logical_offset := b_logical_offset b; tile_count := b_tile_count b |}.
Proof using adm acc.
  pose proof outputs_few as [Ho Hi]. unfold BindingView, output_list, staged in *. unfold kCpuSimdBindingCapacity.
  destruct (zlen (inputs b) >? _) eqn:E1; [to_prop; lia|]. cbn [orb].
  destruct (zlen (output_spans b) >? _) eqn:E2; [|by destruct (zlen (output_spans b) =? 0)]. exfalso. to_prop.
  destruct (zlen (output_spans b) =? 0) eqn:E3; [to_prop|]; unfold kMaxComputeBindingCount in *; lia.
Qed.

Lemma data_eq : output_data b = map (fun span => default [] (s_data span)) (output_list b).
Proof using Type. unfold output_data, output_list. by destruct (staged b). Qed.

Lemma input_view slot span data : zget (inputs b) slot = Some span -> s_data span = Some data ->
  zget (reads (BindingView b)) slot = Some {| r_data := data; r_stride := s_stride_bytes span |}.
Proof using adm acc. intros Hs Hd. rewrite view_eq. cbn [reads]. rewrite zget_map, Hs. cbn. by rewrite Hd. Qed.

Lemma bound_input_fits k c count size : zget bs k = Some c -> b_kind c = kReadBindingKind ->
  count <= sh_count (ReadBindingShape p b sb k) -> size <= sh_bytes (ReadBindingShape p b sb k) ->
  exists slot, zget (slots plan) k = Some slot /\ is_u32 slot /\ source_fits (BindingView b) slot count size.
Proof using adm backed acc.
  intros Hc Hk Hcount Hsize. destruct (accepted_read k c Hc Hk) as (slot & span & data & Hs & Hu & Hspan & Hd & _ & Hn & He).
  exists slot. split; [done|]. split; [done|]. unfold source_fits. rewrite (input_view slot span data Hspan Hd). eexists. split; [done|]. cbn [r_stride r_data].
  pose proof (proj1 (Forall_forall _ _) (bk_inputs _ backed) span ltac:(by eapply zget_elem)) as (Hstride & Hb).
  destruct (Hb data Hd) as (Hbytes & Hlen & Hfit). unfold is_u64 in Hstride. split; [lia|]. split; [done|]. split; [done|].
  intros i Hi. specialize (Hfit i ltac:(lia)). lia.
Qed.

Context (matches : outputs_match p b).

(** The output of a write. *)
Lemma output_span k c : zget bs k = Some c -> b_kind c = kWriteBindingKind ->
  exists slot span data, zget (slots plan) k = Some slot /\ is_u32 slot /\ 0 <= slot < write_count plan /\
    zget (output_list b) slot = Some span /\ s_data span = Some data /\ output_ok span /\ s_element_bytes span = b_element_bytes c.
Proof using adm acc matches.
  intros Hc Hk. destruct (kind_slot k c _ Hc Hk ltac:(by right)) as (Hs & Hb & Hu). rewrite <- (pl_writes _ _ binding_plan) in Hb.
  pose proof accepted_outputs as [Hn Hall]. destruct (zget_is_Some (output_list b) (of_kind kWriteBindingKind (take (Z.to_nat k) bs))) as [span Hspan]; [lia|].
  pose proof (proj1 (Forall_forall _ _) Hall span ltac:(by eapply zget_elem)) as Hok. destruct (proj1 Hok) as [data Hd].
  pose proof (matches k c _ Hc Hk Hs) as Hm. rewrite Hspan in Hm. injection Hm as Hm. eexists _, span, data. do 6 (split; [done|]). done.
Qed.

Lemma stored_fits e : e = sb \/ cross_width sb e = true -> stored_size w e = e.
Proof using Type.
  unfold stored_size. rewrite scalar_bytes_eq. destruct (Z.eqb_spec e sb) as [->|Hne]; [done|]. intros [?|H]; [done|]. unfold cross_width in H.
  apply orb_prop in H as [[_ ->%Z.eqb_eq]%andb_prop|[_ ->%Z.eqb_eq]%andb_prop]; done.
Qed.

Lemma view_fits_ok : reads_covered p b sb -> view_fits w (BindingView b) p plan (output_data b).
Proof using adm backed acc matches.
  intros Hcov. pose proof (ac_tiles acc) as Ht. pose proof (bk_tiles _ backed) as Hu64. split.
  - by rewrite view_eq.
  - intros node Hin. unfold node_fits. rewrite scalar_bytes_eq. assert (tile_count (BindingView b) = b_tile_count b) as -> by (by rewrite view_eq).
    destruct (n_op node) eqn:Hop; try done.
    + destruct (node_operands node Hin) as (k & _ & Hv). unfold ValidateParsedNodeOperands in Hv. rewrite Hop in Hv. cbn [with_nodes ir_bindings] in Hv.
      destruct (_ || _) eqn:E in Hv; [done|]. to_prop. destruct (binding_at bs (n_aux node) kParamBindingKind) as (c & Hc & _); [done|]. by exists c.
    + destruct (direct_read node Hin ltac:(by left)) as (c & Hc & Hk). apply (bound_input_fits _ c); [done | done | |by rewrite direct_bytes by auto].
      apply (shape_count p b sb (n_aux node) node Hin ltac:(lia)). by left.
    + destruct (write_node node Hin Hop) as (c & Hc & Hk). destruct (output_span _ c Hc Hk) as (slot & span & data & Hs & Hu & _ & Hspan & Hd & Hok & He).
      exists slot, c. split; [done|]. split; [done|]. split; [done|]. destruct Hok as (_ & Hstride & Hcount & Hwidth). rewrite <- He, stored_fits by done.
      exists (s_stride_bytes span), data. rewrite view_eq, data_eq. cbn [write_strides tile_count]. rewrite !zget_map, Hspan. cbn. rewrite Hd.
      pose proof (proj1 (Forall_forall _ _) (bk_outputs _ backed) span ltac:(by eapply zget_elem)) as (_ & Hb). destruct (Hb data Hd) as (_ & Hlen & Hfit).
      split_and!; try done. intros i Hi. apply Hfit. lia.
    + destruct (direct_read node Hin ltac:(auto)) as (c & Hc & Hk).
      destruct (bound_input_fits _ c (n_rhs node) sb Hc Hk) as (slot & Hs & Hu & Hf); [by apply Hcov | by rewrite direct_bytes by auto |].
      destruct (index_read node Hin Hop) as (d & Hd & Hdk & _). exists slot.
      destruct (bound_input_fits _ d (b_tile_count b) 4 Hd Hdk) as (index & Hi & _ & Hif).
      * apply (shape_count p b sb (n_lhs node) node Hin ltac:(lia)). by right.
      * rewrite shape_bytes, (proj2 (existsb_exists _ _)); [done|]. exists node. split; [by apply list_elem_of_In|].
        unfold is_op. by rewrite Hop, Z.eqb_refl.
      * by exists index.
    + destruct (direct_read node Hin ltac:(auto)) as (c & Hc & Hk). apply (bound_input_fits _ c); [done | done | |by rewrite direct_bytes by auto].
      by apply (shape_count p b sb (n_aux node) node Hin ltac:(lia)).
  - intros slot binding Hb. rewrite view_eq in Hb. cbn [reads] in Hb. rewrite zget_map in Hb. destruct (zget (inputs b) slot) as [span|] eqn:Hspan; [|done].
    pose proof (zget_range _ _ _ Hspan) as Hr. rewrite (ac_inputs acc), (pl_reads _ _ binding_plan) in Hr.
    destruct (slot_of_read bs slot Hr) as (k & c & Hc & Hk & Hslot). rewrite <- zget_nat in Hc.
    destruct (accepted_read _ c Hc Hk) as (slot' & _ & _ & _ & _ & _ & _ & Hn & _). pose proof (slot_at _ c Hc) as Hs.
    unfold slot_after in Hs. rewrite Hk, Nat2Z.id, Hslot in Hs. cbn in Hs. destruct (shape_reader p b sb (Z.of_nat k) Hn) as (node & Hin & Hread).
    exists node. split; [done|]. unfold reads_slot. destruct Hread as [[Hop E]|[Hop E]]; rewrite E; auto.
Qed.

Lemma prepared_run_ok : prepared_for w (BindingView b) p plan (run_read_stride b) (run_output_full b sb).
Proof using adm acc matches.
  split.
  - intros slot _. unfold run_read_stride. rewrite view_eq. cbn [reads]. rewrite zget_map. by destruct (zget (inputs b) slot).
  - intros node slot c Hin Hop Hs Hc Hf. rewrite scalar_bytes_eq. destruct (write_node node Hin Hop) as (c' & Hc' & Hk). rewrite Hc in Hc'. injection Hc' as <-.
    destruct (output_span _ c Hc Hk) as (slot' & span & data & Hs' & _ & Hb & Hspan & _ & _ & He). rewrite Hs in Hs'. injection Hs' as <-.
    assert (s_element_bytes span = sb /\ s_stride_bytes span = sb) as [E1 E2].
    { unfold run_output_full, output_list in *. destruct (staged b); cbn [negb] in Hf; [|rewrite Hspan in Hf; by to_prop].
      apply zget_Some in Hspan as [_ [_ <-]%list_lookup_singleton_Some]. cbn [s_element_bytes s_stride_bytes staged_span]. by to_prop. }
    split; [by rewrite <- He|]. rewrite view_eq. cbn [write_strides]. rewrite zget_map, Hspan. cbn. by rewrite E2.
Qed.

(** What a plan that was built says of its program. *)
Lemma plan_fields read_stride output_full prepared : BuildPreparedPlan p plan read_stride output_full sb = Some prepared ->
  zlen (filter (fun node => n_op node = Op.Write) (ir_nodes p)) = write_count plan /\ write_count plan <> 0 /\
  plan_reads prepared = wrap32 (read_count plan) /\ plan_writes prepared = wrap32 (write_count plan) /\
  uses_index prepared = existsb (fun node => bool_decide (n_op node = Op.Index)) (ir_nodes p).
Proof using Type.
  unfold BuildPreparedPlan. cbv zeta. do 2 match goal with |- (if ?c then None else _) = _ -> _ => destruct c eqn:?; [done|] end. destruct (value_uses _ _ _ _) as [[L P]|]; [|done].
  cbn [mbind option_bind]. destruct (for_each _ _ _) as [st|]; [|done]. cbn [mbind option_bind]. destruct (_ && _); [|done]. intros [= <-]. cbn.
  to_prop. split_and!; try done; lia.
Qed.

(** The slots of a plan are counted up from none. *)
#[local] Ltac open_bind :=
  repeat match goal with
  | |- (match ?x with _ => _ end) = Some _ -> _ => destruct x eqn:?; try done
  | |- (x ← ?m; _) = Some _ -> _ => destruct m eqn:?; cbn [mbind option_bind]; try done
  end.
Lemma release_slots st value st' : release st value = Some st' -> slot_count st' = slot_count st.
Proof using Type. unfold release. open_bind. by intros [= <-]. Qed.
Lemma release_operands_slots L P position references st st' : release_operands L P position references st = Some st' -> slot_count st' = slot_count st.
Proof using Type.
  unfold release_operands. revert st. induction references as [|r references IH]; intros st; cbn [for_each]; [by intros [= <-]|].
  open_bind. intros H. rewrite (IH _ H). match goal with E : _ = Some s |- _ => revert E end. open_bind; [apply release_slots | by intros [= <-]].
Qed.
Lemma take_slot_slots st aliased slot st' : take_slot st aliased = Some (slot, st') -> slot_count st <= slot_count st'.
Proof using Type. unfold take_slot. open_bind; intros [= _ <-]; cbn; lia. Qed.
Lemma place_node_slots rs full L P st step st' : place_node p plan rs full sb L P st step = Some st' -> slot_count st <= slot_count st'.
Proof using Type.
  unfold place_node. destruct step as [position index]. destruct (zget (ir_nodes p) index) as [node|]; [|done]. cbn [mbind option_bind].
  destruct (PrepareInstruction _ _ _ _ _ _) as [i|]; [|done]. cbn [mbind option_bind]. destruct (_ || _); [done|].
  destruct (RemapNodeValueReferences _ _); [|done]. cbn [mbind option_bind]. cbv zeta. destruct (is_write node).
  { intros H%release_operands_slots. cbn in H. lia. }
  destruct (aliased_value _ _ _ _); [|done]. cbn [mbind option_bind]. destruct (take_slot _ _) as [[slot st1]|] eqn:Et; [|done]. apply take_slot_slots in Et.
  cbn [mbind option_bind]. unfold assign. destruct (zset _ _ _); [|done]. cbn [mbind option_bind].
  destruct (release_operands _ _ _ _ _) as [st3|] eqn:Er; [|done]. apply release_operands_slots in Er. cbn [emit slot_count mbind option_bind] in *.
  destruct (dies_at _ _ _ _) as [[]|]; [|intros [= <-]; lia | done]. cbn [mbind option_bind]. intros H%release_slots. lia.
Qed.
Lemma plan_slots rs full prepared : BuildPreparedPlan p plan rs full sb = Some prepared -> 0 <= value_slot_count prepared.
Proof using Type.
  unfold BuildPreparedPlan. cbv zeta. do 2 match goal with |- (if ?c then None else _) = _ -> _ => destruct c; [done|] end.
  destruct (value_uses _ _ _ _) as [[L P]|]; [|done]. cbn [mbind option_bind].
  match goal with |- context [for_each ?f ?s0 ?l] => assert (forall steps st st', for_each f st steps = Some st' -> slot_count st <= slot_count st') as G;
    [|destruct (for_each f s0 l) as [st|] eqn:E; [apply G in E | done]] end.
  - induction steps as [|step steps IH]; intros st st'; cbn [for_each]; [intros [= <-]; lia|].
    destruct (place_node _ _ _ _ _ _ _ st step) as [st1|] eqn:E1; [|done]. cbn [mbind option_bind]. intros E2%IH. apply place_node_slots in E1. lia.
  - cbn [mbind option_bind slot_count] in *. destruct (_ && _); [|done]. intros [= <-]. cbn. lia.
Qed.

Definition index_overflow : bool :=
  existsb (fun node => bool_decide (n_op node = Op.Index)) (ir_nodes p) && (b_logical_offset b >? U64_MAX - (b_tile_count b - 1)).

Lemma admitted_run prepared : (exists rs full, BuildPreparedPlan p plan rs full sb = Some prepared) ->
  run_admitted (BindingView b) prepared 0 (b_tile_count b) = negb index_overflow.
Proof using adm backed acc.
  intros (rs & full & (_ & _ & Hr & Hw & Hi)%plan_fields). pose proof (ac_tiles acc) as Ht. pose proof (bk_tiles _ backed) as Hu.
  pose proof outputs_few as [Hfo Hfi]. unfold kMaxComputeBindingCount, is_u64 in *. pose proof (zlen_nonneg (inputs b)). pose proof (zlen_nonneg (output_list b)).
  unfold run_admitted. rewrite Hr, Hw, Hi, view_eq. cbn [reads write_strides logical_offset tile_count]. rewrite !zlen_map, <- (ac_inputs acc), <- (proj1 accepted_outputs).
  rewrite !wrap32_small, !Z.eqb_refl by (unfold is_u32; lia). rewrite (proj2 (Z.eqb_neq (b_tile_count b) 0)) by lia.
  rewrite !Z.gtb_ltb, (proj2 (Z.ltb_ge (U64_MAX - b_tile_count b) 0)) by lia. rewrite Z.add_0_l, Z.ltb_irrefl. cbn [negb andb].
  unfold index_overflow. by rewrite Z.gtb_ltb.
Qed.

Lemma accepted_program : (exists rs full prepared, BuildPreparedPlan p plan rs full sb = Some prepared) -> program_ok p plan.
Proof using adm.
  intros (rs & full & prepared & (Hn & Hw & _)%plan_fields). split; [apply adm | apply adm | apply adm | done | done].
Qed.
End admitted_program.

(** ** The run of an IR *)

(** What an invocation supplies: bytes, and buffers of the sizes that their spans say. *)
Record invocation_ok (ir : ComputeIR) (b : BindingSet) : Prop := {
  io_bytes : Forall is_byte (canonical_bytes ir);
  io_backed : bindings_backed b;
}.

Definition rejected (b : BindingSet) (reason : string) (result : option (CpuSimdRunResult * list (list Z))) : Prop :=
  result = Some (RejectRun reason, output_data b).

(** The outcome of a run: a rejection that leaves the outputs as they are, or the map. The
    checks of the preparation leave two conditions on the buffers of an accepted program
    open, which the caller has to meet: outputs of the widths that the program writes, and
    at least as many elements as its indices reach in an input that is read at indices. *)
Definition map_outcome (math : LaneMath) (ir : ComputeIR) (caps : CpuCaps) (b : BindingSet) (result : option (CpuSimdRunResult * list (list Z))) : Prop :=
  match PrepareCpuSimdDispatch ir caps b with
  | None => False
  | Some (inr reason) => rejected b reason result
  | Some (inl (p, _, _)) =>
      AdmitComputeInput ir = Some (inl p) /\
      if index_overflow p b then rejected b "cpu_simd_tile_count_invalid" result else
      outputs_match p b -> reads_covered p b (ScalarBytes (c_scalar ir)) ->
      run_result_ok (ScalarBitWidth (c_scalar ir)) (c_domain ir) math (BindingView b) p (BuildBindingPlan p) (output_data b)
        0 (b_tile_count b) result
  end.

(** ** The scratch *)
Lemma align_up_bounds a : 0 <= a -> a <= (a + 16 - 1) / 16 * 16 <= a + 15.
Proof. intros. pose proof (Z.div_mod (a + 16 - 1) 16). pose proof (Z.mod_pos_bound (a + 16 - 1) 16). lia. Qed.

Lemma take_array_ok size count a last : 0 < size -> 0 <= a -> 0 <= count -> (a + 16 - 1) / 16 * 16 + count * size <= last ->
  take_array size 16 count (a, last) = Some ((a + 16 - 1) / 16 * 16, ((a + 16 - 1) / 16 * 16 + count * size, last)).
Proof.
  intros Hs Ha Hc Hfit. unfold take_array. set (start := _ / 16 * 16) in *. assert (count <= (last - start) / size) by (apply Z.div_le_lower_bound; lia).
  rewrite (proj2 (Z.ltb_ge _ _)), (proj2 (Z.ltb_ge _ _)) by nia. done.
Qed.

(** The scratch is large enough wherever it is, and its arrays are apart. *)
Lemma PrepareRunScratch_ok w fixed values address : w = 32 \/ w = 64 -> 0 <= values -> 0 <= address ->
  exists layout, PrepareRunScratch w fixed values address (scratch_bytes w fixed values) = Some layout /\
    address <= layout.1 /\
    match layout.2 with
    | None => layout.1 + values * 16 <= address + scratch_bytes w fixed values
    | Some (wide, valid) => layout.1 + values * 16 <= wide /\ wide + values * kLaneCount w * 16 <= valid /\
        valid + values <= address + scratch_bytes w fixed values
    end.
Proof.
  intros Hw Hv Ha. assert (0 < kLaneCount w) as HK by (destruct Hw as [-> | ->]; done).
  assert (RequiredScratchBytes w fixed values <= scratch_bytes w fixed values) as Hb.
  { unfold scratch_bytes, kScratchAlignment. apply align_up_bounds. unfold RequiredScratchBytes, kScratchAlignment. destruct fixed; nia. }
  unfold PrepareRunScratch. rewrite (proj2 (Z.ltb_ge _ _)) by done. pose proof (align_up_bounds address Ha) as Hal. set (bytes := scratch_bytes w fixed values) in *.
  unfold RequiredScratchBytes, kScratchAlignment in Hb. rewrite take_array_ok by (destruct fixed; nia). cbn [mbind option_bind]. set (v := _ / 16 * 16) in *.
  destruct fixed; cbn [negb].
  - assert ((v + values * 16 + 16 - 1) / 16 * 16 = v + values * 16) as Hwide.
    { subst v. replace ((address + 16 - 1) / 16 * 16 + values * 16 + 16 - 1) with (15 + ((address + 16 - 1) / 16 + values) * 16) by lia.
      rewrite Z.div_add by lia. change (15 / 16) with 0. lia. }
    rewrite take_array_ok by (rewrite ?Hwide; nia). cbn [mbind option_bind]. rewrite Hwide. unfold take_array at 1.
    rewrite Z.div_1_r, Z.mul_1_r, !Z.mul_1_r, Z.div_1_r. rewrite (proj2 (Z.ltb_ge _ _)), (proj2 (Z.ltb_ge _ _)) by nia. cbn [orb mbind option_bind].
    eexists. split; [done|]. cbn [fst snd]. nia.
  - eexists. split; [done|]. cbn [fst snd]. nia.
Qed.


(** ** Three invocations *)
Module Invocations.
Definition ir_of (domain : ComputeDomain) (p : ParsedIR) : ComputeIR :=
  let bytes := SerializeParsedIR p in
  {| c_scalar := Lane32; c_domain := domain; c_format := no_format; op_hash_hi := (HashComputeIrCanonicalBytes bytes).1;
     op_hash_lo := (HashComputeIrCanonicalBytes bytes).2; canonical_bytes := bytes; c_failure := None |}.
Definition neon : CpuCaps :=
  {| cpu_backend := true; strategy := Neon; lane_bytes := 16; fixed_lane32_lanes := 4; fixed_lane64_lanes := 2; caps_failure := None |}.
Definition words (l : list Z) : list Z := concat (map (le_bytes 4) l).
Definition span (data : list Z) (count : Z) : BufferSpan := {| s_data := Some data; s_element_bytes := 4; s_stride_bytes := 4; s_count := count |}.
Definition set_of (ir : ComputeIR) (tiles params : Z) (data : option (list Z)) (ins outs : list BufferSpan) (width : Z) : BindingSet :=
  {| failure := None; has_sequence := false; b_tile_count := tiles; b_logical_offset := 0; b_hash_hi := op_hash_hi ir; b_hash_lo := op_hash_lo ir;
     b_scalar := Lane32; b_domain := c_domain ir; output_bytes_per_tile := width; b_param_bytes := params; param_data := data;
     param_data_bytes := params; inputs := ins; input_element_bytes := []; output_spans := outs;
     staged_output := None; staged_output_stride := 0; staged_output_count := 0; resident_output := false |}.
Definition math : LaneMath := Example5.zero_math.
Definition scratch (n : Z) : list ValueSlot := replicate (Z.to_nat n) (mkSlot [] [] false).

(** Twice the input plus the parameter. *)
Definition ir : ComputeIR := ir_of I32 sample_program.
Definition set5 : BindingSet := set_of ir 5 4 (Some (words [1])) [span (words [1; -2; 3; 0; 5]) 5] [span (replicate 20 0) 5] 4.

Example outputs_of_five :
  RunCpuSimd math scratch 4100 ir neon set5 = Some (AcceptRun {| tiles := 5; vectors := 1; tails := 1 |}, [words [3; -3; 7; 1; 11]]).
Proof. vm_compute. reflexivity. Qed.

Lemma admits5 : AdmitComputeInput ir = Some (inl sample_program).
Proof. vm_compute. reflexivity. Qed.

Lemma set5_ok : invocation_ok ir set5.
Proof.
  split.
  - apply Forall_forall. intros x Hx. vm_compute in Hx. unfold is_byte. repeat (apply elem_of_cons in Hx as [->|Hx]; [lia|]). by apply elem_of_nil in Hx.
  - assert (forall data, Forall is_byte data -> zlen data = 20 -> span_backed (span data 5)) as G.
    { intros data Hd Hl. split; [split; vm_compute; discriminate|]. intros d [= <-]. split; [done|]. rewrite Hl. split; [vm_compute; discriminate|].
      cbn [span s_count s_stride_bytes s_element_bytes]. lia. }
    split; [split; vm_compute; discriminate | by intros d [= <-] | |];
      (constructor; [|constructor]); apply G; (reflexivity || (vm_compute; repeat constructor; discriminate)).
Qed.

Lemma set5_outputs : outputs_match sample_program set5.
Proof.
  intros k c slot Hk Hkind Hs. pose proof (zget_range _ _ _ Hk) as Hr. change (zlen (ir_bindings sample_program)) with 3 in Hr.
  assert (k = 0 \/ k = 1 \/ k = 2) as [->|[->| ->]] by lia; vm_compute in Hk; injection Hk as <-; try discriminate Hkind.
  vm_compute in Hs. injection Hs as <-. reflexivity.
Qed.
Lemma set5_reads : reads_covered sample_program set5 4.
Proof. intros node Hin. repeat (apply elem_of_cons in Hin as [->|Hin]; [discriminate|]). by apply elem_of_nil in Hin. Qed.

(** An input that is read at indices and then at the tile needs only an element for every
    tile: an index below the bound of its [ReadAt] is out of the input. *)
Definition gather : ParsedIR :=
  mkIR [109] 3 no_format [mkBinding 2 3 [105] 4 false []; mkBinding 2 4 [106] 4 false []; mkBinding 3 3 [111] 4 false []]
    [mkNode Op.ReadAt 1 8 0 no_format; mkNode Op.Read 0 0 0 no_format; mkNode Op.Add 1 2 0 no_format; mkNode Op.Write 3 0 2 no_format].
Definition gather_set : BindingSet :=
  set_of (ir_of I32 gather) 2 0 None [span (words [1; 2]) 2; span (words [5; 0]) 2] [span (replicate 8 0) 2] 4.

Example gather_out_of_range :
  (exists p, PrepareRun (ir_of I32 gather) neon gather gather_set = Some (inl p)) /\
  RunCpuSimd math scratch 0 (ir_of I32 gather) neon gather_set = None.
Proof. split; [eexists|]; vm_compute; reflexivity. Qed.

(** An output of four bytes for the mask of eight that the program writes. *)
Definition mask : ParsedIR :=
  mkIR [109] 3 no_format [mkBinding 2 3 [105] 4 false []; mkBinding 3 6 [111] 8 false []]
    [mkNode Op.Read 0 0 0 no_format; mkNode Op.Constant 1 0 0 no_format; mkNode Op.Constant 0 0 0 no_format;
     mkNode Op.Lt 1 2 0 no_format; mkNode Op.Select 4 2 3 no_format; mkNode Op.Write 5 0 1 no_format].
Definition mask_set : BindingSet := set_of (ir_of I32 mask) 2 0 None [span (words [1; 2]) 2] [span (replicate 8 0) 2] 4.

Example mask_out_of_range :
  (exists p, PrepareRun (ir_of I32 mask) neon mask mask_set = Some (inl p)) /\
  RunCpuSimd math scratch 0 (ir_of I32 mask) neon mask_set = None.
Proof. split; [eexists|]; vm_compute; reflexivity. Qed.
End Invocations.

